(* ===== verification/_CoqProject ===== *)
-Q . S2P
Prelude.v
Jid.v
Http.v
ChatPolicy.v
ToolPolicy.v
Config.v
RuntimeSettings.v
SendLimits.v
PendingEdits.v
Caches.v
Queues.v
SessionKeepalive.v
Webhook.v
Rest.v
ConnectionProblem.v
MediaQuota.v
MediaPath.v
StoreTime.v
Archive.v
Messages.v
MarkRead.v
Migrations.v
Ogg.v
MediaNames.v
Outbound.v
Send.v
Polls.v
ChatActions.v
Pairing.v
Groups.v
MediaPurge.v
MediaCache.v
Download.v
Content.v
Inbound.v
Events.v
ChatNames.v
HistorySync.v
HistoryRequest.v
HistoryWire.v
HistoryShare.v
S3.v
S3Spools.v
Zip.v
Snapshot.v
SnapshotApi.v
Operator.v
OperatorConfig.v
McpToken.v
Startup.v
MediaStorage.v
MediaMigrate.v
OperatorChats.v
LegacyWebhook.v
MediaApi.v
OperatorMedia.v
