(* ===== verification/Prelude.v ===== *)
(** * Verification of the WhatsApp bridge

    A shallow embedding of the decision logic of [src/whatsapp-bridge], the Go
    process that holds the WhatsApp session, archives messages and answers the
    MCP server over REST.  Pure functions are Rocq functions, stateful handlers
    pass their state, interleaved goroutines are step relations, and a Go
    [(T, error)] is [result E T].  Everything is executable; witnesses evaluate
    the definitions on concrete inputs.

    ** The parts and how they interact

    A request enters through the REST surface, which checks Host and token, then
    read-only mode, then one snapshot of the runtime settings that it pins for
    the request, then the tool lists of that snapshot.  A handler authorises its
    chat against the chat policy of the same snapshot and a send is charged
    against the send limits of the live settings.  Messages and edits arrive
    from the client library, pass the webhook filters and the chat policy, and
    are queued for the receivers; media are fetched by a bounded pool, one
    transfer per file, within the cache quota.  A connection that fails is
    classified and remembered, and every dial passes the gate.

    ** The files

    - [Prelude]: results, 64-bit integers, Go strings as bytes with the parts of
      package [strings] the bridge uses (white space trimming on the UTF-8
      encodings, splitting, cutting), sorting, the hint databases and tactics.
    - [Jid] ([jid.go], recipient parts of [send.go] and [sender_namespace.go]):
      the client library's JID as the class [JidOps] with the laws [JidLaws] the
      bridge relies on and the instance [RefJid]; LID resolution, recipients.
    - [Http] ([rest_middleware.go]): requests, replies and the error shape.
    - [ChatPolicy] ([chat_policy.go]): allow-list parsing, membership,
      intersection, target authorisation, the identity search.
    - [ToolPolicy] ([tool_policy.go], [read_only.go]): tool lists and guards.
    - [Config] ([env_bool.go], [hours_env.go], [media_quota.go],
      [history_limits.go], [media_retention.go]): the environment variables.
    - [RuntimeSettings] ([runtime_settings.go], the setting parts of
      [media_quota.go]): definitions, defaults, the reader with its floors and
      ceilings, the same with its type assertions evaluated, and the PATCH handler
      over the table of rows.
    - [SendLimits] ([send_limits.go]): reservations, refunds and the gate over the
      usage and contact tables; [Float64] states what the bucket needs of
      floating point, [exact_float] is the exact instance.
    - [PendingEdits] ([pending_edits.go], [applyMessageEditWith] of
      [edit_forward.go]): edits that wait for their message.
    - [Caches]: [RecipientCache] ([recipient_cache.go]) and [RetryCooldown]
      ([media_retry_cooldown.go]).
    - [Queues]: [HistoryShareQueue] ([history_share_budget.go]), [MediaJobQueue]
      ([media_budget.go]) and [MediaTransferGroup] ([media_inflight.go]).
    - [SessionKeepalive] ([session_keepalive.go]): the presence loop.
    - [Webhook]: [Address] and [RuntimeWebhook] ([webhook_runtime.go]), [Filters]
      ([webhook.go]).
    - [Rest]: [Net] (what is used of package [net]), [Auth] ([auth.go]), [Hosts]
      ([rest_bind.go]), [Routes] ([rest.go], [runtimePolicyGuard] and
      [runtimeToolGuard] of [runtime_settings.go], [runtimeRESTHandler]).
    - [ConnectionProblem] ([connection_problem.go], [pairing.go]): restrictions,
      their file, restarts and the dial gate.
    - [MediaQuota] ([media_quota.go]): admission, eviction and reservations of the
      local cache.
    - [MediaPath] ([media_path.go]): the roots of outbound media and the confinement
      of a path to them.
    - [StoreTime] ([store_time.go]): the stored spelling of times, its order, and
      the rewrite of older spellings.
    - [Archive] ([store.go]): [Chats] and [Calls], rows by primary key.
    - [Messages] ([store_batch.go], [store.go], [location.go], [view_once.go],
      [media_length.go], one statement of [media_s3.go]): the statements the running
      bridge issues on a message row, the upsert included (those of the migrations at
      startup are not here); SQLite's JSON functions are the class [Sqlite].
    - [MarkRead] ([mark_read.go], its queries in [store.go]): read receipts.
    - [Migrations] ([store.go], [sender_namespace.go], [migration_markers.go]):
      [LidChats], [LidSenders], [Namespaces], [Named].
    - [Ogg] ([analyzeOggOpus] of [send.go]): the duration of a voice note.
    - [MediaNames] ([media_path.go], [media.go], [media_cache_path.go],
      [forward_media.go]): display names, cached names and their lookup.
    - [Outbound] ([send.go], [forward_media.go], [send_mime.go],
      [media_presentation.go]): the message of a send and its archive row.
    - [Send] ([send.go], [outbound_quote.go], [edit_forward.go],
      [store_failures.go]): recipients, the sender, and the handlers of
      /api/send, /api/forward and /api/edit.
    - [Polls] ([polls.go]): polls, votes and their order, the tally.
    - [ChatActions]: [Labels] and [AppState] ([labels.go], [chat_archive.go]),
      [Actions] ([delete_message.go], [chat_actions.go]).
    - [Pairing]: [Attempt] ([pairing.go]), [Controller] ([operator_pairing.go], the
      critical sections of [run] as steps of their own) and [Logout]
      ([operator_logout.go], the steps of the wipe included).
    - [Groups]: [Members] ([group_members_store.go]), [Roster] ([group_events.go],
      [group_members.go]) and [Manage] ([group_manage.go]).
    - [MediaPurge] ([media_purge.go], its scan in [media_catalog.go]): the disk of
      cached files, the purge handler and its paged scan.
    - [MediaCache] ([media_cap.go], [media.go], [media_storage.go],
      [media_retention.go]): capped writes, publication, usage and retention.
    - [Download] ([media.go], [media_retry.go]): one download attempt, its CDN
      links, the retry through the sender's phone, and the handler.
    - [Content] ([content.go], [persist.go], [media_header.go], [location.go],
      [mentions.go], [view_once.go]): the protobuf message as far as it is read,
      and what is extracted from it; [Floats] is what is used of [float64].
    - [Inbound] ([events.go], [persist.go], [store_failures.go]): one live message,
      its rows, and the webhooks and downloads it causes.
    - [Events] ([events.go], [connection_events.go]): [Notices], [Reconnect] and
      [Dispatch], the other branches of the event dispatcher.
    - [ChatNames] ([chat_names.go], [contact_names.go]): names and their caches.
    - [HistorySync] ([history_sync.go], [history_share_guard.go],
      [history_limits.go], [location.go]): a history payload, conversation by
      conversation, to the store, and the report of its progress.
    - [HistoryRequest] ([history_ondemand.go]): the handler of /api/history.
    - [HistoryWire] ([history_share_decoder.go]): the count of a shared bundle's
      messages on the wire; [Protowire] is what is used of the protobuf reader.
    - [HistoryShare] ([history_share.go], [me.go]): shared bundles, from the limits
      and the scope check to the import.
    - [S3] ([media_s3.go], [media_s3_maintenance.go], [media_s3_recovery.go],
      [media_catalog.go]): objects in a bucket and their catalogue, as a monad in
      which every call can fail before or after it took effect.
    - [S3Spools] ([media_s3_spools.go]): the pool of local copies of objects.
    - [Zip] ([operator_zip.go], [operator_export.go]): the streamed archive and a reader of it.
    - [Snapshot] and [SnapshotApi] ([operator_snapshot.go],
      [operator_archive_config.go], [operator_session_read.go]): sets of database copies,
      their publication, pruning, location and handlers.
    - [Operator] ([operator.go]): [Limiter] and [Front], the
      operator's listener in front of its routes.
    - [OperatorConfig] ([operator_config.go], [rest_bind.go], [operator_mcp.go]): the
      operator's bind, port and token, and the binds of the split network.
    - [McpToken] ([mcp_token.go]): the rotation of the MCP server's token.
    - [Startup] ([config.go], [media_s3_config.go], [proxy.go], [operator_socket_unix.go]): the
      environment as a whole, and what makes a start refuse it.
    - [MediaStorage] ([media_storage.go], [media_migrate.go]): the interface of a store of
      cached media as a record of operations with the class [StorageLaws], and the
      migration of a row and of a run against it; [MediaMigrate] has the directory of
      [MediaPurge] and [MediaCache] and the bucket of [S3] as its instances.
    - [OperatorChats] ([operator_chats.go]): the chat search of the operator.
    - [OperatorMedia] ([operator_media.go]): usage and purge of the directory, with the
      status files no message accounts for.
    - [LegacyWebhook] ([webhook.go]): the sender of WEBHOOK_URL and the media bytes of its
      payloads.
    - [MediaApi] ([media_api.go], [openMediaRange] of [media_storage.go]): one message's
      bytes, whole or in ranges, against [StorageLaws], and the catalogue of a chat.

    ** What the theorems show

    Authorisation: nothing runs behind an unauthorised request and an authorised
    one is served under one snapshot ([Rest]); runtime settings never widen the
    deployment's tools, chats and budgets, reading them never panics on a type, and
    saved values read back ([RuntimeSettings]); intersection, identities and targets of the allow-list
    are exactly the intended sets ([ChatPolicy]); a webhook receiver is public,
    cannot widen the deployment and gets each event once ([Webhook]); a file
    is sent only from below a configured root ([MediaPath]).
    Accounting: no history of reservations, refunds and failures exceeds a send
    budget ([SendLimits]), the cache stays within its quota ([MediaQuota]),
    tables, caches and queues are bounded and lose nothing they accepted
    ([PendingEdits], [Caches], [Queues]).  Lifecycle: a restriction survives
    failures, and restarts that come after it was written, and gates every dial
    ([ConnectionProblem]), presence is always taken back ([SessionKeepalive]).
    Archive: stored times sort like instants and older spellings are rewritten in
    resumable pages ([StoreTime]); chat times and call results depend only on
    what was reported ([Archive]); a row never mixes the credentials of two files,
    takes new ones exactly under the rules of the upsert, and never forgets what it
    knew ([Messages]); migrations move every row
    ([Migrations]).  Receipts: the read marker never passes an unacknowledged
    message and receipts are neither repeated nor sent unauthorised ([MarkRead]).
    Sends: nothing goes out without policy, budget and confinement, the charge
    follows delivery, the row of a sent file can fetch it again ([Send],
    [Outbound]); names and voice notes are read within bounds ([MediaNames],
    [Ogg]).  Polls: the latest vote wins however votes arrive and the tally counts
    each voter once ([Polls]).  Chats: labels converge in any order of mutations,
    and deletions, filing and group changes act only on what the policy permits
    ([ChatActions], [Groups]); fetched rosters become the membership, excluded
    groups are never cached, and the roster pass starves nobody ([Groups]).
    Pairing: only current credentials are shown, a device being saved is never
    replaced and a new attempt waits for it, attempts and codes are bounded, and a
    logout survives a crash at any point and is confirmed only when the keys, the free
    pages, the WAL and the copies are gone ([Pairing]).
    Media: a purge touches only files of permitted rows and a dry run none, pages
    visit every row once ([MediaPurge]); a published file is whole and within its
    cap, retention removes exactly the expired files ([MediaCache]); the phone is
    asked only for a link that is no longer fresh, and a file is called gone only on
    its word ([Download]).
    Messages: archived text carries no token or key of its envelope and amounts are
    exact ([Content]); what leaves the bridge rests on the row, the filters and the
    allow-list, activity follows stored rows, original send times survive retries
    and writes are retried a bounded number of times ([Inbound]).  Connection:
    transitions are told once, the redial waits double within bounds, an unlinked
    client stays down, calls end in one row ([Events]).  Names: stand-ins heal, real
    names stay, no peer is named after us ([ChatNames]).  History: every row is
    committed or reported, and shared history only adds ([HistorySync]); history is
    asked for only of permitted chats and below an archived message
    ([HistoryRequest]); the wire count is that of an unlimited decoder
    ([HistoryWire]); a bundle reaches only the chat it was shared for, never as our
    own words ([HistoryShare]).  Bucket: whatever call fails, every object is known
    to the catalogue or to a journal, an undisturbed sweep empties the journals, and
    what was stored is read back ([S3]); local copies stay within their budget ([S3Spools]).
    Operator: nothing is answered before peer, Host, token and Origin were checked,
    whatever changes something is audited and the rate is bounded over every interval
    ([Operator]); a streamed archive
    reads back as what was written and ends ([Zip]); a snapshot appears whole or not at
    all, its retention takes regular files of older sets only and a failure of it is
    reported, and pruning removes exactly the sets beyond the newest ([Snapshot]); a token
    rotates without losing a setting, the old one for a day at most ([McpToken]).
    Startup: an accepted environment has narrow listeners on ports of their own, and
    neither token opens the other's door ([OperatorConfig], [Startup]).  Migration: no
    file is lost between the directory and the bucket, and a run without failures
    moved everything ([MediaStorage], [MediaMigrate]).  Reads: bytes go out only for an
    allowed chat and as the store holds them, and cursors visit the catalogue once
    ([MediaApi]).  Search: the paged scan is the plain one over all allowed chats
    ([OperatorChats]).  Operator media: usage adds up, and a purge takes only files of
    rows it was asked for or status files without a row ([OperatorMedia]).  Legacy webhook: the token goes only to an explicit address and
    media only under their declared hash ([LegacyWebhook]).

    ** Bounds and fuel

    The identity search takes fuel; [allowsIdentity_decides] shows that it answers
    whenever the identities of the user are finitely many, with fuel linear in
    their number.  [Rest.Net.ipv6_groups] reads at most nine groups, one more
    than an address has.  The delivery loop has the five attempts of the source.
    The timestamp rewrite has one round of fuel more than rows, the Ogg scan one
    more than bytes, and both are shown to end; read receipts go in pages of 2000
    and batches of 100 as in the source.  Group handlers pass their fuel to the
    identity search.
    Integers are [Z]; where width matters the wrap-around is written out
    ([wrap_uint64]) or a range is proved.  Times are nanoseconds.

    Chunks of history have at most 500 rows, as many slices as rows are enough and
    shown to cover the payload; the retry of a write has one attempt more than
    delays; scans go in pages of 256 rows with one page of fuel more than rows.
    The wire scan has as much fuel as bytes, each record being at least one byte
    long; making room among the spools has one round more than entries.
    Sizes in an archive are below 2^64 as in the ZIP64 records; the limiter's
    floating-point levels are rationals, and the entropy of a token is compared in exact
    integers.  The rows of a migration go one after the other; the run's other workers
    are what may happen to the bucket while a lock is awaited.

    ** What is not modelled

    Of the S3 backend, quota admission (its verdict is an argument) and transient
    reads; full-text search; of the operator API, the rows of an export, the media
    pages of the bucket, the proxy to the MCP server's admin port and the socket itself;
    logging, metrics and platform glue have no decisions of their own.  The client
    library, the file system, the resolver and the clock appear as parameters and
    as the outcomes of steps; the outcome of a database write is an argument where
    the source goes on after a failure.  A stored time is an integer, so the rows whose
    time does not parse, which the unread query skips, do not occur ([MarkRead]); the
    writes of a call's events succeed ([Events]); a transfer of the quota has a
    destination of its own and a candidate keeps its size until it is removed
    ([MediaQuota]); the walk over unmapped files at the end of a migration is left out
    ([MediaMigrate]).
    [strings.ToLower] and [strings.EqualFold] are modelled on ASCII letters. *)
From Stdlib Require Export ZArith Lia Ascii String.
From stdpp Require Export base tactics list sorting strings gmap fin_maps fin_sets.

(** ** Results of fallible code

    A Go function returning [(T, error)] is modelled by [result E T]: the
    error is a value of the type [E] of the component (a string where the
    source builds a message, an inductive type where the callers distinguish
    the cases). *)

Inductive result (E A : Type) : Type :=
| Ok (a : A)
| Err (e : E).

Arguments Ok {E A} a.
Arguments Err {E A} e.

Definition is_ok {E A} (r : result E A) : bool :=
  match r with Ok _ => true | Err _ => false end.

Definition result_bind {E A B} (r : result E A) (k : A → result E B) : result E B :=
  match r with Ok a => k a | Err e => Err e end.

Declare Scope go_scope.
Delimit Scope go_scope with go.
Notation "'let?' x := r 'in' k" := (result_bind r (λ x, k))
  (at level 10, x pattern, r at level 100, k at level 200) : go_scope.

Lemma result_bind_ok {E A B} (r : result E A) (k : A → result E B) b :
  result_bind r k = Ok b ↔ ∃ a, r = Ok a ∧ k a = Ok b.
Proof. destruct r as [a|e]; simpl; [|naive_solver]. split; [eauto|intros (?&?&?); congruence]. Qed.

(** ** Machine integers *)

Definition max_int64 : Z := 2 ^ 63 - 1.
Definition max_uint64 : Z := 2 ^ 64 - 1.
Definition in_int64 (z : Z) : Prop := (- 2 ^ 63 ≤ z ≤ max_int64)%Z.
Definition in_uint64 (z : Z) : Prop := (0 ≤ z ≤ max_uint64)%Z.
(** Unsigned 64-bit arithmetic wraps around. *)
Definition wrap_uint64 (z : Z) : Z := (z mod 2 ^ 64)%Z.

Lemma wrap_uint64_id z : in_uint64 z → wrap_uint64 z = z.
Proof. unfold in_uint64, max_uint64, wrap_uint64. intros. apply Z.mod_small. lia. Qed.

(** ** Bytes and Go strings

    A Go string is a sequence of bytes; [string] is the Standard Library's,
    with [ascii] for a byte.  The functions below are the parts of package
    [strings] the bridge uses. *)

Definition byte_code (a : ascii) : Z := Z.of_N (Ascii.N_of_ascii a).
Definition byte_of (z : Z) : ascii := Ascii.ascii_of_N (Z.to_N z).

(** [strings.Count(s, "c")] for a one-byte separator. *)
Fixpoint count_byte (c : ascii) (s : string) : nat :=
  match s with
  | EmptyString => 0
  | String a t => (if Ascii.eqb a c then 1 else 0) + count_byte c t
  end.

(** [strings.Contains(s, "c")]. *)
Fixpoint contains_byte (c : ascii) (s : string) : bool :=
  match s with
  | EmptyString => false
  | String a t => Ascii.eqb a c || contains_byte c t
  end.

(** [strings.ContainsAny(s, cs)]. *)
Definition contains_any (cs s : string) : bool :=
  existsb (λ c, contains_byte c s) (list_ascii_of_string cs).

(** [s[:i], s[i+1:]] with [i = strings.Index(s, "c")], [None] when [i < 0]. *)
Fixpoint cut_first (c : ascii) (s : string) : option (string * string) :=
  match s with
  | EmptyString => None
  | String a t =>
      if Ascii.eqb a c then Some (EmptyString, t)
      else match cut_first c t with
           | Some (u, v) => Some (String a u, v)
           | None => None
           end
  end.

(** [s[:i], s[i+1:]] with [i = strings.LastIndex(s, "c")]. *)
Fixpoint cut_last (c : ascii) (s : string) : option (string * string) :=
  match s with
  | EmptyString => None
  | String a t =>
      match cut_last c t with
      | Some (u, v) => Some (String a u, v)
      | None => if Ascii.eqb a c then Some (EmptyString, t) else None
      end
  end.

(** [strings.Split(s, "c")]: never the empty list. *)
Fixpoint split_byte (c : ascii) (s : string) : list string :=
  match s with
  | EmptyString => [EmptyString]
  | String a t =>
      if Ascii.eqb a c then EmptyString :: split_byte c t
      else match split_byte c t with
           | w :: ws => String a w :: ws
           | [] => [String a EmptyString]
           end
  end.

(** [strings.Join(ws, sep)]. *)
Definition join (sep : string) (ws : list string) : string := String.concat sep ws.

(** [strings.ToLower] on the ASCII letters; bytes above 0x7f are left alone
    (the bridge lower-cases host names, servers and switch words). *)
Definition lower_byte (a : ascii) : ascii :=
  if bool_decide (65 ≤ byte_code a ≤ 90)%Z then byte_of (byte_code a + 32) else a.

Fixpoint to_lower (s : string) : string :=
  match s with
  | EmptyString => EmptyString
  | String a t => String (lower_byte a) (to_lower t)
  end.

(** [strings.HasPrefix(s, p)] and [s[len(p):]] together, i.e. [strings.CutPrefix]. *)
Fixpoint strip_prefix (p s : string) : option string :=
  match p, s with
  | EmptyString, _ => Some s
  | String a p', String b s' => if Ascii.eqb a b then strip_prefix p' s' else None
  | String _ _, EmptyString => None
  end.

Definition has_prefix (p s : string) : bool :=
  match strip_prefix p s with Some _ => true | None => false end.

(** *** [strings.TrimSpace]

    The UTF-8 encodings of the runes [unicode.IsSpace] accepts: one-byte,
    two-byte (U+0085, U+00A0) and three-byte (U+1680, U+2000-U+200A, U+2028,
    U+2029, U+202F, U+205F, U+3000) sequences. *)

Definition space1 (a : ascii) : bool :=
  bool_decide (9 ≤ byte_code a ≤ 13)%Z || Z.eqb (byte_code a) 32.

Definition space2 (a b : ascii) : bool :=
  Z.eqb (byte_code a) 194 && (Z.eqb (byte_code b) 133 || Z.eqb (byte_code b) 160).

Definition space3 (a b c : ascii) : bool :=
  let x := byte_code a in let y := byte_code b in let z := byte_code c in
  (Z.eqb x 225 && Z.eqb y 154 && Z.eqb z 128)
  || (Z.eqb x 226 && Z.eqb y 128 &&
      (bool_decide (128 ≤ z ≤ 138)%Z || Z.eqb z 168 || Z.eqb z 169 || Z.eqb z 175))
  || (Z.eqb x 226 && Z.eqb y 129 && Z.eqb z 159)
  || (Z.eqb x 227 && Z.eqb y 128 && Z.eqb z 128).

(** Strips the leading runs recognised by the three tests. *)
Fixpoint strip_runs (f1 : ascii → bool) (f2 : ascii → ascii → bool)
    (f3 : ascii → ascii → ascii → bool) (l : list ascii) : list ascii :=
  match l with
  | [] => []
  | a :: t1 =>
      if f1 a then strip_runs f1 f2 f3 t1
      else match t1 with
           | [] => l
           | b :: t2 =>
               if f2 a b then strip_runs f1 f2 f3 t2
               else match t2 with
                    | [] => l
                    | c :: t3 => if f3 a b c then strip_runs f1 f2 f3 t3 else l
                    end
           end
  end.

Definition trim_left (l : list ascii) : list ascii := strip_runs space1 space2 space3 l.

Definition trim_right (l : list ascii) : list ascii :=
  reverse (strip_runs space1 (λ b a, space2 a b) (λ c b a, space3 a b c) (reverse l)).

Definition trim_space (s : string) : string :=
  string_of_list_ascii (trim_right (trim_left (list_ascii_of_string s))).

(** ** Lemmas on bytes and strings *)

Lemma byte_code_range a : (0 ≤ byte_code a < 256)%Z.
Proof.
  unfold byte_code. pose proof (Ascii.N_ascii_bounded a). lia.
Qed.

Lemma byte_code_of z : (0 ≤ z < 256)%Z → byte_code (byte_of z) = z.
Proof.
  intros. unfold byte_code, byte_of. rewrite Ascii.N_ascii_embedding by lia. lia.
Qed.

Lemma byte_code_inj a b : byte_code a = byte_code b → a = b.
Proof.
  unfold byte_code. intros H%N2Z.inj.
  by rewrite <-(Ascii.ascii_N_embedding a), H, Ascii.ascii_N_embedding.
Qed.

Lemma lower_byte_code a :
  byte_code (lower_byte a) =
    if bool_decide (65 ≤ byte_code a ≤ 90)%Z then (byte_code a + 32)%Z else byte_code a.
Proof.
  unfold lower_byte. case_bool_decide; [|done]. apply byte_code_of. lia.
Qed.

Lemma lower_byte_idemp a : lower_byte (lower_byte a) = lower_byte a.
Proof.
  apply byte_code_inj. rewrite !lower_byte_code. repeat case_bool_decide; lia.
Qed.

Lemma to_lower_idemp s : to_lower (to_lower s) = to_lower s.
Proof. induction s as [|a s IH]; simpl; [done|]. by rewrite lower_byte_idemp, IH. Qed.

Lemma ascii_eqb_spec a b : Ascii.eqb a b = bool_decide (a = b).
Proof.
  destruct (Ascii.eqb_spec a b); symmetry;
    [by apply bool_decide_eq_true|by apply bool_decide_eq_false].
Qed.

(** Case analysis on the byte comparisons of the string functions. *)
Ltac byte_cases :=
  repeat (simpl in *;
          rewrite ?ascii_eqb_spec in *;
          match goal with
          | |- context [bool_decide (?a = ?b :> ascii)] => case_bool_decide
          | H : context [bool_decide (?a = ?b :> ascii)] |- _ => case_bool_decide
          end);
  simpl in *; simplify_eq.

Lemma contains_count c s : contains_byte c s = negb (Nat.eqb (count_byte c s) 0).
Proof. induction s as [|a s IH]; byte_cases; done. Qed.

Lemma count_byte_app c s t : count_byte c (s +:+ t) = count_byte c s + count_byte c t.
Proof. induction s as [|a s IH]; simpl; [done|]. rewrite IH. lia. Qed.

Lemma contains_byte_app c s t :
  contains_byte c (s +:+ t) = contains_byte c s || contains_byte c t.
Proof. induction s as [|a s IH]; simpl; [done|]. by rewrite IH, orb_assoc. Qed.

Lemma count_zero c s : count_byte c s = 0 ↔ contains_byte c s = false.
Proof. rewrite contains_count. destruct (count_byte c s); simpl; naive_solver. Qed.

Lemma string_app_cons a s t : String a s +:+ t = String a (s +:+ t).
Proof. reflexivity. Qed.

Lemma string_app_nil_r s : s +:+ "" = s.
Proof. induction s as [|a s IH]; [done|]. by rewrite string_app_cons, IH. Qed.

Lemma string_app_assoc s t u : (s +:+ t) +:+ u = s +:+ (t +:+ u).
Proof. induction s as [|a s IH]; [done|]. by rewrite !string_app_cons, IH. Qed.

Lemma cut_first_Some c s u v :
  cut_first c s = Some (u, v) → s = u +:+ String c v ∧ contains_byte c u = false.
Proof.
  revert u v. induction s as [|a s IH]; intros u v Heq; byte_cases; [done..|].
  destruct (cut_first c s) as [[u' v']|]; simplify_eq.
  destruct (IH _ _ eq_refl) as [-> ?]. split; [done|]. byte_cases; done.
Qed.

Lemma cut_first_None c s : cut_first c s = None ↔ contains_byte c s = false.
Proof.
  induction s as [|a s IH]; byte_cases; [naive_solver..|].
  rewrite <-IH. repeat case_match; naive_solver.
Qed.

Lemma cut_first_app c u v : contains_byte c u = false → cut_first c (u +:+ String c v) = Some (u, v).
Proof.
  induction u as [|a u IH]; byte_cases; [done..|]. intros H1%IH. by rewrite H1.
Qed.

Lemma cut_last_Some c s u v :
  cut_last c s = Some (u, v) → s = u +:+ String c v ∧ contains_byte c v = false.
Proof.
  assert (∀ t, cut_last c t = None → contains_byte c t = false) as Hnone.
  { intros t. induction t as [|a t IH]; byte_cases; repeat case_match; naive_solver. }
  revert u v. induction s as [|a s IH]; intros u v; simpl; [done|].
  destruct (cut_last c s) as [[u' v']|] eqn:E.
  - intros; simplify_eq. destruct (IH _ _ eq_refl) as [-> ?]. done.
  - byte_cases; naive_solver.
Qed.

Lemma cut_last_None c s : cut_last c s = None ↔ contains_byte c s = false.
Proof.
  induction s as [|a s IH]; simpl; [done|].
  destruct (cut_last c s) as [[u v]|]; byte_cases; naive_solver.
Qed.

Lemma cut_last_app c u v : contains_byte c v = false → cut_last c (u +:+ String c v) = Some (u, v).
Proof.
  intros H%cut_last_None. induction u as [|a u IH]; simpl.
  - rewrite H. by rewrite Ascii.eqb_refl.
  - by rewrite IH.
Qed.

Lemma to_lower_app s t : to_lower (s +:+ t) = to_lower s +:+ to_lower t.
Proof. induction s as [|a s IH]; simpl; [done|]. by rewrite IH. Qed.

Lemma to_lower_contains c s :
  bool_decide (65 ≤ byte_code c ≤ 90 ∨ 97 ≤ byte_code c ≤ 122)%Z = false →
  contains_byte c (to_lower s) = contains_byte c s.
Proof.
  intros Hc%bool_decide_eq_false. induction s as [|a s IH]; simpl; [done|]. rewrite IH.
  f_equal. rewrite !ascii_eqb_spec. apply bool_decide_ext.
  split; intros Heq; apply (f_equal byte_code) in Heq; apply byte_code_inj;
    rewrite lower_byte_code in *; case_bool_decide; lia.
Qed.

(** *** Trimming *)

(** No run recognised by the tests starts the list. *)
Definition lead_ok (f1 : ascii → bool) (f2 : ascii → ascii → bool)
    (f3 : ascii → ascii → ascii → bool) (l : list ascii) : bool :=
  match l with
  | [] => true
  | a :: t => negb (f1 a) &&
      match t with
      | [] => true
      | b :: u => negb (f2 a b) &&
          match u with [] => true | c :: _ => negb (f3 a b c) end
      end
  end.

Lemma strip_runs_ok f1 f2 f3 l : lead_ok f1 f2 f3 (strip_runs f1 f2 f3 l) = true.
Proof.
  remember (length l) as n eqn:Hn. revert l Hn.
  induction (lt_wf n) as [n _ IH]; intros l ->.
  destruct l as [|a [|b [|c l]]]; simpl.
  - done.
  - destruct (f1 a) eqn:E; simpl; [done|]. by rewrite E.
  - destruct (f1 a) eqn:E; [apply (IH 1 ltac:(simpl; lia) [b] eq_refl)|].
    destruct (f2 a b) eqn:E2; simpl; [done|]. by rewrite E, E2.
  - destruct (f1 a) eqn:E; [apply (IH (length (b :: c :: l)) ltac:(simpl; lia) (b :: c :: l) eq_refl)|].
    destruct (f2 a b) eqn:E2; [apply (IH (length (c :: l)) ltac:(simpl; lia) (c :: l) eq_refl)|].
    destruct (f3 a b c) eqn:E3; [apply (IH (length l) ltac:(simpl; lia) l eq_refl)|].
    simpl. by rewrite E, E2, E3.
Qed.

Lemma strip_runs_id f1 f2 f3 l : lead_ok f1 f2 f3 l = true → strip_runs f1 f2 f3 l = l.
Proof.
  destruct l as [|a [|b [|c l]]]; simpl; intros H; [done|..];
    repeat match goal with |- context [if ?b then _ else _] => destruct b end; done.
Qed.

Lemma strip_runs_cons f1 f2 f3 a t1 :
  strip_runs f1 f2 f3 (a :: t1) =
    if f1 a then strip_runs f1 f2 f3 t1
    else match t1 with
         | [] => a :: t1
         | b :: t2 =>
             if f2 a b then strip_runs f1 f2 f3 t2
             else match t2 with
                  | [] => a :: t1
                  | c :: t3 => if f3 a b c then strip_runs f1 f2 f3 t3 else a :: t1
                  end
         end.
Proof. reflexivity. Qed.

Lemma strip_runs_suffix (P : ascii → Prop) f1 f2 f3 l :
  (∀ a, f1 a = true → P a) → (∀ a b, f2 a b = true → P a ∧ P b) →
  (∀ a b c, f3 a b c = true → P a ∧ P b ∧ P c) →
  ∃ k, l = k ++ strip_runs f1 f2 f3 l ∧ Forall P k.
Proof.
  intros P1 P2 P3. remember (length l) as n eqn:Hn. revert l Hn.
  induction (lt_wf n) as [n _ IH]; intros l ->.
  assert (∀ k l', l = k ++ l' → length l' < length l → Forall P k →
    ∃ k', l = k' ++ strip_runs f1 f2 f3 l' ∧ Forall P k') as Hstep.
  { intros k l' Heq Hlt Hk. destruct (IH _ Hlt l' eq_refl) as (k' & Hk' & HP).
    exists (k ++ k'). rewrite <-app_assoc, <-Hk'. split; [done|]. by apply Forall_app. }
  destruct l as [|a t1]; [by exists []|]. rewrite strip_runs_cons.
  destruct (f1 a) eqn:E1; [apply (Hstep [a]); [done|simpl; lia|by auto]|].
  destruct t1 as [|b t2]; [by exists []|].
  destruct (f2 a b) eqn:E2; [apply (Hstep [a; b]); [done|simpl; lia|]|].
  { apply P2 in E2. rewrite !Forall_cons. naive_solver. }
  destruct t2 as [|c t3]; [by exists []|].
  destruct (f3 a b c) eqn:E3; [|by exists []].
  apply (Hstep [a; b; c]); [done|simpl; lia|]. apply P3 in E3. rewrite !Forall_cons. naive_solver.
Qed.

Lemma lead_ok_prefix f1 f2 f3 l k : lead_ok f1 f2 f3 (l ++ k) = true → lead_ok f1 f2 f3 l = true.
Proof.
  destruct l as [|a [|b [|c l]]]; simpl; [done| | |done]; destruct (f1 a); simpl; try done.
  destruct (f2 a b); done.
Qed.

Definition lead_space : list ascii → bool := lead_ok space1 space2 space3.
Definition trail_space (l : list ascii) : bool :=
  lead_ok space1 (λ b a, space2 a b) (λ c b a, space3 a b c) (reverse l).

(** No white space at either end. *)
Definition trimmed (s : string) : bool :=
  lead_space (list_ascii_of_string s) && trail_space (list_ascii_of_string s).

Lemma trim_space_trimmed s : trimmed (trim_space s) = true.
Proof.
  unfold trimmed, trim_space, lead_space, trail_space, trim_right, trim_left.
  rewrite list_ascii_of_string_of_list_ascii.
  set (l := strip_runs space1 space2 space3 _).
  rewrite andb_true_iff. split.
  - destruct (strip_runs_suffix (λ _, True) space1 (λ b a, space2 a b) (λ c b a, space3 a b c)
      (reverse l)) as (k & Hk & _); [done..|]. set (r := strip_runs _ _ _ (reverse l)) in *.
    apply (lead_ok_prefix _ _ _ _ (reverse k)).
    rewrite <-reverse_app, <-Hk, reverse_involutive. apply strip_runs_ok.
  - rewrite reverse_involutive. apply strip_runs_ok.
Qed.

Lemma trim_space_id s : trimmed s = true → trim_space s = s.
Proof.
  unfold trimmed, trim_space, lead_space, trail_space, trim_right, trim_left.
  intros [H1 H2]%andb_true_iff. rewrite (strip_runs_id _ _ _ _ H1).
  rewrite (strip_runs_id _ _ _ _ H2), reverse_involutive.
  apply string_of_list_ascii_of_string.
Qed.

Lemma trim_space_idemp s : trim_space (trim_space s) = trim_space s.
Proof. apply trim_space_id, trim_space_trimmed. Qed.

(** A byte that neither is white space nor continues an encoding of it. *)
Definition plain_byte (c : ascii) : bool :=
  bool_decide (33 ≤ byte_code c < 128)%Z.

Ltac space_to_Z :=
  unfold plain_byte, space1, space2, space3 in *;
  repeat match goal with
         | H : context [_ || _ = true] |- _ => rewrite orb_true_iff in H
         | H : context [_ && _ = true] |- _ => rewrite andb_true_iff in H
         | H : context [bool_decide _ = true] |- _ => rewrite bool_decide_eq_true in H
         | |- context [_ || _ = true] => rewrite orb_true_iff
         | |- context [_ && _ = true] => rewrite andb_true_iff
         | |- context [bool_decide _ = true] => rewrite bool_decide_eq_true
         end.

Lemma space1_true a : space1 a = true → (9 ≤ byte_code a ≤ 32)%Z.
Proof. space_to_Z. lia. Qed.
Lemma space2_true a b : space2 a b = true → (128 ≤ byte_code a ∧ 128 ≤ byte_code b)%Z.
Proof. space_to_Z. lia. Qed.
Lemma space3_true a b c :
  space3 a b c = true → (128 ≤ byte_code a ∧ 128 ≤ byte_code b ∧ 128 ≤ byte_code c)%Z.
Proof. space_to_Z. lia. Qed.

Lemma plain_space1 c : plain_byte c = true → space1 c = false.
Proof. intros H. apply not_true_is_false. intros ?%space1_true. space_to_Z. lia. Qed.
Lemma plain_space2 a b d : plain_byte d = true → a = d ∨ b = d → space2 a b = false.
Proof.
  intros H Hd. apply not_true_is_false. intros ?%space2_true. space_to_Z.
  destruct Hd; subst; lia.
Qed.
Lemma plain_space3 a b c d :
  plain_byte d = true → a = d ∨ b = d ∨ c = d → space3 a b c = false.
Proof.
  intros H Hd. apply not_true_is_false. intros ?%space3_true. space_to_Z.
  destruct Hd as [?|[?|?]]; subst; lia.
Qed.

(** Only the part before a plain byte matters for the leading run. *)
Lemma lead_ok_sep f1 f2 f3 (g : ascii → ascii) l x y d :
  f1 d = false → (∀ a, f2 a d = false) → (∀ a, f2 d a = false) →
  (∀ a b c, a = d ∨ b = d ∨ c = d → f3 a b c = false) →
  (∀ a, f1 (g a) = f1 a) → (∀ a b, f2 (g a) (g b) = f2 a b) →
  (∀ a b c, f3 (g a) (g b) (g c) = f3 a b c) →
  lead_ok f1 f2 f3 (l ++ x) = true → lead_ok f1 f2 f3 (map g l ++ d :: y) = true.
Proof.
  intros H1 H2 H2' H3 G1 G2 G3.
  destruct l as [|a [|b [|c l]]]; simpl; rewrite ?G1, ?G2, ?G3; [..|done].
  - intros _. rewrite H1. destruct y as [|e [|f y]]; [done|..];
      rewrite H2', ?H3 by auto; done.
  - destruct (f1 a); [done|]. simpl. intros _. rewrite H2.
    destruct y; [done|]. by rewrite H3 by auto.
  - destruct (f1 a), (f2 a b); try done. simpl. intros _. by rewrite H3 by auto.
Qed.

(** Lower-casing moves no byte into or out of the white-space encodings. *)
Lemma lower_byte_small a z : (z < 65 ∨ 128 ≤ z)%Z → byte_code (lower_byte a) = z ↔ byte_code a = z.
Proof.
  pose proof (byte_code_range a). rewrite lower_byte_code. case_bool_decide; lia.
Qed.

Lemma eqb_lower_byte a z :
  (z < 65 ∨ 128 ≤ z)%Z → Z.eqb (byte_code (lower_byte a)) z = Z.eqb (byte_code a) z.
Proof. intros Hz%(lower_byte_small a). apply eq_bool_prop_intro. unfold Is_true. destruct Hz.
  destruct (Z.eqb_spec (byte_code (lower_byte a)) z), (Z.eqb_spec (byte_code a) z); tauto. Qed.

Lemma space1_lower a : space1 (lower_byte a) = space1 a.
Proof.
  unfold space1. rewrite eqb_lower_byte by lia. f_equal. apply bool_decide_ext.
  rewrite lower_byte_code. case_bool_decide; lia.
Qed.

Lemma space2_lower a b : space2 (lower_byte a) (lower_byte b) = space2 a b.
Proof. unfold space2. by rewrite !eqb_lower_byte by lia. Qed.

Lemma space3_lower a b c : space3 (lower_byte a) (lower_byte b) (lower_byte c) = space3 a b c.
Proof.
  unfold space3. rewrite !eqb_lower_byte by lia.
  assert (bool_decide (128 ≤ byte_code (lower_byte c) ≤ 138)%Z
          = bool_decide (128 ≤ byte_code c ≤ 138)%Z) as ->; [|done].
  apply bool_decide_ext. pose proof (byte_code_range c).
  rewrite lower_byte_code. case_bool_decide; lia.
Qed.

Lemma list_ascii_app s t :
  list_ascii_of_string (s +:+ t) = list_ascii_of_string s ++ list_ascii_of_string t.
Proof. induction s as [|a s IH]; [done|]. rewrite string_app_cons. simpl. by rewrite IH. Qed.

Lemma list_ascii_lower s :
  list_ascii_of_string (to_lower s) = map lower_byte (list_ascii_of_string s).
Proof. induction s as [|a s IH]; simpl; [done|]. by rewrite IH. Qed.

Section trim_sep.
Variable d : ascii.
Hypothesis Hd : plain_byte d = true.

(** Replacing what follows a prefix by [d :: y] keeps the start unstrippable. *)
Lemma lead_space_sep l x y :
  lead_space (l ++ x) = true → lead_space (l ++ d :: y) = true.
Proof.
  rewrite <-(map_id l) at 2. apply lead_ok_sep; intros; try done;
    eauto using plain_space1, plain_space2, plain_space3.
Qed.

(** The same at the end, through lower-casing. *)
Lemma trail_space_sep l x y :
  trail_space (x ++ l) = true → trail_space (y ++ d :: map lower_byte l) = true.
Proof.
  unfold trail_space. rewrite !reverse_app, reverse_cons, <-app_assoc. simpl.
  replace (reverse (map lower_byte l)) with (map lower_byte (reverse l))
    by (rewrite <-fmap_reverse; done).
  apply lead_ok_sep; intros; eauto using plain_space1, plain_space2, space1_lower, space2_lower, space3_lower.
  apply (plain_space3 _ _ _ d); naive_solver.
Qed.
End trim_sep.

(** Trimming keeps every plain byte. *)

Lemma string_of_list_app l k :
  string_of_list_ascii (l ++ k) = string_of_list_ascii l +:+ string_of_list_ascii k.
Proof. induction l as [|a l IH]; [done|]. simpl. by rewrite IH. Qed.

Lemma count_byte_spaces c k :
  plain_byte c = true → Forall (λ a, plain_byte a = false) k →
  count_byte c (string_of_list_ascii k) = 0.
Proof.
  intros Hc Hk. induction Hk as [|a k Ha Hk IH]; [done|]. simpl. rewrite IH, ascii_eqb_spec.
  by rewrite bool_decide_eq_false_2 by congruence.
Qed.

Lemma not_plain a : (byte_code a ≤ 32 ∨ 128 ≤ byte_code a)%Z → plain_byte a = false.
Proof. unfold plain_byte. intros. apply bool_decide_eq_false. lia. Qed.

Lemma trim_space_decomp s :
  ∃ k k', list_ascii_of_string s = k ++ list_ascii_of_string (trim_space s) ++ k'
          ∧ Forall (λ a, plain_byte a = false) k ∧ Forall (λ a, plain_byte a = false) k'.
Proof.
  unfold trim_space, trim_right, trim_left. rewrite list_ascii_of_string_of_list_ascii.
  destruct (strip_runs_suffix (λ a, plain_byte a = false) space1 space2 space3
    (list_ascii_of_string s)) as (k & Hk & HP).
  { intros a ?%space1_true. apply not_plain. lia. }
  { intros a b ?%space2_true. split; apply not_plain; lia. }
  { intros a b c ?%space3_true. split_and!; apply not_plain; lia. }
  set (l := strip_runs space1 space2 space3 _) in *.
  destruct (strip_runs_suffix (λ a, plain_byte a = false) space1 (λ b a, space2 a b)
    (λ c b a, space3 a b c) (reverse l)) as (k' & Hk' & HP').
  { intros a ?%space1_true. apply not_plain. lia. }
  { intros a b ?%space2_true. split; apply not_plain; lia. }
  { intros a b c ?%space3_true. split_and!; apply not_plain; lia. }
  exists k, (reverse k'). split_and!; [|done|by apply Forall_reverse].
  by rewrite Hk, <-reverse_app, <-Hk', reverse_involutive at 1.
Qed.

Lemma trim_space_count c s : plain_byte c = true → count_byte c (trim_space s) = count_byte c s.
Proof.
  intros Hc. destruct (trim_space_decomp s) as (k & k' & Heq & Hk & Hk').
  apply (f_equal (λ l, count_byte c (string_of_list_ascii l))) in Heq.
  rewrite !string_of_list_app, !count_byte_app, !string_of_list_ascii_of_string in Heq.
  rewrite !count_byte_spaces in Heq by done. lia.
Qed.

Lemma trim_space_contains c s :
  plain_byte c = true → contains_byte c (trim_space s) = contains_byte c s.
Proof. intros. by rewrite !contains_count, trim_space_count. Qed.

(** *** Prefixes *)

Lemma strip_prefix_Some p s t : strip_prefix p s = Some t ↔ s = p +:+ t.
Proof.
  revert s. induction p as [|a p IH]; intros s; simpl; [by split; intros; simplify_eq|].
  rewrite string_app_cons. destruct s as [|b s]; [done|]. rewrite ascii_eqb_spec.
  case_bool_decide; subst; [rewrite IH|]; naive_solver.
Qed.

Lemma has_prefix_true p s : has_prefix p s = true ↔ ∃ t, s = p +:+ t.
Proof.
  unfold has_prefix. setoid_rewrite <-strip_prefix_Some. destruct (strip_prefix p s); naive_solver.
Qed.

(** *** Splitting and joining *)

Lemma split_byte_cons c s : ∃ w ws, split_byte c s = w :: ws.
Proof.
  induction s as [|a s (w & ws & IH)]; simpl; [eauto|]. rewrite IH. case_match; eauto.
Qed.

Lemma split_byte_no_sep c s : Forall (λ w, contains_byte c w = false) (split_byte c s).
Proof.
  induction s as [|a s IH]; simpl; [by repeat constructor|].
  rewrite ascii_eqb_spec. case_bool_decide; [by constructor|].
  destruct (split_byte_cons c s) as (w & ws & E). rewrite E in *. inversion IH; subst.
  constructor; [|done]. simpl. rewrite ascii_eqb_spec. by rewrite bool_decide_eq_false_2.
Qed.

Lemma split_byte_none c s : contains_byte c s = false → split_byte c s = [s].
Proof.
  induction s as [|a s IH]; simpl; [done|]. intros [-> H]%orb_false_iff. by rewrite IH.
Qed.

Lemma split_byte_app c s t :
  contains_byte c s = false → split_byte c (s +:+ String c t) = s :: split_byte c t.
Proof.
  induction s as [|a s IH].
  - intros _. simpl. by rewrite Ascii.eqb_refl.
  - rewrite string_app_cons. simpl. intros [-> H]%orb_false_iff. by rewrite IH.
Qed.

Lemma split_join c ws :
  ws ≠ [] → Forall (λ w, contains_byte c w = false) ws →
  split_byte c (join (String c EmptyString) ws) = ws.
Proof.
  intros Hne Hall. induction ws as [|w ws IH]; [done|]. inversion Hall; subst.
  destruct ws as [|v ws]; [by apply split_byte_none|].
  change (join _ (w :: v :: ws)) with (w +:+ String c (join (String c "") (v :: ws))).
  rewrite split_byte_app by done. f_equal. by apply IH.
Qed.

(** *** The order of [sort.Strings] *)

Definition string_le (s t : string) : Prop := String.leb s t = true.

#[export] Instance string_le_dec : RelDecision string_le.
Proof. intros s t. unfold string_le. apply _. Defined.

(** [sortedNames] and the like: the elements of a set in increasing order. *)
Definition sort_strings (l : list string) : list string := merge_sort string_le l.

Lemma elem_of_sort_strings s l : s ∈ sort_strings l ↔ s ∈ l.
Proof. unfold sort_strings. by rewrite merge_sort_Permutation. Qed.

Lemma string_leb_total s t : String.leb s t = true ∨ String.leb t s = true.
Proof. apply String.leb_total. Qed.

Lemma string_leb_cons a s b t :
  String.leb (String a s) (String b t) = true ↔
  (N_of_ascii a < N_of_ascii b)%N ∨ a = b ∧ String.leb s t = true.
Proof.
  unfold String.leb. cbn [String.compare]. unfold Ascii.compare.
  destruct (N.compare_spec (N_of_ascii a) (N_of_ascii b)) as [E|E|E].
  - assert (a = b) as -> by (by rewrite <-(ascii_N_embedding a), E, ascii_N_embedding). split; [by right|].
    intros [?|[_ ?]]; [lia|done].
  - split; [by left|done].
  - split; [done|]. intros [?|[-> _]]; lia.
Qed.

Lemma string_le_trans s t u : string_le s t → string_le t u → string_le s u.
Proof.
  unfold string_le. revert t u. induction s as [|a s IH]; intros t u; [by destruct u|].
  destruct t as [|b t]; [done|]. destruct u as [|c u]; [done|]. rewrite !string_leb_cons.
  intros [H1|[-> H1]] [H2|[-> H2]]; [left; lia|by left|by left|right]. split; [done|]. by eapply IH.
Qed.

Lemma string_le_antisym s t : string_le s t → string_le t s → s = t.
Proof.
  unfold string_le. revert t. induction s as [|a s IH]; intros t; [by destruct t|].
  destruct t as [|b t]; [done|]. rewrite !string_leb_cons. intros [H1|[-> H1]] [H2|[E H2]]; [lia|subst; lia|lia|]. f_equal. by apply IH.
Qed.

Lemma sort_strings_sorted l : Sorted string_le (sort_strings l).
Proof. apply Sorted_merge_sort. intros s t. apply string_leb_total. Qed.

Lemma sort_strings_perm l : sort_strings l ≡ₚ l.
Proof. apply merge_sort_Permutation. Qed.

(** *** Sorted lists *)

Lemma StronglySorted_lookup_lt {A} (R : A → A → Prop) l i j a b :
  StronglySorted R l → l !! i = Some a → l !! j = Some b → i < j → R a b.
Proof.
  intros Hs. revert i j. induction Hs as [|x l _ IH Hx]; intros i j Hi Hj Hij; [done|].
  destruct j as [|j]; [lia|]. destruct i as [|i]; simpl in *; [|eapply IH; eauto with lia].
  injection Hi as ->. rewrite Forall_forall in Hx. apply Hx. by eapply list_elem_of_lookup_2.
Qed.

(** ** The hint database of the development *)

Create HintDb bridge.
#[export] Hint Resolve trim_space_trimmed byte_code_range : bridge.
Create Rewrite HintDb bridge_rw.
#[export] Hint Rewrite to_lower_idemp trim_space_idemp string_app_nil_r : bridge_rw.

(** Splits boolean connectives of hypotheses into propositions. *)
Ltac bool_split :=
  repeat match goal with
         | H : _ && _ = true |- _ => apply andb_true_iff in H as [? ?]
         | H : _ || _ = false |- _ => apply orb_false_iff in H as [? ?]
         | H : negb _ = true |- _ => apply negb_true_iff in H
         | H : negb _ = false |- _ => apply negb_false_iff in H
         | H : bool_decide _ = true |- _ => apply bool_decide_eq_true in H
         | H : bool_decide _ = false |- _ => apply bool_decide_eq_false in H
         end.
