(* ===== verification/Jid.v ===== *)
(** * WhatsApp addresses

    [types.JID] of the WhatsApp client library, which is not part of the
    repository, is the class [JidOps]: the fields and methods the bridge uses.
    [JidLaws] names what the bridge relies on.  On top of it this file models
    [jid.go], the namespace rules of [sender_namespace.go], and the phone
    spellings of [send.go] and [chat_policy.go]. *)
From S2P Require Import Prelude.

(** ** Server names (spelled in the bridge's SQL and tests) *)

Definition DefaultUserServer : string := "s.whatsapp.net".
Definition HiddenUserServer : string := "lid".
Definition HostedServer : string := "hosted".
Definition HostedLIDServer : string := "hosted.lid".
Definition GroupServer : string := "g.us".
Definition BroadcastServer : string := "broadcast".
Definition NewsletterServer : string := "newsletter".

(** ** The client library's JID type *)

Class JidOps := {
  JID : Type;
  jid_eq_dec :: EqDecision JID;
  User : JID → string;
  Server : JID → string;
  EmptyJID : JID;
  IsEmpty : JID → bool;
  ToNonAD : JID → JID;
  JIDString : JID → string;
  NewJID : string → string → JID;
  set_Server : string → JID → JID;
  ParseJID : string → result string JID;
}.

(** [User_NewJID]..[Server_set_Server] say that the record has these fields;
    [IsEmpty] looks at the server; [ToNonAD] drops agent and device only;
    [JIDString] spells a non-device JID with a user as [user@server]
    (the remark of [storedSender]). *)
Class JidLaws `{JidOps} := {
  User_NewJID u s : User (NewJID u s) = u;
  Server_NewJID u s : Server (NewJID u s) = s;
  User_set_Server s j : User (set_Server s j) = User j;
  Server_set_Server s j : Server (set_Server s j) = s;
  IsEmpty_spec j : IsEmpty j = bool_decide (Server j = "");
  IsEmpty_EmptyJID : IsEmpty EmptyJID = true;
  User_ToNonAD j : User (ToNonAD j) = User j;
  Server_ToNonAD j : Server (ToNonAD j) = Server j;
  ToNonAD_idemp j : ToNonAD (ToNonAD j) = ToNonAD j;
  ToNonAD_NewJID u s : ToNonAD (NewJID u s) = NewJID u s;
  String_ToNonAD j : User j ≠ "" → JIDString (ToNonAD j) = User j +:+ String "@" (Server j);
}.

Section Jid.
Context `{JidOps}.

(** [errLIDStoreUnavailable] and the errors of the store. *)
Inductive alt_error : Type :=
| LIDStoreUnavailable
| StoreError (msg : string).

(** The client's LID-PN store, [None] when the client, its store or the LID
    table is missing. *)
Definition lid_store : Type := option (JID → result string JID).

Definition lookupAltJID (client : lid_store) (jid : JID) : result alt_error JID :=
  match client with
  | None => Err LIDStoreUnavailable
  | Some getAltJID =>
      match getAltJID jid with Ok j => Ok j | Err e => Err (StoreError e) end
  end.

(** [resolveLIDChatContext]: the phone JID of a LID chat, from the message's
    alternates first, from the store otherwise. *)
Definition resolveLIDChatContext (client : lid_store)
    (chat senderAlt recipientAlt : JID) (isFromMe : bool) : JID :=
  if negb (String.eqb (Server chat) HiddenUserServer) then chat
  else
    let alt :=
      if negb isFromMe && negb (IsEmpty senderAlt)
         && String.eqb (Server senderAlt) DefaultUserServer then ToNonAD senderAlt
      else if isFromMe && negb (IsEmpty recipientAlt)
         && String.eqb (Server recipientAlt) DefaultUserServer then ToNonAD recipientAlt
      else EmptyJID in
    if negb (IsEmpty alt) then alt
    else match lookupAltJID client chat with
         | Ok pn => if negb (IsEmpty pn) then ToNonAD pn else chat
         | Err _ => chat
         end.

(** [resolveUserJIDContext]: one user, with a single hint. *)
Definition resolveUserJIDContext (client : lid_store) (j alt : JID) : JID :=
  let j := ToNonAD j in
  if negb (String.eqb (Server j) HiddenUserServer) then j
  else if negb (IsEmpty alt) && String.eqb (Server alt) DefaultUserServer then ToNonAD alt
  else match lookupAltJID client j with
       | Ok pn => if negb (IsEmpty pn) then ToNonAD pn else j
       | Err _ => j
       end.

(** [senderAltForMessage]; [ownID] is [client.Store.ID] when it is set. *)
Definition senderAltForMessage (ownID : option JID) (isFromMe : bool) (senderAlt : JID) : JID :=
  if isFromMe then
    match ownID with Some id => ToNonAD id | None => EmptyJID end
  else if negb (IsEmpty senderAlt) && String.eqb (Server senderAlt) DefaultUserServer
  then ToNonAD senderAlt
  else EmptyJID.

(** [types.ReceiptType], the two values the bridge tells apart. *)
Inductive receipt_type : Type := ReceiptTypeRead | ReceiptTypeReadSelf | ReceiptTypeOther.

Definition isSelfReadReceipt (type : receipt_type) (isFromMe : bool) : bool :=
  match type with
  | ReceiptTypeReadSelf => true
  | ReceiptTypeRead => isFromMe
  | ReceiptTypeOther => false
  end.

(** ** Sender namespaces *)

(** [splitSenderJID]: the user part and the namespace, [None] for NULL. *)
Definition splitSenderJID (sender : string) : string * option string :=
  match cut_first "@" sender with
  | None => (sender, None)
  | Some (user, srv) =>
      if String.eqb srv DefaultUserServer || String.eqb srv HostedServer
      then (user, Some DefaultUserServer)
      else if String.eqb srv HiddenUserServer || String.eqb srv HostedLIDServer
      then (user, Some HiddenUserServer)
      else (user, None)
  end.

Definition storedSender (j : JID) : string :=
  if String.eqb (User j) "" then "" else User j +:+ String "@" (Server j).

(** ** Phone spellings *)

Definition is_digit (a : ascii) : bool := bool_decide (48 ≤ byte_code a ≤ 57)%Z.

Definition isPhoneDigits (s : string) : bool :=
  forallb is_digit (list_ascii_of_string s) && negb (String.eqb s "").

Definition parseRecipientJID (recipient : string) : result string JID :=
  if negb (contains_byte "@" recipient) then Ok (NewJID recipient DefaultUserServer)
  else ParseJID recipient.

(** The parts of a [types.IsOnWhatsAppResponse] the bridge reads. *)
Record IsOnWhatsAppResponse := {
  Query : string;
  IsIn : bool;
  AnswerJID : JID;
  PhoneNumber : JID;
}.

Definition registeredPhoneJID (answer : IsOnWhatsAppResponse) : JID :=
  let usable j := String.eqb (Server j) DefaultUserServer && negb (String.eqb (User j) "") in
  if usable (PhoneNumber answer) then ToNonAD (PhoneNumber answer)
  else if usable (AnswerJID answer) then ToNonAD (AnswerJID answer)
  else EmptyJID.

(** Why [canonicalRecipientJID] gives no address. *)
Inductive recipient_error : Type :=
| BadRecipient (msg : string)      (* cannot be read *)
| NotOnWhatsApp                    (* errNotOnWhatsApp *)
| RecipientLookup.                 (* errRecipientLookup *)

(** The first positive answer of [isOnWhatsApp] decides. *)
Fixpoint first_registered (jid : JID) (answers : list IsOnWhatsAppResponse) : option JID :=
  match answers with
  | [] => None
  | answer :: rest =>
      if negb (IsIn answer) then first_registered jid rest
      else let registered := registeredPhoneJID answer in
           Some (if negb (IsEmpty registered) then registered else jid)
  end.

(** [canonicalRecipientJID]; the question to WhatsApp returns its answers and
    whether it also reported an error. *)
Definition canonicalRecipientJID (lidForPN : JID → result string JID)
    (isOnWhatsApp : list string → list IsOnWhatsAppResponse * option string)
    (recipient : string) : result recipient_error JID :=
  match parseRecipientJID recipient with
  | Err e => Err (BadRecipient e)
  | Ok jid =>
      if negb (String.eqb (Server jid) DefaultUserServer) then Ok jid
      else if match lidForPN jid with Ok lid => negb (IsEmpty lid) | Err _ => false end
      then Ok jid
      else if negb (isPhoneDigits (User jid))
      then Err (BadRecipient "not a phone number")
      else
        let '(answers, err) := isOnWhatsApp ["+" +:+ User jid] in
        match first_registered jid answers with
        | Some r => Ok r
        | None =>
            match err, answers with
            | Some _, _ => Err RecipientLookup
            | None, [] => Err RecipientLookup
            | None, _ :: _ => Err NotOnWhatsApp
            end
        end
  end.

End Jid.

Arguments IsOnWhatsAppResponse {_}.

(** ** Brazilian mobile numbers *)

(** [brMobileAlternate]: the other spelling of a Brazilian mobile number, with
    or without the ninth digit; the empty string when there is none. *)
Definition brMobileAlternate (number : string) : string :=
  let bytes := list_ascii_of_string number in
  let len := length bytes in
  let at_is (i : nat) (c : ascii) := bool_decide (bytes !! i = Some c) in
  if negb (isPhoneDigits number) || (negb (Nat.eqb len 12) && negb (Nat.eqb len 13))
     || negb (has_prefix "55" number) || at_is 2 "0"%char || at_is 3 "0"%char
  then ""
  else
    let subscriber := drop 4 bytes in
    if Nat.eqb len 13 && negb (bool_decide (head subscriber = Some "9"%char)) then ""
    else
      let subscriber := if Nat.eqb len 13 then drop 1 subscriber else subscriber in
      match head subscriber with
      | None => ""
      | Some d =>
          if bool_decide (byte_code d < byte_code "6" ∨ byte_code d > byte_code "9")%Z then ""
          else if Nat.eqb len 13 then string_of_list_ascii (take 4 bytes ++ subscriber)
          else string_of_list_ascii (take 4 bytes ++ "9"%char :: subscriber)
      end.

(** ** Lemmas *)

Lemma isPhoneDigits_Forall s :
  isPhoneDigits s = true ↔ Forall (λ a, is_digit a = true) (list_ascii_of_string s) ∧ s ≠ "".
Proof.
  unfold isPhoneDigits. rewrite andb_true_iff, forallb_forall, Forall_forall, negb_true_iff.
  rewrite String.eqb_neq. setoid_rewrite list_elem_of_In. done.
Qed.

Lemma isPhoneDigits_not_contains s c :
  isPhoneDigits s = true → is_digit c = false → contains_byte c s = false.
Proof.
  intros [Hall _]%isPhoneDigits_Forall Hc. induction s as [|a s IH]; [done|].
  simpl in *. inversion Hall; subst. rewrite ascii_eqb_spec.
  rewrite bool_decide_eq_false_2 by congruence. by apply IH.
Qed.

(** The numbers that have another spelling: [55 a b d rest], the mobile
    subscriber [d rest] with or without a leading [9]. *)
Record br_mobile (a b d : ascii) (rest : list ascii) : Prop := {
  br_digits : Forall (λ c, is_digit c = true) (a :: b :: d :: rest);
  br_a : a ≠ "0"%char;
  br_b : b ≠ "0"%char;
  br_rest : length rest = 7;
  br_d : (byte_code "6" ≤ byte_code d ≤ byte_code "9")%Z;
}.

Definition br_short (a b d : ascii) (rest : list ascii) : string :=
  string_of_list_ascii ("5"%char :: "5"%char :: a :: b :: d :: rest).
Definition br_long (a b d : ascii) (rest : list ascii) : string :=
  string_of_list_ascii ("5"%char :: "5"%char :: a :: b :: "9"%char :: d :: rest).

Lemma isPhoneDigits_list l :
  l ≠ [] → Forall (λ c, is_digit c = true) l → isPhoneDigits (string_of_list_ascii l) = true.
Proof.
  intros Hne Hall. apply isPhoneDigits_Forall.
  rewrite list_ascii_of_string_of_list_ascii. split; [done|]. by destruct l.
Qed.

Ltac br_digits_tac := rewrite !Forall_cons in *; naive_solver.

Lemma br_short_long a b d rest :
  br_mobile a b d rest → brMobileAlternate (br_short a b d rest) = br_long a b d rest.
Proof.
  intros [Hd Ha Hb Hr Hrange]. unfold br_short, br_long, brMobileAlternate.
  rewrite isPhoneDigits_list by (done || br_digits_tac).
  rewrite list_ascii_of_string_of_list_ascii. simpl. rewrite Hr. simpl.
  rewrite !bool_decide_eq_false_2 by (congruence || lia). done.
Qed.

Lemma br_long_short a b d rest :
  br_mobile a b d rest → brMobileAlternate (br_long a b d rest) = br_short a b d rest.
Proof.
  intros [Hd Ha Hb Hr Hrange]. unfold br_short, br_long, brMobileAlternate.
  rewrite isPhoneDigits_list by (done || br_digits_tac).
  rewrite list_ascii_of_string_of_list_ascii. simpl. rewrite Hr. simpl.
  rewrite (bool_decide_eq_false_2 (Some a = _)), (bool_decide_eq_false_2 (Some b = _)) by congruence.
  simpl. rewrite bool_decide_eq_false_2 by lia. done.
Qed.

Lemma br_mobile_cases n :
  brMobileAlternate n ≠ "" →
  ∃ a b d rest, br_mobile a b d rest ∧ (n = br_short a b d rest ∨ n = br_long a b d rest).
Proof.
  unfold brMobileAlternate. destruct (isPhoneDigits n) eqn:Hdig; [|done].
  destruct (has_prefix "55" n) eqn:Hpre; [|by rewrite orb_true_r].
  apply isPhoneDigits_Forall in Hdig as [Hdig _]. apply has_prefix_true in Hpre as [t ->].
  assert (∃ l, t = string_of_list_ascii l) as [l ->].
  { exists (list_ascii_of_string t). by rewrite string_of_list_ascii_of_string. }
  rewrite !list_ascii_app, list_ascii_of_string_of_list_ascii in *. simpl in *.
  rewrite !Forall_cons in Hdig. destruct Hdig as (_ & _ & Hdig). unfold br_short, br_long.
  destruct (Nat.eqb_spec (length l) 10) as [H10|H10], (Nat.eqb_spec (length l) 11) as [H11|H11];
    [lia|..]; simpl; try done.
  - do 11 (destruct l; try done). simpl. repeat case_bool_decide; simpl; intros; simplify_eq; try done.
    eexists _, _, _, [_; _; _; _; _; _; _]. split; [|left; done].
    split; try done; try congruence; lia.
  - do 12 (destruct l; try done). simpl. repeat case_bool_decide; simpl; intros; simplify_eq; try done.
    eexists _, _, _, [_; _; _; _; _; _; _]. split; [|right; done].
    split; try done; try congruence; [br_digits_tac|lia].
Qed.

(** The two spellings are each other's alternate. *)
Lemma brMobileAlternate_invol n :
  brMobileAlternate n ≠ "" → brMobileAlternate (brMobileAlternate n) = n.
Proof.
  intros (a & b & d & rest & Hm & [-> | ->])%br_mobile_cases.
  - by rewrite br_short_long, br_long_short.
  - by rewrite br_long_short, br_short_long.
Qed.

(** ** A concrete address type

    An instance of the interface, used to evaluate the model on concrete
    inputs: a JID is a user, an optional device suffix and a server. *)

Module RefJid.

Record t := { ref_user : string; ref_device : string; ref_server : string }.

#[global] Instance t_eq_dec : EqDecision t.
Proof. solve_decision. Defined.

Definition parse (s : string) : result string t :=
  match cut_first "@" s with
  | None => Ok {| ref_user := ""; ref_device := ""; ref_server := s |}
  | Some (u, srv) =>
      let srv := match cut_first "@" srv with Some (x, _) => x | None => srv end in
      match cut_first ":" u with
      | Some (u', dev) => Ok {| ref_user := u'; ref_device := dev; ref_server := srv |}
      | None => Ok {| ref_user := u; ref_device := ""; ref_server := srv |}
      end
  end.

#[local] Instance ops : JidOps := {
  JID := t;
  User := ref_user;
  Server := ref_server;
  EmptyJID := {| ref_user := ""; ref_device := ""; ref_server := "" |};
  IsEmpty j := bool_decide (ref_server j = "");
  ToNonAD j := {| ref_user := ref_user j; ref_device := ""; ref_server := ref_server j |};
  JIDString j :=
    if String.eqb (ref_user j) "" then ref_server j
    else if String.eqb (ref_device j) "" then ref_user j +:+ String "@" (ref_server j)
    else ref_user j +:+ String ":" (ref_device j +:+ String "@" (ref_server j));
  NewJID u s := {| ref_user := u; ref_device := ""; ref_server := s |};
  set_Server s j := {| ref_user := ref_user j; ref_device := ref_device j; ref_server := s |};
  ParseJID := parse;
}.

#[local] Instance laws : JidLaws.
Proof.
  split; try done. intros [u d s] Hu. simpl in *.
  apply String.eqb_neq in Hu. by rewrite Hu.
Qed.

End RefJid.
