(* ===== verification/Http.v ===== *)
(** * REST plumbing: the failure bodies of [rest_middleware.go]

    A request is what the guards look at; a handler answers with a reply. *)
From S2P Require Import Prelude.

Module Http.

(** Method, path, [Host] and [Authorization] headers of a request. *)
Record request := {
  method : string;
  path : string;
  host : string;
  authorization : string;
}.

(** Status, [error.code] ("" for a body without one) and [message]. *)
Record reply := {
  status : Z;
  code : string;
  message : string;
}.

Definition handler : Type := request → reply.

Definition StatusOK : Z := 200.
Definition StatusBadRequest : Z := 400.
Definition StatusUnauthorized : Z := 401.
Definition StatusForbidden : Z := 403.
Definition StatusNotFound : Z := 404.
Definition StatusMethodNotAllowed : Z := 405.
Definition StatusBadGateway : Z := 502.
Definition StatusServiceUnavailable : Z := 503.

Definition errorCode (st : Z) : string :=
  if Z.eqb st StatusBadRequest || Z.eqb st StatusMethodNotAllowed then "invalid_argument"
  else if Z.eqb st StatusForbidden || Z.eqb st StatusUnauthorized then "denied"
  else if Z.eqb st StatusNotFound then "not_found"
  else if Z.eqb st StatusBadGateway || Z.eqb st StatusServiceUnavailable then "bridge_unavailable"
  else "internal".

Definition writeErrorCode (st : Z) (c msg : string) : reply :=
  {| status := st; code := c; message := msg |}.

Definition writeError (st : Z) (msg : string) : reply :=
  writeErrorCode st (errorCode st) msg.

Definition requireMethod (m : string) (h : handler) : handler := λ r,
  if negb (String.eqb (method r) m)
  then writeError StatusMethodNotAllowed ("method not allowed; use " +:+ m)
  else h r.

End Http.
