(* ===== verification/ChatPolicy.v ===== *)
(** * The conversation allow-list ([chat_policy.go])

    [chatPolicy] is the parsed allow-list.  The file models its parsing, the
    decision [Allows], the intersection of a runtime list with the deployment
    list, the validation of request targets and the identity search
    [allowsIdentity], and proves that intersecting can only narrow. *)
From S2P Require Import Prelude Jid Http.

Record chatPolicy := {
  source : string;
  restricted : bool;
  exact : gset string;
  servers : gset string;
  invalidPositions : list nat;
}.

Definition chatPolicyEnv : string := "WHATSAPP_ALLOWED_CHATS".

Definition zero_policy : chatPolicy :=
  {| source := ""; restricted := false; exact := ∅; servers := ∅; invalidPositions := [] |}.

Definition set_restricted (p : chatPolicy) : chatPolicy :=
  {| source := source p; restricted := true; exact := exact p; servers := servers p;
     invalidPositions := invalidPositions p |}.

Definition set_source (src : string) (p : chatPolicy) : chatPolicy :=
  {| source := src; restricted := restricted p; exact := exact p; servers := servers p;
     invalidPositions := invalidPositions p |}.

Definition origin (p : chatPolicy) : string :=
  if negb (String.eqb (source p) "") then source p else chatPolicyEnv.

(** [entries]: the grammar of the list, in order. *)
Definition entries (p : chatPolicy) : list string :=
  sort_strings (elements (exact p) ++ map (λ server, "*@" +:+ server) (elements (servers p))).

(** [normalizeChatEntry]: bare number to phone JID, device suffix dropped,
    server lower-cased. *)
Definition normalizeChatEntry (raw : string) : string :=
  let raw := trim_space raw in
  if String.eqb raw "" then ""
  else if Nat.ltb 1 (count_byte "@" raw) then raw
  else match cut_last "@" raw with
       | None => raw +:+ String "@" DefaultUserServer
       | Some (user, server) =>
           let server := to_lower server in
           let user := match cut_first ":" user with Some (u, _) => u | None => user end in
           user +:+ String "@" server
       end.

(** One iteration of the loop of [parseChatPolicy] on the entry at [index]. *)
Definition parse_entry (p : chatPolicy) (index : nat) (item : string) : chatPolicy :=
  let n := normalizeChatEntry item in
  if String.eqb n "" then p
  else
    let bad := if Nat.ltb 1 (count_byte "@" n) then invalidPositions p ++ [S index]
               else invalidPositions p in
    match cut_last "@" n with
    | None => p
    | Some (user, server) =>
        if String.eqb user "*"
        then {| source := source p; restricted := restricted p; exact := exact p;
                servers := {[server]} ∪ servers p; invalidPositions := bad |}
        else {| source := source p; restricted := restricted p; exact := {[n]} ∪ exact p;
                servers := servers p; invalidPositions := bad |}
    end.

Fixpoint parse_entries (p : chatPolicy) (index : nat) (items : list string) : chatPolicy :=
  match items with
  | [] => p
  | item :: rest => parse_entries (parse_entry p index item) (S index) rest
  end.

Definition parseChatPolicy (raw : string) : chatPolicy :=
  let p := parse_entries zero_policy 0 (split_byte "," raw) in
  {| source := source p;
     restricted := negb (bool_decide (exact p = ∅)) || negb (bool_decide (servers p = ∅));
     exact := exact p; servers := servers p; invalidPositions := invalidPositions p |}.

(** [Allows]: whether the policy permits acting on a target. *)
Definition Allows (p : chatPolicy) (target : string) : bool :=
  if Nat.ltb 1 (count_byte "@" target) then false
  else if negb (restricted p) then true
  else
    let n := normalizeChatEntry target in
    if String.eqb n "" then false
    else if bool_decide (n ∈ exact p) then true
    else match cut_last "@" n with
         | Some (_, server) => bool_decide (server ∈ servers p)
         | None => bool_decide (n ∈ servers p)
         end.

(** [intersectChatPolicies]. *)
Definition intersectChatPolicies (runtime deploy : chatPolicy) : chatPolicy :=
  if negb (restricted deploy) then runtime
  else {| source := ""; restricted := true;
          exact := filter (λ entry, Allows deploy entry = true) (exact runtime)
                   ∪ filter (λ entry, Allows runtime entry = true) (exact deploy);
          servers := filter (λ server, server ∈ servers deploy) (servers runtime);
          invalidPositions := [] |}.

(** ** Targets of requests *)

Section Targets.
Context `{JidOps}.

(** [canonicalChatJID]: validates a chat target before parsing can discard
    part of its identity. *)
Definition canonicalChatJID (raw : string) (allowPhone : bool) : result string JID :=
  let raw := trim_space raw in
  if Nat.ltb 1 (count_byte "@" raw) then Err "malformed chat target: more than one '@'"
  else if allowPhone && negb (contains_byte "@" raw) && negb (isPhoneDigits raw)
  then Err "not a phone number: use the country code and ASCII digits, or a digits-only @s.whatsapp.net JID"
  else
    let parsed := if allowPhone && (contains_byte "@" raw || isPhoneDigits raw)
                  then parseRecipientJID raw else ParseJID raw in
    match parsed with
    | Err e => Err ("invalid chat JID: " +:+ e)
    | Ok jid =>
        if String.eqb (User jid) "" || String.eqb (Server jid) ""
        then Err "malformed chat target: a user and server are required"
        else
          let user := match cut_first "@" raw with Some (u, _) => u | None => raw end in
          if contains_any ":." user || contains_any ":." (User jid)
          then Err "invalid chat JID: malformed user or device-suffixed chat target"
          else Ok (ToNonAD (set_Server (to_lower (Server jid)) jid))
    end.

(** [rejectByChatPolicy]: the 403 of the outbound handlers, [None] to go on. *)
Definition rejectByChatPolicy (policy : chatPolicy) (target : string) : option Http.reply :=
  if Allows policy target then None
  else Some (Http.writeErrorCode Http.StatusForbidden ""
    ("chat " +:+ target +:+ " is not in " +:+ origin policy +:+
     " (this bridge is restricted to an allow-list of conversations)")).

(** [authorizeChat]: the HTTP authorization boundary. *)
Definition authorizeChat (policy : chatPolicy) (raw : string) (allowPhone : bool) :
    result Http.reply JID :=
  match canonicalChatJID raw allowPhone with
  | Err e => Err (Http.writeError Http.StatusBadRequest e)
  | Ok jid =>
      match rejectByChatPolicy policy (JIDString jid) with
      | Some r => Err r
      | None => Ok jid
      end
  end.

(** ** Identities of participants *)

(** The alternate-JID lookup handed to [allowsIdentity] ([lidForPNFunc]);
    [None] is the nil function. *)
Definition twin_lookup : Type := option (JID → result string JID).

Definition is_user_server (s : string) : bool :=
  String.eqb s DefaultUserServer || String.eqb s HiddenUserServer.

(** Some exact LID entry of the policy has [j] as its phone. *)
Definition reverse_lid_match (p : chatPolicy) (tw : JID → result string JID) (j : JID) : bool :=
  existsb (λ entry,
    match canonicalChatJID entry false with
    | Err _ => false
    | Ok allowed =>
        if negb (String.eqb (Server allowed) HiddenUserServer) then false
        else match tw allowed with
             | Ok pn => bool_decide (ToNonAD pn = j)
             | Err _ => false
             end
    end) (elements (exact p)).

(** The identities queued after [j] was looked at: the Brazilian spelling of
    a phone, then the other namespace. *)
Definition br_twin (j : JID) : list JID :=
  if String.eqb (Server j) DefaultUserServer then
    let alt := brMobileAlternate (User j) in
    if negb (String.eqb alt "") then [NewJID alt (Server j)] else []
  else [].

Definition map_twin (twin : twin_lookup) (j : JID) : list JID :=
  match twin with
  | None => []
  | Some tw => match tw j with
               | Ok alt => if negb (IsEmpty alt) then [ToNonAD alt] else []
               | Err _ => []
               end
  end.

Definition next_identities (twin : twin_lookup) (j : JID) : list JID :=
  if is_user_server (Server j) then br_twin j ++ map_twin twin j else [].

(** The decision taken on [j] itself. *)
Definition identity_allowed (p : chatPolicy) (twin : twin_lookup) (j : JID) : bool :=
  Allows p (JIDString j)
  || match twin with
     | Some tw => String.eqb (Server j) DefaultUserServer && reverse_lid_match p tw j
     | None => false
     end.

(** The work-list loop; [None] when the fuel runs out. *)
Fixpoint identity_loop (fuel : nat) (p : chatPolicy) (twin : twin_lookup)
    (queue seen : list JID) : option bool :=
  match fuel with
  | O => None
  | S fuel =>
      match queue with
      | [] => Some false
      | j :: queue =>
          if bool_decide (j ∈ seen) || IsEmpty j then identity_loop fuel p twin queue seen
          else if identity_allowed p twin j then Some true
          else identity_loop fuel p twin (queue ++ next_identities twin j) (j :: seen)
      end
  end.

Definition allowsIdentity (fuel : nat) (p : chatPolicy) (twin : twin_lookup) (jid : JID) :
    option bool :=
  if negb (restricted p) then Some true
  else identity_loop fuel p twin [ToNonAD jid] [].

End Targets.

(** ** Normalisation *)

(** A spelling on which a second pass changes nothing: it names its server,
    or it has no device suffix.  Every request target ([JID.String()]) and
    every entry the runtime grammar accepts is of this kind. *)
Definition well_spelled (raw : string) : bool :=
  contains_byte "@" raw || negb (contains_byte ":" raw).

Lemma at_plain : plain_byte "@" = true.
Proof. reflexivity. Qed.

#[local] Hint Resolve at_plain : core.

Lemma trimmed_app_default s :
  trimmed s = true → s ≠ "" → trimmed (s +:+ String "@" DefaultUserServer) = true.
Proof.
  unfold trimmed. intros [Hl Ht]%andb_true_iff Hne. rewrite list_ascii_app. simpl.
  rewrite andb_true_iff. split.
  - apply (lead_space_sep _ at_plain _ []). by rewrite app_nil_r.
  - set (srv := map lower_byte (list_ascii_of_string DefaultUserServer)).
    change (_ :: _) with ("@"%char :: srv). by apply (trail_space_sep _ at_plain _ []).
Qed.

Lemma trimmed_user_server u user server :
  trimmed (user +:+ String "@" server) = true → (∃ x, user = u +:+ x) →
  trimmed (u +:+ String "@" (to_lower server)) = true.
Proof.
  unfold trimmed. intros [Hl Ht]%andb_true_iff [x ->]. rewrite !list_ascii_app in *.
  simpl in *. rewrite list_ascii_lower, andb_true_iff. split.
  - eapply (lead_space_sep _ at_plain). by rewrite <-app_assoc in Hl.
  - eapply (trail_space_sep _ at_plain).
    rewrite (cons_middle "@"%char), app_assoc in Ht. exact Ht.
Qed.

(** What [normalizeChatEntry] returns, by cases on the trimmed spelling. *)
Lemma normalize_cases raw :
  let t := trim_space raw in let n := normalizeChatEntry raw in
  (t = "" ∧ n = "") ∨
  (t ≠ "" ∧ 1 < count_byte "@" t ∧ n = t) ∨
  (t ≠ "" ∧ count_byte "@" t = 0 ∧ n = t +:+ String "@" DefaultUserServer) ∨
  (∃ user server u, t = user +:+ String "@" server ∧ count_byte "@" t = 1 ∧
     contains_byte "@" server = false ∧ contains_byte "@" u = false ∧
     contains_byte ":" u = false ∧ (∃ x, user = u +:+ x) ∧
     n = u +:+ String "@" (to_lower server)).
Proof.
  unfold normalizeChatEntry. set (t := trim_space raw). simpl.
  destruct (String.eqb_spec t "") as [->|Hne]; [by left|].
  destruct (Nat.ltb_spec 1 (count_byte "@" t)) as [Hc|Hc]; [by right; left|].
  destruct (cut_last "@" t) as [[user server]|] eqn:Hcut; [right; right; right|].
  2: { right; right; left. apply cut_last_None in Hcut. split_and!; [done| |done]. by apply count_zero. }
  apply cut_last_Some in Hcut as [Ht Hs].
  assert (count_byte "@" user = 0) as Hu.
  { rewrite Ht, count_byte_app in Hc. simpl in Hc. lia. }
  assert (count_byte "@" t = 1) as Ht1.
  { rewrite Ht, count_byte_app, Hu. simpl. apply count_zero in Hs. lia. }
  destruct (cut_first ":" user) as [[u x]|] eqn:Hcol.
  - apply cut_first_Some in Hcol as [Heq Hu'].
    exists user, server, u. split_and!; try done; [|by eauto].
    apply count_zero. rewrite Heq, count_byte_app in Hu. lia.
  - apply cut_first_None in Hcol.
    exists user, server, user. split_and!; try done; [by apply count_zero|].
    exists "". by rewrite string_app_nil_r.
Qed.

(** Entries already in canonical form are fixed. *)
Lemma normalize_fixed u server :
  trimmed (u +:+ String "@" server) = true →
  contains_byte "@" u = false → contains_byte ":" u = false →
  contains_byte "@" server = false → to_lower server = server →
  normalizeChatEntry (u +:+ String "@" server) = u +:+ String "@" server.
Proof.
  intros Htr Hu Hcol Hs Hlow. unfold normalizeChatEntry. rewrite trim_space_id by done.
  destruct (String.eqb_spec (u +:+ String "@" server) "") as [He|_]; [by destruct u|].
  apply count_zero in Hu as Hu0. apply count_zero in Hs as Hs0.
  rewrite count_byte_app, Hu0. simpl. rewrite Hs0. simpl.
  rewrite cut_last_app by done. apply cut_first_None in Hcol. by rewrite Hcol, Hlow.
Qed.

Lemma lower_no_at server : contains_byte "@" (to_lower server) = contains_byte "@" server.
Proof. by apply to_lower_contains. Qed.

Lemma default_server_no_at : contains_byte "@" DefaultUserServer = false.
Proof. reflexivity. Qed.

Lemma normalizeChatEntry_idemp raw :
  well_spelled raw = true → normalizeChatEntry (normalizeChatEntry raw) = normalizeChatEntry raw.
Proof.
  intros Hw. pose proof (trim_space_trimmed raw) as Htr.
  destruct (normalize_cases raw) as [[Ht ->]|[(Hne & Hc & ->)|[(Hne & Hc & Hn)|
    (user & server & u & Ht & Hc & Hs & Hu & Hcol & Hx & Hn)]]].
  - done.
  - unfold normalizeChatEntry at 1. rewrite trim_space_idemp.
    apply String.eqb_neq in Hne. apply Nat.ltb_lt in Hc. by rewrite Hne, Hc.
  - rewrite Hn. apply count_zero in Hc. apply normalize_fixed; try done.
    + by apply trimmed_app_default.
    + unfold well_spelled in Hw. rewrite trim_space_contains in Hc by done.
      rewrite Hc in Hw. by rewrite trim_space_contains by done; apply negb_true_iff in Hw.
  - rewrite Hn. apply normalize_fixed; try done.
    + eapply trimmed_user_server; [|done]. by rewrite <-Ht.
    + by rewrite lower_no_at.
    + apply to_lower_idemp.
Qed.

Lemma normalize_count raw :
  Nat.ltb 1 (count_byte "@" (normalizeChatEntry raw)) = Nat.ltb 1 (count_byte "@" raw).
Proof.
  rewrite <-(trim_space_count "@" raw) by done.
  destruct (normalize_cases raw) as [[-> ->]|[(Hne & Hc & ->)|[(Hne & Hc & ->)|
    (user & server & u & Ht & Hc & Hs & Hu & Hcol & Hx & ->)]]]; [done..| |].
  - rewrite Hc, count_byte_app, Hc. done.
  - rewrite Hc, count_byte_app. rewrite <-lower_no_at in Hs. apply count_zero in Hs, Hu.
    simpl. by rewrite Hs, Hu.
Qed.

(** A normalised, nonempty entry has an '@': the slice [n[:at]] never fails. *)
Lemma normalize_has_at raw :
  normalizeChatEntry raw ≠ "" → ∃ user server, cut_last "@" (normalizeChatEntry raw) = Some (user, server).
Proof.
  intros Hne. destruct (cut_last "@" (normalizeChatEntry raw)) as [[u s]|] eqn:E; [eauto|].
  apply cut_last_None in E. exfalso. revert E.
  destruct (normalize_cases raw) as [[_ He]|[(_ & Hc & ->)|[(_ & _ & ->)|
    (user & server & u & _ & _ & _ & _ & _ & _ & ->)]]]; [by rewrite He in Hne| | |].
  - rewrite contains_count. intros Hn%negb_false_iff%Nat.eqb_eq. lia.
  - rewrite contains_byte_app. simpl. by rewrite orb_true_r.
  - rewrite contains_byte_app. simpl. by rewrite orb_true_r.
Qed.

(** ** The decision [Allows] *)

(** The set-theoretic reading of a restricted policy on a normalised target. *)
Definition member (p : chatPolicy) (n : string) : bool :=
  bool_decide (n ∈ exact p) ||
  match cut_last "@" n with Some (_, server) => bool_decide (server ∈ servers p) | None => false end.

Lemma Allows_restricted p t :
  restricted p = true →
  Allows p t = negb (Nat.ltb 1 (count_byte "@" t))
               && negb (String.eqb (normalizeChatEntry t) "") && member p (normalizeChatEntry t).
Proof.
  intros Hr. unfold Allows, member. rewrite Hr.
  destruct (Nat.ltb 1 (count_byte "@" t)); [done|]. simpl.
  destruct (String.eqb_spec (normalizeChatEntry t) "") as [->|Hne]; [done|].
  destruct (normalize_has_at t Hne) as (user & server & ->). simpl.
  by destruct (bool_decide (_ ∈ exact p)).
Qed.

(** Targets with the same normal form are treated alike. *)
Lemma Allows_normalize p t :
  well_spelled t = true → Allows p (normalizeChatEntry t) = Allows p t.
Proof.
  intros Hw. destruct (restricted p) eqn:Hr.
  - rewrite !Allows_restricted, normalize_count, normalizeChatEntry_idemp by done. done.
  - unfold Allows. by rewrite normalize_count, Hr.
Qed.

Lemma Allows_single_at p t : Allows p t = true → count_byte "@" t ≤ 1.
Proof. unfold Allows. destruct (Nat.ltb_spec 1 (count_byte "@" t)); [done|lia]. Qed.

(** ** Parsing *)

Lemma parse_entries_spec p i items :
  let q := parse_entries p i items in
  (∀ n, n ∈ exact q ↔ n ∈ exact p ∨ ∃ item user server, item ∈ items ∧ n = normalizeChatEntry item
     ∧ n ≠ "" ∧ cut_last "@" n = Some (user, server) ∧ user ≠ "*") ∧
  (∀ server, server ∈ servers q ↔ server ∈ servers p ∨
     ∃ item, item ∈ items ∧ cut_last "@" (normalizeChatEntry item) = Some ("*", server)).
Proof.
  revert p i. induction items as [|item items IH]; intros p i; simpl.
  { split; intros; set_solver. }
  destruct (IH (parse_entry p i item) (S i)) as [IHe IHs]. simpl in *.
  assert ((∀ n, n ∈ exact (parse_entry p i item) ↔ n ∈ exact p ∨ ∃ user server,
     n = normalizeChatEntry item ∧ n ≠ "" ∧ cut_last "@" n = Some (user, server) ∧ user ≠ "*") ∧
    (∀ server, server ∈ servers (parse_entry p i item) ↔ server ∈ servers p ∨
     cut_last "@" (normalizeChatEntry item) = Some ("*", server))) as [He Hs].
  { unfold parse_entry.
    destruct (String.eqb_spec (normalizeChatEntry item) "") as [->|Hne].
    - split; intros; naive_solver.
    - destruct (normalize_has_at item Hne) as (user & server & Hcut). rewrite Hcut.
      destruct (String.eqb_spec user "*") as [->|Hstar]; simpl; split; intros; set_solver. }
  split.
  - intros n. rewrite IHe, He. setoid_rewrite elem_of_cons. naive_solver.
  - intros server. rewrite IHs, Hs. setoid_rewrite elem_of_cons. naive_solver.
Qed.

Lemma elem_of_exact_parse raw n :
  n ∈ exact (parseChatPolicy raw) ↔ ∃ item user server, item ∈ split_byte "," raw
    ∧ n = normalizeChatEntry item ∧ n ≠ "" ∧ cut_last "@" n = Some (user, server) ∧ user ≠ "*".
Proof.
  unfold parseChatPolicy. simpl.
  rewrite (proj1 (parse_entries_spec zero_policy 0 (split_byte "," raw))). simpl. set_solver.
Qed.

Lemma elem_of_servers_parse raw server :
  server ∈ servers (parseChatPolicy raw) ↔ ∃ item, item ∈ split_byte "," raw
    ∧ cut_last "@" (normalizeChatEntry item) = Some ("*", server).
Proof.
  unfold parseChatPolicy. simpl.
  rewrite (proj2 (parse_entries_spec zero_policy 0 (split_byte "," raw))). simpl. set_solver.
Qed.

Lemma restricted_parse raw :
  restricted (parseChatPolicy raw) = true ↔
  exact (parseChatPolicy raw) ≠ ∅ ∨ servers (parseChatPolicy raw) ≠ ∅.
Proof.
  unfold parseChatPolicy. simpl. rewrite orb_true_iff, !negb_true_iff, !bool_decide_eq_false. done.
Qed.

(** The entries of a parsed list are the normal forms of its items. *)
Lemma elem_of_entries_parse raw e :
  e ∈ entries (parseChatPolicy raw) ↔
  ∃ item, item ∈ split_byte "," raw ∧ e = normalizeChatEntry item ∧ e ≠ "".
Proof.
  unfold entries. rewrite elem_of_sort_strings, elem_of_app, elem_of_elements.
  rewrite list_elem_of_fmap. setoid_rewrite elem_of_elements.
  setoid_rewrite elem_of_servers_parse. rewrite elem_of_exact_parse. split.
  - intros [(item & user & server & ? & ? & ? & _)|(server & -> & item & ? & Hcut)]; [eauto|].
    apply cut_last_Some in Hcut as [Hn _]. exists item. by rewrite Hn.
  - intros (item & Hin & -> & Hne).
    destruct (normalize_has_at item Hne) as (user & server & Hcut).
    destruct (decide (user = "*")) as [->|]; [right|left; naive_solver].
    exists server. split; [|by eauto]. by apply cut_last_Some in Hcut as [-> _].
Qed.

Lemma normalize_no_comma item :
  contains_byte "," item = false → contains_byte "," (normalizeChatEntry item) = false.
Proof.
  intros Hc. rewrite <-trim_space_contains in Hc by done.
  destruct (normalize_cases item) as [[_ ->]|[(_ & _ & ->)|[(_ & _ & ->)|
    (user & server & u & Ht & _ & _ & _ & _ & [x ->] & ->)]]]; [done..| |].
  - rewrite contains_byte_app, Hc. done.
  - rewrite Ht in Hc. rewrite !contains_byte_app in *. simpl in *.
    rewrite to_lower_contains by done. bool_split. by apply orb_false_iff.
Qed.

Definition well_spelled_list (raw : string) : Prop :=
  Forall (λ item, well_spelled item = true) (split_byte "," raw).

Lemma entries_no_comma raw :
  Forall (λ w, contains_byte "," w = false) (entries (parseChatPolicy raw)).
Proof.
  apply Forall_forall. intros w (item & Hin & -> & _)%elem_of_entries_parse.
  apply normalize_no_comma. pose proof (split_byte_no_sep "," raw) as Hall.
  rewrite Forall_forall in Hall. by apply Hall.
Qed.

(** Printing the entries and splitting them again yields the same entries. *)
Lemma reparse_items raw e :
  e ≠ "" → e ∈ split_byte "," (join "," (entries (parseChatPolicy raw))) ↔
           e ∈ entries (parseChatPolicy raw).
Proof.
  intros He. destruct (decide (entries (parseChatPolicy raw) = [])) as [->|Hne].
  - simpl. set_solver.
  - by rewrite split_join by eauto using entries_no_comma.
Qed.

Lemma entries_normal raw e :
  well_spelled_list raw → e ∈ entries (parseChatPolicy raw) → normalizeChatEntry e = e ∧ e ≠ "".
Proof.
  unfold well_spelled_list. rewrite Forall_forall.
  intros Hw (item & Hin & -> & Hne)%elem_of_entries_parse. split; [|done].
  apply normalizeChatEntry_idemp. by apply Hw.
Qed.

Lemma elem_of_entries_reparse raw e :
  well_spelled_list raw →
  e ∈ entries (parseChatPolicy (join "," (entries (parseChatPolicy raw)))) ↔
  e ∈ entries (parseChatPolicy raw).
Proof.
  intros Hw. rewrite (elem_of_entries_parse (join _ _)). split.
  - intros (item & Hin & -> & Hne). destruct (decide (item = "")) as [->|Hi]; [done|].
    apply reparse_items in Hin; [|done]. destruct (entries_normal raw item Hw Hin) as [-> _]. done.
  - intros He. destruct (entries_normal raw e Hw He) as [Hn Hne].
    exists e. by rewrite reparse_items.
Qed.

(** The sets of a parsed policy are determined by its entries. *)
Lemma exact_from_entries raw n :
  n ∈ exact (parseChatPolicy raw) ↔ n ∈ entries (parseChatPolicy raw) ∧
    ∃ user server, cut_last "@" n = Some (user, server) ∧ user ≠ "*".
Proof. rewrite elem_of_exact_parse, elem_of_entries_parse. naive_solver. Qed.

Lemma servers_from_entries raw server :
  contains_byte "@" server = false →
  server ∈ servers (parseChatPolicy raw) ↔ "*@" +:+ server ∈ entries (parseChatPolicy raw).
Proof.
  intros Hs. rewrite elem_of_servers_parse, elem_of_entries_parse. split.
  - intros (item & ? & [Hn _]%cut_last_Some). exists item. by rewrite Hn.
  - intros (item & ? & Hn & _). exists item. split; [done|]. rewrite <-Hn.
    by apply (cut_last_app "@" "*").
Qed.

Lemma servers_no_at raw server :
  server ∈ servers (parseChatPolicy raw) → contains_byte "@" server = false.
Proof. intros (item & _ & [_ ?]%cut_last_Some)%elem_of_servers_parse. done. Qed.

Lemma reparse_sets raw :
  well_spelled_list raw →
  let p := parseChatPolicy raw in let q := parseChatPolicy (join "," (entries p)) in
  exact q = exact p ∧ servers q = servers p ∧ restricted q = restricted p.
Proof.
  intros Hw p q. assert (exact q = exact p) as He.
  { apply set_eq. intros n. unfold q, p. by rewrite !exact_from_entries, elem_of_entries_reparse. }
  assert (servers q = servers p) as Hs.
  { apply set_eq. intros server. unfold q, p.
    split; intros Hin; pose proof (servers_no_at _ _ Hin) as Hat;
      rewrite servers_from_entries, elem_of_entries_reparse in * by done; done. }
  split_and!; [done..|]. apply Bool.eq_true_iff_eq. unfold q, p.
  rewrite !restricted_parse. fold p. fold q. by rewrite He, Hs.
Qed.

(** ** Intersection *)

Lemma intersect_Allows runtime deploy t :
  restricted runtime = true → well_spelled t = true →
  Allows (intersectChatPolicies runtime deploy) t = Allows runtime t && Allows deploy t.
Proof.
  intros Hr Hw. unfold intersectChatPolicies. destruct (restricted deploy) eqn:Hd; simpl.
  2: { destruct (Allows runtime t) eqn:Ha; [|done]. apply Allows_single_at in Ha.
       unfold Allows. rewrite Hd. destruct (Nat.ltb_spec 1 (count_byte "@" t)); [lia|done]. }
  rewrite (Allows_restricted _ t) by done. rewrite (Allows_restricted runtime t) by done.
  rewrite (Allows_restricted deploy t) by done.
  pose proof (Allows_normalize runtime t Hw) as Hnr. pose proof (Allows_normalize deploy t Hw) as Hnd.
  rewrite (Allows_restricted runtime t) in Hnr by done.
  rewrite (Allows_restricted deploy t) in Hnd by done.
  destruct (Nat.ltb 1 (count_byte "@" t)); [done|]. simpl in *.
  destruct (String.eqb_spec (normalizeChatEntry t) "") as [_|Hne]; [done|]. simpl in *.
  destruct (normalize_has_at t Hne) as (user & server & Hcut).
  set (n := normalizeChatEntry t) in *. unfold member in *. rewrite Hcut in *. simpl.
  apply Bool.eq_true_iff_eq.
  rewrite andb_true_iff, !orb_true_iff, !bool_decide_eq_true, elem_of_union, !elem_of_filter.
  rewrite Hnr, Hnd, !orb_true_iff, !bool_decide_eq_true. tauto.
Qed.

(** ** The identity search *)

Section Identity.
Context `{JidOps} (p : chatPolicy) (twin : twin_lookup).

(** One step from an identity to another spelling of the same user. *)
Definition identity_step (j k : JID) : Prop :=
  IsEmpty j = false ∧ k ∈ next_identities twin j.

(** The identities of the same user are all among [U]. *)
Definition identities_within (U : list JID) (jid : JID) : Prop :=
  ToNonAD jid ∈ U ∧ Forall (λ j, IsEmpty j = false → next_identities twin j ⊆ U) U.

Lemma next_identities_length j : length (next_identities twin j) ≤ 2.
Proof.
  unfold next_identities, br_twin, map_twin.
  repeat (case_match; simpl; try lia).
Qed.

Lemma identity_loop_sound fuel queue seen :
  identity_loop fuel p twin queue seen = Some true →
  ∃ j k, j ∈ queue ∧ rtc identity_step j k ∧ IsEmpty k = false ∧ identity_allowed p twin k = true.
Proof.
  revert queue seen. induction fuel as [|fuel IH]; intros queue seen; simpl; [done|].
  destruct queue as [|j queue]; [done|].
  destruct (bool_decide (j ∈ seen) || IsEmpty j) eqn:Hskip.
  { intros (i & k & Hi & Hrest)%IH. exists i, k. split; [by right|done]. }
  apply orb_false_iff in Hskip as [_ He].
  destruct (identity_allowed p twin j) eqn:Hal.
  { intros _. exists j, j. split_and!; [by left|done..]. }
  intros (i & k & [Hi|Hi]%elem_of_app & Hr & Hk)%IH.
  - exists i, k. split; [by right|done].
  - exists j, k. split; [by left|]. split; [|done]. by eapply rtc_l; [|done].
Qed.

(** What the loop knows about the identities it has seen. *)
Definition seen_ok (queue seen : list JID) : Prop :=
  ∀ j, j ∈ seen → IsEmpty j = false ∧ identity_allowed p twin j = false ∧
    ∀ k, k ∈ next_identities twin j → k ∈ queue ∨ k ∈ seen ∨ IsEmpty k = true.

Lemma identity_loop_complete fuel queue seen :
  seen_ok queue seen → identity_loop fuel p twin queue seen = Some false →
  ∃ seen', seen_ok [] seen' ∧ ∀ j, j ∈ queue ∨ j ∈ seen → j ∈ seen' ∨ IsEmpty j = true.
Proof.
  revert queue seen. induction fuel as [|fuel IH]; intros queue seen Hok; simpl; [done|].
  destruct queue as [|j queue].
  { intros _. exists seen. split; [done|]. set_solver. }
  destruct (bool_decide (j ∈ seen) || IsEmpty j) eqn:Hskip.
  { intros Hl. apply orb_true_iff in Hskip as Hj. rewrite bool_decide_eq_true in Hj.
    destruct (IH queue seen) as (seen' & Hok' & Hin); [|done|].
    - intros i Hi. destruct (Hok i Hi) as (? & ? & Hnext). split_and!; [done..|].
      intros k [Hk|Hk]%Hnext; [|tauto]. apply elem_of_cons in Hk as [->|Hk]; [|tauto].
      destruct Hj; tauto.
    - exists seen'. split; [done|]. intros i. rewrite elem_of_cons. naive_solver. }
  apply orb_false_iff in Hskip as [_ He].
  destruct (identity_allowed p twin j) eqn:Hal; [done|]. intros Hl.
  destruct (IH (queue ++ next_identities twin j) (j :: seen)) as (seen' & Hok' & Hin); [|done|].
  - intros i [->|Hi]%elem_of_cons.
    + split_and!; [done..|]. intros k Hk. left. apply elem_of_app. by right.
    + destruct (Hok i Hi) as (? & ? & Hnext). split_and!; [done..|].
      intros k Hk%Hnext. rewrite elem_of_app, !elem_of_cons in *. tauto.
  - exists seen'. split; [done|]. intros i Hi. apply Hin.
    rewrite elem_of_app, !elem_of_cons in *. tauto.
Qed.

Lemma seen_ok_closed seen j k :
  seen_ok [] seen → rtc identity_step j k → j ∈ seen ∨ IsEmpty j = true →
  k ∈ seen ∨ IsEmpty k = true.
Proof.
  intros Hok Hr. induction Hr as [j|j i k [He Hi] Hr IH]; [done|]. intros [Hj|Hj]; [|congruence].
  apply IH. destruct (Hok j Hj) as (_ & _ & Hn). specialize (Hn i Hi). set_solver.
Qed.

(** Enough fuel: the queue is drained once every identity has been seen. *)
Lemma identity_loop_terminates U fuel queue seen :
  queue ⊆ U → (∀ j, j ∈ U → IsEmpty j = false → next_identities twin j ⊆ U) →
  length queue + 3 * length (filter (λ j, j ∉ seen) U) < fuel →
  is_Some (identity_loop fuel p twin queue seen).
Proof.
  intros Hq HU. revert queue seen Hq. induction fuel as [|fuel IH]; intros queue seen Hq Hf; [lia|].
  simpl. destruct queue as [|j queue]; [eauto|]. simpl in Hf.
  assert (queue ⊆ U) as Hq' by set_solver.
  destruct (bool_decide (j ∈ seen) || IsEmpty j) eqn:Hskip; [apply IH; [done|lia]|].
  apply orb_false_iff in Hskip as [Hns He]. apply bool_decide_eq_false in Hns.
  destruct (identity_allowed p twin j); [eauto|].
  assert (j ∈ U) as HjU by set_solver. apply IH.
  - intros i [Hi|Hi]%elem_of_app; [set_solver|]. by apply (HU j).
  - rewrite length_app. pose proof (next_identities_length j).
    assert (length (filter (λ i, i ∉ j :: seen) U) < length (filter (λ i, i ∉ seen) U)); [|lia].
    clear -HjU Hns. induction U as [|u U IHU]; [set_solver|].
    assert (∀ V, length (filter (λ i, i ∉ j :: seen) V) ≤ length (filter (λ i, i ∉ seen) V)) as Hle.
    { intros V. induction V as [|v V IHV]; [done|]. rewrite !filter_cons.
      repeat case_decide; simpl; try lia. set_solver. }
    rewrite !filter_cons. specialize (Hle U).
    apply elem_of_cons in HjU as [<-|HjU].
    + rewrite decide_False by set_solver. rewrite decide_True by done. simpl. lia.
    + specialize (IHU HjU). repeat case_decide; simpl; try lia. set_solver.
Qed.

Lemma allowsIdentity_correct U jid :
  identities_within U jid →
  ∃ b, allowsIdentity (3 * length U + 2) p twin jid = Some b ∧
    (b = true ↔ restricted p = false ∨ ∃ k, rtc identity_step (ToNonAD jid) k
       ∧ IsEmpty k = false ∧ identity_allowed p twin k = true).
Proof.
  intros [Hj HU]. rewrite Forall_forall in HU. unfold allowsIdentity.
  destruct (restricted p); simpl; [|by exists true; naive_solver].
  destruct (identity_loop_terminates U (3 * length U + 2) [ToNonAD jid] []) as [b Hb].
  - set_solver.
  - intros j Hin. by apply HU.
  - match goal with |- context [filter ?P U] => pose proof (length_filter P U) end. simpl in *. lia.
  - replace (length U + (length U + (length U + 0)) + 2) with (3 * length U + 2) by lia.
    exists b. split; [done|]. destruct b.
    + split; [|done]. intros _. right.
      apply identity_loop_sound in Hb as (j & k & Hjq & Hr & Hk).
      apply list_elem_of_singleton in Hjq as ->. eauto.
    + split; [done|]. intros [?|(k & Hr & Hk & Ha)]; [done|]. exfalso.
      apply identity_loop_complete in Hb as (seen' & Hok & Hin); [|intros ?; set_solver].
      destruct (seen_ok_closed seen' _ k Hok Hr) as [Hks|Hks]; [apply Hin; set_solver| |congruence].
      apply Hok in Hks as (_ & Hf & _). congruence.
Qed.

End Identity.

(** ** Request targets *)

Lemma contains_any_colon_dot s :
  contains_any ":." s = false → contains_byte ":" s = false ∧ contains_byte "." s = false.
Proof. unfold contains_any. simpl. rewrite !orb_false_iff. tauto. Qed.

Section Canonical.
Context `{JidLaws}.

Lemma canonicalChatJID_ok raw allowPhone j :
  canonicalChatJID raw allowPhone = Ok j →
  count_byte "@" raw ≤ 1 ∧ User j ≠ "" ∧ Server j ≠ "" ∧ to_lower (Server j) = Server j ∧
  contains_byte ":" (User j) = false ∧ contains_byte "." (User j) = false ∧ ToNonAD j = j.
Proof.
  unfold canonicalChatJID.
  destruct (Nat.ltb_spec 1 (count_byte "@" (trim_space raw))) as [|Hc]; [done|].
  case_match; [done|]. case_match; [|done].
  match goal with |- context [String.eqb (User ?x) ""] => rename x into jid end.
  destruct (String.eqb_spec (User jid) "") as [|Hu]; [done|].
  destruct (String.eqb_spec (Server jid) "") as [|Hs]; [done|]. simpl.
  destruct (contains_any _ _ || contains_any _ _) eqn:Hany; [done|].
  apply orb_false_iff in Hany as [_ [Hcol Hdot]%contains_any_colon_dot].
  intros [= <-]. rewrite User_ToNonAD, Server_ToNonAD, User_set_Server, Server_set_Server.
  rewrite ToNonAD_idemp, to_lower_idemp. rewrite trim_space_count in Hc by done.
  split_and!; try done. by destruct (Server jid).
Qed.

Lemma canonical_string raw allowPhone j :
  canonicalChatJID raw allowPhone = Ok j → JIDString j = User j +:+ String "@" (Server j).
Proof.
  intros (_ & Hu & _ & _ & _ & _ & Hn)%canonicalChatJID_ok. rewrite <-Hn at 1.
  by rewrite String_ToNonAD.
Qed.

End Canonical.

(** ** Properties *)

(** [C4] A runtime allow-list intersected with the deployment list permits a
    target exactly when both lists permit it: a runtime override can only
    narrow the deployment boundary, and narrows it no further than asked. *)
Theorem intersect_permits_exactly_both (runtime deploy : chatPolicy) (t : string)
    (Hr : restricted runtime = true) (Hw : well_spelled t = true) :
  Allows (intersectChatPolicies runtime deploy) t = Allows runtime t && Allows deploy t.
Proof. by apply intersect_Allows. Qed.

Lemma intersect_permits_exactly_both_witness :
  Allows (intersectChatPolicies (parseChatPolicy "5511999990000,*@g.us")
            (parseChatPolicy "*@s.whatsapp.net")) "5511999990000:3@S.WhatsApp.net" = true.
Proof.
  rewrite (intersect_permits_exactly_both (parseChatPolicy "5511999990000,*@g.us")
    (parseChatPolicy "*@s.whatsapp.net") "5511999990000:3@S.WhatsApp.net");
    vm_compute; reflexivity.
Defined.

(** Printing the entries of a parsed allow-list (what the settings table
    keeps) and parsing them again gives the same policy, so a list survives
    being saved, listed and reloaded. *)
Theorem entries_parse_roundtrip (raw : string) (Hw : well_spelled_list raw) :
  let p := parseChatPolicy raw in
  let q := parseChatPolicy (join "," (entries p)) in
  (exact q = exact p ∧ servers q = servers p ∧ restricted q = restricted p)
  ∧ Sorted string_le (entries p).
Proof. intros p q. split; [by apply reparse_sets|apply sort_strings_sorted]. Qed.

Lemma entries_parse_roundtrip_witness :
  let p := parseChatPolicy " 123 ,*@G.US,,9:2@LID" in
  servers (parseChatPolicy (join "," (entries p))) = servers p
  ∧ entries p = ["*@g.us"; "123@s.whatsapp.net"; "9@lid"].
Proof.
  split; [|vm_compute; reflexivity].
  apply (entries_parse_roundtrip " 123 ,*@G.US,,9:2@LID").
  unfold well_spelled_list. vm_compute. repeat constructor.
Defined.

(** [C39] The identity search of [allowsIdentity] terminates whenever the
    identities of the user are finitely many, and answers true exactly when
    the policy is unrestricted or some spelling of the same user reachable
    through the phone/LID map and the Brazilian alternate is allowed. *)
Theorem allowsIdentity_decides `{JidOps} (p : chatPolicy) (twin : twin_lookup)
    (U : list JID) (jid : JID) (HU : identities_within twin U jid) :
  ∃ b, allowsIdentity (3 * length U + 2) p twin jid = Some b ∧
    (b = true ↔ restricted p = false ∨
       ∃ k, rtc (identity_step twin) (ToNonAD jid) k ∧ IsEmpty k = false
            ∧ identity_allowed p twin k = true).
Proof. by apply allowsIdentity_correct. Qed.

Definition ref_phone : RefJid.t := {| RefJid.ref_user := "551187654321"; RefJid.ref_device := ""; RefJid.ref_server := DefaultUserServer |}.
Definition ref_phone9 : RefJid.t := {| RefJid.ref_user := "5511987654321"; RefJid.ref_device := ""; RefJid.ref_server := DefaultUserServer |}.
Definition ref_lid : RefJid.t := {| RefJid.ref_user := "900"; RefJid.ref_device := ""; RefJid.ref_server := HiddenUserServer |}.
Definition ref_twin (j : RefJid.t) : result string RefJid.t :=
  if bool_decide (j = ref_phone9) then Ok ref_lid
  else if bool_decide (j = ref_lid) then Ok ref_phone9
  else Err "no mapping".

Lemma allowsIdentity_decides_witness :
  ∃ b, @allowsIdentity RefJid.ops 11 (parseChatPolicy "5511987654321") (Some ref_twin) ref_lid = Some b
  ∧ @allowsIdentity RefJid.ops 11 (parseChatPolicy "5511987654321") (Some ref_twin) ref_lid = Some true.
Proof.
  destruct (@allowsIdentity_decides RefJid.ops (parseChatPolicy "5511987654321") (Some ref_twin)
    [ref_lid; ref_phone9; ref_phone] ref_lid) as (b & Hb & _).
  - split; [by left|]. apply Forall_forall. intros j Hj _.
    repeat (apply elem_of_cons in Hj as [->|Hj]); try (by apply not_elem_of_nil in Hj);
      vm_compute; set_solver.
  - exists b. split; [exact Hb|vm_compute; reflexivity].
Defined.

(** A chat target that passes [authorizeChat] has one address, with a
    user and a server, no device suffix, a lower-case server, and its spelling
    [user@server] is permitted by the policy the request is judged under. *)
Theorem authorizeChat_sound `{JidLaws} (policy : chatPolicy) (raw : string) (allowPhone : bool)
    (j : JID) (Hok : authorizeChat policy raw allowPhone = Ok j) :
  Allows policy (User j +:+ String "@" (Server j)) = true
  ∧ count_byte "@" raw ≤ 1 ∧ User j ≠ "" ∧ to_lower (Server j) = Server j
  ∧ contains_byte ":" (User j) = false ∧ ToNonAD j = j.
Proof.
  unfold authorizeChat, rejectByChatPolicy in Hok.
  destruct (canonicalChatJID raw allowPhone) as [j'|] eqn:Hc; [|done].
  destruct (Allows policy (JIDString j')) eqn:Ha; [|done]. simplify_eq.
  pose proof (canonicalChatJID_ok _ _ _ Hc) as (? & ? & ? & ? & ? & ? & ?).
  rewrite (canonical_string _ _ _ Hc) in Ha. done.
Qed.

Lemma authorizeChat_sound_witness :
  Allows (parseChatPolicy "*@g.us") "123@g.us" = true.
Proof.
  pose proof (@authorizeChat_sound RefJid.ops RefJid.laws (parseChatPolicy "*@g.us") " 123@G.us" true
    {| RefJid.ref_user := "123"; RefJid.ref_device := ""; RefJid.ref_server := "g.us" |}) as Hs.
  apply Hs. vm_compute. reflexivity.
Defined.

(** The two spellings of a Brazilian mobile number are each other's
    alternate, so the identity search treats them symmetrically. *)
Theorem brMobileAlternate_involutive (n : string) (Hn : brMobileAlternate n ≠ "") :
  brMobileAlternate (brMobileAlternate n) = n.
Proof. by apply brMobileAlternate_invol. Qed.

Lemma brMobileAlternate_involutive_witness :
  brMobileAlternate (brMobileAlternate "551187654321") = "551187654321".
Proof. apply (brMobileAlternate_involutive "551187654321"). vm_compute. discriminate. Defined.

(** A bare number with a device suffix is not normalised: a second pass drops
    the suffix, so the saved form of such an entry names another chat. *)
Lemma bare_device_suffix_kept :
  normalizeChatEntry "551199:4" = "551199:4@s.whatsapp.net"
  ∧ normalizeChatEntry (normalizeChatEntry "551199:4") = "551199@s.whatsapp.net".
Proof. split; vm_compute; reflexivity. Qed.
