(* ===== verification/ToolPolicy.v ===== *)
(** * Operation-level access control ([tool_policy.go], [read_only.go])

    The per-tool allow and deny lists, their translation to REST endpoints and
    the guards that wrap a mutating handler. *)
From S2P Require Import Prelude Http.

Definition allowToolsEnv : string := "WHATSAPP_ALLOW_TOOLS".
Definition denyToolsEnv : string := "WHATSAPP_DENY_TOOLS".
Definition readOnlyEnv : string := "WHATSAPP_READ_ONLY".

(** The mutating endpoints and the tools that reach them. *)
Definition endpointTools_list : list (string * list string) := [
  ("/api/send", ["send_message"; "send_file"; "send_audio_message"]);
  ("/api/react", ["send_reaction"]);
  ("/api/typing", ["send_typing"]);
  ("/api/mark-read", ["mark_messages_read"]);
  ("/api/chat/label", ["label_chat"]);
  ("/api/chat/archive", ["archive_chat"]);
  ("/api/delete", ["delete_message"]);
  ("/api/edit", ["edit_message"]);
  ("/api/forward", ["forward_message"]);
  ("/api/group/participants", ["manage_group_participants"]);
  ("/api/group/subject", ["update_group"]);
  ("/api/group/invite", ["get_group_invite_link"]);
  ("/api/group/leave", ["leave_group"]);
  ("/api/media/purge", ["purge_media"]);
  ("/api/history", ["request_history"])
].

Definition endpointTools : gmap string (list string) := list_to_map endpointTools_list.

Definition unenforcedTools : list string := [
  "annotate"; "annotate_media"; "bridge_status"; "clear_media_refusal"; "compact"; "coverage";
  "download_media"; "export_messages"; "get_chat"; "get_contact"; "get_contact_chats";
  "get_direct_chat_by_contact"; "get_last_interaction"; "get_media_notes"; "get_media_stats";
  "get_message_context"; "get_notes"; "get_poll_results"; "list_labels"; "list_chats";
  "list_group_members"; "list_media"; "list_messages"; "list_unanswered"; "list_unread";
  "mark_handled"; "message_stats"; "read_media"; "search_contacts"; "search_media_notes";
  "search_notes"; "snooze"; "transcribe_audio"
].

Definition knownTools : gset string :=
  list_to_set (unenforcedTools ++ concat (map snd endpointTools_list)).

Record toolPolicy := {
  allow : gset string;
  deny : gset string;
  allowLabel : string;
  denyLabels : gmap string string;
}.

Definition parseToolList (raw : string) : gset string :=
  list_to_set (filter (λ item, item ≠ "") (map trim_space (split_byte "," raw))).

Definition sortedNames (names : gset string) : list string := sort_strings (elements names).

(** The unknown names of one list, in order. *)
Definition unknown_names (names : gset string) : list string :=
  filter (λ name, name ∉ knownTools) (sortedNames names).

(** [newToolPolicy]: the error lists, per variable, the names that are not tools. *)
Definition newToolPolicy (allowRaw denyRaw : string) : result (list (string * list string)) toolPolicy :=
  let p := {| allow := parseToolList allowRaw; deny := parseToolList denyRaw;
              allowLabel := ""; denyLabels := ∅ |} in
  let problems :=
    filter (λ pr : string * list string, pr.2 ≠ [])
      [(allowToolsEnv, unknown_names (allow p)); (denyToolsEnv, unknown_names (deny p))] in
  match problems with
  | [] => Ok p
  | _ => Err problems
  end.

Definition tools_restricted (p : toolPolicy) : bool :=
  negb (bool_decide (allow p = ∅)) || negb (bool_decide (deny p = ∅)).

(** Deny, then allow. *)
Definition allowsTool (p : toolPolicy) (name : string) : bool :=
  if bool_decide (name ∈ deny p) then false
  else bool_decide (allow p = ∅) || bool_decide (name ∈ allow p).

(** Why one tool is blocked. *)
Definition block_reason (p : toolPolicy) (name : string) : string :=
  let env := if negb (String.eqb (allowLabel p) "")
             then allowLabel p +:+ " does not list it"
             else allowToolsEnv +:+ " is set and does not list it" in
  let env := if bool_decide (name ∈ deny p) then
               match denyLabels p !! name with
               | Some label => if negb (String.eqb label "") then label
                               else denyToolsEnv +:+ " lists it"
               | None => denyToolsEnv +:+ " lists it"
               end
             else env in
  name +:+ " (" +:+ env +:+ ")".

(** [refusal]: the 403 message of a path, "" when it may proceed. *)
Definition refusal (p : toolPolicy) (path : string) : string :=
  if negb (tools_restricted p) then ""
  else match endpointTools !! path with
       | None => path +:+ " is disabled: it maps to no MCP tool name, so " +:+ allowToolsEnv
                 +:+ " / " +:+ denyToolsEnv +:+ " cannot classify it"
       | Some tools =>
           if existsb (allowsTool p) tools then ""
           else path +:+ " is disabled: every tool that uses it is blocked: "
                +:+ join "; " (map (block_reason p) tools)
       end.

(** [toolPolicy.guard]. *)
Definition tools_guard (p : toolPolicy) (h : Http.handler) : Http.handler :=
  if negb (tools_restricted p) then h
  else λ r,
    let msg := refusal p (Http.path r) in
    if negb (String.eqb msg "") then Http.writeError Http.StatusForbidden msg else h r.

(** [readOnlyPolicy.guard]. *)
Definition read_only_guard (enabled : bool) (h : Http.handler) : Http.handler :=
  if negb enabled then h
  else λ r, Http.writeError Http.StatusForbidden
              (Http.path r +:+ " is disabled: " +:+ readOnlyEnv +:+
               " is set, so this bridge may read WhatsApp but not act on it").

(** ** Lemmas *)

Lemma allowsTool_spec p name :
  allowsTool p name = true ↔ name ∉ deny p ∧ (allow p = ∅ ∨ name ∈ allow p).
Proof.
  unfold allowsTool. case_bool_decide; [naive_solver|].
  rewrite orb_true_iff, !bool_decide_eq_true. tauto.
Qed.

Lemma string_app_eq_nil s t : s +:+ t = "" → s = "" ∧ t = "".
Proof. by destruct s. Qed.

Lemma tools_restricted_false p : tools_restricted p = false ↔ allow p = ∅ ∧ deny p = ∅.
Proof.
  unfold tools_restricted. rewrite orb_false_iff, !negb_false_iff, !bool_decide_eq_true. done.
Qed.

Lemma refusal_empty p path :
  refusal p path = "" ↔ tools_restricted p = false ∨
    ∃ tools name, endpointTools !! path = Some tools ∧ name ∈ tools ∧ allowsTool p name = true.
Proof.
  unfold refusal. destruct (tools_restricted p); simpl; [|naive_solver].
  destruct (endpointTools !! path) as [tools|] eqn:He.
  - destruct (existsb (allowsTool p) tools) eqn:Hex.
    + split; [|done]. intros _. right. apply existsb_exists in Hex as (name & Hin & Ha).
      exists tools, name. by rewrite list_elem_of_In.
    + split; [intros [_ ?]%string_app_eq_nil; done|].
      intros [?|(tools' & name & ? & Hin & Ha)]; [done|]. simplify_eq.
      apply list_elem_of_In in Hin. exfalso. apply not_true_iff_false in Hex. apply Hex.
      apply existsb_exists. eauto.
  - split; [intros [_ ?]%string_app_eq_nil; done|naive_solver].
Qed.

Lemma elem_of_parseToolList raw name :
  name ∈ parseToolList raw ↔ name ≠ "" ∧ ∃ item, item ∈ split_byte "," raw ∧ name = trim_space item.
Proof.
  unfold parseToolList. rewrite elem_of_list_to_set, list_elem_of_filter, list_elem_of_fmap. naive_solver.
Qed.

Lemma elem_of_sortedNames names name : name ∈ sortedNames names ↔ name ∈ names.
Proof. unfold sortedNames. by rewrite elem_of_sort_strings, elem_of_elements. Qed.

Lemma unknown_names_nil names : unknown_names names = [] ↔ names ⊆ knownTools.
Proof.
  unfold unknown_names. split.
  - intros Hnil x Hx. destruct (decide (x ∈ knownTools)) as [|Hn]; [done|]. exfalso.
    assert (x ∈ filter (λ name, name ∉ knownTools) (sortedNames names)) as Hin.
    { apply list_elem_of_filter. by rewrite elem_of_sortedNames. }
    rewrite Hnil in Hin. by apply not_elem_of_nil in Hin.
  - intros Hsub.
    destruct (filter _ _) as [|x l] eqn:E; [done|]. exfalso.
    assert (x ∈ filter (λ name, name ∉ knownTools) (sortedNames names)) as Hin by (rewrite E; left).
    apply list_elem_of_filter in Hin as [Hn Hin]. apply elem_of_sortedNames in Hin. set_solver.
Qed.
