(* ===== verification/Config.v ===== *)
(** * Environment values

    The parsers of the switches, intervals, sizes and lists the bridge reads
    from its environment: [env_bool.go], [hours_env.go], [read_only.go],
    [media_types.go], and the value parsers of [media_quota.go],
    [media_retention.go], [history_limits.go] and [webhook_runtime.go].
    Durations are nanoseconds. *)
From S2P Require Import Prelude ToolPolicy.

(** ** Package [strconv], base 10 *)

Definition digit_value (a : ascii) : option Z :=
  if bool_decide (48 ≤ byte_code a ≤ 57)%Z then Some (byte_code a - 48)%Z else None.

(** The value of a nonempty run of digits. *)
Fixpoint digits_acc (acc : Z) (s : string) : option Z :=
  match s with
  | EmptyString => Some acc
  | String a t =>
      match digit_value a with
      | Some d => digits_acc (acc * 10 + d)%Z t
      | None => None
      end
  end.

Definition parse_digits (s : string) : option Z :=
  if String.eqb s "" then None else digits_acc 0 s.

(** [strconv.ParseUint(s, 10, bits)]. *)
Definition ParseUint (bits : Z) (s : string) : option Z :=
  match parse_digits s with
  | Some n => if bool_decide (n < 2 ^ bits)%Z then Some n else None
  | None => None
  end.

(** [strconv.ParseInt(s, 10, bits)], one optional sign. *)
Definition ParseInt (bits : Z) (s : string) : option Z :=
  let signed (neg : bool) (t : string) :=
    match parse_digits t with
    | Some n =>
        if neg then if bool_decide (n ≤ 2 ^ (bits - 1))%Z then Some (- n)%Z else None
        else if bool_decide (n < 2 ^ (bits - 1))%Z then Some n else None
    | None => None
    end in
  match s with
  | String a t => if Ascii.eqb a "-" then signed true t
                  else if Ascii.eqb a "+" then signed false t
                  else signed false s
  | EmptyString => None
  end.

(** [strconv.Atoi] on a 64-bit platform. *)
Definition Atoi (s : string) : option Z := ParseInt 64 s.

(** ** Durations *)

Definition second_ns : Z := 10 ^ 9.
Definition minute_ns : Z := 60 * second_ns.
Definition hour_ns : Z := 60 * minute_ns.
Definition day_ns : Z := 24 * hour_ns.

(** ** Boolean switches *)

Definition boolTrue : list string := ["1"; "true"; "yes"; "on"].
Definition boolFalse : list string := ["0"; "false"; "no"; "off"].

(** [parseBoolEnv]: the value, and the error message when it is unreadable
    (the quoting and shortening of the echoed value is left out). *)
Definition parseBoolEnv (name raw : string) (def : bool) : bool * option string :=
  let v := to_lower (trim_space raw) in
  if String.eqb v "" then (def, None)
  else if bool_decide (v ∈ boolTrue) then (true, None)
  else if bool_decide (v ∈ boolFalse) then (false, None)
  else (def, Some (name +:+ "=" +:+ raw +:+ " is not a boolean; use one of "
                   +:+ join ", " (boolTrue ++ boolFalse))).

(** [parseReadOnly]. *)
Definition parseReadOnly (raw : string) : result string bool :=
  match parseBoolEnv readOnlyEnv raw false with
  | (b, None) => Ok b
  | (_, Some e) => Err e
  end.

Definition forwardSelfEnv : string := "FORWARD_SELF".
Definition mediaAutoDownloadEnv : string := "WHATSAPP_MEDIA_AUTODOWNLOAD".
Definition webhookEnabledEnv : string := "WEBHOOK_ENABLED".
Definition metricsEnv : string := "WHATSAPP_METRICS".
Definition webhookForwardStatusEnv : string := "WEBHOOK_FORWARD_STATUS".
Definition webhookForwardChannelsEnv : string := "WEBHOOK_FORWARD_CHANNELS".
Definition webhookForwardBroadcastsEnv : string := "WEBHOOK_FORWARD_BROADCASTS".
Definition webhookForwardConnectionEnv : string := "WEBHOOK_FORWARD_CONNECTION_EVENTS".

Record bridgeSwitchPresence := {
  ExplicitForwardSelf : bool;
  ExplicitForwardChannels : bool;
  ExplicitForwardBroadcasts : bool;
  ExplicitForwardConnection : bool;
}.

Record bridgeSwitches := {
  Explicit : bridgeSwitchPresence;
  ForwardSelf : bool;
  MediaAutoDownload : bool;
  WebhookEnabled : bool;
  Metrics : bool;
  ForwardStatus : bool;
  ForwardChannels : bool;
  ForwardBroadcasts : bool;
  ForwardConnection : bool;
}.

(** The table of the loop in [parseBridgeSwitches]: name and default. *)
Definition switch_table : list (string * bool) := [
  (forwardSelfEnv, true); (mediaAutoDownloadEnv, true); (webhookEnabledEnv, true);
  (metricsEnv, true); (webhookForwardStatusEnv, false); (webhookForwardChannelsEnv, false);
  (webhookForwardBroadcastsEnv, false); (webhookForwardConnectionEnv, false)
].

Definition switch_error (getenv : string → string) (s : string * bool) : option string :=
  (parseBoolEnv s.1 (getenv s.1) s.2).2.

Definition parseBridgeSwitches (getenv : string → string) : result string bridgeSwitches :=
  let value name def := (parseBoolEnv name (getenv name) def).1 in
  let explicit name := negb (String.eqb (trim_space (getenv name)) "") in
  match omap (switch_error getenv) switch_table with
  | [] => Ok {|
      Explicit := {| ExplicitForwardSelf := explicit forwardSelfEnv;
                     ExplicitForwardChannels := explicit webhookForwardChannelsEnv;
                     ExplicitForwardBroadcasts := explicit webhookForwardBroadcastsEnv;
                     ExplicitForwardConnection := explicit webhookForwardConnectionEnv |};
      ForwardSelf := value forwardSelfEnv true;
      MediaAutoDownload := value mediaAutoDownloadEnv true;
      WebhookEnabled := value webhookEnabledEnv true;
      Metrics := value metricsEnv true;
      ForwardStatus := value webhookForwardStatusEnv false;
      ForwardChannels := value webhookForwardChannelsEnv false;
      ForwardBroadcasts := value webhookForwardBroadcastsEnv false;
      ForwardConnection := value webhookForwardConnectionEnv false |}
  | unreadable => Err (join "; " unreadable)
  end.

(** ** Intervals, sizes and lists *)

(** [resolveHoursEnv]; [maxHours = 0] sets no bound. *)
Definition resolveHoursEnv (env value : string) (def maxHours : Z) : result string Z :=
  let v := trim_space value in
  if String.eqb v "" then Ok def
  else match Atoi v with
       | None => Err ("invalid " +:+ env +:+ ": expected a non-negative number of hours (0 disables)")
       | Some hours =>
           if bool_decide (hours < 0)%Z
           then Err ("invalid " +:+ env +:+ ": expected a non-negative number of hours (0 disables)")
           else if bool_decide (hours > max_int64 / hour_ns)%Z
           then Err ("invalid " +:+ env +:+ ": number of hours is too large to represent as a duration")
           else if bool_decide (maxHours > 0 ∧ hours > maxHours)%Z
           then Err ("invalid " +:+ env +:+ ": too many hours (0 disables)")
           else Ok (hours * hour_ns)%Z
       end.

Definition sessionKeepaliveInterval : Z := 12 * hour_ns.
Definition sessionKeepaliveMaxHours : Z := 7 * 24.

Definition resolveSessionKeepalive (value : string) : result string Z :=
  resolveHoursEnv "WHATSAPP_SESSION_KEEPALIVE_HOURS" value sessionKeepaliveInterval
    sessionKeepaliveMaxHours.

(** [resolveMediaRetention]: days. *)
Definition resolveMediaRetention (value : string) : result string Z :=
  let v := trim_space value in
  if String.eqb v "" then Ok 0%Z
  else match Atoi v with
       | None => Err "invalid WHATSAPP_MEDIA_RETENTION_DAYS: expected a non-negative number of days"
       | Some days =>
           if bool_decide (days < 0)%Z
           then Err "invalid WHATSAPP_MEDIA_RETENTION_DAYS: expected a non-negative number of days"
           else if bool_decide (days > max_int64 / day_ns)%Z
           then Err "invalid WHATSAPP_MEDIA_RETENTION_DAYS: duration overflows"
           else Ok (days * day_ns)%Z
       end.

Definition defaultMediaMaxBytes : Z := 256 * 1024 * 1024.

Definition resolveMediaMaxBytes (value : string) : result string Z :=
  let v := trim_space value in
  if String.eqb v "" then Ok defaultMediaMaxBytes
  else match ParseUint 64 v with
       | Some n => Ok n
       | None => Err "invalid WHATSAPP_MEDIA_MAX_BYTES: expected a non-negative integer of bytes"
       end.

Definition parseQuota (raw : string) : result string Z :=
  if String.eqb (trim_space raw) "" then Ok 0%Z
  else match ParseUint 64 (trim_space raw) with
       | Some n => Ok n
       | None => Err "invalid WHATSAPP_MEDIA_QUOTA_BYTES: expected non-negative bytes"
       end.

Definition parseEvictTarget (raw : string) : result string Z :=
  if String.eqb (trim_space raw) "" then Ok 90%Z
  else match Atoi (trim_space raw) with
       | Some n => if bool_decide (n < 1 ∨ n > 99)%Z
                   then Err "invalid WHATSAPP_MEDIA_QUOTA_EVICT_TARGET_PERCENT: expected 1-99 percent"
                   else Ok n
       | None => Err "invalid WHATSAPP_MEDIA_QUOTA_EVICT_TARGET_PERCENT: expected 1-99 percent"
       end.

Definition purgeMediaTypes : list string := ["image"; "video"; "audio"; "document"; "sticker"].

(** The comma-separated kinds of a list, each among [known]; the sorted set. *)
Definition parse_kinds (known : list string) (err raw : string) : result string (list string) :=
  if String.eqb (trim_space raw) "" then Ok []
  else
    let kinds := map trim_space (split_byte "," raw) in
    if forallb (λ k, bool_decide (k ∈ known)) kinds
    then Ok (sortedNames (list_to_set kinds))
    else Err err.

Definition parseEvictTypes : string → result string (list string) :=
  parse_kinds ("status" :: purgeMediaTypes)
    "invalid WHATSAPP_MEDIA_QUOTA_EVICT_TYPES: expected image, video, audio, document, sticker or status".

Definition parseAutoTypes : string → result string (list string) :=
  parse_kinds purgeMediaTypes
    "invalid WHATSAPP_MEDIA_AUTODOWNLOAD_TYPES: expected image, video, audio, document or sticker".

Definition parseIngestChats (raw : string) : result string string :=
  let value := trim_space raw in
  let value := if String.eqb value "" then "all" else value in
  if negb (String.eqb value "all") && negb (String.eqb value "direct")
  then Err "expected all or direct" else Ok value.

(** ** History limits *)

Record historyLimits := {
  Days : Z;
  SizeMB : Z;
  QuotaMB : Z;
  MaxAge : Z;
  WarnBytes : Z;
}.

(** A positive 32-bit field: its value, or a problem. *)
Definition positive32 (name value : string) : result string Z :=
  if String.eqb value "" then Ok 0%Z
  else match ParseUint 32 value with
       | Some n => if Z.eqb n 0 then Err (name +:+ " must be a positive 32-bit integer") else Ok n
       | None => Err (name +:+ " must be a positive 32-bit integer")
       end.

Definition history_max_age (value : string) : result string Z :=
  if String.eqb value "" then Ok 0%Z
  else match ParseUint 32 value with
       | Some n => if bool_decide (n = 0 ∨ n > max_int64 / day_ns)%Z
                   then Err "WHATSAPP_HISTORY_MAX_AGE_DAYS must be positive and fit a duration"
                   else Ok (n * day_ns)%Z
       | None => Err "WHATSAPP_HISTORY_MAX_AGE_DAYS must be positive and fit a duration"
       end.

Definition history_warn_bytes (value : string) : result string Z :=
  if String.eqb value "" then Ok 0%Z
  else match ParseInt 64 value with
       | Some n => if bool_decide (n ≤ 0)%Z
                   then Err "WHATSAPP_STORE_WARN_BYTES must be a positive integer" else Ok n
       | None => Err "WHATSAPP_STORE_WARN_BYTES must be a positive integer"
       end.

Definition result_value (r : result string Z) : Z := match r with Ok z => z | Err _ => 0%Z end.
Definition result_problem (r : result string Z) : option string :=
  match r with Ok _ => None | Err e => Some e end.

Definition parseHistoryLimits (getenv : string → string) : result string historyLimits :=
  let days := positive32 "WHATSAPP_HISTORY_SYNC_DAYS" (getenv "WHATSAPP_HISTORY_SYNC_DAYS") in
  let size := positive32 "WHATSAPP_HISTORY_SYNC_SIZE_MB" (getenv "WHATSAPP_HISTORY_SYNC_SIZE_MB") in
  let quota := positive32 "WHATSAPP_HISTORY_SYNC_STORAGE_QUOTA_MB"
                 (getenv "WHATSAPP_HISTORY_SYNC_STORAGE_QUOTA_MB") in
  let age := history_max_age (getenv "WHATSAPP_HISTORY_MAX_AGE_DAYS") in
  let warn := history_warn_bytes (getenv "WHATSAPP_STORE_WARN_BYTES") in
  match omap result_problem [days; size; quota; age; warn] with
  | [] => Ok {| Days := result_value days; SizeMB := result_value size;
                QuotaMB := result_value quota; MaxAge := result_value age;
                WarnBytes := result_value warn |}
  | problems => Err (join "; " problems)
  end.

Definition pairingConfigured (cfg : historyLimits) : bool :=
  negb (Z.eqb (Days cfg) 0) || negb (Z.eqb (SizeMB cfg) 0) || negb (Z.eqb (QuotaMB cfg) 0).

Definition validateFlag (cfg : historyLimits) (full : bool) : result string unit :=
  if full && pairingConfigured cfg
  then Err "--full-history-pair cannot be combined with WHATSAPP_HISTORY_SYNC_DAYS, WHATSAPP_HISTORY_SYNC_SIZE_MB or WHATSAPP_HISTORY_SYNC_STORAGE_QUOTA_MB"
  else Ok tt.

(** ** Lemmas *)

Lemma digit_value_range a d : digit_value a = Some d → (0 ≤ d ≤ 9)%Z.
Proof. unfold digit_value. case_bool_decide; intros; simplify_eq; lia. Qed.

Lemma digits_acc_nonneg acc s n : (0 ≤ acc)%Z → digits_acc acc s = Some n → (0 ≤ n)%Z.
Proof.
  revert acc. induction s as [|a s IH]; intros acc Hacc; simpl; [by intros [= <-]|].
  destruct (digit_value a) as [d|] eqn:Hd; [|done].
  apply digit_value_range in Hd. apply IH. lia.
Qed.

Lemma parse_digits_nonneg s n : parse_digits s = Some n → (0 ≤ n)%Z.
Proof. unfold parse_digits. case_match; [done|]. by apply digits_acc_nonneg. Qed.

Lemma ParseUint_range bits s n : ParseUint bits s = Some n → (0 ≤ n < 2 ^ bits)%Z.
Proof.
  unfold ParseUint. destruct (parse_digits s) as [m|] eqn:Hm; [|done].
  apply parse_digits_nonneg in Hm. case_bool_decide; intros; simplify_eq. lia.
Qed.

Lemma ParseInt_range bits s n :
  (1 ≤ bits)%Z → ParseInt bits s = Some n → (- 2 ^ (bits - 1) ≤ n < 2 ^ (bits - 1))%Z.
Proof.
  intros Hb. pose proof (Z.pow_pos_nonneg 2 (bits - 1) ltac:(lia) ltac:(lia)).
  unfold ParseInt. destruct s as [|a t]; [done|].
  repeat match goal with
  | |- context [parse_digits ?u] =>
      let H := fresh in destruct (parse_digits u) eqn:H; [apply parse_digits_nonneg in H|]
  | |- _ => case_match
  end; intros; simplify_eq; bool_split; lia.
Qed.

Lemma duration_scale n unit : (0 < unit)%Z → (0 ≤ n)%Z → (n ≤ max_int64 / unit)%Z → in_int64 (n * unit).
Proof.
  intros Hu Hn Hle. unfold in_int64. split; [unfold max_int64 in *; nia|].
  pose proof (Z.mul_div_le max_int64 unit Hu). nia.
Qed.

Lemma hours_ok env value def maxHours d :
  resolveHoursEnv env value def maxHours = Ok d →
  (trim_space value = "" ∧ d = def) ∨
  ∃ hours, Atoi (trim_space value) = Some hours ∧ (0 ≤ hours)%Z ∧ d = (hours * hour_ns)%Z
    ∧ in_int64 d ∧ ((0 < maxHours)%Z → (hours ≤ maxHours)%Z).
Proof.
  unfold resolveHoursEnv. destruct (String.eqb_spec (trim_space value) "") as [|Hne]; [naive_solver|].
  destruct (Atoi (trim_space value)) as [hours|]; [|done].
  case_bool_decide as H1; [done|]. case_bool_decide as H2; [done|]. case_bool_decide as H3; [done|].
  intros [= <-]. right. exists hours. split_and!; try done; [lia| |lia].
  apply duration_scale; [done|lia|lia].
Qed.

Lemma retention_ok value d :
  resolveMediaRetention value = Ok d → (0 ≤ d)%Z ∧ in_int64 d.
Proof.
  unfold resolveMediaRetention. case_match; [by intros [= <-]|].
  destruct (Atoi _) as [days|]; [|done].
  case_bool_decide as H1; [done|]. case_bool_decide as H2; [done|]. intros [= <-].
  split; [unfold day_ns, hour_ns, minute_ns, second_ns; lia|]. apply duration_scale; [done|lia|lia].
Qed.

Lemma max_age_ok value d : history_max_age value = Ok d → (0 ≤ d)%Z ∧ in_int64 d.
Proof.
  unfold history_max_age. case_match; [by intros [= <-]|].
  destruct (ParseUint 32 value) as [n|] eqn:Hn; [|done]. apply ParseUint_range in Hn.
  case_bool_decide as H1; [done|]. intros [= <-].
  split; [unfold day_ns, hour_ns, minute_ns, second_ns; lia|]. apply duration_scale; [done|lia|lia].
Qed.

Lemma parseBoolEnv_readable name raw def :
  (parseBoolEnv name raw def).2 = None ↔
  to_lower (trim_space raw) = "" ∨ to_lower (trim_space raw) ∈ boolTrue ++ boolFalse.
Proof.
  unfold parseBoolEnv. rewrite elem_of_app.
  destruct (String.eqb_spec (to_lower (trim_space raw)) ""); simpl; [tauto|].
  repeat case_bool_decide; simpl; naive_solver.
Qed.

Lemma omap_nil_Forall {A B} (f : A → option B) (l : list A) :
  omap f l = [] ↔ Forall (λ x, f x = None) l.
Proof.
  induction l as [|x l IH]; simpl; [done|]. rewrite Forall_cons.
  destruct (f x) eqn:E; [naive_solver|]. rewrite <-IH. naive_solver.
Qed.

(** ** Properties *)

(** Every interval the bridge accepts from its environment is
    non-negative, fits the 64-bit nanosecond duration it is stored in, and
    respects the bound of its variable: the multiplication by the unit never
    wraps. *)
Theorem durations_fit_int64 (env value : string) (def maxHours d : Z)
    (Hdef : (0 ≤ def)%Z ∧ in_int64 def) (Hd : resolveHoursEnv env value def maxHours = Ok d) :
  (0 ≤ d)%Z ∧ in_int64 d
  ∧ (trim_space value ≠ "" → (0 < maxHours)%Z → (d ≤ maxHours * hour_ns)%Z)
  ∧ (∀ r, resolveMediaRetention value = Ok r → (0 ≤ r)%Z ∧ in_int64 r)
  ∧ (∀ a, history_max_age value = Ok a → (0 ≤ a)%Z ∧ in_int64 a).
Proof.
  destruct (hours_ok _ _ _ _ _ Hd) as [[Hb ->]|(h & _ & Hh & -> & Hin & Hm)].
  - split_and!; try tauto; eauto using retention_ok, max_age_ok.
  - split_and!; eauto using retention_ok, max_age_ok;
      unfold hour_ns, minute_ns, second_ns in *; [lia|]. intros _ ?%Hm. lia.
Qed.

Lemma durations_fit_int64_witness :
  resolveHoursEnv "X" " 168 " sessionKeepaliveInterval 168 = Ok (168 * hour_ns)%Z
  ∧ in_int64 (168 * hour_ns).
Proof.
  split; [vm_compute; reflexivity|].
  apply (durations_fit_int64 "X" " 168 " sessionKeepaliveInterval 168).
  - split; [|split]; vm_compute; congruence.
  - vm_compute. reflexivity.
Defined.

(** The startup switches are accepted together exactly when every one of
    the eight variables is blank or one of the eight boolean words (any case,
    surrounding space ignored); an unreadable value never means a default. *)
Theorem switches_fail_closed (getenv : string → string) :
  is_ok (parseBridgeSwitches getenv) = true ↔
  ∀ s, s ∈ switch_table →
    to_lower (trim_space (getenv s.1)) = "" ∨
    to_lower (trim_space (getenv s.1)) ∈ boolTrue ++ boolFalse.
Proof.
  assert (is_ok (parseBridgeSwitches getenv) = true ↔
    omap (switch_error getenv) switch_table = []) as ->.
  { unfold parseBridgeSwitches. by destruct (omap _ switch_table). }
  rewrite omap_nil_Forall, Forall_forall. unfold switch_error.
  by setoid_rewrite parseBoolEnv_readable.
Qed.
