(* ===== verification/RuntimeSettings.v ===== *)
(** * Runtime settings ([runtime_settings.go], the settings of [media_quota.go])

    Saved rows override the deployment values of fifteen keys, and every
    security boundary of the deployment stays a floor or a ceiling of what a
    row can ask for.  A JSON text is modelled by its syntax tree; [None]
    stands for a text that is not JSON.  A decimal number carries the value it
    decodes to. *)
From Stdlib Require Import QArith.
From S2P Require Import Prelude Http ChatPolicy ToolPolicy Config.
#[local] Open Scope nat_scope.
#[local] Set Warnings "-register-all".

Inductive json : Type :=
| JNull
| JBool (b : bool)
| JInt (z : Z)
| JDec (q : Q)
| JStr (s : string)
| JArr (l : list json)
| JObj (fields : list (string * json)).

(** [json.Unmarshal] into a string, a list of strings, integers, a float and a
    bool: [null] leaves the zero value, a list of the wrong type is an error. *)
Definition to_str (j : json) : option string :=
  match j with JStr s => Some s | JNull => Some "" | _ => None end.

Fixpoint all_some {A} (l : list (option A)) : option (list A) :=
  match l with
  | [] => Some []
  | Some x :: rest => match all_some rest with Some xs => Some (x :: xs) | None => None end
  | None :: _ => None
  end.

(** [Some None] is the nil slice. *)
Definition to_strs (j : json) : option (option (list string)) :=
  match j with
  | JNull => Some None
  | JArr l => match all_some (map to_str l) with Some xs => Some (Some xs) | None => None end
  | _ => None
  end.

Definition to_int (lo hi : Z) (j : json) : option Z :=
  match j with
  | JNull => Some 0%Z
  | JInt z => if bool_decide (lo ≤ z ≤ hi)%Z then Some z else None
  | _ => None
  end.

Definition to_int64 : json → option Z := to_int (- 2 ^ 63) max_int64.
Definition to_uint64 : json → option Z := to_int 0 max_uint64.

(** The dynamic value of a setting. *)
Inductive value : Type :=
| VStrings (l : list string)
| VInt64 (z : Z)
| VUint64 (z : Z)
| VInt (z : Z)
| VFloat (q : Q)
| VStr (s : string)
| VBool (b : bool)
| VNil.

Record runtimeSetting := { Value : value; Source : string }.

Record settingDefinition := {
  key : string;
  env : string;
  defaultValue : value;
  parse : json → result string value;
  parseEnv : string → result string value;
}.

Definition map_result {E A B} (f : A → B) (r : result E A) : result E B :=
  match r with Ok a => Ok (f a) | Err e => Err e end.

(** ** The definitions *)

(** The byte classes of [chatEntryPattern]. *)
Definition is_alnum (a : ascii) : bool :=
  bool_decide (48 ≤ byte_code a ≤ 57 ∨ 65 ≤ byte_code a ≤ 90 ∨ 97 ≤ byte_code a ≤ 122)%Z.
Definition user_byte (a : ascii) : bool :=
  is_alnum a || Ascii.eqb a "_" || Ascii.eqb a ":" || Ascii.eqb a "-".
Definition server_byte (a : ascii) : bool := is_alnum a || Ascii.eqb a "." || Ascii.eqb a "-".
Definition digit_byte (a : ascii) : bool := bool_decide (48 ≤ byte_code a ≤ 57)%Z.

Definition nonempty_of (f : ascii → bool) (s : string) : bool :=
  negb (String.eqb s "") && forallb f (list_ascii_of_string s).

(** [chatEntryPattern.MatchString]: a digits-only number, a JID or a server
    wildcard. *)
Definition chatEntryPattern (s : string) : bool :=
  nonempty_of digit_byte s ||
  match cut_first "@" s with
  | Some (user, server) =>
      (String.eqb user "*" || nonempty_of user_byte user) && nonempty_of server_byte server
  | None => false
  end.

Definition parse_chats (j : json) : result string value :=
  match to_strs j with
  | Some (Some ((_ :: _) as entries')) =>
      if forallb (λ e, chatEntryPattern (trim_space e)) entries'
      then Ok (VStrings (entries (parseChatPolicy (join "," entries'))))
      else Err "expected each chat entry to be a JID, a digits-only number or a *@server wildcard"
  | _ => Err "expected a nonempty array of chat entries; use null to clear"
  end.

(** A tool name of a list: nonempty, without a comma or surrounding space. *)
Definition plain_name (name : string) : bool :=
  negb (String.eqb name "") && negb (contains_byte "," name) && String.eqb name (trim_space name).

Definition parse_tools (j : json) : result string value :=
  match to_strs j with
  | Some (Some names) =>
      if negb (forallb plain_name names) then Err "expected tool names"
      else match newToolPolicy (join "," names) "" with
           | Ok policy => Ok (VStrings (sortedNames (allow policy)))
           | Err _ => Err "unknown tool name"
           end
  | _ => Err "expected an array of tool names"
  end.

Definition env_tools (raw : string) : result string value :=
  Ok (VStrings (sortedNames (parseToolList raw))).

(** [capValue]: minutes of a month. *)
Definition cap_value (q : Q) : result string value :=
  if negb (Qle_bool 0 q) || negb (Qle_bool q 525600) then Err "expected minutes in 0..525600"
  else Ok (VFloat q).

(** The decimal literals [transcriptionDecimal] accepts, with their value:
    sign, digits with an optional point, optional exponent. *)
Definition cut_sign (s : string) : bool * string :=
  match s with
  | String a t => if Ascii.eqb a "-" then (true, t) else if Ascii.eqb a "+" then (false, t) else (false, s)
  | EmptyString => (false, s)
  end.

Definition cut_exponent (s : string) : string * option string :=
  match cut_first "e" s with
  | Some (m, x) => (m, Some x)
  | None => match cut_first "E" s with Some (m, x) => (m, Some x) | None => (s, None) end
  end.

Definition pow10 (e : Z) : Q := Qpower (10 # 1) e.

Definition parse_mantissa (m : string) : option Q :=
  match cut_first "." m with
  | None => match parse_digits m with Some n => Some (inject_Z n) | None => None end
  | Some (ip, fp) =>
      match parse_digits (ip +:+ fp) with
      | Some n => Some (inject_Z n * pow10 (- Z.of_nat (String.length fp)))%Q
      | None => None
      end
  end.

(** The nearest [float64] of a rational below the overflow threshold: 53 bits,
    ties to even, exponents from -1074. *)
Definition half_even (n d : Z) : Z :=
  let q := (n / d)%Z in let r := (n mod d)%Z in
  if bool_decide (2 * r < d ∨ (2 * r = d ∧ Z.even q = true))%Z then q else (q + 1)%Z.

Definition round64 (q : Q) : Q :=
  let n := Z.abs (Qnum q) in let d := Zpos (Qden q) in
  let guess := (Z.log2 n - Z.log2 d - 52)%Z in
  let e0 := if bool_decide (n * 2 ^ Z.max 0 (- guess) < 2 ^ 52 * d * 2 ^ Z.max 0 guess)%Z
            then (guess - 1)%Z else guess in
  let e := Z.max (-1074) e0 in
  let m := half_even (n * 2 ^ Z.max 0 (- e)) (d * 2 ^ Z.max 0 e) in
  Qred (inject_Z (Z.sgn (Qnum q) * m * 2 ^ Z.max 0 e) / inject_Z (2 ^ Z.max 0 (- e))).

Definition parse_minutes (raw : string) : option Q :=
  let '(neg, body) := cut_sign raw in
  let '(m, x) := cut_exponent body in
  match parse_mantissa m with
  | None => None
  | Some q =>
      let q := if neg then (- q)%Q else q in
      match x with
      | None => Some q
      | Some x => let '(xneg, digits) := cut_sign x in
                  match parse_digits digits with
                  | Some e => Some (q * pow10 (if xneg then - e else e))%Q
                  | None => None
                  end
      end
  end.

Definition parse_cap (j : json) : result string value :=
  match j with
  | JInt z => cap_value (inject_Z z)
  | JDec q => cap_value q
  | _ => Err "expected minutes in 0..525600"
  end.

Definition scope (v : string) : result string value :=
  if negb (String.eqb v "ingest") && negb (String.eqb v "all") then Err "expected ingest or all"
  else Ok (VStr v).

Definition parse_scope (j : json) : result string value :=
  match to_str j with Some v => scope v | None => Err "expected ingest or all" end.

Definition parse_ingest (j : json) : result string value :=
  match to_str j with
  | Some v => if String.eqb v "" then Err "expected all or direct"
              else map_result VStr (parseIngestChats v)
  | None => Err "expected all or direct"
  end.

Definition sendSetting (key env : string) : settingDefinition := {|
  key := key; env := env; defaultValue := VInt64 0;
  parse j := match to_int64 j with
             | Some v => if bool_decide (v < 0 ∨ v > 2147483647)%Z
                         then Err "expected an integer from 0 to 2147483647; 0 disables"
                         else Ok (VInt64 v)
             | None => Err "expected an integer from 0 to 2147483647; 0 disables"
             end;
  parseEnv raw := match ParseInt 32 (trim_space raw) with
                  | Some v => if bool_decide (v < 0)%Z
                              then Err "expected a nonnegative 32-bit integer" else Ok (VInt64 v)
                  | None => Err "expected a nonnegative 32-bit integer"
                  end |}.

(** A list of media kinds given as a JSON array. *)
Definition parse_kind_array (parse_list : string → result string (list string)) (j : json) :
    result string value :=
  match to_strs j with
  | Some (Some names) =>
      if forallb (λ n, negb (String.eqb n "") && negb (contains_byte "," n)) names
      then map_result VStrings (parse_list (join "," names))
      else Err "invalid type"
  | _ => Err "expected type array"
  end.

Definition parse_status (j : json) : result string value :=
  match j with JBool b => Ok (VBool b) | _ => Err "expected boolean" end.

Definition env_status (raw : string) : result string value :=
  match parseBoolEnv "WHATSAPP_MEDIA_AUTODOWNLOAD_STATUS" raw false with
  | (b, None) => Ok (VBool b)
  | (_, Some e) => Err e
  end.

Definition parse_quota_json (j : json) : result string value :=
  match to_uint64 j with Some n => Ok (VUint64 n) | None => Err "expected non-negative bytes" end.

(** [json.Unmarshal] into an int and the bounds of [parseEvictTarget]. *)
Definition parse_target_json (j : json) : result string value :=
  match to_int64 j with
  | Some n => if bool_decide (n < 1 ∨ n > 99)%Z then Err "invalid WHATSAPP_MEDIA_QUOTA_EVICT_TARGET_PERCENT: expected 1-99 percent" else Ok (VInt n)
  | None => Err "expected percent"
  end.

Definition mediaSettingDefinitions : list settingDefinition := [
  {| key := "media.autodownload_types"; env := "WHATSAPP_MEDIA_AUTODOWNLOAD_TYPES";
     defaultValue := VStrings ["audio"; "document"; "image"; "sticker"; "video"];
     parse := parse_kind_array parseAutoTypes;
     parseEnv raw := map_result VStrings (parseAutoTypes raw) |};
  {| key := "media.autodownload_status"; env := "WHATSAPP_MEDIA_AUTODOWNLOAD_STATUS";
     defaultValue := VBool false; parse := parse_status; parseEnv := env_status |};
  {| key := "media.quota_bytes"; env := "WHATSAPP_MEDIA_QUOTA_BYTES";
     defaultValue := VUint64 0; parse := parse_quota_json;
     parseEnv raw := map_result VUint64 (parseQuota raw) |};
  {| key := "media.quota_evict_types"; env := "WHATSAPP_MEDIA_QUOTA_EVICT_TYPES";
     defaultValue := VStrings []; parse := parse_kind_array parseEvictTypes;
     parseEnv raw := map_result VStrings (parseEvictTypes raw) |};
  {| key := "media.quota_evict_target_percent"; env := "WHATSAPP_MEDIA_QUOTA_EVICT_TARGET_PERCENT";
     defaultValue := VInt 90; parse := parse_target_json;
     parseEnv raw := map_result VInt (parseEvictTarget raw) |}
].

Definition settingDefinitions : list settingDefinition := [
  {| key := "chats.allowed"; env := chatPolicyEnv; defaultValue := VStrings [];
     parse := parse_chats;
     parseEnv raw := Ok (VStrings (entries (parseChatPolicy raw))) |};
  sendSetting "send.rate_per_minute" "WHATSAPP_SEND_RATE_PER_MINUTE";
  sendSetting "send.rate_per_day" "WHATSAPP_SEND_RATE_PER_DAY";
  sendSetting "send.new_chats_per_day" "WHATSAPP_SEND_NEW_CHATS_PER_DAY";
  sendSetting "send.min_interval_ms" "WHATSAPP_SEND_MIN_INTERVAL_MS";
  {| key := "transcription.monthly_max_minutes"; env := "TRANSCRIBE_MONTHLY_MAX_MINUTES";
     defaultValue := VNil; parse := parse_cap;
     parseEnv raw := match parse_minutes (trim_space raw) with
                     | Some q => cap_value (round64 q)
                     | None => Err "expected decimal minutes"
                     end |};
  {| key := "transcription.cap_scope"; env := "TRANSCRIBE_CAP_SCOPE";
     defaultValue := VStr "ingest"; parse := parse_scope; parseEnv raw := scope (trim_space raw) |};
  {| key := "tools.allow"; env := allowToolsEnv; defaultValue := VStrings [];
     parse := parse_tools; parseEnv := env_tools |};
  {| key := "tools.deny"; env := denyToolsEnv; defaultValue := VStrings [];
     parse := parse_tools; parseEnv := env_tools |};
  {| key := "transcription.ingest_chats"; env := "TRANSCRIBE_ON_INGEST_CHATS";
     defaultValue := VStr "all"; parse := parse_ingest;
     parseEnv raw := map_result VStr (parseIngestChats raw) |}
] ++ mediaSettingDefinitions.

(** ** Deployment values *)

(** [runtimeDefaults]: the default or the environment value of every key; all
    unreadable values are reported together. *)
Definition default_setting (getenv : string → string) (def : settingDefinition) :
    result string runtimeSetting :=
  let raw := getenv (env def) in
  if String.eqb (trim_space raw) "" then Ok {| Value := defaultValue def; Source := "default" |}
  else match parseEnv def raw with
       | Ok v => Ok {| Value := v; Source := "env" |}
       | Err e => Err (env def +:+ ": " +:+ e)
       end.

Definition defaults_step (getenv : string → string)
    (acc : gmap string runtimeSetting * list string) (def : settingDefinition) :
    gmap string runtimeSetting * list string :=
  let '(out, problems) := acc in
  match default_setting getenv def with
  | Ok setting => (<[key def := setting]> out, problems)
  | Err e => (out, problems ++ [e])
  end.

Definition runtimeDefaults (getenv : string → string) : result string (gmap string runtimeSetting) :=
  match foldl (defaults_step getenv) (∅, []) settingDefinitions with
  | (out, []) => Ok out
  | (_, problems) => Err (join "; " problems)
  end.

(** ** Reading the saved rows *)

(** A row of the table; [saved = None] is a value that is not JSON. *)
Record row := { row_key : string; saved : option json; version : Z }.

Record runtimeSettingsSnapshot := {
  Version : Z;
  Settings : gmap string runtimeSetting;
  policy : toolPolicy;
  chats : chatPolicy;
}.

Definition zero_setting : runtimeSetting := {| Value := VNil; Source := "" |}.

Definition setting (m : gmap string runtimeSetting) (k : string) : runtimeSetting :=
  default zero_setting (m !! k).

(** The value of an assertion [.Value.([]string)] or [.Value.(int64)] that
    holds.  One that fails panics in Go: [readRuntimeSettings_asserted] below
    evaluates the assertions themselves, and [snapshot_well_typed] shows that
    none of them fails, so what is written for the other types is never used. *)
Definition strings_of (v : value) : list string := match v with VStrings l => l | _ => [] end.
Definition int64_of (v : value) : Z := match v with VInt64 z => z | _ => 0%Z end.

Definition find_definition (k : string) : option settingDefinition :=
  find (λ def, String.eqb (key def) k) settingDefinitions.

(** The names of a saved tool list that the bridge still knows, whether some
    name is malformed, and whether the list had names at all. *)
Definition read_tools (j : json) : result unit (list string * bool) :=
  match to_strs j with
  | Some (Some names) =>
      if forallb plain_name names
      then Ok (sortedNames (list_to_set (filter (λ n, n ∈ knownTools) names)), negb (bool_decide (names = [])))
      else Err tt
  | _ => Err tt
  end.

Record read_state := {
  rs_version : Z;
  rs_settings : gmap string runtimeSetting;
  rs_closed : bool;
}.

Definition rs_put (st : read_state) (ver : Z) (k : string) (v : value) (closed : bool) : read_state :=
  {| rs_version := ver; rs_settings := <[k := {| Value := v; Source := "runtime" |}]> (rs_settings st);
     rs_closed := closed |}.

(** One row of the loop of [readRuntimeSettings].  The code skips the text
    [null]; rows hold what [json.Marshal] wrote, where that is the only text of
    a JSON null. *)
Definition read_row (defaults : gmap string runtimeSetting) (st : read_state) (r : row) : read_state :=
  let ver := Z.max (rs_version st) (version r) in
  let keep closed := {| rs_version := ver; rs_settings := rs_settings st; rs_closed := closed |} in
  match find_definition (row_key r) with
  | None => keep (rs_closed st)
  | Some def =>
      match saved r with
      | Some JNull => keep (rs_closed st)
      | raw =>
          if String.eqb (key def) "tools.allow" then
            match raw with
            | Some j =>
                match read_tools j with
                | Ok (names, some_listed) =>
                    rs_put st ver "tools.allow" (VStrings names)
                      (if some_listed && bool_decide (names = []) then true else rs_closed st)
                | Err _ => keep (bool_decide (strings_of (Value (setting defaults "tools.allow")) = []))
                end
            | None => keep (bool_decide (strings_of (Value (setting defaults "tools.allow")) = []))
            end
          else if String.eqb (key def) "tools.deny" then
            match raw with
            | Some j => match read_tools j with
                        | Ok (names, _) => rs_put st ver "tools.deny" (VStrings names) (rs_closed st)
                        | Err _ => keep (rs_closed st)
                        end
            | None => keep (rs_closed st)
            end
          else
            match (match raw with Some j => parse def j | None => Err "not JSON" end) with
            | Ok v => rs_put st ver (key def) v (rs_closed st)
            | Err _ => if String.eqb (key def) "chats.allowed"
                       then rs_put st ver "chats.allowed" (VStrings []) (rs_closed st)
                       else keep (rs_closed st)
            end
      end
  end.

(** ** Floors and ceilings *)

(** [applyRuntimeToolFloor]: the two settings and the policy they make. *)
Definition deploy_allow (defaults : gmap string runtimeSetting) : gset string :=
  parseToolList (join "," (strings_of (Value (setting defaults "tools.allow")))).

(** The allow set inside the deployment list, and whether it is closed. *)
Definition floor_allow (runtime_allow env_allow : gset string) (closed : bool) : gset string * bool :=
  if bool_decide (env_allow = ∅) then (runtime_allow, closed)
  else if bool_decide (runtime_allow = ∅) && negb closed then (env_allow, closed)
  else let kept := filter (λ name, name ∈ env_allow) runtime_allow in
       (kept, bool_decide (kept = ∅)).

Definition label_all (label : string) (names : gset string) (m : gmap string string) : gmap string string :=
  set_fold (λ name acc, <[name := label]> acc) m names.

Definition label_missing (label : string) (names : gset string) (m : gmap string string) : gmap string string :=
  set_fold (λ name acc, match m !! name with
                        | Some l => if String.eqb l "" then <[name := label]> acc else acc
                        | None => <[name := label]> acc
                        end) m names.

Definition applyRuntimeToolFloor (settings defaults : gmap string runtimeSetting) (closedAllow : bool) :
    gmap string runtimeSetting * toolPolicy :=
  let allowSetting := setting settings "tools.allow" in
  let denySetting := setting settings "tools.deny" in
  let '(allow, closed) :=
    floor_allow (parseToolList (join "," (strings_of (Value allowSetting))))
      (deploy_allow defaults) closedAllow in
  let own_deny := parseToolList (join "," (strings_of (Value denySetting))) in
  let env_deny : gset string := list_to_set (strings_of (Value (setting defaults "tools.deny"))) in
  let labels := label_all (if String.eqb (Source denySetting) "runtime"
                           then "runtime tools.deny lists it"
                           else denyToolsEnv +:+ " (deploy) lists it") own_deny ∅ in
  let labels := label_all (denyToolsEnv +:+ " (deploy) lists it") env_deny labels in
  let shut := closed && bool_decide (allow = ∅) in
  let deny := own_deny ∪ env_deny ∪ (if shut then knownTools else ∅) in
  let labels := if shut
                then label_missing "runtime tools.allow has no readable tools inside the deploy floor"
                       knownTools labels
                else labels in
  let denySource := if shut then "runtime" else Source denySetting in
  let label := if String.eqb (Source allowSetting) "runtime"
               then "runtime tools.allow within " +:+ allowToolsEnv +:+ " (deploy)"
               else allowToolsEnv +:+ " (deploy)" in
  (<["tools.deny" := {| Value := VStrings (sortedNames deny); Source := denySource |}]>
     (<["tools.allow" := {| Value := VStrings (sortedNames allow); Source := Source allowSetting |}]> settings),
   {| ToolPolicy.allow := allow; ToolPolicy.deny := deny;
      allowLabel := label; denyLabels := labels |}).

(** The chat part of [readRuntimeSettings]. *)
Definition apply_chats (settings defaults : gmap string runtimeSetting) :
    gmap string runtimeSetting * chatPolicy :=
  let chatSetting := setting settings "chats.allowed" in
  let p := parseChatPolicy (join "," (strings_of (Value chatSetting))) in
  if negb (String.eqb (Source chatSetting) "runtime") then (settings, p)
  else
    let deploy := parseChatPolicy (join "," (strings_of (Value (setting defaults "chats.allowed")))) in
    let q := intersectChatPolicies (set_restricted p) deploy in
    let q := set_source (if restricted deploy
                         then "runtime chats.allowed within " +:+ chatPolicyEnv +:+ " (deploy)"
                         else "runtime chats.allowed") q in
    (<["chats.allowed" := {| Value := VStrings (entries q); Source := Source chatSetting |}]> settings, q).

Definition send_keys : list string :=
  ["send.rate_per_minute"; "send.rate_per_day"; "send.new_chats_per_day"; "send.min_interval_ms"].

(** [applyRuntimeSendCeiling], one key. *)
Definition send_ceiling (defaults m : gmap string runtimeSetting) (k : string) : gmap string runtimeSetting :=
  let env := int64_of (Value (setting defaults k)) in
  let runtime := int64_of (Value (setting m k)) in
  let interval := String.eqb k "send.min_interval_ms" in
  if bool_decide (env > 0)%Z &&
     (Z.eqb runtime 0 || (interval && bool_decide (runtime < env)%Z)
      || (negb interval && bool_decide (runtime > env)%Z))
  then <[k := setting defaults k]> m else m.

Definition applyRuntimeSendCeiling (m defaults : gmap string runtimeSetting) : gmap string runtimeSetting :=
  foldl (send_ceiling defaults) m send_keys.

Definition media_keys : list string :=
  ["media.autodownload_status"; "media.quota_bytes"; "media.quota_evict_types";
   "media.quota_evict_target_percent"; "media.autodownload_types"].

(** The narrowed value of one media setting. *)
Definition media_narrow (k : string) (deploy current : value) : value :=
  if String.eqb k "media.autodownload_status" then
    match deploy with VBool false => VBool false | _ => current end
  else if String.eqb k "media.quota_bytes" then
    match deploy, current with
    | VUint64 ceiling, VUint64 v =>
        if bool_decide (ceiling > 0 ∧ (v = 0 ∨ v > ceiling))%Z then VUint64 ceiling else current
    | _, _ => current
    end
  else if String.eqb k "media.quota_evict_target_percent" then
    match deploy, current with
    | VInt d, VInt v => VInt (Z.min v d)
    | _, _ => current
    end
  else VStrings (filter (λ kind, kind ∈ strings_of deploy) (strings_of current)).

Definition media_ceiling (defaults m : gmap string runtimeSetting) (k : string) : gmap string runtimeSetting :=
  match defaults !! k with
  | Some deploy =>
      if negb (String.eqb (Source deploy) "env") then m
      else let s := setting m k in
           <[k := {| Value := media_narrow k (Value deploy) (Value s); Source := Source s |}]> m
  | None => m
  end.

Definition applyRuntimeMediaCeilings (m defaults : gmap string runtimeSetting) : gmap string runtimeSetting :=
  foldl (media_ceiling defaults) m media_keys.

Definition capKey : string := "transcription.monthly_max_minutes".
Definition scopeKey : string := "transcription.cap_scope".

Definition apply_transcription (m defaults : gmap string runtimeSetting) : gmap string runtimeSetting :=
  let m := match Value (setting defaults capKey) with
           | VFloat ceiling =>
               match Value (setting m capKey) with
               | VFloat v => if negb (Qle_bool v ceiling) then <[capKey := setting defaults capKey]> m else m
               | _ => <[capKey := setting defaults capKey]> m
               end
           | _ => m
           end in
  match Value (setting defaults scopeKey) with
  | VStr s => if String.eqb s "all" then <[scopeKey := setting defaults scopeKey]> m else m
  | _ => m
  end.

(** [readRuntimeSettings] on the rows the query returned. *)
Definition readRuntimeSettings (defaults : gmap string runtimeSetting) (rows : list row) :
    runtimeSettingsSnapshot :=
  let st := foldl (read_row defaults)
              {| rs_version := 0; rs_settings := defaults; rs_closed := false |} rows in
  let '(m, tp) := applyRuntimeToolFloor (rs_settings st) defaults (rs_closed st) in
  let '(m, cp) := apply_chats m defaults in
  let m := applyRuntimeSendCeiling m defaults in
  let m := applyRuntimeMediaCeilings m defaults in
  let m := apply_transcription m defaults in
  {| Version := rs_version st; Settings := m; policy := tp; chats := cp |}.

(** ** The type assertions

    The same reading with every assertion evaluated where the code has it;
    [None] is the panic of one that fails. *)

Definition as_strings (v : value) : option (list string) := match v with VStrings l => Some l | _ => None end.
Definition as_int64 (v : value) : option Z := match v with VInt64 z => Some z | _ => None end.
Definition as_uint64 (v : value) : option Z := match v with VUint64 z => Some z | _ => None end.
Definition as_int (v : value) : option Z := match v with VInt z => Some z | _ => None end.

Definition read_row_asserted (defaults : gmap string runtimeSetting) (st : read_state) (r : row) : option read_state :=
  let unreadable := match saved r with
                    | Some JNull => false
                    | Some j => match read_tools j with Ok _ => false | Err _ => true end
                    | None => true
                    end in
  _ ← (if String.eqb (row_key r) "tools.allow" && unreadable
       then as_strings (Value (setting defaults "tools.allow")) else Some []);
  Some (read_row defaults st r).

Definition read_rows_asserted (defaults : gmap string runtimeSetting) (rows : list row) (st : read_state) : option read_state :=
  foldl (λ acc r, st ← acc; read_row_asserted defaults st r) (Some st) rows.

Definition tool_floor_asserted (settings defaults : gmap string runtimeSetting) (closedAllow : bool) :
    option (gmap string runtimeSetting * toolPolicy) :=
  _ ← as_strings (Value (setting settings "tools.allow"));
  _ ← as_strings (Value (setting defaults "tools.allow"));
  _ ← as_strings (Value (setting settings "tools.deny"));
  _ ← as_strings (Value (setting defaults "tools.deny"));
  Some (applyRuntimeToolFloor settings defaults closedAllow).

Definition chats_asserted (settings defaults : gmap string runtimeSetting) : option (gmap string runtimeSetting * chatPolicy) :=
  _ ← as_strings (Value (setting settings "chats.allowed"));
  _ ← (if String.eqb (Source (setting settings "chats.allowed")) "runtime"
       then as_strings (Value (setting defaults "chats.allowed")) else Some []);
  Some (apply_chats settings defaults).

Definition send_ceiling_asserted (defaults m : gmap string runtimeSetting) (k : string) : option (gmap string runtimeSetting) :=
  _ ← as_int64 (Value (setting defaults k));
  _ ← as_int64 (Value (setting m k));
  Some (send_ceiling defaults m k).

(** The deployment's list is asserted once per kind of the runtime's. *)
Definition media_ceiling_asserted (defaults m : gmap string runtimeSetting) (k : string) : option (gmap string runtimeSetting) :=
  match defaults !! k with
  | Some deploy =>
      if negb (String.eqb (Source deploy) "env") then Some m
      else
        let v := Value (setting m k) in
        _ ← (if String.eqb k "media.autodownload_status" then Some tt
             else if String.eqb k "media.quota_bytes" then _ ← as_uint64 (Value deploy); _ ← as_uint64 v; Some tt
             else if String.eqb k "media.quota_evict_target_percent" then _ ← as_int v; _ ← as_int (Value deploy); Some tt
             else kinds ← as_strings v; _ ← (match kinds with [] => Some [] | _ => as_strings (Value deploy) end); Some tt);
        Some (media_ceiling defaults m k)
  | None => Some m
  end.

Definition fold_asserted (f : gmap string runtimeSetting → string → option (gmap string runtimeSetting)) (m : gmap string runtimeSetting)
    (keys : list string) : option (gmap string runtimeSetting) :=
  foldl (λ acc k, m ← acc; f m k) (Some m) keys.

Definition readRuntimeSettings_asserted (defaults : gmap string runtimeSetting) (rows : list row) : option runtimeSettingsSnapshot :=
  st ← read_rows_asserted defaults rows {| rs_version := 0; rs_settings := defaults; rs_closed := false |};
  floor ← tool_floor_asserted (rs_settings st) defaults (rs_closed st);
  limited ← chats_asserted floor.1 defaults;
  m ← fold_asserted (send_ceiling_asserted defaults) limited.1 send_keys;
  m ← fold_asserted (media_ceiling_asserted defaults) m media_keys;
  Some {| Version := rs_version st; Settings := apply_transcription m defaults; policy := floor.2; chats := limited.2 |}.

(** ** Saving *)

(** [patchRuntimeSettings]: every patched key gets the next version, in key
    order; a null tombstone keeps its row. *)
Definition upsert (ver : Z) (rows : list row) (kv : string * json) : list row :=
  let r := {| row_key := kv.1; saved := Some kv.2; version := ver |} in
  if existsb (λ x, String.eqb (row_key x) kv.1) rows
  then map (λ x, if String.eqb (row_key x) kv.1 then r else x) rows
  else rows ++ [r].

Definition key_le (x y : string * json) : Prop := string_le x.1 y.1.
#[export] Instance key_le_dec : RelDecision key_le := λ x y, string_le_dec x.1 y.1.

Definition patchRuntimeSettings (defaults : gmap string runtimeSetting) (rows : list row)
    (values : list (string * json)) : list row :=
  let ver := (Version (readRuntimeSettings defaults rows) + 1)%Z in
  foldl (upsert ver) rows (merge_sort key_le values).

(** [json.Marshal] of a setting value, the text a row keeps. *)
Definition json_of_value (v : value) : json :=
  match v with
  | VStrings l => JArr (map JStr l)
  | VInt64 z | VUint64 z | VInt z => JInt z
  | VFloat q => JDec q
  | VStr s => JStr s
  | VBool b => JBool b
  | VNil => JNull
  end.

(** [configValue]: at most 80 runes of an echoed value.  A decoded JSON key is
    valid UTF-8, so a rune starts at every byte outside 0x80-0xBF. *)
Fixpoint take_runes (n : nat) (s : string) : string * bool :=
  match s with
  | EmptyString => ("", false)
  | String a t =>
      if bool_decide (128 ≤ byte_code a < 192)%Z
      then let '(u, cut) := take_runes n t in (String a u, cut)
      else match n with
           | O => ("", true)
           | S n' => let '(u, cut) := take_runes n' t in (String a u, cut)
           end
  end.

Definition configValue (value : string) : string :=
  let '(kept, cut) := take_runes 80 value in if cut then kept +:+ "...(truncated)" else value.

(** The check of one key of a PATCH body: the JSON to save, or the refusal. *)
Definition check_patch (k : string) (j : json) : result Http.reply json :=
  match find_definition k with
  | None => Err (Http.writeError Http.StatusBadRequest ("Unknown runtime setting key: " +:+ configValue k))
  | Some def =>
      match j with
      | JNull => Ok JNull
      | _ => match parse def j with
             | Ok v => Ok (json_of_value v)
             | Err e => Err (Http.writeError Http.StatusBadRequest (k +:+ ": " +:+ e))
             end
      end
  end.

Fixpoint patch_values (body : list (string * json)) : result Http.reply (list (string * json)) :=
  match body with
  | [] => Ok []
  | (k, j) :: rest =>
      (let? saved := check_patch k j in
       let? vs := patch_values rest in Ok ((k, saved) :: vs))%go
  end.

(** [handleRuntimeSettings].  [body] is the object [operatorDecode] decoded,
    its keys in the order the map yields them, or the refusal it wrote;
    [save_ok] and [read_ok] say whether the database accepts the transaction
    and answers the read.  The rows after the request, and the snapshot it
    returns or the refusal. *)
Definition handleRuntimeSettings (save_ok read_ok : bool) (defaults : gmap string runtimeSetting)
    (rows : list row) (method : string) (body : result Http.reply (list (string * json))) :
    list row * result Http.reply runtimeSettingsSnapshot :=
  let read rows := if read_ok then Ok (readRuntimeSettings defaults rows)
                   else Err (Http.writeErrorCode 503 "settings_unavailable" "Runtime settings could not be read") in
  if String.eqb method "GET" then (rows, read rows)
  else if negb (String.eqb method "PATCH") then (rows, Err (Http.writeError 405 "Use GET or PATCH"))
  else match body with
       | Err r => (rows, Err r)
       | Ok [] => (rows, Err (Http.writeError 400 "Expected settings object with at least one key"))
       | Ok kvs =>
           match patch_values kvs with
           | Err r => (rows, Err r)
           | Ok vs =>
               if save_ok then let rows' := patchRuntimeSettings defaults rows vs in (rows', read rows')
               else (rows, Err (Http.writeErrorCode 503 "settings_unavailable" "Runtime settings could not be saved"))
           end
       end.

(** ** Lemmas: the tool floor *)

(** The deployment's own tool policy. *)
Definition deploy_policy (defaults : gmap string runtimeSetting) : toolPolicy :=
  {| ToolPolicy.allow := deploy_allow defaults;
     ToolPolicy.deny := list_to_set (strings_of (Value (setting defaults "tools.deny")));
     allowLabel := ""; denyLabels := ∅ |}.

Lemma floor_allow_spec r e closed a c :
  floor_allow r e closed = (a, c) → e ≠ ∅ → a ⊆ e ∧ (a = ∅ → c = true).
Proof.
  unfold floor_allow. intros Heq He. rewrite bool_decide_eq_false_2 in Heq by done.
  case_match; simplify_eq; [done|]. split; [intros x; rewrite elem_of_filter; naive_solver|].
  intros Hk. by apply bool_decide_eq_true.
Qed.

#[local] Opaque knownTools.

Lemma tool_floor_narrows settings defaults closed name :
  name ∈ knownTools →
  allowsTool (applyRuntimeToolFloor settings defaults closed).2 name = true →
  allowsTool (deploy_policy defaults) name = true.
Proof.
  intros Hk. unfold applyRuntimeToolFloor.
  destruct (floor_allow _ _ closed) as [a c] eqn:Hf. cbn [snd].
  rewrite !allowsTool_spec. simpl. rewrite !not_elem_of_union. intros [[[_ Hd] Hs] Ha].
  split; [done|]. destruct (decide (deploy_allow defaults = ∅)) as [|He]; [by left|right].
  destruct (floor_allow_spec _ _ _ _ _ Hf He) as [Hsub Hc].
  destruct Ha as [Ha|Ha]; [|by apply Hsub]. exfalso. apply Hs.
  by rewrite Hc, bool_decide_eq_true_2 by done.
Qed.

(** ** Lemmas: the type and range of every setting *)

Definition ingestKey : string := "transcription.ingest_chats".

(** The dynamic type the code asserts for a key, with the range its parsers
    guarantee. *)
Definition typed (k : string) (v : value) : bool :=
  match v with
  | VStrings _ => bool_decide (k ∈ ["chats.allowed"; "tools.allow"; "tools.deny";
                                   "media.autodownload_types"; "media.quota_evict_types"])
  | VInt64 z => bool_decide (k ∈ send_keys) && bool_decide (0 ≤ z ≤ 2147483647)%Z
  | VUint64 z => String.eqb k "media.quota_bytes" && bool_decide (0 ≤ z ≤ max_uint64)%Z
  | VInt z => String.eqb k "media.quota_evict_target_percent" && bool_decide (1 ≤ z ≤ 99)%Z
  | VFloat q => String.eqb k capKey && Qle_bool 0 q && Qle_bool q 525600
  | VStr s => (String.eqb k scopeKey && (String.eqb s "ingest" || String.eqb s "all"))
              || (String.eqb k ingestKey && (String.eqb s "all" || String.eqb s "direct"))
  | VBool _ => String.eqb k "media.autodownload_status"
  | VNil => String.eqb k capKey
  end.

(** Every key is present with a value of its type. *)
Definition well_typed (m : gmap string runtimeSetting) : Prop :=
  Forall (λ def, ∃ s, m !! key def = Some s ∧ typed (key def) (Value s) = true) settingDefinitions.

Definition produces_typed (def : settingDefinition) : Prop :=
  typed (key def) (defaultValue def) = true ∧
  (∀ j v, parse def j = Ok v → typed (key def) v = true) ∧
  (∀ raw v, parseEnv def raw = Ok v → typed (key def) v = true).

Lemma cap_value_typed q v : cap_value q = Ok v → typed capKey v = true.
Proof.
  unfold cap_value. destruct (Qle_bool 0 q) eqn:H1, (Qle_bool q 525600) eqn:H2; simpl; intros; simplify_eq.
  simpl. by rewrite H1, H2.
Qed.

Lemma scope_typed s v : scope s = Ok v → typed scopeKey v = true.
Proof.
  unfold scope. destruct (String.eqb s "ingest") eqn:E1, (String.eqb s "all") eqn:E2; simpl;
    intros; simplify_eq; simpl; by rewrite ?E1, ?E2.
Qed.

Lemma map_result_ok {E A B} (f : A → B) (r : result E A) b :
  map_result f r = Ok b ↔ ∃ a, r = Ok a ∧ b = f a.
Proof. destruct r; simpl; naive_solver. Qed.

Lemma ingest_typed raw v : map_result VStr (parseIngestChats raw) = Ok v → typed ingestKey v = true.
Proof.
  rewrite map_result_ok. unfold parseIngestChats. intros (s & Hs & ->).
  set (s' := if String.eqb (trim_space raw) "" then "all" else trim_space raw) in Hs.
  destruct (String.eqb s' "all") eqn:E1, (String.eqb s' "direct") eqn:E2; simpl in Hs;
    simplify_eq; simpl; by rewrite ?E1, ?E2.
Qed.

Lemma sendSetting_typed k e :
  bool_decide (k ∈ send_keys) = true → produces_typed (sendSetting k e).
Proof.
  intros Hk. assert (∀ z, (0 ≤ z ≤ 2147483647)%Z → typed k (VInt64 z) = true) as Ht.
  { intros z Hz. simpl. rewrite Hk. by apply bool_decide_eq_true. }
  clear Hk. split_and!; cbn [parse parseEnv key sendSetting defaultValue].
  - apply Ht. lia.
  - intros j v. repeat case_match; intros; simplify_eq. bool_split. apply Ht. lia.
  - intros raw v. destruct (ParseInt 32 (trim_space raw)) as [z|] eqn:Hp; [|done].
    case_bool_decide; intros; simplify_eq. apply Ht. apply ParseInt_range in Hp; simpl in Hp; lia.
Qed.

Lemma mediaSettings_typed : Forall produces_typed mediaSettingDefinitions.
Proof.
  repeat apply Forall_cons_2; [..|constructor]; (split_and!; simpl; [done|..]).
  - intros j v. unfold parse_kind_array.
    repeat case_match; intros Hv; simplify_eq. by apply map_result_ok in Hv as (? & _ & ->).
  - intros raw v (? & _ & ->)%map_result_ok. done.
  - intros j v. unfold parse_status. case_match; intros; by simplify_eq.
  - intros raw v. unfold env_status. repeat case_match; intros; by simplify_eq.
  - intros j v. unfold parse_quota_json, to_uint64, to_int.
    repeat case_match; intros; simplify_eq; simpl; [done|]. bool_split. by apply bool_decide_eq_true.
  - intros raw v (z & Hz & ->)%map_result_ok. unfold parseQuota in Hz. simpl.
    case_match; simplify_eq; [done|].
    destruct (ParseUint 64 (trim_space raw)) as [n|] eqn:Hp; simplify_eq.
    apply ParseUint_range in Hp. apply bool_decide_eq_true. unfold max_uint64. lia.
  - intros j v. unfold parse_kind_array.
    repeat case_match; intros Hv; simplify_eq. by apply map_result_ok in Hv as (? & _ & ->).
  - intros raw v (? & _ & ->)%map_result_ok. done.
  - intros j v. unfold parse_target_json. repeat case_match; intros; simplify_eq. bool_split.
    simpl. apply bool_decide_eq_true. lia.
  - intros raw v (z & Hz & ->)%map_result_ok. unfold parseEvictTarget in Hz. simpl.
    repeat case_match; simplify_eq; bool_split; [done|]. apply bool_decide_eq_true. lia.
Qed.

Lemma parse_tools_typed k j v :
  bool_decide (k ∈ ["chats.allowed"; "tools.allow"; "tools.deny";
                    "media.autodownload_types"; "media.quota_evict_types"]) = true →
  parse_tools j = Ok v → typed k v = true.
Proof. intros Hk. unfold parse_tools. repeat case_match; intros; by simplify_eq. Qed.

Lemma definitions_typed : Forall produces_typed settingDefinitions.
Proof.
  unfold settingDefinitions. apply Forall_app. split; [|apply mediaSettings_typed].
  repeat apply Forall_cons_2; [..|constructor];
    try (by apply sendSetting_typed); (split_and!; simpl; [done|..]).
  - intros j v. unfold parse_chats. repeat case_match; intros; by simplify_eq.
  - intros raw v ?. by simplify_eq.
  - intros j v. unfold parse_cap. case_match; intros; simplify_eq; eauto using cap_value_typed.
  - intros raw v. case_match; intros; simplify_eq; eauto using cap_value_typed.
  - intros j v. unfold parse_scope. case_match; intros; simplify_eq; eauto using scope_typed.
  - intros raw v. apply scope_typed.
  - intros j v. by apply parse_tools_typed.
  - intros raw v. unfold env_tools. intros; by simplify_eq.
  - intros j v. by apply parse_tools_typed.
  - intros raw v. unfold env_tools. intros; by simplify_eq.
  - intros j v. unfold parse_ingest. repeat case_match; intros; simplify_eq; eauto using ingest_typed.
  - intros raw v. apply ingest_typed.
Qed.

Lemma find_definition_key def :
  def ∈ settingDefinitions → find_definition (key def) = Some def.
Proof.
  assert (Forall (λ d, find_definition (key d) = Some d) settingDefinitions) as Hall.
  { repeat constructor. }
  rewrite Forall_forall in Hall. apply Hall.
Qed.

Lemma find_definition_Some k def :
  find_definition k = Some def → def ∈ settingDefinitions ∧ key def = k.
Proof.
  unfold find_definition. intros [Hin Heq]%find_some. apply String.eqb_eq in Heq.
  by rewrite list_elem_of_In.
Qed.

Lemma well_typed_lookup m def :
  well_typed m → def ∈ settingDefinitions →
  ∃ s, m !! key def = Some s ∧ typed (key def) (Value s) = true.
Proof. unfold well_typed. rewrite Forall_forall. auto. Qed.

Lemma well_typed_setting m k :
  well_typed m → is_Some (find_definition k) → typed k (Value (setting m k)) = true.
Proof.
  intros Hm [def [Hin <-]%find_definition_Some]. unfold setting.
  by destruct (well_typed_lookup m def Hm Hin) as (s & -> & Hs).
Qed.

Lemma well_typed_insert m k s :
  well_typed m → typed k (Value s) = true → well_typed (<[k := s]> m).
Proof.
  unfold well_typed. rewrite !Forall_forall. intros Hm Hs def Hin.
  destruct (decide (k = key def)) as [->|Hne].
  - exists s. by rewrite lookup_insert_eq.
  - rewrite lookup_insert_ne by done. auto.
Qed.

(** *** The deployment values *)

Lemma defaults_fold getenv defs out :
  NoDup (map key defs) → foldl (defaults_step getenv) (∅, []) defs = (out, []) →
  Forall (λ def, ∃ s, default_setting getenv def = Ok s ∧ out !! key def = Some s) defs.
Proof.
  revert out. induction defs as [|def defs IH] using rev_ind; intros out; [constructor|].
  rewrite foldl_app, map_app. simpl. intros (Hnd & Hnotin & _)%NoDup_app.
  destruct (foldl _ _ defs) as [out0 p0]. simpl.
  destruct (default_setting getenv def) as [s|e] eqn:Hs; intros Heq; simplify_eq;
    [|destruct p0; discriminate].
  apply Forall_app. split; [|constructor; [|constructor]].
  - specialize (IH out0 Hnd eq_refl). rewrite Forall_forall in IH |- *. intros d Hin.
    destruct (IH d Hin) as (s' & Hd & Hl). exists s'. split; [done|].
    rewrite lookup_insert_ne; [done|]. intros Hk. apply (Hnotin (key d)); [|rewrite Hk; by left].
    by apply list_elem_of_fmap_2.
  - exists s. by rewrite lookup_insert_eq.
Qed.

(** What a successful [runtimeDefaults] holds for every key. *)
Lemma runtimeDefaults_lookup getenv defaults def :
  runtimeDefaults getenv = Ok defaults → def ∈ settingDefinitions →
  ∃ s, default_setting getenv def = Ok s ∧ defaults !! key def = Some s.
Proof.
  unfold runtimeDefaults. intros Hd Hin.
  destruct (foldl (defaults_step getenv) (∅, []) settingDefinitions) as [out [|]] eqn:Hf; simplify_eq.
  pose proof (defaults_fold getenv settingDefinitions defaults
    ltac:(apply (bool_decide_unpack _); vm_compute; exact I) Hf) as Hall.
  rewrite Forall_forall in Hall. auto.
Qed.

Lemma runtimeDefaults_typed getenv defaults :
  runtimeDefaults getenv = Ok defaults → well_typed defaults.
Proof.
  intros Hd. apply Forall_forall. intros def Hin.
  destruct (runtimeDefaults_lookup _ _ _ Hd Hin) as (s & Hs & Hl). exists s. split; [done|].
  pose proof definitions_typed as Hall. rewrite Forall_forall in Hall.
  destruct (Hall def Hin) as (H1 & _ & H2). unfold default_setting in Hs.
  repeat case_match; simplify_eq; simpl; eauto.
Qed.

(** *** Reading rows keeps the types *)

Lemma read_row_typed defaults st r :
  well_typed (rs_settings st) → well_typed (rs_settings (read_row defaults st r)).
Proof.
  intros Hst. unfold read_row. destruct (find_definition (row_key r)) as [def|] eqn:Hf; [|done].
  apply find_definition_Some in Hf as [Hin _].
  pose proof definitions_typed as Hall. rewrite Forall_forall in Hall.
  destruct (Hall def Hin) as (_ & Hp & _).
  repeat case_match; simpl; try done; apply well_typed_insert; eauto.
Qed.

Lemma foldl_inv {A B} (P : A → Prop) (f : A → B → A) (l : list B) a :
  (∀ a b, b ∈ l → P a → P (f a b)) → P a → P (foldl f a l).
Proof.
  revert a. induction l as [|b l IH]; simpl; intros a Hf Ha; [done|].
  apply IH; [|apply Hf; [left|done]]. intros ??? . apply Hf. by right.
Qed.

Lemma tool_floor_typed settings defaults closed :
  well_typed settings → well_typed (applyRuntimeToolFloor settings defaults closed).1.
Proof.
  intros Hm. unfold applyRuntimeToolFloor. case_match. simpl. by repeat apply well_typed_insert.
Qed.

Lemma apply_chats_typed settings defaults :
  well_typed settings → well_typed (apply_chats settings defaults).1.
Proof. intros Hm. unfold apply_chats. case_match; [done|]. by apply well_typed_insert. Qed.

Lemma send_keys_known k : k ∈ send_keys → is_Some (find_definition k).
Proof. unfold send_keys. rewrite !elem_of_cons. intros; destruct_or!; subst; [by eexists..|set_solver]. Qed.

Lemma media_keys_known k : k ∈ media_keys → is_Some (find_definition k).
Proof. unfold media_keys. rewrite !elem_of_cons. intros; destruct_or!; subst; [by eexists..|set_solver]. Qed.

Lemma held_typed m k : well_typed m → is_Some (find_definition k) → ∃ v, Value <$> m !! k = Some v ∧ typed k v = true.
Proof.
  intros Hm [def [Hin <-]%find_definition_Some]. destruct (well_typed_lookup m def Hm Hin) as (s & -> & Hs). by exists (Value s).
Qed.

Lemma held_strings m k :
  well_typed m → k ∈ ["chats.allowed"; "tools.allow"; "tools.deny"; "media.autodownload_types"; "media.quota_evict_types"] →
  ∃ l, Value <$> m !! k = Some (VStrings l).
Proof.
  intros Hm Hk. assert (is_Some (find_definition k)) as Hf.
  { revert Hk. rewrite !elem_of_cons. intros; destruct_or!; subst; [by eexists..|set_solver]. }
  destruct (held_typed m k Hm Hf) as (v & -> & Ht). revert Hk. rewrite !elem_of_cons.
  intros; destruct_or!; subst; [..|set_solver]; destruct v; simpl in Ht; try done; by eauto.
Qed.

Lemma held_int64 m k : well_typed m → k ∈ send_keys → ∃ n, Value <$> m !! k = Some (VInt64 n) ∧ (0 ≤ n ≤ 2147483647)%Z.
Proof.
  intros Hm Hk. destruct (held_typed m k Hm (send_keys_known k Hk)) as (v & -> & Ht). revert Hk. unfold send_keys. rewrite !elem_of_cons.
  intros; destruct_or!; subst; [..|set_solver]; destruct v; simpl in Ht; try done; bool_split; by eauto.
Qed.

Lemma setting_held m k v : Value <$> m !! k = Some v → Value (setting m k) = v.
Proof. unfold setting. destruct (m !! k); simpl; congruence. Qed.

Section typed_stages.
Context (defaults : gmap string runtimeSetting) (Hd : well_typed defaults).

Lemma send_ceiling_typed m k : k ∈ send_keys → well_typed m → well_typed (send_ceiling defaults m k).
Proof.
  intros Hk Hm. unfold send_ceiling. case_match; [|done]. apply well_typed_insert; [done|]. by apply well_typed_setting, send_keys_known.
Qed.

Lemma send_ceilings_typed m : well_typed m → well_typed (applyRuntimeSendCeiling m defaults).
Proof. intros Hm. apply (foldl_inv well_typed); [|done]. intros. by apply send_ceiling_typed. Qed.

Lemma media_narrow_typed k d v :
  k ∈ media_keys → typed k d = true → typed k v = true → typed k (media_narrow k d v) = true.
Proof.
  unfold media_keys. rewrite !elem_of_cons. intros Hk; destruct_or!; subst; [..|set_solver];
    unfold media_narrow; simpl; destruct d, v; simpl; try done; repeat case_match; simpl; try done.
  intros. bool_split. apply bool_decide_eq_true. lia.
Qed.

Lemma media_ceiling_typed m k : k ∈ media_keys → well_typed m → well_typed (media_ceiling defaults m k).
Proof.
  intros Hk Ha. unfold media_ceiling. destruct (defaults !! k) as [d|] eqn:Hl; [|done]. case_match; [done|].
  apply well_typed_insert; [done|]. simpl. apply media_narrow_typed; [done|..].
  - pose proof (well_typed_setting defaults k Hd (media_keys_known k Hk)) as Ht. unfold setting in Ht. by rewrite Hl in Ht.
  - by apply well_typed_setting, media_keys_known.
Qed.

Lemma media_ceilings_typed m : well_typed m → well_typed (applyRuntimeMediaCeilings m defaults).
Proof. intros Hm. apply (foldl_inv well_typed); [|done]. intros. by apply media_ceiling_typed. Qed.

Lemma transcription_typed m : well_typed m → well_typed (apply_transcription m defaults).
Proof.
  intros Hm. unfold apply_transcription.
  assert (is_Some (find_definition capKey) ∧ is_Some (find_definition scopeKey)) as [Hc Hs] by done.
  repeat case_match; repeat apply well_typed_insert; try done; by apply well_typed_setting.
Qed.

Lemma snapshot_typed rows : well_typed (Settings (readRuntimeSettings defaults rows)).
Proof.
  unfold readRuntimeSettings. set (st := foldl (read_row defaults) _ rows).
  assert (well_typed (rs_settings st)) as Hst.
  { apply (foldl_inv (λ st, well_typed (rs_settings st))); [|done]. intros. by apply read_row_typed. }
  pose proof (tool_floor_typed _ defaults (rs_closed st) Hst) as H1.
  destruct (applyRuntimeToolFloor _ _ _) as [m1 tp]. simpl in H1.
  pose proof (apply_chats_typed _ defaults H1) as H2.
  destruct (apply_chats m1 defaults) as [m2 cp]. simpl in *.
  by apply transcription_typed, media_ceilings_typed, send_ceilings_typed.
Qed.

(** *** No assertion fails *)

Lemma asserted_strings m k :
  well_typed m → k ∈ ["chats.allowed"; "tools.allow"; "tools.deny"; "media.autodownload_types"; "media.quota_evict_types"] →
  ∃ l, Value (setting m k) = VStrings l.
Proof.
  intros Hm Hk. destruct (held_strings m k Hm Hk) as [l Hl]. exists l. by apply setting_held.
Qed.

Lemma asserted_int64 m k : well_typed m → k ∈ send_keys → ∃ z, Value (setting m k) = VInt64 z ∧ (0 ≤ z ≤ 2147483647)%Z.
Proof.
  intros Hm Hk. destruct (held_int64 m k Hm Hk) as (z & Hz & Hr). exists z. split; [by apply setting_held|done].
Qed.

Lemma rows_asserted rows st :
  read_rows_asserted defaults rows st = Some (foldl (read_row defaults) st rows).
Proof.
  unfold read_rows_asserted. revert st. induction rows as [|r rows IH]; intros st; simpl; [done|].
  assert (read_row_asserted defaults st r = Some (read_row defaults st r)) as ->; [|apply IH].
  unfold read_row_asserted. destruct (_ && _); [|done]. by destruct (asserted_strings defaults "tools.allow" Hd ltac:(set_solver)) as [l ->].
Qed.

Lemma fold_asserted_ok f g m keys :
  (∀ m k, k ∈ keys → well_typed m → f m k = Some (g m k)) → (∀ m k, k ∈ keys → well_typed m → well_typed (g m k)) →
  well_typed m → fold_asserted f m keys = Some (foldl g m keys).
Proof.
  unfold fold_asserted. revert m. induction keys as [|k keys IH]; intros m Hf Hg Hm; simpl; [done|].
  rewrite Hf by (by first [left|done]). apply IH; [intros; apply Hf; [by right|done]|intros; apply Hg; [by right|done]|by apply Hg; [left|]].
Qed.

Lemma send_asserted m k : k ∈ send_keys → well_typed m → send_ceiling_asserted defaults m k = Some (send_ceiling defaults m k).
Proof.
  intros Hk Hm. unfold send_ceiling_asserted. destruct (asserted_int64 defaults k Hd Hk) as (a & -> & _).
  by destruct (asserted_int64 m k Hm Hk) as (b & -> & _).
Qed.

Lemma media_asserted m k : k ∈ media_keys → well_typed m → media_ceiling_asserted defaults m k = Some (media_ceiling defaults m k).
Proof.
  intros Hk Hm. unfold media_ceiling_asserted. destruct (defaults !! k) as [d|] eqn:Hl; [|unfold media_ceiling; by rewrite Hl].
  destruct (negb _) eqn:He; [unfold media_ceiling; by rewrite Hl, He|].
  pose proof (well_typed_setting defaults k Hd (media_keys_known k Hk)) as Htd. unfold setting in Htd. rewrite Hl in Htd. simpl in Htd.
  pose proof (well_typed_setting m k Hm (media_keys_known k Hk)) as Htm.
  generalize (media_ceiling defaults m k). intros out. revert Htd Htm. unfold media_keys in Hk. rewrite !elem_of_cons in Hk.
  destruct_or!; subst; [..|set_solver]; simpl; destruct (Value d), (Value (setting m _)); simpl; try done;
    by repeat case_match.
Qed.

Lemma snapshot_asserted rows : readRuntimeSettings_asserted defaults rows = Some (readRuntimeSettings defaults rows).
Proof.
  unfold readRuntimeSettings_asserted, readRuntimeSettings. rewrite rows_asserted by done. cbn [mbind option_bind].
  set (st := foldl (read_row defaults) _ rows).
  assert (well_typed (rs_settings st)) as Hst.
  { apply (foldl_inv (λ st, well_typed (rs_settings st))); [|done]. intros. by apply read_row_typed. }
  unfold tool_floor_asserted.
  destruct (asserted_strings (rs_settings st) "tools.allow" Hst ltac:(set_solver)) as [a1 ->].
  destruct (asserted_strings defaults "tools.allow" Hd ltac:(set_solver)) as [a2 ->].
  destruct (asserted_strings (rs_settings st) "tools.deny" Hst ltac:(set_solver)) as [a3 ->].
  destruct (asserted_strings defaults "tools.deny" Hd ltac:(set_solver)) as [a4 ->]. cbn [mbind option_bind as_strings].
  pose proof (tool_floor_typed _ defaults (rs_closed st) Hst) as H1.
  destruct (applyRuntimeToolFloor _ _ _) as [m1 tp]. cbn [fst snd] in *. unfold chats_asserted.
  destruct (asserted_strings m1 "chats.allowed" H1 ltac:(set_solver)) as [a5 ->].
  destruct (asserted_strings defaults "chats.allowed" Hd ltac:(set_solver)) as [a6 ->]. cbn [mbind option_bind as_strings].
  pose proof (apply_chats_typed _ defaults H1) as H2.
  replace (if String.eqb _ _ then Some a6 else Some []) with (Some (if String.eqb (Source (setting m1 "chats.allowed")) "runtime" then a6 else []))
    by (by destruct (String.eqb _ _)).
  cbn [mbind option_bind]. destruct (apply_chats m1 defaults) as [m2 cp]. cbn [fst snd] in *.
  rewrite (fold_asserted_ok _ (send_ceiling defaults)) by (auto using send_asserted, send_ceiling_typed).
  cbn [mbind option_bind]. rewrite (fold_asserted_ok _ (media_ceiling defaults));
    [done|auto using media_asserted|auto using media_ceiling_typed|by apply send_ceilings_typed].
Qed.
End typed_stages.

(** *** The deployment values as policies *)

Lemma parseToolList_plain raw name :
  name ∈ parseToolList raw → name ≠ "" ∧ trim_space name = name ∧ contains_byte "," name = false.
Proof.
  intros (Hne & item & Hin & ->)%elem_of_parseToolList.
  split_and!; [done|by autorewrite with bridge_rw|]. rewrite trim_space_contains by done.
  pose proof (split_byte_no_sep "," raw) as Hall. rewrite Forall_forall in Hall. by apply Hall.
Qed.

(** Printing a tool list and parsing it again changes nothing. *)
Lemma parseToolList_join raw : parseToolList (join "," (sortedNames (parseToolList raw))) = parseToolList raw.
Proof.
  set (S := parseToolList raw). apply set_eq. intros name.
  destruct (decide (sortedNames S = [])) as [Hnil|Hne].
  - rewrite Hnil. split; [|intros Hin%elem_of_sortedNames; rewrite Hnil in Hin; set_solver].
    intros (Hne & item & Hin & ->)%elem_of_parseToolList. simpl in Hin.
    apply list_elem_of_singleton in Hin. subst item. done.
  - rewrite elem_of_parseToolList, split_join; [|done|].
    + split.
      * intros (_ & item & Hin%elem_of_sortedNames & ->).
        by destruct (parseToolList_plain raw item Hin) as (_ & -> & _).
      * intros Hin. destruct (parseToolList_plain raw name Hin) as (? & Ht & _).
        split; [done|]. exists name. by rewrite elem_of_sortedNames.
    + apply Forall_forall. intros w Hw%elem_of_sortedNames. by apply (parseToolList_plain raw w).
Qed.

Lemma blank_no_comma raw : trim_space raw = "" → split_byte "," raw = [raw].
Proof. intros Ht. apply split_byte_none. by rewrite <-trim_space_contains, Ht by done. Qed.

Lemma parseToolList_blank raw : trim_space raw = "" → parseToolList raw = ∅.
Proof.
  intros Ht. apply set_eq. intros name. rewrite elem_of_parseToolList, blank_no_comma by done.
  setoid_rewrite list_elem_of_singleton. split; [|set_solver]. intros (? & ? & -> & ->). done.
Qed.

Lemma parseChatPolicy_blank raw :
  trim_space raw = "" → exact (parseChatPolicy raw) = ∅ ∧ servers (parseChatPolicy raw) = ∅.
Proof.
  intros Ht. assert (normalizeChatEntry raw = "") as Hn by (unfold normalizeChatEntry; by rewrite Ht).
  split; apply set_eq; intros x; (split; [|set_solver]);
    [rewrite elem_of_exact_parse|rewrite elem_of_servers_parse]; rewrite blank_no_comma by done;
    setoid_rewrite list_elem_of_singleton.
  - intros (? & ? & ? & -> & -> & ? & _). done.
  - intros (? & -> & Hc). by rewrite Hn in Hc.
Qed.

Section deployment.
Context (getenv : string → string) (defaults : gmap string runtimeSetting).
Context (Hd : runtimeDefaults getenv = Ok defaults).

Lemma default_lookup k def :
  find_definition k = Some def → default_setting getenv def = Ok (setting defaults k).
Proof.
  intros [Hin <-]%find_definition_Some. unfold setting.
  by destruct (runtimeDefaults_lookup _ _ _ Hd Hin) as (s & -> & ->).
Qed.

Lemma default_tools k def :
  find_definition k = Some def → parseEnv def = env_tools → defaultValue def = VStrings [] →
  Value (setting defaults k) = VStrings (sortedNames (parseToolList (getenv (env def)))).
Proof.
  intros Hf%default_lookup He Hv. unfold default_setting in Hf. rewrite He, Hv in Hf.
  destruct (String.eqb_spec (trim_space (getenv (env def))) "") as [Ht|];
    simpl in Hf; injection Hf as <-; simpl; [|done].
  by rewrite parseToolList_blank.
Qed.

Lemma deploy_policy_env :
  ToolPolicy.allow (deploy_policy defaults) = parseToolList (getenv allowToolsEnv) ∧
  ToolPolicy.deny (deploy_policy defaults) = parseToolList (getenv denyToolsEnv).
Proof.
  unfold deploy_policy, deploy_allow. simpl.
  rewrite (default_tools "tools.allow" _ eq_refl), (default_tools "tools.deny" _ eq_refl) by done.
  simpl. split; [apply parseToolList_join|]. apply set_eq. intros name.
  by rewrite elem_of_list_to_set, elem_of_sortedNames.
Qed.

(** The deployment allow-list as the snapshot reads it back. *)
Definition deploy_chats : chatPolicy :=
  parseChatPolicy (join "," (strings_of (Value (setting defaults "chats.allowed")))).

Lemma default_chats :
  strings_of (Value (setting defaults "chats.allowed")) = entries (parseChatPolicy (getenv chatPolicyEnv)).
Proof.
  pose proof (default_lookup "chats.allowed" _ eq_refl) as Hf. unfold default_setting in Hf. simpl in Hf.
  destruct (String.eqb_spec (trim_space (getenv chatPolicyEnv)) "") as [Ht|];
    injection Hf as <-; simpl; [|done].
  unfold entries. destruct (parseChatPolicy_blank _ Ht) as [-> ->]. done.
Qed.

Lemma deploy_chats_sets :
  well_spelled_list (getenv chatPolicyEnv) →
  let p := parseChatPolicy (getenv chatPolicyEnv) in
  exact deploy_chats = exact p ∧ servers deploy_chats = servers p ∧ restricted deploy_chats = restricted p.
Proof. intros Hw. unfold deploy_chats. rewrite default_chats. by apply reparse_sets. Qed.

End deployment.

(** The decision looks at the restriction and the two sets only. *)
Lemma Allows_ext p q t :
  restricted p = restricted q → exact p = exact q → servers p = servers q → Allows p t = Allows q t.
Proof. unfold Allows. by intros -> -> ->. Qed.

(** ** Lemmas: which stage decides a key *)

Lemma foldl_keys (f : gmap string runtimeSetting → string → gmap string runtimeSetting) keys m k :
  (∀ m k', k ≠ k' → f m k' !! k = m !! k) →
  (∀ m m', m !! k = m' !! k → f m k !! k = f m' k !! k) → NoDup keys →
  foldl f m keys !! k = if bool_decide (k ∈ keys) then f m k !! k else m !! k.
Proof.
  intros Hne Heq. revert m. induction keys as [|k' keys IH]; intros m Hnd.
  { rewrite bool_decide_eq_false_2; [done|set_solver]. }
  inversion Hnd as [|? ? Hnin Hnd']; subst. simpl. rewrite IH by done.
  destruct (decide (k = k')) as [->|Hk].
  - rewrite (bool_decide_eq_false_2 (k' ∈ keys)) by done.
    rewrite bool_decide_eq_true_2; [done|by left].
  - rewrite (Heq (f m k') m), (Hne m k') by auto.
    rewrite (bool_decide_ext (k ∈ keys) (k ∈ k' :: keys)); [done|]. rewrite elem_of_cons. tauto.
Qed.

Lemma setting_insert_ne m k k' s : k ≠ k' → setting (<[k' := s]> m) k = setting m k.
Proof. intros. unfold setting. by rewrite lookup_insert_ne by done. Qed.

Lemma setting_insert m k s : setting (<[k := s]> m) k = s.
Proof. unfold setting. by rewrite lookup_insert_eq. Qed.

Lemma setting_lookup m m' k : m !! k = m' !! k → setting m k = setting m' k.
Proof. unfold setting. by intros ->. Qed.

Lemma send_stage m defaults k :
  setting (applyRuntimeSendCeiling m defaults) k =
    setting (if bool_decide (k ∈ send_keys) then send_ceiling defaults m k else m) k.
Proof.
  apply setting_lookup. unfold applyRuntimeSendCeiling. rewrite foldl_keys; [by case_bool_decide|..].
  - intros m' k' Hk. unfold send_ceiling. case_match; [|done]. by rewrite lookup_insert_ne.
  - intros m1 m2 Hm. unfold send_ceiling, setting. rewrite Hm.
    case_match; [by rewrite !lookup_insert_eq|done].
  - apply (bool_decide_unpack _). vm_compute. exact I.
Qed.

Lemma media_stage m defaults k :
  setting (applyRuntimeMediaCeilings m defaults) k =
    setting (if bool_decide (k ∈ media_keys) then media_ceiling defaults m k else m) k.
Proof.
  apply setting_lookup. unfold applyRuntimeMediaCeilings. rewrite foldl_keys; [by case_bool_decide|..].
  - intros m' k' Hk. unfold media_ceiling. repeat case_match; try done. by rewrite lookup_insert_ne.
  - intros m1 m2 Hm. unfold media_ceiling, setting. rewrite Hm.
    repeat case_match; try done. by rewrite !lookup_insert_eq.
  - apply (bool_decide_unpack _). vm_compute. exact I.
Qed.

Lemma transcription_stage m defaults k :
  k ≠ capKey → k ≠ scopeKey → setting (apply_transcription m defaults) k = setting m k.
Proof.
  intros. unfold apply_transcription. repeat case_match; rewrite ?setting_insert_ne by done; done.
Qed.

Lemma cap_stage m defaults :
  setting (apply_transcription m defaults) capKey =
    match Value (setting defaults capKey), Value (setting m capKey) with
    | VFloat ceiling, VFloat v => if Qle_bool v ceiling then setting m capKey else setting defaults capKey
    | VFloat _, _ => setting defaults capKey
    | _, _ => setting m capKey
    end.
Proof.
  assert (capKey ≠ scopeKey) by done. unfold apply_transcription.
  destruct (Value (setting defaults capKey)) eqn:Hc; try (
    repeat case_match; rewrite ?setting_insert_ne by done; done).
  destruct (Value (setting m capKey)) eqn:Hm; try destruct (Qle_bool _ _); simpl;
    repeat case_match; rewrite ?setting_insert_ne, ?setting_insert by done; done.
Qed.

(** The settings after the tool floor and the chats. *)
Definition floored (defaults : gmap string runtimeSetting) (rows : list row) : gmap string runtimeSetting :=
  let st := foldl (read_row defaults)
              {| rs_version := 0; rs_settings := defaults; rs_closed := false |} rows in
  (apply_chats (applyRuntimeToolFloor (rs_settings st) defaults (rs_closed st)).1 defaults).1.

Lemma Settings_eq defaults rows :
  Settings (readRuntimeSettings defaults rows) =
  apply_transcription (applyRuntimeMediaCeilings (applyRuntimeSendCeiling (floored defaults rows) defaults)
    defaults) defaults.
Proof.
  unfold readRuntimeSettings, floored. simpl.
  destruct (applyRuntimeToolFloor _ _ _) as [m1 tp]. simpl.
  by destruct (apply_chats m1 defaults) as [m2 cp].
Qed.

Lemma floored_typed defaults rows : well_typed defaults → well_typed (floored defaults rows).
Proof.
  intros Hd. apply apply_chats_typed, tool_floor_typed.
  apply (foldl_inv (λ st, well_typed (rs_settings st))); [|done]. intros. by apply read_row_typed.
Qed.

Lemma typed_int64 k v : k ∈ send_keys → typed k v = true → ∃ z, v = VInt64 z ∧ (0 ≤ z)%Z.
Proof.
  unfold send_keys. rewrite !elem_of_cons. intros Hk; destruct_or!; subst; [..|set_solver];
    destruct v as [|z| | | | | |]; simpl; try done; intros; bool_split; exists z; (split; [done|lia]).
Qed.

(** A non-negative limit within the deployment's: zero disables a limit, a
    larger minimum interval is tighter. *)
Definition tighter (k : string) (deploy v : Z) : Prop :=
  (deploy > 0 → if String.eqb k "send.min_interval_ms" then deploy ≤ v else 0 < v ≤ deploy)%Z.

Lemma send_effective defaults rows k :
  well_typed defaults → k ∈ send_keys →
  tighter k (int64_of (Value (setting defaults k)))
    (int64_of (Value (setting (Settings (readRuntimeSettings defaults rows)) k))).
Proof.
  intros Hd Hk. rewrite Settings_eq.
  assert (k ≠ capKey ∧ k ≠ scopeKey ∧ k ∉ media_keys) as (H1 & H2 & H3).
  { revert Hk. unfold send_keys, media_keys. set_solver. }
  rewrite transcription_stage, media_stage by done. rewrite (bool_decide_eq_false_2 (k ∈ media_keys)) by done.
  rewrite send_stage, bool_decide_eq_true_2 by done.
  pose proof (well_typed_setting _ _ (floored_typed defaults rows Hd) (send_keys_known k Hk)) as Ht.
  pose proof (well_typed_setting _ _ Hd (send_keys_known k Hk)) as Ht'.
  apply typed_int64 in Ht as (v & Hv & Hv0), Ht' as (d & He & Hd0); [|done..].
  unfold send_ceiling, tighter. rewrite Hv, He. cbn [int64_of]. intros Hpos.
  rewrite (bool_decide_eq_true_2 (d > 0)%Z) by done. simpl.
  destruct (String.eqb k "send.min_interval_ms"); simpl; rewrite ?orb_false_r.
  - destruct (Z.eqb v 0 || bool_decide (v < d)%Z) eqn:Hc.
    + rewrite setting_insert, He. simpl. lia.
    + rewrite Hv. bool_split. simpl. lia.
  - destruct (Z.eqb v 0 || bool_decide (v > d)%Z) eqn:Hc.
    + rewrite setting_insert, He. simpl. lia.
    + rewrite Hv. bool_split. apply Z.eqb_neq in H. simpl. lia.
Qed.

(** What a media value may be under a deployment value of the same key. *)
Definition media_within (deploy v : value) : Prop :=
  match deploy, v with
  | VBool d, VBool b => b = true → d = true
  | VUint64 d, VUint64 n => (d > 0 → 0 < n ≤ d)%Z
  | VInt d, VInt n => (n ≤ d)%Z
  | VStrings d, VStrings l => ∀ kind, kind ∈ l → kind ∈ d
  | _, _ => False
  end.

Lemma media_narrow_within k d v :
  k ∈ media_keys → typed k d = true → typed k v = true → media_within d (media_narrow k d v).
Proof.
  unfold media_keys. rewrite !elem_of_cons. intros Hk; destruct_or!; subst; [..|set_solver];
    unfold media_narrow; simpl; destruct d as [d|d|d|d|d|d|d|], v as [v|v|v|v|v|v|v|]; simpl; try done;
    intros; bool_split.
  - by destruct d.
  - case_bool_decide; simpl; lia.
  - by match goal with H : _ ∈ filter _ _ |- _ => apply list_elem_of_filter in H as [? _] end.
  - lia.
  - by match goal with H : _ ∈ filter _ _ |- _ => apply list_elem_of_filter in H as [? _] end.
Qed.

Lemma media_effective defaults rows k :
  well_typed defaults → k ∈ media_keys → Source (setting defaults k) = "env" →
  media_within (Value (setting defaults k))
    (Value (setting (Settings (readRuntimeSettings defaults rows)) k)).
Proof.
  intros Hd Hk Hsrc. rewrite Settings_eq.
  assert (k ≠ capKey ∧ k ≠ scopeKey) as (H1 & H2) by (revert Hk; unfold media_keys; set_solver).
  rewrite transcription_stage, media_stage by done. rewrite (bool_decide_eq_true_2 (k ∈ media_keys)) by done.
  unfold media_ceiling. pose proof (well_typed_setting _ _ Hd (media_keys_known k Hk)) as Ht.
  revert Hsrc Ht. unfold setting at 1 2 3. destruct (defaults !! k) as [s|]; [|done]. simpl.
  intros -> Ht. simpl. rewrite setting_insert. simpl. apply media_narrow_within; [done..|].
  apply well_typed_setting; [|by apply media_keys_known].
  by apply send_ceilings_typed, floored_typed.
Qed.

Lemma cap_effective defaults rows c :
  Value (setting defaults capKey) = VFloat c →
  ∃ q, Value (setting (Settings (readRuntimeSettings defaults rows)) capKey) = VFloat q ∧ (q <= c)%Q.
Proof.
  intros Hc. rewrite Settings_eq, cap_stage, Hc.
  set (m := applyRuntimeMediaCeilings _ _).
  destruct (Value (setting m capKey)) as [| | | |v| | |] eqn:Hv;
    try (exists c; split; [done|apply Qle_refl]).
  destruct (Qle_bool v c) eqn:Hle; [|exists c; split; [done|apply Qle_refl]].
  exists v. by rewrite Hv, <-Qle_bool_iff.
Qed.

Lemma scope_effective defaults rows :
  Value (setting defaults scopeKey) = VStr "all" →
  Value (setting (Settings (readRuntimeSettings defaults rows)) scopeKey) = VStr "all".
Proof.
  intros Hs. rewrite Settings_eq. unfold apply_transcription. rewrite Hs. simpl.
  by rewrite setting_insert.
Qed.

(** ** Lemmas: the chats *)

Definition chatsKey : string := "chats.allowed".

(** The chats setting is the deployment's unless a row overrides it. *)
Lemma chats_setting_source defaults rows :
  let st := foldl (read_row defaults)
              {| rs_version := 0; rs_settings := defaults; rs_closed := false |} rows in
  setting (rs_settings st) chatsKey = setting defaults chatsKey
  ∨ Source (setting (rs_settings st) chatsKey) = "runtime".
Proof.
  apply (foldl_inv (λ st, setting (rs_settings st) chatsKey = setting defaults chatsKey
    ∨ Source (setting (rs_settings st) chatsKey) = "runtime")); [|by left].
  intros st r _ Hst. unfold read_row.
  assert (∀ ver k v closed, let st' := rs_put st ver k v closed in
    setting (rs_settings st') chatsKey = setting defaults chatsKey
    ∨ Source (setting (rs_settings st') chatsKey) = "runtime") as Hput.
  { intros ver k v closed. simpl. destruct (decide (k = chatsKey)) as [->|Hne].
    - right. by rewrite setting_insert.
    - by rewrite setting_insert_ne. }
  repeat case_match; try done; apply Hput.
Qed.

Lemma tool_floor_chats settings defaults closed :
  setting (applyRuntimeToolFloor settings defaults closed).1 chatsKey = setting settings chatsKey.
Proof.
  unfold applyRuntimeToolFloor. case_match. cbn [fst]. by rewrite !setting_insert_ne.
Qed.

Lemma chats_eq defaults rows :
  let st := foldl (read_row defaults)
              {| rs_version := 0; rs_settings := defaults; rs_closed := false |} rows in
  let c := setting (rs_settings st) chatsKey in
  let p := parseChatPolicy (join "," (strings_of (Value c))) in
  ∀ t, Allows (chats (readRuntimeSettings defaults rows)) t =
    if String.eqb (Source c) "runtime"
    then Allows (intersectChatPolicies (set_restricted p) (deploy_chats defaults)) t
    else Allows p t.
Proof.
  intros st c p t. unfold readRuntimeSettings. fold st.
  pose proof (tool_floor_chats (rs_settings st) defaults (rs_closed st)) as Hc. fold c in Hc.
  destruct (applyRuntimeToolFloor _ _ _) as [m1 tp]. simpl in Hc.
  destruct (apply_chats m1 defaults) as [m2 cp] eqn:Ha. simpl.
  unfold apply_chats in Ha. change "chats.allowed" with chatsKey in Ha. rewrite Hc in Ha.
  destruct (String.eqb (Source c) "runtime"); simpl in Ha; simplify_eq; [|done].
  by apply Allows_ext.
Qed.

(** A row of another key leaves a setting alone. *)
Lemma read_row_other defaults st r k :
  row_key r ≠ k → setting (rs_settings (read_row defaults st r)) k = setting (rs_settings st) k.
Proof.
  intros Hk. unfold read_row. destruct (find_definition (row_key r)) as [def|] eqn:Hf; [|done].
  apply find_definition_Some in Hf as [_ Hkey].
  destruct (String.eqb_spec (key def) "tools.allow") as [E|_];
    [|destruct (String.eqb_spec (key def) "tools.deny") as [E|_];
      [|destruct (String.eqb_spec (key def) "chats.allowed") as [E|_]]];
    repeat case_match; try done; simpl; rewrite setting_insert_ne; congruence.
Qed.

Lemma read_rows_other defaults st rows k :
  k ∉ map row_key rows → setting (rs_settings (foldl (read_row defaults) st rows)) k = setting (rs_settings st) k.
Proof.
  revert st. induction rows as [|r rows IH]; intros st Hk; [done|]. simpl in *.
  apply not_elem_of_cons in Hk as [Hne Hk]. rewrite IH, read_row_other by done. done.
Qed.

Lemma read_row_chats defaults st r :
  row_key r = chatsKey → saved r ≠ Some JNull →
  setting (rs_settings (read_row defaults st r)) chatsKey =
    {| Value := match saved r with
                | Some j => match parse_chats j with Ok v => v | Err _ => VStrings [] end
                | None => VStrings []
                end; Source := "runtime" |}.
Proof.
  intros Hk Hs. unfold read_row. rewrite Hk.
  change (find_definition chatsKey) with (Some (hd (sendSetting "" "") settingDefinitions)).
  destruct (saved r) as [j|]; [|apply setting_insert].
  destruct j; [done|..]; cbn [hd settingDefinitions key parse app];
    (destruct (parse_chats _); apply setting_insert).
Qed.

(** An empty restricted list permits nothing. *)
Lemma Allows_empty t : Allows (set_restricted (parseChatPolicy "")) t = false.
Proof.
  rewrite Allows_restricted by done. unfold member.
  change (exact (set_restricted (parseChatPolicy ""))) with (∅ : gset string).
  change (servers (set_restricted (parseChatPolicy ""))) with (∅ : gset string).
  repeat case_match; rewrite ?bool_decide_eq_false_2 by set_solver; by rewrite ?andb_false_r.
Qed.

(** With one row per key, the row of a key decides its setting. *)
Lemma read_rows_at defaults st rows r :
  NoDup (map row_key rows) → r ∈ rows →
  ∃ st', setting (rs_settings (foldl (read_row defaults) st rows)) (row_key r) =
         setting (rs_settings (read_row defaults st' r)) (row_key r).
Proof.
  intros Hnd Hin. apply list_elem_of_split in Hin as (l1 & l2 & ->).
  rewrite map_app in Hnd. simpl in Hnd. apply NoDup_app in Hnd as (_ & _ & Hnd).
  apply NoDup_cons in Hnd as [Hnin _]. rewrite foldl_app. simpl.
  exists (foldl (read_row defaults) st l1). by apply read_rows_other.
Qed.

(** ** Lemmas: saving *)

Lemma read_row_version defaults st r :
  rs_version (read_row defaults st r) = Z.max (rs_version st) (version r).
Proof. unfold read_row. repeat case_match; done. Qed.

Definition max_version (rows : list row) : Z := foldr (λ r v, Z.max (version r) v) 0%Z rows.

Lemma Version_max defaults rows : Version (readRuntimeSettings defaults rows) = max_version rows.
Proof.
  assert (∀ rows st, (0 ≤ rs_version st)%Z → rs_version (foldl (read_row defaults) st rows) =
    Z.max (rs_version st) (max_version rows)) as Hfold.
  { clear. induction rows as [|r rows IH]; intros st Hst; simpl; [lia|].
    rewrite IH; rewrite read_row_version; lia. }
  unfold readRuntimeSettings. destruct (applyRuntimeToolFloor _ _ _) as [m1 tp].
  destruct (apply_chats m1 defaults) as [m2 cp]. simpl. rewrite Hfold by (simpl; lia). simpl.
  induction rows; simpl; lia.
Qed.

Lemma max_version_bound rows v :
  (0 ≤ v)%Z → Forall (λ r, (version r ≤ v)%Z) rows → (0 ≤ max_version rows ≤ v)%Z.
Proof. intros Hv Hall. induction Hall; simpl; lia. Qed.

Lemma max_version_ge rows r : r ∈ rows → (version r ≤ max_version rows)%Z.
Proof. induction 1; simpl; lia. Qed.

Lemma max_version_nonneg rows : (0 ≤ max_version rows)%Z.
Proof. induction rows; simpl; lia. Qed.

Lemma elem_of_upsert ver rows kv r :
  r ∈ upsert ver rows kv ↔
    (r ∈ rows ∧ row_key r ≠ kv.1) ∨ r = {| row_key := kv.1; saved := Some kv.2; version := ver |}.
Proof.
  unfold upsert. destruct (existsb _ rows) eqn:Hex.
  - apply existsb_exists in Hex as (x & Hx & Hk%String.eqb_eq). apply list_elem_of_In in Hx.
    rewrite list_elem_of_fmap. split.
    + intros (y & -> & Hy). destruct (String.eqb_spec (row_key y) kv.1); auto.
    + intros [[Hr Hne]| ->].
      * exists r. split; [|done]. by destruct (String.eqb_spec (row_key r) kv.1).
      * exists x. by rewrite Hk, String.eqb_refl.
  - rewrite elem_of_app, list_elem_of_singleton. split; [|tauto].
    intros [Hr| ->]; [|auto]. left. split; [done|]. intros Hk.
    apply not_true_iff_false in Hex. apply Hex, existsb_exists. exists r.
    by rewrite <-list_elem_of_In, Hk, String.eqb_refl.
Qed.

Lemma upsert_keys ver rows kv :
  map row_key (upsert ver rows kv) =
    if existsb (λ x, String.eqb (row_key x) kv.1) rows then map row_key rows
    else map row_key rows ++ [kv.1].
Proof.
  unfold upsert. case_match; [|by rewrite map_app].
  rewrite map_map. apply map_ext. intros x. by destruct (String.eqb_spec (row_key x) kv.1).
Qed.

Lemma upsert_nodup ver rows kv : NoDup (map row_key rows) → NoDup (map row_key (upsert ver rows kv)).
Proof.
  intros Hnd. rewrite upsert_keys. destruct (existsb _ rows) eqn:Hex; [done|].
  apply NoDup_app. split_and!; [done| |apply NoDup_singleton].
  intros k Hk Hin. apply list_elem_of_singleton in Hin as ->.
  apply list_elem_of_fmap in Hk as (r & Hr & Hin). apply not_true_iff_false in Hex. apply Hex.
  apply existsb_exists. exists r. by rewrite <-list_elem_of_In, <-Hr, String.eqb_refl.
Qed.

Lemma elem_of_upserts ver rows kvs r :
  NoDup kvs.*1 →
  r ∈ foldl (upsert ver) rows kvs ↔
    (r ∈ rows ∧ row_key r ∉ kvs.*1) ∨
    ∃ kv, kv ∈ kvs ∧ r = {| row_key := kv.1; saved := Some kv.2; version := ver |}.
Proof.
  revert rows. induction kvs as [|kv kvs IH]; intros rows Hnd; [set_solver|].
  simpl in *. apply NoDup_cons in Hnd as [Hnin Hnd]. rewrite IH, elem_of_upsert by done.
  rewrite not_elem_of_cons. setoid_rewrite elem_of_cons. split.
  - intros [[[[? ?]| ->] ?]|?]; [naive_solver..|]. naive_solver.
  - intros [(? & ? & ?)|(kv' & [->|?] & ->)]; [naive_solver| |naive_solver].
    left. split; [by right|done].
Qed.

Lemma patch_rows defaults rows kvs r :
  NoDup kvs.*1 →
  let ver := (max_version rows + 1)%Z in
  r ∈ patchRuntimeSettings defaults rows kvs ↔
    (r ∈ rows ∧ row_key r ∉ kvs.*1) ∨
    ∃ kv, kv ∈ kvs ∧ r = {| row_key := kv.1; saved := Some kv.2; version := ver |}.
Proof.
  intros Hnd ver. unfold patchRuntimeSettings. rewrite Version_max. fold ver.
  assert (merge_sort key_le kvs ≡ₚ kvs) as Hp by apply merge_sort_Permutation.
  rewrite elem_of_upserts by by rewrite Hp.
  setoid_rewrite Hp. done.
Qed.

Lemma patch_nodup defaults rows kvs :
  NoDup (map row_key rows) → NoDup (map row_key (patchRuntimeSettings defaults rows kvs)).
Proof.
  unfold patchRuntimeSettings. generalize (merge_sort key_le kvs). intros l Hnd.
  apply (foldl_inv (λ rows, NoDup (map row_key rows))); [|done]. intros. by apply upsert_nodup.
Qed.

Lemma patch_values_keys body vs : patch_values body = Ok vs → vs.*1 = body.*1.
Proof.
  revert vs. induction body as [|[k j] body IH]; intros vs; simpl; [by intros; simplify_eq|].
  rewrite result_bind_ok. intros (v & Hv & (ws & Hws & Heq)%result_bind_ok). simplify_eq. simpl.
  f_equal. by apply IH.
Qed.

(** ** Lemmas: a saved value reads back as itself *)

Lemma to_strs_map l : to_strs (JArr (map JStr l)) = Some (Some l).
Proof.
  simpl. assert (all_some (map to_str (map JStr l)) = Some l) as ->; [|done].
  induction l as [|s l IH]; simpl; [done|]. by rewrite IH.
Qed.

Definition reloads (p : json → result string value) : Prop :=
  ∀ j v, p j = Ok v → p (json_of_value v) = Ok v.

Lemma parse_kinds_fixed known err raw l :
  Forall (λ k, plain_name k = true) known → parse_kinds known err raw = Ok l →
  Forall (λ k, plain_name k = true) l ∧ parse_kinds known err (join "," l) = Ok l.
Proof.
  intros Hknown. unfold parse_kinds at 1. destruct (String.eqb (trim_space raw) ""); [by intros; simplify_eq|].
  destruct (forallb _ _) eqn:Hall; intros; simplify_eq. set (S := list_to_set _).
  assert (∀ k, k ∈ sortedNames S → k ∈ known) as Hin.
  { intros k Hk%elem_of_sortedNames. unfold S in Hk. rewrite elem_of_list_to_set in Hk.
    rewrite forallb_forall in Hall. apply list_elem_of_In, Hall in Hk. by bool_split. }
  rewrite Forall_forall in Hknown. assert (Forall (λ k, plain_name k = true) (sortedNames S)) as Hplain.
  { apply Forall_forall. auto. }
  split; [done|]. destruct (decide (sortedNames S = [])) as [Hnil|Hne]; [by rewrite Hnil|].
  assert (split_byte "," (join "," (sortedNames S)) = sortedNames S) as Hsplit.
  { apply split_join; [done|]. eapply Forall_impl; [exact Hplain|]. simpl. unfold plain_name.
    intros; by bool_split. }
  assert (map trim_space (sortedNames S) = sortedNames S) as Htrim.
  { rewrite <-(map_id (sortedNames S)) at 2. apply map_ext_in. intros k Hk%list_elem_of_In.
    rewrite Forall_forall in Hplain. apply Hplain in Hk. unfold plain_name in Hk. bool_split.
    symmetry. by apply String.eqb_eq. }
  unfold parse_kinds. destruct (String.eqb_spec (trim_space (join "," (sortedNames S))) "") as [Ht|_].
  { exfalso. pose proof (blank_no_comma _ Ht) as Hb. rewrite Hsplit in Hb.
    rewrite Hb in Htrim. simpl in Htrim. rewrite Ht in Htrim. rewrite Forall_forall in Hplain.
    specialize (Hplain ""). rewrite Hb, <-Htrim in Hplain. discriminate Hplain. by left. }
  rewrite Hsplit, Htrim. rewrite (proj2 (forallb_forall _ _)).
  - f_equal. unfold sortedNames at 1. replace (list_to_set (sortedNames S)) with S; [done|].
    apply set_eq. intros k. by rewrite elem_of_list_to_set, elem_of_sortedNames.
  - intros k Hk%list_elem_of_In. apply bool_decide_eq_true. auto.
Qed.

Lemma parse_kind_array_reloads known err :
  Forall (λ k, plain_name k = true) known → reloads (parse_kind_array (parse_kinds known err)).
Proof.
  intros Hknown j v. unfold parse_kind_array at 1.
  destruct (to_strs j) as [[names|]|]; try done. destruct (forallb _ names); [|done].
  intros (l & Hl & ->)%map_result_ok.
  destruct (parse_kinds_fixed _ _ _ _ Hknown Hl) as [Hplain Hfix].
  unfold parse_kind_array. cbn [json_of_value]. rewrite to_strs_map.
  rewrite (proj2 (forallb_forall _ _)); [by rewrite Hfix|].
  intros k Hk%list_elem_of_In. rewrite Forall_forall in Hplain. apply Hplain in Hk.
  unfold plain_name in Hk. by apply andb_true_iff in Hk as [-> _].
Qed.

Lemma parse_tools_reloads : reloads parse_tools.
Proof.
  intros j v. unfold parse_tools at 1.
  destruct (to_strs j) as [[names|]|]; try done. destruct (forallb plain_name names); [|done]. simpl.
  destruct (newToolPolicy (join "," names) "") as [p|] eqn:Hp; [|done]. intros; simplify_eq.
  assert (allow p = parseToolList (join "," names)) as Hallow.
  { unfold newToolPolicy in Hp. repeat case_match; by simplify_eq. }
  unfold parse_tools. cbn [json_of_value]. rewrite to_strs_map.
  rewrite (proj2 (forallb_forall plain_name _)); simpl.
  - unfold newToolPolicy in *. rewrite Hallow, parseToolList_join.
    repeat case_match; by simplify_eq.
  - intros k Hk%list_elem_of_In%elem_of_sortedNames. rewrite Hallow in Hk.
    destruct (parseToolList_plain _ _ Hk) as (Hne & Ht & Hc). unfold plain_name.
    rewrite Ht, Hc, String.eqb_refl. by destruct (String.eqb_spec k "").
Qed.

Lemma to_int_range lo hi j z : to_int lo hi j = Some z → (lo ≤ 0 ≤ hi)%Z → to_int lo hi (JInt z) = Some z.
Proof.
  intros Hj H0. simpl. rewrite bool_decide_eq_true_2; [done|].
  destruct j; simplify_eq/=; [done|]. case_bool_decide; by simplify_eq.
Qed.

Lemma sendSetting_reloads k e : reloads (parse (sendSetting k e)).
Proof.
  intros j v. cbn [parse sendSetting]. destruct (to_int64 j) as [z|] eqn:Hj; [|done].
  destruct (bool_decide (z < 0 ∨ z > 2147483647)%Z) eqn:Hb; intros; simplify_eq. cbn [json_of_value].
  unfold to_int64 in *. rewrite (to_int_range _ _ j z Hj); [|unfold max_int64; lia]. by rewrite Hb.
Qed.

(** Every key but the chats, whose entries have a grammar of their own. *)
Lemma definitions_reload :
  Forall (λ def, key def ≠ chatsKey → reloads (parse def)) settingDefinitions.
Proof.
  repeat apply Forall_cons_2; [..|constructor]; intros Hne; try (by destruct Hne);
    try apply sendSetting_reloads; cbn [parse];
    try (apply parse_kind_array_reloads; repeat constructor); try apply parse_tools_reloads; intros j v.
  - assert (∀ q, cap_value q = Ok v → v = VFloat q) as Hq.
    { intros q. unfold cap_value. case_match; intros; by simplify_eq. }
    intros Hp. unfold parse_cap in Hp. destruct j; try done; pose proof (Hq _ Hp); subst v; exact Hp.
  - assert (∀ s, scope s = Ok v → v = VStr s) as Hq.
    { intros s. unfold scope. case_match; intros; by simplify_eq. }
    unfold parse_scope at 1. destruct (to_str j); [|done]. intros Hp. pose proof (Hq _ Hp); subst v; exact Hp.
  - unfold parse_ingest. destruct (to_str j) as [s|]; [|done]. case_match; [done|].
    unfold parseIngestChats at 1. intros (w & Hw & ->)%map_result_ok.
    set (w' := if String.eqb (trim_space s) "" then "all" else trim_space s) in Hw.
    destruct (String.eqb_spec w' "all") as [E|]; [|destruct (String.eqb_spec w' "direct") as [E|]];
      simpl in Hw; simplify_eq; rewrite E; reflexivity.
  - unfold parse_status. case_match; intros; by simplify_eq.
  - unfold parse_quota_json. destruct (to_uint64 j) as [z|] eqn:Hj; intros; simplify_eq. cbn [json_of_value].
    unfold to_uint64 in *. rewrite (to_int_range _ _ j z Hj); [done|]. unfold max_uint64; lia.
  - unfold parse_target_json. destruct (to_int64 j) as [z|] eqn:Hj; [|done].
    case_match eqn:Hb; intros; simplify_eq. cbn [json_of_value]. unfold to_int64 in *.
    rewrite (to_int_range _ _ j z Hj); [|unfold max_int64; lia]. by rewrite Hb.
Qed.

Lemma nonempty_of_excludes f s c :
  nonempty_of f s = true → f c = false → contains_byte c s = false.
Proof.
  unfold nonempty_of. intros [_ H]%andb_true_iff Hc. induction s as [|a s IH]; [done|].
  simpl in *. apply andb_true_iff in H as [Ha H]. rewrite IH by done. rewrite ascii_eqb_spec.
  rewrite bool_decide_eq_false_2 by congruence. done.
Qed.

Lemma pattern_spelling e :
  chatEntryPattern (trim_space e) = true →
  contains_byte "," e = false ∧ well_spelled e = true ∧ trim_space e ≠ "".
Proof.
  unfold chatEntryPattern, well_spelled. rewrite <-(trim_space_contains "," e), <-(trim_space_contains "@" e),
    <-(trim_space_contains ":" e) by done.
  intros [Hd|Hm]%orb_true_iff.
  - split_and!; [by eapply nonempty_of_excludes| |intros Ht; by rewrite Ht in Hd].
    rewrite (nonempty_of_excludes _ _ ":" Hd) by done. by rewrite orb_true_r.
  - destruct (cut_first "@" (trim_space e)) as [[u v]|] eqn:Hcut; [|done].
    apply cut_first_Some in Hcut as [-> _]. apply andb_true_iff in Hm as [Hu Hv].
    rewrite !contains_byte_app. simpl. rewrite !orb_true_r. split_and!; [|done|by destruct u].
    rewrite (nonempty_of_excludes _ v "," Hv) by done. rewrite orb_false_r.
    apply orb_true_iff in Hu as [->%String.eqb_eq|Hu]; [done|]. by eapply nonempty_of_excludes.
Qed.

Lemma normalize_nonempty e : trim_space e ≠ "" → normalizeChatEntry e ≠ "".
Proof.
  intros Hne. unfold normalizeChatEntry. destruct (String.eqb_spec (trim_space e) "") as [|_]; [done|].
  case_match; [done|]. repeat case_match; intros [_ ?]%string_app_eq_nil; done.
Qed.

Lemma chats_reload j es :
  parse_chats j = Ok (VStrings es) → Forall (λ e, chatEntryPattern (trim_space e) = true) es →
  parse_chats (json_of_value (VStrings es)) = Ok (VStrings es).
Proof.
  unfold parse_chats at 1. destruct (to_strs j) as [[[|e es']|]|]; try done.
  destruct (forallb _ (e :: es')) eqn:Hall; [|done]. intros Heq Hpat.
  assert (es = entries (parseChatPolicy (join "," (e :: es')))) as -> by congruence. clear Heq.
  assert (∀ x, x ∈ e :: es' → chatEntryPattern (trim_space x) = true) as Hin.
  { intros x Hx. rewrite forallb_forall in Hall. by apply Hall, list_elem_of_In. }
  assert (split_byte "," (join "," (e :: es')) = e :: es') as Hsplit.
  { apply split_join; [done|]. apply Forall_forall. intros x Hx. by apply pattern_spelling, Hin. }
  set (raw := join "," (e :: es')) in *.
  assert (well_spelled_list raw) as Hw.
  { unfold well_spelled_list. rewrite Hsplit. apply Forall_forall. intros x Hx. by apply pattern_spelling, Hin. }
  assert (entries (parseChatPolicy raw) ≠ []) as Hne.
  { intros Hnil. assert (normalizeChatEntry e ∈ entries (parseChatPolicy raw)) as Hx.
    { apply elem_of_entries_parse. exists e. rewrite Hsplit. split_and!; [by left|done|].
      apply normalize_nonempty, pattern_spelling, Hin. by left. }
    rewrite Hnil in Hx. by apply not_elem_of_nil in Hx. }
  unfold parse_chats. cbn [json_of_value]. rewrite to_strs_map.
  destruct (entries (parseChatPolicy raw)) as [|x xs] eqn:Hen; [done|].
  rewrite (proj2 (forallb_forall _ _)) by (intros y Hy%list_elem_of_In; rewrite Forall_forall in Hpat; auto).
  rewrite <-Hen. do 2 f_equal. destruct (reparse_sets raw Hw) as (He & Hs & _).
  unfold entries at 1 3. by rewrite He, Hs.
Qed.

(** ** Properties *)

(** [C5] The tool policy a request is judged by never permits a known tool the
    deployment lists (WHATSAPP_ALLOW_TOOLS, WHATSAPP_DENY_TOOLS) refuse, for
    any contents of the settings table, readable or not. *)
Theorem runtime_tools_never_widen (getenv : string → string) (defaults : gmap string runtimeSetting)
    (rows : list row) (name : string)
    (Hd : runtimeDefaults getenv = Ok defaults) (Hn : name ∈ knownTools)
    (Ha : allowsTool (policy (readRuntimeSettings defaults rows)) name = true) :
  (name ∉ parseToolList (getenv denyToolsEnv)) ∧
  (parseToolList (getenv allowToolsEnv) = ∅ ∨ name ∈ parseToolList (getenv allowToolsEnv)).
Proof.
  destruct (deploy_policy_env getenv defaults Hd) as [<- <-]. apply allowsTool_spec.
  revert Ha. unfold readRuntimeSettings. set (st := foldl (read_row defaults) _ rows).
  pose proof (tool_floor_narrows (rs_settings st) defaults (rs_closed st) name Hn) as Hfloor.
  destruct (applyRuntimeToolFloor _ _ _) as [m1 tp]. by destruct (apply_chats m1 defaults).
Qed.

(** An environment with the given variables. *)
Definition env_of (vars : list (string * string)) (k : string) : string :=
  default "" ((list_to_map vars : gmap string string) !! k).

Definition ok_or_empty (r : result string (gmap string runtimeSetting)) : gmap string runtimeSetting :=
  match r with Ok m => m | Err _ => ∅ end.

Definition sample_env : string → string :=
  env_of [(allowToolsEnv, "send_message,send_file"); (denyToolsEnv, "send_file");
          (chatPolicyEnv, "*@g.us,5511999990000"); ("WHATSAPP_SEND_RATE_PER_DAY", "20");
          ("WHATSAPP_MEDIA_QUOTA_BYTES", "1000"); ("TRANSCRIBE_MONTHLY_MAX_MINUTES", "60.5")].

Definition sample_defaults : gmap string runtimeSetting := ok_or_empty (runtimeDefaults sample_env).

(** A table asking for more than the deployment grants, with an unreadable row. *)
Definition sample_rows : list row := [
  {| row_key := "tools.allow"; saved := Some (JArr [JStr "send_message"; JStr "send_reaction"]); version := 3 |};
  {| row_key := "chats.allowed"; saved := Some (JArr [JStr "*@s.whatsapp.net"]); version := 2 |};
  {| row_key := "send.rate_per_day"; saved := Some (JInt 500); version := 3 |};
  {| row_key := "media.quota_bytes"; saved := Some (JInt 0); version := 1 |};
  {| row_key := "transcription.cap_scope"; saved := None; version := 1 |}
].

Lemma sample_defaults_ok : runtimeDefaults sample_env = Ok sample_defaults.
Proof. vm_compute. reflexivity. Qed.

Lemma runtime_tools_never_widen_witness :
  "send_message" ∈ parseToolList (sample_env allowToolsEnv).
Proof.
  destruct (runtime_tools_never_widen sample_env sample_defaults sample_rows "send_message")
    as [_ [He|Hin]]; [exact sample_defaults_ok|..|exact Hin].
  - apply (bool_decide_unpack _). vm_compute. exact I.
  - vm_compute. reflexivity.
  - exfalso. revert He. apply (bool_decide_unpack (¬ _)). vm_compute. exact I.
Defined.

(** The conversation policy a request is judged by never permits a target
    the deployment allow-list WHATSAPP_ALLOWED_CHATS refuses, for any contents
    of the settings table. *)
Theorem runtime_chats_never_widen (getenv : string → string) (defaults : gmap string runtimeSetting)
    (rows : list row) (t : string)
    (Hd : runtimeDefaults getenv = Ok defaults)
    (Hl : well_spelled_list (getenv chatPolicyEnv)) (Ht : well_spelled t = true)
    (Ha : Allows (chats (readRuntimeSettings defaults rows)) t = true) :
  Allows (parseChatPolicy (getenv chatPolicyEnv)) t = true.
Proof.
  destruct (deploy_chats_sets getenv defaults Hd Hl) as (He & Hs & Hr).
  rewrite <-(Allows_ext (deploy_chats defaults)) by done. revert Ha. rewrite chats_eq.
  destruct (String.eqb_spec (Source (setting (rs_settings (foldl (read_row defaults)
    {| rs_version := 0; rs_settings := defaults; rs_closed := false |} rows)) chatsKey)) "runtime").
  - rewrite intersect_Allows by done. by intros [_ ?]%andb_true_iff.
  - destruct (chats_setting_source defaults rows) as [->|]; done.
Qed.

Lemma runtime_chats_never_widen_witness :
  Allows (parseChatPolicy (sample_env chatPolicyEnv)) "5511999990000:7@s.whatsapp.net" = true.
Proof.
  apply (runtime_chats_never_widen sample_env sample_defaults sample_rows).
  - exact sample_defaults_ok.
  - unfold well_spelled_list. vm_compute. repeat constructor.
  - reflexivity.
  - vm_compute. reflexivity.
Defined.

(** A saved conversation list that cannot be read denies every chat, and
    a readable one permits exactly what both it and the deployment permit. *)
Theorem saved_chats_effective (defaults : gmap string runtimeSetting) (rows : list row) (r : row)
    (t : string) (Hn : NoDup (map row_key rows)) (Hr : r ∈ rows) (Hk : row_key r = chatsKey)
    (Hs : saved r ≠ Some JNull) (Ht : well_spelled t = true) :
  Allows (chats (readRuntimeSettings defaults rows)) t =
    match saved r with
    | Some j => match parse_chats j with
                | Ok v => Allows (set_restricted (parseChatPolicy (join "," (strings_of v)))) t
                          && Allows (deploy_chats defaults) t
                | Err _ => false
                end
    | None => false
    end.
Proof.
  rewrite chats_eq.
  destruct (read_rows_at defaults {| rs_version := 0; rs_settings := defaults; rs_closed := false |}
    rows r Hn Hr) as [st' Hst]. rewrite Hk, read_row_chats in Hst by done. rewrite Hst.
  cbn [Source Value]. rewrite String.eqb_refl, intersect_Allows by done.
  destruct (saved r) as [j|]; [destruct (parse_chats j); [done|]|]; by rewrite Allows_empty.
Qed.

Lemma saved_chats_effective_witness :
  Allows (chats (readRuntimeSettings sample_defaults sample_rows)) "120363@g.us" = false
  ∧ Allows (deploy_chats sample_defaults) "120363@g.us" = true.
Proof.
  split; [|vm_compute; reflexivity].
  rewrite (saved_chats_effective sample_defaults sample_rows
    {| row_key := "chats.allowed"; saved := Some (JArr [JStr "*@s.whatsapp.net"]); version := 2 |}).
  - vm_compute. reflexivity.
  - apply (bool_decide_unpack _). vm_compute. exact I.
  - right. left.
  - reflexivity.
  - done.
  - reflexivity.
Defined.

(** Budgets of the deployment are ceilings: whatever the table holds, an
    effective send limit is positive and no looser than a deployment limit, a
    media setting given in the environment is only narrowed, the transcription
    minutes never exceed the deployment cap, and a deployment cap over all
    transcriptions stays over all. *)
Theorem runtime_budgets_within_deployment (getenv : string → string)
    (defaults : gmap string runtimeSetting) (rows : list row)
    (Hd : runtimeDefaults getenv = Ok defaults) :
  let eff k := Value (setting (Settings (readRuntimeSettings defaults rows)) k) in
  let deploy k := Value (setting defaults k) in
  (∀ k, k ∈ send_keys → tighter k (int64_of (deploy k)) (int64_of (eff k))) ∧
  (∀ k, k ∈ media_keys → Source (setting defaults k) = "env" → media_within (deploy k) (eff k)) ∧
  (∀ c, deploy capKey = VFloat c → ∃ q, eff capKey = VFloat q ∧ (q <= c)%Q) ∧
  (deploy scopeKey = VStr "all" → eff scopeKey = VStr "all").
Proof.
  apply runtimeDefaults_typed in Hd.
  split_and!; intros; eauto using send_effective, media_effective, cap_effective, scope_effective.
Qed.

Lemma runtime_budgets_within_deployment_witness :
  tighter "send.rate_per_day" 20
    (int64_of (Value (setting (Settings (readRuntimeSettings sample_defaults sample_rows)) "send.rate_per_day"))).
Proof.
  destruct (runtime_budgets_within_deployment sample_env sample_defaults sample_rows sample_defaults_ok)
    as [Hsend _].
  apply (Hsend "send.rate_per_day"). right. left.
Defined.

(** [C40] Reading the runtime settings never panics: whatever environment was
    accepted at startup and whatever the table holds, none of the type
    assertions of the reading code fails (evaluated where the code has them,
    a failing one being [None]), and the snapshot holds each of the fifteen
    keys with a value of the type, and in the range, its consumers assert:
    the lists of strings, the four send limits, the quota, the eviction
    target, the transcription cap (absent or in range), its scope, the ingest
    scope and the status switch. *)
Theorem snapshot_well_typed (getenv : string → string) (defaults : gmap string runtimeSetting)
    (rows : list row) (Hd : runtimeDefaults getenv = Ok defaults) :
  let s := readRuntimeSettings defaults rows in
  let held k := Value <$> Settings s !! k in
  readRuntimeSettings_asserted defaults rows = Some s ∧
  (∀ k, k ∈ ["chats.allowed"; "tools.allow"; "tools.deny"; "media.autodownload_types"; "media.quota_evict_types"] →
     ∃ l, held k = Some (VStrings l)) ∧
  (∀ k, k ∈ ["send.rate_per_minute"; "send.rate_per_day"; "send.new_chats_per_day"; "send.min_interval_ms"] →
     ∃ n, held k = Some (VInt64 n) ∧ (0 ≤ n ≤ 2147483647)%Z) ∧
  (∃ n, held "media.quota_bytes" = Some (VUint64 n) ∧ (0 ≤ n < 2 ^ 64)%Z) ∧
  (∃ n, held "media.quota_evict_target_percent" = Some (VInt n) ∧ (1 ≤ n ≤ 99)%Z) ∧
  (held "transcription.monthly_max_minutes" = Some VNil ∨
   ∃ q, held "transcription.monthly_max_minutes" = Some (VFloat q) ∧ (0 <= q)%Q ∧ (q <= 525600)%Q) ∧
  (held "transcription.cap_scope" = Some (VStr "ingest") ∨ held "transcription.cap_scope" = Some (VStr "all")) ∧
  (held "transcription.ingest_chats" = Some (VStr "all") ∨ held "transcription.ingest_chats" = Some (VStr "direct")) ∧
  (∃ b, held "media.autodownload_status" = Some (VBool b)).
Proof.
  cbv zeta. apply runtimeDefaults_typed in Hd. split; [by apply snapshot_asserted|]. pose proof (snapshot_typed defaults Hd rows) as Ht.
  generalize dependent (Settings (readRuntimeSettings defaults rows)). intros m Hm.
  assert (∀ k, is_Some (find_definition k) → ∃ v, Value <$> m !! k = Some v ∧ typed k v = true) as Hk
    by (intros k Hf; by apply held_typed).
  split_and!.
  - intros k Hin. apply (held_strings m k Hm Hin).
  - intros k Hin. apply (held_int64 m k Hm Hin).
  - destruct (Hk "media.quota_bytes" ltac:(by eexists)) as ([] & -> & Hv); simpl in Hv; try done. bool_split. unfold max_uint64 in *. eauto with lia.
  - destruct (Hk "media.quota_evict_target_percent" ltac:(by eexists)) as ([] & -> & Hv); simpl in Hv; try done. bool_split. eauto with lia.
  - destruct (Hk capKey ltac:(by eexists)) as ([] & Hl & Hv); unfold capKey in Hl; rewrite Hl; simpl in Hv; try done; [|by left].
    apply andb_true_iff in Hv as [H1%Qle_bool_iff H2%Qle_bool_iff]. right. eauto.
  - destruct (Hk scopeKey ltac:(by eexists)) as ([] & Hl & Hv); unfold scopeKey in Hl; rewrite Hl; simpl in Hv; try done.
    rewrite orb_false_r in Hv. apply orb_true_iff in Hv as [->%String.eqb_eq| ->%String.eqb_eq]; auto.
  - destruct (Hk ingestKey ltac:(by eexists)) as ([] & Hl & Hv); unfold ingestKey in Hl; rewrite Hl; simpl in Hv; try done.
    apply orb_true_iff in Hv as [->%String.eqb_eq| ->%String.eqb_eq]; auto.
  - destruct (Hk "media.autodownload_status" ltac:(by eexists)) as ([] & -> & Hv); simpl in Hv; try done. eauto.
Qed.

Lemma snapshot_well_typed_witness :
  readRuntimeSettings_asserted sample_defaults sample_rows = Some (readRuntimeSettings sample_defaults sample_rows) ∧
  ∃ n, Value <$> Settings (readRuntimeSettings sample_defaults sample_rows) !! "media.quota_evict_target_percent" = Some (VInt n) ∧ (1 ≤ n ≤ 99)%Z.
Proof.
  destruct (snapshot_well_typed sample_env sample_defaults sample_rows sample_defaults_ok) as (H1 & _ & _ & _ & H2 & _). exact (conj H1 H2).
Defined.

(** A default of the wrong type makes the reading panic. *)
Example wrong_type_panics :
  readRuntimeSettings_asserted (<["send.rate_per_day" := {| Value := VInt 3; Source := "env" |}]> sample_defaults) [] = None.
Proof. vm_compute. reflexivity. Qed.

(** An accepted PATCH raises the settings version by exactly one, keeps one
    row per key, leaves every other row as it was, and stores each patched key
    under the new version. *)
Theorem patch_commits (read_ok : bool) (defaults : gmap string runtimeSetting) (rows : list row)
    (body vs : list (string * json)) (Hn : NoDup (map row_key rows)) (Hb : NoDup body.*1)
    (Hne : body ≠ []) (Hv : patch_values body = Ok vs) :
  let rows' := (handleRuntimeSettings true read_ok defaults rows "PATCH" (Ok body)).1 in
  NoDup (map row_key rows') ∧
  Version (readRuntimeSettings defaults rows') = (Version (readRuntimeSettings defaults rows) + 1)%Z ∧
  (∀ r, row_key r ∉ body.*1 → r ∈ rows' ↔ r ∈ rows) ∧
  (∀ k j, (k, j) ∈ vs →
     {| row_key := k; saved := Some j; version := Version (readRuntimeSettings defaults rows') |} ∈ rows').
Proof.
  assert (handleRuntimeSettings true read_ok defaults rows "PATCH" (Ok body) =
    (patchRuntimeSettings defaults rows vs,
     (handleRuntimeSettings true read_ok defaults rows "PATCH" (Ok body)).2)) as ->.
  { unfold handleRuntimeSettings. destruct body; [done|]. by rewrite Hv. }
  intros rows'. subst rows'. cbn [fst]. pose proof (patch_values_keys _ _ Hv) as Hkeys.
  assert (NoDup vs.*1) as Hnv by by rewrite Hkeys. rewrite !Version_max.
  pose proof (max_version_nonneg rows) as H0.
  assert (max_version (patchRuntimeSettings defaults rows vs) = max_version rows + 1)%Z as Hver.
  { apply Z.le_antisymm.
    - apply max_version_bound; [lia|]. apply Forall_forall. intros r [[Hr _]|(kv & _ & ->)]%patch_rows; [|simpl; lia|done].
      apply max_version_ge in Hr. lia.
    - destruct vs as [|kv vs]; [destruct body; done|].
      apply (max_version_ge _ {| row_key := kv.1; saved := Some kv.2; version := max_version rows + 1 |}).
      apply patch_rows; [done|]. right. exists kv. split; [by left|done]. }
  split_and!; [by apply patch_nodup|done|..].
  - intros r Hr. rewrite patch_rows, Hkeys by done. split; [|tauto].
    intros [[? _]|(kv & Hin & ->)]; [done|]. exfalso. apply Hr. rewrite <-Hkeys. simpl.
    by apply list_elem_of_fmap_2.
  - intros k j Hin. rewrite Hver. apply patch_rows; [done|]. right. by exists (k, j).
Qed.

Lemma patch_commits_witness :
  let rows' := (handleRuntimeSettings true true sample_defaults sample_rows "PATCH"
                  (Ok [("tools.deny", JArr []); ("send.rate_per_day", JNull)])).1 in
  Version (readRuntimeSettings sample_defaults rows') = 4%Z.
Proof.
  destruct (patch_commits true sample_defaults sample_rows
    [("tools.deny", JArr []); ("send.rate_per_day", JNull)]
    [("tools.deny", JArr []); ("send.rate_per_day", JNull)]) as (_ & Hver & _).
  - apply (bool_decide_unpack _). vm_compute. exact I.
  - apply (bool_decide_unpack _). vm_compute. exact I.
  - done.
  - vm_compute. reflexivity.
  - cbv zeta. etransitivity; [exact Hver|]. vm_compute. reflexivity.
Defined.

(** A value accepted by a PATCH is stored in a form the reader accepts and
    reads back as the same value: for every key, given for the chats that the
    normalised entries keep the entry grammar. *)
Theorem saved_values_reload (def : settingDefinition) (j : json) (v : value)
    (Hin : def ∈ settingDefinitions) (Hp : parse def j = Ok v)
    (Hc : key def = chatsKey → Forall (λ e, chatEntryPattern (trim_space e) = true) (strings_of v)) :
  parse def (json_of_value v) = Ok v.
Proof.
  destruct (decide (key def = chatsKey)) as [Hk|Hk].
  - assert (parse def = parse_chats) as Hparse.
    { apply find_definition_key in Hin. rewrite Hk in Hin. by injection Hin as <-. }
    rewrite Hparse in *. specialize (Hc Hk).
    assert (∃ es, v = VStrings es) as [es ->].
    { revert Hp. unfold parse_chats. repeat case_match; intros; simplify_eq; eauto. }
    by apply (chats_reload j).
  - pose proof definitions_reload as Hall. rewrite Forall_forall in Hall. by apply (Hall def Hin Hk j).
Qed.

Lemma saved_values_reload_witness :
  parse (hd (sendSetting "" "") settingDefinitions) (JArr [JStr "*@g.us"; JStr "5511@s.whatsapp.net"])
  = Ok (VStrings ["*@g.us"; "5511@s.whatsapp.net"]).
Proof.
  apply (saved_values_reload (hd (sendSetting "" "") settingDefinitions)
    (JArr [JStr "*@G.us"; JStr "5511:3@s.whatsapp.net"; JStr "5511"])
    (VStrings ["*@g.us"; "5511@s.whatsapp.net"])).
  - left.
  - vm_compute. reflexivity.
  - intros _. cbn [strings_of]. constructor; [|constructor; [|constructor]]; vm_compute; reflexivity.
Defined.

(** An entry whose user starts with the device separator is accepted and saved
    with an empty user, which the reader refuses: every chat is denied. *)
Lemma device_only_entry_locks_out :
  let rows := (handleRuntimeSettings true true sample_defaults [] "PATCH"
                 (Ok [(chatsKey, JArr [JStr "5511999990000"; JStr ":5@lid"])])).1 in
  map saved rows = [Some (JArr [JStr "5511999990000@s.whatsapp.net"; JStr "@lid"])]
  ∧ Allows (chats (readRuntimeSettings sample_defaults rows)) "5511999990000@s.whatsapp.net" = false.
Proof. vm_compute. done. Qed.
