(* ===== verification/SendLimits.v ===== *)
(** * Send budgets ([send_limits.go])

    The durable send accounting: a per-day counter, a per-minute token bucket,
    a budget of new conversations and a minimum interval.  [reserveSend]
    charges before the network call, [releaseSendReservation] refunds a proven
    non-delivery, [allowSend] is the gate of the sending handlers.

    Instants are UTC nanoseconds ([UnixNano]).  A date ([Format "2006-01-02"])
    is its day number.  Every floating-point operation is the exact rational
    operation followed by [rnd], the rounding of [float64]; [Float64] states
    the two facts of IEEE 754 rounding the proofs use. *)
From Stdlib Require Import QArith Qround.
From S2P Require Import Prelude Jid Http Config RuntimeSettings.
#[local] Open Scope Z_scope.

Class Float64 (rnd : Q → Q) : Prop := {
  rnd_mono x y : (x <= y)%Q → (rnd x <= rnd y)%Q;
  rnd_int z : Z.abs z ≤ 2 ^ 53 → (rnd (inject_Z z) == inject_Z z)%Q;
}.

(** ** The tables *)

(** The row of [send_usage]; [day = None] is the empty string. *)
Record usage_row := {
  row_day : option Z;
  row_today : Z;
  row_new_chats : Z;
  row_refusals : Z;
  row_tokens : Q;
  row_rate : Z;
  row_refill_ns : Z;
  row_last_send_ns : Z;
}.

(** The tables a reservation reads and writes: the usage row, the contacts
    written to, the refusal totals, and the chats that have a message. *)
Record send_db := {
  send_usage : option usage_row;
  send_contacts : gset string;
  send_refusals : gmap string Z;
  message_chats : gset string;
}.

Record sendState := {
  Day : option Z;
  Today : Z;
  DayLimit : Z;
  MinuteLimit : Z;
  NewChatsToday : Z;
  NewChatsLimit : Z;
  RefusalsToday : Z;
  MinIntervalMS : Z;
  ResetsAt : Z;
  tokens : Q;
  rate : Z;
  refill : Z;
  last : Z;
}.

Record sendReservation := {
  active : bool;
  rcpt_day : option Z;
  count : Z;
  fresh : Z;
  rcpt_last : Z;
  previousLast : Z;
  contacts : list string;
}.

(** The four limits in force. *)
Record send_limits := { lim_minute : Z; lim_day : Z; lim_new_chats : Z; lim_interval : Z }.

(** The limits of a snapshot; all off when there are no runtime settings. *)
Definition limits_of (defaults : option (gmap string runtimeSetting)) (rows : list row) : send_limits :=
  match defaults with
  | None => {| lim_minute := 0; lim_day := 0; lim_new_chats := 0; lim_interval := 0 |}
  | Some defaults =>
      let v k := int64_of (Value (setting (Settings (readRuntimeSettings defaults rows)) k)) in
      {| lim_minute := v "send.rate_per_minute"; lim_day := v "send.rate_per_day";
         lim_new_chats := v "send.new_chats_per_day"; lim_interval := v "send.min_interval_ms" |}
  end.

Definition limits_on (l : send_limits) : bool :=
  bool_decide (0 < lim_minute l) || bool_decide (0 < lim_day l)
  || bool_decide (0 < lim_new_chats l) || bool_decide (0 < lim_interval l).

Definition sendLimitsEnabled (snapshot : runtimeSettingsSnapshot) : bool :=
  existsb (λ k, match Settings snapshot !! k with
                | Some s => bool_decide (int64_of (Value s) > 0)
                | None => false
                end) send_keys.

Definition day_of (now : Z) : Z := now / day_ns.

Definition qmin (x y : Q) : Q := if Qle_bool x y then x else y.
Definition qmax (x y : Q) : Q := if Qle_bool y x then x else y.

Section SendLimits.
Context (rnd : Q → Q).

(** [float64(z)]. *)
Definition float (z : Z) : Q := rnd (inject_Z z).

Definition empty_usage : usage_row :=
  {| row_day := None; row_today := 0; row_new_chats := 0; row_refusals := 0; row_tokens := 0;
     row_rate := 0; row_refill_ns := 0; row_last_send_ns := 0 |}.

(** The bucket after the refill, before the cap. *)
Definition refilled (u : usage_row) (limit now : Z) : Q :=
  if Z.eqb (row_refill_ns u) 0 || Z.eqb (row_rate u) 0 then float limit
  else rnd (row_tokens u +
            rnd (qmax 0 (rnd (float (now - row_refill_ns u) / float minute_ns)) * float (row_rate u)))%Q.

(** [readSendState]: rolls the day over and refills the bucket. *)
Definition readSendState (l : send_limits) (usage : option usage_row) (now : Z) : sendState :=
  let u := default empty_usage usage in
  let rolled := negb (bool_decide (row_day u = Some (day_of now))) in
  {| Day := Some (day_of now);
     Today := if rolled then 0 else row_today u;
     DayLimit := lim_day l;
     MinuteLimit := lim_minute l;
     NewChatsToday := if rolled then 0 else row_new_chats u;
     NewChatsLimit := lim_new_chats l;
     RefusalsToday := if rolled then 0 else row_refusals u;
     MinIntervalMS := lim_interval l;
     ResetsAt := (day_of now + 1) * day_ns;
     tokens := qmin (refilled u (lim_minute l) now) (float (lim_minute l));
     rate := lim_minute l;
     refill := now;
     last := row_last_send_ns u |}.

(** The columns the upsert of [send_usage] writes. *)
Definition usage_of (s : sendState) : usage_row :=
  {| row_day := Day s; row_today := Today s; row_new_chats := NewChatsToday s;
     row_refusals := RefusalsToday s; row_tokens := tokens s; row_rate := rate s;
     row_refill_ns := refill s; row_last_send_ns := last s |}.

(** [Duration.Seconds]. *)
Definition seconds (d : Z) : Q :=
  rnd (inject_Z (Z.quot d second_ns) + rnd (inject_Z (Z.rem d second_ns) / inject_Z second_ns))%Q.

Section Targets.
Context `{JidOps}.

(** The other address of a user, or a store failure that aborts the send. *)
Definition target_twin (client : lid_store) (target : string) : result string string :=
  match ParseJID target with
  | Ok jid =>
      if String.eqb (Server jid) DefaultUserServer || String.eqb (Server jid) HiddenUserServer
      then match lookupAltJID client jid with
           | Ok alt => Ok (JIDString alt)
           | Err LIDStoreUnavailable => Ok (JIDString EmptyJID)
           | Err (StoreError e) => Err e
           end
      else Ok ""
  | Err _ => Ok ""
  end.

(** The loop over the targets: distinct targets, identities seen, new chats. *)
Fixpoint count_fresh (client : lid_store) (db : send_db) (targets : list string)
    (unique identities : gset string) (n : Z) : result string (gset string * Z) :=
  match targets with
  | [] => Ok (unique, n)
  | target :: rest =>
      if bool_decide (target ∈ unique) then count_fresh client db rest unique identities n
      else
        let unique := {[target]} ∪ unique in
        match target_twin client target with
        | Err e => Err e
        | Ok twin =>
            if bool_decide (target ∈ identities)
               || (negb (String.eqb twin "") && bool_decide (twin ∈ identities))
            then count_fresh client db rest unique identities n
            else
              let identities := {[target]} ∪ (if String.eqb twin "" then ∅ else {[twin]}) ∪ identities in
              let known := message_chats db ∪ send_contacts db in
              let exists_ := bool_decide (target ∈ known) || bool_decide (twin ∈ known) in
              count_fresh client db rest unique identities (if exists_ then n else n + 1)
        end
  end.

(** The first limit that refuses, with the seconds to wait ([None] for a batch
    that never fits). *)
Definition refusal_reason (s : sendState) (cnt fr now : Z) : option (string * option Q) :=
  let remaining := MinIntervalMS s * 1000000 - (now - last s) in
  if (bool_decide (0 < DayLimit s) && bool_decide (DayLimit s < cnt))
     || (bool_decide (0 < MinuteLimit s) && bool_decide (MinuteLimit s < cnt))
     || (bool_decide (0 < NewChatsLimit s) && bool_decide (NewChatsLimit s < fr))
  then Some ("limit_exceeds_batch", None)
  else if bool_decide (0 < DayLimit s) && bool_decide (DayLimit s < Today s + cnt)
  then Some ("per_day", Some (seconds (ResetsAt s - now)))
  else if bool_decide (0 < NewChatsLimit s) && bool_decide (NewChatsLimit s < NewChatsToday s + fr)
  then Some ("new_chats_per_day", Some (seconds (ResetsAt s - now)))
  else if bool_decide (0 < MinuteLimit s) && negb (Qle_bool (float cnt) (tokens s))
  then Some ("per_minute",
             Some (rnd (rnd (rnd (float cnt - tokens s) * inject_Z 60) / float (MinuteLimit s))%Q))
  else if bool_decide (0 < MinIntervalMS s) && bool_decide (0 < last s) && bool_decide (0 < remaining)
  then Some ("min_interval", Some (seconds remaining))
  else None.

(** [max(1, int(math.Ceil(seconds)))]; a batch refusal has no delay. *)
Definition retry_after (secs : option Q) : Z :=
  match secs with Some q => Z.max 1 (Qceiling q) | None => 0 end.

(** The accepted or refused reservation, or the failure with what is known of
    the limits. *)
Inductive reservation : Type :=
| Accepted (receipt : sendReservation)
| Refused (reason : string) (delay : Z).

Record sendReservationFailure := { known : bool; limitsEnabled : bool }.

(** Where the database fails, if it does: before the state was read, or at a
    later statement.  Either way the transaction rolls back. *)
Inductive fault : Type := NoFault | FaultBeforeRead | FaultAfterRead.

Definition bump (reason : string) (m : gmap string Z) : gmap string Z :=
  <[reason := default 0 (m !! reason) + 1]> m.

Definition refuse_state (s : sendState) : sendState :=
  {| Day := Day s; Today := Today s; DayLimit := DayLimit s; MinuteLimit := MinuteLimit s;
     NewChatsToday := NewChatsToday s; NewChatsLimit := NewChatsLimit s;
     RefusalsToday := RefusalsToday s + 1; MinIntervalMS := MinIntervalMS s; ResetsAt := ResetsAt s;
     tokens := tokens s; rate := rate s; refill := refill s; last := last s |}.

Definition charge (s : sendState) (cnt fr now : Z) : sendState :=
  {| Day := Day s; Today := Today s + cnt; DayLimit := DayLimit s; MinuteLimit := MinuteLimit s;
     NewChatsToday := NewChatsToday s + fr; NewChatsLimit := NewChatsLimit s;
     RefusalsToday := RefusalsToday s; MinIntervalMS := MinIntervalMS s; ResetsAt := ResetsAt s;
     tokens := rnd (tokens s - float cnt)%Q; rate := rate s; refill := refill s;
     last := Z.max now (last s + 1) |}.

Definition reserveSend (l : send_limits) (client : lid_store) (flt : fault) (now : Z)
    (targets : list string) (db : send_db) : send_db * result sendReservationFailure reservation :=
  let fail k := (db, Err {| known := k; limitsEnabled := k && limits_on l |}) in
  match flt with
  | FaultBeforeRead => fail false
  | _ =>
      let s := readSendState l (send_usage db) now in
      match count_fresh client db targets ∅ ∅ 0 with
      | Err _ => fail true
      | Ok (unique, fr) =>
          match flt with
          | NoFault =>
              let cnt := Z.of_nat (length targets) in
              match refusal_reason s cnt fr now with
              | Some (reason, secs) =>
                  ({| send_usage := Some (usage_of (refuse_state s)); send_contacts := send_contacts db;
                      send_refusals := bump reason (send_refusals db); message_chats := message_chats db |},
                   Ok (Refused reason (retry_after secs)))
              | None =>
                  let s' := charge s cnt fr now in
                  ({| send_usage := Some (usage_of s'); send_contacts := send_contacts db ∪ unique;
                      send_refusals := send_refusals db; message_chats := message_chats db |},
                   Ok (Accepted {| active := true; rcpt_day := Day s; count := cnt; fresh := fr;
                                   rcpt_last := last s'; previousLast := last s;
                                   contacts := elements (unique ∖ send_contacts db) |}))
              end
          | _ => fail true
          end
      end
  end.

End Targets.

(** [releaseSendReservation]; [None] when the database fails, which leaves
    tables and receipt as they were. *)
Definition released (s : sendState) (r : sendReservation) : sendState :=
  let same_day := bool_decide (Day s = rcpt_day r) in
  let newest := bool_decide (last s = rcpt_last r) in
  {| Day := Day s;
     Today := if same_day then Z.max 0 (Today s - count r) else Today s;
     DayLimit := DayLimit s; MinuteLimit := MinuteLimit s;
     NewChatsToday := if newest && same_day then Z.max 0 (NewChatsToday s - fresh r) else NewChatsToday s;
     NewChatsLimit := NewChatsLimit s; RefusalsToday := RefusalsToday s;
     MinIntervalMS := MinIntervalMS s; ResetsAt := ResetsAt s;
     tokens := if newest then qmin (float (MinuteLimit s)) (rnd (tokens s + float (count r))) else tokens s;
     rate := rate s; refill := refill s;
     last := if newest then previousLast r else last s |}.

Definition releaseSendReservation (l : send_limits) (now : Z) (r : sendReservation) (db : send_db) : send_db :=
  let s := readSendState l (send_usage db) now in
  {| send_usage := match send_usage db with
                   | Some _ => Some (usage_of (released s r))
                   | None => None  (* the UPDATE matches no row *)
                   end;
     send_contacts := if bool_decide (last s = rcpt_last r)
                      then send_contacts db ∖ list_to_set (contacts r) else send_contacts db;
     send_refusals := send_refusals db; message_chats := message_chats db |}.

(** [releaseSend]: a receipt is refunded at most once; [ok] says whether the
    database accepts the transaction. *)
Definition releaseSend (ok : bool) (l : send_limits) (now : Z) (r : sendReservation) (db : send_db) :
    send_db * sendReservation :=
  if negb (active r) || negb ok then (db, r)
  else (releaseSendReservation l now r db,
        {| active := false; rcpt_day := rcpt_day r; count := count r; fresh := fresh r;
           rcpt_last := rcpt_last r; previousLast := previousLast r; contacts := contacts r |}).

(** [allowSend]: whether the handler may send, and the refusal otherwise.
    Without a store and without settings there is nothing to count.
    [snapshot] is the settings read for the request ([Err] when it failed),
    [res] what [reserveSend] returned, [live] the settings read again when the
    reservation failed before it knew the limits. *)
Inductive send_gate : Type :=
| SendAllowed (receipt : option sendReservation)
| SendDenied (r : Http.reply) (retry : option Z).

Definition allowSend (no_store with_settings : bool) (snapshot : result unit runtimeSettingsSnapshot)
    (res : result sendReservationFailure reservation) (live : result unit runtimeSettingsSnapshot) : send_gate :=
  let unavailable m := SendDenied (Http.writeErrorCode 503 "send_usage_unavailable" m) None in
  if no_store && negb with_settings then SendAllowed None
  else match (if with_settings then snapshot else Ok {| Version := 0; Settings := ∅;
           policy := {| ToolPolicy.allow := ∅; ToolPolicy.deny := ∅; ToolPolicy.allowLabel := "";
                        ToolPolicy.denyLabels := ∅ |}; chats := ChatPolicy.zero_policy |}) with
  | Err _ => unavailable "Send limits unavailable; do not send"
  | Ok snap =>
      match res with
      | Err failure =>
          let enabled := if known failure then limitsEnabled failure
                         else if with_settings
                         then match live with Ok s => sendLimitsEnabled s | Err _ => true end
                         else sendLimitsEnabled snap in
          if negb enabled then SendAllowed None
          else unavailable "Send budget unavailable; do not send"
      | Ok (Refused reason delay) =>
          if String.eqb reason "limit_exceeds_batch"
          then SendDenied (Http.writeErrorCode 429 "send_rate_limited"
                 "Batch exceeds a send limit; split the batch before sending") None
          else SendDenied (Http.writeErrorCode 429 "send_rate_limited"
                 "Send limit reached; stop and report to the operator instead of retrying") (Some delay)
      | Ok (Accepted r) => SendAllowed (Some r)
      end
  end.

End SendLimits.

(** ** The rounding laws hold of exact arithmetic *)

Lemma exact_float : Float64 (λ q, q).
Proof. split; [done|]. intros. reflexivity. Qed.

(** ** Lemmas *)

Section Laws.
Context (rnd : Q → Q) (HF : Float64 rnd).

Lemma float_int z : Z.abs z ≤ 2 ^ 53 → (float rnd z == inject_Z z)%Q.
Proof. apply rnd_int. Qed.

Lemma rnd_nonneg x : (0 <= x)%Q → (0 <= rnd x)%Q.
Proof.
  intros Hx. apply rnd_mono in Hx. change 0%Q with (inject_Z 0) in Hx at 1.
  rewrite rnd_int in Hx by done. done.
Qed.

Lemma float_nonneg z : 0 ≤ z → (0 <= float rnd z)%Q.
Proof. intros. apply rnd_nonneg. by rewrite Zle_Qle in H. Qed.

Lemma qmin_le_r x y : (qmin x y <= y)%Q.
Proof. unfold qmin. destruct (Qle_bool x y) eqn:E; [by apply Qle_bool_iff|apply Qle_refl]. Qed.

Lemma qmin_le_l x y : (qmin x y <= x)%Q.
Proof.
  unfold qmin. destruct (Qle_bool x y) eqn:E; [apply Qle_refl|].
  apply Qlt_le_weak, Qnot_le_lt. rewrite <-Qle_bool_iff. congruence.
Qed.

Lemma qmin_glb z x y : (z <= x)%Q → (z <= y)%Q → (z <= qmin x y)%Q.
Proof. unfold qmin. by destruct (Qle_bool x y). Qed.

Lemma qmax_nonneg x : (0 <= qmax 0 x)%Q.
Proof.
  unfold qmax. destruct (Qle_bool x 0) eqn:E; [apply Qle_refl|].
  apply Qlt_le_weak, Qnot_le_lt. rewrite <-Qle_bool_iff. congruence.
Qed.

(** ** The invariant of the usage row *)

(** Limits as the settings produce them: 32-bit, non-negative. *)
Definition limits_ok (l : send_limits) : Prop :=
  0 ≤ lim_minute l ≤ 2147483647 ∧ 0 ≤ lim_day l ≤ 2147483647 ∧
  0 ≤ lim_new_chats l ≤ 2147483647 ∧ 0 ≤ lim_interval l ≤ 2147483647.

Record usage_ok (u : usage_row) : Prop := {
  today_nonneg : 0 ≤ row_today u;
  new_chats_nonneg : 0 ≤ row_new_chats u;
  refusals_nonneg : 0 ≤ row_refusals u;
  rate_range : 0 ≤ row_rate u ≤ 2147483647;
  bucket_ok : 0 < row_rate u → (0 <= row_tokens u)%Q ∧ (row_tokens u <= inject_Z (row_rate u))%Q;
  last_nonneg : 0 ≤ row_last_send_ns u;
}.

Lemma empty_usage_ok : usage_ok empty_usage.
Proof. by split. Qed.

Definition db_ok (db : send_db) : Prop := usage_ok (default empty_usage (send_usage db)).

Lemma refilled_nonneg u limit now : usage_ok u → 0 ≤ limit → (0 <= refilled rnd u limit now)%Q.
Proof.
  intros Hu Hl. unfold refilled.
  destruct (Z.eqb_spec (row_refill_ns u) 0); simpl; [by apply float_nonneg|].
  destruct (Z.eqb_spec (row_rate u) 0); simpl; [by apply float_nonneg|].
  destruct Hu as [_ _ _ Hr Hb _]. destruct (Hb ltac:(lia)) as [Ht _].
  apply rnd_nonneg. apply (Qle_trans _ (0 + 0)%Q); [done|]. apply Qplus_le_compat; [done|].
  apply rnd_nonneg, Qmult_le_0_compat; [apply qmax_nonneg|apply float_nonneg; lia].
Qed.

Lemma read_tokens l u now :
  limits_ok l → usage_ok (default empty_usage u) →
  let s := readSendState rnd l u now in
  (0 <= tokens s)%Q ∧ (tokens s <= inject_Z (MinuteLimit s))%Q.
Proof.
  intros (Hm & _) Hu. simpl. split.
  - apply qmin_glb; [apply refilled_nonneg|apply float_nonneg]; (done || lia).
  - rewrite <-float_int by lia. apply qmin_le_r.
Qed.

Lemma read_nonneg l u now :
  usage_ok (default empty_usage u) →
  let s := readSendState rnd l u now in
  0 ≤ Today s ∧ 0 ≤ NewChatsToday s ∧ 0 ≤ RefusalsToday s ∧ 0 ≤ last s.
Proof. intros []. simpl. destruct (negb _); lia. Qed.

Section Reserve.
Context `{JidOps}.

Lemma count_fresh_mono client db targets unique identities n unique' n' :
  count_fresh client db targets unique identities n = Ok (unique', n') → n ≤ n'.
Proof.
  revert unique identities n. induction targets as [|t ts IH]; simpl; intros unique identities n; [by intros; simplify_eq|].
  repeat case_match; try done; intros ?%IH; lia.
Qed.

Lemma count_fresh_unique client db targets unique identities n unique' n' :
  count_fresh client db targets unique identities n = Ok (unique', n') →
  unique' = list_to_set targets ∪ unique.
Proof.
  clear HF rnd.
  revert unique identities n. induction targets as [|t ts IH]; simpl; intros unique identities n.
  { intros; simplify_eq. set_solver. }
  case_bool_decide as Ht.
  - intros ->%IH. set_solver.
  - repeat case_match; try done; intros ->%IH; set_solver.
Qed.

(** Conversations already written to are not new. *)
Lemma count_fresh_known client db targets unique identities n unique' n' :
  list_to_set targets ⊆ send_contacts db →
  count_fresh client db targets unique identities n = Ok (unique', n') → n' = n.
Proof.
  clear HF rnd.
  revert unique identities n. induction targets as [|t ts IH]; simpl; intros unique identities n Hsub.
  { intros; by simplify_eq. }
  assert (bool_decide (t ∈ message_chats db ∪ send_contacts db) = true) as Ht
    by (apply bool_decide_eq_true; set_solver).
  rewrite Ht. simpl. assert (list_to_set ts ⊆ send_contacts db) by set_solver.
  repeat case_match; try done; by apply IH.
Qed.

Lemma refusal_None s cnt fr now :
  refusal_reason rnd s cnt fr now = None →
  (0 < DayLimit s → Today s + cnt ≤ DayLimit s) ∧
  (0 < NewChatsLimit s → NewChatsToday s + fr ≤ NewChatsLimit s) ∧
  (0 < MinuteLimit s → cnt ≤ MinuteLimit s ∧ (float rnd cnt <= tokens s)%Q) ∧
  (0 < MinIntervalMS s → 0 < last s → MinIntervalMS s * 1000000 ≤ now - last s).
Proof.
  unfold refusal_reason. intros Hr.
  repeat match type of Hr with
  | (if ?b then _ else _) = _ => let E := fresh "E" in destruct b eqn:E; [done|]
  end.
  rewrite ?orb_false_iff, ?andb_false_iff, ?bool_decide_eq_false, ?negb_false_iff, ?Qle_bool_iff in *.
  split_and!; intros; try (destruct_and!; destruct_or!; lia).
  destruct_and!. split; [destruct_or!; lia|]. destruct E2; [lia|done].
Qed.

Lemma charge_ok l db cnt fr now :
  limits_ok l → db_ok db → 0 ≤ now → 0 ≤ cnt → 0 ≤ fr →
  let s := readSendState rnd l (send_usage db) now in
  refusal_reason rnd s cnt fr now = None → usage_ok (usage_of (charge rnd s cnt fr now)).
Proof.
  intros Hl Hdb Hnow Hc Hf s Hr. destruct (read_nonneg l _ now Hdb) as (H1 & H2 & H3 & H4).
  destruct (read_tokens l _ now Hl Hdb) as [Ht0 Ht1].
  destruct (refusal_None _ _ _ _ Hr) as (_ & _ & Hm & _). fold s in H1, H2, H3, H4, Ht0, Ht1.
  assert (rate s = lim_minute l ∧ MinuteLimit s = lim_minute l) as [Hrate Hml] by done. clearbody s.
  assert (0 ≤ lim_minute l ≤ 2147483647) as Hlm by (by destruct Hl).
  split; simpl; rewrite ?Hrate; try lia. intros Hpos. rewrite Hml in Ht1.
  destruct Hm as [_ Hcnt]; [lia|].
  assert (0 <= float rnd cnt)%Q by by apply float_nonneg.
  split; [apply rnd_nonneg; by apply -> Qle_minus_iff|].
  rewrite <-(rnd_int (lim_minute l)) by (destruct Hl; lia). apply rnd_mono.
  apply (Qle_trans _ (tokens s)); [|done]. apply Qle_minus_iff. ring_simplify. done.
Qed.

Lemma refuse_ok l db now :
  limits_ok l → db_ok db → usage_ok (usage_of (refuse_state (readSendState rnd l (send_usage db) now))).
Proof.
  intros Hl Hdb. destruct (read_nonneg l _ now Hdb) as (H1 & H2 & H3 & H4).
  destruct (read_tokens l _ now Hl Hdb) as [Ht0 Ht1]. simpl in *.
  split; simpl; try lia; [destruct Hl; lia|]. done.
Qed.

Lemma reserve_ok l client flt now targets db :
  limits_ok l → db_ok db → 0 ≤ now → db_ok (reserveSend rnd l client flt now targets db).1.
Proof.
  intros Hl Hdb Hnow. unfold reserveSend. destruct flt; [|done|case_match; [case_match|]; done].
  destruct (count_fresh _ _ _ _ _ _) as [[unique fr]|] eqn:Hcf; [|done].
  apply count_fresh_mono in Hcf. destruct (refusal_reason _ _ _ _ _) as [[reason secs]|] eqn:Hr.
  - by apply refuse_ok.
  - apply charge_ok; (done || lia).
Qed.

(** What an accepted reservation leaves behind. *)
Lemma reserve_accepted l client flt now targets db db' r :
  reserveSend rnd l client flt now targets db = (db', Ok (Accepted r)) →
  let s := readSendState rnd l (send_usage db) now in
  ∃ unique fr, count_fresh client db targets ∅ ∅ 0 = Ok (unique, fr) ∧
    refusal_reason rnd s (Z.of_nat (length targets)) fr now = None ∧
    let s' := charge rnd s (Z.of_nat (length targets)) fr now in
    db' = {| send_usage := Some (usage_of s'); send_contacts := send_contacts db ∪ unique;
             send_refusals := send_refusals db; message_chats := message_chats db |} ∧
    r = {| active := true; rcpt_day := Day s; count := Z.of_nat (length targets); fresh := fr;
           rcpt_last := last s'; previousLast := last s;
           contacts := elements (unique ∖ send_contacts db) |}.
Proof.
  intros Hr s. unfold reserveSend in Hr. destruct flt; [|done|repeat case_match; done].
  destruct (count_fresh _ _ _ _ _ _) as [[unique fr]|] eqn:Hcf; [|done].
  exists unique, fr. split; [done|]. fold s in Hr.
  destruct (refusal_reason _ _ _ _ _) as [[reason secs]|] eqn:Hrr; [done|].
  split; [done|]. by simplify_eq.
Qed.

(** The other outcomes change no charge. *)
Lemma reserve_not_accepted l client flt now targets db db' res :
  reserveSend rnd l client flt now targets db = (db', res) →
  (∀ r, res ≠ Ok (Accepted r)) →
  let s := readSendState rnd l (send_usage db) now in
  db' = db ∨ (send_usage db' = Some (usage_of (refuse_state s)) ∧ send_contacts db' = send_contacts db
              ∧ message_chats db' = message_chats db).
Proof.
  intros Hr Hna s. unfold reserveSend in Hr. destruct flt; [|simplify_eq; by left|repeat case_match; simplify_eq; by left].
  destruct (count_fresh _ _ _ _ _ _) as [[unique fr]|] eqn:Hcf; [|simplify_eq; by left].
  fold s in Hr. destruct (refusal_reason _ _ _ _ _) as [[reason secs]|] eqn:Hrr; simplify_eq; [by right|].
  by destruct (Hna _ eq_refl).
Qed.

End Reserve.

Lemma release_ok l now r db :
  limits_ok l → db_ok db → 0 ≤ count r → 0 ≤ previousLast r → db_ok (releaseSendReservation rnd l now r db).
Proof.
  intros Hl Hdb Hc Hp. unfold releaseSendReservation, db_ok. simpl.
  destruct (read_nonneg l _ now Hdb) as (H1 & H2 & H3 & H4).
  destruct (read_tokens l _ now Hl Hdb) as [Ht0 Ht1]. revert H1 H2 H3 H4 Ht0 Ht1.
  destruct (send_usage db) as [u|] eqn:Hu; [|intros; exact empty_usage_ok]. cbn [default option_map].
  set (s := readSendState _ _ _ _).
  assert (0 ≤ lim_minute l ≤ 2147483647) as Hm by (by destruct Hl).
  assert (rate s = lim_minute l ∧ MinuteLimit s = lim_minute l) as [Hrate Hml] by done. clearbody s.
  intros. rewrite Hml in *. split; simpl; rewrite ?Hrate, ?Hml.
  - case_bool_decide; lia.
  - repeat case_bool_decide; simpl; lia.
  - done.
  - done.
  - intros _. case_bool_decide; [|done]. split.
    + apply qmin_glb; [apply float_nonneg; lia|]. apply rnd_nonneg.
      apply (Qle_trans _ (0 + 0)%Q); [done|]. apply Qplus_le_compat; [done|by apply float_nonneg].
    + eapply Qle_trans; [apply qmin_le_l|]. rewrite float_int by lia. apply Qle_refl.
  - case_bool_decide; lia.
Qed.

End Laws.

(** A refund on the day of the usage row. *)
Lemma release_same_day rnd l u now r contacts0 refusals chats0 :
  row_day u = Some (day_of now) → rcpt_day r = Some (day_of now) →
  let db := releaseSendReservation rnd l now r
              {| send_usage := Some u; send_contacts := contacts0; send_refusals := refusals;
                 message_chats := chats0 |} in
  let newest := bool_decide (row_last_send_ns u = rcpt_last r) in
  ∃ u', send_contacts db = (if newest then contacts0 ∖ list_to_set (contacts r) else contacts0) ∧
    send_usage db = Some u' ∧ row_today u' = Z.max 0 (row_today u - count r) ∧
    row_new_chats u' = (if newest then Z.max 0 (row_new_chats u - fresh r) else row_new_chats u) ∧
    row_last_send_ns u' = (if newest then previousLast r else row_last_send_ns u).
Proof.
  intros Hd Hr db newest. unfold db, releaseSendReservation.
  set (s := readSendState rnd l _ now). cbn [send_usage] in s.
  assert (Day s = Some (day_of now) ∧ Today s = row_today u ∧ NewChatsToday s = row_new_chats u
          ∧ last s = row_last_send_ns u) as (H1 & H2 & H3 & H4).
  { unfold s. simpl. by rewrite Hd, bool_decide_eq_true_2 by done. }
  clearbody s. eexists. cbn [send_contacts send_usage]. split; [by rewrite H4|]. split; [done|].
  unfold released, newest. cbn [usage_of row_today row_new_chats row_last_send_ns Today NewChatsToday last].
  rewrite H1, H2, H3, H4, Hr, (bool_decide_eq_true_2 (Some (day_of now) = _)), andb_true_r by done. done.
Qed.

(** ** Limits of the settings *)

Lemma limits_of_ok getenv defaults rows :
  runtimeDefaults getenv = Ok defaults → limits_ok (limits_of (Some defaults) rows).
Proof.
  intros Hd%runtimeDefaults_typed. unfold limits_ok, limits_of. cbn [lim_minute lim_day lim_new_chats lim_interval].
  assert (∀ k, k ∈ send_keys →
    0 ≤ int64_of (Value (setting (Settings (readRuntimeSettings defaults rows)) k)) ≤ 2147483647) as Hk.
  { intros k Hk. pose proof (snapshot_typed defaults Hd rows) as Ht.
    pose proof (well_typed_setting _ k Ht (send_keys_known k Hk)) as Hv.
    destruct (typed_int64 k _ Hk Hv) as (z & Hz & _). rewrite Hz in *. simpl in *. by bool_split. }
  revert Hk. generalize (Settings (readRuntimeSettings defaults rows)). intros m Hk.
  repeat split; apply Hk; apply (bool_decide_unpack _); vm_compute; exact I.
Qed.

Lemma enabled_limits defaults rows :
  sendLimitsEnabled (readRuntimeSettings defaults rows) = limits_on (limits_of (Some defaults) rows).
Proof.
  assert (∀ k, match Settings (readRuntimeSettings defaults rows) !! k with
               | Some s => bool_decide (int64_of (Value s) > 0)
               | None => false
               end = bool_decide (0 < int64_of (Value (setting (Settings (readRuntimeSettings defaults rows)) k)))) as Hk.
  { intros k. unfold setting. case_match; simpl; [apply bool_decide_ext; lia|done]. }
  unfold sendLimitsEnabled, limits_on, limits_of, send_keys. cbn [existsb lim_minute lim_day lim_new_chats lim_interval].
  rewrite !Hk, orb_false_r, !orb_assoc. done.
Qed.

(** ** Histories of reservations and refunds *)

(** The tables, the last clock reading, and the receipts accepted and not
    refunded. *)
Record ledger := { l_db : send_db; l_now : Z; outstanding : list sendReservation }.

Definition charged (d : Z) (out : list sendReservation) : Z :=
  foldr (λ r n, (if bool_decide (rcpt_day r = Some d) then count r else 0) + n) 0 out.

Inductive send_step `{JidOps} (rnd : Q → Q) : ledger → ledger → Prop :=
| step_accept l client flt now targets g db' r :
    limits_ok l → l_now g ≤ now →
    reserveSend rnd l client flt now targets (l_db g) = (db', Ok (Accepted r)) →
    send_step rnd g {| l_db := db'; l_now := now; outstanding := r :: outstanding g |}
| step_refuse l client flt now targets g db' res :
    limits_ok l → l_now g ≤ now → (∀ r, res ≠ Ok (Accepted r)) →
    reserveSend rnd l client flt now targets (l_db g) = (db', res) →
    send_step rnd g {| l_db := db'; l_now := now; outstanding := outstanding g |}
| step_release l now g out1 r out2 :
    limits_ok l → l_now g ≤ now → outstanding g = out1 ++ r :: out2 →
    send_step rnd g {| l_db := releaseSendReservation rnd l now r (l_db g); l_now := now;
                       outstanding := out1 ++ out2 |}.

Definition receipt_ok (d : Z) (r : sendReservation) : Prop :=
  (∃ d', rcpt_day r = Some d' ∧ d' ≤ d) ∧ 0 ≤ count r ∧ 0 ≤ previousLast r.

(** The day counter covers every charge of the current day. *)
Record ledger_inv (g : ledger) : Prop := {
  inv_db : db_ok (l_db g);
  inv_now : 0 ≤ l_now g;
  inv_row : match send_usage (l_db g) with
            | Some u => ∃ d, row_day u = Some d ∧ d ≤ day_of (l_now g) ∧
                Forall (receipt_ok d) (outstanding g) ∧ charged d (outstanding g) ≤ row_today u
            | None => outstanding g = []
            end;
}.

Lemma day_of_mono a b : a ≤ b → day_of a ≤ day_of b.
Proof. intros. apply Z.div_le_mono; [done|lia]. Qed.

Lemma receipt_ok_mono d d' r : d ≤ d' → receipt_ok d r → receipt_ok d' r.
Proof. intros Hd [(x & ? & ?) ?]. split; [|done]. exists x. split; [done|lia]. Qed.

Lemma charged_later d d' out : d < d' → Forall (receipt_ok d) out → charged d' out = 0.
Proof.
  intros Hd. induction 1 as [|r out [(x & Hx & ?) _] _ IH]; simpl; [done|].
  rewrite bool_decide_eq_false_2, IH; [done|]. rewrite Hx. intros [=]. lia.
Qed.

Lemma charged_app d out1 out2 : charged d (out1 ++ out2) = charged d out1 + charged d out2.
Proof. induction out1 as [|r out1 IH]; simpl; [done|]. rewrite IH. lia. Qed.

Lemma charged_nonneg d d' out : Forall (receipt_ok d) out → 0 ≤ charged d' out.
Proof. induction 1 as [|r out (_ & ? & _) _ IH]; simpl; [done|]. case_bool_decide; lia. Qed.

(** After the day roll-over the counter covers the charges of today. *)
Lemma read_covers rnd l g now :
  ledger_inv g → l_now g ≤ now →
  let s := readSendState rnd l (send_usage (l_db g)) now in
  Forall (receipt_ok (day_of now)) (outstanding g) ∧ charged (day_of now) (outstanding g) ≤ Today s.
Proof.
  intros [Hdb Hnow Hrow] Hle. simpl. pose proof (day_of_mono _ _ Hle) as Hday.
  destruct (send_usage (l_db g)) as [u|]; simpl in *; [|rewrite Hrow; done].
  destruct Hrow as (d & Hd & Hdle & Hall & Hcov). rewrite Hd. split.
  { eapply Forall_impl; [exact Hall|]. intros r. apply receipt_ok_mono. lia. }
  case_bool_decide; simplify_eq; simpl; [done|]. rewrite (charged_later d); [done| |done].
  assert (d ≠ day_of now) by congruence. lia.
Qed.

Section Histories.
Context `{JidOps} (rnd : Q → Q) (HF : Float64 rnd).

Lemma send_step_inv g g' : ledger_inv g → send_step rnd g g' → ledger_inv g'.
Proof.
  intros Hg Hstep. pose proof Hg as [Hdb Hnow Hrow].
  destruct Hstep as [l client flt now targets g db' r Hl Hle Hr|l client flt now targets g db' res Hl Hle Hna Hr
    |l now g out1 r out2 Hl Hle Hout]; destruct (read_covers rnd l g now Hg Hle) as [Hall Hcov].
  - pose proof (reserve_ok rnd HF l client flt now targets (l_db g) Hl Hdb ltac:(lia)) as Hok. rewrite Hr in Hok.
    destruct (reserve_accepted _ _ _ _ _ _ _ _ _ Hr) as (unique & fr & _ & _ & -> & ->).
    pose proof (read_nonneg rnd l (send_usage (l_db g)) now Hdb) as (_ & _ & _ & Hlast).
    split; [done|simpl; lia|]. simpl in *. exists (day_of now). split_and!; [done..| |].
    + constructor; [|done]. split_and!; simpl; [exists (day_of now); split; [done|lia]|lia|lia].
    + rewrite bool_decide_eq_true_2 by done. lia.
  - pose proof (reserve_ok rnd HF l client flt now targets (l_db g) Hl Hdb ltac:(lia)) as Hok. rewrite Hr in Hok.
    split; [done|simpl; lia|]. simpl in *.
    destruct (reserve_not_accepted _ _ _ _ _ _ _ _ _ Hr Hna) as [->|(-> & _)].
    + destruct (send_usage (l_db g)) as [u|]; [|done]. destruct Hrow as (d & ? & ? & ? & ?).
      exists d. split_and!; try done. pose proof (day_of_mono _ _ Hle). lia.
    + exists (day_of now). by split_and!.
  - rewrite Hout in *. apply Forall_app in Hall as [Hall1 [Hr Hall2]%Forall_cons].
    destruct Hr as (Hday & Hcount & Hprev).
    split; [by apply release_ok|simpl; lia|]. simpl in *.
    destruct (send_usage (l_db g)) as [u|]; [|by destruct out1].
    exists (day_of now). split_and!; [done..|by apply Forall_app|].
    rewrite charged_app in *. simpl in Hcov |- *.
    pose proof (charged_nonneg _ (day_of now) _ Hall1). pose proof (charged_nonneg _ (day_of now) _ Hall2).
    rewrite (bool_decide_ext (rcpt_day r = Some (day_of now)) (Some (day_of now) = rcpt_day r)) in Hcov by naive_solver.
    repeat case_bool_decide; lia.
Qed.

Lemma send_steps_inv g g' : ledger_inv g → rtc (send_step rnd) g g' → ledger_inv g'.
Proof. intros Hg Hsteps. induction Hsteps; eauto using send_step_inv. Qed.

End Histories.

(** ** Properties *)

(** A database no send was charged to. *)
Definition new_db (chats : gset string) : send_db :=
  {| send_usage := None; send_contacts := ∅; send_refusals := ∅; message_chats := chats |}.

(** [C9] In every history of reservations, refusals and refunds under any limits,
    a reservation is accepted only if the messages charged and not refunded on
    that UTC day, the new ones included, stay within the daily limit. *)
Theorem day_budget_respected `{JidOps} (rnd : Q → Q) (HF : Float64 rnd) (known_chats : gset string) (now0 : Z)
    (g : ledger) (l : send_limits) (client : lid_store) (flt : fault) (now : Z)
    (targets : list string) (db' : send_db) (r : sendReservation)
    (H0 : 0 ≤ now0)
    (Hg : rtc (send_step rnd) {| l_db := new_db known_chats; l_now := now0; outstanding := [] |} g)
    (Hnow : l_now g ≤ now) (Hday : 0 < lim_day l)
    (Hr : reserveSend rnd l client flt now targets (l_db g) = (db', Ok (Accepted r))) :
  charged (day_of now) (r :: outstanding g) ≤ lim_day l.
Proof.
  assert (ledger_inv g) as Hinv.
  { eapply send_steps_inv; [done| |exact Hg]. split; [exact empty_usage_ok|done|done]. }
  destruct (read_covers rnd l g now Hinv Hnow) as [_ Hcov].
  destruct (reserve_accepted _ _ _ _ _ _ _ _ _ Hr) as (unique & fr & _ & Hnone & -> & ->).
  destruct (refusal_None _ _ _ _ _ Hnone) as (Hd & _). simpl in *. specialize (Hd Hday).
  rewrite bool_decide_eq_true_2 by done. lia.
Qed.

Definition sample_limits : send_limits :=
  {| lim_minute := 2; lim_day := 3; lim_new_chats := 1; lim_interval := 500 |}.

(** A receipt for one message to a new chat, at the given instant. *)
Definition sample_receipt (now : Z) : sendReservation :=
  {| active := true; rcpt_day := Some (day_of now); count := 1; fresh := 1; rcpt_last := now;
     previousLast := 0; contacts := ["group"] |}.

Lemma day_budget_respected_witness :
  charged (day_of 7) [sample_receipt 7] ≤ 3.
Proof.
  apply (day_budget_respected (H := RefJid.ops) (λ q, q) exact_float ∅ 5
    {| l_db := new_db ∅; l_now := 5; outstanding := [] |}
    sample_limits None NoFault 7 ["group"]
    (reserveSend (H := RefJid.ops) (λ q, q) sample_limits None NoFault 7 ["group"] (new_db ∅)).1
    (sample_receipt 7)).
  - lia.
  - apply rtc_refl.
  - simpl. lia.
  - simpl. lia.
  - vm_compute. reflexivity.
Defined.

(** An accepted reservation respects every limit in force when it was
    read: the day, the new conversations, the minute bucket and the minimum
    interval since the last send; it advances the send clock and remembers
    every conversation. *)
Theorem accepted_within_limits `{JidOps} (rnd : Q → Q) (l : send_limits) (client : lid_store)
    (flt : fault) (now : Z) (targets : list string) (db db' : send_db) (r : sendReservation)
    (Hr : reserveSend rnd l client flt now targets db = (db', Ok (Accepted r))) :
  let s := readSendState rnd l (send_usage db) now in
  ∃ u, send_usage db' = Some u ∧
    (0 < lim_day l → row_today u ≤ lim_day l) ∧
    (0 < lim_new_chats l → row_new_chats u ≤ lim_new_chats l) ∧
    (0 < lim_minute l → (float rnd (count r) <= tokens s)%Q) ∧
    (0 < lim_interval l → 0 < last s → lim_interval l * 1000000 ≤ now - last s) ∧
    last s < row_last_send_ns u ∧ now ≤ row_last_send_ns u ∧
    send_contacts db' = send_contacts db ∪ list_to_set targets.
Proof.
  destruct (reserve_accepted _ _ _ _ _ _ _ _ _ Hr) as (unique & fr & Hcf & Hnone & -> & ->).
  destruct (refusal_None _ _ _ _ _ Hnone) as (Hd & Hn & Hm & Hi).
  eexists. split; [done|]. simpl in *. split_and!; [done..|by apply Hm|done|lia|lia|].
  apply count_fresh_unique in Hcf as ->. set_solver.
Qed.

Lemma accepted_within_limits_witness :
  let db' := (reserveSend (H := RefJid.ops) (λ q, q) sample_limits None NoFault 7 ["group"] (new_db ∅)).1 in
  send_contacts db' = send_contacts (new_db ∅) ∪ list_to_set ["group"].
Proof.
  intros db'.
  destruct (accepted_within_limits (H := RefJid.ops) (λ q, q) sample_limits None NoFault 7 ["group"]
    (new_db ∅) db' (sample_receipt 7)) as (u & _ & _ & _ & _ & _ & _ & _ & Hc);
    [vm_compute; reflexivity|exact Hc].
Defined.

(** Writing twice to the same conversations charges the new-conversation
    budget once: after an accepted reservation the same targets count no new
    conversation, whatever happens to the phone/LID map in between. *)
Theorem new_chat_charged_once `{JidOps} (rnd : Q → Q) (l : send_limits) (client client' : lid_store)
    (flt : fault) (now : Z) (targets : list string) (db db' : send_db) (r : sendReservation)
    (unique : gset string) (n : Z)
    (Hr : reserveSend rnd l client flt now targets db = (db', Ok (Accepted r)))
    (Hc : count_fresh client' db' targets ∅ ∅ 0 = Ok (unique, n)) : n = 0.
Proof.
  destruct (reserve_accepted _ _ _ _ _ _ _ _ _ Hr) as (unique' & fr & Hcf & _ & -> & _).
  apply count_fresh_unique in Hcf as ->. apply count_fresh_known in Hc; [done|]. simpl. set_solver.
Qed.

Lemma new_chat_charged_once_witness :
  let db' := (reserveSend (H := RefJid.ops) (λ q, q) sample_limits None NoFault 7 ["group"] (new_db ∅)).1 in
  ∃ n, count_fresh (H := RefJid.ops) None db' ["group"; "group"] ∅ ∅ 0 = Ok ({["group"]}, n) ∧ n = 0.
Proof.
  intros db'. exists 0. split; [vm_compute; reflexivity|].
  apply (new_chat_charged_once (H := RefJid.ops) (λ q, q) sample_limits None None NoFault 7 ["group"]
    (new_db ∅) db' (sample_receipt 7) {["group"]} 0); vm_compute; reflexivity.
Defined.

(** Refunding the newest reservation on the same day restores the counters,
    the send clock and the contacts exactly; refunding an older one only lowers
    the day counter and leaves what a later reservation may depend on. *)
Theorem release_refunds `{JidOps} (rnd : Q → Q) (HF : Float64 rnd) (l l' : send_limits) (client : lid_store)
    (flt : fault) (now now' : Z) (targets : list string) (db db' : send_db) (r : sendReservation)
    (Hdb : db_ok db) (Hr : reserveSend rnd l client flt now targets db = (db', Ok (Accepted r)))
    (Hday : day_of now' = day_of now) :
  let s := readSendState rnd l (send_usage db) now in
  (let db'' := releaseSendReservation rnd l' now' r db' in
   send_contacts db'' = send_contacts db ∧
   ∃ u, send_usage db'' = Some u ∧ row_today u = Today s ∧ row_new_chats u = NewChatsToday s
        ∧ row_last_send_ns u = last s) ∧
  (∀ l2 client2 now2 targets2 db2 r2,
     reserveSend rnd l2 client2 NoFault now2 targets2 db' = (db2, Ok (Accepted r2)) → day_of now2 = day_of now →
     let db'' := releaseSendReservation rnd l' now' r db2 in
     send_contacts db'' = send_contacts db2 ∧
     ∃ u u2, send_usage db'' = Some u ∧ send_usage db2 = Some u2 ∧
       row_today u = row_today u2 - count r ∧ row_new_chats u = row_new_chats u2
       ∧ row_last_send_ns u = row_last_send_ns u2).
Proof.
  intros s. destruct (reserve_accepted _ _ _ _ _ _ _ _ _ Hr) as (unique & fr & Hcf & _ & -> & ->).
  destruct (read_nonneg rnd l (send_usage db) now Hdb) as (Ht & Hn & _ & _). fold s in Ht, Hn |- *.
  pose proof (count_fresh_mono _ _ _ _ _ _ _ _ Hcf) as Hfr.
  assert (Day s = Some (day_of now)) as Hs by done. clearbody s. split.
  - set (u := usage_of (charge rnd s (Z.of_nat (length targets)) fr now)).
    destruct (release_same_day rnd l' u now'
      {| active := true; rcpt_day := Day s; count := Z.of_nat (length targets); fresh := fr;
         rcpt_last := row_last_send_ns u; previousLast := last s;
         contacts := elements (unique ∖ send_contacts db) |}
      (send_contacts db ∪ unique) (send_refusals db) (message_chats db))
      as (u' & Hc & Hu & H1 & H2 & H3); [unfold u; simpl; congruence|simpl; congruence|].
    cbn [row_last_send_ns u usage_of charge last rcpt_last] in *.
    rewrite bool_decide_eq_true_2 in Hc, H2, H3 by done. split.
    + rewrite Hc. simpl. rewrite list_to_set_elements_L. apply set_eq. intros x.
      rewrite elem_of_difference, elem_of_union, elem_of_difference.
      destruct (decide (x ∈ send_contacts db)); tauto.
    + exists u'. split; [done|]. rewrite H1, H2, H3. simpl. split_and!; lia.
  - intros l2 client2 now2 targets2 db2 r2 Hr2 Hday2 db''. subst db''.
    destruct (reserve_accepted _ _ _ _ _ _ _ _ _ Hr2) as (unique2 & fr2 & Hcf2 & _ & -> & ->).
    set (s2 := readSendState rnd l2 _ now2).
    assert (Day s2 = Some (day_of now2) ∧ Today s2 = Today s + Z.of_nat (length targets)
            ∧ last s2 = Z.max now (last s + 1)) as (Hd2 & Ht2 & Hl2).
    { unfold s2. simpl. rewrite Hs, Hday2, bool_decide_eq_true_2 by done. done. }
    clearbody s2. set (u := usage_of (charge rnd s2 (Z.of_nat (length targets2)) fr2 now2)).
    match goal with |- context [releaseSendReservation rnd l' now' ?r {| send_usage := _; send_contacts := ?c;
      send_refusals := ?rf; message_chats := ?m |}] =>
      destruct (release_same_day rnd l' u now' r c rf m) as (u' & Hc & Hu & H1 & H2 & H3);
        [unfold u; simpl; congruence|simpl; congruence|] end.
    cbn [row_last_send_ns u usage_of charge last rcpt_last count] in *.
    rewrite bool_decide_eq_false_2 in Hc, H2, H3 by lia. split; [exact Hc|].
    exists u', u. split_and!; [exact Hu|done|rewrite H1; unfold u; simpl; lia|exact H2|exact H3].
Qed.

Lemma release_refunds_witness :
  send_contacts (releaseSendReservation (λ q, q) sample_limits 9 (sample_receipt 7)
    (reserveSend (H := RefJid.ops) (λ q, q) sample_limits None NoFault 7 ["group"] (new_db ∅)).1) = ∅.
Proof.
  destruct (release_refunds (H := RefJid.ops) (λ q, q) exact_float sample_limits sample_limits None
    NoFault 7 9 ["group"] (new_db ∅)
    (reserveSend (H := RefJid.ops) (λ q, q) sample_limits None NoFault 7 ["group"] (new_db ∅)).1
    (sample_receipt 7)) as [[Hc _] _].
  - exact empty_usage_ok.
  - vm_compute. reflexivity.
  - vm_compute. reflexivity.
  - exact Hc.
Defined.

(** [C37] Whenever a send limit is in force, the gate lets a send through only
    with a reservation charged for it: a failing database, settings read or
    identity lookup refuses instead. *)
Theorem send_gate_fails_closed `{JidOps} (rnd : Q → Q) (defaults : gmap string runtimeSetting)
    (rows : list row) (client : lid_store) (flt : fault) (now : Z) (targets : list string)
    (db : send_db) (snapshot live : result unit runtimeSettingsSnapshot) (rc : option sendReservation)
    (Hon : limits_on (limits_of (Some defaults) rows) = true)
    (Hlive : ∀ s, live = Ok s → s = readRuntimeSettings defaults rows)
    (Ha : allowSend false true snapshot
            (reserveSend rnd (limits_of (Some defaults) rows) client flt now targets db).2 live
          = SendAllowed rc) :
  ∃ r, rc = Some r ∧
    (reserveSend rnd (limits_of (Some defaults) rows) client flt now targets db).2 = Ok (Accepted r).
Proof.
  assert (∀ f, (reserveSend rnd (limits_of (Some defaults) rows) client flt now targets db).2 = Err f →
    known f = true → limitsEnabled f = true) as Hf.
  { unfold reserveSend. intros f. rewrite Hon. repeat case_match; simpl; intros; by simplify_eq. }
  revert Ha Hf. destruct (reserveSend _ _ _ _ _ _ _) as [db' [res|f]]; simpl; intros Ha Hf;
    unfold allowSend in Ha; simpl in Ha; (destruct snapshot; [|done]).
  - destruct res as [r|reason delay]; [|by destruct (String.eqb reason "limit_exceeds_batch")]. simplify_eq. by exists r.
  - exfalso. destruct (known f) eqn:Hk; [by rewrite (Hf f) in Ha|].
    destruct live as [s|]; [|done]. rewrite (Hlive s eq_refl), enabled_limits, Hon in Ha. done.
Qed.

Lemma send_gate_fails_closed_witness :
  ∃ r, Some (sample_receipt 7) = Some r ∧
    (reserveSend (H := RefJid.ops) (λ q, q) (limits_of (Some sample_defaults) sample_rows) None NoFault 7
       ["group"] (new_db ∅)).2 = Ok (Accepted r).
Proof.
  apply (send_gate_fails_closed (H := RefJid.ops) (λ q, q) sample_defaults sample_rows None NoFault 7
    ["group"] (new_db ∅) (Ok (readRuntimeSettings sample_defaults sample_rows)) (Err tt)).
  - vm_compute. reflexivity.
  - intros s Hs. discriminate Hs.
  - vm_compute. reflexivity.
Defined.
