(* ===== verification/PendingEdits.v ===== *)
(** * Edits that arrive before their message ([pending_edits.go], the
    message side of [edit_forward.go])

    An edit whose original is not archived yet waits in a bounded table and is
    applied when the original is stored.  The table is a list of rows in
    [rowid] order; instants are epoch milliseconds.  The text and mentions of
    an edit are what [extractMessage] and [mentionsColumn] make of it. *)
From S2P Require Import Prelude Jid.
#[local] Open Scope Z_scope.

Definition pendingEditTTL : Z := 24 * 60 * 60 * 1000.
Definition pendingEditGlobalCap : nat := 1024.
Definition pendingEditChatCap : nat := 128.
Definition pendingEditSenderCap : nat := 32.
Definition pendingEditMaxBytes : nat := 64 * 1024.

(** A row of [pending_edits]. *)
Record pending := {
  rowid : Z;
  chat_jid : string;
  target_id : string;
  sender : string;
  sender_server : string;
  is_from_me : bool;
  edit_timestamp : Z;
  content : string;
  mentions : string;
  arrived_ms : Z;
  expires_ms : Z;
}.

#[export] Instance pending_eq_dec : EqDecision pending.
Proof. solve_decision. Defined.

(** The columns of [messages] an edit looks at; [m_server = None] is NULL. *)
Record message := {
  m_id : string;
  m_chat : string;
  m_sender : string;
  m_server : option string;
  m_own : bool;
  m_content : string;
  m_mentions : string;
  m_edit_timestamp : Z;
  m_deleted : bool;
}.

(** A protocol edit: the target, the replacement if any, the protocol time. *)
Record edit := {
  e_id : string;
  e_edited : option (string * string);
  e_stamp : Z;
}.

(** ** The table *)

(** [prunePendingEdits]. *)
Definition prunePendingEdits (now : Z) (t : list pending) : list pending :=
  filter (λ p, now < expires_ms p) t.

(** The primary key. *)
Definition key_of (p : pending) : string * string * string * string * bool :=
  (chat_jid p, target_id p, sender p, sender_server p, is_from_me p).

Definition author_of (p : pending) : string * string * bool := (sender p, sender_server p, is_from_me p).

Definition next_rowid (t : list pending) : Z := foldr (λ p n, Z.max (rowid p) n) 0 t + 1.

(** [ON CONFLICT ... DO UPDATE ... WHERE excluded.edit_timestamp > ...]: only a
    newer edit replaces the text, and arrival and expiry never move. *)
Definition supersede (q p : pending) : pending :=
  if bool_decide (edit_timestamp p < edit_timestamp q) then
    {| rowid := rowid p; chat_jid := chat_jid p; target_id := target_id p; sender := sender p;
       sender_server := sender_server p; is_from_me := is_from_me p;
       edit_timestamp := edit_timestamp q; content := content q; mentions := mentions q;
       arrived_ms := arrived_ms p; expires_ms := expires_ms p |}
  else p.

Definition with_rowid (n : Z) (p : pending) : pending :=
  {| rowid := n; chat_jid := chat_jid p; target_id := target_id p; sender := sender p;
     sender_server := sender_server p; is_from_me := is_from_me p; edit_timestamp := edit_timestamp p;
     content := content p; mentions := mentions p; arrived_ms := arrived_ms p; expires_ms := expires_ms p |}.

Definition upsert_with (f : pending → pending → pending) (q : pending) (t : list pending) : list pending :=
  if bool_decide (key_of q ∈ map key_of t)
  then map (λ p, if bool_decide (key_of p = key_of q) then f q p else p) t
  else t ++ [with_rowid (next_rowid t) q].

Definition insert_pending : pending → list pending → list pending := upsert_with supersede.

(** [ORDER BY arrived_ms DESC, rowid DESC]. *)
Definition newer (q p : pending) : Prop :=
  arrived_ms p < arrived_ms q ∨ (arrived_ms p = arrived_ms q ∧ rowid p < rowid q).

#[export] Instance newer_dec q p : Decision (newer q p).
Proof. unfold newer. apply _. Defined.

(** Deletes what comes after the first [cap] rows of a group, in that order. *)
Definition cap_group (group : pending → pending → bool) (scope : pending → bool) (cap : nat)
    (t : list pending) : list pending :=
  filter (λ p, scope p = false ∨
    (length (filter (λ q, scope q = true ∧ group p q = true ∧ newer q p) t) < cap)%nat) t.

Definition same_author (p q : pending) : bool := bool_decide (author_of p = author_of q).
Definition in_chat (chat : string) (p : pending) : bool := String.eqb (chat_jid p) chat.

(** [capPendingEdits]: per author in the chat, then the chat, then all. *)
Definition capPendingEdits (chat : string) (t : list pending) : list pending :=
  let t := cap_group same_author (in_chat chat) pendingEditSenderCap t in
  let t := cap_group (λ _ _, true) (in_chat chat) pendingEditChatCap t in
  cap_group (λ _ _, true) (λ _, true) pendingEditGlobalCap t.

(** ** Edits *)

Section Edits.
Context `{JidOps}.

(** [pendingEditUserJID]: the author with the namespace stored on messages. *)
Definition pendingEditUserJID (sender : string) : option JID :=
  match ParseJID sender with
  | Err _ => None
  | Ok jid =>
      if String.eqb (User jid) "" then None
      else match (splitSenderJID (storedSender jid)).2 with
           | None => None
           | Some namespace => Some (set_Server namespace (ToNonAD jid))
           end
  end.

Definition stamp_of (e : edit) (fallback : Z) : Z := if bool_decide (e_stamp e ≤ 0) then fallback else e_stamp e.

(** [applyMessageEditWith]: the author and ownership must match, replays never
    restore an older text, a deleted message stays deleted. *)
Definition edit_message (text ment : string) (stamp : Z) (m : message) : message :=
  {| m_id := m_id m; m_chat := m_chat m; m_sender := m_sender m; m_server := m_server m; m_own := m_own m;
     m_content := text; m_mentions := ment; m_edit_timestamp := stamp; m_deleted := m_deleted m |}.

Definition applyMessageEditWith (chat sender : string) (fromMe : bool) (e : edit) (fallback : Z)
    (archive : list message) : list message :=
  match e_edited e with
  | None => archive
  | Some (text, ment) =>
      if String.eqb (e_id e) "" then archive
      else
        let stamp := stamp_of e fallback in
        let '(user, server) := splitSenderJID sender in
        map (λ m, if bool_decide (m_id m = e_id e ∧ m_chat m = chat ∧ m_sender m = user ∧ m_server m = server
                                  ∧ m_own m = fromMe ∧ m_edit_timestamp m < stamp ∧ m_deleted m = false)
                  then edit_message text ment stamp m else m) archive
  end.

(** [applyOrDeferMessageEdit] at instant [now]. *)
Definition applyOrDeferMessageEdit (chat snd : string) (own : bool) (e : edit) (fallback now : Z)
    (st : list message * list pending) : list message * list pending :=
  let '(archive, t) := st in
  match e_edited e with
  | None => st
  | Some (text, ment) =>
      if String.eqb chat "" || String.eqb (e_id e) "" then st
      else
        let t := prunePendingEdits now t in
        if existsb (λ m, String.eqb (m_id m) (e_id e) && String.eqb (m_chat m) chat) archive
        then (applyMessageEditWith chat snd own e fallback archive, t)
        else match pendingEditUserJID snd with
             | None => (archive, t)
             | Some jid =>
                 let stamp := stamp_of e fallback in
                 if bool_decide (stamp ≤ 0) then (archive, t)
                 else if bool_decide (pendingEditMaxBytes <
                        String.length chat + String.length snd + String.length (e_id e)
                        + String.length text + String.length ment)%nat then (archive, t)
                 else
                   let q := {| rowid := 0; chat_jid := chat; target_id := e_id e; sender := User jid;
                               sender_server := Server jid; is_from_me := own; edit_timestamp := stamp;
                               content := text; mentions := ment; arrived_ms := now;
                               expires_ms := now + pendingEditTTL |} in
                   (archive, capPendingEdits chat (insert_pending q t))
             end
  end.

(** ** Consumption *)

(** [storedMessage], the fields consumption reads. *)
Record storedMessage := {
  ID : string;
  ChatJID : string;
  Sender : string;
  IsFromMe : bool;
  EditAuthorAlias : string;
  EditChatAlias : string;
}.

(** The chats whose rows belong to the message. *)
Definition own_chat (s : storedMessage) (chat : string) : bool :=
  String.eqb chat (ChatJID s) || (negb (String.eqb (EditChatAlias s) "") && String.eqb chat (EditChatAlias s)).

(** The rows of the [candidate] query for one archived message. *)
Definition candidate (s : storedMessage) (m : message) (p : pending) : bool :=
  let '(alias_user, alias_server) := splitSenderJID (EditAuthorAlias s) in
  (String.eqb (chat_jid p) (m_chat m)
   || (negb (String.eqb (EditChatAlias s) "") && String.eqb (chat_jid p) (EditChatAlias s)))
  && String.eqb (target_id p) (m_id m) && Bool.eqb (is_from_me p) (m_own m)
  && ((String.eqb (sender p) (m_sender m) && bool_decide (Some (sender_server p) = m_server m))
      || (String.eqb (sender p) alias_user && bool_decide (Some (sender_server p) = alias_server))).

(** [ORDER BY edit_timestamp DESC LIMIT 1]; rows with the same timestamp are
    taken in table order, and no theorem depends on that choice. *)
Fixpoint newest_edit (l : list pending) : option pending :=
  match l with
  | [] => None
  | p :: rest =>
      match newest_edit rest with
      | Some q => if bool_decide (edit_timestamp p < edit_timestamp q) then Some q else Some p
      | None => Some p
      end
  end.

(** The UPDATE on one archived row. *)
Definition consume_row (s : storedMessage) (t : list pending) (m : message) : message :=
  let '(user, server) := splitSenderJID (Sender s) in
  if bool_decide (m_id m = ID s ∧ m_chat m = ChatJID s ∧ m_sender m = user ∧ m_server m = server
                  ∧ m_own m = IsFromMe s ∧ m_deleted m = false)
  then match newest_edit (filter (λ p, candidate s m p = true) t) with
       | Some p => if bool_decide (m_edit_timestamp m < edit_timestamp p)
                   then edit_message (content p) (mentions p) (edit_timestamp p) m else m
       | None => m
       end
  else m.

Definition consumePendingEdits (s : storedMessage) (now : Z) (st : list message * list pending) :
    list message * list pending :=
  let '(archive, t) := st in
  let t := prunePendingEdits now t in
  (map (consume_row s t) archive,
   filter (λ p, ¬ (target_id p = ID s ∧ own_chat s (chat_jid p) = true)) t).

(** ** Startup migration to verified phone chats *)

(** The upsert of [migratePendingEditChats]: the newer text, the earlier
    arrival and expiry. *)
Definition merge_edits (q p : pending) : pending :=
  let later := bool_decide (edit_timestamp p < edit_timestamp q) in
  {| rowid := rowid p; chat_jid := chat_jid p; target_id := target_id p; sender := sender p;
     sender_server := sender_server p; is_from_me := is_from_me p;
     edit_timestamp := Z.max (edit_timestamp p) (edit_timestamp q);
     content := if later then content q else content p;
     mentions := if later then mentions q else mentions p;
     arrived_ms := Z.min (arrived_ms p) (arrived_ms q);
     expires_ms := Z.min (expires_ms p) (expires_ms q) |}.

Definition move_chat (phone : string) (p : pending) : pending :=
  {| rowid := rowid p; chat_jid := phone; target_id := target_id p; sender := sender p;
     sender_server := sender_server p; is_from_me := is_from_me p; edit_timestamp := edit_timestamp p;
     content := content p; mentions := mentions p; arrived_ms := arrived_ms p; expires_ms := expires_ms p |}.

(** One chat of the loop; [phone] is the verified phone chat. *)
Definition migrate_chat (t : list pending) (chat_phone : string * string) : list pending :=
  let '(chat, phone) := chat_phone in
  let rows := filter (λ p, chat_jid p = chat) t in
  let t := foldl (λ t p, upsert_with merge_edits (move_chat phone p) t) t rows in
  let t := filter (λ p, chat_jid p ≠ chat) t in
  capPendingEdits phone t.

(** The phone chats the session database maps the LID chats to; a number that
    is not all digits is left alone. *)
Definition prepare_migration (lid_map : string → option string) (chats : list string) : list (string * string) :=
  omap (λ chat, match ParseJID chat with
                | Err _ => None
                | Ok jid => match lid_map (User jid) with
                            | Some phone => if isPhoneDigits phone
                                            then Some (chat, JIDString (NewJID phone DefaultUserServer)) else None
                            | None => None
                            end
                end) chats.

Definition migratePendingEditChats (lid_map : string → option string) (chats : list string) (now : Z)
    (t : list pending) : list pending :=
  foldl migrate_chat (prunePendingEdits now t) (prepare_migration lid_map chats).

End Edits.

(** [retryPendingEditPreparation]: [write] reports whether the identities
    changed and its result, at each call; the number of calls is returned. *)
Fixpoint retry_from {A} (fuel : nat) (n : nat) (write : nat → bool * A) : A * nat :=
  let '(changed, err) := write n in
  match fuel with
  | O => (err, S n)
  | S fuel => if changed then retry_from fuel (S n) write else (err, S n)
  end.

Definition retryPendingEditPreparation {A} (write : nat → bool * A) : A * nat := retry_from 2 0 write.

(** ** Lemmas: the order of arrival *)

Lemma newer_total p q : rowid p ≠ rowid q → newer p q ∨ newer q p.
Proof. unfold newer. lia. Qed.

Lemma newer_trans p q r : newer p q → newer q r → newer p r.
Proof. unfold newer. lia. Qed.

Definition rowids_ok (t : list pending) : Prop := NoDup (map rowid t).

Lemma rowids_inj t p q : rowids_ok t → p ∈ t → q ∈ t → rowid p = rowid q → p = q.
Proof.
  unfold rowids_ok. induction t as [|x t IH]; [by intros _ ?%not_elem_of_nil|]. simpl.
  intros [Hx Hnd]%NoDup_cons [->|Hp]%elem_of_cons [->|Hq]%elem_of_cons Heq; try done.
  - destruct Hx. rewrite Heq. by apply list_elem_of_fmap_2.
  - destruct Hx. rewrite <-Heq. by apply list_elem_of_fmap_2.
  - by apply IH.
Qed.

Lemma rowids_nodup t : rowids_ok t → NoDup t.
Proof. apply NoDup_fmap_1. Qed.

Lemma sublist_rowids t t' : t' `sublist_of` t → rowids_ok t → rowids_ok t'.
Proof. unfold rowids_ok. intros Hs Hnd. eapply sublist_NoDup; [exact Hnd|]. by apply (fmap_sublist rowid). Qed.

(** A nonempty table has an oldest row. *)
Lemma oldest_exists t :
  t ≠ [] → rowids_ok t → ∃ p, p ∈ t ∧ ∀ q, q ∈ t → q ≠ p → newer q p.
Proof.
  unfold rowids_ok. induction t as [|x t IH]; [done|]. intros _ [Hx Hnd]%NoDup_cons.
  destruct (decide (t = [])) as [->|Hne]; [exists x; set_solver|].
  destruct (IH Hne Hnd) as (p & Hp & Hmin).
  assert (rowid x ≠ rowid p) as Hxp.
  { intros Heq. destruct Hx. rewrite Heq. by apply list_elem_of_fmap_2. }
  destruct (newer_total x p Hxp) as [Hn|Hn].
  - exists p. split; [by right|]. intros q [->|Hq]%elem_of_cons; auto.
  - exists x. split; [by left|]. intros q [->|Hq]%elem_of_cons Hqx; [done|].
    destruct (decide (q = p)) as [->|]; [done|]. eauto using newer_trans.
Qed.

(** ** Lemmas: the caps *)

Lemma cap_group_sublist group scope cap t : cap_group group scope cap t `sublist_of` t.
Proof. apply sublist_filter. Qed.

(** A class of rows that the group relation carves out of the scope has at
    most [cap] survivors. *)
Lemma cap_group_bound group scope cap t (cls : pending → Prop) `{∀ p, Decision (cls p)} :
  rowids_ok t → (∀ p, cls p → scope p = true) → (∀ p q, cls p → cls q → group p q = true) →
  (length (filter cls (cap_group group scope cap t)) ≤ cap)%nat.
Proof.
  intros Hid Hscope Hgroup. destruct (decide (length (filter cls (cap_group group scope cap t)) ≤ cap)%nat)
    as [|Hgt]; [done|]. exfalso.
  set (S := filter cls (cap_group group scope cap t)) in *.
  assert (S `sublist_of` t) as Hsub by (etrans; [apply sublist_filter|apply cap_group_sublist]).
  pose proof (sublist_rowids _ _ Hsub Hid) as HSid.
  destruct (oldest_exists S) as (p & Hp & Hmin); [intros Hnil; rewrite Hnil in Hgt; simpl in Hgt; lia|done|].
  pose proof Hp as Hp'. unfold S in Hp'. apply list_elem_of_filter in Hp' as [Hcls Hp'].
  unfold cap_group in Hp'. apply list_elem_of_filter in Hp' as [[Hs|Hlt] _]; [rewrite Hscope in Hs; done|].
  pose proof (rowids_nodup _ HSid) as HSnd.
  apply list_elem_of_split in Hp as (l1 & l2 & HS). rewrite HS in HSnd, Hgt, Hmin.
  rewrite <-Permutation_middle in HSnd. apply NoDup_cons in HSnd as [Hpn Hnd'].
  enough (l1 ++ l2 ⊆+ filter (λ q, scope q = true ∧ group p q = true ∧ newer q p) t) as Hle.
  { apply submseteq_length in Hle. rewrite length_app in *. simpl in Hgt. lia. }
  apply NoDup_submseteq; [done|]. intros q Hq.
  assert (q ∈ S) as HqS by (rewrite HS; rewrite elem_of_app in *; set_solver).
  pose proof HqS as [Hcq _]%list_elem_of_filter. apply list_elem_of_filter.
  split; [|by eapply elem_of_sublist]. split_and!; [by apply Hscope|by apply Hgroup|].
  apply Hmin; [by rewrite <-HS|]. intros ->. done.
Qed.

(** ** The invariant of the table *)

Definition chat_rows (chat : string) (t : list pending) : list pending :=
  filter (λ p, chat_jid p = chat) t.
Definition author_rows (chat : string) (a : string * string * bool) (t : list pending) : list pending :=
  filter (λ p, chat_jid p = chat ∧ author_of p = a) t.

(** Unique row ids and keys, and an expiry fixed at the first arrival. *)
Record base_ok (t : list pending) : Prop := {
  base_rowids : rowids_ok t;
  base_keys : NoDup (map key_of t);
  base_ttl : Forall (λ p, expires_ms p = arrived_ms p + pendingEditTTL) t;
}.

Definition chat_bounded (t : list pending) (chat : string) : Prop :=
  (length (chat_rows chat t) ≤ pendingEditChatCap)%nat ∧
  ∀ a, (length (author_rows chat a t) ≤ pendingEditSenderCap)%nat.

Record table_ok (t : list pending) : Prop := {
  table_base : base_ok t;
  table_total : (length t ≤ pendingEditGlobalCap)%nat;
  table_chats : ∀ chat, chat_bounded t chat;
}.

Lemma filter_sublist {A} (P : A → Prop) `{∀ x, Decision (P x)} (l k : list A) :
  l `sublist_of` k → filter P l `sublist_of` filter P k.
Proof.
  induction 1 as [|x l k Hs IH|x l k Hs IH]; [done|..]; rewrite ?filter_cons; case_decide; auto using sublist_skip, sublist_cons.
Qed.

Lemma filter_all {A} (P : A → Prop) `{∀ x, Decision (P x)} (l : list A) :
  (∀ x, x ∈ l → P x) → filter P l = l.
Proof.
  induction l as [|x l IH]; intros Hall; [done|]. rewrite filter_cons_True by (apply Hall; by left).
  f_equal. apply IH. intros y Hy. apply Hall. by right.
Qed.

Lemma sublist_base t t' : t' `sublist_of` t → base_ok t → base_ok t'.
Proof.
  intros Hs [H1 H2 H3]. split.
  - by eapply sublist_rowids.
  - eapply sublist_NoDup; [exact H2|]. by apply (fmap_sublist key_of).
  - rewrite Forall_forall in *. intros p Hp. apply H3. by eapply elem_of_sublist.
Qed.

Lemma sublist_bounded t t' chat : t' `sublist_of` t → chat_bounded t chat → chat_bounded t' chat.
Proof.
  intros Hs [H1 H2]. split.
  - etrans; [|exact H1]. by apply sublist_length, filter_sublist.
  - intros a. etrans; [|exact (H2 a)]. by apply sublist_length, filter_sublist.
Qed.

Lemma sublist_ok t t' : t' `sublist_of` t → table_ok t → table_ok t'.
Proof.
  intros Hs [H1 H2 H3]. split; [by eapply sublist_base| |eauto using sublist_bounded].
  apply sublist_length in Hs. lia.
Qed.

Lemma capPendingEdits_sublist chat t : capPendingEdits chat t `sublist_of` t.
Proof.
  unfold capPendingEdits. repeat (etrans; [apply cap_group_sublist|]). done.
Qed.

(** Capping a chat restores the invariant when the other chats are bounded. *)
Lemma cap_restores chat t :
  base_ok t → (∀ c, c ≠ chat → chat_bounded t c) → table_ok (capPendingEdits chat t).
Proof.
  intros Hb Hother. pose proof (capPendingEdits_sublist chat t) as Hs.
  set (t1 := cap_group same_author (in_chat chat) pendingEditSenderCap t).
  set (t2 := cap_group (λ _ _, true) (in_chat chat) pendingEditChatCap t1).
  assert (t1 `sublist_of` t) as Hs1 by apply cap_group_sublist.
  assert (t2 `sublist_of` t1) as Hs2 by apply cap_group_sublist.
  change (capPendingEdits chat t) with (cap_group (λ _ _, true) (λ _, true) pendingEditGlobalCap t2) in *.
  set (t3 := cap_group _ (λ _, true) pendingEditGlobalCap t2) in *.
  assert (t3 `sublist_of` t2) as Hs3 by apply cap_group_sublist.
  pose proof (base_rowids _ Hb) as Hid.
  pose proof (sublist_rowids _ _ Hs1 Hid) as Hid1. pose proof (sublist_rowids _ _ Hs2 Hid1) as Hid2.
  split; [exact (sublist_base _ _ Hs Hb)| |].
  - pose proof (cap_group_bound (λ _ _, true) (λ _, true) pendingEditGlobalCap t2 (λ _, True)) as Hc.
    fold t3 in Hc. rewrite filter_all in Hc by done. by apply Hc.
  - intros c. destruct (decide (c = chat)) as [->|Hc]; [|eauto using sublist_bounded].
    split.
    + etrans; [apply sublist_length, filter_sublist, Hs3|].
      apply (cap_group_bound (λ _ _, true) (in_chat chat)); [done| |done].
      intros p <-. apply String.eqb_refl.
    + intros a. etrans; [apply sublist_length, filter_sublist; etrans; [apply Hs3|apply Hs2]|].
      apply (cap_group_bound same_author (in_chat chat)); [done| |].
      * intros p [<- _]. apply String.eqb_refl.
      * intros p q [_ <-] [_ Hq]. apply bool_decide_eq_true. done.
Qed.

(** Upserts keep ids and keys. *)
Definition keeps (f : pending → pending → pending) : Prop :=
  ∀ q p, rowid (f q p) = rowid p ∧ key_of (f q p) = key_of p ∧
    (expires_ms q = arrived_ms q + pendingEditTTL → expires_ms p = arrived_ms p + pendingEditTTL →
     expires_ms (f q p) = arrived_ms (f q p) + pendingEditTTL).

Lemma supersede_keeps : keeps supersede.
Proof. intros q p. unfold supersede. case_bool_decide; done. Qed.

Lemma merge_keeps : keeps merge_edits.
Proof. intros q p. split_and!; [done..|]. simpl. lia. Qed.

Lemma next_rowid_fresh t : next_rowid t ∉ map rowid t.
Proof.
  assert (∀ p, p ∈ t → rowid p < next_rowid t) as Hlt.
  { unfold next_rowid. induction t as [|x t IH]; [by intros p ?%not_elem_of_nil|].
    intros p [->|Hp]%elem_of_cons; simpl; [lia|]. specialize (IH p Hp). lia. }
  intros (p & Heq & Hp)%list_elem_of_fmap. specialize (Hlt p Hp). lia.
Qed.

Lemma map_if_same {B} (g : pending → B) (c : pending → bool) (f : pending → pending) (t : list pending) :
  (∀ p, g (f p) = g p) → map g (map (λ p, if c p then f p else p) t) = map g t.
Proof. intros Hg. rewrite map_map. apply map_ext. intros p. destruct (c p); auto. Qed.

Lemma upsert_base f q t :
  keeps f → expires_ms q = arrived_ms q + pendingEditTTL → base_ok t → base_ok (upsert_with f q t).
Proof.
  intros Hf Hq [H1 H2 H3]. unfold upsert_with. case_bool_decide as Hin.
  - split.
    + unfold rowids_ok. rewrite map_if_same; [done|]. intros p. apply Hf.
    + rewrite map_if_same; [done|]. intros p. apply Hf.
    + apply Forall_map. eapply Forall_impl; [exact H3|]. simpl. intros p Hp. case_bool_decide; [|done]. by apply Hf.
  - split.
    + unfold rowids_ok. rewrite map_app. simpl. apply NoDup_app. split_and!; [done| |apply NoDup_singleton].
      intros x Hx ->%list_elem_of_singleton. by apply next_rowid_fresh in Hx.
    + rewrite map_app. simpl. apply NoDup_app. split_and!; [done| |apply NoDup_singleton].
      intros x Hx ->%list_elem_of_singleton. done.
    + apply Forall_app. split; [done|]. by constructor.
Qed.

(** An upsert changes the row count of its own chat only. *)
Lemma upsert_filter_length f q t (P : pending → Prop) `{∀ p, Decision (P p)} :
  keeps f → (∀ p p', key_of p = key_of p' → P p ↔ P p') → ¬ P q →
  length (filter P (upsert_with f q t)) = length (filter P t).
Proof.
  intros Hf HP Hq. unfold upsert_with. case_bool_decide as Hin.
  - clear Hin. induction t as [|p t IH]; [done|]. simpl. rewrite !filter_cons.
    assert (P (if bool_decide (key_of p = key_of q) then f q p else p) ↔ P p) as Hiff.
    { case_bool_decide; [|done]. apply HP. apply Hf. }
    repeat case_decide; simpl; rewrite ?IH; tauto.
  - rewrite filter_app, filter_cons_False, filter_nil, app_nil_r; [done|].
    rewrite HP; [exact Hq|done].
Qed.

Lemma upsert_other_chats f q t c :
  keeps f → c ≠ chat_jid q → chat_bounded t c → chat_bounded (upsert_with f q t) c.
Proof.
  intros Hf Hc [H1 H2]. split; [|intros a; specialize (H2 a)]; unfold chat_rows, author_rows in *;
    (rewrite upsert_filter_length; [done|done| |intuition congruence]);
    intros p p' Hk; unfold key_of, author_of in *; injection Hk as ? ? ? ? ?; intuition congruence.
Qed.

(** ** Lemmas: the operations keep the invariant *)

Section Invariant.
Context `{JidOps}.

Lemma insert_cap_ok q t :
  expires_ms q = arrived_ms q + pendingEditTTL → table_ok t →
  table_ok (capPendingEdits (chat_jid q) (insert_pending q t)).
Proof.
  intros Hq [Hb _ Hc]. apply cap_restores.
  - apply upsert_base; [apply supersede_keeps|done..].
  - intros c Hne. apply upsert_other_chats; [apply supersede_keeps|done|apply Hc].
Qed.

Lemma prune_ok now t : table_ok t → table_ok (prunePendingEdits now t).
Proof. apply sublist_ok, sublist_filter. Qed.

Lemma defer_ok chat snd own e fallback now archive t :
  table_ok t → table_ok (applyOrDeferMessageEdit chat snd own e fallback now (archive, t)).2.
Proof.
  intros Ht. pose proof (prune_ok now t Ht) as Hp. unfold applyOrDeferMessageEdit.
  destruct (e_edited e) as [[text ment]|]; [|done].
  repeat case_match; try done. simpl. by apply (insert_cap_ok (Build_pending _ _ _ _ _ _ _ _ _ _ _)).
Qed.

Lemma consume_ok s now archive t : table_ok t → table_ok (consumePendingEdits s now (archive, t)).2.
Proof. intros Ht. simpl. eapply sublist_ok; [apply sublist_filter|]. by apply prune_ok. Qed.

Lemma migrate_chat_ok t cp : table_ok t → table_ok (migrate_chat t cp).
Proof.
  destruct cp as [chat phone]. intros Ht. unfold migrate_chat.
  set (rows := filter _ t). set (t1 := foldl _ t rows).
  assert (base_ok t1 ∧ ∀ c, c ≠ phone → chat_bounded t1 c) as [Hb Hc].
  { assert (Forall (λ p, expires_ms p = arrived_ms p + pendingEditTTL) rows) as Hrows.
    { apply Forall_forall. intros p [_ Hp]%list_elem_of_filter. destruct Ht as [[_ _ Httl] _ _].
      rewrite Forall_forall in Httl. by apply Httl. }
    destruct Ht as [Hb _ Hc]. unfold t1. clear t1. revert Hrows.
    assert (∀ c, c ≠ phone → chat_bounded t c) as Hc' by auto. clear Hc. revert Hb Hc'. generalize rows.
    clear rows. intros rows. revert t. induction rows as [|p rows IH]; intros t Hb Hc Hall; [done|]. simpl.
    apply Forall_cons in Hall as [Hp Hall]. apply IH; [| |done].
    - apply upsert_base; [apply merge_keeps|done..].
    - intros c Hne. apply upsert_other_chats; [apply merge_keeps|done|auto]. }
  apply cap_restores.
  - eapply sublist_base; [apply sublist_filter|done].
  - intros c Hne. eapply sublist_bounded; [apply sublist_filter|auto].
Qed.

Lemma migrate_ok lid_map chats now t : table_ok t → table_ok (migratePendingEditChats lid_map chats now t).
Proof.
  intros Ht. apply prune_ok with (now := now) in Ht. unfold migratePendingEditChats.
  revert Ht. generalize (prunePendingEdits now t). generalize (prepare_migration lid_map chats).
  intros cps. induction cps as [|cp cps IH]; intros t' Ht; [done|]. simpl. apply IH. by apply migrate_chat_ok.
Qed.

(** The archive and the table under every operation of the component. *)
Inductive pending_step : list message * list pending → list message * list pending → Prop :=
| step_edit chat snd own e fallback now st :
    pending_step st (applyOrDeferMessageEdit chat snd own e fallback now st)
| step_store m s now archive t :
    pending_step (archive, t) (consumePendingEdits s now (archive ++ [m], t))
| step_replay s now st : pending_step st (consumePendingEdits s now st)
| step_migrate lid_map chats now archive t :
    pending_step (archive, t) (archive, migratePendingEditChats lid_map chats now t).

Lemma pending_step_ok st st' : pending_step st st' → table_ok st.2 → table_ok st'.2.
Proof.
  intros Hs Ht. destruct Hs as [chat snd own e fallback now [archive t]|m s now archive t|s now [archive t]|];
    [by apply defer_ok|by apply consume_ok|by apply consume_ok|by apply migrate_ok].
Qed.

End Invariant.

Lemma empty_table_ok : table_ok [].
Proof. split; [split; constructor|simpl; lia|]. intros chat. split; [simpl; lia|intros a; simpl; lia]. Qed.

(** ** Lemmas: the newest edit *)

Lemma newest_edit_spec l :
  match newest_edit l with
  | Some p => p ∈ l ∧ ∀ q, q ∈ l → edit_timestamp q ≤ edit_timestamp p
  | None => l = []
  end.
Proof.
  induction l as [|p l IH]; [done|]. simpl. destruct (newest_edit l) as [q|].
  - destruct IH as [Hq Hmax]. case_bool_decide.
    + split; [by right|]. intros r [->|Hr]%elem_of_cons; [lia|auto].
    + split; [by left|]. intros r [->|Hr]%elem_of_cons; [lia|]. specialize (Hmax r Hr). lia.
  - subst l. split; [by left|]. intros r [->|Hr]%elem_of_cons; [lia|by apply not_elem_of_nil in Hr].
Qed.

(** ** Lemmas: deferring and applying agree *)

(** An edit as the table and the archive see it: its time and its text. *)
Definition version : Type := Z * (string * string).

Definition newer_version (a b : version) : version := if bool_decide (a.1 < b.1) then b else a.

Definition upd (m : message) (v : version) : message :=
  if bool_decide (m_edit_timestamp m < v.1) then edit_message v.2.1 v.2.2 v.1 m else m.

Lemma upd_upd m a b : upd (upd m a) b = upd m (newer_version a b).
Proof.
  destruct a as [a [at_ am]], b as [b [bt bm]]. unfold upd, newer_version. simpl.
  repeat (case_bool_decide; simpl in *); try lia; done.
Qed.

Lemma foldl_upd m a vs : foldl upd m (a :: vs) = upd m (foldl newer_version a vs).
Proof.
  revert a. induction vs as [|b vs IH]; intros a; [done|].
  change (foldl upd m (a :: b :: vs)) with (foldl upd (upd (upd m a) b) vs).
  rewrite upd_upd. change (foldl upd (upd m (newer_version a b)) vs) with
    (foldl upd m (newer_version a b :: vs)). apply IH.
Qed.

Section Agree.
Context `{JidOps}.
Context (chat snd id : string) (own : bool) (jid : JID).
Context (Hjid : pendingEditUserJID snd = Some jid).
Context (Hsplit : splitSenderJID snd = (User jid, Some (Server jid))).
Context (Hchat : chat ≠ "") (Hid : id ≠ "").

(** An edit of the message that passes the admission checks: its version, and
    when it arrives. *)
Record arrival := { a_text : string; a_ment : string; a_stamp : Z; a_fallback : Z; a_now : Z }.

Definition edit_of (a : arrival) : edit :=
  {| e_id := id; e_edited := Some (a_text a, a_ment a); e_stamp := a_stamp a |}.

Definition version_of (a : arrival) : version := (stamp_of (edit_of a) (a_fallback a), (a_text a, a_ment a)).

Definition admissible (a : arrival) : Prop :=
  0 < stamp_of (edit_of a) (a_fallback a) ∧
  (String.length chat + String.length snd + String.length id + String.length (a_text a)
   + String.length (a_ment a) ≤ pendingEditMaxBytes)%nat.

(** The only row of a table holding one version. *)
Definition one_row (v : version) (arrived : Z) : pending :=
  {| rowid := 1; chat_jid := chat; target_id := id; sender := User jid; sender_server := Server jid;
     is_from_me := own; edit_timestamp := v.1; content := v.2.1; mentions := v.2.2;
     arrived_ms := arrived; expires_ms := arrived + pendingEditTTL |}.

Definition not_archived (archive : list message) : Prop :=
  existsb (λ m, String.eqb (m_id m) id && String.eqb (m_chat m) chat) archive = false.

Lemma cap_single c p : capPendingEdits c [p] = [p].
Proof.
  assert (∀ group scope cap, (0 < cap)%nat → cap_group group scope cap [p] = [p]) as Hcap.
  { intros group scope cap Hc. unfold cap_group. rewrite filter_cons_True; [done|].
    right. rewrite filter_cons_False; [done|]. unfold newer. lia. }
  unfold capPendingEdits. rewrite !Hcap; [done|unfold pendingEditSenderCap, pendingEditChatCap, pendingEditGlobalCap; lia..].
Qed.

Definition defer (st : list message * list pending) (a : arrival) : list message * list pending :=
  applyOrDeferMessageEdit chat snd own (edit_of a) (a_fallback a) (a_now a) st.

Lemma defer_eq archive t a :
  not_archived archive → admissible a →
  defer (archive, t) a =
    (archive, capPendingEdits chat (insert_pending
       {| rowid := 0; chat_jid := chat; target_id := id; sender := User jid; sender_server := Server jid;
          is_from_me := own; edit_timestamp := (version_of a).1; content := a_text a; mentions := a_ment a;
          arrived_ms := a_now a; expires_ms := a_now a + pendingEditTTL |}
       (prunePendingEdits (a_now a) t))).
Proof.
  intros Ha [Hs Hlen]. unfold defer, applyOrDeferMessageEdit. simpl.
  destruct (String.eqb_spec chat "") as [|_]; [done|]. destruct (String.eqb_spec id "") as [|_]; [done|].
  simpl. unfold not_archived in Ha. rewrite Ha, Hjid, !bool_decide_eq_false_2 by lia. done.
Qed.

Lemma defer_first archive a :
  not_archived archive → admissible a →
  defer (archive, []) a = (archive, [one_row (version_of a) (a_now a)]).
Proof.
  intros Ha Hadm. rewrite defer_eq by done. f_equal.
  unfold insert_pending, upsert_with. rewrite bool_decide_eq_false_2 by (simpl; set_solver). simpl.
  apply cap_single.
Qed.

Lemma defer_next archive v arrived a :
  not_archived archive → admissible a → a_now a < arrived + pendingEditTTL →
  defer (archive, [one_row v arrived]) a = (archive, [one_row (newer_version v (version_of a)) arrived]).
Proof.
  intros Ha Hadm Hnow. rewrite defer_eq by done. f_equal.
  unfold prunePendingEdits. rewrite filter_cons_True, filter_nil by done.
  unfold insert_pending, upsert_with. rewrite bool_decide_eq_true_2 by (simpl; set_solver).
  cbn [map]. rewrite bool_decide_eq_true_2 by done. rewrite cap_single. do 2 f_equal.
  unfold supersede, newer_version. cbn [edit_timestamp one_row].
  destruct v as [x [y z]]. simpl. case_bool_decide; done.
Qed.

Lemma defers_next archive arrivals v arrived :
  not_archived archive → Forall (λ a, admissible a ∧ a_now a < arrived + pendingEditTTL) arrivals →
  foldl defer (archive, [one_row v arrived]) arrivals =
    (archive, [one_row (foldl newer_version v (map version_of arrivals)) arrived]).
Proof.
  intros Ha Hall. revert v. induction Hall as [|a arrivals [Hadm Hnow] _ IH]; intros v; [done|].
  cbn [foldl map]. rewrite defer_next by done. apply IH.
Qed.

(** The message the edits are for. *)
Definition target (m : message) : Prop :=
  m_id m = id ∧ m_chat m = chat ∧ m_sender m = User jid ∧ m_server m = Some (Server jid)
  ∧ m_own m = own ∧ m_deleted m = false.

Lemma target_upd m v : target m → target (upd m v).
Proof. unfold target, upd. case_bool_decide; done. Qed.

Lemma apply_target archive m a :
  not_archived archive → target m →
  applyMessageEditWith chat snd own (edit_of a) (a_fallback a) (archive ++ [m]) = archive ++ [upd m (version_of a)].
Proof.
  intros Ha (H1 & H2 & H3 & H4 & H5 & H6). unfold applyMessageEditWith. simpl.
  destruct (String.eqb_spec id "") as [|_]; [done|]. rewrite Hsplit, map_app. f_equal.
  - unfold not_archived in Ha. induction archive as [|x archive IH]; [done|]. simpl in *.
    apply orb_false_iff in Ha as [Hx Ha]. rewrite IH by done. f_equal.
    rewrite bool_decide_eq_false_2; [done|]. intros (E1 & E2 & _). rewrite E1, E2, !String.eqb_refl in Hx. done.
  - simpl. unfold upd. simpl. f_equal. rewrite H1, H2, H3, H4, H5, H6.
    rewrite (bool_decide_ext _ (m_edit_timestamp m < stamp_of (edit_of a) (a_fallback a))) by tauto. done.
Qed.

Lemma applies_target archive m arrivals :
  not_archived archive → target m →
  foldl (λ ar a, applyMessageEditWith chat snd own (edit_of a) (a_fallback a) ar) (archive ++ [m]) arrivals
  = archive ++ [foldl upd m (map version_of arrivals)].
Proof.
  intros Ha. revert m. induction arrivals as [|a arrivals IH]; intros m Hm; [done|]. cbn [foldl map].
  rewrite apply_target by done. by apply IH, target_upd.
Qed.

Lemma consume_target archive m s v arrived now :
  not_archived archive → target m → ID s = id → ChatJID s = chat → Sender s = snd → IsFromMe s = own →
  now < arrived + pendingEditTTL →
  consumePendingEdits s now (archive ++ [m], [one_row v arrived]) = (archive ++ [upd m v], []).
Proof.
  intros Ha Hm Hs1 Hs2 Hs3 Hs4 Hnow. unfold consumePendingEdits, prunePendingEdits.
  rewrite filter_cons_True, filter_nil by done. f_equal.
  - rewrite map_app. f_equal.
    + unfold not_archived in Ha. induction archive as [|x archive IH]; [done|]. simpl in *.
      apply orb_false_iff in Ha as [Hx Ha]. rewrite IH by done. f_equal. unfold consume_row.
      rewrite Hs3, Hsplit. rewrite bool_decide_eq_false_2; [done|]. rewrite Hs1, Hs2. intros (E1 & E2 & _).
      rewrite E1, E2, !String.eqb_refl in Hx. done.
    + simpl. f_equal. destruct Hm as (H1 & H2 & H3 & H4 & H5 & H6). unfold consume_row.
      rewrite Hs3, Hsplit, bool_decide_eq_true_2 by (by rewrite Hs1, Hs2, Hs4).
      rewrite filter_cons_True; [done|]. unfold candidate. destruct (splitSenderJID (EditAuthorAlias s)).
      simpl. rewrite H1, H2, H3, H4, H5, !String.eqb_refl, eqb_reflx, bool_decide_eq_true_2 by done. done.
  - rewrite filter_cons_False; [done|]. simpl. unfold own_chat. rewrite Hs1, Hs2, String.eqb_refl. tauto.
Qed.

End Agree.

(** ** Properties *)

(** Whatever edits, originals, replays and migrations arrive, the table of
    waiting edits keeps at most 32 rows per author and chat, 128 per chat and
    1024 in all, one row per key, and every row expires 24 hours after its
    first arrival. *)
Theorem pending_table_bounded `{JidOps} (archive : list message) (st : list message * list pending)
    (Hs : rtc pending_step (archive, []) st) : table_ok st.2.
Proof.
  assert (table_ok ((archive, [] : list pending).2)) as H0 by exact empty_table_ok.
  revert H0. induction Hs as [|x y z Hxy _ IH]; [done|]. intros Hx. apply IH. by apply (pending_step_ok x).
Qed.

Definition sample_sender : string := "5511@s.whatsapp.net".

(** An edit of message "M1" in a chat, before the message. *)
Definition sample_deferred : list message * list pending :=
  applyOrDeferMessageEdit (H := RefJid.ops) "5511@s.whatsapp.net" sample_sender false
    {| e_id := "M1"; e_edited := Some ("new text", ""); e_stamp := 20 |} 15 1000 ([], []).

Lemma pending_table_bounded_witness : table_ok sample_deferred.2 ∧ length sample_deferred.2 = 1%nat.
Proof.
  split; [|vm_compute; reflexivity].
  apply (pending_table_bounded (H := RefJid.ops) []). eapply rtc_l; [|apply rtc_refl]. apply step_edit.
Defined.

(** [C22] Edits of one message by its author give the same archive whether they
    arrive before or after the message: deferring them all and then storing the
    message equals storing it and then applying them in the order of arrival,
    and nothing stays in the table.  This holds for a waiting table that starts empty (so nothing is evicted), for
    edits with a positive stamp whose ids, texts and mentions fit the size limit of a waiting edit, and when the
    later edits and the message come less than 24 hours after the first edit;
    an edit that is oversized, that expired or that a full table gave up is dropped, by design, and then the two
    orders differ. *)
Theorem deferred_edits_equal_applied `{JidOps} (chat snd id : string) (own : bool) (jid : JID)
    (archive : list message) (m : message) (s : storedMessage) (first : arrival) (arrivals : list arrival)
    (now : Z)
    (Hjid : pendingEditUserJID snd = Some jid)
    (Hsplit : splitSenderJID snd = (User jid, Some (Server jid)))
    (Hchat : chat ≠ "") (Hid : id ≠ "")
    (Harch : not_archived chat id archive) (Hm : target chat id own jid m)
    (Hs : ID s = id ∧ ChatJID s = chat ∧ Sender s = snd ∧ IsFromMe s = own)
    (Hfirst : admissible chat snd id first)
    (Hall : Forall (λ a, admissible chat snd id a ∧ a_now a < a_now first + pendingEditTTL) arrivals)
    (Hnow : now < a_now first + pendingEditTTL) :
  let deferred := foldl (defer chat snd id own) (archive, []) (first :: arrivals) in
  consumePendingEdits s now (deferred.1 ++ [m], deferred.2) =
  (foldl (λ ar a, applyMessageEditWith chat snd own (edit_of id a) (a_fallback a) ar)
     (archive ++ [m]) (first :: arrivals), []).
Proof.
  destruct Hs as (Hs1 & Hs2 & Hs3 & Hs4). intros deferred.
  assert (deferred = (archive, [one_row chat id own jid
    (foldl newer_version (version_of id first) (map (version_of id) arrivals)) (a_now first)])) as ->.
  { unfold deferred. cbn [foldl]. rewrite (defer_first _ _ _ _ jid) by done.
    by apply (defers_next _ _ _ _ jid). }
  cbn [fst Datatypes.snd]. rewrite (consume_target chat snd id own jid) by done.
  rewrite (applies_target chat snd id own jid) by done.
  by rewrite <-foldl_upd.
Qed.

Definition sample_message : message :=
  {| m_id := "M1"; m_chat := "5511@s.whatsapp.net"; m_sender := "5511"; m_server := Some DefaultUserServer;
     m_own := false; m_content := "old text"; m_mentions := ""; m_edit_timestamp := 0; m_deleted := false |}.

Definition sample_stored : storedMessage :=
  {| ID := "M1"; ChatJID := "5511@s.whatsapp.net"; Sender := sample_sender; IsFromMe := false;
     EditAuthorAlias := ""; EditChatAlias := "" |}.

Definition sample_arrivals : list arrival := [
  {| a_text := "second"; a_ment := ""; a_stamp := 30; a_fallback := 15; a_now := 1000 |};
  {| a_text := "first"; a_ment := ""; a_stamp := 20; a_fallback := 15; a_now := 1001 |}].

Lemma deferred_edits_equal_applied_witness :
  let deferred := foldl (defer (H := RefJid.ops) "5511@s.whatsapp.net" sample_sender "M1" false) ([], []) sample_arrivals in
  (consumePendingEdits sample_stored 2000 (deferred.1 ++ [sample_message], deferred.2)).1
  = [edit_message "second" "" 30 sample_message].
Proof.
  intros deferred. unfold deferred, sample_arrivals.
  rewrite (deferred_edits_equal_applied (H := RefJid.ops) "5511@s.whatsapp.net" sample_sender "M1" false
    {| RefJid.ref_user := "5511"; RefJid.ref_device := ""; RefJid.ref_server := DefaultUserServer |}).
  - vm_compute. reflexivity.
  - vm_compute. reflexivity.
  - vm_compute. reflexivity.
  - discriminate.
  - discriminate.
  - reflexivity.
  - repeat split.
  - repeat split.
  - split; [reflexivity|]. unfold pendingEditMaxBytes. cbn [String.length sample_sender a_text a_ment]. lia.
  - constructor; [|constructor]. split; [split; [reflexivity|]|reflexivity].
    unfold pendingEditMaxBytes. cbn [String.length sample_sender a_text a_ment]. lia.
  - reflexivity.
Defined.

(** A waiting edit changes a stored message only when it targets that
    message in its chat or the verified alias of the chat, comes from the same
    account side and from the author or the verified alias of the author, is
    newer than the text it replaces, and the message is not deleted; of several
    the newest is taken. *)
Theorem consumed_edit_authorised (s : storedMessage) (t : list pending) (m : message) :
  consume_row s t m = m ∨
  ∃ p, p ∈ t ∧ candidate s m p = true ∧ m_deleted m = false ∧ m_id m = ID s ∧ m_chat m = ChatJID s ∧
    m_edit_timestamp m < edit_timestamp p ∧
    consume_row s t m = edit_message (content p) (mentions p) (edit_timestamp p) m ∧
    ∀ q, q ∈ t → candidate s m q = true → edit_timestamp q ≤ edit_timestamp p.
Proof.
  unfold consume_row. destruct (splitSenderJID (Sender s)) as [user server].
  case_bool_decide as Hm; [|by left]. destruct Hm as (H1 & H2 & _ & _ & _ & H6).
  pose proof (newest_edit_spec (filter (λ p, candidate s m p = true) t)) as Hnew.
  destruct (newest_edit _) as [p|]; [|by left]. destruct Hnew as [[Hc Hp]%list_elem_of_filter Hmax].
  case_bool_decide as Hlt; [|by left]. right. exists p. split_and!; try done.
  intros q Hq Hcq. apply Hmax. by apply list_elem_of_filter.
Qed.

(** The retry of a stale preparation calls the write at most three times
    and returns its first result that is not a changed identity set, or the
    third result. *)
Theorem retry_bounded {A} (write : nat → bool * A) :
  let '(err, calls) := retryPendingEditPreparation write in
  (1 ≤ calls ≤ 3)%nat ∧ err = (write (calls - 1)%nat).2 ∧
  (∀ i, (i < calls - 1)%nat → (write i).1 = true) ∧
  (calls < 3 → (write (calls - 1)%nat).1 = false)%nat.
Proof.
  unfold retryPendingEditPreparation. simpl.
  destruct (write 0%nat) as [c0 e0] eqn:E0. destruct c0; simpl.
  - destruct (write 1%nat) as [c1 e1] eqn:E1. destruct c1; simpl.
    + destruct (write 2%nat) as [c2 e2] eqn:E2. simpl. rewrite E2. split; [lia|]. split; [done|]. split; [|lia].
      intros i Hi. assert (i = 0 ∨ i = 1)%nat as [-> | ->] by lia; by rewrite ?E0, ?E1.
    + rewrite E1. split; [lia|]. split; [done|]. split; [|done].
      intros i Hi. assert (i = 0)%nat as -> by lia. by rewrite E0.
  - rewrite E0. split; [lia|]. split; [done|]. split; [lia|done].
Qed.
