(* ===== verification/Caches.v ===== *)
(** * Two bounded memories: registered numbers and cooling media retries
    ([recipient_cache.go], [media_retry_cooldown.go])

    Both are maps behind a mutex; every critical section is one operation.
    Go iterates a map in an unspecified order: an operation that iterates takes
    the order as the argument [iter], and the theorems hold for all orders. *)
From S2P Require Import Prelude Jid Config.
#[local] Open Scope Z_scope.

Module RecipientCache.

Definition recipientCacheLimit : nat := 256.
Definition recipientCacheTTL : Z := hour_ns.

Section Cache.
Context `{JidOps}.

Record entry := { jid : JID; expires : Z }.

Record cache := { entries : gmap string entry; generation : Z }.

Definition empty : cache := {| entries := ∅; generation := 0 |}.

Definition clear (c : cache) : cache :=
  {| entries := ∅; generation := wrap_uint64 (generation c + 1) |}.

(** The first critical section of [queryRegisteredNumber]: a fresh entry
    answers; otherwise the key is dropped and the generation remembered. *)
Definition begin_query (key : string) (now : Z) (c : cache) : cache * (JID + Z) :=
  match entries c !! key with
  | Some e => if bool_decide (now < expires e) then (c, inl (jid e))
              else ({| entries := delete key (entries c); generation := generation c |}, inr (generation c))
  | None => ({| entries := delete key (entries c); generation := generation c |}, inr (generation c))
  end.

(** The scan for the entry that expires first. *)
#[export] Instance entry_eq_dec : EqDecision entry.
Proof. solve_decision. Defined.

Definition oldest_step (acc : string * Z) (ke : string * entry) : string * Z :=
  if String.eqb acc.1 "" || bool_decide (expires ke.2 < acc.2) then (ke.1, expires ke.2) else acc.

Definition oldest (iter : list (string * entry)) : string := (foldl oldest_step ("", 0) iter).1.

(** The first positive answer, when it names a phone number. *)
Fixpoint cacheable (answers : list IsOnWhatsAppResponse) : option JID :=
  match answers with
  | [] => None
  | answer :: rest =>
      if negb (IsIn answer) then cacheable rest
      else let j := registeredPhoneJID answer in
           if negb (IsEmpty j) && isPhoneDigits (User j) then Some j else None
  end.

(** The second critical section, after the answers; [live] says that the
    request was not cancelled.  First whether it stores anything. *)
Definition storable (gen : Z) (answers : list IsOnWhatsAppResponse) (live : bool) (c : cache) : option JID :=
  match cacheable answers with
  | Some j => if live && Z.eqb (generation c) gen then Some j else None
  | None => None
  end.

Definition finish_query (key : string) (gen : Z) (answers : list IsOnWhatsAppResponse) (live : bool)
    (now : Z) (iter : list (string * entry)) (c : cache) : cache :=
  match storable gen answers live c with
  | Some j =>
      let kept := if bool_decide (entries c !! key = None) && bool_decide (recipientCacheLimit ≤ size (entries c))%nat
                  then delete (oldest iter) (entries c) else entries c in
      {| entries := <[key := {| jid := j; expires := now + recipientCacheTTL |}]> kept;
         generation := generation c |}
  | None => c
  end.

(** ** Lemmas *)

Lemma oldest_in iter acc :
  let r := foldl oldest_step acc iter in
  r = acc ∨ ∃ e, (r.1, e) ∈ iter ∧ r.2 = expires e.
Proof.
  revert acc. induction iter as [|[k e] iter IH]; intros acc; [by left|]. simpl.
  assert (oldest_step acc (k, e) = acc ∨ oldest_step acc (k, e) = (k, expires e)) as Hs.
  { unfold oldest_step. simpl. destruct (_ || _); auto. }
  destruct (IH (oldest_step acc (k, e))) as [Hr|(e' & Hin & He)].
  - rewrite Hr. destruct Hs as [->| ->]; [by left|]. right. exists e. split; [by left|done].
  - right. exists e'. split; [by right|done].
Qed.

(** When no key is empty, nothing in the map expires before the choice. *)
Lemma oldest_min iter acc :
  Forall (λ ke, ke.1 ≠ "") iter → acc.1 ≠ "" →
  let r := foldl oldest_step acc iter in r.2 ≤ acc.2 ∧ ∀ ke, ke ∈ iter → r.2 ≤ expires ke.2.
Proof.
  revert acc. induction iter as [|[k e] iter IH]; intros acc Hall Hacc; [split; [done|set_solver]|].
  apply Forall_cons in Hall as [Hk Hall]. simpl in *.
  assert ((oldest_step acc (k, e)).1 ≠ "" ∧ (oldest_step acc (k, e)).2 ≤ acc.2
          ∧ (oldest_step acc (k, e)).2 ≤ expires e) as (H1 & H2 & H3).
  { unfold oldest_step. simpl. destruct (String.eqb_spec acc.1 "") as [|_]; [done|]. simpl.
    case_bool_decide; simpl; split_and!; (done || lia). }
  destruct (IH _ Hall H1) as [IH1 IH2]. split; [lia|].
  intros ke [->|Hke]%elem_of_cons; simpl; [lia|auto].
Qed.

Definition bounded (c : cache) : Prop := (size (entries c) ≤ recipientCacheLimit)%nat.

Lemma begin_bounded key now c : bounded c → bounded (begin_query key now c).1.
Proof.
  unfold bounded, begin_query. intros Hb. pose proof (map_size_delete key (entries c)) as Hd.
  destruct (entries c !! key); simpl in *; [case_bool_decide; simpl; [done|]|]; rewrite Hd; lia.
Qed.

Lemma finish_bounded key gen answers live now iter c :
  iter ≡ₚ map_to_list (entries c) → bounded c → bounded (finish_query key gen answers live now iter c).
Proof.
  intros Hiter Hb. unfold finish_query, bounded in *. destruct (storable _ _ _ _) as [j|]; [|done]. simpl. rewrite map_size_insert.
  destruct (entries c !! key) as [e|] eqn:Hk.
  { rewrite bool_decide_eq_false_2 by done. simpl. by rewrite Hk. }
  rewrite bool_decide_eq_true_2 by done. simpl. case_bool_decide as Hfull.
  - assert (delete (oldest iter) (entries c) !! key = None) as -> by (rewrite lookup_delete_None; by right).
    assert (∃ e, entries c !! oldest iter = Some e) as [e He].
    { unfold oldest. destruct iter as [|[k0 e0] iter'].
      - apply Permutation_nil_l, symmetry in Hiter. apply map_to_list_empty_iff in Hiter.
        rewrite Hiter, map_size_empty in Hfull. unfold recipientCacheLimit in Hfull. lia.
      - simpl. destruct (oldest_in iter' (oldest_step ("", 0) (k0, e0))) as [->|(e & Hin & _)].
        + exists e0. apply elem_of_map_to_list. rewrite <-Hiter. by left.
        + exists e. apply elem_of_map_to_list. rewrite <-Hiter. by right. }
    rewrite map_size_delete, He. unfold recipientCacheLimit in *. simpl. lia.
  - rewrite Hk. lia.
Qed.

(** ** Requests in flight across clears *)

(** The cache, the number of clears so far, the requests in flight (key,
    remembered generation, clears at their start), and for every cached key the
    number of clears when its request began. *)
Record world := {
  w_cache : cache;
  w_epoch : nat;
  w_flight : list (string * Z * nat);
  w_origin : gmap string nat;
}.

Inductive cache_step : world → world → Prop :=
| step_begin key now w c g :
    begin_query key now (w_cache w) = (c, inr g) →
    cache_step w {| w_cache := c; w_epoch := w_epoch w; w_flight := (key, g, w_epoch w) :: w_flight w;
                    w_origin := w_origin w |}
| step_hit key now w c j :
    begin_query key now (w_cache w) = (c, inl j) →
    cache_step w {| w_cache := c; w_epoch := w_epoch w; w_flight := w_flight w; w_origin := w_origin w |}
| step_finish key g e answers live now iter w l1 l2 :
    w_flight w = l1 ++ (key, g, e) :: l2 → iter ≡ₚ map_to_list (entries (w_cache w)) →
    let c := finish_query key g answers live now iter (w_cache w) in
    cache_step w {| w_cache := c; w_epoch := w_epoch w; w_flight := l1 ++ l2;
                    w_origin := match storable g answers live (w_cache w) with
                                | Some _ => <[key := e]> (w_origin w)
                                | None => w_origin w
                                end |}
| step_clear w :
    cache_step w {| w_cache := clear (w_cache w); w_epoch := S (w_epoch w); w_flight := w_flight w;
                    w_origin := w_origin w |}.

Definition initial : world := {| w_cache := empty; w_epoch := 0; w_flight := []; w_origin := ∅ |}.

Record world_ok (w : world) : Prop := {
  ok_bounded : bounded (w_cache w);
  ok_generation : generation (w_cache w) = wrap_uint64 (Z.of_nat (w_epoch w));
  ok_flight : Forall (λ '(_, g, e), g = wrap_uint64 (Z.of_nat e) ∧ (e ≤ w_epoch w)%nat) (w_flight w);
  ok_origin : Z.of_nat (w_epoch w) < 2 ^ 64 →
    ∀ k, is_Some (entries (w_cache w) !! k) → w_origin w !! k = Some (w_epoch w);
}.

Lemma begin_entries key now c k :
  is_Some (entries (begin_query key now c).1 !! k) → is_Some (entries c !! k).
Proof.
  unfold begin_query. destruct (entries c !! key); simpl; [case_bool_decide; simpl; [done|]|];
    rewrite lookup_delete_is_Some; tauto.
Qed.

Lemma begin_generation key now c : generation (begin_query key now c).1 = generation c.
Proof. unfold begin_query. repeat case_match; done. Qed.

Lemma begin_miss key now c c' g : begin_query key now c = (c', inr g) → g = generation c.
Proof. unfold begin_query. repeat case_match; intros; by simplify_eq. Qed.

Lemma finish_entries key g answers live now iter c k :
  is_Some (entries (finish_query key g answers live now iter c) !! k) →
  (k = key ∧ is_Some (storable g answers live c)) ∨ is_Some (entries c !! k).
Proof.
  unfold finish_query. destruct (storable g answers live c) as [j|]; [|by right]. simpl.
  rewrite lookup_insert_is_Some. intros [->|[_ Hk]]; [by left|right].
  destruct (_ && _); [|done]. by apply lookup_delete_is_Some in Hk as [_ ?].
Qed.

Lemma finish_generation key g answers live now iter c :
  generation (finish_query key g answers live now iter c) = generation c.
Proof. unfold finish_query. by case_match. Qed.

Lemma storable_generation g answers live c j : storable g answers live c = Some j → generation c = g.
Proof. unfold storable. repeat case_match; intros; simplify_eq. bool_split. by apply Z.eqb_eq. Qed.

Lemma cache_step_ok w w' : world_ok w → cache_step w w' → world_ok w'.
Proof.
  intros [Hb Hg Hf Ho] Hs. destruct Hs as [key now w c g Hq|key now w c j Hq|key g e answers live now iter w l1 l2 Hl Hi c|w].
  - pose proof (begin_miss _ _ _ _ _ Hq) as ->. pose proof (begin_bounded key now _ Hb) as Hb'.
    pose proof (begin_generation key now (w_cache w)) as Hg'. pose proof (begin_entries key now (w_cache w)) as He.
    rewrite Hq in *. simpl in *. split; simpl; [done|congruence| |eauto].
    constructor; [split; [done|lia]|done].
  - pose proof (begin_bounded key now _ Hb) as Hb'.
    pose proof (begin_generation key now (w_cache w)) as Hg'. pose proof (begin_entries key now (w_cache w)) as He.
    rewrite Hq in *. simpl in *. split; simpl; [done|congruence|done|eauto].
  - rewrite Hl in Hf. apply Forall_app in Hf as [Hf1 [[Hge Hle] Hf2]%Forall_cons].
    split; simpl; unfold c.
    + by apply finish_bounded.
    + by rewrite finish_generation.
    + by apply Forall_app.
    + intros Hw k Hk. specialize (Ho Hw). apply finish_entries in Hk.
      destruct (storable g answers live (w_cache w)) as [j|] eqn:Hst.
      * apply storable_generation in Hst.
        assert (e = w_epoch w) as -> by (apply Nat2Z.inj; rewrite <-(wrap_uint64_id (Z.of_nat e)),
          <-(wrap_uint64_id (Z.of_nat (w_epoch w))) by (unfold in_uint64, max_uint64; lia); congruence).
        destruct (decide (k = key)) as [->|Hne]; [by rewrite lookup_insert_eq|].
        rewrite lookup_insert_ne by done. apply Ho. naive_solver.
      * apply Ho. destruct Hk as [[_ [? ?]]|]; done.
  - split; simpl.
    + unfold bounded. simpl. rewrite map_size_empty. unfold recipientCacheLimit. lia.
    + unfold wrap_uint64 in *. rewrite Hg, Zplus_mod_idemp_l. f_equal. lia.
    + eapply Forall_impl; [exact Hf|]. intros [[? ?] ?] [? ?]. split; [done|lia].
    + intros _ k. rewrite lookup_empty. by intros [? ?].
Qed.

Lemma cache_initial_ok : world_ok initial.
Proof.
  split; simpl; [unfold bounded; simpl; rewrite map_size_empty; lia|done|by apply Forall_nil|].
  intros _ k. rewrite lookup_empty. by intros [? ?].
Qed.

Lemma cache_reachable_ok w : rtc cache_step initial w → world_ok w.
Proof.
  assert (∀ w0, rtc cache_step w0 w → world_ok w0 → world_ok w) as Hall.
  { intros w0 Hs. induction Hs; eauto using cache_step_ok. }
  eauto using cache_initial_ok.
Qed.

End Cache.

(** ** Properties *)

(** In every interleaving of lookups, answers and clears, the cache holds
    at most 256 numbers, and every cached number was asked for after the last
    clear: an answer in flight across a reconnect or logout stays out (the
    64-bit generation not having wrapped). *)
Theorem answers_before_a_clear_stay_out `{JidOps} (w : world) (Hw : rtc cache_step initial w) :
  (size (entries (w_cache w)) ≤ recipientCacheLimit)%nat ∧
  (Z.of_nat (w_epoch w) < 2 ^ 64 →
   ∀ k, is_Some (entries (w_cache w) !! k) → w_origin w !! k = Some (w_epoch w)).
Proof. apply cache_reachable_ok in Hw as [Hb _ _ Ho]. done. Qed.

Lemma answers_before_a_clear_stay_out_witness :
  let w := {| w_cache := (begin_query (H := RefJid.ops) "+5511" 7 empty).1; w_epoch := 0;
              w_flight := [("+5511", 0, 0%nat)]; w_origin := ∅ |} in
  (size (entries (w_cache w)) ≤ 256)%nat.
Proof.
  intros w. apply (answers_before_a_clear_stay_out (H := RefJid.ops) w).
  eapply rtc_l; [|apply rtc_refl]. by apply (step_begin "+5511" 7 initial).
Defined.

(** A lookup answers from the cache exactly when the number was stored less
    than an hour before by an answer naming a phone number, with the address of
    that answer; a store under a stale generation or by a cancelled request
    changes nothing. *)
Theorem cached_answer_fresh `{JidOps} (key : string) (gen : Z) (answers : list IsOnWhatsAppResponse)
    (live : bool) (stored now : Z) (iter : list (string * entry)) (c : cache) :
  let c' := finish_query key gen answers live stored iter c in
  match storable gen answers live c with
  | None => c' = c
  | Some j =>
      IsEmpty j = false ∧ isPhoneDigits (User j) = true ∧ live = true ∧ gen = generation c ∧
      ((begin_query key now c').2 = if bool_decide (now < stored + recipientCacheTTL)
                                    then inl j else inr (generation c))
  end.
Proof.
  intros c'. unfold c', finish_query. destruct (storable gen answers live c) as [j|] eqn:Hs; [|done].
  unfold storable in Hs. destruct (cacheable answers) as [j'|] eqn:Hc; [|done].
  destruct (live && _) eqn:Hl; simplify_eq. bool_split.
  assert (IsEmpty j = false ∧ isPhoneDigits (User j) = true) as [Hj1 Hj2].
  { clear -Hc. induction answers as [|a answers IH]; simpl in *; [done|].
    destruct (IsIn a); simpl in *; [|auto]. case_match; simplify_eq. bool_split. done. }
  split_and!; try done; [symmetry; by apply Z.eqb_eq|].
  unfold begin_query. simpl. rewrite lookup_insert_eq. simpl. by case_bool_decide.
Qed.
End RecipientCache.

Module RetryCooldown.

Definition mediaRetryAnsweredCooldown : Z := 7 * 24 * hour_ns.
Definition mediaRetryUnansweredCooldown : Z := hour_ns.
Definition mediaRetryCooldownMax : nat := 4096.

(** A failed retry: the phone answered without the file ([phoneRetryAnswer]),
    the media is gone for good ([errMediaUnavailable]), or nothing came back. *)
Inductive retry_error : Type :=
| PhoneAnswered (msg : string)
| MediaUnavailable (msg : string)
| NoAnswer (msg : string).

Record backoff := { until : Z; err : retry_error }.

Abbreviation key := (string * string)%type.
Abbreviation cooldown := (gmap (string * string) backoff).

(** [active]: the remembered failure while the message is cooling down. *)
Definition active (k : key) (now : Z) (c : cooldown) : cooldown * option backoff :=
  match c !! k with
  | None => (c, None)
  | Some e => if bool_decide (now < until e) then (c, Some e) else (delete k c, None)
  end.

Definition wait_for (e : retry_error) : Z :=
  match e with
  | PhoneAnswered _ | MediaUnavailable _ => mediaRetryAnsweredCooldown
  | NoAnswer _ => mediaRetryUnansweredCooldown
  end.

(** [evictLocked]: the expired entries go; failing that, the one due soonest. *)
Definition soonest_step (now : Z) (acc : option (key * Z)) (ke : key * backoff) : option (key * Z) :=
  if bool_decide (until ke.2 ≤ now) then acc
  else match acc with
       | Some (_, at_) => if bool_decide (until ke.2 < at_) then Some (ke.1, until ke.2) else acc
       | None => Some (ke.1, until ke.2)
       end.

Definition unexpired (now : Z) (c : cooldown) : cooldown := filter (λ ke, now < until ke.2) c.

Definition evictLocked (now : Z) (iter : list (key * backoff)) (c : cooldown) : cooldown :=
  let live := unexpired now c in
  if bool_decide (mediaRetryCooldownMax ≤ size live)%nat
  then match foldl (soonest_step now) None iter with
       | Some (k, _) => delete k live
       | None => live
       end
  else live.

(** [note]: remembers a failed retry and returns its backoff. *)
Definition note (k : key) (e : retry_error) (now : Z) (iter : list (key * backoff)) (c : cooldown) :
    cooldown * backoff :=
  let b := {| until := now + wait_for e; err := e |} in
  let c := if bool_decide (c !! k = None) && bool_decide (mediaRetryCooldownMax ≤ size c)%nat
           then evictLocked now iter c else c in
  (<[k := b]> c, b).

Definition forget (k : key) (c : cooldown) : cooldown := delete k c.

(** ** Lemmas *)

Lemma soonest_spec now iter acc :
  match foldl (soonest_step now) acc iter with
  | Some (k, t) => acc = Some (k, t) ∨ ∃ e, (k, e) ∈ iter ∧ t = until e ∧ now < until e
  | None => acc = None ∧ ∀ ke, ke ∈ iter → until ke.2 ≤ now
  end.
Proof.
  revert acc. induction iter as [|[k e] iter IH]; intros acc; simpl.
  { destruct acc as [[? ?]|]; [by left|]. split; [done|]. intros ke ?%not_elem_of_nil. done. }
  specialize (IH (soonest_step now acc (k, e))).
  assert (soonest_step now acc (k, e) = acc ∧ (acc = None → until e ≤ now)
          ∨ soonest_step now acc (k, e) = Some (k, until e) ∧ now < until e) as Hs.
  { unfold soonest_step. simpl. case_bool_decide; [left; done|]. destruct acc as [[? ?]|];
      [|right; split; [done|lia]]. case_bool_decide; [right; split; [done|lia]|left; done]. }
  destruct (foldl _ _ iter) as [[k' t]|].
  - destruct IH as [IH|(e' & ? & ? & ?)]; [|right; exists e'; split; [by right|done]].
    destruct Hs as [[Hs _]|[Hs Hlt]]; [left; congruence|].
    right. exists e. rewrite Hs in IH. simplify_eq. split; [by left|done].
  - destruct IH as [IH Hall]. destruct Hs as [[Hs Hle]|[Hs _]]; [|congruence].
    rewrite Hs in IH. split; [done|]. intros ke [->|Hke]%elem_of_cons; simpl; auto.
Qed.

Definition bounded (c : cooldown) : Prop := (size c ≤ mediaRetryCooldownMax)%nat.

Lemma size_filter_le (now : Z) (c : cooldown) : (size (unexpired now c) ≤ size c)%nat.
Proof. apply map_size_filter. Qed.

Lemma evict_room now iter c :
  iter ≡ₚ map_to_list c → bounded c → (size (evictLocked now iter c) < mediaRetryCooldownMax)%nat.
Proof.
  intros Hiter Hb. unfold evictLocked. case_bool_decide as Hfull; [|lia].
  set (live := unexpired now c) in *. pose proof (size_filter_le now c) as Hle. fold live in Hle.
  pose proof (soonest_spec now iter None) as Hs.
  destruct (foldl _ _ iter) as [[k t]|].
  - destruct Hs as [?|(e & Hin & _ & Hlt)]; [done|].
    assert (live !! k = Some e) as Hk.
    { apply map_lookup_filter_Some. split; [|done]. apply elem_of_map_to_list. by rewrite <-Hiter. }
    rewrite map_size_delete, Hk. unfold bounded, mediaRetryCooldownMax in *. lia.
  - destruct Hs as [_ Hall]. exfalso.
    assert (live = ∅) as Hempty.
    { apply map_empty. intros k. apply map_lookup_filter_None. right. intros e Hk. simpl.
      assert ((k, e) ∈ iter) as Hin by (rewrite Hiter; by apply elem_of_map_to_list).
      specialize (Hall _ Hin). simpl in Hall. lia. }
    rewrite Hempty, map_size_empty in Hfull. unfold mediaRetryCooldownMax in Hfull. lia.
Qed.

Lemma note_bounded k e now iter c :
  iter ≡ₚ map_to_list c → bounded c → bounded (note k e now iter c).1.
Proof.
  intros Hiter Hb. unfold note, bounded. simpl. rewrite map_size_insert.
  destruct (c !! k) as [b|] eqn:Hk.
  { rewrite bool_decide_eq_false_2 by done. simpl. by rewrite Hk. }
  rewrite bool_decide_eq_true_2 by done. simpl. case_bool_decide as Hfull.
  - pose proof (evict_room now iter c Hiter Hb). case_match; simpl; unfold id; lia.
  - rewrite Hk. lia.
Qed.

(** An unexpired failure survives an eviction unless the memory is full of
    unexpired ones. *)
Lemma evict_keeps now iter c k e :
  c !! k = Some e → now < until e →
  (size (unexpired now c) < mediaRetryCooldownMax)%nat →
  evictLocked now iter c !! k = Some e.
Proof.
  intros Hk Hlt Hroom. unfold evictLocked. rewrite bool_decide_eq_false_2 by lia.
  by apply map_lookup_filter_Some.
Qed.

(** ** Properties *)

(** A noted failure is given back unchanged to every caller until its
    cooldown ends (seven days when the phone answered or the media is gone, an
    hour otherwise) and forgotten from then on; noting keeps the memory within
    4096 messages and, with room for the unexpired ones, forgets none of them. *)
Theorem cooldown_remembers (k : key) (e : retry_error) (now later : Z) (iter : list (key * backoff))
    (c : cooldown) (Hiter : iter ≡ₚ map_to_list c) (Hb : bounded c) :
  let '(c', b) := note k e now iter c in
  until b = now + wait_for e ∧ err b = e ∧ bounded c' ∧
  (active k later c').2 = (if bool_decide (later < now + wait_for e) then Some b else None) ∧
  (∀ k' e', k' ≠ k → c !! k' = Some e' → now < until e' →
     (size (unexpired now c) < mediaRetryCooldownMax)%nat → c' !! k' = Some e').
Proof.
  pose proof (note_bounded k e now iter c Hiter Hb) as Hbd.
  unfold note in *. simpl in *. split_and!; [done..| |].
  - unfold active. rewrite lookup_insert_eq. cbn [until]. by destruct (bool_decide (later < now + wait_for e)).
  - intros k' e' Hne Hk Hlt Hroom. rewrite lookup_insert_ne by done.
    destruct (_ && _); [by apply evict_keeps|done].
Qed.

Lemma cooldown_remembers_witness :
  (active ("chat", "M1") (mediaRetryUnansweredCooldown - 1)
     (note ("chat", "M1") (NoAnswer "timeout") 0 [] ∅).1).2
  = Some {| until := mediaRetryUnansweredCooldown; err := NoAnswer "timeout" |}.
Proof.
  destruct (cooldown_remembers ("chat", "M1") (NoAnswer "timeout") 0 (mediaRetryUnansweredCooldown - 1) [] ∅)
    as (_ & _ & _ & Ha & _).
  - rewrite map_to_list_empty. done.
  - unfold bounded. rewrite map_size_empty. apply Nat.le_0_l.
  - etransitivity; [exact Ha|]. reflexivity.
Defined.

(** After a retry brought the file nothing is remembered for its message
    and the other messages keep cooling down. *)
Theorem forget_one (k k' : key) (now : Z) (c : cooldown) :
  (active k' now (forget k c)).2 = if bool_decide (k' = k) then None else (active k' now c).2.
Proof.
  unfold active, forget. case_bool_decide as Hk.
  - subst k'. by rewrite lookup_delete_eq.
  - rewrite lookup_delete_ne by done. repeat case_match; done.
Qed.
End RetryCooldown.
