(* ===== verification/Queues.v ===== *)
(** * Background work: the shared-history queue, the auto-download pool and the
    transfers in flight ([history_share_budget.go], [media_budget.go],
    [media_inflight.go])

    Each component is a step relation on its state: one step is a critical
    section, a channel operation or the end of a job, and the interleavings of
    the goroutines are the runs of the relation. *)
From S2P Require Import Prelude.

Module HistoryShareQueue.

Section Queue.
Context {Job : Type}.

(** Where the worker goroutine is: not started, in [run], past [run] but not
    yet accounted, at the select, returned. *)
Inductive worker_pc : Type :=
| NotStarted
| Running (j : Job)
| Finished
| Selecting
| Returned.

(** The fields of [historyShareQueue], with [cancelled] for [ctx.Err() != nil],
    the one slot of the channel, the submitter that passed the checks of
    [submit] and still holds the mutex, and two histories: the jobs [submit]
    accepted and the jobs [run] was called on, in order. *)
Record queue := {
  cancelled : bool;
  closed : bool;
  started : bool;
  pending : nat;
  idle_closed : bool;
  jobs : option Job;
  worker : worker_pc;
  submitter : option Job;
  accepted : list Job;
  ran : list Job;
}.

Definition newHistoryShareQueue : queue := {|
  cancelled := false; closed := false; started := false; pending := 0; idle_closed := true; jobs := None;
  worker := NotStarted; submitter := None; accepted := []; ran := [] |}.

(** The end of an accepted [submit]: a fresh idle channel when nothing was
    pending, the count raised. *)
Definition accept (q : queue) (j : Job) (slot : option Job) (w : worker_pc) : queue := {|
  cancelled := cancelled q; closed := closed q; started := true; pending := S (pending q);
  idle_closed := if Nat.eqb (pending q) 0 then false else idle_closed q;
  jobs := slot; worker := w; submitter := None; accepted := accepted q ++ [j]; ran := ran q |}.

Definition set_submitter (q : queue) (s : option Job) : queue := {|
  cancelled := cancelled q; closed := closed q; started := started q; pending := pending q;
  idle_closed := idle_closed q; jobs := jobs q; worker := worker q; submitter := s;
  accepted := accepted q; ran := ran q |}.

(** [pending--], closing the idle channel at zero. *)
Definition settle (q : queue) : queue := {|
  cancelled := cancelled q; closed := closed q; started := started q; pending := Nat.pred (pending q);
  idle_closed := if Nat.eqb (Nat.pred (pending q)) 0 then true else idle_closed q;
  jobs := jobs q; worker := Selecting; submitter := submitter q; accepted := accepted q; ran := ran q |}.

Definition set_worker (q : queue) (slot : option Job) (w : worker_pc) (r : list Job) : queue := {|
  cancelled := cancelled q; closed := closed q; started := started q; pending := pending q;
  idle_closed := idle_closed q; jobs := slot; worker := w; submitter := submitter q;
  accepted := accepted q; ran := r |}.

Definition set_cancelled (q : queue) : queue := {|
  cancelled := true; closed := closed q; started := started q; pending := pending q;
  idle_closed := idle_closed q; jobs := jobs q; worker := worker q; submitter := submitter q;
  accepted := accepted q; ran := ran q |}.

Definition seal (q : queue) : queue := {|
  cancelled := cancelled q; closed := true; started := started q; pending := pending q;
  idle_closed := idle_closed q; jobs := jobs q; worker := worker q; submitter := submitter q;
  accepted := accepted q; ran := ran q |}.

(** The steps of [submit]: the checks under the mutex, then the hand-over. *)
Inductive submit_step : queue → queue → Prop :=
| submit_check q j :
    submitter q = None → closed q = false → cancelled q = false →
    submit_step q (set_submitter q (Some j))
| submit_first q j :
    submitter q = Some j → started q = false → submit_step q (accept q j (jobs q) (Running j))
| submit_wait q j :
    submitter q = Some j → started q = true → jobs q = None →
    submit_step q (accept q j (Some j) (worker q))
| submit_full q j :
    submitter q = Some j → started q = true → jobs q ≠ None →
    submit_step q (set_submitter q None).

(** The steps of [work]; after [ctx.Done] a waiting job is still taken. *)
Inductive work_step : queue → queue → Prop :=
| work_run q j :
    worker q = Running j → work_step q (set_worker q (jobs q) Finished (ran q ++ [j]))
| work_settle q :
    worker q = Finished → submitter q = None → work_step q (settle q)
| work_take q j :
    worker q = Selecting → jobs q = Some j → work_step q (set_worker q None (Running j) (ran q))
| work_return q :
    worker q = Selecting → cancelled q = true → jobs q = None →
    work_step q (set_worker q None Returned (ran q)).

Inductive step : queue → queue → Prop :=
| step_submit q q' : submit_step q q' → step q q'
| step_work q q' : work_step q q' → step q q'
| step_cancel q : step q (set_cancelled q)
| step_seal q : submitter q = None → step q (seal q).

(** ** The invariant *)

Definition current (w : worker_pc) : list Job := match w with Running j => [j] | _ => [] end.
Definition busy (w : worker_pc) : nat := match w with Running _ | Finished => 1 | _ => 0 end.
Definition waiting (slot : option Job) : list Job := match slot with Some j => [j] | None => [] end.

Record queue_ok (q : queue) : Prop := {
  ok_order : accepted q = ran q ++ current (worker q) ++ waiting (jobs q);
  ok_pending : pending q = busy (worker q) + length (waiting (jobs q));
  ok_idle : idle_closed q = Nat.eqb (pending q) 0;
  ok_started : started q = false → worker q = NotStarted ∧ jobs q = None ∧ ran q = [];
  ok_running : started q = true → worker q ≠ NotStarted;
  ok_returned : worker q = Returned → cancelled q = true;
}.

Lemma share_step_ok q q' : queue_ok q → step q q' → queue_ok q'.
Proof.
  intros [Ho Hp Hi Hs Hr Hc] Hstep.
  destruct Hstep as [q q' Hsub|q q' Hwork|q|q Hsub].
  - destruct Hsub as [q j H1 H2 H3|q j H1 H2|q j H1 H2 H3|q j H1 H2 H3]; split; simpl; try done.
    + destruct (Hs H2) as (Hw & Hj & Hran). rewrite Ho, Hw, Hj. simpl. by rewrite !app_nil_r.
    + destruct (Hs H2) as (Hw & Hj & Hran). rewrite Hp, Hw, Hj. done.
    + destruct (Hs H2) as (Hw & Hj & Hran). rewrite Hp, Hw, Hj. done.
    + rewrite Ho, H3. simpl. by rewrite app_nil_r, app_assoc.
    + rewrite Hp, H3. simpl. lia.
    + destruct (Nat.eqb_spec (pending q) 0) as [|Hne]; done.
    + intros _. by apply Hr.
  - destruct Hwork as [q j H1|q H1 H2|q j H1 H2|q H1 H2 H3]; split; simpl; try done.
    + rewrite Ho, H1. simpl. by rewrite <-app_assoc.
    + rewrite Hp, H1. done.
    + intros Hf. destruct (Hs Hf) as (Hw & _ & _). congruence.
    + rewrite Ho, H1. done.
    + rewrite Hp, H1. done.
    + destruct (Nat.eqb (Nat.pred (pending q)) 0) eqn:E; [done|]. rewrite Hi.
      apply Nat.eqb_neq in E. apply Nat.eqb_neq. lia.
    + intros Hf. destruct (Hs Hf) as (Hw & _ & _). congruence.
    + rewrite Ho, H1, H2. done.
    + rewrite Hp, H1, H2. done.
    + intros Hf. destruct (Hs Hf) as (Hw & _ & _). congruence.
    + rewrite Ho, H1, H3. done.
    + rewrite Hp, H1, H3. done.
    + intros Hf. destruct (Hs Hf) as (Hw & _ & _). congruence.
  - by split.
  - by split.
Qed.

Lemma share_reachable_ok q : rtc step newHistoryShareQueue q → queue_ok q.
Proof.
  assert (queue_ok newHistoryShareQueue) as H0 by by split.
  assert (∀ q0, rtc step q0 q → queue_ok q0 → queue_ok q) as Hall.
  { intros q0 Hs. induction Hs; eauto using share_step_ok. }
  eauto.
Qed.

Lemma finish_current q :
  queue_ok q → submitter q = None → started q = true → worker q ≠ Returned →
  ∃ q', rtc work_step q q' ∧ worker q' = Selecting ∧ jobs q' = jobs q ∧ submitter q' = None
        ∧ accepted q' = accepted q ∧ ran q' = ran q ++ current (worker q).
Proof.
  intros Hok Hsub Hst Hret. destruct (worker q) as [|j| | |] eqn:Hw.
  - by destruct (ok_running q Hok Hst).
  - eexists. split; [eapply rtc_l; [by apply (work_run q j)|]; eapply rtc_l; [by apply work_settle|apply rtc_refl]|done].
  - eexists. split; [eapply rtc_l; [by apply work_settle|apply rtc_refl]|]. simpl. by rewrite app_nil_r.
  - exists q. simpl. by rewrite app_nil_r.
  - done.
Qed.

End Queue.
Arguments queue : clear implicits.
Arguments worker_pc : clear implicits.

(** ** Properties *)

(** In every interleaving of submissions, the worker, cancellation and
    sealing: at most one job runs and one waits, jobs run once each and in the
    order of acceptance, and the idle signal is closed exactly when no accepted
    job is pending. *)
Theorem history_queue_safe {Job : Type} (q : queue Job) (Hq : rtc step newHistoryShareQueue q) :
  pending q ≤ 2 ∧ (idle_closed q = true ↔ pending q = 0) ∧
  accepted q = ran q ++ current (worker q) ++ waiting (jobs q).
Proof.
  apply share_reachable_ok in Hq as [Ho Hp Hi _ _ _]. split_and!; [| |done].
  - rewrite Hp. destruct (worker q), (jobs q); simpl; lia.
  - rewrite Hi. apply Nat.eqb_eq.
Qed.

Lemma history_queue_safe_witness :
  let q := accept (set_submitter newHistoryShareQueue (Some 7)) 7 None (Running 7) in
  accepted q = ran q ++ current (worker q) ++ waiting (jobs q).
Proof.
  intros q. apply (history_queue_safe q).
  eapply rtc_l; [apply step_submit, (submit_check newHistoryShareQueue 7); reflexivity|].
  eapply rtc_l; [apply step_submit, submit_first; reflexivity|]. apply rtc_refl.
Defined.

(** Until the worker has returned, its own steps alone run every accepted
    job: no accepted job is stuck behind another. *)
Theorem history_queue_drains {Job : Type} (q : queue Job)
    (Hq : rtc step newHistoryShareQueue q) (Hs : submitter q = None) (Hst : started q = true)
    (Hw : worker q ≠ Returned) :
  ∃ q', rtc work_step q q' ∧ ran q' = accepted q ∧ accepted q' = accepted q.
Proof.
  pose proof (share_reachable_ok q Hq) as Hok.
  destruct (finish_current q Hok Hs Hst Hw) as (q1 & Hsteps & Hw1 & Hj1 & Hs1 & Ha1 & Hr1).
  destruct (jobs q) as [j|] eqn:Hj.
  - exists (set_worker (set_worker q1 None (Running j) (ran q1)) None Finished (ran q1 ++ [j])). split_and!.
    + eapply rtc_trans; [exact Hsteps|]. eapply rtc_l; [apply (work_take q1 j); [done|by rewrite Hj1]|].
      eapply rtc_l; [by apply (work_run _ j)|apply rtc_refl].
    + simpl. rewrite Hr1, (ok_order q Hok), Hj. simpl. by rewrite <-app_assoc.
    + done.
  - exists q1. split_and!; [done| |done]. rewrite Hr1, (ok_order q Hok), Hj. by rewrite app_nil_r.
Qed.

Lemma history_queue_drains_witness :
  let q := accept (set_submitter newHistoryShareQueue (Some 7)) 7 None (Running 7) in
  ∃ q', rtc work_step q q' ∧ ran q' = [7] ∧ accepted q' = [7].
Proof.
  intros q. apply (history_queue_drains q); [|reflexivity|reflexivity|discriminate].
  eapply rtc_l; [apply step_submit, (submit_check newHistoryShareQueue 7); reflexivity|].
  eapply rtc_l; [apply step_submit, submit_first; reflexivity|]. apply rtc_refl.
Defined.

(** A cancellation between the check and the hand-over of [submit] lets the
    worker return first: the job is accepted, never run, and the idle signal
    stays open. *)
Lemma accepted_after_return :
  ∃ q : queue nat, rtc step newHistoryShareQueue q ∧ worker q = Returned ∧
    accepted q = [1; 2] ∧ ran q = [1] ∧ idle_closed q = false.
Proof.
  eexists. split.
  - eapply rtc_l; [apply step_submit, (submit_check _ 1); reflexivity|].
    eapply rtc_l; [apply step_submit, submit_first; reflexivity|].
    eapply rtc_l; [apply step_work, work_run; reflexivity|].
    eapply rtc_l; [apply step_work, work_settle; reflexivity|].
    eapply rtc_l; [apply step_submit, (submit_check _ 2); reflexivity|].
    eapply rtc_l; [apply step_cancel|].
    eapply rtc_l; [apply step_work, work_return; reflexivity|].
    eapply rtc_l; [apply step_submit, submit_wait; reflexivity|]. apply rtc_refl.
  - simpl. done.
Qed.
End HistoryShareQueue.

Module MediaJobQueue.

Definition autoDownloadWorkers : nat := 4.
Definition autoDownloadQueue : nat := 256.

Section Pool.
Context {Job : Type} (workers size : nat).

(** A worker at its select, past the receive, in [run], or returned. *)
Inductive worker : Type :=
| Waiting
| Holding (j : Job)
| Fetching (j : Job)
| Gone.

(** The channel, the workers (none before the first submit), the counter of
    drops, and histories: accepted jobs, jobs a worker received, jobs [run] was
    called on, jobs given up at shutdown. *)
Record pool := {
  ctx_done : bool;
  backlog : list Job;
  crew : list worker;
  drops : nat;
  accepted : list Job;
  received : list Job;
  fetched : list Job;
  abandoned : list Job;
}.

Definition newMediaJobQueue : pool := {|
  ctx_done := false; backlog := []; crew := []; drops := 0; accepted := []; received := [];
  fetched := []; abandoned := [] |}.

(** [start.Do(startWorkers)]. *)
Definition startWorkers (q : pool) : list worker :=
  match crew q with [] => replicate workers Waiting | _ => crew q end.

(** [submit]: never blocks. *)
Definition submit (j : Job) (q : pool) : pool * bool :=
  let room := Nat.ltb (length (backlog q)) size in
  ({| ctx_done := ctx_done q; backlog := if room then backlog q ++ [j] else backlog q;
      crew := startWorkers q; drops := if room then drops q else S (drops q);
      accepted := if room then accepted q ++ [j] else accepted q;
      received := received q; fetched := fetched q; abandoned := abandoned q |}, room).

Definition fetching (w : worker) : bool := match w with Fetching _ => true | _ => false end.

Definition running (q : pool) : nat := length (filter (λ w, fetching w = true) (crew q)).

Definition set_crew (q : pool) (bl : list Job) (cr : list worker) (rc ft ab : list Job) : pool := {|
  ctx_done := ctx_done q; backlog := bl; crew := cr; drops := drops q; accepted := accepted q;
  received := rc; fetched := ft; abandoned := ab |}.

Definition set_done (q : pool) : pool := {|
  ctx_done := true; backlog := backlog q; crew := crew q; drops := drops q; accepted := accepted q;
  received := received q; fetched := fetched q; abandoned := abandoned q |}.

Inductive step : pool → pool → Prop :=
| step_submit j q : step q (submit j q).1
| step_receive i j rest q :
    crew q !! i = Some Waiting → backlog q = j :: rest →
    step q (set_crew q rest (<[i := Holding j]> (crew q)) (received q ++ [j]) (fetched q) (abandoned q))
| step_fetch i j q :
    crew q !! i = Some (Holding j) → ctx_done q = false →
    step q (set_crew q (backlog q) (<[i := Fetching j]> (crew q)) (received q) (fetched q ++ [j]) (abandoned q))
| step_abandon i j q :
    crew q !! i = Some (Holding j) → ctx_done q = true →
    step q (set_crew q (backlog q) (<[i := Gone]> (crew q)) (received q) (fetched q) (abandoned q ++ [j]))
| step_finish i j q :
    crew q !! i = Some (Fetching j) →
    step q (set_crew q (backlog q) (<[i := Waiting]> (crew q)) (received q) (fetched q) (abandoned q))
| step_exit i q :
    crew q !! i = Some Waiting → ctx_done q = true →
    step q (set_crew q (backlog q) (<[i := Gone]> (crew q)) (received q) (fetched q) (abandoned q))
| step_cancel q : step q (set_done q).

(** ** The invariant *)

Definition held (w : worker) : list Job := match w with Holding j => [j] | _ => [] end.

Record pool_ok (q : pool) : Prop := {
  ok_backlog : length (backlog q) ≤ size;
  ok_crew : length (crew q) ≤ workers;
  ok_fifo : accepted q = received q ++ backlog q;
  ok_once : received q ≡ₚ fetched q ++ abandoned q ++ concat (map held (crew q));
}.

Lemma held_insert i w w' (cr : list worker) :
  cr !! i = Some w →
  held w ++ concat (map held (<[i := w']> cr)) ≡ₚ held w' ++ concat (map held cr).
Proof.
  revert i. induction cr as [|x cr IH]; intros [|i] Hi; simplify_eq/=.
  - rewrite !app_assoc. by rewrite (Permutation_app_comm (held w) (held w')).
  - rewrite !(Permutation_app_comm _ (held x ++ _)), <-!app_assoc. f_equiv.
    rewrite !(Permutation_app_comm (concat _)). by apply IH.
Qed.

Lemma held_replicate n : concat (map held (replicate n Waiting)) = [].
Proof. by induction n. Qed.

Lemma pool_step_ok q q' : pool_ok q → step q q' → pool_ok q'.
Proof.
  intros [Hb Hc Hf Ho] Hs. destruct Hs as [j q|i j rest q Hi Hbl|i j q Hi Hd|i j q Hi Hd|i j q Hi|i q Hi Hd|q].
  - split; simpl.
    + destruct (Nat.ltb_spec (length (backlog q)) size); [rewrite length_app; simpl; lia|done].
    + unfold startWorkers. destruct (crew q); [by rewrite length_replicate|done].
    + destruct (Nat.ltb _ _); [|done]. by rewrite Hf, app_assoc.
    + unfold startWorkers. destruct (crew q); [|done]. rewrite held_replicate. done.
  - pose proof (held_insert i _ (Holding j) _ Hi) as Hh. simpl in Hh. split; simpl.
    + rewrite Hbl in Hb. simpl in Hb. lia.
    + by rewrite length_insert.
    + by rewrite Hf, Hbl, <-app_assoc.
    + rewrite Hh, Ho. rewrite <-!app_assoc. f_equiv. f_equiv. apply Permutation_app_comm.
  - pose proof (held_insert i _ (Fetching j) _ Hi) as Hh. simpl in Hh. split; simpl; [done|by rewrite length_insert|done|].
    rewrite Ho, <-Hh, <-app_assoc. f_equiv. simpl. symmetry. apply Permutation_middle.
  - pose proof (held_insert i _ Gone _ Hi) as Hh. simpl in Hh. split; simpl; [done|by rewrite length_insert|done|].
    rewrite Ho, <-Hh, <-app_assoc. done.
  - pose proof (held_insert i _ Waiting _ Hi) as Hh. simpl in Hh. split; simpl; [done|by rewrite length_insert|done|].
    by rewrite Hh.
  - pose proof (held_insert i _ Gone _ Hi) as Hh. simpl in Hh. split; simpl; [done|by rewrite length_insert|done|].
    by rewrite Hh.
  - by split.
Qed.

Lemma pool_reachable_ok q : rtc step newMediaJobQueue q → pool_ok q.
Proof.
  assert (pool_ok newMediaJobQueue) as H0 by (split; simpl; [lia|lia|done|done]).
  assert (∀ q0, rtc step q0 q → pool_ok q0 → pool_ok q) as Hall.
  { intros q0 Hs. induction Hs; eauto using pool_step_ok. }
  eauto.
Qed.

End Pool.

(** ** Properties *)

(** In every interleaving the pool fetches at most [workers] files at a time
    and keeps at most [size] waiting; workers receive the jobs in the order of
    submission, each job is fetched at most once, and every job received is
    fetched, given up at shutdown, or in the hands of one worker. *)
Theorem download_pool_safe {Job : Type} (workers size : nat) (q : pool)
    (Hq : rtc (step (Job := Job) workers size) newMediaJobQueue q) :
  running q ≤ workers ∧ length (backlog q) ≤ size ∧ accepted q = received q ++ backlog q ∧
  received q ≡ₚ fetched q ++ abandoned q ++ concat (map held (crew q)).
Proof.
  apply pool_reachable_ok in Hq as [Hb Hc Hf Ho]. split_and!; try done.
  etrans; [|exact Hc]. apply length_filter.
Qed.

Lemma download_pool_safe_witness :
  running (submit 4 256 7 newMediaJobQueue).1 ≤ 4.
Proof.
  apply (download_pool_safe autoDownloadWorkers autoDownloadQueue).
  eapply rtc_l; [apply step_submit|apply rtc_refl].
Defined.

(** Once the lifecycle context is cancelled no step starts another
    transfer. *)
Theorem no_fetch_after_shutdown {Job : Type} (workers size : nat) (q q' : pool)
    (Hs : step (Job := Job) workers size q q') (Hd : ctx_done q = true) : fetched q' = fetched q.
Proof. destruct Hs; simpl; congruence. Qed.

Lemma no_fetch_after_shutdown_witness :
  fetched (submit 4 256 7 (set_done newMediaJobQueue)).1 = [].
Proof. apply (no_fetch_after_shutdown 4 256 (set_done newMediaJobQueue)); [apply step_submit|reflexivity]. Defined.
End MediaJobQueue.

Module MediaTransferGroup.

(** Errors of a transfer: abandoned (the function panicked), above the cap of
    the automatic cache, the same with the cap it was started under, anything
    else. *)
Inductive transfer_error : Type :=
| TransferAbandoned
| AutoMediaLimit
| TransferLimit (limit : Z)
| OtherError (msg : string).

(** [errors.Is(err, errAutoMediaLimit)]. *)
Definition is_limit (e : option transfer_error) : bool :=
  match e with Some AutoMediaLimit | Some (TransferLimit _) => true | _ => false end.

(** [mediaTransferCall]: in [fn], returned but still listed, unlisted, closed. *)
Inductive phase : Type := Executing | Published | Unlisted | Closed.

Record call := {
  key : string;
  limit : Z;
  ph : phase;
  written : Z;
  err : option transfer_error;
}.

(** [call.result]: what a caller with cap [lim] sees (0 is no cap). *)
Definition call_result (lim : Z) (c : call) : Z * option transfer_error :=
  if bool_decide (err c = None ∧ 0 < written c ∧ 0 < lim ∧ lim < written c)%Z
  then (written c, Some AutoMediaLimit)
  else if bool_decide (0 < limit c)%Z && is_limit (err c)
  then (written c, Some (TransferLimit (limit c)))
  else (written c, err c).

(** A caller parked in [do]: its cap and the call it joined. *)
Record caller := { c_limit : Z; joined : nat }.

(** The group; the callers parked, and what was handed to callers so far. *)
Record group := {
  stopped : bool;
  inflight : gmap string nat;
  calls : gmap nat call;
  callers : list caller;
  delivered : list (caller * (Z * option transfer_error));
}.

Definition newGroup : group :=
  {| stopped := false; inflight := ∅; calls := ∅; callers := []; delivered := [] |}.

Definition fresh_call (k : string) (lim : Z) : call :=
  {| key := k; limit := lim; ph := Executing; written := 0; err := Some TransferAbandoned |}.

Definition set_phase (c : call) (p : phase) : call :=
  {| key := key c; limit := limit c; ph := p; written := written c; err := err c |}.

Definition returned (c : call) (w : Z) (e : option transfer_error) : call :=
  {| key := key c; limit := limit c; ph := Published; written := w; err := e |}.

Definition park (g : group) (inf : gmap string nat) (cs : gmap nat call) (c : caller) : group :=
  {| stopped := stopped g; inflight := inf; calls := cs; callers := c :: callers g; delivered := delivered g |}.

Definition set_calls (g : group) (inf : gmap string nat) (cs : gmap nat call) : group :=
  {| stopped := stopped g; inflight := inf; calls := cs; callers := callers g; delivered := delivered g |}.

Inductive step : group → group → Prop :=
| do_start g k lim i :
    stopped g = false → inflight g !! k = None → calls g !! i = None →
    step g (park g (<[k := i]> (inflight g)) (<[i := fresh_call k lim]> (calls g))
              {| c_limit := lim; joined := i |})
| do_join g k lim i :
    stopped g = false → inflight g !! k = Some i →
    step g (park g (inflight g) (calls g) {| c_limit := lim; joined := i |})
| fn_return g i c w e :
    calls g !! i = Some c → ph c = Executing →
    step g (set_calls g (inflight g) (<[i := returned c w e]> (calls g)))
| fn_panic g i c :
    calls g !! i = Some c → ph c = Executing →
    step g (set_calls g (inflight g) (<[i := returned c 0 (Some TransferAbandoned)]> (calls g)))
| unlist g i c :
    calls g !! i = Some c → ph c = Published →
    step g (set_calls g (delete (key c) (inflight g)) (<[i := set_phase c Unlisted]> (calls g)))
| close_done g i c :
    calls g !! i = Some c → ph c = Unlisted →
    step g (set_calls g (inflight g) (<[i := set_phase c Closed]> (calls g)))
| deliver g l1 cl l2 c :
    callers g = l1 ++ cl :: l2 → calls g !! joined cl = Some c → ph c = Closed →
    step g {| stopped := stopped g; inflight := inflight g; calls := calls g; callers := l1 ++ l2;
              delivered := (cl, call_result (c_limit cl) c) :: delivered g |}
| leave g l1 cl l2 :
    callers g = l1 ++ cl :: l2 →
    step g {| stopped := stopped g; inflight := inflight g; calls := calls g; callers := l1 ++ l2;
              delivered := delivered g |}
| stop g :
    step g {| stopped := true; inflight := inflight g; calls := calls g; callers := callers g;
              delivered := delivered g |}.

(** ** The invariant *)

(** The transfer still owns its destination: it runs or is about to be
    unlisted. *)
Definition listed (c : call) : Prop := ph c = Executing ∨ ph c = Published.

Record group_ok (g : group) : Prop := {
  ok_listed : ∀ i c, calls g !! i = Some c → listed c → inflight g !! key c = Some i;
  ok_inflight : ∀ k i, inflight g !! k = Some i → ∃ c, calls g !! i = Some c ∧ listed c ∧ key c = k;
  ok_callers : Forall (λ cl, is_Some (calls g !! joined cl)) (callers g);
  ok_delivered : Forall (λ '(cl, r), ∃ c, calls g !! joined cl = Some c ∧ ph c = Closed
                                          ∧ r = call_result (c_limit cl) c) (delivered g);
}.

(** Replacing a call that is not closed by one of the same key keeps what was
    delivered. *)
Lemma update_delivered g i c c' :
  group_ok g → calls g !! i = Some c → ph c ≠ Closed →
  Forall (λ '(cl, r), ∃ x, <[i := c']> (calls g) !! joined cl = Some x ∧ ph x = Closed
                           ∧ r = call_result (c_limit cl) x) (delivered g).
Proof.
  intros [_ _ _ Hd] Hc Hph. eapply Forall_impl; [exact Hd|]. intros [cl r] (x & Hx & Hp & Hr).
  exists x. split; [|done]. destruct (decide (joined cl = i)) as [<-|Hne].
  - rewrite Hc in Hx. simplify_eq.
  - by rewrite lookup_insert_ne by done.
Qed.

Lemma update_callers (g : group) i c' :
  group_ok g → Forall (λ cl, is_Some (<[i := c']> (calls g) !! joined cl)) (callers g).
Proof.
  intros [_ _ Hc _]. eapply Forall_impl; [exact Hc|]. intros cl Hcl. simpl.
  rewrite lookup_insert_is_Some. destruct (decide (i = joined cl)); auto.
Qed.

(** A call keeps its key and stays listed. *)
Lemma relist_ok g i c c' :
  group_ok g → calls g !! i = Some c → ph c ≠ Closed → key c' = key c → (listed c' ↔ listed c) →
  group_ok (set_calls g (inflight g) (<[i := c']> (calls g))).
Proof.
  intros Hok Hc Hph Hk Hl. pose proof Hok as [H1 H2 H3 H4]. split; simpl.
  - intros j x. destruct (decide (j = i)) as [->|Hne].
    + rewrite lookup_insert_eq. intros [= <-] Hx. rewrite Hk. apply (H1 i c Hc). by apply Hl.
    + rewrite lookup_insert_ne by done. apply H1.
  - intros k j Hj. destruct (H2 k j Hj) as (x & Hx & Hlx & Hkx). destruct (decide (j = i)) as [->|Hne].
    + exists c'. rewrite lookup_insert_eq. rewrite Hc in Hx. simplify_eq. by rewrite Hl.
    + exists x. by rewrite lookup_insert_ne.
  - by apply update_callers.
  - by eapply update_delivered.
Qed.

Lemma group_step_ok g g' : group_ok g → step g g' → group_ok g'.
Proof.
  intros Hok Hs. pose proof Hok as [H1 H2 H3 H4].
  destruct Hs as [g k lim i Hst Hk Hi|g k lim i Hst Hk|g i c w e Hc Hp|g i c Hc Hp|g i c Hc Hp|g i c Hc Hp
    |g l1 cl l2 c Hcl Hc Hp|g l1 cl l2 Hcl|g].
  - split; simpl.
    + intros j x. destruct (decide (j = i)) as [->|Hne].
      * rewrite lookup_insert_eq. intros [= <-] _. simpl. by rewrite lookup_insert_eq.
      * rewrite lookup_insert_ne by done. intros Hx Hl. specialize (H1 j x Hx Hl).
        rewrite lookup_insert_ne; [done|]. congruence.
    + intros k' j. destruct (decide (k' = k)) as [->|Hne].
      * rewrite lookup_insert_eq. intros [= <-]. exists (fresh_call k lim). rewrite lookup_insert_eq.
        split_and!; [done|by left|done].
      * rewrite lookup_insert_ne by done. intros Hj. destruct (H2 k' j Hj) as (x & Hx & ?).
        exists x. rewrite lookup_insert_ne; [done|]. congruence.
    + constructor; [simpl; rewrite lookup_insert_eq; by eexists|]. by apply update_callers.
    + eapply Forall_impl; [exact H4|]. intros [cl r] (x & Hx & ?). exists x.
      rewrite lookup_insert_ne; [done|]. congruence.
  - split; simpl; [done|done| |done]. constructor; [|done]. simpl.
    destruct (H2 k i Hk) as (c & Hc & _). by eexists.
  - apply (relist_ok g i c); [done|done|congruence|done|]. unfold listed. rewrite Hp. simpl. tauto.
  - apply (relist_ok g i c); [done|done|congruence|done|]. unfold listed. rewrite Hp. simpl. tauto.
  - assert (inflight g !! key c = Some i) as Hin by (apply H1; [done|by right]).
    split; simpl.
    + intros j x. destruct (decide (j = i)) as [->|Hne].
      * rewrite lookup_insert_eq. intros [= <-] [?|?]; done.
      * rewrite lookup_insert_ne by done. intros Hx Hl. specialize (H1 j x Hx Hl).
        rewrite lookup_delete_ne; [done|]. intros Heq. rewrite Heq in Hin. congruence.
    + intros k j Hj. apply lookup_delete_Some in Hj as [Hne Hj].
      destruct (H2 k j Hj) as (x & Hx & ? & Hkx). exists x.
      rewrite lookup_insert_ne; [done|]. intros ->. rewrite Hc in Hx. simplify_eq.
    + by apply update_callers.
    + eapply update_delivered; [done|exact Hc|congruence].
  - apply (relist_ok g i c); [done|done|congruence|done|]. unfold listed. rewrite Hp. simpl.
    split; intros [?|?]; done.
  - rewrite Hcl in H3. apply Forall_app in H3 as [Ha [_ Hb]%Forall_cons]. split; simpl; [done|done|by apply Forall_app|].
    constructor; [by exists c|done].
  - rewrite Hcl in H3. apply Forall_app in H3 as [Ha [_ Hb]%Forall_cons]. split; simpl; [done|done|by apply Forall_app|done].
  - by split.
Qed.

Lemma group_reachable_ok g : rtc step newGroup g → group_ok g.
Proof.
  assert (group_ok newGroup) as H0.
  { split; simpl; [intros ? ? ?%lookup_empty_Some; done|intros ? ? ?%lookup_empty_Some; done|constructor..]. }
  assert (∀ g0, rtc step g0 g → group_ok g0 → group_ok g) as Hall.
  { intros g0 Hs. induction Hs; eauto using group_step_ok. }
  eauto.
Qed.

(** ** Properties *)

(** In every interleaving of callers, transfers, panics, cancellations and
    shutdown: two transfers that have not released their destination are for
    different destinations, and every caller handed a result got the outcome of
    the transfer it joined, seen through its own cap. *)
Theorem single_flight (g : group) (Hg : rtc step newGroup g) :
  (∀ i j ci cj, calls g !! i = Some ci → calls g !! j = Some cj → listed ci → listed cj →
     key ci = key cj → i = j) ∧
  Forall (λ '(cl, r), ∃ c, calls g !! joined cl = Some c ∧ ph c = Closed
                           ∧ r = call_result (c_limit cl) c) (delivered g).
Proof.
  apply group_reachable_ok in Hg as [H1 _ _ H4]. split; [|done].
  intros i j ci cj Hi Hj Hli Hlj Hk. apply (H1 i ci) in Hi; [|done]. apply (H1 j cj) in Hj; [|done]. congruence.
Qed.

(** One caller that has just started the transfer of a file. *)
Definition sample_group : group :=
  park newGroup (<["/store/a" := 0%nat]> ∅) (<[0%nat := fresh_call "/store/a" 10]> ∅) {| c_limit := 10; joined := 0 |}.

Lemma single_flight_witness :
  rtc step newGroup sample_group ∧
  (∀ j cj, calls sample_group !! j = Some cj → listed cj → key cj = "/store/a" → 0%nat = j).
Proof.
  assert (rtc step newGroup sample_group) as H.
  { eapply rtc_l; [|apply rtc_refl]. by apply (do_start newGroup "/store/a" 10 0). }
  split; [exact H|]. intros j cj Hj Hl Hk. destruct (single_flight sample_group H) as [Hu _].
  apply (Hu 0%nat j (fresh_call "/store/a" 10) cj); [reflexivity|exact Hj|by left|exact Hl|symmetry; exact Hk].
Defined.

(** A capped caller never sees a success larger than its cap, and a refusal
    for size reported by a capped transfer names the cap of that transfer, not
    of the caller that joined it. *)
Theorem capped_result (lim : Z) (c : call) (w : Z) (e : option transfer_error)
    (Hr : call_result lim c = (w, e)) :
  w = written c ∧
  (e = None → err c = None ∧ (0 < lim → w ≤ lim ∨ w ≤ 0)%Z) ∧
  (is_limit (err c) = true → (0 < limit c)%Z → e = Some (TransferLimit (limit c))).
Proof.
  unfold call_result in Hr. case_bool_decide as Hb.
  - simplify_eq. destruct Hb as [Herr _]. split_and!; [done|done|]. by rewrite Herr.
  - destruct (bool_decide (0 < limit c)%Z) eqn:Hlim, (is_limit (err c)) eqn:Hl; simpl in Hr; simplify_eq;
      bool_split; (split_and!; [done| |try done]); try (by destruct (err c)); try (intros; lia).
    + intros He. split; [done|]. intros Hp. destruct (decide (0 < written c)%Z); [|lia]. left.
      apply Z.nlt_ge. intros ?. by apply Hb.
    + intros He. split; [done|]. intros Hp. destruct (decide (0 < written c)%Z); [|lia]. left.
      apply Z.nlt_ge. intros ?. by apply Hb.
Qed.

Lemma capped_result_witness :
  call_result 10 (returned (fresh_call "/store/a" 0) 11 None) = (11%Z, Some AutoMediaLimit) ∧ 11%Z = 11%Z.
Proof.
  split; [reflexivity|].
  apply (capped_result 10 (returned (fresh_call "/store/a" 0) 11 None) 11 (Some AutoMediaLimit)). reflexivity.
Defined.
End MediaTransferGroup.
