(* ===== verification/SessionKeepalive.v ===== *)
(** * The session keepalive loop ([session_keepalive.go])

    A short "available" followed by "unavailable" on a timer.  One iteration of
    [runSessionKeepalive] is the function [tick] of the loop's variables and of
    what the iteration observes: sleeps, the wall clock, readiness and the
    outcomes of the presence sends.  A zero [time.Time] is [None]; instants are
    wall-clock nanoseconds ([Round(0)]). *)
From S2P Require Import Prelude.
#[local] Open Scope Z_scope.

(** The outcome of sending "available": [ErrNoPushName] is refused by the
    client before anything is sent. *)
Inductive send_result : Type := Sent | NoPushName | SendFailed.

(** What goes to the WhatsApp client, with its outcome. *)
Inductive event : Type :=
| Available (now : Z) (r : send_result)
| Unavailable (ok : bool).

(** The configured durations. *)
Record config := {
  SessionKeepalive : Z;
  SessionKeepaliveSettle : Z;
  SessionKeepaliveRetry : Z;
}.

(** The local variables of the loop. *)
Record loop := {
  lastBlip : option Z;
  readySince : option Z;
  notBefore : option Z;
  noNameSince : option Z;
  noNameWarned : bool;
  pendingOff : bool;
}.

Definition start (last : option Z) : loop := {|
  lastBlip := last; readySince := None; notBefore := None; noNameSince := None;
  noNameWarned := false; pendingOff := false |}.

(** What one iteration observes: the poll sleep was not interrupted by
    shutdown, the clock, readiness, the two send outcomes, the hold sleep was
    not interrupted, and whether the lifecycle context is cancelled after a
    failed send. *)
Record observation := {
  slept : bool;
  now : Z;
  ready : bool;
  available : send_result;
  off_ok : bool;
  held : bool;
  cancelled : bool;
}.

(** [After], [Sub] and [Before] on possibly-zero times. *)
Definition after (t : option Z) (n : Z) : bool :=
  match t with Some x => bool_decide (n < x) | None => false end.

Definition drop_future (t : option Z) (n : Z) : option Z := if after t n then None else t.

(** The variables after the clock checks at [n]. *)
Definition resync (c : config) (st : loop) (n : Z) : loop := {|
  lastBlip := drop_future (lastBlip st) n;
  readySince := drop_future (readySince st) n;
  notBefore := match notBefore st with
               | Some x => if bool_decide (n < x - SessionKeepaliveRetry c) then None else Some x
               | None => None
               end;
  noNameSince := noNameSince st; noNameWarned := noNameWarned st; pendingOff := pendingOff st |}.

(** The guard before an attempt, once ready since [since]. *)
Definition wait_more (c : config) (st : loop) (since n : Z) : bool :=
  bool_decide (n - since < SessionKeepaliveSettle c)
  || match lastBlip st with Some b => bool_decide (n - b < SessionKeepalive c) | None => false end
  || after (notBefore st) n.

Definition with_ready (st : loop) (since : option Z) : loop := {|
  lastBlip := lastBlip st; readySince := since; notBefore := notBefore st;
  noNameSince := noNameSince st; noNameWarned := noNameWarned st; pendingOff := pendingOff st |}.

(** The attempt itself: the variables for the next iteration ([None] when the
    loop returns) and the presences sent. *)
Definition attempt (c : config) (st : loop) (o : observation) : option loop * list event :=
  let n := now o in
  match available o with
  | NoPushName =>
      let since := match noNameSince st with Some x => x | None => n end in
      let warn := negb (noNameWarned st) && bool_decide (SessionKeepaliveRetry c ≤ n - since) in
      (Some {| lastBlip := lastBlip st; readySince := readySince st; notBefore := notBefore st;
               noNameSince := Some since; noNameWarned := if warn then true else noNameWarned st;
               pendingOff := pendingOff st |},
       [Available n NoPushName])
  | SendFailed =>
      ((if cancelled o then None
        else Some {| lastBlip := lastBlip st; readySince := readySince st;
                     notBefore := Some (n + SessionKeepaliveRetry c);
                     noNameSince := None; noNameWarned := false; pendingOff := pendingOff st |}),
       [Available n SendFailed; Unavailable (off_ok o)])
  | Sent =>
      ((if held o then Some {| lastBlip := Some n; readySince := readySince st; notBefore := notBefore st;
                               noNameSince := None; noNameWarned := false;
                               pendingOff := if off_ok o then pendingOff st else true |}
        else None),
       [Available n Sent; Unavailable (off_ok o)])
  end.

(** One iteration of the loop. *)
Definition tick (c : config) (st : loop) (o : observation) : option loop * list event :=
  if negb (slept o) then (None, if pendingOff st then [Unavailable (off_ok o)] else [])
  else if pendingOff st then
    (Some {| lastBlip := lastBlip st; readySince := readySince st; notBefore := notBefore st;
             noNameSince := noNameSince st; noNameWarned := noNameWarned st;
             pendingOff := negb (off_ok o) |}, [Unavailable (off_ok o)])
  else
    let n := now o in
    let st := resync c st n in
    if negb (ready o) then (Some (with_ready st None), [])
    else
      let since := match readySince st with Some x => x | None => n end in
      let st := with_ready st (Some since) in
      if wait_more c st since n then (Some st, []) else attempt c st o.

(** [runSessionKeepalive] on a sequence of observations: the presences sent. *)
Fixpoint run (c : config) (st : loop) (os : list observation) : list event :=
  match os with
  | [] => []
  | o :: rest =>
      let '(next, evs) := tick c st o in
      evs ++ match next with Some st' => run c st' rest | None => [] end
  end.

(** ** The specification of a run *)

(** The presences a run may send, [owed] when an "unavailable" is owed: every
    attempted "available" is followed at once by "unavailable", and while one is
    owed nothing else is sent. *)
Inductive well_behaved : bool → list event → Prop :=
| wb_nil owed : well_behaved owed []
| wb_repay ok evs : well_behaved (negb ok) evs → well_behaved true (Unavailable ok :: evs)
| wb_refused n evs : well_behaved false evs → well_behaved false (Available n NoPushName :: evs)
| wb_failed n ok evs : well_behaved false evs → well_behaved false (Available n SendFailed :: Unavailable ok :: evs)
| wb_sent n ok evs : well_behaved (negb ok) evs → well_behaved false (Available n Sent :: Unavailable ok :: evs).

(** ** Lemmas *)

(** What one iteration sends, and what it owes afterwards. *)
Lemma tick_behaved c st o next evs :
  tick c st o = (next, evs) →
  ∀ rest, well_behaved (match next with Some st' => pendingOff st' | None => false end) rest →
    (next = None → rest = []) → well_behaved (pendingOff st) (evs ++ rest).
Proof.
  unfold tick. intros Ht rest Hrest Hnone.
  destruct (slept o); simpl in Ht.
  2: { simplify_eq. rewrite (Hnone eq_refl). destruct (pendingOff st); simpl; repeat constructor. }
  destruct (pendingOff st) eqn:Hp; [simplify_eq; simpl in *; by constructor|].
  assert (∀ s, pendingOff (with_ready (resync c st (now o)) s) = false) as Hoff by done.
  destruct (negb (ready o)); [simplify_eq; simpl in *; by rewrite Hp in Hrest|].
  destruct (wait_more _ _ _ _); [simplify_eq; simpl in *; by rewrite Hp in Hrest|].
  unfold attempt in Ht. destruct (available o); simplify_eq; simpl.
  - destruct (held o); simpl in *; [|rewrite (Hnone eq_refl); repeat constructor].
    constructor. destruct (off_ok o); [by rewrite Hp in Hrest|done].
  - constructor. simpl in Hrest. by rewrite Hp in Hrest.
  - destruct (cancelled o); simpl in *; [rewrite (Hnone eq_refl); repeat constructor|].
    constructor. by rewrite Hp in Hrest.
Qed.

Lemma run_behaved c st os : well_behaved (pendingOff st) (run c st os).
Proof.
  revert st. induction os as [|o os IH]; intros st; simpl; [constructor|].
  destruct (tick c st o) as [next evs] eqn:Ht. eapply tick_behaved; [exact Ht|..].
  - destruct next; [apply IH|constructor].
  - by intros ->.
Qed.

(** The instants of the successful "available"s. *)
Definition sent_times (evs : list event) : list Z :=
  omap (λ e, match e with Available n Sent => Some n | _ => None end) evs.

(** Every instant is at least [d] after the one before, the first after [prev]. *)
Fixpoint spaced (d : Z) (prev : option Z) (ts : list Z) : Prop :=
  match ts with
  | [] => True
  | t :: rest => match prev with Some p => p + d ≤ t | None => True end ∧ spaced d (Some t) rest
  end.

(** The clock of the observations does not step back below [m]. *)
Fixpoint monotone (m : Z) (os : list observation) : Prop :=
  match os with
  | [] => True
  | o :: rest => m ≤ now o ∧ monotone (now o) rest
  end.

Definition last_before (st : loop) (m : Z) : Prop :=
  match lastBlip st with Some b => b ≤ m | None => True end.

Lemma tick_spaced c st o next evs :
  tick c st o = (next, evs) → last_before st (now o) →
  (sent_times evs = [] ∧ match next with Some st' => lastBlip st' = lastBlip st | None => True end) ∨
  (sent_times evs = [now o] ∧ (∀ b, lastBlip st = Some b → b + SessionKeepalive c ≤ now o) ∧
   match next with Some st' => lastBlip st' = Some (now o) | None => True end).
Proof.
  unfold tick, last_before. intros Ht Hlast.
  assert (drop_future (lastBlip st) (now o) = lastBlip st) as Hdrop.
  { unfold drop_future, after. destruct (lastBlip st); [|done]. by rewrite bool_decide_eq_false_2 by lia. }
  destruct (slept o); simpl in Ht; [|left; simplify_eq; by destruct (pendingOff st)].
  destruct (pendingOff st); [left; by simplify_eq|].
  destruct (negb (ready o)); [left; simplify_eq; by simpl; rewrite Hdrop|].
  destruct (wait_more _ _ _ _) eqn:Hw; [left; simplify_eq; by simpl; rewrite Hdrop|].
  unfold wait_more in Hw. simpl in Hw. rewrite Hdrop in Hw. bool_split.
  unfold attempt in Ht. destruct (available o); simplify_eq; simpl.
  - right. split_and!; [done| |by destruct (held o)].
    intros b Hb. rewrite Hb in *. bool_split. lia.
  - left. by rewrite Hdrop.
  - left. by destruct (cancelled o); simpl; rewrite ?Hdrop.
Qed.

Lemma run_spaced c st os m :
  monotone m os → last_before st m → spaced (SessionKeepalive c) (lastBlip st) (sent_times (run c st os)).
Proof.
  revert st m. induction os as [|o os IH]; intros st m Hm Hlast; simpl; [done|].
  destruct Hm as [Hle Hm]. destruct (tick c st o) as [next evs] eqn:Ht.
  assert (last_before st (now o)) as Hl by (unfold last_before in *; destruct (lastBlip st); [lia|done]).
  unfold sent_times. rewrite omap_app. fold (sent_times evs).
  destruct (tick_spaced _ _ _ _ _ Ht Hl) as [[-> Hn]|(-> & Hb & Hn)]; simpl.
  - destruct next as [st'|]; [|done]. rewrite <-Hn. eapply IH; [exact Hm|].
    unfold last_before in *. by rewrite Hn.
  - split; [destruct (lastBlip st); [by apply Hb|done]|].
    destruct next as [st'|]; [|done]. rewrite <-Hn. eapply IH; [exact Hm|].
    unfold last_before. by rewrite Hn.
Qed.

(** ** Properties *)

(** Whatever the clock, the connection and the sends do, an "available" the
    client attempted is followed at once by an "unavailable", an "unavailable"
    that failed after a successful one is repeated before anything else is
    sent, and nothing is sent while one is owed. *)
Theorem available_is_taken_back (c : config) (last : option Z) (os : list observation) :
  well_behaved false (run c (start last) os).
Proof. apply (run_behaved c (start last)). Qed.

(** While the wall clock does not step back, successful "available"s are at
    least the keepalive interval apart, the remembered one of an earlier run
    included. *)
Theorem blips_are_spaced (c : config) (last : option Z) (os : list observation) (m : Z)
    (Hm : monotone m os) (Hl : last_before (start last) m) :
  spaced (SessionKeepalive c) last (sent_times (run c (start last) os)).
Proof. by apply (run_spaced c (start last) os m). Qed.

Definition sample_config : config := {| SessionKeepalive := 100; SessionKeepaliveSettle := 5; SessionKeepaliveRetry := 10 |}.

Definition seen (t : Z) (ok : bool) : observation :=
  {| slept := true; now := t; ready := true; available := Sent; off_ok := ok; held := true; cancelled := false |}.

Lemma blips_are_spaced_witness :
  spaced 100 (Some 3) (sent_times (run sample_config (start (Some 3)) [seen 50 true; seen 110 false; seen 120 true; seen 250 true]))
  ∧ run sample_config (start (Some 3)) [seen 50 true; seen 110 false; seen 120 true; seen 250 true]
    = [Available 110 Sent; Unavailable false; Unavailable true; Available 250 Sent; Unavailable true].
Proof.
  split; [|reflexivity].
  apply (blips_are_spaced sample_config (Some 3) _ 50); [simpl; repeat split; lia|unfold last_before; simpl; lia].
Defined.

(** A due blip is sent: in an iteration that was not interrupted, with
    nothing owed, on a ready session that has settled, with the interval
    elapsed and no failed attempt cooling down, "available" is attempted. *)
Theorem due_blip_attempted (c : config) (st : loop) (o : observation) (since : Z)
    (Hs : slept o = true) (Hp : pendingOff st = false) (Hr : ready o = true)
    (Hsince : readySince st = Some since) (Hsettle : SessionKeepaliveSettle c ≤ now o - since)
    (Hle : since ≤ now o)
    (Hlast : ∀ b, lastBlip st = Some b → now o < b ∨ SessionKeepalive c ≤ now o - b)
    (Hnot : ∀ x, notBefore st = Some x → x ≤ now o ∨ now o < x - SessionKeepaliveRetry c) :
  ∃ r evs, (tick c st o).2 = Available (now o) r :: evs.
Proof.
  assert (drop_future (readySince st) (now o) = Some since) as Hready.
  { rewrite Hsince. unfold drop_future. simpl. by rewrite bool_decide_eq_false_2 by lia. }
  unfold tick. rewrite Hs, Hp, Hr. cbn [negb]. cbn [readySince resync]. rewrite Hready.
  assert (wait_more c (with_ready (resync c st (now o)) (Some since)) since (now o) = false) as ->.
  { unfold wait_more. simpl. rewrite bool_decide_eq_false_2 by lia. simpl. apply orb_false_iff. split.
    - unfold drop_future, after. destruct (lastBlip st) as [b|]; [|done]. destruct (Hlast b eq_refl).
      + by rewrite bool_decide_eq_true_2 by lia.
      + case_bool_decide; [done|]. apply bool_decide_eq_false. lia.
    - destruct (notBefore st) as [x|]; [|done]. destruct (Hnot x eq_refl).
      + case_bool_decide; [done|]. simpl. apply bool_decide_eq_false. lia.
      + by rewrite bool_decide_eq_true_2 by lia. }
  unfold attempt. destruct (available o); simpl; eauto.
Qed.

Lemma due_blip_attempted_witness :
  ∃ r evs, (tick sample_config (with_ready (start None) (Some 1)) (seen 7 true)).2 = Available 7 r :: evs.
Proof.
  apply (due_blip_attempted sample_config (with_ready (start None) (Some 1)) (seen 7 true) 1); simpl;
    try reflexivity; try lia; discriminate.
Defined.
