(* ===== verification/Webhook.v ===== *)
(** * Webhooks ([webhook_runtime.go], the admission part of [webhook.go])

    The filters that decide whether a message leaves the bridge, the guard on
    receiver addresses, the checks of a runtime receiver, its bounded queue and
    the delivery loop with its retries and its automatic disabling. *)
From S2P Require Import Prelude Jid ChatPolicy Config.
#[local] Open Scope Z_scope.

(** ** Receiver addresses *)

Module Address.

(** [netip.Addr] without a zone: 32 or 128 bits. *)
Inductive addr : Type :=
| V4 (bits : Z)
| V6 (bits : Z).

Fixpoint bits_of (bytes : list Z) : Z :=
  match bytes with
  | [] => 0
  | b :: rest => b * 2 ^ (8 * Z.of_nat (length rest)) + bits_of rest
  end.

(** [netip.AddrFromSlice]: four or sixteen bytes. *)
Definition AddrFromSlice (ip : list Z) : option addr :=
  if Nat.eqb (length ip) 4 then Some (V4 (bits_of ip))
  else if Nat.eqb (length ip) 16 then Some (V6 (bits_of ip)) else None.

(** [Addr.Unmap]: ::ffff:0:0/96. *)
Definition Unmap (a : addr) : addr :=
  match a with
  | V6 n => if Z.eqb (Z.shiftr n 32) 65535 then V4 (Z.land n (2 ^ 32 - 1)) else a
  | V4 _ => a
  end.

(** A prefix: the leading [len] bits of an address of [width] bits. *)
Definition in_prefix (width value len n : Z) : bool :=
  Z.eqb (Z.shiftr n (width - len)) (Z.shiftr value (width - len)).

Definition ip4 (a b c d : Z) : Z := a * 2 ^ 24 + b * 2 ^ 16 + c * 2 ^ 8 + d.
(** An IPv6 address given by its two leading groups. *)
Definition ip6 (g h : Z) : Z := g * 2 ^ 112 + h * 2 ^ 96.

Definition Contains4 (p : Z * Z) (a : addr) : bool :=
  match a with V4 n => in_prefix 32 p.1 p.2 n | V6 _ => false end.
Definition Contains6 (p : Z * Z) (a : addr) : bool :=
  match a with V6 n => in_prefix 128 p.1 p.2 n | V4 _ => false end.

(** The predicates of [netip.Addr]. *)
Definition IsLoopback (a : addr) : bool :=
  match a with V4 _ => Contains4 (ip4 127 0 0 0, 8) a | V6 n => Z.eqb n 1 end.
Definition IsMulticast (a : addr) : bool :=
  match a with V4 _ => Contains4 (ip4 224 0 0 0, 4) a | V6 _ => Contains6 (ip6 65280 0, 8) a end.
Definition IsLinkLocalUnicast (a : addr) : bool :=
  match a with V4 _ => Contains4 (ip4 169 254 0 0, 16) a | V6 _ => Contains6 (ip6 65152 0, 10) a end.
Definition IsPrivate (a : addr) : bool :=
  match a with
  | V4 _ => Contains4 (ip4 10 0 0 0, 8) a || Contains4 (ip4 172 16 0 0, 12) a
            || Contains4 (ip4 192 168 0 0, 16) a
  | V6 _ => Contains6 (ip6 64512 0, 7) a
  end.
Definition IsGlobalUnicast (a : addr) : bool :=
  match a with V4 n => negb (Z.eqb n 0) && negb (Z.eqb n (2 ^ 32 - 1)) | V6 n => negb (Z.eqb n 0) end
  && negb (IsLoopback a) && negb (IsMulticast a) && negb (IsLinkLocalUnicast a).

Definition forbidden4 : list (Z * Z) := [
  (ip4 0 0 0 0, 8); (ip4 100 64 0 0, 10); (ip4 169 254 0 0, 16); (ip4 192 0 0 0, 24);
  (ip4 192 0 2 0, 24); (ip4 198 18 0 0, 15); (ip4 198 51 100 0, 24); (ip4 203 0 113 0, 24);
  (ip4 240 0 0 0, 4); (ip4 168 63 129 16, 32)].

Definition publicWebhookIP (ip : list Z) : bool :=
  match AddrFromSlice ip with
  | None => false
  | Some a =>
      let a := Unmap a in
      if negb (IsGlobalUnicast a) || IsPrivate a || IsLoopback a || IsLinkLocalUnicast a then false
      else if existsb (λ p, Contains4 p a) forbidden4 then false
      else match a with
           | V6 _ => Contains6 (ip6 8192 0, 3) a && negb (Contains6 (ip6 8193 0, 23) a)
                     && negb (Contains6 (ip6 8193 3512, 32) a) && negb (Contains6 (ip6 8194 0, 16) a)
           | V4 _ => true
           end
  end.

(** ** Lemmas *)

(** Membership in a prefix as an interval, for a network address. *)
Lemma in_prefix_range width value len n :
  0 ≤ len ≤ width → value mod 2 ^ (width - len) = 0 →
  in_prefix width value len n = true ↔ value ≤ n < value + 2 ^ (width - len).
Proof.
  intros Hlen Hmod. unfold in_prefix. rewrite Z.eqb_eq, !Z.shiftr_div_pow2 by lia.
  set (m := 2 ^ (width - len)) in *. assert (0 < m) as Hm by (apply Z.pow_pos_nonneg; lia).
  assert (value = m * (value / m)) as Hv by (apply Z.div_exact; lia).
  split.
  - intros Heq. pose proof (Z.mul_div_le n m Hm). pose proof (Z.mul_succ_div_gt n m Hm). rewrite Heq in *. lia.
  - intros Hr. symmetry. apply (Z.div_unique_pos n m (value / m) (n - value)); lia.
Qed.

(** The interval of an IPv4 block. *)
Definition block4 (p : Z * Z) (n : Z) : Prop := p.1 ≤ n < p.1 + 2 ^ (32 - p.2).
Definition block6 (p : Z * Z) (n : Z) : Prop := p.1 ≤ n < p.1 + 2 ^ (128 - p.2).

Lemma Contains4_block p n : 0 ≤ p.2 ≤ 32 → p.1 mod 2 ^ (32 - p.2) = 0 → Contains4 p (V4 n) = true ↔ block4 p n.
Proof. apply in_prefix_range. Qed.

Lemma Contains6_block p n : 0 ≤ p.2 ≤ 128 → p.1 mod 2 ^ (128 - p.2) = 0 → Contains6 p (V6 n) = true ↔ block6 p n.
Proof. apply in_prefix_range. Qed.

(** The blocks a receiver may not be in: every special-purpose IPv4 block. *)
Definition reserved4 : list (Z * Z) :=
  forbidden4 ++ [(ip4 10 0 0 0, 8); (ip4 127 0 0 0, 8); (ip4 172 16 0 0, 12); (ip4 192 168 0 0, 16);
                 (ip4 224 0 0 0, 4)].

(** Translation and tunnel blocks inside or outside the global IPv6 space that
    embed an IPv4 address, and the documentation block. *)
Definition reserved6 : list (Z * Z) := [
  (ip6 100 65435, 96) (* 64:ff9b::/96 *); (ip6 8193 0, 23) (* 2001::/23 with Teredo *);
  (ip6 8193 3512, 32) (* 2001:db8::/32 *); (ip6 8194 0, 16) (* 2002::/16, 6to4 *);
  (ip6 64512 0, 7) (* fc00::/7 *); (ip6 65152 0, 10) (* fe80::/10 *); (ip6 65280 0, 8) (* ff00::/8 *);
  (0, 96) (* ::/96, IPv4-compatible, unspecified and loopback *)].

Lemma public_V4 n ip :
  AddrFromSlice ip = Some (V4 n) ∨ (∃ m, AddrFromSlice ip = Some (V6 m) ∧ Unmap (V6 m) = V4 n) →
  publicWebhookIP ip = true → Forall (λ p, ¬ block4 p n) reserved4.
Proof.
  intros Ha Hp. unfold publicWebhookIP in Hp.
  assert (∃ a, AddrFromSlice ip = Some a ∧ Unmap a = V4 n) as (a & Hs & Hu) by (destruct Ha as [?|(m & ? & ?)]; eauto).
  rewrite Hs, Hu in Hp.
  destruct (negb (IsGlobalUnicast (V4 n)) || IsPrivate (V4 n) || IsLoopback (V4 n) || IsLinkLocalUnicast (V4 n)) eqn:H1;
    [done|]. destruct (existsb _ forbidden4) eqn:H2; [done|]. clear Hp.
  apply orb_false_iff in H1 as [H1 _]. apply orb_false_iff in H1 as [H1 Hlo]. apply orb_false_iff in H1 as [Hg Hpriv].
  apply negb_false_iff in Hg. unfold IsGlobalUnicast in Hg. bool_split. unfold IsPrivate in *. bool_split.
  assert (∀ p, 0 ≤ p.2 ≤ 32 → p.1 mod 2 ^ (32 - p.2) = 0 → Contains4 p (V4 n) = false → ¬ block4 p n) as Hno.
  { intros p Hp1 Hp2 Hc Hb. apply Contains4_block in Hb; [congruence|done..]. }
  apply Forall_app. split.
  - rewrite <-not_true_iff_false, existsb_exists in H2. apply Forall_forall. intros p Hin Hb.
    apply H2. exists p. split; [by apply list_elem_of_In|]. apply Contains4_block; [..|done];
      unfold forbidden4 in Hin; set_unfold in Hin; destruct_or!; subst; vm_compute; (done || (split; discriminate)).
  - repeat apply Forall_cons_2; [..|constructor]; apply Hno; try (vm_compute; (done || (split; discriminate))); done.
Qed.

Lemma public_V6 n ip :
  AddrFromSlice ip = Some (V6 n) → Unmap (V6 n) = V6 n → publicWebhookIP ip = true →
  block6 (ip6 8192 0, 3) n ∧ Forall (λ p, ¬ block6 p n) reserved6.
Proof.
  intros Hs Hu Hp. unfold publicWebhookIP in Hp. rewrite Hs, Hu in Hp.
  destruct (_ || _) eqn:H1 in Hp; [done|]. destruct (existsb _ forbidden4) eqn:H2; [done|]. bool_split.
  assert (block6 (ip6 8192 0, 3) n) as Hglob.
  { apply Contains6_block; [..|done]; vm_compute; (done || (split; discriminate)). }
  split; [done|].
  assert (∀ p, 0 ≤ p.2 ≤ 128 → p.1 mod 2 ^ (128 - p.2) = 0 → Contains6 p (V6 n) = false → ¬ block6 p n) as Hno.
  { intros p Hp1 Hp2 Hc Hb. apply Contains6_block in Hb; [congruence|done..]. }
  repeat apply Forall_cons_2; [..|constructor];
    try (apply Hno; [vm_compute; split; discriminate|vm_compute; done|done]);
    unfold block6 in *; simpl in Hglob |- *; unfold ip6 in *; lia.
Qed.
End Address.

(** ** Message filters *)

Module Filters.

Record filters := {
  ForwardSelf : bool;
  ForwardChannels : bool;
  ForwardBroadcasts : bool;
  ForwardStatus : bool;
}.

Section Admission.
Context `{JidOps}.

(** [isStatusChat]: [types.StatusBroadcastJID] is status@broadcast. *)
Definition isStatusChat (chat : JID) : bool :=
  String.eqb (User chat) "status" && String.eqb (Server chat) BroadcastServer.

(** [withheldBy]: the filter that refuses the message, "" when none does. *)
Definition withheldBy (f : filters) (chat : JID) (fromMe : bool) : string :=
  if fromMe && negb (ForwardSelf f) then "forward_self"
  else if isStatusChat chat then if negb (ForwardStatus f) then "forward_status" else ""
  else if String.eqb (Server chat) NewsletterServer then if negb (ForwardChannels f) then "forward_channels" else ""
  else if String.eqb (Server chat) BroadcastServer then if negb (ForwardBroadcasts f) then "forward_broadcasts" else ""
  else if bool_decide (Server chat ∈ [DefaultUserServer; HiddenUserServer; HostedServer; HostedLIDServer; GroupServer])
       then "" else "namespace".

Definition allows (f : filters) (chat : JID) (fromMe : bool) : bool := String.eqb (withheldBy f chat fromMe) "".

(** The [lookup] closure of [webhookIdentityAllowed]. *)
Definition known_twins (client : lid_store) : twin_lookup :=
  Some (λ j, match lookupAltJID client j with
             | Ok k => Ok k
             | Err LIDStoreUnavailable => Err "LID store unavailable"
             | Err (StoreError e) => Err e
             end).

(** [webhookIdentityAllowed] for the answers of [allowsIdentity] on the chat
    and on the originals. *)
Definition webhookIdentityAllowed (fuel : nat) (p : chatPolicy) (client : lid_store) (chat : JID)
    (original : list JID) : option bool :=
  let twin := known_twins client in
  foldl (λ acc j, match acc with
                  | Some true => Some true
                  | Some false => allowsIdentity fuel p twin j
                  | None => None
                  end) (allowsIdentity fuel p twin chat) original.

(** [messageWebhookAllowed]: whether the legacy sender and the runtime receiver
    get the message; [receiver] holds the filters of the generation subscribed
    to message.received, [p] is the effective policy.  A search that has not ended
    within [fuel] lets nothing through. *)
Definition messageWebhookAllowed (fuel : nat) (legacy_on : bool) (deployment : filters) (receiver : option filters)
    (p : chatPolicy) (client : lid_store) (chat : JID) (fromMe : bool) (original : list JID) : bool * bool :=
  let legacy := legacy_on && allows deployment chat fromMe in
  let runtime := match receiver with Some f => allows f chat fromMe | None => false end in
  if (legacy || runtime) && negb (bool_decide (webhookIdentityAllowed fuel p client chat original = Some true)) then (false, false)
  else (legacy, runtime).

(** The policy admits everyone, or some spelling of one of [js] that the LID map
    and the Brazilian alternate lead to is on its list. *)
Definition known_permitted (p : chatPolicy) (client : lid_store) (js : list JID) : Prop :=
  restricted p = false ∨
  ∃ j k, j ∈ js ∧ rtc (identity_step (known_twins client)) (ToNonAD j) k ∧ IsEmpty k = false
         ∧ identity_allowed p (known_twins client) k = true.

Lemma allowsIdentity_permitted fuel p client j js :
  j ∈ js → allowsIdentity fuel p (known_twins client) j = Some true → known_permitted p client js.
Proof.
  unfold allowsIdentity, known_permitted. intros Hj. destruct (restricted p); [|by left]. cbn [negb].
  intros (i & k & ->%list_elem_of_singleton & Hk)%identity_loop_sound. right. by exists j, k.
Qed.

Lemma webhookIdentity_permitted fuel p client chat original :
  webhookIdentityAllowed fuel p client chat original = Some true → known_permitted p client (chat :: original).
Proof.
  unfold webhookIdentityAllowed.
  assert (∀ js acc, (∀ j, j ∈ js → j ∈ chat :: original) → (acc = Some true → known_permitted p client (chat :: original)) →
    foldl (λ acc j, match acc with Some true => Some true | Some false => allowsIdentity fuel p (known_twins client) j | None => None end) acc js = Some true →
    known_permitted p client (chat :: original)) as Hgen.
  { induction js as [|j js IH]; intros acc Hjs Hacc; cbn [foldl]; [exact Hacc|].
    apply IH; [intros; apply Hjs; by right|]. destruct acc as [[]|]; [done| |done].
    intros Hj. eapply allowsIdentity_permitted, Hj. apply Hjs. by left. }
  apply Hgen; [intros; by right|]. apply allowsIdentity_permitted. by left.
Qed.

(** What a filter withholds, spelled out. *)
Lemma allows_spec f chat fromMe :
  allows f chat fromMe = true ↔
  (fromMe = true → ForwardSelf f = true) ∧
  (isStatusChat chat = true → ForwardStatus f = true) ∧
  (isStatusChat chat = false → Server chat = NewsletterServer → ForwardChannels f = true) ∧
  (isStatusChat chat = false → Server chat = BroadcastServer → ForwardBroadcasts f = true) ∧
  Server chat ∈ [DefaultUserServer; HiddenUserServer; HostedServer; HostedLIDServer; GroupServer;
                 NewsletterServer; BroadcastServer].
Proof.
  unfold allows, withheldBy.
  assert (isStatusChat chat = true → Server chat = BroadcastServer) as Hst.
  { unfold isStatusChat. intros [_ ?%String.eqb_eq]%andb_true_iff. done. }
  destruct (isStatusChat chat) eqn:Hs.
  - rewrite (Hst eq_refl). destruct fromMe, (ForwardSelf f), (ForwardStatus f); simpl; split; try done;
      (intros; destruct_and?; try set_solver; try naive_solver).
  - destruct (String.eqb_spec (Server chat) NewsletterServer) as [Hn|Hn];
      [|destruct (String.eqb_spec (Server chat) BroadcastServer) as [Hb|Hb]].
    + rewrite Hn. assert (NewsletterServer ≠ BroadcastServer) by done.
      destruct fromMe, (ForwardSelf f), (ForwardChannels f); simpl; split; try done;
        (intros; destruct_and?; try set_solver; try naive_solver).
    + rewrite Hb. assert (NewsletterServer ≠ BroadcastServer) by done.
      destruct fromMe, (ForwardSelf f), (ForwardBroadcasts f); simpl; split; try done;
        (intros; destruct_and?; try set_solver; try naive_solver).
    + assert (Server chat ∈ [DefaultUserServer; HiddenUserServer; HostedServer; HostedLIDServer; GroupServer;
                 NewsletterServer; BroadcastServer] ↔
              Server chat ∈ [DefaultUserServer; HiddenUserServer; HostedServer; HostedLIDServer; GroupServer]) as ->.
      { rewrite !elem_of_cons, elem_of_nil. tauto. }
      case_bool_decide as Hin; destruct fromMe, (ForwardSelf f); simpl; intuition congruence.
Qed.

End Admission.
End Filters.

(** ** The runtime receiver *)

Module RuntimeWebhook.
Import Address Filters.

Record options := {
  Enabled : bool;
  AllowPorts : bool;
  FailureLimit : Z;
  DeniedFilters : filters;
  DeniedConnection : bool;
}.

Definition parseRuntimeWebhookOptions (getenv : string → string) (sw : bridgeSwitches) : result string options :=
  match parseBoolEnv "WHATSAPP_WEBHOOK_RUNTIME" (getenv "WHATSAPP_WEBHOOK_RUNTIME") false with
  | (_, Some e) => Err e
  | (on, None) =>
      match parseBoolEnv "WHATSAPP_WEBHOOK_RUNTIME_ALLOW_PORTS" (getenv "WHATSAPP_WEBHOOK_RUNTIME_ALLOW_PORTS") false with
      | (_, Some e) => Err e
      | (ports, None) =>
          let raw := getenv "WHATSAPP_WEBHOOK_RUNTIME_FAILURE_LIMIT" in
          let lim := if String.eqb raw "" then Some 50
                     else match Atoi raw with
                          | Some n => if bool_decide (n < 1 ∨ n > 100) then None else Some n
                          | None => None
                          end in
          match lim with
          | None => Err "WHATSAPP_WEBHOOK_RUNTIME_FAILURE_LIMIT must be 1-100"
          | Some n => Ok {|
              Enabled := on; AllowPorts := ports; FailureLimit := n;
              DeniedFilters := {|
                ForwardSelf := ExplicitForwardSelf (Explicit sw) && negb (Config.ForwardSelf sw);
                ForwardChannels := ExplicitForwardChannels (Explicit sw) && negb (Config.ForwardChannels sw);
                ForwardBroadcasts := ExplicitForwardBroadcasts (Explicit sw) && negb (Config.ForwardBroadcasts sw);
                ForwardStatus := false |};
              DeniedConnection := ExplicitForwardConnection (Explicit sw) && negb (ForwardConnection sw) |}
          end
      end
  end.

(** [webhookFilters]: the deployment's filters. *)
Definition webhookFilters (sw : bridgeSwitches) : filters := {|
  ForwardSelf := Config.ForwardSelf sw; ForwardChannels := Config.ForwardChannels sw;
  ForwardBroadcasts := Config.ForwardBroadcasts sw; ForwardStatus := Config.ForwardStatus sw |}.

Record config := {
  URL : string;
  Events : list string;
  Secret : string;
  HeaderPrefix : string;
  Authorization : string;
  cfg_self : option bool;
  cfg_channels : option bool;
  cfg_broadcasts : option bool;
}.

(** *** The address guard *)

(** What [net/url] reports of a URL. *)
Record url := { Scheme : string; Hostname : string; Port : string; HasUser : bool; Fragment : string }.

(** [receiver]: the validated URL and the addresses a delivery may dial.
    [parse_url] is [url.Parse] ([None] on error), [lookup] the resolver, with
    the bytes and the zone of each answer. *)
Definition receiver (parse_url : string → option url) (lookup : string → option (list (list Z * string)))
    (allow_ports : bool) (raw : string) : result string (url * list (list Z * string)) :=
  match parse_url raw with
  | None => Err "receiver requires an HTTPS URL without credentials or fragment"
  | Some u =>
      if negb (String.eqb (Scheme u) "https") || String.eqb (Hostname u) "" || HasUser u
         || negb (String.eqb (Fragment u) "") || Nat.ltb 2048 (String.length raw)
      then Err "receiver requires an HTTPS URL without credentials or fragment"
      else
        let port := if String.eqb (Port u) "" then "443" else Port u in
        match Atoi port with
        | None => Err "receiver port is not allowed"
        | Some n =>
            if bool_decide (n < 1 ∨ n > 65535) || (negb allow_ports && negb (Z.eqb n 443))
            then Err "receiver port is not allowed"
            else match lookup (Hostname u) with
                 | None | Some [] => Err "receiver DNS lookup failed"
                 | Some addresses =>
                     if forallb (λ a, String.eqb a.2 "" && publicWebhookIP a.1) addresses
                     then Ok (u, map (λ a, (a.1, port)) addresses)
                     else Err "receiver address is forbidden"
                 end
        end
  end.

(** *** Header values *)

Definition token_byte (a : ascii) : bool :=
  bool_decide (97 ≤ byte_code a ≤ 122) || bool_decide (65 ≤ byte_code a ≤ 90)
  || bool_decide (48 ≤ byte_code a ≤ 57) || Ascii.eqb a "-".

Definition validWebhookPrefix (prefix : string) : bool :=
  negb (Nat.ltb (String.length prefix) 3) && negb (Nat.ltb 48 (String.length prefix))
  && has_prefix "X-" prefix && forallb token_byte (list_ascii_of_string prefix).

Definition validWebhookAuthorization (value : string) : bool :=
  negb (Nat.ltb 2100 (String.length value)) && negb (String.eqb (trim_space value) "")
  && forallb (λ a, bool_decide (32 ≤ byte_code a ≤ 126)) (list_ascii_of_string value).

(** *** The checks of [configure] before the lock *)

Definition known_events : list string := ["message.received"; "connection.changed"; "storage.warning"].

(** One receiver filter over the deployment's: [None] when it would widen an
    explicit false. *)
Definition override (v : option bool) (denied effective : bool) : option bool :=
  match v with
  | None => Some effective
  | Some b => if b && denied then None else Some b
  end.

Definition check_config (o : options) (cfg : config) (deployment : filters) : result string (config * filters) :=
  if Nat.ltb (String.length (Secret cfg)) 32 || Nat.ltb 256 (String.length (Secret cfg))
  then Err "secret must contain 32-256 bytes"
  else if negb (String.eqb (Authorization cfg) "") && negb (validWebhookAuthorization (Authorization cfg))
  then Err "authorization must be empty to send none, or a non-blank header value of at most 2100 printable ASCII bytes, without CR, LF or other control characters"
  else if Nat.ltb (length (Events cfg)) 1 || Nat.ltb 3 (length (Events cfg))
  then Err "events must select message.received, connection.changed and/or storage.warning"
  else if negb (bool_decide (Forall (λ e, e ∈ known_events) (Events cfg)) && bool_decide (NoDup (Events cfg)))
  then Err "events must select message.received, connection.changed and/or storage.warning without duplicates"
  else if bool_decide ("connection.changed" ∈ Events cfg) && DeniedConnection o
  then Err "connection.changed cannot widen an explicit deployment WEBHOOK_FORWARD_CONNECTION_EVENTS=false"
  else
    match override (cfg_self cfg) (ForwardSelf (DeniedFilters o)) (ForwardSelf deployment),
          override (cfg_channels cfg) (ForwardChannels (DeniedFilters o)) (ForwardChannels deployment),
          override (cfg_broadcasts cfg) (ForwardBroadcasts (DeniedFilters o)) (ForwardBroadcasts deployment) with
    | Some s, Some c, Some b =>
        let prefix := if String.eqb (HeaderPrefix cfg) "" then "X-Webhook" else HeaderPrefix cfg in
        if negb (validWebhookPrefix prefix)
        then Err "header_prefix must be an X- prefixed HTTP token of 3-48 characters"
        else Ok ({| URL := URL cfg; Events := Events cfg; Secret := Secret cfg; HeaderPrefix := prefix;
                    Authorization := Authorization cfg; cfg_self := cfg_self cfg;
                    cfg_channels := cfg_channels cfg; cfg_broadcasts := cfg_broadcasts cfg |},
                 {| ForwardSelf := s; ForwardChannels := c; ForwardBroadcasts := b;
                    ForwardStatus := ForwardStatus deployment |})
    | _, _, _ => Err "receiver filters cannot widen an explicit deployment false"
    end.

(** *** Generations and the queue *)

Definition queue_size : nat := 256.

(** An event: its name, whether its payload fits 64 KiB, and what it is. *)
Record event := { name : string; fits : bool; about : nat }.

(** A receiver generation; the queue remembers for which generation each event
    was admitted. *)
Record generation := {
  gid : nat;
  g_config : config;
  g_filters : filters;
  g_cancelled : bool;
  g_queue : list (nat * event);
}.

(** [runtimeWebhook]: the visible state, the generation, the counters of the
    process, the remembered states to replay, and the events in the hands of
    delivery goroutines, each with the generation that delivers it. *)
Record hook := {
  enabled : bool;
  failures : Z;
  state_dropped : Z;
  gen : option generation;
  next_gid : nat;
  deliveries : Z;
  dropped : Z;
  failed_events : Z;
  lastConnection : option event;
  storeWarning : option event;
  quotaWarning : option event;
  in_hand : list (nat * (nat * event));
  offered : Z;
}.

Definition newRuntimeWebhook : hook := {|
  enabled := false; failures := 0; state_dropped := 0; gen := None; next_gid := 0; deliveries := 0;
  dropped := 0; failed_events := 0; lastConnection := None; storeWarning := None; quotaWarning := None;
  in_hand := []; offered := 0 |}.

Definition set_queue (g : generation) (q : list (nat * event)) : generation :=
  {| gid := gid g; g_config := g_config g; g_filters := g_filters g; g_cancelled := g_cancelled g; g_queue := q |}.

(** The fields the queue operations touch. *)
Definition upd (h : hook) (en : bool) (fl sd : Z) (g : option generation) (dl dr fe : Z)
    (hand : list (nat * (nat * event))) (off : Z) : hook := {|
  enabled := en; failures := fl; state_dropped := sd; gen := g; next_gid := next_gid h; deliveries := dl;
  dropped := dr; failed_events := fe; lastConnection := lastConnection h; storeWarning := storeWarning h;
  quotaWarning := quotaWarning h; in_hand := hand; offered := off |}.

(** [dropLocked]: the counters (its rate-limited log line is left out). *)
Definition dropLocked (n : Z) (h : hook) : hook :=
  upd h (enabled h) (failures h) (state_dropped h + n) (gen h) (deliveries h) (dropped h + n)
    (failed_events h) (in_hand h) (offered h).

Definition put_gen (g : option generation) (h : hook) : hook :=
  upd h (enabled h) (failures h) (state_dropped h) g (deliveries h) (dropped h) (failed_events h)
    (in_hand h) (offered h).

Definition offer (h : hook) : hook :=
  upd h (enabled h) (failures h) (state_dropped h) (gen h) (deliveries h) (dropped h) (failed_events h)
    (in_hand h) (offered h + 1).

(** [drainLocked] on the current generation. *)
Definition drainLocked (h : hook) : hook :=
  match gen h with
  | Some g => dropLocked (Z.of_nat (length (g_queue g))) (put_gen (Some (set_queue g [])) h)
  | None => h
  end.

(** [enqueueLocked] for the generation that admitted the event. *)
Definition enqueueLocked (admitted : option generation) (e : event) (h : hook) : hook :=
  match admitted with
  | None => h
  | Some a =>
      if negb (bool_decide (name e ∈ Events (g_config a))) then h
      else
        let h := offer h in
        match gen h with
        | Some g =>
            if negb (Nat.eqb (gid g) (gid a)) then dropLocked 1 h
            else if negb (enabled h) then dropLocked 1 h
            else if negb (fits e) then dropLocked 1 h
            else if Nat.ltb (length (g_queue g)) queue_size
            then put_gen (Some (set_queue g (g_queue g ++ [(gid a, e)]))) h
            else dropLocked 1 h
        | None => dropLocked 1 h
        end
  end.

(** [remove]. *)
Definition remove (h : hook) : hook :=
  let h := drainLocked h in
  upd h false 0 0 None (deliveries h) (dropped h) (failed_events h) (in_hand h) (offered h).

(** The locked part of [configure]: the old queue is dropped, the state starts
    over, and the remembered states are queued for the new receiver. *)
Definition replays (cfg : config) (h : hook) : bool :=
  match gen h with
  | None => true
  | Some g => negb (enabled h) || negb (String.eqb (URL (g_config g)) (URL cfg))
              || negb (bool_decide ("connection.changed" ∈ Events (g_config g)))
  end.

Definition enqueue_opt (g : generation) (e : option event) (h : hook) : hook :=
  match e with Some e => enqueueLocked (Some g) e h | None => h end.

Definition install (cfg : config) (f : filters) (h : hook) : hook :=
  let replay := replays cfg h in
  let h := drainLocked h in
  let g := {| gid := next_gid h; g_config := cfg; g_filters := f; g_cancelled := false; g_queue := [] |} in
  let h := {| enabled := true; failures := 0; state_dropped := 0; gen := Some g; next_gid := S (next_gid h);
              deliveries := deliveries h; dropped := dropped h; failed_events := failed_events h;
              lastConnection := lastConnection h; storeWarning := storeWarning h;
              quotaWarning := quotaWarning h; in_hand := in_hand h; offered := offered h |} in
  let h := enqueue_opt g (if replay then lastConnection h else None) h in
  let h := enqueue_opt g (storeWarning h) h in
  enqueue_opt g (quotaWarning h) h.

(** [configure]. *)
Definition configure (parse_url : string → option url) (lookup : string → option (list (list Z * string)))
    (o : options) (cfg : config) (deployment : filters) (h : hook) : hook * option string :=
  match check_config o cfg deployment with
  | Err e => (h, Some e)
  | Ok (cfg, f) =>
      match receiver parse_url lookup (AllowPorts o) (URL cfg) with
      | Err e => (h, Some e)
      | Ok _ => (install cfg f h, None)
      end
  end.

(** [queueRuntimeConnection] and [queueRuntimeStorageWarning]. *)
Definition remember (conn store quota : option event) (h : hook) : hook := {|
  enabled := enabled h; failures := failures h; state_dropped := state_dropped h; gen := gen h;
  next_gid := next_gid h; deliveries := deliveries h; dropped := dropped h; failed_events := failed_events h;
  lastConnection := conn; storeWarning := store; quotaWarning := quota; in_hand := in_hand h;
  offered := offered h |}.

Definition queueRuntimeConnection (e : event) (h : hook) : hook :=
  enqueueLocked (gen h) e (remember (Some e) (storeWarning h) (quotaWarning h) h).

Inductive warning_kind : Type := StoreWarning | QuotaWarning.

Definition queueRuntimeStorageWarning (kind : warning_kind) (state : option event) (h : hook) : hook :=
  let h := match kind with
           | StoreWarning => remember (lastConnection h) state (quotaWarning h) h
           | QuotaWarning => remember (lastConnection h) (storeWarning h) state h
           end in
  match state with Some e => enqueueLocked (gen h) e h | None => h end.

(** *** Delivery *)

(** What one attempt reports: delivered, a refusal of the destination with its
    HTTP status (0 for none), or stopped on this side (cancelled, disabled or
    reconfigured). *)
Inductive outcome : Type :=
| Delivered
| DestinationFailed (status : Z)
| StoppedHere.

#[export] Instance outcome_eq_dec : EqDecision outcome.
Proof. solve_decision. Defined.

(** A status no retry can change. *)
Definition final_status (o : outcome) : bool :=
  match o with
  | DestinationFailed s => bool_decide (300 ≤ s < 500 ∧ s ≠ 408 ∧ s ≠ 429)
  | _ => false
  end.

(** The attempts of [run] for one event; [attempt n] is [None] when the event
    expired before attempt [n].  Whether it was delivered, whether the
    destination ever failed, and the number of attempts made. *)
Fixpoint attempts (fuel n : nat) (failed : bool) (attempt : nat → option outcome) : bool * bool * nat :=
  match fuel with
  | O => (false, failed, n)
  | S fuel =>
      match attempt n with
      | None => (false, failed, n)
      | Some Delivered => (true, failed, S n)
      | Some o =>
          let failed := match o with DestinationFailed _ => true | _ => failed end in
          if final_status o then (false, failed, S n) else attempts fuel (S n) failed attempt
      end
  end.

Definition deliver_event (attempt : nat → option outcome) : bool * bool * nat := attempts 5 0 false attempt.

(** The bookkeeping of [attempt] after a 2xx. *)
Definition succeed (id : nat) (h : hook) : hook :=
  let current := match gen h with Some g => Nat.eqb (gid g) id | None => false end in
  upd h (enabled h) (if current then 0 else failures h) (state_dropped h) (gen h) (deliveries h + 1)
    (dropped h) (failed_events h) (in_hand h) (offered h).

(** The same for a synthetic test: its 2xx is counted, the receiver's state is
    left alone; a test counts as offered. *)
Definition test_succeed (h : hook) : hook :=
  upd h (enabled h) (failures h) (state_dropped h) (gen h) (deliveries h + 1) (dropped h) (failed_events h)
    (in_hand h) (offered h + 1).

(** The bookkeeping of [run] for an event that was not delivered. *)
Definition abandon (o : options) (id : nat) (dest_failed : bool) (h : hook) : hook :=
  let active := match gen h with Some g => Nat.eqb (gid g) id && negb (g_cancelled g) | None => false end in
  let h := dropLocked 1 h in
  if active && dest_failed then
    let fl := failures h + 1 in
    let h := upd h (enabled h) fl (state_dropped h) (gen h) (deliveries h) (dropped h) (failed_events h + 1)
               (in_hand h) (offered h) in
    if bool_decide (FailureLimit o ≤ fl) then
      let g' := match gen h with
                | Some g => Some {| gid := gid g; g_config := g_config g; g_filters := g_filters g;
                                    g_cancelled := true; g_queue := g_queue g |}
                | None => None
                end in
      drainLocked (upd h false fl (state_dropped h) g' (deliveries h) (dropped h) (failed_events h)
                     (in_hand h) (offered h))
    else h
  else h.

Definition set_hand (hand : list (nat * (nat * event))) (h : hook) : hook :=
  upd h (enabled h) (failures h) (state_dropped h) (gen h) (deliveries h) (dropped h) (failed_events h)
    hand (offered h).

(** A generation is an object: one with the identity of the current one is the
    current one, with its immutable configuration. *)
Definition same_object (a : option generation) (h : hook) : Prop :=
  ∀ a' g, a = Some a' → gen h = Some g → gid g = gid a' → g_config g = g_config a'.

(** The critical sections of the component, in any interleaving. *)
Inductive step (o : options) : hook → hook → Prop :=
| step_admit a e h : same_object a h → step o h (enqueueLocked a e h)
| step_connection e h : step o h (queueRuntimeConnection e h)
| step_warning k s h : step o h (queueRuntimeStorageWarning k s h)
| step_configure cfg f h : step o h (install cfg f h)
| step_remove h : step o h (remove h)
| step_take g qe rest h :
    gen h = Some g → g_queue g = qe :: rest →
    step o h (set_hand ((gid g, qe) :: in_hand h) (put_gen (Some (set_queue g rest)) h))
| step_delivered l1 id qe l2 h :
    in_hand h = l1 ++ (id, qe) :: l2 → step o h (set_hand (l1 ++ l2) (succeed id h))
| step_tested h : step o h (test_succeed h)
| step_gave_up l1 id qe l2 dest h :
    in_hand h = l1 ++ (id, qe) :: l2 → step o h (set_hand (l1 ++ l2) (abandon o id dest h)).

(** *** The invariant *)

Definition queue_of (h : hook) : list (nat * event) := match gen h with Some g => g_queue g | None => [] end.

Record hook_ok (o : options) (h : hook) : Prop := {
  ok_conserved : offered h = deliveries h + dropped h + Z.of_nat (length (queue_of h)) + Z.of_nat (length (in_hand h));
  ok_queue : ∀ g, gen h = Some g →
    (length (g_queue g) ≤ queue_size)%nat ∧ Forall (λ qe, qe.1 = gid g ∧ name qe.2 ∈ Events (g_config g)) (g_queue g);
  ok_enabled : enabled h = true → failures h < FailureLimit o ∧ ∃ g, gen h = Some g ∧ g_cancelled g = false;
  ok_disabled : enabled h = false → queue_of h = [];
  ok_hand : Forall (λ x, x.1 = x.2.1) (in_hand h);
}.

Section Invariant.
Context (o : options) (Hlimit : 0 < FailureLimit o).

Lemma drop_ok h n :
  0 ≤ n → hook_ok o h →
  hook_ok o (upd h (enabled h) (failures h) (state_dropped h + n) (gen h) (deliveries h) (dropped h + n)
               (failed_events h) (in_hand h) (offered h + n)).
Proof. intros Hn [H1 H2 H3 H4 H5]. split; simpl; [unfold queue_of in *; simpl; lia|done..]. Qed.

(** An event offered and dropped at once. *)
Lemma offer_drop_ok h : hook_ok o h → hook_ok o (dropLocked 1 (offer h)).
Proof. intros Hok. exact (drop_ok h 1 ltac:(lia) Hok). Qed.

Lemma enqueue_ok a e h : same_object a h → hook_ok o h → hook_ok o (enqueueLocked a e h).
Proof.
  intros Hsame Hok. unfold enqueueLocked. destruct a as [a|]; [|done]. case_bool_decide as Hname; [|done].
  cbn [negb]. change (gen (offer h)) with (gen h). destruct (gen h) as [g|] eqn:Hg; [|by apply offer_drop_ok].
  destruct (Nat.eqb_spec (gid g) (gid a)) as [Hid|_]; [|by apply offer_drop_ok]. cbn [negb].
  change (enabled (offer h)) with (enabled h). destruct (enabled h) eqn:Hen; [|by apply offer_drop_ok].
  destruct (fits e); [|by apply offer_drop_ok]. cbn [negb].
  destruct (Nat.ltb_spec (length (g_queue g)) queue_size) as [Hlt|_]; [|by apply offer_drop_ok].
  destruct Hok as [H1 H2 H3 H4 H5]. destruct (H2 g Hg) as [Hlen Hall]. split; simpl.
  - unfold queue_of in *. rewrite Hg in H1. simpl. rewrite length_app. simpl. lia.
  - intros g' [= <-]. simpl. split; [rewrite length_app; simpl; lia|].
    apply Forall_app. split; [done|]. constructor; [|done]. simpl. split; [done|].
    by rewrite (Hsame a g).
  - intros _. destruct (H3 Hen) as [Hf (g' & Hg' & Hc)]. split; [done|]. rewrite Hg in Hg'. simplify_eq.
    eexists. split; [done|]. done.
  - congruence.
  - done.
Qed.

Lemma drain_ok h : hook_ok o h → hook_ok o (drainLocked h) ∧ queue_of (drainLocked h) = [].
Proof.
  intros [H1 H2 H3 H4 H5]. unfold drainLocked, queue_of in *. destruct (gen h) as [g|] eqn:Hg.
  - split; [|done]. split; simpl.
    + unfold queue_of. simpl. lia.
    + intros g' [= <-]. simpl. split; [lia|constructor].
    + intros He. destruct (H3 He) as [Hf (g' & Hg' & Hc)]. split; [done|]. simplify_eq. by eexists.
    + done.
    + done.
  - split; [|by rewrite Hg]. split; [unfold queue_of; by rewrite Hg|by rewrite Hg|by rewrite Hg|unfold queue_of; by rewrite Hg|done].
Qed.

Lemma remove_ok h : hook_ok o h → hook_ok o (remove h).
Proof.
  intros Hok. destruct (drain_ok h Hok) as [[H1 H2 H3 H4 H5] Hq]. unfold remove.
  split; simpl; try done. rewrite H1, Hq. simpl. lia.
Qed.

Lemma enqueue_opt_ok g e h :
  hook_ok o h → (∀ g', gen h = Some g' → gid g' = gid g → g_config g' = g_config g) → hook_ok o (enqueue_opt g e h).
Proof.
  intros Hok Hg. destruct e as [e|]; [|done]. apply enqueue_ok; [|done].
  intros a' g' [= <-] Hg' Hid. by apply Hg.
Qed.

(** Enqueueing keeps the identity and the configuration of the generation. *)
Lemma enqueue_gen a e h g' :
  gen (enqueueLocked a e h) = Some g' → ∃ g, gen h = Some g ∧ gid g = gid g' ∧ g_config g = g_config g'.
Proof.
  unfold enqueueLocked. destruct a as [a|]; [|eauto]. case_bool_decide; [|eauto]. cbn [negb].
  change (gen (offer h)) with (gen h). destruct (gen h) as [g|] eqn:Hg; [|simpl; rewrite Hg; done].
  repeat case_match; simpl; rewrite ?Hg; intros [= <-]; eauto.
Qed.

Lemma enqueue_opt_gen x e h g' :
  gen (enqueue_opt x e h) = Some g' → ∃ g, gen h = Some g ∧ gid g = gid g' ∧ g_config g = g_config g'.
Proof. destruct e; [apply enqueue_gen|eauto]. Qed.

Lemma install_ok cfg f h : hook_ok o h → hook_ok o (install cfg f h).
Proof.
  intros Hok. unfold install. destruct (drain_ok h Hok) as [[H1 H2 H3 H4 H5] Hq].
  set (h0 := drainLocked h) in *.
  set (g := {| gid := next_gid h0; g_config := cfg; g_filters := f; g_cancelled := false; g_queue := [] |}).
  set (h1 := {| enabled := true |}).
  assert (hook_ok o h1) as Hok1.
  { split; simpl; [rewrite H1, Hq; unfold queue_of; simpl; lia|intros g' [= <-]; simpl; split; [lia|constructor]
      |intros _; split; [done|by eexists]|done|done]. }
  assert (∀ g', gen h1 = Some g' → gid g' = gid g → g_config g' = g_config g) as Hg1 by (intros g' [= <-]; done).
  assert (∀ e h2, hook_ok o h2 → (∀ g', gen h2 = Some g' → gid g' = gid g → g_config g' = g_config g) →
    hook_ok o (enqueue_opt g e h2) ∧
    (∀ g', gen (enqueue_opt g e h2) = Some g' → gid g' = gid g → g_config g' = g_config g)) as Hstep.
  { intros e h2 Hok2 Hg2. split; [by apply enqueue_opt_ok|]. intros g' Hg' Hid.
    destruct (enqueue_opt_gen _ _ _ _ Hg') as (g2 & Hgen & Hi & <-). apply Hg2; [done|congruence]. }
  destruct (Hstep (if replays cfg h then lastConnection h1 else None) h1 Hok1 Hg1) as [Hok2 Hg2].
  destruct (Hstep (storeWarning (enqueue_opt g (if replays cfg h then lastConnection h1 else None) h1)) _ Hok2 Hg2)
    as [Hok3 Hg3]. by apply Hstep.
Qed.

Lemma remember_ok c s q h : hook_ok o h → hook_ok o (remember c s q h).
Proof. intros []. by split. Qed.

Lemma own_generation h h' : gen h' = gen h → same_object (gen h) h'.
Proof. intros Heq a' g Ha Hg _. congruence. Qed.

Lemma connection_ok e h : hook_ok o h → hook_ok o (queueRuntimeConnection e h).
Proof. intros Hok. apply enqueue_ok; [by apply own_generation|by apply remember_ok]. Qed.

Lemma warning_ok k s h : hook_ok o h → hook_ok o (queueRuntimeStorageWarning k s h).
Proof.
  intros Hok. unfold queueRuntimeStorageWarning.
  destruct k, s; try (by apply remember_ok); apply enqueue_ok; try (by apply own_generation); by apply remember_ok.
Qed.

(** Replacing one event in hand. *)
Lemma hand_split (l1 l2 : list (nat * (nat * event))) x :
  Z.of_nat (length (l1 ++ x :: l2)) = Z.of_nat (length (l1 ++ l2)) + 1.
Proof. rewrite !length_app. simpl. lia. Qed.

Lemma delivered_ok l1 id qe l2 h :
  in_hand h = l1 ++ (id, qe) :: l2 → hook_ok o h → hook_ok o (set_hand (l1 ++ l2) (succeed id h)).
Proof.
  intros Hin [H1 H2 H3 H4 H5]. rewrite Hin in *. rewrite hand_split in H1.
  apply Forall_app in H5 as [Ha [_ Hb]%Forall_cons]. split; simpl; [unfold queue_of in *; simpl; lia|done| |done|by apply Forall_app].
  intros He. destruct (H3 He) as [Hf Hg]. split; [|done]. destruct (match gen h with Some _ => _ | None => _ end); lia.
Qed.

Lemma tested_ok h : hook_ok o h → hook_ok o (test_succeed h).
Proof. intros [H1 H2 H3 H4 H5]. split; simpl; [unfold queue_of in *; simpl; lia|done..]. Qed.

Lemma gave_up_ok l1 id qe l2 dest h :
  in_hand h = l1 ++ (id, qe) :: l2 → hook_ok o h → hook_ok o (set_hand (l1 ++ l2) (abandon o id dest h)).
Proof.
  intros Hin Hok. pose proof Hok as [H1 H2 H3 H4 H5]. rewrite Hin in *. rewrite hand_split in H1.
  apply Forall_app in H5 as [Ha [_ Hb]%Forall_cons]. unfold abandon.
  destruct ((match gen h with Some g => _ | None => false end) && dest) eqn:Hact.
  2: { split; simpl; [unfold queue_of in *; simpl; lia|done|done|done|by apply Forall_app]. }
  destruct (gen h) as [g|] eqn:Hg; [|done]. unfold queue_of in *. rewrite Hg in *.
  cbn [failures dropLocked upd]. case_bool_decide as Hlim.
  - destruct (H2 g eq_refl) as [Hlen Hall].
    unfold drainLocked. cbn [gen upd dropLocked]. rewrite Hg. cbn [gen upd g_queue put_gen].
    split; simpl; [unfold queue_of; simpl; lia|intros g' [= <-]; simpl; split; [lia|constructor]|done|done|by apply Forall_app].
  - split; simpl; [unfold queue_of; simpl; rewrite Hg; lia|by rewrite Hg| | |by apply Forall_app].
    + intros He. destruct (H3 He) as [Hf Hex]. split; [lia|]. by rewrite Hg.
    + unfold queue_of. simpl. rewrite Hg. done.
Qed.

Lemma take_ok g qe rest h :
  gen h = Some g → g_queue g = qe :: rest → hook_ok o h →
  hook_ok o (set_hand ((gid g, qe) :: in_hand h) (put_gen (Some (set_queue g rest)) h)).
Proof.
  intros Hg Hq [H1 H2 H3 H4 H5]. unfold queue_of in *. rewrite Hg, Hq in *. simpl in *.
  destruct (H2 g eq_refl) as [Hlen Hall]. rewrite Hq in Hlen, Hall. simpl in Hlen.
  apply Forall_cons in Hall as [[Hqe _] Hrest]. split; simpl.
  - unfold queue_of. simpl. lia.
  - intros g' [= <-]. simpl. split; [lia|done].
  - intros He. destruct (H3 He) as [Hf (g' & Hg' & Hc)]. split; [done|]. simplify_eq. by eexists.
  - intros He. by specialize (H4 He).
  - constructor; [done|done].
Qed.

Lemma hook_step_ok h h' : hook_ok o h → step o h h' → hook_ok o h'.
Proof.
  intros Hok Hs. destruct Hs; [by apply enqueue_ok|by apply connection_ok|by apply warning_ok|by apply install_ok
    |by apply remove_ok|by apply take_ok|by eapply delivered_ok|by apply tested_ok|by eapply gave_up_ok].
Qed.

Lemma hook_initial_ok : hook_ok o newRuntimeWebhook.
Proof. split; simpl; done. Qed.

Lemma hook_reachable_ok h : rtc (step o) newRuntimeWebhook h → hook_ok o h.
Proof.
  assert (∀ h0, rtc (step o) h0 h → hook_ok o h0 → hook_ok o h) as Hall.
  { intros h0 Hs. induction Hs; eauto using hook_step_ok. }
  eauto using hook_initial_ok.
Qed.

End Invariant.

Lemma attempts_spec fuel n failed attempt :
  let '(ok, dest, k) := attempts fuel n failed attempt in
  (n ≤ k ≤ n + fuel)%nat ∧ (ok = true → (n < k)%nat ∧ attempt (k - 1)%nat = Some Delivered) ∧
  (∀ i, (n ≤ i < k - 1)%nat → ∃ x, attempt i = Some x ∧ x ≠ Delivered ∧ final_status x = false) ∧
  (ok = false → (k < n + fuel)%nat → attempt k = None ∨
     ((n < k)%nat ∧ ∃ x, attempt (k - 1)%nat = Some x ∧ final_status x = true)) ∧
  (dest = true ↔ failed = true ∨ ∃ i s, (n ≤ i < k)%nat ∧ attempt i = Some (DestinationFailed s)) ∧
  (ok = false → (n < k)%nat → attempt (k - 1)%nat ≠ Some Delivered).
Proof.
  revert n failed. induction fuel as [|fuel IH]; intros n failed; simpl.
  { split_and!; try lia; try done. split; [by left|]. intros [?|(i & s & ? & _)]; [done|lia]. }
  destruct (attempt n) as [x|] eqn:Hn.
  2: { split_and!; try lia; try done; [by left|]. split; [by left|]. intros [?|(i & s & ? & _)]; [done|lia]. }
  assert (S n - 1 = n)%nat as Hsn by lia.
  destruct (decide (x = Delivered)) as [->|Hnd].
  { rewrite Hsn. split_and!; try lia; try done; [by intros _; split; [lia|]|]. split; [by left|].
    intros [?|(i & s & ? & Hi)]; [done|]. assert (i = n) as -> by lia. congruence. }
  set (failed' := match x with DestinationFailed _ => true | _ => failed end).
  assert (failed' = true ↔ failed = true ∨ ∃ s, x = DestinationFailed s) as Hf'.
  { unfold failed'. destruct x; naive_solver. }
  replace (match x with Delivered => _ | _ => _ end)
    with (if final_status x then (false, failed', S n) else attempts fuel (S n) failed' attempt) by by destruct x.
  destruct (final_status x) eqn:Hfin.
  - rewrite Hsn. split_and!; try lia; try done; [eauto with lia| |intros _ _; congruence]. rewrite Hf'. split.
    + intros [?|[s ->]]; [by left|]. right. exists n, s. split; [lia|done].
    + intros [?|(i & s & ? & Hi)]; [by left|]. assert (i = n) as -> by lia. right. exists s. congruence.
  - specialize (IH (S n) failed'). destruct (attempts fuel (S n) failed' attempt) as [[ok dest] k].
    destruct IH as (I1 & I2 & I3 & I4 & I5 & I6). split_and!; try lia.
    + intros Hok. destruct (I2 Hok). split; [lia|done].
    + intros i Hi. destruct (decide (i = n)) as [->|]; [by exists x|]. apply I3. lia.
    + intros Hok Hk. destruct (I4 Hok ltac:(lia)) as [?|[? ?]]; [by left|right]. split; [lia|done].
    + rewrite I5, Hf'. split.
      * intros [[?|[s ->]]|(i & s & ? & Hi)]; [by left|right; exists n, s; split; [lia|done]|].
        right. exists i, s. split; [lia|done].
      * intros [?|(i & s & ? & Hi)]; [by left; left|]. destruct (decide (i = n)) as [->|].
        -- left. right. exists s. congruence.
        -- right. exists i, s. split; [lia|done].
    + intros Hok Hk. destruct (decide (k = S n)) as [->|]; [rewrite Hsn; congruence|]. apply I6; [done|lia].
Qed.

(** ** Properties *)

(** An address outside every special-purpose block, mapped IPv4 judged as
    IPv4. *)
Definition routable (ip : list Z) : Prop :=
  match AddrFromSlice ip with
  | None => False
  | Some a => match Unmap a with
              | V4 n => Forall (λ p, ¬ block4 p n) reserved4
              | V6 n => block6 (ip6 8192 0, 3) n ∧ Forall (λ p, ¬ block6 p n) reserved6
              end
  end.

Lemma public_routable ip : publicWebhookIP ip = true → routable ip.
Proof.
  intros Hp. unfold routable. destruct (AddrFromSlice ip) as [a|] eqn:Ha.
  - destruct (Unmap a) as [n|n] eqn:Hu.
    + apply (public_V4 n ip); [|done]. destruct a as [m|m]; [left; injection Hu as ->; done|right; eauto].
    + destruct a as [m|m]; [done|]. assert (m = n) as ->.
      { unfold Unmap in Hu. destruct (Z.eqb _ _); [discriminate|by injection Hu]. }
      by apply (public_V6 n ip).
  - unfold publicWebhookIP in Hp. by rewrite Ha in Hp.
Qed.

(** A delivery can only dial public addresses: whenever the receiver check
    passes, whatever the resolver answered, the URL is https without credentials
    or fragment, at least one address is pinned, all pinned addresses are
    outside every loopback, private, link-local, shared, documentation,
    multicast, reserved and tunnel block (an IPv4-mapped address judged as
    IPv4), and the port is 443 unless other ports are allowed. *)
Theorem receiver_only_public parse_url lookup ports raw u pinned :
  receiver parse_url lookup ports raw = Ok (u, pinned) →
  Scheme u = "https" ∧ HasUser u = false ∧ Fragment u = "" ∧ pinned ≠ [] ∧
  Forall (λ a, routable a.1) pinned ∧
  Forall (λ a, ∃ n, Atoi a.2 = Some n ∧ 1 ≤ n ≤ 65535 ∧ (ports = false → n = 443)) pinned.
Proof.
  unfold receiver. destruct (parse_url raw) as [v|]; [|done]. destruct (_ || _) eqn:Hurl; [done|].
  set (port := if String.eqb (Port v) "" then "443" else Port v). clearbody port.
  destruct (Atoi port) as [n|] eqn:Hn; [|done]. destruct (_ || _) eqn:Hport in |- *; [done|].
  destruct (lookup (Hostname v)) as [[|a l]|]; [done| |done].
  destruct (forallb _ (a :: l)) eqn:Hall; [|done]. intros Heq.
  assert (u = v ∧ pinned = map (λ a, (a.1, port)) (a :: l)) as [-> ->] by (simpl in *; split; congruence).
  rewrite !orb_false_iff, !negb_false_iff in Hurl. destruct Hurl as [[[[Hs _] Hu] Hf] _].
  apply String.eqb_eq in Hs, Hf. apply orb_false_iff in Hport as [Hr Hp]. apply bool_decide_eq_false in Hr.
  split_and!; [done..| |].
  - apply Forall_map, Forall_forall. intros b Hb. apply list_elem_of_In in Hb.
    rewrite forallb_forall in Hall. specialize (Hall b Hb). apply andb_true_iff in Hall as [_ Hb']. by apply public_routable.
  - apply Forall_map, Forall_forall. intros b _. exists n. split; [done|]. split; [lia|]. intros ->.
    simpl in Hp. apply negb_false_iff, Z.eqb_eq in Hp. done.
Qed.

Definition sample_url : url := {| Scheme := "https"; Hostname := "hooks.example"; Port := ""; HasUser := false; Fragment := "" |}.

Lemma receiver_only_public_witness :
  receiver (λ _, Some sample_url) (λ _, Some [([93; 184; 216; 34], "")]) false "https://hooks.example/x"
    = Ok (sample_url, [([93; 184; 216; 34], "443")]) ∧
  Forall (λ a, routable a.1) [([93; 184; 216; 34], "443")].
Proof.
  assert (receiver (λ _, Some sample_url) (λ _, Some [([93; 184; 216; 34], "")]) false "https://hooks.example/x"
    = Ok (sample_url, [([93; 184; 216; 34], "443")])) as H by (vm_compute; reflexivity).
  split; [exact H|]. exact (proj1 (proj2 (proj2 (proj2 (proj2 (receiver_only_public _ _ _ _ _ _ H)))))).
Defined.

(** [C18] However admissions, connection and storage events, reconfigurations,
    removals, deliveries, synthetic tests and failures interleave: every event
    offered is delivered, dropped, queued or in the hands of one delivery,
    never lost and never counted twice; the queue holds at most 256 events, all
    of them of a kind the current receiver selected and admitted for exactly this
    receiver; no event is delivered by another receiver than the one it was
    admitted for; a disabled receiver has an empty queue, and an enabled one
    has fewer consecutive failures than the limit. *)
Theorem events_conserved o h :
  0 < FailureLimit o → rtc (step o) newRuntimeWebhook h →
  offered h = deliveries h + dropped h + Z.of_nat (length (queue_of h)) + Z.of_nat (length (in_hand h)) ∧
  (∀ g, gen h = Some g → (length (g_queue g) ≤ 256)%nat ∧
     Forall (λ qe, qe.1 = gid g ∧ name qe.2 ∈ Events (g_config g)) (g_queue g)) ∧
  Forall (λ x, x.1 = x.2.1) (in_hand h) ∧
  (enabled h = false → queue_of h = []) ∧
  (enabled h = true → failures h < FailureLimit o).
Proof.
  intros Hl Hr. destruct (hook_reachable_ok o Hl h Hr) as [H1 H2 H3 H4 H5]. split_and!; try done. intros He. by apply H3.
Qed.

Definition sample_options : options := {|
  Enabled := true; AllowPorts := false; FailureLimit := 2; DeniedConnection := false;
  DeniedFilters := {| ForwardSelf := true; ForwardChannels := false; ForwardBroadcasts := false; ForwardStatus := false |} |}.
Definition sample_config : config := {|
  URL := "https://hooks.example/x"; Events := ["message.received"; "connection.changed"];
  Secret := "0123456789abcdef0123456789abcdef"; HeaderPrefix := ""; Authorization := "";
  cfg_self := None; cfg_channels := None; cfg_broadcasts := None |}.
Definition sample_filters : filters :=
  {| ForwardSelf := false; ForwardChannels := true; ForwardBroadcasts := true; ForwardStatus := false |}.
Definition sample_hook : hook :=
  queueRuntimeConnection {| name := "connection.changed"; fits := true; about := 7 |}
    (install sample_config sample_filters newRuntimeWebhook).

Lemma events_conserved_witness :
  rtc (step sample_options) newRuntimeWebhook sample_hook ∧ length (queue_of sample_hook) = 1%nat ∧
  offered sample_hook = 1.
Proof.
  assert (rtc (step sample_options) newRuntimeWebhook sample_hook) as H.
  { eapply rtc_l; [apply (step_configure _ sample_config sample_filters)|]. apply rtc_once. apply step_connection. }
  split; [exact H|]. split; [reflexivity|].
  rewrite (proj1 (events_conserved sample_options sample_hook eq_refl H)). reflexivity.
Defined.

(** What one enqueue does for the current, enabled generation. *)
Lemma enqueue_opt_queue g e h :
  enabled h = true → (∃ g0, gen h = Some g0 ∧ gid g0 = gid g ∧ (length (g_queue g0) < queue_size)%nat) →
  ∃ g0, gen h = Some g0 ∧
  gen (enqueue_opt g e h) = Some (set_queue g0 (g_queue g0 ++
    match e with
    | Some e => if bool_decide (name e ∈ Events (g_config g)) && fits e then [(gid g, e)] else []
    | None => []
    end)) ∧ enabled (enqueue_opt g e h) = true ∧ lastConnection (enqueue_opt g e h) = lastConnection h ∧
  storeWarning (enqueue_opt g e h) = storeWarning h ∧ quotaWarning (enqueue_opt g e h) = quotaWarning h.
Proof.
  intros Hen (g0 & Hg & Hid & Hlen). exists g0. split; [done|].
  assert (set_queue g0 (g_queue g0 ++ []) = g0) as Hnil by (rewrite app_nil_r; by destruct g0).
  destruct e as [e|]; simpl; [|by rewrite Hnil].
  unfold enqueueLocked. case_bool_decide; simpl; [|by rewrite Hnil]. rewrite Hg, Hid, Nat.eqb_refl, Hen. simpl.
  destruct (fits e); simpl; [|by rewrite Hnil, Hg]. apply Nat.ltb_lt in Hlen. by rewrite Hlen.
Qed.

(** What a fresh receiver is told: the remembered states it selected. *)
Definition replayed (cfg : config) (e : option event) : list event :=
  match e with Some e => if bool_decide (name e ∈ Events cfg) && fits e then [e] else [] | None => [] end.

Lemma replayed_length cfg e : (length (replayed cfg e) ≤ 1)%nat.
Proof. destruct e; simpl; [destruct (_ && _); simpl; lia|lia]. Qed.

Lemma drain_fields h :
  lastConnection (drainLocked h) = lastConnection h ∧ storeWarning (drainLocked h) = storeWarning h ∧
  quotaWarning (drainLocked h) = quotaWarning h ∧ next_gid (drainLocked h) = next_gid h ∧
  deliveries (drainLocked h) = deliveries h ∧ in_hand (drainLocked h) = in_hand h.
Proof. unfold drainLocked. by destruct (gen h). Qed.

Lemma enqueue_opt_replayed g e h q :
  enabled h = true → gen h = Some (set_queue g q) → (length q < queue_size)%nat →
  gen (enqueue_opt g e h) = Some (set_queue g (q ++ map (pair (gid g)) (replayed (g_config g) e))) ∧
  enabled (enqueue_opt g e h) = true ∧ lastConnection (enqueue_opt g e h) = lastConnection h ∧
  storeWarning (enqueue_opt g e h) = storeWarning h ∧ quotaWarning (enqueue_opt g e h) = quotaWarning h.
Proof.
  intros Hen Hg Hlen. destruct (enqueue_opt_queue g e h Hen) as (g0 & Hg0 & -> & -> & -> & -> & ->); [by exists (set_queue g q)|].
  rewrite Hg in Hg0. injection Hg0 as <-. split_and!; [|done..]. unfold replayed.
  destruct e as [e|]; [|done]. by destruct (_ && _).
Qed.

(** The whole queue of a receiver just installed. *)
Lemma install_queue cfg f h :
  enabled (install cfg f h) = true ∧
  gen (install cfg f h) = Some {|
    gid := next_gid h; g_config := cfg; g_filters := f; g_cancelled := false;
    g_queue := map (pair (next_gid h))
      (replayed cfg (if replays cfg h then lastConnection h else None) ++ replayed cfg (storeWarning h)
       ++ replayed cfg (quotaWarning h)) |}.
Proof.
  unfold install. destruct (drain_fields h) as (Hc & Hs & Hq & Hn & _ & _).
  set (g := {| gid := next_gid (drainLocked h) |}). set (h1 := {| enabled := true |}).
  destruct (enqueue_opt_replayed g (if replays cfg h then lastConnection h1 else None) h1 []) as (G1 & E1 & _ & S1 & Q1);
    [done|done|unfold queue_size; simpl; lia|].
  set (h2 := enqueue_opt g _ h1) in *. cbn [app] in G1.
  pose proof (replayed_length cfg (if replays cfg h then lastConnection h1 else None)) as L1.
  destruct (enqueue_opt_replayed g (storeWarning h2) h2 _ E1 G1) as (G2 & E2 & _ & _ & Q2);
    [rewrite length_map; unfold queue_size; simpl in *; lia|].
  set (h3 := enqueue_opt g _ h2) in *. pose proof (replayed_length cfg (storeWarning h2)) as L2.
  destruct (enqueue_opt_replayed g (quotaWarning h3) h3 _ E2 G2) as (G3 & E3 & _);
    [rewrite length_app, !length_map; unfold queue_size; simpl in *; lia|].
  split; [exact E3|]. rewrite G3. rewrite S1, Q2, Q1. unfold set_queue, g, h1. simpl. rewrite Hc, Hs, Hq, Hn.
  by rewrite !map_app, <-app_assoc.
Qed.

Definition printable (s : string) : Prop := Forall (λ a, 32 ≤ byte_code a ≤ 126) (list_ascii_of_string s).

Lemma prefix_printable s : validWebhookPrefix s = true → printable s.
Proof.
  unfold validWebhookPrefix. rewrite !andb_true_iff. intros [_ Hall]. rewrite forallb_forall in Hall.
  apply Forall_forall. intros a Ha%list_elem_of_In. specialize (Hall a Ha). unfold token_byte in Hall.
  rewrite !orb_true_iff, !bool_decide_eq_true, Ascii.eqb_eq in Hall.
  destruct Hall as [[[?|?]|?]| ->]; [lia..|]. vm_compute. split; discriminate.
Qed.

Lemma authorization_printable s : s = "" ∨ validWebhookAuthorization s = true → printable s.
Proof.
  intros [->|Hv]; [constructor|]. unfold validWebhookAuthorization in Hv. rewrite !andb_true_iff in Hv.
  destruct Hv as [_ Hall]. rewrite forallb_forall in Hall. apply Forall_forall. intros a Ha%list_elem_of_In.
  specialize (Hall a Ha). by rewrite bool_decide_eq_true in Hall.
Qed.

(** What an accepted configuration satisfies. *)
Lemma check_config_ok o cfg d cfg' f :
  check_config o cfg d = Ok (cfg', f) →
  (32 ≤ String.length (Secret cfg') ≤ 256)%nat ∧ printable (HeaderPrefix cfg') ∧ printable (Authorization cfg') ∧
  URL cfg' = URL cfg ∧ NoDup (Events cfg') ∧ Forall (λ e, e ∈ known_events) (Events cfg') ∧
  ("connection.changed" ∈ Events cfg' → DeniedConnection o = false) ∧
  override (cfg_self cfg) (ForwardSelf (DeniedFilters o)) (ForwardSelf d) = Some (ForwardSelf f) ∧
  override (cfg_channels cfg) (ForwardChannels (DeniedFilters o)) (ForwardChannels d) = Some (ForwardChannels f) ∧
  override (cfg_broadcasts cfg) (ForwardBroadcasts (DeniedFilters o)) (ForwardBroadcasts d) = Some (ForwardBroadcasts f) ∧
  ForwardStatus f = ForwardStatus d.
Proof.
  unfold check_config. destruct (_ || _) eqn:Hsec; [done|]. destruct (negb (String.eqb (Authorization cfg) "") && _) eqn:Hauth; [done|].
  destruct (Nat.ltb _ 1 || _) eqn:Hlen; [done|]. destruct (negb (bool_decide (Forall _ _) && _)) eqn:Hev; [done|].
  destruct (bool_decide ("connection.changed" ∈ _) && _) eqn:Hconn; [done|].
  destruct (override (cfg_self cfg) _ _) as [s'|]; [|done].
  destruct (override (cfg_channels cfg) _ _) as [c|]; [|done].
  destruct (override (cfg_broadcasts cfg) _ _) as [b|]; [|done].
  set (prefix := if String.eqb _ _ then _ else _). destruct (validWebhookPrefix prefix) eqn:Hpre; [|done].
  intros [= <- <-]. cbn -[String.length].
  apply orb_false_iff in Hsec as [Ha%Nat.ltb_ge Hb%Nat.ltb_ge].
  apply negb_false_iff, andb_true_iff in Hev as [Hk%bool_decide_eq_true Hnd%bool_decide_eq_true].
  split_and!; try done; [by apply prefix_printable| |].
  - apply authorization_printable. destruct (String.eqb_spec (Authorization cfg) "") as [|]; [by left|right].
    by destruct (validWebhookAuthorization (Authorization cfg)).
  - intros Hin. rewrite bool_decide_true in Hconn by done. done.
Qed.

Lemma override_denied v effective x : override v true effective = Some x → effective = false → x = false.
Proof. destruct v as [[]|]; simpl; congruence. Qed.

(** The denials the options record are the deployment's explicit falses. *)
Lemma options_denied getenv sw o :
  parseRuntimeWebhookOptions getenv sw = Ok o →
  1 ≤ FailureLimit o ≤ 100 ∧
  ForwardSelf (DeniedFilters o) = ExplicitForwardSelf (Explicit sw) && negb (Config.ForwardSelf sw) ∧
  ForwardChannels (DeniedFilters o) = ExplicitForwardChannels (Explicit sw) && negb (Config.ForwardChannels sw) ∧
  ForwardBroadcasts (DeniedFilters o) = ExplicitForwardBroadcasts (Explicit sw) && negb (Config.ForwardBroadcasts sw) ∧
  DeniedConnection o = ExplicitForwardConnection (Explicit sw) && negb (ForwardConnection sw).
Proof.
  unfold parseRuntimeWebhookOptions.
  destruct (parseBoolEnv "WHATSAPP_WEBHOOK_RUNTIME" _ _) as [on [e|]]; [discriminate|].
  destruct (parseBoolEnv "WHATSAPP_WEBHOOK_RUNTIME_ALLOW_PORTS" _ _) as [ports [e|]]; [discriminate|].
  set (raw := getenv _). set (lim := if String.eqb raw "" then _ else _).
  assert (∀ n, lim = Some n → 1 ≤ n ≤ 100) as Hlim.
  { unfold lim. intros n. destruct (String.eqb raw ""); [intros [= <-]; lia|]. destruct (Atoi raw) as [k|]; [|done].
    case_bool_decide; [done|]. intros [= <-]. lia. }
  cbv zeta. clearbody lim. destruct lim as [n|]; [|discriminate].
  intros [= <-]. split; [by apply Hlim|]. done.
Qed.

(** Configuring the runtime receiver either refuses and changes nothing, or
    installs a receiver that cannot widen the deployment: a filter or the
    connection event the deployment set to false explicitly stays off, its
    secret, prefix and Authorization value are free of control bytes, the
    address check passed, and its queue holds exactly the remembered connection
    state (for a receiver that does not know it yet) and storage warnings it
    selected, each once and in order. *)
Theorem configure_never_widens getenv sw o parse_url lookup cfg h h' err :
  parseRuntimeWebhookOptions getenv sw = Ok o →
  configure parse_url lookup o cfg (webhookFilters sw) h = (h', err) →
  (err ≠ None → h' = h) ∧
  (err = None → enabled h' = true ∧ ∃ g, gen h' = Some g ∧ gid g = next_gid h ∧
     (ExplicitForwardSelf (Explicit sw) = true → Config.ForwardSelf sw = false → ForwardSelf (g_filters g) = false) ∧
     (ExplicitForwardChannels (Explicit sw) = true → Config.ForwardChannels sw = false →
        ForwardChannels (g_filters g) = false) ∧
     (ExplicitForwardBroadcasts (Explicit sw) = true → Config.ForwardBroadcasts sw = false →
        ForwardBroadcasts (g_filters g) = false) ∧
     ForwardStatus (g_filters g) = Config.ForwardStatus sw ∧
     (ExplicitForwardConnection (Explicit sw) = true → ForwardConnection sw = false →
        "connection.changed" ∉ Events (g_config g)) ∧
     printable (HeaderPrefix (g_config g)) ∧ printable (Authorization (g_config g)) ∧
     (∃ x, receiver parse_url lookup (AllowPorts o) (URL (g_config g)) = Ok x) ∧
     map snd (g_queue g) =
       replayed (g_config g) (if replays (g_config g) h then lastConnection h else None)
       ++ replayed (g_config g) (storeWarning h) ++ replayed (g_config g) (quotaWarning h)).
Proof.
  intros Ho. destruct (options_denied _ _ _ Ho) as (_ & Ds & Dc & Db & Dn). clear Ho. unfold configure.
  destruct (check_config o cfg (webhookFilters sw)) as [[cfg' f]|e] eqn:Hc; [|intros [= <- <-]; done].
  destruct (receiver parse_url lookup (AllowPorts o) (URL cfg')) as [x|e] eqn:Hr; intros [= <- <-]; [|done].
  split; [done|]. intros _. destruct (install_queue cfg' f h) as [He Hg]. split; [exact He|].
  eexists. split; [exact Hg|]. cbn [gid g_config g_filters g_queue].
  destruct (check_config_ok _ _ _ _ _ Hc) as (_ & Hp & Ha & _ & _ & _ & Hn & Os & Oc & Ob & Hst).
  split_and!; try done; try (by exists x).
  - intros E F. rewrite Ds, E, F in Os. by eapply override_denied.
  - intros E F. rewrite Dc, E, F in Oc. by eapply override_denied.
  - intros E F. rewrite Db, E, F in Ob. by eapply override_denied.
  - intros E F Hin. rewrite Dn, E, F in Hn. by specialize (Hn Hin).
  - rewrite map_map. simpl. by rewrite map_id.
Qed.

Definition sample_switches : bridgeSwitches := {|
  Explicit := {| ExplicitForwardSelf := true; ExplicitForwardChannels := false; ExplicitForwardBroadcasts := false;
                 ExplicitForwardConnection := false |};
  Config.ForwardSelf := false; MediaAutoDownload := true; WebhookEnabled := true; Metrics := true;
  Config.ForwardStatus := false; Config.ForwardChannels := false; Config.ForwardBroadcasts := false;
  ForwardConnection := false |}.

Lemma configure_never_widens_witness :
  ∃ o h', parseRuntimeWebhookOptions (λ _, "") sample_switches = Ok o ∧
    configure (λ _, Some sample_url) (λ _, Some [([93; 184; 216; 34], "")]) o sample_config
      (webhookFilters sample_switches) newRuntimeWebhook = (h', None) ∧ enabled h' = true.
Proof.
  eexists _, _. split; [vm_compute; reflexivity|].
  match goal with |- ?a = (?h, None) ∧ _ => assert (a = (h, None)) as Hc by (vm_compute; reflexivity) end.
  split; [exact Hc|].
  exact (proj1 (proj2 (configure_never_widens (λ _, "") sample_switches _ _ _ _ _ _ _
    ltac:(vm_compute; reflexivity) Hc) eq_refl)).
Defined.

(** The delivery of one event makes at most five attempts: it is delivered
    exactly when its last attempt got a 2xx, every earlier attempt failed with a
    status worth retrying, it stops early only when the event expired or the
    status can never succeed, and it counts as the destination's failure exactly
    when some attempt was refused by the destination. *)
Theorem delivery_attempts attempt ok dest k :
  deliver_event attempt = (ok, dest, k) →
  (k ≤ 5)%nat ∧
  (ok = true ↔ (0 < k)%nat ∧ attempt (k - 1)%nat = Some Delivered) ∧
  (∀ i, (i < k - 1)%nat → ∃ x, attempt i = Some x ∧ x ≠ Delivered ∧ final_status x = false) ∧
  (ok = false → (k < 5)%nat → attempt k = None ∨ ((0 < k)%nat ∧ ∃ x, attempt (k - 1)%nat = Some x ∧ final_status x = true)) ∧
  (dest = true ↔ ∃ i s, (i < k)%nat ∧ attempt i = Some (DestinationFailed s)).
Proof.
  unfold deliver_event. intros Heq. pose proof (attempts_spec 5 0 false attempt) as Hs. rewrite Heq in Hs.
  destruct Hs as (H1 & H2 & H3 & H4 & H5 & H6). split_and!; try lia.
  - split; [exact H2|]. intros [Hk Hd]. destruct ok; [done|]. exfalso. by apply (H6 eq_refl Hk).
  - intros i Hi. apply H3. lia.
  - exact H4.
  - rewrite H5. split.
    + intros [?|(i & s & ? & ?)]; [done|]. exists i, s. split; [lia|done].
    + intros (i & s & ? & ?). right. exists i, s. split; [lia|done].
Qed.

Lemma delivery_attempts_witness :
  deliver_event (λ n, Some (if Nat.eqb n 2 then Delivered else DestinationFailed 503)) = (true, true, 3%nat) ∧ (3 ≤ 5)%nat.
Proof.
  assert (deliver_event (λ n, Some (if Nat.eqb n 2 then Delivered else DestinationFailed 503)) = (true, true, 3%nat)) as H
    by reflexivity.
  split; [exact H|]. exact (proj1 (delivery_attempts _ _ _ _ H)).
Defined.

End RuntimeWebhook.
