(* ===== verification/Rest.v ===== *)
(** * The REST surface ([auth.go], [rest_bind.go], [rest.go], [runtime_settings.go])

    The bearer token, the Host allow-list, and the route table with the guards
    each route is registered with: host and token first, then read-only, then
    the pinned runtime settings, then the tool lists. *)
From stdpp Require Import pretty.
From S2P Require Import Prelude Jid Http ChatPolicy ToolPolicy Config RuntimeSettings Webhook.

(** ** Package [net]: what the allow-list uses *)

Module Net.
Import Address.

(** [strings.TrimSuffix(s, "c")] and [strings.TrimPrefix(s, "c")]. *)
Definition trim_suffix_byte (c : ascii) (s : string) : string :=
  match cut_last c s with Some (u, EmptyString) => u | _ => s end.
Definition trim_prefix_byte (c : ascii) (s : string) : string :=
  match s with String a t => if Ascii.eqb a c then t else s | EmptyString => s end.

(** Both brackets of an IPv6 literal. *)
Definition unbracket (s : string) : string := trim_suffix_byte "]" (trim_prefix_byte "[" s).

(** [net.SplitHostPort]; [None] on error. *)
Definition SplitHostPort (s : string) : option (string * string) :=
  match cut_last ":" s with
  | None => None
  | Some (before, port) =>
      match s with
      | String "[" t =>
          match cut_first "]" t with
          | None => None
          | Some (host, rest) =>
              if String.eqb before (String "[" (host +:+ "]"))
                 && negb (contains_byte "[" t) && negb (contains_byte "]" rest)
              then Some (host, port) else None
          end
      | _ =>
          if contains_byte ":" before || contains_byte "[" s || contains_byte "]" s
          then None else Some (before, port)
      end
  end.

(** [net.ParseIP]: dotted IPv4, then IPv6 with at most one "::" and an optional
    dotted tail; no zone. *)
Definition octet (s : string) : option Z :=
  match s with
  | EmptyString => None
  | String "0" (String _ _) => None
  | _ => match parse_digits s with
         | Some n => if bool_decide (n ≤ 255)%Z then Some n else None
         | None => None
         end
  end.

Definition parseIPv4 (s : string) : option (list Z) :=
  match map octet (split_byte "." s) with
  | [Some a; Some b; Some c; Some d] => Some [a; b; c; d]
  | _ => None
  end.

Definition hex_value (a : ascii) : option Z :=
  let n := byte_code a in
  if bool_decide (48 ≤ n ≤ 57)%Z then Some (n - 48)%Z
  else if bool_decide (97 ≤ n ≤ 102)%Z then Some (n - 87)%Z
  else if bool_decide (65 ≤ n ≤ 70)%Z then Some (n - 55)%Z else None.

(** The hexadecimal run at the head: its value, its length and the rest. *)
Fixpoint hex_run (acc : Z) (len : nat) (s : string) : Z * nat * string :=
  match s with
  | EmptyString => (acc, len, s)
  | String a t => match hex_value a with
                  | Some d => hex_run (acc * 16 + d)%Z (S len) t
                  | None => (acc, len, s)
                  end
  end.

(** The groups of an IPv6 address: the bytes so far, how many of them precede
    "::" (if it was seen), and the text left; nine rounds read eight groups. *)
Fixpoint ipv6_groups (fuel : nat) (bytes : list Z) (ellipsis : option nat) (s : string)
    : option (list Z * option nat) :=
  match fuel with
  | O => None
  | S fuel =>
      if Nat.leb 16 (length bytes) then None
      else
        let '(acc, len, rest) := hex_run 0 0 s in
        if Nat.eqb len 0 || Nat.ltb 4 len then None
        else match rest with
             | String "." _ =>
                 if (bool_decide (ellipsis = None) && negb (Nat.eqb (length bytes) 12)) || Nat.ltb 12 (length bytes)
                 then None
                 else match parseIPv4 s with Some v4 => Some (bytes ++ v4, ellipsis) | None => None end
             | EmptyString => Some (bytes ++ [acc / 256; acc mod 256]%Z, ellipsis)
             | String ":" EmptyString => None
             | String ":" (String ":" t) =>
                 let bytes := bytes ++ [acc / 256; acc mod 256]%Z in
                 if bool_decide (ellipsis ≠ None) then None
                 else match t with
                      | EmptyString => Some (bytes, Some (length bytes))
                      | _ => ipv6_groups fuel bytes (Some (length bytes)) t
                      end
             | String ":" t => ipv6_groups fuel (bytes ++ [acc / 256; acc mod 256]%Z) ellipsis t
             | _ => None
             end
  end.

Definition parseIPv6 (s : string) : option (list Z) :=
  let groups :=
    match s with
    | String ":" (String ":" EmptyString) => Some ([], Some 0)
    | String ":" (String ":" t) => ipv6_groups 9 [] (Some 0) t
    | _ => ipv6_groups 9 [] None s
    end in
  match groups with
  | Some (bytes, ellipsis) =>
      if Nat.ltb (length bytes) 16 then
        match ellipsis with
        | Some at_ => Some (take at_ bytes ++ replicate (16 - length bytes) 0%Z ++ drop at_ bytes)
        | None => None
        end
      else if bool_decide (ellipsis ≠ None) then None else Some bytes
  | None => None
  end.

(** The first of "." and ":" decides the family. *)
Fixpoint ip_family (s : string) : option bool :=
  match s with
  | EmptyString => None
  | String "." _ => Some true
  | String ":" _ => Some false
  | String "%" _ => None
  | String _ t => ip_family t
  end.

Definition ParseIP (s : string) : option (list Z) :=
  match ip_family s with
  | Some true => parseIPv4 s
  | Some false => parseIPv6 s
  | None => None
  end.

(** [IP.IsLoopback]: 127.0.0.0/8, mapped or not, and ::1. *)
Definition ip_loopback (ip : list Z) : bool :=
  match AddrFromSlice ip with Some a => IsLoopback (Unmap a) | None => false end.

(** [strings.EqualFold(s, "localhost")]: the letters of the word have one
    folding outside ASCII, the long s (0xC5 0xBF). *)
Fixpoint fold_long_s (s : string) : string :=
  match s with
  | EmptyString => s
  | String a u =>
      match u with
      | EmptyString => s
      | String b t =>
          if Z.eqb (byte_code a) 197 && Z.eqb (byte_code b) 191 then String "s" (fold_long_s t)
          else String a (fold_long_s u)
      end
  end.

Definition isLoopbackBind (bind : string) : bool :=
  if String.eqb (to_lower (fold_long_s bind)) "localhost" then true
  else match ParseIP bind with Some ip => ip_loopback ip | None => false end.
End Net.

(** ** The bearer token *)

Module Auth.

(** [validateBridgeToken]. *)
Definition validateBridgeToken (raw : string) : option string :=
  let token := trim_space raw in
  if negb (String.eqb token "") && Nat.ltb (String.length token) 16
  then Some "WHATSAPP_BRIDGE_TOKEN is too short (need at least 16 chars)" else None.

Definition tokenByteLen : nat := 32.

Definition hex_digit (n : Z) : ascii := byte_of (if bool_decide (n < 10)%Z then n + 48 else n + 87)%Z.

(** [hex.EncodeToString]. *)
Fixpoint hex_encode (l : list Z) : string :=
  match l with
  | [] => EmptyString
  | b :: l => String (hex_digit (b / 16)) (String (hex_digit (b mod 16)) (hex_encode l))
  end.

(** The token file as [os.ReadFile] finds it. *)
Inductive token_file : Type :=
| Content (s : string)
| NotExist
| Unreadable (e : string).

(** [loadOrCreateBridgeToken]: the token and whether it is new, with the file it
    leaves.  [random] is the answer of [rand.Read], [mkdir] and [write] the
    outcomes of the two file operations. *)
Definition loadOrCreateBridgeToken (env : string) (file : token_file) (random : result string (list Z))
    (mkdir write : option string) : result string (string * bool) * token_file :=
  let e := trim_space env in
  let generate :=
    match random with
    | Err x => (Err ("generate bridge token: " +:+ x), file)
    | Ok buf =>
        let newToken := hex_encode buf in
        match mkdir, write with
        | Some x, _ => (Err ("create token dir: " +:+ x), file)
        | None, Some x => (Err ("write token file: " +:+ x), file)
        | None, None => (Ok (newToken, true), Content (newToken +:+ String (byte_of 10) ""))
        end
    end in
  if negb (String.eqb e "") then
    match validateBridgeToken e with
    | Some x => (Err x, file)
    | None => (Ok (e, false), file)
    end
  else match file with
       | Content data =>
           let existing := trim_space data in
           if negb (String.eqb existing "") then (Ok (existing, false), file) else generate
       | NotExist => generate
       | Unreadable x => (Err ("read token file: " +:+ x), file)
       end.

(** [checkBearerToken]; the comparison is constant-time in the source. *)
Definition checkBearerToken (authHeader expected : string) : bool :=
  match strip_prefix "Bearer " authHeader with
  | None => false
  | Some rest =>
      let got := trim_space rest in
      if negb (Nat.eqb (String.length got) (String.length expected)) then false else String.eqb got expected
  end.

(** ** Lemmas *)

Lemma checkBearerToken_spec header expected :
  checkBearerToken header expected = true ↔ ∃ t, header = "Bearer " +:+ t ∧ trim_space t = expected.
Proof.
  assert (∀ u, strip_prefix "Bearer " ("Bearer " +:+ u) = Some u) as Hsp by (intros; by apply strip_prefix_Some).
  unfold checkBearerToken. destruct (strip_prefix "Bearer " header) as [rest|] eqn:Hs.
  - apply strip_prefix_Some in Hs as ->. split.
    + destruct (negb _); [done|]. intros Heq%String.eqb_eq. eauto.
    + intros (t & Ht & <-). apply (f_equal (strip_prefix "Bearer ")) in Ht. rewrite !Hsp in Ht.
      injection Ht as ->.
      by rewrite Nat.eqb_refl, String.eqb_refl.
  - split; [done|]. intros (t & -> & _). rewrite Hsp in Hs. discriminate.
Qed.

(** The leading test sees a plain byte. *)
Lemma lead_ok_plain (f2 : ascii → ascii → bool) (f3 : ascii → ascii → ascii → bool) a l :
  plain_byte a = true → (∀ b, f2 a b = false) → (∀ b c, f3 a b c = false) → lead_ok space1 f2 f3 (a :: l) = true.
Proof.
  intros Ha H2 H3. unfold lead_ok. destruct l as [|b [|c l]]; rewrite ?H2, ?H3, (plain_space1 a Ha); done.
Qed.

Lemma trim_plain_tail l tail :
  l ≠ [] → Forall (λ a, plain_byte a = true) l → Forall (λ a, space1 a = true) tail →
  trim_space (string_of_list_ascii (l ++ tail)) = string_of_list_ascii l.
Proof.
  intros Hne Hp Ht. unfold trim_space, trim_left. rewrite list_ascii_of_string_of_list_ascii.
  destruct l as [|a l]; [done|]. pose proof (Forall_inv Hp) as Ha.
  rewrite (strip_runs_id space1 space2 space3 ((a :: l) ++ tail)).
  2: { apply lead_ok_plain; [done|..]; intros; [apply (plain_space2 _ _ a)|apply (plain_space3 _ _ _ a)]; auto. }
  unfold trim_right. rewrite reverse_app.
  assert (∀ k, strip_runs space1 (λ b a, space2 a b) (λ c b a, space3 a b c) (reverse tail ++ k)
    = strip_runs space1 (λ b a, space2 a b) (λ c b a, space3 a b c) k) as ->.
  { intros k. apply Forall_reverse in Ht. induction Ht as [|x t Hx _ IH]; [done|]. simpl. by rewrite Hx, IH. }
  f_equal. apply Forall_reverse in Hp. destruct (reverse (a :: l)) as [|z k] eqn:Hr.
  { apply (f_equal length) in Hr. rewrite length_reverse in Hr. done. }
  pose proof (Forall_inv Hp) as Hz. rewrite strip_runs_id; [rewrite <-Hr; apply reverse_involutive|].
  apply lead_ok_plain; [done|..]; intros; [apply (plain_space2 _ _ z)|apply (plain_space3 _ _ _ z)]; auto.
Qed.

Lemma hex_digit_plain n : (0 ≤ n < 16)%Z → plain_byte (hex_digit n) = true.
Proof.
  intros Hn. unfold hex_digit, plain_byte. apply bool_decide_eq_true. case_bool_decide; rewrite byte_code_of; lia.
Qed.

Lemma hex_encode_plain l :
  Forall (λ b, 0 ≤ b < 256)%Z l → Forall (λ a, plain_byte a = true) (list_ascii_of_string (hex_encode l)).
Proof.
  induction 1 as [|b l Hb _ IH]; simpl; constructor; [|constructor; [|done]]; apply hex_digit_plain.
  - pose proof (Z.div_lt_upper_bound b 16 16 ltac:(lia) ltac:(lia)). pose proof (Z.div_pos b 16 ltac:(lia) ltac:(lia)). lia.
  - by apply Z.mod_pos_bound.
Qed.

Lemma hex_encode_length l : String.length (hex_encode l) = (2 * length l)%nat.
Proof. induction l as [|b l IH]; simpl; [done|]. rewrite IH. lia. Qed.

(** What the file reads back as, with and without its newline. *)
Lemma hex_reads_back l tail :
  l ≠ [] → Forall (λ b, 0 ≤ b < 256)%Z l → Forall (λ a, space1 a = true) tail →
  trim_space (hex_encode l +:+ string_of_list_ascii tail) = hex_encode l.
Proof.
  intros Hne Hb Ht. rewrite <-(string_of_list_ascii_of_string (hex_encode l)) at 1.
  rewrite <-string_of_list_app, trim_plain_tail, string_of_list_ascii_of_string;
    [done| |by apply hex_encode_plain|done]. destruct l; done.
Qed.

(** ** Property *)

(** The bridge token works as a credential: whatever the environment and the
    token file hold, a token the bridge starts with is not empty, a request
    passes exactly when its Authorization header is "Bearer " followed by the
    token up to white space (so the header clients are told to send passes),
    and a freshly generated one has 64 hexadecimal digits and is the very token
    a later start without the environment variable reads back from the file. *)
Theorem bridge_token_usable env file random mkdir write token fresh file' :
  (∀ buf, random = Ok buf → length buf = tokenByteLen ∧ Forall (λ b, 0 ≤ b < 256)%Z buf) →
  loadOrCreateBridgeToken env file random mkdir write = (Ok (token, fresh), file') →
  token ≠ "" ∧
  (∀ header, checkBearerToken header token = true ↔ ∃ t, header = "Bearer " +:+ t ∧ trim_space t = token) ∧
  checkBearerToken ("Bearer " +:+ token) token = true ∧
  (fresh = true → String.length token = 64 ∧
     ∀ random' mkdir' write', loadOrCreateBridgeToken "" file' random' mkdir' write' = (Ok (token, false), file')).
Proof.
  intros Hrand Hload.
  assert (token ≠ "" ∧ trim_space token = token ∧ (fresh = true → String.length token = 64 ∧
     ∀ random' mkdir' write', loadOrCreateBridgeToken "" file' random' mkdir' write' = (Ok (token, false), file')))
    as (H1 & H2 & H3).
  2: { split_and!; [done|intros; apply checkBearerToken_spec|apply checkBearerToken_spec; eauto|done]. }
  unfold loadOrCreateBridgeToken in Hload. set (e := trim_space env) in *. destruct (String.eqb_spec e "") as [He|He].
  2: { simpl in Hload. destruct (validateBridgeToken e); [done|]. injection Hload as <- <- <-.
       split_and!; [done|apply trim_space_idemp|done]. }
  cbn [negb] in Hload. set (generate := match random with Ok _ => _ | Err _ => _ end) in Hload.
  assert (generate = (Ok (token, fresh), file') → token ≠ "" ∧ trim_space token = token ∧ (fresh = true →
     String.length token = 64 ∧
     ∀ random' mkdir' write', loadOrCreateBridgeToken "" file' random' mkdir' write' = (Ok (token, false), file'))) as Hgen.
  { unfold generate. destruct random as [buf|x]; [|done]. destruct (Hrand buf eq_refl) as [Hlen Hb].
    destruct mkdir; [done|]. destruct write; [done|]. intros [= <- <- <-].
    assert (buf ≠ []) as Hne by (intros ->; done).
    assert (hex_encode buf ≠ "") as Hnt by (destruct buf; done).
    split_and!; [done| |].
    - pose proof (hex_reads_back buf [] Hne Hb ltac:(constructor)) as Heq. simpl in Heq.
      by rewrite string_app_nil_r in Heq.
    - intros _. split; [rewrite hex_encode_length, Hlen; done|]. intros random' mkdir' write'.
      unfold loadOrCreateBridgeToken. change (trim_space "") with "". cbn [String.eqb negb].
      pose proof (hex_reads_back buf [byte_of 10] Hne Hb ltac:(constructor; [done|constructor])) as Heq.
      cbn [string_of_list_ascii] in Heq. rewrite Heq. destruct (String.eqb_spec (hex_encode buf) ""); done. }
  destruct file as [data| |x]; [|by apply Hgen|done].
  destruct (String.eqb_spec (trim_space data) "") as [|Hd]; [by apply Hgen|]. cbn [negb] in Hload.
  injection Hload as <- <- <-. split_and!; [done|apply trim_space_idemp|done].
Qed.

Lemma bridge_token_usable_witness :
  ∃ token file', loadOrCreateBridgeToken " " NotExist (Ok (replicate 32 171%Z)) None None = (Ok (token, true), file') ∧
    checkBearerToken ("Bearer " +:+ token) token = true.
Proof.
  eexists _, _. split; [vm_compute; reflexivity|].
  refine (proj1 (proj2 (proj2 (bridge_token_usable " " NotExist (Ok (replicate 32 171%Z)) None None _ true _ _ _)))).
  - intros buf [= <-]. split; [reflexivity|]. repeat (constructor; [lia|]); constructor.
  - vm_compute; reflexivity.
Defined.
End Auth.

(** ** The Host allow-list *)

Module Hosts.
Import Net.

Record hostAllowList := {
  any : bool;
  exact : gset string;
  hosts : gset string;
}.

Definition allowAnyHost : string := "*".

Definition buildAllowedHosts (port : Z) : gset string :=
  {[ "127.0.0.1:" +:+ pretty port; "localhost:" +:+ pretty port; "[::1]:" +:+ pretty port ]}.

(** The non-empty entries of WHATSAPP_BRIDGE_ALLOWED_HOSTS. *)
Definition host_entries (allowedHosts : string) : list string :=
  filter (λ e, e ≠ "") (map (λ raw, to_lower (trim_space raw)) (split_byte "," allowedHosts)).

Fixpoint add_entries (l : hostAllowList) (entries : list string) : hostAllowList :=
  match entries with
  | [] => l
  | e :: rest =>
      if String.eqb e allowAnyHost then {| any := true; exact := exact l; hosts := hosts l |}
      else match SplitHostPort e with
           | Some _ => add_entries {| any := any l; exact := {[ e ]} ∪ exact l; hosts := hosts l |} rest
           | None => add_entries {| any := any l; exact := exact l; hosts := {[ unbracket e ]} ∪ hosts l |} rest
           end
  end.

(** Why the configuration deserves attention. *)
Inductive host_warning : Type :=
| AnyHost
| RemoteBindWithoutHosts (bind : string).

(** [buildHostAllowList]. *)
Definition buildHostAllowList (port : Z) (bind allowedHosts : string) : hostAllowList * option host_warning :=
  let entries := host_entries allowedHosts in
  let l := add_entries {| any := false; exact := buildAllowedHosts port; hosts := ∅ |} entries in
  (l, if any l then Some AnyHost
      else if bool_decide (entries = []) && negb (isLoopbackBind bind) then Some (RemoteBindWithoutHosts bind)
      else None).

(** [hostAllowList.allows]. *)
Definition host_name (h : string) : string :=
  unbracket (match SplitHostPort h with Some (hp, _) => hp | None => h end).

Definition allows (l : hostAllowList) (host : string) : bool :=
  if any l then true
  else
    let h := to_lower (trim_space host) in
    if String.eqb h "" then false
    else if bool_decide (h ∈ exact l) then true
    else bool_decide (host_name h ∈ hosts l).

(** Which bare entries and which exact entries the list holds. *)
Lemma add_entries_spec entries l :
  any l = false → any (add_entries l entries) = false →
  (∀ h, h ∈ exact (add_entries l entries) ↔ h ∈ exact l ∨ (h ∈ entries ∧ SplitHostPort h ≠ None)) ∧
  (∀ h, h ∈ hosts (add_entries l entries) ↔ h ∈ hosts l ∨ ∃ e, e ∈ entries ∧ SplitHostPort e = None ∧ h = unbracket e).
Proof.
  revert l. induction entries as [|e rest IH]; intros l Hl; simpl; [set_solver|].
  destruct (String.eqb e allowAnyHost); [done|]. destruct (SplitHostPort e) as [hp|] eqn:Hs; intros Hany.
  all: eapply IH in Hany as [He Hh]; [|exact Hl]; clear IH; split; intros h; rewrite ?He, ?Hh; clear He Hh; simpl.
  all: set_solver.
Qed.

Lemma add_entries_any entries l : any (add_entries l entries) = true ↔ any l = true ∨ allowAnyHost ∈ entries.
Proof.
  revert l. induction entries as [|e rest IH]; intros l; simpl; [set_solver|].
  rewrite elem_of_cons. destruct (String.eqb_spec e allowAnyHost) as [->|Hne]; [simpl; naive_solver|].
  destruct (SplitHostPort e); rewrite IH; simpl; naive_solver.
Qed.

(** ** Property *)

(** The Host allow-list accepts exactly what its configuration names: with "*"
    among the entries any Host; otherwise, up to case and surrounding white
    space, the three loopback spellings with the bound port, an entry with a
    port literally, and an entry without one as the name of the Host whatever
    its port.  In particular a bridge whose list is unset answers loopback
    Hosts only, wherever it is bound. *)
Theorem hosts_allowed_exactly port bind allowedHosts host :
  allows (buildHostAllowList port bind allowedHosts).1 host = true ↔
  allowAnyHost ∈ host_entries allowedHosts ∨
  (let h := to_lower (trim_space host) in
   h ≠ "" ∧
   (h ∈ ["127.0.0.1:" +:+ pretty port; "localhost:" +:+ pretty port; "[::1]:" +:+ pretty port] ∨
    (h ∈ host_entries allowedHosts ∧ SplitHostPort h ≠ None) ∨
    ∃ e, e ∈ host_entries allowedHosts ∧ SplitHostPort e = None ∧ host_name h = unbracket e)).
Proof.
  unfold buildHostAllowList, allows. cbn [fst].
  set (l0 := {| any := false; exact := buildAllowedHosts port; hosts := ∅ |}). set (entries := host_entries allowedHosts).
  pose proof (add_entries_any entries l0) as Hany. destruct (any (add_entries l0 entries)) eqn:Ha.
  { split; [|done]. intros _. left. destruct Hany as [Hany _]. destruct (Hany eq_refl); done. }
  destruct (add_entries_spec entries l0 eq_refl Ha) as [He Hh]. set (h := to_lower (trim_space host)). cbv zeta.
  assert (h ∈ exact l0 ↔ h ∈ ["127.0.0.1:" +:+ pretty port; "localhost:" +:+ pretty port; "[::1]:" +:+ pretty port]) as Hl0.
  { unfold l0, buildAllowedHosts. simpl. rewrite !elem_of_union, !elem_of_singleton, !elem_of_cons, elem_of_nil. tauto. }
  assert (host_name h ∉ hosts l0) as Hno by (unfold l0; simpl; apply not_elem_of_empty).
  specialize (He h). specialize (Hh (host_name h)). clearbody l0.
  destruct (String.eqb_spec h "") as [Hz|Hz].
  { split; [done|]. intros [?|[? _]]; [|done]. destruct Hany as [_ Hany]. discriminate Hany. by right. }
  destruct Hany as [_ Hany]. assert (allowAnyHost ∉ entries) as Hn by (intros ?; discriminate Hany; by right).
  case_bool_decide as Hx; [tauto|]. rewrite bool_decide_eq_true. tauto.
Qed.
End Hosts.

(** ** Routes and guards *)

Module Routes.
Import Auth Hosts.

(** What a request context carries: the pinned runtime settings. *)
Definition context : Type := option runtimeSettingsSnapshot.
Definition ctx_handler : Type := context → Http.handler.

(** The parts of [Bridge] the guards read: whether runtime settings are in use
    ([RuntimeDefaults] is not nil), the two deployment policies, whether an
    operator logged the device out, and what the settings table answers at the
    first and at later reads of a request. *)
Record bridge := {
  RuntimeDefaults : bool;
  ReadOnly : bool;
  Tools : toolPolicy;
  operatorLogout : bool;
  live : nat → result string runtimeSettingsSnapshot;
}.

(** [settingsSnapshot]: the pinned snapshot wins over the table. *)
Definition settingsSnapshot (b : bridge) (read : nat) (ctx : context) : result string runtimeSettingsSnapshot :=
  match ctx with Some pinned => Ok pinned | None => live b read end.

Definition withAuth (token : string) (l : hostAllowList) (h : ctx_handler) : ctx_handler := λ ctx r,
  if negb (allows l (Http.host r)) then Http.writeError Http.StatusForbidden "Forbidden: host not allowed"
  else if negb (checkBearerToken (Http.authorization r) token)
  then Http.writeError Http.StatusUnauthorized "Unauthorized"
  else h ctx r.

Definition runtimePolicyGuard (b : bridge) (h : ctx_handler) : ctx_handler := λ ctx r,
  if negb (RuntimeDefaults b) then h ctx r
  else match settingsSnapshot b 0 ctx with
       | Err _ => Http.writeErrorCode 503 "settings_unavailable" "Runtime chat policy unavailable"
       | Ok snapshot => h (Some snapshot) r
       end.

Definition runtimeToolGuard (b : bridge) (h : ctx_handler) : ctx_handler :=
  if negb (RuntimeDefaults b) then λ ctx, tools_guard (Tools b) (h ctx)
  else λ ctx r,
    if operatorLogout b then Http.writeErrorCode 503 "operator_idle" "Device is parked by operator logout"
    else match settingsSnapshot b 1 ctx with
         | Err _ => Http.writeErrorCode 503 "settings_unavailable" "Runtime policy unavailable"
         | Ok snapshot => tools_guard (policy snapshot) (h ctx) r
         end.

(** How a route is registered. *)
Inductive route_class : Type :=
| Open (* no wrapper *)
| Plain (* host and token *)
| Auth_ (* and the pinned settings *)
| Mutate (* and read-only, and the tool lists *).

Definition wrap (b : bridge) (token : string) (l : hostAllowList) (c : route_class) (h : ctx_handler) : ctx_handler :=
  match c with
  | Open => h
  | Plain => withAuth token l h
  | Auth_ => withAuth token l (runtimePolicyGuard b h)
  | Mutate => withAuth token l
                (λ ctx, read_only_guard (ReadOnly b) (runtimePolicyGuard b (runtimeToolGuard b h) ctx))
  end.

(** A route with the method the mux requires, [None] when its handler checks the
    method itself. *)
Record route := { r_path : string; r_class : route_class; r_method : option string }.

Definition GET : option string := Some "GET".
Definition POST : option string := Some "POST".

(** [registerStatusEndpoints]. *)
Definition status_routes (metrics : bool) : list route := [
  {| r_path := "/api/health"; r_class := Plain; r_method := GET |};
  {| r_path := "/api/ready"; r_class := Plain; r_method := GET |};
  {| r_path := "/api/version"; r_class := Open; r_method := None |}
  ] ++ (if metrics then [{| r_path := "/metrics"; r_class := Open; r_method := GET |}] else []).

(** [newRESTMux], with [registerHistoryEndpoint] and [registerGroupManagement]. *)
Definition rest_routes (metrics : bool) : list route := [
  {| r_path := "/api/media/blob"; r_class := Auth_; r_method := GET |};
  {| r_path := "/api/media/cache"; r_class := Auth_; r_method := GET |};
  {| r_path := "/api/labels"; r_class := Auth_; r_method := GET |};
  {| r_path := "/api/chat/label"; r_class := Mutate; r_method := POST |};
  {| r_path := "/api/history"; r_class := Mutate; r_method := None |}
  ] ++ status_routes metrics ++ [
  {| r_path := "/api/me"; r_class := Plain; r_method := GET |};
  {| r_path := "/api/group/members"; r_class := Auth_; r_method := None |};
  {| r_path := "/api/edit"; r_class := Mutate; r_method := None |};
  {| r_path := "/api/forward"; r_class := Mutate; r_method := None |};
  {| r_path := "/api/group/participants"; r_class := Mutate; r_method := None |};
  {| r_path := "/api/group/subject"; r_class := Mutate; r_method := None |};
  {| r_path := "/api/group/invite"; r_class := Mutate; r_method := None |};
  {| r_path := "/api/group/leave"; r_class := Mutate; r_method := None |};
  {| r_path := "/api/delete"; r_class := Mutate; r_method := None |};
  {| r_path := "/api/poll"; r_class := Auth_; r_method := None |};
  {| r_path := "/api/send"; r_class := Mutate; r_method := POST |};
  {| r_path := "/api/mark-read"; r_class := Mutate; r_method := POST |};
  {| r_path := "/api/chat/archive"; r_class := Mutate; r_method := POST |};
  {| r_path := "/api/react"; r_class := Mutate; r_method := POST |};
  {| r_path := "/api/download"; r_class := Auth_; r_method := POST |};
  {| r_path := "/api/media/purge"; r_class := Mutate; r_method := POST |};
  {| r_path := "/api/typing"; r_class := Mutate; r_method := POST |}].

Definition method_guard (m : option string) (h : ctx_handler) : ctx_handler := λ ctx,
  match m with Some m => Http.requireMethod m (h ctx) | None => h ctx end.

Definition find_route (path : string) (rs : list route) : option route :=
  find (λ rt, String.eqb (r_path rt) path) rs.

(** [ServeMux.ServeHTTP] for a clean path; [handlers] gives the handler behind
    each route. *)
Definition serve (b : bridge) (token : string) (l : hostAllowList) (rs : list route)
    (handlers : string → ctx_handler) : Http.handler := λ r,
  match find_route (Http.path r) rs with
  | None => {| Http.status := 404; Http.code := ""; Http.message := "404 page not found" |}
  | Some rt => wrap b token l (r_class rt) (method_guard (r_method rt) (handlers (r_path rt))) None r
  end.

Definition status_paths : list string := ["/api/health"; "/api/ready"; "/api/version"; "/metrics"].

(** [runtimeRESTHandler]: the status routes have a mux of their own. *)
Definition runtimeRESTHandler (b : bridge) (token : string) (l : hostAllowList) (metrics : bool)
    (handlers : string → ctx_handler) : Http.handler := λ r,
  if bool_decide (Http.path r ∈ status_paths) then serve b token l (status_routes metrics) handlers r
  else serve b token l (rest_routes metrics) handlers r.

(** ** Lemmas *)

(** The lists under which tool names are judged. *)
Definition governing_tools (b : bridge) (p : toolPolicy) : Prop :=
  if RuntimeDefaults b then operatorLogout b = false ∧ ∃ s, live b 0 = Ok s ∧ p = policy s else p = Tools b.

(** The context a handler of the mutating kind runs with. *)
Definition pinned (b : bridge) (ctx : context) : Prop :=
  if RuntimeDefaults b then ∃ s, live b 0 = Ok s ∧ ctx = Some s else ctx = None.

Lemma find_route_elem path rs rt : find_route path rs = Some rt → rt ∈ rs ∧ r_path rt = path.
Proof.
  unfold find_route. intros Hf. apply find_some in Hf as [Hin Heq]. rewrite String.eqb_eq in Heq.
  by rewrite list_elem_of_In.
Qed.

(** A path has side effects exactly when its route is registered with [mutate],
    and then it has a row in [endpointTools]. *)
Lemma mutate_routes metrics :
  Forall (λ rt, match r_class rt with Mutate => is_Some (endpointTools !! r_path rt)
                                    | _ => endpointTools !! r_path rt = None end) (rest_routes metrics).
Proof. destruct metrics; repeat (constructor; [vm_compute; eauto|]); constructor. Qed.

(** The rows of [endpointTools] and the mutating routes are the same paths. *)
Lemma tool_rows metrics :
  Forall (λ row, ∃ rt, find_route row.1 (rest_routes metrics) = Some rt ∧ r_class rt = Mutate) endpointTools_list.
Proof. destruct metrics; repeat (constructor; [eexists; split; vm_compute; reflexivity|]); constructor. Qed.

Lemma tools_guard_differs p h1 h2 r :
  tools_guard p h1 r ≠ tools_guard p h2 r → refusal p (Http.path r) = "" ∧ h1 r ≠ h2 r.
Proof.
  unfold tools_guard. destruct (tools_restricted p) eqn:Hr; simpl.
  - destruct (String.eqb_spec (refusal p (Http.path r)) ""); simpl; done.
  - intros Hne. split; [|done]. apply refusal_empty. by left.
Qed.

Lemma tools_guard_passes p h r : refusal p (Http.path r) = "" → tools_guard p h r = h r.
Proof. unfold tools_guard. intros Hr. destruct (tools_restricted p); simpl; by rewrite ?Hr. Qed.

Lemma with_auth_differs token l h1 h2 ctx r :
  withAuth token l h1 ctx r ≠ withAuth token l h2 ctx r →
  allows l (Http.host r) = true ∧ checkBearerToken (Http.authorization r) token = true ∧ h1 ctx r ≠ h2 ctx r.
Proof.
  unfold withAuth. destruct (allows l (Http.host r)); simpl; [|done].
  by destruct (checkBearerToken (Http.authorization r) token).
Qed.

Lemma mutate_differs b h1 h2 r :
  read_only_guard (ReadOnly b) (runtimePolicyGuard b (runtimeToolGuard b h1) None) r
  ≠ read_only_guard (ReadOnly b) (runtimePolicyGuard b (runtimeToolGuard b h2) None) r →
  ReadOnly b = false ∧ ∃ p ctx, governing_tools b p ∧ pinned b ctx ∧ refusal p (Http.path r) = "" ∧ h1 ctx r ≠ h2 ctx r.
Proof.
  unfold read_only_guard. destruct (ReadOnly b); simpl; [done|]. intros Hne. split; [done|]. revert Hne.
  unfold runtimePolicyGuard, runtimeToolGuard, governing_tools, pinned. destruct (RuntimeDefaults b); simpl.
  - destruct (live b 0) as [s|e]; [|done]. destruct (operatorLogout b); [done|]. simpl.
    intros [Hr Hne]%tools_guard_differs. exists (policy s), (Some s). eauto 10.
  - intros [Hr Hne]%tools_guard_differs. exists (Tools b), None. eauto 10.
Qed.

(** The handler matters only behind the guards of its route. *)
Lemma serve_differs b token l metrics rs h1 h2 r :
  rs ⊆ rest_routes metrics → serve b token l rs h1 r ≠ serve b token l rs h2 r →
  Http.path r ∈ ["/api/version"; "/metrics"] ∨
  (allows l (Http.host r) = true ∧ checkBearerToken (Http.authorization r) token = true ∧
   ∀ tools, endpointTools !! Http.path r = Some tools →
     ReadOnly b = false ∧
     ∃ p ctx, governing_tools b p ∧ pinned b ctx ∧ refusal p (Http.path r) = "" ∧ h1 (Http.path r) ctx r ≠ h2 (Http.path r) ctx r).
Proof.
  intros Hsub. unfold serve. destruct (find_route (Http.path r) rs) as [rt|] eqn:Hf; [|done].
  apply find_route_elem in Hf as [Hin Hpath]. apply Hsub in Hin.
  pose proof (proj1 (Forall_forall _ _) (mutate_routes metrics) rt Hin) as Hcls. cbv beta in Hcls.
  assert (r_class rt = Open → r_path rt ∈ ["/api/version"; "/metrics"]) as Hopen.
  { clear Hcls. unfold rest_routes, status_routes in Hin. destruct metrics; simpl in Hin;
      repeat (apply elem_of_cons in Hin as [->|Hin]; [simpl; try discriminate; intros _; set_solver|]); set_solver. }
  revert Hcls Hopen. destruct (r_class rt); intros Hcls Hopen; cbn [wrap].
  - intros _. left. rewrite <-Hpath. by apply Hopen.
  - intros (? & ? & _)%with_auth_differs. right. split_and!; [done..|]. intros tools Ht. rewrite Hpath in Hcls. congruence.
  - intros (? & ? & _)%with_auth_differs. right. split_and!; [done..|]. intros tools Ht. rewrite Hpath in Hcls. congruence.
  - intros (? & ? & Hne)%with_auth_differs. right. split_and!; [done..|]. intros tools _.
    apply mutate_differs in Hne as (Hro & p & ctx & Hg & Hp & Hr & Hne). split; [done|].
    exists p, ctx. split_and!; [done..|]. revert Hne. rewrite Hpath. unfold method_guard, Http.requireMethod.
    destruct (r_method rt) as [m|]; [|done]. by destruct (negb (String.eqb (Http.method r) m)).
Qed.

(** ** Properties *)

(** [C1] Nothing runs behind an unauthorised request: if the answer to a request
    depends on the handlers at all, the path is one of the two open ones
    (version and metrics), or the Host header is allowed and the bearer token
    is right; and for a path with side effects the bridge is also not
    read-only, and the tool lists that govern the request (the deployment's,
    or those of the one settings snapshot pinned for it) allow a tool that uses
    the path. *)
Theorem rest_guarded b token l metrics h1 h2 r :
  runtimeRESTHandler b token l metrics h1 r ≠ runtimeRESTHandler b token l metrics h2 r →
  Http.path r ∈ ["/api/version"; "/metrics"] ∨
  (allows l (Http.host r) = true ∧ checkBearerToken (Http.authorization r) token = true ∧
   ∀ tools, endpointTools !! Http.path r = Some tools →
     ReadOnly b = false ∧
     ∃ p, governing_tools b p ∧ (tools_restricted p = false ∨ ∃ name, name ∈ tools ∧ allowsTool p name = true)).
Proof.
  intros Hne.
  assert (∃ rs, rs ⊆ rest_routes metrics ∧ serve b token l rs h1 r ≠ serve b token l rs h2 r) as (rs & Hsub & Hne').
  { unfold runtimeRESTHandler in Hne. case_bool_decide; [exists (status_routes metrics)|exists (rest_routes metrics)];
      (split; [|done]); [|done]. intros x. unfold rest_routes. rewrite !elem_of_app. tauto. }
  destruct (serve_differs _ _ _ _ _ _ _ _ Hsub Hne') as [?|(? & ? & Hall)]; [by left|right].
  split_and!; [done..|]. intros tools Ht. destruct (Hall tools Ht) as (Hro & p & ctx & Hg & _ & Hr & _).
  split; [done|]. exists p. split; [done|]. apply refusal_empty in Hr as [?|(tools' & name & Ht' & Hin & Ha)]; [by left|right].
  simplify_eq. eauto.
Qed.

(** An authorised request to a path with side effects reaches its handler, and
    the handler runs under exactly the settings snapshot the tool lists were
    taken from, whatever is committed meanwhile: with the right Host, token and
    method, no read-only mode, and a tool of the path allowed, the answer is
    the handler's. *)
Theorem authorised_request_served b token l metrics handlers r tools rt :
  endpointTools !! Http.path r = Some tools → find_route (Http.path r) (rest_routes metrics) = Some rt →
  allows l (Http.host r) = true → checkBearerToken (Http.authorization r) token = true →
  (∀ m, r_method rt = Some m → Http.method r = m) → ReadOnly b = false →
  match RuntimeDefaults b, live b 0 with
  | false, _ =>
      refusal (Tools b) (Http.path r) = "" →
      runtimeRESTHandler b token l metrics handlers r = handlers (Http.path r) None r
  | true, Ok s =>
      operatorLogout b = false → refusal (policy s) (Http.path r) = "" →
      runtimeRESTHandler b token l metrics handlers r = handlers (Http.path r) (Some s) r
  | true, Err _ => Http.status (runtimeRESTHandler b token l metrics handlers r) = 503%Z
  end.
Proof.
  intros Ht Hf Hh Hb Hm Hro. pose proof (find_route_elem _ _ _ Hf) as [Hin Hp].
  pose proof (proj1 (Forall_forall _ _) (mutate_routes metrics) rt Hin) as Hcls. cbv beta in Hcls. rewrite Hp, Ht in Hcls.
  assert (r_class rt = Mutate) as Hc by (destruct (r_class rt); done). clear Hcls.
  assert (Http.path r ∉ status_paths) as Hns.
  { intros Hs. assert (endpointTools !! Http.path r = None) as Hnone; [|congruence].
    unfold status_paths in Hs. repeat (apply elem_of_cons in Hs as [->|Hs]; [vm_compute; reflexivity|]). set_solver. }
  assert (∀ ctx, method_guard (r_method rt) (handlers (r_path rt)) ctx r = handlers (Http.path r) ctx r) as Hmg.
  { intros ctx. unfold method_guard, Http.requireMethod. rewrite Hp. destruct (r_method rt) as [m|]; [|done].
    by rewrite (Hm m eq_refl), String.eqb_refl. }
  assert (∀ h, runtimeRESTHandler b token l metrics h r =
    runtimePolicyGuard b (runtimeToolGuard b (method_guard (r_method rt) (h (r_path rt)))) None r) as Heq.
  { intros h. unfold runtimeRESTHandler, serve. rewrite bool_decide_false by done. rewrite Hf, Hc. simpl.
    unfold withAuth. rewrite Hh, Hb. simpl. unfold read_only_guard. by rewrite Hro. }
  rewrite Heq. unfold runtimePolicyGuard, runtimeToolGuard. destruct (RuntimeDefaults b); simpl.
  - destruct (live b 0) as [s|e]; [|done]. intros ->. simpl. intros Hr. by rewrite tools_guard_passes, Hmg.
  - intros Hr. by rewrite tools_guard_passes, Hmg.
Qed.

Definition sample_bridge : bridge := {|
  RuntimeDefaults := false; ReadOnly := false; operatorLogout := false; live := λ _, Err "unused";
  Tools := {| allow := {["send_message"]}; deny := ∅; allowLabel := ""; denyLabels := ∅ |} |}.
Definition sample_list : hostAllowList := (buildHostAllowList 8080 "127.0.0.1" "").1.
Definition sample_request : Http.request := {|
  Http.method := "POST"; Http.path := "/api/send"; Http.host := "LocalHost:8080";
  Http.authorization := "Bearer 0123456789abcdef" |}.
Definition answering (st : Z) : string → ctx_handler :=
  λ _ _ _, {| Http.status := st; Http.code := ""; Http.message := "" |}.

Lemma rest_guarded_witness :
  runtimeRESTHandler sample_bridge "0123456789abcdef" sample_list true (answering 200) sample_request
  ≠ runtimeRESTHandler sample_bridge "0123456789abcdef" sample_list true (answering 201) sample_request ∧
  ReadOnly sample_bridge = false.
Proof.
  assert (runtimeRESTHandler sample_bridge "0123456789abcdef" sample_list true (answering 200) sample_request
    ≠ runtimeRESTHandler sample_bridge "0123456789abcdef" sample_list true (answering 201) sample_request) as H
    by (vm_compute; discriminate).
  split; [exact H|]. destruct (rest_guarded _ _ _ _ _ _ _ H) as [Hp|(_ & _ & Hall)].
  - apply (bool_decide_eq_true_2 _) in Hp. vm_compute in Hp. discriminate Hp.
  - exact (proj1 (Hall ["send_message"; "send_file"; "send_audio_message"] ltac:(vm_compute; reflexivity))).
Defined.

Lemma authorised_request_served_witness :
  runtimeRESTHandler sample_bridge "0123456789abcdef" sample_list true (answering 200) sample_request
  = answering 200 "/api/send" None sample_request.
Proof.
  refine (authorised_request_served sample_bridge "0123456789abcdef" sample_list true (answering 200) sample_request
    ["send_message"; "send_file"; "send_audio_message"] {| r_path := "/api/send"; r_class := Mutate; r_method := POST |}
    _ _ _ _ _ _ _); try (vm_compute; reflexivity). intros m [= <-]. reflexivity.
Defined.
End Routes.
