(* ===== verification/ConnectionProblem.v ===== *)
(** * Account restrictions and the dial gate ([connection_problem.go], [pairing.go])

    What WhatsApp refused a connection for, how a restriction or an unlink is
    remembered in memory and on disk, and when the bridge may dial again.
    Times are nanoseconds since Go's zero time; a time of 0 is the zero time. *)
From S2P Require Import Prelude Jid Config.
#[local] Open Scope Z_scope.

Record ConnectionProblem := {
  UnlinkedAt : option Z;
  RevokedDevice : string;
  SessionRemoved : bool;
  Kind : string;
  Code : Z;
  TempBanReason : Z;
  ExpiresAt : option Z;
  Since : Z;
  BuildVersion : string;
}.

(** The kind of a code. *)
Definition kind_of (code : Z) : string :=
  if Z.eqb code 401 then "unlinked"
  else if Z.eqb code 402 then "temporarily_banned"
  else if Z.eqb code 403 then "locked"
  else if Z.eqb code 405 then "client_outdated"
  else if Z.eqb code 406 then "banned"
  else if bool_decide (500 ≤ code < 600) then "server_error" else "other".

(** [classifyConnectionProblem]; [build] is [connectionBuildVersion()]. *)
Definition classifyConnectionProblem (build : string) (code reason expire now : Z) : ConnectionProblem := {|
  UnlinkedAt := None; RevokedDevice := ""; SessionRemoved := false;
  Kind := kind_of code; Code := code; TempBanReason := reason;
  ExpiresAt := if Z.eqb code 402 then Some (now + (if bool_decide (expire ≤ 0) then hour_ns else expire)) else None;
  Since := now;
  BuildVersion := if Z.eqb code 405 then build else "" |}.

Definition restricting_kind (k : string) : bool :=
  bool_decide (k ∈ ["temporarily_banned"; "banned"; "locked"; "client_outdated"]).

(** The methods of [*ConnectionProblem]; [None] is the nil pointer. *)
Definition restrictsAccount (p : option ConnectionProblem) : bool :=
  match p with Some p => restricting_kind (Kind p) | None => false end.

Definition restrictsAccountAt (now : Z) (p : option ConnectionProblem) : bool :=
  restrictsAccount p &&
  match p with
  | Some p => negb (String.eqb (Kind p) "temporarily_banned") ||
              match ExpiresAt p with Some e => bool_decide (now < e) | None => true end
  | None => false
  end.

Definition isUnlinked (p : option ConnectionProblem) : bool :=
  match p with
  | Some p => String.eqb (Kind p) "unlinked" || bool_decide (UnlinkedAt p ≠ None)
  | None => false
  end.

Definition unlinkOnly (p : ConnectionProblem) : ConnectionProblem := {|
  UnlinkedAt := UnlinkedAt p; RevokedDevice := RevokedDevice p; SessionRemoved := SessionRemoved p;
  Kind := "unlinked"; Code := 401; TempBanReason := 0; ExpiresAt := None;
  Since := match UnlinkedAt p with Some at_ => at_ | None => Since p end;
  BuildVersion := "" |}.

(** The unlink fields of another problem. *)
Definition with_unlink (at_ : option Z) (device : string) (removed : bool) (p : ConnectionProblem) : ConnectionProblem := {|
  UnlinkedAt := at_; RevokedDevice := device; SessionRemoved := removed;
  Kind := Kind p; Code := Code p; TempBanReason := TempBanReason p; ExpiresAt := ExpiresAt p; Since := Since p;
  BuildVersion := BuildVersion p |}.

(** The fields of [Bridge] that take part.  A problem is an immutable object
    behind a pointer: it carries its identity.  [disk] is the saved file,
    [operatorRetired] whether the current client is the retired one, and
    [refused] whether the process refused to start. *)
Record state := {
  problem : option (nat * ConnectionProblem);
  next_id : nat;
  pairingState : string;
  problemPersistenceFailed : bool;
  disk : option ConnectionProblem;
  operatorLogout : bool;
  operatorRetired : bool;
  runtimeDeviceID : option string;
  refused : bool;
}.

Definition current (s : state) : option ConnectionProblem := snd <$> problem s.

Section Operations.
Context `{JidOps} (build : string).

(** A new problem object becomes the current one. *)
Definition publish (p : ConnectionProblem) (s : state) : state := {|
  problem := Some (next_id s, p); next_id := S (next_id s); pairingState := pairingState s;
  problemPersistenceFailed := problemPersistenceFailed s; disk := disk s; operatorLogout := operatorLogout s;
  operatorRetired := operatorRetired s; runtimeDeviceID := runtimeDeviceID s; refused := refused s |}.

(** [persistConnectionSnapshot] when the write succeeds or fails; the write
    replaces the file atomically. *)
Definition persistConnectionSnapshot (ok : bool) (p : ConnectionProblem) (s : state) : state := {|
  problem := problem s; next_id := next_id s; pairingState := pairingState s;
  problemPersistenceFailed := negb ok; disk := if ok then Some p else disk s; operatorLogout := operatorLogout s;
  operatorRetired := operatorRetired s; runtimeDeviceID := runtimeDeviceID s; refused := refused s |}.

(** The problem [recordConnectionProblemStateIf] publishes, [None] when it keeps
    the previous one. *)
Definition next_problem (s : state) (code reason expire : Z) (persistent : bool) (now : Z) : option ConnectionProblem :=
  let previous := current s in
  let fresh := if persistent then classifyConnectionProblem build code reason expire now
               else {| UnlinkedAt := None; RevokedDevice := ""; SessionRemoved := false; Kind := "other";
                       Code := code; TempBanReason := 0; ExpiresAt := None; Since := now; BuildVersion := "" |} in
  let kept :=
    match previous with
    | Some q => if negb (restrictsAccount (Some fresh)) && restrictsAccount previous
                then if negb (Z.eqb code 401) then None else Some q
                else Some fresh
    | None => Some fresh
    end in
  match kept with
  | None => None
  | Some next =>
      let carried :=
        match previous with
        | Some q =>
            if (negb (Z.eqb code 401) || negb persistent) && isUnlinked previous then
              if negb (restrictsAccount (Some next)) && operatorRetired s then None
              else Some (with_unlink (match UnlinkedAt q with Some a => Some a | None => Some (Since q) end)
                           (RevokedDevice q) (SessionRemoved q) next)
            else Some next
        | None => Some next
        end in
      match carried with
      | None => None
      | Some next =>
          Some (if Z.eqb code 401 && persistent
                then with_unlink (Some now) (default "" (runtimeDeviceID s)) false next else next)
      end
  end.

Definition recordConnectionProblemStateIf (s : state) (code reason expire : Z) (active persistent : bool) (now : Z)
    (write_ok : bool) : state :=
  if negb active then s
  else match next_problem s code reason expire persistent now with
       | None => s
       | Some next =>
           let s := publish next s in
           if persistent then persistConnectionSnapshot write_ok next s else s
       end.

(** [persistConnectionProblemIf]. *)
Definition persistConnectionProblemIf (expected : nat) (write_ok : bool) (s : state) : state :=
  match problem s with
  | Some (id, p) => if Nat.eqb id expected then persistConnectionSnapshot write_ok p s else s
  | None => s
  end.

(** [clearConnectionSnapshot]. *)
Definition clearConnectionSnapshot (keepOperatorIdle remove_ok : bool) (s : state) : state :=
  if negb remove_ok then {|
    problem := problem s; next_id := next_id s; pairingState := pairingState s; problemPersistenceFailed := true;
    disk := disk s; operatorLogout := operatorLogout s; operatorRetired := operatorRetired s;
    runtimeDeviceID := runtimeDeviceID s; refused := refused s |}
  else {|
    problem := None; next_id := next_id s;
    pairingState := if negb keepOperatorIdle || negb (operatorLogout s) then "" else pairingState s;
    problemPersistenceFailed := false; disk := None; operatorLogout := operatorLogout s;
    operatorRetired := operatorRetired s; runtimeDeviceID := runtimeDeviceID s; refused := refused s |}.

Definition clearConnectionProblem (remove_ok : bool) (s : state) : state :=
  if operatorRetired s then s else clearConnectionSnapshot true remove_ok s.

(** [resolveConnectionProblemIf] for the object [expected] read earlier: the new
    state and whether it still was the current one.  Objects are immutable, so
    the current object is the expected one when the identities agree;
    otherwise both branches of the source answer false. *)
Definition resolveConnectionProblemIf (expected : option nat) (io_ok : bool) (s : state) : state * bool :=
  if negb (bool_decide ((fst <$> problem s) = expected)) then (s, false)
  else match current s with
       | Some p =>
           if isUnlinked (Some p) then
             let next := unlinkOnly p in
             let s := persistConnectionSnapshot io_ok next s in
             if negb io_ok then (s, true) else (publish next s, true)
           else (clearConnectionSnapshot false io_ok s, true)
       | None => (clearConnectionSnapshot false io_ok s, true)
       end.

(** [setPairingState]. *)
Definition setPairingState (st : string) (s : state) : state :=
  if operatorLogout s then s
  else {| problem := problem s; next_id := next_id s; pairingState := st;
          problemPersistenceFailed := problemPersistenceFailed s; disk := disk s; operatorLogout := operatorLogout s;
          operatorRetired := operatorRetired s; runtimeDeviceID := runtimeDeviceID s; refused := refused s |}.

(** [prepareSessionDevice]: the problem after the revoked session was removed. *)
Definition prepareSessionDevice (p : ConnectionProblem) : ConnectionProblem :=
  if isUnlinked (Some p) && negb (SessionRemoved p)
  then with_unlink (UnlinkedAt p) (RevokedDevice p) true p else p.

(** [unlinkedDevice] once the cleanup of the session store succeeded; the
    snapshot was not replaced meanwhile. *)
Definition unlinkedDevice (write_ok : bool) (s : state) : state :=
  match problem s with
  | Some (_, p) =>
      if isUnlinked (Some p) then
        let next := prepareSessionDevice p in
        let s := persistConnectionSnapshot write_ok next s in
        if write_ok then publish next s else s
      else s
  | None => s
  end.

(** ** Reading the file at startup *)

Definition valid_device (d : string) : bool :=
  String.eqb d "" ||
  match ParseJID d with Ok j => negb (IsEmpty j) && String.eqb (JIDString j) d | Err _ => false end.

(** [clearOutdatedBuildProblem] with its disk operations succeeding: the problem
    and the file it leaves. *)
Definition clearOutdatedBuildProblem (p : ConnectionProblem) : option ConnectionProblem :=
  if String.eqb (Kind p) "client_outdated" && negb (String.eqb (BuildVersion p) build)
  then if isUnlinked (Some p) then Some (unlinkOnly p) else None
  else Some p.

(** [readConnectionProblem] of a regular file that decodes to [p]. *)
Definition readConnectionProblem (file : option ConnectionProblem) : result string (option ConnectionProblem) :=
  match file with
  | None => Ok None
  | Some p =>
      if Z.eqb (Since p) 0 then Err "invalid saved connection problem"
      else if bool_decide (UnlinkedAt p = Some 0) then Err "invalid saved unlink time"
      else if negb (valid_device (RevokedDevice p)) then Err "invalid saved revoked device"
      else if negb (String.eqb (Kind p) (kind_of (Code p)))
              || (String.eqb (Kind p) "temporarily_banned" && bool_decide (ExpiresAt p = None))
      then Err "invalid saved connection classification"
      else Ok (clearOutdatedBuildProblem p)
  end.

(** A start of the process ([main]): an unreadable file is refused; a pending
    unlink retires the client and asks for pairing. *)
Definition restart (s : state) : state :=
  match readConnectionProblem (disk s) with
  | Err _ => {| problem := None; next_id := next_id s; pairingState := ""; problemPersistenceFailed := false;
                disk := disk s; operatorLogout := operatorLogout s; operatorRetired := false;
                runtimeDeviceID := None; refused := true |}
  | Ok p =>
      let pending := isUnlinked p && negb (match p with Some p => SessionRemoved p | None => false end) in
      {| problem := pair (next_id s) <$> p; next_id := S (next_id s);
         pairingState := if pending then "pairing_required" else ""; problemPersistenceFailed := false;
         disk := p; operatorLogout := operatorLogout s; operatorRetired := pending;
         runtimeDeviceID := None; refused := false |}
  end.

(** ** The dial gate *)

Inductive decision : Type :=
| Allowed
| RetrySoon (* the restriction is not saved yet: one second, or a change *)
| Blocked (* until the state changes *)
| WaitFor (d : Z).

(** One round of [waitConnectionAllowedContext] at [now]. *)
Definition wait_round (write_ok : bool) (now : Z) (s : state) : state * decision :=
  let s := if problemPersistenceFailed s && restrictsAccount (current s)
           then match problem s with Some (id, _) => persistConnectionProblemIf id write_ok s | None => s end
           else s in
  let p := current s in
  (s,
   if problemPersistenceFailed s && restrictsAccount p then RetrySoon
   else if negb (String.eqb (pairingState s) "")
           || match p with
              | Some p => bool_decide (Kind p ∈ ["banned"; "locked"; "client_outdated"])
              | None => false
              end
   then Blocked
   else match p with
        | Some q => match ExpiresAt q with
                    | Some e => if bool_decide (now < e) then WaitFor (e - now) else Allowed
                    | None => Allowed
                    end
        | None => Allowed
        end).
End Operations.

(** ** Histories *)

Section Histories.
Context `{JidOps} (build : string).

(** What happens to the state, with the outcome of each disk operation. *)
Inductive event : Type :=
| Recorded (code reason expire : Z) (active persistent : bool) (now : Z) (write_ok : bool)
| SessionCleaned (write_ok : bool)
| PairingState (st : string)
| ClientChanged (logout retired : bool) (device : option string)
| DialRound (write_ok : bool) (now : Z)
| Restarted
| Connected (remove_ok : bool)
| Resolved (expected : option nat) (io_ok : bool).

Definition change_client (logout retired : bool) (device : option string) (s : state) : state := {|
  problem := problem s; next_id := next_id s; pairingState := pairingState s;
  problemPersistenceFailed := problemPersistenceFailed s; disk := disk s; operatorLogout := logout;
  operatorRetired := retired; runtimeDeviceID := device; refused := refused s |}.

Definition apply (s : state) (e : event) : state :=
  if refused s then s
  else match e with
       | Recorded code reason expire active persistent now ok =>
           recordConnectionProblemStateIf build s code reason expire active persistent now ok
       | SessionCleaned ok => unlinkedDevice ok s
       | PairingState st => setPairingState st s
       | ClientChanged logout retired device => change_client logout retired device s
       | DialRound ok now => (wait_round ok now s).1
       | Restarted => restart build s
       | Connected ok => clearConnectionProblem ok s
       | Resolved expected ok => (resolveConnectionProblemIf expected ok s).1
       end.

Definition initial : state := {|
  problem := None; next_id := 0; pairingState := ""; problemPersistenceFailed := false; disk := None;
  operatorLogout := false; operatorRetired := false; runtimeDeviceID := None; refused := false |}.

Definition run (s : state) (es : list event) : state := foldl apply s es.

(** The clock never reads the zero time and a device is named by its JID. *)
Definition sound_event (e : event) : Prop :=
  match e with
  | Recorded _ _ _ _ _ now _ => now ≠ 0
  | ClientChanged _ _ (Some d) => valid_device d = true
  | _ => True
  end.

(** An event that neither releases a restriction (a connection that succeeded,
    an operator's acknowledgement) nor reports a new one. *)
Definition quiet_event (e : event) : Prop :=
  match e with
  | Recorded code _ _ _ persistent _ _ => persistent = true → restricting_kind (kind_of code) = false
  | Connected _ | Resolved _ _ => False
  | _ => True
  end.

(** The same restriction: everything but the unlink fields. *)
Definition same_ban (p q : ConnectionProblem) : Prop :=
  Kind q = Kind p ∧ Code q = Code p ∧ TempBanReason q = TempBanReason p ∧ ExpiresAt q = ExpiresAt p ∧
  Since q = Since p ∧ BuildVersion q = BuildVersion p.

(** A problem that a start of this build reads back as it is. *)
Record readable (p : ConnectionProblem) : Prop := {
  rd_since : Since p ≠ 0;
  rd_unlinked : UnlinkedAt p ≠ Some 0;
  rd_device : valid_device (RevokedDevice p) = true;
  rd_kind : Kind p = kind_of (Code p);
  rd_expiry : Kind p = "temporarily_banned" → ExpiresAt p ≠ None;
  rd_build : Kind p = "client_outdated" → BuildVersion p = build;
}.

(** The invariant: the current object's times and device are sound; a
    restricting object is readable, and on disk unless a write failed. *)
Record state_ok (s : state) : Prop := {
  ok_device : ∀ d, runtimeDeviceID s = Some d → valid_device d = true;
  ok_current : ∀ p, current s = Some p → Since p ≠ 0 ∧ UnlinkedAt p ≠ Some 0 ∧ valid_device (RevokedDevice p) = true;
  ok_ban : ∀ p, current s = Some p → restrictsAccount (Some p) = true →
    readable p ∧ (problemPersistenceFailed s = false → disk s = Some p);
}.

Lemma readable_reads p : readable p → readConnectionProblem build (Some p) = Ok (Some p).
Proof.
  intros [H1 H2 H3 H4 H5 H6]. unfold readConnectionProblem.
  rewrite (proj2 (Z.eqb_neq _ _) H1), bool_decide_false, H3 by done. simpl.
  rewrite H4, String.eqb_refl. simpl.
  destruct (String.eqb_spec (kind_of (Code p)) "temporarily_banned") as [Hk|Hk]; simpl.
  - rewrite bool_decide_false by (apply H5; congruence). unfold clearOutdatedBuildProblem. rewrite H4, Hk. done.
  - unfold clearOutdatedBuildProblem. destruct (String.eqb_spec (Kind p) "client_outdated") as [Ho|]; [|done].
    by rewrite (H6 Ho), String.eqb_refl.
Qed.

Lemma classify_readable code reason expire now :
  now ≠ 0 → readable (classifyConnectionProblem build code reason expire now).
Proof.
  intros Hn. split; simpl; try done.
  - unfold kind_of. destruct (Z.eqb_spec code 401) as [->|]; [done|]. destruct (Z.eqb_spec code 402) as [->|]; [done|].
    by repeat case_match.
  - unfold kind_of. destruct (Z.eqb_spec code 401) as [->|]; [done|]. destruct (Z.eqb_spec code 402) as [->|]; [done|].
    destruct (Z.eqb_spec code 403); [done|]. destruct (Z.eqb_spec code 405) as [->|]; [done|]. by repeat case_match.
Qed.

Lemma with_unlink_ban a d r p : same_ban p (with_unlink a d r p).
Proof. done. Qed.

Lemma with_unlink_readable a d r p :
  readable p → a ≠ Some 0 → valid_device d = true → readable (with_unlink a d r p).
Proof. intros [] Ha Hd. by split. Qed.

Lemma same_ban_restricts p q : same_ban p q → restrictsAccount (Some q) = restrictsAccount (Some p).
Proof. intros (Hk & _). simpl. by rewrite Hk. Qed.

Lemma same_ban_trans p q r : same_ban p q → same_ban q r → same_ban p r.
Proof. unfold same_ban. naive_solver congruence. Qed.

Lemma valid_no_device : valid_device "" = true.
Proof. done. Qed.

Lemma fresh_sound now p :
  now ≠ 0 → UnlinkedAt p = None → RevokedDevice p = "" → Since p = now →
  Since p ≠ 0 ∧ UnlinkedAt p ≠ Some 0 ∧ valid_device (RevokedDevice p) = true.
Proof. intros Hn Hu Hr Hs. rewrite Hu, Hr, Hs. done. Qed.

(** The object before the unlink fields are settled: fresh, or the restriction
    that is being kept. *)
Definition base_of (s : state) (code reason expire : Z) (persistent : bool) (now : Z) (b : ConnectionProblem) : Prop :=
  (b = (if persistent then classifyConnectionProblem build code reason expire now
        else {| UnlinkedAt := None; RevokedDevice := ""; SessionRemoved := false; Kind := "other";
                Code := code; TempBanReason := 0; ExpiresAt := None; Since := now; BuildVersion := "" |})
   ∧ (restrictsAccount (Some b) = true ∨ restrictsAccount (current s) = false))
  ∨ (current s = Some b ∧ restrictsAccount (Some b) = true ∧ code = 401).

(** The three shapes of a published problem. *)
Lemma next_problem_shape s code reason expire persistent now next :
  next_problem build s code reason expire persistent now = Some next →
  ∃ b, base_of s code reason expire persistent now b ∧
  (next = b ∨
   (code = 401 ∧ persistent = true ∧ next = with_unlink (Some now) (default "" (runtimeDeviceID s)) false b) ∨
   ∃ q, current s = Some q ∧ isUnlinked (Some q) = true ∧
     next = with_unlink (match UnlinkedAt q with Some a => Some a | None => Some (Since q) end)
              (RevokedDevice q) (SessionRemoved q) b).
Proof.
  unfold next_problem, base_of. set (fresh := if persistent then _ else _).
  set (last := λ x, if Z.eqb code 401 && persistent then with_unlink (Some now) (default "" (runtimeDeviceID s)) false x else x).
  assert (∀ x, last x = x ∨ (code = 401 ∧ persistent = true ∧
    last x = with_unlink (Some now) (default "" (runtimeDeviceID s)) false x)) as Hlast.
  { intros x. unfold last. destruct (Z.eqb_spec code 401), persistent; simpl; auto. }
  destruct (current s) as [q|] eqn:Hq.
  2: { intros [= <-]. exists fresh. split; [by left; auto|]. destruct (Hlast fresh) as [?|?]; [by left|by right; left]. }
  destruct (negb (restrictsAccount (Some fresh)) && restrictsAccount (Some q)) eqn:Hkeep.
  all: [> destruct (Z.eqb_spec code 401) as [H401|]; [|done]|]; cbn [negb].
  - apply andb_true_iff in Hkeep as [_ Hr]. intros Hn. exists q. split; [by right|]. revert Hn.
    destruct persistent; cbn [negb orb andb].
    + intros [= <-]. right. left. done.
    + destruct (isUnlinked (Some q)) eqn:Hu.
      * rewrite Hr. cbn [negb andb]. intros [= <-]. right. right. by exists q.
      * intros [= <-]. by left.
  - intros Hn. exists fresh. split.
    { left. split; [done|]. apply andb_false_iff in Hkeep as [Hk|Hk]; [left; by apply negb_false_iff|by right]. }
    revert Hn. destruct ((negb (Z.eqb code 401) || negb persistent) && isUnlinked (Some q)) eqn:Hc.
    + apply andb_true_iff in Hc as [Hc Hu]. destruct (_ && operatorRetired s); [done|]. intros [= <-].
      right. right. exists q. split_and!; [done..|]. destruct (Z.eqb code 401), persistent; done.
    + intros [= <-]. destruct (Hlast fresh) as [?|?]; [by left|by right; left].
Qed.

(** A sound base stays sound under any of the three shapes. *)
Lemma next_problem_sound s code reason expire persistent now next :
  state_ok s → now ≠ 0 → next_problem build s code reason expire persistent now = Some next →
  (Since next ≠ 0 ∧ UnlinkedAt next ≠ Some 0 ∧ valid_device (RevokedDevice next) = true) ∧
  (restrictsAccount (Some next) = true → readable next).
Proof.
  intros [Hd Hc Hb] Hn Hnext. destruct (next_problem_shape _ _ _ _ _ _ _ Hnext) as (b & Hbase & Hshape). clear Hnext.
  assert ((Since b ≠ 0 ∧ UnlinkedAt b ≠ Some 0 ∧ valid_device (RevokedDevice b) = true) ∧
    (restrictsAccount (Some b) = true → readable b)) as [(B1 & B2 & B3) Br].
  { destruct Hbase as [[-> _]|(Hq & Hr & _)]; [|split; [by apply Hc|intros _; by apply (Hb b)]].
    destruct persistent; (split; [by apply (fresh_sound now)|]); [intros _; by apply classify_readable|done]. }
  assert (valid_device (default "" (runtimeDeviceID s)) = true) as Hdev.
  { destruct (runtimeDeviceID s) as [d|] eqn:Hrd; simpl; [by apply Hd|done]. }
  assert (∀ q, current s = Some q → match UnlinkedAt q with Some a => Some a | None => Some (Since q) end ≠ Some 0) as Hat.
  { intros q Hq. destruct (Hc q Hq) as (S1 & S2 & _). destruct (UnlinkedAt q); congruence. }
  destruct Hshape as [->|[(_ & _ & ->)|(q & Hq & _ & ->)]]; [done|..].
  - split; [split_and!; simpl; congruence|]. intros Hr. apply with_unlink_readable; [by apply Br|congruence|done].
  - destruct (Hc q Hq) as (_ & _ & S3). split; [split_and!; simpl; [done|by apply Hat|done]|]. intros Hr.
    apply with_unlink_readable; [by apply Br|by apply Hat|done].
Qed.

(** A restricting object published without being written is the current one. *)
Lemma next_problem_transient s code reason expire now next :
  next_problem build s code reason expire false now = Some next → restrictsAccount (Some next) = true →
  current s = Some next.
Proof.
  intros Hnext Hr. destruct (next_problem_shape _ _ _ _ _ _ _ Hnext) as (b & Hbase & Hshape).
  assert (restrictsAccount (Some b) = true) as Hrb.
  { destruct Hshape as [->|[(_ & ? & _)|(q & _ & _ & ->)]]; done. }
  destruct Hbase as [[-> _]|(Hq & _ & _)]; [done|].
  destruct Hshape as [->|[(_ & ? & _)|(q & Hq' & Hu & ->)]]; [done|done|]. rewrite Hq in Hq'. injection Hq' as <-.
  rewrite Hq. f_equal. unfold isUnlinked in Hu. destruct (UnlinkedAt b) as [a|] eqn:Ha.
  - destruct b; simpl in *; unfold with_unlink; simpl. congruence.
  - rewrite bool_decide_false, orb_false_r in Hu by (intros []; done). apply String.eqb_eq in Hu.
    simpl in Hrb. by rewrite Hu in Hrb.
Qed.

(** Publishing with or without a write. *)
Lemma publish_ok s p :
  state_ok s → (Since p ≠ 0 ∧ UnlinkedAt p ≠ Some 0 ∧ valid_device (RevokedDevice p) = true) →
  (restrictsAccount (Some p) = true → readable p ∧ (problemPersistenceFailed s = false → disk s = Some p)) →
  state_ok (publish p s).
Proof. intros [Hd Hc Hb] Hp Hr. split; simpl; [done|intros q [= <-]; done|intros q [= <-]; done]. Qed.

Lemma publish_persist_ok s p w :
  state_ok s → (Since p ≠ 0 ∧ UnlinkedAt p ≠ Some 0 ∧ valid_device (RevokedDevice p) = true) →
  (restrictsAccount (Some p) = true → readable p) → state_ok (persistConnectionSnapshot w p (publish p s)).
Proof.
  intros [Hd Hc Hb] Hp Hr. split; simpl; [done|intros q [= <-]; done|]. intros q [= <-] Hq. split; [by apply Hr|].
  by destruct w.
Qed.

Lemma record_ok s code reason expire active persistent now w :
  state_ok s → now ≠ 0 → state_ok (recordConnectionProblemStateIf build s code reason expire active persistent now w).
Proof.
  intros Hok Hn. unfold recordConnectionProblemStateIf. destruct active; [|done]. cbn [negb].
  destruct (next_problem build s code reason expire persistent now) as [next|] eqn:Hnext; [|done].
  destruct (next_problem_sound _ _ _ _ _ _ _ Hok Hn Hnext) as [Hs Hr]. destruct persistent.
  - by apply publish_persist_ok.
  - apply publish_ok; [done..|]. intros Hban. split; [by apply Hr|].
    pose proof (next_problem_transient _ _ _ _ _ _ Hnext Hban) as Hcur. by apply (ok_ban _ Hok).
Qed.

Lemma rewrite_ok s p w :
  state_ok s → current s = Some p → state_ok (persistConnectionSnapshot w p s).
Proof.
  intros [Hd Hc Hb] Hp. split; simpl; [done|done|]. intros q Hq Hr. destruct (Hb q Hq Hr) as [Hrd _]. split; [done|].
  destruct w; [|done]. intros _. change (current s = Some q) in Hq. congruence.
Qed.

Lemma prepare_sound p : same_ban p (prepareSessionDevice p) ∧
  UnlinkedAt (prepareSessionDevice p) = UnlinkedAt p ∧ RevokedDevice (prepareSessionDevice p) = RevokedDevice p ∧
  Since (prepareSessionDevice p) = Since p.
Proof. unfold prepareSessionDevice. by destruct (_ && _). Qed.

Lemma same_ban_readable p q :
  readable p → same_ban p q → UnlinkedAt q ≠ Some 0 → valid_device (RevokedDevice q) = true → readable q.
Proof.
  intros [H1 H2 H3 H4 H5 H6] (K & C & T & E & S & B) Hu Hd. split; try congruence.
  - intros Hk. rewrite E. apply H5. congruence.
  - intros Hk. rewrite B. apply H6. congruence.
Qed.

Lemma cleaned_ok s w : state_ok s → state_ok (unlinkedDevice w s).
Proof.
  intros Hok. unfold unlinkedDevice. destruct (problem s) as [[id p]|] eqn:Hp; [|done].
  destruct (isUnlinked (Some p)); [|done].
  assert (current s = Some p) as Hcur by (unfold current; by rewrite Hp).
  destruct (prepare_sound p) as (Hb & Hu & Hd & Hs). destruct (ok_current _ Hok p Hcur) as (S1 & S2 & S3).
  destruct w.
  - apply (publish_persist_ok s (prepareSessionDevice p) true Hok); [rewrite Hu, Hd, Hs; done|].
    intros Hr. rewrite (same_ban_restricts _ _ Hb) in Hr. destruct (ok_ban _ Hok p Hcur Hr) as [Hrd _].
    apply (same_ban_readable p); [done..|congruence|congruence].
  - destruct Hok as [Od Oc Ob]. split; simpl; [done|done|]. intros q Hq Hr. split; [by apply (Ob q)|done].
Qed.

Lemma unlinkOnly_sound p :
  Since p ≠ 0 → UnlinkedAt p ≠ Some 0 → Since (unlinkOnly p) ≠ 0 ∧ UnlinkedAt (unlinkOnly p) ≠ Some 0.
Proof. intros Hs Hu. simpl. split; [|done]. destruct (UnlinkedAt p); congruence. Qed.

(** What a start reads is sound, and a restriction it reads is readable and on
    disk. *)
Lemma restart_ok s : state_ok (restart build s).
Proof.
  unfold restart. destruct (readConnectionProblem build (disk s)) as [r|e] eqn:Hread; [|by split].
  assert (∀ p, r = Some p → Since p ≠ 0 ∧ UnlinkedAt p ≠ Some 0 ∧ valid_device (RevokedDevice p) = true ∧
    (restrictsAccount (Some p) = true → readable p)) as Hr.
  { intros p ->. unfold readConnectionProblem in Hread. destruct (disk s) as [d|]; [|done].
    destruct (Z.eqb_spec (Since d) 0) as [|S1]; [done|]. case_bool_decide as S2; [done|].
    destruct (valid_device (RevokedDevice d)) eqn:S3; [|done]. cbn [negb] in Hread.
    destruct (negb (String.eqb (Kind d) _) || _) eqn:S4; [done|]. apply orb_false_iff in S4 as [S4 S5].
    apply negb_false_iff, String.eqb_eq in S4. injection Hread as Hread. unfold clearOutdatedBuildProblem in Hread.
    destruct (String.eqb (Kind d) "client_outdated" && _) eqn:Ho.
    - destruct (isUnlinked (Some d)); [|done]. injection Hread as <-. destruct (unlinkOnly_sound d S1 S2). done.
    - injection Hread as <-. split_and!; [done..|]. intros _. split; [done..| |].
      + intros Hk. rewrite Hk in S5. simpl in S5. by apply bool_decide_eq_false in S5.
      + intros Hk. rewrite Hk in Ho. simpl in Ho. by apply negb_false_iff, String.eqb_eq in Ho. }
  split; simpl; [done|..].
  - intros p Hp. destruct r as [q|]; [|done]. injection Hp as <-. by destruct (Hr q eq_refl) as (? & ? & ? & _).
  - intros p Hp Hban. destruct r as [q|]; [|done]. injection Hp as <-. destruct (Hr q eq_refl) as (_ & _ & _ & Hrd).
    split; [by apply Hrd|done].
Qed.

Lemma clear_ok s keep ok : state_ok s → state_ok (clearConnectionSnapshot keep ok s).
Proof.
  intros [Hd Hc Hb]. unfold clearConnectionSnapshot. destruct ok; simpl; [by split|].
  split; simpl; [done|done|]. intros p Hp Hr. split; [by apply (Hb p)|done].
Qed.

Lemma resolve_ok s expected ok : state_ok s → state_ok (resolveConnectionProblemIf expected ok s).1.
Proof.
  intros Hok. unfold resolveConnectionProblemIf. case_bool_decide; [|done]. cbn [negb].
  destruct (current s) as [p|] eqn:Hcur; [|by apply clear_ok].
  destruct (isUnlinked (Some p)); [|by apply clear_ok].
  destruct (ok_current _ Hok p Hcur) as (S1 & S2 & S3). destruct (unlinkOnly_sound p S1 S2) as [U1 U2]. destruct ok.
  - by apply (publish_persist_ok s (unlinkOnly p) true Hok).
  - destruct Hok as [Od Oc Ob]. split; simpl; [done|done|]. intros q Hq Hr. split; [by apply (Ob q)|done].
Qed.

Lemma dial_ok s w now : state_ok s → state_ok (wait_round w now s).1.
Proof.
  intros Hok. unfold wait_round. cbn [fst]. destruct (_ && _); [|done]. destruct (problem s) as [[id p]|] eqn:Hp; [|done].
  unfold persistConnectionProblemIf. rewrite Hp, Nat.eqb_refl. apply rewrite_ok; [done|]. unfold current. by rewrite Hp.
Qed.

Lemma apply_ok s e : state_ok s → sound_event e → state_ok (apply s e).
Proof.
  intros Hok He. unfold apply. destruct (refused s); [done|].
  destruct e as [code reason expire active persistent now w|w|st|logout retired device|w now| |ok|expected ok].
  - by apply record_ok.
  - by apply cleaned_ok.
  - unfold setPairingState. destruct (operatorLogout s); [done|]. by destruct Hok.
  - destruct Hok as [Hd Hc Hb]. split; simpl; [|done|done]. intros d ->. done.
  - by apply dial_ok.
  - apply restart_ok.
  - unfold clearConnectionProblem. destruct (operatorRetired s); [done|]. by apply clear_ok.
  - by apply resolve_ok.
Qed.

Lemma run_ok s es : state_ok s → Forall sound_event es → state_ok (run s es).
Proof.
  intros Hok Hes. revert s Hok. induction Hes as [|e es He Hes IH]; intros s Hok; [done|].
  apply IH. by apply apply_ok.
Qed.

Lemma start_ok : state_ok initial.
Proof. by split. Qed.

(** The restriction is in the file, as a start can read it. *)
Definition saved (p : ConnectionProblem) (s : state) : Prop := ∃ d, disk s = Some d ∧ same_ban p d ∧ readable d.

Lemma written_saved s p q :
  state_ok s → problemPersistenceFailed s = false → current s = Some q → restrictsAccount (Some q) = true → same_ban p q → saved p s.
Proof. intros Hok Hf Hc Hr Hs. destruct (ok_ban _ Hok q Hc Hr) as [Hrd Hd]. exists q. split_and!; [by apply Hd|done|done]. Qed.

(** A failed write leaves the file as it was. *)
Lemma quiet_disk s e : quiet_event e → disk (apply s e) = disk s ∨ problemPersistenceFailed (apply s e) = false.
Proof.
  intros Hq. unfold apply. destruct (refused s); [by left|].
  destruct e as [code reason expire active persistent now w|w|st|logout retired device|w now| |ok|expected ok]; simpl in Hq; try done.
  - unfold recordConnectionProblemStateIf. destruct active; [|by left]. cbn [negb].
    destruct (next_problem _ _ _ _ _ _ _); [|by left]. destruct persistent; [|by left]. destruct w; [by right|by left].
  - unfold unlinkedDevice. destruct (problem s) as [[? q]|]; [|by left]. destruct (isUnlinked _); [|by left]. destruct w; [by right|by left].
  - unfold setPairingState. destruct (operatorLogout s); by left.
  - by left.
  - unfold wait_round. cbn [fst]. destruct (_ && _); [|by left]. destruct (problem s) as [[id q]|] eqn:Hp; [|by left].
    unfold persistConnectionProblemIf. rewrite Hp, Nat.eqb_refl. destruct w; [by right|by left].
  - right. unfold restart. by destruct (readConnectionProblem _ _).
Qed.

(** One quiet event keeps the restriction and the process alive. *)
Lemma quiet_step_keeps s e p :
  state_ok s → sound_event e → quiet_event e → (e = Restarted → saved p s) →
  refused s = false → current s = Some p → restrictsAccount (Some p) = true →
  refused (apply s e) = false ∧ ∃ q, current (apply s e) = Some q ∧ same_ban p q.
Proof.
  intros Hok He Hq Hrst Href Hcur Hban. unfold apply. rewrite Href.
  assert (∃ q, current s = Some q ∧ same_ban p q) as Hself by (exists p; done).
  destruct e as [code reason expire active persistent now w|w|st|logout retired device|w now| |ok|expected ok];
    simpl in Hq.
  - unfold recordConnectionProblemStateIf. destruct active; [|done]. cbn [negb].
    destruct (next_problem build s code reason expire persistent now) as [next|] eqn:Hnext; [|done].
    assert (same_ban p next) as Hsame.
    { destruct (next_problem_shape _ _ _ _ _ _ _ Hnext) as (b & Hbase & Hshape).
      assert (same_ban p b) as Hpb.
      { destruct Hbase as [[-> [Hr|Hr]]|(Hb & _ & _)]; [| |rewrite Hcur in Hb; injection Hb as <-; done].
        - destruct persistent; [|done]. specialize (Hq eq_refl). simpl in Hr. congruence.
        - rewrite Hcur in Hr. congruence. }
      destruct Hshape as [->|[(_ & _ & ->)|(q & _ & _ & ->)]]; done. }
    destruct persistent; (split; [done|]); exists next; done.
  - unfold unlinkedDevice. destruct (problem s) as [[id q]|] eqn:Hp; [|done].
    unfold current in Hcur. rewrite Hp in Hcur. simpl in Hcur. injection Hcur as ->.
    destruct (isUnlinked (Some p)); [|by split; [done|]].
    destruct w; (split; [done|]); [|unfold current; simpl; rewrite Hp; by exists p].
    exists (prepareSessionDevice p). split; [done|]. by destruct (prepare_sound p).
  - unfold setPairingState. by destruct (operatorLogout s).
  - done.
  - unfold wait_round. cbn [fst]. destruct (_ && _); [|done]. destruct (problem s) as [[id q]|] eqn:Hp; [|done].
    unfold persistConnectionProblemIf. rewrite Hp, Nat.eqb_refl. split; [done|]. unfold current in *. simpl.
    rewrite Hp in *. done.
  - destruct (Hrst eq_refl) as (d & Hd & Hsame & Hrd). unfold restart. rewrite Hd, (readable_reads d Hrd).
    split; [done|]. by exists d.
  - done.
  - done.
Qed.

Lemma quiet_keeps es s p :
  state_ok s → Forall sound_event es → Forall quiet_event es → refused s = false → current s = Some p →
  restrictsAccount (Some p) = true →
  (∀ k, es !! k = Some Restarted → saved p s ∨ ∃ j, (j ≤ k)%nat ∧ problemPersistenceFailed (run s (take j es)) = false) →
  refused (run s es) = false ∧ ∃ q, current (run s es) = Some q ∧ same_ban p q.
Proof.
  revert s p. induction es as [|e es IH]; intros s p Hok Hes Hq Href Hcur Hban Hrst; [by split; [|exists p]|].
  apply Forall_cons in Hes as [He Hes]. apply Forall_cons in Hq as [Hqe Hq].
  assert (problemPersistenceFailed s = false → saved p s) as Hnow by (intros; by apply (written_saved s p p)).
  destruct (quiet_step_keeps s e p Hok He Hqe) as (Href' & q & Hcur' & Hsame); [|done..|].
  { intros ->. destruct (Hrst 0%nat eq_refl) as [?|(j & Hj & Hf)]; [done|]. assert (j = 0%nat) as -> by lia. by apply Hnow. }
  pose proof (apply_ok s e Hok He) as Hok'. assert (restrictsAccount (Some q) = true) as Hbq by (by rewrite (same_ban_restricts _ _ Hsame)).
  destruct (IH (apply s e) q) as (Hr & r & Hcr & Hs); [done..| |split; [done|]; exists r; split; [done|by eapply same_ban_trans]].
  assert (saved p s → saved q (apply s e)) as Hnext.
  { intros (d & Hd & Hsd & Hrd). destruct (quiet_disk s e Hqe) as [Hk|Hf]; [|by eapply written_saved].
    exists d. rewrite Hk. split_and!; [done| |done]. unfold same_ban in *. intuition congruence. }
  intros k Hk. destruct (Hrst (S k) Hk) as [?|(j & Hj & Hf)]; [by left; apply Hnext|].
  destruct j as [|j]; [left; by apply Hnext, Hnow|right]. exists j. split; [lia|done].
Qed.

(** What one round of the gate sees after its write. *)
Lemma wait_round_current w now s :
  current (wait_round w now s).1 = current s ∧ pairingState (wait_round w now s).1 = pairingState s.
Proof.
  unfold wait_round. cbn [fst]. destruct (_ && _); [|done]. destruct (problem s) as [[id p]|] eqn:Hp; [|done].
  unfold persistConnectionProblemIf. rewrite Hp, Nat.eqb_refl. done.
Qed.

Lemma restricting_cases k :
  restricting_kind k = true ↔ k = "temporarily_banned" ∨ k ∈ ["banned"; "locked"; "client_outdated"].
Proof. unfold restricting_kind. rewrite bool_decide_eq_true, elem_of_cons. done. Qed.
End Histories.

(** ** Properties *)

(** [C10] A restriction that was saved is never forgotten: after any history, once the account is
    temporarily banned, banned, locked or refused as outdated, no sequence of
    further connection failures (from any client, persistent or not, with any
    outcome of their writes), unlinks, session cleanups, pairing changes, dial
    rounds and restarts of the same build makes the bridge forget its kind,
    code, reason, expiry or start, or refuse to start; only a connection that
    succeeds, an operator's acknowledgement or a new restriction replaces it.  A restart is
    allowed from the first moment on at which no write is outstanding, whatever fails later; a restriction whose writes have all
    failed so far lives in memory only, and is kept as long as the process is not restarted. *)
Theorem ban_survives `{JidOps} build es es' p :
  Forall sound_event es → Forall sound_event es' →
  current (run build initial es) = Some p → restrictsAccount (Some p) = true → refused (run build initial es) = false →
  Forall quiet_event es' →
  (∀ k, es' !! k = Some Restarted →
        ∃ j, (j ≤ k)%nat ∧ problemPersistenceFailed (run build initial (es ++ take j es')) = false) →
  refused (run build initial (es ++ es')) = false ∧
  ∃ q, current (run build initial (es ++ es')) = Some q ∧ Kind q = Kind p ∧ Code q = Code p ∧
    TempBanReason q = TempBanReason p ∧ ExpiresAt q = ExpiresAt p ∧ Since q = Since p.
Proof.
  intros Hes Hes' Hcur Hban Href Hq Hrst. unfold run in *. rewrite foldl_app.
  destruct (quiet_keeps build es' _ p (run_ok build initial es (start_ok build) Hes) Hes' Hq Href Hcur Hban)
    as (Hr & q & Hcq & Hk & Hc & Ht & He & Hs & _).
  { intros k Hk. right. destruct (Hrst k Hk) as (j & Hj & Hf). exists j. by rewrite foldl_app in Hf. }
  split; [done|]. exists q. done.
Qed.

(** A temporary ban, then an unlink that cannot be written, a restart and a transient failure. *)
Definition sample_history : list event := [Recorded 402 101 0 true true 1000 true].
Definition sample_after : list event :=
  [Recorded 401 0 0 true true 2000 false; Restarted; Recorded 501 0 0 true false 3000 false; DialRound true 4000].

Lemma ban_survives_witness :
  ∃ q, current (@run RefJid.ops "v1" initial (sample_history ++ sample_after)) = Some q ∧ Kind q = "temporarily_banned".
Proof.
  destruct (@ban_survives RefJid.ops "v1" sample_history sample_after
    {| UnlinkedAt := None; RevokedDevice := ""; SessionRemoved := false; Kind := "temporarily_banned"; Code := 402;
       TempBanReason := 101; ExpiresAt := Some (1000 + hour_ns); Since := 1000; BuildVersion := "" |})
    as (_ & q & Hq & Hk & _).
  - repeat constructor; discriminate.
  - repeat constructor; discriminate.
  - vm_compute. reflexivity.
  - vm_compute. reflexivity.
  - vm_compute. reflexivity.
  - repeat constructor; discriminate.
  - intros k _. exists 0%nat. split; [lia|vm_compute; reflexivity].
  - exists q. split; [exact Hq|exact Hk].
Defined.

(** The dial gate: after any history, a round of the gate lets the bridge dial
    only when no pairing state is pending, the account is not restricted at
    that moment, and a restriction that lapsed is safely on disk; and it does
    let it dial when nothing is pending, the account is unrestricted or its
    temporary ban ran out, and the write it may owe succeeds. *)
Theorem dial_gate `{JidOps} build es w now s :
  Forall sound_event es → s = run build initial es →
  ((wait_round w now s).2 = Allowed →
     pairingState s = "" ∧ restrictsAccountAt now (current s) = false ∧
     (restrictsAccount (current s) = true → disk (wait_round w now s).1 = current s)) ∧
  (pairingState s = "" → restrictsAccountAt now (current s) = false → w = true →
     (∀ p e, current s = Some p → ExpiresAt p = Some e → restrictsAccount (Some p) = true) →
     (wait_round w now s).2 = Allowed).
Proof.
  intros Hes ->. set (s := run build initial es).
  assert (state_ok build s) as Hok by (by apply run_ok; [apply start_ok|]).
  pose proof (dial_ok build s w now Hok) as Hok'. destruct (wait_round_current w now s) as [Hcur Hpair].
  set (r := wait_round w now s) in *.
  assert (r.2 = if problemPersistenceFailed r.1 && restrictsAccount (current s) then RetrySoon
    else if negb (String.eqb (pairingState s) "") || match current s with
              | Some p => bool_decide (Kind p ∈ ["banned"; "locked"; "client_outdated"]) | None => false end
    then Blocked else match current s with
      | Some q => match ExpiresAt q with
                  | Some e => if bool_decide (now < e) then WaitFor (e - now) else Allowed | None => Allowed end
      | None => Allowed end) as Hdec.
  { rewrite <-Hcur, <-Hpair. reflexivity. }
  split.
  - rewrite Hdec. destruct (problemPersistenceFailed r.1 && _) eqn:Hfail; [done|].
    destruct (negb _ || _) eqn:Hblock; [done|]. apply orb_false_iff in Hblock as [Hps Hkind].
    apply negb_false_iff, String.eqb_eq in Hps. intros Hall. split; [done|].
    assert (restrictsAccount (current s) = true → disk r.1 = current s) as Hdisk.
    { intros Hr. rewrite Hr, andb_true_r in Hfail. rewrite <-Hcur in Hr |- *.
      destruct (current r.1) as [p|] eqn:Hp; [|done]. by apply (ok_ban _ _ Hok' p Hp Hr). }
    split; [|done]. unfold restrictsAccountAt. destruct (restrictsAccount (current s)) eqn:Hr; [|done].
    destruct (current s) as [p|] eqn:Hp; [|done]. simpl in Hr. apply restricting_cases in Hr as [Hk|Hk].
    2: { by rewrite bool_decide_true in Hkind by done. }
    rewrite Hk. simpl. destruct (ok_ban _ _ Hok p Hp) as [Hrd _]; [simpl; by rewrite Hk|].
    destruct (ExpiresAt p) as [e|] eqn:He; [|by destruct (rd_expiry _ _ Hrd Hk)]. by case_bool_decide.
  - intros Hps Hun Hw Hexp. rewrite Hdec.
    assert (problemPersistenceFailed r.1 && restrictsAccount (current s) = false) as ->.
    { destruct (restrictsAccount (current s)) eqn:Hr; [|apply andb_false_r]. rewrite andb_true_r.
      unfold r, wait_round. rewrite Hr, andb_true_r. cbn [fst]. destruct (problemPersistenceFailed s) eqn:Hf; [|done].
      unfold current in Hr. destruct (problem s) as [[id p]|] eqn:Hp; [|done].
      unfold persistConnectionProblemIf. rewrite Hp, Nat.eqb_refl, Hw. done. }
    rewrite Hps. simpl. destruct (current s) as [p|] eqn:Hp; [|done]. unfold restrictsAccountAt in Hun.
    case_bool_decide as Hk.
    { cbn [restrictsAccount] in Hun. rewrite (proj2 (restricting_cases (Kind p)) (or_intror Hk)) in Hun. simpl in Hun.
      destruct (String.eqb_spec (Kind p) "temporarily_banned") as [Ht|]; [|done]. rewrite Ht in Hk. set_solver. }
    destruct (ExpiresAt p) as [e|] eqn:He; [|done]. pose proof (Hexp p e eq_refl He) as Hr. rewrite Hr in Hun.
    simpl in Hun. simpl in Hr. apply restricting_cases in Hr as [Ht|]; [|done]. rewrite Ht in Hun. simpl in Hun.
    by rewrite Hun.
Qed.

Lemma dial_gate_witness :
  (@wait_round true (1000 + hour_ns) (@run RefJid.ops "v1" initial sample_history)).2 = Allowed ∧
  restrictsAccountAt (1000 + hour_ns) (current (@run RefJid.ops "v1" initial sample_history)) = false.
Proof.
  assert (wait_round true (1000 + hour_ns) (@run RefJid.ops "v1" initial sample_history) =
    (@run RefJid.ops "v1" initial sample_history, Allowed)) as Ha by (vm_compute; reflexivity).
  split; [by rewrite Ha|].
  refine (proj1 (proj2 (proj1 (@dial_gate RefJid.ops "v1" sample_history true (1000 + hour_ns) _ _ eq_refl) _))).
  - repeat constructor; discriminate.
  - rewrite Ha. reflexivity.
Defined.

(** A transient failure of the 5xx range other than 500 and 503 is kept in memory
    as "other"; while an unlink is remembered, the next session cleanup writes
    that object, and the file is refused at the next start. *)
Lemma transient_marker_refused :
  refused (@run RefJid.ops "v1" initial
    [Recorded 401 0 0 true true 1000 true; SessionCleaned true; ClientChanged false false None;
     Recorded 501 0 0 true false 2000 true; SessionCleaned true; Restarted]) = true.
Proof. vm_compute. reflexivity. Qed.
