(* ===== verification/MediaQuota.v ===== *)
(** * The quota of the local media cache ([media_quota.go])

    Admission of an automatic transfer under a byte quota: accounting of the
    cached files and of the bytes reserved by running transfers, eviction of
    the oldest files of the configured kinds down to a low-water mark, and the
    reservation the transfer then writes within.  The local backend; sizes and
    sums are unsigned 64-bit. *)
From S2P Require Import Prelude.
#[local] Open Scope Z_scope.

(** A cached file: its path below the store, its kind ([mediaScope]), its size
    and its modification time. *)
Record file := { f_path : string; f_kind : string; f_size : Z; f_at : Z }.

Record mediaQuotaReservation := { rv_path : string; rv_bytes : Z; rv_finished : bool }.

(** What an admission reads and changes. *)
Record cache := {
  files : list file;
  mediaQuotaReservations : list mediaQuotaReservation;
  mediaQuotaNeedsLowWater : bool;
}.

Inductive outcome : Type :=
| Unlimited
| Failed (e : string)
| Paused (* errMediaQuota *)
| Reserved (limit : Z) (quota_bound : bool).

Definition mediaQuotaLowWater (quota target : Z) : Z :=
  if bool_decide (target < 1 ∨ target > 99) then 0
  else wrap_uint64 (quota / 100 * target + quota mod 100 * target / 100).

Definition running (rs : list mediaQuotaReservation) : list mediaQuotaReservation :=
  filter (λ r, rv_finished r = false) rs.

Definition sum_by {A} (f : A → Z) (l : list A) : Z := foldr (λ x acc, f x + acc) 0 l.

(** The files the walk counts: not at the path of a running transfer. *)
Definition counted (rs : list mediaQuotaReservation) (fs : list file) : list file :=
  filter (λ f, (f_path f ∉ map rv_path (running rs)) ∧ 0 ≤ f_size f) fs.

(** Reserved and cached bytes; the source adds them up modulo 2^64. *)
Definition usage (rs : list mediaQuotaReservation) (fs : list file) : Z :=
  sum_by rv_bytes (running rs) + sum_by f_size (counted rs fs).

(** Oldest first, then by path. *)
Definition older (a b : file) : Prop := f_at a < f_at b ∨ (f_at a = f_at b ∧ string_le (f_path a) (f_path b)).
#[export] Instance older_dec : RelDecision older.
Proof. intros a b. unfold older. apply _. Defined.

Definition delete_path (p : string) (fs : list file) : list file := filter (λ f, f_path f ≠ p) fs.

(** Whether an admission of [incoming] bytes fits. *)
Definition full (quota used incoming : Z) : bool :=
  bool_decide (quota ≤ used) || bool_decide (incoming > wrap_uint64 (quota - used)).

(** The eviction loop: [alive i] says that the context still runs before the
    [i]-th candidate, [found c] is the size of a candidate that could be removed. *)
Fixpoint evict (quota low incoming : Z) (alive : nat → bool) (found : file → option Z) (i : nat)
    (used : Z) (fs : list file) (candidates : list file) : Z * list file :=
  match candidates with
  | [] => (used, fs)
  | c :: rest =>
      if negb (alive i) then (used, fs)
      else if bool_decide (used ≤ low) && bool_decide (incoming ≤ wrap_uint64 (quota - used)) then (used, fs)
      else match found c with
           | Some bytes => evict quota low incoming alive found (S i) (used - Z.min used bytes) (delete_path (f_path c) fs) rest
           | None => evict quota low incoming alive found (S i) used fs rest
           end
  end.

(** [acquireMediaQuota] with the lease held and the settings read.  [current] is
    the media limit of the context (0 for none), [path] the destination, and
    [walk_ok] whether the walk of the cache succeeded. *)
Definition acquireMediaQuota (quota : Z) (types : list string) (target incoming current : Z) (path : string)
    (walk_ok : bool) (alive : nat → bool) (found : file → option Z) (s : cache) : outcome * cache :=
  if Z.eqb quota 0 then
    (Unlimited, {| files := files s; mediaQuotaReservations := mediaQuotaReservations s; mediaQuotaNeedsLowWater := false |})
  else if bool_decide (target < 1 ∨ target > 99) then (Failed "invalid eviction target", s)
  else if bool_decide (incoming > quota) then (Paused, s)
  else
    let rs := running (mediaQuotaReservations s) in
    if negb walk_ok then
      (Failed "walk", {| files := files s; mediaQuotaReservations := rs; mediaQuotaNeedsLowWater := mediaQuotaNeedsLowWater s |})
    else
      let used := wrap_uint64 (usage rs (files s)) in
      let candidates := merge_sort older (filter (λ f, f_kind f ∈ types) (counted rs (files s))) in
      let low := mediaQuotaLowWater quota target in
      let '(used, fs, needs) :=
        if full quota used incoming || mediaQuotaNeedsLowWater s then
          let '(used, fs) := evict quota low incoming alive found 0 used (files s) candidates in
          (used, fs, negb (bool_decide (types = [])) && bool_decide (used > low))
        else (used, files s, mediaQuotaNeedsLowWater s) in
      let s' rs := {| files := fs; mediaQuotaReservations := rs; mediaQuotaNeedsLowWater := needs |} in
      if negb (alive (length candidates)) then (Failed "context", s' rs)
      else if full quota used incoming || needs then (Paused, s' rs)
      else
        let room := quota - used in
        let room := if bool_decide (incoming > 0) then Z.min room incoming else room in
        let '(limit, bound) :=
          if bool_decide (current > 0) then (Z.min room current, bool_decide (room < current)) else (room, true) in
        (Reserved limit bound, s' ({| rv_path := path; rv_bytes := limit; rv_finished := false |} :: rs)).

(** [mediaCachingPaused]. *)
Definition mediaCachingPaused (needs_low : bool) (quota bytes : Z) (types : list string) (target : Z) : bool :=
  if Z.eqb quota 0 || bool_decide (bytes < 0) then false
  else bool_decide (quota ≤ bytes)
       || (needs_low && negb (bool_decide (types = [])) && bool_decide (bytes > mediaQuotaLowWater quota target)).

(** The release of a transfer: its reservation is marked finished. *)
Definition settle (r : mediaQuotaReservation) : mediaQuotaReservation :=
  {| rv_path := rv_path r; rv_bytes := rv_bytes r; rv_finished := true |}.

Definition with_reservations (rs : list mediaQuotaReservation) (s : cache) : cache :=
  {| files := files s; mediaQuotaReservations := rs; mediaQuotaNeedsLowWater := mediaQuotaNeedsLowWater s |}.
Definition with_files (fs : list file) (s : cache) : cache :=
  {| files := fs; mediaQuotaReservations := mediaQuotaReservations s; mediaQuotaNeedsLowWater := mediaQuotaNeedsLowWater s |}.

(** The steps of the cache under a fixed quota: admissions of transfers for files
    that are neither cached nor being fetched, publications within the
    reservation, releases, and removals by other parts of the bridge. *)
Inductive step (quota : Z) : cache → cache → Prop :=
| step_admit types target incoming current path walk_ok alive found s :
    0 ≤ incoming → 0 ≤ current →
    path ∉ map rv_path (running (mediaQuotaReservations s)) → path ∉ map f_path (files s) →
    (∀ c n, found c = Some n → n = f_size c) →
    step quota s (acquireMediaQuota quota types target incoming current path walk_ok alive found s).2
| step_publish r f s :
    r ∈ running (mediaQuotaReservations s) → f_path f = rv_path r → 0 ≤ f_size f ≤ rv_bytes r →
    step quota s (with_files (f :: delete_path (f_path f) (files s)) s)
| step_finish l1 r l2 s :
    mediaQuotaReservations s = l1 ++ r :: l2 → step quota s (with_reservations (l1 ++ settle r :: l2) s)
| step_remove p s : step quota s (with_files (delete_path p (files s)) s).

(** ** Lemmas *)

(** The low-water mark is the exact percentage, rounded down, with no overflow. *)
Lemma low_water_exact quota target :
  0 ≤ quota ≤ max_uint64 → 1 ≤ target ≤ 99 →
  mediaQuotaLowWater quota target = quota * target / 100 ∧ mediaQuotaLowWater quota target ≤ quota.
Proof.
  intros Hq Ht. unfold mediaQuotaLowWater. rewrite bool_decide_false by lia.
  assert (quota / 100 * target + quota mod 100 * target / 100 = quota * target / 100) as Heq.
  { rewrite (Z.div_mod quota 100) at 3 by lia.
    replace ((100 * (quota / 100) + quota mod 100) * target)
      with (quota mod 100 * target + quota / 100 * target * 100) by lia.
    rewrite Z.div_add by lia. lia. }
  assert (quota * target / 100 ≤ quota) as Hle by (apply Z.div_le_upper_bound; nia).
  assert (0 ≤ quota * target / 100) as Hge by (apply Z.div_pos; nia).
  rewrite Heq, wrap_uint64_id; [done|]. unfold in_uint64. lia.
Qed.

Lemma sum_by_app {A} (f : A → Z) l k : sum_by f (l ++ k) = sum_by f l + sum_by f k.
Proof. induction l as [|x l IH]; simpl; [done|]. rewrite IH. lia. Qed.

Lemma sum_by_nonneg {A} (f : A → Z) l : Forall (λ x, 0 ≤ f x) l → 0 ≤ sum_by f l.
Proof. induction 1; simpl; lia. Qed.

Lemma sum_by_filter_le {A} (f : A → Z) (P : A → Prop) `{∀ x, Decision (P x)} l :
  Forall (λ x, 0 ≤ f x) l → sum_by f (filter P l) ≤ sum_by f l.
Proof.
  induction 1 as [|x l Hx Hl IH]; [done|]. rewrite filter_cons. case_decide; simpl; lia.
Qed.

(** Splitting a sum by a predicate. *)
Lemma sum_by_split {A} (f : A → Z) (P : A → Prop) `{∀ x, Decision (P x)} l :
  sum_by f l = sum_by f (filter P l) + sum_by f (filter (λ x, ¬ P x) l).
Proof.
  induction l as [|x l IH]; [done|]. rewrite !filter_cons. destruct (decide (P x)); destruct (decide (¬ P x)); simpl; try done; lia.
Qed.

Lemma delete_path_absent p fs : p ∉ map f_path fs → delete_path p fs = fs.
Proof.
  intros Hp. induction fs as [|f fs IH]; [done|]. unfold delete_path in *. rewrite filter_cons. simpl in Hp.
  apply not_elem_of_cons in Hp as [Hne Hp]. rewrite decide_True by congruence. by rewrite IH.
Qed.

(** Removing a file found once lowers the sum by its size. *)
Lemma sum_delete_path f fs :
  NoDup (map f_path fs) → f ∈ fs → sum_by f_size fs = f_size f + sum_by f_size (delete_path (f_path f) fs).
Proof.
  induction fs as [|g fs IH]; intros Hnd Hin; [by apply not_elem_of_nil in Hin|].
  simpl in Hnd. apply NoDup_cons in Hnd as [Hn Hnd]. unfold delete_path in *. rewrite filter_cons.
  apply elem_of_cons in Hin as [->|Hin].
  - rewrite decide_False by tauto. change (filter _ fs) with (delete_path (f_path g) fs).
    by rewrite delete_path_absent.
  - rewrite decide_True. { simpl. rewrite (IH Hnd Hin). lia. }
    intros Heq. apply Hn. rewrite Heq. by apply list_elem_of_fmap_2.
Qed.

Lemma delete_counted p rs fs : counted rs (delete_path p fs) = delete_path p (counted rs fs).
Proof. unfold counted, delete_path. rewrite !list_filter_filter. apply list_filter_iff. naive_solver. Qed.

Lemma counted_sublist rs fs : counted rs fs `sublist_of` fs.
Proof. apply sublist_filter. Qed.

Lemma delete_sublist p fs : delete_path p fs `sublist_of` fs.
Proof. apply sublist_filter. Qed.

Lemma NoDup_paths_sublist fs gs : fs `sublist_of` gs → NoDup (map f_path gs) → NoDup (map f_path fs).
Proof. intros Hs Hn. eapply sublist_NoDup; [done|]. by apply fmap_sublist. Qed.

Lemma running_idemp rs : running (running rs) = running rs.
Proof. unfold running. rewrite list_filter_filter. apply list_filter_iff. tauto. Qed.

(** The files outside a list of paths. *)
Definition outside (ps : list string) (fs : list file) : list file := filter (λ f, f_path f ∉ ps) fs.

Lemma counted_outside rs fs :
  Forall (λ f, 0 ≤ f_size f) fs → counted rs fs = outside (map rv_path (running rs)) fs.
Proof.
  intros Hs. unfold counted, outside. induction Hs as [|f fs Hf Hs IH]; [done|]. rewrite !filter_cons, IH.
  destruct (decide (f_path f ∉ map rv_path (running rs))); [rewrite decide_True by done; done|].
  rewrite decide_False by tauto. done.
Qed.

Lemma outside_iff ps qs fs : (∀ p, p ∈ ps ↔ p ∈ qs) → outside ps fs = outside qs fs.
Proof. intros Heq. apply list_filter_iff. intros f. by rewrite Heq. Qed.

Lemma sum_outside_iff ps qs fs : (∀ p, p ∈ ps ↔ p ∈ qs) → sum_by f_size (outside ps fs) = sum_by f_size (outside qs fs).
Proof. intros Heq. by rewrite (outside_iff ps qs). Qed.

(** At most one file has a path. *)
Lemma sum_at_path p b fs :
  0 ≤ b → NoDup (map f_path fs) → (∀ f, f ∈ fs → f_path f = p ∧ f_size f ≤ b) → sum_by f_size fs ≤ b.
Proof.
  intros Hb Hnd Hall. destruct fs as [|f [|g fs]]; simpl; [lia| |].
  - destruct (Hall f); [by left|]. lia.
  - simpl in Hnd. apply NoDup_cons in Hnd as [Hn _]. exfalso. apply Hn.
    destruct (Hall f) as [-> _]; [by left|]. destruct (Hall g) as [-> _]; [by right; left|]. by left.
Qed.

(** Giving up a reservation uncovers at most its bytes. *)
Lemma release_le p b ps fs :
  0 ≤ b → NoDup (map f_path fs) → (∀ f, f ∈ fs → f_path f = p → f_size f ≤ b) →
  sum_by f_size (outside ps fs) ≤ b + sum_by f_size (outside (p :: ps) fs).
Proof.
  intros Hb Hnd Hle. rewrite (sum_by_split f_size (λ f, f_path f ≠ p) (outside ps fs)).
  assert (filter (λ f, f_path f ≠ p) (outside ps fs) = outside (p :: ps) fs) as ->.
  { unfold outside. rewrite list_filter_filter. apply list_filter_iff. intros f. rewrite not_elem_of_cons. tauto. }
  assert (sum_by f_size (filter (λ f, ¬ f_path f ≠ p) (outside ps fs)) ≤ b) as Hat; [|lia].
  apply (sum_at_path p); [done| |].
  - eapply NoDup_paths_sublist; [|exact Hnd]. etrans; apply sublist_filter.
  - intros f Hf. apply list_elem_of_filter in Hf as [Hp Hf]. apply list_elem_of_filter in Hf as [_ Hf].
    assert (f_path f = p) as Heq by (destruct (decide (f_path f = p)); tauto). split; [done|]. by apply Hle.
Qed.

(** All the files, against the reservations that may still be writing. *)
Lemma disk_le rs fs :
  NoDup (map f_path fs) → Forall (λ r, 0 ≤ rv_bytes r) rs →
  (∀ r f, r ∈ rs → f ∈ fs → f_path f = rv_path r → f_size f ≤ rv_bytes r) →
  sum_by f_size fs ≤ sum_by rv_bytes rs + sum_by f_size (outside (map rv_path rs) fs).
Proof.
  intros Hnd Hb. induction Hb as [|r rs Hr Hb IH]; intros Hle; simpl.
  - assert (outside [] fs = fs) as ->; [|lia]. unfold outside. clear. induction fs as [|f fs IH]; [done|].
    rewrite filter_cons, decide_True by apply not_elem_of_nil. by rewrite IH.
  - pose proof (IH ltac:(intros; apply Hle; [by right|done..])) as IH'.
    pose proof (release_le (rv_path r) (rv_bytes r) (map rv_path rs) fs Hr Hnd
      ltac:(intros; apply Hle; [by left|done..])). lia.
Qed.

(** The eviction keeps the books: what it reports is what is left. *)
Lemma evict_books rs quota low incoming alive found cs :
  (∀ c n, found c = Some n → n = f_size c) → 0 ≤ sum_by rv_bytes (running rs) →
  ∀ i used fs used' fs',
  NoDup (map f_path fs) → NoDup (map f_path cs) → (∀ c, c ∈ cs → c ∈ counted rs fs) →
  used = usage rs fs → evict quota low incoming alive found i used fs cs = (used', fs') →
  fs' `sublist_of` fs ∧ used' = usage rs fs'.
Proof.
  intros Hfound HR. induction cs as [|c cs IH]; intros i used fs used' fs' Hnd Hcs Hin Hu; simpl.
  { intros [= <- <-]. done. }
  destruct (negb (alive i)); [intros [= <- <-]; done|]. destruct (_ && _); [intros [= <- <-]; done|].
  simpl in Hcs. apply NoDup_cons in Hcs as [Hc Hcs].
  destruct (found c) as [n|] eqn:Hf; [|intros Hev; eapply IH; eauto; intros; apply Hin; by right].
  apply Hfound in Hf as ->. intros Hev.
  assert (c ∈ counted rs fs) as Hcin by (apply Hin; by left).
  assert (NoDup (map f_path (counted rs fs))) as Hndc by (eapply NoDup_paths_sublist; [apply counted_sublist|done]).
  pose proof (sum_delete_path c (counted rs fs) Hndc Hcin) as Hsum. rewrite <-delete_counted in Hsum.
  assert (0 ≤ sum_by f_size (counted rs (delete_path (f_path c) fs))) as Hpos.
  { apply sum_by_nonneg, Forall_forall. intros f [[_ ?] _]%list_elem_of_filter. done. }
  eapply IH in Hev as [Hsub Hused]; [|eapply NoDup_paths_sublist; [apply delete_sublist|done]|done| |].
  - split; [|done]. etrans; [done|apply delete_sublist].
  - intros d Hd. rewrite delete_counted. apply list_elem_of_filter. split; [|apply Hin; by right].
    intros Heq. apply Hc. rewrite <-Heq. by apply list_elem_of_fmap_2.
  - unfold usage in *. rewrite Z.min_r by lia. lia.
Qed.

(** ** The invariant *)

Record cache_ok (quota : Z) (s : cache) : Prop := {
  ok_nodup : NoDup (map f_path (files s));
  ok_sizes : Forall (λ f, 0 ≤ f_size f) (files s);
  ok_bytes : Forall (λ r, 0 ≤ rv_bytes r) (running (mediaQuotaReservations s));
  ok_written : ∀ r f, r ∈ running (mediaQuotaReservations s) → f ∈ files s → f_path f = rv_path r → f_size f ≤ rv_bytes r;
  ok_usage : usage (mediaQuotaReservations s) (files s) ≤ quota;
}.

Lemma usage_running rs fs : usage (running rs) fs = usage rs fs.
Proof. unfold usage, counted. by rewrite running_idemp. Qed.

Lemma usage_nonneg rs fs : Forall (λ r, 0 ≤ rv_bytes r) (running rs) → 0 ≤ usage rs fs.
Proof.
  intros Hb. unfold usage. pose proof (sum_by_nonneg _ _ Hb).
  assert (0 ≤ sum_by f_size (counted rs fs)); [|lia].
  apply sum_by_nonneg, Forall_forall. intros f [[_ ?] _]%list_elem_of_filter. done.
Qed.

Lemma usage_sublist rs fs fs' :
  fs' `sublist_of` fs → usage rs fs' ≤ usage rs fs.
Proof.
  intros Hs. unfold usage. assert (sum_by f_size (counted rs fs') ≤ sum_by f_size (counted rs fs)); [|lia].
  induction Hs as [|f l k _ IH|f l k _ IH]; [done|..]; unfold counted in *; rewrite ?filter_cons;
    case_decide as Hd; simpl; try lia.
Qed.

(** Fewer files, or the same with finished reservations forgotten. *)
Lemma shrink_ok quota s fs needs :
  fs `sublist_of` files s → cache_ok quota s →
  cache_ok quota {| files := fs; mediaQuotaReservations := running (mediaQuotaReservations s); mediaQuotaNeedsLowWater := needs |}.
Proof.
  intros Hs [H1 H2 H3 H4 H5]. assert (∀ f, f ∈ fs → f ∈ files s) as Hin.
  { intros f Hf. eapply elem_of_submseteq; [done|by apply sublist_submseteq]. }
  split; simpl; rewrite ?running_idemp.
  - by eapply NoDup_paths_sublist.
  - apply Forall_forall. intros f Hf. rewrite Forall_forall in H2. by apply H2, Hin.
  - done.
  - intros r f Hr Hf. apply H4; [done|by apply Hin].
  - rewrite usage_running. pose proof (usage_sublist (mediaQuotaReservations s) _ _ Hs). lia.
Qed.

(** Adding a reservation for a path that is not cached. *)
Lemma reserved_ok quota s path limit :
  cache_ok quota s → path ∉ map f_path (files s) → 0 ≤ limit →
  limit + usage (mediaQuotaReservations s) (files s) ≤ quota →
  cache_ok quota (with_reservations
    ({| rv_path := path; rv_bytes := limit; rv_finished := false |} :: mediaQuotaReservations s) s).
Proof.
  intros [H1 H2 H3 H4 H5] Hp Hl Hu. set (r := {| rv_path := path; rv_bytes := limit; rv_finished := false |}).
  assert (running (r :: mediaQuotaReservations s) = r :: running (mediaQuotaReservations s)) as Hrun
    by (unfold running; by rewrite filter_cons, decide_True).
  split; simpl; rewrite ?Hrun; try done.
  - by constructor.
  - intros r' f Hr Hf Heq. apply elem_of_cons in Hr as [->|Hr]; [|by eapply H4].
    exfalso. apply Hp. rewrite <-(Heq : f_path f = path). by apply list_elem_of_fmap_2.
  - unfold usage in *. rewrite Hrun. simpl. rewrite !counted_outside in * by done. rewrite Hrun. simpl.
    assert (outside (path :: map rv_path (running (mediaQuotaReservations s))) (files s)
      = outside (map rv_path (running (mediaQuotaReservations s))) (files s)) as ->; [|lia].
    clear -Hp. unfold outside. induction (files s) as [|f fs IH]; [done|]. simpl in Hp.
    apply not_elem_of_cons in Hp as [Hne Hp]. rewrite !filter_cons, (IH Hp).
    destruct (decide (f_path f ∉ map rv_path (running (mediaQuotaReservations s)))) as [Hd|Hd].
    + rewrite decide_True by (apply not_elem_of_cons; done). done.
    + rewrite decide_False by (rewrite not_elem_of_cons; tauto). done.
Qed.

Lemma candidates_ok rs fs (types : list string) :
  NoDup (map f_path fs) →
  let cs := merge_sort older (filter (λ f, f_kind f ∈ types) (counted rs fs)) in
  NoDup (map f_path cs) ∧ ∀ c, c ∈ cs → c ∈ counted rs fs.
Proof.
  intros Hnd cs. assert (cs ≡ₚ filter (λ f, f_kind f ∈ types) (counted rs fs)) as Hp by apply merge_sort_Permutation.
  split.
  - rewrite Hp. eapply NoDup_paths_sublist; [|exact Hnd]. etrans; [apply sublist_filter|apply counted_sublist].
  - intros c Hc. rewrite Hp in Hc. by apply list_elem_of_filter in Hc as [_ Hc].
Qed.

(** Accounting and eviction: the books match the files that are left. *)
Lemma evict_usage quota s (types : list string) target incoming alive found used fs needs :
  0 < quota ≤ max_uint64 → cache_ok quota s → (∀ c n, found c = Some n → n = f_size c) →
  let rs := running (mediaQuotaReservations s) in
  let used0 := wrap_uint64 (usage rs (files s)) in
  let cs := merge_sort older (filter (λ f, f_kind f ∈ types) (counted rs (files s))) in
  let low := mediaQuotaLowWater quota target in
  (if full quota used0 incoming || mediaQuotaNeedsLowWater s then
     let '(used, fs) := evict quota low incoming alive found 0 used0 (files s) cs in
     (used, fs, negb (bool_decide (types = [])) && bool_decide (used > low))
   else (used0, files s, mediaQuotaNeedsLowWater s)) = (used, fs, needs) →
  fs `sublist_of` files s ∧ used = usage rs fs.
Proof.
  intros Hq Hok Hfound rs used0 cs low.
  assert (used0 = usage rs (files s)) as Hu0.
  { unfold used0, rs. rewrite usage_running. apply wrap_uint64_id. pose proof (ok_usage _ _ Hok).
    pose proof (usage_nonneg (mediaQuotaReservations s) (files s) (ok_bytes _ _ Hok)). unfold in_uint64. lia. }
  destruct (full quota used0 incoming || _).
  - destruct (evict quota low incoming alive found 0 used0 (files s) cs) as [u g] eqn:He. intros [= <- <- _].
    destruct (candidates_ok rs (files s) types (ok_nodup _ _ Hok)) as [Hc1 Hc2].
    eapply (evict_books rs); [done| |exact (ok_nodup _ _ Hok)|exact Hc1|exact Hc2|exact Hu0|exact He].
    unfold rs. rewrite running_idemp. apply sum_by_nonneg, (ok_bytes _ _ Hok).
  - intros [= <- <- _]. done.
Qed.

Lemma acquire_ok quota types target incoming current path walk_ok alive found s :
  0 < quota ≤ max_uint64 → 0 ≤ incoming → 0 ≤ current → path ∉ map f_path (files s) →
  (∀ c n, found c = Some n → n = f_size c) → cache_ok quota s →
  cache_ok quota (acquireMediaQuota quota types target incoming current path walk_ok alive found s).2.
Proof.
  intros Hq Hi Hc Hp Hfound Hok. unfold acquireMediaQuota.
  rewrite (proj2 (Z.eqb_neq quota 0)) by lia. case_bool_decide; [done|]. case_bool_decide as Hinc; [done|].
  destruct walk_ok; [|by apply shrink_ok]. cbn [negb].
  match goal with |- context [match ?x with pair _ _ => _ end] =>
    match type of x with (Z * list file * bool)%type => destruct x as [[used fs] needs] eqn:Hev end end.
  apply evict_usage in Hev as [Hsub Hused]; [|done..].
  pose proof (shrink_ok quota s fs needs Hsub Hok) as Hshrunk.
  destruct (negb (alive _)); [done|]. destruct (full quota used incoming || needs) eqn:Hfull; [done|].
  apply orb_false_iff in Hfull as [Hfull _]. unfold full in Hfull. apply orb_false_iff in Hfull as [Hlt Hroom].
  apply bool_decide_eq_false in Hlt, Hroom.
  assert (0 ≤ used) as Hpos.
  { rewrite Hused. apply usage_nonneg. rewrite running_idemp. apply (ok_bytes _ _ Hok). }
  set (room := if bool_decide (incoming > 0) then Z.min (quota - used) incoming else quota - used).
  assert (0 ≤ room ≤ quota - used) as Hr by (unfold room; case_bool_decide; lia). clearbody room.
  match goal with |- context [match ?x with pair _ _ => _ end] =>
    match type of x with (Z * bool)%type => destruct x as [limit bound] eqn:Hlim end end.
  assert (0 ≤ limit ≤ room) as Hl by (case_bool_decide; injection Hlim as <- <-; lia).
  simpl. apply (reserved_ok quota _ path limit Hshrunk); simpl; [|lia|rewrite <-Hused; lia].
  intros Hin. apply Hp. apply list_elem_of_fmap in Hin as (f & -> & Hf). apply list_elem_of_fmap_2.
  eapply elem_of_submseteq; [done|by apply sublist_submseteq].
Qed.

(** A publication within its reservation. *)
Lemma published_ok quota s r f :
  r ∈ running (mediaQuotaReservations s) → f_path f = rv_path r → 0 ≤ f_size f ≤ rv_bytes r →
  NoDup (map rv_path (running (mediaQuotaReservations s))) →
  cache_ok quota s → cache_ok quota (with_files (f :: delete_path (f_path f) (files s)) s).
Proof.
  intros Hr Hp Hf Hnd [H1 H2 H3 H4 H5].
  assert (∀ g, g ∈ delete_path (f_path f) (files s) → g ∈ files s ∧ f_path g ≠ f_path f) as Hdel.
  { intros g [? ?]%list_elem_of_filter. done. }
  split; simpl; try done.
  - constructor; [|eapply NoDup_paths_sublist; [apply delete_sublist|done]].
    intros (g & Heq & Hg)%list_elem_of_fmap. by apply Hdel in Hg as [_ ?].
  - constructor; [lia|]. apply Forall_forall. intros g [Hg _]%Hdel. rewrite Forall_forall in H2. by apply H2.
  - intros r' g Hr' Hg Heq. apply elem_of_cons in Hg as [->|Hg]; [|apply Hdel in Hg as [Hg _]; by eapply H4].
    assert (r' = r) as ->; [|lia]. apply list_elem_of_lookup in Hr as [i Hi], Hr' as [j Hj].
    assert (i = j) as ->; [|congruence]. eapply (NoDup_lookup _ i j (rv_path r)); [exact Hnd|..];
      rewrite list_lookup_fmap; [by rewrite Hi|rewrite Hj; simpl; congruence].
  - assert (counted (mediaQuotaReservations s) (f :: delete_path (f_path f) (files s))
      = counted (mediaQuotaReservations s) (files s)) as Heq; [|unfold usage in *; by rewrite Heq].
    unfold counted at 1. rewrite filter_cons, decide_False.
    2: { intros [Hn _]. apply Hn. rewrite Hp. by apply list_elem_of_fmap_2. }
    change (filter _ (delete_path (f_path f) (files s))) with (counted (mediaQuotaReservations s) (delete_path (f_path f) (files s))).
    rewrite delete_counted. unfold delete_path, counted. rewrite list_filter_filter. apply list_filter_iff.
    intros g. split; [tauto|]. intros [Hg ?]. split; [|done]. intros Heq. apply Hg. rewrite Heq, Hp.
    by apply list_elem_of_fmap_2.
Qed.

Lemma running_app l k : running (l ++ k) = running l ++ running k.
Proof. apply filter_app. Qed.

(** The reservations left after one is released. *)
Lemma finish_running l1 r l2 :
  running (l1 ++ settle r :: l2) = running l1 ++ running l2 ∧
  (running (l1 ++ r :: l2) = running l1 ++ running l2 ∨ running (l1 ++ r :: l2) = running l1 ++ r :: running l2).
Proof.
  rewrite !running_app. unfold running. rewrite !filter_cons. rewrite decide_False by done. split; [done|].
  case_decide; auto.
Qed.

Lemma finish_ok quota s l1 r l2 :
  mediaQuotaReservations s = l1 ++ r :: l2 → cache_ok quota s →
  cache_ok quota (with_reservations (l1 ++ settle r :: l2) s).
Proof.
  intros Heq [H1 H2 H3 H4 H5]. destruct (finish_running l1 r l2) as [Hnew Hold]. rewrite Heq in *.
  assert (∀ x, x ∈ running l1 ++ running l2 → x ∈ running (l1 ++ r :: l2)) as Hsub.
  { intros x. destruct Hold as [->| ->]; [done|]. rewrite !elem_of_app, elem_of_cons. tauto. }
  split; simpl; rewrite ?Hnew; try done.
  - apply Forall_forall. intros x Hx. rewrite Forall_forall in H3. by apply H3, Hsub.
  - intros x f Hx. apply H4. by apply Hsub.
  - unfold usage in *. rewrite !counted_outside in * by done. rewrite Hnew. destruct Hold as [Hold|Hold]; rewrite Hold in H5; [done|].
    rewrite !sum_by_app in *. simpl in H5.
    rewrite (sum_outside_iff _ (rv_path r :: map rv_path (running l1 ++ running l2))) in H5.
    2: { intros p. rewrite !map_app, elem_of_app. simpl. rewrite !elem_of_cons, elem_of_app. tauto. }
    assert (r ∈ running (l1 ++ r :: l2)) as Hr by (rewrite Hold, elem_of_app, elem_of_cons; auto).
    pose proof (release_le (rv_path r) (rv_bytes r) (map rv_path (running l1 ++ running l2)) (files s)
      ltac:(rewrite Forall_forall in H3; by apply H3) H1 ltac:(intros; by eapply H4)). lia.
Qed.

(** Running reservations are for different paths. *)
Definition paths_ok (s : cache) : Prop := NoDup (map rv_path (running (mediaQuotaReservations s))).

Lemma acquire_reservations quota types target incoming current path walk_ok alive found s :
  let s' := (acquireMediaQuota quota types target incoming current path walk_ok alive found s).2 in
  running (mediaQuotaReservations s') = running (mediaQuotaReservations s) ∨
  ∃ limit, running (mediaQuotaReservations s') =
    {| rv_path := path; rv_bytes := limit; rv_finished := false |} :: running (mediaQuotaReservations s).
Proof.
  unfold acquireMediaQuota. destruct (Z.eqb quota 0); [by left|]. case_bool_decide; [by left|]. case_bool_decide; [by left|].
  destruct walk_ok; simpl; [|left; apply running_idemp].
  match goal with |- context [match ?x with pair _ _ => _ end] =>
    match type of x with (Z * list file * bool)%type => destruct x as [[used fs] needs] end end.
  destruct (negb _); [left; apply running_idemp|]. destruct (_ || _); [left; apply running_idemp|].
  match goal with |- context [match ?x with pair _ _ => _ end] =>
    match type of x with (Z * bool)%type => destruct x as [limit bound] end end.
  right. exists limit. simpl. unfold running at 1. rewrite filter_cons, decide_True by done. f_equal. apply running_idemp.
Qed.

Lemma step_keeps quota s s' :
  0 < quota ≤ max_uint64 → step quota s s' → cache_ok quota s ∧ paths_ok s → cache_ok quota s' ∧ paths_ok s'.
Proof.
  intros Hq Hs [Hok Hnd]. destruct Hs as [types target incoming current path walk alive found s Hi Hc Hp Hpf Hfound
    |r f s Hr Hf Hsz|l1 r l2 s Heq|p s].
  - split; [by apply acquire_ok|]. unfold paths_ok.
    destruct (acquire_reservations quota types target incoming current path walk alive found s) as [->|[limit ->]]; [done|].
    simpl. by constructor.
  - split; [by eapply published_ok|done].
  - split; [by eapply finish_ok|]. unfold paths_ok in *. simpl. destruct (finish_running l1 r l2) as [-> Hold].
    rewrite Heq in Hnd. destruct Hold as [Hold|Hold]; rewrite Hold in Hnd; [done|].
    eapply sublist_NoDup; [exact Hnd|]. apply fmap_sublist. apply sublist_app; [done|]. by constructor.
  - split; [|done]. pose proof (delete_sublist p (files s)) as Hsub. destruct Hok as [H1 H2 H3 H4 H5].
    assert (∀ f, f ∈ delete_path p (files s) → f ∈ files s) as Hin by (intros f [_ ?]%list_elem_of_filter; done).
    split; simpl; try done.
    + by eapply NoDup_paths_sublist.
    + apply Forall_forall. intros f Hf. rewrite Forall_forall in H2. by apply H2, Hin.
    + intros r f Hr Hf. apply H4; [done|by apply Hin].
    + pose proof (usage_sublist (mediaQuotaReservations s) _ _ Hsub). lia.
Qed.

Lemma reachable_keeps quota s0 s :
  0 < quota ≤ max_uint64 → rtc (step quota) s0 s → cache_ok quota s0 ∧ paths_ok s0 → cache_ok quota s ∧ paths_ok s.
Proof. intros Hq Hs. induction Hs; eauto using step_keeps. Qed.

(** A cache with no transfer running. *)
Lemma idle_ok quota s :
  mediaQuotaReservations s = [] → NoDup (map f_path (files s)) → Forall (λ f, 0 ≤ f_size f) (files s) →
  sum_by f_size (files s) ≤ quota → cache_ok quota s ∧ paths_ok s.
Proof.
  intros Hr Hnd Hsz Hsum. unfold paths_ok. rewrite Hr. split; [|constructor]. split; rewrite ?Hr; try done.
  - intros r f Hin. by apply not_elem_of_nil in Hin.
  - unfold usage. pose proof (sum_by_filter_le f_size (λ f, (f_path f ∉ map rv_path (running [])) ∧ 0 ≤ f_size f)
      (files s) Hsz). unfold counted. simpl in *. lia.
Qed.

(** ** Property *)

(** [C26] The quota bounds the automatic cache: starting from a cache within the
    quota and with no transfer running, whatever admissions (with any eviction
    kinds, targets, sizes, failing walks, expiring contexts and files that
    cannot be removed), publications within their reservation, releases and
    removals follow, the bytes on disk never exceed the quota, and neither do
    the bytes reserved by running transfers together with the files of all
    others; the low-water mark an eviction aims at is exactly the configured
    percentage of the quota, without overflow. *)
Theorem quota_respected quota s0 s :
  0 < quota ≤ max_uint64 → mediaQuotaReservations s0 = [] → NoDup (map f_path (files s0)) →
  Forall (λ f, 0 ≤ f_size f) (files s0) → sum_by f_size (files s0) ≤ quota →
  rtc (step quota) s0 s →
  sum_by f_size (files s) ≤ quota ∧ usage (mediaQuotaReservations s) (files s) ≤ quota ∧
  ∀ target, 1 ≤ target ≤ 99 → mediaQuotaLowWater quota target = quota * target / 100.
Proof.
  intros Hq Hr Hnd Hsz Hsum Hsteps.
  destruct (reachable_keeps quota s0 s Hq Hsteps (idle_ok quota s0 Hr Hnd Hsz Hsum)) as [[H1 H2 H3 H4 H5] _].
  split_and!; [|done|intros target Ht; by apply low_water_exact; [lia|]].
  pose proof (disk_le (running (mediaQuotaReservations s)) (files s) H1 H3 H4).
  unfold usage in H5. rewrite counted_outside in H5 by done. lia.
Qed.

Definition sample_cache : cache := {|
  files := [{| f_path := "c1/a.jpg"; f_kind := "image"; f_size := 60; f_at := 1 |};
            {| f_path := "c1/b.jpg"; f_kind := "image"; f_size := 30; f_at := 2 |}];
  mediaQuotaReservations := []; mediaQuotaNeedsLowWater := false |}.

(** An admission that evicts the older of two images. *)
Lemma quota_respected_witness :
  ∃ s, rtc (step 100) sample_cache s ∧ map f_path (files s) = ["c1/b.jpg"] ∧ sum_by f_size (files s) ≤ 100.
Proof.
  eexists. assert (rtc (step 100) sample_cache
    (acquireMediaQuota 100 ["image"] 90 40 0 "c2/c.jpg" true (λ _, true) (λ c, Some (f_size c)) sample_cache).2) as H.
  { apply rtc_once. apply step_admit; [lia|lia|vm_compute; intros Hx; inversion Hx| |congruence].
    vm_compute. intros Hx. repeat (apply elem_of_cons in Hx as [Hx|Hx]; [discriminate Hx|]). inversion Hx. }
  split; [exact H|]. split; [vm_compute; reflexivity|].
  refine (proj1 (quota_respected 100 sample_cache _ _ eq_refl _ _ _ H)).
  - unfold max_uint64. lia.
  - apply (bool_decide_unpack _). vm_compute. exact I.
  - repeat constructor; simpl; lia.
  - vm_compute. discriminate.
Defined.
