(* ===== verification/MediaPath.v ===== *)
(** * Confinement of outbound media paths ([media_path.go])

    A path a client asks the bridge to send is resolved by the file system and
    accepted only below one of the configured roots.  The functions of package
    [path/filepath] are those of Unix; the file system is a parameter. *)
From S2P Require Import Prelude RuntimeSettings.

(** ** Package [filepath] *)

Definition IsAbs (p : string) : bool := has_prefix "/" p.

(** One component of [Clean]: [out] is reversed. *)
Definition clean_step (rooted : bool) (out : list string) (c : string) : list string :=
  if String.eqb c "" || String.eqb c "." then out
  else if String.eqb c ".." then
    match out with
    | [] => if rooted then [] else [".."]
    | d :: rest => if String.eqb d ".." then ".." :: out else rest
    end
  else c :: out.

Definition clean_components (rooted : bool) (cs : list string) : list string :=
  reverse (foldl (clean_step rooted) [] cs).

(** An absolute path from its components. *)
Definition render (cs : list string) : string := String "/" (join "/" cs).

Definition Clean (p : string) : string :=
  let rooted := IsAbs p in
  let cs := clean_components rooted (split_byte "/" p) in
  if rooted then render cs
  else match cs with [] => "." | _ => join "/" cs end.

(** [Join] of two elements: empty ones are ignored. *)
Definition Join (a b : string) : string :=
  if String.eqb a "" then (if String.eqb b "" then "" else Clean b)
  else if String.eqb b "" then Clean a else Clean (a +:+ String "/" b).

(** The components below a cleaned path. *)
Definition components (p : string) : list string := filter (λ c, c ≠ "") (split_byte "/" p).

Fixpoint strip_common (a b : list string) : list string * list string :=
  match a, b with
  | x :: a', y :: b' => if String.eqb x y then strip_common a' b' else (a, b)
  | _, _ => (a, b)
  end.

(** [Rel]; [None] on error. *)
Definition Rel (base targ : string) : option string :=
  let base := Clean base in
  let targ := Clean targ in
  if String.eqb targ base then Some "."
  else
    let base := if String.eqb base "." then "" else base in
    if negb (Bool.eqb (IsAbs base) (IsAbs targ)) then None
    else
      let '(a, b) := strip_common (components base) (components targ) in
      match a with
      | ".." :: _ => None
      | _ => Some (join "/" (replicate (length a) ".." ++ b))
      end.

(** [strings.Contains(s, "..")]. *)
Fixpoint contains_dotdot (s : string) : bool :=
  match s with
  | EmptyString => false
  | String _ t => has_prefix ".." s || contains_dotdot t
  end.

(** ** The bridge *)

(** [pathHasPrefix]. *)
Definition pathHasPrefix (child parent : string) : bool :=
  if String.eqb child parent then true
  else match strip_prefix parent child with
       | None => false
       | Some rest => has_prefix "/" rest
       end.

(** What [os.Stat] says. *)
Inductive stat_result : Type :=
| Regular
| NotRegular
| StatError (e : string).

Section Paths.
(** [EvalSymlinks] ([None] on error), [os.Stat], [os.UserHomeDir], [os.MkdirAll]. *)
Context (EvalSymlinks : string → option string) (Stat : string → stat_result).

(** The loop over the roots. *)
Fixpoint confine (resolved : string) (roots : list string) : string :=
  match roots with
  | [] => ""
  | root :: rest =>
      if negb (pathHasPrefix resolved root) then confine resolved rest
      else match Rel root resolved with
           | None => confine resolved rest
           | Some rel => if contains_dotdot rel then confine resolved rest else Join root rel
           end
  end.

Definition validateMediaPath (mediaPath : string) (allowedRoots : list string) : result string string :=
  if String.eqb mediaPath "" then Err "media_path is empty"
  else if negb (IsAbs mediaPath) then Err "media_path must be absolute"
  else match EvalSymlinks mediaPath with
       | None => Err "resolve media_path"
       | Some r =>
           let resolved := Clean r in
           let confined := confine resolved allowedRoots in
           if String.eqb confined "" then Err "media_path is outside the configured media roots"
           else match Stat confined with
                | StatError e => Err ("stat media_path: " +:+ e)
                | NotRegular => Err "media_path is not a regular file"
                | Regular => Ok confined
                end
       end.

(** [canonicalizePath] of an absolute path: [Abs] cleans it. *)
Definition canonicalizePath (p : string) : string :=
  let abs := Clean p in
  match EvalSymlinks abs with Some r => r | None => abs end.

(** The entries of WHATSAPP_MEDIA_ROOTS. *)
Fixpoint root_entries (validateOnly : bool) (raws : list string) : result string (list string) :=
  match raws with
  | [] => Ok []
  | raw :: rest =>
      let raw := trim_space raw in
      if String.eqb raw "" then root_entries validateOnly rest
      else if negb (IsAbs raw)
      then Err ("WHATSAPP_MEDIA_ROOTS entries must be absolute paths, got " +:+ configValue raw)
      else match root_entries validateOnly rest with
           | Err e => Err e
           | Ok roots => Ok ((if validateOnly then Clean raw else canonicalizePath raw) :: roots)
           end
  end.

Definition defaultOutboxSubpath : string := ".local/share/whatsapp-mcp/outbox".

(** [resolveMediaRootsValue]; [home] is the home directory and [mkdir] the outcome
    of creating the default outbox. *)
Definition resolveMediaRootsValue (value : string) (validateOnly : bool) (home : result string string)
    (mkdir : option string) : result string (list string) :=
  let env := trim_space value in
  if negb (String.eqb env "") then
    match root_entries validateOnly (split_byte ":" env) with
    | Err e => Err e
    | Ok [] => Err "WHATSAPP_MEDIA_ROOTS is set but contains no valid entries"
    | Ok roots => Ok roots
    end
  else match home with
       | Err e => Err ("WHATSAPP_MEDIA_ROOTS: determine home directory: " +:+ e)
       | Ok h =>
           let def := Join h defaultOutboxSubpath in
           if validateOnly then Ok [def]
           else match mkdir with
                | Some e => Err ("create default outbox: " +:+ e)
                | None => Ok [canonicalizePath def]
                end
       end.
End Paths.

(** ** Lemmas *)

Lemma split_byte_concat c s t : split_byte c (s +:+ String c t) = split_byte c s ++ split_byte c t.
Proof.
  induction s as [|a s IH]; [simpl; by rewrite Ascii.eqb_refl|].
  rewrite string_app_cons. simpl. rewrite IH. destruct (Ascii.eqb a c); [done|].
  by destruct (split_byte_cons c s) as (w & ws & ->).
Qed.

(** A cleaned path has no empty component, so it is never the URI of cached media. *)
Lemma clean_nonempty rooted cs : Forall (λ c, contains_byte "/" c = false) cs →
  Forall (λ c, c ≠ "" ∧ contains_byte "/" c = false) (clean_components rooted cs).
Proof.
  intros Hcs. unfold clean_components. apply Forall_reverse.
  assert (Forall (λ c, c ≠ "" ∧ contains_byte "/" c = false) []) as Hout by constructor. revert Hout. generalize (@nil string).
  induction Hcs as [|c cs Hc _ IH]; intros out Hout; simpl; [done|]. apply IH. unfold clean_step.
  destruct (String.eqb_spec c ""); [done|]. destruct (String.eqb c "."); [done|]. simpl.
  destruct (String.eqb c ".."); [|by constructor].
  destruct out as [|d out]; [destruct rooted; by repeat constructor|]. destruct (String.eqb d ".."); [by apply Forall_cons|].
  by apply Forall_cons in Hout as [_ ?].
Qed.

Lemma Clean_not_uri scheme p : contains_byte "/" scheme = false → has_prefix (scheme +:+ "//") (Clean p) = false.
Proof.
  intros Hs. destruct (has_prefix _ _) eqn:Hp; [|done]. exfalso. apply has_prefix_true in Hp as [t Hp].
  apply (f_equal (split_byte "/")) in Hp. rewrite string_app_assoc in Hp.
  change ("//" +:+ t) with (String "/" (String "/" t)) in Hp. rewrite split_byte_concat in Hp.
  cbn [split_byte] in Hp. rewrite Ascii.eqb_refl, (split_byte_none "/" scheme) in Hp by done.
  pose proof (clean_nonempty (IsAbs p) _ (split_byte_no_sep "/" p)) as Hc. unfold Clean in Hp.
  set (cs := clean_components _ _) in *. destruct (split_byte_cons "/" t) as (x & ws & Ht). rewrite Ht in Hp.
  assert (Forall (λ w, contains_byte "/" w = false) cs) as Hn by (eapply Forall_impl; [exact Hc|]; by intros ? [??]).
  destruct (decide (cs = [])) as [He|Hne].
  - rewrite He in Hp. by destruct (IsAbs p).
  - assert (∀ l, cs = l → l !! 0%nat = Some "" ∨ l !! 1%nat = Some "" → False) as Hno.
    { intros l <- [H|H]; (eapply Forall_lookup_1 in H; [|exact Hc]); by destruct H. }
    destruct (IsAbs p).
    + unfold render in Hp. cbn [split_byte] in Hp. rewrite Ascii.eqb_refl, split_join in Hp by done.
      injection Hp as _ Hp. eapply Hno; [exact Hp|]. by left.
    + destruct cs as [|c cs0] eqn:Ecs; [done|]. rewrite <- Ecs in *. rewrite split_join in Hp by done. eapply Hno; [exact Hp|]. by right.
Qed.

(** A component of a cleaned absolute path. *)
Definition name_ok (c : string) : Prop := c ≠ "" ∧ c ≠ "." ∧ c ≠ ".." ∧ contains_byte "/" c = false.

Lemma names_no_slash cs : Forall name_ok cs → Forall (λ w, contains_byte "/" w = false) cs.
Proof. intros H. eapply Forall_impl; [exact H|]. by intros c (_ & _ & _ & ?). Qed.

Lemma split_render cs : Forall name_ok cs → cs ≠ [] → split_byte "/" (render cs) = "" :: cs.
Proof. intros Hok Hne. unfold render. simpl. f_equal. apply split_join; [done|by apply names_no_slash]. Qed.

Lemma clean_fold rooted cs out : Forall name_ok cs → foldl (clean_step rooted) out cs = reverse cs ++ out.
Proof.
  intros Hok. revert out. induction Hok as [|c cs (H1 & H2 & H3 & _) _ IH]; intros out; [done|]. simpl. rewrite IH.
  unfold clean_step. rewrite !(proj2 (String.eqb_neq _ _)) by done. simpl.
  by rewrite reverse_cons, <-app_assoc.
Qed.

(** Cleaning the components of an absolute path. *)
Lemma clean_names cs ds : Forall name_ok cs → clean_components true ("" :: cs ++ ds) =
  reverse (foldl (clean_step true) (reverse cs) ds).
Proof.
  intros Hok. unfold clean_components. simpl. rewrite foldl_app, (clean_fold true cs) by done.
  by rewrite app_nil_r.
Qed.

Lemma Clean_render cs : Forall name_ok cs → Clean (render cs) = render cs.
Proof.
  intros Hok. unfold Clean. change (IsAbs (render cs)) with true. cbv iota.
  destruct (decide (cs = [])) as [->|Hne]; [done|]. rewrite split_render by done.
  rewrite <-(app_nil_r cs) at 1. rewrite clean_names by done. simpl. by rewrite reverse_involutive.
Qed.

Lemma components_render cs : Forall name_ok cs → components (render cs) = cs.
Proof.
  intros Hok. unfold components. destruct (decide (cs = [])) as [->|Hne]; [done|]. rewrite split_render by done.
  rewrite filter_cons, decide_False by (intros []; done).
  clear Hne. induction Hok as [|c cs (H1 & _) _ IH]; [done|]. by rewrite filter_cons, decide_True, IH.
Qed.

Lemma render_inj cs ds : Forall name_ok cs → Forall name_ok ds → render cs = render ds → cs = ds.
Proof. intros Hc Hd Heq. by rewrite <-(components_render cs), Heq, components_render. Qed.

Lemma clean_step_ok out c :
  Forall name_ok out → contains_byte "/" c = false → Forall name_ok (clean_step true out c).
Proof.
  intros Hout Hc. unfold clean_step. destruct (String.eqb_spec c "") as [|H1]; [done|].
  destruct (String.eqb_spec c ".") as [|H2]; [done|]. simpl.
  destruct (String.eqb_spec c "..") as [|H3]; [|by constructor].
  destruct out as [|d out]; [constructor|]. apply Forall_cons in Hout as [(_ & _ & Hd & _) Hout].
  by rewrite (proj2 (String.eqb_neq d "..")).
Qed.

(** A cleaned absolute path is its components. *)
Lemma Clean_abs p : IsAbs p = true → ∃ cs, Forall name_ok cs ∧ Clean p = render cs.
Proof.
  intros Ha. unfold Clean. rewrite Ha. eexists. split; [|done]. unfold clean_components. apply Forall_reverse.
  pose proof (split_byte_no_sep "/" p) as Hs. assert (Forall name_ok []) as Hout by constructor.
  revert Hout. generalize (@nil string). induction Hs as [|c cs Hc _ IH]; intros out Hout; simpl; [done|].
  apply IH. by apply clean_step_ok.
Qed.

Lemma render_app a b : a ≠ [] → b ≠ [] → render (a ++ b) = render a +:+ String "/" (join "/" b).
Proof.
  intros Ha Hb. destruct a as [|x a]; [done|]. destruct b as [|c b]; [done|]. unfold render. rewrite string_app_cons.
  f_equal. clear. revert x. induction a as [|y a IH]; intros x; [done|].
  change (join "/" ((x :: y :: a) ++ c :: b)) with (x +:+ String "/" (join "/" ((y :: a) ++ c :: b))).
  rewrite IH. change (join "/" (x :: y :: a)) with (x +:+ String "/" (join "/" (y :: a))).
  by rewrite string_app_assoc, string_app_cons.
Qed.

(** The prefix test on cleaned paths is the prefix of the components, but a root
    "/" has no descendants. *)
Lemma pathHasPrefix_spec cs a :
  Forall name_ok cs → Forall name_ok a →
  pathHasPrefix (render cs) (render a) = true ↔ (∃ b, cs = a ++ b) ∧ (a = [] → cs = []).
Proof.
  intros Hc Ha. unfold pathHasPrefix. destruct (String.eqb_spec (render cs) (render a)) as [Heq|Hne].
  { apply render_inj in Heq as ->; [|done..]. split; [|done]. intros _. split; [|done]. exists []. by rewrite app_nil_r. }
  split.
  - destruct (strip_prefix (render a) (render cs)) as [rest|] eqn:Hs; [|done]. apply strip_prefix_Some in Hs.
    intros (t & ->)%has_prefix_true. assert (cs ≠ []) as Hcs.
    { intros ->. unfold render in Hs. rewrite string_app_cons in Hs. injection Hs as Hs. by destruct (join "/" a). }
    apply (f_equal (split_byte "/")) in Hs. change ("/" +:+ t) with (String "/" t) in Hs.
    rewrite split_byte_concat, split_render in Hs by done. destruct (decide (a = [])) as [->|Hna].
    + exfalso. simpl in Hs. injection Hs as Hs. rewrite Hs in Hc. by apply Forall_cons in Hc as [(? & _) _].
    + rewrite split_render in Hs by done. injection Hs as Hs. split; [eauto|done].
  - intros [[b ->] Hroot]. assert (b ≠ []) as Hb by (intros ->; rewrite app_nil_r in Hne; done).
    assert (a ≠ []) as Hna. { intros ->. specialize (Hroot eq_refl). by destruct b. }
    rewrite (proj2 (strip_prefix_Some (render a) _ _) (render_app a b Hna Hb)). done.
Qed.

Lemma strip_common_app a b : strip_common a (a ++ b) = ([], b).
Proof. induction a as [|x a IH]; simpl; [done|]. by rewrite String.eqb_refl. Qed.

(** The part of a path below a root. *)
Definition below (b : list string) : string := match b with [] => "." | _ => join "/" b end.

Lemma Rel_render a b : Forall name_ok (a ++ b) → Rel (render a) (render (a ++ b)) = Some (below b).
Proof.
  intros Hab. pose proof Hab as [Ha _]%Forall_app. unfold Rel. rewrite !Clean_render by done.
  destruct (String.eqb_spec (render (a ++ b)) (render a)) as [Heq|Hne].
  - apply render_inj in Heq; [|done..]. rewrite <-(app_nil_r a) in Heq at 2. apply app_inv_head in Heq as ->. done.
  - assert (b ≠ []) as Hb by (intros ->; rewrite app_nil_r in Hne; done).
    rewrite (proj2 (String.eqb_neq (render a) ".")) by done. cbn [IsAbs]. change (IsAbs (render a)) with true.
    change (IsAbs (render (a ++ b))) with true. cbn [Bool.eqb negb]. rewrite !components_render by done.
    rewrite strip_common_app. by destruct b.
Qed.

Lemma Join_below a b : Forall name_ok (a ++ b) → Join (render a) (below b) = render (a ++ b).
Proof.
  intros Hab. pose proof Hab as [Ha Hb]%Forall_app. unfold Join. rewrite (proj2 (String.eqb_neq (render a) "")) by done.
  assert (below b ≠ "") as Hne.
  { destruct b as [|c b]; [done|]. apply Forall_cons in Hb as [(Hc & _) _]. unfold below.
    destruct b; [done|]. change (join "/" _) with (c +:+ String "/" (join "/" (s :: b))). by destruct c. }
  rewrite (proj2 (String.eqb_neq _ _) Hne). unfold Clean.
  assert (IsAbs (render a +:+ String "/" (below b)) = true) as -> by done. cbv iota.
  rewrite split_byte_concat. destruct (decide (a = [])) as [->|Hna].
  - change (split_byte "/" (render [])) with ["";""]. destruct (decide (b = [])) as [->|Hnb]; [done|].
    assert (split_byte "/" (below b) = b) as ->.
    { destruct b; [done|]. apply split_join; [done|by apply names_no_slash]. }
    simpl. f_equal. unfold clean_components. simpl. rewrite clean_fold by done. by rewrite app_nil_r, reverse_involutive.
  - rewrite split_render by done. cbn [app]. rewrite clean_names by done. f_equal.
    destruct (decide (b = [])) as [->|Hnb]; [|].
    { change (foldl (clean_step true) (reverse a) (split_byte "/" (below []))) with (reverse a).
      by rewrite reverse_involutive, app_nil_r. }
    assert (split_byte "/" (below b) = b) as ->.
    { destruct b; [done|]. apply split_join; [done|by apply names_no_slash]. }
    rewrite clean_fold by done. by rewrite <-reverse_app, reverse_involutive.
Qed.

(** Whether a root lets the path through. *)
Definition admits (cs a : list string) : Prop :=
  ∃ b, cs = a ++ b ∧ (a = [] → cs = []) ∧ contains_dotdot (below b) = false.

Lemma confine_spec cs (roots : list (list string)) :
  Forall name_ok cs → Forall (Forall name_ok) roots →
  (confine (render cs) (map render roots) = render cs ∧ ∃ a, a ∈ roots ∧ admits cs a) ∨
  (confine (render cs) (map render roots) = "" ∧ ¬ ∃ a, a ∈ roots ∧ admits cs a).
Proof.
  intros Hc Hr. induction Hr as [|a roots Ha _ IH]; simpl.
  { right. split; [done|]. intros (a & Hin & _). by apply not_elem_of_nil in Hin. }
  assert (¬ admits cs a → (∃ x, x ∈ a :: roots ∧ admits cs x) ↔ ∃ x, x ∈ roots ∧ admits cs x) as Hskip.
  { intros Hn. split; intros (x & Hx & Hadm); [apply elem_of_cons in Hx as [->|Hx]; [done|]|]; exists x; [done|].
    split; [by right|done]. }
  destruct (pathHasPrefix (render cs) (render a)) eqn:Hp; cbn [negb].
  - apply pathHasPrefix_spec in Hp as [[b ->] Hroot]; [|done..]. rewrite Rel_render by done.
    destruct (contains_dotdot (below b)) eqn:Hd.
    + assert (¬ admits (a ++ b) a) as Hn.
      { intros (b' & Heq & _ & Hd'). apply app_inv_head in Heq as ->. congruence. }
      rewrite (Hskip Hn). done.
    + rewrite Join_below by done. left. split; [done|]. exists a. split; [by left|]. by exists b.
  - assert (¬ admits cs a) as Hn.
    { intros (b & Heq & Hroot & _). rewrite (proj2 (pathHasPrefix_spec cs a Hc Ha)) in Hp; [done|]. eauto. }
    rewrite (Hskip Hn). done.
Qed.

Section Confinement.
(** What is documented of the file system: a resolved path is absolute and clean
    when the path is absolute, and the home directory is absolute. *)
Context (EvalSymlinks : string → option string) (Stat : string → stat_result).
Context (Heval : ∀ p q, IsAbs p = true → EvalSymlinks p = Some q → IsAbs q = true ∧ Clean q = q).

Lemma resolved_names p q : IsAbs p = true → EvalSymlinks p = Some q → ∃ cs, Forall name_ok cs ∧ q = render cs.
Proof. intros Ha He. destruct (Heval p q Ha He) as [Hq <-]. by apply Clean_abs. Qed.

Lemma canonical_names p : IsAbs p = true → ∃ cs, Forall name_ok cs ∧ canonicalizePath EvalSymlinks p = render cs.
Proof.
  intros Ha. unfold canonicalizePath. destruct (Clean_abs p Ha) as (cs & Hcs & Heq).
  destruct (EvalSymlinks (Clean p)) as [q|] eqn:He; [|by exists cs].
  eapply resolved_names; [|exact He]. by rewrite Heq.
Qed.

Lemma entries_names raws roots :
  root_entries EvalSymlinks false raws = Ok roots → ∃ rs, Forall (Forall name_ok) rs ∧ roots = map render rs.
Proof.
  revert roots. induction raws as [|raw raws IH]; simpl; intros roots; [intros [= <-]; by exists []|].
  destruct (String.eqb (trim_space raw) ""); [apply IH|]. destruct (IsAbs (trim_space raw)) eqn:Ha; [|done]. cbn [negb].
  destruct (root_entries EvalSymlinks false raws) as [rest|e]; [|done]. intros [= <-].
  destruct (IH rest eq_refl) as (rs & Hrs & ->). destruct (canonical_names _ Ha) as (cs & Hcs & ->).
  exists (cs :: rs). split; [by constructor|done].
Qed.

Lemma roots_names value home mkdir roots :
  (∀ h, home = Ok h → IsAbs h = true) →
  resolveMediaRootsValue EvalSymlinks value false home mkdir = Ok roots →
  ∃ rs, Forall (Forall name_ok) rs ∧ roots = map render rs.
Proof.
  intros Hh. unfold resolveMediaRootsValue. destruct (negb _).
  - destruct (root_entries EvalSymlinks false _) as [[|r l]|e] eqn:Hr; [done| |done]. intros [= <-].
    by eapply entries_names.
  - destruct home as [h|e]; [|done]. destruct mkdir; [done|]. intros [= <-]. specialize (Hh h eq_refl).
    assert (IsAbs (Join h defaultOutboxSubpath) = true) as Ha.
    { unfold Join. destruct (String.eqb_spec h "") as [->|_]; [done|]. simpl.
      destruct (Clean_abs (h +:+ String "/" defaultOutboxSubpath)) as (cs & _ & ->); [|done].
      apply has_prefix_true in Hh as [t ->]. rewrite string_app_assoc. apply has_prefix_true. eauto. }
    destruct (canonical_names _ Ha) as (cs & Hcs & ->). exists [cs]. split; [by repeat constructor|done].
Qed.

(** The accepted paths, by components. *)
Lemma validate_spec p roots c :
  Forall (Forall name_ok) roots →
  validateMediaPath EvalSymlinks Stat p (map render roots) = Ok c ↔
  p ≠ "" ∧ IsAbs p = true ∧ EvalSymlinks p = Some c ∧ Stat c = Regular ∧
  ∃ cs a, Forall name_ok cs ∧ c = render cs ∧ a ∈ roots ∧ admits cs a.
Proof.
  intros Hroots. unfold validateMediaPath. destruct (String.eqb_spec p "") as [|Hp]; [naive_solver|].
  destruct (IsAbs p) eqn:Ha; cbn [negb]; [|naive_solver]. destruct (EvalSymlinks p) as [q|] eqn:He; [|naive_solver].
  destruct (resolved_names p q Ha He) as (cs & Hcs & ->). cbv zeta. rewrite Clean_render by done.
  destruct (confine_spec cs roots Hcs Hroots) as [[-> (a & Ha' & Hadm)]|[-> Hno]].
  - rewrite (proj2 (String.eqb_neq (render cs) "")) by done. split.
    + destruct (Stat (render cs)) eqn:Hs; [|done|done]. intros [= <-]. split_and!; [done..|]. by exists cs, a.
    + intros (_ & _ & [= <-] & -> & _). done.
  - split; [done|]. intros (_ & _ & Heq & _ & cs' & a & Hcs' & -> & Ha' & Hadm). exfalso. apply Hno.
    assert (render cs = render cs') as Heq' by congruence. apply render_inj in Heq' as <-; [|done..]. by exists a.
Qed.
End Confinement.

(** ** Property *)

Lemma contains_dotdot_slash x t : contains_dotdot (x +:+ String "/" t) = contains_dotdot x || contains_dotdot t.
Proof.
  induction x as [|a x IH]; [done|]. rewrite string_app_cons. cbn [contains_dotdot]. rewrite IH, orb_assoc. f_equal. f_equal.
  unfold has_prefix. destruct x as [|b x]; [change ("" +:+ String "/" t) with (String "/" t)|rewrite string_app_cons]; cbn [strip_prefix];
    destruct (Ascii.eqb "." a); try done; (by destruct (Ascii.eqb "." b)).
Qed.

(** The part below a root is free of ".." when each of its names is. *)
Lemma below_plain b : Forall (λ n, contains_dotdot n = false) b → contains_dotdot (below b) = false.
Proof.
  intros Hb. destruct b as [|x b]; [done|]. unfold below. revert x Hb. induction b as [|y b IH]; intros x [Hx Hb]%Forall_cons; [done|].
  change (join "/" (x :: y :: b)) with (x +:+ String "/" (join "/" (y :: b))). by rewrite contains_dotdot_slash, Hx, IH.
Qed.

(** [C35] Outbound media is confined, with the roots the bridge starts with: a path
    that is accepted is absolute, and what is read is the regular file the file system resolves it to, which
    lies below one of the roots component by component (or is that root); and
    every such file below a root other than "/" is accepted when no name below the root holds
    two dots in a row.  Nothing is claimed for the remaining files, those below a root "/" and
    those with two dots in a name, which the code refuses although its comments promise otherwise. *)
Theorem media_path_confined EvalSymlinks Stat value home mkdir roots p c :
  (∀ p q, IsAbs p = true → EvalSymlinks p = Some q → IsAbs q = true ∧ Clean q = q) →
  (∀ h, home = Ok h → IsAbs h = true) →
  resolveMediaRootsValue EvalSymlinks value false home mkdir = Ok roots →
  (validateMediaPath EvalSymlinks Stat p roots = Ok c →
   IsAbs p = true ∧ EvalSymlinks p = Some c ∧ Stat c = Regular ∧
   ∃ root b, root ∈ roots ∧ components c = components root ++ b) ∧
  (∀ root b, IsAbs p = true → EvalSymlinks p = Some c → Stat c = Regular →
   root ∈ roots → root ≠ "/" → components c = components root ++ b → Forall (λ n, contains_dotdot n = false) b →
   validateMediaPath EvalSymlinks Stat p roots = Ok c).
Proof.
  intros Heval Hhome Hroots. destruct (roots_names EvalSymlinks Heval value home mkdir roots Hhome Hroots) as (rs & Hrs & ->).
  split.
  - intros (Hp & Ha & He & Hs & cs & a & Hcs & -> & Hin & b & -> & _)%(validate_spec EvalSymlinks Stat Heval); [|done].
    split_and!; [done..|]. exists (render a), b. pose proof Hcs as [Hna _]%Forall_app. rewrite !components_render by done.
    split; [by apply list_elem_of_fmap_2|done].
  - intros root b Ha He Hs Hin Hroot Hc Hd. apply (validate_spec EvalSymlinks Stat Heval); [done|].
    split_and!; [by intros ->|done..|].
    destruct (resolved_names EvalSymlinks Heval p c Ha He) as (cs & Hcs & ->).
    apply list_elem_of_fmap in Hin as (a & -> & Hin). assert (Forall name_ok a) as Hna by (rewrite Forall_forall in Hrs; by apply Hrs).
    rewrite !components_render in Hc by done. exists cs, a. split_and!; [done..|]. exists b. split_and!; [done| |by apply below_plain].
    intros ->. by destruct (Hroot eq_refl).
Qed.

(** A file system without links: every absolute path is itself, cleaned. *)
Definition plain_fs (p : string) : option string := if IsAbs p then Some (Clean p) else None.

Lemma plain_fs_ok p q : IsAbs p = true → plain_fs p = Some q → IsAbs q = true ∧ Clean q = q.
Proof.
  unfold plain_fs. intros Ha. rewrite Ha. intros [= <-]. destruct (Clean_abs p Ha) as (cs & Hcs & ->).
  split; [done|]. by apply Clean_render.
Qed.

Lemma media_path_confined_witness :
  (∃ root b, root ∈ ["/srv/outbox"] ∧ components "/srv/outbox/a/pic.jpg" = components root ++ b) ∧
  validateMediaPath plain_fs (λ _, Regular) "/srv/outbox/../outbox/a/pic.jpg" ["/srv/outbox"] = Ok "/srv/outbox/a/pic.jpg".
Proof.
  destruct (media_path_confined plain_fs (λ _, Regular) " /srv//outbox/ " (Err "no home") None ["/srv/outbox"]
    "/srv/outbox/../outbox/a/pic.jpg" "/srv/outbox/a/pic.jpg" plain_fs_ok (λ h (H : Err "no home" = Ok h), ltac:(discriminate H))
    ltac:(vm_compute; reflexivity)) as [Hsound Hcomplete]. split.
  - destruct (Hsound ltac:(vm_compute; reflexivity)) as (_ & _ & _ & root & b & Hin & Hc). exists root, b. split; [exact Hin|exact Hc].
  - apply (Hcomplete "/srv/outbox" ["a"; "pic.jpg"]); try (vm_compute; reflexivity); [by left|done|by repeat constructor].
Defined.

(** A root "/" is accepted at startup but lets no file through. *)
Lemma slash_root_admits_nothing :
  resolveMediaRootsValue plain_fs "/" false (Err "no home") None = Ok ["/"] ∧
  is_ok (validateMediaPath plain_fs (λ _, Regular) "/srv/pic.jpg" ["/"]) = false.
Proof. split; vm_compute; reflexivity. Qed.

(** A real descendant whose name holds two dots in a row is refused. *)
Lemma dotted_name_refused :
  is_ok (validateMediaPath plain_fs (λ _, Regular) "/srv/outbox/report..pdf" ["/srv/outbox"]) = false.
Proof. vm_compute. reflexivity. Qed.
