(* ===== verification/StoreTime.v ===== *)
(** * The canonical spelling of stored times ([store_time.go])

    Every time in the archive is written by [dbTime]: UTC, whole seconds,
    explicit offset.  SQL compares these strings; [dbTime_compare] shows that
    the comparison is that of the instants, so the other files keep a stored
    time as its second.  Instants are nanoseconds since 1970. *)
From S2P Require Import Prelude.
#[local] Open Scope Z_scope.

(** ** Rendering *)

(** The last [w] decimal digits of [n]. *)
Definition digit (n : Z) : ascii := byte_of (48 + n).

Fixpoint fixed (w : nat) (n : Z) : string :=
  match w with
  | O => ""
  | S w => String (digit (n / 10 ^ Z.of_nat w mod 10)) (fixed w (n mod 10 ^ Z.of_nat w))
  end.

(** Package [time]'s [appendInt]. *)
Definition appendInt (x : Z) (w : nat) : string :=
  let pad u := if bool_decide (u < 10 ^ Z.of_nat w) then fixed w u else pretty.pretty u in
  if bool_decide (x < 0) then String "-" (pad (- x)) else pad x.

(** The civil date of a day number, in years that begin in March: the 400-year
    cycle, the century, the four years and the year within them. *)
Definition march_year (days : Z) : Z * Z :=
  let z := days + 719468 in
  let doe := z mod 146097 in
  let c := Z.min 3 (doe / 36524) in
  let doc := doe - 36524 * c in
  let q := doc / 1461 in
  let y := Z.min 3 (doc mod 1461 / 365) in
  (400 * (z / 146097) + 100 * c + 4 * q + y, doc mod 1461 - 365 * y).

(** Year, month and day of the month. *)
Definition civil (days : Z) : Z * Z * Z :=
  let '(y, doy) := march_year days in
  let mp := (5 * doy + 2) / 153 in
  let d := doy - (153 * mp + 2) / 5 + 1 in
  if bool_decide (mp < 10) then (y, mp + 3, d) else (y + 1, mp - 9, d).

(** The second a stored time stands for. *)
Definition stamp (t : Z) : Z := t / 10 ^ 9.

(** [dbTime]: layout "2006-01-02 15:04:05-07:00" in UTC. *)
Definition dbTime (t : Z) : string :=
  let s := stamp t in
  let '(y, m, d) := civil (s / 86400) in
  let sod := s mod 86400 in
  appendInt y 4 +:+ String "-" (appendInt m 2 +:+ String "-" (appendInt d 2 +:+ String " "
    (appendInt (sod / 3600) 2 +:+ String ":" (appendInt (sod / 60 mod 60) 2 +:+ String ":"
    (appendInt (sod mod 60) 2 +:+ "+00:00"))))).

(** The instants of the years 0 to 9999. *)
Definition four_digit_year (t : Z) : Prop := -62167219200 ≤ stamp t < 253402300800.

Example dbTime_epoch : dbTime 0 = "1970-01-01 00:00:00+00:00". Proof. vm_compute. reflexivity. Qed.
Example dbTime_leap : dbTime (951868799999999999) = "2000-02-29 23:59:59+00:00". Proof. vm_compute. reflexivity. Qed.
Example dbTime_first : dbTime (-62167219200 * 10 ^ 9) = "0000-01-01 00:00:00+00:00". Proof. vm_compute. reflexivity. Qed.
Example dbTime_last : dbTime (253402300799 * 10 ^ 9) = "9999-12-31 23:59:59+00:00". Proof. vm_compute. reflexivity. Qed.
Example dbTime_overflow : dbTime (253402300800 * 10 ^ 9) = "10000-01-01 00:00:00+00:00". Proof. vm_compute. reflexivity. Qed.

(** ** The order of the strings *)

Definition lex (c d : comparison) : comparison := match c with Eq => d | _ => c end.

Lemma lex_assoc a b c : lex (lex a b) c = lex a (lex b c).
Proof. by destruct a. Qed.

Lemma digit_compare a b : 0 ≤ a < 10 → 0 ≤ b < 10 → Ascii.compare (digit a) (digit b) = (a ?= b).
Proof.
  intros Ha Hb. unfold Ascii.compare, digit, byte_of. rewrite !Ascii.N_ascii_embedding by lia.
  rewrite <-N2Z.inj_compare, !Z2N.id by lia.
  destruct (Z.compare_spec a b); destruct (Z.compare_spec (48 + a) (48 + b)); lia || done.
Qed.

Lemma compare_cons a b s t :
  String.compare (String a s) (String b t) = lex (Ascii.compare a b) (String.compare s t).
Proof. simpl. by destruct (Ascii.compare a b). Qed.

Lemma compare_same a s t : String.compare (String a s) (String a t) = String.compare s t.
Proof. rewrite compare_cons. unfold Ascii.compare. by rewrite N.compare_refl. Qed.

(** Fields of one width compare as numbers. *)
Lemma fixed_compare w n m s t :
  0 ≤ n < 10 ^ Z.of_nat w → 0 ≤ m < 10 ^ Z.of_nat w →
  String.compare (fixed w n +:+ s) (fixed w m +:+ t) = lex (n ?= m) (String.compare s t).
Proof.
  revert n m. induction w as [|w IH]; intros n m Hn Hm.
  { change (10 ^ Z.of_nat 0) with 1 in *. assert (n = 0 ∧ m = 0) as [-> ->] by lia. done. }
  rewrite Nat2Z.inj_succ, Z.pow_succ_r in Hn, Hm by lia. cbn [fixed]. rewrite !string_app_cons, compare_cons.
  set (P := 10 ^ Z.of_nat w) in *. assert (0 < P) as HP by (apply Z.pow_pos_nonneg; lia).
  assert (0 ≤ n / P < 10) as Hdn by (split; [apply Z.div_pos|apply Z.div_lt_upper_bound]; lia).
  assert (0 ≤ m / P < 10) as Hdm by (split; [apply Z.div_pos|apply Z.div_lt_upper_bound]; lia).
  rewrite !(Z.mod_small (_ / P)) by done. rewrite digit_compare by done.
  rewrite IH by (apply Z.mod_pos_bound; lia). rewrite <-lex_assoc. f_equal.
  pose proof (Z.div_mod n P ltac:(lia)). pose proof (Z.div_mod m P ltac:(lia)).
  pose proof (Z.mod_pos_bound n P HP). pose proof (Z.mod_pos_bound m P HP).
  unfold lex. destruct (Z.compare_spec (n / P) (m / P)) as [Heq|Hlt|Hgt].
  - rewrite Heq in *. destruct (Z.compare_spec (n mod P) (m mod P)); destruct (Z.compare_spec n m); lia || done.
  - symmetry. apply Z.compare_lt_iff. nia.
  - symmetry. apply Z.compare_gt_iff. nia.
Qed.

Lemma appendInt_fixed x w : 0 ≤ x < 10 ^ Z.of_nat w → appendInt x w = fixed w x.
Proof. intros Hx. unfold appendInt. by rewrite bool_decide_false, bool_decide_true by lia. Qed.

(** ** The calendar *)

(** Days before the March year [y]. *)
Definition year_start (y : Z) : Z := 365 * y + y / 4 - y / 100 + y / 400.

Lemma year_start_split e c q r :
  0 ≤ c ≤ 3 → 0 ≤ q ≤ 24 → 0 ≤ r ≤ 3 →
  year_start (400 * e + 100 * c + 4 * q + r) = 146097 * e + 36524 * c + 1461 * q + 365 * r.
Proof. intros. unfold year_start. Z.to_euclidean_division_equations. lia. Qed.

Lemma year_start_next y : year_start y + 365 ≤ year_start (y + 1) ≤ year_start y + 366.
Proof. unfold year_start. Z.to_euclidean_division_equations. lia. Qed.

Lemma march_year_spec days :
  let '(y, doy) := march_year days in
  year_start y + doy = days + 719468 ∧ 0 ≤ doy < year_start (y + 1) - year_start y.
Proof.
  unfold march_year. set (z := days + 719468). set (doe := z mod 146097). set (e := z / 146097).
  assert (z = 146097 * e + doe) as Hz by (subst e doe; apply Z.div_mod; lia).
  assert (0 ≤ doe < 146097) as Hdoe by (apply Z.mod_pos_bound; lia). clearbody doe e z.
  set (c := Z.min 3 (doe / 36524)). set (doc := doe - 36524 * c).
  assert (0 ≤ c ≤ 3 ∧ 0 ≤ doc ∧ (doc < 36524 ∨ c = 3 ∧ doc < 36525)) as (Hc & Hdoc & Hdoc').
  { subst doc c. Z.to_euclidean_division_equations. lia. }
  assert (doe = 36524 * c + doc) as Hd by (subst doc; lia). clearbody doc c.
  set (q := doc / 1461). set (doq := doc mod 1461).
  assert (doc = 1461 * q + doq ∧ 0 ≤ doq < 1461) as [Hq Hdoq].
  { subst q doq. split; [apply Z.div_mod; lia|apply Z.mod_pos_bound; lia]. }
  clearbody q doq. set (r := Z.min 3 (doq / 365)).
  assert (0 ≤ r ≤ 3 ∧ 0 ≤ doq - 365 * r ∧ (doq - 365 * r < 365 ∨ r = 3 ∧ doq - 365 * r = 365)) as (Hr & Hy & Hy').
  { subst r. Z.to_euclidean_division_equations. lia. }
  clearbody r. assert (0 ≤ q ≤ 24) as Hq' by lia. rewrite year_start_split by lia.
  split; [lia|]. split; [lia|]. unfold year_start. Z.to_euclidean_division_equations. lia.
Qed.

(** Days before a month, counted from March of the year 0. *)
Definition month_start (k : Z) : Z := year_start (k / 12) + (153 * (k mod 12) + 2) / 5.

Lemma month_start_next k : month_start k < month_start (k + 1).
Proof.
  unfold month_start. pose proof (year_start_next (k / 12)) as Hy.
  assert (k mod 12 < 11 ∧ (k + 1) / 12 = k / 12 ∧ (k + 1) mod 12 = k mod 12 + 1
          ∨ k mod 12 = 11 ∧ (k + 1) / 12 = k / 12 + 1 ∧ (k + 1) mod 12 = 0) as [(? & -> & ->)|(-> & -> & ->)];
    Z.to_euclidean_division_equations; lia.
Qed.

Lemma month_start_mono k k' : k < k' → month_start (k + 1) ≤ month_start k'.
Proof.
  intros Hk. apply (Zlt_lower_bound_ind (λ k', k < k' → month_start (k + 1) ≤ month_start k') (k + 1)); [|lia|done].
  clear. intros x IH Hx _. destruct (decide (x = k + 1)) as [->|]; [done|].
  pose proof (IH (x - 1) ltac:(lia) ltac:(lia)). pose proof (month_start_next (x - 1)) as Hn.
  replace (x - 1 + 1) with x in Hn by lia. lia.
Qed.

Lemma civil_spec days :
  let '(y, m, d) := civil days in
  let k := 12 * y + m - 3 in
  month_start k + d - 1 = days + 719468 ∧ days + 719468 < month_start (k + 1) ∧ 1 ≤ m ≤ 12 ∧ 1 ≤ d ≤ 31.
Proof.
  unfold civil. pose proof (march_year_spec days) as Hm. destruct (march_year days) as [y doy].
  destruct Hm as [Hz Hdoy]. pose proof (year_start_next y) as Hy. set (mp := (5 * doy + 2) / 153).
  assert (0 ≤ mp ≤ 11) as Hmp by (subst mp; Z.to_euclidean_division_equations; lia).
  assert ((153 * mp + 2) / 5 ≤ doy ≤ (153 * mp + 2) / 5 + 30 ∧ doy < (153 * (mp + 1) + 2) / 5) as [Hd Hd'].
  { subst mp. Z.to_euclidean_division_equations. lia. }
  clearbody mp.
  assert (month_start (12 * y + mp) = year_start y + (153 * mp + 2) / 5) as Hk.
  { unfold month_start. replace ((12 * y + mp) / 12) with y by (Z.to_euclidean_division_equations; lia).
    by replace ((12 * y + mp) mod 12) with mp by (Z.to_euclidean_division_equations; lia). }
  assert (days + 719468 < month_start (12 * y + mp + 1)) as Hk'.
  { unfold month_start. destruct (decide (mp = 11)) as [->|].
    - replace ((12 * y + 11 + 1) / 12) with (y + 1) by (Z.to_euclidean_division_equations; lia).
      replace ((12 * y + 11 + 1) mod 12) with 0 by (Z.to_euclidean_division_equations; lia).
      Z.to_euclidean_division_equations; lia.
    - replace ((12 * y + mp + 1) / 12) with y by (Z.to_euclidean_division_equations; lia).
      replace ((12 * y + mp + 1) mod 12) with (mp + 1) by (Z.to_euclidean_division_equations; lia). lia. }
  case_bool_decide; simpl.
  - replace (12 * y + (mp + 3) - 3) with (12 * y + mp) by lia. lia.
  - replace (12 * (y + 1) + (mp - 9) - 3) with (12 * y + mp) by lia. lia.
Qed.

(** Dates compare as days do. *)
Lemma civil_compare a b :
  let '(y, m, d) := civil a in
  let '(y', m', d') := civil b in
  lex (y ?= y') (lex (m ?= m') (d ?= d')) = (a ?= b).
Proof.
  pose proof (civil_spec a) as Ha. pose proof (civil_spec b) as Hb.
  destruct (civil a) as [[y m] d], (civil b) as [[y' m'] d']. cbv zeta in Ha, Hb.
  destruct Ha as (Ha & Ha' & Hm & Hd), Hb as (Hb & Hb' & Hm' & Hd').
  set (k := 12 * y + m - 3) in *. set (k' := 12 * y' + m' - 3) in *.
  destruct (Z.lt_trichotomy k k') as [Hlt|[Heq|Hgt]].
  - pose proof (month_start_mono k k' Hlt). rewrite (proj2 (Z.compare_lt_iff a b)) by lia.
    unfold lex. destruct (Z.compare_spec y y'); [|done|lia].
    destruct (Z.compare_spec m m'); [lia|done|lia].
  - assert (y = y' ∧ m = m') as [-> ->] by lia. rewrite !Z.compare_refl. unfold lex. rewrite <-Heq in Hb.
    destruct (Z.compare_spec d d'); destruct (Z.compare_spec a b); lia || done.
  - pose proof (month_start_mono k' k Hgt). rewrite (proj2 (Z.compare_gt_iff a b)) by lia.
    unfold lex. destruct (Z.compare_spec y y'); [|lia|done].
    destruct (Z.compare_spec m m'); [lia|lia|done].
Qed.

(** Years 0 to 9999 have four digits. *)
Lemma civil_year t : four_digit_year t → let '(y, _, _) := civil (stamp t / 86400) in 0 ≤ y < 10000.
Proof.
  intros Ht. pose proof (civil_compare (stamp t / 86400) (-719528)) as Hlo.
  pose proof (civil_compare (stamp t / 86400) 2932896) as Hhi.
  change (civil (-719528)) with (0, 1, 1) in Hlo. change (civil 2932896) with (9999, 12, 31) in Hhi.
  destruct (civil (stamp t / 86400)) as [[y m] d]. unfold four_digit_year in Ht.
  assert (-719528 ≤ stamp t / 86400 ≤ 2932896) as [H1 H2] by (Z.to_euclidean_division_equations; lia).
  unfold lex in *. split.
  - destruct (Z.compare_spec y 0); [lia| |lia]. symmetry in Hlo. rewrite Z.compare_lt_iff in Hlo. lia.
  - destruct (Z.compare_spec y 9999); [lia|lia|]. symmetry in Hhi. rewrite Z.compare_gt_iff in Hhi. lia.
Qed.

Lemma time_of_day_compare a b :
  0 ≤ a < 86400 → 0 ≤ b < 86400 →
  lex (a / 3600 ?= b / 3600) (lex (a / 60 mod 60 ?= b / 60 mod 60) (a mod 60 ?= b mod 60)) = (a ?= b).
Proof.
  intros Ha Hb. unfold lex. destruct (Z.compare_spec (a / 3600) (b / 3600)).
  - destruct (Z.compare_spec (a / 60 mod 60) (b / 60 mod 60)).
    + destruct (Z.compare_spec (a mod 60) (b mod 60)); symmetry;
        [apply Z.compare_eq_iff|apply Z.compare_lt_iff|apply Z.compare_gt_iff]; Z.to_euclidean_division_equations; lia.
    + symmetry. apply Z.compare_lt_iff. Z.to_euclidean_division_equations. lia.
    + symmetry. apply Z.compare_gt_iff. Z.to_euclidean_division_equations. lia.
  - symmetry. apply Z.compare_lt_iff. Z.to_euclidean_division_equations. lia.
  - symmetry. apply Z.compare_gt_iff. Z.to_euclidean_division_equations. lia.
Qed.

(** The fields of a rendered time. *)
Definition fields (y m d h mi s : Z) : string :=
  fixed 4 y +:+ String "-" (fixed 2 m +:+ String "-" (fixed 2 d +:+ String " "
    (fixed 2 h +:+ String ":" (fixed 2 mi +:+ String ":" (fixed 2 s +:+ "+00:00"))))).

Lemma dbTime_fields t : four_digit_year t →
  let '(y, m, d) := civil (stamp t / 86400) in
  let sod := stamp t mod 86400 in
  dbTime t = fields y m d (sod / 3600) (sod / 60 mod 60) (sod mod 60).
Proof.
  intros Ht. pose proof (civil_year t Ht) as Hy. pose proof (civil_spec (stamp t / 86400)) as Hs.
  unfold dbTime, fields. destruct (civil (stamp t / 86400)) as [[y m] d]. destruct Hs as (_ & _ & Hm & Hd). cbv zeta.
  assert (0 ≤ stamp t mod 86400 < 86400) as Hsod by (apply Z.mod_pos_bound; lia).
  rewrite !appendInt_fixed; [done|..]; change (10 ^ Z.of_nat 2) with 100; change (10 ^ Z.of_nat 4) with 10000;
    Z.to_euclidean_division_equations; lia.
Qed.

(** The strings SQL compares sort like the instants they stand for: within
    the years 0 to 9999 two stored times compare as their whole seconds do, and
    so are equal exactly for the same second. *)
Theorem dbTime_compare t u :
  four_digit_year t → four_digit_year u → String.compare (dbTime t) (dbTime u) = (stamp t ?= stamp u).
Proof.
  intros Ht Hu. pose proof (dbTime_fields t Ht) as Eft. pose proof (dbTime_fields u Hu) as Efu.
  pose proof (civil_compare (stamp t / 86400) (stamp u / 86400)) as Hc.
  pose proof (civil_year t Ht) as Hyt. pose proof (civil_year u Hu) as Hyu.
  pose proof (civil_spec (stamp t / 86400)) as Hst. pose proof (civil_spec (stamp u / 86400)) as Hsu.
  destruct (civil (stamp t / 86400)) as [[y m] d], (civil (stamp u / 86400)) as [[y' m'] d'].
  destruct Hst as (_ & _ & Hm & Hd), Hsu as (_ & _ & Hm' & Hd'). cbv zeta in *. rewrite Eft, Efu. unfold fields.
  set (a := stamp t mod 86400) in *. set (b := stamp u mod 86400) in *.
  assert (0 ≤ a < 86400) as Ha by (apply Z.mod_pos_bound; lia).
  assert (0 ≤ b < 86400) as Hb by (apply Z.mod_pos_bound; lia).
  pose proof (time_of_day_compare a b Ha Hb) as Hd0.
  rewrite fixed_compare by (change (10 ^ Z.of_nat 4) with 10000; lia). rewrite compare_same.
  do 5 (rewrite fixed_compare by (change (10 ^ Z.of_nat 2) with 100; Z.to_euclidean_division_equations; lia);
        try rewrite compare_same).
  change (String.compare "00:00" "00:00") with Eq.
  assert (∀ c, lex c Eq = c) as Hr by (by intros []). rewrite Hr, Hd0, <-lex_assoc, <-lex_assoc, (lex_assoc (y ?= y')), Hc.
  pose proof (Z.div_mod (stamp t) 86400 ltac:(lia)). pose proof (Z.div_mod (stamp u) 86400 ltac:(lia)).
  unfold lex. destruct (Z.compare_spec (stamp t / 86400) (stamp u / 86400)) as [He| |];
    [destruct (Z.compare_spec a b)|..]; symmetry; rewrite ?Z.compare_eq_iff, ?Z.compare_lt_iff, ?Z.compare_gt_iff; lia.
Qed.

Lemma dbTime_compare_witness :
  four_digit_year 0 ∧ String.compare (dbTime 0) (dbTime 951868799999999999) = (stamp 0 ?= stamp 951868799999999999).
Proof. split; [by vm_compute|]. apply dbTime_compare; by vm_compute. Defined.

(** ** The canonical form *)

(** [canonicalTimeGlob]: [None] is [[0-9]]. *)
Definition canonicalTimeGlob : list (option ascii) :=
  let D := None in
  [D; D; D; D; Some "-"%char; D; D; Some "-"%char; D; D; Some " "%char; D; D; Some ":"%char; D; D; Some ":"%char; D; D;
   Some "+"%char; Some "0"%char; Some "0"%char; Some ":"%char; Some "0"%char; Some "0"%char].

Definition glob_digit (a : ascii) : bool := bool_decide (48 ≤ byte_code a ≤ 57).

Fixpoint glob (pat : list (option ascii)) (s : string) : bool :=
  match pat, s with
  | [], EmptyString => true
  | None :: pat, String a s => glob_digit a && glob pat s
  | Some c :: pat, String a s => Ascii.eqb a c && glob pat s
  | _, _ => false
  end.

Definition canonical : string → bool := glob canonicalTimeGlob.

Lemma glob_fixed w n pat s : 0 ≤ n < 10 ^ Z.of_nat w →
  glob (replicate w None ++ pat) (fixed w n +:+ s) = glob pat s.
Proof.
  revert n. induction w as [|w IH]; intros n Hn; [done|].
  rewrite Nat2Z.inj_succ, Z.pow_succ_r in Hn by lia. cbn [fixed replicate app]. rewrite string_app_cons. cbn [glob].
  rewrite IH by (apply Z.mod_pos_bound, Z.pow_pos_nonneg; lia).
  pose proof (Z.mod_pos_bound (n / 10 ^ Z.of_nat w) 10 ltac:(lia)) as Hd. unfold glob_digit, digit.
  rewrite byte_code_of by lia. by rewrite bool_decide_true by lia.
Qed.

Lemma dbTime_canonical t : four_digit_year t → canonical (dbTime t) = true.
Proof.
  intros Ht. pose proof (dbTime_fields t Ht) as Ef. pose proof (civil_year t Ht) as Hy.
  pose proof (civil_spec (stamp t / 86400)) as Hs. destruct (civil (stamp t / 86400)) as [[y m] d].
  destruct Hs as (_ & _ & Hm & Hd). cbv zeta in Ef. rewrite Ef. unfold fields, canonical, canonicalTimeGlob.
  assert (0 ≤ stamp t mod 86400 < 86400) as Hsod by (apply Z.mod_pos_bound; lia).
  set (D := None : option ascii).
  change (glob (replicate 4 D ++ Some "-"%char :: replicate 2 D ++ Some "-"%char :: replicate 2 D ++ Some " "%char ::
    replicate 2 D ++ Some ":"%char :: replicate 2 D ++ Some ":"%char :: replicate 2 D ++
    [Some "+"%char; Some "0"%char; Some "0"%char; Some ":"%char; Some "0"%char; Some "0"%char])
    (fields y m d (stamp t mod 86400 / 3600) (stamp t mod 86400 / 60 mod 60) (stamp t mod 86400 mod 60)) = true).
  unfold fields. rewrite glob_fixed by (change (10 ^ Z.of_nat 4) with 10000; lia).
  do 5 (cbn [glob]; rewrite Ascii.eqb_refl; cbn [andb];
        rewrite glob_fixed by (change (10 ^ Z.of_nat 2) with 100; Z.to_euclidean_division_equations; lia)).
  done.
Qed.

(** ** The rewrite of older spellings

    A column is the list of its rows in [rowid] order, NULL as [None]. *)

Abbreviation column := (list (Z * option string)).

Definition canonicalTimeChunk : nat := 5000.

Section Rewrite.
(** [parseDBTime]: package [time] on the layouts of [dbTimeLayouts]; [None] is the error. *)
Context (parseDBTime : string → option Z).

(** A value the rewrite selects. *)
Definition legacy (v : option string) : bool :=
  match v with Some s => negb (canonical s) | None => false end.

(** [hasLegacyTimeValue]. *)
Definition hasLegacyTimeValue (rows : column) : bool := existsb (λ r, legacy r.2) rows.

(** [pendingTimeRows]: one page after the cursor. *)
Definition pendingTimeRows (chunk : nat) (cursor : Z) (rows : column) : column :=
  take chunk (filter (λ r, cursor < r.1 ∧ legacy r.2 = true) rows).

(** UPDATE ... WHERE rowid = ?. *)
Definition set_row (id : Z) (v : string) (rows : column) : column :=
  map (λ r, if Z.eqb r.1 id then (id, Some v) else r) rows.

(** One page: the rows, how many values were rewritten and how many skipped. *)
Definition rewrite_page (batch : column) (st : column * nat * nat) : column * nat * nat :=
  foldl (λ st r,
    let '(rows, rewritten, skipped) := st in
    match r.2 ≫= parseDBTime with
    | Some t => (set_row r.1 (dbTime t) rows, S rewritten, skipped)
    | None => (rows, rewritten, S skipped)
    end) st batch.

(** [rewriteToCanonicalTime]: [pages] is how many transactions commit before one
    fails, [None] when none does; an error keeps the pages committed so far. *)
Fixpoint rewrite_loop (fuel chunk : nat) (pages : option nat) (cursor : Z) (st : column * nat * nat) :
    option (result column (column * nat * nat)) :=
  match fuel with
  | O => None
  | S fuel =>
      let batch := pendingTimeRows chunk cursor st.1.1 in
      match last batch with
      | None => Some (Ok st)
      | Some r =>
          match pages with
          | Some O => Some (Err st.1.1)
          | _ => rewrite_loop fuel chunk (Nat.pred <$> pages) r.1 (rewrite_page batch st)
          end
      end
  end.

Definition rewriteToCanonicalTime (pages : option nat) (rows : column) : option (result column (column * nat * nat)) :=
  rewrite_loop (S (length rows)) canonicalTimeChunk pages (- 2 ^ 63) (rows, O, O).

(** What the pass does to one row. *)
Definition canonical_row (r : Z * option string) : Z * option string :=
  if legacy r.2 then
    match r.2 ≫= parseDBTime with Some t => (r.1, Some (dbTime t)) | None => r end
  else r.

(** Values the pass rewrites, and values it cannot read. *)
Definition readable (r : Z * option string) : bool := legacy r.2 && bool_decide (is_Some (r.2 ≫= parseDBTime)).
Definition unreadable (r : Z * option string) : bool := legacy r.2 && bool_decide ((r.2 ≫= parseDBTime) = None).

(** The rows up to a cursor rewritten, the others as they were. *)
Definition upto (cursor : Z) (rows : column) : column :=
  map (λ r, if bool_decide (r.1 ≤ cursor) then canonical_row r else r) rows.
Definition counted (f : Z * option string → bool) (cursor : Z) (rows : column) : nat :=
  length (filter (λ r, r.1 ≤ cursor ∧ f r = true) rows).

Definition ordered (rows : column) : Prop := StronglySorted Z.lt (map fst rows).

(** The rows still to be visited. *)
Definition todo (cursor : Z) (rows : column) : column := filter (λ r, cursor < r.1 ∧ legacy r.2 = true) rows.

Lemma ordered_cons r rows : ordered (r :: rows) → ordered rows ∧ Forall (λ q, r.1 < q.1) rows.
Proof. unfold ordered. simpl. intros [Hs Hf]%StronglySorted_inv. split; [done|]. by apply (Forall_fmap fst) in Hf. Qed.

Lemma canonical_row_id r : (canonical_row r).1 = r.1.
Proof. unfold canonical_row. destruct (legacy r.2); [|done]. by destruct (r.2 ≫= parseDBTime). Qed.

Lemma upto_later c rows : Forall (λ q, c < q.1) rows → upto c rows = rows.
Proof. induction 1 as [|r rows Hr _ IH]; simpl; [done|]. by rewrite IH, bool_decide_false by lia. Qed.

Lemma set_row_later id v rows : Forall (λ q, id < q.1) rows → set_row id v rows = rows.
Proof. induction 1 as [|r rows Hr _ IH]; simpl; [done|]. by rewrite IH, (proj2 (Z.eqb_neq _ _)) by lia. Qed.

Lemma counted_later f c rows : Forall (λ q, c < q.1) rows → counted f c rows = O.
Proof.
  unfold counted. induction 1 as [|r rows Hr _ IH]; [done|]. rewrite filter_cons, decide_False; [done|]. lia.
Qed.

Lemma counted_cons f c r rows :
  counted f c (r :: rows) = Nat.add (Nat.b2n (bool_decide (r.1 ≤ c ∧ f r = true))) (counted f c rows).
Proof. unfold counted. rewrite filter_cons. by case_bool_decide; case_decide. Qed.

Lemma later_trans c d rows : c ≤ d → Forall (λ q, d < q.1) rows → Forall (λ q : Z * option string, c < q.1) rows.
Proof. intros Hc H. eapply Forall_impl; [exact H|]. simpl. intros. lia. Qed.

Lemma later_todo c d rows : c ≤ d → Forall (λ q, d < q.1) rows → todo c rows = todo d rows.
Proof.
  intros Hc. unfold todo. induction 1 as [|r rows Hr _ IH]; [done|]. rewrite !filter_cons, IH.
  case_decide; case_decide; naive_solver lia.
Qed.

(** One row of a page. *)
Lemma visit_row c rows r rest : ordered rows → todo c rows = r :: rest →
  c < r.1 ∧ todo r.1 rows = rest ∧
  upto r.1 rows = match r.2 ≫= parseDBTime with Some t => set_row r.1 (dbTime t) (upto c rows) | None => upto c rows end ∧
  counted readable r.1 rows = Nat.add (Nat.b2n (bool_decide (is_Some (r.2 ≫= parseDBTime)))) (counted readable c rows) ∧
  counted unreadable r.1 rows = Nat.add (Nat.b2n (negb (bool_decide (is_Some (r.2 ≫= parseDBTime))))) (counted unreadable c rows).
Proof.
  revert rest. induction rows as [|x rows IH]; intros rest; [done|]. intros [Ho Hx]%ordered_cons.
  unfold todo. rewrite filter_cons. case_decide as Hsel.
  - intros [= -> <-]. destruct Hsel as [Hc Hl]. split; [done|]. pose proof (later_trans c r.1 rows ltac:(lia) Hx) as Hc'.
    rewrite !counted_cons, !(counted_later _ _ rows) by done. simpl. rewrite !upto_later by done.
    rewrite (bool_decide_true (r.1 ≤ r.1)), (bool_decide_false (r.1 ≤ c)) by lia.
    rewrite (bool_decide_false (r.1 ≤ c ∧ _)), (bool_decide_false (r.1 ≤ c ∧ _)) by lia. split.
    { rewrite filter_cons, decide_False by lia. symmetry. apply later_todo; [lia|done]. }
    unfold canonical_row, readable, unreadable. rewrite Hl. destruct (r.2 ≫= parseDBTime) as [t|] eqn:Hp.
    + simpl. rewrite Z.eqb_refl, set_row_later by done. repeat case_bool_decide; naive_solver.
    + simpl. repeat case_bool_decide; naive_solver.
  - intros Ht. destruct (IH rest Ho Ht) as (Hc & Htodo & Hup & Hre & Hun).
    assert (r ∈ rows) as Hin. { assert (r ∈ todo c rows) as H by (unfold todo; rewrite Ht; by left). unfold todo in H.
      by apply list_elem_of_filter in H as [_ ?]. }
    assert (x.1 < r.1) as Hxr by (rewrite Forall_forall in Hx; by apply Hx).
    split; [done|]. rewrite filter_cons, decide_False by lia. split; [done|].
    assert (¬ (c < x.1) ∨ legacy x.2 = false) as Hx'. { destruct (legacy x.2); [left; naive_solver|by right]. }
    assert (canonical_row x = x ∨ x.1 ≤ c) as Hcan.
    { destruct Hx' as [?|Hl]; [right; lia|left]. unfold canonical_row. by rewrite Hl. }
    simpl. rewrite Hup. split_and!.
    + rewrite (bool_decide_true (x.1 ≤ r.1)) by lia.
      assert ((if bool_decide (x.1 ≤ c) then canonical_row x else x) = canonical_row x) as ->
        by (destruct (decide (x.1 ≤ c)); [by rewrite bool_decide_true|rewrite bool_decide_false by done; by destruct Hcan]).
      destruct (r.2 ≫= parseDBTime); [|done]. simpl. rewrite canonical_row_id, (proj2 (Z.eqb_neq _ _)) by lia. done.
    + rewrite !counted_cons, Hre. rewrite (bool_decide_ext (x.1 ≤ r.1 ∧ readable x = true) (x.1 ≤ c ∧ readable x = true)); [lia|].
      unfold readable. destruct Hx' as [?|Hl]; [intuition lia|rewrite Hl; naive_solver].
    + rewrite !counted_cons, Hun. rewrite (bool_decide_ext (x.1 ≤ r.1 ∧ unreadable x = true) (x.1 ≤ c ∧ unreadable x = true)); [lia|].
      unfold unreadable. destruct Hx' as [?|Hl]; [intuition lia|rewrite Hl; naive_solver].
Qed.

(** The state of the pass at a cursor. *)
Definition at_cursor (c : Z) (rows : column) : column * nat * nat :=
  (upto c rows, counted readable c rows, counted unreadable c rows).

Lemma visit_page c rows batch rest : ordered rows → todo c rows = batch ++ rest →
  let c' := default c (fst <$> last batch) in
  rewrite_page batch (at_cursor c rows) = at_cursor c' rows ∧ todo c' rows = rest ∧ c ≤ c'.
Proof.
  intros Ho. revert c. induction batch as [|r batch IH]; intros c Ht; [done|]. cbv zeta.
  destruct (visit_row c rows r (batch ++ rest) Ho Ht) as (Hc & Ht' & Hup & Hre & Hun).
  destruct (IH r.1 Ht') as (Hp & Hr & Hle). assert (default c (fst <$> last (r :: batch)) = default r.1 (fst <$> last batch)) as ->.
  { rewrite last_cons. by destruct (last batch). }
  split_and!; [|done|lia]. rewrite <-Hp. unfold rewrite_page. simpl. f_equal. unfold at_cursor.
  rewrite Hup, Hre, Hun. by destruct (r.2 ≫= parseDBTime) as [t|]; simpl.
Qed.

Lemma todo_upto c rows : todo c (upto c rows) = todo c rows.
Proof.
  unfold todo. induction rows as [|r rows IH]; [done|]. simpl. rewrite !filter_cons, IH.
  case_bool_decide; [|done]. pose proof (canonical_row_id r). rewrite !decide_False by lia. done.
Qed.

Lemma legacy_todo c rows : todo c rows = [] → Forall (λ r, c < r.1 → legacy r.2 = false) rows.
Proof.
  unfold todo. induction rows as [|r rows IH]; [done|]. rewrite filter_cons. case_decide as Hs; [done|].
  intros Ht. constructor; [|by apply IH]. intros Hc. destruct (legacy r.2); [|done]. exfalso. by apply Hs.
Qed.

(** With nothing left to visit the whole column is rewritten. *)
Lemma at_cursor_done c rows : todo c rows = [] →
  at_cursor c rows = (map canonical_row rows, length (filter (λ r, readable r = true) rows),
                      length (filter (λ r, unreadable r = true) rows)).
Proof.
  intros Ht%legacy_todo. unfold at_cursor, upto, counted, readable, unreadable.
  induction Ht as [|r rows Hr _ IH]; [done|]. injection IH as IH1 IH2 IH3. rewrite !filter_cons. cbn [map].
  destruct (decide (r.1 ≤ c)) as [Hc|Hc].
  - rewrite bool_decide_true by done. rewrite IH1. repeat case_decide; cbn [length]; rewrite ?IH2, ?IH3; naive_solver.
  - rewrite bool_decide_false by done. specialize (Hr ltac:(lia)).
    assert (canonical_row r = r) as -> by (unfold canonical_row; by rewrite Hr).
    rewrite Hr, IH1, !decide_False by naive_solver. congruence.
Qed.

Lemma loop_spec fuel chunk pages c rows : ordered rows → (0 < chunk)%nat → (length (todo c rows) < fuel)%nat →
  (∃ c', rewrite_loop fuel chunk pages c (at_cursor c rows) = Some (Ok (at_cursor c' rows)) ∧ todo c' rows = []) ∨
  (pages ≠ None ∧ ∃ c', rewrite_loop fuel chunk pages c (at_cursor c rows) = Some (Err (upto c' rows))).
Proof.
  intros Ho Hchunk. revert c pages. induction fuel as [|fuel IH]; intros c pages Hf; [lia|]. cbn [rewrite_loop].
  set (batch := pendingTimeRows chunk c (at_cursor c rows).1.1).
  assert (batch = take chunk (todo c rows)) as Hb by (subst batch; unfold pendingTimeRows; simpl; fold (todo c (upto c rows)); by rewrite todo_upto).
  destruct (last batch) as [r|] eqn:Hl.
  - destruct (visit_page c rows batch (drop chunk (todo c rows)) Ho) as (Hp & Ht & _); [by rewrite Hb, take_drop|].
    rewrite Hl in Hp, Ht. simpl in Hp, Ht. rewrite Hp.
    assert (length (todo r.1 rows) < fuel)%nat as Hfuel.
    { rewrite Ht, length_drop. assert (todo c rows ≠ []) as Hne. { intros He. rewrite He, take_nil in Hb. by rewrite Hb in Hl. }
      destruct (todo c rows); [done|]. simpl in *. lia. }
    destruct pages as [[|n]|]; [right; split; [done|]; by eexists| |].
    + destruct (IH r.1 (Some n) Hfuel) as [?|[_ ?]]; [by left|by right].
    + destruct (IH r.1 None Hfuel) as [?|[? _]]; [by left|done].
  - left. exists c. split; [done|]. apply last_None in Hl. rewrite Hl in Hb. destruct (todo c rows); [done|]. by destruct chunk; [lia|].
Qed.

Lemma upto_ids c rows : map fst (upto c rows) = map fst rows.
Proof. unfold upto. rewrite map_map. apply map_ext. intros r. case_bool_decide; [apply canonical_row_id|done]. Qed.

Context (Hyear : ∀ s t, parseDBTime s = Some t → four_digit_year t).

Lemma canonical_row_idem r : canonical_row (canonical_row r) = canonical_row r.
Proof.
  unfold canonical_row at 2 3. destruct (legacy r.2) eqn:Hl; [|unfold canonical_row; by rewrite Hl].
  destruct (r.2 ≫= parseDBTime) as [t|] eqn:Hp; [|unfold canonical_row; by rewrite Hl, Hp].
  unfold canonical_row. simpl. destruct r.2 as [s|]; [|done]. simpl in Hp. by rewrite dbTime_canonical by eauto.
Qed.

Lemma upto_rewrite c rows : map canonical_row (upto c rows) = map canonical_row rows.
Proof. unfold upto. rewrite map_map. apply map_ext. intros r. case_bool_decide; [apply canonical_row_idem|done]. Qed.

(** What the pass leaves in the old spelling is what it cannot read. *)
Lemma canonical_row_legacy r : legacy (canonical_row r).2 = unreadable r.
Proof.
  destruct r as [id [s|]]; [|done]. unfold canonical_row, unreadable. simpl.
  destruct (canonical s) eqn:Hl; simpl; [by rewrite Hl|].
  destruct (parseDBTime s) as [t|] eqn:Hp; simpl; [by rewrite dbTime_canonical by eauto|by rewrite Hl].
Qed.

Lemma rewrite_from_start pages rows : ordered rows → Forall (λ r, - 2 ^ 63 < r.1) rows →
  rewriteToCanonicalTime pages rows = Some (Ok (map canonical_row rows, length (filter (λ r, readable r = true) rows),
                      length (filter (λ r, unreadable r = true) rows))) ∨
  (pages ≠ None ∧ ∃ c, rewriteToCanonicalTime pages rows = Some (Err (upto c rows))).
Proof.
  intros Ho Hlow. unfold rewriteToCanonicalTime.
  assert ((rows, O, O) = at_cursor (- 2 ^ 63) rows) as ->.
  { unfold at_cursor. by rewrite upto_later, !counted_later. }
  destruct (loop_spec (S (length rows)) canonicalTimeChunk pages (- 2 ^ 63) rows Ho) as [(c & Hc & Ht)|Hr].
  - unfold canonicalTimeChunk. lia.
  - pose proof (length_filter (λ r, - 2 ^ 63 < r.1 ∧ legacy r.2 = true) rows). unfold todo. lia.
  - left. rewrite Hc. by rewrite at_cursor_done.
  - by right.
Qed.
End Rewrite.

(** ** The migration over the columns *)

Section Migration.
Context (parseDBTime : string → option Z).

(** The loop of [migrateCanonicalTimestamps] over the columns; [faults] says how
    many pages of each column commit.  On an error the columns are those
    written so far. *)
Fixpoint migrate_columns (stamped : bool) (cols : list (column * option nat)) :
    option (result (list column) (list column * nat)) :=
  match cols with
  | [] => Some (Ok ([], O))
  | (rows, pages) :: rest =>
      let continue rows skipped :=
        match migrate_columns stamped rest with
        | Some (Ok (cols', skipped')) => Some (Ok (rows :: cols', (skipped + skipped')%nat))
        | Some (Err cols') => Some (Err (rows :: cols'))
        | None => None
        end in
      if stamped && negb (hasLegacyTimeValue rows) then continue rows O
      else match rewriteToCanonicalTime parseDBTime pages rows with
           | Some (Ok (rows', _, skipped)) => continue rows' skipped
           | Some (Err rows') => Some (Err (rows' :: map fst rest))
           | None => None
           end
  end.

(** [migrateCanonicalTimestamps]: the columns, the marker and whether it reports
    an error; [record] is whether the marker can be written. *)
Definition migrateCanonicalTimestamps (stamped record : bool) (cols : list (column * option nat)) :
    option (list column * bool * bool) :=
  match migrate_columns stamped cols with
  | None => None
  | Some (Err cols') => Some (cols', stamped, true)
  | Some (Ok (cols', skipped)) =>
      if bool_decide (0 < skipped)%nat then Some (cols', stamped, false)
      else if stamped then Some (cols', stamped, false)
      else if record then Some (cols', true, false) else Some (cols', false, true)
  end.

Context (Hyear : ∀ s t, parseDBTime s = Some t → four_digit_year t).

Definition rows_ok (rows : column) : Prop := ordered rows ∧ Forall (λ r, - 2 ^ 63 < r.1) rows.

(** A column between its old and its new spelling. *)
Definition between (rows rows' : column) : Prop :=
  map fst rows' = map fst rows ∧ map (canonical_row parseDBTime) rows' = map (canonical_row parseDBTime) rows.

Lemma between_refl rows : between rows rows.
Proof. done. Qed.

Lemma no_legacy_id rows : hasLegacyTimeValue rows = false → map (canonical_row parseDBTime) rows = rows.
Proof.
  unfold hasLegacyTimeValue. induction rows as [|r rows IH]; simpl; [done|]. intros [Hl Hr]%orb_false_iff.
  unfold canonical_row at 1. by rewrite Hl, IH.
Qed.

Lemma legacy_count rows :
  hasLegacyTimeValue (map (canonical_row parseDBTime) rows) = false ↔
  length (filter (λ r, unreadable parseDBTime r = true) rows) = O.
Proof.
  unfold hasLegacyTimeValue. induction rows as [|r rows IH]; simpl; [done|]. rewrite filter_cons, canonical_row_legacy by done.
  by destruct (unreadable parseDBTime r).
Qed.

Lemma migrate_columns_spec stamped cols : Forall (rows_ok ∘ fst) cols →
  match migrate_columns stamped cols with
  | None => False
  | Some (Ok (cols', skipped)) =>
      cols' = map (map (canonical_row parseDBTime) ∘ fst) cols ∧ (skipped = O ↔ Forall (λ rows, hasLegacyTimeValue rows = false) cols')
  | Some (Err cols') => Exists (λ c, c.2 ≠ None) cols ∧ Forall2 between (map fst cols) cols'
  end.
Proof.
  induction 1 as [|[rows pages] cols [Ho Hlow] _ IH]; [done|]. cbn [migrate_columns].
  destruct (stamped && negb (hasLegacyTimeValue rows)) eqn:Hskip.
  - apply andb_true_iff in Hskip as [_ Hl%negb_true_iff].
    destruct (migrate_columns stamped cols) as [[[cols' skipped]|cols']|]; [| |done].
    + destruct IH as [-> Hs]. simpl. rewrite no_legacy_id by done. split; [done|]. rewrite Forall_cons. naive_solver.
    + destruct IH as [He Hb]. split; [by right|]. simpl. constructor; [apply between_refl|done].
  - destruct (rewrite_from_start parseDBTime pages rows Ho Hlow) as [->|(Hp & c & ->)].
    + pose proof (legacy_count rows) as Hc.
      destruct (migrate_columns stamped cols) as [[[cols' skipped]|cols']|]; [| |done].
      * destruct IH as [-> Hs]. split; [done|]. rewrite Forall_cons. rewrite Hc, <-Hs. lia.
      * destruct IH as [He Hb]. split; [by right|]. simpl. constructor; [|done]. split.
        { rewrite map_map. apply map_ext. intros r. apply canonical_row_id. }
        rewrite map_map. apply map_ext. intros r. by apply canonical_row_idem.
    + split; [by left|]. simpl. constructor; [split; [apply upto_ids|by apply upto_rewrite]|].
      clear. induction cols as [|[rows pages] cols IH]; simpl; constructor; [apply between_refl|done].
Qed.

Lemma between_ok rows rows' : between rows rows' → rows_ok rows → rows_ok rows'.
Proof.
  intros [Hids _] [Ho Hlow]. unfold rows_ok, ordered. rewrite Hids. split; [done|].
  apply (Forall_fmap fst (λ i, - 2 ^ 63 < i)). apply (Forall_fmap fst (λ i, - 2 ^ 63 < i)) in Hlow. 
  change (fst <$> rows') with (map fst rows'). by rewrite Hids.
Qed.

(** A run ends with every column between its two spellings. *)
Lemma migrate_between stamped record cols : Forall (rows_ok ∘ fst) cols →
  ∃ cols' stamped' failed, migrateCanonicalTimestamps stamped record cols = Some (cols', stamped', failed) ∧
  Forall2 between (map fst cols) cols' ∧
  (stamped' = true → stamped = true ∨ Forall (λ rows, hasLegacyTimeValue rows = false) cols').
Proof.
  intros Hok. pose proof (migrate_columns_spec stamped cols Hok) as Hspec. unfold migrateCanonicalTimestamps.
  destruct (migrate_columns stamped cols) as [[[cols' skipped]|cols']|]; [| |done].
  - destruct Hspec as [-> Hs].
    assert (Forall2 between (map fst cols) (map (map (canonical_row parseDBTime) ∘ fst) cols)) as Hb.
    { clear -Hyear. induction cols as [|[rows pages] cols IH]; simpl; constructor; [|done].
      split; rewrite map_map; apply map_ext; intros r; [apply canonical_row_id|by apply canonical_row_idem]. }
    case_bool_decide; [by eauto 10|]. destruct stamped; [by eauto 10|]. destruct record; eexists _, _, _; (split; [done|]);
      (split; [done|]); [|done]. intros _. right. apply Hs. lia.
  - destruct Hspec as [_ Hb]. by eauto 10.
Qed.

Lemma between_all cols cols' : Forall2 between cols cols' →
  map (map (canonical_row parseDBTime)) cols' = map (map (canonical_row parseDBTime)) cols.
Proof. induction 1 as [|rows rows' cols cols' [_ Hb] _ IH]; simpl; congruence. Qed.

Lemma between_all_ok cols cols' : Forall2 between cols cols' → Forall rows_ok cols → Forall rows_ok cols'.
Proof.
  induction 1 as [|rows rows' cols cols' Hb _ IH]; [done|]. intros [Hr Hc]%Forall_cons. constructor; [by eapply between_ok|auto].
Qed.

(** A run without faults. *)
Lemma migrate_quiet stamped cols : Forall rows_ok cols →
  migrateCanonicalTimestamps stamped true (map (λ c, (c, None)) cols) =
  Some (map (map (canonical_row parseDBTime)) cols,
        stamped || forallb (λ rows, negb (hasLegacyTimeValue rows)) (map (map (canonical_row parseDBTime)) cols), false).
Proof.
  intros Hok. assert (Forall (rows_ok ∘ fst) (map (λ c, (c, @None nat)) cols)) as Hok'.
  { clear -Hok. induction Hok; simpl; constructor; done. }
  pose proof (migrate_columns_spec stamped _ Hok') as Hspec. unfold migrateCanonicalTimestamps.
  destruct (migrate_columns stamped _) as [[[cols' skipped]|cols']|]; [| |done].
  - destruct Hspec as [Heq Hs]. rewrite map_map in Heq. simpl in Heq. subst cols'.
    set (out := map (λ x, map (canonical_row parseDBTime) x) cols) in *. change (map (map (canonical_row parseDBTime)) cols) with out. assert (forallb (λ rows, negb (hasLegacyTimeValue rows)) out = true ↔ skipped = O) as Hf.
    { rewrite Hs. clear. induction out as [|rows out IH]; simpl; [done|]. rewrite Forall_cons, andb_true_iff, negb_true_iff, IH. done. }
    destruct stamped; [by case_bool_decide|]. simpl.
    destruct (forallb _ out); case_bool_decide; [naive_solver lia|done|done|naive_solver lia].
  - destruct Hspec as [He _]. exfalso. clear -He. induction cols; simpl in He; [by apply Exists_nil in He|].
    apply Exists_cons in He as [?|?]; [done|auto].
Qed.
End Migration.

(** The rewrite of older time spellings can be interrupted anywhere: whatever
    transaction fails, the next run without a failure ends in the column a
    single uninterrupted pass gives, every value that can be read then has the
    canonical spelling, and the migration is marked done only when no other
    spelling is left (or it was marked before). *)
Theorem timestamp_rewrite_resumes parseDBTime stamped record cols :
  (∀ s t, parseDBTime s = Some t → four_digit_year t) →
  Forall (rows_ok ∘ fst) cols →
  ∃ cols' stamped' failed,
    migrateCanonicalTimestamps parseDBTime stamped record cols = Some (cols', stamped', failed) ∧
    let final := map (map (canonical_row parseDBTime)) (map fst cols) in
    let clean := forallb (λ rows, negb (hasLegacyTimeValue rows)) in
    migrateCanonicalTimestamps parseDBTime stamped' true (map (λ c, (c, None)) cols') =
      Some (final, stamped' || clean final, false) ∧
    (stamped' = true → stamped = true ∨ clean cols' = true).
Proof.
  intros Hyear Hok. destruct (migrate_between parseDBTime Hyear stamped record cols Hok) as (cols' & stamped' & failed & Hm & Hb & Hs).
  exists cols', stamped', failed. split; [done|]. cbv zeta. split.
  - rewrite migrate_quiet; [by rewrite (between_all parseDBTime _ _ Hb)|done|].
    eapply between_all_ok; [exact Hb|]. clear -Hok. induction Hok; simpl; constructor; done.
  - intros Ht. destruct (Hs Ht) as [?|Hf]; [by left|right]. clear -Hf. induction Hf as [|rows cols Hr _ IH]; simpl; [done|]. by rewrite Hr.
Qed.

Lemma timestamp_rewrite_resumes_witness :
  let parse := λ s, if String.eqb s "1970-01-01T00:00:00+00:00" then Some 0 else None in
  let cols := [([(1, Some "1970-01-01T00:00:00+00:00"); (2, None); (7, Some "never")], Some O)] in
  migrateCanonicalTimestamps parse false true cols = Some (map fst cols, false, true) ∧
  ∃ cols' stamped' failed,
    migrateCanonicalTimestamps parse false true cols = Some (cols', stamped', failed) ∧
    let final := map (map (canonical_row parse)) (map fst cols) in
    let clean := forallb (λ rows, negb (hasLegacyTimeValue rows)) in
    migrateCanonicalTimestamps parse stamped' true (map (λ c, (c, None)) cols') =
      Some (final, stamped' || clean final, false) ∧
    (stamped' = true → false = true ∨ clean cols' = true).
Proof.
  cbv zeta. split; [vm_compute; reflexivity|]. apply timestamp_rewrite_resumes.
  - intros s t. destruct (String.eqb _ _); [|done]. intros [= <-]. by vm_compute.
  - repeat constructor; simpl; lia.
Defined.
