(* ===== verification/Archive.v ===== *)
(** * The message archive ([store.go], [store_batch.go], [location.go], [view_once.go])

    The tables [chats], [calls] and [messages] of [messages.db] with the
    statements the bridge runs on them.  A table is a finite map from its
    primary key, NULL is [None], and a stored time is its second (the order of
    the strings is that of the seconds, [StoreTime.dbTime_compare]).  SQLite's
    JSON functions are the class [SqliteJson]. *)
From S2P Require Import Prelude Jid StoreTime.
#[local] Open Scope Z_scope.

(** SQL's [a = b] as a condition: NULL is not true. *)
Definition sql_eq (a b : option string) : bool :=
  match a, b with Some a, Some b => String.eqb a b | _, _ => false end.
(** [NULLIF(s, '')]. *)
Definition nullif_empty (s : string) : option string := if String.eqb s "" then None else Some s.
(** [COALESCE(length(b), 0)] and Go's [len]: a nil slice is bound as NULL. *)
Definition blob_len (b : option string) : nat := match b with Some s => String.length s | None => O end.
(** [COALESCE(a, b)] of nullable columns. *)
Definition coalesce {A} (a b : option A) : option A := match a with Some _ => a | None => b end.

(** ** Chats *)
Module Chats.

Record chat_row := {
  name : option string;
  last_message_time : option Z;
  last_read_time : option Z;
  ephemeral_expiration : Z;
  ephemeral_setting_timestamp : Z;
}.

(** A row inserted with defaults. *)
Definition empty_row : chat_row :=
  {| name := None; last_message_time := None; last_read_time := None;
     ephemeral_expiration := 0; ephemeral_setting_timestamp := 0 |}.

Abbreviation chats := (gmap string chat_row).

(** The CASE of the two time columns: the later of the two, NULL is no news. *)
Definition merge_time (old new : option Z) : option Z :=
  match old, new with
  | None, _ => new
  | _, None => old
  | Some o, Some n => if bool_decide (o < n) then new else old
  end.

(** [storeChatWith]; a zero time is [None]. *)
Definition storeChatWith (jid nm : string) (lastMessageTime : option Z) (t : chats) : chats :=
  let seen := stamp <$> lastMessageTime in
  match t !! jid with
  | None =>
      <[jid := {| name := Some nm; last_message_time := seen; last_read_time := None;
                  ephemeral_expiration := 0; ephemeral_setting_timestamp := 0 |}]> t
  | Some r =>
      <[jid := {| name := if String.eqb nm "" then name r else Some nm;
                  last_message_time := merge_time (last_message_time r) seen;
                  last_read_time := last_read_time r;
                  ephemeral_expiration := ephemeral_expiration r;
                  ephemeral_setting_timestamp := ephemeral_setting_timestamp r |}]> t
  end.

(** [markChatReadWith]. *)
Definition markChatReadWith (jid : string) (readAt : Z) (t : chats) : chats :=
  let r := default empty_row (t !! jid) in
  <[jid := {| name := name r; last_message_time := last_message_time r;
              last_read_time := merge_time (last_read_time r) (Some (stamp readAt));
              ephemeral_expiration := ephemeral_expiration r;
              ephemeral_setting_timestamp := ephemeral_setting_timestamp r |}]> t.

(** [UpdateChatEphemeralSettings]. *)
Definition UpdateChatEphemeralSettings (jid : string) (expiration settingTimestamp : Z) (t : chats) : chats :=
  if bool_decide (settingTimestamp = 0) then t
  else
    let put r := {| name := name r; last_message_time := last_message_time r; last_read_time := last_read_time r;
                    ephemeral_expiration := expiration; ephemeral_setting_timestamp := settingTimestamp |} in
    match t !! jid with
    | None => <[jid := put empty_row]> t
    | Some r => if bool_decide (ephemeral_setting_timestamp r ≤ settingTimestamp) then <[jid := put r]> t else t
    end.

(** [selfUsers]: our own number and LID user, "" when unknown. *)
Record selfUsers := { phone : string; lid : string }.

(** [substr(jid, 1, instr(jid, '@') - 1)] where there is an '@'. *)
Definition jid_user (jid : string) : string := match cut_first "@" jid with Some (u, _) => u | None => "" end.

Definition has_suffix (p s : string) : bool :=
  bool_decide (String.length p ≤ String.length s)%nat
  && String.eqb (String.substring (String.length s - String.length p) (String.length p) s) p.

(** [ResetSelfNamedChats]; LIKE compares ASCII letters without case. *)
Definition ResetSelfNamedChats (self : selfUsers) (t : chats) : chats :=
  if String.eqb (phone self) "" then t
  else
    let lid := if String.eqb (lid self) "" then phone self else lid self in
    let own s := String.eqb s (phone self) || String.eqb s lid in
    map_imap (λ jid r, Some
      (if match name r with Some n => own n | None => false end
          && negb (has_suffix "@g.us" (to_lower jid)) && negb (String.eqb (jid_user jid) "") && negb (own (jid_user jid))
       then {| name := Some (jid_user jid); last_message_time := last_message_time r; last_read_time := last_read_time r;
               ephemeral_expiration := ephemeral_expiration r;
               ephemeral_setting_timestamp := ephemeral_setting_timestamp r |}
       else r)) t.

(** *** The times do not depend on the order of the writes *)

Inductive write : Type :=
| StoreChat (jid nm : string) (at_ : option Z)
| MarkChatRead (jid : string) (at_ : Z)
| Ephemeral (jid : string) (expiration settingTimestamp : Z).

Definition run (t : chats) (w : write) : chats :=
  match w with
  | StoreChat jid nm at_ => storeChatWith jid nm at_ t
  | MarkChatRead jid at_ => markChatReadWith jid at_ t
  | Ephemeral jid e s => UpdateChatEphemeralSettings jid e s t
  end.

(** The two times of a chat. *)
Definition times (t : chats) (jid : string) : option Z * option Z :=
  match t !! jid with Some r => (last_message_time r, last_read_time r) | None => (None, None) end.

(** The abstract write: the later of the times. *)
Definition news (jid : string) (w : write) : option Z * option Z :=
  match w with
  | StoreChat j _ at_ => if String.eqb j jid then (stamp <$> at_, None) else (None, None)
  | MarkChatRead j at_ => if String.eqb j jid then (None, Some (stamp at_)) else (None, None)
  | Ephemeral _ _ _ => (None, None)
  end.

Definition advance (p q : option Z * option Z) : option Z * option Z := (merge_time p.1 q.1, merge_time p.2 q.2).

Lemma merge_time_None_r a : merge_time a None = a.
Proof. by destruct a. Qed.

Lemma merge_time_comm a b c : merge_time (merge_time a b) c = merge_time (merge_time a c) b.
Proof.
  destruct a as [a|], b as [b|], c as [c|]; simpl; try done; repeat (case_bool_decide; simpl); try done; f_equal; lia.
Qed.

Lemma merge_time_le a b x : a = Some x → ∃ y, merge_time a b = Some y ∧ x ≤ y.
Proof. intros ->. destruct b as [b|]; simpl; [|by eauto with lia]. case_bool_decide; eauto with lia. Qed.

Lemma advance_comm p q r : advance (advance p q) r = advance (advance p r) q.
Proof. unfold advance. simpl. f_equal; apply merge_time_comm. Qed.

Lemma run_times t w jid : times (run t w) jid = advance (times t jid) (news jid w).
Proof.
  destruct w as [j nm at_|j at_|j e s]; simpl.
  - unfold storeChatWith, times. destruct (String.eqb_spec j jid) as [->|Hne].
    + destruct (t !! jid) as [r|] eqn:Ht; rewrite lookup_insert_eq; unfold advance; simpl; [by rewrite merge_time_None_r|done].
    + destruct (t !! j) as [r|]; rewrite lookup_insert_ne by done; unfold advance; simpl; rewrite !merge_time_None_r;
        by destruct (t !! jid).
  - unfold markChatReadWith, times. destruct (String.eqb_spec j jid) as [->|Hne].
    + rewrite lookup_insert_eq. unfold advance. destruct (t !! jid) as [r|]; simpl; by rewrite ?merge_time_None_r.
    + rewrite lookup_insert_ne by done. unfold advance. simpl. rewrite !merge_time_None_r. by destruct (t !! jid).
  - unfold UpdateChatEphemeralSettings, times, advance. simpl. rewrite !merge_time_None_r.
    case_bool_decide; [by destruct (t !! jid)|].
    destruct (t !! j) as [r|] eqn:Hj.
    + case_bool_decide; [|by destruct (t !! jid)]. destruct (decide (j = jid)) as [->|].
      * by rewrite lookup_insert_eq, Hj. * rewrite lookup_insert_ne by done. by destruct (t !! jid).
    + destruct (decide (j = jid)) as [->|]; [by rewrite lookup_insert_eq, Hj|].
      rewrite lookup_insert_ne by done. by destruct (t !! jid).
Qed.

Lemma runs_times ws t jid : times (foldl run t ws) jid = foldl advance (times t jid) (map (news jid) ws).
Proof. revert t. induction ws as [|w ws IH]; intros t; simpl; [done|]. by rewrite IH, run_times. Qed.

Lemma advances_perm l l' : l ≡ₚ l' → ∀ p, foldl advance p l = foldl advance p l'.
Proof. induction 1 as [|x l l' _ IH|x y l|l1 l2 l3 _ IH1 _ IH2]; intros p; simpl; [done|done|by rewrite advance_comm|congruence]. Qed.

Lemma advances_mono l p x : p.2 = Some x → ∃ y, (foldl advance p l).2 = Some y ∧ x ≤ y.
Proof.
  revert p x. induction l as [|q l IH]; intros p x Hp; simpl; [eauto with lia|].
  destruct (merge_time_le p.2 q.2 x Hp) as (y & Hy & Hle). destruct (IH (advance p q) y Hy) as (z & Hz & Hle'). eauto with lia.
Qed.
End Chats.

(** ** Calls *)
Module Calls.

(** The values of [calls.result]. *)
Inductive outcome : Type := in_progress | answered | rejected | missed | ended.

#[export] Instance outcome_eq_dec : EqDecision outcome.
Proof. solve_decision. Defined.

Record call_row := {
  from_jid : string;
  timestamp : Z;
  is_from_me : bool;
  call_type : string;
  is_group : bool;
  result_ : outcome;
  duration_sec : option Z;
  ended_at : option Z;
  reason : option string;
}.

(** Keyed by call and chat. *)
Abbreviation calls := (gmap (string * string) call_row).

Definition with_result (o : outcome) (r : call_row) : call_row :=
  {| from_jid := from_jid r; timestamp := timestamp r; is_from_me := is_from_me r; call_type := call_type r;
     is_group := is_group r; result_ := o; duration_sec := duration_sec r; ended_at := ended_at r; reason := reason r |}.

(** [StoreCallOffer]: INSERT OR IGNORE. *)
Definition StoreCallOffer (key : string * string) (from : string) (at_ : Z) (own : bool) (type : string) (group : bool)
    (t : calls) : calls :=
  match t !! key with
  | Some _ => t
  | None => <[key := {| from_jid := from; timestamp := stamp at_; is_from_me := own; call_type := type; is_group := group;
                        result_ := in_progress; duration_sec := None; ended_at := None; reason := None |}]> t
  end.

(** UPDATE ... WHERE key AND result = 'in_progress'. *)
Definition decide_call (o : outcome) (key : string * string) (t : calls) : calls :=
  alter (λ r, if bool_decide (result_ r = in_progress) then with_result o r else r) key t.

Definition MarkCallAnswered : string * string → calls → calls := decide_call answered.
Definition MarkCallRejected : string * string → calls → calls := decide_call rejected.

(** [MarkCallTerminated]; the day arithmetic is rounded back to whole seconds. *)
Definition MarkCallTerminated (key : string * string) (why : string) (endedAt : Z) (t : calls) : calls :=
  alter (λ r,
    {| from_jid := from_jid r; timestamp := timestamp r; is_from_me := is_from_me r; call_type := call_type r;
       is_group := is_group r;
       result_ := match result_ r with in_progress => missed | answered => ended | o => o end;
       duration_sec := Some (stamp endedAt - timestamp r); ended_at := Some (stamp endedAt); reason := Some why |}) key t.

Inductive event : Type :=
| Offer (from : string) (at_ : Z) (own : bool) (type : string) (group : bool)
| Accept
| Reject
| Terminate (why : string) (at_ : Z).

Definition run (t : calls) (e : (string * string) * event) : calls :=
  let '(key, e) := e in
  match e with
  | Offer from at_ own type group => StoreCallOffer key from at_ own type group t
  | Accept => MarkCallAnswered key t
  | Reject => MarkCallRejected key t
  | Terminate why at_ => MarkCallTerminated key why at_ t
  end.

(** *** What a call was, from its events *)

(** The events after the first offer. *)
Fixpoint after_offer (es : list event) : option (list event) :=
  match es with
  | [] => None
  | Offer _ _ _ _ _ :: es => Some es
  | _ :: es => after_offer es
  end.

Fixpoint terminated (es : list event) : bool :=
  match es with [] => false | Terminate _ _ :: _ => true | _ :: es => terminated es end.

(** The first answer, refusal or end decides; an answered call ends later. *)
Fixpoint verdict (es : list event) : outcome :=
  match es with
  | [] => in_progress
  | Offer _ _ _ _ _ :: es => verdict es
  | Accept :: es => if terminated es then ended else answered
  | Reject :: _ => rejected
  | Terminate _ _ :: _ => missed
  end.

(** How a decided call goes on. *)
Definition later_verdict (o : outcome) (es : list event) : outcome :=
  match o with
  | in_progress => verdict es
  | answered => if terminated es then ended else answered
  | o => o
  end.

Lemma run_row t e key :
  result_ <$> run t e !! key =
  if decide (e.1 = key) then
    match t !! key, e.2 with
    | None, Offer _ _ _ _ _ => Some in_progress
    | None, _ => None
    | Some r, e => Some (later_verdict (result_ r) [e])
    end
  else result_ <$> t !! key.
Proof.
  destruct e as [k e]. simpl. destruct (decide (k = key)) as [->|Hne].
  - destruct e; simpl.
    + unfold StoreCallOffer. destruct (t !! key) as [r|] eqn:Ht; [rewrite Ht; simpl; by destruct (result_ r)|].
      by rewrite lookup_insert_eq.
    + unfold MarkCallAnswered, decide_call. rewrite lookup_alter_eq. destruct (t !! key) as [r|]; simpl; [|done].
      case_bool_decide as Hr; [by rewrite Hr|]. by destruct (result_ r).
    + unfold MarkCallRejected, decide_call. rewrite lookup_alter_eq. destruct (t !! key) as [r|]; simpl; [|done].
      case_bool_decide as Hr; [by rewrite Hr|]. by destruct (result_ r).
    + unfold MarkCallTerminated. rewrite lookup_alter_eq. destruct (t !! key) as [r|]; simpl; [|done]. by destruct (result_ r).
  - destruct e; simpl; unfold StoreCallOffer, MarkCallAnswered, MarkCallRejected, decide_call, MarkCallTerminated;
      rewrite ?lookup_alter_ne by done; [|done..]. destruct (t !! k); [done|]. by rewrite lookup_insert_ne.
Qed.

#[local] Arguments run : simpl never.

Lemma later_verdict_app o e es : later_verdict (later_verdict o [e]) es = later_verdict o (e :: es).
Proof. by destruct o, e. Qed.

(** The events of one call. *)
Definition of_call (key : string * string) (es : list ((string * string) * event)) : list event :=
  map snd (filter (λ e, e.1 = key) es).

Lemma runs_result es t key :
  result_ <$> foldl run t es !! key =
  match t !! key with
  | Some r => Some (later_verdict (result_ r) (of_call key es))
  | None => verdict <$> after_offer (of_call key es)
  end.
Proof.
  revert t. induction es as [|[k e] es IH]; intros t; simpl.
  - unfold of_call. simpl. destruct (t !! key) as [r|]; simpl; [by destruct (result_ r)|done].
  - rewrite IH. pose proof (run_row t (k, e) key) as Hr. unfold of_call. rewrite filter_cons. simpl in Hr |- *.
    destruct (decide (k = key)) as [->|Hne].
    + simpl. fold (of_call key es).
      destruct (run t (key, e) !! key) as [r'|], (t !! key) as [r|]; simpl in Hr.
      * injection Hr as ->. f_equal. apply later_verdict_app.
      * destruct e; simplify_eq. by rewrite Hr.
      * done.
      * by destruct e.
    + fold (of_call key es). destruct (t !! key) as [r|], (run t (k, e) !! key) as [r'|]; simpl in Hr; congruence.
Qed.
End Calls.

(** ** Properties *)

(** The times of a chat do not depend on the order of the writes: stored
    messages, read receipts, history and timer changes that arrive in any other
    order leave the same newest message and the same read marker, and no write
    moves a read marker back. *)
Theorem chat_times_order_free (t : Chats.chats) (ws ws' : list Chats.write) (jid : string) :
  ws ≡ₚ ws' →
  Chats.times (foldl Chats.run t ws) jid = Chats.times (foldl Chats.run t ws') jid ∧
  ∀ x, (Chats.times t jid).2 = Some x → ∃ y, (Chats.times (foldl Chats.run t ws) jid).2 = Some y ∧ x ≤ y.
Proof.
  intros Hp. rewrite !Chats.runs_times. split.
  - apply Chats.advances_perm. by apply (fmap_Permutation (Chats.news jid)).
  - intros x. apply Chats.advances_mono.
Qed.

Lemma chat_times_order_free_witness :
  let ws := [Chats.StoreChat "1@g.us" "team" (Some (9 * 10 ^ 9)); Chats.MarkChatRead "1@g.us" (5 * 10 ^ 9); Chats.MarkChatRead "1@g.us" 0] in
  Chats.times (foldl Chats.run ∅ ws) "1@g.us" = (Some 9, Some 5) ∧
  Chats.times (foldl Chats.run ∅ (reverse ws)) "1@g.us" = Chats.times (foldl Chats.run ∅ ws) "1@g.us".
Proof.
  cbv zeta. split; [vm_compute; reflexivity|].
  match goal with |- Chats.times (foldl _ _ ?l) _ = Chats.times (foldl _ _ ?l') _ =>
    exact (proj1 (chat_times_order_free ∅ l l' "1@g.us" (reverse_Permutation l'))) end.
Defined.

(** A call is what its events say: however the events of several calls
    interleave, the recorded result of a call is decided by its own events after
    its first offer, by the first answer, refusal or end, an answered call being
    ended by a later end; without an offer there is no call. *)
Theorem call_result_decided (es : list ((string * string) * Calls.event)) (key : string * string) :
  Calls.result_ <$> foldl Calls.run ∅ es !! key = Calls.verdict <$> Calls.after_offer (Calls.of_call key es).
Proof. rewrite Calls.runs_result. by rewrite lookup_empty. Qed.
