(* ===== verification/Messages.v ===== *)
(** * The message rows ([store_batch.go], [store.go], [location.go], [view_once.go])

    One row of [messages] and the statements the running bridge issues on it:
    the upsert of [StoreMessage] with the rules that keep a media snapshot
    together, the repair of a twin row, refreshed media, the hash the object
    store adopts for a row without one, live locations, edits, revocations,
    the marks on a row and its removal.  The table of waiting edits is
    [PendingEdits]; the statements of the migrations at startup are not here
    (some are [Migrations]). *)
From S2P Require Import Prelude Jid StoreTime Archive.
#[local] Open Scope Z_scope.

(** ** SQLite's text and JSON functions

    [text_length] counts characters; [json_type] and [json_int] are [None] for
    SQL NULL; [json_extract] gives a value that [json_object] takes back. *)
Class Sqlite := {
  jval : Type;
  text_length : string → Z;
  json_valid : string → bool;
  json_type : string → string → option string;
  json_extract : string → string → option jval;
  json_text : string → string → option string;
  json_int : string → string → option Z;
  json_object : list (string * option jval) → string;
  json_patch : string → string → string;
}.

(** The kinds with a downloadable file. *)
Definition is_media (kind : string) : bool :=
  bool_decide (kind ∈ ["image"; "video"; "audio"; "document"; "sticker"]).

(** [mediaComplete]; the newsletter case is the suffix of the chat. *)
Definition mediaComplete (chatJID url directPath : string) (mediaKey fileSHA256 fileEncSHA256 : option string) : bool :=
  (negb (String.eqb url "") || negb (String.eqb directPath ""))
  && bool_decide (0 < blob_len fileSHA256)%nat
  && ((bool_decide (0 < blob_len mediaKey)%nat && bool_decide (0 < blob_len fileEncSHA256)%nat)
      || (Chats.has_suffix "@newsletter" chatJID && bool_decide (blob_len mediaKey = O) && bool_decide (blob_len fileEncSHA256 = O))).

(** ** The row *)

(** The columns of a media snapshot: what a download needs, and its length. *)
Record snapshot := {
  url : string;
  direct_path : option string;
  media_key : option string;
  file_sha256 : option string;
  file_enc_sha256 : option string;
  file_length : option Z;
}.

Record message_row := {
  sender : string;
  sender_server : option string;
  content : string;
  timestamp : Z;
  is_from_me : bool;
  media_type : string;
  filename : string;
  media : snapshot;
  media_presentation : option string;
  quoted_message_id : option string;
  location : option string;
  media_retry_chat : option string;
  media_retry_sender : option string;
  mentions : option string;
  deleted_at : option Z;
  view_once : bool;
  target_message_id : option string;
  message_edit_timestamp : Z;
  read_receipt_sent : bool;
}.

(** Keyed by message and chat. *)
Abbreviation key := (string * string)%type.
Abbreviation messages := (gmap (string * string) message_row).

(** [storedMessage]: [Presentation] and [Location] are the columns of the
    presentation for this file and of the location. *)
Record storedMessage := {
  ID : string;
  ChatJID : string;
  Sender : string;
  Content : string;
  Timestamp : Z;
  IsFromMe : bool;
  MediaType : string;
  Filename : string;
  URL : string;
  MediaKey : option string;
  FileSHA256 : option string;
  FileEncSHA256 : option string;
  FileLength : option Z;
  QuotedMessageID : string;
  DirectPath : string;
  Presentation : option string;
  Location : option string;
  RetryChat : string;
  RetrySender : string;
  Mentions : string;
}.

(** [storedMediaLength]: a length SQLite cannot hold is undeclared. *)
Definition storedMediaLength (length : Z) : option Z := if bool_decide (max_int64 < length) then None else Some length.

(** The named parameters of the upsert. *)
Definition complete_media (m : storedMessage) : bool :=
  mediaComplete (ChatJID m) (URL m) (DirectPath m) (MediaKey m) (FileSHA256 m) (FileEncSHA256 m).

Section Statements.
Context `{JidOps} `{Sqlite}.

(** [messageArgs]: the row the statement inserts; the columns it does not name
    have their defaults. *)
Definition messageArgs (m : storedMessage) : message_row :=
  let retrySender :=
    match ParseJID (RetrySender m) with
    | Ok wire => if String.eqb (Server wire) DefaultUserServer || String.eqb (Server wire) HiddenUserServer
                 then RetrySender m else ""
    | Err _ => ""
    end in
  let '(user, server) := splitSenderJID (Sender m) in
  {| sender := user; sender_server := server; content := Content m; timestamp := stamp (Timestamp m);
     is_from_me := IsFromMe m; media_type := MediaType m; filename := Filename m;
     media := {| url := URL m; direct_path := nullif_empty (DirectPath m); media_key := MediaKey m;
                 file_sha256 := FileSHA256 m; file_enc_sha256 := FileEncSHA256 m;
                 file_length := if is_media (MediaType m) then FileLength m ≫= storedMediaLength else None |};
     media_presentation := Presentation m; quoted_message_id := nullif_empty (QuotedMessageID m);
     location := Location m; media_retry_chat := nullif_empty (RetryChat m);
     media_retry_sender := nullif_empty retrySender; mentions := nullif_empty (Mentions m);
     deleted_at := None; view_once := false; target_message_id := None; message_edit_timestamp := 0;
     read_receipt_sent := false |}.

(** [replaceMediaSQL] for the row [old] of [chat] and the incoming row [new]. *)
Definition stored_complete (chat : string) (old : snapshot) : bool :=
  negb (String.eqb (default "" (direct_path old)) "")
  && bool_decide (0 < blob_len (file_sha256 old))%nat
  && ((bool_decide (0 < blob_len (media_key old))%nat && bool_decide (0 < blob_len (file_enc_sha256 old))%nat)
      || (Chats.has_suffix "@newsletter" chat && bool_decide (blob_len (media_key old) = O)
          && bool_decide (blob_len (file_enc_sha256 old) = O))).

Definition no_media (old : snapshot) : bool :=
  String.eqb (url old) "" && String.eqb (default "" (direct_path old)) ""
  && bool_decide (blob_len (media_key old) = O) && bool_decide (blob_len (file_sha256 old) = O)
  && bool_decide (blob_len (file_enc_sha256 old) = O) && bool_decide (default 0 (file_length old) = 0).

Definition replaceMedia (complete history : bool) (chat : string) (old new : snapshot) : bool :=
  (complete && negb (history && stored_complete chat old && bool_decide (direct_path new ≠ direct_path old)))
  || no_media old.

(** [validPresentationSQL]. *)
Definition base64_byte (a : ascii) : bool :=
  let n := byte_code a in
  bool_decide (65 ≤ n ≤ 90) || bool_decide (97 ≤ n ≤ 122) || bool_decide (48 ≤ n ≤ 57)
  || bool_decide (n = 43) || bool_decide (n = 47) || bool_decide (n = 61).

Definition validPresentation (stored : option string) : bool :=
  match stored with
  | None => false
  | Some s =>
      let kind path := default "null" (json_type s path) in
      let text path := bool_decide (kind path ∈ ["text"; "null"]) in
      let flag path := bool_decide (kind path ∈ ["true"; "false"; "null"]) in
      if bool_decide (4096 < text_length s) then false
      else if negb (json_valid s) then false
      else bool_decide (json_type s "$" = Some "object")
        && text "$.sha256" && text "$.mime" && text "$.name" && text "$.title" && flag "$.ptt" && flag "$.animated"
        && (String.eqb (kind "$.seconds") "null"
            || (String.eqb (kind "$.seconds") "integer"
                && match json_int s "$.seconds" with Some n => bool_decide (0 ≤ n ≤ 86400) | None => false end))
        && (String.eqb (kind "$.waveform") "null"
            || (String.eqb (kind "$.waveform") "text"
                && match json_text s "$.waveform" with
                   | Some w => bool_decide (text_length w = 88) && Chats.has_suffix "==" w
                               && forallb base64_byte (list_ascii_of_string w)
                   | None => false
                   end))
  end.

(** The presentation column of the snapshot that replaces [old]. *)
Definition merged_presentation (old new : message_row) : option string :=
  if sql_eq (file_sha256 (media new)) (file_sha256 (media old)) && validPresentation (media_presentation old) then
    match media_presentation new, media_presentation old with
    | None, p => p
    | Some n, Some o => if sql_eq (json_text o "$.sha256") (json_text n "$.sha256") then Some (json_patch o n) else Some n
    | Some n, None => Some n
    end
  else media_presentation new.

(** The location column: the newer position with the metadata of the initial sample. *)
Definition position_fields : list string :=
  ["latitude"; "longitude"; "accuracy_meters"; "speed_mps"; "bearing_degrees"].

Definition merged_location (old new : message_row) : option string :=
  let keep :=
    match location old, location new with
    | Some o, Some n =>
        String.eqb (media_type new) "location" && String.eqb (media_type old) "location"
        && json_valid o && json_valid n
        && bool_decide (json_int o "$.live" = Some 1) && bool_decide (json_int n "$.live" = Some 1)
        && match json_int o "$.sequence" with
           | Some k => bool_decide (default 0 (json_int n "$.sequence") < k)
           | None => false
           end
    | _, _ => false
    end in
  match location old, location new with
  | Some o, Some n =>
      if keep then
        Some (json_patch n (json_object
          (map (λ f, (f, coalesce (json_extract o ("$." +:+ f)) (json_extract n ("$." +:+ f)))) position_fields
           ++ [("sequence", json_extract o "$.sequence"); ("time_offset_seconds", json_extract o "$.time_offset_seconds")])))
      else Some n
  | o, n => coalesce n o
  end.

(** The snapshot that replaces [old]: the incoming one, whose unknown length
    is that of the same file. *)
Definition replaced_media (old new : snapshot) : snapshot :=
  {| url := url new; direct_path := direct_path new; media_key := media_key new; file_sha256 := file_sha256 new;
     file_enc_sha256 := file_enc_sha256 new;
     file_length := if bool_decide (file_length new = None) && sql_eq (file_sha256 new) (file_sha256 old)
                    then file_length old else file_length new |}.

(** [insertMessageSQL], the DO UPDATE branch.  Each column has a CASE of its
    own; those of the media columns all test [replaceMediaSQL] on the same two
    rows, which is [replace] here. *)
Definition upsert_row (complete history : bool) (chat : string) (old new : message_row) : message_row :=
  let replace := replaceMedia complete history chat (media old) (media new) in
  let edited := bool_decide (0 < message_edit_timestamp old) in
  {| sender := sender new;
     sender_server := match sender_server new with
                      | Some s => Some s
                      | None => if String.eqb (sender new) (sender old) then sender_server old else None
                      end;
     content := if edited then content old
                else if negb complete && String.eqb (content new) "" && is_media (media_type old) then content old
                else content new;
     timestamp := if negb replace && is_media (media_type old) then timestamp old else timestamp new;
     is_from_me := is_from_me new;
     media_type := if replace then default (media_type old) (nullif_empty (media_type new)) else media_type old;
     filename := if replace then
                   if String.eqb (media_type new) "document" && complete
                      && bool_decide (file_sha256 (media new) ≠ file_sha256 (media old))
                   then filename new else default (filename old) (nullif_empty (filename new))
                 else filename old;
     media := if replace then replaced_media (media old) (media new) else media old;
     media_presentation := if replace then merged_presentation old new else media_presentation old;
     quoted_message_id := coalesce (quoted_message_id new) (quoted_message_id old);
     location := merged_location old new;
     media_retry_chat := coalesce (media_retry_chat old) (media_retry_chat new);
     media_retry_sender := coalesce (media_retry_sender old) (media_retry_sender new);
     mentions := if edited then mentions old else coalesce (mentions new) (mentions old);
     deleted_at := deleted_at old; view_once := view_once old; target_message_id := target_message_id old;
     message_edit_timestamp := message_edit_timestamp old; read_receipt_sent := read_receipt_sent old |}.

Definition insertMessage (history : bool) (m : storedMessage) (t : messages) : messages :=
  let new := messageArgs m in
  <[(ID m, ChatJID m) := match t !! (ID m, ChatJID m) with
                         | None => new
                         | Some old => upsert_row (complete_media m) history (ChatJID m) old new
                         end]> t.

(** [messageBatch.StoreMessage], the row it writes. *)
Definition StoreMessage (history : bool) (m : storedMessage) (t : messages) : messages :=
  if String.eqb (Content m) "" && String.eqb (MediaType m) "" then t else insertMessage history m t.

(** ** The other statements *)

(** [MarkMessageDeleted]: the first revocation wins. *)
Definition MarkMessageDeleted (k : key) (deletedAt : Z) (t : messages) : messages :=
  alter (λ r,
    {| sender := sender r; sender_server := sender_server r; content := content r; timestamp := timestamp r;
       is_from_me := is_from_me r; media_type := media_type r; filename := filename r; media := media r;
       media_presentation := media_presentation r; quoted_message_id := quoted_message_id r; location := location r;
       media_retry_chat := media_retry_chat r; media_retry_sender := media_retry_sender r; mentions := mentions r;
       deleted_at := coalesce (deleted_at r) (Some (stamp deletedAt)); view_once := view_once r;
       target_message_id := target_message_id r; message_edit_timestamp := message_edit_timestamp r;
       read_receipt_sent := read_receipt_sent r |}) k t.

(** The marks of a row: [markViewOnceWith], [setTargetMessageIDWith] and the
    statement of [persistRefusedReceiptProgress] for one message. *)
Definition with_marks (once : bool) (target : option string) (receipt : bool) (r : message_row) : message_row :=
  {| sender := sender r; sender_server := sender_server r; content := content r; timestamp := timestamp r;
     is_from_me := is_from_me r; media_type := media_type r; filename := filename r; media := media r;
     media_presentation := media_presentation r; quoted_message_id := quoted_message_id r; location := location r;
     media_retry_chat := media_retry_chat r; media_retry_sender := media_retry_sender r; mentions := mentions r;
     deleted_at := deleted_at r; view_once := once; target_message_id := target;
     message_edit_timestamp := message_edit_timestamp r; read_receipt_sent := receipt |}.

Definition markViewOnceWith (k : key) (t : messages) : messages :=
  alter (λ r, with_marks true (target_message_id r) (read_receipt_sent r) r) k t.

Definition setTargetMessageIDWith (k : key) (target : string) (t : messages) : messages :=
  alter (λ r, with_marks (view_once r) (Some target) (read_receipt_sent r) r) k t.

Definition mark_receipt_sent (k : key) (t : messages) : messages :=
  alter (λ r, if is_from_me r then r else with_marks (view_once r) (target_message_id r) true r) k t.

(** The columns an edit writes. *)
Definition with_text (text ment : string) (stamp_ms : Z) (r : message_row) : message_row :=
  {| sender := sender r; sender_server := sender_server r; content := text; timestamp := timestamp r;
     is_from_me := is_from_me r; media_type := media_type r; filename := filename r; media := media r;
     media_presentation := media_presentation r; quoted_message_id := quoted_message_id r; location := location r;
     media_retry_chat := media_retry_chat r; media_retry_sender := media_retry_sender r; mentions := Some ment;
     deleted_at := deleted_at r; view_once := view_once r; target_message_id := target_message_id r;
     message_edit_timestamp := stamp_ms; read_receipt_sent := read_receipt_sent r |}.

(** A newer edit of a row that is not revoked; [author] is what the statement
    asks of the row. *)
Definition edit_row (author : message_row → bool) (text ment : string) (stamp_ms : Z) (k : key) (t : messages) : messages :=
  alter (λ r, if author r && bool_decide (message_edit_timestamp r < stamp_ms) && bool_decide (deleted_at r = None)
              then with_text text ment stamp_ms r else r) k t.

(** [UpdateMessageContent]: our own edit. *)
Definition UpdateMessageContent (k : key) (text : string) (timestampMS : Z) (t : messages) : messages :=
  edit_row (λ _, true) text "" timestampMS k t.

(** The statement of [applyMessageEditWith]. *)
Definition apply_incoming_edit (k : key) (snd : string) (fromMe : bool) (text ment : string) (stamp_ms : Z) (t : messages) : messages :=
  let '(user, server) := splitSenderJID snd in
  edit_row (λ r, String.eqb (sender r) user && bool_decide (sender_server r = server) && Bool.eqb (is_from_me r) fromMe)
    text ment stamp_ms k t.

Definition with_media (s : snapshot) (p : option string) (r : message_row) : message_row :=
  {| sender := sender r; sender_server := sender_server r; content := content r; timestamp := timestamp r;
     is_from_me := is_from_me r; media_type := media_type r; filename := filename r; media := s;
     media_presentation := p; quoted_message_id := quoted_message_id r; location := location r;
     media_retry_chat := media_retry_chat r; media_retry_sender := media_retry_sender r; mentions := mentions r;
     deleted_at := deleted_at r; view_once := view_once r; target_message_id := target_message_id r;
     message_edit_timestamp := message_edit_timestamp r; read_receipt_sent := read_receipt_sent r |}.

(** [MediaDownloader], the fields [StoreMediaInfo] writes. *)
Record MediaDownloader := {
  d_url : string;
  d_direct_path : string;
  d_media_key : option string;
  d_file_sha256 : option string;
  d_file_enc_sha256 : option string;
  d_file_length : Z;
}.

(** [StoreMediaInfo]: the driver refuses a length above the signed range. *)
Definition StoreMediaInfo (k : key) (d : MediaDownloader) (t : messages) : messages :=
  if bool_decide (max_int64 < d_file_length d) then t
  else alter (λ r,
    let same := sql_eq (file_sha256 (media r)) (d_file_sha256 d) in
    with_media
      {| url := d_url d; direct_path := nullif_empty (d_direct_path d); media_key := d_media_key d;
         file_sha256 := d_file_sha256 d; file_enc_sha256 := d_file_enc_sha256 d;
         file_length := if bool_decide (d_file_length d = 0) && same then file_length (media r)
                        else if bool_decide (d_file_length d = 0) then None else Some (d_file_length d) |}
      (if same then media_presentation r else None) r) k t.

(** A statement of [put] ([media_s3.go]): in its last transaction, a row that had no hash
    takes that of the bytes stored for it, read again in the same transaction. *)
Definition adopt_hash (k : key) (hash : string) (t : messages) : messages :=
  alter (λ r,
    if bool_decide (blob_len (file_sha256 (media r)) = O) then
      with_media {| url := url (media r); direct_path := direct_path (media r); media_key := media_key (media r);
                    file_sha256 := Some hash; file_enc_sha256 := file_enc_sha256 (media r);
                    file_length := file_length (media r) |} (media_presentation r) r
    else r) k t.

(** [setDirectPathWith]: only tests of the repository call it. *)
Definition setDirectPathWith (k : key) (directPath : string) (t : messages) : messages :=
  alter (λ r,
    with_media {| url := url (media r); direct_path := nullif_empty directPath; media_key := media_key (media r);
                  file_sha256 := file_sha256 (media r); file_enc_sha256 := file_enc_sha256 (media r);
                  file_length := file_length (media r) |} (media_presentation r) r) k t.

(** [DeleteMessageRow]. *)
Definition DeleteMessageRow (k : key) (t : messages) : messages := delete k t.

(** ** Live locations *)

(** [messageLocation]; the optional numbers are JSON values. *)
Record messageLocation := {
  Live : bool;
  Latitude : option jval; Longitude : option jval;
  Name : string; Address : string; LocationURL : string; Comment : string;
  Accuracy : option jval; Speed : option jval; Bearing : option jval;
  Sequence : option Z;
  Offset : option jval;
}.

(** [messageLocation.update]. *)
Definition location_update (p : messageLocation) : bool :=
  Live p && match Sequence p with Some n => bool_decide (0 < n) | None => false end.

(** [position := *p] without its texts. *)
Definition position_of (p : messageLocation) : messageLocation :=
  {| Live := Live p; Latitude := Latitude p; Longitude := Longitude p; Name := ""; Address := ""; LocationURL := ""; Comment := "";
     Accuracy := Accuracy p; Speed := Speed p; Bearing := Bearing p; Sequence := Sequence p; Offset := Offset p |}.

Definition with_location (loc : string) (r : message_row) : message_row :=
  {| sender := sender r; sender_server := sender_server r; content := content r; timestamp := timestamp r;
     is_from_me := is_from_me r; media_type := media_type r; filename := filename r; media := media r;
     media_presentation := media_presentation r; quoted_message_id := quoted_message_id r; location := Some loc;
     media_retry_chat := media_retry_chat r; media_retry_sender := media_retry_sender r; mentions := mentions r;
     deleted_at := deleted_at r; view_once := view_once r; target_message_id := target_message_id r;
     message_edit_timestamp := message_edit_timestamp r; read_receipt_sent := read_receipt_sent r |}.

(** [column()] of a location is package [encoding/json]. *)
Context (marshal : messageLocation → string).

(** [updateLiveLocationWith]: whether the key is consumed, and the table. *)
Definition updateLiveLocationWith (k : key) (snd : string) (fromMe : bool) (p : option messageLocation) (t : messages) :
    bool * messages :=
  if String.eqb k.1 "" then (false, t)
  else
    let '(user, server) := splitSenderJID snd in
    match t !! k with
    | None => (false, t)
    | Some r =>
        let sameAuthor := String.eqb (sender r) user && bool_decide (sender_server r = server) && Bool.eqb (is_from_me r) fromMe in
        let locationRow := String.eqb (media_type r) "location" in
        let live := match p with Some p => Live p | None => false end in
        if negb sameAuthor && (locationRow || live) then (true, t)
        else match p with
             | None => (false, t)
             | Some p =>
                 if negb (location_update p) then (false, t)
                 else (true, alter (λ r,
                   match location r with
                   | Some loc =>
                       if locationRow && sameAuthor && json_valid loc && bool_decide (json_int loc "$.live" = Some 1)
                       then if bool_decide (default 0 (json_int loc "$.sequence") < default 0 (Sequence p))
                            then with_location (json_patch loc (marshal (position_of p))) r else r
                       else r
                   | None => r
                   end) k t)
             end
    end.

(** ** The repair of a twin row ([repairHistoryMediaAlias]) *)

(** The message with the text and author the twin row already has. *)
Definition alias_message (m : storedMessage) (alias : string) (r : message_row) : storedMessage :=
  {| ID := ID m; ChatJID := alias;
     Sender := match sender_server r with None => sender r | Some s => sender r +:+ String "@" s end;
     Content := content r; Timestamp := timestamp r * 10 ^ 9; IsFromMe := IsFromMe m; MediaType := MediaType m;
     Filename := Filename m; URL := URL m; MediaKey := MediaKey m; FileSHA256 := FileSHA256 m;
     FileEncSHA256 := FileEncSHA256 m; FileLength := FileLength m; QuotedMessageID := default "" (quoted_message_id r);
     DirectPath := DirectPath m; Presentation := Presentation m; Location := Location m; RetryChat := RetryChat m;
     RetrySender := RetrySender m; Mentions := default "" (mentions r) |}.

Definition repairHistoryMediaAlias (m : storedMessage) (alias : string) (t : messages) : messages :=
  if String.eqb alias "" || String.eqb alias (ChatJID m) || String.eqb (DirectPath m) "" || negb (complete_media m) then t
  else match t !! (ID m, alias) with
       | Some r => if Bool.eqb (is_from_me r) (IsFromMe m) && is_media (media_type r)
                   then insertMessage true (alias_message m alias r) t else t
       | None => t
       end.

(** ** Histories of the table *)

Inductive statement : Type :=
| Store (history : bool) (m : storedMessage)
| Repair (m : storedMessage) (alias : string)
| Refresh (k : key) (d : MediaDownloader)
| Revoke (k : key) (at_ : Z)
| ViewOnce (k : key)
| Target (k : key) (target : string)
| Receipt (k : key)
| OwnEdit (k : key) (text : string) (at_ : Z)
| IncomingEdit (k : key) (snd : string) (fromMe : bool) (text ment : string) (at_ : Z)
| Locate (k : key) (snd : string) (fromMe : bool) (p : option messageLocation)
| Adopt (k : key) (hash : string)
| SetPath (k : key) (directPath : string)
| Remove (k : key).

Definition run (t : messages) (s : statement) : messages :=
  match s with
  | Store history m => StoreMessage history m t
  | Repair m alias => repairHistoryMediaAlias m alias t
  | Refresh k d => StoreMediaInfo k d t
  | Revoke k at_ => MarkMessageDeleted k at_ t
  | ViewOnce k => markViewOnceWith k t
  | Target k target => setTargetMessageIDWith k target t
  | Receipt k => mark_receipt_sent k t
  | OwnEdit k text at_ => UpdateMessageContent k text at_ t
  | IncomingEdit k snd fromMe text ment at_ => apply_incoming_edit k snd fromMe text ment at_ t
  | Locate k snd fromMe p => (updateLiveLocationWith k snd fromMe p t).2
  | Adopt k hash => adopt_hash k hash t
  | SetPath k directPath => setDirectPathWith k directPath t
  | Remove k => DeleteMessageRow k t
  end.

(** The statements the bridge issues: no code but tests sets a path alone. *)
Definition issued (s : statement) : Prop := match s with SetPath _ _ => False | _ => True end.

(** The credentials a statement offers for a row. *)
Definition credentials : Type := string * option string * option string * option string * option string.

Definition credentials_of (s : snapshot) : credentials :=
  (url s, direct_path s, media_key s, file_sha256 s, file_enc_sha256 s).

Definition message_credentials (m : storedMessage) : credentials :=
  (URL m, nullif_empty (DirectPath m), MediaKey m, FileSHA256 m, FileEncSHA256 m).

Definition offers (s : statement) (k : key) (c : credentials) : Prop :=
  match s with
  | Store _ m => k = (ID m, ChatJID m) ∧ c = message_credentials m
  | Repair m alias => k = (ID m, alias) ∧ c = message_credentials m
  | Refresh k' d => k = k' ∧ c = (d_url d, nullif_empty (d_direct_path d), d_media_key d, d_file_sha256 d, d_file_enc_sha256 d)
  | _ => False
  end.

(** The length a statement offers for a file. *)
Definition offers_length (s : statement) (k : key) (sha : option string) (n : Z) : Prop :=
  match s with
  | Store _ m => k = (ID m, ChatJID m) ∧ sha = FileSHA256 m ∧ FileLength m = Some n
  | Repair m alias => k = (ID m, alias) ∧ sha = FileSHA256 m ∧ FileLength m = Some n
  | Refresh k' d => k = k' ∧ sha = d_file_sha256 d ∧ n = d_file_length d
  | _ => False
  end.

(** The credentials of one statement, [hash] put where it offered none. *)
Definition with_hash (hash : string) (c : credentials) : credentials := (c.1.1, Some hash, c.2).

(** Where the credentials [c] of the row [k] come from: one statement, and the
    adopted hash when that statement had none. *)
Definition origin (ss : list statement) (k : key) (c : credentials) : Prop :=
  ∃ l1 s l2 c0, ss = l1 ++ s :: l2 ∧ offers s k c0 ∧
    (c = c0 ∨ blob_len c0.1.2 = O ∧ ∃ hash, Adopt k hash ∈ l2 ∧ c = with_hash hash c0).

(** Where the length [n] of a file with hash [sha] comes from: it was given
    for that hash, or for a missing hash which [sha] then filled. *)
Definition origin_length (ss : list statement) (k : key) (sha : option string) (n : Z) : Prop :=
  ∃ s sha0, s ∈ ss ∧ offers_length s k sha0 n ∧
    (sha0 = sha ∨ blob_len sha0 = O ∧ ∃ hash, sha = Some hash ∧ Adopt k hash ∈ ss).

(** Media a download of [chat] can use: somewhere to fetch from, the hash of
    the file, and both keys, or neither on a channel. *)
Definition usable (chat url path : string) (key sha enc : option string) : Prop :=
  (url ≠ "" ∨ path ≠ "") ∧ (0 < blob_len sha)%nat ∧
  ((0 < blob_len key)%nat ∧ (0 < blob_len enc)%nat ∨
   Chats.has_suffix "@newsletter" chat = true ∧ blob_len key = O ∧ blob_len enc = O).

(** A row with no media at all. *)
Definition blank (s : snapshot) : Prop :=
  url s = "" ∧ default "" (direct_path s) = "" ∧ blob_len (media_key s) = O ∧ blob_len (file_sha256 s) = O ∧
  blob_len (file_enc_sha256 s) = O ∧ default 0 (file_length s) = 0.

(** When a stored message takes over the media of a row: the row had none, or
    the message's can be used and, in a replay, it does not put another path
    over media that already has a usable one. *)
Definition takes_over (history : bool) (m : storedMessage) (old : snapshot) : Prop :=
  blank old ∨
  usable (ChatJID m) (URL m) (DirectPath m) (MediaKey m) (FileSHA256 m) (FileEncSHA256 m) ∧
  (history = true → usable (ChatJID m) "" (default "" (direct_path old)) (media_key old) (file_sha256 old) (file_enc_sha256 old) →
   nullif_empty (DirectPath m) = direct_path old).

(** A snapshot a download can use, on the row of [chat]. *)
Definition row_complete (chat : string) (s : snapshot) : bool :=
  mediaComplete chat (url s) (default "" (direct_path s)) (media_key s) (file_sha256 s) (file_enc_sha256 s).

(** What every statement keeps of a row. *)
Record kept (chat : string) (r r' : message_row) : Prop := {
  kept_deleted : ∀ d, deleted_at r = Some d → deleted_at r' = Some d;
  kept_stamp : message_edit_timestamp r ≤ message_edit_timestamp r';
  kept_text : 0 < message_edit_timestamp r → message_edit_timestamp r' = message_edit_timestamp r →
              content r' = content r ∧ mentions r' = mentions r;
  kept_revoked : deleted_at r ≠ None → message_edit_timestamp r' = message_edit_timestamp r;
  kept_receipt : read_receipt_sent r = true → read_receipt_sent r' = true;
  kept_once : view_once r = true → view_once r' = true;
  kept_complete : row_complete chat (media r) = true → row_complete chat (media r') = true;
}.

Lemma kept_refl chat r : kept chat r r.
Proof. split; auto; lia. Qed.

Lemma kept_trans chat r1 r2 r3 : kept chat r1 r2 → kept chat r2 r3 → kept chat r1 r3.
Proof.
  intros [D1 S1 T1 V1 R1 O1 C1] [D2 S2 T2 V2 R2 O2 C2]. split; eauto; [lia| |].
  - intros Hp Heq. assert (message_edit_timestamp r2 = message_edit_timestamp r1) as He by lia.
    destruct (T1 Hp He) as [? ?], T2 as [? ?]; [lia|lia|]. split; congruence.
  - intros Hd. rewrite <-V1 by done. apply V2. destruct (deleted_at r1) as [d|] eqn:Hd1; [|done]. by rewrite (D1 d).
Qed.

Lemma default_nullif s : default "" (nullif_empty s) = s.
Proof. unfold nullif_empty. by destruct (String.eqb_spec s "") as [->|]. Qed.

Lemma no_media_incomplete chat s : no_media s = true → row_complete chat s = false.
Proof.
  unfold no_media, row_complete, mediaComplete. intros Hn. bool_split.
  repeat match goal with Hx : String.eqb _ _ = true |- _ => apply String.eqb_eq in Hx; rewrite Hx end. done.
Qed.

Lemma args_credentials m : credentials_of (media (messageArgs m)) = message_credentials m.
Proof. unfold messageArgs. by destruct (splitSenderJID (Sender m)). Qed.

Lemma args_length m n : file_length (media (messageArgs m)) = Some n → FileLength m = Some n.
Proof.
  unfold messageArgs. destruct (splitSenderJID (Sender m)). simpl. destruct (is_media _); [|done].
  destruct (FileLength m) as [l|]; [|done]. simpl. unfold storedMediaLength. case_bool_decide; [done|]. by intros [= ->].
Qed.

Lemma args_complete m : row_complete (ChatJID m) (media (messageArgs m)) = complete_media m.
Proof.
  unfold row_complete, complete_media, messageArgs. destruct (splitSenderJID (Sender m)). simpl. by rewrite default_nullif.
Qed.

(** The upsert takes a snapshot whole or leaves it. *)
Lemma upsert_snapshot complete history chat old new :
  let r := upsert_row complete history chat old new in
  media r = media old ∨
  (credentials_of (media r) = credentials_of (media new) ∧ (complete = true ∨ no_media (media old) = true) ∧
   (file_length (media r) = file_length (media new) ∨
    file_length (media r) = file_length (media old) ∧ file_sha256 (media old) = file_sha256 (media new))).
Proof.
  simpl. destruct (replaceMedia complete history chat (media old) (media new)) eqn:Hr; [right|by left]. split; [done|]. split.
  - unfold replaceMedia in Hr. destruct complete; [by left|]. simpl in Hr. by right.
  - simpl. destruct (bool_decide _ && sql_eq _ _) eqn:Hs; [right; split; [done|]|by left]. apply andb_true_iff in Hs as [_ Hs].
    unfold sql_eq in Hs. destruct (file_sha256 (media new)), (file_sha256 (media old)); try done.
    apply String.eqb_eq in Hs. by subst.
Qed.

Lemma upsert_kept history m old : kept (ChatJID m) old (upsert_row (complete_media m) history (ChatJID m) old (messageArgs m)).
Proof.
  split; try done.
  - simpl. intros Hp _. by rewrite bool_decide_true.
  - intros Hc. pose proof (upsert_snapshot (complete_media m) history (ChatJID m) old (messageArgs m)) as [->|(Hcred & Hor & _)]; [done|].
    set (r := upsert_row _ _ _ _ _) in *. assert (row_complete (ChatJID m) (media r) = row_complete (ChatJID m) (media (messageArgs m))) as ->.
    { unfold row_complete. unfold credentials_of in Hcred. clearbody r. injection Hcred as -> -> -> -> ->. done. }
    rewrite args_complete. destruct Hor as [?|Hn]; [done|]. by rewrite (no_media_incomplete (ChatJID m)) in Hc.
Qed.

(** A refreshed snapshot comes from a phone that still has the file; nobody
    removes the row or sets its path alone. *)
Definition refresh_complete (s : statement) : Prop :=
  match s with
  | Remove _ | SetPath _ _ => False
  | Refresh k d => mediaComplete k.2 (d_url d) (d_direct_path d) (d_media_key d) (d_file_sha256 d) (d_file_enc_sha256 d) = true
  | _ => True
  end.

Lemma insert_kept history m t k r :
  t !! k = Some r → ∃ r', insertMessage history m t !! k = Some r' ∧ kept k.2 r r'.
Proof.
  intros Hk. unfold insertMessage. destruct (decide (k = (ID m, ChatJID m))) as [->|Hne].
  - rewrite lookup_insert_eq, Hk. eexists. split; [done|]. apply upsert_kept.
  - rewrite lookup_insert_ne by done. exists r. split; [done|apply kept_refl].
Qed.

Lemma alter_kept (f : message_row → message_row) (t : messages) (k k' : key) r :
  (∀ r, kept k.2 r (f r)) → t !! k' = Some r → ∃ r', alter f k t !! k' = Some r' ∧ kept k'.2 r r'.
Proof.
  intros Hf Hk. destruct (decide (k = k')) as [->|Hne].
  - rewrite lookup_alter_eq, Hk. simpl. eauto.
  - rewrite lookup_alter_ne by done. exists r. split; [done|apply kept_refl].
Qed.

Lemma edit_row_kept author text ment at_ k t k' r :
  t !! k' = Some r → ∃ r', edit_row author text ment at_ k t !! k' = Some r' ∧ kept k'.2 r r'.
Proof.
  apply alter_kept. clear. intros r. destruct (author r && _ && _) eqn:Hg; [|apply kept_refl]. bool_split.
  split; simpl; try done; try lia.
Qed.

Lemma run_kept t s k r : refresh_complete s → t !! k = Some r → ∃ r', run t s !! k = Some r' ∧ kept k.2 r r'.
Proof.
  intros Hs Hk. destruct s as [history m|m alias|k' d|k' at_|k'|k' target|k'|k' text at_|k' snd fromMe text ment at_|k' snd fromMe p|
    k' hash|k' path|k']; simpl.
  - unfold StoreMessage. destruct (_ && _); [exists r; split; [done|apply kept_refl]|by apply insert_kept].
  - unfold repairHistoryMediaAlias. destruct (_ || _); [exists r; split; [done|apply kept_refl]|].
    destruct (t !! (ID m, alias)) as [q|]; [|exists r; split; [done|apply kept_refl]].
    destruct (_ && _); [by apply insert_kept|exists r; split; [done|apply kept_refl]].
  - unfold StoreMediaInfo. case_bool_decide; [exists r; split; [done|apply kept_refl]|]. apply alter_kept; [|done].
    intros q. split; simpl; try done. intros _. unfold row_complete. simpl. by rewrite default_nullif.
  - apply alter_kept; [|done]. intros q. split; simpl; try done. by intros d ->.
  - apply alter_kept; [|done]. intros q. by split.
  - apply alter_kept; [|done]. intros q. by split.
  - apply alter_kept; [|done]. intros q. destruct (is_from_me q); [apply kept_refl|by split].
  - by apply edit_row_kept.
  - unfold apply_incoming_edit. destruct (splitSenderJID snd). by apply edit_row_kept.
  - unfold updateLiveLocationWith. assert (∃ r', t !! k = Some r' ∧ kept k.2 r r') as Hsame by (exists r; split; [done|apply kept_refl]).
    destruct (String.eqb k'.1 ""); [done|]. destruct (splitSenderJID snd) as [user server]. destruct (t !! k') as [q|]; [|done].
    destruct (negb _ && _); [done|]. destruct p as [p|]; [|done]. destruct (negb _); [done|]. simpl. apply alter_kept; [|done].
    intros q'. destruct (location q'); [|apply kept_refl]. destruct (_ && _); [|apply kept_refl].
    case_bool_decide; [by split|apply kept_refl].
  - apply alter_kept; [|done]. intros q. case_bool_decide as Hz; [|apply kept_refl]. split; simpl; try done.
    unfold row_complete, mediaComplete. intros Hc. bool_split. lia.
  - by destruct Hs.
  - by destruct Hs.
Qed.

Lemma runs_kept ss t k r : Forall refresh_complete ss → t !! k = Some r → ∃ r', foldl run t ss !! k = Some r' ∧ kept k.2 r r'.
Proof.
  intros Hss. revert t r. induction Hss as [|s ss Hs _ IH]; intros t r Hk; simpl; [exists r; split; [done|apply kept_refl]|].
  destruct (run_kept t s k r Hs Hk) as (r1 & H1 & K1). destruct (IH _ _ H1) as (r2 & H2 & K2).
  exists r2. split; [done|]. by eapply kept_trans.
Qed.

(** Where a snapshot comes from, one statement at a time. *)
Definition sourced (s : statement) (k : key) (old : option message_row) (r' : message_row) : Prop :=
  ((∃ r, old = Some r ∧ credentials_of (media r') = credentials_of (media r)) ∨ offers s k (credentials_of (media r')) ∨
   ∃ r hash, old = Some r ∧ s = Adopt k hash ∧ blob_len (file_sha256 (media r)) = O ∧
     credentials_of (media r') = with_hash hash (credentials_of (media r))) ∧
  ∀ n, file_length (media r') = Some n →
    (∃ r, old = Some r ∧ file_length (media r) = Some n ∧
       (file_sha256 (media r) = file_sha256 (media r') ∨
        blob_len (file_sha256 (media r)) = O ∧ ∃ hash, s = Adopt k hash ∧ file_sha256 (media r') = Some hash)) ∨
    offers_length s k (file_sha256 (media r')) n.

Lemma sourced_same s k r r' : media r' = media r → sourced s k (Some r) r'.
Proof. intros Hm. split; [left; exists r; by rewrite Hm|]. intros n Hn. left. exists r. rewrite <-Hm. auto. Qed.

Lemma sourced_insert s history m t k r' :
  insertMessage history m t !! k = Some r' →
  (k = (ID m, ChatJID m) → offers s k (message_credentials m) ∧ ∀ n, FileLength m = Some n → offers_length s k (FileSHA256 m) n) →
  sourced s k (t !! k) r'.
Proof.
  intros Hr Hs. unfold insertMessage in Hr. destruct (decide (k = (ID m, ChatJID m))) as [->|Hne].
  - rewrite lookup_insert_eq in Hr. injection Hr as <-. destruct (Hs eq_refl) as [Hc Hl]. clear Hs.
    pose proof (args_credentials m) as Ha. pose proof (args_length m) as Hal. generalize dependent (messageArgs m). intros new Ha Hal.
    assert (file_sha256 (media new) = FileSHA256 m) as Hsha by (unfold credentials_of, message_credentials in Ha; congruence).
    destruct (t !! (ID m, ChatJID m)) as [old|]; cycle 1.
    { split; [right; left; by rewrite Ha|]. intros n Hn. right. rewrite Hsha. auto. }
    destruct (upsert_snapshot (complete_media m) history (ChatJID m) old new) as [He|(He & _ & Hlen)]; [by apply sourced_same|].
    set (r := upsert_row _ _ _ _ _) in *. clearbody r. assert (file_sha256 (media r) = FileSHA256 m) as Hshar
      by (unfold credentials_of, message_credentials in *; congruence).
    split; [right; left; by rewrite He, Ha|]. intros n Hn. destruct Hlen as [Hln|[Hln Hso]].
    + right. rewrite Hshar. apply Hl, Hal. congruence.
    + left. exists old. split; [done|]. split; [|left]; congruence.
  - rewrite lookup_insert_ne in Hr by done. rewrite Hr. by apply sourced_same.
Qed.

Lemma sourced_alter (s : statement) (f : message_row → message_row) (t : messages) (k k' : key) r' :
  (∀ r, sourced s k (Some r) (f r)) → alter f k t !! k' = Some r' → sourced s k' (t !! k') r'.
Proof.
  intros Hf. destruct (decide (k = k')) as [->|Hne].
  - rewrite lookup_alter_eq. destruct (t !! k') as [r|]; [|done]. simpl. intros [= <-]. apply Hf.
  - rewrite lookup_alter_ne by done. intros ->. by apply sourced_same.
Qed.

Lemma run_sourced t s k r' : issued s → run t s !! k = Some r' → sourced s k (t !! k) r'.
Proof.
  intros Hi. assert (t !! k = Some r' → sourced s k (t !! k) r') as Hid by (intros ->; by apply sourced_same).
  destruct s as [history m|m alias|k' d|k' at_|k'|k' target|k'|k' text at_|k' snd fromMe text ment at_|k' snd fromMe p|k' hash|k' path|k'];
    simpl.
  - unfold StoreMessage. destruct (_ && _); [done|]. intros Hr. eapply sourced_insert; [exact Hr|]. simpl. naive_solver.
  - unfold repairHistoryMediaAlias. destruct (_ || _); [done|]. destruct (t !! (ID m, alias)) as [q|] eqn:Hq; [|done].
    destruct (_ && _); [|done]. intros Hr. eapply sourced_insert; [exact Hr|]. simpl. intros ->. split; [done|]. by intros n ->.
  - unfold StoreMediaInfo. case_bool_decide; [done|]. apply sourced_alter. intros q. split; [by right; left|]. simpl. intros n.
    case_bool_decide as Hz; simpl; [|intros [= <-]; by right]. destruct (sql_eq _ _) eqn:Hsame; [|done]. intros Hn. left. exists q.
    split; [done|]. split; [done|]. left. unfold sql_eq in Hsame. destruct (file_sha256 (media q)), (d_file_sha256 d); try done.
    apply String.eqb_eq in Hsame. by subst.
  - apply sourced_alter. intros q. by apply sourced_same.
  - apply sourced_alter. intros q. by apply sourced_same.
  - apply sourced_alter. intros q. by apply sourced_same.
  - apply sourced_alter. intros q. destruct (is_from_me q); by apply sourced_same.
  - apply sourced_alter. intros q. destruct (_ && _); by apply sourced_same.
  - unfold apply_incoming_edit. destruct (splitSenderJID snd). apply sourced_alter. intros q. destruct (_ && _); by apply sourced_same.
  - unfold updateLiveLocationWith. destruct (String.eqb k'.1 ""); [done|]. destruct (splitSenderJID snd) as [user server].
    destruct (t !! k') as [q|]; [|done]. destruct (negb _ && _); [done|]. destruct p as [p|]; [|done]. destruct (negb _); [done|].
    simpl. apply sourced_alter. intros q'. destruct (location q'); [|by apply sourced_same]. destruct (_ && _); [|by apply sourced_same].
    case_bool_decide; by apply sourced_same.
  - apply sourced_alter. intros q. case_bool_decide as Hz; [|by apply sourced_same]. split.
    + right. right. by exists q, hash.
    + intros n Hn. left. exists q. split; [done|]. split; [done|]. right. eauto.
  - done.
  - destruct (decide (k' = k)) as [->|Hne].
    + unfold DeleteMessageRow. by rewrite lookup_delete_eq.
    + unfold DeleteMessageRow. by rewrite lookup_delete_ne.
Qed.

Lemma origin_snoc ss s k c : origin ss k c → origin (ss ++ [s]) k c.
Proof.
  intros (l1 & s0 & l2 & c0 & -> & Ho & Hc). exists l1, s0, (l2 ++ [s]), c0. split; [by rewrite <-app_assoc|]. split; [done|].
  destruct Hc as [?|(Hz & hash & Hin & ->)]; [by left|right]. split; [done|]. exists hash. split; [|done]. set_solver.
Qed.

Lemma origin_adopt ss k c hash : blob_len c.1.2 = O → origin ss k c → origin (ss ++ [Adopt k hash]) k (with_hash hash c).
Proof.
  intros Hz (l1 & s0 & l2 & c0 & -> & Ho & Hc). exists l1, s0, (l2 ++ [Adopt k hash]), c0. split; [by rewrite <-app_assoc|].
  split; [done|]. right. destruct Hc as [->|(Hz0 & h0 & _ & ->)]; (split; [done|]); exists hash; (split; [set_solver|done]).
Qed.

Lemma origin_length_snoc ss s k sha n : origin_length ss k sha n → origin_length (ss ++ [s]) k sha n.
Proof.
  intros (s0 & sha0 & Hin & Ho & Hc). exists s0, sha0. split; [set_solver|]. split; [done|].
  destruct Hc as [?|(Hz & hash & ? & Ha)]; [by left|right]. split; [done|]. exists hash. split; [done|]. set_solver.
Qed.

Lemma origin_length_adopt ss k sha n hash :
  blob_len sha = O → origin_length ss k sha n → origin_length (ss ++ [Adopt k hash]) k (Some hash) n.
Proof.
  intros Hz (s0 & sha0 & Hin & Ho & Hc). exists s0, sha0. split; [set_solver|]. split; [done|]. right.
  split; [destruct Hc as [->|[? _]]; done|]. exists hash. split; [done|]. set_solver.
Qed.

Lemma runs_sourced ss k r :
  Forall issued ss → foldl run ∅ ss !! k = Some r →
  origin ss k (credentials_of (media r)) ∧
  ∀ n, file_length (media r) = Some n → origin_length ss k (file_sha256 (media r)) n.
Proof.
  revert r. induction ss as [|s ss IH] using rev_ind; intros r; [simpl; by rewrite lookup_empty|].
  intros [Hss Hs]%Forall_app. apply Forall_cons in Hs as [Hs _]. rewrite foldl_app. simpl. intros [Hc Hl]%run_sourced; [|done]. split.
  - destruct Hc as [(q & Hq & ->)|[Ho|(q & hash & Hq & -> & Hz & ->)]].
    + apply origin_snoc. by apply IH.
    + exists ss, s, [], (credentials_of (media r)). auto.
    + apply origin_adopt; [done|]. by apply IH.
  - intros n Hn. destruct (Hl n Hn) as [(q & Hq & Hqn & Hsha)|Ho].
    + destruct (IH q Hss Hq) as [_ Hlq]. specialize (Hlq n Hqn). destruct Hsha as [<-|(Hz & hash & -> & ->)].
      * by apply origin_length_snoc.
      * by eapply origin_length_adopt.
    + exists s, (file_sha256 (media r)). split; [set_solver|]. auto.
Qed.

(** The conditions of the upsert as the rules above state them. *)
Lemma mediaComplete_usable chat url path key sha enc :
  mediaComplete chat url path key sha enc = true ↔ usable chat url path key sha enc.
Proof.
  unfold mediaComplete, usable. rewrite !andb_true_iff, !orb_true_iff, !andb_true_iff, !negb_true_iff, !bool_decide_eq_true.
  rewrite !String.eqb_neq. tauto.
Qed.

Lemma stored_complete_usable chat s :
  stored_complete chat s = true ↔ usable chat "" (default "" (direct_path s)) (media_key s) (file_sha256 s) (file_enc_sha256 s).
Proof.
  unfold stored_complete, usable. rewrite !andb_true_iff, !orb_true_iff, !andb_true_iff, !negb_true_iff, !bool_decide_eq_true.
  rewrite !String.eqb_neq. naive_solver.
Qed.

Lemma no_media_blank s : no_media s = true ↔ blank s.
Proof. unfold no_media, blank. rewrite !andb_true_iff, !bool_decide_eq_true, !String.eqb_eq. tauto. Qed.

Lemma replaceMedia_takes_over history m old :
  replaceMedia (complete_media m) history (ChatJID m) old (media (messageArgs m)) = true ↔ takes_over history m old.
Proof.
  assert (direct_path (media (messageArgs m)) = nullif_empty (DirectPath m)) as Hd.
  { pose proof (args_credentials m) as Ha. unfold credentials_of, message_credentials in Ha. congruence. }
  unfold replaceMedia, takes_over. rewrite Hd, orb_true_iff, no_media_blank, andb_true_iff, negb_true_iff, <-stored_complete_usable.
  unfold complete_media. rewrite mediaComplete_usable, !andb_false_iff, bool_decide_eq_false.
  assert (¬ nullif_empty (DirectPath m) ≠ direct_path old ↔ nullif_empty (DirectPath m) = direct_path old) as ->
    by (split; [apply dec_stable|auto]).
  destruct history, (stored_complete (ChatJID m) old); intuition discriminate.
Qed.

Lemma store_takes_over history m t old :
  Content m ≠ "" ∨ MediaType m ≠ "" → t !! (ID m, ChatJID m) = Some old →
  ∃ r, run t (Store history m) !! (ID m, ChatJID m) = Some r ∧
    (takes_over history m (media old) → credentials_of (media r) = message_credentials m) ∧
    (¬ takes_over history m (media old) → media r = media old).
Proof.
  intros Hne Ht. simpl. unfold StoreMessage. replace (String.eqb (Content m) "" && String.eqb (MediaType m) "") with false
    by (symmetry; apply andb_false_iff; rewrite !String.eqb_neq; tauto).
  unfold insertMessage. rewrite Ht, lookup_insert_eq. eexists. split; [done|]. rewrite <-replaceMedia_takes_over, <-args_credentials.
  cbn [upsert_row media]. destruct (replaceMedia _ _ _ _ _); (split; intros Hx); [done|by destruct Hx|done|done].
Qed.
End Statements.

(** ** Properties *)

(** [C28] A media snapshot is never a mixture: after any sequence of stores, history
    replays, twin repairs, refreshed media, adopted hashes, edits,
    revocations, marks, live positions and removals on a table that starts
    empty (startup migrations and the direct-path setter only tests call are
    excluded), the URL, path, key and hashes of a row are those of one single
    statement for that row, but for a hash that statement did not have, which
    is then one the object store adopted for the row afterwards; and the
    length is one a statement gave for the same hash, or for a missing hash
    that was adopted.  A stored message that is not empty takes over the media of an existing
    row exactly when the row had no media, or when the message's media can be
    downloaded and, in a history replay, does not put another path over media
    that already has a usable one; otherwise the row's media is left as it is. *)
Theorem snapshot_never_mixed `{JidOps} `{Sqlite} (marshal : messageLocation → string) (ss : list statement) :
  Forall issued ss →
  (∀ k r, foldl (run marshal) ∅ ss !! k = Some r →
     origin ss k (credentials_of (media r)) ∧
     ∀ n, file_length (media r) = Some n → origin_length ss k (file_sha256 (media r)) n) ∧
  (∀ history m old, Content m ≠ "" ∨ MediaType m ≠ "" → foldl (run marshal) ∅ ss !! (ID m, ChatJID m) = Some old →
     ∃ r, foldl (run marshal) ∅ (ss ++ [Store history m]) !! (ID m, ChatJID m) = Some r ∧
       (takes_over history m (media old) → credentials_of (media r) = message_credentials m) ∧
       (¬ takes_over history m (media old) → media r = media old)).
Proof.
  intros Hss. split; [intros k r Hr; by apply (runs_sourced marshal)|]. intros history m old Hne Hold. rewrite foldl_app.
  by apply (store_takes_over marshal).
Qed.

(** The archive forgets nothing it has to remember: whatever statements
    follow, a row stays, its first revocation time stays, an edited text and
    its mentions change only to those of a newer edit and not at all once the
    message is revoked, acknowledged receipts and view-once marks stay, and a
    snapshot a download can use is never replaced by one it cannot use. *)
Theorem row_never_forgets `{JidOps} `{Sqlite} (marshal : messageLocation → string) (ss : list statement) (t : messages) (k : key)
    (r : message_row) :
  Forall refresh_complete ss → t !! k = Some r → ∃ r', foldl (run marshal) t ss !! k = Some r' ∧ kept k.2 r r'.
Proof. apply runs_kept. Qed.

(** An instance to evaluate the statements on. *)
Definition plain_sqlite : Sqlite := {|
  jval := string;
  text_length s := Z.of_nat (String.length s);
  json_valid _ := true;
  json_type _ _ := None;
  json_extract _ _ := None;
  json_text _ _ := None;
  json_int _ _ := None;
  json_object _ := "{}";
  json_patch a _ := a;
|}.

(** A photo of a direct chat. *)
Definition photo (url key sha enc text : string) : storedMessage :=
  {| ID := "M1"; ChatJID := "1@s.whatsapp.net"; Sender := "1@s.whatsapp.net"; Content := text; Timestamp := 5 * 10 ^ 9;
     IsFromMe := false; MediaType := "image"; Filename := ""; URL := url; MediaKey := nullif_empty key;
     FileSHA256 := nullif_empty sha; FileEncSHA256 := nullif_empty enc; FileLength := None; QuotedMessageID := "";
     DirectPath := url; Presentation := None; Location := None; RetryChat := ""; RetrySender := ""; Mentions := "" |}.

(** A complete photo, an edit, then a replay without its key. *)
Definition photo_history : list (@statement plain_sqlite) :=
  [Store false (photo "/a" "k1" "s1" "e1" "hi");
   OwnEdit ("M1", "1@s.whatsapp.net") "hello" 7000;
   Store true (photo "/b" "" "s2" "" "hi")].

Lemma snapshot_never_mixed_witness :
  let _ := RefJid.ops in let _ := plain_sqlite in
  ∃ r, foldl (run (λ _, "")) ∅ photo_history !! ("M1", "1@s.whatsapp.net") = Some r ∧ media_key (media r) = Some "k1" ∧
    origin photo_history ("M1", "1@s.whatsapp.net") (credentials_of (media r)) ∧
    ∃ r', foldl (run (λ _, "")) ∅ (photo_history ++ [Store false (photo "/c" "k3" "s3" "e3" "hi")]) !! ("M1", "1@s.whatsapp.net") = Some r' ∧
      credentials_of (media r') = ("/c", Some "/c", Some "k3", Some "s3", Some "e3").
Proof.
  cbv zeta. destruct (@snapshot_never_mixed RefJid.ops plain_sqlite (λ _, "") photo_history ltac:(repeat constructor)) as [Ho Ht].
  eexists. split; [vm_compute; reflexivity|]. split; [reflexivity|]. split; [apply Ho; vm_compute; reflexivity|].
  destruct (Ht false (photo "/c" "k3" "s3" "e3" "hi") _ ltac:(left; discriminate) ltac:(vm_compute; reflexivity)) as (r' & Hr' & Hin & _).
  exists r'. split; [exact Hr'|]. apply Hin. right. split; [|discriminate].
  split; [left; discriminate|]. split; [cbn; lia|]. left. cbn. lia.
Defined.

(** A photo without its hash keeps the one adopted for it. *)
Example hash_adopted :
  let _ := RefJid.ops in let _ := plain_sqlite in
  (λ r, credentials_of (media r)) <$>
    foldl (run (λ _, "")) ∅ [Store false (photo "/a" "k1" "" "e1" "hi"); Adopt ("M1", "1@s.whatsapp.net") "s9";
                             Adopt ("M1", "1@s.whatsapp.net") "s8"] !! ("M1", "1@s.whatsapp.net") =
  Some ("/a", Some "/a", Some "k1", Some "s9", Some "e1").
Proof. vm_compute. reflexivity. Qed.

Definition photo_table : messages := foldl (@run RefJid.ops plain_sqlite (λ _, "")) ∅ (take 2 photo_history).

Lemma row_never_forgets_witness :
  let _ := RefJid.ops in let _ := plain_sqlite in
  ∃ r r', photo_table !! ("M1", "1@s.whatsapp.net") = Some r ∧ content r = "hello" ∧
    foldl (run (λ _, "")) photo_table (drop 2 photo_history) !! ("M1", "1@s.whatsapp.net") = Some r' ∧
    kept "1@s.whatsapp.net" r r'.
Proof.
  cbv zeta. assert (content <$> photo_table !! ("M1", "1@s.whatsapp.net") = Some "hello") as Hc by (vm_compute; reflexivity).
  destruct (photo_table !! ("M1", "1@s.whatsapp.net")) as [r|] eqn:Hr; [|discriminate].
  destruct (@row_never_forgets RefJid.ops plain_sqlite (λ _, "") (drop 2 photo_history) photo_table
    ("M1", "1@s.whatsapp.net") r ltac:(repeat constructor) Hr) as (r' & Hr' & Hk).
  exists r, r'. split; [exact eq_refl|]. split; [by injection Hc|]. split; [exact Hr'|exact Hk].
Defined.
