(* ===== verification/MarkRead.v ===== *)
(** * Read receipts ([mark_read.go], the receipt queries of [store.go])

    [POST /api/mark-read]: one receipt for listed messages, or the whole chat
    up to a time in batches per sender.  What the bridge asks others for (the
    send gate, the receipts themselves, the writes) is an outcome argument. *)
From S2P Require Import Prelude Jid Http ChatPolicy StoreTime Archive Messages.
#[local] Open Scope Z_scope.

Definition markReadBatch : nat := 100.
Definition markReadMaxMessages : nat := 2000.

(** The archive tables receipts read and write. *)
Record archive := { rows : messages; chat_rows : Chats.chats }.

(** ** Queries *)

(** [bareSenderUser]. *)
Definition bareSenderUser (s : string) : string :=
  let s := trim_space s in match cut_first "@" s with Some (u, _) => u | None => s end.

Record unreadInboundMessage := { u_id : string; u_sender : string; u_time : Z }.

(** The read marker of a chat. *)
Definition marker (db : archive) (chat : string) : option Z :=
  match chat_rows db !! chat with Some r => Chats.last_read_time r | None => None end.

(** An inbound row of the chat after the marker and no later than [upTo]. *)
Definition in_range (db : archive) (chat : string) (upTo : Z) (kr : key * message_row) : bool :=
  let '((_, c), r) := kr in
  String.eqb c chat && negb (is_from_me r) && bool_decide (deleted_at r = None)
  && bool_decide (timestamp r ≤ stamp upTo)
  && match marker db chat with Some at_ => bool_decide (at_ < timestamp r) | None => true end.

Definition pending_row (db : archive) (chat : string) (upTo : Z) (kr : key * message_row) : bool :=
  in_range db chat upTo kr && negb (read_receipt_sent kr.2).

(** [ORDER BY timestamp, id]. *)
Definition row_le (a b : key * message_row) : Prop :=
  timestamp a.2 < timestamp b.2 ∨ timestamp a.2 = timestamp b.2 ∧ string_le a.1.1 b.1.1.

#[export] Instance row_le_dec : RelDecision row_le.
Proof. intros a b. unfold row_le. apply _. Defined.

Definition selected (f : key * message_row → bool) (db : archive) : list (key * message_row) :=
  merge_sort row_le (filter (λ kr, f kr = true) (map_to_list (rows db))).

(** [UnreadInboundMessages]. *)
Definition UnreadInboundMessages (chat : string) (upTo : Z) (limit : nat) (db : archive) : list unreadInboundMessage :=
  let all := selected (pending_row db chat upTo) db in
  map (λ kr, {| u_id := kr.1.1; u_sender := bareSenderUser (sender kr.2); u_time := timestamp kr.2 |})
    (if bool_decide (limit = O) then all else take limit all).

(** The time of the last second with a four-digit year. *)
Definition last_second : Z := 253402300799.

(** [AcknowledgedReceiptPrefix]: [None] is the zero time. *)
Definition AcknowledgedReceiptPrefix (chat : string) (upTo : Z) (db : archive) : option Z :=
  let first := match selected (pending_row db chat upTo) db with kr :: _ => timestamp kr.2 | [] => last_second end in
  match last (selected (λ kr, in_range db chat upTo kr && read_receipt_sent kr.2 && bool_decide (timestamp kr.2 < first)) db) with
  | Some kr => Some (timestamp kr.2)
  | None => None
  end.

(** ** Coverage and grouping *)

(** The leading acknowledged rows and the row after them. *)
Fixpoint acked_prefix (acked : gset string) (pending : list unreadInboundMessage) : nat * option Z :=
  match pending with
  | [] => (O, None)
  | m :: rest =>
      if bool_decide (u_id m ∈ acked) then let '(n, b) := acked_prefix acked rest in (S n, b) else (O, Some (u_time m))
  end.

(** Cuts rows of the boundary's second or later off the end. *)
Fixpoint trim_to (pending : list unreadInboundMessage) (boundary : Z) (n : nat) : nat :=
  match n with
  | O => O
  | S k => match pending !! k with
           | Some m => if bool_decide (u_time m < boundary) then n else trim_to pending boundary k
           | None => n
           end
  end.

(** [coveredPrefix]. *)
Definition coveredPrefix (pending : list unreadInboundMessage) (acked : gset string) (overflow : option unreadInboundMessage) : nat :=
  let '(covered, first) := acked_prefix acked pending in
  match coalesce first (u_time <$> overflow) with
  | None => covered
  | Some boundary =>
      let trimmed := trim_to pending boundary covered in
      if bool_decide (trimmed = O ∧ covered = length pending) then covered else trimmed
  end.

Record senderBatch := { sb_sender : string; sb_ids : list string }.

(** Appends an id to the group of its sender, or opens one. *)
Fixpoint add_to_group (snd id : string) (groups : list senderBatch) : list senderBatch :=
  match groups with
  | [] => [{| sb_sender := snd; sb_ids := [id] |}]
  | g :: rest =>
      if String.eqb (sb_sender g) snd then {| sb_sender := sb_sender g; sb_ids := sb_ids g ++ [id] |} :: rest
      else g :: add_to_group snd id rest
  end.

Section Handlers.
Context `{JidOps} `{Sqlite}.

(** [groupBySender]: the groups and the ids nobody can be addressed for. *)
Definition groupBySender (pending : list unreadInboundMessage) (chatJID : JID) : list senderBatch * list string :=
  if String.eqb (Server chatJID) DefaultUserServer || String.eqb (Server chatJID) HiddenUserServer
  then ([{| sb_sender := ""; sb_ids := map u_id pending |}], [])
  else foldl (λ st m,
    let '(groups, unaddressable) := st in
    if String.eqb (u_sender m) "" || String.eqb (u_sender m) (User chatJID)
    then (groups, unaddressable ++ [u_id m])
    else (add_to_group (u_sender m) (u_id m) groups, unaddressable)) ([], []) pending.

(** The slices of at most [n] ids. *)
Fixpoint chunks (fuel n : nat) (ids : list string) : list (list string) :=
  match fuel, ids with
  | O, _ | _, [] => []
  | S fuel, _ => take n ids :: chunks fuel n (drop n ids)
  end.

(** ** The batches *)

(** What happens to one batch: the gate refuses, the send fails, or it goes out. *)
Inductive attempt : Type := Denied | Failed (e : string) | Sent.

(** A receipt that went out: the ids and the participant it names. *)
Record receipt := { rc_ids : list string; rc_sender : option JID }.

Record progress := {
  acked : gset string;
  sent : list receipt;
  tried : nat;
  failure : option string;
}.

Inductive loop_end : Type := Go (p : progress) | Refused (p : progress) | Fatal (p : progress).

(** The batches of one group; [outcome] is indexed by the batches tried. *)
Fixpoint send_chunks (outcome : nat → attempt) (snd : option JID) (cs : list (list string)) (p : progress) : loop_end :=
  match cs with
  | [] => Go p
  | c :: rest =>
      let tried' := S (tried p) in
      match outcome (tried p) with
      | Denied => Refused {| acked := acked p; sent := sent p; tried := tried'; failure := failure p |}
      | Failed e => Fatal {| acked := acked p; sent := sent p; tried := tried'; failure := Some e |}
      | Sent =>
          send_chunks outcome snd rest
            {| acked := acked p ∪ list_to_set c; sent := sent p ++ [{| rc_ids := c; rc_sender := snd |}];
               tried := tried'; failure := failure p |}
      end
  end.

(** [deps.resolve] of a participant, with the checks on its answer. *)
Definition addressed (resolve : string → result string JID) (s : string) : option JID :=
  match resolve s with
  | Ok j => if String.eqb (User j) "" || String.eqb (Server j) "" then None else Some j
  | Err _ => None
  end.

Fixpoint send_groups (resolve : string → result string JID) (outcome : nat → attempt) (gs : list senderBatch) (p : progress) : loop_end :=
  match gs with
  | [] => Go p
  | g :: rest =>
      let go snd :=
        match send_chunks outcome snd (chunks (length (sb_ids g)) markReadBatch (sb_ids g)) p with
        | Go p' => send_groups resolve outcome rest p'
        | e => e
        end in
      if String.eqb (sb_sender g) "" then go None
      else match addressed resolve (sb_sender g) with
           | Some j => go (Some j)
           | None =>
               send_groups resolve outcome rest
                 {| acked := acked p; sent := sent p; tried := tried p;
                    failure := Some ("could not resolve sender " +:+ sb_sender g) |}
           end
  end.

(** ** Writes *)

(** Which writes reach the archive. *)
Record write_faults := { marker_ok : bool; prefix_read_ok : bool; prefix_ok : bool; progress_ok : bool }.

(** [persistReadMarker]: the archive and whether it warns; a marker is an instant
    on a whole second. *)
Definition persistReadMarker (ok : bool) (chat : string) (at_ : Z) (db : archive) : archive * bool :=
  if ok then ({| rows := rows db; chat_rows := Chats.markChatReadWith chat (at_ * 10 ^ 9) (chat_rows db) |}, false)
  else (db, true).

(** [persistAcknowledgedReceiptPrefix]. *)
Definition persistAcknowledgedReceiptPrefix (f : write_faults) (chat : string) (upTo : Z) (db : archive) : archive * bool :=
  if negb (prefix_read_ok f) then (db, true)
  else match AcknowledgedReceiptPrefix chat upTo db with
       | None => (db, false)
       | Some at_ => persistReadMarker (prefix_ok f) chat at_ db
       end.

(** The writes at the end of a run: the covered rows, then the saved prefix. *)
Definition save_coverage (f : write_faults) (chat : string) (upTo : Z) (covered : option Z) (db : archive) : archive * bool :=
  let '(db1, warned) := match covered with
                        | Some at_ => persistReadMarker (marker_ok f) chat at_ db
                        | None => (db, false)
                        end in
  if warned then (db1, true) else persistAcknowledgedReceiptPrefix f chat upTo db1.

(** The time of the last covered row. *)
Definition covered_time (pending : list unreadInboundMessage) (covered : nat) : option Z :=
  match covered with O => None | S n => u_time <$> pending !! n end.

(** [persistRefusedReceiptProgress]: one transaction. *)
Definition persistRefusedReceiptProgress (ok : bool) (chat : string) (pending : list unreadInboundMessage) (ack : gset string)
    (overflow : option unreadInboundMessage) (db : archive) : archive :=
  if bool_decide (ack = ∅) || negb ok then db
  else
    let rows' := foldl (λ t m, if bool_decide (u_id m ∈ ack) then mark_receipt_sent (u_id m, chat) t else t) (rows db) pending in
    {| rows := rows';
       chat_rows := match covered_time pending (coveredPrefix pending ack overflow) with
                    | Some at_ => Chats.markChatReadWith chat (at_ * 10 ^ 9) (chat_rows db)
                    | None => chat_rows db
                    end |}.

(** ** The handlers *)

(** A reply: an error, the refusal the send gate wrote, or the counts. *)
Inductive answer : Type :=
| Error (r : Http.reply)
| GateRefused
| Marked (status : Z) (success : bool) (messages senders batches : nat) (truncated warned : bool).

Record effect := { reply : answer; db_after : archive; receipts : list receipt }.

Definition only (a : answer) (db : archive) : effect := {| reply := a; db_after := db; receipts := [] |}.

(** [markWholeChatRead] from the pending page on; [query_error] is a failed
    read of the page. *)
Definition markWholeChatRead (connected query_error : bool) (resolve : string → result string JID) (outcome : nat → attempt)
    (f : write_faults) (chat : string) (chatJID : JID) (upTo : Z) (db : archive) : effect :=
  if negb connected then only (Marked Http.StatusServiceUnavailable false 0 0 0 false false) db
  else if query_error then only (Marked 500 false 0 0 0 false false) db
  else
    let page := UnreadInboundMessages chat upTo (S markReadMaxMessages) db in
    let overflow := page !! markReadMaxMessages in
    let pending := take markReadMaxMessages page in
    let truncated := bool_decide (is_Some overflow) in
    if bool_decide (pending = []) then
      let '(db', warned) := persistAcknowledgedReceiptPrefix f chat upTo db in
      only (Marked Http.StatusOK true 0 0 0 false warned) db'
    else match addressed resolve chat with
    | None => only (Error (Http.writeError Http.StatusBadRequest "Invalid chat_jid")) db
    | Some _ =>
        let '(groups, unaddressable) := groupBySender pending chatJID in
        let start := {| acked := list_to_set unaddressable; sent := []; tried := O; failure := None |} in
        let finish p :=
          let covered := coveredPrefix pending (acked p) overflow in
          let '(db', warned) := save_coverage f chat upTo (covered_time pending covered) db in
          let failed := bool_decide (is_Some (failure p)) in
          {| reply := Marked (if failed then 500 else Http.StatusOK) (negb failed) covered (length groups) (length (sent p)) truncated warned;
             db_after := db'; receipts := sent p |} in
        match send_groups resolve outcome groups start with
        | Refused p =>
            let db1 := persistRefusedReceiptProgress (progress_ok f) chat pending (acked p) overflow db in
            let '(db2, _) := persistAcknowledgedReceiptPrefix f chat upTo db1 in
            {| reply := GateRefused; db_after := db2; receipts := sent p |}
        | Go p | Fatal p => finish p
        end
    end.

(** [markListedRead]: one receipt for listed messages of one sender. *)
Fixpoint ValidateInboundMarkRead (chat expected : string) (ids : list string) (db : archive) : option string :=
  match ids with
  | [] => None
  | id :: rest =>
      match rows db !! (id, chat) with
      | None => Some ("message " +:+ id +:+ " not found in chat " +:+ chat)
      | Some r =>
          if is_from_me r then Some ("message " +:+ id +:+ " is outbound; only inbound messages can be marked read")
          else if negb (String.eqb (bareSenderUser (sender r)) expected)
          then Some ("message " +:+ id +:+ " sender " +:+ sender r +:+ " does not match " +:+ expected)
          else ValidateInboundMarkRead chat expected rest db
      end
  end.

(** The sender the listed messages must have. *)
Definition expected_sender (chat senderHint : string) : string :=
  let expected := bareSenderUser senderHint in
  if String.eqb expected "" then match ParseJID chat with Ok j => User j | Err _ => "" end else expected.

Definition validate_listed (chat senderHint : string) (ids : list string) (db : archive) : option string :=
  let expected := expected_sender chat senderHint in
  if String.eqb expected "" then Some ("could not determine expected sender for chat " +:+ chat)
  else ValidateInboundMarkRead chat expected ids db.

(** [MaxMessageTimestamp]. *)
Definition MaxMessageTimestamp (chat : string) (ids : list string) (db : archive) : option Z :=
  foldl (λ best id, match rows db !! (id, chat) with
                    | Some r => Chats.merge_time best (Some (timestamp r))
                    | None => best
                    end) None ids.

(** [parseSenderJID]: whether the sender has the shape of an address. *)
Definition parseSenderJID (snd : string) : bool :=
  match parseRecipientJID (trim_space snd) with
  | Ok j => negb (String.eqb (User j) "" || String.eqb (Server j) "")
  | Err _ => false
  end.

Record MarkReadRequest := {
  MessageIDs : list string;
  ReqChatJID : string;
  SenderJID : string;
  ReqTimestamp : string;
  UpTo : string;
}.

Definition bad (msg : string) : answer := Error (Http.writeError Http.StatusBadRequest msg).

Definition markListedRead (connected : bool) (resolve : string → result string JID) (outcome : nat → attempt) (max_ok : bool)
    (f : write_faults) (req : MarkReadRequest) (chat : string) (chatJID : JID) (readAt : Z) (db : archive) : effect :=
  if negb (String.eqb (trim_space (UpTo req)) "") then only (bad "up_to is only used without message_ids") db
  else if existsb (λ id, String.eqb (trim_space id) "") (MessageIDs req)
  then only (bad "message_ids must not contain empty values") db
  else if negb (String.eqb (SenderJID req) "") && negb (parseSenderJID (SenderJID req)) then only (bad "Invalid sender_jid") db
  else if String.eqb (SenderJID req) "" && String.eqb (Server chatJID) GroupServer
  then only (bad "sender_jid is required for group read receipts") db
  else if negb connected then only (Marked Http.StatusServiceUnavailable false 0 0 0 false false) db
  else match validate_listed chat (SenderJID req) (MessageIDs req) db with
  | Some e => only (bad e) db
  | None =>
      match addressed resolve chat with
      | None => only (bad "Invalid chat_jid") db
      | Some _ =>
          let to := if String.eqb (SenderJID req) "" then Some None
                    else match addressed resolve (SenderJID req) with Some j => Some (Some j) | None => None end in
          match to with
          | None => only (bad "Invalid sender_jid") db
          | Some snd =>
              match outcome O with
              | Denied => only GateRefused db
              | Failed _ => only (Marked 500 false 0 0 0 false false) db
              | Sent =>
                  let local := match MaxMessageTimestamp chat (MessageIDs req) db with
                               | Some ts => if max_ok then ts else stamp readAt
                               | None => stamp readAt
                               end in
                  let '(db', warned) := persistReadMarker (marker_ok f) chat local db in
                  {| reply := Marked Http.StatusOK true (length (MessageIDs req)) 1 1 false warned; db_after := db';
                     receipts := [{| rc_ids := MessageIDs req; rc_sender := snd |}] |}
              end
          end
      end
  end.

(** [markReadHandler]: [now] is the clock and [parse] is [time.Parse] with RFC 3339. *)
Definition markReadHandler (policy : chatPolicy) (now : Z) (parse : string → option Z) (connected query_error max_ok : bool)
    (resolve : string → result string JID) (outcome : nat → attempt) (f : write_faults) (body : option MarkReadRequest) (db : archive) :
    effect :=
  match body with
  | None => only (bad "Invalid request format") db
  | Some req =>
      let chat := trim_space (ReqChatJID req) in
      if String.eqb chat "" then only (bad "chat_jid is required") db
      else match authorizeChat policy chat false with
      | Err r => only (Error r) db
      | Ok chatJID =>
          match (if String.eqb (ReqTimestamp req) "" then Some now else parse (ReqTimestamp req)) with
          | None => only (bad "timestamp must be RFC 3339") db
          | Some readAt =>
              match MessageIDs req with
              | _ :: _ => markListedRead connected resolve outcome max_ok f req chat chatJID readAt db
              | [] =>
                  if negb (String.eqb (trim_space (SenderJID req)) "") then
                    only (bad "sender_jid is only used together with message_ids; without them the senders come from the archive") db
                  else
                    let trimmed := trim_space (UpTo req) in
                    match (if String.eqb trimmed "" then Some now else parse trimmed) with
                    | None => only (bad "up_to must be RFC 3339") db
                    | Some upTo => markWholeChatRead connected query_error resolve outcome f chat chatJID upTo db
                    end
              end
          end
      end
  end.

(** ** Lemmas *)

Lemma elem_of_selected f db kr : kr ∈ selected f db ↔ rows db !! kr.1 = Some kr.2 ∧ f kr = true.
Proof.
  unfold selected. rewrite merge_sort_Permutation, list_elem_of_filter. destruct kr as [k r]. rewrite elem_of_map_to_list. naive_solver.
Qed.

Lemma row_le_total a b : row_le a b ∨ row_le b a.
Proof. unfold row_le. destruct (Z.lt_trichotomy (timestamp a.2) (timestamp b.2)) as [?|[->|?]]; [auto| |auto].
  destruct (string_leb_total a.1.1 b.1.1); auto. Qed.

(** Rows by time. *)
Definition time_le (a b : key * message_row) : Prop := timestamp a.2 ≤ timestamp b.2.

Lemma selected_sorted f db : StronglySorted time_le (selected f db).
Proof.
  apply Sorted_StronglySorted; [intros a b c; unfold time_le; lia|].
  assert (Sorted row_le (selected f db)) as Hs by (apply Sorted_merge_sort; intros a b; apply row_le_total).
  induction Hs as [|x l Hl IH Hx]; constructor; [done|]. destruct Hx as [|y l' Hxy]; constructor. unfold row_le, time_le in *. lia.
Qed.

Lemma selected_nodup f db : NoDup (map fst (selected f db)).
Proof.
  unfold selected. rewrite merge_sort_Permutation. 
  assert (NoDup (map fst (map_to_list (rows db)))) as Hn by apply NoDup_fst_map_to_list.
  induction (map_to_list (rows db)) as [|x l IH]; [constructor|]. simpl in Hn. apply NoDup_cons in Hn as [Hx Hn].
  rewrite filter_cons. case_decide; simpl; [|auto]. apply NoDup_cons. split; [|auto].
  intros Hin. apply Hx. apply list_elem_of_fmap in Hin as (y & -> & Hy). apply list_elem_of_filter in Hy as [_ Hy].
  apply list_elem_of_fmap. eauto.
Qed.

Definition older (a b : unreadInboundMessage) : Prop := u_time a ≤ u_time b.

Lemma sorted_lookup l i j a b :
  StronglySorted older l → l !! i = Some a → l !! j = Some b → (i ≤ j)%nat → u_time a ≤ u_time b.
Proof.
  intros Hs Hi Hj Hij. destruct (decide (i = j)) as [->|Hne]; [unfold older in *; simplify_eq; lia|].
  eapply (StronglySorted_lookup_lt older) in Hs; [|exact Hi|exact Hj|lia]. done.
Qed.

(** The leading run of acknowledged rows. *)
Lemma acked_prefix_spec ack pending n b : acked_prefix ack pending = (n, b) →
  (n ≤ length pending)%nat ∧
  (∀ i m, (i < n)%nat → pending !! i = Some m → u_id m ∈ ack) ∧
  match b with
  | None => n = length pending
  | Some t => ∃ m, pending !! n = Some m ∧ u_time m = t ∧ u_id m ∉ ack
  end.
Proof.
  revert n b. induction pending as [|m pending IH]; intros n b; simpl.
  { intros [= <- <-]. split; [done|]. split; [intros; lia|done]. }
  case_bool_decide as Hm.
  - destruct (acked_prefix ack pending) as [n' b']. intros [= <- <-]. destruct (IH n' b' eq_refl) as (Hn & Hi & Hb).
    split; [lia|]. split; [|destruct b'; [done|lia]]. intros [|i] q Hlt; simpl; [intros [= <-]; done|]. apply Hi. lia.
  - intros [= <- <-]. split; [lia|]. split; [intros; lia|]. eauto.
Qed.

Lemma trim_to_spec pending boundary n : (n ≤ length pending)%nat →
  (trim_to pending boundary n ≤ n)%nat ∧
  (∀ k, trim_to pending boundary n = S k → ∃ m, pending !! k = Some m ∧ u_time m < boundary) ∧
  (∀ i m, (trim_to pending boundary n ≤ i < n)%nat → pending !! i = Some m → boundary ≤ u_time m).
Proof.
  induction n as [|n IH]; intros Hn; simpl; [split; [lia|]; split; [done|intros; lia]|].
  destruct (lookup_lt_is_Some_2 pending n) as [m Hm]; [lia|]. rewrite Hm. case_bool_decide as Hlt.
  - split; [lia|]. split; [intros k [= <-]; eauto|intros; lia].
  - destruct (IH ltac:(lia)) as (H1 & H2 & H3). split; [lia|]. split; [done|]. intros i q Hi Hq.
    destruct (decide (i = n)) as [->|]; [|apply (H3 i); [lia|done]]. simplify_eq. lia.
Qed.

(** The rows a marker may cover: acknowledged ones, before the first row left
    over, unless the page is a single second. *)
Lemma coveredPrefix_spec pending ack overflow at_ :
  StronglySorted older pending → (∀ o m, overflow = Some o → m ∈ pending → older m o) →
  covered_time pending (coveredPrefix pending ack overflow) = Some at_ →
  (∀ m, m ∈ pending → u_time m ≤ at_ → u_id m ∈ ack) ∧
  (∀ o, overflow = Some o → at_ < u_time o ∨ u_time o = at_ ∧ ∀ m, m ∈ pending → u_time m = at_).
Proof.
  intros Hs Ho. unfold coveredPrefix. destruct (acked_prefix ack pending) as [n b] eqn:Hp.
  destruct (acked_prefix_spec _ _ _ _ Hp) as (Hn & Hack & Hb). clear Hp. destruct b as [t|].
  - destruct Hb as (q & Hq & <- & Hnot). simpl. destruct (trim_to_spec pending (u_time q) n Hn) as (T1 & T2 & T3).
    assert (n < length pending)%nat as Hlt by (apply lookup_lt_is_Some; eauto). rewrite bool_decide_false by lia.
    destruct (trim_to pending (u_time q) n) as [|k]; [done|]. simpl. destruct (T2 k eq_refl) as (m & Hm & Hmt). rewrite Hm. intros [= <-].
    split.
    + intros x [i Hi]%list_elem_of_lookup Hx. destruct (decide (i < n)%nat); [by eapply Hack|].
      pose proof (sorted_lookup _ n i q x Hs Hq Hi ltac:(lia)). lia.
    + intros o ->. left. assert (q ∈ pending) as Hin by (apply list_elem_of_lookup; eauto). pose proof (Ho o q eq_refl Hin). unfold older in *. lia.
  - subst n. destruct overflow as [o|]; simpl.
    + destruct (trim_to_spec pending (u_time o) (length pending) ltac:(done)) as (T1 & T2 & T3).
      assert (∀ x, x ∈ pending → u_id x ∈ ack) as Hall.
      { intros x [i Hi]%list_elem_of_lookup. eapply Hack; [|exact Hi]. by apply lookup_lt_Some in Hi. }
      case_bool_decide as Hone.
      * destruct Hone as [Hz _]. rewrite Hz in *. intros Hat. split; [auto|]. intros o' [= <-]. right.
        assert (∀ m, m ∈ pending → u_time m = u_time o) as Heq.
        { intros m Hin. pose proof (Ho o m eq_refl Hin) as Hle. apply list_elem_of_lookup in Hin as [i Hi].
          pose proof (T3 i m) as Hge. apply lookup_lt_Some in Hi as Hlt. specialize (Hge ltac:(lia) Hi). unfold older in *. lia. }
        unfold covered_time in Hat. destruct (length pending) as [|k] eqn:Hl; [done|]. destruct (pending !! k) as [m|] eqn:Hm; [|done].
        simpl in Hat. injection Hat as <-. assert (m ∈ pending) as Hin by (apply list_elem_of_lookup; eauto).
        rewrite (Heq m Hin). split; [done|]. auto.
      * destruct (trim_to pending (u_time o) (length pending)) as [|k]; [done|]. simpl. destruct (T2 k eq_refl) as (m & Hm & Hmt).
        rewrite Hm. intros [= <-]. split; [auto|]. intros o' [= <-]. by left.
    + intros _. split; [|done]. intros x [i Hi]%list_elem_of_lookup _. eapply Hack; [|exact Hi]. by apply lookup_lt_Some in Hi.
Qed.

(** *** What was acknowledged *)

Definition sent_ids (rs : list receipt) : gset string := list_to_set (mjoin (rc_ids <$> rs)).

Definition end_of (e : loop_end) : progress := match e with Go p | Refused p | Fatal p => p end.

(** A run adds exactly the ids of the receipts that went out. *)
Definition extends (p p' : progress) : Prop :=
  ∃ rs, sent p' = sent p ++ rs ∧ acked p' = acked p ∪ sent_ids rs.

Lemma extends_refl p : extends p p.
Proof. exists []. split; [by rewrite app_nil_r|]. unfold sent_ids. simpl. set_solver. Qed.

Lemma extends_trans p1 p2 p3 : extends p1 p2 → extends p2 p3 → extends p1 p3.
Proof.
  intros (r1 & S1 & A1) (r2 & S2 & A2). exists (r1 ++ r2). split; [by rewrite S2, S1, app_assoc|].
  rewrite A2, A1. unfold sent_ids. rewrite fmap_app, join_app, list_to_set_app_L. set_solver.
Qed.

Lemma send_chunks_extends outcome snd cs p : extends p (end_of (send_chunks outcome snd cs p)).
Proof.
  revert p. induction cs as [|c cs IH]; intros p; simpl; [apply extends_refl|].
  destruct (outcome (tried p)); simpl; [exists []; simpl; split; [by rewrite app_nil_r|unfold sent_ids; set_solver]..|].
  eapply extends_trans; [|apply IH]. exists [{| rc_ids := c; rc_sender := snd |}]. split; [done|]. simpl. unfold sent_ids. simpl.
  by rewrite app_nil_r.
Qed.

Lemma send_groups_extends resolve outcome gs p : extends p (end_of (send_groups resolve outcome gs p)).
Proof.
  revert p. induction gs as [|g gs IH]; intros p; simpl; [apply extends_refl|].
  assert (∀ snd, extends p (end_of match send_chunks outcome snd (chunks (length (sb_ids g)) markReadBatch (sb_ids g)) p with
    Go p' => send_groups resolve outcome gs p' | e => e end)) as Hgo.
  { intros snd. pose proof (send_chunks_extends outcome snd (chunks (length (sb_ids g)) markReadBatch (sb_ids g)) p) as Hc.
    destruct (send_chunks _ _ _ _); simpl in *; [|done|done]. by eapply extends_trans. }
  destruct (String.eqb (sb_sender g) ""); [apply Hgo|]. destruct (addressed resolve (sb_sender g)); [apply Hgo|].
  eapply extends_trans; [|apply IH]. exists []. simpl. split; [by rewrite app_nil_r|unfold sent_ids; set_solver].
Qed.

(** *** The page *)

Definition is_direct (chatJID : JID) : bool :=
  String.eqb (Server chatJID) DefaultUserServer || String.eqb (Server chatJID) HiddenUserServer.

(** A row no receipt can name a participant for. *)
Definition unaddressable (chatJID : JID) (user : string) : Prop := is_direct chatJID = false ∧ (user = "" ∨ user = User chatJID).

Definition unaddressable_sender (chatJID : JID) (snd : string) : Prop := unaddressable chatJID (bareSenderUser snd).

Lemma group_unaddressable pending chatJID id :
  id ∈ (groupBySender pending chatJID).2 →
  ∃ m, m ∈ pending ∧ u_id m = id ∧ is_direct chatJID = false ∧ (u_sender m = "" ∨ u_sender m = User chatJID).
Proof.
  unfold groupBySender, is_direct. destruct (_ || _); [by intros ?%not_elem_of_nil|]. 
  set (step := λ st m, _). assert (∀ st, id ∈ (foldl step st pending).2 → id ∈ st.2 ∨
    ∃ m, m ∈ pending ∧ u_id m = id ∧ false = false ∧ (u_sender m = "" ∨ u_sender m = User chatJID)) as Hgen.
  { induction pending as [|m pending IH]; intros st; simpl; [by left|]. intros [Hin|(q & Hq & Hrest)]%IH; [|right; exists q; split; [by right|done]].
    unfold step in Hin. destruct st as [groups un]. destruct (String.eqb (u_sender m) "" || _) eqn:He; simpl in *; [|by left].
    apply elem_of_app in Hin as [?|Hin]; [by left|]. apply list_elem_of_singleton in Hin as ->. right. exists m. split; [by left|].
    split; [done|]. split; [done|]. apply orb_true_iff in He as [He|He]; apply String.eqb_eq in He; auto. }
  intros [Hin|?]%Hgen; [by apply not_elem_of_nil in Hin|done].
Qed.

Definition unread_of (kr : key * message_row) : unreadInboundMessage :=
  {| u_id := kr.1.1; u_sender := bareSenderUser (sender kr.2); u_time := timestamp kr.2 |}.

Lemma page_eq chat upTo n db : UnreadInboundMessages chat upTo (S n) db = map unread_of (take (S n) (selected (pending_row db chat upTo) db)).
Proof. done. Qed.

Lemma page_sorted l : StronglySorted time_le l → StronglySorted older (map unread_of l).
Proof. induction 1 as [|x l _ IH Hx]; simpl; constructor; [done|]. apply (Forall_fmap unread_of). done. Qed.

Lemma range_chat db chat upTo kr : in_range db chat upTo kr = true → kr.1 = (kr.1.1, chat).
Proof. destruct kr as [[i c] r]. unfold in_range. intros Hr. bool_split. simpl. f_equal. by apply String.eqb_eq. Qed.

Lemma marker_mark t db chat at_ :
  marker {| rows := t; chat_rows := Chats.markChatReadWith chat (at_ * 10 ^ 9) (chat_rows db) |} chat =
  Chats.merge_time (marker db chat) (Some at_).
Proof.
  unfold marker, Chats.markChatReadWith. simpl. rewrite lookup_insert_eq. simpl. unfold stamp. rewrite Z.div_mul by lia.
  by destruct (chat_rows db !! chat).
Qed.

Lemma merge_time_or a b x : Chats.merge_time a (Some b) = Some x → a = Some x ∨ b = x.
Proof. destruct a as [a|]; simpl; [|intros [= ->]; auto]. case_bool_decide; intros [= ->]; auto. Qed.

Definition page_of (chat : string) (upTo : Z) (db : archive) : list unreadInboundMessage :=
  UnreadInboundMessages chat upTo (S markReadMaxMessages) db.

Lemma page_pending chat upTo db :
  take markReadMaxMessages (page_of chat upTo db) = map unread_of (take markReadMaxMessages (selected (pending_row db chat upTo) db)).
Proof. unfold page_of. rewrite page_eq, <-!firstn_map, take_take. f_equal. Qed.

Lemma page_overflow chat upTo db :
  page_of chat upTo db !! markReadMaxMessages = unread_of <$> selected (pending_row db chat upTo) db !! markReadMaxMessages.
Proof. unfold page_of. rewrite page_eq. change (map unread_of) with (fmap unread_of (M := list)). rewrite list_lookup_fmap. by rewrite lookup_take_lt by apply Nat.lt_succ_diag_r. Qed.

(** Why a marker may pass an unacknowledged row: its receipt went out, nobody can
    be addressed for it, or a whole page of receipts was of its very second. *)
Definition justified (chatJID : JID) (page : list unreadInboundMessage) (rs : list receipt) (id : string) (r : message_row) : Prop :=
  id ∈ sent_ids rs ∨ unaddressable_sender chatJID (sender r) ∨
  (markReadMaxMessages < length page)%nat ∧
  ∀ m, m ∈ take markReadMaxMessages page →
    u_time m = timestamp r ∧ (u_id m ∈ sent_ids rs ∨ unaddressable chatJID (u_sender m)).

Definition covers (db : archive) (chat : string) (chatJID : JID) (upTo : Z) (rs : list receipt) (at_ : Z) : Prop :=
  ∀ id r, rows db !! (id, chat) = Some r → pending_row db chat upTo ((id, chat), r) = true → timestamp r ≤ at_ →
    justified chatJID (page_of chat upTo db) rs id r.

Lemma take_2000_sorted chat upTo db :
  StronglySorted older (take markReadMaxMessages (page_of chat upTo db)) ∧
  ∀ o m, page_of chat upTo db !! markReadMaxMessages = Some o → m ∈ take markReadMaxMessages (page_of chat upTo db) → older m o.
Proof.
  assert (StronglySorted older (page_of chat upTo db)) as Hs.
  { unfold page_of. rewrite page_eq. apply page_sorted.
    pose proof (selected_sorted (pending_row db chat upTo) db) as Hs. rewrite <-(take_drop (S markReadMaxMessages) (selected _ _)) in Hs.
    by apply StronglySorted_app_1_l in Hs. }
  split.
  - rewrite <-(take_drop markReadMaxMessages (page_of chat upTo db)) in Hs. by apply StronglySorted_app_1_l in Hs.
  - intros o m Ho [i Hi]%list_elem_of_lookup. apply lookup_take_Some in Hi as [Hi Hlt].
    eapply (StronglySorted_lookup_lt older); [exact Hs|exact Hi|exact Ho|done].
Qed.

Lemma page_row chat upTo db m :
  m ∈ take markReadMaxMessages (page_of chat upTo db) →
  ∃ r, rows db !! (u_id m, chat) = Some r ∧ pending_row db chat upTo ((u_id m, chat), r) = true ∧ m = unread_of ((u_id m, chat), r).
Proof.
  rewrite page_pending. intros ([k r] & -> & Hin)%list_elem_of_fmap.
  assert ((k, r) ∈ selected (pending_row db chat upTo) db) as Hsel. { rewrite <-(take_drop markReadMaxMessages). apply elem_of_app. by left. }
  apply elem_of_selected in Hsel as [Hk Hp]. simpl in *. assert (in_range db chat upTo (k, r) = true) as Hr by (unfold pending_row in Hp; by bool_split).
  apply range_chat in Hr. simpl in Hr. exists r. rewrite <-Hr. done.
Qed.

Lemma page_unaddressable chat upTo db chatJID m :
  let pending := take markReadMaxMessages (page_of chat upTo db) in
  m ∈ pending → u_id m ∈ (groupBySender pending chatJID).2 → unaddressable chatJID (u_sender m).
Proof.
  cbv zeta. intros Hm (m' & Hm' & Hid & Hdir & Hsnd)%group_unaddressable. apply page_row in Hm as (r & Hr & _ & Em).
  apply page_row in Hm' as (r' & Hr' & _ & Em'). rewrite Hid in Hr', Em'.
  rewrite Hr in Hr'. injection Hr' as <-. assert (m' = m) as -> by congruence. by split.
Qed.

Lemma covers_page db chat chatJID upTo rs at_ :
  let page := page_of chat upTo db in
  let pending := take markReadMaxMessages page in
  covered_time pending (coveredPrefix pending (list_to_set (groupBySender pending chatJID).2 ∪ sent_ids rs) (page !! markReadMaxMessages)) = Some at_ →
  covers db chat chatJID upTo rs at_.
Proof.
  cbv zeta. intros Hc. destruct (take_2000_sorted chat upTo db) as [Hs Ho].
  destruct (coveredPrefix_spec _ _ _ _ Hs Ho Hc) as [Hin Hover]. clear Hc. intros id r Hrow Hpend Hle.
  set (page := page_of chat upTo db) in *. set (pending := take markReadMaxMessages page) in *.
  assert (((id, chat), r) ∈ selected (pending_row db chat upTo) db) as Hsel by by apply elem_of_selected.
  rewrite <-(take_drop markReadMaxMessages (selected _ _)) in Hsel. apply elem_of_app in Hsel as [Hpg|Hrest].
  - assert (unread_of ((id, chat), r) ∈ pending) as Hm. { subst pending page. rewrite page_pending. apply list_elem_of_fmap. eauto. }
    specialize (Hin _ Hm Hle). simpl in Hin. apply elem_of_union in Hin as [Hun|Hsent]; [|by left]. right. left.
    apply elem_of_list_to_set in Hun. apply group_unaddressable in Hun as (m & Hmp & Hid & Hdir & Hsnd).
    apply page_row in Hmp as (r' & Hr' & _ & Hm'). rewrite Hid in Hr'. simplify_eq. rewrite Hm' in Hsnd. done.
  - apply list_elem_of_lookup in Hrest as [j Hj]. rewrite lookup_drop in Hj.
    destruct (lookup_lt_is_Some_2 (selected (pending_row db chat upTo) db) markReadMaxMessages) as [o Hoo].
    { apply lookup_lt_Some in Hj. lia. }
    assert (page !! markReadMaxMessages = Some (unread_of o)) as Hpo by (subst page; by rewrite page_overflow, Hoo).
    assert (timestamp o.2 ≤ timestamp r) as Hle'.
    { destruct j as [|j]; [rewrite Nat.add_0_r in Hj; simplify_eq; simpl; lia|].
      exact (StronglySorted_lookup_lt time_le _ _ _ _ _ (selected_sorted _ db) Hoo Hj ltac:(lia)). }
    destruct (Hover _ Hpo) as [Hlt|[Heq Hall]]; [simpl in Hlt; lia|]. simpl in Heq. assert (at_ = timestamp r) as -> by lia.
    right. right. split; [by eapply lookup_lt_Some|]. intros m Hm. specialize (Hall m Hm). split; [done|].
    assert (u_time m ≤ timestamp r) as Htm by lia. specialize (Hin m Hm Htm).
    apply elem_of_union in Hin as [Hun%elem_of_list_to_set|Hsent]; [right|by left].
    by apply page_unaddressable in Hun.
Qed.

(** *** Saved progress *)

(** The rows after a refused run: an acknowledged one is flagged. *)
Lemma flag_rows (chat : string) (pending : list unreadInboundMessage) (ack : gset string) (t : messages) id :
  foldl (λ t m, if bool_decide (u_id m ∈ ack) then mark_receipt_sent (u_id m, chat) t else t) t pending !! (id, chat) =
  (λ r, if bool_decide (id ∈ ack ∧ id ∈ map u_id pending) && negb (is_from_me r)
        then with_marks (view_once r) (target_message_id r) true r else r) <$> t !! (id, chat).
Proof.
  revert t. induction pending as [|m pending IH]; intros t; simpl.
  { rewrite bool_decide_false by (intros [_ ?%not_elem_of_nil]; done). simpl. by destruct (t !! (id, chat)). }
  rewrite IH. clear IH. destruct (decide (u_id m = id)) as [<-|Hne].
  - destruct (decide (u_id m ∈ ack)) as [Hack|Hack].
    + rewrite (bool_decide_true (u_id m ∈ ack)) by done. unfold mark_receipt_sent. rewrite lookup_alter_eq. destruct (t !! (u_id m, chat)) as [r|]; simpl; [|done]. f_equal.
      rewrite (bool_decide_true (_ ∧ u_id m ∈ u_id m :: _)) by (split; [done|by left]).
      destruct (is_from_me r) eqn:Hr; simpl; rewrite Hr; [by rewrite andb_false_r|]. by destruct (bool_decide _).
    + rewrite !bool_decide_false by tauto. done.
  - assert (bool_decide (id ∈ ack ∧ id ∈ u_id m :: map u_id pending) = bool_decide (id ∈ ack ∧ id ∈ map u_id pending)) as ->.
    { apply bool_decide_ext. rewrite elem_of_cons. naive_solver. }
    destruct (bool_decide (u_id m ∈ ack)); [|done]. unfold mark_receipt_sent. rewrite lookup_alter_ne by congruence. done.
Qed.

Lemma flag_other (chat : string) (pending : list unreadInboundMessage) (ack : gset string) (t : messages) (k : key) : k.2 ≠ chat →
  foldl (λ t m, if bool_decide (u_id m ∈ ack) then mark_receipt_sent (u_id m, chat) t else t) t pending !! k = t !! k.
Proof.
  intros Hk. revert t. induction pending as [|m pending IH]; intros t; simpl; [done|]. rewrite IH. case_bool_decide; [|done].
  unfold mark_receipt_sent. rewrite lookup_alter_ne; [done|]. by intros <-.
Qed.

(** A saved prefix passes only rows that are flagged, or behind the marker. *)
Lemma prefix_spec chat upTo db at_ id r :
  AcknowledgedReceiptPrefix chat upTo db = Some at_ →
  rows db !! (id, chat) = Some r → pending_row db chat upTo ((id, chat), r) = true → at_ < timestamp r.
Proof.
  unfold AcknowledgedReceiptPrefix. intros Hp Hrow Hpend.
  assert (((id, chat), r) ∈ selected (pending_row db chat upTo) db) as Hsel by by apply elem_of_selected.
  destruct (last (selected _ _)) as [kr|] eqn:Hl; [|done]. injection Hp as <-.
  apply last_Some_elem_of, elem_of_selected in Hl as [_ Hf]. bool_split.
  pose proof (selected_sorted (pending_row db chat upTo) db) as Hs.
  destruct (selected (pending_row db chat upTo) db) as [|kr0 l]; [by apply not_elem_of_nil in Hsel|].
  apply elem_of_cons in Hsel as [<-|Hin]; [done|]. apply StronglySorted_inv in Hs as [_ Hall]. rewrite Forall_forall in Hall.
  specialize (Hall _ Hin). unfold time_le in Hall. simpl in *. lia.
Qed.

Lemma range_marker db db' chat upTo k r :
  in_range db chat upTo (k, r) = true → (∀ at_, marker db' chat = Some at_ → at_ < timestamp r) → in_range db' chat upTo (k, r) = true.
Proof.
  destruct k as [i c]. unfold in_range. intros Hr Hm. apply andb_true_iff in Hr as [Hr _]. rewrite Hr. simpl.
  destruct (marker db' chat) as [at_|]; [|done]. by rewrite bool_decide_true by eauto.
Qed.

(** The second write of a call, on top of the first. *)
Lemma covers_prefix db db1 chat chatJID upTo rs at_ :
  (∀ id r, rows db !! (id, chat) = Some r → pending_row db chat upTo ((id, chat), r) = true →
     rows db1 !! (id, chat) = Some r ∨ justified chatJID (page_of chat upTo db) rs id r) →
  (∀ a, marker db1 chat = Some a → covers db chat chatJID upTo rs a) →
  AcknowledgedReceiptPrefix chat upTo db1 = Some at_ → covers db chat chatJID upTo rs at_.
Proof.
  intros Hrows Hm Hp id r Hrow Hpend Hle. destruct (Hrows id r Hrow Hpend) as [Hr1|Hj]; [|done].
  assert ((∃ a, marker db1 chat = Some a ∧ timestamp r ≤ a) ∨ ∀ a, marker db1 chat = Some a → a < timestamp r) as [(a & Ha & Hra)|Hnew].
  { destruct (marker db1 chat) as [a|]; [|by right]. destruct (decide (timestamp r ≤ a)); [left; eauto|right; intros ? [= <-]; lia]. }
  - by eapply (Hm a Ha).
  - exfalso. assert (at_ < timestamp r); [|lia]. eapply prefix_spec; [exact Hp|exact Hr1|]. unfold pending_row in *. bool_split.
    rewrite (range_marker db db1) by done. by apply negb_true_iff.
Qed.

Lemma persist_prefix_rows f chat upTo db : rows (persistAcknowledgedReceiptPrefix f chat upTo db).1 = rows db.
Proof.
  unfold persistAcknowledgedReceiptPrefix. destruct (negb _); [done|]. destruct (AcknowledgedReceiptPrefix _ _ _); [|done].
  unfold persistReadMarker. by destruct (prefix_ok f).
Qed.

Lemma persist_prefix_marker f chat upTo db a :
  marker (persistAcknowledgedReceiptPrefix f chat upTo db).1 chat = Some a →
  marker db chat = Some a ∨ AcknowledgedReceiptPrefix chat upTo db = Some a.
Proof.
  unfold persistAcknowledgedReceiptPrefix. destruct (negb _); [by left|]. destruct (AcknowledgedReceiptPrefix _ _ _) as [b|]; [|by left].
  unfold persistReadMarker. destruct (prefix_ok f); [|by left]. simpl. rewrite marker_mark. intros [?| ->]%merge_time_or; auto.
Qed.

Lemma covers_old db chat chatJID upTo rs a : marker db chat = Some a → covers db chat chatJID upTo rs a.
Proof.
  intros Hm id r _ Hp Hle. exfalso. unfold pending_row, in_range in Hp. rewrite Hm in Hp. bool_split. lia.
Qed.

Lemma page_ids chat upTo db id :
  id ∈ map u_id (take markReadMaxMessages (page_of chat upTo db)) →
  ∃ r, rows db !! (id, chat) = Some r ∧ pending_row db chat upTo ((id, chat), r) = true.
Proof. intros (m & -> & Hm)%list_elem_of_fmap. apply page_row in Hm as (r & Hr & Hp & _). eauto. Qed.

(** What the unaddressable ids of the page are. *)
Lemma unaddressable_row db chat chatJID upTo id r :
  id ∈ (groupBySender (take markReadMaxMessages (page_of chat upTo db)) chatJID).2 → rows db !! (id, chat) = Some r →
  unaddressable_sender chatJID (sender r).
Proof.
  intros (m & Hmp & Hid & Hdir & Hsnd)%group_unaddressable Hrow. apply page_row in Hmp as (r' & Hr' & _ & Hm').
  rewrite Hid in Hr'. simplify_eq. rewrite Hm' in Hsnd. done.
Qed.

(** The rows and the marker after a refused run. *)
Lemma refused_spec ok db chat upTo ack :
  let pending := take markReadMaxMessages (page_of chat upTo db) in
  let overflow := page_of chat upTo db !! markReadMaxMessages in
  let db1 := persistRefusedReceiptProgress ok chat pending ack overflow db in
  (∀ id r, rows db !! (id, chat) = Some r → rows db1 !! (id, chat) = Some r ∨ id ∈ ack) ∧
  ∀ a, marker db1 chat = Some a → marker db chat = Some a ∨ covered_time pending (coveredPrefix pending ack overflow) = Some a.
Proof.
  cbv zeta. unfold persistRefusedReceiptProgress. destruct (_ || _); [auto|]. split.
  - intros id r Hr. simpl. rewrite flag_rows, Hr. simpl. destruct (bool_decide _ && _) eqn:Hb; [|by left].
    apply andb_true_iff in Hb as [[? _]%bool_decide_eq_true _]. by right.
  - intros a. destruct (covered_time _ _) as [b|] eqn:Hc; [|by left].
    rewrite marker_mark. intros [?| ->]%merge_time_or; auto.
Qed.

(** The covering of the marker after [persistAcknowledgedReceiptPrefix]. *)
Lemma covers_saved f db db1 chat chatJID upTo rs a :
  (∀ id r, rows db !! (id, chat) = Some r → pending_row db chat upTo ((id, chat), r) = true →
     rows db1 !! (id, chat) = Some r ∨ justified chatJID (page_of chat upTo db) rs id r) →
  (∀ a, marker db1 chat = Some a → covers db chat chatJID upTo rs a) →
  marker (persistAcknowledgedReceiptPrefix f chat upTo db1).1 chat = Some a → covers db chat chatJID upTo rs a.
Proof. intros Hrows Hm [?|Hp]%persist_prefix_marker; [auto|]. by eapply covers_prefix. Qed.

Lemma covers_coverage f db chat chatJID upTo rs covered a :
  (∀ b, covered = Some b → covers db chat chatJID upTo rs b) →
  marker (save_coverage f chat upTo covered db).1 chat = Some a → covers db chat chatJID upTo rs a.
Proof.
  intros Hc. unfold save_coverage. destruct covered as [b|].
  - assert (∀ c, marker (persistReadMarker (marker_ok f) chat b db).1 chat = Some c → covers db chat chatJID upTo rs c) as Hm1.
    { unfold persistReadMarker. destruct (marker_ok f); simpl; [|intros c; apply covers_old]. intros c. rewrite marker_mark.
      intros [?|<-]%merge_time_or; [by apply covers_old|auto]. }
    assert (rows (persistReadMarker (marker_ok f) chat b db).1 = rows db) as Hr1 by (unfold persistReadMarker; by destruct (marker_ok f)).
    destruct (persistReadMarker (marker_ok f) chat b db) as [db1 [|]]; simpl in *; [apply Hm1|].
    apply covers_saved; [|done]. intros. left. by rewrite Hr1.
  - apply covers_saved; [by left|]. intros c. apply covers_old.
Qed.

(** The progress of a run on the page of a chat. *)
Definition page_progress (db : archive) (chat : string) (chatJID : JID) (upTo : Z) (p : progress) : Prop :=
  acked p = list_to_set (groupBySender (take markReadMaxMessages (page_of chat upTo db)) chatJID).2 ∪ sent_ids (sent p).

Lemma run_progress db chat chatJID upTo resolve outcome groups un :
  groupBySender (take markReadMaxMessages (page_of chat upTo db)) chatJID = (groups, un) →
  page_progress db chat chatJID upTo
    (end_of (send_groups resolve outcome groups {| acked := list_to_set un; sent := []; tried := O; failure := None |})).
Proof.
  intros Hg. destruct (send_groups_extends resolve outcome groups {| acked := list_to_set un; sent := []; tried := O; failure := None |})
    as (rs & Hs & Ha). unfold page_progress. rewrite Ha, Hs, Hg. done.
Qed.

Lemma progress_justified db chat chatJID upTo p id r :
  page_progress db chat chatJID upTo p → rows db !! (id, chat) = Some r → id ∈ acked p →
  justified chatJID (page_of chat upTo db) (sent p) id r.
Proof.
  intros -> Hrow [Hin|Hin]%elem_of_union; [|by left]. right. left. apply elem_of_list_to_set in Hin. by eapply unaddressable_row.
Qed.

Lemma whole_chat_covers connected query_error resolve outcome f chat chatJID upTo db a :
  let e := markWholeChatRead connected query_error resolve outcome f chat chatJID upTo db in
  marker (db_after e) chat = Some a → covers db chat chatJID upTo (receipts e) a.
Proof.
  cbv zeta. unfold markWholeChatRead. destruct connected; [|apply covers_old]. destruct query_error; [apply covers_old|]. cbn [negb].
  fold (page_of chat upTo db). case_bool_decide as Hnil.
  { destruct (persistAcknowledgedReceiptPrefix f chat upTo db) as [db' w] eqn:Hdb. simpl. intros Hm.
    apply (covers_saved f db db); [by left|intros b; apply covers_old|by rewrite Hdb]. }
  destruct (addressed resolve chat); [|apply covers_old]. destruct (groupBySender _ chatJID) as [groups un] eqn:Hg.
  pose proof (run_progress db chat chatJID upTo resolve outcome groups un Hg) as Hrun.
  assert (∀ p, page_progress db chat chatJID upTo p → let pending := take markReadMaxMessages (page_of chat upTo db) in
    ∀ b, covered_time pending (coveredPrefix pending (acked p) (page_of chat upTo db !! markReadMaxMessages)) = Some b →
    covers db chat chatJID upTo (sent p) b) as Hpage by (intros p Hp b; rewrite Hp; apply covers_page).
  destruct (send_groups _ _ _ _) as [p|p|p]; simpl in Hrun.
  - destruct (save_coverage _ _ _ _ _) as [db' w] eqn:Hs. simpl. intros Hm. eapply covers_coverage; [exact (Hpage p Hrun)|by erewrite Hs].
  - destruct (refused_spec (progress_ok f) db chat upTo (acked p)) as [Hrows Hmark].
    destruct (persistAcknowledgedReceiptPrefix f chat upTo _) as [db2 w2] eqn:Hdb. simpl. intros Hm.
    eapply (covers_saved f db); [| |by erewrite Hdb].
    + intros id r Hrow _. destruct (Hrows id r Hrow) as [?|Hin]; [by left|right; by apply progress_justified].
    + intros c [?|Hc]%Hmark; [by apply covers_old|by apply Hpage].
  - destruct (save_coverage _ _ _ _ _) as [db' w] eqn:Hs. simpl. intros Hm. eapply covers_coverage; [exact (Hpage p Hrun)|by erewrite Hs].
Qed.

(** *** Groups and batches *)

Definition group_ids (gs : list senderBatch) : list string := mjoin (sb_ids <$> gs).

Lemma add_to_group_perm snd id gs : group_ids (add_to_group snd id gs) ≡ₚ id :: group_ids gs.
Proof.
  unfold group_ids. induction gs as [|g gs IH]; simpl; [done|]. destruct (String.eqb _ _); simpl.
  - rewrite <-app_assoc. simpl. by rewrite Permutation_middle.
  - rewrite IH. by rewrite Permutation_middle.
Qed.

(** The groups and the unaddressable rows are the page. *)
Lemma groupBySender_perm pending chatJID :
  let '(groups, un) := groupBySender pending chatJID in group_ids groups ++ un ≡ₚ map u_id pending.
Proof.
  unfold groupBySender. destruct (_ || _); [unfold group_ids; simpl; by rewrite !app_nil_r|].
  set (step := λ st m, _). assert (∀ st, let '(groups, un) := foldl step st pending in
    group_ids groups ++ un ≡ₚ group_ids st.1 ++ st.2 ++ map u_id pending) as Hgen; [|exact (Hgen ([], []))].
  induction pending as [|m pending IH]; intros st; simpl; [destruct st as [g u]; simpl; by rewrite app_nil_r|].
  specialize (IH (step st m)). destruct (foldl step (step st m) pending) as [groups un]. rewrite IH. clear IH.
  destruct st as [g u]. unfold step. destruct (_ || _); simpl; [by rewrite <-app_assoc|].
  rewrite add_to_group_perm. simpl. by rewrite !app_assoc, Permutation_middle.
Qed.

Lemma chunks_concat n fuel ids : (0 < n)%nat → (length ids ≤ fuel)%nat → mjoin (chunks fuel n ids) = ids.
Proof.
  intros Hn. revert ids. induction fuel as [|fuel IH]; intros ids Hl; [by destruct ids; simpl in *; [|lia]|].
  destruct ids as [|i ids]; [done|]. cbn [chunks]. change (mjoin (?x :: ?l)) with (x ++ mjoin l). cbn [mjoin list_join].
  rewrite IH; [apply take_drop|]. rewrite length_drop. simpl in *. lia.
Qed.

(** Receipts name ids of their groups only. *)
Lemma send_chunks_subset outcome snd cs p rs :
  sent (end_of (send_chunks outcome snd cs p)) = sent p ++ rs → sent_ids rs ⊆ list_to_set (mjoin cs).
Proof.
  revert p rs. induction cs as [|c cs IH]; intros p rs; simpl.
  { intros Hs. rewrite <-(app_nil_r (sent p)) in Hs at 1. apply app_inv_head in Hs as <-. done. }
  destruct (outcome (tried p)); simpl.
  1,2: intros Hs; rewrite <-(app_nil_r (sent p)) in Hs at 1; apply app_inv_head in Hs as <-; unfold sent_ids; set_solver.
  intros Hs. destruct (send_chunks_extends outcome snd cs {| acked := acked p ∪ list_to_set c;
    sent := sent p ++ [{| rc_ids := c; rc_sender := snd |}]; tried := S (tried p); failure := failure p |}) as (rs' & Hs' & _).
  pose proof (IH _ _ Hs') as Hsub. rewrite Hs' in Hs. simpl in Hs. rewrite <-app_assoc in Hs. apply app_inv_head in Hs as <-.
  unfold sent_ids in *. simpl. rewrite !list_to_set_app_L. set_solver.
Qed.

Lemma send_groups_subset resolve outcome gs p rs :
  sent (end_of (send_groups resolve outcome gs p)) = sent p ++ rs → sent_ids rs ⊆ list_to_set (group_ids gs).
Proof.
  revert p rs. induction gs as [|g gs IH]; intros p rs; cbn [send_groups].
  { intros Hs. simpl in Hs. rewrite <-(app_nil_r (sent p)) in Hs at 1. apply app_inv_head in Hs as <-. done. }
  assert (list_to_set (group_ids (g :: gs)) = list_to_set (sb_ids g) ∪ list_to_set (group_ids gs) :> gset string) as Hg
    by (unfold group_ids; simpl; by rewrite list_to_set_app_L).
  assert (∀ snd, sent (end_of match send_chunks outcome snd (chunks (length (sb_ids g)) markReadBatch (sb_ids g)) p with
    Go p' => send_groups resolve outcome gs p' | e => e end) = sent p ++ rs → sent_ids rs ⊆ list_to_set (group_ids (g :: gs))) as Hgo.
  { intros snd. destruct (send_chunks_extends outcome snd (chunks (length (sb_ids g)) markReadBatch (sb_ids g)) p) as (r1 & H1 & _).
    pose proof (send_chunks_subset _ _ _ _ _ H1) as Hsub. rewrite chunks_concat in Hsub; [|unfold markReadBatch; lia|done].
    destruct (send_chunks _ _ _ _) as [p'|p'|p']; simpl in *.
    - destruct (send_groups_extends resolve outcome gs p') as (r2 & H2 & _). pose proof (IH _ _ H2) as Hsub2.
      rewrite H2, H1, <-app_assoc. intros Hs%app_inv_head. subst rs. unfold sent_ids in *. rewrite fmap_app, join_app, list_to_set_app_L. set_solver.
    - rewrite H1. intros Hs%app_inv_head. subst rs. set_solver.
    - rewrite H1. intros Hs%app_inv_head. subst rs. set_solver. }
  destruct (String.eqb (sb_sender g) ""); [apply Hgo|]. destruct (addressed resolve (sb_sender g)); [apply Hgo|].
  intros Hs. match type of Hs with sent (end_of (send_groups _ _ _ ?q)) = _ => pose proof (IH q rs Hs) end. set_solver.
Qed.

(** A refused call flags what it sent. *)
Lemma refused_flags connected query_error resolve outcome f chat chatJID upTo db id :
  let e := markWholeChatRead connected query_error resolve outcome f chat chatJID upTo db in
  reply e = GateRefused → progress_ok f = true → id ∈ sent_ids (receipts e) →
  ∃ r, rows (db_after e) !! (id, chat) = Some r ∧ read_receipt_sent r = true.
Proof.
  cbv zeta. unfold markWholeChatRead. destruct connected; [|done]. destruct query_error; [done|]. cbn [negb]. fold (page_of chat upTo db).
  case_bool_decide as Hnil; [by destruct (persistAcknowledgedReceiptPrefix _ _ _ _)|].
  destruct (addressed resolve chat); [|done]. destruct (groupBySender _ chatJID) as [groups un] eqn:Hg.
  pose proof (run_progress db chat chatJID upTo resolve outcome groups un Hg) as Hrun.
  pose proof (groupBySender_perm (take markReadMaxMessages (page_of chat upTo db)) chatJID) as Hperm. rewrite Hg in Hperm.
  pose proof (send_groups_subset resolve outcome groups {| acked := list_to_set un; sent := []; tried := O; failure := None |}) as Hsub.
  destruct (send_groups _ _ _ _) as [p|p|p]; [by destruct (save_coverage _ _ _ _ _)| |by destruct (save_coverage _ _ _ _ _)].
  simpl in Hrun, Hsub. destruct (persistAcknowledgedReceiptPrefix f chat upTo _) as [db2 w2] eqn:Hdb. simpl. intros _ Hok Hin.
  match type of Hdb with persistAcknowledgedReceiptPrefix _ _ _ ?db1 = _ =>
    assert (rows db2 = rows db1) as -> by (rewrite <-(persist_prefix_rows f chat upTo db1); by rewrite Hdb) end.
  assert (id ∈ acked p) as Hack by (rewrite Hrun; set_solver).
  assert (id ∈ map u_id (take markReadMaxMessages (page_of chat upTo db))) as Hpg.
  { rewrite <-Hperm. apply elem_of_app. left. apply (Hsub _ eq_refl), elem_of_list_to_set in Hin. done. }
  destruct (page_ids chat upTo db id Hpg) as (r & Hr & Hpend).
  unfold persistRefusedReceiptProgress. rewrite Hok, bool_decide_false by set_solver. cbn [orb negb]. simpl. rewrite flag_rows, Hr. simpl.
  eexists. split; [done|]. rewrite bool_decide_true by done. unfold pending_row, in_range in Hpend. bool_split.
  by rewrite (proj2 (negb_true_iff (is_from_me r))).
Qed.

Lemma unread_unflagged chat upTo limit db m :
  m ∈ UnreadInboundMessages chat upTo limit db → ∃ r, rows db !! (u_id m, chat) = Some r ∧ pending_row db chat upTo ((u_id m, chat), r) = true.
Proof.
  unfold UnreadInboundMessages. intros ([k r] & -> & Hin)%list_elem_of_fmap.
  assert ((k, r) ∈ selected (pending_row db chat upTo) db) as Hsel.
  { case_bool_decide; [done|]. rewrite <-(take_drop limit). apply elem_of_app. by left. }
  apply elem_of_selected in Hsel as [Hk Hp]. simpl in *. assert (in_range db chat upTo (k, r) = true) as Hr by (unfold pending_row in Hp; by bool_split).
  apply range_chat in Hr. simpl in Hr. rewrite <-Hr. eauto.
Qed.

(** *** A run without refusals *)

Lemma send_chunks_all outcome snd cs p : (∀ i, outcome i = Sent) →
  ∃ p', send_chunks outcome snd cs p = Go p' ∧ failure p' = failure p ∧
        sent p' = sent p ++ map (λ c, {| rc_ids := c; rc_sender := snd |}) cs.
Proof.
  intros Ho. revert p. induction cs as [|c cs IH]; intros p; simpl; [exists p; by rewrite app_nil_r|].
  rewrite Ho. destruct (IH {| acked := acked p ∪ list_to_set c; sent := sent p ++ [{| rc_ids := c; rc_sender := snd |}];
    tried := S (tried p); failure := failure p |}) as (p' & Hp & Hf & Hs). exists p'. rewrite Hp, Hf, Hs. simpl. by rewrite <-app_assoc.
Qed.

Lemma receipts_ids (snd : option JID) cs : rc_ids <$> map (λ c, {| rc_ids := c; rc_sender := snd |}) cs = cs.
Proof. induction cs as [|c cs IH]; simpl; [done|]. f_equal. exact IH. Qed.

Lemma send_groups_all resolve outcome gs p : (∀ i, outcome i = Sent) → (∀ s, s ≠ "" → is_Some (addressed resolve s)) →
  ∃ p', send_groups resolve outcome gs p = Go p' ∧ failure p' = failure p ∧
        mjoin (rc_ids <$> sent p') = mjoin (rc_ids <$> sent p) ++ group_ids gs.
Proof.
  intros Ho Hr. revert p. induction gs as [|g gs IH]; intros p; cbn [send_groups].
  { exists p. unfold group_ids. simpl. by rewrite app_nil_r. }
  assert (∀ snd, ∃ p', match send_chunks outcome snd (chunks (length (sb_ids g)) markReadBatch (sb_ids g)) p with
    Go p' => send_groups resolve outcome gs p' | e => e end = Go p' ∧ failure p' = failure p ∧
    mjoin (rc_ids <$> sent p') = mjoin (rc_ids <$> sent p) ++ group_ids (g :: gs)) as Hgo.
  { intros snd. destruct (send_chunks_all outcome snd (chunks (length (sb_ids g)) markReadBatch (sb_ids g)) p Ho) as (p1 & -> & Hf & Hs).
    destruct (IH p1) as (p2 & -> & Hf2 & Hs2). exists p2. split; [done|]. split; [congruence|]. rewrite Hs2, Hs, fmap_app, join_app, <-app_assoc.
    f_equal. unfold group_ids. simpl. f_equal. rewrite receipts_ids. apply chunks_concat; [unfold markReadBatch; lia|done]. }
  destruct (String.eqb_spec (sb_sender g) "") as [|Hne]; [apply Hgo|]. destruct (Hr _ Hne) as [j ->]. apply Hgo.
Qed.

Lemma acked_prefix_all (ack : gset string) pending : (∀ m, m ∈ pending → u_id m ∈ ack) → acked_prefix ack pending = (length pending, None).
Proof.
  induction pending as [|m pending IH]; intros Hall; simpl; [done|]. rewrite bool_decide_true by (apply Hall; by left).
  rewrite IH; [done|]. intros q Hq. apply Hall. by right.
Qed.
End Handlers.

(** ** Properties *)

Section Completion.
Context `{JidOps} `{Sqlite}.

(** The marker only moves forward. *)
Definition ahead (db db' : archive) (chat : string) : Prop :=
  rows db' = rows db ∧ ∀ a, marker db chat = Some a → ∃ b, marker db' chat = Some b ∧ a ≤ b.

Lemma ahead_mark ok db chat at_ : ahead db (persistReadMarker ok chat at_ db).1 chat.
Proof.
  unfold persistReadMarker. destruct ok; simpl; [|split; [done|eauto with lia]]. split; [done|]. intros a Ha. rewrite marker_mark.
  by apply Chats.merge_time_le.
Qed.

Lemma ahead_prefix f db chat upTo : ahead db (persistAcknowledgedReceiptPrefix f chat upTo db).1 chat.
Proof.
  unfold persistAcknowledgedReceiptPrefix. destruct (negb _); [split; [done|eauto with lia]|].
  destruct (AcknowledgedReceiptPrefix _ _ _); [apply ahead_mark|split; [done|eauto with lia]].
Qed.

Lemma ahead_pending db db' chat upTo kr : ahead db db' chat → pending_row db' chat upTo kr = true → pending_row db chat upTo kr = true.
Proof.
  intros [_ Hm]. destruct kr as [[i c] r]. unfold pending_row, in_range. intros [[Hp Hk]%andb_true_iff Hs]%andb_true_iff.
  rewrite Hs, Hp, andb_true_r. simpl. destruct (marker db chat) as [a|]; [|done]. destruct (Hm a eq_refl) as (b & Hb & Hle).
  rewrite Hb in Hk. bool_split. apply bool_decide_eq_true. lia.
Qed.

Lemma nothing_unread db chat upTo limit :
  (∀ kr, rows db !! kr.1 = Some kr.2 → pending_row db chat upTo kr = true → False) → UnreadInboundMessages chat upTo limit db = [].
Proof.
  intros Hno. unfold UnreadInboundMessages. destruct (selected (pending_row db chat upTo) db) as [|kr l] eqn:Hs.
  - case_bool_decide; [done|]. by rewrite take_nil.
  - exfalso. assert (kr ∈ selected (pending_row db chat upTo) db) as Hin by (rewrite Hs; by left). apply elem_of_selected in Hin as [? ?].
    by apply (Hno kr).
Qed.

Lemma short_page chat upTo db kr :
  (length (page_of chat upTo db) ≤ markReadMaxMessages)%nat → rows db !! kr.1 = Some kr.2 → pending_row db chat upTo kr = true →
  unread_of kr ∈ take markReadMaxMessages (page_of chat upTo db).
Proof.
  intros Hl Hrow Hp. rewrite page_pending. apply list_elem_of_fmap. exists kr. split; [done|].
  assert (length (selected (pending_row db chat upTo) db) ≤ markReadMaxMessages)%nat as Hsel.
  { unfold page_of in Hl. rewrite page_eq in Hl. rewrite length_map, length_take in Hl. lia. }
  rewrite take_ge by done. by apply elem_of_selected.
Qed.

(** A whole page acknowledged moves the marker past it. *)
Lemma full_coverage pending (ack : gset string) : pending ≠ [] → StronglySorted older pending → (∀ m, m ∈ pending → u_id m ∈ ack) →
  ∃ at_, covered_time pending (coveredPrefix pending ack None) = Some at_ ∧ ∀ m, m ∈ pending → u_time m ≤ at_.
Proof.
  intros Hne Hs Hall. unfold coveredPrefix. rewrite acked_prefix_all by done. simpl.
  destruct (length pending) as [|n] eqn:Hl; [by destruct pending|]. simpl. destruct (lookup_lt_is_Some_2 pending n) as [q Hq]; [lia|].
  rewrite Hq. exists (u_time q). split; [done|]. intros m [i Hi]%list_elem_of_lookup. apply lookup_lt_Some in Hi as Hlt.
  eapply sorted_lookup; [exact Hs|exact Hi|exact Hq|lia].
Qed.

(** The archive after a covered run. *)
Lemma coverage_done f chat upTo at_ db : marker_ok f = true →
  rows (save_coverage f chat upTo (Some at_) db).1 = rows db ∧
  ∃ b, marker (save_coverage f chat upTo (Some at_) db).1 chat = Some b ∧ at_ ≤ b ∧ ahead db (save_coverage f chat upTo (Some at_) db).1 chat.
Proof.
  intros Hok. unfold save_coverage, persistReadMarker. rewrite Hok. cbv iota beta.
  set (db1 := {| rows := rows db; chat_rows := _ |}). destruct (ahead_prefix f db1 chat upTo) as [Hr Hm].
  assert (∃ b, marker db1 chat = Some b ∧ at_ ≤ b ∧ ∀ a, marker db chat = Some a → a ≤ b) as (b & Hb & Hle & Hold).
  { subst db1. rewrite marker_mark. destruct (marker db chat) as [a|]; simpl; [|eexists; split; [done|split; [lia|done]]].
    case_bool_decide; eexists; (split; [done|]); (split; [lia|]); intros ? [= <-]; lia. }
  destruct (Hm b Hb) as (b' & Hb' & Hle'). split; [by rewrite Hr|]. exists b'. split; [done|]. split; [lia|].
  split; [by rewrite Hr|]. intros a Ha. exists b'. split; [done|]. specialize (Hold a Ha). lia.
Qed.
End Completion.

(** [C29] Marking a whole chat read never hides a message: a message the call had
    to consider and the new read marker passes was acknowledged to its sender,
    or has no sender that can be addressed, or comes after a full page of
    messages of its very second, each of which was acknowledged or has no
    sender that can be addressed, whatever batch is refused or fails and
    whatever write is lost. *)
Theorem read_marker_safe `{JidOps} `{Sqlite} connected query_error resolve outcome f chat chatJID upTo db id r a :
  let e := markWholeChatRead connected query_error resolve outcome f chat chatJID upTo db in
  rows db !! (id, chat) = Some r → pending_row db chat upTo ((id, chat), r) = true →
  marker (db_after e) chat = Some a → timestamp r ≤ a →
  id ∈ sent_ids (receipts e) ∨ unaddressable_sender chatJID (sender r) ∨
  (markReadMaxMessages < length (page_of chat upTo db))%nat ∧
  ∀ m, m ∈ take markReadMaxMessages (page_of chat upTo db) →
    u_time m = timestamp r ∧ (u_id m ∈ sent_ids (receipts e) ∨ unaddressable chatJID (u_sender m)).
Proof. intros e Hrow Hp Hm Hle. exact (whole_chat_covers _ _ _ _ _ _ _ _ _ a Hm id r Hrow Hp Hle). Qed.

(** A receipt is not repeated after a budget refusal: when the gate stops a
    run and its progress is saved, no message of a receipt that went out is
    pending in any later call. *)
Theorem refused_receipts_not_repeated `{JidOps} `{Sqlite} connected query_error resolve outcome f chat chatJID upTo db id upTo' limit m :
  let e := markWholeChatRead connected query_error resolve outcome f chat chatJID upTo db in
  reply e = GateRefused → progress_ok f = true → id ∈ sent_ids (receipts e) →
  m ∈ UnreadInboundMessages chat upTo' limit (db_after e) → u_id m ≠ id.
Proof.
  intros e Hr Hok Hin Hm <-. destruct (refused_flags _ _ _ _ _ _ _ _ _ _ Hr Hok Hin) as (r & Hrow & Hs).
  apply unread_unflagged in Hm as (r' & Hrow' & Hp). fold e in Hrow. simplify_eq. unfold pending_row in Hp. simpl in Hp. rewrite Hs in Hp. by bool_split.
Qed.

(** Marking a chat read completes: when everybody can be addressed, every
    batch goes out and the writes reach the archive, a call on at most one page
    answers success, acknowledges every pending message it can address in
    exactly one receipt, and leaves nothing unread up to that time. *)
Theorem whole_chat_completes `{JidOps} `{Sqlite} resolve outcome f chat chatJID upTo db :
  (∀ i, outcome i = Sent) → (∀ s, s ≠ "" → is_Some (addressed resolve s)) → chat ≠ "" → marker_ok f = true →
  (length (page_of chat upTo db) ≤ markReadMaxMessages)%nat →
  let e := markWholeChatRead true false resolve outcome f chat chatJID upTo db in
  let pending := page_of chat upTo db in
  (∃ n g b t w, reply e = Marked Http.StatusOK true n g b t w) ∧
  (∀ limit, UnreadInboundMessages chat upTo limit (db_after e) = []) ∧
  (pending ≠ [] → mjoin (rc_ids <$> receipts e) ++ (groupBySender pending chatJID).2 ≡ₚ map u_id pending).
Proof.
  intros Ho Hr Hc Hok Hl. cbv zeta. unfold markWholeChatRead. cbn [negb]. fold (page_of chat upTo db).
  destruct (take_2000_sorted chat upTo db) as [Hsorted _]. pose proof (short_page chat upTo db) as Hshort.
  pose proof (lookup_ge_None_2 (page_of chat upTo db) markReadMaxMessages Hl) as Hnone. rewrite Hnone. 
  rewrite (take_ge (page_of chat upTo db)) in * by done. case_bool_decide as Hnil.
  { pose proof (ahead_prefix f db chat upTo) as Ha. destruct (persistAcknowledgedReceiptPrefix f chat upTo db) as [db' w]. simpl in *.
    split; [by eexists _, _, _, _, _|]. split; [|done]. intros limit. apply nothing_unread. intros kr Hrow Hp.
    destruct Ha as [Hrows Hm]. rewrite Hrows in Hrow. assert (pending_row db chat upTo kr = true) as Hp' by (by eapply ahead_pending).
    specialize (Hshort kr Hl Hrow Hp'). rewrite Hnil in Hshort. by apply not_elem_of_nil in Hshort. }
  destruct (Hr chat Hc) as [j ->]. destruct (groupBySender (page_of chat upTo db) chatJID) as [groups un] eqn:Hg.
  pose proof (groupBySender_perm (page_of chat upTo db) chatJID) as Hperm. rewrite Hg in Hperm.
  assert (groupBySender (take markReadMaxMessages (page_of chat upTo db)) chatJID = (groups, un)) as Hg' by by rewrite take_ge.
  pose proof (run_progress db chat chatJID upTo resolve outcome groups un Hg') as Hrun.
  destruct (send_groups_all resolve outcome groups {| acked := list_to_set un; sent := []; tried := O; failure := None |} Ho Hr) as (p & Hp & Hf & Hs).
  rewrite Hp in *. simpl in Hf, Hs, Hrun. unfold page_progress in Hrun. rewrite Hg' in Hrun. simpl in Hrun.
  destruct (full_coverage (page_of chat upTo db) (acked p) Hnil Hsorted) as (at_ & Hat & Hall).
  { intros m Hm. rewrite Hrun. unfold sent_ids. rewrite Hs. rewrite elem_of_union, !elem_of_list_to_set.
    assert (u_id m ∈ map u_id (page_of chat upTo db)) as Hin by (apply list_elem_of_fmap; eauto). rewrite <-Hperm in Hin.
    apply elem_of_app in Hin as [?|?]; auto. }
  rewrite Hat. destruct (coverage_done f chat upTo at_ db Hok) as (Hrows & b & Hb & Hle & Hah).
  destruct (save_coverage f chat upTo (Some at_) db) as [db' w]. simpl in *. rewrite Hf, bool_decide_false by (intros []; done). simpl.
  split; [by eexists _, _, _, _, _|]. split.
  - intros limit. apply nothing_unread. intros [k r] Hrow Hpend. rewrite Hrows in Hrow.
    assert (pending_row db chat upTo (k, r) = true) as Hp' by (by eapply ahead_pending).
    specialize (Hall _ (Hshort _ Hl Hrow Hp')). simpl in Hall. unfold pending_row, in_range in Hpend. destruct k as [i c]. rewrite Hb in Hpend. bool_split. lia.
  - intros _. by rewrite Hs.
Qed.

Section Inbound.
Context `{JidOps} `{Sqlite}.

Lemma validate_inbound chat expected ids db id :
  ValidateInboundMarkRead chat expected ids db = None → id ∈ ids →
  ∃ r, rows db !! (id, chat) = Some r ∧ is_from_me r = false ∧ bareSenderUser (sender r) = expected.
Proof.
  induction ids as [|i ids IH]; simpl; [by intros _ ?%not_elem_of_nil|]. destruct (rows db !! (i, chat)) as [r|] eqn:Hr; [|done].
  destruct (is_from_me r) eqn:Hf; [done|]. destruct (String.eqb_spec (bareSenderUser (sender r)) expected) as [He|]; [|done]. simpl.
  intros Hv [->|Hin]%elem_of_cons; [eauto|auto].
Qed.

Lemma listed_inbound connected resolve outcome max_ok f req chat chatJID readAt db id :
  id ∈ sent_ids (receipts (markListedRead connected resolve outcome max_ok f req chat chatJID readAt db)) →
  connected = true ∧ ∃ r, rows db !! (id, chat) = Some r ∧ is_from_me r = false.
Proof.
  unfold markListedRead. destruct (negb (String.eqb _ _)); [done|]. destruct (existsb _ _); [done|]. destruct (_ && negb (parseSenderJID _)); [done|].
  destruct (_ && String.eqb (Server chatJID) GroupServer); [done|]. destruct connected; [|done]. simpl.
  destruct (validate_listed chat (SenderJID req) (MessageIDs req) db) eqn:Hv; [done|]. destruct (addressed resolve chat); [|done].
  destruct (if String.eqb _ _ then _ else _) as [to|]; [|done]. destruct (outcome O); [done|done|].
  destruct (persistReadMarker _ _ _ _) as [db' w]. simpl. intros Hin%elem_of_list_to_set. simpl in Hin. rewrite app_nil_r in Hin.
  split; [done|]. unfold validate_listed in Hv. destruct (String.eqb _ _); [done|].
  destruct (validate_inbound _ _ _ _ _ Hv Hin) as (r & Hr & Hf & _). eauto.
Qed.

Lemma whole_inbound connected query_error resolve outcome f chat chatJID upTo db id :
  id ∈ sent_ids (receipts (markWholeChatRead connected query_error resolve outcome f chat chatJID upTo db)) →
  connected = true ∧ ∃ r, rows db !! (id, chat) = Some r ∧ is_from_me r = false.
Proof.
  unfold markWholeChatRead. destruct connected; [|done]. destruct query_error; [done|]. cbn [negb]. fold (page_of chat upTo db).
  case_bool_decide as Hnil; [by destruct (persistAcknowledgedReceiptPrefix _ _ _ _)|].
  destruct (addressed resolve chat); [|done]. destruct (groupBySender _ chatJID) as [groups un] eqn:Hg.
  pose proof (groupBySender_perm (take markReadMaxMessages (page_of chat upTo db)) chatJID) as Hperm. rewrite Hg in Hperm.
  pose proof (send_groups_subset resolve outcome groups {| acked := list_to_set un; sent := []; tried := O; failure := None |}) as Hsub.
  assert (∀ p, sent p = sent (end_of (send_groups resolve outcome groups {| acked := list_to_set un; sent := []; tried := O; failure := None |})) →
    id ∈ sent_ids (sent p) → true = true ∧ ∃ r, rows db !! (id, chat) = Some r ∧ is_from_me r = false) as Hdone.
  { intros p Hp Hin. rewrite Hp in Hin. apply (Hsub _ eq_refl), elem_of_list_to_set in Hin.
    assert (id ∈ map u_id (take markReadMaxMessages (page_of chat upTo db))) as Hpg by (rewrite <-Hperm; apply elem_of_app; by left).
    destruct (page_ids chat upTo db id Hpg) as (r & Hr & Hpend). split; [done|]. exists r. split; [done|].
    unfold pending_row, in_range in Hpend. by bool_split. }
  destruct (send_groups _ _ _ _) as [p|p|p]; [destruct (save_coverage _ _ _ _ _)| |destruct (save_coverage _ _ _ _ _)]; simpl in *; try by apply Hdone.
  destruct (persistAcknowledgedReceiptPrefix f chat upTo _). simpl. by apply Hdone.
Qed.
End Inbound.

(** Receipts go out only for messages somebody else sent in a chat the caller
    may use: whatever the request, a message named in a receipt is an archived
    inbound message of the requested chat, the chat passed the policy of the
    request, and the bridge was connected. *)
Theorem receipts_authorised `{JidOps} `{Sqlite} policy now parse connected query_error max_ok resolve outcome f req db id :
  id ∈ sent_ids (receipts (markReadHandler policy now parse connected query_error max_ok resolve outcome f (Some req) db)) →
  let chat := trim_space (ReqChatJID req) in
  is_ok (authorizeChat policy chat false) = true ∧ connected = true ∧ ∃ r, rows db !! (id, chat) = Some r ∧ is_from_me r = false.
Proof.
  unfold markReadHandler. cbv zeta. destruct (String.eqb _ _); [done|]. destruct (authorizeChat policy _ false) as [j|e]; [|done].
  destruct (if String.eqb (ReqTimestamp req) "" then _ else _) as [readAt|]; [|done].
  destruct (MessageIDs req) eqn:Hids; [|intros Hin%listed_inbound; naive_solver].
  destruct (negb _); [done|]. destruct (if String.eqb _ _ then _ else _) as [upTo|]; [|done]. intros Hin%whole_inbound. naive_solver.
Qed.

(** ** A concrete chat *)

Module Sample.
#[local] Existing Instance RefJid.ops.
#[local] Existing Instance plain_sqlite.

Definition note (id snd : string) (sec : Z) : storedMessage :=
  {| ID := id; ChatJID := "9@g.us"; Sender := snd; Content := "hi"; Timestamp := sec * 10 ^ 9; IsFromMe := false; MediaType := "";
     Filename := ""; URL := ""; MediaKey := None; FileSHA256 := None; FileEncSHA256 := None; FileLength := None;
     QuotedMessageID := ""; DirectPath := ""; Presentation := None; Location := None; RetryChat := ""; RetrySender := ""; Mentions := "" |}.

(** Two senders and a row history attributed to the group itself. *)
Definition db : archive :=
  {| rows := foldl (λ t m, StoreMessage false m t) ∅
               [note "A" "1@s.whatsapp.net" 10; note "B" "2@lid" 11; note "C" "9" 11; note "D" "1@s.whatsapp.net" 12];
     chat_rows := ∅ |}.

Definition group : RefJid.t := {| RefJid.ref_user := "9"; RefJid.ref_device := ""; RefJid.ref_server := "g.us" |}.

Definition resolve (s : string) : result string RefJid.t :=
  Ok {| RefJid.ref_user := s; RefJid.ref_device := ""; RefJid.ref_server := "s.whatsapp.net" |}.

Definition writes : write_faults := {| marker_ok := true; prefix_read_ok := true; prefix_ok := true; progress_ok := true |}.

(** The budget ends after the first receipt. *)
Definition refused : effect :=
  markWholeChatRead true false resolve (λ i, match i with O => Sent | _ => Denied end) writes "9@g.us" group (20 * 10 ^ 9) db.

Definition whole : effect := markWholeChatRead true false resolve (λ _, Sent) writes "9@g.us" group (20 * 10 ^ 9) db.

Example refused_result : rc_ids <$> receipts refused = [["A"; "D"]] ∧ marker (db_after refused) "9@g.us" = Some 10.
Proof. split; vm_compute; reflexivity. Qed.

Definition row_A : message_row := messageArgs (note "A" "1@s.whatsapp.net" 10).
End Sample.

Lemma read_marker_safe_witness :
  let _ := RefJid.ops in let _ := plain_sqlite in
  marker (db_after Sample.refused) "9@g.us" = Some 10 ∧
  ("A" ∈ sent_ids (receipts Sample.refused) ∨ unaddressable_sender Sample.group "1" ∨
   (markReadMaxMessages < length (page_of "9@g.us" (20 * 10 ^ 9) Sample.db))%nat ∧
   ∀ m, m ∈ take markReadMaxMessages (page_of "9@g.us" (20 * 10 ^ 9) Sample.db) →
     u_time m = 10 ∧ (u_id m ∈ sent_ids (receipts Sample.refused) ∨ unaddressable Sample.group (u_sender m))).
Proof.
  cbv zeta. split; [vm_compute; reflexivity|].
  apply (@read_marker_safe RefJid.ops plain_sqlite true false Sample.resolve (λ i, match i with O => Sent | _ => Denied end) Sample.writes
    "9@g.us" Sample.group (20 * 10 ^ 9) Sample.db "A" Sample.row_A 10); [vm_compute; reflexivity..|done].
Defined.

Lemma refused_receipts_not_repeated_witness :
  let _ := RefJid.ops in let _ := plain_sqlite in
  ∃ m, m ∈ UnreadInboundMessages "9@g.us" (20 * 10 ^ 9) 0 (db_after Sample.refused) ∧ u_id m ≠ "D".
Proof.
  cbv zeta. exists {| u_id := "B"; u_sender := "2"; u_time := 11 |}.
  assert ({| u_id := "B"; u_sender := "2"; u_time := 11 |} ∈ UnreadInboundMessages "9@g.us" (20 * 10 ^ 9) 0 (db_after Sample.refused)) as Hin.
  { assert (UnreadInboundMessages "9@g.us" (20 * 10 ^ 9) 0 (db_after Sample.refused) = [{| u_id := "B"; u_sender := "2"; u_time := 11 |}]) as ->
      by (vm_compute; reflexivity). by left. }
  split; [exact Hin|].
  apply (@refused_receipts_not_repeated RefJid.ops plain_sqlite true false Sample.resolve (λ i, match i with O => Sent | _ => Denied end)
    Sample.writes "9@g.us" Sample.group (20 * 10 ^ 9) Sample.db "D" (20 * 10 ^ 9) 0%nat); [vm_compute; reflexivity..| |exact Hin].
  apply elem_of_list_to_set. change ("D" ∈ mjoin (rc_ids <$> receipts Sample.refused)). assert (mjoin (rc_ids <$> receipts Sample.refused) = ["A"; "D"]) as -> by (vm_compute; reflexivity).
  right. by left.
Defined.

Lemma whole_chat_completes_witness :
  let _ := RefJid.ops in let _ := plain_sqlite in
  rc_ids <$> receipts Sample.whole = [["A"; "D"]; ["B"]] ∧
  (∃ n g b t w, reply Sample.whole = Marked Http.StatusOK true n g b t w) ∧
  (∀ limit, UnreadInboundMessages "9@g.us" (20 * 10 ^ 9) limit (db_after Sample.whole) = []) ∧
  (page_of "9@g.us" (20 * 10 ^ 9) Sample.db ≠ [] →
   mjoin (rc_ids <$> receipts Sample.whole) ++ (groupBySender (page_of "9@g.us" (20 * 10 ^ 9) Sample.db) Sample.group).2
   ≡ₚ map u_id (page_of "9@g.us" (20 * 10 ^ 9) Sample.db)).
Proof.
  cbv zeta. split; [vm_compute; reflexivity|].
  apply (@whole_chat_completes RefJid.ops plain_sqlite Sample.resolve (λ _, Sent) Sample.writes "9@g.us" Sample.group (20 * 10 ^ 9) Sample.db);
    [done| |done|done|].
  - intros s Hs. unfold addressed, Sample.resolve. simpl. destruct (String.eqb_spec s ""); [done|]. simpl. eauto.
  - assert (length (page_of "9@g.us" (20 * 10 ^ 9) Sample.db) = 4%nat) as -> by (vm_compute; reflexivity).
    apply Nat.leb_le. vm_compute. reflexivity.
Defined.

Definition Sample_request : MarkReadRequest :=
  {| MessageIDs := ["B"]; ReqChatJID := " 9@g.us"; SenderJID := "2"; ReqTimestamp := ""; UpTo := "" |}.

Lemma receipts_authorised_witness :
  let _ := RefJid.ops in let _ := plain_sqlite in
  let e := markReadHandler (parseChatPolicy "*@g.us") 0 (λ _, None) true false true Sample.resolve (λ _, Sent) Sample.writes
             (Some Sample_request) Sample.db in
  rc_ids <$> receipts e = [["B"]] ∧
  is_ok (authorizeChat (parseChatPolicy "*@g.us") "9@g.us" false) = true ∧ true = true ∧
  ∃ r, rows Sample.db !! ("B", "9@g.us") = Some r ∧ is_from_me r = false.
Proof.
  cbv zeta. split; [vm_compute; reflexivity|].
  apply (@receipts_authorised RefJid.ops plain_sqlite (parseChatPolicy "*@g.us") 0 (λ _, None) true false true Sample.resolve (λ _, Sent) Sample.writes
    Sample_request Sample.db "B").
  apply elem_of_list_to_set.
  match goal with |- "B" ∈ ?l => assert (l = ["B"]) as -> by (vm_compute; reflexivity) end. by left.
Defined.
