(* ===== verification/Migrations.v ===== *)
(** * Startup rewrites of the archive ([store.go], [sender_namespace.go], [media_length.go])

    Chats once stored under an anonymous link id move to the phone number the
    session knows for it, senders follow, and the namespace of old senders is
    established from evidence.  [lid_map] is the session's [whatsmeow_lid_map]
    as a list of (lid, pn) rows. *)
From S2P Require Import Prelude Jid StoreTime Archive Messages MarkRead.
#[local] Open Scope Z_scope.

(** ** Chats under a link id ([MigrateLegacyLIDChatsToPhoneJIDs]) *)
Module LidChats.

(** The tables the migration touches; [refs] is [media_cache_refs]. *)
Record store := { msgs : messages; chs : Chats.chats; refs : gmap key string }.

Definition lid_jid (lid : string) : string := lid +:+ "@lid".
Definition phone_jid (pn : string) : string := pn +:+ "@s.whatsapp.net".

(** Whether the archive has anything under a chat. *)
Definition has_chat (db : store) (jid : string) : bool :=
  bool_decide (is_Some (chs db !! jid)) || existsb (λ kr, String.eqb kr.1.2 jid) (map_to_list (msgs db)).

(** [tmp_lid_to_phone]. *)
Definition tmp_lid_to_phone (lid_map : list (string * string)) (db : store) : list (string * string) :=
  remove_dups (map (λ lp, (lid_jid lp.1, phone_jid lp.2))
    (filter (λ lp, lp.1 ≠ "" ∧ lp.2 ≠ "" ∧ has_chat db (lid_jid lp.1) = true) lid_map)).

(** SQL's [TRIM]: spaces only. *)
Fixpoint ltrim (s : string) : string :=
  match s with String " " t => ltrim t | _ => s end.
Definition sql_trim (s : string) : string :=
  let rev s := string_of_list_ascii (reverse (list_ascii_of_string s)) in rev (ltrim (rev (ltrim s))).
Definition blank (name : option string) : bool :=
  match name with Some n => String.eqb (sql_trim n) "" | None => true end.

Definition max_time (l : list (option Z)) : option Z := foldl Chats.merge_time None l.

(** A row of [tmp_lid_chat_candidates]. *)
Record candidate := { c_phone : string; c_lid : string; c_name : option string; c_last : option Z; c_read : option Z }.

Definition candidate_of (db : store) (p : string * string) : candidate :=
  let c := chs db !! p.1 in
  {| c_phone := p.2; c_lid := p.1;
     c_name := c ≫= λ r, Chats.name r ≫= λ n, nullif_empty (sql_trim n);
     c_last := coalesce (c ≫= Chats.last_message_time)
                 (max_time (map (λ kr, Some (timestamp kr.2)) (filter (λ kr, kr.1.2 = p.1) (map_to_list (msgs db)))));
     c_read := c ≫= Chats.last_read_time |}.

(** [ORDER BY last IS NULL, last DESC, lid ASC]. *)
Definition preferred (a b : candidate) : bool :=
  match c_last a, c_last b with
  | Some x, Some y => bool_decide (y < x) || (bool_decide (x = y) && String.leb (c_lid a) (c_lid b))
  | Some _, None => true
  | None, Some _ => false
  | None, None => String.leb (c_lid a) (c_lid b)
  end.

Fixpoint best (l : list candidate) : option candidate :=
  match l with
  | [] => None
  | c :: l => match best l with Some d => if preferred c d then Some c else Some d | None => Some c end
  end.

(** A row of [tmp_lid_chat_meta] for one phone chat. *)
Record meta := { m_name : string; m_last : option Z; m_read : option Z }.

Definition meta_of (cs : list candidate) (phone : string) : meta :=
  let mine := filter (λ c, c_phone c = phone) cs in
  {| m_name := match best (filter (λ c, c_name c ≠ None) mine) ≫= c_name with
               | Some n => n
               | None => Chats.jid_user phone
               end;
     m_last := max_time (map c_last mine); m_read := max_time (map c_read mine) |}.

(** The INSERT OR IGNORE and the UPDATE of one destination chat. *)
Definition merged_chat (old : option Chats.chat_row) (m : meta) : Chats.chat_row :=
  match old with
  | None => {| Chats.name := Some (m_name m); Chats.last_message_time := m_last m; Chats.last_read_time := m_read m;
               Chats.ephemeral_expiration := 0; Chats.ephemeral_setting_timestamp := 0 |}
  | Some r => {| Chats.name := if blank (Chats.name r) then Some (m_name m) else Chats.name r;
                 Chats.last_message_time := Chats.merge_time (Chats.last_message_time r) (m_last m);
                 Chats.last_read_time := Chats.merge_time (Chats.last_read_time r) (m_read m);
                 Chats.ephemeral_expiration := Chats.ephemeral_expiration r;
                 Chats.ephemeral_setting_timestamp := Chats.ephemeral_setting_timestamp r |}
  end.

Definition merge_chats (pairs : list (string * string)) (db : store) : Chats.chats :=
  let cs := map (candidate_of db) pairs in
  foldl (λ t phone, <[phone := merged_chat (chs db !! phone) (meta_of cs phone)]> t) (chs db) (remove_dups (map snd pairs)).

(** The copies: INSERT OR IGNORE of every row of a mapped chat. *)
Definition joined (pairs : list (string * string)) (t : messages) : list (key * message_row) :=
  kr ← map_to_list t; p ← pairs; if bool_decide (p.1 = kr.1.2) then [((kr.1.1, p.2), kr.2)] else [].

Definition insert_new (t : messages) (kr : key * message_row) : messages :=
  match t !! kr.1 with Some _ => t | None => <[kr.1 := kr.2]> t end.

Definition copy_messages (pairs : list (string * string)) (t : messages) : messages := foldl insert_new t (joined pairs t).

(** A receipt sent for either spelling survives. *)
Definition receipt_source (pairs : list (string * string)) (t : messages) (k : key) : bool :=
  existsb (λ p, String.eqb p.2 k.2 && match t !! (k.1, p.1) with Some r => read_receipt_sent r | None => false end) pairs.

Definition merge_receipts (pairs : list (string * string)) (t : messages) : messages :=
  map_imap (λ k r, Some (if receipt_source pairs t k then with_marks (view_once r) (target_message_id r) true r else r)) t.

(** Cache references follow a message with the same file. *)
Definition move_refs (pairs : list (string * string)) (t : messages) (rs : gmap key string) : gmap key string :=
  foldl (λ rs' kh,
    foldl (λ rs' p,
      let k := (kh.1.1, p.2) in
      if String.eqb p.1 kh.1.2
         && match t !! k with Some r => sql_eq (file_sha256 (media r)) (Some kh.2) | None => false end
         && bool_decide (rs' !! k = None)
      then <[k := kh.2]> rs' else rs') rs' pairs) rs (map_to_list rs).

(** Whether a chat is moved. *)
Definition is_moved (pairs : list (string * string)) (jid : string) : bool := existsb (λ p, String.eqb p.1 jid) pairs.

(** The transaction; [has_map] is whether the session has the mapping table. *)
Definition MigrateLegacyLIDChatsToPhoneJIDs (has_map : bool) (lid_map : list (string * string)) (db : store) : store :=
  if negb has_map then db
  else
    let pairs := tmp_lid_to_phone lid_map db in
    if bool_decide (pairs = []) then db
    else
      let chs' := merge_chats pairs db in
      let t := merge_receipts pairs (copy_messages pairs (msgs db)) in
      let rs := move_refs pairs t (refs db) in
      {| msgs := filter (λ kr, is_moved pairs kr.1.2 = false) t;
         chs := filter (λ kr, is_moved pairs kr.1 = false) chs';
         refs := filter (λ kr, is_moved pairs kr.1.2 = false) rs |}.

(** *** Lemmas *)

Lemma suffix_ne a b : lid_jid a ≠ phone_jid b.
Proof.
  intros Heq. apply (f_equal list_ascii_of_string) in Heq. unfold lid_jid, phone_jid in Heq. rewrite !list_ascii_app in Heq.
  apply (f_equal last) in Heq. rewrite !last_app in Heq. done.
Qed.

Lemma pairs_shape lid_map db p : p ∈ tmp_lid_to_phone lid_map db →
  ∃ l n, (l, n) ∈ lid_map ∧ l ≠ "" ∧ n ≠ "" ∧ p = (lid_jid l, phone_jid n) ∧ has_chat db (lid_jid l) = true.
Proof.
  unfold tmp_lid_to_phone. rewrite elem_of_remove_dups. intros ([l n] & -> & Hin)%list_elem_of_fmap.
  apply list_elem_of_filter in Hin as [(? & ? & ?) ?]. by exists l, n.
Qed.

Lemma moved_pair pairs jid : is_moved pairs jid = true ↔ ∃ ph, (jid, ph) ∈ pairs.
Proof.
  unfold is_moved. rewrite existsb_exists. split.
  - intros ([l ph] & Hin & He). apply String.eqb_eq in He. simpl in He. subst. exists ph. by apply list_elem_of_In.
  - intros [ph Hin]. exists (jid, ph). split; [by apply list_elem_of_In|]. simpl. apply String.eqb_refl.
Qed.

Lemma phone_not_moved lid_map db l ph : (l, ph) ∈ tmp_lid_to_phone lid_map db → is_moved (tmp_lid_to_phone lid_map db) ph = false.
Proof.
  intros (l' & n' & _ & _ & _ & [= -> ->] & _)%pairs_shape. apply not_true_iff_false. rewrite moved_pair.
  intros (ph & (l2 & n2 & _ & _ & _ & [= He _] & _)%pairs_shape). symmetry in He. by apply suffix_ne in He.
Qed.

Lemma elem_of_joined pairs t id ph r : ((id, ph), r) ∈ joined pairs t ↔ ∃ l, t !! (id, l) = Some r ∧ (l, ph) ∈ pairs.
Proof.
  unfold joined. rewrite list_elem_of_bind. split.
  - intros ([[i c] q] & Hin & Hkr). apply elem_of_map_to_list in Hkr. apply list_elem_of_bind in Hin as ([l n] & Hin & Hp). simpl in Hin.
    case_bool_decide as He; [|by apply not_elem_of_nil in Hin]. apply list_elem_of_singleton in Hin. simplify_eq. eauto.
  - intros (l & Hr & Hp). exists ((id, l), r). split; [|by apply elem_of_map_to_list]. apply list_elem_of_bind. exists (l, ph). split; [|done].
    simpl. rewrite bool_decide_true by done. by left.
Qed.

Lemma inserts_lookup l t k :
  (∀ r, t !! k = Some r → foldl insert_new t l !! k = Some r) ∧
  (t !! k = None → match foldl insert_new t l !! k with Some r => (k, r) ∈ l | None => ∀ r, (k, r) ∉ l end).
Proof.
  revert t. induction l as [|[k' r'] l IH]; intros t; simpl.
  { split; [done|]. intros ->. intros r. apply not_elem_of_nil. }
  destruct (IH (insert_new t (k', r'))) as [IH1 IH2]. unfold insert_new in *. simpl in *. destruct (decide (k' = k)) as [->|Hne].
  - destruct (t !! k) as [q|] eqn:Hk.
    + split; [|done]. intros r [= ->]. by apply IH1.
    + rewrite lookup_insert_eq in IH1. split; [done|]. intros _. rewrite (IH1 r' eq_refl). by left.
  - destruct (t !! k') as [q|] eqn:Hk'.
    + split; [by apply IH1|]. intros Hk. specialize (IH2 Hk). destruct (foldl _ _ _ !! k); [by right|].
      intros r [He|Hin]%elem_of_cons; [congruence|by apply (IH2 r)].
    + rewrite lookup_insert_ne in IH1, IH2 by done. split; [by apply IH1|]. intros Hk. specialize (IH2 Hk).
      destruct (foldl _ _ _ !! k); [by right|]. intros r [He|Hin]%elem_of_cons; [congruence|by apply (IH2 r)].
Qed.

(** A row of the copy: the destination's own row, or a copied one. *)
Lemma copy_lookup pairs t id ph :
  (∀ r, t !! (id, ph) = Some r → copy_messages pairs t !! (id, ph) = Some r) ∧
  (t !! (id, ph) = None → match copy_messages pairs t !! (id, ph) with
    | Some r => ∃ l, t !! (id, l) = Some r ∧ (l, ph) ∈ pairs
    | None => ∀ l, (l, ph) ∈ pairs → t !! (id, l) = None
    end).
Proof.
  unfold copy_messages. destruct (inserts_lookup (joined pairs t) t (id, ph)) as [H1 H2]. split; [done|]. intros Hn. specialize (H2 Hn).
  destruct (foldl _ _ _ !! (id, ph)) as [r|]; [by apply elem_of_joined|]. intros l Hp. destruct (t !! (id, l)) as [r|] eqn:Hr; [|done].
  exfalso. apply (H2 r). apply elem_of_joined. eauto.
Qed.

(** A row up to its receipt flag, which is never lost. *)
Definition same_but_receipt (r r' : message_row) : Prop :=
  ∃ flag, r' = with_marks (view_once r) (target_message_id r) flag r ∧ (read_receipt_sent r = true → flag = true).

Lemma same_refl r : same_but_receipt r r.
Proof. exists (read_receipt_sent r). split; [by destruct r|done]. Qed.

Lemma receipts_lookup pairs t k :
  merge_receipts pairs t !! k = (λ r, if receipt_source pairs t k then with_marks (view_once r) (target_message_id r) true r else r) <$> t !! k.
Proof. unfold merge_receipts. rewrite map_lookup_imap. by destruct (t !! k). Qed.

Lemma receipt_source_true pairs t id l ph r :
  (l, ph) ∈ pairs → t !! (id, l) = Some r → read_receipt_sent r = true → receipt_source pairs t (id, ph) = true.
Proof.
  intros Hp Hr Hs. unfold receipt_source. apply existsb_exists. exists (l, ph). split; [by apply list_elem_of_In|].
  simpl. rewrite String.eqb_refl, Hr. done.
Qed.

(** *** The chats *)

Lemma merge_time_ge_r a z : ∃ w, Chats.merge_time a (Some z) = Some w ∧ z ≤ w.
Proof. destruct a as [a|]; simpl; [|eauto with lia]. case_bool_decide; eauto with lia. Qed.

Lemma max_time_ge l x z : x = Some z ∨ Some z ∈ l → ∃ w, foldl Chats.merge_time x l = Some w ∧ z ≤ w.
Proof.
  revert x z. induction l as [|a l IH]; intros x z; simpl.
  { intros [->|Hin]; [eauto with lia|by apply not_elem_of_nil in Hin]. }
  intros [->|[<-|Hin]%elem_of_cons].
  - destruct (Chats.merge_time_le (Some z) a z eq_refl) as (w & Hw & Hle). destruct (IH (Chats.merge_time (Some z) a) w) as (v & Hv & Hle'); [by left|].
    exists v. split; [done|lia].
  - destruct (merge_time_ge_r x z) as (w & Hw & Hle). destruct (IH (Chats.merge_time x (Some z)) w) as (v & Hv & Hle'); [by left|].
    exists v. split; [done|lia].
  - apply IH. by right.
Qed.

Lemma puts_lookup (g : string → Chats.chat_row) l t jid :
  foldl (λ (t : Chats.chats) phone, <[phone := g phone]> t) t l !! jid = if bool_decide (jid ∈ l) then Some (g jid) else t !! jid.
Proof.
  revert t. induction l as [|p l IH]; intros t; [done|]. cbn [foldl]. rewrite IH.
  destruct (decide (jid ∈ l)) as [Hin|Hin]; [rewrite (bool_decide_true (jid ∈ l)), (bool_decide_true (jid ∈ p :: l)); [done|by right|done]|]. rewrite (bool_decide_false (jid ∈ l)) by done.
  destruct (decide (p = jid)) as [->|Hne]; [rewrite lookup_insert_eq, (bool_decide_true (jid ∈ jid :: l)); [done|by left]|].
  rewrite lookup_insert_ne by done. rewrite (bool_decide_false (jid ∈ p :: l)); [done|]. intros [?|?]%elem_of_cons; [congruence|done].
Qed.

Lemma merge_chats_lookup pairs db jid :
  merge_chats pairs db !! jid =
  if bool_decide (jid ∈ map snd pairs) then Some (merged_chat (chs db !! jid) (meta_of (map (candidate_of db) pairs) jid)) else chs db !! jid.
Proof.
  unfold merge_chats. rewrite (puts_lookup (λ phone, merged_chat (chs db !! phone) (meta_of (map (candidate_of db) pairs) phone))).
  rewrite (bool_decide_ext (jid ∈ remove_dups (map snd pairs)) (jid ∈ map snd pairs)); [done|]. apply elem_of_remove_dups.
Qed.

Lemma lookup_filter_if {A} (f : key → bool) (m : gmap key A) (k : key) :
  filter (λ kr, f kr.1 = false) m !! k = if f k then None else m !! k.
Proof.
  destruct (m !! k) as [r|] eqn:Hk.
  - destruct (f k) eqn:Hf; [apply map_lookup_filter_None; right; intros ? _; simpl; congruence|by apply map_lookup_filter_Some].
  - destruct (f k); apply map_lookup_filter_None; by left.
Qed.

Lemma lookup_filter_jid {A} (f : string → bool) (m : gmap string A) (k : string) :
  filter (λ kr, f kr.1 = false) m !! k = if f k then None else m !! k.
Proof.
  destruct (m !! k) as [r|] eqn:Hk.
  - destruct (f k) eqn:Hf; [apply map_lookup_filter_None; right; intros ? _; simpl; congruence|by apply map_lookup_filter_Some].
  - destruct (f k); apply map_lookup_filter_None; by left.
Qed.

Lemma migrated_msgs lid_map db k :
  let pairs := tmp_lid_to_phone lid_map db in
  msgs (MigrateLegacyLIDChatsToPhoneJIDs true lid_map db) !! k =
  if is_moved pairs k.2 then None else merge_receipts pairs (copy_messages pairs (msgs db)) !! k.
Proof.
  cbv zeta. unfold MigrateLegacyLIDChatsToPhoneJIDs. cbn [negb]. case_bool_decide as Hp.
  - rewrite Hp. simpl. rewrite receipts_lookup. destruct k as [id c]. destruct (copy_lookup [] (msgs db) id c) as [H1 H2].
    destruct (msgs db !! (id, c)) as [r|]; [by rewrite (H1 r eq_refl)|]. specialize (H2 eq_refl).
    destruct (copy_messages [] (msgs db) !! (id, c)); [|done]. destruct H2 as (l & _ & Hin). by apply not_elem_of_nil in Hin.
  - simpl. apply (lookup_filter_if (λ k, is_moved _ k.2)).
Qed.

Lemma migrated_chs lid_map db jid :
  let pairs := tmp_lid_to_phone lid_map db in
  chs (MigrateLegacyLIDChatsToPhoneJIDs true lid_map db) !! jid = if is_moved pairs jid then None else merge_chats pairs db !! jid.
Proof.
  cbv zeta. unfold MigrateLegacyLIDChatsToPhoneJIDs. cbn [negb]. case_bool_decide as Hp; [by rewrite Hp|].
  simpl. apply (lookup_filter_jid (is_moved _)).
Qed.

Lemma merged_marker db pairs l ph x :
  (l, ph) ∈ pairs → (Chats.times (chs db) l).2 = Some x ∨ (Chats.times (chs db) ph).2 = Some x →
  ∃ y, Chats.last_read_time (merged_chat (chs db !! ph) (meta_of (map (candidate_of db) pairs) ph)) = Some y ∧ x ≤ y.
Proof.
  intros Hp Hx. assert ((Chats.times (chs db) l).2 = Some x → ∃ w, m_read (meta_of (map (candidate_of db) pairs) ph) = Some w ∧ x ≤ w) as Hl.
  { intros Hl. apply max_time_ge. right. apply list_elem_of_fmap. exists (candidate_of db (l, ph)). split.
    - simpl. unfold Chats.times in Hl. by destruct (chs db !! l).
    - apply list_elem_of_filter. split; [done|]. apply list_elem_of_fmap. eauto. }
  destruct Hx as [Hx|Hx].
  - destruct (Hl Hx) as (w & Hw & Hle). destruct (chs db !! ph) as [r|]; cbn [merged_chat Chats.last_read_time]; [|eauto]. rewrite Hw.
    destruct (merge_time_ge_r (Chats.last_read_time r) w) as (v & Hv & Hle'). exists v. split; [done|lia].
  - unfold Chats.times in Hx. destruct (chs db !! ph) as [r|]; [|done]. simpl in *. by apply Chats.merge_time_le.
Qed.

Lemma no_chat_left lid_map db l n :
  (l, n) ∈ lid_map → l ≠ "" → n ≠ "" → has_chat (MigrateLegacyLIDChatsToPhoneJIDs true lid_map db) (lid_jid l) = false.
Proof.
  intros Hin Hl Hn. set (pairs := tmp_lid_to_phone lid_map db). set (db' := MigrateLegacyLIDChatsToPhoneJIDs true lid_map db).
  assert (∀ ph, (ph, lid_jid l) ∉ pairs) as Hnot. { intros ph (a & b & _ & _ & _ & [= _ He] & _)%pairs_shape. by apply suffix_ne in He. }
  assert (is_moved pairs (lid_jid l) = true ∨ has_chat db (lid_jid l) = false) as Hor.
  { destruct (has_chat db (lid_jid l)) eqn:Hc; [left|by right]. apply moved_pair. exists (phone_jid n). subst pairs.
    unfold tmp_lid_to_phone. apply elem_of_remove_dups, list_elem_of_fmap. exists (l, n). split; [done|]. by apply list_elem_of_filter. }
  unfold has_chat. apply orb_false_iff. split.
  - apply bool_decide_eq_false. intros [r Hr]. subst db'. rewrite migrated_chs in Hr. fold pairs in Hr. destruct Hor as [Hm|Hc]; [by rewrite Hm in Hr|].
    destruct (is_moved pairs (lid_jid l)); [done|]. rewrite merge_chats_lookup, bool_decide_false in Hr.
    + unfold has_chat in Hc. rewrite Hr in Hc. bool_split. naive_solver.
    + intros ([a b] & Hb & Hab)%list_elem_of_fmap. simpl in Hb. subst b. by apply (Hnot a).
  - apply not_true_iff_false. rewrite existsb_exists. intros ([[id c] r] & Hr & Hc%String.eqb_eq). simpl in Hc. subst c.
    apply list_elem_of_In, elem_of_map_to_list in Hr. subst db'. rewrite migrated_msgs in Hr. fold pairs in Hr. simpl in Hr.
    destruct Hor as [Hm|Hc]; [by rewrite Hm in Hr|]. destruct (is_moved pairs (lid_jid l)); [done|].
    rewrite receipts_lookup in Hr. destruct (copy_lookup pairs (msgs db) id (lid_jid l)) as [_ H2].
    destruct (msgs db !! (id, lid_jid l)) as [q|] eqn:Hq.
    + unfold has_chat in Hc. apply orb_false_iff in Hc as [_ Hc]. apply not_true_iff_false in Hc. apply Hc. apply existsb_exists.
      exists ((id, lid_jid l), q). split; [|by apply String.eqb_eq]. by apply list_elem_of_In, elem_of_map_to_list.
    + specialize (H2 eq_refl). destruct (copy_messages pairs (msgs db) !! (id, lid_jid l)); [|done]. destruct H2 as (a & _ & Ha). by apply (Hnot a).
Qed.

Lemma nothing_to_move lid_map db : tmp_lid_to_phone lid_map db = [] → MigrateLegacyLIDChatsToPhoneJIDs true lid_map db = db.
Proof. intros Hp. unfold MigrateLegacyLIDChatsToPhoneJIDs. by rewrite Hp. Qed.
End LidChats.

(** Moving chats from link ids to phone numbers loses nothing: every message
    of a moved chat is under its phone chat, which keeps its own row where it
    had one, and a receipt sent for either stays sent; nothing is left under
    the moved chats and other chats are untouched; the phone chat's read marker
    is at least both markers; and running the rewrite again changes nothing. *)
Theorem lid_chats_move (lid_map : list (string * string)) (db : LidChats.store) :
  let pairs := LidChats.tmp_lid_to_phone lid_map db in
  let db' := LidChats.MigrateLegacyLIDChatsToPhoneJIDs true lid_map db in
  (∀ id l ph r, (l, ph) ∈ pairs → LidChats.msgs db !! (id, l) = Some r →
     LidChats.msgs db' !! (id, l) = None ∧
     ∃ r', LidChats.msgs db' !! (id, ph) = Some r' ∧ (read_receipt_sent r = true → read_receipt_sent r' = true) ∧
       match LidChats.msgs db !! (id, ph) with
       | Some q => LidChats.same_but_receipt q r'
       | None => ∃ l' q, (l', ph) ∈ pairs ∧ LidChats.msgs db !! (id, l') = Some q ∧ LidChats.same_but_receipt q r'
       end) ∧
  (∀ id c, (∀ p, p ∈ pairs → p.1 ≠ c ∧ p.2 ≠ c) → LidChats.msgs db' !! (id, c) = LidChats.msgs db !! (id, c)) ∧
  (∀ l ph x, (l, ph) ∈ pairs →
     (Chats.times (LidChats.chs db) l).2 = Some x ∨ (Chats.times (LidChats.chs db) ph).2 = Some x →
     ∃ y, (Chats.times (LidChats.chs db') ph).2 = Some y ∧ x ≤ y) ∧
  LidChats.MigrateLegacyLIDChatsToPhoneJIDs true lid_map db' = db'.
Proof.
  cbv zeta. set (pairs := LidChats.tmp_lid_to_phone lid_map db). split_and!.
  - intros id l ph r Hp Hr. rewrite !LidChats.migrated_msgs. fold pairs. cbn [snd].
    rewrite (proj2 (LidChats.moved_pair pairs l)) by eauto. split; [done|].
    rewrite (LidChats.phone_not_moved lid_map db l ph Hp : LidChats.is_moved pairs ph = false), LidChats.receipts_lookup.
    assert (LidChats.copy_messages pairs (LidChats.msgs db) !! (id, l) = Some r) as Hrl by (by apply LidChats.copy_lookup).
    destruct (LidChats.copy_lookup pairs (LidChats.msgs db) id ph) as [C1 C2].
    assert (∀ q r', r' = (if LidChats.receipt_source pairs (LidChats.copy_messages pairs (LidChats.msgs db)) (id, ph)
      then with_marks (view_once q) (target_message_id q) true q else q) → LidChats.same_but_receipt q r' ∧
      (read_receipt_sent r = true → read_receipt_sent r' = true)) as Hflag.
    { intros q r' ->. destruct (LidChats.receipt_source _ _ _) eqn:Hs; [split; [by exists true|done]|]. split; [apply LidChats.same_refl|].
      intros Hsent. by rewrite (LidChats.receipt_source_true _ _ _ _ _ _ Hp Hrl Hsent) in Hs. }
    destruct (LidChats.msgs db !! (id, ph)) as [q|] eqn:Hq.
    + rewrite (C1 q eq_refl). simpl. eexists. split; [done|]. destruct (Hflag q _ eq_refl). done.
    + specialize (C2 eq_refl). destruct (LidChats.copy_messages pairs (LidChats.msgs db) !! (id, ph)) as [q|]; [|by rewrite (C2 l Hp) in Hr].
      destruct C2 as (l' & Hl' & Hp'). simpl. eexists. split; [done|]. destruct (Hflag q _ eq_refl). split; [done|]. by exists l', q.
  - intros id c Hc. rewrite LidChats.migrated_msgs. fold pairs. cbn [snd].
    assert (LidChats.is_moved pairs c = false) as ->.
    { apply not_true_iff_false. rewrite LidChats.moved_pair. intros [ph Hp]. by destruct (Hc _ Hp). }
    rewrite LidChats.receipts_lookup. assert (LidChats.receipt_source pairs (LidChats.copy_messages pairs (LidChats.msgs db)) (id, c) = false) as ->.
    { unfold LidChats.receipt_source. apply not_true_iff_false. rewrite existsb_exists. intros (p & Hp%list_elem_of_In & Hb).
      apply andb_true_iff in Hb as [Hb%String.eqb_eq _]. by destruct (Hc p Hp). }
    destruct (LidChats.copy_lookup pairs (LidChats.msgs db) id c) as [C1 C2]. destruct (LidChats.msgs db !! (id, c)) as [q|]; [by rewrite (C1 q)|].
    specialize (C2 eq_refl). destruct (LidChats.copy_messages pairs (LidChats.msgs db) !! (id, c)); [|done]. destruct C2 as (l & _ & Hp). by destruct (Hc _ Hp).
  - intros l ph x Hp Hx. unfold Chats.times at 1. rewrite LidChats.migrated_chs. fold pairs.
    rewrite (LidChats.phone_not_moved lid_map db l ph Hp : LidChats.is_moved pairs ph = false), LidChats.merge_chats_lookup, bool_decide_true by (apply list_elem_of_fmap; by exists (l, ph)).
    by eapply LidChats.merged_marker.
  - apply LidChats.nothing_to_move.
    destruct (LidChats.tmp_lid_to_phone lid_map (LidChats.MigrateLegacyLIDChatsToPhoneJIDs true lid_map db)) as [|p ps] eqn:Hps; [done|].
    assert (p ∈ LidChats.tmp_lid_to_phone lid_map (LidChats.MigrateLegacyLIDChatsToPhoneJIDs true lid_map db)) as Hin by (rewrite Hps; by left).
    apply LidChats.pairs_shape in Hin as (l & n & Hln & Hl & Hn & _ & Hc). by rewrite (LidChats.no_chat_left lid_map db l n) in Hc.
Qed.

(** ** Senders under a link id ([MigrateLegacyLIDSendersToPhones]) *)
Module LidSenders.

(** [tmp_lid_sender_map]. *)
Definition tmp_lid_sender_map (lid_map : list (string * string)) (t : messages) : list (string * string) :=
  remove_dups (filter (λ lp, lp.1 ≠ "" ∧ lp.2 ≠ "" ∧ existsb (λ kr, String.eqb (sender kr.2) lp.1) (map_to_list t) = true) lid_map).

Definition phone_of (pairs : list (string * string)) (user : string) : option string :=
  snd <$> list_find (λ p, p.1 = user) pairs ≫= λ ip, Some ip.2.

Definition with_sender (user : string) (server : option string) (r : message_row) : message_row :=
  {| sender := user; sender_server := server; content := content r; timestamp := timestamp r; is_from_me := is_from_me r;
     media_type := media_type r; filename := filename r; media := media r; media_presentation := media_presentation r;
     quoted_message_id := quoted_message_id r; location := location r; media_retry_chat := media_retry_chat r;
     media_retry_sender := media_retry_sender r; mentions := mentions r; deleted_at := deleted_at r; view_once := view_once r;
     target_message_id := target_message_id r; message_edit_timestamp := message_edit_timestamp r;
     read_receipt_sent := read_receipt_sent r |}.

(** The UPDATE of one row. *)
Definition moved_row (pairs : list (string * string)) (r : message_row) : message_row :=
  match phone_of pairs (sender r) with
  | Some phone =>
      if bool_decide (sender_server r = None ∨ sender_server r = Some HiddenUserServer)
      then with_sender phone (Some DefaultUserServer) r else r
  | None => r
  end.

Definition MigrateLegacyLIDSendersToPhones (has_map : bool) (lid_map : list (string * string)) (t : messages) : messages :=
  if negb has_map then t
  else
    let pairs := tmp_lid_sender_map lid_map t in
    if bool_decide (pairs = []) then t else moved_row pairs <$> t.

Lemma phone_of_elem pairs user phone : phone_of pairs user = Some phone → (user, phone) ∈ pairs.
Proof.
  unfold phone_of. destruct (list_find _ pairs) as [[i [a b]]|] eqn:Hf; [|done]. simpl. intros [= <-].
  apply list_find_Some in Hf as (Hi & Ha & _). simpl in Ha. subst. by eapply list_elem_of_lookup_2.
Qed.

Lemma phone_of_None pairs user phone : phone_of pairs user = None → (user, phone) ∉ pairs.
Proof.
  unfold phone_of. destruct (list_find _ pairs) as [[i [a b]]|] eqn:Hf; [done|]. intros _ Hin. apply list_find_None in Hf.
  rewrite Forall_forall in Hf. by apply (Hf (user, phone)).
Qed.

(** What becomes of a row, whatever else is in the table. *)
Lemma moved_lookup lid_map t k r : t !! k = Some r →
  MigrateLegacyLIDSendersToPhones true lid_map t !! k = Some (moved_row (tmp_lid_sender_map lid_map t) r).
Proof.
  intros Hk. unfold MigrateLegacyLIDSendersToPhones. cbn [negb]. case_bool_decide as Hp.
  - rewrite Hk, Hp. done.
  - by rewrite lookup_fmap, Hk.
Qed.

Lemma moved_settled pairs pairs' r : (∀ n, (sender r, n) ∈ pairs' → ∃ m, phone_of pairs (sender r) = Some m) →
  moved_row pairs' (moved_row pairs r) = moved_row pairs r.
Proof.
  intros Hsub. unfold moved_row at 2 3. destruct (phone_of pairs (sender r)) as [n|] eqn:Hn.
  - case_bool_decide as Hs.
    + unfold moved_row. simpl. by destruct (phone_of pairs' n).
    + unfold moved_row. destruct (phone_of pairs' (sender r)); [|done]. by rewrite bool_decide_false.
  - unfold moved_row. destruct (phone_of pairs' (sender r)) as [m|] eqn:Hm; [|done]. apply phone_of_elem in Hm.
    destruct (Hsub _ Hm) as [n' Hn']. congruence.
Qed.

Lemma sender_mapped (lid_map : list (string * string)) (t : messages) k r n : t !! k = Some r → (sender r, n) ∈ lid_map → sender r ≠ "" → n ≠ "" →
  ∃ m, phone_of (tmp_lid_sender_map lid_map t) (sender r) = Some m.
Proof.
  intros Hk Hin Hr Hn. destruct (phone_of _ (sender r)) as [m|] eqn:Hm; [eauto|]. exfalso. apply (phone_of_None _ _ n) in Hm. apply Hm.
  apply elem_of_remove_dups, list_elem_of_filter. split; [|done]. split_and!; [done..|]. apply existsb_exists. exists (k, r).
  split; [by apply list_elem_of_In, elem_of_map_to_list|]. simpl. apply String.eqb_refl.
Qed.

Lemma moved_None lid_map t k : t !! k = None → MigrateLegacyLIDSendersToPhones true lid_map t !! k = None.
Proof. intros Hk. unfold MigrateLegacyLIDSendersToPhones. cbn [negb]. case_bool_decide; [done|]. by rewrite lookup_fmap, Hk. Qed.
End LidSenders.

(** ** Namespaces of old senders ([MigrateSenderNamespaces]) *)
Module Namespaces.

Definition legacySenderDigits : list nat := [14%nat; 15%nat].

(** The evidence: the session's map and contact list when it has them, and our chats. *)
Record evidence := {
  lid_map : option (list (string * string));
  contacts : option (list string);
  known_chats : Chats.chats;
}.

(** [knownJIDEvidence]. *)
Definition knownJIDEvidence (e : evidence) (suffix user : string) : bool :=
  bool_decide (is_Some (known_chats e !! (user +:+ suffix)))
  || match contacts e with Some l => bool_decide ((user +:+ suffix) ∈ l) | None => false end.

(** [senderNamespaceClasses]: the server of a class and the senders in it. *)
Definition senderNamespaceClasses (e : evidence) : list (string * (string → bool)) :=
  match lid_map e with
  | Some m => [(HiddenUserServer, λ u, bool_decide (u ∈ map fst m)); (DefaultUserServer, λ u, bool_decide (u ∈ map snd m))]
  | None => []
  end
  ++ [(HiddenUserServer, knownJIDEvidence e "@lid"); (DefaultUserServer, knownJIDEvidence e "@s.whatsapp.net");
      (HiddenUserServer, λ u, bool_decide (String.length u ∈ legacySenderDigits) && isPhoneDigits u)].

(** The UPDATE of one class. *)
Definition classify_row (c : string * (string → bool)) (r : message_row) : message_row :=
  if bool_decide (sender_server r = None) && negb (String.eqb (sender r) "") && c.2 (sender r)
  then LidSenders.with_sender (sender r) (Some c.1) r else r.

Definition hasUnclassifiedSenders (t : messages) : bool := existsb (λ kr, bool_decide (sender_server kr.2 = None)) (map_to_list t).

Definition MigrateSenderNamespaces (e : evidence) (t : messages) : messages :=
  if negb (hasUnclassifiedSenders t) then t
  else foldl (λ t c, classify_row c <$> t) t (senderNamespaceClasses e).

(** The namespace the first matching rule gives. *)
Definition first_class (cs : list (string * (string → bool))) (user : string) : option string :=
  (λ ip, ip.2.1) <$> list_find (λ c, c.2 user = true) cs.

Definition classified (cs : list (string * (string → bool))) (r : message_row) : message_row :=
  match sender_server r with
  | Some _ => r
  | None => if String.eqb (sender r) "" then r
            else match first_class cs (sender r) with
                 | Some s => LidSenders.with_sender (sender r) (Some s) r
                 | None => r
                 end
  end.

Lemma classify_rows cs r : foldl (λ r c, classify_row c r) r cs = classified cs r.
Proof.
  revert r. induction cs as [|[s f] cs IH]; intros r; simpl.
  { unfold classified. destruct (sender_server r); [done|]. by destruct (String.eqb _ _). }
  rewrite IH. clear IH. unfold classified at 2, first_class, classify_row. simpl.
  destruct (sender_server r) as [q|] eqn:Hs; [rewrite bool_decide_false by done; simpl; unfold classified; by rewrite Hs|].
  rewrite bool_decide_true by done. simpl. destruct (String.eqb (sender r) "") eqn:He; simpl; [unfold classified; by rewrite Hs, He|].
  destruct (f (sender r)) eqn:Hf.
  - rewrite decide_True by done. done.
  - rewrite decide_False by congruence. unfold classified, first_class. rewrite Hs, He.
    destruct (list_find _ cs) as [[i c]|]; done.
Qed.

Lemma classes_fold (cs : list (string * (string → bool))) (t : messages) : foldl (λ t c, classify_row c <$> t) t cs = classified cs <$> t.
Proof.
  assert (foldl (λ t c, classify_row c <$> t) t cs = (λ r, foldl (λ r c, classify_row c r) r cs) <$> t) as ->.
  { revert t. induction cs as [|c cs IH]; intros t; simpl; [by rewrite map_fmap_id|]. by rewrite IH, <-map_fmap_compose. }
  apply map_fmap_ext. intros k r _. apply classify_rows.
Qed.

Lemma all_classified (cs : list (string * (string → bool))) (t : messages) : hasUnclassifiedSenders t = false → classified cs <$> t = t.
Proof.
  intros Hu. apply map_eq. intros k. rewrite lookup_fmap. destruct (t !! k) as [r|] eqn:Hk; simpl; [|done]. f_equal. unfold classified.
  destruct (sender_server r) eqn:Hs; [done|]. exfalso. unfold hasUnclassifiedSenders in Hu. apply not_true_iff_false in Hu. apply Hu.
  apply existsb_exists. exists (k, r). split; [by apply list_elem_of_In, elem_of_map_to_list|]. simpl. by rewrite bool_decide_true.
Qed.
End Namespaces.

(** ** One-off rewrites ([applyNamedMigration], [migrateUndeclaredMediaLengths]) *)
Module Named.

(** The transaction: the markers and the data; [body] may fail, [recorded] is
    whether the marker and the commit go through. *)
Definition applyNamedMigration {A} (name : string) (body : A → result string A) (recorded : bool) (st : gset string * A) :
    gset string * A * result string bool :=
  let '(markers, a) := st in
  if bool_decide (name ∈ markers) then (markers, a, Ok false)
  else match body a with
       | Err e => (markers, a, Err e)
       | Ok a' => if recorded then ({[name]} ∪ markers, a', Ok true) else (markers, a, Err "commit")
       end.

Definition undeclaredMediaLengthsMigration : string := "undeclared_media_lengths_v1".

Definition undeclare (r : message_row) : message_row :=
  if bool_decide (file_length (media r) = Some 0) && is_media (media_type r)
  then with_media {| url := url (media r); direct_path := direct_path (media r); media_key := media_key (media r);
                     file_sha256 := file_sha256 (media r); file_enc_sha256 := file_enc_sha256 (media r); file_length := None |}
         (media_presentation r) r
  else r.

Definition migrateUndeclaredMediaLengths (recorded : bool) (st : gset string * messages) : gset string * messages * result string bool :=
  applyNamedMigration undeclaredMediaLengthsMigration (λ t, Ok (undeclare <$> t)) recorded st.
End Named.

(** Senders move to phone numbers once and for all: a row with a known link
    id, or without a namespace, takes the phone of that link id; a row already
    recorded as a phone number never changes, even when its digits spell a link
    id; no row loses its text or is dropped; and a second run changes nothing. *)
Theorem lid_senders_move (lid_map : list (string * string)) (t : messages) :
  let t' := LidSenders.MigrateLegacyLIDSendersToPhones true lid_map t in
  (∀ k r, t !! k = Some r → ∃ r', t' !! k = Some r' ∧
     (sender_server r = Some DefaultUserServer → r' = r) ∧
     (r' = r ∨ ∃ n, (sender r, n) ∈ lid_map ∧ n ≠ "" ∧ r' = LidSenders.with_sender n (Some DefaultUserServer) r) ∧
     (sender_server r ≠ Some DefaultUserServer → sender_server r = None ∨ sender_server r = Some HiddenUserServer →
        ∀ n, (sender r, n) ∈ lid_map → sender r ≠ "" → n ≠ "" → sender_server r' = Some DefaultUserServer)) ∧
  LidSenders.MigrateLegacyLIDSendersToPhones true lid_map t' = t'.
Proof.
  cbv zeta. split.
  - intros k r Hk. rewrite (LidSenders.moved_lookup lid_map t k r Hk). eexists. split; [done|].
    set (pairs := LidSenders.tmp_lid_sender_map lid_map t). unfold LidSenders.moved_row. split_and!.
    + intros Hs. destruct (LidSenders.phone_of pairs (sender r)); [|done]. rewrite bool_decide_false; [done|]. rewrite Hs. by intros [?|?].
    + destruct (LidSenders.phone_of pairs (sender r)) as [n|] eqn:Hn; [|by left]. case_bool_decide; [right|by left].
      apply LidSenders.phone_of_elem in Hn. apply elem_of_remove_dups, list_elem_of_filter in Hn as [(_ & ? & _) ?]. by exists n.
    + intros _ Hs n Hin Hr Hn. destruct (LidSenders.sender_mapped lid_map t k r n) as [m Hm]; [done..|]. fold pairs in Hm. rewrite Hm.
      by rewrite bool_decide_true.
  - apply map_eq. intros k. destruct (t !! k) as [r|] eqn:Hk; [|by rewrite (LidSenders.moved_None _ _ _ (LidSenders.moved_None lid_map t k Hk)), LidSenders.moved_None].
    pose proof (LidSenders.moved_lookup lid_map t k r Hk) as Hk'. rewrite (LidSenders.moved_lookup lid_map _ k _ Hk'), Hk'. f_equal.
    apply LidSenders.moved_settled. intros n Hn. apply elem_of_remove_dups, list_elem_of_filter in Hn as [(? & ? & _) ?].
    by eapply LidSenders.sender_mapped.
Qed.

(** Old senders get the namespace of the strongest evidence: a namespace that
    is known never changes, and an unknown one becomes that of the first rule
    that matches (the session's map, then chats and contacts, then the length of
    a link id), exactly as if each row were judged on its own. *)
Theorem namespaces_first_evidence (e : Namespaces.evidence) (t : messages) :
  Namespaces.MigrateSenderNamespaces e t = Namespaces.classified (Namespaces.senderNamespaceClasses e) <$> t.
Proof.
  unfold Namespaces.MigrateSenderNamespaces. destruct (Namespaces.hasUnclassifiedSenders t) eqn:Hu; cbn [negb].
  - apply Namespaces.classes_fold.
  - by rewrite Namespaces.all_classified.
Qed.

(** A one-off rewrite runs at most once, and a failed one leaves nothing behind. *)
Theorem named_migration_once {A} name body recorded recorded' (st : gset string * A) st' out :
  Named.applyNamedMigration name body recorded st = (st'.1, st'.2, out) →
  match out with
  | Ok _ => Named.applyNamedMigration name body recorded' st' = (st'.1, st'.2, Ok false)
  | Err _ => st' = st
  end.
Proof.
  destruct st as [markers a], st' as [markers' a']. unfold Named.applyNamedMigration. simpl. case_bool_decide as Hin.
  - intros [= <- <- <-]. by rewrite bool_decide_true.
  - destruct (body a) as [b|err]; [|intros [= <- <- <-]; done]. destruct recorded; [|intros [= <- <- <-]; done].
    intros [= <- <- <-]. by rewrite bool_decide_true by set_solver.
Qed.

Example lid_senders_example :
  let row u s := LidSenders.with_sender u s (@messageArgs RefJid.ops (photo "" "" "" "" "hi")) in
  let t : messages := {[ ("A", "c") := row "111" None; ("B", "c") := row "111" (Some "s.whatsapp.net") ]} in
  let t' := LidSenders.MigrateLegacyLIDSendersToPhones true [("111", "55119")] t in
  sender <$> t' !! ("A", "c") = Some "55119" ∧ sender <$> t' !! ("B", "c") = Some "111".
Proof. split; vm_compute; reflexivity. Qed.
