(* ===== verification/Ogg.v ===== *)
(** * Voice notes ([analyzeOggOpus] of [send.go])

    The scan of an Ogg Opus file for its duration, byte by byte: the pages of
    the file, the pre-skip of its header and the last granule position.  A slice
    or an index out of range is a panic, which [scan] keeps as a value, and the
    scan takes fuel; both are shown not to happen.  Floating point is exact
    arithmetic followed by the rounding [rnd], as in [SendLimits]; [Binary64]
    adds that fractions with a power of two below them are representable.
    The decorative waveform is not modelled. *)
From Stdlib Require Import QArith Qround.
From S2P Require Import Prelude.
#[local] Open Scope Z_scope.

Class Binary64 (rnd : Q → Q) : Prop := {
  rnd_monotone x y : (x <= y)%Q → (rnd x <= rnd y)%Q;
  rnd_dyadic z (e : nat) : Z.abs z ≤ 2 ^ 53 → (e ≤ 1000)%nat →
    (rnd (z # Pos.of_nat (2 ^ e)) == z # Pos.of_nat (2 ^ e))%Q;
}.

(** ** Bytes *)

(** [data[a:b]]; [None] is a panic. *)
Definition slice (a b : nat) (data : list Z) : option (list Z) :=
  if bool_decide (a ≤ b ∧ b ≤ length data)%nat then Some (take (b - a) (drop a data)) else None.

(** [binary.LittleEndian]. *)
Fixpoint little_endian (bytes : list Z) : Z :=
  match bytes with [] => 0 | b :: rest => b + 256 * little_endian rest end.

Fixpoint starts_with (pat data : list Z) : bool :=
  match pat, data with
  | [], _ => true
  | p :: pat, d :: data => Z.eqb p d && starts_with pat data
  | _ :: _, [] => false
  end.

(** [bytes.Index]. *)
Fixpoint index (pat data : list Z) : option nat :=
  if starts_with pat data then Some O
  else match data with [] => None | _ :: rest => S <$> index pat rest end.

Definition ascii_bytes (s : string) : list Z := byte_code <$> list_ascii_of_string s.
Definition OggS : list Z := ascii_bytes "OggS".
Definition OpusHead : list Z := ascii_bytes "OpusHead".

(** ** The scan *)

Record opus := { lastGranule : Z; preSkip : Z; foundOpusHead : bool }.
Definition no_opus : opus := {| lastGranule := 0; preSkip := 0; foundOpusHead := false |}.

(** The pre-skip of the [OpusHead] packet in a page. *)
Definition read_head (pageSeqNum : Z) (pageData : list Z) (o : opus) : option opus :=
  if foundOpusHead o || bool_decide (1 < pageSeqNum) then Some o
  else match index OpusHead pageData with
       | None => Some o
       | Some headPos =>
           if bool_decide (length pageData < headPos + 8 + 8)%nat then Some o
           else match slice (headPos + 8) (length pageData) pageData with
                | None => None
                | Some body =>
                    match slice 2 4 body, slice 4 8 body with
                    | Some skip, Some _ =>
                        Some {| lastGranule := lastGranule o; preSkip := little_endian skip; foundOpusHead := true |}
                    | _, _ => None
                    end
                end
       end.

Definition note_granule (granulePos : Z) (o : opus) : opus :=
  if Z.eqb granulePos 0 || Z.eqb granulePos max_uint64 then o
  else {| lastGranule := granulePos; preSkip := preSkip o; foundOpusHead := foundOpusHead o |}.

(** One round of the loop at offset [i]. *)
Inductive round : Type :=
| Stop                                 (* break *)
| Skip                                 (* i++ *)
| Page (pageSize : nat) (o : opus)
| Panics.

Definition scan_page (data : list Z) (i : nat) (o : opus) : round :=
  if bool_decide (length data ≤ i + 27)%nat then Stop
  else match slice i (i + 4) data with
  | None => Panics
  | Some sig =>
      if negb (bool_decide (sig = OggS)) then Skip
      else match slice (i + 6) (i + 14) data, slice (i + 18) (i + 22) data, data !! (i + 26)%nat with
      | Some granule, Some seq, Some n =>
          let numSegments := Z.to_nat n in
          if bool_decide (length data ≤ i + 27 + numSegments)%nat then Stop
          else match slice (i + 27) (i + 27 + numSegments) data with
          | None => Panics
          | Some segmentTable =>
              let pageSize := (27 + numSegments + sum_list (Z.to_nat <$> segmentTable))%nat in
              if bool_decide (length data - i < pageSize)%nat then Stop
              else match slice i (i + pageSize) data with
              | None => Panics
              | Some pageData =>
                  match read_head (little_endian seq) pageData o with
                  | None => Panics
                  | Some o => Page pageSize (note_granule (little_endian granule) o)
                  end
              end
          end
      | _, _, _ => Panics
      end
  end.

(** The loop, [None] without fuel; [Some None] is a panic. *)
Fixpoint scan (fuel : nat) (data : list Z) (i : nat) (o : opus) : option (option opus) :=
  match fuel with
  | O => None
  | S fuel =>
      if bool_decide (length data ≤ i)%nat then Some (Some o)
      else match scan_page data i o with
           | Stop => Some (Some o)
           | Skip => scan fuel data (i + 1) o
           | Page size o' => scan fuel data (i + size) o'
           | Panics => Some None
           end
  end.

Section Duration.
(** The rounding of [float64] and what a conversion to [uint32] gives when the
    value does not fit, which Go leaves open. *)
Context (rnd : Q → Q) (overflow : Q → Z).

Definition granuleRate : Z := 48000.

Definition to_uint32 (q : Q) : Z :=
  if bool_decide (0 ≤ Qfloor q < 2 ^ 32) then Qfloor q else overflow q.

Definition clamp (d : Z) : Z := if bool_decide (d < 1) then 1 else if bool_decide (300 < d) then 300 else d.

Definition duration_of (o : opus) (len : nat) : Z :=
  clamp (if bool_decide (preSkip o < lastGranule o)
         then let secs := rnd (rnd (inject_Z (lastGranule o - preSkip o)) / inject_Z granuleRate) in
              to_uint32 (inject_Z (Qceiling (if Qle_bool secs (inject_Z 300) then secs else inject_Z 300)))
         else to_uint32 (rnd (rnd (inject_Z (Z.of_nat len)) / inject_Z 2000))).

(** [analyzeOggOpus]: the duration; [None] is a panic or an endless loop. *)
Definition analyzeOggOpus (data : list Z) : option (result string Z) :=
  if bool_decide (length data < 4)%nat || negb (bool_decide (take 4 data = OggS))
  then Some (Err "not a valid Ogg file (missing OggS signature)")
  else match scan (S (length data)) data 0 no_opus with
       | Some (Some o) => Some (Ok (duration_of o (length data)))
       | _ => None
       end.

End Duration.

(** ** The scan ends and stays within the input *)

Lemma slice_in a b data : (a ≤ b ≤ length data)%nat → slice a b data = Some (take (b - a) (drop a data)).
Proof. intros ?. unfold slice. by rewrite bool_decide_true. Qed.

Lemma slice_is_some a b data : (a ≤ b ≤ length data)%nat → ∃ s, slice a b data = Some s ∧ length s = (b - a)%nat.
Proof. intros Hab. rewrite slice_in by done. eexists. split; [done|]. rewrite length_take, length_drop. lia. Qed.

Lemma read_head_total seq page o : ∃ o', read_head seq page o = Some o'.
Proof.
  unfold read_head. destruct (_ || _); [by eexists|]. destruct (index OpusHead page) as [h|]; [|by eexists].
  case_bool_decide as Hlen; [by eexists|].
  destruct (slice_is_some (h + 8) (length page) page ltac:(lia)) as (body & -> & Hb).
  destruct (slice_is_some 2 4 body ltac:(lia)) as (? & -> & _).
  destruct (slice_is_some 4 8 body ltac:(lia)) as (? & -> & _). by eexists.
Qed.

Lemma scan_page_cases data i o :
  match scan_page data i o with
  | Panics => False
  | Page size _ => (27 ≤ size ∧ i + size ≤ length data)%nat
  | Stop | Skip => True
  end.
Proof.
  unfold scan_page. case_bool_decide as H27; [done|].
  destruct (slice_is_some i (i + 4) data ltac:(lia)) as (sig & -> & _). destruct (negb _); [done|].
  destruct (slice_is_some (i + 6) (i + 14) data ltac:(lia)) as (g & -> & _).
  destruct (slice_is_some (i + 18) (i + 22) data ltac:(lia)) as (s & -> & _).
  destruct (lookup_lt_is_Some_2 data (i + 26)%nat ltac:(lia)) as [n ->].
  case_bool_decide as Hn; [done|].
  destruct (slice_is_some (i + 27) (i + 27 + Z.to_nat n) data ltac:(lia)) as (t & -> & _).
  case_bool_decide as Hsize; [done|].
  destruct (slice_is_some i (i + (27 + Z.to_nat n + sum_list (Z.to_nat <$> t))) data ltac:(lia)) as (p & -> & _).
  destruct (read_head_total (little_endian s) p o) as [o' ->]. lia.
Qed.

Lemma scan_total fuel data i o :
  (length data - i < fuel)%nat → ∃ o', scan fuel data i o = Some (Some o').
Proof.
  revert i o. induction fuel as [|fuel IH]; intros i o Hf; [lia|]. simpl.
  case_bool_decide; [by eexists|]. pose proof (scan_page_cases data i o) as Hp.
  destruct (scan_page data i o); [by eexists|apply IH; lia|apply IH; lia|done].
Qed.

Lemma clamp_range d : 1 ≤ clamp d ≤ 300.
Proof. unfold clamp. repeat case_bool_decide; lia. Qed.

(** ** Files made of pages *)

(** A page: its header fields, the segment table and the payload. *)
Record page := {
  version : Z;
  header_type : Z;
  granule : list Z;
  serial : list Z;
  sequence : list Z;
  checksum : list Z;
  table : list Z;
  payload : list Z;
}.

Definition header (p : page) : list Z :=
  OggS ++ [version p; header_type p] ++ granule p ++ serial p ++ sequence p ++ checksum p
       ++ [Z.of_nat (length (table p))].

Definition encode (p : page) : list Z := header p ++ table p ++ payload p.

(** Field widths, at most 255 segments, a payload of the length the table says
    and not empty. *)
Record page_ok (p : page) : Prop := {
  granule_width : length (granule p) = 8%nat;
  serial_width : length (serial p) = 4%nat;
  sequence_width : length (sequence p) = 4%nat;
  checksum_width : length (checksum p) = 4%nat;
  table_sum : sum_list (Z.to_nat <$> table p) = length (payload p);
  payload_nonempty : payload p ≠ [];
}.

(** What a page adds, from its own bytes. *)
Definition read_page (o : opus) (p : page) : opus :=
  note_granule (little_endian (granule p)) (default o (read_head (little_endian (sequence p)) (encode p) o)).

#[local] Arguments header : simpl never.
#[local] Arguments encode : simpl never.

Lemma header_length p : page_ok p → length (header p) = 27%nat.
Proof. intros [Hg Hs Hq Hc _ _]. unfold header. rewrite !length_app, Hg, Hs, Hq, Hc. done. Qed.

Lemma slice_app pre mid post : slice (length pre) (length pre + length mid) (pre ++ mid ++ post) = Some mid.
Proof.
  rewrite slice_in by (rewrite !length_app; lia). f_equal.
  rewrite drop_app_length. replace (_ - _)%nat with (length mid) by lia. by rewrite take_app_length.
Qed.

Lemma slice_at a b pre mid post data :
  data = pre ++ mid ++ post → a = length pre → b = (length pre + length mid)%nat → slice a b data = Some mid.
Proof. intros -> -> ->. apply slice_app. Qed.

Lemma encode_length p : page_ok p → length (encode p) = (27 + length (table p) + length (payload p))%nat.
Proof. intros Hp. unfold encode. rewrite !length_app, header_length by done. lia. Qed.

Lemma scan_page_encoded pre p post o :
  page_ok p →
  scan_page (pre ++ encode p ++ post) (length pre) o = Page (length (encode p)) (read_page o p).
Proof.
  intros Hp. pose proof (encode_length p Hp) as Hlen. pose proof Hp as [Hg Hs Hq Hc Ht Hne].
  assert (0 < length (payload p))%nat by (destruct (payload p); [done|simpl; lia]).
  assert (length (pre ++ encode p ++ post) = (length pre + length (encode p) + length post)%nat) as Htotal
    by (rewrite !length_app; lia).
  unfold scan_page. rewrite bool_decide_false by lia.
  rewrite (slice_at _ _ pre OggS (drop 4 (encode p) ++ post)) by (unfold encode, header; simpl; done || (simpl; lia)).
  rewrite bool_decide_true by done. simpl negb. cbv iota.
  rewrite (slice_at (length pre + 6) _ (pre ++ OggS ++ [version p; header_type p]) (granule p)
    (serial p ++ sequence p ++ checksum p ++ [Z.of_nat (length (table p))] ++ table p ++ payload p ++ post));
    [|unfold encode, header; by rewrite <-!app_assoc|rewrite !length_app; done|rewrite !length_app, Hg; simpl; lia].
  rewrite (slice_at (length pre + 18) _ (pre ++ OggS ++ [version p; header_type p] ++ granule p ++ serial p) (sequence p)
    (checksum p ++ [Z.of_nat (length (table p))] ++ table p ++ payload p ++ post));
    [|unfold encode, header; by rewrite <-!app_assoc|rewrite !length_app, Hg, Hs; done|rewrite !length_app, Hg, Hs, Hq; simpl; lia].
  replace ((pre ++ encode p ++ post) !! (length pre + 26)%nat) with (Some (Z.of_nat (length (table p)))).
  2:{ symmetry. unfold encode, header.
      replace (pre ++ _) with ((pre ++ OggS ++ [version p; header_type p] ++ granule p ++ serial p ++ sequence p ++ checksum p)
        ++ Z.of_nat (length (table p)) :: (table p ++ payload p ++ post)) by (rewrite <-!app_assoc; done).
      apply list_lookup_middle. rewrite !length_app, Hg, Hs, Hq, Hc. done. }
  rewrite Nat2Z.id, bool_decide_false by lia.
  rewrite (slice_at (length pre + 27) _ (pre ++ header p) (table p) (payload p ++ post));
    [|unfold encode; by rewrite <-!app_assoc|rewrite length_app, header_length; done|rewrite length_app, header_length by done; lia].
  rewrite Ht, bool_decide_false by lia.
  rewrite (slice_at (length pre) _ pre (encode p) post); [|done|done|rewrite Hlen; lia].
  unfold read_page. destruct (read_head_total (little_endian (sequence p)) (encode p) o) as [o' ->].
  by rewrite Hlen.
Qed.

Lemma scan_encoded fuel pre ps o :
  Forall page_ok ps → (length (mjoin (encode <$> ps)) < fuel)%nat →
  scan fuel (pre ++ mjoin (encode <$> ps)) (length pre) o = Some (Some (foldl read_page o ps)).
Proof.
  intros Hps. revert fuel pre o. induction Hps as [|p ps Hp Hps IH]; intros fuel pre o Hf.
  - destruct fuel; [simpl in Hf; lia|]. simpl. by rewrite app_nil_r, bool_decide_true by lia.
  - change (mjoin (encode <$> p :: ps)) with (encode p ++ mjoin (encode <$> ps)) in *.
    rewrite length_app in Hf. pose proof (encode_length p Hp).
    destruct fuel as [|fuel]; [lia|]. cbn [scan foldl].
    rewrite bool_decide_false by (rewrite !length_app; lia).
    rewrite scan_page_encoded by done.
    specialize (IH fuel (pre ++ encode p) (read_page o p) ltac:(lia)).
    rewrite <-app_assoc, length_app in IH. exact IH.
Qed.

(** ** What a file of pages says *)

(** The granule positions that count, and the pre-skip a page announces. *)
Definition granules (ps : list page) : list Z :=
  filter (λ g, g ≠ 0 ∧ g ≠ max_uint64) ((λ p, little_endian (granule p)) <$> ps).

Definition head_skip (p : page) : option Z :=
  if bool_decide (1 < little_endian (sequence p)) then None
  else h ← index OpusHead (encode p);
       if bool_decide (length (encode p) < h + 16)%nat then None
       else Some (little_endian (take 2 (drop (h + 10) (encode p)))).

Definition end_position (ps : list page) : Z := default 0 (last (granules ps)).
Definition start_position (ps : list page) : Z := default 0 (head (omap head_skip ps)).

Lemma read_head_skip p o :
  read_head (little_endian (sequence p)) (encode p) o =
  Some (if foundOpusHead o then o
        else match head_skip p with
             | Some s => {| lastGranule := lastGranule o; preSkip := s; foundOpusHead := true |}
             | None => o
             end).
Proof.
  unfold read_head, head_skip. destruct (foundOpusHead o); [done|]. cbn [orb].
  case_bool_decide; [done|]. destruct (index OpusHead (encode p)) as [h|]; [|done]. cbn [mbind option_bind].
  rewrite <-Nat.add_assoc. change (8 + 8)%nat with 16%nat. case_bool_decide; [done|].
  rewrite slice_in by lia. rewrite !slice_in by (rewrite length_take, length_drop; lia).
  do 3 f_equal. rewrite (take_ge (drop (h + 8) _)) by (rewrite length_drop; lia).
  by rewrite drop_drop, <-Nat.add_assoc.
Qed.

Lemma read_pages ps o :
  foldl read_page o ps =
  {| lastGranule := default (lastGranule o) (last (granules ps));
     preSkip := if foundOpusHead o then preSkip o else default (preSkip o) (head (omap head_skip ps));
     foundOpusHead := foundOpusHead o || bool_decide (omap head_skip ps ≠ []) |}.
Proof.
  revert o. induction ps as [|p ps IH]; intros o; simpl.
  - destruct o as [g s []]; done.
  - rewrite IH. clear IH. unfold read_page. rewrite read_head_skip. cbn [default].
    unfold granules. rewrite fmap_cons, filter_cons. fold (granules ps). unfold note_granule.
    destruct (Z.eqb_spec (little_endian (granule p)) 0) as [E|E], (Z.eqb_spec (little_endian (granule p)) max_uint64) as [E'|E'];
      cbn [orb]; rewrite ?(decide_False (P := _ ∧ _)) by tauto; rewrite ?(decide_True (P := _ ∧ _)) by done;
      destruct (foundOpusHead o) eqn:Ho, (head_skip p) as [s|]; cbn; rewrite ?Ho; cbn; rewrite ?last_cons;
      fold (granules ps); try (destruct (last (granules ps)); done); done.
Qed.

(** ** Exact seconds *)

Section Exact.
Context (rnd : Q → Q) (HF : Binary64 rnd) (overflow : Q → Z).
#[local] Open Scope Q_scope.

Lemma rnd_Z z : (Z.abs z ≤ 2 ^ 53)%Z → rnd (inject_Z z) == inject_Z z.
Proof. intros Hz. exact (rnd_dyadic z 0 Hz ltac:(lia)). Qed.

Lemma rnd_16 z : (Z.abs z ≤ 2 ^ 53)%Z → rnd (z # 65536) == z # 65536.
Proof. intros Hz. exact (rnd_dyadic z 16 Hz ltac:(lia)). Qed.

(** Bounds by multiples of [2^-16] survive the two roundings of a quotient. *)
Lemma quot_ge x n r z :
  (0 < r)%Z → (x ≤ n)%Z → (Z.abs x ≤ 2 ^ 53)%Z → (Z.abs z ≤ 2 ^ 53)%Z → (z * r ≤ x * 65536)%Z →
  z # 65536 <= rnd (rnd (inject_Z n) / inject_Z r).
Proof.
  intros Hr Hxn Hx Hz Hle. rewrite <-(rnd_16 z) by done. apply rnd_monotone.
  apply Qle_shift_div_l; [by change 0 with (inject_Z 0); rewrite <-Zlt_Qlt|].
  apply (Qle_trans _ (inject_Z x)); [|rewrite <-(rnd_Z x) by done; apply rnd_monotone; by rewrite <-Zle_Qle].
  unfold Qle, Qmult, inject_Z. simpl. lia.
Qed.

Lemma quot_le x n r z :
  (0 < r)%Z → (n ≤ x)%Z → (Z.abs x ≤ 2 ^ 53)%Z → (Z.abs z ≤ 2 ^ 53)%Z → (x * 65536 ≤ z * r)%Z →
  rnd (rnd (inject_Z n) / inject_Z r) <= z # 65536.
Proof.
  intros Hr Hxn Hx Hz Hle. rewrite <-(rnd_16 z) by done. apply rnd_monotone.
  apply Qle_shift_div_r; [by change 0 with (inject_Z 0); rewrite <-Zlt_Qlt|].
  apply (Qle_trans _ (inject_Z x)); [rewrite <-(rnd_Z x) by done; apply rnd_monotone; by rewrite <-Zle_Qle|].
  unfold Qle, Qmult, inject_Z. simpl. lia.
Qed.

Lemma ceiling_is q k : inject_Z (k - 1) < q → q <= inject_Z k → Qceiling q = k.
Proof.
  intros Hlo Hhi. pose proof (Qle_ceiling q) as H1. pose proof (Qceiling_resp_le _ _ Hhi) as H2.
  rewrite Qceiling_Z in H2. assert (inject_Z (k - 1) < inject_Z (Qceiling q)) as H3 by (by eapply Qlt_le_trans).
  rewrite <-Zlt_Qlt in H3. lia.
Qed.

Lemma floor_is q k : inject_Z k <= q → q < inject_Z (k + 1) → Qfloor q = k.
Proof.
  intros Hlo Hhi. pose proof (Qfloor_le q) as H1. pose proof (Qfloor_resp_le _ _ Hlo) as H2.
  rewrite Qfloor_Z in H2. assert (inject_Z (Qfloor q) < inject_Z (k + 1)) as H3 by (by eapply Qle_lt_trans).
  rewrite <-Zlt_Qlt in H3. lia.
Qed.

(** Seconds from a granule position: rounded up, at most 300. *)
Lemma granule_seconds n :
  (0 < n)%Z →
  let secs := rnd (rnd (inject_Z n) / inject_Z granuleRate) in
  Qceiling (if Qle_bool secs (inject_Z 300) then secs else inject_Z 300) = Z.min 300 ((n + 47999) / 48000).
Proof.
  intros Hn secs. set (k := ((n + 47999) / 48000)%Z).
  assert (48000 * (k - 1) < n ≤ 48000 * k)%Z as Hk by (subst k; Z.to_euclidean_division_equations; lia).
  destruct (decide (k ≤ 300)%Z) as [H300|H300].
  - assert (secs <= inject_Z k) as Hhi.
    { apply (Qle_trans _ (65536 * k # 65536)); [|unfold Qle, inject_Z; simpl; lia].
      apply (quot_le n); unfold granuleRate; lia. }
    assert (inject_Z (k - 1) < secs) as Hlo.
    { apply (Qlt_le_trans _ (65536 * (k - 1) + 1 # 65536)); [unfold Qlt, inject_Z; simpl; lia|].
      apply (quot_ge n); unfold granuleRate; lia. }
    replace (Qle_bool secs (inject_Z 300)) with true.
    2:{ symmetry. apply Qle_bool_iff. eapply Qle_trans; [exact Hhi|]. by rewrite <-Zle_Qle. }
    rewrite Z.min_r by lia. by apply ceiling_is.
  - assert (inject_Z 300 <= secs) as Hlo.
    { apply (Qle_trans _ (65536 * 300 # 65536)); [done|].
      apply (quot_ge (48000 * 300)); unfold granuleRate; lia. }
    rewrite Z.min_l by lia. destruct (Qle_bool secs (inject_Z 300)) eqn:E; [|done].
    apply Qle_bool_iff in E. apply ceiling_is; [|done]. eapply Qlt_le_trans; [|exact Hlo]. done.
Qed.

(** Seconds estimated from the size. *)
Lemma size_seconds n :
  (0 ≤ n < 2 ^ 40)%Z →
  clamp (to_uint32 overflow (rnd (rnd (inject_Z n) / inject_Z 2000))) = clamp (n / 2000).
Proof.
  intros Hn. set (k := (n / 2000)%Z).
  assert (2000 * k ≤ n < 2000 * (k + 1))%Z as Hk by (subst k; Z.to_euclidean_division_equations; lia).
  assert (Qfloor (rnd (rnd (inject_Z n) / inject_Z 2000)) = k) as Hfl.
  { apply floor_is.
    - apply (Qle_trans _ (65536 * k # 65536)); [unfold Qle, inject_Z; simpl; lia|]. apply (quot_ge n); lia.
    - apply (Qle_lt_trans _ (65536 * (k + 1) - 1 # 65536)); [|unfold Qlt, inject_Z; simpl; lia].
      apply (quot_le n); lia. }
  unfold to_uint32. rewrite Hfl, bool_decide_true by lia. done.
Qed.

Lemma analyze_pages ps :
  ps ≠ [] → Forall page_ok ps → (Z.of_nat (length (mjoin (encode <$> ps))) < 2 ^ 40)%Z →
  analyzeOggOpus rnd overflow (mjoin (encode <$> ps)) =
  Some (Ok (if bool_decide (start_position ps < end_position ps)%Z
            then Z.min 300 ((end_position ps - start_position ps + 47999) / 48000)%Z
            else clamp (Z.of_nat (length (mjoin (encode <$> ps))) / 2000)%Z)).
Proof.
  intros Hne Hok Hsize. unfold analyzeOggOpus. destruct ps as [|p ps]; [done|].
  change (mjoin (encode <$> p :: ps)) with (encode p ++ mjoin (encode <$> ps)) at 1 2.
  rewrite bool_decide_false.
  2:{ rewrite length_app, encode_length by (by inversion Hok). lia. }
  rewrite bool_decide_true by done. cbn [orb negb].
  pose proof (scan_encoded (S (length (mjoin (encode <$> p :: ps)))) [] (p :: ps) no_opus Hok ltac:(lia)) as Hscan.
  cbn [app length] in Hscan. rewrite Hscan, read_pages. cbn [lastGranule preSkip foundOpusHead no_opus].
  fold (start_position (p :: ps)) (end_position (p :: ps)).
  unfold duration_of. cbn [lastGranule preSkip]. case_bool_decide as Hpos; do 2 f_equal; [|apply size_seconds; lia].
  rewrite granule_seconds by lia. unfold to_uint32. rewrite Qfloor_Z.
  set (k := ((_ + 47999) / 48000)%Z). assert (1 ≤ k)%Z by (subst k; Z.to_euclidean_division_equations; lia).
  rewrite bool_decide_true by lia. unfold clamp. repeat case_bool_decide; lia.
Qed.
End Exact.

(** Analysing any bytes as a voice note ends without reading outside the
    input: without the Ogg signature it is refused, with it the announced
    duration is between 1 and 300 seconds. *)
Theorem voice_note_total (rnd : Q → Q) (overflow : Q → Z) (data : list Z) :
  ∃ r, analyzeOggOpus rnd overflow data = Some r ∧
       match r with
       | Ok d => take 4 data = OggS ∧ 1 ≤ d ≤ 300
       | Err _ => take 4 data ≠ OggS
       end.
Proof.
  unfold analyzeOggOpus. destruct (scan_total (S (length data)) data 0 no_opus ltac:(lia)) as [o ->].
  destruct (decide (take 4 data = OggS)) as [E|E].
  - rewrite (bool_decide_true (take 4 data = OggS)) by done.
    assert (4 ≤ length data)%nat by (apply (f_equal length) in E; rewrite length_take in E; change (length OggS) with 4%nat in E; lia).
    rewrite bool_decide_false by lia. simpl. eexists. split; [done|]. split; [done|apply clamp_range].
  - rewrite (bool_decide_false (take 4 data = OggS)) by done. rewrite orb_true_r. by eexists.
Qed.

(** In a file made of pages with a payload the scan finds every page: the
    duration is the distance from the pre-skip of the first OpusHead packet to
    the last granule position that is set, in seconds of 48000 samples rounded
    up and at most 300; when no such position lies after the pre-skip, it is
    estimated from the size of the file. *)
Theorem voice_note_duration (rnd : Q → Q) (HF : Binary64 rnd) (overflow : Q → Z) (ps : list page) :
  ps ≠ [] → Forall page_ok ps → Z.of_nat (length (mjoin (encode <$> ps))) < 2 ^ 40 →
  analyzeOggOpus rnd overflow (mjoin (encode <$> ps)) =
  Some (Ok (if bool_decide (start_position ps < end_position ps)
            then Z.min 300 ((end_position ps - start_position ps + 47999) / 48000)
            else clamp (Z.of_nat (length (mjoin (encode <$> ps))) / 2000))).
Proof. apply (analyze_pages rnd HF overflow). Qed.

(** Exact arithmetic is such a rounding. *)
Lemma exact_binary64 : Binary64 (λ q, q).
Proof. split; [done|]. intros. reflexivity. Qed.

(** A header page with pre-skip 312 and a page that ends at sample 96312. *)
Definition sample_pages : list page :=
  [ {| version := 0; header_type := 2; granule := replicate 8 0; serial := [1; 0; 0; 0]; sequence := replicate 4 0;
       checksum := replicate 4 7; table := [19];
       payload := OpusHead ++ [1; 1; 56; 1; 128; 187; 0; 0; 0; 0; 0] |};
    {| version := 0; header_type := 4; granule := [56; 120; 1; 0; 0; 0; 0; 0]; serial := [1; 0; 0; 0];
       sequence := [1; 0; 0; 0]; checksum := replicate 4 9; table := [3]; payload := [5; 6; 7] |} ].

Lemma voice_note_duration_witness :
  analyzeOggOpus (λ q, q) (λ _, 0) (mjoin (encode <$> sample_pages)) = Some (Ok 2).
Proof.
  rewrite (voice_note_duration (λ q, q) exact_binary64 (λ _, 0) sample_pages);
    [reflexivity|done|repeat constructor; done|vm_compute; reflexivity].
Defined.
