(* ===== verification/MediaNames.v ===== *)
(** * Names of media files

    The display names a recipient sees ([outboundFileName] and
    [cleanDisplayName] of [media_path.go]), the names of cached files
    ([media.go], [generatedMediaName] of [forward_media.go]) and the rule that
    finds them ([media_cache_path.go]).  A [range] loop over a Go string and
    [WriteRune] are [runes] and [utf8]: an invalid byte reads as U+FFFD. *)
From S2P Require Import Prelude StoreTime.
#[local] Open Scope Z_scope.

(** ** UTF-8 *)

(** Length of the encoding and range of its second byte, by first byte. *)
Definition utf8_lead (b : Z) : option (nat * Z * Z) :=
  if bool_decide (194 ≤ b ≤ 223) then Some (2%nat, 128, 191)
  else if bool_decide (b = 224) then Some (3%nat, 160, 191)
  else if bool_decide (b = 237) then Some (3%nat, 128, 159)
  else if bool_decide (225 ≤ b ≤ 239) then Some (3%nat, 128, 191)
  else if bool_decide (b = 240) then Some (4%nat, 144, 191)
  else if bool_decide (b = 244) then Some (4%nat, 128, 143)
  else if bool_decide (241 ≤ b ≤ 243) then Some (4%nat, 128, 191)
  else None.

Definition within (lo hi b : Z) : bool := bool_decide (lo ≤ b ≤ hi).
Definition RuneError : Z := 65533.

(** The runes of a byte string. *)
Fixpoint runes (l : list Z) : list Z :=
  match l with
  | [] => []
  | b0 :: rest =>
      if bool_decide (b0 < 128) then b0 :: runes rest
      else match utf8_lead b0, rest with
      | Some (2%nat, lo, hi), b1 :: t =>
          if within lo hi b1 then ((b0 - 192) * 64 + (b1 - 128)) :: runes t else RuneError :: runes rest
      | Some (3%nat, lo, hi), b1 :: b2 :: t =>
          if within lo hi b1 && within 128 191 b2
          then ((b0 - 224) * 4096 + (b1 - 128) * 64 + (b2 - 128)) :: runes t else RuneError :: runes rest
      | Some (4%nat, lo, hi), b1 :: b2 :: b3 :: t =>
          if within lo hi b1 && within 128 191 b2 && within 128 191 b3
          then ((b0 - 240) * 262144 + (b1 - 128) * 4096 + (b2 - 128) * 64 + (b3 - 128)) :: runes t
          else RuneError :: runes rest
      | _, _ => RuneError :: runes rest
      end
  end.

Definition encode_rune (r : Z) : list Z :=
  if bool_decide (0 ≤ r < 128) then [r]
  else if bool_decide (0 ≤ r < 2048) then [192 + r / 64; 128 + r mod 64]
  else if bool_decide (r < 0 ∨ 55296 ≤ r ≤ 57343 ∨ 1114111 < r) then [239; 191; 189]
  else if bool_decide (r < 65536) then [224 + r / 4096; 128 + r / 64 mod 64; 128 + r mod 64]
  else [240 + r / 262144; 128 + r / 4096 mod 64; 128 + r / 64 mod 64; 128 + r mod 64].

Definition utf8 (rs : list Z) : list Z := mjoin (encode_rune <$> rs).

Definition codes (s : string) : list Z := byte_code <$> list_ascii_of_string s.
Definition of_codes (l : list Z) : string := string_of_list_ascii (byte_of <$> l).

(** [unicode.IsControl], [unicode.IsSpace]. *)
Definition IsControl (r : Z) : bool := bool_decide (r ≤ 31) || within 127 159 r.
Definition IsSpace (r : Z) : bool :=
  within 9 13 r || bool_decide (r ∈ [32; 133; 160; 5760; 8232; 8233; 8239; 8287; 12288]) || within 8192 8202 r.

(** [strings.TrimSpace] of an encoded string, on its runes. *)
Fixpoint drop_spaces (rs : list Z) : list Z :=
  match rs with [] => [] | r :: rest => if IsSpace r then drop_spaces rest else rs end.
Definition trim_runes (rs : list Z) : list Z := reverse (drop_spaces (reverse (drop_spaces rs))).

(** ** Display names *)

Definition reordersText (r : Z) : bool := within 8234 8238 r || within 8294 8297 r.

Definition wire_unsafe : list Z := codes "<>:/\|?*" ++ [34].

Definition unwanted (wire : bool) (r : Z) : bool :=
  IsControl r || reordersText r || bool_decide (r ∈ [8206; 8207; 1564; 8232; 8233])
  || (wire && bool_decide (r ∈ wire_unsafe)).

(** [filepath.Ext]: from the last dot of the last element. *)
Fixpoint ext_from (l : list Z) (best : option (list Z)) : option (list Z) :=
  match l with
  | [] => best
  | b :: rest => if Z.eqb b 47 then ext_from rest None
                 else ext_from rest (if Z.eqb b 46 then Some l else best)
  end.
Definition Ext (name : string) : string := of_codes (default [] (ext_from (codes name) None)).

Definition lower_alnum (a : ascii) : bool :=
  within 97 122 (byte_code a) || within 48 57 (byte_code a).

Definition documentExt (name : string) : string :=
  let ext := to_lower (Ext (trim_space name)) in
  if bool_decide (String.length ext < 2)%nat || bool_decide (11 < String.length ext)%nat then ""
  else match ext with
       | EmptyString => ""
       | String _ rest =>
           if negb (forallb lower_alnum (list_ascii_of_string rest)) then ""
           else if String.eqb ext ".part" then ".part.bin" else ext
       end.

(** The loop of [boundMediaName]: the runes kept and whether it stopped early. *)
Fixpoint keep_runes (wire : bool) (rs : list Z) (count : nat) : list Z * bool :=
  match rs with
  | [] => ([], false)
  | r :: rest =>
      if unwanted wire r then keep_runes wire rest count
      else if Nat.eqb count 200 then ([], true)
      else let '(kept, truncated) := keep_runes wire rest (S count) in (r :: kept, truncated)
  end.

Definition bound_runes (name : string) (wire : bool) : list Z :=
  let '(kept, truncated) := keep_runes wire (runes (codes name)) 0 in
  let result := trim_runes kept in
  if truncated && negb (String.eqb (documentExt name) "")
  then let ext := codes (Ext (trim_space name)) in
       take (Nat.min (length result) (200 - length ext)) result ++ ext
  else result.

Definition boundMediaName (name : string) (wire : bool) : string := of_codes (utf8 (bound_runes name wire)).

Definition cleanDisplayName (name : string) : string := boundMediaName name false.

(** [name[i+1:]] with [i] the last index of a byte satisfying [f]. *)
Fixpoint after_last (f : Z → bool) (l : list Z) (best : list Z) : list Z :=
  match l with [] => best | b :: rest => after_last f rest (if f b then rest else best) end.

Definition base_name (l : list Z) : list Z := after_last (λ b, Z.eqb b 47 || Z.eqb b 92) l l.

Definition cleanOutboundName (mediaPath : string) : string :=
  let name := base_name (codes mediaPath) in
  boundMediaName (of_codes (after_last (λ b, Z.eqb b 58) name name)) true.

Definition outboundFileName (mediaPath : string) : string :=
  let name := cleanOutboundName mediaPath in
  if String.eqb name "" then "file" else name.

(** ** Cached files *)

(** [Format "20060102_150405"] of a local clock reading, in seconds. *)
Definition clock_name (s : Z) : string :=
  let '(y, m, d) := civil (s / 86400) in
  let sod := s mod 86400 in
  appendInt y 4 +:+ appendInt m 2 +:+ appendInt d 2 +:+ String "_"
    (appendInt (sod / 3600) 2 +:+ appendInt (sod / 60 mod 60) 2 +:+ appendInt (sod mod 60) 2).

(** [mediaFileName]; [zone] is the offset of the local zone at an instant. *)
Definition mediaFileName (zone : Z → Z) (mediaType : string) (timestamp : Z) (messageID originalName : string) : string :=
  let ext := if String.eqb mediaType "image" then ".jpg"
             else if String.eqb mediaType "video" then ".mp4"
             else if String.eqb mediaType "audio" then ".ogg"
             else if String.eqb mediaType "sticker" then ".webp"
             else if String.eqb mediaType "document" then documentExt originalName
             else "" in
  mediaType +:+ String "_" (clock_name (stamp timestamp + zone (stamp timestamp))
    +:+ String "_" (messageID +:+ ext)).

Definition legacyMediaFileName (zone : Z → Z) (mediaType : string) (timestamp : Z) (messageID : string) : string :=
  mediaFileName zone mediaType timestamp messageID "".

Definition mediaFileNames (zone : Z → Z) (mediaType : string) (timestamp : Z) (messageID originalName : string) : list string :=
  [mediaFileName zone mediaType timestamp messageID originalName;
   legacyMediaFileName zone mediaType timestamp messageID].

Definition chatMediaRel (chatJID : string) : string :=
  string_of_list_ascii ((λ a, if Ascii.eqb a ":" then "_"%char else a) <$> list_ascii_of_string chatJID).

Fixpoint has_dotdot (l : list Z) : bool :=
  match l with
  | a :: (b :: _) as rest => (Z.eqb a 46 && Z.eqb b 46) || has_dotdot rest
  | _ => false
  end.

(** One path component, as [checkMediaPathComponents] wants it. *)
Definition bad_component (name : string) : bool :=
  String.eqb name "" || String.eqb name "." || has_dotdot (codes name)
  || bool_decide (47 ∈ codes name ∨ 92 ∈ codes name) || existsb IsControl (runes (codes name)).

Definition ends_with (suffix name : string) : bool :=
  has_prefix (string_of_list_ascii (reverse (list_ascii_of_string suffix)))
             (string_of_list_ascii (reverse (list_ascii_of_string name))).

Definition checkMediaPathComponents (chatDir filename : string) : option string :=
  if ends_with ".part" filename then Some "temporary media leaf"
  else if bad_component chatDir then Some "chat JID"
  else if bad_component filename then Some "message ID"
  else None.

(** [time.Parse("20060102_150405", s)] succeeds. *)
Definition is_leap (y : Z) : bool := Z.eqb (y mod 4) 0 && (negb (Z.eqb (y mod 100) 0) || Z.eqb (y mod 400) 0).
Definition days_in (y m : Z) : Z :=
  if Z.eqb m 2 then (if is_leap y then 29 else 28)
  else if bool_decide (m ∈ [4; 6; 9; 11]) then 30 else 31.

Fixpoint number (l : list Z) (acc : Z) : option Z :=
  match l with
  | [] => Some acc
  | b :: rest => if within 48 57 b then number rest (10 * acc + (b - 48)) else None
  end.

Definition parses_clock (l : list Z) : bool :=
  match number (take 4 l) 0, number (take 2 (drop 4 l)) 0, number (take 2 (drop 6 l)) 0,
        number (take 2 (drop 9 l)) 0, number (take 2 (drop 11 l)) 0, number (take 2 (drop 13 l)) 0 with
  | Some y, Some m, Some d, Some h, Some mi, Some s =>
      bool_decide (l !! 8%nat = Some 95) && within 1 12 m && within 1 (days_in y m) d
      && within 0 23 h && within 0 59 mi && within 0 59 s
  | _, _, _, _, _, _ => false
  end.

Definition media_kinds : list string := ["document"; "image"; "video"; "audio"; "sticker"].

(** What follows [kind_] in a generated name. *)
Definition generated_rest (rest : list Z) : bool :=
  if bool_decide (length rest < 15)%nat then false
  else if negb (parses_clock (take 15 rest)) then false
  else match drop 15 rest with
       | [] => true
       | c :: more => (Z.eqb c 95 || Z.eqb c 46) && negb (bool_decide (more = []))
       end.

Fixpoint generated_kind (kinds : list string) (name : string) : bool :=
  match kinds with
  | [] => false
  | kind :: kinds =>
      match strip_prefix (kind +:+ "_") name with
      | None => generated_kind kinds name
      | Some rest => generated_rest (codes rest)
      end
  end.

Definition generatedMediaName (name : string) : bool :=
  generated_kind media_kinds (of_codes (base_name (codes name))).

(** What [Lstat] sees under a name. *)
Inductive lstat : Type := Missing | Directory | RegularFile | Other | LstatError.

Inductive lookup_result : Type :=
| Found (name : string)
| NotCached
| RefusedPath (why : string).

(** [findCachedMediaInDir]. *)
Fixpoint findCachedMediaInDir (stat : string → lstat) (names : list string) (previous : string)
    (refused : option string) : lookup_result :=
  match names with
  | [] => match refused with Some e => RefusedPath e | None => NotCached end
  | name :: rest =>
      if String.eqb name previous then findCachedMediaInDir stat rest previous refused
      else match stat name with
           | RegularFile => Found name
           | Missing => findCachedMediaInDir stat rest name refused
           | LstatError => findCachedMediaInDir stat rest name (Some "lstat")
           | _ => findCachedMediaInDir stat rest name (Some "cached media is not a regular file")
           end
  end.

(** [findCachedMedia] through [requireChatMediaDir] and [openChatMediaDir]:
    [dir] is what stands under the chat's name, [opened] whether the directory
    opened is the one seen, [stat] the files in it. *)
Definition findCachedMedia (dir : lstat) (opened : bool) (stat : string → lstat) (chatDir : string)
    (names : list string) : lookup_result :=
  match omap (checkMediaPathComponents chatDir) names with
  | why :: _ => RefusedPath why
  | [] =>
      match dir with
      | Missing => NotCached
      | Directory => if opened then findCachedMediaInDir stat names "" None
                     else RefusedPath "chat directory changed while it was being opened"
      | _ => RefusedPath "chat directory is not a real directory inside the store"
      end
  end.

(** [cachedMediaPath]: the path below the store, "" when nothing is cached. *)
Definition cachedMediaPath (zone : Z → Z) (dir : lstat) (opened : bool) (stat : string → lstat)
    (chatDir mediaType : string) (timestamp : Z) (messageID originalName : string) : string :=
  match findCachedMedia dir opened stat chatDir (mediaFileNames zone mediaType timestamp messageID originalName) with
  | Found name => chatDir +:+ String "/" name
  | _ => ""
  end.

Example name_document : mediaFileName (λ _, 0) "document" 0 "3EB0" "Report.PDF" = "document_19700101_000000_3EB0.pdf".
Proof. vm_compute. reflexivity. Qed.
Example name_generated : generatedMediaName "/x/document_20240229_000000_3EB0.pdf" = true.
Proof. vm_compute. reflexivity. Qed.
Example name_no_such_day : generatedMediaName "image_20230229_000000_A" = false.
Proof. vm_compute. reflexivity. Qed.
Example name_windows : outboundFileName "C:\Users\me\report?.pdf" = "report.pdf".
Proof. vm_compute. reflexivity. Qed.
Example name_empty : outboundFileName "/tmp/" = "file".
Proof. vm_compute. reflexivity. Qed.

(** ** Encoding and decoding *)

Definition is_byte (b : Z) : Prop := 0 ≤ b < 256.
Definition scalar (r : Z) : Prop := 0 ≤ r < 55296 ∨ 57344 ≤ r ≤ 1114111.

Lemma within_true lo hi b : within lo hi b = true ↔ lo ≤ b ≤ hi.
Proof. apply bool_decide_eq_true. Qed.

Lemma within_intro lo hi b : lo ≤ b ≤ hi → within lo hi b = true.
Proof. by intros ?%within_true. Qed.

Lemma codes_bytes s : Forall is_byte (codes s).
Proof.
  unfold codes. apply Forall_fmap, Forall_true. intros a. unfold is_byte, byte_code. simpl.
  pose proof (Ascii.N_ascii_bounded a). lia.
Qed.

Lemma codes_of_codes l : Forall is_byte l → codes (of_codes l) = l.
Proof.
  intros Hl. unfold codes, of_codes. rewrite list_ascii_of_string_of_list_ascii.
  induction Hl as [|b l Hb Hl IH]; [done|]. rewrite !fmap_cons. f_equal; [by apply byte_code_of|exact IH].
Qed.

Lemma of_codes_codes s : of_codes (codes s) = s.
Proof.
  unfold codes, of_codes. rewrite <-(string_of_list_ascii_of_string s) at 2. f_equal.
  induction (list_ascii_of_string s) as [|a l IH]; [done|]. rewrite !fmap_cons. f_equal; [|exact IH].
  unfold byte_of, byte_code. by rewrite N2Z.id, ascii_N_embedding.
Qed.

Lemma utf8_lead_cases b :
  match utf8_lead b with
  | Some (2%nat, lo, hi) => 194 ≤ b ≤ 223 ∧ lo = 128 ∧ hi = 191
  | Some (3%nat, lo, hi) =>
      (b = 224 ∧ lo = 160 ∧ hi = 191) ∨ (b = 237 ∧ lo = 128 ∧ hi = 159) ∨
      (225 ≤ b ≤ 239 ∧ b ≠ 237 ∧ lo = 128 ∧ hi = 191)
  | Some (4%nat, lo, hi) =>
      (b = 240 ∧ lo = 144 ∧ hi = 191) ∨ (b = 244 ∧ lo = 128 ∧ hi = 143) ∨ (241 ≤ b ≤ 243 ∧ lo = 128 ∧ hi = 191)
  | Some _ => False
  | None => True
  end.
Proof. unfold utf8_lead. repeat case_bool_decide; lia. Qed.

Lemma RuneError_scalar : scalar RuneError.
Proof. unfold scalar, RuneError. lia. Qed.

(** Decoding yields Unicode scalar values. *)
Lemma runes_scalar l : Forall is_byte l → Forall scalar (runes l).
Proof.
  induction l as [l IH] using (induction_ltof1 _ length). intros Hl.
  destruct l as [|b0 rest]; [constructor|]. inversion Hl as [|? ? Hb Hrest]; subst.
  assert (∀ t, length t ≤ length rest → Forall is_byte t → Forall scalar (runes t))%nat as IH'.
  { intros t Ht. apply IH. unfold ltof. simpl. lia. }
  pose proof (IH' rest ltac:(lia) Hrest) as Hr. clear IH. unfold is_byte in Hb.
  simpl. case_bool_decide; [constructor; [unfold scalar; lia|done]|].
  pose proof (utf8_lead_cases b0) as Hc. pose proof RuneError_scalar as He.
  destruct (utf8_lead b0) as [[[[|[|[|[|[|n]]]]] lo] hi]|]; try (by constructor); try done.
  - destruct rest as [|b1 t]; [by constructor|]. destruct (within lo hi b1) eqn:E1; [|by constructor].
    apply within_true in E1. rewrite Forall_cons in Hrest. constructor; [unfold scalar; lia|].
    apply IH'; [simpl; lia|by apply Hrest].
  - destruct rest as [|b1 [|b2 t]]; [by constructor..|].
    destruct (within lo hi b1 && within 128 191 b2) eqn:E; [|by constructor].
    apply andb_true_iff in E as [E1%within_true E2%within_true]. rewrite !Forall_cons in Hrest.
    constructor; [unfold scalar; lia|]. apply IH'; [simpl; lia|by apply Hrest].
  - destruct rest as [|b1 [|b2 [|b3 t]]]; [by constructor..|].
    destruct (within lo hi b1 && within 128 191 b2 && within 128 191 b3) eqn:E; [|by constructor].
    apply andb_true_iff in E as [[E1%within_true E2%within_true]%andb_true_iff E3%within_true].
    rewrite !Forall_cons in Hrest. constructor; [unfold scalar; lia|]. apply IH'; [simpl; lia|by apply Hrest].
Qed.

Lemma encode_rune_bytes r : Forall is_byte (encode_rune r).
Proof.
  unfold encode_rune. repeat case_bool_decide; repeat constructor; unfold is_byte;
    Z.to_euclidean_division_equations; lia.
Qed.

Lemma utf8_bytes rs : Forall is_byte (utf8 rs).
Proof.
  induction rs as [|r rs IH]; [constructor|]. unfold utf8. simpl. apply Forall_app.
  split; [apply encode_rune_bytes|exact IH].
Qed.

Lemma runes_2 b0 b1 t lo hi :
  128 ≤ b0 → utf8_lead b0 = Some (2%nat, lo, hi) → lo ≤ b1 ≤ hi →
  runes (b0 :: b1 :: t) = ((b0 - 192) * 64 + (b1 - 128)) :: runes t.
Proof. intros ? Hl ?. cbn [runes]. rewrite bool_decide_false by lia. rewrite Hl. by rewrite within_intro. Qed.

Lemma runes_3 b0 b1 b2 t lo hi :
  128 ≤ b0 → utf8_lead b0 = Some (3%nat, lo, hi) → lo ≤ b1 ≤ hi → 128 ≤ b2 ≤ 191 →
  runes (b0 :: b1 :: b2 :: t) = ((b0 - 224) * 4096 + (b1 - 128) * 64 + (b2 - 128)) :: runes t.
Proof. intros ? Hl ? ?. cbn [runes]. rewrite bool_decide_false by lia. rewrite Hl. by rewrite !within_intro. Qed.

Lemma runes_4 b0 b1 b2 b3 t lo hi :
  128 ≤ b0 → utf8_lead b0 = Some (4%nat, lo, hi) → lo ≤ b1 ≤ hi → 128 ≤ b2 ≤ 191 → 128 ≤ b3 ≤ 191 →
  runes (b0 :: b1 :: b2 :: b3 :: t) =
  ((b0 - 240) * 262144 + (b1 - 128) * 4096 + (b2 - 128) * 64 + (b3 - 128)) :: runes t.
Proof. intros ? Hl ? ? ?. cbn [runes]. rewrite bool_decide_false by lia. rewrite Hl. by rewrite !within_intro. Qed.

Ltac lead_tac := unfold utf8_lead; repeat (rewrite bool_decide_false by lia); by rewrite bool_decide_true by lia.

Lemma runes_encode r l : scalar r → runes (encode_rune r ++ l) = r :: runes l.
Proof.
  intros Hr. unfold scalar in Hr. unfold encode_rune.
  case_bool_decide as H1; [cbn [app runes]; by rewrite bool_decide_true by lia|].
  case_bool_decide as H2.
  { cbn [app]. rewrite (runes_2 _ _ _ 128 191); [f_equal|..]; try (Z.to_euclidean_division_equations; lia).
    assert (2 ≤ r / 64 ≤ 31) by (Z.to_euclidean_division_equations; lia). lead_tac. }
  rewrite bool_decide_false by lia. case_bool_decide as H3; cbn [app].
  - assert (0 ≤ r / 4096 ≤ 15 ∧ 0 ≤ r / 64 mod 64 < 64 ∧ 0 ≤ r mod 64 < 64 ∧
            r = r / 4096 * 4096 + r / 64 mod 64 * 64 + r mod 64) as (Ha & Hb & Hc & Heq)
      by (Z.to_euclidean_division_equations; lia).
    set (a := r / 4096) in *. set (b := r / 64 mod 64) in *. set (c := r mod 64) in *. clearbody a b c.
    destruct (decide (a = 0)) as [->|]; [|destruct (decide (a = 13)) as [->|]].
    + rewrite (runes_3 _ _ _ _ 160 191) by (done || lia). f_equal. lia.
    + rewrite (runes_3 _ _ _ _ 128 159) by (done || lia). f_equal. lia.
    + rewrite (runes_3 _ _ _ _ 128 191) by (lia || lead_tac). f_equal. lia.
  - assert (0 ≤ r / 262144 ≤ 4 ∧ 0 ≤ r / 4096 mod 64 < 64 ∧ 0 ≤ r / 64 mod 64 < 64 ∧ 0 ≤ r mod 64 < 64 ∧
            r = r / 262144 * 262144 + r / 4096 mod 64 * 4096 + r / 64 mod 64 * 64 + r mod 64) as (Ha & Hb & Hc & Hd & Heq)
      by (Z.to_euclidean_division_equations; lia).
    set (a := r / 262144) in *. set (b := r / 4096 mod 64) in *. set (c := r / 64 mod 64) in *.
    set (d := r mod 64) in *. clearbody a b c d.
    destruct (decide (a = 0)) as [->|]; [|destruct (decide (a = 4)) as [->|]].
    + rewrite (runes_4 _ _ _ _ _ 144 191) by (done || lia). f_equal. lia.
    + rewrite (runes_4 _ _ _ _ _ 128 143) by (done || lia). f_equal. lia.
    + rewrite (runes_4 _ _ _ _ _ 128 191) by (lia || lead_tac). f_equal. lia.
Qed.

Lemma runes_utf8 rs : Forall scalar rs → runes (utf8 rs) = rs.
Proof. induction 1 as [|r rs Hr _ IH]; [done|]. unfold utf8 in *. rewrite fmap_cons. cbn [mjoin list_join].
  rewrite runes_encode by done. by f_equal. Qed.

(** ** Display names are plain *)

Definition plain (rs : list Z) : Prop := Forall (λ r, scalar r ∧ unwanted true r = false) rs.

Lemma keep_runes_plain rs count :
  (count ≤ 200)%nat → Forall scalar rs →
  let '(kept, _) := keep_runes true rs count in plain kept ∧ (length kept + count ≤ 200)%nat.
Proof.
  intros Hc Hrs. revert count Hc. induction Hrs as [|r rs Hr Hrs IH]; intros count Hc; simpl; [split; [constructor|lia]|].
  destruct (unwanted true r) eqn:Hu; [by apply IH|].
  destruct (Nat.eqb_spec count 200); [split; [constructor|simpl; lia]|].
  specialize (IH (S count) ltac:(lia)). destruct (keep_runes true rs (S count)) as [kept b].
  destruct IH as [IH Hl]. split; [by constructor|simpl; lia].
Qed.

Lemma drop_spaces_sub rs : drop_spaces rs ⊆+ rs.
Proof.
  induction rs as [|r rs IH]; simpl; [done|]. destruct (IsSpace r); [|done]. by apply submseteq_cons.
Qed.

Lemma trim_runes_sub rs : trim_runes rs ⊆+ rs.
Proof.
  unfold trim_runes. rewrite reverse_Permutation.
  etrans; [apply drop_spaces_sub|]. rewrite reverse_Permutation. apply drop_spaces_sub.
Qed.

Lemma Forall_submseteq' {A} (P : A → Prop) (l k : list A) : l ⊆+ k → Forall P k → Forall P l.
Proof. intros Hlk Hk. rewrite Forall_forall in *. intros x Hx. apply Hk. by eapply elem_of_submseteq. Qed.

(** The characters of an extension that is kept. *)
Lemma ext_byte_plain : forallb (λ n : nat,
  let a := Ascii.ascii_of_nat n in
  implb (lower_alnum (lower_byte a) || Ascii.eqb a ".") (negb (unwanted true (byte_code a)))) (seq 0 256) = true.
Proof. vm_compute. reflexivity. Qed.

Lemma ext_char_plain a : lower_alnum (lower_byte a) || Ascii.eqb a "." = true → unwanted true (byte_code a) = false.
Proof.
  intros Ha. pose proof ext_byte_plain as Hall. rewrite forallb_forall in Hall.
  specialize (Hall (Ascii.nat_of_ascii a)). rewrite Ascii.ascii_nat_embedding in Hall.
  cbv zeta in Hall. rewrite Ha in Hall. cbn [implb] in Hall. apply negb_true_iff, Hall.
  apply in_seq. pose proof (Ascii.nat_ascii_bounded a). lia.
Qed.

Lemma ext_from_head l best :
  (∀ e, best = Some e → head e = Some 46) → ∀ e, ext_from l best = Some e → head e = Some 46.
Proof.
  revert best. induction l as [|b l IH]; intros best Hbest e; simpl; [apply Hbest|].
  destruct (Z.eqb_spec b 47); [by apply IH|]. apply IH. destruct (Z.eqb_spec b 46) as [->|]; [|done].
  intros ? [= <-]. done.
Qed.

Lemma ext_from_bytes l best :
  Forall is_byte l → (∀ e, best = Some e → Forall is_byte e) → ∀ e, ext_from l best = Some e → Forall is_byte e.
Proof.
  intros Hl. revert best. induction Hl as [|b l Hb Hl IH]; intros best Hbest e; simpl; [apply Hbest|].
  destruct (Z.eqb b 47); [by apply IH|]. apply IH. destruct (Z.eqb b 46); [|done]. intros ? [= <-]. by constructor.
Qed.

Lemma Ext_dot name : Ext name = "" ∨ ∃ t, Ext name = String "." t.
Proof.
  unfold Ext. destruct (ext_from (codes name) None) as [e|] eqn:E; [right|by left].
  apply ext_from_head in E; [|done]. destruct e as [|b e]; [done|]. injection E as ->. simpl.
  unfold of_codes. simpl. by eexists.
Qed.

Lemma to_lower_length s : String.length (to_lower s) = String.length s.
Proof. induction s; simpl; congruence. Qed.

Lemma list_ascii_to_lower s : list_ascii_of_string (to_lower s) = lower_byte <$> list_ascii_of_string s.
Proof. induction s as [|a s IH]; [done|]. cbn. by rewrite IH. Qed.

(** An extension [documentExt] accepts is short and plain. *)
Lemma documentExt_plain name :
  documentExt name ≠ "" → plain (codes (Ext (trim_space name))) ∧ (length (codes (Ext (trim_space name))) ≤ 11)%nat.
Proof.
  unfold documentExt. rewrite to_lower_length. set (e := Ext (trim_space name)).
  destruct (bool_decide (String.length e < 2)%nat) eqn:E2; [done|].
  destruct (bool_decide (11 < String.length e)%nat) eqn:E11; [done|]. cbn [orb].
  apply bool_decide_eq_false in E11. intros Hne.
  assert (length (codes e) = String.length e) as Hlen.
  { unfold codes. rewrite length_fmap. clear. induction e; simpl; congruence. }
  split; [|lia]. destruct (Ext_dot (trim_space name)) as [He|[t He]]; fold e in He; rewrite He in *; [constructor|].
  cbn [to_lower] in Hne. destruct (forallb lower_alnum (list_ascii_of_string (to_lower t))) eqn:Hall; [|done].
  rewrite list_ascii_to_lower, forallb_forall in Hall.
  apply Forall_fmap, Forall_forall. intros a Ha. simpl. split.
  { pose proof (Ascii.N_ascii_bounded a). unfold scalar, byte_code. lia. }
  apply ext_char_plain. apply list_elem_of_In in Ha. destruct Ha as [<-|Ha]; [by rewrite orb_true_r|].
  rewrite (Hall (lower_byte a)); [done|]. apply list_elem_of_In, list_elem_of_fmap_2, list_elem_of_In. done.
Qed.

Lemma bound_runes_plain name : plain (bound_runes name true) ∧ (length (bound_runes name true) ≤ 200)%nat.
Proof.
  unfold bound_runes. pose proof (runes_scalar _ (codes_bytes name)) as Hs.
  pose proof (keep_runes_plain _ 0 ltac:(lia) Hs) as Hk.
  destruct (keep_runes true (runes (codes name)) 0) as [kept truncated]. destruct Hk as [Hp Hl].
  assert (plain (trim_runes kept)) as Hp' by (by eapply Forall_submseteq'; [apply trim_runes_sub|]).
  pose proof (submseteq_length _ _ (trim_runes_sub kept)) as Hl'.
  destruct truncated; cbn [andb]; [|split; [done|lia]].
  destruct (String.eqb_spec (documentExt name) ""); cbn [negb]; [split; [done|lia]|].
  destruct (documentExt_plain name) as [He Hle]; [done|]. cbv zeta. split.
  - apply Forall_app. split; [by apply Forall_take|done].
  - rewrite length_app, length_take. lia.
Qed.

Lemma bound_runes_decoded name : runes (codes (boundMediaName name true)) = bound_runes name true.
Proof.
  unfold boundMediaName. rewrite codes_of_codes by apply utf8_bytes. apply runes_utf8.
  eapply Forall_impl; [apply bound_runes_plain|]. by intros ? [? _].
Qed.

(** The file name a recipient sees has between 1 and 200 characters and none
    of them is a separator, a drive colon, another character a file system gives
    a meaning to, a control character or a mark that reorders text: no part of
    the host's paths goes out, whatever the path and whichever system spelled it. *)
Theorem wire_name_plain (mediaPath : string) :
  let rs := runes (codes (outboundFileName mediaPath)) in
  (1 ≤ length rs ≤ 200)%nat ∧
  Forall (λ r, IsControl r = false ∧ reordersText r = false ∧ (r ∉ codes "/\:<>|?*") ∧ r ≠ 34) rs.
Proof.
  assert (∀ rs, plain rs → Forall (λ r, IsControl r = false ∧ reordersText r = false ∧ (r ∉ codes "/\:<>|?*") ∧ r ≠ 34) rs) as Hplain.
  { intros rs Hrs. eapply Forall_impl; [exact Hrs|]. intros r [_ Hu]. unfold unwanted in Hu.
    apply orb_false_iff in Hu as [[[Hc Hr]%orb_false_iff _]%orb_false_iff Hw]. cbn [andb] in Hw.
    apply bool_decide_eq_false in Hw. change wire_unsafe with [60; 62; 58; 47; 92; 124; 63; 42; 34] in Hw.
    change (codes "/\:<>|?*") with [47; 92; 58; 60; 62; 124; 63; 42]. set_solver. }
  cbv zeta. unfold outboundFileName, cleanOutboundName. set (base := of_codes (after_last _ _ _)).
  destruct (String.eqb_spec (boundMediaName base true) "") as [E|E].
  - change (runes (codes "file")) with [102; 105; 108; 101]. split; [simpl; lia|]. apply Hplain.
    repeat (constructor; [split; [unfold scalar; lia|reflexivity]|]). constructor.
  - rewrite bound_runes_decoded. destruct (bound_runes_plain base) as [Hp Hl]. split; [split; [|done]|by apply Hplain].
    destruct (bound_runes base true) eqn:Eb; [|simpl; lia]. unfold boundMediaName in E. by rewrite Eb in E.
Qed.

(** ** Cached names are recognised *)

Lemma codes_app a b : codes (a +:+ b) = codes a ++ codes b.
Proof. unfold codes. by rewrite list_ascii_app, fmap_app. Qed.

Lemma codes_cons c s : codes (String c s) = byte_code c :: codes s.
Proof. done. Qed.

Lemma fixed_codes_length w n : length (codes (fixed w n)) = w.
Proof. revert n. induction w as [|w IH]; intros n; [done|]. cbn [fixed]. rewrite codes_cons. simpl. by rewrite IH. Qed.

Lemma number_fixed w n acc :
  0 ≤ n < 10 ^ Z.of_nat w → number (codes (fixed w n)) acc = Some (acc * 10 ^ Z.of_nat w + n).
Proof.
  revert n acc. induction w as [|w IH]; intros n acc Hn.
  { change (10 ^ Z.of_nat 0) with 1 in *. simpl. f_equal. lia. }
  rewrite Nat2Z.inj_succ, Z.pow_succ_r in * by lia. cbn [fixed]. rewrite codes_cons. cbn [number].
  assert (0 < 10 ^ Z.of_nat w) by (apply Z.pow_pos_nonneg; lia). set (p := 10 ^ Z.of_nat w) in *.
  pose proof (Z.mod_pos_bound (n / p) 10 ltac:(lia)) as Hd. unfold digit. rewrite byte_code_of by lia.
  rewrite within_intro by lia. rewrite IH by (apply Z.mod_pos_bound; lia). fold p. f_equal.
  assert (n / p < 10) by (apply Z.div_lt_upper_bound; lia).
  rewrite (Z.mod_small (n / p) 10) by (split; [apply Z.div_pos; lia|lia]).
  pose proof (Z.div_mod n p ltac:(lia)). lia.
Qed.

(** A civil day exists in its month. *)
Lemma year_length y : year_start (y + 1) - year_start y = if is_leap (y + 1) then 366 else 365.
Proof.
  unfold year_start, is_leap.
  destruct (Z.eqb_spec ((y + 1) mod 4) 0), (Z.eqb_spec ((y + 1) mod 100) 0), (Z.eqb_spec ((y + 1) mod 400) 0);
    simpl; Z.to_euclidean_division_equations; lia.
Qed.

Lemma month_length y m :
  1 ≤ m ≤ 12 → month_start (12 * y + m - 3 + 1) - month_start (12 * y + m - 3) = days_in y m.
Proof.
  intros Hm. unfold month_start.
  assert (∃ q k, 12 * y + m - 3 = 12 * q + k ∧ 0 ≤ k ≤ 11 ∧ (m = k + 3 ∧ q = y ∨ m = k - 9 ∧ q = y - 1)) as (q & k & -> & Hk & Hcase).
  { destruct (decide (3 ≤ m)); [exists y, (m - 3)|exists (y - 1), (m + 9)]; lia. }
  assert (∀ j, 0 ≤ j ≤ 11 → (12 * q + j) / 12 = q ∧ (12 * q + j) mod 12 = j) as Hq
    by (intros; Z.to_euclidean_division_equations; lia).
  destruct (Hq k Hk) as [-> ->]. destruct (decide (k = 11)) as [->|Hk11].
  - replace (12 * q + 11 + 1) with (12 * (q + 1) + 0) by lia.
    replace ((12 * (q + 1) + 0) / 12) with (q + 1) by (Z.to_euclidean_division_equations; lia).
    replace ((12 * (q + 1) + 0) mod 12) with 0 by (Z.to_euclidean_division_equations; lia).
    assert (m = 2 ∧ q = y - 1) as [-> ->] by lia. pose proof (year_length (y - 1)) as Hy.
    replace (y - 1 + 1) with y in * by lia. unfold days_in. simpl Z.eqb. cbv iota.
    change ((153 * 0 + 2) / 5) with 0. change ((153 * 11 + 2) / 5) with 337. destruct (is_leap y); lia.
  - replace (12 * q + k + 1) with (12 * q + (k + 1)) by lia. destruct (Hq (k + 1) ltac:(lia)) as [-> ->].
    assert (k = 0 ∨ k = 1 ∨ k = 2 ∨ k = 3 ∨ k = 4 ∨ k = 5 ∨ k = 6 ∨ k = 7 ∨ k = 8 ∨ k = 9 ∨ k = 10) as Hks by lia.
    assert (m = k + 3 ∨ k = 10 ∧ m = 1) as Hmk by lia.
    destruct Hks as [->|[->|[->|[->|[->|[->|[->|[->|[->|[->| ->]]]]]]]]]]; destruct Hmk as [->|[? ->]];
      try lia; vm_compute (days_in y _); vm_compute ((_ + 2) / 5); lia.
Qed.

Lemma civil_day days : let '(y, m, d) := civil days in 1 ≤ m ≤ 12 ∧ 1 ≤ d ≤ days_in y m.
Proof.
  pose proof (civil_spec days) as Hs. destruct (civil days) as [[y m] d]. destruct Hs as (Hk & Hk' & Hm & Hd).
  pose proof (month_length y m Hm). lia.
Qed.

(** The local clock readings whose year has four digits. *)
Definition local_year_ok (s : Z) : Prop := -62167219200 ≤ s < 253402300800.

Lemma clock_fixed s : local_year_ok s →
  let '(y, m, d) := civil (s / 86400) in
  let sod := s mod 86400 in
  0 ≤ y < 10000 ∧
  clock_name s = fixed 4 y +:+ fixed 2 m +:+ fixed 2 d +:+ String "_"
    (fixed 2 (sod / 3600) +:+ fixed 2 (sod / 60 mod 60) +:+ fixed 2 (sod mod 60)).
Proof.
  intros Hs. assert (stamp (s * 10 ^ 9) = s) as Est by (unfold stamp; by rewrite Z.div_mul by lia).
  pose proof (civil_year (s * 10 ^ 9)) as Hy. unfold four_digit_year in Hy. rewrite Est in Hy.
  specialize (Hy Hs). pose proof (civil_spec (s / 86400)) as Hc. unfold clock_name.
  destruct (civil (s / 86400)) as [[y m] d]. destruct Hc as (_ & _ & Hm & Hd). split; [done|].
  assert (0 ≤ s mod 86400 < 86400) by (apply Z.mod_pos_bound; lia).
  rewrite !appendInt_fixed; [done|..]; change (10 ^ Z.of_nat 2) with 100; change (10 ^ Z.of_nat 4) with 10000;
    Z.to_euclidean_division_equations; lia.
Qed.

Lemma clock_parses s : local_year_ok s → length (codes (clock_name s)) = 15%nat ∧ parses_clock (codes (clock_name s)) = true.
Proof.
  intros Hs. pose proof (clock_fixed s Hs) as Hf. pose proof (civil_day (s / 86400)) as Hd.
  destruct (civil (s / 86400)) as [[y m] d]. destruct Hf as [Hy ->], Hd as [Hm Hd].
  set (sod := s mod 86400) in *. assert (0 ≤ sod < 86400) by (apply Z.mod_pos_bound; lia).
  rewrite !codes_app, codes_cons, !codes_app. change (byte_code "_") with 95.
  assert (d ≤ 31) by (unfold days_in in Hd; repeat (case_match || case_bool_decide); lia).
  set (Y := codes (fixed 4 y)). set (M := codes (fixed 2 m)). set (D := codes (fixed 2 d)).
  set (h := codes (fixed 2 (sod / 3600))). set (mi := codes (fixed 2 (sod / 60 mod 60))). set (sec := codes (fixed 2 (sod mod 60))).
  assert (length Y = 4 ∧ length M = 2 ∧ length D = 2 ∧ length h = 2 ∧ length mi = 2 ∧ length sec = 2)%nat
    as (LY & LM & LD & Lh & Lmi & Ls) by (repeat split; apply fixed_codes_length).
  assert (number Y 0 = Some y) as NY by (apply number_fixed; simpl; lia).
  assert (number M 0 = Some m) as NM by (apply number_fixed; simpl; lia).
  assert (number D 0 = Some d) as ND by (apply number_fixed; simpl; lia).
  assert (number h 0 = Some (sod / 3600)) as Nh by (apply number_fixed; simpl; Z.to_euclidean_division_equations; lia).
  assert (number mi 0 = Some (sod / 60 mod 60)) as Nmi by (apply number_fixed; simpl; Z.to_euclidean_division_equations; lia).
  assert (number sec 0 = Some (sod mod 60)) as Ns by (apply number_fixed; simpl; Z.to_euclidean_division_equations; lia).
  clearbody Y M D h mi sec.
  destruct Y as [|y1 [|y2 [|y3 [|y4 [|]]]]]; try done. destruct M as [|m1 [|m2 [|]]]; try done.
  destruct D as [|d1 [|d2 [|]]]; try done. destruct h as [|h1 [|h2 [|]]]; try done.
  destruct mi as [|n1 [|n2 [|]]]; try done. destruct sec as [|s1 [|s2 [|]]]; try done.
  split; [done|]. unfold parses_clock. cbn [app take drop]. rewrite NY, NM, ND, Nh, Nmi, Ns.
  rewrite bool_decide_true by done.
  cbn [andb]. rewrite !within_intro; [done|..]; Z.to_euclidean_division_equations; lia.
Qed.

Lemma after_last_none f l best : Forall (λ b, f b = false) l → after_last f l best = best.
Proof. intros Hl. revert best. induction Hl as [|b l Hb _ IH]; intros best; [done|]. simpl. by rewrite Hb, IH. Qed.

Definition no_separator (l : list Z) : Prop := Forall (λ b, Z.eqb b 47 || Z.eqb b 92 = false) l.

Lemma no_separator_check l : forallb (λ b, negb (Z.eqb b 47 || Z.eqb b 92)) l = true → no_separator l.
Proof.
  rewrite forallb_forall. intros Hl. apply Forall_forall. intros b Hb%list_elem_of_In.
  by apply negb_true_iff, Hl.
Qed.

Lemma number_no_separator l acc n : number l acc = Some n → no_separator l.
Proof.
  revert acc. induction l as [|b l IH]; intros acc; [constructor|]. simpl.
  destruct (within 48 57 b) eqn:E; [|done]. apply within_true in E. intros Hl%IH. constructor; [|done].
  apply orb_false_iff. split; apply Z.eqb_neq; lia.
Qed.

Lemma documentExt_no_separator name : no_separator (codes (documentExt name)).
Proof.
  unfold documentExt. destruct (_ || _); [constructor|].
  destruct (Ext_dot (trim_space name)) as [He|[t He]]; rewrite He; [constructor|]. cbn [to_lower].
  destruct (forallb lower_alnum (list_ascii_of_string (to_lower t))) eqn:Hall; [|constructor]. cbn [negb].
  destruct (String.eqb _ _); [by apply no_separator_check|]. rewrite codes_cons. constructor; [done|].
  apply Forall_fmap, Forall_forall. intros a Ha%list_elem_of_In. simpl. rewrite forallb_forall in Hall.
  specialize (Hall a Ha). unfold lower_alnum in Hall. apply orb_true_iff in Hall as [E|E]; apply within_true in E;
    apply orb_false_iff; split; apply Z.eqb_neq; lia.
Qed.

Lemma fixed_no_separator w n : 0 ≤ n < 10 ^ Z.of_nat w → no_separator (codes (fixed w n)).
Proof. intros Hn. by eapply (number_no_separator _ 0), number_fixed. Qed.

Lemma clock_no_separator s : local_year_ok s → no_separator (codes (clock_name s)).
Proof.
  intros Hs. pose proof (clock_fixed s Hs) as Hf. pose proof (civil_day (s / 86400)) as Hd.
  destruct (civil (s / 86400)) as [[y m] d]. destruct Hf as [Hy ->], Hd as [Hm Hd].
  assert (d ≤ 31) by (unfold days_in in Hd; repeat (case_match || case_bool_decide); lia).
  assert (0 ≤ s mod 86400 < 86400) by (apply Z.mod_pos_bound; lia).
  rewrite !codes_app, codes_cons, !codes_app. unfold no_separator. rewrite !Forall_app, Forall_cons, !Forall_app.
  repeat split; try (apply fixed_no_separator; change (10 ^ Z.of_nat 4) with 10000; change (10 ^ Z.of_nat 2) with 100;
    Z.to_euclidean_division_equations; lia).
Qed.

Lemma generated_rest_clock s tail c more :
  local_year_ok s → tail = c :: more → (c = 95 ∨ c = 46) → more ≠ [] → generated_rest (codes (clock_name s) ++ tail) = true.
Proof.
  intros Hs -> Hc Hne. destruct (clock_parses s Hs) as [Hlen Hp]. unfold generated_rest.
  rewrite bool_decide_false by (rewrite length_app; lia).
  rewrite (take_app_length' _ _ 15) by done. rewrite Hp. cbn [negb].
  rewrite (drop_app_length' _ _ 15) by done. rewrite bool_decide_false by done.
  by destruct Hc as [-> | ->].
Qed.

Lemma name_recognised zone kind t id name :
  kind ∈ media_kinds → local_year_ok (stamp t + zone (stamp t)) → id ≠ "" → no_separator (codes id) →
  generatedMediaName (mediaFileName zone kind t id name) = true.
Proof.
  intros Hk Hs Hid Hsep. unfold generatedMediaName, mediaFileName. set (s := stamp t + zone (stamp t)) in *.
  set (ext := if String.eqb kind "image" then _ else _).
  assert (no_separator (codes ext)) as Hext.
  { subst ext. do 4 (destruct (String.eqb kind _); [by apply no_separator_check|]).
    destruct (String.eqb kind _); [apply documentExt_no_separator|constructor]. }
  set (tail := clock_name s +:+ String "_" (id +:+ ext)).
  assert (no_separator (codes tail)) as Htail.
  { subst tail. rewrite codes_app, codes_cons, codes_app. unfold no_separator. rewrite Forall_app, Forall_cons, Forall_app.
    repeat split; try done. by apply clock_no_separator. }
  assert (no_separator (codes (kind +:+ String "_" tail))) as Hall.
  { rewrite codes_app, codes_cons. apply Forall_app. split; [|by constructor].
    unfold media_kinds in Hk. set_unfold in Hk. destruct Hk as [->|[->|[->|[->|[->|[]]]]]]; by apply no_separator_check. }
  unfold base_name. rewrite after_last_none by done. rewrite of_codes_codes.
  assert (generated_rest (codes tail) = true) as Hrest.
  { subst tail. rewrite codes_app, codes_cons. eapply generated_rest_clock; [done|reflexivity|by left|].
    rewrite codes_app. destruct id; [done|]. rewrite codes_cons. done. }
  clearbody tail. unfold media_kinds in Hk. set_unfold in Hk.
  destruct Hk as [->|[->|[->|[->|[->|[]]]]]]; exact Hrest.
Qed.

(** The name a media file is cached under is recognised by the walk that
    counts and removes cached files, under both naming schemes, whatever the
    sender called the file: for every kind, local time of a four-digit year and
    message identifier that is one path component. *)
Theorem cached_names_recognised zone kind t id name file :
  kind ∈ media_kinds → local_year_ok (stamp t + zone (stamp t)) → bad_component id = false →
  file ∈ mediaFileNames zone kind t id name → generatedMediaName file = true.
Proof.
  intros Hk Hs Hid Hf. unfold bad_component in Hid.
  apply orb_false_iff in Hid as [[[[He _]%orb_false_iff _]%orb_false_iff Hsep]%orb_false_iff _].
  apply String.eqb_neq in He. apply bool_decide_eq_false in Hsep.
  assert (no_separator (codes id)).
  { apply Forall_forall. intros b Hb. apply orb_false_iff. split; apply Z.eqb_neq; intros ->; tauto. }
  unfold mediaFileNames, legacyMediaFileName in Hf. set_unfold in Hf.
  destruct Hf as [->|[->|[]]]; by apply name_recognised.
Qed.

Lemma cached_names_recognised_witness :
  generatedMediaName "document_20240229_120000_3EB0A1.pdf" = true.
Proof.
  apply (cached_names_recognised (λ _, 3600) "document" (1709204400 * 10 ^ 9) "3EB0A1" "Q1 report.PDF");
    [set_solver|unfold local_year_ok; vm_compute; split; congruence|vm_compute; reflexivity|].
  apply list_elem_of_In. left. vm_compute. reflexivity.
Defined.

(** ** The lookup *)

Lemma check_None chat name :
  checkMediaPathComponents chat name = None ↔
  ends_with ".part" name = false ∧ bad_component chat = false ∧ bad_component name = false.
Proof.
  unfold checkMediaPathComponents. destruct (ends_with ".part" name), (bad_component chat), (bad_component name); naive_solver.
Qed.

Lemma component_facts name :
  bad_component name = false → name ≠ "" ∧ name ≠ "." ∧ contains_byte "/" name = false ∧ has_dotdot (codes name) = false.
Proof.
  unfold bad_component.
  intros [[[[H1 H2]%orb_false_iff H3]%orb_false_iff H4%bool_decide_eq_false]%orb_false_iff _]%orb_false_iff.
  rewrite String.eqb_neq in *. split_and!; try done. clear -H4.
  induction name as [|a s IH]; [done|]. rewrite codes_cons in H4. cbn [contains_byte].
  rewrite IH by set_solver. destruct (Ascii.eqb_spec a "/"%char) as [->|]; [|done].
  exfalso. apply H4. left. change (byte_code "/") with 47. set_solver.
Qed.

Lemma find_in_dir stat names previous refused f :
  (previous = "" ∨ stat previous ≠ RegularFile) → (∀ n, n ∈ names → n ≠ "") →
  findCachedMediaInDir stat names previous refused = Found f ↔
  ∃ pre post, names = pre ++ f :: post ∧ stat f = RegularFile ∧ ∀ n, n ∈ pre → stat n ≠ RegularFile.
Proof.
  revert previous refused. induction names as [|name names IH]; intros previous refused Hprev Hne; simpl.
  { split; [by destruct refused|]. intros ([|? pre] & post & Heq & _); discriminate. }
  assert (∀ n, n ∈ names → n ≠ "") as Hne' by set_solver.
  assert (name ≠ "") as Hname by (apply Hne; set_solver).
  assert (stat name ≠ RegularFile →
    (∃ pre post, names = pre ++ f :: post ∧ stat f = RegularFile ∧ ∀ n, n ∈ pre → stat n ≠ RegularFile) ↔
    (∃ pre post, name :: names = pre ++ f :: post ∧ stat f = RegularFile ∧ ∀ n, n ∈ pre → stat n ≠ RegularFile)) as Hskip.
  { intros Hr. split.
    - intros (pre & post & -> & Hf & Hpre). exists (name :: pre), post. split_and!; [done..|]. set_solver.
    - intros ([|x pre] & post & Heq & Hf & Hpre); simplify_eq/=. exists pre, post.
      split_and!; [done..|]. set_solver. }
  destruct (String.eqb_spec name previous) as [->|Hnp].
  { rewrite IH by done. apply Hskip. by destruct Hprev. }
  destruct (stat name) eqn:Hs; try (rewrite IH; [by apply Hskip|right; congruence|done]).
  split; [intros [= <-]; exists [], names; split_and!; [done..|set_solver]|].
  intros ([|x pre] & post & Heq & Hf & Hpre); simplify_eq/=; [done|].
  by destruct (Hpre x); [set_solver|].
Qed.

(** A file is served from the cache, measured or removed only as a plain
    name below the real directory of its chat: the lookup finds a name exactly
    when every name asked for is one path component that no unfinished download
    uses, the directory is real and still the one that was seen, and the name is
    the first of the list that is a regular file; its path then has the two
    components it was built from and neither goes up. *)
Theorem cache_lookup_confined dir opened stat chat names f :
  findCachedMedia dir opened stat chat names = Found f ↔
  (∀ n, n ∈ names → checkMediaPathComponents chat n = None) ∧ dir = Directory ∧ opened = true ∧
  (∃ pre post, names = pre ++ f :: post ∧ stat f = RegularFile ∧ ∀ n, n ∈ pre → stat n ≠ RegularFile) ∧
  split_byte "/" (chat +:+ String "/" f) = [chat; f] ∧ ends_with ".part" f = false ∧
  has_dotdot (codes chat) = false ∧ has_dotdot (codes f) = false.
Proof.
  unfold findCachedMedia. destruct (omap (checkMediaPathComponents chat) names) as [|why ws] eqn:Hw.
  2:{ split; [done|]. intros [Hall _]. assert (why ∈ omap (checkMediaPathComponents chat) names) as Hin by (rewrite Hw; set_solver).
      apply list_elem_of_omap in Hin as (n & Hn & E). by rewrite Hall in E. }
  assert (∀ n, n ∈ names → checkMediaPathComponents chat n = None) as Hall.
  { intros n Hn. destruct (checkMediaPathComponents chat n) as [w|] eqn:E; [|done].
    assert (w ∈ omap (checkMediaPathComponents chat) names) as Hin by (apply list_elem_of_omap; eauto).
    rewrite Hw in Hin. set_solver. }
  assert (∀ n, n ∈ names → n ≠ "") as Hne.
  { intros n Hn. apply Hall, check_None in Hn as (_ & _ & Hn). by apply component_facts. }
  destruct dir; try (split; [done|]; by intros (_ & ? & _)).
  destruct opened; [|split; [done|]; by intros (_ & _ & ? & _)]. rewrite find_in_dir by (done || by left).
  split; [|by intros (_ & _ & _ & Hf & _)]. intros Hf. split_and!; try done.
  all: destruct Hf as (pre & post & -> & _); destruct (proj1 (check_None chat f) (Hall f ltac:(set_solver))) as (Hp & Hc & Hb);
    apply component_facts in Hc as (? & ? & Hc & ?), Hb as (? & ? & Hb & ?); try done.
  by rewrite split_byte_app, !split_byte_none.
Qed.
