(* ===== verification/Outbound.v ===== *)
(** * Outgoing messages

    What a send puts on the wire and in the archive: the message built from a
    text or an uploaded file with its quote, mentions and disappearing timer
    ([send.go], [forward_media.go], [send_mime.go]), the presentation kept with a
    file ([media_presentation.go]) and the columns of the outbound row.

    A [waE2E.Message] with one part set is [body].  The MIME tables of the
    system, content sniffing, SHA-256, the decorative waveform and [float64] are
    parameters.  [strings.ToLower] and [strings.EqualFold] act on ASCII. *)
From Stdlib Require Import QArith.
From S2P Require Import Prelude Jid StoreTime Archive Messages MediaNames Ogg.
#[local] Open Scope Z_scope.

(** ** Wire types *)

Inductive upload_kind : Type := MediaImage | MediaVideo | MediaAudio | MediaDocument.

(** [whatsmeow.UploadResponse]. *)
Record UploadResponse := {
  up_URL : string;
  up_DirectPath : string;
  up_MediaKey : option string;
  up_FileEncSHA256 : option string;
  up_FileSHA256 : option string;
  up_FileLength : Z;
}.

(** The message shown in a reply bubble. *)
Inductive preview : Type :=
| PText (text : string)
| PImage (caption : string) (mime : option string)
| PVideo (caption : string) (mime : option string)
| PAudio (mime : option string) (ptt : option bool) (seconds : option Z) (waveform : string)
| PSticker (mime : option string) (animated : option bool)
| PDocument (caption name : string) (mime title : option string).

Record ContextInfo := {
  MentionedJID : list string;
  StanzaID : option string;
  Participant : option string;
  QuotedMessage : option preview;
  Expiration : option Z;
  EphemeralSettingTimestamp : option Z;
  DisappearingMode : bool;
}.

Definition empty_context : ContextInfo :=
  {| MentionedJID := []; StanzaID := None; Participant := None; QuotedMessage := None; Expiration := None;
     EphemeralSettingTimestamp := None; DisappearingMode := false |}.

(** The fields every media part has. *)
Record file_part := {
  p_mime : string;
  p_url : string;
  p_direct_path : string;
  p_media_key : option string;
  p_file_enc_sha256 : option string;
  p_file_sha256 : option string;
  p_file_length : Z;
}.

Inductive body : Type :=
| Conversation (text : string)
| ExtendedText (text : string) (ctx : option ContextInfo)
| ImageMessage (f : file_part) (caption : string) (ctx : option ContextInfo)
| VideoMessage (f : file_part) (caption : string) (ctx : option ContextInfo)
| DocumentMessage (f : file_part) (title name caption : string) (ctx : option ContextInfo)
| AudioMessage (f : file_part) (seconds : option Z) (ptt : option bool) (waveform : string) (ctx : option ContextInfo)
| StickerMessage (f : file_part) (animated : option bool) (ctx : option ContextInfo).

(** [outboundQuote]. *)
Record outboundQuote := { q_id : string; q_participant : string; q_content : string; q_preview : option preview }.

(** ** Context of a send *)

Definition outboundContextInfo (quote : outboundQuote) (mentionedJIDs : list string) : option ContextInfo :=
  if String.eqb (q_id quote) "" && bool_decide (mentionedJIDs = []) then None
  else if String.eqb (q_id quote) "" then
    Some {| MentionedJID := mentionedJIDs; StanzaID := None; Participant := None; QuotedMessage := None;
            Expiration := None; EphemeralSettingTimestamp := None; DisappearingMode := false |}
  else
    Some {| MentionedJID := mentionedJIDs; StanzaID := Some (q_id quote);
            Participant := nullif_empty (q_participant quote);
            QuotedMessage := Some (default (PText (q_content quote)) (q_preview quote));
            Expiration := None; EphemeralSettingTimestamp := None; DisappearingMode := false |}.

Definition buildOutboundTextWithQuote (text : string) (quote : outboundQuote) (mentionedJIDs : list string) : body :=
  match outboundContextInfo quote mentionedJIDs with
  | None => Conversation text
  | Some ctx => ExtendedText text (Some ctx)
  end.

(** [mediaContextInfo]: an update of the slot of a media message. *)
Definition update_slot (f : option ContextInfo → option ContextInfo) (m : body) : body :=
  match m with
  | ImageMessage p c ctx => ImageMessage p c (f ctx)
  | VideoMessage p c ctx => VideoMessage p c (f ctx)
  | DocumentMessage p t n c ctx => DocumentMessage p t n c (f ctx)
  | AudioMessage p s v w ctx => AudioMessage p s v w (f ctx)
  | StickerMessage p a ctx => StickerMessage p a (f ctx)
  | Conversation _ | ExtendedText _ _ => m
  end.

(** [ChatEphemeralSettings]. *)
Record ChatEphemeralSettings := { es_expiration : Z; es_timestamp : Z }.

Definition mergeEphemeralContextInfo (existing : option ContextInfo) (settings : ChatEphemeralSettings) : ContextInfo :=
  let c := default empty_context existing in
  {| MentionedJID := MentionedJID c; StanzaID := StanzaID c; Participant := Participant c;
     QuotedMessage := QuotedMessage c; Expiration := Some (es_expiration settings);
     EphemeralSettingTimestamp := Some (es_timestamp settings); DisappearingMode := true |}.

Definition applyChatEphemeralSettings (m : body) (settings : ChatEphemeralSettings) : body :=
  if Z.eqb (es_expiration settings) 0 || Z.eqb (es_timestamp settings) 0 then m
  else match m with
       | ExtendedText text ctx => ExtendedText text (Some (mergeEphemeralContextInfo ctx settings))
       | Conversation text => ExtendedText text (Some (mergeEphemeralContextInfo None settings))
       | _ => update_slot (λ ctx, Some (mergeEphemeralContextInfo ctx settings)) m
       end.

(** [outboundChatSettings]: zero when the chat has no row. *)
Definition outboundChatSettings (chat : string) (t : Chats.chats) : ChatEphemeralSettings :=
  match t !! chat with
  | Some r => {| es_expiration := Chats.ephemeral_expiration r; es_timestamp := Chats.ephemeral_setting_timestamp r |}
  | None => {| es_expiration := 0; es_timestamp := 0 |}
  end.

(** ** Containers *)

Definition isWebP (data : list Z) : bool :=
  bool_decide (12 ≤ length data)%nat && bool_decide (take 4 data = ascii_bytes "RIFF")
  && bool_decide (take 4 (drop 8 data) = ascii_bytes "WEBP").

(** The loop of [webPAnimated]; [None] is a read outside the input or no fuel. *)
Fixpoint webp_chunks (fuel : nat) (data : list Z) (pos : nat) : option bool :=
  match fuel with
  | O => None
  | S fuel =>
      if bool_decide (length data < pos + 8)%nat then Some false
      else
        size4 ← slice (pos + 4) (pos + 8) data;
        let size := Z.to_nat (little_endian size4) in
        let fin := (pos + 8 + size)%nat in
        if bool_decide (length data < fin)%nat then Some false
        else
          tag ← slice pos (pos + 4) data;
          if bool_decide (tag = ascii_bytes "VP8X")
          then if Nat.eqb size 10 then flags ← data !! (pos + 8)%nat; Some (negb (Z.eqb (Z.land flags 2) 0)) else Some false
          else webp_chunks fuel data (fin + Nat.modulo size 2)
  end.

Definition webPAnimated (data : list Z) : option bool :=
  if isWebP data then webp_chunks (S (length data)) data 12 else Some false.

Definition isOggOpus (data : list Z) : option bool :=
  if bool_decide (length data < 27)%nat || negb (bool_decide (take 4 data = OggS)) then Some false
  else
    segments ← data !! 26%nat; flags ← data !! 5%nat;
    if Z.eqb segments 0 || negb (Z.eqb (Z.land flags 1) 0) then Some false
    else
      let start := (27 + Z.to_nat segments)%nat in
      if bool_decide (length data < start + 19)%nat then Some false
      else
        lacing ← data !! 27%nat; magic ← slice start (start + 8) data;
        Some (bool_decide (19 ≤ lacing) && bool_decide (magic = OpusHead)).

(** [hex.EncodeToString]. *)
Definition hex_digit (n : Z) : ascii := byte_of (if bool_decide (n < 10) then 48 + n else 87 + n).
Definition hex (s : string) : string :=
  string_of_list_ascii (mjoin ((λ a, [hex_digit (byte_code a / 16); hex_digit (byte_code a mod 16)]) <$> list_ascii_of_string s)).

(** ** Presentation of a file *)

Record mediaPresentation := {
  mp_hash : string;
  mp_mime : string;
  mp_name : option string;
  mp_title : option string;
  mp_ptt : option bool;
  mp_seconds : option Z;
  mp_waveform : string;
  mp_animated : option bool;
}.

(** [forwardSource]. *)
Record forwardSource := {
  src_content : string;
  src_mediaType : string;
  src_filename : string;
  src_presentation : option mediaPresentation;
}.

(** [strings.Contains]. *)
Fixpoint contains_string (p s : string) : bool :=
  has_prefix p s || match s with EmptyString => false | String _ t => contains_string p t end.

Section Media.
(** [mime.TypeByExtension], [http.DetectContentType], [mime.ParseMediaType] (the
    type and the number of parameters), SHA-256, [placeholderWaveform]. *)
Context (TypeByExtension : string → string) (DetectContentType : list Z → string)
        (ParseMediaType : string → option (string * nat)) (sha256 : list Z → string) (placeholderWaveform : Z → string)
        (rnd : Q → Q) (overflow : Q → Z).

Definition classifyMediaPath (mediaPath : string) : upload_kind * string * string :=
  let ext := to_lower (match strip_prefix "." (Ext mediaPath) with Some e => e | None => Ext mediaPath end) in
  let named e := String.eqb ext e in
  if named "jpg" || named "jpeg" then (MediaImage, "image/jpeg", "image")
  else if named "png" then (MediaImage, "image/png", "image")
  else if named "gif" then (MediaImage, "image/gif", "image")
  else if named "webp" then (MediaImage, "image/webp", "image")
  else if named "ogg" then (MediaAudio, "audio/ogg; codecs=opus", "audio")
  else if named "mp4" then (MediaVideo, "video/mp4", "video")
  else if named "avi" then (MediaVideo, "video/avi", "video")
  else if named "mov" then (MediaVideo, "video/quicktime", "video")
  else let m := TypeByExtension ("." +:+ ext) in
       (MediaDocument, if String.eqb m "" then "application/octet-stream" else m, "document").

Definition sniffMIME (data : list Z) : string :=
  match data with [] => "application/octet-stream" | _ => DetectContentType data end.

Definition classifyMediaData (mediaPath : string) (data : list Z) : upload_kind * string * string :=
  let '(uploadType, mimeType, category) := classifyMediaPath mediaPath in
  let sniffed :=
    if String.eqb category "video" && bool_decide (12 ≤ length data)%nat
       && bool_decide (take 4 (drop 4 data) = ascii_bytes "ftyp") && bool_decide (take 4 (drop 8 data) = ascii_bytes "qt  ")
    then "video/quicktime" else sniffMIME data in
  let mimeType :=
    if String.eqb category "image" then
      if bool_decide (sniffed ∈ ["image/jpeg"; "image/png"; "image/gif"; "image/webp"]) then sniffed else mimeType
    else if String.eqb category "video" then
      if bool_decide (sniffed ∈ ["video/mp4"; "video/quicktime"; "video/avi"]) then sniffed else mimeType
    else mimeType in
  (uploadType, mimeType, category).

(** [presentationMIME]. *)
Definition presentationMIME (kind raw : string) : string :=
  if String.eqb kind "audio"
     && (String.eqb (to_lower raw) "audio/ogg; codecs=opus" || String.eqb (to_lower raw) "audio/ogg;codecs=opus")
  then "audio/ogg; codecs=opus"
  else if bool_decide (255 < String.length raw)%nat || existsb (λ r, IsSpace r || IsControl r) (runes (codes raw)) then ""
  else match ParseMediaType raw with
       | None => ""
       | Some (parsed, params) =>
           if negb (Nat.eqb params 0) || negb (String.eqb parsed (to_lower raw))
              || negb (Nat.eqb (count_byte "/" parsed) 1) || contains_byte "*" parsed
           then ""
           else if String.eqb kind "document"
                || (String.eqb kind "audio" && has_prefix "audio/" parsed)
                || (String.eqb kind "sticker" && String.eqb parsed "image/webp")
                || (String.eqb kind "image" && bool_decide (parsed ∈ ["image/jpeg"; "image/png"; "image/gif"; "image/webp"]))
                || (String.eqb kind "video" && bool_decide (parsed ∈ ["video/mp4"; "video/quicktime"; "video/avi"]))
           then parsed else ""
       end.

Definition validated (kind : string) (p : mediaPresentation) : mediaPresentation :=
  {| mp_hash := mp_hash p; mp_mime := presentationMIME kind (mp_mime p);
     mp_name := cleanDisplayName <$> mp_name p; mp_title := cleanDisplayName <$> mp_title p; mp_ptt := mp_ptt p;
     mp_seconds := match mp_seconds p with Some s => if bool_decide (86400 < s) then None else Some s | None => None end;
     mp_waveform := if Nat.eqb (String.length (mp_waveform p)) 64 then mp_waveform p else "";
     mp_animated := mp_animated p |}.

Definition set_hash (h : string) (p : mediaPresentation) : mediaPresentation :=
  {| mp_hash := h; mp_mime := mp_mime p; mp_name := mp_name p; mp_title := mp_title p; mp_ptt := mp_ptt p;
     mp_seconds := mp_seconds p; mp_waveform := mp_waveform p; mp_animated := mp_animated p |}.

Definition forFile (kind : string) (sha : option string) (p : mediaPresentation) : option mediaPresentation :=
  let sha := default "" sha in
  if Nat.eqb (String.length sha) 0 || bool_decide (64 < String.length sha)%nat then None
  else if negb (String.eqb (mp_hash p) "") && negb (String.eqb (mp_hash p) (hex sha)) then None
  else Some (set_hash (hex sha) (validated kind p)).

Definition forBytes (kind : string) (data : list Z) (p : option mediaPresentation) : result string (option mediaPresentation) :=
  match p with
  | None => Ok None
  | Some p =>
      if negb (String.eqb (mp_hash p) "") && negb (String.eqb (mp_hash p) (hex (sha256 data)))
      then Err "cached media does not match its stored presentation hash"
      else Ok (Some (validated kind p))
  end.

(** [mediaPartOf] of an outgoing message. *)
Definition mediaPartOf (m : body) : option (string * file_part) :=
  match m with
  | ImageMessage f _ _ => Some ("image", f)
  | VideoMessage f _ _ => Some ("video", f)
  | AudioMessage f _ _ _ _ => Some ("audio", f)
  | DocumentMessage f _ _ _ _ => Some ("document", f)
  | StickerMessage f _ _ => Some ("sticker", f)
  | Conversation _ | ExtendedText _ _ => None
  end.

Definition mediaPresentationOf (m : body) : option mediaPresentation :=
  match mediaPartOf m with
  | None => None
  | Some (kind, f) =>
      let base name title ptt seconds waveform animated :=
        {| mp_hash := ""; mp_mime := p_mime f; mp_name := name; mp_title := title; mp_ptt := ptt; mp_seconds := seconds;
           mp_waveform := waveform; mp_animated := animated |} in
      let p := match m with
               | DocumentMessage _ title name _ _ => base (Some name) (Some title) None None "" None
               | AudioMessage _ seconds ptt waveform _ => base None None ptt seconds waveform None
               | StickerMessage _ animated _ => base None None None None "" animated
               | _ => base None None None None "" None
               end in
      if String.eqb (mp_mime p) "" && bool_decide (mp_name p = None) && bool_decide (mp_title p = None)
         && bool_decide (mp_ptt p = None) && bool_decide (mp_seconds p = None) && String.eqb (mp_waveform p) ""
         && bool_decide (mp_animated p = None)
      then None else forFile kind (p_file_sha256 f) p
  end.

(** ** The message of an uploaded file *)

Definition part_of (mimeType : string) (u : UploadResponse) : file_part :=
  {| p_mime := mimeType; p_url := up_URL u; p_direct_path := up_DirectPath u; p_media_key := up_MediaKey u;
     p_file_enc_sha256 := up_FileEncSHA256 u; p_file_sha256 := up_FileSHA256 u; p_file_length := up_FileLength u |}.

(** The seconds and waveform of an Ogg file, or why it is not one. *)
Definition analyzed (data : list Z) : result string (Z * string) :=
  match analyzeOggOpus rnd overflow data with
  | Some (Ok d) => Ok (d, placeholderWaveform d)
  | Some (Err e) => Err e
  | None => Err "panic"  (* excluded by [voice_note_total] *)
  end.

Definition buildMediaMessage (kind : upload_kind) (mimeType mediaPath : string) (data : list Z) (u : UploadResponse)
    (caption : string) : result string body :=
  match kind with
  | MediaImage => Ok (ImageMessage (part_of mimeType u) caption None)
  | MediaAudio =>
      if contains_string "ogg" mimeType
      then match analyzed data with
           | Err e => Err ("failed to analyze Ogg Opus file: " +:+ e)
           | Ok (seconds, waveform) => Ok (AudioMessage (part_of mimeType u) (Some seconds) (Some true) waveform None)
           end
      else Ok (AudioMessage (part_of mimeType u) (Some 30) (Some true) "" None)
  | MediaVideo => Ok (VideoMessage (part_of mimeType u) caption None)
  | MediaDocument =>
      Ok (DocumentMessage (part_of mimeType u) (outboundFileName mediaPath) (outboundFileName mediaPath) caption None)
  end.

(** [buildOutboundMedia]: the message and the caption that travels with it. *)
Definition buildOutboundMedia (kind : upload_kind) (mimeType mediaPath : string) (data : list Z) (u : UploadResponse)
    (caption : string) (quote : outboundQuote) (mentions : list string) : result string (body * string) :=
  match buildMediaMessage kind mimeType mediaPath data u caption with
  | Err e => Err e
  | Ok m =>
      let voice := match m with AudioMessage _ _ _ _ _ => true | _ => false end in
      let caption := if voice then "" else caption in
      let mentions := if voice then [] else mentions in
      Ok (update_slot (λ _, outboundContextInfo quote mentions) m, caption)
  end.

(** How the bytes were found: as a sticker, and from a cached message. *)
Record send_origin := {
  as_sticker : bool;
  cached : bool;                        (* cachedForwardMIMEKey *)
  source : option forwardSource;        (* forwardSourceKey *)
}.

Definition classifySendMedia (o : send_origin) (mediaPath : string) (data : list Z) : upload_kind * string * string :=
  if cached o then classifyMediaData mediaPath data else classifyMediaPath mediaPath.

(** The codec of stored audio by its first bytes. *)
Definition audio_mime (data : list Z) : string :=
  let m := sniffMIME data in
  let m := if String.eqb m "video/mp4" then "audio/mp4" else if String.eqb m "audio/wave" then "audio/wav"
           else if String.eqb m "application/ogg" then "audio/ogg" else m in
  match data with
  | b0 :: b1 :: rest =>
      let m := if bool_decide (7 ≤ length data)%nat && Z.eqb b0 255 && Z.eqb (Z.land b1 246) 240 then "audio/aac" else m in
      match rest with
      | b2 :: _ :: _ =>
          if Z.eqb b0 255 && Z.eqb (Z.land b1 224) 224 && negb (Z.eqb (Z.land b1 24) 8) && negb (Z.eqb (Z.land b1 6) 0)
             && negb (Z.eqb (Z.land b2 240) 0) && negb (Z.eqb (Z.land b2 240) 240) && negb (Z.eqb (Z.land b2 12) 12)
          then "audio/mpeg" else m
      | _ => m
      end
  | _ => m
  end.

Definition is_opus (data : list Z) : bool := default false (isOggOpus data).

Definition forwardMediaType (o : send_origin) (mediaPath : string) (data : list Z) : result string (upload_kind * string) :=
  match source o with
  | None => let '(kind, mimeType, _) := classifySendMedia o mediaPath data in Ok (kind, mimeType)
  | Some src =>
      match forBytes (src_mediaType src) data (src_presentation src) with
      | Err e => Err e
      | Ok p =>
          let t := src_mediaType src in
          let base :=
            if String.eqb t "document" then Some (MediaDocument, (classifyMediaPath (src_filename src)).1.2)
            else if String.eqb t "sticker" then Some (MediaImage, if isWebP data then "image/webp" else sniffMIME data)
            else if String.eqb t "audio" then Some (MediaAudio, audio_mime data)
            else if String.eqb t "image" || String.eqb t "video" then Some (classifyMediaData mediaPath data).1
            else None in
          match base with
          | None => Err ("unsupported forwarded media kind: " +:+ t)
          | Some (kind, mimeType) =>
              let mimeType :=
                match p with
                | Some p => if negb (String.eqb (mp_mime p) "") && negb (String.eqb t "image") && negb (String.eqb t "video")
                               && (negb (String.eqb t "sticker") || isWebP data)
                            then mp_mime p else mimeType
                | None => mimeType
                end in
              if String.eqb t "audio" then
                let mimeType := if is_opus data then "audio/ogg; codecs=opus" else mimeType in
                match ParseMediaType mimeType with
                | Some (parsed, _) => if has_prefix "audio/" parsed then Ok (kind, mimeType)
                                      else Err "cannot determine stored audio codec"
                | None => Err "cannot determine stored audio codec"
                end
              else Ok (kind, mimeType)
          end
      end
  end.

Definition forward_audio (mimeType : string) (data : list Z) (u : UploadResponse) (p : option mediaPresentation)
    (quote : outboundQuote) : result string (body * string) :=
  let opus := is_opus data in
  let ptt := match p with Some p => mp_ptt p | None => Some opus end in
  let seconds := p ≫= mp_seconds in
  let waveform := match p with Some p => mp_waveform p | None => "" end in
  let whole := bool_decide (is_Some seconds) && Nat.eqb (String.length waveform) 64 in
  let ctx := outboundContextInfo quote [] in
  if negb opus || whole then Ok (AudioMessage (part_of mimeType u) seconds ptt waveform ctx, "")
  else match analyzed data with
       | Err e => Err e
       | Ok (d, w) =>
           let seconds := match seconds with
                          | Some s => Some s
                          | None => if bool_decide (d ≤ 86400) then Some d else None
                          end in
           Ok (AudioMessage (part_of mimeType u) seconds ptt
                 (if Nat.eqb (String.length waveform) 64 then waveform else w) ctx, "")
       end.

(** Name and title of a forwarded document. *)
Definition document_names (src : forwardSource) (p : option mediaPresentation) : string * string :=
  let own_name := p ≫= mp_name in
  let own_title := p ≫= mp_title in
  let name := default (src_filename src) own_name in
  let title := match p with Some _ => default "" own_title | None => src_filename src end in
  let hidden := bool_decide (own_name = None) && generatedMediaName name in
  let name := if hidden then "" else name in
  let title := if hidden && bool_decide (own_title = None) then "" else title in
  (name, if bool_decide (p = None) && negb (String.eqb title "") then outboundFileName title else title).

Definition buildForwardMedia (o : send_origin) (kind : upload_kind) (mimeType mediaPath : string) (data : list Z)
    (u : UploadResponse) (caption : string) (quote : outboundQuote) (mentions : list string) : result string (body * string) :=
  if as_sticker o
  then Ok (StickerMessage (part_of "image/webp" u) (Some (default false (webPAnimated data))) (outboundContextInfo quote mentions), "")
  else match source o with
  | None => buildOutboundMedia kind mimeType mediaPath data u caption quote mentions
  | Some src =>
      match forBytes (src_mediaType src) data (src_presentation src) with
      | Err e => Err e
      | Ok p =>
          if String.eqb (src_mediaType src) "audio" then forward_audio mimeType data u p quote
          else if String.eqb (src_mediaType src) "sticker" then
            if negb (isWebP data) then buildOutboundMedia MediaImage mimeType mediaPath data u caption quote mentions
            else Ok (StickerMessage (part_of mimeType u) (p ≫= mp_animated) (outboundContextInfo quote mentions), "")
          else if String.eqb (src_mediaType src) "document" then
            let '(name, title) := document_names src p in
            match buildOutboundMedia kind mimeType name data u caption quote mentions with
            | Ok (DocumentMessage f _ n c ctx, text) => Ok (DocumentMessage f (cleanDisplayName title) n c ctx, text)
            | r => r
            end
          else buildOutboundMedia kind mimeType mediaPath data u caption quote mentions
      end
  end.

(** ** The outbound row *)

Definition mediaCDNHost : string := "https://mmg.whatsapp.net".
Definition mediaURLFromDirectPath (directPath : string) : string :=
  mediaCDNHost +:+ (if has_prefix "/" directPath then directPath else "/" +:+ directPath).

(** [outboundMedia]. *)
Record outboundMedia := {
  om_mediaType : string;
  om_filename : string;
  om_url : string;
  om_directPath : string;
  om_mediaKey : option string;
  om_fileSHA256 : option string;
  om_fileEncSHA256 : option string;
  om_fileLength : option Z;
  om_presentation : option mediaPresentation;
  om_retryChat : string;
  om_retrySender : string;
}.

(** [outboundMediaColumns], then what [sendWhatsAppMessageWithNetwork] sets: the
    display name of a cached source and of a document, the kind and presentation
    of the message that was built, and the addresses of the wire. *)
Definition outboundMediaColumns (mediaPath : string) (u : option UploadResponse) : outboundMedia :=
  match u with
  | Some u =>
      {| om_mediaType := (classifyMediaPath mediaPath).2; om_filename := outboundFileName mediaPath;
         om_url := if String.eqb (up_URL u) "" && negb (String.eqb (up_DirectPath u) "")
                   then mediaURLFromDirectPath (up_DirectPath u) else up_URL u;
         om_directPath := up_DirectPath u; om_mediaKey := up_MediaKey u; om_fileSHA256 := up_FileSHA256 u;
         om_fileEncSHA256 := up_FileEncSHA256 u; om_fileLength := Some (up_FileLength u); om_presentation := None;
         om_retryChat := ""; om_retrySender := "" |}
  | None =>
      {| om_mediaType := ""; om_filename := ""; om_url := ""; om_directPath := ""; om_mediaKey := None;
         om_fileSHA256 := None; om_fileEncSHA256 := None; om_fileLength := None; om_presentation := None;
         om_retryChat := ""; om_retrySender := "" |}
  end.

Definition outbound_row (mediaPath : string) (u : option UploadResponse) (cachedSource : option forwardSource) (m : body)
    (retryChat retrySender : string) : outboundMedia :=
  let c := outboundMediaColumns mediaPath u in
  let filename := match cachedSource with Some src => src_filename src | None => om_filename c end in
  let filename := match u, m with Some _, DocumentMessage _ _ n _ _ => n | _, _ => filename end in
  {| om_mediaType := match u, mediaPartOf m with
                     | Some _, Some (kind, _) => kind
                     | Some _, None => ""
                     | None, _ => om_mediaType c
                     end;
     om_filename := filename; om_url := om_url c; om_directPath := om_directPath c; om_mediaKey := om_mediaKey c;
     om_fileSHA256 := om_fileSHA256 c; om_fileEncSHA256 := om_fileEncSHA256 c; om_fileLength := om_fileLength c;
     om_presentation := match u with Some _ => mediaPresentationOf m | None => None end;
     om_retryChat := retryChat; om_retrySender := retrySender |}.

(** [outboundMedia.store]; [marshal] is the JSON of a presentation. *)
Definition outbound_message (marshal : mediaPresentation → string) (om : outboundMedia) (id chatJID senderJID content : string)
    (timestamp : Z) (quotedMsgID : string) : storedMessage :=
  {| ID := id; ChatJID := chatJID; Sender := senderJID; Content := content; Timestamp := timestamp; IsFromMe := true;
     MediaType := om_mediaType om; Filename := om_filename om; URL := om_url om; MediaKey := om_mediaKey om;
     FileSHA256 := om_fileSHA256 om; FileEncSHA256 := om_fileEncSHA256 om; FileLength := om_fileLength om;
     QuotedMessageID := quotedMsgID; DirectPath := om_directPath om;
     Presentation := (om_presentation om ≫= forFile (om_mediaType om) (om_fileSHA256 om)) ≫= λ p, Some (marshal p);
     Location := None; RetryChat := om_retryChat om; RetrySender := om_retrySender om; Mentions := "" |}.

End Media.

(** ** What was built *)

(** The text a message shows, its context, and whether it is a voice note. *)
Definition text_of (m : body) : string :=
  match m with
  | Conversation t | ExtendedText t _ => t
  | ImageMessage _ c _ | VideoMessage _ c _ | DocumentMessage _ _ _ c _ => c
  | AudioMessage _ _ _ _ _ | StickerMessage _ _ _ => ""
  end.

Definition context_of (m : body) : option ContextInfo :=
  match m with
  | Conversation _ => None
  | ExtendedText _ ctx | ImageMessage _ _ ctx | VideoMessage _ _ ctx | DocumentMessage _ _ _ _ ctx
  | AudioMessage _ _ _ _ ctx | StickerMessage _ _ ctx => ctx
  end.

Definition is_voice (m : body) : bool := match m with AudioMessage _ _ _ _ _ => true | _ => false end.

(** The timer of the chat on top of a context. *)
Definition timed (settings : ChatEphemeralSettings) (ctx : option ContextInfo) : option ContextInfo :=
  if Z.eqb (es_expiration settings) 0 || Z.eqb (es_timestamp settings) 0 then ctx
  else Some (mergeEphemeralContextInfo ctx settings).

Lemma apply_settings m s :
  text_of (applyChatEphemeralSettings m s) = text_of m ∧
  mediaPartOf (applyChatEphemeralSettings m s) = mediaPartOf m ∧
  is_voice (applyChatEphemeralSettings m s) = is_voice m ∧
  context_of (applyChatEphemeralSettings m s) = timed s (context_of m).
Proof. unfold applyChatEphemeralSettings, timed. destruct (_ || _); [done|]. by destruct m. Qed.

Section Built.
Context (TypeByExtension : string → string) (DetectContentType : list Z → string)
        (ParseMediaType : string → option (string * nat)) (sha256 : list Z → string) (placeholderWaveform : Z → string)
        (rnd : Q → Q) (overflow : Q → Z).

(** A message built from the upload [u] with the given quote and mentions. *)
Definition carries (u : UploadResponse) (quote : outboundQuote) (mentions : list string) (m : body) (text : string) : Prop :=
  text_of m = text ∧
  (∃ kind mimeType, mediaPartOf m = Some (kind, part_of mimeType u) ∧ is_media kind = true) ∧
  context_of m = outboundContextInfo quote (if is_voice m then [] else mentions).

Lemma build_outbound_carries kind mimeType path data u caption quote mentions m text :
  buildOutboundMedia placeholderWaveform rnd overflow kind mimeType path data u caption quote mentions = Ok (m, text) →
  carries u quote mentions m text.
Proof.
  unfold buildOutboundMedia, buildMediaMessage, analyzed, carries. intros Hb.
  destruct kind; repeat case_match; simplify_eq/=; split_and!; eauto 10.
Qed.

Lemma build_forward_carries o kind mimeType path data u caption quote mentions m text :
  buildForwardMedia ParseMediaType sha256 placeholderWaveform rnd overflow o kind mimeType path data u caption quote mentions
    = Ok (m, text) →
  carries u quote mentions m text.
Proof.
  unfold buildForwardMedia. destruct (as_sticker o); [intros [= <- <-]; unfold carries; split_and!; eauto|].
  destruct (source o) as [src|]; [|apply build_outbound_carries].
  destruct (forBytes _ _ _ _ _) as [p|]; [|done].
  destruct (String.eqb (src_mediaType src) "audio").
  { unfold forward_audio, analyzed, carries. intros Hb. repeat case_match; simplify_eq/=; split_and!; eauto. }
  destruct (String.eqb (src_mediaType src) "sticker").
  { destruct (isWebP data); cbn [negb]; [intros [= <- <-]; unfold carries; split_and!; eauto|apply build_outbound_carries]. }
  destruct (String.eqb (src_mediaType src) "document"); [|apply build_outbound_carries].
  destruct (document_names src p) as [name title].
  destruct (buildOutboundMedia _ _ _ _ _ _ _ _ _ _ _) as [[m0 text0]|] eqn:Hb; [|done].
  apply build_outbound_carries in Hb. destruct m0; intros [= <- <-]; exact Hb.
Qed.
End Built.

(** A file that was sent can be fetched again from its archive row, and the
    row says what was sent: whatever kind of file and origin, the row has the
    kind, key, hashes, length and path the message carries and the caption that
    really travelled (none for a voice note or a sticker); a row with a path has
    a URL; and the message carries exactly the quote and mentions asked for (a
    voice note mentions nobody) with the timer of the chat on top. *)
Theorem sent_file_archived `{JidOps} TypeByExtension ParseMediaType sha256 placeholderWaveform rnd overflow marshal
    o kind mimeType path data u caption quote mentions settings m text cachedSource retryChat retrySender id chat snd t quotedID :
  buildForwardMedia ParseMediaType sha256 placeholderWaveform rnd overflow o kind mimeType path data u caption quote mentions
    = Ok (m, text) →
  let wire := applyChatEphemeralSettings m settings in
  let row := messageArgs (outbound_message ParseMediaType marshal
    (outbound_row TypeByExtension ParseMediaType path (Some u) cachedSource wire retryChat retrySender) id chat snd text t quotedID) in
  text_of wire = content row ∧
  (∃ k f, mediaPartOf wire = Some (k, f) ∧ media_type row = k ∧ is_media k = true ∧
     media_key (media row) = p_media_key f ∧ file_sha256 (media row) = p_file_sha256 f ∧
     file_enc_sha256 (media row) = p_file_enc_sha256 f ∧ direct_path (media row) = nullif_empty (p_direct_path f) ∧
     file_length (media row) = storedMediaLength (p_file_length f) ∧
     (p_url f ≠ "" → url (media row) = p_url f) ∧ (p_direct_path f ≠ "" → url (media row) ≠ "")) ∧
  context_of wire = timed settings (outboundContextInfo quote (if is_voice wire then [] else mentions)).
Proof.
  intros Hb. apply build_forward_carries in Hb as (Htext & (k & mt & Hpart & Hk) & Hctx). cbv zeta.
  destruct (apply_settings m settings) as (Ht & Hp & Hv & Hc). rewrite Ht, Hc, Hv, Hctx, Htext.
  unfold messageArgs, outbound_message, outbound_row. rewrite Hp, Hpart.
  destruct (splitSenderJID _). simpl. split_and!; [done| |done].
  exists k, (part_of mt u). rewrite Hk. simpl. split_and!; try done; destruct (String.eqb_spec (up_URL u) ""); simpl; try done.
  intros Hd. destruct (String.eqb_spec (up_DirectPath u) ""); done.
Qed.

Definition sample_upload : UploadResponse :=
  {| up_URL := ""; up_DirectPath := "/v/t62"; up_MediaKey := Some "key"; up_FileEncSHA256 := Some "enc";
     up_FileSHA256 := Some "sha"; up_FileLength := 3 |}.
Definition no_quote : outboundQuote := {| q_id := ""; q_participant := ""; q_content := ""; q_preview := None |}.

Lemma sent_file_archived_witness :
  let row := @messageArgs RefJid.ops (outbound_message (λ _, None) (λ _, "{}")
    (outbound_row (λ _, "") (λ _, None) "/out/a.jpg" (Some sample_upload) None
      (ImageMessage (part_of "image/jpeg" sample_upload) "hi" None) "" "") "3EB0" "1@g.us" "2@s.whatsapp.net" "hi" 0 "") in
  content row = "hi" ∧ url (media row) ≠ "" ∧ media_key (media row) = Some "key".
Proof.
  destruct (@sent_file_archived RefJid.ops (λ _, "") (λ _, None) (λ _, "") (λ _, "") (λ q, q) (λ _, 0) (λ _, "{}")
    {| as_sticker := false; cached := false; source := None |} MediaImage "image/jpeg" "/out/a.jpg" [] sample_upload "hi"
    no_quote [] {| es_expiration := 0; es_timestamp := 0 |} (ImageMessage (part_of "image/jpeg" sample_upload) "hi" None) "hi"
    None "" "" "3EB0" "1@g.us" "2@s.whatsapp.net" 0 "" eq_refl) as (H1 & (k & f & Hf & _ & _ & Hkey & _ & _ & _ & _ & _ & Hurl) & _).
  simpl in Hf. injection Hf as <- <-. split; [symmetry; exact H1|]. split; [apply Hurl; discriminate|exact Hkey].
Defined.

(** The header scans read only what is there. *)
Lemma webp_chunks_total fuel data pos : (length data - pos < fuel)%nat → is_Some (webp_chunks fuel data pos).
Proof.
  revert pos. induction fuel as [|fuel IH]; intros pos Hf; [lia|]. simpl.
  case_bool_decide as H8; [done|]. destruct (slice_is_some (pos + 4) (pos + 8) data ltac:(lia)) as (s & -> & _). simpl.
  case_bool_decide as Hfin; [done|]. destruct (slice_is_some pos (pos + 4) data ltac:(lia)) as (tag & -> & _). simpl.
  case_bool_decide; [|apply IH; lia]. destruct (Nat.eqb_spec (Z.to_nat (little_endian s)) 10) as [E|]; [|done].
  destruct (lookup_lt_is_Some_2 data (pos + 8) ltac:(lia)) as [b ->]. done.
Qed.

Lemma webPAnimated_total data : is_Some (webPAnimated data).
Proof. unfold webPAnimated. destruct (isWebP data); [apply webp_chunks_total; lia|done]. Qed.

Lemma isOggOpus_total data : is_Some (isOggOpus data).
Proof.
  unfold isOggOpus. destruct (bool_decide (length data < 27)%nat) eqn:E; [done|]. apply bool_decide_eq_false in E.
  destruct (negb _); [done|]. cbn [orb].
  destruct (lookup_lt_is_Some_2 data 26 ltac:(lia)) as [n ->], (lookup_lt_is_Some_2 data 5 ltac:(lia)) as [f ->]. cbn [mbind option_bind].
  destruct (_ || _); [done|]. case_bool_decide; [done|].
  destruct (lookup_lt_is_Some_2 data 27 ltac:(lia)) as [l ->]. cbn [mbind option_bind].
  destruct (slice_is_some (27 + Z.to_nat n) (27 + Z.to_nat n + 8) data ltac:(lia)) as (m & Hm & _).
  by rewrite Hm.
Qed.
