(* ===== verification/Send.v ===== *)
(** * Sending ([send.go], [outbound_quote.go], [quoted_participant.go],
      [edit_forward.go])

    The handlers of /api/send and /api/forward from the request to the network
    and the archive, with the budget reservation around the attempt.  The chat
    policy, the budget, the path confinement, the message builder and the
    archive are those of their own files; WhatsApp, the file system, the media
    storage and the moment a request's deadline passes are inputs.  The effects
    of a request are the questions asked about numbers, the messages handed to
    the network, the budget tables and the archive. *)
From Stdlib Require Import QArith.
From S2P Require Import Prelude Jid Http ChatPolicy Config RuntimeSettings SendLimits MediaPath StoreTime Archive Messages MarkRead MediaNames Ogg Outbound.
#[local] Open Scope Z_scope.

(** ** Recipient spellings *)

Definition recipientSeparators : list Z :=
  codes " -()." ++ [9; 160; 8239; 8199; 8201; 8203; 8206; 8207; 8234; 8236; 8294; 8295; 8296; 8297; 65279;
                    8208; 8209; 8210; 8211; 8212].

Definition normalizePhoneRecipient (raw : string) : result string string :=
  if contains_byte "@" raw then Ok raw
  else
    let compact := of_codes (utf8 (filter (λ r, r ∉ recipientSeparators) (runes (codes raw)))) in
    let compact := match strip_prefix "+" compact with Some c => c | None => compact end in
    if bool_decide (7 ≤ String.length compact)%nat && isPhoneDigits compact
    then if bool_decide (15 < String.length compact)%nat
         then Err "phone recipient exceeds 15 digits; use a full JID for a group"
         else Ok compact
    else Ok raw.

Section Send.
Context `{JidOps}.

Definition normalizedUserJID (raw : string) : result string JID :=
  match normalizePhoneRecipient (trim_space raw) with
  | Err e => Err e
  | Ok raw =>
      if String.eqb raw "" || Nat.ltb 1 (count_byte "@" raw) || (negb (contains_byte "@" raw) && negb (isPhoneDigits raw))
      then Err "invalid phone number or JID"
      else match parseRecipientJID raw with
           | Err e => Err e
           | Ok jid =>
               if String.eqb (User jid) "" || String.eqb (Server jid) "" then Err "a user and server are required"
               else Ok (set_Server (to_lower (Server jid)) jid)
           end
  end.

(** What the client library answers: its LID store, [GetUserInfo] (the LID of a
    number, if the server names one) and the account's own JID. *)
Record client := {
  lids : lid_store;
  GetUserInfo : JID → result string (option JID);
  own_id : option JID;
}.

(** [resolveRecipientJIDContext]; [expired k] is the error of the context at the
    k-th check. *)
Definition resolveRecipientJIDContext (expired : nat → option string) (c : client) (recipient : string) : result string JID :=
  match expired 0%nat with
  | Some e => Err e
  | None =>
      match parseRecipientJID recipient with
      | Err e => Err ("error parsing JID: " +:+ e)
      | Ok jid =>
          let fin j := match expired 2%nat with Some e => Err e | None => Ok j end in
          if negb (String.eqb (Server jid) DefaultUserServer) then fin jid
          else match expired 1%nat with
          | Some e => Err e
          | None =>
              match lookupAltJID (lids c) jid with
              | Err LIDStoreUnavailable => Ok jid
              | Ok lid =>
                  if negb (IsEmpty lid) then fin lid
                  else fin (match GetUserInfo c jid with
                            | Ok (Some l) => if negb (IsEmpty l) then l else jid
                            | _ => jid
                            end)
              | Err (StoreError _) =>
                  fin (match GetUserInfo c jid with
                       | Ok (Some l) => if negb (IsEmpty l) then l else jid
                       | _ => jid
                       end)
              end
          end
      end
  end.

(** [resolveMentionJIDsContext] of the mentions reached before the context ended. *)
Fixpoint resolveMentionJIDsContext (c : client) (mentions : list string) : list string :=
  match mentions with
  | [] => []
  | mention :: rest =>
      match normalizedUserJID mention with
      | Err _ => resolveMentionJIDsContext c rest
      | Ok jid =>
          let alt := if String.eqb (Server jid) DefaultUserServer
                     then match lookupAltJID (lids c) jid with
                          | Ok lid => if negb (IsEmpty lid) then [JIDString lid] else []
                          | Err _ => []
                          end
                     else [] in
          JIDString jid :: alt ++ resolveMentionJIDsContext c rest
      end
  end.

(** [resolveQuotedParticipantJIDContext]. *)
Definition resolveQuotedParticipant (c : client) (raw : string) : string :=
  if String.eqb raw "" then ""
  else match normalizedUserJID raw with
       | Err _ => ""
       | Ok jid =>
           if String.eqb (Server jid) DefaultUserServer
           then match lookupAltJID (lids c) (ToNonAD jid) with
                | Ok lid => if negb (IsEmpty lid) then JIDString lid else JIDString jid
                | Err _ => JIDString jid
                end
           else JIDString jid
       end.

Definition outboundLookupChatJID (c : client) (jid : JID) : JID :=
  let jid := ToNonAD jid in
  if String.eqb (Server jid) HiddenUserServer
  then match lookupAltJID (lids c) jid with
       | Ok pn => if negb (IsEmpty pn) then ToNonAD pn else jid
       | Err _ => jid
       end
  else jid.

Definition storedQuoteParticipant (c : client) (sender server : string) (fromMe : bool) : string :=
  if fromMe then
    match own_id c with
    | None => ""
    | Some id => resolveQuotedParticipant c (storedSender (ToNonAD id))
    end
  else if String.eqb sender "" then ""
  else
    let full := if contains_byte "@" sender then sender
                else if String.eqb server "" then "" else sender +:+ String "@" server in
    if String.eqb full "" then ""
    else match normalizedUserJID full with
         | Err _ => ""
         | Ok jid => resolveQuotedParticipant c (JIDString jid)
         end.

(** [readMediaPresentation] with the JSON decoder as a parameter. *)
Definition readMediaPresentation (ParseMediaType : string → option (string * nat)) (unmarshal : string → option mediaPresentation)
    (raw kind : string) (sha : option string) : option mediaPresentation :=
  if bool_decide (4096 < String.length raw)%nat then None
  else match unmarshal raw with
       | None => None
       | Some p => if String.eqb (mp_hash p) "" || negb (String.eqb (mp_hash p) (hex (default "" sha))) then None
                   else Some (validated ParseMediaType kind p)
       end.

(** The preview of an archived message. *)
Definition preview_of (r : message_row) (p : option mediaPresentation) : preview :=
  let mime := mp_mime <$> p in
  let shown := match mime with Some m => nullif_empty m | None => None end in
  let kind := media_type r in
  if String.eqb kind "image" then PImage (content r) shown
  else if String.eqb kind "video" then PVideo (content r) shown
  else if String.eqb kind "audio" then
    PAudio mime (p ≫= mp_ptt) (p ≫= mp_seconds) (match p with Some p => mp_waveform p | None => "" end)
  else if String.eqb kind "sticker" then PSticker mime (p ≫= mp_animated)
  else if String.eqb kind "document" then
    let name := if generatedMediaName (filename r) then "" else outboundFileName (filename r) in
    PDocument (content r) (match p ≫= mp_name with Some n => outboundFileName n | None => name end) mime (p ≫= mp_title)
  else PText (content r).

(** [loadOutboundQuote]: a quote refers to this chat only. *)
Definition loadOutboundQuote (ParseMediaType : string → option (string * nat)) (unmarshal : string → option mediaPresentation)
    (c : client) (db : archive) (chat : string) (quote : outboundQuote) (deriveParticipant : bool) : outboundQuote :=
  if String.eqb (q_id quote) "" then quote
  else match rows db !! (q_id quote, chat) with
       | None => quote
       | Some r =>
           {| q_id := q_id quote;
              q_participant := if deriveParticipant
                               then storedQuoteParticipant c (sender r) (default "" (sender_server r)) (is_from_me r)
                               else q_participant quote;
              q_content := q_content quote;
              q_preview := Some (preview_of r (readMediaPresentation ParseMediaType unmarshal
                             (default "" (media_presentation r)) (media_type r) (file_sha256 (media r)))) |}
       end.

(** ** Local writes after a send *)

(** A SQLite error with its code, or another one. *)
Inductive write_error : Type := Coded (code : Z) | Uncoded.

Definition isBusyError (e : write_error) : bool :=
  match e with
  | Coded code => Z.eqb (Z.land code 255) 5 || Z.eqb (Z.land code 255) 6
  | Uncoded => false
  end.

Definition defaultStoreRetryDelays : list Z := [200 * 1000000; second_ns].

(** [retryBusyWithWait]: [write k] is the k-th attempt, [wait k] whether the
    pause after it ran to its end. *)
Fixpoint retryBusyWithWait {A} (write : nat → A → A * option write_error) (wait : nat → bool) (k : nat) (delays : list Z)
    (st : A) : A * option write_error :=
  let '(st, err) := write k st in
  match delays, err with
  | _ :: rest, Some e => if isBusyError e && wait k then retryBusyWithWait write wait (S k) rest st else (st, err)
  | _, _ => (st, err)
  end.

(** Faults of the two writes of an attempt. *)
Record persist_faults := { chat_fault : nat → option write_error; row_fault : nat → option write_error; waits : nat → bool }.

Section Network.
Context `{Sqlite} (TypeByExtension : string → string) (DetectContentType : list Z → string)
        (ParseMediaType : string → option (string * nat)) (sha256 : list Z → string) (placeholderWaveform : Z → string)
        (rnd : Q → Q) (overflow : Q → Z) (unmarshal : string → option mediaPresentation) (marshal : mediaPresentation → string).

(** [sentMessage]. *)
Record sentMessage := { s_id : string; s_chat : string; s_time : Z; s_code : string }.
Definition nothing_sent : sentMessage := {| s_id := ""; s_chat := ""; s_time := 0; s_code := "" |}.

(** [persistOutbound] with [retryOutbound]: the chat, then the row; the chat it
    was stored under and whether the archive has it. *)
Definition persistOutbound (pf : persist_faults) (c : client) (own : JID) (storageJID : JID) (sent : sentMessage)
    (text : string) (om : outboundMedia) (quotedID : string) (db : archive) : archive * string * bool :=
  let chat := JIDString (resolveUserJIDContext (lids c) storageJID EmptyJID) in
  let m := outbound_message ParseMediaType marshal om (s_id sent) chat (storedSender (ToNonAD own)) text (s_time sent) quotedID in
  let write k (db : archive) :=
    match chat_fault pf k with
    | Some e => (db, Some e)
    | None =>
        let db := {| rows := rows db; chat_rows := Chats.storeChatWith chat "" (Some (s_time sent)) (chat_rows db) |} in
        match row_fault pf k with
        | Some e => (db, Some e)
        | None => ({| rows := StoreMessage false m (rows db); chat_rows := chat_rows db |}, None)
        end
    end in
  let '(db, err) := retryBusyWithWait write (waits pf) 0 defaultStoreRetryDelays db in
  (db, chat, bool_decide (err = None)).

(** The errors of [SendMessage] the bridge tells apart. *)
Inductive send_error : Type :=
| ErrNoPermissionInGroup | ErrClientIsNil | ErrNotLoggedIn | ErrRecipientADJID | ErrInvalidInlineBotID
| ErrUnknownServer | ErrBroadcastListUnsupported | ErrNotInGroup | ErrGroupNotFound
| OtherError (msg : string).

Definition definitiveSendRefusal (e : send_error) : bool := match e with OtherError _ => false | _ => true end.

Definition send_error_text (e : send_error) : string := match e with OtherError m => m | _ => "refused" end.

Definition groupPermissionCode : string := "group_admin_required".
Definition groupPermissionMessage : string := "This group is restricted to admins; this account cannot send messages here".
Definition notConnectedMessage : string := "Not connected to WhatsApp".

Record SendResponse := { resp_id : string; resp_time : option Z; resp_chat : JID; resp_sender : JID }.

(** [messageSendNetwork] and the file read. *)
Record network := {
  connected : bool;
  upload : upload_kind → list Z → result string UploadResponse;
  send : JID → body → result send_error SendResponse;
  read_file : string → result string (list Z);
  clock : Z;
}.

(** What a send is asked to say. *)
Record send_request := {
  message : string;
  quotedID : string;
  quotedSender : string;
  quotedContent : string;
  mentions : list string;
}.

(** Its file: the local path ("" for none), where it came from, the bytes a
    sticker check already read, and the cached message it is. *)
Record send_media := {
  path : string;
  origin : send_origin;
  bytes : option (list Z);
  cached_source : option forwardSource;
}.

(** What a send did: its answer, the messages given to the network, whether its
    reservation is to be refunded, the archive. *)
Record send_run := {
  ok : bool;
  status : string;
  sent : sentMessage;
  sends : list (JID * body);
  refund : bool;
  after : archive;
}.

(** Faults of the reads before the send: the context at its checks, the quote
    and the settings query, and how many mentions were reached. *)
Record read_faults := {
  expired : nat → option string;
  quote_fault : option string;
  settings_fault : option string;
  reached : nat;
}.

(** [outboundSendStatus]. *)
Definition outboundSendStatus (recipient : string) (archived : bool) : string :=
  "Message sent to " +:+ recipient +:+
  (if archived then "" else "; warning: message was sent, but its archive row could not be written; do not resend it").

Definition maxStickerBytes : nat := Nat.pow 2 20.

(** [readStickerMedia]; a preview reads the first thirty bytes only. *)
Definition readStickerMedia (n : network) (file : string) (previewing : bool) : result string (list Z) :=
  match read_file n file with
  | Err e => Err ("could not open sticker media: " +:+ e)
  | Ok data =>
      if bool_decide (maxStickerBytes < length data)%nat then Err "as_sticker is limited to 1 MiB"
      else let head := take (if previewing then 30 else S maxStickerBytes) data in
           if negb (isWebP head) then Err "as_sticker requires RIFF/WEBP bytes" else Ok head
  end.

(** The message of a send: text, or the uploaded file. *)
Definition compose (n : network) (rf : read_faults) (md : send_media) (text : string) (quote : outboundQuote)
    (mentioned : list string) : result string (body * string * option UploadResponse) :=
  if String.eqb (path md) "" then Ok (buildOutboundTextWithQuote text quote mentioned, text, None)
  else
    match (match bytes md with
           | Some b => Ok b
           | None => if as_sticker (origin md) then readStickerMedia n (path md) false else read_file n (path md)
           end) with
    | Err e => Err ("Error reading media file: " +:+ e)
    | Ok data =>
        match (if as_sticker (origin md) then Ok (MediaImage, "image/webp")
               else forwardMediaType TypeByExtension DetectContentType ParseMediaType sha256 (origin md) (path md) data) with
        | Err e => Err e
        | Ok (kind, mimeType) =>
            match expired rf 6%nat with
            | Some e => Err e
            | None =>
                match upload n kind data with
                | Err e => Err ("Error uploading media: " +:+ e)
                | Ok u =>
                    match buildForwardMedia ParseMediaType sha256 placeholderWaveform rnd overflow (origin md) kind mimeType
                            (path md) data u text quote mentioned with
                    | Err e => Err e
                    | Ok (m, text) => Ok (m, text, Some u)
                    end
                end
            end
        end
    end.

(** [sendWhatsAppMessageWithNetwork] with a store. *)
Definition sendWithNetwork (n : network) (rf : read_faults) (pf : persist_faults) (c : client) (recipient : string)
    (req : send_request) (md : send_media) (db : archive) : send_run :=
  let fail msg := {| ok := false; status := msg; sent := nothing_sent; sends := []; refund := true; after := db |} in
  match expired rf 0%nat with Some e => fail e | None =>
  if negb (connected n) then fail notConnectedMessage else
  let mentioned := resolveMentionJIDsContext c (take (reached rf) (mentions req)) in
  match parseRecipientJID recipient with Err e => fail ("Error parsing JID: " +:+ e) | Ok storageJID =>
  match resolveRecipientJIDContext (λ k, expired rf (S k)) c recipient with Err e => fail e | Ok recipientJID =>
  let quote := {| q_id := quotedID req;
                  q_participant := if String.eqb (quotedID req) "" then "" else resolveQuotedParticipant c (quotedSender req);
                  q_content := quotedContent req; q_preview := None |} in
  let chat := JIDString (outboundLookupChatJID c storageJID) in
  match expired rf 4%nat with Some e => fail e | None =>
  match quote_fault rf with Some e => fail ("Error loading quoted message: " +:+ e) | None =>
  let quote := loadOutboundQuote ParseMediaType unmarshal c db chat quote (String.eqb (quotedSender req) "") in
  match settings_fault rf with Some e => fail ("Error loading chat settings: " +:+ e) | None =>
  let settings := outboundChatSettings chat (chat_rows db) in
  match expired rf 5%nat with Some e => fail e | None =>
  match compose n rf md (message req) quote mentioned with Err e => fail e | Ok (m, text, u) =>
  let m := applyChatEphemeralSettings m settings in
  match expired rf 7%nat with Some e => fail e | None =>
  match send n recipientJID m with
  | Err e =>
      {| ok := false;
         status := match e with ErrNoPermissionInGroup => groupPermissionMessage
                              | _ => "Error sending message: " +:+ send_error_text e end;
         sent := match e with ErrNoPermissionInGroup => {| s_id := ""; s_chat := ""; s_time := 0; s_code := groupPermissionCode |}
                            | _ => nothing_sent end;
         sends := [(recipientJID, m)]; refund := definitiveSendRefusal e; after := db |}
  | Ok resp =>
      let s := {| s_id := resp_id resp; s_chat := JIDString storageJID; s_time := default (clock n) (resp_time resp); s_code := "" |} in
      match own_id c with
      | None => {| ok := true; status := outboundSendStatus recipient true; sent := s; sends := [(recipientJID, m)];
                   refund := false; after := db |}
      | Some own =>
          let retryChat := if IsEmpty (resp_chat resp) then recipientJID else resp_chat resp in
          let retrySender := if IsEmpty (resp_sender resp) then own else resp_sender resp in
          let om := outbound_row TypeByExtension ParseMediaType (path md) u (cached_source md) m
                      (JIDString (ToNonAD retryChat)) (JIDString (ToNonAD retrySender)) in
          let '(db, stored, archived) := persistOutbound pf c own storageJID s text om (quotedID req) db in
          {| ok := true; status := outboundSendStatus recipient archived;
             sent := {| s_id := s_id s; s_chat := stored; s_time := s_time s; s_code := "" |};
             sends := [(recipientJID, m)]; refund := false; after := db |}
      end
  end end end end end end end end end end.

(** ** The handlers *)

(** Media storage: the local file and source of a cached URI, or the error code
    of [cachedSendErrorCode]; the chat of a URI, if it is one ([parseMediaURI]). *)
Record storage := {
  materialize : string → result string (string * forwardSource);
  uri_chat : string → option string;
}.

Definition cachedURI (p : string) : bool := has_prefix "whatsapp://" p.

Definition plain_origin (sticker : bool) : send_origin := {| as_sticker := sticker; cached := false; source := None |}.

(** [resolveSendMedia] on a file that has not been opened yet. *)
Definition resolveSendMedia (s : storage) (md : send_media) : result string send_media :=
  if negb (cachedURI (path md)) then Ok md
  else match materialize s (path md) with
       | Err code => Err code
       | Ok (local, src) =>
           Ok {| path := local;
                 origin := {| as_sticker := as_sticker (origin md); cached := true;
                              source := Some (default src (source (origin md))) |};
                 bytes := bytes md; cached_source := Some src |}
       end.

Definition sendErrorStatus (code : string) : Z :=
  if String.eqb code groupPermissionCode then Http.StatusForbidden
  else if String.eqb code "media_unavailable" || String.eqb code "media_refused" then 500
  else if String.eqb code "bridge_unavailable" then Http.StatusBadGateway
  else Http.StatusBadRequest.

(** [sendWhatsAppMessage]. *)
Definition sendWhatsAppMessage (s : storage) (n : network) (rf : read_faults) (pf : persist_faults) (c : client)
    (recipient : string) (req : send_request) (md : send_media) (db : archive) : send_run :=
  match resolveSendMedia s md with
  | Err code =>
      {| ok := false; status := "Cached media read failed";
         sent := {| s_id := ""; s_chat := ""; s_time := 0; s_code := code |}; sends := []; refund := true; after := db |}
  | Ok md => sendWithNetwork n rf pf c recipient req md db
  end.

(** [registeredRecipient]: the address to send to. *)
Definition registeredRecipient (online : bool) (policy : chatPolicy) (c : client)
    (isOnWhatsApp : list string → list IsOnWhatsAppResponse * option string) (recipient : string) : result Http.reply string :=
  if negb online then Err (Http.writeError 500 notConnectedMessage)
  else match canonicalRecipientJID (λ jid, match lookupAltJID (lids c) jid with Ok j => Ok j | Err _ => Err "" end)
               isOnWhatsApp recipient with
       | Err NotOnWhatsApp =>
           Err (Http.writeError Http.StatusNotFound
             (recipient +:+ " is not on WhatsApp: no account is registered under that number (country code first; supported formatting is accepted)"))
       | Err RecipientLookup =>
           if restricted policy then Err (Http.writeError Http.StatusBadGateway "could not check the number with WhatsApp; nothing was sent")
           else Ok recipient
       | Err (BadRecipient e) => Err (Http.writeError Http.StatusBadRequest e)
       | Ok registered =>
           match authorizeChat policy (JIDString registered) true with
           | Err r => Err r
           | Ok canonical => Ok (JIDString canonical)
           end
       end.

(** The budget of a request: the limits in force, the faults of the reservation
    and of the refund, and the settings the gate reads. *)
Record budget := {
  lims : send_limits;
  reserve_fault : fault;
  now : Z;
  with_settings : bool;
  snapshot : result unit runtimeSettingsSnapshot;
  live : result unit runtimeSettingsSnapshot;
  refund_ok : bool;
  refund_lims : send_limits;
  refund_now : Z;
}.

(** [allowSend] on the tables. *)
Definition gate (b : budget) (c : client) (target : string) (t : send_db) : send_db * send_gate :=
  let '(t', res) := reserveSend rnd (lims b) (lids c) (reserve_fault b) (now b) [target] t in
  (t', allowSend false (with_settings b) (snapshot b) res (live b)).

(** The refund of a receipt, if there is one and the send proved nothing went out. *)
Definition settle (b : budget) (receipt : option sendReservation) (undelivered : bool) (t : send_db) : send_db :=
  match receipt with
  | Some r => if undelivered then (releaseSend rnd (refund_ok b) (refund_lims b) (refund_now b) r t).1 else t
  | None => t
  end.

Inductive answer : Type :=
| Refuse (r : Http.reply)
| Limited (r : Http.reply) (retry : option Z)
| DryRun (chat : string)
| Answer (success : bool) (text : string) (s : sentMessage).

(** What a request did. *)
Record effect := {
  reply : answer;
  sent_messages : list (JID * body);
  budget_after : send_db;
  archive_after : archive;
}.

Record SendMessageRequest := {
  AsSticker : bool;
  DryRunReq : bool;
  Recipient : string;
  MediaPath : string;
  Asked : send_request;
}.

(** Everything a request meets outside the bridge. *)
Record outside := {
  online : bool;
  cl : client;
  isOnWhatsApp : list string → list IsOnWhatsAppResponse * option string;
  net : network;
  store : storage;
  EvalSymlinks : string → option string;
  Stat : string → stat_result;
  reads : read_faults;
  writes : persist_faults;
  money : budget;
}.

(** The media path of a request: local and confined, or a cached message of a
    chat the policy permits. *)
Definition requested_media (policy : chatPolicy) (roots : list string) (w : outside) (mediaPath : string) :
    result Http.reply string :=
  if String.eqb mediaPath "" then Ok ""
  else if cachedURI mediaPath
  then match uri_chat (store w) mediaPath with
       | None => Err (Http.writeError 400 "Invalid cached media URI")
       | Some chat => match authorizeChat policy chat false with Err r => Err r | Ok _ => Ok mediaPath end
       end
  else match validateMediaPath (EvalSymlinks w) (Stat w) mediaPath roots with
       | Err e => Err (Http.writeErrorCode Http.StatusForbidden "" ("media_path rejected: " +:+ e))
       | Ok p => Ok p
       end.

(** The end of a send: the gate, the attempt, the refund and the answer.
    [failed] is the failure answer of the handler. *)
Definition attempt (failed : string → answer) (w : outside) (recipient : string) (req : send_request) (md : send_media)
    (t : send_db) (db : archive) : effect :=
  let '(t, g) := gate (money w) (cl w) recipient t in
  match g with
  | SendDenied r retry => {| reply := Limited r retry; sent_messages := []; budget_after := t; archive_after := db |}
  | SendAllowed receipt =>
      let run := sendWhatsAppMessage (store w) (net w) (reads w) (writes w) (cl w) recipient req md db in
      {| reply := if negb (ok run) && negb (String.eqb (s_code (sent run)) "")
                  then Refuse (Http.writeErrorCode (sendErrorStatus (s_code (sent run))) (s_code (sent run)) (status run))
                  else if ok run then Answer true (status run) (sent run) else failed (status run);
         sent_messages := sends run; budget_after := settle (money w) receipt (refund run) t; archive_after := after run |}
  end.

(** The bytes of a sticker, checked before anything is charged. *)
Definition prepare_sticker (w : outside) (sticker dry : bool) (md : send_media) : result Http.reply send_media :=
  if negb sticker then Ok md
  else match resolveSendMedia (store w) md with
       | Err code => Err (Http.writeErrorCode (sendErrorStatus code) code "Cached media read failed")
       | Ok md =>
           match readStickerMedia (net w) (path md) dry with
           | Err e => Err (Http.writeError Http.StatusBadRequest e)
           | Ok data => Ok {| path := path md; origin := origin md; bytes := Some data; cached_source := cached_source md |}
           end
       end.

(** [handleSend]. *)
Definition handleSend (policy : chatPolicy) (roots : list string) (w : outside) (req : SendMessageRequest) (t : send_db)
    (db : archive) : effect :=
  let stop a := {| reply := a; sent_messages := []; budget_after := t; archive_after := db |} in
  let bad msg := stop (Refuse (Http.writeError Http.StatusBadRequest msg)) in
  match normalizePhoneRecipient (Recipient req) with Err e => bad e | Ok typed =>
  if String.eqb typed "" then bad "Recipient is required" else
  match authorizeChat policy typed true with Err r => stop (Refuse r) | Ok chat =>
  if AsSticker req && (negb (String.eqb (message (Asked req)) "") || String.eqb (MediaPath req) "")
  then bad "as_sticker requires media and no caption" else
  if String.eqb (message (Asked req)) "" && String.eqb (MediaPath req) "" then bad "Message or media path is required" else
  match requested_media policy roots w (MediaPath req) with Err r => stop (Refuse r) | Ok p =>
  match registeredRecipient (online w) policy (cl w) (isOnWhatsApp w) (JIDString chat) with Err r => stop (Refuse r) | Ok recipient =>
  match prepare_sticker w (AsSticker req) (DryRunReq req)
          {| path := p; origin := plain_origin (AsSticker req); bytes := None; cached_source := None |} with
  | Err r => stop (Refuse r)
  | Ok md =>
      if DryRunReq req then stop (DryRun recipient)
      else attempt (λ m, Answer false m nothing_sent) w recipient (Asked req) md t db
  end end end end end.

(** *** Forwarding *)

(** [parseChatAndMessage]. *)
Definition parseChatAndMessage (policy : chatPolicy) (rawChat rawID : string) : result Http.reply (JID * string) :=
  let rawChat := trim_space rawChat in
  let rawID := trim_space rawID in
  if String.eqb rawChat "" || String.eqb rawID ""
  then Err (Http.writeErrorCode Http.StatusBadRequest "" "chat_jid and message_id are required")
  else match authorizeChat policy rawChat false with Err r => Err r | Ok chat => Ok (chat, rawID) end.

(** [messageContentLookup]. *)
Definition messageContentLookup (db : archive) (id chat : string) : option forwardSource :=
  r ← rows db !! (id, chat);
  Some {| src_content := content r; src_mediaType := media_type r; src_filename := filename r;
          src_presentation := p ← media_presentation r;
                              readMediaPresentation ParseMediaType unmarshal p (media_type r) (file_sha256 (media r)) |}.

Record forwardRequest := { f_chat : string; f_id : string; f_to : string }.

(** The download of the forwarded file, the archive it leaves behind, and the
    faults of the two lookups. *)
Record forward_outside := {
  download : string → string → result Http.reply (string * string);
  refreshed : archive → archive;
  lookup_fault : bool;
  second_fault : bool;
}.

Definition unforwardable : list string := ["location"; "poll"; "reaction"; "poll_vote"].

(** The file of a forwarded message, the archive afterwards. *)
Definition forwarded_media (fw : forward_outside) (chat id : string) (src : forwardSource) (db : archive) :
    result Http.reply (send_media * archive) :=
  let md p o := {| path := p; origin := o; bytes := None; cached_source := None |} in
  if String.eqb (src_mediaType src) "" then Ok (md "" (plain_origin false), db)
  else match download fw id chat with
       | Err r => Err r
       | Ok (kind, p) =>
           let db := refreshed fw db in
           match messageContentLookup db id chat with
           | Some current =>
               if second_fault fw || negb (String.eqb (src_mediaType current) kind)
               then Err (Http.writeErrorCode Http.StatusBadGateway "" "Media archive changed while forwarding")
               else Ok (md p {| as_sticker := false; cached := true; source := Some current |}, db)
           | None => Err (Http.writeErrorCode Http.StatusBadGateway "" "Media archive changed while forwarding")
           end
       end.

(** [handleForwardMessage]. *)
Definition handleForwardMessage (policy : chatPolicy) (w : outside) (fw : forward_outside) (req : forwardRequest)
    (t : send_db) (db : archive) : effect :=
  let stop db r := {| reply := Refuse r; sent_messages := []; budget_after := t; archive_after := db |} in
  let bad msg := stop db (Http.writeErrorCode Http.StatusBadRequest "" msg) in
  match parseChatAndMessage policy (f_chat req) (f_id req) with Err r => stop db r | Ok (chat, id) =>
  match normalizePhoneRecipient (trim_space (f_to req)) with Err e => stop db (Http.writeError Http.StatusBadRequest e) | Ok to =>
  if String.eqb to "" then bad "to_chat_jid is required" else
  match authorizeChat policy to true with Err r => stop db r | Ok typed =>
  if lookup_fault fw then stop db (Http.writeErrorCode 500 "" "Failed to look up message") else
  match messageContentLookup db id (JIDString chat) with
  | None => stop db (Http.writeErrorCode Http.StatusNotFound "" "Message not found in local archive")
  | Some src =>
      if bool_decide (src_mediaType src ∈ unforwardable) then bad ("cannot forward a " +:+ src_mediaType src) else
      if String.eqb (src_mediaType src) "" && String.eqb (trim_space (src_content src)) ""
      then bad "message has no text to forward" else
      match registeredRecipient (online w) policy (cl w) (isOnWhatsApp w) (JIDString typed) with Err r => stop db r | Ok recipient =>
      match forwarded_media fw (JIDString chat) id src db with
      | Err r => stop (if String.eqb (src_mediaType src) "" then db else refreshed fw db) r
      | Ok (md, db) =>
          attempt (λ m, Refuse (Http.writeErrorCode Http.StatusBadGateway "" ("Forward failed: " +:+ m))) w recipient
            {| message := src_content src; quotedID := ""; quotedSender := ""; quotedContent := ""; mentions := [] |} md t db
      end end
  end end end end.

(** *** Editing *)

Record editRequest := { e_chat : string; e_id : string; e_text : string }.

(** The edit sent to WhatsApp (its timestamp in milliseconds) and whether the
    archive took the write. *)
Record edit_outside := {
  send_edit : JID → string → string → result string Z;
  owner_fault : bool;
  archive_write : bool;
}.

Record edit_effect := { e_reply : answer; edits : list (JID * string * string); e_budget : send_db; e_archive : archive }.

(** [allowSendAction]: actions are counted only when the deployment asks for it. *)
Definition allowSendAction (SendIncludeActions : bool) (b : budget) (c : client) (target : string) (t : send_db) : send_db * send_gate :=
  if SendIncludeActions then gate b c target t else (t, SendAllowed None).

(** [handleEditMessage]; its reservation has no receipt to refund. *)
Definition handleEditMessage (policy : chatPolicy) (SendIncludeActions : bool) (b : budget) (c : client) (ew : edit_outside) (req : editRequest)
    (t : send_db) (db : archive) : edit_effect :=
  let stop st msg := {| e_reply := Refuse (Http.writeErrorCode st "" msg); edits := []; e_budget := t; e_archive := db |} in
  match parseChatAndMessage policy (e_chat req) (e_id req) with
  | Err r => {| e_reply := Refuse r; edits := []; e_budget := t; e_archive := db |}
  | Ok (chat, id) =>
      let text := trim_space (e_text req) in
      if String.eqb text "" then stop Http.StatusBadRequest "text must not be empty" else
      if owner_fault ew then stop 500 "Failed to look up message" else
      match rows db !! (id, JIDString chat) with
      | None => stop Http.StatusNotFound "Message not found in local archive"
      | Some r =>
          if negb (is_from_me r) then stop Http.StatusForbidden "Only messages sent by this account can be edited" else
          let '(t, g) := allowSendAction SendIncludeActions b c (JIDString chat) t in
          match g with
          | SendDenied r retry => {| e_reply := Limited r retry; edits := []; e_budget := t; e_archive := db |}
          | SendAllowed _ =>
              match send_edit ew chat id text with
              | Err e => {| e_reply := Refuse (Http.writeErrorCode Http.StatusBadGateway "" ("Edit failed: " +:+ e));
                            edits := [(chat, id, text)]; e_budget := t; e_archive := db |}
              | Ok stamp_ms =>
                  let s := {| s_id := id; s_chat := JIDString chat; s_time := 0; s_code := "" |} in
                  if archive_write ew
                  then {| e_reply := Answer true "Message edited" s; edits := [(chat, id, text)]; e_budget := t;
                          e_archive := {| rows := UpdateMessageContent (id, JIDString chat) text stamp_ms (rows db);
                                          chat_rows := chat_rows db |} |}
                  else {| e_reply := Answer true "Message edited (archive update failed; the remote edit already succeeded, do not repeat it)" s;
                          edits := [(chat, id, text)]; e_budget := t; e_archive := db |}
              end
          end
      end
  end.

(** ** What a request did *)

(** [jid] is the address of [recipient] or its LID as the client knows it. *)
Definition address_of (c : client) (recipient : string) (jid : JID) : Prop :=
  ∃ pn, parseRecipientJID recipient = Ok pn ∧
        (jid = pn ∨ Server pn = DefaultUserServer ∧ (lookupAltJID (lids c) pn = Ok jid ∨ GetUserInfo c pn = Ok (Some jid))).

Lemma resolve_address ex c recipient jid :
  resolveRecipientJIDContext ex c recipient = Ok jid → address_of c recipient jid.
Proof.
  unfold resolveRecipientJIDContext, address_of. destruct (ex 0%nat); [done|].
  destruct (parseRecipientJID recipient) as [pn|] eqn:Hp; [|done]. intros Hr. exists pn. split; [done|].
  destruct (String.eqb_spec (Server pn) DefaultUserServer) as [Hs|]; cbn [negb] in Hr.
  - destruct (ex 1%nat); [done|]. destruct (lookupAltJID (lids c) pn) as [lid|[|]] eqn:Hl.
    + destruct (IsEmpty lid); cbn [negb] in Hr; repeat case_match; simplify_eq; eauto.
    + simplify_eq. eauto.
    + repeat case_match; simplify_eq; eauto.
  - destruct (ex 2%nat); simplify_eq. eauto.
Qed.

(** How a run and its reservation end. *)
Definition run_ends (c : client) (n : network) (recipient : string) (run : send_run) : Prop :=
  (sends run = [] ∧ refund run = true ∧ ok run = false) ∨
  ∃ jid m, sends run = [(jid, m)] ∧ address_of c recipient jid ∧
    match send n jid m with
    | Err e => refund run = definitiveSendRefusal e ∧ ok run = false
    | Ok _ => refund run = false ∧ ok run = true
    end.

Lemma network_ends n rf pf c recipient req md db : run_ends c n recipient (sendWithNetwork n rf pf c recipient req md db).
Proof.
  unfold sendWithNetwork.
  destruct (expired rf 0%nat); [by left|]. destruct (connected n); [|by left]. cbn [negb].
  destruct (parseRecipientJID recipient) as [pn|]; [|by left].
  destruct (resolveRecipientJIDContext _ c recipient) as [jid|] eqn:Hr; [|by left]. apply resolve_address in Hr.
  destruct (expired rf 4%nat); [by left|]. destruct (quote_fault rf); [by left|]. destruct (settings_fault rf); [by left|].
  destruct (expired rf 5%nat); [by left|]. destruct (compose _ _ _ _ _ _) as [[[m text] u]|]; [|by left].
  destruct (expired rf 7%nat); [by left|]. right.
  destruct (send n jid (applyChatEphemeralSettings m _)) as [resp|e] eqn:Hs.
  2:{ eexists _, _. split; [done|]. split; [done|]. by rewrite Hs. }
  destruct (own_id c) as [own|]; [|eexists _, _; split; [done|]; split; [done|]; by rewrite Hs].
  destruct (persistOutbound _ _ _ _ _ _ _ _ _) as [[db' stored] archived].
  eexists _, _. split; [done|]. split; [done|]. by rewrite Hs.
Qed.

Lemma send_ends s n rf pf c recipient req md db :
  run_ends c n recipient (sendWhatsAppMessage s n rf pf c recipient req md db).
Proof. unfold sendWhatsAppMessage. destruct (resolveSendMedia s md); [apply network_ends|by left]. Qed.

(** The tables after a request: untouched, or the gate's; a receipt is refunded
    exactly when nothing was handed to the network or WhatsApp refused it. *)
Definition settled (w : outside) (t : send_db) (e : effect) : Prop :=
  (sent_messages e = [] ∧ budget_after e = t) ∨
  ∃ recipient,
    let '(t', g) := gate (money w) (cl w) recipient t in
    match g with
    | SendDenied _ _ => sent_messages e = [] ∧ budget_after e = t'
    | SendAllowed receipt =>
        (sent_messages e = [] ∧ budget_after e = settle (money w) receipt true t') ∨
        ∃ jid m, sent_messages e = [(jid, m)] ∧ address_of (cl w) recipient jid ∧
          budget_after e = match send (net w) jid m with
                           | Err err => settle (money w) receipt (definitiveSendRefusal err) t'
                           | Ok _ => t'
                           end
    end.

Lemma attempt_settled failed w recipient req md t db : settled w t (attempt failed w recipient req md t db).
Proof.
  right. exists recipient. unfold attempt. destruct (gate (money w) (cl w) recipient t) as [t' [receipt|r retry]]; [|done].
  simpl. destruct (send_ends (store w) (net w) (reads w) (writes w) (cl w) recipient req md db)
    as [(-> & -> & _)|(jid & m & -> & Ha & Hs)]; [by left|right].
  exists jid, m. split_and!; [done..|]. destruct (send (net w) jid m); destruct Hs as [-> _]; by destruct receipt.
Qed.

Lemma attempt_sends failed w recipient req md t db :
  sent_messages (attempt failed w recipient req md t db) ≠ [] →
  (∃ receipt, (gate (money w) (cl w) recipient t).2 = SendAllowed receipt) ∧
  ∃ jid m, sent_messages (attempt failed w recipient req md t db) = [(jid, m)] ∧ address_of (cl w) recipient jid.
Proof.
  unfold attempt. destruct (gate (money w) (cl w) recipient t) as [t' [receipt|r retry]]; [|done]. simpl.
  destruct (send_ends (store w) (net w) (reads w) (writes w) (cl w) recipient req md db)
    as [(-> & _)|(jid & m & -> & Ha & _)]; [done|]. split; [by eexists|by eexists _, _].
Qed.

(** [recipient] spells an address the policy permits. *)
Definition permitted (policy : chatPolicy) (recipient : string) : Prop :=
  ∃ raw j, authorizeChat policy raw true = Ok j ∧ recipient = JIDString j.

Lemma registered_permitted on policy c ask chat raw recipient :
  authorizeChat policy raw true = Ok chat →
  registeredRecipient on policy c ask (JIDString chat) = Ok recipient → permitted policy recipient.
Proof.
  intros Hc. unfold registeredRecipient. destruct on; [|done]. cbn [negb].
  destruct (canonicalRecipientJID _ _ _) as [reg|[e| |]]; [|done|done|].
  - destruct (authorizeChat policy (JIDString reg) true) as [j|] eqn:Ha; [|done]. intros [= <-]. by exists (JIDString reg), j.
  - destruct (restricted policy); [done|]. intros [= <-]. by exists raw, chat.
Qed.

(** *** The file of a request *)

(** The only files a request may open: the local copy of the cached message it
    names, of a permitted chat, or its path as [validateMediaPath] confined it. *)
Definition readable (policy : chatPolicy) (roots : list string) (w : outside) (asked f : string) : Prop :=
  asked ≠ "" ∧
  ((cachedURI asked = true ∧ ∃ chat j src, uri_chat (store w) asked = Some chat ∧ authorizeChat policy chat false = Ok j ∧
                                            materialize (store w) asked = Ok (f, src)) ∨
   (cachedURI asked = false ∧ validateMediaPath (EvalSymlinks w) (Stat w) asked roots = Ok f)).

(** What is sent carries nothing, that file, or the sticker bytes read from it. *)
Definition carries (policy : chatPolicy) (roots : list string) (w : outside) (asked : string) (md : send_media) : Prop :=
  (asked = "" ∧ path md = "" ∧ bytes md = None) ∨
  ∃ f, readable policy roots w asked f ∧
    ((bytes md = None ∧ path md = f) ∨ ∃ b, bytes md = Some b ∧ readStickerMedia (net w) f false = Ok b).

(** The same world with other files. *)
Definition with_read (read : string → result string (list Z)) (n : network) : network :=
  {| connected := connected n; upload := upload n; send := send n; read_file := read; clock := clock n |}.

Definition with_files (read : string → result string (list Z)) (w : outside) : outside :=
  {| online := online w; cl := cl w; isOnWhatsApp := isOnWhatsApp w; net := with_read read (net w); store := store w;
     EvalSymlinks := EvalSymlinks w; Stat := Stat w; reads := reads w; writes := writes w; money := money w |}.

Lemma confined_plain w asked roots f : validateMediaPath (EvalSymlinks w) (Stat w) asked roots = Ok f → cachedURI f = false.
Proof.
  unfold validateMediaPath. destruct (String.eqb asked ""); [done|]. destruct (negb (IsAbs asked)); [done|].
  destruct (EvalSymlinks w asked) as [r|]; [|done]. destruct (String.eqb_spec (confine (Clean r) roots) "") as [|Hne]; [done|].
  destruct (Stat w _); [|done..]. intros [= <-]. revert Hne. generalize (Clean r). intros q.
  induction roots as [|root roots IH]; simpl; [done|]. destruct (pathHasPrefix q root); [|done]. cbn [negb].
  destruct (Rel root q) as [rel|]; [|done]. destruct (contains_dotdot rel); [done|]. intros Hne. unfold cachedURI, Join in *.
  destruct (String.eqb root ""), (String.eqb rel ""); try done; by apply (Clean_not_uri "whatsapp:").
Qed.

(** The file of a request once its URI is resolved: none, or one it may open. *)
Lemma resolved_media policy roots w asked p sticker md :
  requested_media policy roots w asked = Ok p →
  resolveSendMedia (store w) {| path := p; origin := plain_origin sticker; bytes := None; cached_source := None |} = Ok md →
  bytes md = None ∧ ((asked = "" ∧ path md = "") ∨ readable policy roots w asked (path md)).
Proof.
  unfold requested_media, readable, resolveSendMedia. destruct (String.eqb_spec asked "") as [Ha|Ha]; [intros [= <-]; simpl; intros [= <-]; auto|].
  destruct (cachedURI asked) eqn:Hu.
  - destruct (uri_chat (store w) asked) as [chat|]; [|done].
    destruct (authorizeChat policy chat false) as [j|] eqn:Hc; [|done]. intros [= <-]. simpl. rewrite Hu. simpl.
    destruct (materialize (store w) asked) as [[f src]|]; [|done]. intros [= <-]. simpl. split; [done|]. right. split; [done|].
    left. split; [done|]. by exists chat, j, src.
  - destruct (validateMediaPath _ _ _ _) as [f|] eqn:Hv; [|done]. intros [= <-]. simpl. rewrite (confined_plain _ _ _ _ Hv). simpl.
    intros [= <-]. simpl. auto 10.
Qed.

Lemma sticker_other_files read n file preview :
  read file = read_file n file → readStickerMedia (with_read read n) file preview = readStickerMedia n file preview.
Proof. unfold readStickerMedia. simpl. by intros ->. Qed.

Lemma compose_other_files read n rf md text quote mentioned :
  (path md ≠ "" → bytes md = None → read (path md) = read_file n (path md)) →
  compose (with_read read n) rf md text quote mentioned = compose n rf md text quote mentioned.
Proof.
  intros Hr. unfold compose. destruct (String.eqb_spec (path md) "") as [|Hp]; [done|]. specialize (Hr Hp).
  destruct (bytes md); [done|]. specialize (Hr eq_refl). simpl. by rewrite (sticker_other_files read n _ _ Hr), Hr.
Qed.

Lemma network_other_files read n rf pf c recipient req md db :
  (path md ≠ "" → bytes md = None → read (path md) = read_file n (path md)) →
  sendWithNetwork (with_read read n) rf pf c recipient req md db = sendWithNetwork n rf pf c recipient req md db.
Proof.
  intros Hr. unfold sendWithNetwork. cbn [with_read connected send clock].
  destruct (expired rf 0%nat); [done|]. destruct (negb (connected n)); [done|].
  destruct (parseRecipientJID recipient); [|done]. destruct (resolveRecipientJIDContext _ c recipient); [|done].
  destruct (expired rf 4%nat); [done|]. destruct (quote_fault rf); [done|]. destruct (settings_fault rf); [done|].
  destruct (expired rf 5%nat); [done|]. by rewrite compose_other_files.
Qed.

(** A second resolution of a file whose sticker bytes are known keeps the bytes. *)
Lemma resolve_bytes s md md' : resolveSendMedia s md = Ok md' → bytes md' = bytes md ∧ (cachedURI (path md) = false → path md' = path md).
Proof.
  unfold resolveSendMedia. destruct (cachedURI (path md)); [|by intros [= <-]]. cbn [negb].
  destruct (materialize _ _) as [[??]|]; [|done]. by intros [= <-].
Qed.

Section Request.
Context (policy : chatPolicy) (roots : list string) (w : outside) (asked p : string) (sticker : bool).
Context (Hp : requested_media policy roots w asked = Ok p) (Hsticker : sticker = true → asked ≠ "").

Definition plain_media : send_media := {| path := p; origin := plain_origin sticker; bytes := None; cached_source := None |}.

Lemma prepared_carries md md' :
  prepare_sticker w sticker false plain_media = Ok md → resolveSendMedia (store w) md = Ok md' → carries policy roots w asked md'.
Proof.
  unfold prepare_sticker, carries. destruct sticker eqn:Es; cbn [negb].
  - destruct (resolveSendMedia (store w) plain_media) as [md0|] eqn:Hloc; [|done]. unfold plain_media in Hloc. rewrite Es in Hloc.
    destruct (resolved_media policy roots w asked p true md0 Hp Hloc) as [_ [[? _]|Hf]]; [by destruct (Hsticker eq_refl)|].
    destruct (readStickerMedia (net w) (path md0) false) as [data|] eqn:Hd; [|done]. intros [= <-] [Hb _]%resolve_bytes.
    right. exists (path md0). split; [done|]. right. exists data. by rewrite Hb.
  - intros [= <-]. unfold plain_media. rewrite Es. intros Hloc.
    destruct (resolved_media policy roots w asked p false md' Hp Hloc) as [Hb [[? ?]|Hf]]; [by left|right; exists (path md'); auto].
Qed.

Context (read : string → result string (list Z)) (Hread : ∀ f, readable policy roots w asked f → read f = read_file (net w) f).

Lemma prepare_other_files dry : prepare_sticker (with_files read w) sticker dry plain_media = prepare_sticker w sticker dry plain_media.
Proof.
  unfold prepare_sticker. destruct sticker eqn:Es; cbn [negb]; [|done].
  change (store (with_files read w)) with (store w). change (net (with_files read w)) with (with_read read (net w)).
  destruct (resolveSendMedia (store w) plain_media) as [md0|] eqn:Hloc; [|done]. unfold plain_media in Hloc. rewrite Es in Hloc.
  destruct (resolved_media policy roots w asked p true md0 Hp Hloc) as [_ [[? _]|Hf]]; [by destruct (Hsticker eq_refl)|].
  by rewrite sticker_other_files by (by apply Hread).
Qed.

Lemma attempt_other_files failed recipient req md t db :
  prepare_sticker w sticker false plain_media = Ok md →
  attempt failed (with_files read w) recipient req md t db = attempt failed w recipient req md t db.
Proof.
  intros Hmd. unfold attempt, sendWhatsAppMessage. cbn [with_files cl money store net reads writes].
  destruct (gate (money w) (cl w) recipient t) as [t' [receipt|]]; [|done].
  destruct (resolveSendMedia (store w) md) as [md'|] eqn:Hr; [|done].
  rewrite network_other_files; [done|]. intros Hne Hb.
  destruct (prepared_carries md md' Hmd Hr) as [(_ & ? & _)|(f & Hf & [[_ ->]|(b & Hb' & _)])]; [done|by apply Hread|congruence].
Qed.
End Request.

(** What a run hands to the network is what [compose] makes of its file. *)
Lemma network_composed n rf pf c recipient req md db jid m :
  (jid, m) ∈ sends (sendWithNetwork n rf pf c recipient req md db) →
  ∃ body quote mentioned text u settings,
    compose n rf md (message req) quote mentioned = Ok (body, text, u) ∧ m = applyChatEphemeralSettings body settings.
Proof.
  unfold sendWithNetwork.
  destruct (expired rf 0%nat); [by intros ?%not_elem_of_nil|]. destruct (connected n); [|by intros ?%not_elem_of_nil]. cbn [negb].
  destruct (parseRecipientJID recipient) as [pn|]; [|by intros ?%not_elem_of_nil].
  destruct (resolveRecipientJIDContext _ c recipient) as [j|]; [|by intros ?%not_elem_of_nil].
  destruct (expired rf 4%nat); [by intros ?%not_elem_of_nil|]. destruct (quote_fault rf); [by intros ?%not_elem_of_nil|].
  destruct (settings_fault rf); [by intros ?%not_elem_of_nil|]. destruct (expired rf 5%nat); [by intros ?%not_elem_of_nil|].
  destruct (compose _ _ _ _ _ _) as [[[b text] u]|] eqn:Hc; [|by intros ?%not_elem_of_nil].
  destruct (expired rf 7%nat); [by intros ?%not_elem_of_nil|]. intros Hin.
  eexists b, _, _, text, u, _. split; [exact Hc|].
  destruct (send n j _); [destruct (own_id c); [destruct (persistOutbound _ _ _ _ _ _ _ _ _) as [[??]?]|]|];
    by apply list_elem_of_singleton in Hin as [= _ ->].
Qed.

(** [C3] Nothing is sent, and no file is opened, that the request's policy, budget
    and confinement do not cover.  The answer, the messages, the budget and the archive after
    /api/send depend on no file but the ones the request may open: the local copy of
    the cached message it names, when that is of a permitted chat, or its path as it was resolved and confined to the
    roots.  When a message is handed to the network it is one, the
    request was no dry run, the typed recipient and the registered address the
    message goes to are both on the allow-list, the send gate accepted the address,
    what the network gets is that address or its LID, and the message is composed of the request's text
    and of nothing but that file (or the sticker bytes read from it). *)
Theorem send_guarded (policy : chatPolicy) (roots : list string) (w : outside) (req : SendMessageRequest) (t : send_db) (db : archive) :
  let e := handleSend policy roots w req t db in
  (∀ read, (∀ f, readable policy roots w (MediaPath req) f → read f = read_file (net w) f) →
           handleSend policy roots (with_files read w) req t db = e) ∧
  (sent_messages e ≠ [] →
   DryRunReq req = false ∧ (message (Asked req) ≠ "" ∨ MediaPath req ≠ "") ∧
   (∃ typed chat, normalizePhoneRecipient (Recipient req) = Ok typed ∧ authorizeChat policy typed true = Ok chat) ∧
   ∃ recipient receipt jid m,
     permitted policy recipient ∧ (gate (money w) (cl w) recipient t).2 = SendAllowed receipt ∧
     sent_messages e = [(jid, m)] ∧ address_of (cl w) recipient jid ∧
     ∃ md body quote mentioned text u settings,
       carries policy roots w (MediaPath req) md ∧
       compose (net w) (reads w) md (message (Asked req)) quote mentioned = Ok (body, text, u) ∧
       m = applyChatEphemeralSettings body settings).
Proof.
  cbv zeta. unfold handleSend. cbn [with_files online cl isOnWhatsApp].
  destruct (normalizePhoneRecipient (Recipient req)) as [typed|]; [|done].
  destruct (String.eqb typed ""); [done|]. destruct (authorizeChat policy typed true) as [chat|] eqn:Hauth; [|done].
  destruct (AsSticker req && _) eqn:Hst; [done|].
  destruct (String.eqb (message (Asked req)) "" && _) eqn:Hsome; [done|].
  change (requested_media policy roots (with_files _ w) (MediaPath req)) with (requested_media policy roots w (MediaPath req)).
  destruct (requested_media policy roots w (MediaPath req)) as [p|] eqn:Hmd; [|done].
  destruct (registeredRecipient _ _ _ _ _) as [recipient|] eqn:Hreg; [|done].
  assert (AsSticker req = true → MediaPath req ≠ "") as Hsk.
  { intros Hs Hm. rewrite Hs, Hm, orb_true_r in Hst. done. }
  fold (plain_media p (AsSticker req)). split.
  - intros read Hread. rewrite (prepare_other_files policy roots w _ p _ Hmd Hsk read Hread).
    destruct (prepare_sticker w _ _ _) as [md|] eqn:Hpre; [|done]. destruct (DryRunReq req); [done|].
    by apply (attempt_other_files policy roots w (MediaPath req) p (AsSticker req)).
  - destruct (prepare_sticker w _ _ _) as [md|] eqn:Hpre; [|done].
    destruct (DryRunReq req); [done|]. intros Hs.
    pose proof (attempt_sends _ _ _ _ _ _ _ Hs) as ([receipt Hg] & jid & m & Hsent & Ha).
    split; [done|]. split.
    { destruct (String.eqb_spec (message (Asked req)) "") as [Hm|Hm]; [right|by left].
      cbn [andb] in Hsome. by apply String.eqb_neq in Hsome. }
    split; [by eexists _, _|].
    exists recipient, receipt, jid, m. split_and!; [by eapply registered_permitted|done|exact Hsent|done|].
    assert ((jid, m) ∈ sends (sendWhatsAppMessage (store w) (net w) (reads w) (writes w) (cl w) recipient (Asked req) md db)) as Hin.
    { revert Hsent. unfold attempt. destruct (gate _ _ _ _) as [t' [receipt'|]]; [|done]. simpl. intros ->. by left. }
    unfold sendWhatsAppMessage in Hin. destruct (resolveSendMedia (store w) md) as [md'|] eqn:Hres; [|by apply not_elem_of_nil in Hin].
    apply network_composed in Hin as (body & quote & mentioned & text & u & settings & Hc & ->).
    exists md', body, quote, mentioned, text, u, settings. split_and!; [|exact Hc|done].
    by eapply prepared_carries.
Qed.

(** Forwarding reads a permitted chat and writes to a permitted one: when
    /api/forward hands a message to the network, source chat, typed target and
    registered target passed the allow-list, the message was in the archive with
    content that can be forwarded, and the send gate accepted the target. *)
Theorem forward_guarded (policy : chatPolicy) (w : outside) (fw : forward_outside) (req : forwardRequest) (t : send_db) (db : archive) :
  let e := handleForwardMessage policy w fw req t db in
  sent_messages e ≠ [] →
  (∃ chat src, authorizeChat policy (trim_space (f_chat req)) false = Ok chat ∧
     messageContentLookup db (trim_space (f_id req)) (JIDString chat) = Some src ∧
     (src_mediaType src ∉ unforwardable) ∧ (src_mediaType src = "" → trim_space (src_content src) ≠ "")) ∧
  (∃ to typed, normalizePhoneRecipient (trim_space (f_to req)) = Ok to ∧ authorizeChat policy to true = Ok typed) ∧
  ∃ recipient receipt jid m,
    permitted policy recipient ∧ (gate (money w) (cl w) recipient t).2 = SendAllowed receipt ∧
    sent_messages e = [(jid, m)] ∧ address_of (cl w) recipient jid.
Proof.
  cbv zeta. unfold handleForwardMessage, parseChatAndMessage. destruct (_ || _); [done|].
  destruct (authorizeChat policy (trim_space (f_chat req)) false) as [chat|] eqn:Hc; [|done].
  destruct (normalizePhoneRecipient _) as [to|]; [|done]. destruct (String.eqb to ""); [done|].
  destruct (authorizeChat policy to true) as [typed|] eqn:Hto; [|done]. destruct (lookup_fault fw); [done|].
  destruct (messageContentLookup db _ _) as [src|] eqn:Hsrc; [|done].
  case_bool_decide as Hun; [done|].
  destruct (String.eqb (src_mediaType src) "" && String.eqb (trim_space (src_content src)) "") eqn:Htxt; [done|].
  destruct (registeredRecipient _ _ _ _ _) as [recipient|] eqn:Hreg; [|done].
  destruct (forwarded_media _ _ _ _ _) as [[md db']|]; [|done]. intros Hs.
  apply attempt_sends in Hs as ([receipt Hg] & jid & m & Hsent & Ha).
  split; [|split; [by eexists _, _|]].
  - exists chat, src. split_and!; [done..|]. intros He Hb. rewrite He, Hb in Htxt. done.
  - exists recipient, receipt, jid, m. split_and!; try done. by eapply registered_permitted.
Qed.

(** The charge of a send follows its delivery: after /api/send and
    /api/forward the budget tables are those of the gate exactly when a message
    was handed to the network and WhatsApp did not refuse it for certain; when
    nothing was handed over, or the refusal is definitive, the receipt has been
    refunded; a request stopped before the gate changes nothing. *)
Theorem reservation_settled (policy : chatPolicy) (roots : list string) (w : outside) (req : SendMessageRequest)
    (fw : forward_outside) (freq : forwardRequest) (t : send_db) (db : archive) :
  settled w t (handleSend policy roots w req t db) ∧ settled w t (handleForwardMessage policy w fw freq t db).
Proof.
  assert (∀ a db', settled w t {| reply := a; sent_messages := []; budget_after := t; archive_after := db' |}) as Hstop by (by left).
  split.
  - unfold handleSend. repeat (case_match; try apply Hstop). apply attempt_settled.
  - unfold handleForwardMessage. repeat (case_match; try apply Hstop). all: apply attempt_settled.
Qed.

(** Only the account's own messages are edited, in a permitted chat and,
    when actions are counted, within the budget, and the archive follows the edit: a message goes out as an
    edit only for an archived own row and a text that is not blank; the archive
    changes only after WhatsApp took the edit, and then it holds the new text
    unless the row was revoked or carries a newer edit. *)
Theorem edit_guarded (policy : chatPolicy) (counted : bool) (b : budget) (c : client) (ew : edit_outside) (req : editRequest) (t : send_db) (db : archive) :
  let e := handleEditMessage policy counted b c ew req t db in
  (edits e = [] → e_archive e = db) ∧
  ∀ chat id text, (chat, id, text) ∈ edits e →
    authorizeChat policy (trim_space (e_chat req)) false = Ok chat ∧ id = trim_space (e_id req) ∧
    text = trim_space (e_text req) ∧ text ≠ "" ∧
    (counted = true → ∃ receipt, (gate b c (JIDString chat) t).2 = SendAllowed receipt) ∧
    ∃ r, rows db !! (id, JIDString chat) = Some r ∧ is_from_me r = true ∧
      (e_archive e = db ∨
       ∃ stamp_ms r', send_edit ew chat id text = Ok stamp_ms ∧ rows (e_archive e) !! (id, JIDString chat) = Some r' ∧
         (message_edit_timestamp r < stamp_ms → deleted_at r = None → content r' = text ∧ message_edit_timestamp r' = stamp_ms) ∧
         ∀ k, k ≠ (id, JIDString chat) → rows (e_archive e) !! k = rows db !! k).
Proof.
  cbv zeta. unfold handleEditMessage, parseChatAndMessage. destruct (_ || _); [split; [done|set_solver]|].
  destruct (authorizeChat policy (trim_space (e_chat req)) false) as [chat|] eqn:Hc; [|split; [done|set_solver]].
  destruct (String.eqb_spec (trim_space (e_text req)) ""); [split; [done|set_solver]|].
  destruct (owner_fault ew); [split; [done|set_solver]|].
  destruct (rows db !! _) as [r|] eqn:Hr; [|split; [done|set_solver]].
  destruct (is_from_me r) eqn:Hown; cbn [negb]; [|split; [done|set_solver]].
  destruct (allowSendAction counted b c (JIDString chat) t) as [t' [receipt|rr retry]] eqn:Hg; [|split; [done|set_solver]].
  destruct (send_edit ew chat _ _) as [ms|err] eqn:Hse; [destruct (archive_write ew)|]; (split; [done|]);
    intros chat' id' text' Hin; cbn [edits] in Hin; apply list_elem_of_singleton in Hin as [= -> -> ->];
    split_and!; try done; (try (intros ->; eexists; unfold allowSendAction in Hg; by rewrite Hg)); exists r; (split; [done|]); (split; [done|]); [|by left..].
  right. exists ms. cbn [e_archive rows]. unfold UpdateMessageContent, edit_row. rewrite lookup_alter_eq, Hr. simpl.
  eexists. split_and!; [done|done| |intros k Hk; by rewrite lookup_alter_ne].
  intros Hlt Hdel. by rewrite (bool_decide_true _ Hlt), (bool_decide_true _ Hdel).
Qed.

End Network.
End Send.

(** ** A world to send in *)

Module Sample.
#[local] Existing Instance RefJid.ops.
#[local] Existing Instance plain_sqlite.

Definition number : RefJid.t := {| RefJid.ref_user := "15551234567"; RefJid.ref_device := ""; RefJid.ref_server := DefaultUserServer |}.

Definition policy : chatPolicy := parseChatPolicy "15551234567".

Definition no_settings : result unit runtimeSettingsSnapshot := Err tt.

Definition w : outside := {|
  online := true;
  cl := {| lids := None; GetUserInfo := λ _, Ok None; own_id := None |};
  isOnWhatsApp := λ _, ([{| Query := ""; IsIn := true; AnswerJID := number; PhoneNumber := number |}], None);
  net := {| connected := true; upload := λ _ _, Err "no upload";
            send := λ _ _, Ok {| resp_id := "3EB0"; resp_time := None; resp_chat := number; resp_sender := number |};
            read_file := λ _, Err "no file"; clock := 0 |};
  store := {| materialize := λ _, Err "media_unavailable"; uri_chat := λ _, None |};
  EvalSymlinks := λ _, None; Stat := λ _, NotRegular;
  reads := {| expired := λ _, None; quote_fault := None; settings_fault := None; reached := 0 |};
  writes := {| chat_fault := λ _, None; row_fault := λ _, None; waits := λ _, true |};
  money := {| lims := {| lim_minute := 0; lim_day := 5; lim_new_chats := 0; lim_interval := 0 |}; reserve_fault := NoFault;
              now := 0; with_settings := false; snapshot := no_settings; live := no_settings; refund_ok := true;
              refund_lims := {| lim_minute := 0; lim_day := 5; lim_new_chats := 0; lim_interval := 0 |}; refund_now := 0 |} |}.

Definition db : archive := {| rows := {[("A1", "9@g.us") := messageArgs
  {| ID := "A1"; ChatJID := "9@g.us"; Sender := "1@s.whatsapp.net"; Content := "hello"; Timestamp := 0; IsFromMe := false;
     MediaType := ""; Filename := ""; URL := ""; MediaKey := None; FileSHA256 := None; FileEncSHA256 := None; FileLength := None;
     QuotedMessageID := ""; DirectPath := ""; Presentation := None; Location := None; RetryChat := ""; RetrySender := "";
     Mentions := "" |}]}; chat_rows := ∅ |}.

Definition text (s : string) : send_request :=
  {| message := s; quotedID := ""; quotedSender := ""; quotedContent := ""; mentions := [] |}.

Definition sent_by_hand : effect :=
  handleSend (λ _, "") (λ _, "") (λ _, None) (λ _, "") (λ _, "") (λ q, q) (λ _, 0) (λ _, None) (λ _, "") policy [] w
    {| AsSticker := false; DryRunReq := false; Recipient := "+1 (555) 123-4567"; MediaPath := ""; Asked := text "hi" |}
    (new_db ∅) db.

Definition forwarded : effect :=
  handleForwardMessage (λ _, "") (λ _, "") (λ _, None) (λ _, "") (λ _, "") (λ q, q) (λ _, 0) (λ _, None) (λ _, "")
    (parseChatPolicy "15551234567,*@g.us") w
    {| download := λ _ _, Err (Http.writeError 500 ""); refreshed := λ d, d; lookup_fault := false; second_fault := false |}
    {| f_chat := "9@g.us"; f_id := "A1"; f_to := "15551234567" |} (new_db ∅) db.
End Sample.

Lemma send_guarded_witness :
  ∃ jid m, sent_messages Sample.sent_by_hand = [(jid, m)] ∧ @address_of RefJid.ops (cl Sample.w) "15551234567@s.whatsapp.net" jid.
Proof.
  destruct (@send_guarded RefJid.ops plain_sqlite (λ _, "") (λ _, "") (λ _, None) (λ _, "") (λ _, "") (λ q, q) (λ _, 0) (λ _, None) (λ _, "")
    Sample.policy [] Sample.w
    {| AsSticker := false; DryRunReq := false; Recipient := "+1 (555) 123-4567"; MediaPath := ""; Asked := Sample.text "hi" |}
    (new_db ∅) Sample.db) as [_ Hall]. destruct Hall as (_ & _ & _ & recipient & receipt & jid & m & Hp & _ & Hs & Ha & _); [vm_compute; discriminate|].
  exists jid, m. split; [exact Hs|]. vm_compute in Hs. injection Hs as <- <-.
  exists Sample.number. split; [vm_compute; reflexivity|]. left. reflexivity.
Defined.

Lemma forward_guarded_witness :
  ∃ jid m, sent_messages Sample.forwarded = [(jid, m)] ∧ text_of m = "hello".
Proof.
  destruct (@forward_guarded RefJid.ops plain_sqlite (λ _, "") (λ _, "") (λ _, None) (λ _, "") (λ _, "") (λ q, q) (λ _, 0) (λ _, None) (λ _, "")
    (parseChatPolicy "15551234567,*@g.us") Sample.w
    {| download := λ _ _, Err (Http.writeError 500 ""); refreshed := λ d, d; lookup_fault := false; second_fault := false |}
    {| f_chat := "9@g.us"; f_id := "A1"; f_to := "15551234567" |} (new_db ∅) Sample.db)
    as (_ & _ & recipient & receipt & jid & m & Hp & _ & Hs & Ha); [vm_compute; discriminate|].
  exists jid, m. split; [exact Hs|]. vm_compute in Hs. injection Hs as <- <-. reflexivity.
Defined.
