(* ===== verification/Polls.v ===== *)
(** * Polls ([polls.go])

    The poll and vote tables, the mapping of decrypted option hashes to names,
    the live vote handler, the history passes that retry votes whose secret is
    not there yet, and the tally of /api/poll.  Decryption and SHA-256 are
    parameters; the JSON columns are the lists they encode, NULL is [None].
    Times are the whole seconds the archive stores. *)
From S2P Require Import Prelude Jid Http ChatPolicy Outbound.
#[local] Open Scope Z_scope.

(** [pollCreation]. *)
Record pollCreation := { Question : string; Options : list string; SelectableCount : Z }.

(** A creation message of any version: name, option names, selectable count. *)
Record PollCreationMessage := { pc_name : string; pc_options : list string; pc_selectable : Z }.

(** [extractPollCreation]: the first version present. *)
Definition extractPollCreation (candidates : list (option PollCreationMessage)) : option pollCreation :=
  pc ← head (omap id candidates);
  Some {| Question := trim_space (pc_name pc);
          Options := filter (λ n, n ≠ "") (trim_space <$> pc_options pc);
          SelectableCount := pc_selectable pc |}.

Definition pollContent (p : pollCreation) : string :=
  "📊 " +:+ Question p +:+ " — options: " +:+ join " | " (Options p).

(** ** Tables *)

Record poll_row := { poll : pollCreation; created_at : Z }.
Record vote := { selected : option (list string); voted_at : Z }.

(** Keyed by message and chat; by message, chat and voter. *)
Record tables := {
  polls : gmap (string * string) poll_row;
  poll_votes : gmap (string * string * string) vote;
}.

Definition storePollWith (messageID chatJID : string) (p : pollCreation) (createdAt : Z) (t : tables) : tables :=
  {| polls := <[(messageID, chatJID) := {| poll := p; created_at := match polls t !! (messageID, chatJID) with
                                                                    | Some r => created_at r
                                                                    | None => createdAt
                                                                    end |}]> (polls t);
     poll_votes := poll_votes t |}.

Definition GetPoll (messageID chatJID : string) (t : tables) : option pollCreation := poll <$> polls t !! (messageID, chatJID).

(** [upsertPollVote]: an older vote changes nothing. *)
Definition upsert_vote (old : option vote) (v : vote) : vote :=
  match old with
  | Some o => if bool_decide (voted_at o ≤ voted_at v) then v else o
  | None => v
  end.

Definition upsertPollVote (k : string * string * string) (v : vote) (t : tables) : tables :=
  {| polls := polls t; poll_votes := <[k := upsert_vote (poll_votes t !! k) v]> (poll_votes t) |}.

Definition StorePollVote (pollID chatJID voter : string) (names : list string) (votedAt : Z) : tables → tables :=
  upsertPollVote (pollID, chatJID, voter) {| selected := Some names; voted_at := votedAt |}.

Definition StoreUndecodablePollVote (pollID chatJID voter : string) (votedAt : Z) : tables → tables :=
  upsertPollVote (pollID, chatJID, voter) {| selected := None; voted_at := votedAt |}.

(** ** Votes *)

Section Votes.
(** SHA-256 of an option name. *)
Context (sha256 : string → string).

(** The map of [optionNamesForHashes]: a later option of the same text wins. *)
Definition by_hash (options : list string) : gmap string string :=
  foldl (λ m name, <[hex (sha256 name) := name]> m) ∅ options.

Definition optionNamesForHashes (options hashes : list string) : list string :=
  omap (λ h, let key := hex h in
             match by_hash options !! key with
             | Some name => Some name
             | None => if bool_decide (8 ≤ String.length key)%nat then Some ("?" +:+ String.substring 0 8 key) else None
             end) hashes.

(** Why a vote could not be read. *)
Inductive vote_error : Type := SecretNotFound | OtherVoteError.

(** A vote event: the poll it names ("" for none), the voter, its second, and
    the hashes the client library decrypts. *)
Record vote_event := { ev_poll : string; ev_voter : string; ev_time : Z }.

(** [decodePollVote]: [None] when the event names no poll. *)
Definition decodePollVote (decrypted : result vote_error (list string)) (t : tables) (chatJID : string) (e : vote_event) :
    option (result vote_error (list string)) :=
  if String.eqb (ev_poll e) "" then None
  else Some (match decrypted with
             | Err err => Err err
             | Ok hashes =>
                 Ok (optionNamesForHashes (match GetPoll (ev_poll e) chatJID t with Some p => Options p | None => [] end) hashes)
             end).

Definition pollVoteContent (names : list string) : string :=
  match names with [] => "🗳️ vote retracted" | _ => "🗳️ voted: " +:+ join ", " names end.

(** What is stored of a decoded or undecodable vote. *)
Definition stored_vote (decoded : result vote_error (list string)) (at_ : Z) : vote :=
  {| selected := match decoded with Ok names => Some names | Err _ => None end; voted_at := at_ |}.

(** ** Order of history votes

    Votes of one voter on one poll: a history vote whose secret is missing waits,
    and a later vote marks it superseded.  A pending vote is a registered one or
    a superseded one. *)
Record waiting := { w_vote : vote_event; w_index : nat; superseded : bool }.

(** The table row, the pending votes with their place in the order of first
    attempts, the registered one, and the number of attempts so far. *)
Record order_state := {
  row : option vote;
  pending : list waiting;
  registered : option nat;
  attempts : nat;
}.

Definition supersede (i : nat) (ws : list waiting) : list waiting :=
  (λ x, if Nat.eqb (w_index x) i then {| w_vote := w_vote x; w_index := w_index x; superseded := true |} else x) <$> ws.

Definition time_of (i : nat) (ws : list waiting) : option Z :=
  head ((λ x, ev_time (w_vote x)) <$> filter (λ x, w_index x = i) ws).

(** [observeHistoryVote]: the new vote's [superseded] flag, the pending votes and
    the registered one. *)
Definition observeHistoryVote (at_ : Z) (new : nat) (register : bool) (s : order_state) : bool * list waiting * option nat :=
  let '(late, ws, reg) :=
    match registered s with
    | Some p =>
        if bool_decide (at_ < default 0 (time_of p (pending s))) then (true, pending s, Some p)
        else (false, supersede p (pending s), None)
    | None => (false, pending s, None)
    end in
  (late, ws, if register && negb late then Some new else reg).

(** [handlePollVote] of a live vote. *)
Definition live_vote (e : vote_event) (decoded : result vote_error (list string)) (s : order_state) : order_state :=
  let '(_, ws, reg) := observeHistoryVote (ev_time e) (attempts s) false s in
  {| row := Some (upsert_vote (row s) (stored_vote decoded (ev_time e))); pending := ws; registered := reg;
     attempts := S (attempts s) |}.

(** The write of one history vote in [storeHistoryVotePassGated]. *)
Definition write_history (late : bool) (v : vote) (r : option vote) : option vote :=
  if late then r else Some (upsert_vote r v).

(** The first attempt of [initialHistoryVotePass]; [None] is a missing secret. *)
Definition first_attempt (e : vote_event) (decoded : option (result vote_error (list string))) (s : order_state) : order_state :=
  let i := attempts s in
  let '(late, ws, reg) := observeHistoryVote (ev_time e) i true s in
  match decoded with
  | None => {| row := row s; pending := ws ++ [{| w_vote := e; w_index := i; superseded := late |}]; registered := reg; attempts := S i |}
  | Some d =>
      {| row := write_history late (stored_vote d (ev_time e)) (row s); pending := ws;
         registered := if bool_decide (reg = Some i) then None else reg; attempts := S i |}
  end.

(** A later pass decides the pending vote [i]: its names, or undecodable. *)
Definition later_attempt (i : nat) (decoded : result vote_error (list string)) (s : order_state) : order_state :=
  match filter (λ x, w_index x = i) (pending s) with
  | [] => s
  | x :: _ =>
      {| row := write_history (superseded x) (stored_vote decoded (ev_time (w_vote x))) (row s);
         pending := filter (λ x, w_index x ≠ i) (pending s);
         registered := if bool_decide (registered s = Some i) then None else registered s; attempts := attempts s |}
  end.

End Votes.

(** ** The tally of /api/poll *)

Record PollOptionTally := { Name : string; Count : nat; Voters : list string }.
Record PollVoteEntry := { Voter : string; Selected : list string; VotedAt : Z }.

Record PollResultsResponse := {
  MessageID : string; ChatJID : string; rQuestion : string; rSelectableCount : Z;
  TotalVoters : nat; UndecodableVotes : nat; rOptions : list PollOptionTally; Votes : list PollVoteEntry;
}.

(** The map [tally]: the place of the option a name counts for.  A later option
    of the same name takes the map entry. *)
Definition tally_index (names : list string) : gmap string nat :=
  foldl (λ m p, <[p.2 := p.1]> m) ∅ (imap pair names).

(** One selected name of one voter. *)
Definition count_vote (tally : gmap string nat) (voter : string) (options : list PollOptionTally) (name : string) :
    list PollOptionTally :=
  match tally !! name with
  | Some i => alter (λ t, {| Name := Name t; Count := S (Count t); Voters := Voters t ++ [voter] |}) i options
  | None => options
  end.

(** [ORDER BY voted_at], rows of one second in the order of the index. *)
Definition vote_le (a b : string * vote) : Prop :=
  voted_at a.2 < voted_at b.2 ∨ voted_at a.2 = voted_at b.2 ∧ string_le a.1 b.1.

#[export] Instance vote_le_dec : RelDecision vote_le.
Proof. intros a b. unfold vote_le. apply _. Defined.

Definition poll_rows (messageID chatJID : string) (t : tables) : list (string * vote) :=
  merge_sort vote_le
    ((λ kv, (kv.1.2, kv.2)) <$> filter (λ kv, kv.1.1 = (messageID, chatJID)) (map_to_list (poll_votes t))).

(** One row of the result loop. *)
Definition tally_row (tally : gmap string nat) (resp : PollResultsResponse) (r : string * vote) : PollResultsResponse :=
  match selected r.2 with
  | None => {| MessageID := MessageID resp; ChatJID := ChatJID resp; rQuestion := rQuestion resp; rSelectableCount := rSelectableCount resp;
               TotalVoters := TotalVoters resp; UndecodableVotes := S (UndecodableVotes resp); rOptions := rOptions resp; Votes := Votes resp |}
  | Some names =>
      {| MessageID := MessageID resp; ChatJID := ChatJID resp; rQuestion := rQuestion resp; rSelectableCount := rSelectableCount resp;
         TotalVoters := if (0 <? length names)%nat then S (TotalVoters resp) else TotalVoters resp;
         UndecodableVotes := UndecodableVotes resp;
         rOptions := foldl (count_vote tally r.1) (rOptions resp) names;
         Votes := Votes resp ++ [{| Voter := r.1; Selected := names; VotedAt := voted_at r.2 |}] |}
  end.

(** [PollResults]; [None] is [sql.ErrNoRows]. *)
Definition PollResults (messageID chatJID : string) (t : tables) : option PollResultsResponse :=
  p ← GetPoll messageID chatJID t;
  Some (foldl (tally_row (tally_index (Options p)))
          {| MessageID := messageID; ChatJID := chatJID; rQuestion := Question p; rSelectableCount := SelectableCount p;
             TotalVoters := 0; UndecodableVotes := 0;
             rOptions := (λ n, {| Name := n; Count := 0; Voters := [] |}) <$> Options p; Votes := [] |}
          (poll_rows messageID chatJID t)).

(** What the route answers. *)
Inductive poll_reply : Type :=
| PollRefused (r : Http.reply)
| PollError (status : Z) (message : string)
| PollFound (r : PollResultsResponse).

(** [handlePollResults]. *)
Definition handlePollResults `{JidOps} (policy : chatPolicy) (message_id chat_jid : string) (t : tables) : poll_reply :=
  let messageID := trim_space message_id in
  let chatJID := trim_space chat_jid in
  if String.eqb messageID "" || String.eqb chatJID ""
  then PollError Http.StatusBadRequest "message_id and chat_jid are required"
  else match authorizeChat policy chatJID false with
       | Err r => PollRefused r
       | Ok chat =>
           match PollResults messageID (JIDString chat) t with
           | None => PollError Http.StatusNotFound "no poll with that message_id in this chat"
           | Some resp => PollFound resp
           end
       end.

(** The runs of one voter's votes on one poll: [content i] is what the i-th vote
    observed turns out to be.  A live vote is observed and written in one step. *)
Inductive vote_step (content : nat → vote) : order_state → order_state → Prop :=
| step_live e d s :
    stored_vote d (ev_time e) = content (attempts s) → vote_step content s (live_vote e d s)
| step_first e d s :
    stored_vote d (ev_time e) = content (attempts s) → vote_step content s (first_attempt e (Some d) s)
| step_wait e s :
    ev_time e = voted_at (content (attempts s)) → vote_step content s (first_attempt e None s)
| step_later x d s :
    x ∈ pending s → stored_vote d (ev_time (w_vote x)) = content (w_index x) → vote_step content s (later_attempt (w_index x) d s).

Definition no_votes : order_state := {| row := None; pending := []; registered := None; attempts := 0 |}.

Section Order.
Context (content : nat → vote).

Definition ts (i : nat) : Z := voted_at (content i).

(** Vote [j] does not come after vote [k]: by second, then by arrival. *)
Definition upto (j k : nat) : Prop := ts j < ts k ∨ ts j = ts k ∧ (j ≤ k)%nat.

Lemma upto_refl j : upto j j. Proof. right. done. Qed.
Lemma upto_trans i j k : upto i j → upto j k → upto i k.
Proof. unfold upto. lia. Qed.

Record order_inv (s : order_state) (top : option nat) : Prop := {
  pending_nodup : NoDup (w_index <$> pending s);
  pending_ok : ∀ x, x ∈ pending s → (w_index x < attempts s)%nat ∧ ev_time (w_vote x) = ts (w_index x) ∧
                                    (superseded x = false → registered s = Some (w_index x));
  registered_pending : ∀ p, registered s = Some p → ∃ x, x ∈ pending s ∧ w_index x = p ∧ superseded x = false;
  registered_last : ∀ p j, registered s = Some p → (p < j < attempts s)%nat → ts j < ts p;
  row_top : row s = content <$> top;
  covered : ∀ j, (j < attempts s)%nat →
    (∃ p, registered s = Some p ∧ upto j p) ∨ (∃ k, top = Some k ∧ upto j k);
  top_old : ∀ k, top = Some k → (k < attempts s)%nat;
}.

(** The row after a vote is written. *)
Definition next_top (top : option nat) (i : nat) : nat :=
  match top with Some k => if bool_decide (ts k ≤ ts i) then i else k | None => i end.

Lemma upsert_top top i : upsert_vote (content <$> top) (content i) = content (next_top top i).
Proof. destruct top as [k|]; [|done]. unfold upsert_vote, next_top, ts. simpl. by case_bool_decide. Qed.

Lemma next_top_covers top i : (∀ k, top = Some k → (k ≤ i)%nat ∨ ts k ≠ ts i) →
  upto i (next_top top i) ∧ ∀ k, top = Some k → upto k (next_top top i).
Proof.
  intros Hk. unfold next_top, upto. destruct top as [k|]; [|split; [lia|done]].
  specialize (Hk k eq_refl). case_bool_decide; (split; [lia|]); intros k' [= <-]; lia.
Qed.

Lemma time_of_pending s top x :
  order_inv s top → x ∈ pending s → time_of (w_index x) (pending s) = Some (ts (w_index x)).
Proof.
  intros Hi Hx. unfold time_of. destruct (filter (λ y, w_index y = w_index x) (pending s)) as [|y l] eqn:Hf.
  - exfalso. assert (x ∈ filter (λ y, w_index y = w_index x) (pending s)) as Hin by (by apply list_elem_of_filter).
    rewrite Hf in Hin. set_solver.
  - assert (y ∈ filter (λ y, w_index y = w_index x) (pending s)) as [Hy Hin]%list_elem_of_filter by (rewrite Hf; set_solver).
    simpl. f_equal. destruct (pending_ok _ _ Hi y Hin) as (_ & -> & _). by rewrite Hy.
Qed.

(** What an observation leaves: the flag, the pending votes and the registered
    one, as the invariant wants them for the new vote [n = attempts s]. *)
Record observed (s : order_state) (top : option nat) (late : bool) (ws : list waiting) (reg : option nat) : Prop := {
  o_indices : w_index <$> ws = w_index <$> pending s;
  o_ok : ∀ x, x ∈ ws → (w_index x < attempts s)%nat ∧ ev_time (w_vote x) = ts (w_index x) ∧
                       (superseded x = false → reg = Some (w_index x));
  o_pending : ∀ p, reg = Some p → p ≠ attempts s → ∃ x, x ∈ ws ∧ w_index x = p ∧ superseded x = false;
  o_last : ∀ p j, reg = Some p → (p < j < S (attempts s))%nat → ts j < ts p;
  o_late : late = true → ∃ p, reg = Some p ∧ p ≠ attempts s ∧ upto (attempts s) p;
  o_covered : ∀ j, (j < attempts s)%nat →
    (∃ p, reg = Some p ∧ upto j p) ∨ (∃ k, top = Some k ∧ upto j k) ∨ upto j (attempts s) ∧ late = false;
}.

Lemma supersede_indices i ws : w_index <$> supersede i ws = w_index <$> ws.
Proof. unfold supersede. rewrite <-list_fmap_compose. apply list_fmap_ext. intros _ x _. simpl. by destruct (Nat.eqb _ _). Qed.

Lemma observe_ok s top register :
  order_inv s top →
  let '(late, ws, reg) := observeHistoryVote (ts (attempts s)) (attempts s) register s in
  observed s top late ws reg ∧ (reg = Some (attempts s) ↔ register = true ∧ late = false).
Proof.
  intros Hi. unfold observeHistoryVote. destruct (registered s) as [p|] eqn:Hreg.
  - destruct (registered_pending _ _ Hi p Hreg) as (x & Hx & Hxp & Hxs). destruct (pending_ok _ _ Hi x Hx) as (Hlt & _ & _).
    assert (time_of p (pending s) = Some (ts p)) as -> by (rewrite <-Hxp; by eapply time_of_pending).
    change (default 0 (Some (ts p))) with (ts p).
    assert (p < attempts s)%nat by lia.
    case_bool_decide as Hts.
    + cbn [negb]. rewrite andb_false_r. split; [|split; [intros [= ->]; lia|intros [_ ?]; done]]. split; try done.
      * intros y Hy. destruct (pending_ok _ _ Hi y Hy) as (? & ? & H3). rewrite Hreg in H3. done.
      * intros p' [= <-] _. eauto.
      * intros p' j [= <-] Hj. destruct (decide (j = attempts s)) as [->|]; [done|].
        apply (registered_last _ _ Hi p j Hreg). lia.
      * intros _. exists p. split_and!; [done|lia|]. left. done.
      * intros j Hj. destruct (covered _ _ Hi j Hj) as [(p' & Hp' & Hup)|Ht]; [left|right; by left].
        exists p'. rewrite Hreg in Hp'. done.
    + cbn [negb]. rewrite andb_true_r. split; [|destruct register; naive_solver]. split.
      * apply supersede_indices.
      * intros y Hy. unfold supersede in Hy. apply list_elem_of_fmap in Hy as (z & -> & Hz).
        destruct (pending_ok _ _ Hi z Hz) as (H1 & H2 & H3). rewrite Hreg in H3.
        destruct (Nat.eqb_spec (w_index z) p) as [E|E]; simpl; (split; [done|]); (split; [done|]); [done|].
        intros Hs. specialize (H3 Hs). congruence.
      * intros p' Hp' Hne. destruct register; simplify_eq.
      * intros p' j Hp' Hj. destruct register; simplify_eq. lia.
      * done.
      * intros j Hj. destruct (covered _ _ Hi j Hj) as [(p' & Hp' & Hup)|Ht]; [|right; by left].
        right. right. split; [|done]. rewrite Hreg in Hp'. injection Hp' as <-. eapply upto_trans; [exact Hup|].
        unfold upto. lia.
  - cbn [negb]. rewrite andb_true_r. split; [|destruct register; naive_solver]. split; try done.
    + intros y Hy. destruct (pending_ok _ _ Hi y Hy) as (? & ? & H3). split_and!; try done.
      intros Hs. specialize (H3 Hs). congruence.
    + intros p' Hp' Hne. destruct register; simplify_eq.
    + intros p' j Hp' Hj. destruct register; simplify_eq. lia.
    + intros j Hj. destruct (covered _ _ Hi j Hj) as [(p' & Hp' & Hup)|Ht]; [congruence|right; by left].
Qed.

(** Writing the newest vote. *)
Lemma write_new s top late ws reg :
  order_inv s top → observed s top late ws reg → reg ≠ Some (attempts s) →
  order_inv {| row := Some (upsert_vote (row s) (content (attempts s))); pending := ws; registered := reg;
               attempts := S (attempts s) |} (Some (next_top top (attempts s))).
Proof.
  intros Hi Ho Hreg. destruct (next_top_covers top (attempts s)) as [Hnew Hold].
  { intros k Hk. left. pose proof (top_old _ _ Hi k Hk). lia. }
  split; simpl.
  - rewrite (o_indices _ _ _ _ _ Ho). apply Hi.
  - intros x Hx. destruct (o_ok _ _ _ _ _ Ho x Hx) as (? & ? & ?). split_and!; [lia|done..].
  - intros p Hp. apply (o_pending _ _ _ _ _ Ho p Hp). congruence.
  - intros p j Hp Hj. by apply (o_last _ _ _ _ _ Ho p j Hp).
  - by rewrite (row_top _ _ Hi), upsert_top.
  - intros j Hj. destruct (decide (j = attempts s)) as [->|]; [right; by eexists|].
    destruct (o_covered _ _ _ _ _ Ho j ltac:(lia)) as [Hl|[(k & Hk & Hup)|[Hup _]]]; [by left|right..]; eexists; (split; [done|]).
    + eapply upto_trans; [exact Hup|by apply Hold].
    + by eapply upto_trans.
  - intros k [= <-]. unfold next_top. destruct top as [k|]; [|lia]. pose proof (top_old _ _ Hi k eq_refl).
    case_bool_decide; lia.
Qed.

Lemma index_unique (ws : list waiting) x y :
  NoDup (w_index <$> ws) → x ∈ ws → y ∈ ws → w_index y = w_index x → y = x.
Proof.
  induction ws as [|z l IH]; intros Hnd Hx Hy Heq; [by apply not_elem_of_nil in Hx|].
  cbn in Hnd. apply NoDup_cons in Hnd as [Hz Hnd].
  apply elem_of_cons in Hx as [->|Hx], Hy as [->|Hy]; [done| | |by apply IH]; destruct Hz; apply list_elem_of_fmap.
  - exists y. done.
  - exists x. done.
Qed.

Lemma drop_nodup (ws : list waiting) i : NoDup (w_index <$> ws) → NoDup (w_index <$> filter (λ y, w_index y ≠ i) ws).
Proof.
  induction ws as [|z l IH]; intros Hnd; [done|]. cbn in Hnd. apply NoDup_cons in Hnd as [Hz Hnd].
  rewrite filter_cons. destruct (decide _); [|by apply IH]. cbn. apply NoDup_cons. split; [|by apply IH].
  intros (y & Hy & [_ Hin]%list_elem_of_filter)%list_elem_of_fmap. destruct Hz. apply list_elem_of_fmap. by exists y.
Qed.

(** Dropping the pending vote [x] after its write. *)
Lemma drop_pending s top top' x r :
  order_inv s top → x ∈ pending s → r = content <$> top' →
  (∀ k, top = Some k → ∃ k', top' = Some k' ∧ upto k k') → (∀ k, top' = Some k → (k < attempts s)%nat) →
  (superseded x = false → ∃ k', top' = Some k' ∧ upto (w_index x) k') →
  order_inv {| row := r; pending := filter (λ y, w_index y ≠ w_index x) (pending s);
               registered := if bool_decide (registered s = Some (w_index x)) then None else registered s;
               attempts := attempts s |} top'.
Proof.
  intros Hi Hx -> Htop Hold Hnew.
  assert (∀ p, (if bool_decide (registered s = Some (w_index x)) then None else registered s) = Some p →
               registered s = Some p ∧ p ≠ w_index x) as Hreg by (intros p; case_bool_decide; naive_solver).
  split; simpl.
  - apply drop_nodup, Hi.
  - intros y [Hne Hy]%list_elem_of_filter. destruct (pending_ok _ _ Hi y Hy) as (H1 & H2 & H3). split_and!; [done..|].
    intros Hs. rewrite bool_decide_false; [by apply H3|]. rewrite H3 by done. congruence.
  - intros p [Hp Hne]%Hreg. destruct (registered_pending _ _ Hi p Hp) as (y & Hy & <- & Hs). exists y.
    split_and!; try done. by apply list_elem_of_filter.
  - intros p j [Hp _]%Hreg. by apply (registered_last _ _ Hi).
  - done.
  - intros j Hj. destruct (covered _ _ Hi j Hj) as [(p & Hp & Hup)|(k & Hk & Hup)].
    + destruct (decide (p = w_index x)) as [->|Hne].
      * right. destruct (registered_pending _ _ Hi _ Hp) as (y & Hy & Heq & Hs).
        rewrite (index_unique _ x y (pending_nodup _ _ Hi) Hx Hy Heq) in Hs.
        destruct (Hnew Hs) as (k' & Hk' & Hup'). exists k'. split; [done|]. by eapply upto_trans.
      * left. exists p. split; [|done]. rewrite bool_decide_false by congruence. done.
    + right. destruct (Htop k Hk) as (k' & Hk' & Hup'). exists k'. split; [done|]. by eapply upto_trans.
  - done.
Qed.

Lemma filter_index (ws : list waiting) x :
  NoDup (w_index <$> ws) → x ∈ ws → ∃ l, filter (λ y, w_index y = w_index x) ws = x :: l.
Proof.
  intros Hnd Hx. destruct (filter (λ y, w_index y = w_index x) ws) as [|y l] eqn:Hf.
  - assert (x ∈ filter (λ y, w_index y = w_index x) ws) as Hin by (by apply list_elem_of_filter).
    rewrite Hf in Hin. by apply not_elem_of_nil in Hin.
  - assert (y ∈ filter (λ y, w_index y = w_index x) ws) as [Hy Hin]%list_elem_of_filter by (rewrite Hf; set_solver).
    exists l. f_equal. by apply (index_unique ws).
Qed.

(** A first attempt with no secret: the vote joins the pending ones. *)
Lemma wait_new s top late ws reg e :
  order_inv s top → observed s top late ws reg → (reg = Some (attempts s) ↔ late = false) → ev_time e = ts (attempts s) →
  order_inv {| row := row s; pending := ws ++ [{| w_vote := e; w_index := attempts s; superseded := late |}];
               registered := reg; attempts := S (attempts s) |} top.
Proof.
  intros Hi Ho Hreg Ht. split; simpl.
  - rewrite fmap_app, (o_indices _ _ _ _ _ Ho). apply NoDup_app. split; [apply Hi|]. split; [|apply NoDup_singleton].
    intros i (x & -> & Hx)%list_elem_of_fmap Hin. apply list_elem_of_singleton in Hin. simpl in Hin.
    pose proof (pending_ok _ _ Hi x Hx). lia.
  - intros x [Hx| ->%list_elem_of_singleton]%elem_of_app.
    + destruct (o_ok _ _ _ _ _ Ho x Hx) as (? & ? & ?). split_and!; [lia|done..].
    + simpl. split_and!; [lia|done|apply Hreg].
  - intros p Hp. destruct (decide (p = attempts s)) as [->|Hne].
    + eexists. split; [apply elem_of_app; right; by apply list_elem_of_singleton|]. split; [done|]. by apply Hreg.
    + destruct (o_pending _ _ _ _ _ Ho p Hp Hne) as (x & Hx & ?). exists x. split; [|done]. apply elem_of_app. by left.
  - intros p j Hp Hj. by apply (o_last _ _ _ _ _ Ho p j Hp).
  - apply Hi.
  - assert (∀ j, upto j (attempts s) → ∃ p, reg = Some p ∧ upto j p) as Hnew.
    { intros j Hup. destruct late eqn:Hl; [|exists (attempts s); split; [by apply Hreg|done]].
      destruct (o_late _ _ _ _ _ Ho eq_refl) as (p & Hp & _ & Hup'). exists p. split; [done|]. by eapply upto_trans. }
    intros j Hj. destruct (decide (j = attempts s)) as [->|]; [left; apply Hnew, upto_refl|].
    destruct (o_covered _ _ _ _ _ Ho j ltac:(lia)) as [Hl|[Hk|[Hup _]]]; [by left|by right|left; by apply Hnew].
  - intros k Hk. pose proof (top_old _ _ Hi k Hk). lia.
Qed.

(** A first attempt decided at once after a later one was registered: only the
    bookkeeping changes. *)
Lemma skip_late s top ws reg :
  order_inv s top → observed s top true ws reg →
  order_inv {| row := row s; pending := ws; registered := reg; attempts := S (attempts s) |} top.
Proof.
  intros Hi Ho. destruct (o_late _ _ _ _ _ Ho eq_refl) as (p0 & Hp0 & Hne0 & Hup0). split; simpl.
  - rewrite (o_indices _ _ _ _ _ Ho). apply Hi.
  - intros x Hx. destruct (o_ok _ _ _ _ _ Ho x Hx) as (? & ? & ?). split_and!; [lia|done..].
  - intros p Hp. apply (o_pending _ _ _ _ _ Ho p Hp). congruence.
  - intros p j Hp Hj. by apply (o_last _ _ _ _ _ Ho p j Hp).
  - apply Hi.
  - intros j Hj. destruct (decide (j = attempts s)) as [->|]; [left; by exists p0|].
    destruct (o_covered _ _ _ _ _ Ho j ltac:(lia)) as [Hl|[Hk|[_ ?]]]; [by left|by right|done].
  - intros k Hk. pose proof (top_old _ _ Hi k Hk). lia.
Qed.

(** A vote decided at its first attempt is not kept registered. *)
Lemma unregister s top ws :
  observed s top false ws (Some (attempts s)) → observed s top false ws None.
Proof.
  intros Ho. split; try done.
  - apply Ho.
  - intros x Hx. destruct (o_ok _ _ _ _ _ Ho x Hx) as (? & ? & H3). split_and!; [done..|].
    intros Hs. specialize (H3 Hs) as [= Heq]. lia.
  - intros j Hj. destruct (o_covered _ _ _ _ _ Ho j Hj) as [(p & [= <-] & Hup)|[Hk|Hup]]; right; [by right|by left|by right].
Qed.

Lemma step_preserves s s' top : vote_step content s s' → order_inv s top → ∃ top', order_inv s' top'.
Proof.
  intros Hstep Hi. destruct Hstep as [e d s Hc|e d s Hc|e s Ht|x d s Hx Hc].
  - assert (ev_time e = ts (attempts s)) as Ht by (unfold ts; by rewrite <-Hc).
    unfold live_vote. rewrite Hc, Ht. pose proof (observe_ok s top false Hi) as Hob.
    destruct (observeHistoryVote _ _ false s) as [[late ws] reg]. destruct Hob as [Ho Hreg].
    eexists. apply (write_new s top late ws reg Hi Ho). intros E. by apply Hreg in E as [? _].
  - assert (ev_time e = ts (attempts s)) as Ht by (unfold ts; by rewrite <-Hc).
    unfold first_attempt, write_history. rewrite Hc, Ht. pose proof (observe_ok s top true Hi) as Hob.
    destruct (observeHistoryVote _ _ true s) as [[late ws] reg]. destruct Hob as [Ho Hreg]. destruct late.
    + exists top. rewrite bool_decide_false by (intros E; by apply Hreg in E as [_ ?]). by apply (skip_late s top ws reg).
    + assert (reg = Some (attempts s)) as -> by (by apply Hreg). rewrite bool_decide_true by done.
      eexists. apply (write_new s top false ws None Hi); [by apply unregister|done].
  - unfold first_attempt. change (ev_time e = ts (attempts s)) in Ht. rewrite Ht.
    pose proof (observe_ok s top true Hi) as Hob.
    destruct (observeHistoryVote _ _ true s) as [[late ws] reg]. destruct Hob as [Ho Hreg].
    exists top. apply (wait_new s top late ws reg e Hi Ho); [|done]. naive_solver.
  - unfold later_attempt. destruct (filter_index (pending s) x (pending_nodup _ _ Hi) Hx) as [l ->].
    destruct (pending_ok _ _ Hi x Hx) as (Hlt & _ & Hreg). rewrite Hc. unfold write_history. destruct (superseded x) eqn:Hs.
    + exists top. apply (drop_pending s top); try done; [apply Hi|intros k Hk; exists k; split; [done|apply upto_refl]|
        apply (top_old _ _ Hi)|congruence].
    + exists (Some (next_top top (w_index x))). rewrite (row_top _ _ Hi), upsert_top.
      destruct (next_top_covers top (w_index x)) as [Hnew Hold].
      { intros k Hk. destruct (decide (w_index x < k)%nat) as [Hk'|]; [right|left; lia].
        pose proof (registered_last _ _ Hi _ k (Hreg eq_refl)). pose proof (top_old _ _ Hi k Hk). lia. }
      apply (drop_pending s top); try done.
      * intros k Hk. eexists. split; [done|by apply Hold].
      * intros k [= <-]. unfold next_top. destruct top as [k|]; [|done]. pose proof (top_old _ _ Hi k eq_refl).
        by case_bool_decide.
      * intros _. eexists. split; [done|done].
Qed.

Lemma initial_inv : order_inv no_votes None.
Proof. split; simpl; try done; try (intros; lia). apply NoDup_nil_2. intros x Hx. by apply not_elem_of_nil in Hx. Qed.

Lemma runs_inv s : rtc (vote_step content) no_votes s → ∃ top, order_inv s top.
Proof.
  intros Hrun. assert (∃ top, order_inv no_votes top) as H0 by (exists None; apply initial_inv).
  induction Hrun as [s|s s' s'' Hs _ IH]; [done|]. destruct H0 as [top Hi]. apply IH. by eapply step_preserves.
Qed.

(** The latest vote wins.  Votes of one voter on one poll come in live or
    through history, in any order of their times, and a history vote may wait
    for its secret while later ones are decided first.  Once no vote is waiting,
    the tally row is the one vote no other comes after: the greatest second, and
    among votes of one second the last to arrive. *)
Theorem latest_vote_wins s :
  rtc (vote_step content) no_votes s → pending s = [] → (0 < attempts s)%nat →
  ∃ k, (k < attempts s)%nat ∧ row s = Some (content k) ∧ ∀ j, (j < attempts s)%nat → upto j k.
Proof.
  intros [top Hi]%runs_inv Hp Hn.
  assert (registered s = None) as Hr.
  { destruct (registered s) as [p|] eqn:Hr; [|done]. destruct (registered_pending _ _ Hi p Hr) as (x & Hx & _).
    rewrite Hp in Hx. by apply not_elem_of_nil in Hx. }
  assert (∀ j, (j < attempts s)%nat → ∃ k, top = Some k ∧ upto j k) as Hc.
  { intros j Hj. destruct (covered _ _ Hi j Hj) as [(p & Hp' & _)|?]; [congruence|done]. }
  destruct (Hc 0%nat Hn) as (k & Hk & _). exists k. split_and!.
  - by apply (top_old _ _ Hi).
  - by rewrite (row_top _ _ Hi), Hk.
  - intros j Hj. destruct (Hc j Hj) as (k' & Hk' & Hup). congruence.
Qed.
End Order.

(** ** The tally *)

Lemma tally_index_snoc names n : tally_index (names ++ [n]) = <[n := length names]> (tally_index names).
Proof. unfold tally_index. rewrite imap_app, foldl_app. simpl. by rewrite Nat.add_0_r. Qed.

(** A name counts for the last option that has it. *)
Lemma tally_index_spec names n i :
  tally_index names !! n = Some i ↔ names !! i = Some n ∧ ∀ j, (i < j)%nat → names !! j ≠ Some n.
Proof.
  induction names as [|m l IH] using rev_ind.
  - split; [done|]. intros [? _]. done.
  - rewrite tally_index_snoc. destruct (decide (m = n)) as [->|Hne].
    + rewrite lookup_insert_eq. split.
      * intros [= <-]. split; [by rewrite lookup_app_r, Nat.sub_diag by done|]. intros j Hj.
        rewrite lookup_ge_None_2; [done|]. rewrite length_app. simpl. lia.
      * intros [Hi Hlast]. destruct (decide (i = length l)) as [->|Hi']; [done|].
        apply lookup_lt_Some in Hi. rewrite length_app in Hi. simpl in Hi. destruct (Hlast (length l)); [lia|].
        by rewrite lookup_app_r, Nat.sub_diag by done.
    + rewrite lookup_insert_ne, IH by done. split; intros [Hi Hlast].
      * split; [by apply lookup_app_l_Some|]. intros j Hj Hc. apply lookup_app_Some in Hc as [Hc|[_ Hc]]; [by eapply Hlast|].
        apply list_lookup_singleton_Some in Hc as [_ ?]. done.
      * apply lookup_app_Some in Hi as [Hi|[_ Hc]]; [|apply list_lookup_singleton_Some in Hc as [_ ?]; done].
        split; [done|]. intros j Hj Hc. apply (Hlast j Hj). by apply lookup_app_l_Some.
Qed.

(** The selections of the readable rows, one pair per selected name. *)
Definition ballots (rs : list (string * vote)) : list (string * string) :=
  rs ≫= λ r, (λ n, (n, r.1)) <$> default [] (selected r.2).

(** The votes an option is credited with. *)
Definition credit (names : list string) (i : nat) (bs : list (string * string)) : list string :=
  snd <$> filter (λ b, tally_index names !! b.1 = Some i) bs.

Lemma count_votes_lookup names voter sel (opts : list PollOptionTally) i t :
  opts !! i = Some t →
  foldl (count_vote (tally_index names) voter) opts sel !! i =
    Some {| Name := Name t; Count := Count t + length (credit names i ((λ n, (n, voter)) <$> sel));
            Voters := Voters t ++ credit names i ((λ n, (n, voter)) <$> sel) |}.
Proof.
  unfold credit. revert opts t. induction sel as [|n l IH]; intros opts t Ht; cbn [foldl fmap list_fmap].
  - rewrite Ht. destruct t. simpl. by rewrite Nat.add_0_r, app_nil_r.
  - rewrite filter_cons. cbn [fst]. unfold count_vote at 2. destruct (tally_index names !! n) as [k|] eqn:Hk.
    + destruct (decide (k = i)) as [->|Hne].
      * rewrite decide_True by done. erewrite IH; [|by rewrite list_lookup_alter_eq, Ht]. cbn. f_equal.
        f_equal; [lia|]. by rewrite <-app_assoc.
      * rewrite decide_False by congruence. apply IH. by rewrite list_lookup_alter_ne.
    + rewrite decide_False by done. by apply IH.
Qed.

(** What the result loop has after the rows [rs], from the response [resp]. *)
Lemma tally_rows_lookup names rs resp i t :
  rOptions resp !! i = Some t →
  rOptions (foldl (tally_row (tally_index names)) resp rs) !! i =
    Some {| Name := Name t; Count := Count t + length (credit names i (ballots rs)); Voters := Voters t ++ credit names i (ballots rs) |}.
Proof.
  revert resp t. induction rs as [|r l IH]; intros resp t Ht; cbn [foldl].
  - rewrite Ht. destruct t. cbn. by rewrite Nat.add_0_r, app_nil_r.
  - unfold ballots. cbn [mbind list_bind]. fold (ballots l). unfold tally_row at 2.
    destruct (selected r.2) as [sel|]; [|by apply IH].
    erewrite IH; [|apply count_votes_lookup, Ht]. change (default [] (Some sel)) with sel.
    unfold credit. rewrite filter_app, fmap_app, length_app. cbn. f_equal. f_equal; [lia|]. by rewrite <-app_assoc.
Qed.

Lemma foldl_count_length tally voter sel opts : length (foldl (count_vote tally voter) opts sel) = length opts.
Proof.
  revert opts. induction sel as [|n l IH]; intros opts; [done|]. cbn. rewrite IH. unfold count_vote.
  destruct (tally !! n); [apply length_alter|done].
Qed.

Definition readable (r : string * vote) : Prop := selected r.2 ≠ None.
#[local] Instance readable_dec r : Decision (readable r).
Proof. unfold readable. apply _. Defined.

Definition voting (r : string * vote) : Prop := default [] (selected r.2) ≠ [].
#[local] Instance voting_dec r : Decision (voting r).
Proof. unfold voting. apply _. Defined.

Lemma tally_rows_totals tally rs resp :
  let out := foldl (tally_row tally) resp rs in
  length (rOptions out) = length (rOptions resp)
  ∧ (UndecodableVotes out = UndecodableVotes resp + length (filter (λ r, ¬ readable r) rs))%nat
  ∧ (TotalVoters out = TotalVoters resp + length (filter voting rs))%nat
  ∧ Voter <$> Votes out = (Voter <$> Votes resp) ++ (fst <$> filter readable rs).
Proof.
  revert resp. induction rs as [|r l IH]; intros resp; cbn [foldl].
  - cbn. rewrite app_nil_r. split_and!; [done|lia|lia|done].
  - destruct (IH (tally_row tally resp r)) as (-> & -> & -> & ->). rewrite !filter_cons. unfold tally_row.
    destruct (selected r.2) as [sel|] eqn:Hsel.
    + assert (readable r) as Hr by (unfold readable; by rewrite Hsel).
      destruct (decide (¬ readable r)) as [Hn|_]; [done|]. destruct (decide (readable r)) as [_|Hn]; [|done].
      cbn [rOptions UndecodableVotes TotalVoters Votes fmap list_fmap].
      rewrite foldl_count_length, fmap_app, <-app_assoc. split_and!; [done..| |done].
      assert (voting r ↔ sel ≠ []) as Hv by (unfold voting; by rewrite Hsel).
      destruct (decide (voting r)) as [Hy|Hn]; rewrite Hv in *; destruct sel; try done; cbn; try lia. by destruct Hn.
    + assert (¬ readable r) as Hr by (unfold readable; rewrite Hsel; naive_solver).
      assert (¬ voting r) as Hv by (unfold voting; rewrite Hsel; naive_solver).
      destruct (decide (¬ readable r)) as [_|Hn]; [|done]. destruct (decide (readable r)) as [Hn|_]; [done|].
      destruct (decide (voting r)) as [Hn|_]; [done|]. cbn [rOptions UndecodableVotes TotalVoters Votes length].
      split_and!; [done|lia|done..].
Qed.

Lemma poll_rows_spec messageID chatJID t r :
  r ∈ poll_rows messageID chatJID t ↔ poll_votes t !! (messageID, chatJID, r.1) = Some r.2.
Proof.
  unfold poll_rows. rewrite merge_sort_Permutation, list_elem_of_fmap. split.
  - intros ([[[a b] c] v] & -> & [Hk Hin]%list_elem_of_filter). cbn in *. injection Hk as -> ->. by apply elem_of_map_to_list in Hin.
  - intros Hr. exists ((messageID, chatJID, r.1), r.2). split; [by destruct r|]. apply list_elem_of_filter. split; [done|].
    by apply elem_of_map_to_list.
Qed.

Lemma filter_split {A} (P : A → Prop) `{∀ x, Decision (P x)} (l : list A) :
  (length (filter (λ x, ¬ P x) l) + length (filter P l) = length l)%nat.
Proof.
  induction l as [|x l IH]; [done|]. rewrite !filter_cons.
  destruct (decide (¬ P x)), (decide (P x)); cbn [length]; try done; lia.
Qed.

(** Who an option is credited with. *)
Lemma credit_spec messageID chatJID t names i n voter (Hn : names !! i = Some n) :
  voter ∈ credit names i (ballots (poll_rows messageID chatJID t)) ↔
    (∃ v sel, poll_votes t !! (messageID, chatJID, voter) = Some v ∧ selected v = Some sel ∧ n ∈ sel)
    ∧ ∀ j, (i < j)%nat → names !! j ≠ Some n.
Proof.
  unfold credit, ballots. rewrite list_elem_of_fmap. split.
  - intros ([m w] & -> & [Hm ([x v] & Hin & Hr)%list_elem_of_bind]%list_elem_of_filter). cbn in *.
    apply list_elem_of_fmap in Hin as (m' & [= -> ->] & Hin). apply poll_rows_spec in Hr. cbn in Hr.
    apply tally_index_spec in Hm as [Hm Hlast]. assert (m' = n) as -> by congruence. split; [|done].
    exists v. destruct (selected v) as [sel|]; [|by apply not_elem_of_nil in Hin]. by exists sel.
  - intros [(v & sel & Hv & Hsel & Hin) Hlast]. exists (n, voter). split; [done|]. apply list_elem_of_filter.
    split; [by apply tally_index_spec|]. apply list_elem_of_bind. exists (voter, v). cbn. rewrite Hsel. split.
    + apply list_elem_of_fmap. by exists n.
    + by apply poll_rows_spec.
Qed.

(** The tally is exact.  The options keep their order and names; an option's
    count is the number of voters it lists, and it lists exactly the voters whose
    stored vote is readable and selects its name, for the last option of that
    name.  The readable votes and the undecodable ones together are the stored
    votes, and the voters counted are those whose vote selects something. *)
Theorem poll_tally_exact messageID chatJID t p (Hp : GetPoll messageID chatJID t = Some p) :
  ∃ resp, PollResults messageID chatJID t = Some resp
  ∧ Name <$> rOptions resp = Options p
  ∧ (∀ i o, rOptions resp !! i = Some o →
      Count o = length (Voters o)
      ∧ ∀ voter, voter ∈ Voters o ↔
          (∃ v names, poll_votes t !! (messageID, chatJID, voter) = Some v ∧ selected v = Some names ∧ Name o ∈ names)
          ∧ ∀ j, (i < j)%nat → Options p !! j ≠ Some (Name o))
  ∧ (TotalVoters resp = length (filter voting (poll_rows messageID chatJID t)))%nat
  ∧ (UndecodableVotes resp + length (Votes resp) = length (poll_rows messageID chatJID t))%nat.
Proof.
  unfold PollResults. rewrite Hp. cbn [mbind option_bind]. eexists. split; [done|].
  set (init := {| MessageID := _ |}). set (rs := poll_rows messageID chatJID t).
  destruct (tally_rows_totals (tally_index (Options p)) rs init) as (Hlen & Hund & Htot & Hvotes).
  set (out := foldl _ init rs) in *.
  assert (∀ i n, Options p !! i = Some n → rOptions out !! i =
    Some {| Name := n; Count := length (credit (Options p) i (ballots rs)); Voters := credit (Options p) i (ballots rs) |}) as Hopt.
  { intros i n Hn. unfold out. erewrite tally_rows_lookup by (cbn; by rewrite list_lookup_fmap, Hn). done. }
  split_and!.
  - apply list_eq_same_length with (length (Options p)).
    + done.
    + rewrite length_fmap, Hlen. apply length_fmap.
    + intros i x y _ Hx Hy. rewrite list_lookup_fmap, (Hopt i y Hy) in Hx. by injection Hx.
  - intros i o Ho.
    assert (∃ n, Options p !! i = Some n) as [n Hn].
    { apply lookup_lt_is_Some. apply lookup_lt_Some in Ho. rewrite Hlen in Ho. cbn in Ho. by rewrite length_fmap in Ho. }
    rewrite (Hopt i n Hn) in Ho. injection Ho as <-. cbn. split; [done|]. intros voter. by apply credit_spec.
  - by rewrite Htot.
  - rewrite Hund. change (UndecodableVotes init) with 0%nat. rewrite <-(length_fmap Voter), Hvotes. cbn. rewrite length_fmap.
    apply filter_split.
Qed.

(** A poll with two voters, one of them undecodable, and an option listed twice. *)
Definition sample : tables :=
  StorePollVote "P" "1@g.us" "10" ["b"; "a"] 5
    (StoreUndecodablePollVote "P" "1@g.us" "11" 6
      (storePollWith "P" "1@g.us" {| Question := "q"; Options := ["a"; "b"; "a"]; SelectableCount := 2 |} 1
        {| polls := ∅; poll_votes := ∅ |})).

Lemma poll_tally_exact_witness :
  ∃ resp, PollResults "P" "1@g.us" sample = Some resp ∧ Count <$> rOptions resp = [0; 1; 1]%nat
  ∧ (UndecodableVotes resp + length (Votes resp) = length (poll_rows "P" "1@g.us" sample))%nat.
Proof.
  destruct (poll_tally_exact "P" "1@g.us" sample {| Question := "q"; Options := ["a"; "b"; "a"]; SelectableCount := 2 |})
    as (resp & Hr & _ & _ & _ & Hsum); [vm_compute; reflexivity|].
  exists resp. split; [exact Hr|]. split; [|exact Hsum]. vm_compute in Hr. injection Hr as <-. reflexivity.
Defined.

(** Two votes of one second: the first waits for its secret, the second is
    decided at once, and the first is then read but not stored. *)
Definition two_votes (i : nat) : vote :=
  {| selected := Some (match i with O => ["a"] | _ => ["b"] end); voted_at := 7 |}.

Definition two_votes_run : order_state :=
  later_attempt 0 (Ok ["a"])
    (first_attempt {| ev_poll := "P"; ev_voter := "10"; ev_time := 7 |} (Some (Ok ["b"]))
      (first_attempt {| ev_poll := "P"; ev_voter := "10"; ev_time := 7 |} None no_votes)).

Lemma latest_vote_wins_witness :
  ∃ k, (k < 2)%nat ∧ Some {| selected := Some ["b"]; voted_at := 7 |} = Some (two_votes k) ∧ ∀ j, (j < 2)%nat → upto two_votes j k.
Proof.
  apply (latest_vote_wins two_votes two_votes_run); [|reflexivity|vm_compute; lia].
  pose (e := {| ev_poll := "P"; ev_voter := "10"; ev_time := 7 |}).
  eapply rtc_l; [apply (step_wait two_votes e); reflexivity|].
  eapply rtc_l; [apply (step_first two_votes e (Ok ["b"])); reflexivity|].
  eapply rtc_l; [|apply rtc_refl].
  refine (step_later two_votes {| w_vote := {| ev_poll := "P"; ev_voter := "10"; ev_time := 7 |}; w_index := 0; superseded := true |} (Ok ["a"]) _ _ _).
  - apply list_elem_of_singleton. reflexivity.
  - reflexivity.
Defined.
