(* ===== verification/ChatActions.v ===== *)
(** * Labels, filing and chat actions

    [Labels] ([labels.go]): the label tables, their order of app-state mutations
    and the listing.  [AppState] ([labels.go], [chat_archive.go]): the handlers
    that send an app-state patch and the classes of its outcome.  [Actions]
    ([delete_message.go], [chat_actions.go]): deletion, reactions and typing.
    The network, the LID store and SQLite's faults are arguments. *)
From S2P Require Import Prelude Jid Http ChatPolicy SendLimits StoreTime Messages Archive MarkRead Send.
#[local] Open Scope Z_scope.

Module Labels.

(** A row of [labels]; [predefined_id] may be NULL. *)
Record label := {
  name : string; color : Z; deleted : bool; updated_at : Z; action_ms : Z;
  type_ : Z; immutable : bool; predefined_id : option Z;
}.

(** A row of [chat_labels]. *)
Record association := { labeled : bool; a_updated_at : Z; a_action_ms : Z }.

Record label_tables := {
  labels : gmap string label;
  chat_labels : gmap (string * string) association;
}.

(** The events of the client library; times are nanoseconds. *)
Record LabelAction := {
  Name : string; Color : Z; Deleted : bool; Type_ : Z; IsImmutable : bool; PredefinedID : option Z;
}.
Record LabelEdit := { e_LabelID : string; e_Timestamp : Z; e_Action : option LabelAction }.

Definition unix_milli (t : Z) : Z := t / 10 ^ 6.

(** The row [storeLabel] inserts. *)
Definition label_of (at_ : Z) (a : LabelAction) : label :=
  {| name := Name a; color := Color a; deleted := Deleted a; updated_at := stamp at_; action_ms := unix_milli at_;
     type_ := Type_ a; immutable := IsImmutable a; predefined_id := PredefinedID a |}.

(** The conflict clause of [storeLabel]: a newer mutation wins, and at the same
    millisecond anything but the revival of a deleted label. *)
Definition upsert_label (old : option label) (new : label) : label :=
  match old with
  | None => new
  | Some o =>
      if bool_decide (action_ms o < action_ms new)
         || bool_decide (action_ms new = action_ms o) && (deleted new || negb (deleted o))
      then {| name := if deleted new && String.eqb (name new) "" then name o else name new;
              color := color new; deleted := deleted new; updated_at := updated_at new; action_ms := action_ms new;
              type_ := type_ new; immutable := immutable new; predefined_id := predefined_id new |}
      else o
  end.

Definition storeLabel (id : string) (at_ : Z) (a : LabelAction) (t : label_tables) : label_tables :=
  {| labels := <[id := upsert_label (labels t !! id) (label_of at_ a)]> (labels t); chat_labels := chat_labels t |}.

(** The conflict clause of [storeChatLabel]. *)
Definition upsert_association (old : option association) (new : association) : association :=
  match old with
  | None => new
  | Some o =>
      if bool_decide (a_action_ms o < a_action_ms new)
         || bool_decide (a_action_ms new = a_action_ms o) && (negb (labeled new) || labeled o)
      then new else o
  end.

Definition association_of (at_ : Z) (on : bool) : association :=
  {| labeled := on; a_updated_at := stamp at_; a_action_ms := unix_milli at_ |}.

Definition storeChatLabel (chat id : string) (at_ : Z) (on : bool) (t : label_tables) : label_tables :=
  {| labels := labels t;
     chat_labels := <[(chat, id) := upsert_association (chat_labels t !! (chat, id)) (association_of at_ on)]> (chat_labels t) |}.

Definition recordLabel (e : LabelEdit) (t : label_tables) : label_tables :=
  match e_Action e with
  | Some a => if String.eqb (e_LabelID e) "" then t else storeLabel (e_LabelID e) (e_Timestamp e) a t
  | None => t
  end.

(** [recordChatLabel]: [action] is the label switch, [None] for a nil action. *)
Definition recordChatLabel `{JidOps} (jid : JID) (id : string) (at_ : Z) (action : option bool) (t : label_tables) : label_tables :=
  match action with
  | Some on =>
      if String.eqb id "" || String.eqb (User jid) "" || String.eqb (Server jid) "" then t
      else storeChatLabel (JIDString (ToNonAD jid)) id at_ on t
  | None => t
  end.

(** The association that decides for the chats: the newest, unlabelled first at
    the same millisecond ([ORDER BY c.action_ms DESC, c.labeled ASC LIMIT 1]). *)
Definition first_of (a b : association) : association :=
  if bool_decide (a_action_ms a < a_action_ms b) || bool_decide (a_action_ms a = a_action_ms b) && negb (labeled b) then b else a.

Definition deciding (as_ : list association) : option association :=
  match as_ with [] => None | a :: l => Some (foldl first_of a l) end.

(** [listLabels]: no chat lists every label. *)
Definition listed (chats : list string) (includeDeleted : bool) (t : label_tables) (id : string) (l : label) : bool :=
  (negb (deleted l) || includeDeleted)
  && (bool_decide (chats = [])
      || match deciding (omap (λ c, chat_labels t !! (c, id)) (take 2 chats)) with Some a => labeled a | None => false end).

Definition id_le (a b : string * label) : Prop := string_le a.1 b.1.
#[export] Instance id_le_dec : RelDecision id_le.
Proof. intros a b. unfold id_le. apply _. Defined.

Definition listLabels (chats : list string) (includeDeleted : bool) (t : label_tables) : list (string * label) :=
  merge_sort id_le (filter (λ kl, listed chats includeDeleted t kl.1 kl.2 = true) (map_to_list (labels t))).

(** The chats of a request: the authorised one and its twin when the policy
    admits it ([handleLabels]); [None] is a twin function that is nil or fails. *)
Definition label_chats `{JidOps} (policy : chatPolicy) (twin : JID → option JID) (jid : JID) : list string :=
  JIDString jid ::
  match twin jid with
  | Some other =>
      if negb (IsEmpty other) && negb (String.eqb (JIDString other) (JIDString jid)) && Allows policy (JIDString other)
      then [JIDString other] else []
  | None => []
  end.

(** [handleLabels]: [chat] is the first chat_jid of the query, if there is one. *)
Definition handleLabels `{JidOps} (policy : chatPolicy) (twin : JID → option JID) (chat : option string) (include : string)
    (t : label_tables) : result Http.reply (list (string * label)) :=
  match match chat with
        | None => Ok []
        | Some raw => match authorizeChat policy raw false with
                      | Err r => Err r
                      | Ok jid => Ok (label_chats policy twin jid)
                      end
        end with
  | Err r => Err r
  | Ok chats =>
      if negb (String.eqb include "") && negb (String.eqb include "0") && negb (String.eqb include "1")
      then Err (Http.writeError 400 "include_deleted must be 0 or 1")
      else Ok (listLabels chats (String.eqb include "1") t)
  end.

(** One mutation as it arrives. *)
Inductive mutation : Type :=
| EditLabel (e : LabelEdit)
| LabelChat (chat id : string) (at_ : Z) (on : bool).

Definition record (t : label_tables) (m : mutation) : label_tables :=
  match m with
  | EditLabel e => recordLabel e t
  | LabelChat chat id at_ on => storeChatLabel chat id at_ on t
  end.

(** ** Mutations in any order *)

Lemma association_eq at1 at2 on : unix_milli at1 = unix_milli at2 → association_of at1 on = association_of at2 on.
Proof.
  intros Heq. unfold association_of. rewrite Heq. f_equal. unfold stamp, unix_milli in *.
  Z.to_euclidean_division_equations; lia.
Qed.

Lemma upsert_association_comm o at1 on1 at2 on2 :
  upsert_association (Some (upsert_association o (association_of at1 on1))) (association_of at2 on2) =
  upsert_association (Some (upsert_association o (association_of at2 on2))) (association_of at1 on1).
Proof.
  pose proof (association_eq at1 at2 on1) as Heq. unfold association_of in *.
  destruct o as [[on ? ?]|]; unfold upsert_association; simpl; destruct on1, on2; try destruct on; simpl;
    repeat (case_bool_decide; simpl in *; try lia); try done; (by rewrite Heq by lia) || (by rewrite <-Heq by lia).
Qed.

(** The part of a label row that decides its visibility. *)
Definition state_of (l : label) : Z * bool := (action_ms l, deleted l).

Definition upsert_state (o : option (Z * bool)) (n : Z * bool) : Z * bool :=
  match o with
  | None => n
  | Some o => if bool_decide (o.1 < n.1) || bool_decide (n.1 = o.1) && (n.2 || negb o.2) then n else o
  end.

Lemma upsert_label_state o n : state_of (upsert_label o n) = upsert_state (state_of <$> o) (state_of n).
Proof. destruct o as [o|]; [|done]. unfold upsert_label, upsert_state. simpl. by destruct (_ || _). Qed.

Lemma upsert_state_comm o m n : upsert_state (Some (upsert_state o m)) n = upsert_state (Some (upsert_state o n)) m.
Proof.
  destruct m as [i a], n as [j b]. destruct o as [[k c]|]; unfold upsert_state; simpl; destruct a, b; try destruct c; simpl;
    repeat (case_bool_decide; simpl in *; try lia); try done; f_equal; lia.
Qed.

(** Two table contents a listing cannot tell apart. *)
Definition same_view (t t' : label_tables) : Prop :=
  chat_labels t = chat_labels t' ∧ ∀ id, state_of <$> labels t !! id = state_of <$> labels t' !! id.

#[export] Instance same_view_equiv : Equivalence same_view.
Proof.
  split.
  - by intros t.
  - intros t t' [H1 H2]. split; [done|]. intros id. by rewrite H2.
  - intros t t' t'' [H1 H2] [H3 H4]. split; [congruence|]. intros id. by rewrite H2.
Qed.

Lemma edit_state id at_ a t k :
  state_of <$> labels (storeLabel id at_ a t) !! k =
  if decide (k = id) then Some (upsert_state (state_of <$> labels t !! id) (state_of (label_of at_ a))) else state_of <$> labels t !! k.
Proof.
  unfold storeLabel. cbn [labels]. destruct (decide (k = id)) as [->|Hne].
  - by rewrite lookup_insert_eq, <-upsert_label_state.
  - by rewrite lookup_insert_ne.
Qed.

#[export] Instance record_proper : Proper (same_view ==> (=) ==> same_view) record.
Proof.
  intros t t' [H1 H2] m _ <-. destruct m as [e|chat id at_ on]; simpl.
  - unfold recordLabel. destruct (e_Action e) as [a|]; [|done]. destruct (String.eqb _ _); [done|]. split; [done|].
    intros k. rewrite !edit_state. case_decide; [by rewrite H2|done].
  - split; [|done]. unfold storeChatLabel. simpl. by rewrite H1.
Qed.

Lemma record_comm t m n : same_view (record (record t m) n) (record (record t n) m).
Proof.
  destruct m as [[i1 ? ?]|chat id at_ on], n as [[i2 ? ?]|chat' id' at' on']; simpl; unfold recordLabel; simpl; repeat (case_match; try done).
  - split; [done|]. intros k. rewrite !edit_state. repeat case_decide; subst; try congruence; try done. by rewrite upsert_state_comm.
  - split; [|done]. unfold storeChatLabel. cbn [chat_labels].
    destruct (decide ((chat, id) = (chat', id'))) as [E|Hne].
    + injection E as -> ->. by rewrite !lookup_insert_eq, !insert_insert_eq, upsert_association_comm.
    + rewrite !lookup_insert_ne by congruence. by apply insert_insert_ne.
Qed.

Lemma records_proper l t t' : same_view t t' → same_view (foldl record t l) (foldl record t' l).
Proof. revert t t'. induction l as [|m l IH]; intros t t' Ht; [done|]. simpl. apply IH. by rewrite Ht. Qed.

Lemma records_permutation l l' t : l ≡ₚ l' → same_view (foldl record t l) (foldl record t l').
Proof.
  intros Hp. revert t. induction Hp as [|m l l' _ IH|m n l|l l' l'' _ IH1 _ IH2]; intros t; simpl; [done| | |].
  - apply IH.
  - apply records_proper, record_comm.
  - etrans; [apply IH1|apply IH2].
Qed.

Lemma listed_ids t chats inc id :
  id ∈ (listLabels chats inc t).*1 ↔ ∃ l, labels t !! id = Some l ∧ listed chats inc t id l = true.
Proof.
  unfold listLabels. rewrite list_elem_of_fmap. split.
  - intros ([k l] & -> & Hin). rewrite merge_sort_Permutation in Hin. apply list_elem_of_filter in Hin as [Hl Hin].
    apply elem_of_map_to_list in Hin. by exists l.
  - intros (l & Hl & Hlist). exists (id, l). split; [done|]. rewrite merge_sort_Permutation. apply list_elem_of_filter.
    split; [done|]. by apply elem_of_map_to_list.
Qed.

Lemma same_view_listed t t' chats inc id :
  same_view t t' → id ∈ (listLabels chats inc t).*1 → id ∈ (listLabels chats inc t').*1.
Proof.
  intros [H1 H2] (l & Hl & Hlist)%listed_ids. apply listed_ids. specialize (H2 id). rewrite Hl in H2.
  destruct (labels t' !! id) as [l'|]; [|done]. injection H2 as _ Hd. exists l'. split; [done|].
  unfold listed in *. by rewrite <-H1, <-Hd.
Qed.

(** Labels converge.  Label edits and chat associations may arrive in any
    order, as live mutations and full snapshots interleave: which labels are
    listed, for which chats, and which of them are deleted depends only on the
    set of mutations that arrived. *)
Theorem labels_converge (l l' : list mutation) (t : label_tables) (Hp : l ≡ₚ l') :
  let u := foldl record t l in
  let u' := foldl record t l' in
  chat_labels u = chat_labels u'
  ∧ (∀ id, deleted <$> labels u !! id = deleted <$> labels u' !! id)
  ∧ ∀ chats inc id, id ∈ (listLabels chats inc u).*1 ↔ id ∈ (listLabels chats inc u').*1.
Proof.
  intros u u'. assert (same_view u u') as Hv by (by apply records_permutation). split_and!.
  - apply Hv.
  - intros id. pose proof (proj2 Hv id) as Hs. destruct (labels u !! id), (labels u' !! id); try done. injection Hs as _ Hd. simpl. by rewrite Hd.
  - intros chats inc id. split; apply same_view_listed; [done|by symmetry].
Qed.

(** A label that two devices delete and revive in one millisecond. *)
Definition action (n : string) (d : bool) : LabelAction :=
  {| Name := n; Color := 1; Deleted := d; Type_ := 0; IsImmutable := false; PredefinedID := None |}.
Definition edit (id n : string) (d : bool) (at_ : Z) : mutation :=
  EditLabel {| e_LabelID := id; e_Timestamp := at_; e_Action := Some (action n d) |}.
Definition history : list mutation :=
  [edit "1" "" true 5000000; edit "1" "work" false 5000001; edit "2" "home" false 9; LabelChat "9@g.us" "2" 5 true; LabelChat "9@g.us" "2" 3 true].
Definition no_labels : label_tables := {| labels := ∅; chat_labels := ∅ |}.

Lemma labels_converge_witness :
  (listLabels [] false (foldl record no_labels history)).*1 = ["2"] ∧ "2" ∈ (listLabels [] false (foldl record no_labels (reverse history))).*1.
Proof.
  split; [vm_compute; reflexivity|].
  destruct (labels_converge history (reverse history) no_labels (symmetry (reverse_Permutation history))) as (_ & _ & Hl).
  refine (proj1 (Hl [] false "2") _). vm_compute. left.
Defined.

End Labels.

Module AppState.
Section AppState.
Context `{JidOps}.

(** The key of a message in a patch; [Participant] is set in groups. *)
Record MessageKey := { KeyID : string; KeyFromMe : bool; RemoteJID : string; Participant : option string }.

(** [appstate.PatchInfo] as the two handlers build it; the time is in seconds. *)
Inductive patch : Type :=
| LabelPatch (target : JID) (label : string) (on : bool)
| ArchivePatch (target : JID) (archived : bool) (ts : Z) (anchor : MessageKey).

(** An error of the app-state writer: the type [appStateNotSentError], its text,
    and whether it is [ErrAppStateUpdate] or [ErrNotConnected]. *)
Record app_error := { not_sent : bool; text : string; refused : bool }.

Inductive app_reply : Type :=
| Failed (r : Http.reply)
| Patched (warning : bool).

Definition accepted_prefix : string := "failed to fetch app state after sending update:".
Definition no_keys : string := "no app state keys found, creating app state keys is not yet supported".

Definition writeAppStateResult (err : option app_error) (action : string) : app_reply :=
  match err with
  | None => Patched false
  | Some e =>
      if not_sent e then
        Failed (Http.writeErrorCode 408 "bridge_unavailable" (action +:+ " request expired waiting for writer; nothing sent; safe to retry"))
      else if has_prefix accepted_prefix (text e) then Patched true
      else if refused e || String.eqb (text e) no_keys then
        Failed (Http.writeErrorCode 503 "bridge_unavailable"
                  (action +:+ " was not applied; safe to retry after resolving the bridge error: " +:+ text e))
      else Failed (Http.writeError 502 (action +:+ " outcome is unknown; do not retry automatically: " +:+ text e))
  end.

(** [withAppStateWriter]: [acquired] when the gate opened before the deadline,
    [late] when the deadline passed meanwhile. *)
Definition withAppStateWriter {A} (acquired late : bool) (ended : string) (operation : A → option app_error) (a : A) :
    list A * option app_error :=
  if acquired && negb late then ([a], operation a)
  else ([], Some {| not_sent := true; text := ended; refused := false |}).

(** What a request meets: the connection, the deadline at each check, the LID
    resolution, the twin of a chat, a fault of the query and the writer. *)
Record world := {
  connected : bool;
  ended : nat → bool;
  resolve : string → result string JID;
  twin : JID → option JID;
  query_fault : option string;
  acquired : bool;
  late : bool;
  SendAppState : patch → option app_error;
}.

Record app_effect := { a_reply : app_reply; patches : list patch }.

Definition stopped (r : Http.reply) : app_effect := {| a_reply := Failed r; patches := [] |}.
Definition stop (st : Z) (msg : string) : app_effect := stopped (Http.writeError st msg).
Definition offline : string := "WhatsApp client is not connected. Please wait for reconnection.".
Definition expired_before (action : string) : app_effect :=
  stopped (Http.writeErrorCode 408 "bridge_unavailable" (action +:+ " request expired before send; nothing sent; safe to retry")).

(** [sendAppState] and its reply. *)
Definition send_patch (w : world) (action : string) (p : patch) : app_effect :=
  let '(out, err) := withAppStateWriter (acquired w) (late w) "context deadline exceeded" (SendAppState w) p in
  {| a_reply := writeAppStateResult err action; patches := out |}.

Definition filed (j : JID) : bool :=
  String.eqb (Server j) DefaultUserServer || String.eqb (Server j) HiddenUserServer || String.eqb (Server j) GroupServer.

Definition usable (r : result string JID) : option JID :=
  match r with
  | Ok j => if String.eqb (User j) "" || String.eqb (Server j) "" then None else Some j
  | Err _ => None
  end.

(** [handleLabelChat]; [None] is a body that does not decode. *)
Record labelRequest := { l_chat : string; l_id : string; l_on : option bool }.

Definition handleLabelChat (policy : chatPolicy) (w : world) (body : option labelRequest) (t : Labels.label_tables) : app_effect :=
  match body with
  | None => stop 400 "Invalid request format"
  | Some req =>
      let id := trim_space (l_id req) in
      match l_on req with
      | None => stop 400 "Valid chat_jid, label_id and labeled boolean are required"
      | Some on =>
          if String.eqb id "" then stop 400 "Valid chat_jid, label_id and labeled boolean are required" else
          match authorizeChat policy (trim_space (l_chat req)) false with
          | Err r => stopped r
          | Ok chat =>
              if negb (filed chat) then stop 400 "Only direct chats and groups can be labelled" else
              if negb (connected w) then stop 503 offline else
              if ended w 0 then expired_before "Label" else
              match query_fault w, Labels.labels t !! id with
              | Some e, _ => stop 500 ("Cannot read label cache: " +:+ e)
              | None, None => stop 404 "Unknown or deleted label"
              | None, Some l =>
                  if Labels.deleted l then stop 404 "Unknown or deleted label" else
                  if Labels.immutable l then stop 400 "Label is immutable and cannot be applied or removed" else
                  let r := resolve w (JIDString chat) in
                  if ended w 1 then expired_before "Label" else
                  match usable r with
                  | None => stop 400 "Cannot resolve chat_jid"
                  | Some target => send_patch w "Chat label" (LabelPatch target id on)
                  end
              end
          end
      end
  end.

(** *** Filing *)

(** Rows an archive anchor may name: neither a reaction nor a vote. *)
Definition anchor_row (chats : list string) (kr : key * message_row) : bool :=
  bool_decide (kr.1.2 ∈ chats) && negb (bool_decide (media_type kr.2 ∈ ["reaction"; "poll_vote"])).

(** [ORDER BY timestamp DESC, rowid DESC]: [a] comes after [b]. *)
Definition after (rowid : key → Z) (a b : key * message_row) : bool :=
  bool_decide (timestamp b.2 < timestamp a.2)
  || bool_decide (timestamp b.2 = timestamp a.2) && bool_decide (rowid b.1 < rowid a.1).

Definition newest (rowid : key → Z) (l : list (key * message_row)) : option (key * message_row) :=
  foldl (λ best kr, match best with Some b => if after rowid kr b then Some kr else Some b | None => Some kr end) None l.

Inductive anchor_error : Type := NoRow | Unanchorable (m : string) | QueryError (m : string).

(** The second of Go's zero time. *)
Definition zero_time : Z := -62135596800.

Definition anchor_text (e : anchor_error) : string :=
  match e with NoRow => "sql: no rows in result set" | Unanchorable m | QueryError m => m end.

(** The participant of the key of a group message. *)
Definition anchor_participant (jid : JID) (r : message_row) : result anchor_error string :=
  match (if contains_byte "@" (sender r) then Ok (sender r)
         else let server := default "" (sender_server r) in
              if String.eqb server "" then Err (Unanchorable "latest group message has no known sender namespace")
              else Ok (sender r +:+ String "@" server)) with
  | Err e => Err e
  | Ok participant =>
      match parseRecipientJID participant with
      | Ok p =>
          if String.eqb (User p) "" || String.eqb (Server p) "" || String.eqb (Server p) GroupServer || String.eqb (User p) (User jid)
          then Err (Unanchorable "latest group message has no usable sender") else Ok participant
      | Err _ => Err (Unanchorable "latest group message has no usable sender")
      end
  end.

(** [archiveAnchor]; a chat that does not parse has no group server. *)
Definition archiveAnchor (rowid : key → Z) (fault : option string) (chats : list string) (db : archive) :
    result anchor_error (MessageKey * Z) :=
  match fault with
  | Some e => Err (QueryError e)
  | None =>
      match newest rowid (filter (λ kr, anchor_row chats kr = true) (map_to_list (rows db))) with
      | None => Err NoRow
      | Some ((id, chat), r) =>
          if timestamp r =? zero_time then Err (Unanchorable "latest message has an invalid timestamp") else
          match ParseJID chat with
          | Ok jid =>
              if String.eqb (Server jid) GroupServer then
                match anchor_participant jid r with
                | Err e => Err e
                | Ok p => Ok ({| KeyID := id; KeyFromMe := is_from_me r; RemoteJID := ""; Participant := Some p |}, timestamp r)
                end
              else Ok ({| KeyID := id; KeyFromMe := is_from_me r; RemoteJID := ""; Participant := None |}, timestamp r)
          | Err _ => Ok ({| KeyID := id; KeyFromMe := is_from_me r; RemoteJID := ""; Participant := None |}, timestamp r)
          end
      end
  end.

(** The chats the anchor may come from ([addAlias]). *)
Definition alias (policy : chatPolicy) (chat : string) (j : JID) : list string :=
  if negb (IsEmpty j) && negb (String.eqb (JIDString j) chat) && Allows policy (JIDString j) then [JIDString j] else [].

Definition anchor_chats (policy : chatPolicy) (w : world) (chat : string) (target : JID) : list string :=
  chat :: alias policy chat target ++ match twin w target with Some j => alias policy chat j | None => [] end.

Definition anchor_failure (ended : bool) (e : anchor_error) : Http.reply :=
  let '(st, code) :=
    match e with
    | NoRow => (404, "not_found")
    | _ => if ended then (408, "bridge_unavailable")
           else match e with Unanchorable _ => (422, "invalid_argument") | _ => (500, "internal") end
    end in
  Http.writeErrorCode st code ("Cannot anchor chat archive: " +:+ anchor_text e).

(** The participant as WhatsApp addresses it. *)
Definition resolved_participant (w : world) (p : option string) : result app_effect (option string) :=
  match p with
  | None => Ok None
  | Some "" => Ok (Some "")
  | Some raw =>
      let r := resolve w raw in
      if ended w 2 then Err (expired_before "Archive") else
      match usable r with
      | None => Err (stop 400 "Cannot resolve latest message sender")
      | Some j => Ok (Some (JIDString j))
      end
  end.

(** [handleArchiveChat]. *)
Definition handleArchiveChat (policy : chatPolicy) (w : world) (rowid : key → Z) (body : option (string * option bool)) (db : archive) :
    app_effect :=
  match body with
  | None => stop 400 "Invalid request format"
  | Some (_, None) => stop 400 "Valid chat_jid and archived boolean are required"
  | Some (raw, Some archived) =>
      match authorizeChat policy (trim_space raw) false with
      | Err r => stopped r
      | Ok chat =>
          if negb (filed chat) then stop 400 "Only direct chats and groups can be archived" else
          if negb (connected w) then stop 503 offline else
          let r := resolve w (JIDString chat) in
          if ended w 0 then expired_before "Archive" else
          match usable r with
          | None => stop 400 "Cannot resolve chat_jid"
          | Some target =>
              match archiveAnchor rowid (query_fault w) (anchor_chats policy w (JIDString chat) target) db with
              | Err e => stopped (anchor_failure (ended w 1) e)
              | Ok (k, ts) =>
                  match resolved_participant w (Participant k) with
                  | Err e => e
                  | Ok participant =>
                      if ended w 3 then expired_before "Archive" else
                      send_patch w "Chat archive"
                        (ArchivePatch target archived ts
                           {| KeyID := KeyID k; KeyFromMe := KeyFromMe k; RemoteJID := JIDString target; Participant := participant |})
                  end
              end
          end
      end
  end.

(** ** What a patch needs *)

Lemma after_trans rowid a b c : after rowid a b = false → after rowid b c = false → after rowid a c = false.
Proof. unfold after. repeat case_bool_decide; simpl; done || lia. Qed.

Lemma after_total rowid a b : after rowid a b = true → after rowid b a = false.
Proof. unfold after. repeat case_bool_decide; simpl; done || lia. Qed.

Lemma after_irrefl rowid a : after rowid a a = false.
Proof. unfold after. repeat case_bool_decide; simpl; done || lia. Qed.

(** The fold keeps a row no other comes after. *)
Lemma newest_from rowid l b0 :
  ∃ b, foldl (λ best kr, match best with Some b => if after rowid kr b then Some kr else Some b | None => Some kr end) (Some b0) l = Some b
  ∧ (b = b0 ∨ b ∈ l) ∧ after rowid b0 b = false ∧ ∀ a, a ∈ l → after rowid a b = false.
Proof.
  revert b0. induction l as [|x l IH]; intros b0.
  - exists b0. split_and!; [done|by left|apply after_irrefl|]. intros a Ha. by apply not_elem_of_nil in Ha.
  - cbn [foldl]. destruct (after rowid x b0) eqn:Hx.
    + destruct (IH x) as (b & Hb & Hin & Hxb & Hl). exists b. split_and!; [done| | |].
      * right. apply elem_of_cons. by destruct Hin as [->|]; [left|right].
      * eapply after_trans; [|exact Hxb]. by apply after_total.
      * intros a [->|Ha]%elem_of_cons; [done|by apply Hl].
    + destruct (IH b0) as (b & Hb & Hin & Hb0 & Hl). exists b. split_and!; [done| |done|].
      * destruct Hin as [->|]; [by left|right; by apply elem_of_cons; right].
      * intros a [->|Ha]%elem_of_cons; [by eapply after_trans|by apply Hl].
Qed.

Lemma newest_spec rowid l b : newest rowid l = Some b → b ∈ l ∧ ∀ a, a ∈ l → after rowid a b = false.
Proof.
  unfold newest. destruct l as [|x l]; [done|]. cbn [foldl]. destruct (newest_from rowid l x) as (b' & -> & Hin & Hx & Hl).
  intros [= <-]. split.
  - apply elem_of_cons. by destruct Hin as [->|]; [left|right].
  - intros a [->|Ha]%elem_of_cons; [done|by apply Hl].
Qed.

Lemma send_patch_out w action p q : q ∈ patches (send_patch w action p) → q = p.
Proof.
  unfold send_patch, withAppStateWriter. destruct (acquired w && negb (late w)); cbn [patches].
  - by intros ->%list_elem_of_singleton.
  - intros Hin. by apply not_elem_of_nil in Hin.
Qed.

Lemma usable_ok r j : usable r = Some j → r = Ok j.
Proof. unfold usable. destruct r as [j'|]; [|done]. by destruct (_ || _); intros [= <-]. Qed.

(** Leaves of a handler that send nothing. *)
Ltac nothing_sent := intros ? Hin; by apply not_elem_of_nil in Hin.

(** Only a permitted chat is labelled, while connected, with a label the cache
    knows as neither deleted nor immutable, under its resolved address. *)
Theorem label_guarded (policy : chatPolicy) (w : world) (req : labelRequest) (t : Labels.label_tables) :
  ∀ p, p ∈ patches (handleLabelChat policy w (Some req) t) →
  ∃ chat target on l,
    authorizeChat policy (trim_space (l_chat req)) false = Ok chat ∧ filed chat = true ∧ connected w = true
    ∧ Labels.labels t !! trim_space (l_id req) = Some l ∧ Labels.deleted l = false ∧ Labels.immutable l = false
    ∧ resolve w (JIDString chat) = Ok target ∧ l_on req = Some on ∧ p = LabelPatch target (trim_space (l_id req)) on.
Proof.
  unfold handleLabelChat. destruct (l_on req) as [on|]; [|nothing_sent]. destruct (String.eqb _ _); [nothing_sent|].
  destruct (authorizeChat policy _ false) as [chat|r]; [|nothing_sent].
  destruct (filed chat) eqn:Hf; [|nothing_sent]. destruct (connected w) eqn:Hc; [|nothing_sent]. cbn [negb].
  destruct (ended w 0); [nothing_sent|]. destruct (query_fault w); [nothing_sent|].
  destruct (Labels.labels t !! _) as [l|]; [|nothing_sent].
  destruct (Labels.deleted l) eqn:Hd; [nothing_sent|]. destruct (Labels.immutable l) eqn:Hm; [nothing_sent|].
  cbv zeta. destruct (ended w 1); [nothing_sent|]. destruct (usable _) as [target|] eqn:Hu; [|nothing_sent].
  intros p ->%send_patch_out. apply usable_ok in Hu. exists chat, target, on, l. split_and!; done.
Qed.

Lemma anchor_chats_permitted policy w chat target c :
  c ∈ anchor_chats policy w chat target → c = chat ∨ Allows policy c = true.
Proof.
  assert (∀ j, c ∈ alias policy chat j → Allows policy c = true) as Ha.
  { intros j. unfold alias. destruct (Allows policy (JIDString j)) eqn:Hj; [|rewrite andb_false_r; intros Hin; by apply not_elem_of_nil in Hin].
    destruct (_ && _); [|intros Hin; by apply not_elem_of_nil in Hin]. by intros ->%list_elem_of_singleton. }
  unfold anchor_chats. intros [->|[Hin|Hin]%elem_of_app]%elem_of_cons; [by left|right; by eapply Ha|right].
  destruct (twin w target) as [j|]; [by eapply Ha|by apply not_elem_of_nil in Hin].
Qed.

(** The anchor names the newest row that is neither a reaction nor a vote. *)
Lemma archiveAnchor_newest rowid fault chats db k ts :
  archiveAnchor rowid fault chats db = Ok (k, ts) →
  ∃ c r, rows db !! (KeyID k, c) = Some r ∧ c ∈ chats ∧ ts = timestamp r ∧ KeyFromMe k = is_from_me r
    ∧ ∀ kr, anchor_row chats kr = true → rows db !! kr.1 = Some kr.2 → after rowid kr ((KeyID k, c), r) = false.
Proof.
  unfold archiveAnchor. destruct fault; [done|]. destruct (newest _ _) as [[[id c] r]|] eqn:Hn; [|done].
  apply newest_spec in Hn as [[Hrow Hin]%list_elem_of_filter Hmax]. apply elem_of_map_to_list in Hin.
  intros Hok. assert (KeyID k = id ∧ KeyFromMe k = is_from_me r ∧ ts = timestamp r) as (-> & Hfm & ->).
  { destruct (timestamp r =? zero_time); [done|]. destruct (ParseJID c) as [jid|]; [destruct (String.eqb _ _)|]; [|by simplify_eq..].
    destruct (anchor_participant jid r); by simplify_eq. }
  exists c, r. split_and!; try done.
  - unfold anchor_row in Hrow. apply andb_true_iff in Hrow as [Hc%bool_decide_eq_true _]. done.
  - intros [k' r'] Hr Hl. apply Hmax. apply list_elem_of_filter. split; [done|]. by apply elem_of_map_to_list.
Qed.

(** Filing a chat is anchored to what the caller may see.  A filing patch goes
    out only for a permitted direct chat or group, while connected, to its
    resolved address, and its anchor is a stored row, the newest that is neither
    a reaction nor a vote, of the chat itself or of an alias the policy permits. *)
Theorem archive_guarded (policy : chatPolicy) (w : world) (rowid : key → Z) (raw : string) (archived : option bool) (db : archive) :
  ∀ p, p ∈ patches (handleArchiveChat policy w rowid (Some (raw, archived)) db) →
  ∃ chat target on k c r,
    authorizeChat policy (trim_space raw) false = Ok chat ∧ filed chat = true ∧ connected w = true
    ∧ resolve w (JIDString chat) = Ok target ∧ archived = Some on ∧ p = ArchivePatch target on (timestamp r) k
    ∧ RemoteJID k = JIDString target ∧ rows db !! (KeyID k, c) = Some r ∧ KeyFromMe k = is_from_me r
    ∧ (c = JIDString chat ∨ Allows policy c = true)
    ∧ ∀ kr, anchor_row (anchor_chats policy w (JIDString chat) target) kr = true → rows db !! kr.1 = Some kr.2 →
        after rowid kr ((KeyID k, c), r) = false.
Proof.
  unfold handleArchiveChat. destruct archived as [on|]; [|nothing_sent].
  destruct (authorizeChat policy _ false) as [chat|r]; [|nothing_sent].
  destruct (filed chat) eqn:Hf; [|nothing_sent]. destruct (connected w) eqn:Hc; [|nothing_sent]. cbn [negb]. cbv zeta.
  destruct (ended w 0); [nothing_sent|]. destruct (usable _) as [target|] eqn:Hu; [|nothing_sent].
  destruct (archiveAnchor _ _ _ db) as [[k ts]|e] eqn:Ha; [|nothing_sent].
  destruct (resolved_participant w (Participant k)) as [part|e] eqn:Hp.
  2:{ unfold resolved_participant in Hp. repeat case_match; simplify_eq; nothing_sent. }
  destruct (ended w 3); [nothing_sent|]. intros p ->%send_patch_out. apply usable_ok in Hu.
  destruct (archiveAnchor_newest _ _ _ _ _ _ Ha) as (c & r & Hr & Hin & -> & Hfm & Hmax).
  eexists chat, target, on, _, c, r. split_and!; try done. by eapply anchor_chats_permitted.
Qed.

End AppState.
End AppState.

Module Actions.
Section Actions.
Context `{JidOps} (rnd : QArith_base.Q → QArith_base.Q).

(** What leaves the process. *)
Inductive outgoing : Type :=
| Revoke (chat : JID) (id : string)
| Reaction (chat sender : JID) (id emoji : string)
| Presence (chat : JID) (composing : bool).

Inductive action_reply : Type :=
| Error (r : Http.reply)
| Limited (r : Http.reply) (retry : option Z)
| Deleted (status : Z) (success : bool) (message : string) (for_everyone : bool)
| Done (message : string).

Record action_effect := { reply : action_reply; out : list outgoing; budget_after : send_db; archive_after : archive }.

(** [DeleteMessageRow]; [None] is [sql.ErrNoRows]. *)
Definition DeleteMessageRow (k : key) (db : archive) : option archive :=
  match rows db !! k with
  | Some _ => Some {| rows := delete k (rows db); chat_rows := chat_rows db |}
  | None => None
  end.

(** [GetMessageIsFromMe]. *)
Definition GetMessageIsFromMe (k : key) (db : archive) : option bool := is_from_me <$> rows db !! k.

Record DeleteMessageRequest := { d_chat : string; d_id : string; d_everyone : bool }.

(** The revocation, the clock and the faults of the archive. *)
Record delete_world := {
  revoke : JID → string → option string;
  row_fault : option string;
  lookup_fault : option string;
  deleted_now : Z;
  mark_ok : bool;
}.

(** [handleDeleteMessage]; [None] is a body that does not decode. *)
Definition handleDeleteMessage (policy : chatPolicy) (SendIncludeActions : bool) (b : budget) (c : client) (w : delete_world)
    (post : bool) (body : option DeleteMessageRequest) (t : send_db) (db : archive) : action_effect :=
  let answer r := {| reply := r; out := []; budget_after := t; archive_after := db |} in
  let failed st msg everyone := answer (Deleted st false msg everyone) in
  if negb post then answer (Error (Http.writeError 405 "Method not allowed")) else
  match body with
  | None => failed 400 "Invalid request format" false
  | Some req =>
      let raw := trim_space (d_chat req) in
      let id := trim_space (d_id req) in
      if String.eqb raw "" || String.eqb id "" then failed 400 "chat_jid and message_id are required" false else
      match authorizeChat policy raw false with
      | Err r => answer (Error r)
      | Ok chat =>
          if negb (d_everyone req) then
            match row_fault w with
            | Some e => failed 500 ("Failed to delete local row: " +:+ e) false
            | None =>
                match DeleteMessageRow (id, raw) db with
                | None => failed 404 "Message not found in local archive" false
                | Some db' =>
                    {| reply := Deleted 200 true "Message removed from the local archive only (still visible on WhatsApp)" false;
                       out := []; budget_after := t; archive_after := db' |}
                end
            end
          else
            match lookup_fault w with
            | Some e => failed 500 ("Failed to look up message: " +:+ e) true
            | None =>
                match GetMessageIsFromMe (id, raw) db with
                | None => failed 404 "Message not found in local archive; only messages the bridge has seen can be revoked" true
                | Some false => failed 403 "Only messages sent by this account can be deleted for everyone" true
                | Some true =>
                    let '(t, g) := allowSendAction rnd SendIncludeActions b c (JIDString chat) t in
                    match g with
                    | SendDenied r retry => {| reply := Limited r retry; out := []; budget_after := t; archive_after := db |}
                    | SendAllowed _ =>
                        match revoke w chat id with
                        | Some e => {| reply := Deleted 502 false ("Revoke failed: " +:+ e) true; out := [Revoke chat id];
                                       budget_after := t; archive_after := db |}
                        | None =>
                            if mark_ok w
                            then {| reply := Deleted 200 true "Message deleted for everyone" true; out := [Revoke chat id]; budget_after := t;
                                    archive_after := {| rows := MarkMessageDeleted (id, raw) (deleted_now w) (rows db);
                                                        chat_rows := chat_rows db |} |}
                            else {| reply := Deleted 200 true "Message revoked for everyone (archive update failed; the remote revoke already succeeded, do not repeat it)" true;
                                    out := [Revoke chat id]; budget_after := t; archive_after := db |}
                        end
                    end
                end
            end
      end
  end.

(** [ReactRequest]; an empty emoji takes the reaction back. *)
Record ReactRequest := { Recipient : string; MessageID : string; FromMe : bool; SenderJID : string; Emoji : option string }.

(** The author of the message reacted to. *)
Definition reacted_sender (own : option JID) (chat : JID) (req : ReactRequest) : result Http.reply JID :=
  if FromMe req then
    match own with Some j => Ok j | None => Err (Http.writeError 503 "Not logged in") end
  else if negb (String.eqb (SenderJID req) "") then
    match ParseJID (SenderJID req) with
    | Err e => Err (Http.writeError 400 ("Invalid sender_jid: " +:+ e))
    | Ok j => if String.eqb (User j) "" || String.eqb (Server j) "" then Err (Http.writeError 400 "Invalid sender_jid") else Ok j
    end
  else if String.eqb (Server chat) GroupServer
       then Err (Http.writeError 400 "sender_jid is required for group reactions when from_me is false")
       else Ok chat.

Definition handleReact (policy : chatPolicy) (SendIncludeActions : bool) (b : budget) (c : client) (send : outgoing → option string)
    (body : option ReactRequest) (t : send_db) (db : archive) : action_effect :=
  let answer r := {| reply := r; out := []; budget_after := t; archive_after := db |} in
  let missing := answer (Error (Http.writeError 400 "recipient, message_id, and emoji are required")) in
  match body with
  | None => missing
  | Some req =>
      match Emoji req with
      | None => missing
      | Some emoji =>
          if String.eqb (Recipient req) "" || String.eqb (MessageID req) "" then missing else
          match authorizeChat policy (Recipient req) false with
          | Err r => answer (Error r)
          | Ok chat =>
              match reacted_sender (own_id c) chat req with
              | Err r => answer (Error r)
              | Ok sender =>
                  let '(t, g) := allowSendAction rnd SendIncludeActions b c (JIDString chat) t in
                  match g with
                  | SendDenied r retry => {| reply := Limited r retry; out := []; budget_after := t; archive_after := db |}
                  | SendAllowed _ =>
                      let m := Reaction chat sender (MessageID req) emoji in
                      {| reply := match send m with
                                  | Some e => Error (Http.writeErrorCode 500 "" e)
                                  | None => Done "ok"
                                  end; out := [m]; budget_after := t; archive_after := db |}
                  end
              end
          end
      end
  end.

(** [handleTyping]: presence is not charged. *)
Definition handleTyping (policy : chatPolicy) (send : outgoing → option string) (body : option (string * bool)) (t : send_db) (db : archive) :
    action_effect :=
  let answer r := {| reply := r; out := []; budget_after := t; archive_after := db |} in
  match body with
  | None => answer (Error (Http.writeError 400 "Invalid request format"))
  | Some (raw, typing) =>
      match normalizePhoneRecipient raw with
      | Err e => answer (Error (Http.writeError 400 e))
      | Ok recipient =>
          if String.eqb recipient "" then answer (Error (Http.writeError 400 "Recipient is required")) else
          match authorizeChat policy recipient true with
          | Err r => answer (Error r)
          | Ok chat =>
              let m := Presence chat typing in
              {| reply := match send m with
                          | Some e => Error (Http.writeErrorCode 500 "" ("Failed to send typing indicator: " +:+ e))
                          | None => Done ("Typing indicator set to " +:+ (if typing then "true" else "false"))
                          end; out := [m]; budget_after := t; archive_after := db |}
          end
      end
  end.

(** How far a deletion may reach into the archive. *)
Definition confined (k : key) (everyone : bool) (db db' : archive) : Prop :=
  (∀ k', k' ≠ k → rows db' !! k' = rows db !! k') ∧ chat_rows db' = chat_rows db
  ∧ (everyone = true → (rows db' !! k = rows db !! k) ∨
       ∃ r r', rows db !! k = Some r ∧ rows db' !! k = Some r' ∧ content r' = content r ∧ deleted_at r' ≠ None).

Lemma confined_refl k everyone db : confined k everyone db db.
Proof. split_and!; [done..|]. by left. Qed.

Lemma confined_row k db db' : DeleteMessageRow k db = Some db' → confined k false db db'.
Proof.
  unfold DeleteMessageRow. destruct (rows db !! k); [|done]. intros [= <-]. split_and!; [|done..].
  intros k' Hk. simpl. by rewrite lookup_delete_ne.
Qed.

Lemma confined_mark k at_ db :
  confined k true db {| rows := MarkMessageDeleted k at_ (rows db); chat_rows := chat_rows db |}.
Proof.
  unfold MarkMessageDeleted. split_and!; cbn [rows chat_rows]; [|done|].
  - intros k' Hk. by rewrite lookup_alter_ne.
  - intros _. destruct (rows db !! k) as [r|] eqn:Hr; [right|left; by rewrite lookup_alter_eq, Hr].
    exists r. eexists. rewrite lookup_alter_eq, Hr. split_and!; [done..|]. cbn. by destruct (deleted_at r).
Qed.

(** Deleting is guarded and confined.  A revocation goes out only for an
    archived message of this account in a permitted chat, when deletion for
    everyone was asked for and, when actions are counted, within the budget.
    Whatever happens, the archive changes only at that message of a permitted
    chat, and a revoked row keeps its content. *)
Theorem delete_guarded (policy : chatPolicy) (counted : bool) (b : budget) (c : client) (w : delete_world) (post : bool)
    (req : DeleteMessageRequest) (t : send_db) (db : archive) :
  let e := handleDeleteMessage policy counted b c w post (Some req) t db in
  let k := (trim_space (d_id req), trim_space (d_chat req)) in
  (∀ o, o ∈ out e → ∃ chat r,
      o = Revoke chat (trim_space (d_id req)) ∧ d_everyone req = true
      ∧ authorizeChat policy (trim_space (d_chat req)) false = Ok chat
      ∧ rows db !! k = Some r ∧ is_from_me r = true
      ∧ (counted = true → ∃ receipt, (gate rnd b c (JIDString chat) t).2 = SendAllowed receipt))
  ∧ (archive_after e = db ∨ is_ok (authorizeChat policy (trim_space (d_chat req)) false) = true)
  ∧ confined k (d_everyone req) db (archive_after e).
Proof.
  cbv zeta. unfold handleDeleteMessage.
  assert (∀ o : outgoing, o ∈ [] → False) as Hnil by (intros o Ho; by apply not_elem_of_nil in Ho).
  destruct post; [|split_and!; [naive_solver|by left|apply confined_refl]]. cbn [negb].
  destruct (_ || _); [split_and!; [naive_solver|by left|apply confined_refl]|].
  destruct (authorizeChat policy _ false) as [chat|] eqn:Hc; [|split_and!; [naive_solver|by left|apply confined_refl]].
  cbn [is_ok]. destruct (d_everyone req) eqn:He; cbn [negb].
  - destruct (lookup_fault w); [split_and!; [naive_solver|by left|apply confined_refl]|]. unfold GetMessageIsFromMe.
    destruct (rows db !! _) as [r|] eqn:Hr; [|split_and!; [naive_solver|by left|apply confined_refl]]. cbn [fmap option_fmap option_map].
    destruct (is_from_me r) eqn:Hm; [|split_and!; [naive_solver|by left|apply confined_refl]].
    destruct (allowSendAction rnd counted b c (JIDString chat) t) as [t' [receipt|rr retry]] eqn:Hg;
      [|split_and!; [naive_solver|by left|apply confined_refl]].
    assert (∀ o, o ∈ [Revoke chat (trim_space (d_id req))] → ∃ chat' r',
      o = Revoke chat' (trim_space (d_id req)) ∧ true = true ∧ Ok (E:=Http.reply) chat = Ok chat' ∧ Some r = Some r' ∧ is_from_me r' = true
      ∧ (counted = true → ∃ receipt, (gate rnd b c (JIDString chat') t).2 = SendAllowed receipt)) as Hout.
    { intros o ->%list_elem_of_singleton. exists chat, r. split_and!; try done. intros ->. exists receipt.
      unfold allowSendAction in Hg. by rewrite Hg. }
    destruct (revoke w chat _); [|destruct (mark_ok w)]; (split_and!; [exact Hout|by right|]); first [apply confined_refl|apply confined_mark].
  - destruct (row_fault w); [split_and!; [naive_solver|by left|apply confined_refl]|].
    destruct (DeleteMessageRow _ db) as [db'|] eqn:Hd; [|split_and!; [naive_solver|by left|apply confined_refl]].
    split_and!; [naive_solver|by right|by apply confined_row].
Qed.

(** Reactions and presence reach only chats the policy permits. *)
Theorem actions_permitted (policy : chatPolicy) (counted : bool) (b : budget) (c : client) (send : outgoing → option string)
    (req : ReactRequest) (typing : string * bool) (t : send_db) (db : archive) :
  (∀ o, o ∈ out (handleReact policy counted b c send (Some req) t db) →
     ∃ chat sender emoji, o = Reaction chat sender (MessageID req) emoji ∧ authorizeChat policy (Recipient req) false = Ok chat
       ∧ Emoji req = Some emoji ∧ reacted_sender (own_id c) chat req = Ok sender)
  ∧ (∀ o, o ∈ out (handleTyping policy send (Some typing) t db) →
     ∃ chat recipient, o = Presence chat typing.2 ∧ normalizePhoneRecipient typing.1 = Ok recipient
       ∧ authorizeChat policy recipient true = Ok chat).
Proof.
  assert (∀ (P : outgoing → Prop) o, o ∈ [] → P o) as Hnil by (intros P o Ho; by apply not_elem_of_nil in Ho). split.
  - unfold handleReact. destruct (Emoji req) as [emoji|]; [|apply Hnil]. destruct (_ || _); [apply Hnil|].
    destruct (authorizeChat policy _ false) as [chat|] eqn:Hc; [|apply Hnil].
    destruct (reacted_sender (own_id c) chat req) as [sender|] eqn:Hs; [|apply Hnil].
    destruct (allowSendAction _ _ _ _ _ _) as [t' [receipt|r retry]]; [|apply Hnil].
    intros o ->%list_elem_of_singleton. by exists chat, sender, emoji.
  - destruct typing as [raw on]. unfold handleTyping. destruct (normalizePhoneRecipient raw) as [rcp|] eqn:Hr; [|apply Hnil].
    destruct (String.eqb rcp ""); [apply Hnil|]. destruct (authorizeChat policy rcp true) as [chat|] eqn:Hc; [|apply Hnil].
    intros o ->%list_elem_of_singleton. by exists chat, rcp.
Qed.

End Actions.
End Actions.

(** ** Samples *)

Module Sample.
#[local] Existing Instance RefJid.ops.

Definition group : RefJid.t := {| RefJid.ref_user := "9"; RefJid.ref_device := ""; RefJid.ref_server := GroupServer |}.

Definition world : AppState.world := {|
  AppState.connected := true; AppState.ended := λ _, false; AppState.resolve := ParseJID; AppState.twin := λ _, None;
  AppState.query_fault := None; AppState.acquired := true; AppState.late := false; AppState.SendAppState := λ _, None |}.

Definition db : archive := Send.Sample.db.

Definition filed_once : AppState.app_effect :=
  AppState.handleArchiveChat (parseChatPolicy "*@g.us") world (λ _, 0) (Some ("9@g.us", Some true)) db.

Definition own_row : message_row := messageArgs
  {| ID := "A2"; ChatJID := "9@g.us"; Sender := "1@s.whatsapp.net"; Content := "mine"; Timestamp := 0; IsFromMe := true;
     MediaType := ""; Filename := ""; URL := ""; MediaKey := None; FileSHA256 := None; FileEncSHA256 := None; FileLength := None;
     QuotedMessageID := ""; DirectPath := ""; Presentation := None; Location := None; RetryChat := ""; RetrySender := "";
     Mentions := "" |}.

Definition labelled : Labels.label_tables := foldl Labels.record Labels.no_labels Labels.history.
End Sample.

(** The sample deletion reaches WhatsApp and marks the row. *)
Example revoked_once :
  let db := {| rows := {[("A2", "9@g.us") := Sample.own_row]}; chat_rows := ∅ |} in
  let e := @Actions.handleDeleteMessage RefJid.ops (λ q, q) (parseChatPolicy "*@g.us") false (money Send.Sample.w) (cl Send.Sample.w)
    {| Actions.revoke := λ _ _, None; Actions.row_fault := None; Actions.lookup_fault := None; Actions.deleted_now := 10 ^ 9; Actions.mark_ok := true |}
    true (Some {| Actions.d_chat := " 9@g.us"; Actions.d_id := "A2"; Actions.d_everyone := true |}) (new_db ∅) db in
  Actions.out e = [@Actions.Revoke RefJid.ops Sample.group "A2"]
  ∧ deleted_at <$> rows (Actions.archive_after e) !! ("A2", "9@g.us") = Some (Some 1).
Proof. vm_compute. split; reflexivity. Qed.

Lemma archive_guarded_witness :
  ∃ ts k, @AppState.patches RefJid.ops Sample.filed_once = [@AppState.ArchivePatch RefJid.ops Sample.group true ts k] ∧ AppState.KeyID k = "A1".
Proof.
  destruct (@AppState.archive_guarded RefJid.ops (parseChatPolicy "*@g.us") Sample.world (λ _, 0) "9@g.us" (Some true) Sample.db
    (@AppState.ArchivePatch RefJid.ops Sample.group true 0 {| AppState.KeyID := "A1"; AppState.KeyFromMe := false; AppState.RemoteJID := "9@g.us";
       AppState.Participant := Some "1@s.whatsapp.net" |}))
    as (chat & target & on & k & c & r & _ & _ & _ & _ & _ & Hp & _); [vm_compute; left|].
  eexists _, k. injection Hp as _ _ _ <-. split; [vm_compute; reflexivity|reflexivity].
Defined.
