(* ===== verification/Pairing.v ===== *)
(** * Operator pairing ([operator_pairing.go], [pairing.go], [operator_logout.go])

    The QR consumer of one attempt, the state machine of the pairing controller
    with its HTTP actions and client events, the loop over attempts, and the
    operator's logout with its durable idle row.  Each critical section of the
    controller's mutex is one step; the client library, the clock and the session
    store are outcomes given to the steps.  Times are nanoseconds. *)
From S2P Require Import Prelude Http ConnectionProblem.
#[local] Open Scope Z_scope.

(** ** One QR attempt ([pairOnce], [connectOrPair]) *)

Module Attempt.

(** The public key of a passkey request: [pk_ref] is the identity of the object,
    the timeout is in milliseconds. *)
Record WebAuthnPublicKey := { pk_ref : nat; RelyingPartID : string; Challenge : string; Timeout : Z }.

(** The items of the QR channel: the confirmation is its code and whether the
    hand-off is skipped; other events may carry an error. *)
Inductive item : Type :=
| CodeItem (payload : string) (valid : Z)
| PasskeyRequest (key : option (option WebAuthnPublicKey))
| PasskeyConfirmation (c : option (string * bool))
| Success
| TimeoutItem
| OtherItem (error : option string).

(** What the [select] of the consumer receives. *)
Inductive input : Type := ContextDone | TimerFires | ChannelClosed | Item (i : item).

Inductive pair_error : Type := PairingTimeout | PairingTransport | PairingOperator | ContextEnded | PairingRejected.

(** How the consumer goes on: it ends, or waits with its [passkey] flag. *)
Definition consume (passkey : bool) (i : input) : result bool (result pair_error unit) :=
  let stop := Ok (Err (if passkey then PairingOperator else PairingTimeout)) in
  match i with
  | ContextDone => Ok (Err ContextEnded)
  | TimerFires | ChannelClosed | Item TimeoutItem => stop
  | Item (PasskeyRequest _) | Item (PasskeyConfirmation _) => Err true
  | Item (CodeItem _ _) => Err passkey
  | Item Success => Ok (Ok tt)
  | Item (OtherItem (Some _)) => Ok (Err (if passkey then PairingOperator else PairingRejected))
  | Item (OtherItem None) => Err passkey
  end.

(** The loop over what arrives; [None] while nothing decisive arrived. *)
Fixpoint consume_all (passkey : bool) (is_ : list input) : option (result pair_error unit) :=
  match is_ with
  | [] => None
  | i :: rest => match consume passkey i with
                 | Ok r => Some r
                 | Err passkey => consume_all passkey rest
                 end
  end.

(** [pairOnce]: the channel, the dial, then the loop. *)
Definition pairOnce (channel dial : option string) (is_ : list input) : option (result pair_error unit) :=
  match channel, dial with
  | Some _, _ => Some (Err PairingRejected)
  | None, Some _ => Some (Err PairingTransport)
  | None, None => consume_all false is_
  end.

(** One round of [connectOrPair]: the gate, the pause after the first round, the
    dial of a paired client, and what the QR attempt sees. *)
Record round := {
  gate : option pair_error;
  pause_cancelled : bool;
  dial : option string;
  channel : option string;
  inputs : list input;
}.

(** [connectOrPair] over the rounds of its attempts; the last error when they
    are used up. *)
Fixpoint connectOrPair (paired : bool) (last : pair_error) (first : bool) (rounds : list round) : option (result pair_error unit) :=
  match rounds with
  | [] => Some (Err last)
  | r :: rest =>
      match gate r with
      | Some e => Some (Err e)
      | None =>
          if negb first && pause_cancelled r then Some (Err ContextEnded)
          else if paired then
            match dial r with
            | Some _ => connectOrPair paired PairingTransport false rest
            | None => Some (Ok tt)
            end
          else match pairOnce (channel r) (dial r) (inputs r) with
               | None => None
               | Some (Ok tt) => Some (Ok tt)
               | Some (Err PairingOperator) => Some (Err PairingOperator)
               | Some (Err e) => connectOrPair paired e false rest
               end
      end
  end.

(** A passkey was asked for in what arrived. *)
Definition asks_passkey (i : input) : bool :=
  match i with Item (PasskeyRequest _) | Item (PasskeyConfirmation _) => true | _ => false end.

Lemma consume_passkey is_ r :
  consume_all true is_ = Some r → r = Ok tt ∨ r = Err PairingOperator ∨ r = Err ContextEnded.
Proof.
  induction is_ as [|i l IH]; [done|]. cbn [consume_all].
  destruct i as [| | |[| | | | |[]]]; cbn [consume]; try (intros [= <-]; tauto); apply IH.
Qed.

(** After WhatsApp asked for a passkey, an attempt is never taken up again: it
    pairs, it is cancelled, or it ends with the error that stops the retries. *)
Lemma passkey_stops_retries before i after r :
  asks_passkey i = true → consume_all false before = None → consume_all false (before ++ i :: after) = Some r →
  r = Ok tt ∨ r = Err PairingOperator ∨ r = Err ContextEnded.
Proof.
  intros Hi. generalize false. induction before as [|j l IH]; intros pk Hb; cbn [app consume_all] in *.
  - destruct i as [| | |[]]; try done; cbn [consume]; apply consume_passkey.
  - destruct (consume pk j) as [|pk']; [done|]. by apply IH.
Qed.

End Attempt.

(** ** The controller ([operatorPairing]) *)

Module Controller.
Import Attempt.

(** The names of [operatorPairingState.State]. *)
Inductive phase : Type :=
| starting | awaiting_qr | code_issued | passkey_required | passkey_submitted | passkey_confirm | passkey_failed
| completing_ | paired_ | connected_ | expired | logged_out | pairing_required | logged_out_by_operator.

#[export] Instance phase_eq_dec : EqDecision phase.
Proof. solve_decision. Defined.

(** [strings.HasPrefix(state, "passkey_")]. *)
Definition is_passkey (p : phase) : bool :=
  match p with passkey_required | passkey_submitted | passkey_confirm | passkey_failed => true | _ => false end.

(** Where [run] is: before [waitCompletion] of an attempt, past it and holding the
    action lock, or dialling. *)
Inductive position : Type := Parked | Past | Dialling.

#[export] Instance position_eq_dec : EqDecision position.
Proof. solve_decision. Defined.

Record operatorQR := { Payload : string; Sequence : nat; QRExpires : Z }.

(** [operatorPairing] with its published state.  Clients are known by a number;
    [attempt_live] is [None] before the first attempt, else whether its context
    is still alive. *)
Record controller := {
  State : phase;
  Attempt_ : nat;
  Generation : Z;
  QR : option operatorQR;
  PairCode : option Z;
  Passkey : option WebAuthnPublicKey;
  ConfirmationCode : string;
  StepExpiresAt : option Z;
  FailureReason : string;
  client : nat;
  attempt_live : option bool;
  codeCalls : nat;
  sequence : nat;
  completing : bool;
  kicked : bool;
  owner : position;
}.

(** [newOperatorPairing]. *)
Definition newOperatorPairing (c : nat) : controller :=
  {| State := starting; Attempt_ := 0; Generation := 0; QR := None; PairCode := None; Passkey := None; ConfirmationCode := "";
     StepExpiresAt := None; FailureReason := ""; client := c; attempt_live := None; codeCalls := 0; sequence := 0;
     completing := false; kicked := false; owner := Parked |}.

Definition attemptTimeout : Z := 5 * 60 * 10 ^ 9.
Definition retryDelay : Z := 5 * 10 ^ 9.
Definition Attempts : nat := 3.

(** *** Field updates *)

Definition with_phase (ph : phase) (p : controller) : controller :=
  {| State := ph; Attempt_ := Attempt_ p; Generation := Generation p; QR := QR p; PairCode := PairCode p; Passkey := Passkey p;
     ConfirmationCode := ConfirmationCode p; StepExpiresAt := StepExpiresAt p; FailureReason := FailureReason p; client := client p;
     attempt_live := attempt_live p; codeCalls := codeCalls p; sequence := sequence p; completing := completing p; kicked := kicked p; owner := owner p |}.

Definition with_step (key : option WebAuthnPublicKey) (code : string) (at_ : option Z) (p : controller) : controller :=
  {| State := State p; Attempt_ := Attempt_ p; Generation := Generation p; QR := QR p; PairCode := PairCode p; Passkey := key;
     ConfirmationCode := code; StepExpiresAt := at_; FailureReason := FailureReason p; client := client p;
     attempt_live := attempt_live p; codeCalls := codeCalls p; sequence := sequence p; completing := completing p; kicked := kicked p; owner := owner p |}.

Definition with_failure (reason : string) (p : controller) : controller :=
  {| State := State p; Attempt_ := Attempt_ p; Generation := Generation p; QR := QR p; PairCode := PairCode p; Passkey := Passkey p;
     ConfirmationCode := ConfirmationCode p; StepExpiresAt := StepExpiresAt p; FailureReason := reason; client := client p;
     attempt_live := attempt_live p; codeCalls := codeCalls p; sequence := sequence p; completing := completing p; kicked := kicked p; owner := owner p |}.

Definition with_completing (b : bool) (p : controller) : controller :=
  {| State := State p; Attempt_ := Attempt_ p; Generation := Generation p; QR := QR p; PairCode := PairCode p; Passkey := Passkey p;
     ConfirmationCode := ConfirmationCode p; StepExpiresAt := StepExpiresAt p; FailureReason := FailureReason p; client := client p;
     attempt_live := attempt_live p; codeCalls := codeCalls p; sequence := sequence p; completing := b; kicked := kicked p; owner := owner p |}.

(** A new generation: [p.state.Generation++] and [p.cancelAttempt()]. *)
Definition next_generation (p : controller) : controller :=
  {| State := State p; Attempt_ := Attempt_ p; Generation := wrap_uint64 (Generation p + 1); QR := QR p; PairCode := PairCode p;
     Passkey := Passkey p; ConfirmationCode := ConfirmationCode p; StepExpiresAt := StepExpiresAt p; FailureReason := FailureReason p;
     client := client p; attempt_live := (λ _, false) <$> attempt_live p; codeCalls := codeCalls p; sequence := sequence p;
     completing := completing p; kicked := kicked p; owner := owner p |}.

Definition kick (p : controller) : controller :=
  {| State := State p; Attempt_ := Attempt_ p; Generation := Generation p; QR := QR p; PairCode := PairCode p; Passkey := Passkey p;
     ConfirmationCode := ConfirmationCode p; StepExpiresAt := StepExpiresAt p; FailureReason := FailureReason p; client := client p;
     attempt_live := attempt_live p; codeCalls := codeCalls p; sequence := sequence p; completing := completing p; kicked := true; owner := owner p |}.

Definition invalidateLocked (ph : phase) (p : controller) : controller :=
  {| State := ph; Attempt_ := Attempt_ p; Generation := Generation p; QR := None; PairCode := None; Passkey := None;
     ConfirmationCode := ""; StepExpiresAt := None; FailureReason := ""; client := client p; attempt_live := attempt_live p;
     codeCalls := codeCalls p; sequence := sequence p; completing := completing p; kicked := kicked p; owner := owner p |}.

Definition attemptActiveLocked (p : controller) : bool := bool_decide (attempt_live p = Some true).

Definition completeLocked (p : controller) : controller := with_completing false p.

(** *** Events *)

(** The wait of a passkey step, capped at five minutes. *)
Definition passkey_wait (key : option WebAuthnPublicKey) : Z :=
  match key with
  | Some k => if 0 <? Timeout k then Z.min (Timeout k) 300000 * 10 ^ 6 else attemptTimeout
  | None => attemptTimeout
  end.

(** Texts longer than 512 runes are cut; [one_line] is the log escaping. *)
Definition expired_reason : string := "WhatsApp passkey step expired before verification; restart explicitly".

Section Events.
(** [oneLine] cut to 512 runes. *)
Context (short_line : string → string).

(** [observe]: an item of the QR channel of the attempt [generation]. *)
Definition observe (generation now : Z) (evt : item) (p : controller) : controller :=
  if negb (generation =? Generation p) then p
  else match evt with
  | CodeItem payload valid =>
      if completing p || bool_decide (State p ∈ [passkey_required; passkey_submitted; passkey_confirm]) then p
      else {| State := match PairCode p with None => awaiting_qr | Some _ => State p end; Attempt_ := Attempt_ p;
              Generation := Generation p; QR := Some {| Payload := payload; Sequence := S (sequence p); QRExpires := now + valid |};
              PairCode := PairCode p; Passkey := Passkey p; ConfirmationCode := ConfirmationCode p; StepExpiresAt := StepExpiresAt p;
              FailureReason := FailureReason p; client := client p; attempt_live := attempt_live p; codeCalls := codeCalls p;
              sequence := S (sequence p); completing := completing p; kicked := kicked p; owner := owner p |}
  | PasskeyRequest req =>
      let key := match req with Some (Some k) => Some k | _ => None end in
      with_step key "" (Some (now + passkey_wait key)) (invalidateLocked passkey_required p)
  | PasskeyConfirmation None | PasskeyConfirmation (Some (_, true)) => p
  | PasskeyConfirmation (Some (code, false)) => with_step None code (StepExpiresAt p) (with_phase passkey_confirm p)
  | Success => invalidateLocked paired_ p
  | TimeoutItem | OtherItem (Some _) =>
      let q := invalidateLocked expired p in
      if is_passkey (State p)
      then with_failure (match evt with
                         | OtherItem (Some e) => "WhatsApp passkey step failed: " +:+ short_line e
                         | _ => expired_reason
                         end) (with_phase passkey_failed q)
      else q
  | OtherItem None => p
  end.

(** The events of the client the controller reads. *)
Inductive client_event : Type := Connected | PairSuccess | PairError | LoggedOut (OnConnect : bool) (Reason : Z) | OtherEvent.

(** [events.ConnectFailureLoggedOut]. *)
Definition ConnectFailureLoggedOut : Z := 401.

Definition connectionEvent (evt : client_event) (p : controller) : controller :=
  match evt with
  | Connected => invalidateLocked connected_ p
  | PairSuccess => completeLocked (invalidateLocked paired_ p)
  | PairError => completeLocked (invalidateLocked expired p)
  | LoggedOut OnConnect Reason =>
      let q := next_generation (invalidateLocked logged_out p) in
      if (Reason =? ConnectFailureLoggedOut) || negb OnConnect && (Reason =? 0) then kick (invalidateLocked pairing_required q) else q
  | OtherEvent => p
  end.

(** [beginCompletion]: whether the device may be saved. *)
Definition beginCompletion (shutdown paired : bool) (c : nat) (p : controller) : controller * bool :=
  if shutdown || negb (attemptActiveLocked p) || negb (Nat.eqb (client p) c) || completing p || paired
     || negb (bool_decide (State p ∈ [awaiting_qr; code_issued; passkey_submitted; passkey_confirm]))
  then (p, false)
  else (invalidateLocked completing_ (with_completing true p), true).

Definition finishRetiredCompletion (c : nat) (p : controller) : controller :=
  if Nat.eqb (client p) c then completeLocked p else p.

(** *** What an operator sees *)

Definition unexpired (now : Z) (at_ : option Z) : bool := match at_ with Some e => now <? e | None => true end.

Definition snapshot (now : Z) (logout paired connected : bool) (p : controller) : controller :=
  let qr := if unexpired now (QRExpires <$> QR p) then QR p else None in
  let code := if unexpired now (PairCode p) then PairCode p else None in
  let step := unexpired now (StepExpiresAt p) in
  let live := {| State := State p; Attempt_ := Attempt_ p; Generation := Generation p; QR := qr; PairCode := code;
                 Passkey := if step then Passkey p else None; ConfirmationCode := if step then ConfirmationCode p else "";
                 StepExpiresAt := StepExpiresAt p; FailureReason := FailureReason p; client := client p;
                 attempt_live := attempt_live p; codeCalls := codeCalls p; sequence := sequence p; completing := completing p;
                 kicked := kicked p; owner := owner p |} in
  if negb logout && paired
  then {| State := if connected then connected_ else paired_; Attempt_ := Attempt_ p; Generation := Generation p; QR := None;
          PairCode := None; Passkey := None; ConfirmationCode := ""; StepExpiresAt := StepExpiresAt p;
          FailureReason := FailureReason p; client := client p; attempt_live := attempt_live p; codeCalls := codeCalls p;
          sequence := sequence p; completing := completing p; kicked := kicked p; owner := owner p |}
  else live.
End Events.

(** *** HTTP actions

    Each takes the action lock or answers busy; its critical sections are
    separate steps, so that events may come between them. *)

Definition digits_only (s : string) : bool := forallb (λ c, contains_byte c "0123456789") (list_ascii_of_string s).

Definition valid_phone (phone : string) : bool :=
  negb (bool_decide (String.length phone < 7)%nat) && negb (bool_decide (15 < String.length phone)%nat)
  && negb (has_prefix "0" phone) && digits_only phone.

Definition refuse (st : Z) (code msg : string) : Http.reply := Http.writeErrorCode st code msg.
Definition busy : Http.reply := refuse 409 "pairing_busy" "Another pairing action is running".

(** [code] up to the request to WhatsApp: what it remembers of the attempt. *)
Record code_ticket := { t_client : nat; t_generation : Z; t_expires : Z }.

Definition code_begin (paired : bool) (now : Z) (phone : string) (p : controller) : controller * result Http.reply code_ticket :=
  if negb (valid_phone phone) then (p, Err (refuse 400 "invalid_request" "phone must be 7-15 international digits"))
  else match QR p with
       | Some qr =>
           if negb (attemptActiveLocked p) || paired || negb (bool_decide (State p ∈ [awaiting_qr; code_issued])) || negb (now <? QRExpires qr)
           then (p, Err (refuse 409 "pairing_unavailable" "An unpaired client with a current QR is required"))
           else if (3 <=? codeCalls p)%nat
           then (p, Err (refuse 429 "rate_limited" "Pairing-code limit reached for this attempt"))
           else ({| State := State p; Attempt_ := Attempt_ p; Generation := Generation p; QR := QR p; PairCode := PairCode p;
                    Passkey := Passkey p; ConfirmationCode := ConfirmationCode p; StepExpiresAt := StepExpiresAt p;
                    FailureReason := FailureReason p; client := client p; attempt_live := attempt_live p; codeCalls := S (codeCalls p);
                    sequence := sequence p; completing := completing p; kicked := kicked p; owner := owner p |},
                 Ok {| t_client := client p; t_generation := Generation p; t_expires := QRExpires qr |})
       | None => (p, Err (refuse 409 "pairing_unavailable" "An unpaired client with a current QR is required"))
       end.

(** The publication of the code WhatsApp issued. *)
Definition code_end (paired : bool) (now : Z) (t : code_ticket) (p : controller) : controller * option Http.reply :=
  if attemptActiveLocked p && (t_generation t =? Generation p) && negb paired && negb (completing p)
     && bool_decide (State p ∈ [awaiting_qr; code_issued]) && (now <? t_expires t)
  then ({| State := code_issued; Attempt_ := Attempt_ p; Generation := Generation p; QR := QR p; PairCode := Some (t_expires t);
           Passkey := Passkey p; ConfirmationCode := ConfirmationCode p; StepExpiresAt := StepExpiresAt p;
           FailureReason := FailureReason p; client := client p; attempt_live := attempt_live p; codeCalls := codeCalls p;
           sequence := sequence p; completing := completing p; kicked := kicked p; owner := owner p |}, None)
  else (p, Some (refuse 409 "pairing_expired" "Pairing attempt changed or expired")).

(** [passkeyResponse] before the submission: [valid] is [validPasskeyResponse]
    of the assertion and the challenge read in the first critical section, and
    the two sections see the same clock reading [now] or a later one [now']. *)
Definition passkey_open (paired : bool) (generation now : Z) (p : controller) : bool :=
  attemptActiveLocked p && negb paired && bool_decide (State p = passkey_required) && (generation =? Generation p)
  && match StepExpiresAt p with Some e => now <? e | None => false end.

(** What the first section read. *)
Record challenge := { c_client : nat; c_request : option WebAuthnPublicKey }.

Definition response_begin (paired : bool) (generation now : Z) (valid : option WebAuthnPublicKey → bool) (p : controller) :
    result Http.reply challenge :=
  if negb (passkey_open paired generation now p) then Err (refuse 409 "passkey_unavailable" "No matching active passkey challenge")
  else if negb (valid (Passkey p))
  then Err (refuse 400 "invalid_assertion" "Assertion does not match the WhatsApp challenge and relying party")
  else Ok {| c_client := client p; c_request := Passkey p |}.

Definition response_commit (paired : bool) (generation now : Z) (ch : challenge) (p : controller) : controller * bool :=
  if passkey_open paired generation now p && Nat.eqb (client p) (c_client ch)
     && bool_decide ((pk_ref <$> Passkey p) = (pk_ref <$> c_request ch))
  then (with_step None (ConfirmationCode p) (StepExpiresAt p) (with_phase passkey_submitted p), true)
  else (p, false).

(** WhatsApp refused the assertion: the challenge is offered again unless the
    attempt moved on. *)
Definition response_refused (paired : bool) (generation : Z) (ch : challenge) (p : controller) : controller :=
  if attemptActiveLocked p && (Generation p =? generation) && Nat.eqb (client p) (c_client ch)
     && bool_decide (State p = passkey_submitted) && negb (completing p) && negb paired
  then with_step (c_request ch) (ConfirmationCode p) (StepExpiresAt p) (with_phase passkey_required p)
  else p.

(** [passkeyConfirm]. *)
Definition confirm_begin (paired : bool) (generation now : Z) (code : string) (p : controller) : bool :=
  attemptActiveLocked p && negb paired && bool_decide (State p = passkey_confirm) && (generation =? Generation p)
  && negb (String.eqb (ConfirmationCode p) "") && String.eqb code (ConfirmationCode p)
  && match StepExpiresAt p with Some e => now <? e | None => false end.

Definition confirm_end (generation : Z) (p : controller) : controller :=
  if (Generation p =? generation) && bool_decide (State p = passkey_confirm)
  then with_step (Passkey p) "" (StepExpiresAt p) (with_phase passkey_submitted p) else p.

(** [restart]: the connection state of [ConnectionProblem], the idle flags, and
    whether the file and the idle row could be written. *)
Record restart_world := {
  r_paired : bool;
  r_now : Z;
  session_wiped : bool;
  io_ok : bool;
  idle_cleared : bool;
}.

Definition parked (p : controller) : bool :=
  bool_decide (State p ∈ [expired; passkey_failed; logged_out; pairing_required; logged_out_by_operator]).

(** [seen] is the problem read at the start, by its identity. *)
Definition restart_refused (w : restart_world) (seen : option (nat * ConnectionProblem)) (c : ConnectionProblem.state) : option Http.reply :=
  let problem := snd <$> seen in
  if operatorLogout c && negb (session_wiped w)
  then Some (refuse 409 "local_session_not_wiped" "Local session not wiped; retry operator logout")
  else if r_paired w then Some (refuse 409 "already_paired" "Unlink on the phone before starting another pairing")
  else match problem with
       | Some q =>
           if String.eqb (Kind q) "temporarily_banned" && match ConnectionProblem.ExpiresAt q with Some e => r_now w <? e | None => false end
           then Some (refuse 409 "temporarily_banned" "Wait until the WhatsApp restriction expires")
           else if String.eqb (Kind q) "client_outdated"
           then Some (refuse 409 "client_outdated" "Upgrade this bridge before retrying")
           else None
       | None => None
       end.

Definition pairing_active (now : Z) (seen : option (nat * ConnectionProblem)) (p : controller) : bool :=
  completing p || negb (parked p) && negb (restrictsAccountAt now (snd <$> seen)).

Definition restarted (p : controller) : controller := kick (invalidateLocked starting (next_generation p)).

Definition clear_logout (c : ConnectionProblem.state) : ConnectionProblem.state :=
  {| problem := problem c; next_id := next_id c; pairingState := pairingState c; problemPersistenceFailed := problemPersistenceFailed c;
     disk := disk c; operatorLogout := false; operatorRetired := operatorRetired c; runtimeDeviceID := runtimeDeviceID c;
     refused := refused c |}.

Definition restart (w : restart_world) (seen : option (nat * ConnectionProblem)) (c : ConnectionProblem.state) (p : controller) :
    ConnectionProblem.state * controller * result Http.reply unit :=
  match restart_refused w seen c with
  | Some r => (c, p, Err r)
  | None =>
      if pairing_active (r_now w) seen p
      then (c, p, Err (refuse 409 "pairing_active" "Wait for the current attempt to finish before restarting"))
      else
        let '(c', same) := resolveConnectionProblemIf (fst <$> seen) (io_ok w) c in
        if negb same then (c', p, Err (refuse 409 "connection_state_changed" "WhatsApp restriction changed; read the current state before retrying"))
        else if problemPersistenceFailed c'
        then (c', p, Err (refuse 503 "state_persistence_failed" "Saved connection restriction could not be cleared"))
        else if operatorLogout c' then
          if idle_cleared w then (clear_logout c', restarted p, Ok tt)
          else (c', p, Err (refuse 503 "state_persistence_failed" "Operator idle state could not be cleared"))
        else (c', restarted p, Ok tt)
  end.

(** *** The owner of the attempts ([run]) *)

(** Its critical sections up to the dial, each under the lock of its own: the wait
    for a device that is being saved ... *)
Definition at_position (pos : position) (p : controller) : controller :=
  {| State := State p; Attempt_ := Attempt_ p; Generation := Generation p; QR := QR p; PairCode := PairCode p; Passkey := Passkey p;
     ConfirmationCode := ConfirmationCode p; StepExpiresAt := StepExpiresAt p; FailureReason := FailureReason p; client := client p;
     attempt_live := attempt_live p; codeCalls := codeCalls p; sequence := sequence p; completing := completing p; kicked := kicked p;
     owner := pos |}.

Definition waitCompletion (p : controller) : controller :=
  match owner p with Parked => if completing p then p else at_position Past p | _ => p end.

(** ... the rounds that end before the dial (logout, a paired device, no client) ... *)
Definition leave_round (p : controller) : controller := match owner p with Past => at_position Parked p | _ => p end.

(** ... the new client ... *)
Definition swap_client (c : nat) (p : controller) : controller :=
  match owner p with
  | Past => {| State := State p; Attempt_ := Attempt_ p; Generation := Generation p; QR := QR p; PairCode := PairCode p; Passkey := Passkey p;
               ConfirmationCode := ConfirmationCode p; StepExpiresAt := StepExpiresAt p; FailureReason := FailureReason p; client := c;
               attempt_live := attempt_live p; codeCalls := codeCalls p; sequence := sequence p; completing := completing p; kicked := kicked p;
               owner := Past |}
  | _ => p
  end.

(** ... and the new attempt, with the client of that moment. *)
Definition start_attempt (n : nat) (p : controller) : controller :=
  match owner p with
  | Past =>
      let q := invalidateLocked starting p in
      {| State := State q; Attempt_ := n; Generation := wrap_uint64 (Generation p + 1); QR := QR q; PairCode := PairCode q;
         Passkey := Passkey q; ConfirmationCode := ConfirmationCode q; StepExpiresAt := StepExpiresAt q; FailureReason := FailureReason q;
         client := client p; attempt_live := Some true; codeCalls := 0; sequence := 0; completing := completing p;
         kicked := kicked p; owner := Dialling |}
  | _ => p
  end.

(** The dial returned: the attempt's context ends. *)
Definition cancel_attempt (p : controller) : controller :=
  match owner p with
  | Dialling =>
      {| State := State p; Attempt_ := Attempt_ p; Generation := Generation p; QR := QR p; PairCode := PairCode p; Passkey := Passkey p;
         ConfirmationCode := ConfirmationCode p; StepExpiresAt := StepExpiresAt p; FailureReason := FailureReason p; client := client p;
         attempt_live := (λ _, false) <$> attempt_live p; codeCalls := codeCalls p; sequence := sequence p; completing := completing p;
         kicked := kicked p; owner := Parked |}
  | _ => p
  end.

(** After a failed attempt of [generation]. *)
Definition close_attempt (generation : Z) (paired : bool) (err : pair_error) (p : controller) : controller :=
  if negb (generation =? Generation p) then p
  else if paired then invalidateLocked paired_ p
  else match err with
       | PairingOperator =>
           with_failure (if String.eqb (FailureReason p) "" then "WhatsApp passkey step ended before verification; restart explicitly"
                         else FailureReason p) (invalidateLocked passkey_failed p)
       | _ => invalidateLocked expired p
       end.

(** How a round of the loop ended; [NoAttempt] when it stopped before dialling
    (logout, a paired device, no client). *)
Inductive ending : Type := NoAttempt | Stop | NewBan | TransportFailed (kicked : bool) | QRFailed (kicked : bool).

(** What [run] makes of the error of [connectOrPair]: [cancelled] when the
    generation moved on, [problem] and [before] the connection problem now and
    when the attempt began. *)
Definition classify (err : result pair_error unit) (cancelled paired kicked : bool) (problem before : option (nat * ConnectionProblem)) : ending :=
  match err with
  | Ok _ => Stop
  | Err e =>
      if cancelled || paired then Stop
      else
        let operator := match e with PairingOperator => true | _ => false end in
        let kind := match problem with Some (_, q) => Kind q | None => "" end in
        if negb operator && String.eqb kind "temporarily_banned" && negb (bool_decide ((fst <$> problem) = (fst <$> before))) then NewBan
        else if operator || restrictsAccount (snd <$> problem) && negb (String.eqb kind "temporarily_banned") then Stop
        else match e with PairingTransport => TransportFailed kicked | _ => QRFailed kicked end
  end.

(** The pause after the n-th transport failure in a row. *)
Fixpoint double_delay (n : nat) (delay : Z) : Z :=
  match n with
  | O => delay
  | S n => if delay <? 60 * 10 ^ 9 then double_delay n (Z.min (delay * 2) (60 * 10 ^ 9)) else delay
  end.

Definition transport_delay (retry : Z) (failures : nat) : Z :=
  let delay := Z.min retry (60 * 10 ^ 9) in
  double_delay (failures - 1) (if delay <=? 0 then 10 ^ 9 else delay).

(** The inner loop of [run] over the endings of its attempts: the numbers of the
    attempts made, and whether it parked. *)
Fixpoint attempts_loop (attempt : nat) (es : list ending) : list nat * bool :=
  if (Attempts <? attempt)%nat then ([], true)
  else match es with
       | [] => ([], false)
       | e :: rest =>
           let go n := let '(made, parked) := attempts_loop n rest in (attempt :: made, parked) in
           match e with
           | NoAttempt => ([], true)
           | Stop => ([attempt], true)
           | NewBan => go 1%nat
           | TransportFailed k => go (if k then 1%nat else attempt)
           | QRFailed k => go (if k && (attempt <? Attempts)%nat then 1%nat else S attempt)
           end
       end.

(** *** Runs *)

(** The steps of the controller, one per critical section. *)
Inductive op : Type :=
| Observe (generation now : Z) (evt : item)
| Event (e : client_event)
| Begin (shutdown paired : bool) (c : nat)
| Finish (c : nat)
| CodeBegin (paired : bool) (now : Z) (phone : string)
| CodeEnd (paired : bool) (now : Z) (t : code_ticket)
| ResponseCommit (paired : bool) (generation now : Z) (ch : challenge)
| ResponseRefused (paired : bool) (generation : Z) (ch : challenge)
| ConfirmEnd (generation : Z)
| Restarted
| LoggedOutByOperator
| Waited
| Leave
| Swap (c : nat)
| Start (n : nat)
| Cancel
| Close (generation : Z) (paired : bool) (err : pair_error).

(** A step of [run] taken out of its order does nothing; the others may come between
    any two of them. *)
Definition apply (short_line : string → string) (p : controller) (o : op) : controller :=
  match o with
  | Observe g now evt => observe short_line g now evt p
  | Event e => connectionEvent e p
  | Begin shutdown paired c => (beginCompletion shutdown paired c p).1
  | Finish c => finishRetiredCompletion c p
  | CodeBegin paired now phone => (code_begin paired now phone p).1
  | CodeEnd paired now t => (code_end paired now t p).1
  | ResponseCommit paired g now ch => (response_commit paired g now ch p).1
  | ResponseRefused paired g ch => response_refused paired g ch p
  | ConfirmEnd g => confirm_end g p
  | Restarted => restarted p
  | LoggedOutByOperator => invalidateLocked logged_out_by_operator (next_generation p)
  | Waited => waitCompletion p
  | Leave => leave_round p
  | Swap c => swap_client c p
  | Start n => start_attempt n p
  | Cancel => cancel_attempt p
  | Close g paired err => close_attempt g paired err p
  end.

Section Runs.
Context (short_line : string → string).
Abbreviation run := (foldl (apply short_line)).

(** Which credentials a phase may show. *)
Record credentials_ok (p : controller) : Prop := {
  code_phase_has_qr : State p ∈ [awaiting_qr; code_issued] → QR p ≠ None;
  qr_phases : QR p ≠ None → State p ∈ [awaiting_qr; code_issued; passkey_required; passkey_submitted; passkey_confirm];
  code_phases : PairCode p ≠ None → State p ∈ [code_issued; passkey_required; passkey_submitted; passkey_confirm];
  passkey_phase : Passkey p ≠ None → State p = passkey_required;
  confirm_phase : ConfirmationCode p ≠ "" → State p = passkey_confirm;
  calls_bounded : (codeCalls p ≤ 3)%nat;
  qr_sequence : ∀ q, QR p = Some q → (Sequence q ≤ sequence p)%nat;
}.

(** The parts [credentials_ok] reads. *)
Definition same_credentials (p q : controller) : Prop :=
  State p = State q ∧ QR p = QR q ∧ PairCode p = PairCode q ∧ Passkey p = Passkey q ∧ ConfirmationCode p = ConfirmationCode q
  ∧ codeCalls p = codeCalls q ∧ sequence p = sequence q.

Lemma same_credentials_ok p q : same_credentials p q → credentials_ok p → credentials_ok q.
Proof. intros (E1 & E2 & E3 & E4 & E5 & E6 & E7) [H1 H2 H3 H4 H5 H6 H7]. rewrite E1, E2, E3, E4, E5, E6, E7 in *. by split. Qed.

Lemma invalidate_ok ph p : credentials_ok p → ph ∉ [awaiting_qr; code_issued] → credentials_ok (invalidateLocked ph p).
Proof. intros Hp Hph. split; cbn; try done. apply Hp. Qed.

(** The goals of [credentials_ok] that the update did not touch. *)
Ltac keep Hp := split; cbn; try done; try (exact (calls_bounded _ Hp)); try (exact (qr_sequence _ Hp)); try set_solver.

Lemma off_list (a : phase) (l : list phase) : a ∈ l → bool_decide (a ∈ l) = false → False.
Proof. intros Hin Hb. by apply bool_decide_eq_false in Hb. Qed.

Lemma observe_credentials g now evt p : credentials_ok p → credentials_ok (observe short_line g now evt p).
Proof.
  intros Hp. unfold observe. destruct (negb _); [done|].
  destruct evt as [payload valid|req|[[code []]|]| | |[e|]]; try done.
  - destruct (completing p || _) eqn:Hc; [done|]. apply orb_false_iff in Hc as [_ Hph%bool_decide_eq_false].
    split; cbn; try done.
    + intros _. destruct (PairCode p) eqn:Hpc; [|set_solver].
      pose proof (code_phases _ Hp ltac:(by rewrite Hpc)) as Hin. set_solver.
    + intros Hpc. destruct (PairCode p) eqn:E; [|done]. apply (code_phases _ Hp). by rewrite E.
    + intros Hk. pose proof (passkey_phase _ Hp Hk). set_solver.
    + intros Hk. pose proof (confirm_phase _ Hp Hk). set_solver.
    + apply Hp.
    + intros q [= <-]. done.
  - keep Hp.
  - keep Hp.
  - apply invalidate_ok; [done|set_solver].
  - destruct (is_passkey _); [|apply invalidate_ok; [done|set_solver]]. keep Hp.
  - destruct (is_passkey _); [|apply invalidate_ok; [done|set_solver]]. keep Hp.
Qed.

Lemma event_credentials e p : credentials_ok p → credentials_ok (connectionEvent e p).
Proof.
  intros Hp. destruct e as [| | |on reason|]; cbn [connectionEvent]; try done.
  - apply invalidate_ok; [done|set_solver].
  - eapply same_credentials_ok; [|apply (invalidate_ok paired_ p Hp); set_solver]. done.
  - eapply same_credentials_ok; [|apply (invalidate_ok expired p Hp); set_solver]. done.
  - destruct (_ || _); [eapply same_credentials_ok; [|apply (invalidate_ok pairing_required p Hp); set_solver]; done|].
    eapply same_credentials_ok; [|apply (invalidate_ok logged_out p Hp); set_solver]. done.
Qed.

Lemma code_credentials paired now phone t p :
  credentials_ok p → credentials_ok (code_begin paired now phone p).1 ∧ credentials_ok (code_end paired now t p).1.
Proof.
  intros Hp. split.
  - unfold code_begin. destruct (negb _); [done|]. destruct (QR p) as [qr|] eqn:Hq; [|done].
    destruct (_ || _); [done|]. destruct (3 <=? codeCalls p)%nat eqn:Hc; [done|]. apply Nat.leb_gt in Hc.
    destruct Hp as [H1 H2 H3 H4 H5 H6 H7]. rewrite Hq in *. split; cbn; done || lia.
  - unfold code_end. destruct (_ && (now <? t_expires t)) eqn:Hc; [|done].
    apply andb_true_iff in Hc as [[[_ _]%andb_true_iff Hph%bool_decide_eq_true]%andb_true_iff _].
    pose proof (code_phase_has_qr _ Hp Hph) as Hq. keep Hp.
    + intros Hk. rewrite (passkey_phase _ Hp Hk) in Hph. by apply off_list in Hph.
    + intros Hk. rewrite (confirm_phase _ Hp Hk) in Hph. by apply off_list in Hph.
Qed.

Lemma passkey_credentials paired g now ch p :
  credentials_ok p →
  credentials_ok (response_commit paired g now ch p).1 ∧ credentials_ok (response_refused paired g ch p) ∧ credentials_ok (confirm_end g p).
Proof.
  intros Hp. split_and!.
  - unfold response_commit. destruct (_ && _) eqn:Hc; [|done]. unfold passkey_open in Hc.
    apply andb_true_iff in Hc as [[Ho _]%andb_true_iff _]. repeat (apply andb_true_iff in Ho as [Ho ?]).
    rewrite bool_decide_eq_true in *. keep Hp.
    intros Hk. pose proof (confirm_phase _ Hp Hk). congruence.
  - unfold response_refused. destruct (_ && _) eqn:Hc; [|done]. repeat (apply andb_true_iff in Hc as [Hc ?]).
    rewrite bool_decide_eq_true in *. keep Hp.
    intros Hk. pose proof (confirm_phase _ Hp Hk). congruence.
  - unfold confirm_end. destruct (_ && _) eqn:Hc; [|done]. apply andb_true_iff in Hc as [_ Hs%bool_decide_eq_true].
    keep Hp.
    intros Hk. pose proof (passkey_phase _ Hp Hk). congruence.
Qed.

Lemma apply_credentials p o : credentials_ok p → credentials_ok (apply short_line p o).
Proof.
  intros Hp. destruct o; cbn [apply].
  - by apply observe_credentials.
  - by apply event_credentials.
  - unfold beginCompletion. destruct (_ || _); [done|]. cbn [fst].
    eapply same_credentials_ok; [|apply (invalidate_ok completing_ p Hp); set_solver]. done.
  - unfold finishRetiredCompletion. destruct (Nat.eqb _ _); [|done]. by eapply same_credentials_ok; [|exact Hp].
  - by apply code_credentials with (t := {| t_client := 0; t_generation := 0; t_expires := 0 |}).
  - by apply code_credentials with (phone := "").
  - by apply passkey_credentials.
  - by apply passkey_credentials with (now := 0).
  - by apply passkey_credentials with (paired := false) (now := 0) (ch := {| c_client := 0; c_request := None |}).
  - eapply same_credentials_ok; [|apply (invalidate_ok starting p Hp); set_solver]. done.
  - eapply same_credentials_ok; [|apply (invalidate_ok logged_out_by_operator p Hp); set_solver]. done.
  - unfold waitCompletion. destruct (owner p); [destruct (completing p)|..]; try done. by eapply same_credentials_ok; [|exact Hp].
  - unfold leave_round. destruct (owner p); try done. by eapply same_credentials_ok; [|exact Hp].
  - unfold swap_client. destruct (owner p); try done. by eapply same_credentials_ok; [|exact Hp].
  - unfold start_attempt. destruct (owner p); try done. split; cbn; try done; try lia; set_solver.
  - unfold cancel_attempt. destruct (owner p); try done. by eapply same_credentials_ok; [|exact Hp].
  - unfold close_attempt. destruct (negb _); [done|]. destruct paired; [apply invalidate_ok; [done|set_solver]|].
    destruct err; try (apply invalidate_ok; [done|set_solver]).
    eapply same_credentials_ok; [|apply (invalidate_ok passkey_failed p Hp); set_solver]. done.
Qed.

Lemma run_credentials ops p : credentials_ok p → credentials_ok (run p ops).
Proof. revert p. induction ops as [|o l IH]; intros p Hp; [done|]. cbn. by apply IH, apply_credentials. Qed.

Lemma initial_credentials c : credentials_ok (newOperatorPairing c).
Proof. split; cbn; try done; [set_solver|lia]. Qed.

(** An operator sees only current credentials.  Whatever events, requests,
    restarts and attempts came before, a QR or pairing code that is shown has not
    expired and belongs to an unpaired bridge in a phase that uses it; a passkey
    challenge is shown only while one is required, and a confirmation code only
    while it is to be confirmed. *)
Theorem shown_credentials_current (c : nat) (ops : list op) (now : Z) (logout paired connected : bool) :
  let v := snapshot now logout paired connected (run (newOperatorPairing c) ops) in
  (∀ q, QR v = Some q → now < QRExpires q ∧ (logout = true ∨ paired = false)
        ∧ State v ∈ [awaiting_qr; code_issued; passkey_required; passkey_submitted; passkey_confirm])
  ∧ (∀ e, PairCode v = Some e → now < e ∧ (logout = true ∨ paired = false)
        ∧ State v ∈ [code_issued; passkey_required; passkey_submitted; passkey_confirm])
  ∧ (Passkey v ≠ None → State v = passkey_required ∧ unexpired now (StepExpiresAt v) = true)
  ∧ (ConfirmationCode v ≠ "" → State v = passkey_confirm ∧ unexpired now (StepExpiresAt v) = true).
Proof.
  assert (credentials_ok (run (newOperatorPairing c) ops)) as Hp by (apply run_credentials, initial_credentials).
  set (p := run _ ops) in *. cbv zeta. unfold snapshot. destruct (negb logout && paired) eqn:Hl; [split_and!; done|].
  assert (logout = true ∨ paired = false) as Hu by (destruct logout, paired; auto).
  split_and!; cbn.
  - intros q Hq. destruct (QR p) as [qr|] eqn:E; [|by destruct (unexpired _ _)]. cbn in Hq.
    destruct (now <? QRExpires qr) eqn:Hx; [|done]. injection Hq as <-. split_and!; [lia|done|]. apply (qr_phases _ Hp). by rewrite E.
  - intros e He. destruct (PairCode p) as [at_|] eqn:E; [|done]. cbn in He.
    destruct (now <? at_) eqn:Hx; [|done]. injection He as <-. split_and!; [lia|done|]. apply (code_phases _ Hp). by rewrite E.
  - intros Hk. destruct (unexpired now (StepExpiresAt p)); [|done]. split; [by apply (passkey_phase _ Hp)|done].
  - intros Hk. destruct (unexpired now (StepExpiresAt p)); [|done]. split; [by apply (confirm_phase _ Hp)|done].
Qed.

(** *** Pairing codes per attempt *)

Definition asked (o : op) (p : controller) : bool :=
  match o with CodeBegin paired now phone => is_ok (code_begin paired now phone p).2 | _ => false end.

(** The pairing codes requested from WhatsApp in a run. *)
Fixpoint codes_asked (ops : list op) (p : controller) : nat :=
  match ops with
  | [] => 0
  | o :: l => ((if asked o p then 1 else 0) + codes_asked l (apply short_line p o))%nat
  end.

Definition starts (o : op) : bool := match o with Start _ => true | _ => false end.

Lemma apply_calls p o : starts o = false → codeCalls (apply short_line p o) = ((if asked o p then 1 else 0) + codeCalls p)%nat.
Proof.
  destruct o; try done; intros _; cbn [apply asked].
  - unfold observe. by repeat case_match.
  - unfold connectionEvent. by repeat case_match.
  - unfold beginCompletion. by destruct (_ || _).
  - unfold finishRetiredCompletion. by case_match.
  - unfold code_begin. repeat case_match; simplify_eq; done.
  - unfold code_end. by destruct (_ && _).
  - unfold response_commit. by destruct (_ && _).
  - unfold response_refused. by destruct (_ && _).
  - unfold confirm_end. by destruct (_ && _).
  - unfold waitCompletion. by repeat case_match.
  - unfold leave_round. by case_match.
  - unfold swap_client. by case_match.
  - unfold cancel_attempt. by case_match.
  - unfold close_attempt. by repeat case_match.
Qed.

Lemma run_calls ops p : forallb (λ o, negb (starts o)) ops = true → (codeCalls (run p ops) = codes_asked ops p + codeCalls p)%nat.
Proof.
  revert p. induction ops as [|o l IH]; intros p Hs; [done|]. cbn in *. apply andb_true_iff in Hs as [Ho%negb_true_iff Hl].
  rewrite IH, apply_calls by done. lia.
Qed.

(** At most three pairing codes are requested between the start of one attempt and the
    next, however the requests interleave with events, refusals and restarts. *)
Theorem code_budget (c : nat) (before ops : list op) (Hs : forallb (λ o, negb (starts o)) ops = true) :
  (codes_asked ops (run (newOperatorPairing c) before) ≤ 3)%nat.
Proof.
  pose proof (run_calls ops (run (newOperatorPairing c) before) Hs) as Hc.
  assert (credentials_ok (run (run (newOperatorPairing c) before) ops)) as Hp
    by (apply run_credentials, run_credentials, initial_credentials).
  pose proof (calls_bounded _ Hp). lia.
Qed.

(** *** Saving a new device *)

(** The steps that end the completion of client [c]. *)
Definition ends_completion (c : nat) (o : op) : bool :=
  match o with Event PairSuccess | Event PairError => true | Finish c' => Nat.eqb c c' | _ => false end.

Definition admitted (o : op) (p : controller) : bool :=
  match o with Begin shutdown paired c => (beginCompletion shutdown paired c p).2 | _ => false end.

(** An attempt is live only while [run] dials, and [run] is never past the wait of an
    attempt while a device is being saved. *)
Definition owner_ok (p : controller) : Prop :=
  (attempt_live p = Some true → owner p = Dialling) ∧ (completing p = true → owner p ≠ Past).

Lemma apply_owner p o : owner_ok p → owner_ok (apply short_line p o).
Proof.
  intros Hok. pose proof Hok as [Hl Hc]. destruct o; cbn [apply].
  - unfold observe. by repeat case_match.
  - unfold connectionEvent. destruct e; [by split|by split|by split| |by split].
    assert (∀ ph b, owner_ok (invalidateLocked ph (next_generation (invalidateLocked b p)))) as Hn by (intros; split; cbn; [by destruct (attempt_live p)|done]).
    destruct (_ || _); [exact (Hn pairing_required logged_out)|exact (Hn logged_out logged_out)].
  - unfold beginCompletion. destruct (_ || _) eqn:Hg; [done|]. repeat (apply orb_false_iff in Hg as [Hg ?]).
    split; cbn; [done|]. intros _ Hp. unfold attemptActiveLocked in *. rewrite negb_false_iff, bool_decide_eq_true in *.
    match goal with H : attempt_live p = Some true |- _ => apply Hl in H end. congruence.
  - unfold finishRetiredCompletion. by case_match.
  - unfold code_begin. by repeat case_match.
  - unfold code_end. by destruct (_ && _).
  - unfold response_commit. by destruct (_ && _).
  - unfold response_refused. by destruct (_ && _).
  - unfold confirm_end. by destruct (_ && _).
  - split; cbn; [by destruct (attempt_live p)|done].
  - split; cbn; [by destruct (attempt_live p)|done].
  - unfold waitCompletion. destruct (owner p) eqn:Ho; [|done..]. destruct (completing p) eqn:Hcp; [done|].
    split; cbn; [intros H1; by apply Hl in H1|congruence].
  - unfold leave_round. destruct (owner p) eqn:Ho; try done. split; cbn; [intros H1; by apply Hl in H1|done].
  - unfold swap_client. destruct (owner p) eqn:Ho; try done.
  - unfold start_attempt. destruct (owner p); try done.
  - unfold cancel_attempt. destruct (owner p); try done. split; cbn; [by destruct (attempt_live p)|done].
  - unfold close_attempt. by repeat case_match.
Qed.

Lemma run_owner ops p : owner_ok p → owner_ok (run p ops).
Proof. revert p. induction ops as [|o l IH]; intros p Hp; [done|]. cbn. by apply IH, apply_owner. Qed.

Lemma completing_step p o :
  owner_ok p → completing p = true → ends_completion (client p) o = false →
  completing (apply short_line p o) = true ∧ client (apply short_line p o) = client p ∧ admitted o p = false.
Proof.
  intros Hok Hc He. pose proof (proj2 Hok Hc) as Hpast. destruct o; cbn [apply admitted ends_completion] in *.
  - unfold observe. by repeat case_match.
  - destruct e; try done. unfold connectionEvent. by destruct (_ || _).
  - unfold beginCompletion. by rewrite Hc, orb_true_r.
  - unfold finishRetiredCompletion. by rewrite He.
  - unfold code_begin. by repeat case_match.
  - unfold code_end. by destruct (_ && _).
  - unfold response_commit. by destruct (_ && _).
  - unfold response_refused. by destruct (_ && _).
  - unfold confirm_end. by destruct (_ && _).
  - done.
  - done.
  - unfold waitCompletion. rewrite Hc. by destruct (owner p).
  - unfold leave_round. by destruct (owner p).
  - unfold swap_client. by destruct (owner p).
  - unfold start_attempt. by destruct (owner p).
  - unfold cancel_attempt. by destruct (owner p).
  - unfold close_attempt. by repeat case_match.
Qed.

(** While a device is being saved the owner makes no way towards a new attempt. *)
Definition held_back (q : controller) : Prop :=
  apply short_line q Waited = q ∧ (∀ c, apply short_line q (Swap c) = q) ∧ (∀ n, apply short_line q (Start n) = q).

Lemma completing_holds q : owner_ok q → completing q = true → held_back q.
Proof.
  intros [_ Hp] Hc. specialize (Hp Hc). unfold held_back. cbn [apply]. unfold waitCompletion, swap_client, start_attempt. rewrite Hc.
  by destruct (owner q).
Qed.

(** [C24] A device that is being saved is never replaced.  In any run of the controller, from the moment it
    admits the completion of a pairing, which it does only for the client of a live attempt, until its
    terminal event, no step changes the client, none admits a second completion, and a new attempt
    waits: [run] does not get past its wait, takes no new client and starts no attempt, whatever else happens; and the
    terminal event releases it, so that the next attempt may go on. *)
Theorem completion_protected (c0 : nat) (before ops : list op) (shutdown paired : bool) (c : nat)
    (Hadmit : (beginCompletion shutdown paired c (run (newOperatorPairing c0) before)).2 = true)
    (Hops : forallb (λ o, negb (ends_completion c o)) ops = true) :
  let p := run (newOperatorPairing c0) before in
  let q := run (beginCompletion shutdown paired c p).1 ops in
  (shutdown = false ∧ paired = false ∧ attempt_live p = Some true ∧ client p = c ∧ completing p = false) ∧
  client q = c ∧ completing q = true ∧
  (∀ shutdown' paired' c', beginCompletion shutdown' paired' c' q = (q, false)) ∧
  held_back q ∧
  (∀ o, ends_completion c o = true → owner q = Parked → owner (run q [o; Waited]) = Past).
Proof.
  intros p. assert (owner_ok p) as Hok by (apply run_owner; by split).
  fold p in Hadmit. pose proof (apply_owner p (Begin shutdown paired c) Hok) as Hok'. cbn [apply] in Hok'.
  unfold beginCompletion in *. destruct (_ || _) eqn:Hg; [done|]. cbn [fst snd] in *. clear Hadmit.
  repeat (apply orb_false_iff in Hg as [Hg ?]). unfold attemptActiveLocked in *. rewrite !negb_false_iff, !bool_decide_eq_true, Nat.eqb_eq in *.
  set (p' := invalidateLocked _ _) in *. assert (completing p' = true ∧ client p' = c) as [Hc' Hcl'] by done. clearbody p'.
  assert (∀ l, forallb (λ o, negb (ends_completion c o)) l = true → completing (run p' l) = true ∧ client (run p' l) = c ∧ owner_ok (run p' l)) as Hrun.
  { intros l. revert p' Hc' Hcl' Hok'. induction l as [|o l IH]; intros p' Hc' Hcl' Hok' Hl; [done|]. cbn in *.
    apply andb_true_iff in Hl as [Ho%negb_true_iff Hl].
    destruct (completing_step p' o Hok' Hc') as (Hs1 & Hs2 & _); [by rewrite Hcl'|]. apply IH; rewrite ?Hs2; try done. by apply apply_owner. }
  destruct (Hrun ops Hops) as (Hq1 & Hq2 & Hq3). cbv zeta. set (q := run p' ops) in *. split_and!; try done.
  - intros shutdown' paired' c'. rewrite Hq1. by rewrite orb_true_r.
  - by apply completing_holds.
  - intros o Ho Hpos. cbn [foldl apply]. unfold waitCompletion.
    assert (owner (apply short_line q o) = Parked ∧ completing (apply short_line q o) = false) as [-> ->]; [|done].
    destruct o as [|[]| |c'| | | | | | | | | | | | |]; try done; cbn [apply ends_completion] in *. unfold finishRetiredCompletion.
    apply Nat.eqb_eq in Ho as <-. by rewrite Hq2, Nat.eqb_refl.
Qed.

(** *** Attempts that moved on *)

(** The generation a step was prepared for. *)
Definition belongs_to (o : op) : option Z :=
  match o with
  | Observe g _ _ | ResponseCommit _ g _ _ | ResponseRefused _ g _ | ConfirmEnd g | Close g _ _ => Some g
  | CodeEnd _ _ t => Some (t_generation t)
  | _ => None
  end.

(** A superseded attempt is silent: an item of its QR channel, the answer to
    its pairing code or passkey, and its end change nothing. *)
Theorem superseded_silent (p : controller) (o : op) (g : Z) (Hg : belongs_to o = Some g) (Hold : g ≠ Generation p) :
  apply short_line p o = p.
Proof.
  destruct o; try done; cbn in Hg; injection Hg as <-; cbn [apply].
  - unfold observe. by rewrite (proj2 (Z.eqb_neq _ _) Hold).
  - unfold code_end. rewrite (proj2 (Z.eqb_neq _ _) Hold), andb_false_r. by rewrite !andb_false_l.
  - unfold response_commit, passkey_open. rewrite (proj2 (Z.eqb_neq _ _) Hold), andb_false_r. by rewrite !andb_false_l.
  - unfold response_refused. rewrite (proj2 (Z.eqb_neq _ _) (not_eq_sym Hold)), andb_false_r. by rewrite !andb_false_l.
  - unfold confirm_end. by rewrite (proj2 (Z.eqb_neq _ _) (not_eq_sym Hold)).
  - unfold close_attempt. by rewrite (proj2 (Z.eqb_neq _ _) Hold).
Qed.

(** Restarts, logouts and new attempts supersede the attempt before them. *)
Lemma new_generation p o :
  o = Restarted ∨ o = LoggedOutByOperator ∨ (∃ n, o = Start n ∧ owner p = Past) →
  0 ≤ Generation p < 2 ^ 64 → Generation (apply short_line p o) ≠ Generation p.
Proof.
  intros Ho Hr. assert (Generation (apply short_line p o) = wrap_uint64 (Generation p + 1)) as ->
    by (destruct Ho as [->|[->|(n & -> & Hc)]]; cbn [apply]; [done|done|unfold start_attempt; by rewrite Hc]).
  unfold wrap_uint64. intros Heq. destruct (decide (Generation p + 1 = 2 ^ 64)) as [E|E].
  - rewrite E, Z.mod_same in Heq by lia. lia.
  - rewrite Z.mod_small in Heq by lia. lia.
Qed.
End Runs.

(** *** Restarting *)

(** A restart is guarded: it is accepted only for an unpaired bridge whose
    local session is wiped if the operator logged out, with no unexpired
    temporary ban and no outdated client, when no device is being saved and the
    attempt is parked or the account is restricted; the restriction cleared is
    the one that was read, and its file is gone.  A refusal leaves the controller
    alone. *)
Theorem restart_guarded (w : restart_world) (seen : option (nat * ConnectionProblem)) (c : ConnectionProblem.state) (p : controller) :
  let '(c', p', r) := restart w seen c p in
  match r with
  | Err _ => p' = p
  | Ok _ =>
      p' = restarted p ∧ r_paired w = false ∧ completing p = false
      ∧ (operatorLogout c = true → session_wiped w = true) ∧ operatorLogout c' = false
      ∧ (parked p = true ∨ restrictsAccountAt (r_now w) (snd <$> seen) = true)
      ∧ (∀ id q, seen = Some (id, q) → Kind q ≠ "client_outdated"
            ∧ (Kind q = "temporarily_banned" → ∀ e, ConnectionProblem.ExpiresAt q = Some e → e ≤ r_now w))
      ∧ (fst <$> problem c) = (fst <$> seen) ∧ problemPersistenceFailed c' = false
  end.
Proof.
  unfold restart. destruct (restart_refused w seen c) as [r|] eqn:Hr; [done|].
  destruct (pairing_active (r_now w) seen p) eqn:Ha; [done|].
  destruct (resolveConnectionProblemIf (fst <$> seen) (io_ok w) c) as [c' same] eqn:Hres.
  destruct same; cbn [negb]; [|done]. destruct (problemPersistenceFailed c') eqn:Hpf; [done|].
  assert ((fst <$> problem c) = (fst <$> seen)) as Hid.
  { unfold resolveConnectionProblemIf in Hres. destruct (bool_decide _) eqn:Hb; [by apply bool_decide_eq_true in Hb|done]. }
  unfold pairing_active in Ha. apply orb_false_iff in Ha as [Hc Hp].
  assert (parked p = true ∨ restrictsAccountAt (r_now w) (snd <$> seen) = true) as Hpark
    by (destruct (parked p), (restrictsAccountAt (r_now w) (snd <$> seen)); auto).
  unfold restart_refused in Hr. destruct (operatorLogout c && negb (session_wiped w)) eqn:Hl; [done|].
  destruct (r_paired w) eqn:Hpd; [done|].
  assert (operatorLogout c = true → session_wiped w = true) as Hw by (intros E; rewrite E in Hl; by apply negb_false_iff in Hl).
  assert (∀ id q, seen = Some (id, q) → Kind q ≠ "client_outdated"
            ∧ (Kind q = "temporarily_banned" → ∀ e, ConnectionProblem.ExpiresAt q = Some e → e ≤ r_now w)) as Hkind.
  { intros id q ->. cbn in Hr. destruct (String.eqb_spec (Kind q) "temporarily_banned") as [Ek|Ek]; cbn in Hr.
    - split; [by rewrite Ek|]. intros _ e He. rewrite He in Hr. destruct (r_now w <? e) eqn:Hx; [done|]. lia.
    - destruct (String.eqb_spec (Kind q) "client_outdated"); [done|]. split; [done|]. congruence. }
  destruct (operatorLogout c') eqn:Hlo; [destruct (idle_cleared w); [|done]|]; split_and!; done.
Qed.

(** *** The loop over attempts *)

(** Endings that do not start the attempts over. *)
Definition quiet (e : ending) : Prop := match e with NewBan | TransportFailed true | QRFailed true => False | _ => True end.

Definition is_qr (e : ending) : bool := match e with QRFailed _ => true | _ => false end.

Lemma attempts_parks es n :
  Forall quiet es → (Attempts < n + length (filter (λ e, is_qr e = true) es))%nat → (attempts_loop n es).2 = true.
Proof.
  revert n. induction es as [|e l IH]; intros n Hq Hn.
  - cbn in Hn. unfold attempts_loop. by rewrite (proj2 (Nat.ltb_lt _ _)) by lia.
  - inversion Hq as [|? ? He Hl]; subst. rewrite filter_cons in Hn. cbn [attempts_loop].
    destruct (Attempts <? n)%nat; [done|]. destruct e as [| | |k|k]; cbn [is_qr] in Hn; try done.
    + destruct k; [done|]. rewrite decide_False in Hn by done.
      specialize (IH n Hl Hn). destruct (attempts_loop n l). done.
    + destruct k; [done|]. rewrite decide_True in Hn by done. cbn [andb length] in *.
      specialize (IH (S n) Hl ltac:(lia)). destruct (attempts_loop (S n) l). done.
Qed.

Lemma attempts_numbered es n : (0 < n)%nat → Forall (λ m, 1 ≤ m ≤ Attempts)%nat (attempts_loop n es).1.
Proof.
  revert n. induction es as [|e l IH]; intros n Hn; cbn [attempts_loop]; destruct (Attempts <? n)%nat eqn:Hlt; try done.
  apply Nat.ltb_ge in Hlt.
  assert (∀ k, (0 < k)%nat → Forall (λ m, 1 ≤ m ≤ Attempts)%nat (let '(made, parked) := attempts_loop k l in (n :: made, parked)).1) as Hgo.
  { intros k Hk. specialize (IH k Hk). destruct (attempts_loop k l). apply Forall_cons. split; [lia|done]. }
  destruct e as [| | |k|k]; cbn [fst]; [done|apply Forall_cons; split; [lia|done]|apply Hgo; lia| |].
  - apply Hgo. destruct k; lia.
  - apply Hgo. destruct (k && _); lia.
Qed.

(** The attempts are bounded: a sequence in which nobody restarts and no new
    ban comes parks after at most three QR attempts, transport failures not
    counted, and the pause after a transport failure is positive and at most a
    minute. *)
Theorem attempts_bounded (es : list ending) (Hq : Forall quiet es) (H3 : (3 ≤ length (filter (λ e, is_qr e = true) es))%nat) :
  (attempts_loop 1 es).2 = true
  ∧ Forall (λ m, 1 ≤ m ≤ Attempts)%nat (attempts_loop 1 es).1
  ∧ ∀ retry failures, 0 < transport_delay retry failures ≤ 60 * 10 ^ 9.
Proof.
  split_and!.
  - apply attempts_parks; [done|]. unfold Attempts. lia.
  - apply attempts_numbered. lia.
  - assert (∀ n d, 0 < d ≤ 60 * 10 ^ 9 → 0 < double_delay n d ≤ 60 * 10 ^ 9) as Hd.
    { induction n as [|n IH]; intros d Hd; cbn [double_delay]; [done|]. destruct (d <? _); [|done]. apply IH. lia. }
    intros retry failures. unfold transport_delay. apply Hd. destruct (_ <=? 0) eqn:Hx; lia.
Qed.

Lemma attempts_bounded_witness :
  (attempts_loop 1 [QRFailed false; TransportFailed false; QRFailed false; QRFailed false; QRFailed false]).1 = [1; 2; 2; 3]%nat
  ∧ (attempts_loop 1 [QRFailed false; TransportFailed false; QRFailed false; QRFailed false; QRFailed false]).2 = true.
Proof.
  destruct (attempts_bounded [QRFailed false; TransportFailed false; QRFailed false; QRFailed false; QRFailed false]) as (Hp & _);
    [repeat constructor|vm_compute; lia|]. split; [reflexivity|exact Hp].
Defined.

(** A scanned code whose device is being saved while the operator restarts. *)
Definition sample_ops : list op :=
  [Waited; Start 1; Observe 1 0 (CodeItem "qr" 20); CodeBegin false 1 "4915112345678";
   CodeEnd false 2 {| t_client := 0; t_generation := 1; t_expires := 20 |}].

Lemma code_budget_witness :
  (codes_asked (λ s, s) [Observe 1 0 (CodeItem "qr" 20); CodeBegin false 1 "4915112345678"; CodeBegin false 1 "4915112345678";
     CodeBegin false 1 "4915112345678"; CodeBegin false 1 "4915112345678"] (foldl (apply (λ s, s)) (newOperatorPairing 0) [Waited; Start 1]) = 3)%nat
  ∧ (codes_asked (λ s, s) [CodeBegin false 1 "4915112345678"] (foldl (apply (λ s, s)) (newOperatorPairing 0) [Waited; Start 1]) ≤ 3)%nat.
Proof. split; [vm_compute; reflexivity|]. apply (code_budget (λ s, s) 0 [Waited; Start 1] [CodeBegin false 1 "4915112345678"]). reflexivity. Defined.

Lemma completion_protected_witness :
  let p := foldl (apply (λ s, s)) (newOperatorPairing 0) sample_ops in
  client (foldl (apply (λ s, s)) (beginCompletion false false 0 p).1 [Restarted; Cancel; Waited; Swap 7; Start 2]) = 0%nat.
Proof.
  intros p. destruct (completion_protected (λ s, s) 0 sample_ops [Restarted; Cancel; Waited; Swap 7; Start 2] false false 0) as (_ & Hc & _);
    [vm_compute; reflexivity|vm_compute; reflexivity|exact Hc].
Defined.

Lemma superseded_silent_witness :
  let p := foldl (apply (λ s, s)) (newOperatorPairing 0) sample_ops in
  apply (λ s, s) p (Observe 7 3 (CodeItem "late" 20)) = p.
Proof. intros p. apply (superseded_silent (λ s, s) p _ 7); [reflexivity|vm_compute; discriminate]. Defined.

End Controller.

(** ** The operator's logout ([operator_logout.go]) *)

Module Logout.

(** What survives a crash: the row of [operator_state] (its [local_session_wiped]
    column, [None] for no row), the rows with the session keys, what free pages of the
    session database and its WAL may still hold of them, and the session snapshots. *)
Record durable := { idle_row : option bool; keys : bool; free_pages : bool; wal : bool; copies : bool }.

(** The flags of the process; [has_id] is [client.Store.ID != nil]. *)
Record flags := { logged_out : bool; session_wiped : bool; paired : bool; published : string; has_id : bool }.

Definition idle_state : string := "logged_out_by_operator".

(** [restoreOperatorIdle] at startup. *)
Definition restoreOperatorIdle (is_paired : bool) (d : durable) (f : flags) : flags :=
  match idle_row d with
  | Some wiped => {| logged_out := true; session_wiped := wiped && negb is_paired; paired := paired f; published := idle_state; has_id := has_id f |}
  | None => f
  end.

(** The outcomes of one request: the writes of the idle row, the drains, the
    SDK's logout (which deletes the keys when it succeeds), the steps of the wipe and the
    removal of snapshots. *)
Record world := {
  after : string;
  action_free : bool;
  save_ok : bool;
  archives_drained : bool;
  clients_drained : bool;
  server_error : option string;
  session_open : bool;
  delete_keys_ok : bool;
  vacuum_ok : bool;
  checkpoint_ok : bool;
  snapshots_ok : bool;
  mark_ok : bool;
  delete_ok : bool;
}.

Inductive logout_reply : Type :=
| Refused (r : Http.reply)
| WipeFailed (server_unlinked : bool)
| Wiped (server_unlinked exits : bool).

(** The pinned SDK deletes only after the server unlinked the device. *)
Definition serverUnlinked (e : option string) : bool :=
  match e with None => true | Some m => has_prefix "error deleting data from store:" m end.

Definition refuse (st : Z) (code msg : string) : logout_reply := Refused (Http.writeErrorCode st code msg).

(** The durable effects: deleting the rows leaves them in the WAL, [VACUUM] writes a new
    WAL, and the checkpoint truncates it. *)
Definition set_row (row : option bool) (d : durable) : durable :=
  {| idle_row := row; keys := keys d; free_pages := free_pages d; wal := wal d; copies := copies d |}.
Definition delete_keys (d : durable) : durable := {| idle_row := idle_row d; keys := false; free_pages := free_pages d; wal := true; copies := copies d |}.
Definition vacuum (d : durable) : durable := {| idle_row := idle_row d; keys := keys d; free_pages := false; wal := true; copies := copies d |}.
Definition checkpoint (d : durable) : durable := {| idle_row := idle_row d; keys := keys d; free_pages := free_pages d; wal := false; copies := copies d |}.
Definition drop_copies (d : durable) : durable := {| idle_row := idle_row d; keys := keys d; free_pages := free_pages d; wal := wal d; copies := false |}.

(** [performLogout]: the state and whether the device still has its id. *)
Definition performLogout (w : world) (d : durable) (id : bool) : durable * bool :=
  match server_error w with None => (delete_keys d, false) | Some _ => (d, id) end.

(** [wipeOperatorSession]: the states it writes, the last of them, whether the device
    still has its id, and whether it succeeded; each step that fails ends it. *)
Definition wipeOperatorSession (w : world) (d : durable) (id : bool) : list durable * durable * bool * bool :=
  if negb (session_open w) then ([], d, id, false)
  else if id && negb (delete_keys_ok w) then ([], d, id, false)
  else
    let d1 := if id then delete_keys d else d in
    if negb (vacuum_ok w) then ([d1], d1, false, false)
    else
      let d2 := vacuum d1 in
      if negb (checkpoint_ok w) then ([d1; d2], d2, false, false)
      else ([d1; d2; checkpoint d2], checkpoint d2, false, true).

(** [logout]: the durable states in the order they are written, the flags and
    the reply.  The caller's state is the first. *)
Definition logout (w : world) (d : durable) (f : flags) : list durable * flags * logout_reply :=
  let target := if String.eqb (after w) "" then "exit" else after w in
  if negb (String.eqb target "exit") && negb (String.eqb target "idle") then ([d], f, Refused (Http.writeError 400 "after must be exit or idle"))
  else if negb (action_free w) then ([d], f, refuse 409 "pairing_busy" "Another operator action is running")
  else if (logged_out f && session_wiped f) || (negb (logged_out f) && negb (paired f))
  then ([d], f, refuse 409 "not_paired" "No linked device to unlink")
  else if negb (save_ok w) then ([d], f, refuse 503 "state_persistence_failed" "Operator idle state could not be saved")
  else
    let d1 := set_row (Some false) d in
    let wiped := if logged_out f then session_wiped f else false in
    if negb (archives_drained w)
    then ([d; d1], {| logged_out := true; session_wiped := wiped; paired := paired f; published := published f; has_id := has_id f |},
          refuse 503 "archive_busy" "Session archive readers are still closing; retry operator logout")
    else if negb (clients_drained w)
    then ([d; d1], {| logged_out := true; session_wiped := wiped; paired := paired f; published := idle_state; has_id := has_id f |},
          refuse 503 "client_busy" "Client operations are still running; retry operator logout")
    else
      let unlinked := serverUnlinked (server_error w) in
      let '(d2, id) := performLogout w d1 (has_id f) in
      let '(ds, d3, id, wipe_ok) := wipeOperatorSession w d2 id in
      let d4 := if snapshots_ok w then drop_copies d3 else d3 in
      let written := [d; d1; d2] ++ ds ++ [d4] in
      if wipe_ok && snapshots_ok w && mark_ok w then
        let d5 := set_row (Some true) d4 in
        let exits := String.eqb target "exit" in
        (written ++ [d5] ++ (if exits && delete_ok w then [set_row None d5] else []),
         {| logged_out := true; session_wiped := true; paired := false; published := idle_state; has_id := id |}, Wiped unlinked exits)
      else (written, {| logged_out := true; session_wiped := wiped; paired := paired f; published := idle_state; has_id := id |}, WipeFailed unlinked).

(** Nothing of the session is left. *)
Definition gone (d : durable) : Prop := keys d = false ∧ free_pages d = false ∧ wal d = false ∧ copies d = false.

(** A durable state the request wrote: the next start is parked by an unconfirmed idle
    row and does not take the wipe for a finished one, or nothing of the session is left and
    the logout would have said so. *)
Definition crash_point (r : logout_reply) (d' : durable) : Prop :=
  (idle_row d' = Some false ∧
   ∀ is_paired f, logged_out (restoreOperatorIdle is_paired d' f) = true ∧ session_wiped (restoreOperatorIdle is_paired d' f) = false) ∨
  (gone d' ∧ ∃ unlinked exits, r = Wiped unlinked exits ∧ (idle_row d' = Some true ∨ idle_row d' = None ∧ exits = true)).

Lemma unconfirmed r d' : idle_row d' = Some false → crash_point r d'.
Proof. intros Hr. left. split; [done|]. intros is_paired f. unfold restoreOperatorIdle. by rewrite Hr. Qed.

(** The wipe writes under the row it finds, and succeeds only when its three steps did. *)
Lemma wipe_writes w d id :
  let '(ds, d', id', ok) := wipeOperatorSession w d id in
  Forall (λ x, idle_row x = idle_row d) (ds ++ [d']) ∧ copies d' = copies d ∧
  ((keys d = true → id = true) → (keys d' = true → id' = true) ∧ (ok = true → keys d' = false ∧ free_pages d' = false ∧ wal d' = false)).
Proof.
  unfold wipeOperatorSession. destruct (session_open w); cbn [negb]; [|split_and!; [by repeat constructor|done|by split]].
  destruct id; cbn [andb].
  - destruct (delete_keys_ok w), (vacuum_ok w), (checkpoint_ok w); cbn; (split_and!; [by repeat constructor|done|by split]).
  - destruct (vacuum_ok w), (checkpoint_ok w); cbn; (split_and!; [by repeat constructor|done|]);
      intros Hk; (destruct (keys d); [by specialize (Hk eq_refl)|by split]).
Qed.

(** [C25] Logging out survives a crash anywhere, for a device whose rows are on disk only
    while the client knows its id.  If the process dies after any of
    the durable writes of a logout (the idle row, the SDK's deletion, the deletion, [VACUUM] and checkpoint of the wipe, the removal of
    the session snapshots, the confirmation, the deletion of the row), the next start is parked and does not take
    the wipe for a finished one, unless the keys, what free pages and the WAL held of them and the session snapshots are all gone and the logout was a success.
    A finished logout means they are gone, whatever the server said; a failed
    wipe, also one that failed after deleting the keys, leaves the process and the row parked, and the request can be repeated; a refusal
    leaves the session alone. *)
Theorem logout_crash_safe (w : world) (d : durable) (f : flags) (Hid : keys d = true → has_id f = true) :
  let '(ds, f', r) := logout w d f in
  ∃ rest, ds = d :: rest ∧ Forall (crash_point r) rest ∧
  match r with
  | Wiped _ _ => gone (List.last ds d) ∧ session_wiped f' = true ∧ paired f' = false
  | WipeFailed _ => logged_out f' = true ∧ idle_row (List.last ds d) = Some false ∧ session_wiped f' = (logged_out f && session_wiped f)
                    ∧ (keys (List.last ds d) = true → has_id f' = true)
  | Refused _ => has_id f' = has_id f ∧ Forall (λ d', keys d' = keys d ∧ copies d' = copies d) ds
  end.
Proof.
  unfold logout. set (target := if String.eqb (after w) "" then _ else _). clearbody target.
  destruct (_ && _); [exists []; by repeat constructor|]. destruct (negb (action_free w)); [exists []; by repeat constructor|].
  destruct (_ || _); [exists []; by repeat constructor|]. destruct (negb (save_ok w)); [exists []; by repeat constructor|].
  set (d1 := set_row (Some false) d). assert (∀ r, crash_point r d1) as H1 by (intros; by apply unconfirmed).
  destruct (negb (archives_drained w)); [exists [d1]; by repeat constructor|].
  destruct (negb (clients_drained w)); [exists [d1]; by repeat constructor|].
  assert (let '(d2, id) := performLogout w d1 (has_id f) in idle_row d2 = Some false ∧ (keys d2 = true → id = true)) as H2.
  { unfold performLogout. by destruct (server_error w). }
  destruct (performLogout w d1 (has_id f)) as [d2 id]. destruct H2 as [H2 Hid2]. pose proof (wipe_writes w d2 id) as Hw.
  destruct (wipeOperatorSession w d2 id) as [[[ds d3] id'] ok]. destruct Hw as ([Hds [H3 _]%Forall_cons]%Forall_app & _ & Hw).
  destruct (Hw Hid2) as [Hid3 Hgone]. rewrite H2 in Hds, H3. set (d4 := if snapshots_ok w then drop_copies d3 else d3).
  assert (idle_row d4 = Some false ∧ keys d4 = keys d3) as [H4 Hk4] by (cbn in H3; unfold d4; destruct (snapshots_ok w); split; done).
  assert (∀ r, Forall (crash_point r) ([d1; d2] ++ ds ++ [d4])) as Hall.
  { intros r. apply Forall_app. split; [apply Forall_cons; split; [done|]; apply Forall_singleton; by apply unconfirmed|].
    apply Forall_app. split; [|apply Forall_singleton; by apply unconfirmed]. eapply Forall_impl; [exact Hds|]. intros x. apply unconfirmed. }
  destruct (ok && snapshots_ok w && mark_ok w) eqn:Hok.
  - apply andb_true_iff in Hok as [[-> Hsn]%andb_true_iff _]. destruct (Hgone eq_refl) as (G1 & G2 & G3).
    assert (∀ row, gone (set_row row d4)) as Hg by (intros row; unfold d4; by rewrite Hsn).
    exists (([d1; d2] ++ ds ++ [d4]) ++ [set_row (Some true) d4] ++ (if String.eqb target "exit" && delete_ok w then [set_row None (set_row (Some true) d4)] else [])).
    split; [done|]. split.
    + apply Forall_app. split; [apply Hall|]. apply Forall_cons. split; [right; split; [apply Hg|]; eauto 10|].
      destruct (String.eqb target "exit"), (delete_ok w); cbn [andb]; [apply Forall_singleton|by constructor..].
      right. split; [exact (Hg None)|]. eauto 10.
    + split_and!; [|done|done]. destruct (_ && delete_ok w); [rewrite app_assoc, last_last; exact (Hg None)|].
      rewrite app_nil_r, last_last. apply Hg.
  - exists ([d1; d2] ++ ds ++ [d4]). split; [done|]. split; [apply Hall|].
    change ([d; d1; d2] ++ ds ++ [d4]) with ([d; d1; d2] ++ (ds ++ [d4])). rewrite app_assoc, last_last, Hk4.
    split_and!; [done|done|by destruct (logged_out f)|exact Hid3].
Qed.

(** The server refuses, the checkpoint is busy: the keys are deleted and the bridge stays
    parked. *)
Definition linked : durable := {| idle_row := None; keys := true; free_pages := true; wal := true; copies := true |}.
Definition running : flags := {| logged_out := false; session_wiped := false; paired := true; published := ""; has_id := true |}.
Definition busy_checkpoint : world :=
  {| after := "idle"; action_free := true; save_ok := true; archives_drained := true; clients_drained := true; server_error := Some "timeout";
     session_open := true; delete_keys_ok := true; vacuum_ok := true; checkpoint_ok := false; snapshots_ok := true; mark_ok := true; delete_ok := true |}.

Lemma logout_crash_safe_witness :
  (logout busy_checkpoint linked running).2 = WipeFailed false ∧ (logout busy_checkpoint linked running).1.2.(logged_out) = true ∧
  keys (List.last (logout busy_checkpoint linked running).1.1 linked) = false.
Proof.
  pose proof (logout_crash_safe busy_checkpoint linked running (λ _, eq_refl)) as H.
  split; [reflexivity|]. split; [|reflexivity]. destruct (logout busy_checkpoint linked running) as [[ds f'] r] eqn:E.
  assert (r = WipeFailed false) as -> by (by vm_compute in E; injection E as _ _ <-). by destruct H as (rest & _ & _ & Hl & _).
Defined.

End Logout.
