(* ===== verification/Groups.v ===== *)
(** * Groups

    [Members] ([group_members_store.go]): the membership table and its four
    feeds.  [Roster] ([group_events.go], [group_members.go]): rows from rosters
    and events, the backoff of groups that cannot be read, the pass over stale
    rosters.  [Manage] ([group_manage.go]): the handlers that change a group.
    The client library is a parameter; stored times are whole seconds. *)
From S2P Require Import Prelude Jid Http ChatPolicy StoreTime Archive SendLimits Send.
#[local] Open Scope Z_scope.

Module Members.

Inductive source : Type := SourceRoster | SourceEvent | SourceMessage.

#[export] Instance source_eq_dec : EqDecision source.
Proof. solve_decision. Defined.

(** [groupMemberRow]: one participant as a feed sees it. *)
Record groupMemberRow := {
  User_ : string; Phone : string; LID : string; Name : string; IsAdmin : bool; IsSuperAdmin : bool;
}.

(** A row of [group_members]; [last_seen] may be NULL. *)
Record member := {
  lid : string; phone : string; name : string; is_admin : bool; is_super_admin : bool;
  first_seen : Z; last_seen : option Z; src : source;
}.

(** Keyed by group and user. *)
Abbreviation members := (gmap (string * string) member).

Definition bareUser (jid : string) : string :=
  let s := trim_space jid in match cut_first "@" s with Some (u, _) => u | None => s end.

Definition newGroupMemberRow (jid phone lid : string) : option groupMemberRow :=
  let p := bareUser phone in
  let l := bareUser lid in
  let user := if negb (String.eqb p "") then p else if negb (String.eqb l "") then l else bareUser jid in
  if String.eqb user "" then None
  else Some {| User_ := user; Phone := p; LID := l; Name := ""; IsAdmin := false; IsSuperAdmin := false |}.

(** [COALESCE(NULLIF(new, ''), old)]. *)
Definition keep (new old : string) : string := if String.eqb new "" then old else new.

Definition inserted (r : groupMemberRow) (s : source) (stamp : Z) : member :=
  {| lid := LID r; phone := Phone r; name := Name r; is_admin := IsAdmin r; is_super_admin := IsSuperAdmin r;
     first_seen := stamp; last_seen := Some stamp; src := s |}.

(** [upsertGroupMemberSQL]. *)
Definition upsert_roster (r : groupMemberRow) (s : source) (stamp : Z) (old : option member) : member :=
  match old with
  | None => inserted r s stamp
  | Some m => {| lid := keep (LID r) (lid m); phone := keep (Phone r) (phone m); name := keep (Name r) (name m);
                 is_admin := IsAdmin r; is_super_admin := IsSuperAdmin r; first_seen := first_seen m;
                 last_seen := Some stamp; src := s |}
  end.

(** [addGroupMemberSQL]: the flags and the source of a known member stay. *)
Definition upsert_join (r : groupMemberRow) (stamp : Z) (old : option member) : member :=
  match old with
  | None => inserted r SourceEvent stamp
  | Some m => {| lid := keep (LID r) (lid m); phone := keep (Phone r) (phone m); name := keep (Name r) (name m);
                 is_admin := is_admin m; is_super_admin := is_super_admin m; first_seen := first_seen m;
                 last_seen := Some stamp; src := src m |}
  end.

Definition write_all (f : groupMemberRow → option member → member) (group : string) (rows : list groupMemberRow) (t : members) : members :=
  foldl (λ t r, <[(group, User_ r) := f r (t !! (group, User_ r))]> t) t rows.

(** A row older than [stamp]: NULL counts as older. *)
Definition older (stamp : Z) (m : member) : bool := match last_seen m with Some s => s <? stamp | None => true end.

(** [ReplaceGroupRoster]: the new table and the rows written. *)
Definition ReplaceGroupRoster (group : string) (rows : list groupMemberRow) (now : Z) (t : members) : members * nat :=
  if String.eqb group "" || bool_decide (rows = []) then (t, 0%nat)
  else let s := stamp now in
       (filter (λ kv, ¬ (kv.1.1 = group ∧ older s kv.2 = true)) (write_all (λ r, upsert_roster r SourceRoster s) group rows t), length rows).

Definition AddGroupMembers (group : string) (rows : list groupMemberRow) (now : Z) (t : members) : members :=
  if String.eqb group "" then t else write_all (λ r, upsert_join r (stamp now)) group rows t.

Definition DropGroupRoster (group : string) (t : members) : members :=
  if String.eqb group "" then t else filter (λ kv, kv.1.1 ≠ group) t.

(** [memberMatchSQL]. *)
Definition matches (r : groupMemberRow) (user : string) (m : member) : bool :=
  String.eqb user (User_ r) || negb (String.eqb (phone m) "") && String.eqb (phone m) (Phone r)
  || negb (String.eqb (lid m) "") && String.eqb (lid m) (LID r).

Definition groupLeaveClockSkew : Z := 5 * 60 * 10 ^ 9.

(** A row confirmed no later than [s]: NULL counts as such. *)
Definition not_after (s : Z) (m : member) : bool := match last_seen m with Some x => x <=? s | None => true end.

Definition remove_one (group : string) (s : Z) (t : members) (r : groupMemberRow) : members :=
  if String.eqb (User_ r) "" then t
  else filter (λ kv, ¬ (kv.1.1 = group ∧ matches r kv.1.2 kv.2 = true ∧ not_after s kv.2 = true)) t.

Definition RemoveGroupMembers (group : string) (rows : list groupMemberRow) (leftAt : Z) (t : members) : members :=
  if String.eqb group "" then t else foldl (remove_one group (stamp (leftAt + groupLeaveClockSkew))) t rows.

Definition set_admin (isAdmin : bool) (m : member) : member :=
  {| lid := lid m; phone := phone m; name := name m; is_admin := isAdmin; is_super_admin := isAdmin && is_super_admin m;
     first_seen := first_seen m; last_seen := last_seen m; src := src m |}.

Definition SetGroupMemberAdmin (group : string) (rows : list groupMemberRow) (isAdmin : bool) (t : members) : members :=
  if String.eqb group "" then t
  else foldl (λ t r, if String.eqb (User_ r) "" then t
                     else map_imap (λ k m, Some (if String.eqb k.1 group && matches r k.2 m then set_admin isAdmin m else m)) t) t rows.

Definition NoteGroupParticipant (group : string) (r : groupMemberRow) (now : Z) (t : members) : members :=
  if String.eqb group "" || String.eqb (User_ r) "" then t
  else if existsb (λ kv, String.eqb kv.1.1 group && matches r kv.1.2 kv.2) (map_to_list t) then t
  else <[(group, User_ r) := inserted {| User_ := User_ r; Phone := Phone r; LID := LID r; Name := ""; IsAdmin := false; IsSuperAdmin := false |}
                               SourceMessage (stamp now)]> t.

(** When the roster of a group was last confirmed: [MAX(last_seen)] over its
    roster rows. *)
Definition roster_stamps (group : string) (t : members) : list Z :=
  omap (λ kv, if String.eqb kv.1.1 group && bool_decide (src kv.2 = SourceRoster) then last_seen kv.2 else None) (map_to_list t).

Definition max_opt (best : option Z) (s : Z) : option Z := Some (match best with Some b => Z.max b s | None => s end).

Definition refreshed (group : string) (t : members) : option Z := foldl max_opt None (roster_stamps group t).

(** [StaleGroupRosters]: [chats] is the chat table in the order of the query, most
    recently active first.  [LIKE] ignores the case of ASCII letters. *)
Definition stale (cutoff : Z) (t : members) (chat : string) : bool :=
  Archive.Chats.has_suffix "@g.us" (to_lower chat) && match refreshed chat t with None => true | Some s => s <? stamp cutoff end.

Definition StaleGroupRosters (chats : list string) (cutoff : Z) (t : members) : list string :=
  filter (λ c, stale cutoff t c = true) chats.

(** ** The table after each feed *)

(** Writing touches only the group's listed users. *)
Lemma write_all_other f group rows t k :
  (k.1 ≠ group ∨ k.2 ∉ (User_ <$> rows)) → write_all f group rows t !! k = t !! k.
Proof.
  unfold write_all. revert t. induction rows as [|r l IH]; intros t Hk; [done|]. cbn [foldl]. rewrite IH.
  - rewrite lookup_insert_ne; [done|]. intros <-. destruct Hk as [Hk|Hk]; [done|]. set_solver.
  - destruct Hk; [by left|right]. set_solver.
Qed.

(** The last row of a user decides what is written for them. *)
Lemma write_all_listed f group rows t u :
  u ∈ (User_ <$> rows) → ∃ r old, r ∈ rows ∧ User_ r = u ∧ write_all f group rows t !! (group, u) = Some (f r old).
Proof.
  unfold write_all. revert t. induction rows as [|r l IH]; intros t Hu; [set_solver|]. cbn [foldl].
  destruct (decide (u ∈ (User_ <$> l))) as [Hl|Hl].
  - destruct (IH (<[(group, User_ r) := f r (t !! (group, User_ r))]> t) Hl) as (r' & old & Hin & Hu' & Heq).
    exists r', old. split; [set_solver|done].
  - assert (u = User_ r) as -> by set_solver. exists r, (t !! (group, User_ r)). split; [set_solver|]. split; [done|].
    pose proof (write_all_other f group l (<[(group, User_ r) := f r (t !! (group, User_ r))]> t) (group, User_ r)) as Ho.
    unfold write_all in Ho. rewrite Ho by (by right). apply lookup_insert_eq.
Qed.

(** Every feed leaves the other groups alone. *)
Definition frame (group : string) (t t' : members) : Prop := ∀ k, k.1 ≠ group → t' !! k = t !! k.

Lemma filter_frame (P : (string * string) * member → Prop) `{∀ x, Decision (P x)} group t :
  (∀ k m, k.1 ≠ group → P (k, m)) → frame group t (filter P t).
Proof. intros HP k Hk. apply option_eq. intros m. rewrite map_lookup_filter_Some. naive_solver. Qed.

Lemma frame_trans group t t' t'' : frame group t t' → frame group t' t'' → frame group t t''.
Proof. intros H1 H2 k Hk. by rewrite H2, H1. Qed.

Lemma write_all_frame f group rows t : frame group t (write_all f group rows t).
Proof. intros k Hk. apply write_all_other. by left. Qed.

Lemma replace_frame group rows now t : frame group t (ReplaceGroupRoster group rows now t).1.
Proof.
  unfold ReplaceGroupRoster. destruct (_ || _); [by intros k _|]. cbn [fst].
  eapply frame_trans; [apply write_all_frame|]. apply filter_frame. intros k m Hk [? _]. done.
Qed.

Lemma add_frame group rows now t : frame group t (AddGroupMembers group rows now t).
Proof. unfold AddGroupMembers. destruct (String.eqb _ _); [by intros k _|]. apply write_all_frame. Qed.

Lemma drop_frame group t : frame group t (DropGroupRoster group t).
Proof. unfold DropGroupRoster. destruct (String.eqb _ _); [by intros k _|]. by apply filter_frame. Qed.

Lemma fold_frame {A} (f : members → A → members) group l t :
  (∀ t a, frame group t (f t a)) → frame group t (foldl f t l).
Proof. intros Hf. revert t. induction l as [|a l IH]; intros t; [by intros k _|]. cbn. eapply frame_trans; [apply Hf|apply IH]. Qed.

Lemma remove_frame group rows at_ t : frame group t (RemoveGroupMembers group rows at_ t).
Proof.
  unfold RemoveGroupMembers. destruct (String.eqb _ _); [by intros k _|]. apply fold_frame. intros t' r. unfold remove_one.
  destruct (String.eqb _ _); [by intros k _|]. apply filter_frame. intros k m Hk [? _]. done.
Qed.

Lemma set_admin_lookup (group : string) (r : groupMemberRow) (adm : bool) (t : members) (k : string * string) :
  map_imap (λ k m, Some (if String.eqb k.1 group && matches r k.2 m then set_admin adm m else m)) t !! k =
  (λ m, if String.eqb k.1 group && matches r k.2 m then set_admin adm m else m) <$> t !! k.
Proof. rewrite map_lookup_imap. by destruct (t !! k). Qed.

Lemma admin_frame group rows adm t : frame group t (SetGroupMemberAdmin group rows adm t).
Proof.
  unfold SetGroupMemberAdmin. destruct (String.eqb _ _); [by intros k _|]. apply fold_frame. intros t' r.
  destruct (String.eqb _ _); [by intros k _|]. intros k Hk. rewrite set_admin_lookup, (proj2 (String.eqb_neq _ _) Hk). cbn.
  by destruct (t' !! k).
Qed.

Lemma note_frame group r now t : frame group t (NoteGroupParticipant group r now t).
Proof.
  unfold NoteGroupParticipant. destruct (_ || _); [by intros k _|]. destruct (existsb _ _); [by intros k _|].
  intros k Hk. rewrite lookup_insert_ne; [done|]. by intros <-.
Qed.

(** What a write keeps of a member's history. *)
Definition keeps_first (t : members) (k : string * string) (m : member) : Prop :=
  match t !! k with Some o => first_seen m = first_seen o | None => True end.

Lemma write_all_first f group rows t u m :
  (∀ r o, first_seen (f r (Some o)) = first_seen o) → write_all f group rows t !! (group, u) = Some m → keeps_first t (group, u) m.
Proof.
  intros Hf. unfold write_all, keeps_first. revert t. induction rows as [|r l IH]; intros t Hm; cbn [foldl] in Hm.
  - by rewrite Hm.
  - specialize (IH _ Hm). destruct (decide (u = User_ r)) as [->|Hne].
    + rewrite lookup_insert_eq in IH. rewrite IH. by destruct (t !! _); [rewrite Hf|].
    + by rewrite lookup_insert_ne in IH by congruence.
Qed.

(** A roster row with these flags is stored for [u]. *)
Definition listed_as (rows : list groupMemberRow) (u : string) (stamp : Z) (m : member) : Prop :=
  ∃ r, r ∈ rows ∧ User_ r = u ∧ is_admin m = IsAdmin r ∧ is_super_admin m = IsSuperAdmin r ∧ src m = SourceRoster ∧ last_seen m = Some stamp.

(** A fetched roster becomes the membership of its group: exactly its members
    are kept, with its admin flags and the date they were first seen, together
    with rows confirmed since the fetch began; other groups do not change, and an
    empty roster changes nothing. *)
Theorem roster_exact (group : string) (rows : list groupMemberRow) (now : Z) (t : members) :
  let t' := (ReplaceGroupRoster group rows now t).1 in
  (∀ k, k.1 ≠ group → t' !! k = t !! k)
  ∧ (rows = [] → t' = t)
  ∧ (group ≠ "" → rows ≠ [] → ∀ u,
      (u ∈ (User_ <$> rows) → ∃ m, t' !! (group, u) = Some m ∧ listed_as rows u (stamp now) m ∧ keeps_first t (group, u) m)
      ∧ (u ∉ (User_ <$> rows) → ∀ m, t' !! (group, u) = Some m ↔
           t !! (group, u) = Some m ∧ ∃ s, last_seen m = Some s ∧ stamp now ≤ s)).
Proof.
  cbv zeta. unfold ReplaceGroupRoster.
  destruct (String.eqb_spec group "") as [->|Hg]; [split_and!; done|]. cbn [orb].
  destruct (bool_decide (rows = [])) eqn:Hr.
  { apply bool_decide_eq_true in Hr as ->. split_and!; [done|done|]. intros _ Hn. done. }
  apply bool_decide_eq_false in Hr. cbn [fst].
  set (w := write_all _ group rows t). split_and!.
  - eapply frame_trans; [apply write_all_frame|]. apply filter_frame. intros k m Hk [? _]. done.
  - done.
  - intros _ _ u. split.
    + intros Hu. destruct (write_all_listed (λ r, upsert_roster r SourceRoster (stamp now)) group rows t u Hu) as (r & old & Hin & Hru & Hw).
      eexists. split_and!.
      * apply map_lookup_filter_Some. split; [exact Hw|]. intros [_ Ho]. unfold older in Ho.
        destruct old; cbn in Ho; lia.
      * exists r. split; [done|]. split; [done|]. by destruct old.
      * eapply write_all_first; [|exact Hw]. done.
    + intros Hu m. rewrite map_lookup_filter_Some. unfold w. rewrite write_all_other by (by right).
      cbn. unfold older. split.
      * intros [Hm Ho]. split; [done|]. destruct (last_seen m) as [s|]; [|by destruct Ho]. exists s. split; [done|].
        destruct (s <? stamp now) eqn:Hlt; [by destruct Ho|]. lia.
      * intros [Hm (s & -> & Hs)]. split; [done|]. intros [_ Ho]. lia.
Qed.

(** ** Freshness *)

Lemma max_fold_some l b : ∃ s, foldl max_opt (Some b) l = Some s ∧ (s = b ∨ s ∈ l) ∧ b ≤ s ∧ ∀ x, x ∈ l → x ≤ s.
Proof.
  revert b. induction l as [|y l IH]; intros b.
  - exists b. split_and!; [done|by left|lia|]. intros x Hx. by apply not_elem_of_nil in Hx.
  - change (foldl max_opt (Some b) (y :: l)) with (foldl max_opt (Some (Z.max b y)) l). destruct (IH (Z.max b y)) as (s & -> & Hs & Hle & Hall). exists s. split_and!; [done| |lia|].
    + destruct Hs as [->|Hs]; [|right; by apply elem_of_cons; right].
      destruct (Z.max_spec b y) as [[_ ->]|[_ ->]]; [right; apply elem_of_cons; by left|by left].
    + intros x [->|Hx]%elem_of_cons; [lia|by apply Hall].
Qed.

Lemma refreshed_spec group t s :
  refreshed group t = Some s ↔ s ∈ roster_stamps group t ∧ ∀ x, x ∈ roster_stamps group t → x ≤ s.
Proof.
  unfold refreshed. generalize (roster_stamps group t). intros [|y l].
  - split; [done|]. intros [Hs _]. by apply not_elem_of_nil in Hs.
  - change (foldl max_opt None (y :: l)) with (foldl max_opt (Some y) l). destruct (max_fold_some l y) as (m & -> & Hm & Hle & Hall). split.
    + intros [= <-]. split; [apply elem_of_cons; naive_solver|]. intros x [->|Hx]%elem_of_cons; [lia|by apply Hall].
    + intros [[->|Hs]%elem_of_cons Hmax]; f_equal.
      * destruct Hm as [->|Hm]; [done|]. assert (m ≤ y) by (apply Hmax, elem_of_cons; by right). lia.
      * specialize (Hall s Hs). assert (m ≤ s); [|lia]. destruct Hm as [->|Hm]; apply Hmax, elem_of_cons; [by left|by right].
Qed.

Lemma refreshed_ext group t t' :
  (∀ x, x ∈ roster_stamps group t ↔ x ∈ roster_stamps group t') → refreshed group t = refreshed group t'.
Proof.
  intros Hx. apply option_eq. intros s. rewrite !refreshed_spec. setoid_rewrite Hx. done.
Qed.

Lemma elem_of_stamps group t x :
  x ∈ roster_stamps group t ↔ ∃ u m, t !! (group, u) = Some m ∧ src m = SourceRoster ∧ last_seen m = Some x.
Proof.
  unfold roster_stamps. rewrite list_elem_of_omap. split.
  - intros ([[g u] m] & Hin & Hx). apply elem_of_map_to_list in Hin. cbn in Hx.
    destruct (String.eqb_spec g group) as [->|]; [|done]. destruct (bool_decide _) eqn:Hs; [|done].
    apply bool_decide_eq_true in Hs. eauto.
  - intros (u & m & Hm & Hs & Hl). exists ((group, u), m). split; [by apply elem_of_map_to_list|]. cbn.
    rewrite String.eqb_refl, bool_decide_true by done. done.
Qed.

(** Chatter does not make a roster look fresh: neither a message of a new
    participant nor a promotion or demotion changes when the roster of any group
    was last confirmed, so a busy group is refetched as soon as a quiet one. *)
Theorem freshness_from_rosters_only (group : string) (r : groupMemberRow) (rows : list groupMemberRow) (adm : bool) (now : Z) (t : members) (g : string) :
  refreshed g (NoteGroupParticipant group r now t) = refreshed g t
  ∧ refreshed g (SetGroupMemberAdmin group rows adm t) = refreshed g t.
Proof.
  split.
  - unfold NoteGroupParticipant. destruct (_ || _); [done|]. destruct (existsb _ _) eqn:He; [done|].
    assert (t !! (group, User_ r) = None) as Hnone.
    { destruct (t !! (group, User_ r)) as [m|] eqn:Hm; [|done]. exfalso. rewrite <-not_true_iff_false in He. apply He.
      apply existsb_exists. exists ((group, User_ r), m). split; [by apply list_elem_of_In, elem_of_map_to_list|]. cbn.
      unfold matches. by rewrite !String.eqb_refl. }
    apply refreshed_ext. intros x. rewrite !elem_of_stamps. split.
    + intros (u & m & Hm & Hs & Hl). destruct (decide ((group, User_ r) = (g, u))) as [E|Hne].
      * rewrite E, lookup_insert_eq in Hm. injection Hm as <-. done.
      * rewrite lookup_insert_ne in Hm by done. eauto.
    + intros (u & m & Hm & Hs & Hl). exists u, m. split; [|done]. rewrite lookup_insert_ne; [done|]. intros E. congruence.
  - unfold SetGroupMemberAdmin. destruct (String.eqb group ""); [done|]. revert t. induction rows as [|r' l IH]; intros t; [done|].
    cbn [foldl]. rewrite IH. destruct (String.eqb (User_ r') ""); [done|]. apply refreshed_ext. intros x. rewrite !elem_of_stamps.
    split; intros (u & m & Hm & Hs & Hl).
    + rewrite set_admin_lookup in Hm. destruct (t !! (g, u)) as [o|] eqn:Ho; [|done]. cbn in Hm. injection Hm as <-.
      exists u, o. split; [done|]. by destruct (_ && _).
    + exists u. eexists. rewrite set_admin_lookup, Hm. cbn. split; [done|]. by destruct (_ && _).
Qed.

(** ** Departures *)

Lemma remove_one_lookup group s t r k m :
  User_ r ≠ "" →
  remove_one group s t r !! k = Some m ↔ t !! k = Some m ∧ ¬ (k.1 = group ∧ matches r k.2 m = true ∧ not_after s m = true).
Proof. intros Hu. unfold remove_one. rewrite (proj2 (String.eqb_neq _ _) Hu). by rewrite map_lookup_filter_Some. Qed.

(** A late notice of a departure does not remove a member confirmed since: a row
    newer than the departure by more than the clock grace stays, and a matching
    row that is not newer goes. *)
Theorem departures_dated (group : string) (rows : list groupMemberRow) (leftAt : Z) (t : members) (k : string * string) (m : member) :
  Forall (λ r, User_ r ≠ "") rows → group ≠ "" →
  RemoveGroupMembers group rows leftAt t !! k = Some m ↔
  t !! k = Some m ∧ ¬ (k.1 = group ∧ (∃ r, r ∈ rows ∧ matches r k.2 m = true) ∧ not_after (stamp (leftAt + groupLeaveClockSkew)) m = true).
Proof.
  intros Hu Hg. unfold RemoveGroupMembers. rewrite (proj2 (String.eqb_neq _ _) Hg). revert t.
  induction rows as [|r l IH]; intros t; cbn [foldl].
  - split; [|naive_solver]. intros Hm. split; [done|]. intros (_ & (r & Hr & _) & _). by apply not_elem_of_nil in Hr.
  - inversion Hu as [|? ? Hr Hl]; subst. rewrite (IH Hl), remove_one_lookup by done. setoid_rewrite elem_of_cons. naive_solver.
Qed.

End Members.

Module Roster.
Import Members.
Section Roster.
Context `{JidOps}.

(** *** Rows from the client library *)

(** The client as these functions read it: the LID store, [Store.ID] and
    [Store.LID] (empty when unknown). *)
Record account := { lids : lid_store; own_id : option JID; own_lid : JID }.

(** [GroupMember]: a participant as /api/group/members lists it. *)
Record GroupMember := { JID_ : string; PhoneNumber : string; MemberLID : string; MemberName : string; Admin : bool; SuperAdmin : bool }.

(** [groupMemberRows]. *)
Definition groupMemberRows (ms : list GroupMember) : list groupMemberRow :=
  omap (λ m, match newGroupMemberRow (JID_ m) (PhoneNumber m) (MemberLID m) with
             | Some r => Some {| User_ := User_ r; Phone := Phone r; LID := LID r; Name := trim_space (MemberName m);
                                 IsAdmin := Admin m; IsSuperAdmin := SuperAdmin m |}
             | None => None
             end) ms.

(** [resolveRosterRows]: a member known only by LID gets its number as key. *)
Definition resolve_row (c : account) (r : groupMemberRow) : groupMemberRow :=
  if negb (String.eqb (Phone r) "") || String.eqb (LID r) "" then r
  else let pn := resolveUserJIDContext (lids c) (NewJID (LID r) HiddenUserServer) EmptyJID in
       if String.eqb (Server pn) DefaultUserServer
       then {| User_ := User pn; Phone := User pn; LID := LID r; Name := Name r; IsAdmin := IsAdmin r; IsSuperAdmin := IsSuperAdmin r |}
       else r.

(** [types.GroupParticipant]. *)
Record participant := { p_jid : JID; p_phone : JID; p_lid : JID; p_name : string; p_admin : bool; p_super : bool }.

(** The member rows of [buildGroupMembers]; [nameOf] is the contact store. *)
Definition buildGroupMember (nameOf : JID → string) (p : participant) : GroupMember :=
  let phone := if IsEmpty (p_phone p) && String.eqb (Server (p_jid p)) DefaultUserServer then p_jid p else p_phone p in
  let lid := if IsEmpty (p_lid p) && String.eqb (Server (p_jid p)) HiddenUserServer then p_jid p else p_lid p in
  let name := trim_space (p_name p) in
  {| JID_ := JIDString (ToNonAD (p_jid p));
     PhoneNumber := if IsEmpty phone then "" else User (ToNonAD phone);
     MemberLID := if IsEmpty lid then "" else JIDString (ToNonAD lid);
     MemberName := if String.eqb name "" && negb (IsEmpty phone) then nameOf (ToNonAD phone) else name;
     Admin := p_admin p || p_super p; SuperAdmin := p_super p |}.

(** [groupMemberRowFromJID]. *)
Definition groupMemberRowFromJID (c : account) (jid : JID) : option groupMemberRow :=
  let jid := ToNonAD jid in
  let resolved := resolveUserJIDContext (lids c) jid EmptyJID in
  let form srv := if String.eqb (Server resolved) srv then User resolved else if String.eqb (Server jid) srv then User jid else "" in
  newGroupMemberRow (User resolved) (form DefaultUserServer) (form HiddenUserServer).

Definition groupMemberEventRows (c : account) (jids : list JID) : list groupMemberRow := omap (groupMemberRowFromJID c) jids.

(** [leftGroup]: the list names this account. *)
Definition selves (c : account) : list string :=
  (match own_id c with Some j => [User (ToNonAD j)] | None => [] end) ++ (if IsEmpty (own_lid c) then [] else [User (ToNonAD (own_lid c))]).

Definition leftGroup (c : account) (jids : list JID) : bool :=
  existsb (λ j, bool_decide (User (ToNonAD j) ∈ selves c) || bool_decide (User (resolveUserJIDContext (lids c) j EmptyJID) ∈ selves c)) jids.

(** *** The backoff of unreadable groups *)

Record rosterWait := { since : Z; until_ : Z }.

(** [rosterFailures]. *)
Record rosterFailures := { waits : gmap string rosterWait; back : gmap string Z }.

Definition newRosterFailures : rosterFailures := {| waits := ∅; back := ∅ |}.

Definition groupRosterRetryAfter : Z := 6 * 3600 * 10 ^ 9.
Definition groupRosterGoneRetryAfter : Z := 7 * 24 * 3600 * 10 ^ 9.

(** [recent]: an expired wait is dropped on the way. *)
Definition recent (jid : string) (now : Z) (f : rosterFailures) : rosterFailures * bool :=
  match waits f !! jid with
  | Some w => if now <? until_ w then (f, true) else ({| waits := delete jid (waits f); back := back f |}, false)
  | None => (f, false)
  end.

Definition wait (jid : string) (since until_ : Z) (f : rosterFailures) : rosterFailures :=
  {| waits := <[jid := {| since := since; until_ := until_ |}]> (waits f); back := back f |}.

Definition note (jid : string) (now : Z) (f : rosterFailures) : rosterFailures := wait jid now (now + groupRosterRetryAfter) f.

Definition noteGone (jid : string) (asked now : Z) (f : rosterFailures) : rosterFailures :=
  match back f !! jid with
  | Some b => if asked <=? b then f
              else wait jid now (now + groupRosterGoneRetryAfter) {| waits := waits f; back := delete jid (back f) |}
  | None => wait jid now (now + groupRosterGoneRetryAfter) f
  end.

Definition forget (jid : string) (now : Z) (f : rosterFailures) : rosterFailures :=
  {| waits := delete jid (waits f); back := <[jid := now]> (back f) |}.

Definition forgetIfAfter (jid : string) (at_ now : Z) (f : rosterFailures) : rosterFailures :=
  match waits f !! jid with
  | Some w => if since w <? at_ then forget jid now f else f
  | None => f
  end.

(** *** Feeds *)

Record state := { table : members; failures : rosterFailures }.

(** [storeGroupRoster]: [at_] was read before the fetch, [now] is the clock. *)
Definition storeGroupRoster (c : account) (group : string) (ms : list GroupMember) (at_ now : Z) (s : state) : state * nat :=
  let '(t, written) := ReplaceGroupRoster group (resolve_row c <$> groupMemberRows ms) at_ (table s) in
  ({| table := t; failures := if (0 <? written)%nat then forget group now (failures s) else failures s |}, written).

(** [storeFetchedGroupInfo] without the settings columns. *)
Definition storeFetchedGroupInfo (policy : chatPolicy) (c : account) (group : string) (ms : list GroupMember) (at_ now : Z) (s : state) : state * nat :=
  if negb (Allows policy group) then (s, 0%nat) else storeGroupRoster c group ms at_ now s.

(** [events.GroupInfo]: the lists of participants; a zero time is [None]. *)
Record GroupInfo := { g_jid : JID; g_time : option Z; Join : list JID; Leave : list JID; Promote : list JID; Demote : list JID }.

(** [applyGroupParticipantChangesWithPolicy] at the clock reading [now]. *)
Definition applyGroupParticipantChanges (policy : chatPolicy) (c : account) (now : Z) (v : GroupInfo) (s : state) : state :=
  let group := JIDString (g_jid v) in
  let s := if leftGroup c (Join v) then {| table := table s; failures := forget group now (failures s) |} else s in
  if negb (Allows policy group) then s
  else
    let t := if bool_decide (Join v = []) then table s else AddGroupMembers group (groupMemberEventRows c (Join v)) now (table s) in
    if leftGroup c (Leave v)
    then {| table := DropGroupRoster group t; failures := noteGone group now now (failures s) |}
    else
      let t := if bool_decide (Leave v = []) then t
               else RemoveGroupMembers group (groupMemberEventRows c (Leave v)) (default now (g_time v)) t in
      let t := SetGroupMemberAdmin group (groupMemberEventRows c (Promote v)) true t in
      {| table := SetGroupMemberAdmin group (groupMemberEventRows c (Demote v)) false t; failures := failures s |}.

Definition isGroupJID (chat : string) : bool :=
  match ParseJID chat with Ok j => String.eqb (Server j) GroupServer | Err _ => false end.

(** [noteGroupSender]: [at_] is the time of the message, [now] the clock. *)
Definition noteGroupSender (policy : chatPolicy) (c : account) (chat : string) (sender : JID) (at_ now : Z) (s : state) : state :=
  if negb (isGroupJID chat) || negb (Allows policy chat) then s
  else
    let f := if leftGroup c [sender] then forgetIfAfter chat at_ now (failures s) else failures s in
    let '(f, blocked) := recent chat at_ f in
    if blocked then {| table := table s; failures := f |}
    else match groupMemberRowFromJID c sender with
         | Some r => {| table := NoteGroupParticipant chat r at_ (table s); failures := f |}
         | None => {| table := table s; failures := f |}
         end.

(** *** The pass over stale rosters *)

(** What a fetch of one group brings: the members, "not in it", or an error. *)
Inductive fetched : Type := Info (ms : list GroupMember) | Gone | FetchError.

(** The outside of one round: whether the pass may go on, the fetch with the
    clock before and after it, and whether the pause was cut short. *)
Record round := { alive : bool; answer : fetched; asked : Z; stored_at : Z; paused : bool }.

(** [refreshGroupRoster]. *)
Definition refreshGroupRoster (policy : chatPolicy) (c : account) (jid : string) (now : Z) (r : round) (s : state) : state * bool :=
  match answer r with
  | Gone => ({| table := table s; failures := noteGone jid (asked r) now (failures s) |}, false)
  | FetchError => ({| table := table s; failures := note jid now (failures s) |}, false)
  | Info ms =>
      let '(s, written) := storeFetchedGroupInfo policy c jid ms (asked r) (stored_at r) s in
      if (0 <? written)%nat then (s, true) else ({| table := table s; failures := note jid now (failures s) |}, false)
  end.

Record pass := { p_state : state; attempts : list string; refreshed_ : nat; more : bool }.

Definition ended (s : state) (more : bool) : pass := {| p_state := s; attempts := []; refreshed_ := 0; more := more |}.

(** The loop of [syncGroupRosters]: [fetchPolicy] is the policy in force after a
    fetch, [outside] the rounds by the group they are for. *)
Fixpoint sync_loop (policy fetchPolicy : chatPolicy) (c : account) (now : Z) (outside : string → round) (limit : nat) (stale : list string) (s : state) : pass :=
  match stale with
  | [] => ended s false
  | jid :: rest =>
      if negb (alive (outside jid)) then ended s true
      else if negb (Allows policy jid) then sync_loop policy fetchPolicy c now outside limit rest s
      else
        let '(f, blocked) := recent jid now (failures s) in
        let s := {| table := table s; failures := f |} in
        if blocked || negb (is_ok (ParseJID jid)) then sync_loop policy fetchPolicy c now outside limit rest s
        else match limit with
             | O => ended s true
             | S limit =>
                 let '(s, ok) := refreshGroupRoster fetchPolicy c jid now (outside jid) s in
                 let p := if paused (outside jid) then ended s true else sync_loop policy fetchPolicy c now outside limit rest s in
                 {| p_state := p_state p; attempts := jid :: attempts p; refreshed_ := (if ok then 1 else 0) + refreshed_ p; more := more p |}
             end
  end.

Definition syncGroupRosters (policy fetchPolicy : chatPolicy) (c : account) (interval now : Z) (outside : string → round) (limit : nat)
    (chats : list string) (s : state) : pass :=
  if interval <=? 0 then ended s false
  else sync_loop policy fetchPolicy c now outside limit (StaleGroupRosters chats (now - interval) (table s)) s.

(** The delay before the next pass ([runGroupRosterSync]). *)
Definition groupRosterSyncRetryDelay : Z := 5 * 60 * 10 ^ 9.
Definition next_delay (connected : bool) (interval : Z) (p : pass) : Z :=
  if negb connected || more p then groupRosterSyncRetryDelay else interval.

(** ** The pass *)

(** Not backed off. *)
Definition open (f : rosterFailures) (jid : string) (now : Z) : bool :=
  match waits f !! jid with Some w => negb (now <? until_ w) | None => true end.

Lemma open_recent f jid now : open f jid now = negb (recent jid now f).2.
Proof. unfold open, recent. destruct (waits f !! jid) as [w|]; [|done]. by destruct (now <? until_ w). Qed.

Lemma open_same f g jid now : waits f !! jid = waits g !! jid → open f jid now = open g jid now.
Proof. unfold open. by intros ->. Qed.

Lemma recent_other f jid now j : j ≠ jid → open (recent jid now f).1 j now = open f j now.
Proof.
  intros Hne. apply open_same. unfold recent. destruct (waits f !! jid) as [w|]; [|done]. destruct (now <? until_ w); [done|].
  cbn [fst waits]. by apply lookup_delete_ne.
Qed.

Lemma wait_other jid a b f j now : j ≠ jid → open (wait jid a b f) j now = open f j now.
Proof. intros Hne. apply open_same. by apply lookup_insert_ne. Qed.

Lemma noteGone_other jid a n f j now : j ≠ jid → open (noteGone jid a n f) j now = open f j now.
Proof.
  intros Hne. unfold noteGone. destruct (back f !! jid) as [b|]; [destruct (a <=? b); [done|]|]; by rewrite wait_other.
Qed.

Lemma forget_other jid n f j now : j ≠ jid → open (forget jid n f) j now = open f j now.
Proof. intros Hne. apply open_same. by apply lookup_delete_ne. Qed.

Lemma refresh_other policy c jid now r s j :
  j ≠ jid → open (failures (refreshGroupRoster policy c jid now r s).1) j now = open (failures s) j now.
Proof.
  intros Hne. unfold refreshGroupRoster, storeFetchedGroupInfo, storeGroupRoster. destruct (answer r) as [ms| |].
  - destruct (negb (Allows policy jid)); [by apply wait_other|]. destruct (ReplaceGroupRoster _ _ _ _) as [t n].
    destruct (0 <? n)%nat; cbn [fst failures]; [by apply forget_other|by apply wait_other].
  - by apply noteGone_other.
  - by apply wait_other.
Qed.

(** A group the pass should ask about. *)
Definition due (policy : chatPolicy) (f : rosterFailures) (now : Z) (jid : string) : Prop :=
  Allows policy jid = true ∧ open f jid now = true ∧ is_ok (ParseJID jid) = true.

Lemma due_recent policy f now jid j : j ≠ jid → due policy (recent jid now f).1 now j ↔ due policy f now j.
Proof. intros Hne. unfold due. by rewrite recent_other. Qed.

Lemma due_refresh policy fp c jid now r s j :
  j ≠ jid → due policy (failures (refreshGroupRoster fp c jid now r s).1) now j ↔ due policy (failures s) now j.
Proof. intros Hne. unfold due. by rewrite refresh_other. Qed.

(** The loop asks about due groups only, each once, within the limit, and about
    all of them when it reports that nothing is left. *)
Lemma sync_loop_spec policy fp c now outside limit stale s :
  NoDup stale →
  let p := sync_loop policy fp c now outside limit stale s in
  (length (attempts p) ≤ limit)%nat ∧ NoDup (attempts p)
  ∧ (∀ j, j ∈ attempts p → j ∈ stale ∧ due policy (failures s) now j)
  ∧ (more p = false → ∀ j, j ∈ stale → due policy (failures s) now j → j ∈ attempts p).
Proof.
  revert limit s. induction stale as [|jid rest IH]; intros limit s Hnd; cbv zeta.
  { split_and!; cbn; [lia|apply NoDup_nil_2|set_solver|set_solver]. }
  apply NoDup_cons in Hnd as [Hnot Hnd]. cbn [sync_loop].
  assert (∀ more, (length (attempts (ended s more)) ≤ limit)%nat ∧ NoDup (attempts (ended s more))
    ∧ (∀ j, j ∈ attempts (ended s more) → j ∈ jid :: rest ∧ due policy (failures s) now j)) as Hend
    by (intros more; split_and!; cbn; [lia|apply NoDup_nil_2|set_solver]).
  destruct (negb (alive (outside jid))).
  { destruct (Hend true) as (? & ? & ?). split_and!; done. }
  destruct (Allows policy jid) eqn:Hal; cbn [negb].
  2:{ destruct (IH limit s Hnd) as (H1 & H2 & H3 & H4). split_and!; try done.
      - intros j Hj. destruct (H3 j Hj). split; [set_solver|done].
      - intros Hm j [->|Hj]%elem_of_cons Hd; [destruct Hd; congruence|by apply H4]. }
  destruct (recent jid now (failures s)) as [f blocked] eqn:Hrec.
  assert (f = (recent jid now (failures s)).1) as Hf by (by rewrite Hrec).
  assert (open (failures s) jid now = negb blocked) as Hopen by (by rewrite open_recent, Hrec).
  set (s1 := {| table := table s; failures := f |}).
  assert (∀ j, j ∈ rest → due policy (failures s1) now j ↔ due policy (failures s) now j) as Hdue.
  { intros j Hj. cbn [failures s1]. rewrite Hf. apply due_recent. intros ->. done. }
  destruct (blocked || negb (is_ok (ParseJID jid))) eqn:Hb.
  { destruct (IH limit s1 Hnd) as (H1 & H2 & H3 & H4). split_and!; try done.
    - intros j Hj. destruct (H3 j Hj) as [Hin Hd]. split; [set_solver|by apply Hdue].
    - intros Hm j [->|Hj]%elem_of_cons Hd; [|by apply H4, Hdue].
      destruct Hd as (_ & Ho & Hp). rewrite Hopen in Ho. rewrite Hp in Hb. by destruct blocked. }
  apply orb_false_iff in Hb as [-> Hp%negb_false_iff].
  assert (due policy (failures s) now jid) as Hdj by done.
  destruct limit as [|limit]; [destruct (Hend true) as (? & ? & ?); split_and!; try done; cbn; set_solver|].
  destruct (refreshGroupRoster fp c jid now (outside jid) s1) as [s2 ok] eqn:Href.
  assert (∀ j, j ∈ rest → due policy (failures s2) now j ↔ due policy (failures s) now j) as Hdue2.
  { intros j Hj. rewrite <-(Hdue j Hj). replace s2 with (refreshGroupRoster fp c jid now (outside jid) s1).1 by (by rewrite Href).
    apply due_refresh. intros ->. done. }
  cbn [attempts more]. destruct (paused (outside jid)).
  - split_and!; cbn; [lia|apply NoDup_singleton|intros j ->%list_elem_of_singleton; split; [set_solver|done]|done].
  - destruct (IH limit s2 Hnd) as (H1 & H2 & H3 & H4). split_and!.
    + cbn. lia.
    + apply NoDup_cons. split; [|done]. intros Hin. by destruct (H3 jid Hin).
    + intros j [->|Hj]%elem_of_cons; [split; [set_solver|done]|]. destruct (H3 j Hj) as [Hin Hd]. split; [set_solver|by apply Hdue2].
    + intros Hm j [->|Hj]%elem_of_cons Hd; [set_solver|]. apply elem_of_cons. right. apply H4; [done..|by apply Hdue2].
Qed.

(** A roster pass is bounded and starves nobody: it asks WhatsApp about at
    most [limit] groups, each once, only permitted groups that are stale and not
    backed off; excluded and backed-off groups take no slot, and when the pass
    does not ask to come back soon it has asked about every group that was due. *)
Theorem roster_pass_complete (policy fetchPolicy : chatPolicy) (c : account) (interval now : Z) (outside : string → round) (limit : nat)
    (chats : list string) (s : state) (Hnd : NoDup chats) (Hon : 0 < interval) :
  let p := syncGroupRosters policy fetchPolicy c interval now outside limit chats s in
  let stale := StaleGroupRosters chats (now - interval) (table s) in
  (length (attempts p) ≤ limit)%nat ∧ NoDup (attempts p)
  ∧ (∀ j, j ∈ attempts p → j ∈ stale ∧ due policy (failures s) now j)
  ∧ (more p = false → ∀ j, j ∈ stale → due policy (failures s) now j → j ∈ attempts p)
  ∧ (more p = true → next_delay true interval p = groupRosterSyncRetryDelay).
Proof.
  cbv zeta. unfold syncGroupRosters. rewrite (proj2 (Z.leb_gt _ _) Hon).
  destruct (sync_loop_spec policy fetchPolicy c now outside limit (StaleGroupRosters chats (now - interval) (table s)) s) as (H1 & H2 & H3 & H4).
  { by apply NoDup_filter. }
  split_and!; try done. intros Hm. unfold next_delay. by rewrite Hm.
Qed.

(** ** What the feeds may write *)

(** Only permitted groups have cached members. *)
Definition permitted_only (policy : chatPolicy) (s : state) : Prop := ∀ k m, table s !! k = Some m → Allows policy k.1 = true.

Lemma frame_permitted policy group s t f :
  Allows policy group = true → frame group (table s) t → permitted_only policy s → permitted_only policy {| table := t; failures := f |}.
Proof.
  intros Ha Hf Hp k m Hm. destruct (decide (k.1 = group)) as [->|Hne]; [done|]. cbn [table] in Hm. rewrite Hf in Hm by done. by eapply Hp.
Qed.

Lemma same_table policy s f : permitted_only policy s → permitted_only policy {| table := table s; failures := f |}.
Proof. done. Qed.

Lemma fetched_permitted policy c group ms at_ now s :
  permitted_only policy s → permitted_only policy (storeFetchedGroupInfo policy c group ms at_ now s).1.
Proof.
  intros Hp. unfold storeFetchedGroupInfo, storeGroupRoster. destruct (Allows policy group) eqn:Ha; [|done]. cbn [negb].
  pose proof (replace_frame group (resolve_row c <$> groupMemberRows ms) at_ (table s)) as Hf.
  destruct (ReplaceGroupRoster _ _ _ _) as [t n]. cbn [fst] in *. by eapply frame_permitted.
Qed.

Lemma changes_permitted policy c now v s : permitted_only policy s → permitted_only policy (applyGroupParticipantChanges policy c now v s).
Proof.
  intros Hp. unfold applyGroupParticipantChanges. set (s1 := if leftGroup c (Join v) then _ else _).
  assert (permitted_only policy s1) as Hp1 by (unfold s1; by destruct (leftGroup c (Join v))). clearbody s1.
  destruct (Allows policy (JIDString (g_jid v))) eqn:Ha; [|done]. cbn [negb].
  set (group := JIDString (g_jid v)) in *. set (t := if bool_decide (Join v = []) then _ else _).
  assert (frame group (table s1) t) as Ht by (unfold t; destruct (bool_decide _); [by intros k _|apply add_frame]). clearbody t.
  destruct (leftGroup c (Leave v)).
  - eapply frame_permitted; [done| |done]. eapply frame_trans; [done|apply drop_frame].
  - eapply frame_permitted; [done| |done]. eapply frame_trans; [|apply admin_frame]. eapply frame_trans; [|apply admin_frame].
    destruct (bool_decide (Leave v = [])); [done|]. eapply frame_trans; [done|apply remove_frame].
Qed.

Lemma sender_permitted policy c chat sender at_ now s :
  permitted_only policy s → permitted_only policy (noteGroupSender policy c chat sender at_ now s).
Proof.
  intros Hp. unfold noteGroupSender. destruct (isGroupJID chat); [|done]. destruct (Allows policy chat) eqn:Ha; [|done]. cbn [negb orb].
  destruct (recent _ _ _) as [f []]; [done|]. destruct (groupMemberRowFromJID c sender) as [r|]; [|done].
  eapply frame_permitted; [done| |done]. apply note_frame.
Qed.

Lemma pass_permitted policy c now outside limit stale s :
  permitted_only policy s → permitted_only policy (p_state (sync_loop policy policy c now outside limit stale s)).
Proof.
  revert limit s. induction stale as [|jid rest IH]; intros limit s Hp; [done|]. cbn [sync_loop].
  destruct (negb (alive _)); [done|]. destruct (negb (Allows policy jid)); [by apply IH|].
  destruct (recent jid now (failures s)) as [f blocked]. destruct (_ || _); [by apply IH|]. destruct limit as [|limit]; [done|].
  destruct (refreshGroupRoster _ _ _ _ _ _) as [s2 ok] eqn:Hr. cbn [p_state].
  assert (permitted_only policy s2) as Hp2.
  { unfold refreshGroupRoster in Hr. destruct (answer (outside jid)) as [ms| |]; [|by injection Hr as <- _..].
    pose proof (fetched_permitted policy c jid ms (asked (outside jid)) (stored_at (outside jid)) {| table := table s; failures := f |} Hp) as Hf.
    destruct (storeFetchedGroupInfo _ _ _ _ _ _ _) as [s' n]. destruct (0 <? n)%nat; injection Hr as <- _; done. }
  destruct (paused _); [done|by apply IH].
Qed.

(** The steps that write the table. *)
Inductive feed (policy : chatPolicy) : state → state → Prop :=
| feed_fetch c group ms at_ now s : feed policy s (storeFetchedGroupInfo policy c group ms at_ now s).1
| feed_change c now v s : feed policy s (applyGroupParticipantChanges policy c now v s)
| feed_message c chat sender at_ now s : feed policy s (noteGroupSender policy c chat sender at_ now s)
| feed_pass c interval now outside limit chats s :
    feed policy s (p_state (syncGroupRosters policy policy c interval now outside limit chats s)).

(** No feed caches the members of a group the allow-list excludes: rosters,
    events, messages and the background pass, in any order, leave the membership
    table with rows of permitted groups only. *)
Theorem excluded_groups_uncached (policy : chatPolicy) (s : state)
    (Hrun : rtc (feed policy) {| table := ∅; failures := newRosterFailures |} s) : permitted_only policy s.
Proof.
  assert (permitted_only policy {| table := ∅; failures := newRosterFailures |}) as H0 by (intros k m Hm; cbn [table] in Hm; by rewrite lookup_empty in Hm).
  induction Hrun as [s|s s' s'' Hs _ IH]; [done|]. apply IH. destruct Hs.
  - by apply fetched_permitted.
  - by apply changes_permitted.
  - by apply sender_permitted.
  - unfold syncGroupRosters. destruct (interval <=? 0); [done|]. by apply pass_permitted.
Qed.

(** ** Leaving a group *)

(** A group this account left stays forgotten: its departure drops every
    cached member, and for a week no message delivered late brings one back,
    unless the account itself wrote in the group after it left. *)
Theorem left_group_stays_empty (policy : chatPolicy) (c : account) (now : Z) (v : GroupInfo) (s : state) (sender : JID) (at_ later : Z)
    (Hgroup : JIDString (g_jid v) ≠ "") (Hjoin : leftGroup c (Join v) = false) (Hleft : leftGroup c (Leave v) = true)
    (Hpol : Allows policy (JIDString (g_jid v)) = true)
    (Hback : ∀ b, back (failures s) !! JIDString (g_jid v) = Some b → b < now)
    (Hat : at_ < now + groupRosterGoneRetryAfter) (Hself : leftGroup c [sender] = true → at_ ≤ now) :
  let s' := applyGroupParticipantChanges policy c now v s in
  (∀ u, table s' !! (JIDString (g_jid v), u) = None)
  ∧ ∀ u, table (noteGroupSender policy c (JIDString (g_jid v)) sender at_ later s') !! (JIDString (g_jid v), u) = None.
Proof.
  cbv zeta. unfold applyGroupParticipantChanges. rewrite Hjoin, Hpol, Hleft. cbn [negb]. set (group := JIDString (g_jid v)) in *.
  set (t := if bool_decide _ then _ else _). set (s' := {| table := _ |}).
  assert (∀ u, table s' !! (group, u) = None) as Hnone.
  { intros u. unfold s', DropGroupRoster. cbn [table]. rewrite (proj2 (String.eqb_neq _ _) Hgroup).
    apply map_lookup_filter_None. right. intros m _ Hne. done. }
  split; [done|]. intros u. unfold noteGroupSender. destruct (_ || _); [done|].
  assert (∃ b, failures s' = wait group now (now + groupRosterGoneRetryAfter) {| waits := waits (failures s); back := b |}) as [b Hf].
  { unfold s', noteGone. cbn [failures]. destruct (back (failures s) !! group) as [b|] eqn:Hb; [|exists (back (failures s)); by destruct (failures s)].
    specialize (Hback b eq_refl). destruct (now <=? b) eqn:Hle; [lia|]. by eexists. }
  assert (waits (failures s') !! group = Some {| since := now; until_ := now + groupRosterGoneRetryAfter |}) as Hw
    by (rewrite Hf; apply lookup_insert_eq).
  assert ((if leftGroup c [sender] then forgetIfAfter group at_ later (failures s') else failures s') = failures s') as ->.
  { destruct (leftGroup c [sender]); [|done]. unfold forgetIfAfter. rewrite Hw. cbn [since].
    destruct (now <? at_) eqn:Hlt; [|done]. specialize (Hself eq_refl). lia. }
  unfold recent. rewrite Hw. cbn [until_]. rewrite (proj2 (Z.ltb_lt _ _) Hat). apply Hnone.
Qed.

End Roster.
End Roster.

Module Manage.
Section Manage.
Context `{JidOps} (rnd : QArith_base.Q → QArith_base.Q).

(** [whatsmeow.ParticipantChange]. *)
Inductive change : Type := Add | Remove | Promote | Demote.

Definition change_of (raw : string) : option change :=
  let a := to_lower (trim_space raw) in
  if String.eqb a "add" then Some Add else if String.eqb a "remove" then Some Remove
  else if String.eqb a "promote" then Some Promote else if String.eqb a "demote" then Some Demote else None.

(** [groupRequest]. *)
Record groupRequest := {
  GroupJID : string; Action : string; Participants : list string;
  ReqName : option string; Description : option string; Reset : bool;
}.

(** What is asked of WhatsApp. *)
Inductive request : Type :=
| UpdateParticipants (group : JID) (who : list JID) (c : change)
| SetName (group : JID) (name : string)
| GetInfo (group : JID)
| SetTopic (group : JID) (previous topic : string)
| InviteLink (group : JID) (reset : bool)
| LeaveGroup (group : JID).

Inductive group_reply : Type :=
| Refused (r : Http.reply)
| Failed (status : Z) (message : string) (changed : list string)
| Limited (r : Http.reply) (retry : option Z)
| Done (message : string) (changed : list string).

(** [recorded] is what the roster recorder is handed: group, members and whether
    the group's settings come along. *)
Record group_effect := {
  reply : group_reply; requests : list request; recorded : list (string * list Roster.GroupMember * bool); budget_after : send_db;
}.

(** [parseGroupRequest]: [None] is a body that does not decode. *)
Definition parseGroupRequest (policy : chatPolicy) (post : bool) (body : option groupRequest) : result group_reply (groupRequest * JID) :=
  if negb post then Err (Failed 405 "method not allowed" []) else
  match body with
  | None => Err (Failed 400 "invalid JSON body" [])
  | Some req =>
      let raw := trim_space (GroupJID req) in
      if String.eqb raw "" then Err (Failed 400 "group_jid is required" []) else
      match authorizeChat policy raw false with
      | Err r => Err (Refused r)
      | Ok jid => if String.eqb (Server jid) GroupServer then Ok (req, jid)
                  else Err (Failed 400 "group_jid must be a group JID (…@g.us)" [])
      end
  end.

Definition invalid_participant (item : string) : string := "invalid participant " +:+ item +:+ " (use a phone number or a user JID)".

(** One entry of [parseParticipants]; a blank one is skipped before. *)
Definition parse_participant (policy : chatPolicy) (item : string) : result string JID :=
  match normalizePhoneRecipient item with
  | Err e => Err (if restricted policy then e else invalid_participant item)
  | Ok normalized =>
      match (match normalizedUserJID normalized with
             | Err e => Err e
             | Ok j => if restricted policy then canonicalChatJID normalized true else Ok j
             end) with
      | Err _ => Err (invalid_participant item)
      | Ok j =>
          if String.eqb (User j) "" || contains_any " @" (User j)
             || negb (String.eqb (Server j) DefaultUserServer) && negb (String.eqb (Server j) HiddenUserServer)
          then Err (invalid_participant item) else Ok j
      end
  end.

Fixpoint parse_all (policy : chatPolicy) (raw : list string) : result string (list JID) :=
  match raw with
  | [] => Ok []
  | item :: rest =>
      let item := trim_space item in
      if String.eqb item "" then parse_all policy rest
      else match parse_participant policy item with
           | Err e => Err e
           | Ok j => match parse_all policy rest with Ok js => Ok (j :: js) | Err e => Err e end
           end
  end.

Definition parseParticipants (policy : chatPolicy) (raw : list string) : result string (list JID) :=
  match parse_all policy raw with
  | Ok [] => Err "participants must list at least one phone number or JID"
  | r => r
  end.

(** The first participant the policy does not admit; the identity search has
    [fuel] ([allowsIdentity_decides]). *)
Definition not_admitted (fuel : nat) (policy : chatPolicy) (twin : twin_lookup) (who : list JID) : option JID :=
  head (filter (λ j, allowsIdentity fuel policy twin j ≠ Some true) who).

Definition expands (c : change) : bool := match c with Add | Promote => true | _ => false end.

(** [allowParticipantAdds]: the whole batch is charged at once. *)
Definition gate_all (b : budget) (c : client) (targets : list string) (t : send_db) : send_db * send_gate :=
  let '(t', res) := reserveSend rnd (lims b) (lids c) (reserve_fault b) (now b) targets t in
  (t', allowSend false (with_settings b) (snapshot b) res (live b)).

(** [handleGroupParticipants]; [update] is the answer of WhatsApp. *)
Definition handleGroupParticipants (fuel : nat) (policy : chatPolicy) (twin : twin_lookup) (b : budget) (c : client)
    (update : request → option string) (post : bool) (body : option groupRequest) (t : send_db) : group_effect :=
  let answer r := {| reply := r; requests := []; recorded := []; budget_after := t |} in
  match parseGroupRequest policy post body with
  | Err r => answer r
  | Ok (req, jid) =>
      match change_of (Action req) with
      | None => answer (Failed 400 "action must be one of add, remove, promote, demote" [])
      | Some action =>
          match parseParticipants policy (Participants req) with
          | Err e => answer (Failed 400 e [])
          | Ok who =>
              match (if expands action then not_admitted fuel policy twin who else None) with
              | Some j => answer (Failed 403 ("participant " +:+ JIDString j +:+ " is not in " +:+ ChatPolicy.origin policy) [])
              | None =>
                  let '(t, g) := match action with
                                 | Add => gate_all b c (JIDString <$> who) t
                                 | _ => (t, SendAllowed None)
                                 end in
                  match g with
                  | SendDenied r retry => {| reply := Limited r retry; requests := []; recorded := []; budget_after := t |}
                  | SendAllowed _ =>
                      let r := UpdateParticipants jid who action in
                      {| reply := match update r with
                                  | Some e => Failed 502 ("group update failed: " +:+ e) []
                                  | None => Done "applied" []
                                  end; requests := [r]; recorded := []; budget_after := t |}
                  end
              end
          end
      end
  end.

(** The answers to a subject request: the name, the info (its topic id and its
    participants), the topic. *)
Record subject_world := {
  name_error : option string; info : result string (string * list Roster.participant); topic_error : option string;
}.

Definition failDescription (changed : list string) (msg : string) : group_reply :=
  Failed 502 (match changed with [] => msg | _ => "group was renamed; " +:+ msg +:+ "; retry only description" end) changed.

(** [handleGroupSubject]. *)
Definition handleGroupSubject (policy : chatPolicy) (w : subject_world) (post : bool) (body : option groupRequest) (t : send_db) : group_effect :=
  let answer rs r := {| reply := r; requests := rs; recorded := []; budget_after := t |} in
  match parseGroupRequest policy post body with
  | Err r => answer [] r
  | Ok (req, jid) =>
      match ReqName req, Description req with
      | None, None => answer [] (Failed 400 "provide name and/or description" [])
      | name, description =>
          let renamed := match name with Some n => [SetName jid (trim_space n)] | None => [] end in
          let changed := match name with Some _ => ["name"] | None => [] end in
          match (match name with
                 | Some n => if String.eqb (trim_space n) "" then Some ([], Failed 400 "name must not be empty" [])
                             else match name_error w with
                                  | Some e => Some (renamed, Failed 502 ("set name failed: " +:+ e) [])
                                  | None => None
                                  end
                 | None => None
                 end) with
          | Some (rs, r) => answer rs r
          | None =>
              match description with
              | None => answer renamed (Done "updated name" changed)
              | Some d =>
                  match info w with
                  | Err e => answer (renamed ++ [GetInfo jid]) (failDescription changed ("could not read group info: " +:+ e))
                  | Ok (topicID, participants) =>
                      {| reply := match topic_error w with
                                  | Some e => failDescription changed ("set description failed: " +:+ e)
                                  | None => Done ("updated " +:+ join " and " (changed ++ ["description"])) (changed ++ ["description"])
                                  end;
                         requests := renamed ++ [GetInfo jid; SetTopic jid topicID (trim_space d)];
                         recorded := [(JIDString jid, Roster.buildGroupMember (λ _, "") <$> participants, false)]; budget_after := t |}
                  end
              end
          end
      end
  end.

(** [handleGroupInvite] and [handleGroupLeave]. *)
Definition handleGroupInvite (policy : chatPolicy) (invite : request → result string string) (post : bool) (body : option groupRequest)
    (t : send_db) : group_effect :=
  match parseGroupRequest policy post body with
  | Err r => {| reply := r; requests := []; recorded := []; budget_after := t |}
  | Ok (req, jid) =>
      let r := InviteLink jid (Reset req) in
      {| reply := match invite r with Ok link => Done link [] | Err e => Failed 502 ("invite link failed: " +:+ e) [] end;
         requests := [r]; recorded := []; budget_after := t |}
  end.

Definition handleGroupLeave (policy : chatPolicy) (leave : request → option string) (post : bool) (body : option groupRequest) (t : send_db) :
    group_effect :=
  match parseGroupRequest policy post body with
  | Err r => {| reply := r; requests := []; recorded := []; budget_after := t |}
  | Ok (_, jid) =>
      let r := LeaveGroup jid in
      {| reply := match leave r with None => Done "left the group" [] | Some e => Failed 502 ("leave failed: " +:+ e) [] end;
         requests := [r]; recorded := []; budget_after := t |}
  end.

(** [handleGroupMembers] once the group was read from the query or the body;
    [nameOf] is the contact store. *)
Definition handleGroupMembers (policy : chatPolicy) (nameOf : JID → string) (fetch : request → result string (list Roster.participant)) (raw : string)
    (t : send_db) : group_effect :=
  let answer rs r := {| reply := r; requests := rs; recorded := []; budget_after := t |} in
  let raw := trim_space raw in
  if String.eqb raw "" then answer [] (Failed 400 "group JID is required (?jid=...@g.us)" []) else
  match authorizeChat policy raw false with
  | Err r => answer [] (Refused r)
  | Ok jid =>
      if negb (String.eqb (Server jid) GroupServer) then answer [] (Failed 400 ("not a group JID: " +:+ raw) []) else
      match fetch (GetInfo jid) with
      | Err e => answer [GetInfo jid] (Failed 502 ("failed to fetch group info: " +:+ e) [])
      | Ok ps => {| reply := Done "" []; requests := [GetInfo jid];
                    recorded := [(JIDString (ToNonAD jid), Roster.buildGroupMember nameOf <$> ps, true)]; budget_after := t |}
      end
  end.

(** ** What may be asked of WhatsApp *)

Definition target_of (r : request) : JID :=
  match r with
  | UpdateParticipants j _ _ | SetName j _ | GetInfo j | SetTopic j _ _ | InviteLink j _ | LeaveGroup j => j
  end.

(** A group the request named and the policy permits. *)
Definition managed (policy : chatPolicy) (raw : string) (j : JID) : Prop :=
  authorizeChat policy (trim_space raw) false = Ok j ∧ Server j = GroupServer.

Lemma parse_managed policy post body req j :
  parseGroupRequest policy post body = Ok (req, j) → body = Some req ∧ managed policy (GroupJID req) j.
Proof.
  unfold parseGroupRequest, managed. destruct post; [|done]. cbn [negb]. destruct body as [r|]; [|done].
  destruct (String.eqb (trim_space (GroupJID r)) ""); [done|]. destruct (authorizeChat _ _ _) as [j'|] eqn:Ha; [|done].
  destruct (String.eqb_spec (Server j') GroupServer) as [Hs|]; [|done]. intros [= -> ->]. done.
Qed.

Lemma not_admitted_none fuel policy twin who :
  not_admitted fuel policy twin who = None → Forall (λ j, allowsIdentity fuel policy twin j = Some true) who.
Proof.
  unfold not_admitted. intros Hn. apply Forall_forall. intros j Hj.
  destruct (decide (allowsIdentity fuel policy twin j = Some true)) as [|Hne]; [done|].
  assert (j ∈ filter (λ j, allowsIdentity fuel policy twin j ≠ Some true) who) as Hin by (by apply list_elem_of_filter).
  destruct (filter _ who); [by apply not_elem_of_nil in Hin|done].
Qed.

(** Group changes are guarded.  A change of participants goes out only for the
    permitted group the request names; adding and promoting also need every
    participant of the batch to be a permitted identity, adding needs the budget
    for the whole batch, and nothing is asked when one of them fails. *)
Theorem participants_guarded (fuel : nat) (policy : chatPolicy) (twin : twin_lookup) (b : budget) (c : client)
    (update : request → option string) (post : bool) (req : groupRequest) (t : send_db) :
  let e := handleGroupParticipants fuel policy twin b c update post (Some req) t in
  ∀ r, r ∈ requests e → ∃ j who action,
    r = UpdateParticipants j who action ∧ requests e = [r] ∧ managed policy (GroupJID req) j
    ∧ change_of (Action req) = Some action ∧ parseParticipants policy (Participants req) = Ok who
    ∧ (expands action = true → Forall (λ j, allowsIdentity fuel policy twin j = Some true) who)
    ∧ (action = Add → ∃ receipt, (gate_all b c (JIDString <$> who) t).2 = SendAllowed receipt).
Proof.
  assert (∀ (P : request → Prop) r, r ∈ [] → P r) as Hnil by (intros P r Hr; by apply not_elem_of_nil in Hr).
  cbv zeta. unfold handleGroupParticipants. destruct (parseGroupRequest policy post (Some req)) as [[req' j]|] eqn:Hp; [|apply Hnil].
  apply parse_managed in Hp as [[= <-] Hm]. destruct (change_of (Action req)) as [action|] eqn:Hc; [|apply Hnil].
  destruct (parseParticipants policy (Participants req)) as [who|] eqn:Hw; [|apply Hnil].
  destruct (if expands action then _ else _) as [x|] eqn:Hx; [apply Hnil|].
  assert (expands action = true → Forall (λ j, allowsIdentity fuel policy twin j = Some true) who) as Hid
    by (intros E; rewrite E in Hx; by apply not_admitted_none).
  destruct (match action with Add => gate_all b c (JIDString <$> who) t | _ => _ end) as [t' [receipt|rr retry]] eqn:Hg; [|apply Hnil].
  intros r ->%list_elem_of_singleton. exists j, who, action. split_and!; try done.
  intros ->. exists receipt. by rewrite Hg.
Qed.

(** The other group handlers also act only on the permitted group. *)
Theorem groups_guarded (policy : chatPolicy) (w : subject_world) (invite : request → result string string) (leave : request → option string)
    (fetch : request → result string (list Roster.participant)) (nameOf : JID → string) (post : bool) (req : groupRequest) (t : send_db) :
  (∀ r, r ∈ requests (handleGroupSubject policy w post (Some req) t) → managed policy (GroupJID req) (target_of r))
  ∧ (∀ r, r ∈ requests (handleGroupInvite policy invite post (Some req) t) → managed policy (GroupJID req) (target_of r))
  ∧ (∀ r, r ∈ requests (handleGroupLeave policy leave post (Some req) t) → managed policy (GroupJID req) (target_of r))
  ∧ (∀ r, r ∈ requests (handleGroupMembers policy nameOf fetch (GroupJID req) t) → managed policy (GroupJID req) (target_of r)).
Proof.
  assert (∀ (P : request → Prop) r, r ∈ [] → P r) as Hnil by (intros P r Hr; by apply not_elem_of_nil in Hr).
  assert (∀ j l r, managed policy (GroupJID req) j → Forall (λ x, target_of x = j) l → r ∈ l → managed policy (GroupJID req) (target_of r)) as Hall
    by (intros j l r Hm Hl Hr; rewrite (proj1 (Forall_forall _ _) Hl r Hr); done).
  split_and!.
  - unfold handleGroupSubject. destruct (parseGroupRequest policy post (Some req)) as [[req' j]|] eqn:Hp; [|apply Hnil].
    apply parse_managed in Hp as [[= <-] Hm].
    intros r. destruct (ReqName req) as [n|], (Description req) as [d|]; repeat case_match; simplify_eq; cbn [requests app];
      try apply Hnil; apply (Hall j); try done; repeat constructor.
  - unfold handleGroupInvite. destruct (parseGroupRequest policy post (Some req)) as [[req' j]|] eqn:Hp; [|apply Hnil].
    apply parse_managed in Hp as [[= <-] Hm]. by intros r ->%list_elem_of_singleton.
  - unfold handleGroupLeave. destruct (parseGroupRequest policy post (Some req)) as [[req' j]|] eqn:Hp; [|apply Hnil].
    apply parse_managed in Hp as [[= <-] Hm]. by intros r ->%list_elem_of_singleton.
  - unfold handleGroupMembers, managed. destruct (String.eqb _ _); [apply Hnil|].
    destruct (authorizeChat policy (trim_space (GroupJID req)) false) as [j|]; [|apply Hnil].
    destruct (String.eqb_spec (Server j) GroupServer); [|apply Hnil]. cbn [negb].
    destruct (fetch (GetInfo j)); by intros r ->%list_elem_of_singleton.
Qed.

End Manage.
End Manage.

(** ** Samples *)

Module Sample.
#[local] Existing Instance RefJid.ops.

Definition user (n : string) : RefJid.t := {| RefJid.ref_user := n; RefJid.ref_device := ""; RefJid.ref_server := DefaultUserServer |}.
Definition group : RefJid.t := {| RefJid.ref_user := "9"; RefJid.ref_device := ""; RefJid.ref_server := GroupServer |}.
Definition me : Roster.account := {| Roster.lids := None; Roster.own_id := Some (user "1"); Roster.own_lid := {| RefJid.ref_user := ""; RefJid.ref_device := ""; RefJid.ref_server := "" |} |}.
Definition empty : Roster.state := {| Roster.table := ∅; Roster.failures := Roster.newRosterFailures |}.
Definition policy : chatPolicy := parseChatPolicy "*@g.us".

Definition joined : Roster.GroupInfo :=
  {| Roster.g_jid := group; Roster.g_time := None; Roster.Join := [user "2"]; Roster.Leave := []; Roster.Promote := []; Roster.Demote := [] |}.
Definition left : Roster.GroupInfo :=
  {| Roster.g_jid := group; Roster.g_time := None; Roster.Join := []; Roster.Leave := [user "1"]; Roster.Promote := []; Roster.Demote := [] |}.
Definition populated : Roster.state := Roster.applyGroupParticipantChanges policy me 1000000000 joined empty.

Definition quick (j : string) : Roster.round :=
  {| Roster.alive := true; Roster.answer := Roster.Gone; Roster.asked := 0; Roster.stored_at := 0; Roster.paused := false |}.
Definition chats : list string := ["9@g.us"; "8@g.us"; "1@s.whatsapp.net"].
End Sample.

Lemma roster_pass_complete_witness :
  let p := @Roster.syncGroupRosters RefJid.ops Sample.policy Sample.policy Sample.me 10 (10 ^ 15) Sample.quick 5 Sample.chats Sample.empty in
  Roster.more p = false ∧ "8@g.us" ∈ Roster.attempts p.
Proof.
  intros p. assert (Roster.more p = false) as Hm by (vm_compute; reflexivity). split; [exact Hm|].
  destruct (@Roster.roster_pass_complete RefJid.ops Sample.policy Sample.policy Sample.me 10 (10 ^ 15) Sample.quick 5 Sample.chats Sample.empty)
    as (_ & _ & _ & Hall & _); [apply (bool_decide_unpack _); vm_compute; exact I|lia|].
  refine (Hall Hm "8@g.us" _ _); [|repeat split; vm_compute; reflexivity].
  apply (bool_decide_unpack _). vm_compute. exact I.
Defined.

Lemma excluded_groups_uncached_witness :
  @Roster.permitted_only Sample.policy Sample.populated ∧ Roster.table Sample.populated !! ("9@g.us", "2") ≠ None.
Proof.
  split; [|vm_compute; discriminate].
  apply (@Roster.excluded_groups_uncached RefJid.ops). eapply rtc_l; [|apply rtc_refl].
  apply (@Roster.feed_change RefJid.ops Sample.policy Sample.me 1000000000 Sample.joined Sample.empty).
Defined.

Lemma left_group_stays_empty_witness :
  let group := @JIDString RefJid.ops (Roster.g_jid Sample.left) in
  Roster.table (@Roster.noteGroupSender RefJid.ops Sample.policy Sample.me group (Sample.user "3") 3000000000 3000000000
    (@Roster.applyGroupParticipantChanges RefJid.ops Sample.policy Sample.me 2000000000 Sample.left Sample.populated)) !! (group, "3") = None.
Proof.
  intros group.
  destruct (@Roster.left_group_stays_empty RefJid.ops Sample.policy Sample.me 2000000000 Sample.left Sample.populated (Sample.user "3")
    3000000000 3000000000) as [_ Hu].
  - vm_compute. discriminate.
  - vm_compute. reflexivity.
  - vm_compute. reflexivity.
  - vm_compute. reflexivity.
  - intros b Hb. exfalso. revert Hb. vm_compute. discriminate.
  - vm_compute. reflexivity.
  - vm_compute. discriminate.
  - exact (Hu "3").
Defined.

Lemma participants_guarded_witness :
  ∃ j who action, Manage.requests (@Manage.handleGroupParticipants RefJid.ops (λ q, q) 10 (parseChatPolicy "") None (money Send.Sample.w) (cl Send.Sample.w)
      (λ _, None) true (Some {| Manage.GroupJID := "9@g.us"; Manage.Action := "Remove"; Manage.Participants := ["+49 151 1234567"];
        Manage.ReqName := None; Manage.Description := None; Manage.Reset := false |}) (new_db ∅)) = [Manage.UpdateParticipants j who action]
    ∧ Manage.managed (parseChatPolicy "") "9@g.us" j.
Proof.
  set (req := {| Manage.GroupJID := "9@g.us"; Manage.Action := _ |}).
  destruct (@Manage.participants_guarded RefJid.ops (λ q, q) 10 (parseChatPolicy "") None (money Send.Sample.w) (cl Send.Sample.w) (λ _, None) true req (new_db ∅)
    (@Manage.UpdateParticipants RefJid.ops Sample.group [Sample.user "491511234567"] Manage.Remove)) as (j & who & action & -> & Hr & Hm & _);
    [vm_compute; left|].
  exists j, who, action. split; [exact Hr|exact Hm].
Defined.
