(* ===== verification/MediaPurge.v ===== *)
(** * Removing cached media ([media_purge.go], [media_retention.go],
      [media_storage.go], [media_cache_path.go], [media_cap.go])

    The purge of /api/media/purge on the local backend: the paged scan of the
    archive, the probe and removal of one row's file, and the handler with its
    limits; the retention sweep; the cap of an automatic download.  The disk is a
    map of chat directories, a removal may fail; the zone of file names is a
    parameter. *)
From S2P Require Import Prelude Jid Http ChatPolicy StoreTime Archive Messages MarkRead MediaNames.
#[local] Open Scope Z_scope.

(** ** The disk *)

(** A directory entry: what [Lstat] says, its size, its modification time and
    whether it can be removed. *)
Record file := { kind : lstat; size : Z; mtime : Z; removable : bool }.

(** A chat directory: what stands under the name, whether it is still the same
    when opened, and its entries. *)
Record chat_dir := { d_kind : lstat; d_opened : bool; entries : gmap string file }.

Abbreviation disk := (gmap string chat_dir).

Definition no_dir : chat_dir := {| d_kind := Missing; d_opened := false; entries := ∅ |}.
Definition dir_of (d : disk) (chat : string) : chat_dir := default no_dir (d !! chat).
Definition stat_in (c : chat_dir) (name : string) : lstat := match entries c !! name with Some f => kind f | None => Missing end.

(** [Remove] in the directory the lookup opened. *)
Definition remove (chat name : string) (d : disk) : disk :=
  alter (λ c, {| d_kind := d_kind c; d_opened := d_opened c; entries := delete name (entries c) |}) chat d.

(** ** One row *)

(** [mediaRow]: the time is in nanoseconds. *)
Record mediaRow := { ID : string; ChatJID : string; MediaType : string; Timestamp : Z; Filename : string }.

Definition row_of (kr : key * message_row) : mediaRow :=
  {| ID := kr.1.1; ChatJID := kr.1.2; MediaType := media_type kr.2; Timestamp := timestamp kr.2 * 10 ^ 9; Filename := filename kr.2 |}.

Definition MediaRow (id chat : string) (db : archive) : option mediaRow := (λ r, row_of ((id, chat), r)) <$> rows db !! (id, chat).

Inductive reason : Type := NoReason | NotMedia | OutsideStore | NotResolvable | NotCachedReason | RemoveFailed
| Required | BadChat (m : string) | NotPermitted | Duplicate | NotFound | NoStore.

(** [PurgeResult]; the name of a removed file is below its chat directory. *)
Record PurgeResult := { r_id : string; r_chat : string; Purged : bool; Bytes : Z; File : string; Reason : reason }.

Definition refused (row : mediaRow) (why : reason) : PurgeResult :=
  {| r_id := ID row; r_chat := ChatJID row; Purged := false; Bytes := 0; File := ""; Reason := why |}.

Section Purge.
Context (zone : Z → Z).

(** [errMediaPath]: the refusal of a component, not of what stands on the disk. *)
Definition names_of (row : mediaRow) : list string := mediaFileNames zone (MediaType row) (Timestamp row) (ID row) (Filename row).

Definition path_refused (row : mediaRow) : bool :=
  match omap (checkMediaPathComponents (chatMediaRel (ChatJID row))) (names_of row) with [] => false | _ => true end.

Definition find_row (d : disk) (row : mediaRow) : lookup_result :=
  let c := dir_of d (chatMediaRel (ChatJID row)) in
  findCachedMedia (d_kind c) (d_opened c) (stat_in c) (chatMediaRel (ChatJID row)) (names_of row).

Definition file_size (d : disk) (chat name : string) : Z := match entries (dir_of d chat) !! name with Some f => size f | None => 0 end.
Definition file_removable (d : disk) (chat name : string) : bool := match entries (dir_of d chat) !! name with Some f => removable f | None => false end.

(** [purgeOneUsing]. *)
Definition purgeOne (row : mediaRow) (dryRun : bool) (d : disk) : disk * PurgeResult :=
  let chat := chatMediaRel (ChatJID row) in
  if bool_decide (MediaType row ∈ [""; "reaction"; "poll_vote"]) then (d, refused row NotMedia)
  else match find_row d row with
       | Found name =>
           let ok := {| r_id := ID row; r_chat := ChatJID row; Purged := true; Bytes := file_size d chat name; File := name; Reason := NoReason |} in
           if dryRun then (d, ok)
           else if file_removable d chat name then (remove chat name d, ok)
           else (d, {| r_id := ID row; r_chat := ChatJID row; Purged := false; Bytes := 0; File := name; Reason := RemoveFailed |})
       | RefusedPath _ => (d, refused row (if path_refused row then OutsideStore else NotResolvable))
       | NotCached => (d, refused row NotCachedReason)
       end.

(** [Delete] of the local backend; [ended k] when the request ended before the
    k-th row. *)
Fixpoint delete_rows (ended : nat → bool) (k : nat) (dry : bool) (rs : list mediaRow) (d : disk) : disk * list PurgeResult :=
  match rs with
  | [] => (d, [])
  | row :: rest =>
      if ended k then (d, [])
      else let '(d, res) := purgeOne row dry d in
           let '(d, out) := delete_rows ended (S k) dry rest d in (d, res :: out)
  end.

(** ** The scan of the archive *)

Definition purgeMediaTypes : list string := ["image"; "video"; "audio"; "document"; "sticker"].

(** The WHERE clauses: chat ("" for all), cutoff and type. *)
Definition row_matches (chat : string) (before : option Z) (mediaType : string) (kr : key * message_row) : bool :=
  bool_decide (media_type kr.2 ∈ purgeMediaTypes)
  && (String.eqb chat "" || String.eqb kr.1.2 chat)
  && match before with Some b => timestamp kr.2 <? stamp b | None => true end
  && (String.eqb mediaType "" || String.eqb (media_type kr.2) mediaType).

(** [ORDER BY timestamp, id, chat_jid]. *)
Definition order_key (kr : key * message_row) : Z * (string * string) := (timestamp kr.2, kr.1).

Definition key_le (a b : Z * (string * string)) : Prop :=
  a.1 < b.1 ∨ a.1 = b.1 ∧ (a.2.1 ≠ b.2.1 ∧ string_le a.2.1 b.2.1 ∨ a.2.1 = b.2.1 ∧ string_le a.2.2 b.2.2).

Definition key_lt (a b : Z * (string * string)) : Prop := key_le a b ∧ a ≠ b.

#[export] Instance key_le_dec : RelDecision key_le.
Proof. intros a b. unfold key_le. apply _. Defined.
#[export] Instance key_lt_dec : RelDecision key_lt.
Proof. intros a b. unfold key_lt. apply _. Defined.

Definition media_le (a b : key * message_row) : Prop := key_le (order_key a) (order_key b).
#[export] Instance media_le_dec : RelDecision media_le.
Proof. intros a b. unfold media_le. apply _. Defined.

Definition matching (chat : string) (before : option Z) (mediaType : string) (db : archive) : list (key * message_row) :=
  merge_sort media_le (filter (λ kr, row_matches chat before mediaType kr = true) (map_to_list (rows db))).

(** The cursor: the last row read, [None] at the start. *)
Definition after (cursor : option (Z * (string * string))) (l : list (key * message_row)) : list (key * message_row) :=
  match cursor with Some c => filter (λ kr, key_lt c (order_key kr)) l | None => l end.

Definition pageSize : nat := 256.

(** One page handed to the callback: its state, and whether the scan stopped. *)
Fixpoint visit {A} (policy : chatPolicy) (maxScan : nat) (fn : A → mediaRow → A * bool) (page : list (key * message_row)) (scanned : nat) (a : A) :
    A * nat * bool :=
  match page with
  | [] => (a, scanned, false)
  | kr :: rest =>
      if negb (Allows policy kr.1.2) then visit policy maxScan fn rest scanned a
      else if (maxScan <=? scanned)%nat then (a, scanned, true)
      else let '(a, more) := fn a (row_of kr) in
           if more then visit policy maxScan fn rest (S scanned) a else (a, S scanned, true)
  end.

(** [EachMediaRowMatchingContext]: the paged loop, with one round of fuel per
    row and one more. *)
Fixpoint scan_pages {A} (fuel : nat) (policy : chatPolicy) (maxScan : nat) (fn : A → mediaRow → A * bool) (all : list (key * message_row))
    (cursor : option (Z * (string * string))) (scanned : nat) (a : A) : option (A * bool) :=
  match fuel with
  | O => None
  | S fuel =>
      let page := take pageSize (after cursor all) in
      let cursor' := match last page with Some kr => Some (order_key kr) | None => cursor end in
      let '(a, scanned, cut) := visit policy maxScan fn page scanned a in
      if cut then Some (a, true)
      else if (length page <? pageSize)%nat then Some (a, false)
      else scan_pages fuel policy maxScan fn all cursor' scanned a
  end.

Definition EachMediaRowMatching {A} (chat : string) (before : option Z) (cursor : option (Z * (string * string))) (mediaType : string)
    (policy : chatPolicy) (maxScan : nat) (fn : A → mediaRow → A * bool) (db : archive) (a : A) : option (A * bool) :=
  let all := matching chat before mediaType db in
  scan_pages (S (length all)) policy maxScan fn all cursor 0 a.

End Purge.

(** ** The handler *)

Definition purgeMaxFiles : nat := 500.
Definition purgeMaxItems : nat := 1000.
Definition purgeMaxScan : Z := 100000.

(** [purgeScanLimit] of the configured limit. *)
Definition purgeScanLimit (configured : Z) : nat := Z.to_nat (if 0 <? configured then configured else purgeMaxScan).

Definition purgeMaxUnreachable : nat := 50.

(** The decoded cursor field: absent, refused by [decodePurgeCursor], or the key
    of a row. *)
Inductive cursor_field : Type := NoCursor | BadCursor | After (k : Z * (string * string)).

Record MediaPurgeRequest := {
  Scope : string; IncludeOrphans : bool; Items : list (string * string); reqChat : string; OlderThanDays : Z;
  MinBytes : Z; reqType : string; DryRun : option bool; Cursor : cursor_field;
}.

(** What the body decodes to. *)
Inductive purge_body : Type := Malformed | Oversized | Body (req : MediaPurgeRequest).

Record MediaPurgeResponse := {
  dry_run : bool; matched : nat; purged_files : nat; purged_bytes : Z; truncated : bool; items : list PurgeResult;
  remaining : Z; scan_truncated : bool; unreachable : nat; failed : nat; next_cursor : option (Z * (string * string)); examined : nat;
}.

Inductive purge_reply : Type :=
| PurgeError (st : Z) (message : string) (dry : bool)
| ErrorReply (r : Http.reply)
| StatusScope (dry : option bool) (orphans : bool)
| Purge (resp : MediaPurgeResponse).

(** What can go wrong around one call: the caller hangs up before a row, during a
    probe, before a removal; a lookup or the scan fails; the store is missing. *)
Record purge_faults := {
  hung_up : nat → bool; probe_ended : nat → bool; delete_ended : nat → bool; row_fails : nat → bool; scan_fails : bool; no_store : bool;
}.

(** The rows selected, the answers so far and the rows looked at. *)
Record selection := { picked : list mediaRow; answers : list PurgeResult; looked : nat; lost : nat; last_row : option mediaRow }.

Definition nothing : selection := {| picked := []; answers := []; looked := 0; lost := 0; last_row := None |}.

Definition answer (why : reason) (id chat : string) : PurgeResult :=
  {| r_id := id; r_chat := chat; Purged := false; Bytes := 0; File := ""; Reason := why |}.

Section Handler.
Context `{JidOps} (zone : Z → Z) (f : purge_faults) (d : disk) (db : archive) (policy : chatPolicy) (scanLimit : nat).

(** [probeRow] of the local backend. *)
Definition probeRow (k : nat) (row : mediaRow) : PurgeResult :=
  if probe_ended f k then refused row NotResolvable
  else if no_store f && negb (bool_decide (MediaType row ∈ [""; "reaction"; "poll_vote"])) then refused row NoStore
  else (purgeOne zone row true d).2.

(** One named item past the limits: what it adds. *)
Inductive item_step : Type := Answer (r : PurgeResult) | Pick (row : mediaRow) | Broken.

Definition look_item (k : nat) (seen : list (string * string)) (it : string * string) : item_step * list (string * string) :=
  let id := trim_space it.1 in
  let raw := trim_space it.2 in
  if String.eqb id "" || String.eqb raw "" then (Answer (answer Required id raw), seen)
  else match canonicalChatJID raw false with
       | Err e => (Answer (answer (BadChat e) id raw), seen)
       | Ok j =>
           let chat := JIDString j in
           if negb (Allows policy chat) then (Answer (answer NotPermitted id chat), seen)
           else if bool_decide ((id, chat) ∈ seen) then (Answer (answer Duplicate id chat), seen)
           else if row_fails f k then (Broken, seen)
           else match MediaRow id chat db with
                | None => (Answer (answer NotFound id chat), (id, chat) :: seen)
                | Some row =>
                    let probe := probeRow k row in
                    (if Purged probe then Pick row else Answer probe, (id, chat) :: seen)
                end
       end.

(** The items form: the selection and the items not looked at, [None] after a
    failed lookup. *)
Fixpoint select_items (its : list (string * string)) (seen : list (string * string)) (s : selection) : option (selection * nat) :=
  match its with
  | [] => Some (s, 0%nat)
  | it :: rest =>
      if (purgeMaxFiles <=? length (picked s))%nat || (scanLimit <=? looked s)%nat then Some (s, length its)
      else let '(step, seen') := look_item (looked s) seen it in
           match step with
           | Broken => None
           | Answer r => select_items rest seen' {| picked := picked s; answers := answers s ++ [r]; looked := S (looked s); lost := 0; last_row := None |}
           | Pick row => select_items rest seen' {| picked := picked s ++ [row]; answers := answers s; looked := S (looked s); lost := 0; last_row := None |}
           end
  end.

(** The callback of the criteria form. *)
Definition consider (minBytes : Z) (s : selection) (row : mediaRow) : selection * bool :=
  if hung_up f (looked s) then (s, false)
  else
    let probe := probeRow (looked s) row in
    let s' :=
      if Purged probe && (minBytes <=? Bytes probe) then
        {| picked := picked s ++ [row]; answers := answers s; looked := S (looked s); lost := lost s; last_row := Some row |}
      else if Purged probe then {| picked := picked s; answers := answers s; looked := S (looked s); lost := lost s; last_row := Some row |}
      else match Reason probe with
           | NotCachedReason => {| picked := picked s; answers := answers s; looked := S (looked s); lost := lost s; last_row := Some row |}
           | _ => {| picked := picked s; answers := if (S (lost s) <=? purgeMaxUnreachable)%nat then answers s ++ [probe] else answers s;
                     looked := S (looked s); lost := S (lost s); last_row := Some row |}
           end in
    (s', (length (picked s') <? purgeMaxFiles)%nat).

(** The end of a call: the removals and the counts.  [rest] is what is left, [cut]
    whether the selection stopped early, [at_limit] whether at the row limit. *)
Definition finish (dry : bool) (s : selection) (rest : Z) (cut at_limit : bool) (next : option (Z * (string * string))) : disk * purge_reply :=
  let '(d', deleted) := delete_rows zone (delete_ended f) 0 dry (picked s) d in
  if (length deleted <? length (picked s))%nat then (d', ErrorReply (Http.writeError 503 "Media purge incomplete"))
  else
    let done := filter (λ r, Purged r = true) deleted in
    let bad := if dry then O else length (filter (λ r, Purged r = false) deleted) in
    let stuck := negb dry && (0 <? bad)%nat && (length done =? 0)%nat in
    (d', Purge {|
      dry_run := dry; matched := length (picked s); purged_files := length done; purged_bytes := foldr Z.add 0 (Bytes <$> done);
      truncated := if stuck then false else cut; items := answers s ++ deleted; remaining := rest; scan_truncated := at_limit;
      unreachable := lost s; failed := bad; next_cursor := if stuck then None else next; examined := looked s |}).

(** [encodePurgeCursor] of the last row. *)
Definition cursor_of (row : mediaRow) : Z * (string * string) := (stamp (Timestamp row), (ID row, ChatJID row)).

Definition zero_row : mediaRow := {| ID := ""; ChatJID := ""; MediaType := ""; Timestamp := 0; Filename := "" |}.

(** The criteria form; [cutoff n] is the time [n] days ago on the local clock. *)
Definition purge_criteria (cutoff : Z → Z) (dry : bool) (chat : string) (days minBytes : Z) (type : string) (after : option (Z * (string * string))) :
    disk * purge_reply :=
  if no_store f then (d, PurgeError 500 "Store directory unavailable" dry)
  else if scan_fails f then (d, PurgeError 500 "Failed to query media rows" dry)
  else match EachMediaRowMatching chat (if 0 <? days then Some (cutoff days) else None) after type policy scanLimit (consider minBytes) db nothing with
       | None => (d, PurgeError 500 "Failed to query media rows" dry)
       | Some (s, cut) =>
           finish dry s (if cut then -1 else 0) cut (cut && (scanLimit <=? looked s)%nat && (length (picked s) <? purgeMaxFiles)%nat)
             (if cut then Some (cursor_of (default zero_row (last_row s))) else None)
       end.

(** The items form. *)
Definition purge_items (dry : bool) (its : list (string * string)) : disk * purge_reply :=
  match select_items its [] nothing with
  | None => (d, PurgeError 500 "Failed to look up message" dry)
  | Some (s, unread) => finish dry s (Z.of_nat unread) (0 <? unread)%nat ((0 <? unread)%nat && (scanLimit <=? looked s)%nat) None
  end.

(** The scope shortcut, the checks of the fields and the two forms. *)
Definition status_alone (r : MediaPurgeRequest) : bool :=
  String.eqb (Scope r) "status" && bool_decide (Items r = []) && match Cursor r with NoCursor => true | _ => false end
  && String.eqb (reqChat r) "" && String.eqb (reqType r) "" && (OlderThanDays r =? 0) && (MinBytes r =? 0).

(** The request past the cursor: the checks of the fields, then one form. *)
Definition purge_checked (cutoff : Z → Z) (r : MediaPurgeRequest) (cursor : option (Z * (string * string))) : disk * purge_reply :=
  let dry := default true (DryRun r) in
  let type := trim_space (reqType r) in
  let raw := trim_space (reqChat r) in
  let no_items := bool_decide (Items r = []) in
  let bad m := (d, PurgeError 400 m dry) in
  let go chat := if no_items then purge_criteria cutoff dry chat (OlderThanDays r) (MinBytes r) type cursor else purge_items dry (Items r) in
  if negb (String.eqb type "") && negb (bool_decide (type ∈ purgeMediaTypes))
  then bad "media_type must be one of image, video, audio, document, sticker"
  else if no_items && String.eqb raw "" && (OlderThanDays r =? 0) && (MinBytes r =? 0) && String.eqb type ""
  then bad "Provide items, or at least one of chat_jid / older_than_days / min_bytes / media_type"
  else if (OlderThanDays r <? 0) || (MinBytes r <? 0) then bad "older_than_days and min_bytes must not be negative"
  else if String.eqb raw "" then go ""
  else match authorizeChat policy raw false with
       | Err e => (d, ErrorReply e)
       | Ok j => go (JIDString j)
       end.

Definition handleMediaPurge (cutoff : Z → Z) (body : purge_body) : disk * purge_reply :=
  match body with
  | Malformed => (d, PurgeError 400 "Invalid request format" true)
  | Oversized => (d, PurgeError 400 "Request body must not exceed 1048576 bytes" true)
  | Body r =>
      let bad m := (d, PurgeError 400 m (default true (DryRun r))) in
      if negb (String.eqb (Scope r) "") || IncludeOrphans r then
        if status_alone r then (d, StatusScope (DryRun r) (IncludeOrphans r))
        else (d, ErrorReply (Http.writeError 400 "scope=status is a standalone purge shortcut"))
      else if (purgeMaxItems <? length (Items r))%nat then bad "items must contain at most 1000 entries; use criteria for bulk purges"
      else match Cursor r with
           | NoCursor => purge_checked cutoff r None
           | BadCursor => bad "cursor must be a criteria next_cursor"
           | After k => if bool_decide (Items r = []) then purge_checked cutoff r (Some k) else bad "cursor must be a criteria next_cursor"
           end
  end.

End Handler.

(** ** Paging is invisible *)

Lemma key_le_trans a b c : key_le a b → key_le b c → key_le a c.
Proof.
  unfold key_le. intros [H1|[E1 H1]] [H2|[E2 H2]]; [left; lia|left; lia|left; lia|right]. split; [congruence|].
  destruct H1 as [[N1 L1]|[F1 L1]], H2 as [[N2 L2]|[F2 L2]].
  - pose proof (string_le_trans _ _ _ L1 L2) as L. destruct (decide (a.2.1 = c.2.1)) as [E|]; [|by left].
    exfalso. apply N1. apply string_le_antisym; [done|]. by rewrite E.
  - left. rewrite <-F2. done.
  - left. rewrite F1. done.
  - right. split; [congruence|]. by eapply string_le_trans.
Qed.

Lemma key_le_antisym a b : key_le a b → key_le b a → a = b.
Proof.
  destruct a as [ta [ia ca]], b as [tb [ib cb]]. unfold key_le. cbn.
  intros [H1|[-> H1]] [H2|[E2 H2]]; try lia.
  destruct H1 as [[N1 L1]|[-> L1]], H2 as [[N2 L2]|[E L2]]; try done.
  - destruct N1. by apply string_le_antisym.
  - do 2 f_equal. by apply string_le_antisym.
Qed.

Lemma key_le_total a b : key_le a b ∨ key_le b a.
Proof.
  unfold key_le. destruct (Z.lt_trichotomy a.1 b.1) as [?|[E|?]]; [auto| |auto].
  destruct (decide (a.2.1 = b.2.1)) as [E1|N1].
  - destruct (string_leb_total a.2.2 b.2.2); [left|right]; right; (split; [done|]); by right.
  - destruct (string_leb_total a.2.1 b.2.1); [left|right]; right; (split; [done|]); left; (split; [congruence|done]).
Qed.

Lemma key_lt_trans a b c : key_lt a b → key_lt b c → key_lt a c.
Proof.
  intros [H1 N1] [H2 N2]. split; [by eapply key_le_trans|]. intros ->. apply N1. by apply key_le_antisym.
Qed.

Lemma key_lt_irrefl a : ¬ key_lt a a.
Proof. by intros [_ ?]. Qed.

Definition strictly (l : list (key * message_row)) : Prop := StronglySorted (λ a b, key_lt (order_key a) (order_key b)) l.

(** The matching rows are in strict order: no two rows share their key. *)
Lemma matching_strict chat before mediaType db : strictly (matching chat before mediaType db).
Proof.
  unfold strictly, matching. set (l := filter _ _).
  assert (NoDup (order_key <$> l)) as Hnd.
  { apply NoDup_fmap_2_strong; [|apply NoDup_filter, NoDup_map_to_list].
    intros [k r] [k' r'] H1 H2 [= _ E]. unfold l in *.
    apply list_elem_of_filter in H1 as [_ H1], H2 as [_ H2]. apply elem_of_map_to_list in H1, H2. congruence. }
  assert (NoDup (order_key <$> merge_sort media_le l)) as Hnd' by (by rewrite merge_sort_Permutation).
  assert (StronglySorted media_le (merge_sort media_le l)) as Hs.
  { apply Sorted_StronglySorted; [intros a b c; apply key_le_trans|]. apply Sorted_merge_sort. intros a b. apply key_le_total. }
  revert Hs Hnd'. generalize (merge_sort media_le l). clear. intros l. induction l as [|a l IH]; intros Hs Hnd; [constructor|].
  inversion Hs as [|? ? Hs' Ha]; subst. cbn in Hnd. apply NoDup_cons in Hnd as [Hna Hnd]. constructor; [by apply IH|].
  apply Forall_forall. intros b Hb. split; [by apply (proj1 (Forall_forall _ _) Ha)|]. intros E. apply Hna. rewrite E. by apply list_elem_of_fmap_2.
Qed.

(** Past the last row of a prefix of a strict list is the rest of the list. *)
Lemma after_prefix pre x post : strictly (pre ++ x :: post) → filter (λ kr, key_lt (order_key x) (order_key kr)) (pre ++ x :: post) = post.
Proof.
  intros Hs. rewrite filter_app, filter_cons, decide_False by apply key_lt_irrefl.
  assert (filter (λ kr, key_lt (order_key x) (order_key kr)) pre = []) as ->.
  { destruct (filter _ pre) as [|y l] eqn:Hf; [done|]. exfalso.
    assert (y ∈ filter (λ kr, key_lt (order_key x) (order_key kr)) pre) as [Hlt Hy]%list_elem_of_filter by (rewrite Hf; set_solver).
    clear Hf. destruct (list_elem_of_split _ _ Hy) as (l1 & l2 & ->).
    unfold strictly in Hs. rewrite <-!app_assoc in Hs. apply StronglySorted_app_1_r in Hs. cbn in Hs.
    inversion Hs as [|? ? _ Hall]; subst. rewrite Forall_forall in Hall. specialize (Hall x ltac:(set_solver)).
    eapply key_lt_irrefl, key_lt_trans; [exact Hlt|done]. }
  cbn. apply StronglySorted_app_1_r in Hs. inversion Hs as [|? ? _ Hall]; subst. clear Hs.
  induction post as [|y l IH]; [done|]. inversion Hall; subst. rewrite filter_cons, decide_True by done. f_equal. by apply IH.
Qed.

(** A cursor of any kind leaves a suffix. *)
Lemma after_suffix c l : strictly l → ∃ pre, l = pre ++ filter (λ kr, key_lt c (order_key kr)) l.
Proof.
  intros Hs. induction l as [|x l IH]; [by exists []|]. inversion Hs as [|? ? Hs' Hall]; subst. rewrite filter_cons.
  destruct (decide _) as [Hc|Hc].
  - exists []. cbn. f_equal. clear IH Hs Hs'. induction l as [|y l IH]; [done|]. inversion Hall; subst.
    rewrite filter_cons, decide_True by (by eapply key_lt_trans). f_equal. by apply IH.
  - destruct (IH Hs') as [pre Hp]. exists (x :: pre). cbn. by rewrite <-Hp.
Qed.

Lemma visit_app {A} policy maxScan (fn : A → mediaRow → A * bool) l1 l2 scanned a :
  visit policy maxScan fn (l1 ++ l2) scanned a =
  let '(a, scanned, cut) := visit policy maxScan fn l1 scanned a in
  if cut then (a, scanned, true) else visit policy maxScan fn l2 scanned a.
Proof.
  revert scanned a. induction l1 as [|kr l IH]; intros scanned a; [done|]. cbn [app visit].
  destruct (negb _); [apply IH|]. destruct (maxScan <=? scanned)%nat; [done|]. destruct (fn a (row_of kr)) as [a' []]; [apply IH|done].
Qed.

Lemma scan_pages_spec {A} fuel policy maxScan (fn : A → mediaRow → A * bool) all cursor scanned a pre :
  strictly all → all = pre ++ after cursor all → (length (after cursor all) < fuel)%nat →
  scan_pages fuel policy maxScan fn all cursor scanned a =
  let '(a, _, cut) := visit policy maxScan fn (after cursor all) scanned a in Some (a, cut).
Proof.
  intros Hs. revert cursor scanned a pre. induction fuel as [|fuel IH]; intros cursor scanned a pre Hall Hlen; [lia|].
  cbn [scan_pages]. set (rest := after cursor all) in *.
  replace (visit policy maxScan fn rest scanned a) with (visit policy maxScan fn (take pageSize rest ++ drop pageSize rest) scanned a)
    by (by rewrite take_drop). rewrite visit_app.
  destruct (visit policy maxScan fn (take pageSize rest) scanned a) as [[a' scanned'] cut] eqn:Hv.
  destruct cut; [done|]. destruct (length (take pageSize rest) <? pageSize)%nat eqn:Hshort.
  - apply Nat.ltb_lt in Hshort. rewrite length_take in Hshort. rewrite drop_ge by lia. done.
  - apply Nat.ltb_ge in Hshort. rewrite length_take in Hshort.
    destruct (last (take pageSize rest)) as [x|] eqn:Hx.
    2:{ apply last_None in Hx. apply (f_equal length) in Hx. rewrite length_take in Hx. change (length (@nil (key * message_row))) with O in Hx. unfold pageSize in *. lia. }
    apply last_Some in Hx as [page Hpage].
    assert (all = (pre ++ page) ++ x :: drop pageSize rest) as Hsplit.
    { rewrite Hall at 1. rewrite <-(take_drop pageSize rest) at 1. rewrite Hpage. by rewrite <-!app_assoc. }
    assert (after (Some (order_key x)) all = drop pageSize rest) as Hafter.
    { cbn [after]. rewrite Hsplit. apply after_prefix. by rewrite <-Hsplit. }
    rewrite (IH (Some (order_key x)) scanned' a' ((pre ++ page) ++ [x])); rewrite Hafter.
    + done.
    + rewrite Hsplit at 1. by rewrite <-!app_assoc.
    + rewrite length_drop. unfold pageSize in *. lia.
Qed.

Lemma each_row_once {A} (chat : string) (before : option Z) (cursor : option (Z * (string * string))) (mediaType : string)
    (policy : chatPolicy) (maxScan : nat) (fn : A → mediaRow → A * bool) (db : archive) (a : A) :
  EachMediaRowMatching chat before cursor mediaType policy maxScan fn db a =
  let '(a, _, cut) := visit policy maxScan fn (after cursor (matching chat before mediaType db)) 0 a in Some (a, cut).
Proof.
  unfold EachMediaRowMatching. set (all := matching chat before mediaType db).
  assert (strictly all) as Hs by apply matching_strict.
  assert (∃ pre, all = pre ++ after cursor all) as [pre Hpre] by (destruct cursor as [c|]; [by apply after_suffix|by exists []]).
  rewrite (scan_pages_spec _ _ _ _ _ _ _ _ pre); [done|done|done|].
  apply (f_equal length) in Hpre. rewrite length_app in Hpre. lia.
Qed.

(** ** What a purge can remove *)

Section Safety.
Context `{JidOps} (zone : Z → Z).

Definition file_at (d : disk) (chat name : string) : option file := entries (dir_of d chat) !! name.

(** [name] in [chat] is a name of one of the rows' files. *)
Definition owned (rs : list mediaRow) (chat name : string) : Prop :=
  ∃ row, row ∈ rs ∧ chat = chatMediaRel (ChatJID row) ∧ name ∈ names_of zone row.

(** From [d] to [d'] only files of these rows went, regular files all, and at
    most one for each row; nothing else changed. *)
Record taken (rs : list mediaRow) (d d' : disk) : Prop := {
  t_kept : ∀ chat name g, file_at d chat name = Some g →
    file_at d' chat name = Some g ∨ file_at d' chat name = None ∧ owned rs chat name ∧ kind g = RegularFile;
  t_new : ∀ chat name g, file_at d' chat name = Some g → file_at d chat name = Some g;
  t_few : ∃ l, (length l ≤ length rs)%nat ∧ ∀ chat name g, file_at d chat name = Some g → file_at d' chat name = None → (chat, name) ∈ l;
}.

Lemma file_at_remove d chat name c n :
  file_at (remove chat name d) c n = if bool_decide (c = chat ∧ n = name) then None else file_at d c n.
Proof.
  unfold file_at, dir_of, remove. destruct (decide (c = chat)) as [->|Hc].
  - rewrite lookup_alter_eq. destruct (d !! chat) as [x|]; cbn; [|by case_bool_decide; rewrite lookup_empty].
    destruct (decide (n = name)) as [->|Hn]; [rewrite lookup_delete_eq, bool_decide_true by done; done|].
    rewrite lookup_delete_ne by done. rewrite bool_decide_false; [done|]. by intros [_ ?].
  - rewrite lookup_alter_ne by done. rewrite bool_decide_false; [done|]. by intros [? _].
Qed.

Lemma found_in_dir stat names previous e name :
  findCachedMediaInDir stat names previous e = Found name → name ∈ names ∧ stat name = RegularFile.
Proof.
  revert previous e. induction names as [|n rest IH]; intros previous e; cbn; [by destruct e|].
  destruct (String.eqb n previous); [intros ?%IH; set_solver|].
  destruct (stat n) eqn:Hn; try (intros ?%IH; set_solver). intros [= <-]. split; [set_solver|done].
Qed.

Lemma found_row d row name :
  find_row zone d row = Found name →
  name ∈ names_of zone row ∧ ∃ g, file_at d (chatMediaRel (ChatJID row)) name = Some g ∧ kind g = RegularFile.
Proof.
  unfold find_row, findCachedMedia. destruct (omap _ _); [|done]. destruct (d_kind _); try done. destruct (d_opened _); [|done].
  intros [Hin Hs]%found_in_dir. split; [done|]. unfold stat_in, file_at in *. destruct (entries _ !! name) as [g|]; [by exists g|done].
Qed.

Lemma purgeOne_dry d row : (purgeOne zone row true d).1 = d.
Proof. unfold purgeOne. case_bool_decide; [done|]. by destruct (find_row zone d row). Qed.

(** A real removal takes at most the row's file, and says so. *)
Lemma purgeOne_real d row d' res :
  purgeOne zone row false d = (d', res) →
  taken [row] d d' ∧ (Purged res = true → r_chat res = ChatJID row ∧ file_at d' (chatMediaRel (ChatJID row)) (File res) = None).
Proof.
  assert (taken [row] d d) as Hsame.
  { constructor; [by left|done|]. exists []. split; [cbn; lia|]. intros ? ? ? E1 E2. congruence. }
  unfold purgeOne. case_bool_decide; [intros [= <- <-]; done|]. destruct (find_row zone d row) as [name| |e] eqn:Hf; [|intros [= <- <-]; done..].
  destruct (file_removable _ _ _); [|intros [= <- <-]; done]. intros [= <- <-]. apply found_row in Hf as (Hin & g & Hg & Hk).
  split; [|intros _; split; [done|]; cbn [File]; rewrite file_at_remove, bool_decide_true by done; done]. constructor.
  - intros chat n h Hh. rewrite file_at_remove. case_bool_decide as E; [right|by left]. destruct E as [-> ->]. split; [done|].
    split; [|congruence]. exists row. split; [by apply list_elem_of_singleton|done].
  - intros chat n h. rewrite file_at_remove. by case_bool_decide.
  - exists [(chatMediaRel (ChatJID row), name)]. split; [done|]. intros chat n h Hh. rewrite file_at_remove.
    case_bool_decide as E; [destruct E as [-> ->]; intros _; by apply list_elem_of_singleton|congruence].
Qed.

Lemma owned_mono rs rs' chat name : (∀ r, r ∈ rs → r ∈ rs') → owned rs chat name → owned rs' chat name.
Proof. intros Hsub (row & Hin & Hr). exists row. split; [by apply Hsub|done]. Qed.

Lemma taken_trans rs1 rs2 d d1 d2 : taken rs1 d d1 → taken rs2 d1 d2 → taken (rs1 ++ rs2) d d2.
Proof.
  intros [K1 N1 (l1 & L1 & F1)] [K2 N2 (l2 & L2 & F2)]. constructor.
  - intros chat name g Hg. destruct (K1 _ _ _ Hg) as [Hg1|(Hn & Ho & Hk)].
    + destruct (K2 _ _ _ Hg1) as [?|(? & Ho & ?)]; [by left|right]. split; [done|]. split; [|done]. eapply owned_mono; [|done]. set_solver.
    + right. destruct (file_at d2 chat name) as [h|] eqn:Hh; [apply N2 in Hh; congruence|]. split; [done|]. split; [|done].
      eapply owned_mono; [|done]. set_solver.
  - intros chat name g Hg. by apply N1, N2.
  - exists (l1 ++ l2). rewrite !length_app. split; [lia|]. intros chat name g Hg Hn.
    apply elem_of_app. destruct (K1 _ _ _ Hg) as [Hg1|(Hn1 & _)]; [right|left]; eauto.
Qed.

Lemma delete_rows_dry ended k rs d : (delete_rows zone ended k true rs d).1 = d.
Proof.
  revert k. induction rs as [|row rest IH]; intros k; cbn; [done|]. destruct (ended k); [done|].
  pose proof (purgeOne_dry d row) as E. destruct (purgeOne zone row true d) as [d1 res]. cbn in E. subst d1.
  specialize (IH (S k)). destruct (delete_rows zone ended (S k) true rest d) as [d2 out]. done.
Qed.

Lemma taken_weaken rs rs' d d' : (length rs ≤ length rs')%nat → (∀ r, r ∈ rs → r ∈ rs') → taken rs d d' → taken rs' d d'.
Proof.
  intros Hl Hs [K N (l & L & F)]. constructor; [|done|exists l; split; [lia|done]].
  intros chat name g Hg. destruct (K _ _ _ Hg) as [?|(? & ? & ?)]; [by left|right]. split; [done|]. split; [by eapply owned_mono|done].
Qed.

Lemma delete_rows_real ended k rs d d' out :
  delete_rows zone ended k false rs d = (d', out) →
  taken rs d d' ∧ ∀ r, r ∈ out → Purged r = true → file_at d' (chatMediaRel (r_chat r)) (File r) = None.
Proof.
  assert (∀ rs d, taken rs d d) as Hsame.
  { intros rs0 d0. constructor; [by left|done|]. exists []. split; [cbn; lia|]. intros ? ? ? E1 E2. congruence. }
  revert k d d' out. induction rs as [|row rest IH]; intros k d d' out; cbn; [intros [= <- <-]; split; [done|set_solver]|].
  destruct (ended k); [intros [= <- <-]; split; [done|set_solver]|].
  destruct (purgeOne zone row false d) as [d1 res] eqn:H1. destruct (delete_rows zone ended (S k) false rest d1) as [d2 out2] eqn:H2.
  intros [= <- <-]. apply purgeOne_real in H1 as [T1 P1]. apply IH in H2 as [T2 P2]. split; [exact (taken_trans [row] rest d d1 d2 T1 T2)|].
  intros r Hr Hp. apply elem_of_cons in Hr as [->|Hr]; [|by apply P2]. destruct (P1 Hp) as [-> Hn].
  destruct (file_at d2 (chatMediaRel (ChatJID row)) (File res)) as [g|] eqn:Hg; [|done]. apply (t_new _ _ _ T2) in Hg. congruence.
Qed.

(** ** What a call selects *)

Context (db : archive) (policy : chatPolicy).

(** A row of the archive in a permitted chat. *)
Definition permitted (row : mediaRow) : Prop :=
  ∃ k r, rows db !! k = Some r ∧ Allows policy k.2 = true ∧ row = row_of (k, r).

Definition selected_ok (s : selection) : Prop := Forall permitted (picked s) ∧ (length (picked s) ≤ purgeMaxFiles)%nat.

Lemma visit_inv {A} (I J : A → Prop) maxScan (fn : A → mediaRow → A * bool) page scanned a :
  (∀ kr, kr ∈ page → rows db !! kr.1 = Some kr.2) → (∀ a, I a → J a) →
  (∀ a row, I a → permitted row → J (fn a row).1 ∧ ((fn a row).2 = true → I (fn a row).1)) → I a → J (visit policy maxScan fn page scanned a).1.1.
Proof.
  intros Hin Hij Hfn. revert scanned a. induction page as [|kr rest IH]; intros scanned a Ha; [by apply Hij|]. cbn [visit].
  assert (∀ kr, kr ∈ rest → rows db !! kr.1 = Some kr.2) as Hrest by (intros; apply Hin; set_solver).
  destruct (Allows policy kr.1.2) eqn:Hal; cbn [negb]; [|by apply IH]. destruct (maxScan <=? scanned)%nat; [by apply Hij|].
  assert (permitted (row_of kr)) as Hp.
  { exists kr.1, kr.2. split; [apply Hin; set_solver|]. split; [done|]. by destruct kr. }
  destruct (Hfn a (row_of kr) Ha Hp) as [Hj Hi]. destruct (fn a (row_of kr)) as [a' []]; [|done]. apply IH; [done|]. by apply Hi.
Qed.

Lemma scan_inv {A} (I J : A → Prop) chat before cursor type maxScan (fn : A → mediaRow → A * bool) a :
  (∀ a, I a → J a) → (∀ a row, I a → permitted row → J (fn a row).1 ∧ ((fn a row).2 = true → I (fn a row).1)) → I a →
  ∃ a' cut, EachMediaRowMatching chat before cursor type policy maxScan fn db a = Some (a', cut) ∧ J a'.
Proof.
  intros Hij Hfn Ha. rewrite each_row_once. set (page := after _ _).
  assert (J (visit policy maxScan fn page 0 a).1.1) as Hj.
  { apply (visit_inv I J); try done. intros [k r] Hkr. unfold page, after, matching in Hkr.
    assert ((k, r) ∈ merge_sort media_le (filter (λ kr, row_matches chat before type kr = true) (map_to_list (rows db)))) as Hm.
    { destruct cursor; [by apply list_elem_of_filter in Hkr as [_ ?]|done]. }
    rewrite merge_sort_Permutation in Hm. apply list_elem_of_filter in Hm as [_ Hm]. by apply elem_of_map_to_list in Hm. }
  destruct (visit _ _ _ _ _ _) as [[a' n] cut]. by exists a', cut.
Qed.

Context (f : purge_faults) (d : disk) (scanLimit : nat).

Definition open_ok (s : selection) : Prop := Forall permitted (picked s) ∧ (length (picked s) < purgeMaxFiles)%nat.

Lemma consider_ok minBytes s row :
  open_ok s → permitted row →
  selected_ok (consider zone f d minBytes s row).1 ∧ ((consider zone f d minBytes s row).2 = true → open_ok (consider zone f d minBytes s row).1).
Proof.
  intros [Hs Hl] Hp. unfold consider. destruct (hung_up f (looked s)); [split; [split; [done|cbn; lia]|done]|]. cbn [fst snd].
  match goal with |- context [(length (picked ?s') <? _)%nat] => assert (Forall permitted (picked s') ∧ (length (picked s') ≤ S (length (picked s)))%nat) as [Hf Hn] end.
  { destruct (_ && _); [cbn [picked]; rewrite Forall_app, Forall_singleton, length_app; cbn; split; [done|lia]|].
    destruct (Purged _); [cbn [picked]; split; [done|lia]|]. by destruct (Reason _); cbn [picked]; (split; [done|lia]). }
  split; [split; [done|lia]|]. intros Hb%Nat.ltb_lt. by split.
Qed.

Lemma look_item_ok k seen it row seen' : look_item zone f d db policy k seen it = (Pick row, seen') → permitted row.
Proof.
  unfold look_item. destruct (_ || _); [done|]. destruct (canonicalChatJID _ _) as [j|e]; [|done].
  destruct (Allows policy (JIDString j)) eqn:Ha; cbn [negb]; [|done]. case_bool_decide; [done|]. destruct (row_fails f k); [done|].
  destruct (MediaRow _ _ db) as [x|] eqn:Hr; [|done]. destruct (Purged _); [|done]. intros [= <- <-].
  unfold MediaRow in Hr. apply fmap_Some in Hr as (r & Hr & ->). by exists (trim_space it.1, JIDString j), r.
Qed.

Lemma select_items_ok its seen s s' n : select_items zone f d db policy scanLimit its seen s = Some (s', n) → selected_ok s → selected_ok s'.
Proof.
  revert seen s. induction its as [|it rest IH]; intros seen s; cbn [select_items]; [by intros [= <- <-]|].
  destruct (_ || _) eqn:Hfull; [by intros [= <- <-]|]. destruct (look_item _ _ _ _ _ _ _ _) as [step seen'] eqn:Hl.
  destruct step as [r|row|]; [by intros He Hs; apply (IH _ _ He)| |done]. intros He [Hs Hn]. apply (IH _ _ He).
  apply orb_false_iff in Hfull as [Hf%Nat.leb_gt _]. unfold selected_ok. cbn [picked]. rewrite Forall_app, Forall_singleton, length_app. cbn.
  split; [|lia]. split; [done|]. by eapply look_item_ok.
Qed.

(** What a call did to the disk. *)
Record purge_effect (dry : bool) (d' : disk) (reply : purge_reply) : Prop := {
  e_dry : dry = true → d' = d;
  e_taken : ∃ rs, Forall permitted rs ∧ (length rs ≤ purgeMaxFiles)%nat ∧ taken rs d d';
  e_reported : ∀ resp r, dry = false → reply = Purge resp → r ∈ items resp → Purged r = true →
    file_at d' (chatMediaRel (r_chat r)) (File r) = None;
}.

Lemma taken_nil : taken [] d d.
Proof. constructor; [by left|done|]. exists []. split; [done|]. intros ? ? ? E1 E2. congruence. Qed.

Lemma no_effect dry reply : (∀ resp, reply ≠ Purge resp) → purge_effect dry d reply.
Proof. intros Hr. constructor; [done| |]. { exists []. split; [done|]. split; [cbn; lia|apply taken_nil]. } intros resp r _ E. by destruct (Hr resp). Qed.

(** No answer of the selection claims a removal. *)
Definition modest (s : selection) : Prop := Forall (λ r, Purged r = false) (answers s).

Lemma finish_effect dry s rest cut lim next : selected_ok s → modest s →
  purge_effect dry (finish zone f d dry s rest cut lim next).1 (finish zone f d dry s rest cut lim next).2.
Proof.
  intros [Hs Hl] Hm. unfold finish. destruct (delete_rows zone (delete_ended f) 0 dry (picked s) d) as [d' out] eqn:Hd.
  assert (dry = true → d' = d) as Hdry by (intros ->; pose proof (delete_rows_dry (delete_ended f) 0 (picked s) d) as E; rewrite Hd in E; done).
  assert (taken (picked s) d d' ∧ (dry = false → ∀ r, r ∈ out → Purged r = true → file_at d' (chatMediaRel (r_chat r)) (File r) = None)) as [Ht Hr].
  { destruct dry; [rewrite Hdry by done; split; [|done]|apply delete_rows_real in Hd as [? ?]; done].
    apply (taken_weaken []); [cbn; lia|set_solver|apply taken_nil]. }
  destruct (length out <? _)%nat; (constructor; cbn; [done|by exists (picked s)|]); [done|].
  intros resp r Hf [= <-]. cbn [items]. intros [Hi|Hi]%elem_of_app Hp; [|by apply Hr].
  unfold modest in Hm. rewrite Forall_forall in Hm. specialize (Hm _ Hi). congruence.
Qed.

Lemma consider_modest minBytes s row : modest s → modest (consider zone f d minBytes s row).1.
Proof.
  intros Hm. unfold consider. destruct (hung_up f (looked s)); [done|]. cbn [fst].
  destruct (_ && _); [done|]. destruct (Purged (probeRow zone f d (looked s) row)) eqn:Hp; [done|].
  assert (modest {| picked := picked s; answers := answers s ++ [probeRow zone f d (looked s) row]; looked := 0; lost := 0; last_row := None |}) as Hm'.
  { unfold modest. cbn. by rewrite Forall_app, Forall_singleton. }
  destruct (Reason _); try done; unfold modest; cbn [answers]; by destruct (_ <=? _)%nat.
Qed.

Lemma look_item_modest k seen it r seen' : look_item zone f d db policy k seen it = (Answer r, seen') → Purged r = false.
Proof.
  unfold look_item. destruct (_ || _); [by intros [= <- <-]|]. destruct (canonicalChatJID _ _) as [j|e]; [|by intros [= <- <-]].
  destruct (negb _); [by intros [= <- <-]|]. case_bool_decide; [by intros [= <- <-]|]. destruct (row_fails f k); [done|].
  destruct (MediaRow _ _ db) as [x|]; [|by intros [= <- <-]]. destruct (Purged _) eqn:Hp; [done|]. by intros [= <- <-].
Qed.

Lemma select_items_modest its seen s s' n : select_items zone f d db policy scanLimit its seen s = Some (s', n) → modest s → modest s'.
Proof.
  revert seen s. induction its as [|it rest IH]; intros seen s; cbn [select_items]; [by intros [= <- <-]|].
  destruct (_ || _); [by intros [= <- <-]|]. destruct (look_item _ _ _ _ _ _ _ _) as [step seen'] eqn:Hl.
  destruct step as [r|row|]; [|by intros He Hs; apply (IH _ _ He)|done]. intros He Hs. apply (IH _ _ He). unfold modest. cbn [answers].
  rewrite Forall_app, Forall_singleton. split; [done|]. by eapply look_item_modest.
Qed.

Lemma nothing_ok : open_ok nothing ∧ modest nothing.
Proof. split; [split; [exact (Forall_nil_2 _)|change (0 < 500)%nat; lia]|exact (Forall_nil_2 _)]. Qed.

Lemma items_effect dry its : purge_effect dry (purge_items zone f d db policy scanLimit dry its).1 (purge_items zone f d db policy scanLimit dry its).2.
Proof.
  unfold purge_items. destruct (select_items _ _ _ _ _ _ _ _ _) as [[s n]|] eqn:Hs; [|by apply no_effect].
  destruct nothing_ok as [[Hf Hl] Hm]. apply finish_effect; [eapply select_items_ok|eapply select_items_modest]; try done. split; [done|lia].
Qed.

Lemma criteria_effect cutoff dry chat days minBytes type cursor :
  purge_effect dry (purge_criteria zone f d db policy scanLimit cutoff dry chat days minBytes type cursor).1
    (purge_criteria zone f d db policy scanLimit cutoff dry chat days minBytes type cursor).2.
Proof.
  unfold purge_criteria. destruct (no_store f); [by apply no_effect|]. destruct (scan_fails f); [by apply no_effect|].
  edestruct (scan_inv (λ s, open_ok s ∧ modest s) (λ s, selected_ok s ∧ modest s)) as (s & cut & -> & Hs & Hm).
  - intros s [[Hf Hl] Hm]. split; [split; [done|lia]|done].
  - intros s row [Ho Hm] Hp. destruct (consider_ok minBytes s row Ho Hp) as [Hj Hi].
    split; [split; [done|by apply consider_modest]|]. intros E. split; [by apply Hi|by apply consider_modest].
  - apply nothing_ok.
  - by apply finish_effect.
Qed.

(** [dry_run]: a missing field, and a body that cannot be read, are dry runs. *)
Definition is_dry (body : purge_body) : bool := match body with Body r => default true (DryRun r) | _ => true end.

Lemma checked_effect cutoff r cursor :
  purge_effect (is_dry (Body r)) (purge_checked zone f d db policy scanLimit cutoff r cursor).1 (purge_checked zone f d db policy scanLimit cutoff r cursor).2.
Proof.
  unfold purge_checked, is_dry. cbv zeta. destruct (_ && negb _); [by apply no_effect|].
  destruct (_ && String.eqb (trim_space (reqType r)) ""); [by apply no_effect|]. destruct (_ || _); [by apply no_effect|].
  destruct (String.eqb (trim_space (reqChat r)) ""); [|destruct (authorizeChat _ _ _) as [j|e]; [|by apply no_effect]];
    (case_bool_decide; [apply criteria_effect|apply items_effect]).
Qed.

End Safety.

(** [C15] A purge removes cached copies of permitted messages and nothing else.  A
    request that does not say [dry_run: false] leaves the disk as it is.  Any
    other removes only regular files, each under a name the bridge itself gives
    the media of a stored message of a permitted chat, at most 500 in one call;
    every other file keeps its content and no file appears, also when removals
    fail, the caller hangs up or the scan stops early; and each file the answer
    says was removed is gone. *)
Theorem purge_safe `{JidOps} (zone : Z → Z) (f : purge_faults) (d : disk) (db : archive) (policy : chatPolicy) (scanLimit : nat)
    (cutoff : Z → Z) (body : purge_body) :
  let '(d', reply) := handleMediaPurge zone f d db policy scanLimit cutoff body in
  purge_effect zone db policy d (is_dry body) d' reply.
Proof.
  enough (purge_effect zone db policy d (is_dry body) (handleMediaPurge zone f d db policy scanLimit cutoff body).1
    (handleMediaPurge zone f d db policy scanLimit cutoff body).2) by (by destruct (handleMediaPurge _ _ _ _ _ _ _ _)).
  unfold handleMediaPurge. destruct body as [| |r]; [by apply no_effect..|].
  destruct (negb _ || _); [by destruct (status_alone r); apply no_effect|]. destruct (_ <? _)%nat; [by apply no_effect|].
  destruct (Cursor r) as [| |k]; [apply checked_effect|by apply no_effect|]. case_bool_decide; [apply checked_effect|by apply no_effect].
Qed.

(** The paged scan reads each matching row once.  Whatever the callback does,
    reading the archive in pages of 256 with a cursor ends and gives what one walk
    over all matching rows past the cursor gives, oldest first: the same calls in
    the same order, and the same verdict whether something was left. *)
Theorem paged_scan_equivalent {A} (chat : string) (before : option Z) (cursor : option (Z * (string * string))) (mediaType : string)
    (policy : chatPolicy) (maxScan : nat) (fn : A → mediaRow → A * bool) (db : archive) (a : A) :
  EachMediaRowMatching chat before cursor mediaType policy maxScan fn db a =
  let '(a, _, cut) := visit policy maxScan fn (after cursor (matching chat before mediaType db)) 0 a in Some (a, cut).
Proof. apply each_row_once. Qed.
