(* ===== verification/MediaCache.v ===== *)
(** * Files of the media cache ([media.go], [media_cap.go], [media_retention.go],
      [media_storage.go], [media_cache_path.go])

    How a file enters and leaves a chat directory: the temporary file and its
    rename ([writeMediaFile]), the byte cap of an automatic download
    ([cappedMediaFile], [writeMediaDownload]), the walk over cached files, the
    retention sweep and the measured usage.  The disk is the one of the purge;
    what the file system may refuse is an outcome argument. *)
From S2P Require Import Prelude Jid Http ChatPolicy StoreTime Archive Messages MarkRead MediaNames MediaPurge.
#[local] Open Scope Z_scope.

(** ** A file under a byte cap *)

(** A file being written: the offset, its size, and whether the cap was hit. *)
Record handle := { pos : Z; len : Z; exceeded : bool }.

Definition new_handle : handle := {| pos := 0; len := 0; exceeded := false |}.

(** What a download does to the file it was given. *)
Inductive file_op : Type := Write (n : Z) | WriteAt (n off : Z) | Truncate (n : Z) | Seek (off : Z).

(** The operation on the file itself; an offset or a size below 0 is refused. *)
Definition file_run (o : file_op) (h : handle) : handle :=
  match o with
  | Write n => {| pos := pos h + n; len := Z.max (len h) (pos h + n); exceeded := exceeded h |}
  | WriteAt n off => if off <? 0 then h else {| pos := pos h; len := Z.max (len h) (off + n); exceeded := exceeded h |}
  | Truncate n => if n <? 0 then h else {| pos := pos h; len := n; exceeded := exceeded h |}
  | Seek off => if off <? 0 then h else {| pos := off; len := len h; exceeded := exceeded h |}
  end.

(** [cappedMediaFile.check]: whether the bytes are refused. *)
Definition check (limit off count : Z) : bool := (0 <=? off) && ((limit <? off) || (limit - off <? count)).

Definition refuse (h : handle) : handle := {| pos := pos h; len := len h; exceeded := true |}.

(** The methods of [cappedMediaFile]; [ReadFrom] copies through [Write]. *)
Definition capped_run (limit : Z) (o : file_op) (h : handle) : handle :=
  match o with
  | Write n => if check limit (pos h) n then refuse h else file_run o h
  | WriteAt n off => if check limit off n then refuse h else file_run o h
  | Truncate n => if check limit 0 n then refuse h else file_run o h
  | Seek _ => file_run o h
  end.

(** The budgets of a limit: plain bytes, and bytes on the wire with one padding
    block and ten bytes of MAC. *)
Definition plain_budget (limit : Z) : Z := if limit <=? max_int64 then limit else max_int64.
Definition wire_budget (limit : Z) : Z := if limit <=? max_int64 - 26 then (limit / 16 + 1) * 16 + 10 else max_int64.

Inductive write_error : Type := AutoMediaLimit | FillFailed (e : string) | StatFailed | CreateFailed | CloseFailed | RenameFailed.

(** The callback of [writeMediaDownload]: what the download did to the file, how
    it ended, and whether the size can be read back. *)
Record fill := { ops : list file_op; fill_error : option string; stat_ok : bool }.

Definition run_fill (limit : Z) (d : fill) : handle * option write_error :=
  let fail := FillFailed <$> fill_error d in
  if limit =? 0 then (foldl (flip file_run) new_handle (ops d), fail)
  else
    let h := foldl (flip (capped_run (wire_budget limit))) new_handle (ops d) in
    (h, if exceeded h then Some AutoMediaLimit
        else match fail with
             | Some e => Some e
             | None => if negb (stat_ok d) then Some StatFailed
                       else if plain_budget limit <? len h then Some AutoMediaLimit else None
             end).

(** ** Publication *)

Definition put (chat name : string) (g : file) (d : disk) : disk :=
  alter (λ c, {| d_kind := d_kind c; d_opened := d_opened c; entries := <[name := g]> (entries c) |}) chat d.

(** What the file system refuses: the removal of a leftover, the creation, the
    close, the rename; and whether the size was read before the close. *)
Record fs_faults := { remove_ok : bool; create_ok : bool; close_ok : bool; rename_ok : bool; size_ok : bool }.

Definition part (name : string) : string := name +:+ ".part".

(** [writeMediaFile] into [name] of an existing chat directory, with [run] the
    outcome of the callback: the disk, and the bytes or why not. *)
Definition writeMediaFile (fs : fs_faults) (now : Z) (chat name : string) (run : handle * option write_error) (d : disk) : disk * result write_error Z :=
  let leftover := file_at d chat (part name) in
  if bool_decide (is_Some leftover) && negb (remove_ok fs) then (d, Err CreateFailed)
  else
    let d := remove chat (part name) d in
    if negb (create_ok fs) then (d, Err CreateFailed)
    else
      let '(h, e) := run in
      let g := {| kind := RegularFile; size := len h; mtime := now; removable := true |} in
      let d1 := put chat (part name) g d in
      match e with
      | Some e => (remove chat (part name) d1, Err e)
      | None =>
          if negb (close_ok fs) then (remove chat (part name) d1, Err CloseFailed)
          else if negb (rename_ok fs) then (remove chat (part name) d1, Err RenameFailed)
          else (put chat name g (remove chat (part name) d1), Ok (if size_ok fs then len h else 0))
      end.

Definition writeMediaDownload (fs : fs_faults) (now limit : Z) (chat name : string) (f : fill) (d : disk) : disk * result write_error Z :=
  writeMediaFile fs now chat name (run_fill limit f) d.

(** [checkCachedMediaLimit] of the file found under a name. *)
Inductive cap_check : Type := CapOk | CapAbsent | CapRefused | CapBadLength | CapExceeded.

Definition checkCachedMediaLimit (limit : Z) (d : disk) (chat name : string) : cap_check :=
  if limit =? 0 then CapOk
  else let c := dir_of d chat in
       match findCachedMedia (d_kind c) (d_opened c) (stat_in c) chat [name] with
       | RefusedPath _ => CapRefused
       | NotCached => CapAbsent
       | Found n => let s := file_size d chat n in if s <? 0 then CapBadLength else if limit <? s then CapExceeded else CapOk
       end.

(** ** The walk over cached files *)

#[export] Instance lstat_eq_dec : EqDecision lstat.
Proof. solve_decision. Defined.

(** [isChatDir] and the checks of [eachCachedMediaContext]. *)
Definition chat_dir_ok (chat : string) (c : chat_dir) : bool :=
  bool_decide (d_kind c = Directory) && contains_byte "@" chat && bool_decide (checkMediaPathComponents chat "probe" = None) && d_opened c.

Definition cached_name (chat name : string) (g : file) : bool :=
  bool_decide (checkMediaPathComponents chat name = None) && generatedMediaName name && bool_decide (kind g = RegularFile).

(** [eachCachedMedia]: the files handed to the callback. *)
Definition cached_files (d : disk) : list (string * (string * file)) :=
  map_to_list d ≫= λ cd, if chat_dir_ok cd.1 cd.2
                         then (cd.1,.) <$> filter (λ nf, cached_name cd.1 nf.1 nf.2 = true) (map_to_list (entries cd.2))
                         else [].

Record mediaCacheUsage := { u_bytes : Z; u_files : nat; status_bytes : Z; status_files : nat }.

Definition is_status (x : string * (string * file)) : bool := String.eqb x.1 "status@broadcast".
Definition bytes_of (l : list (string * (string * file))) : Z := foldr Z.add 0 ((λ x, size x.2.2) <$> l).

(** [Usage] of the local backend. *)
Definition Usage (d : disk) : mediaCacheUsage :=
  let all := cached_files d in
  let st := filter (λ x, is_status x = true) all in
  {| u_bytes := bytes_of all; u_files := length all; status_bytes := bytes_of st; status_files := length st |}.

(** ** Retention *)

Definition age_of (maxAge : Z) (statusAge : option Z) (chat : string) : Z :=
  if String.eqb chat "status@broadcast" then default maxAge statusAge else maxAge.

Definition expired (maxAge : Z) (statusAge : option Z) (now : Z) (chat : string) (g : file) : bool :=
  let age := age_of maxAge statusAge chat in negb (age <=? 0) && (mtime g <? now - age).

Record swept := { disk_after : disk; removed : nat; freed : Z; sweep_failed : nat }.

Definition sweep_one (maxAge : Z) (statusAge : option Z) (now : Z) (s : swept) (x : string * (string * file)) : swept :=
  let '(chat, (name, g)) := x in
  if negb (expired maxAge statusAge now chat g) then s
  else if negb (removable g) then {| disk_after := disk_after s; removed := removed s; freed := freed s; sweep_failed := S (sweep_failed s) |}
  else {| disk_after := remove chat name (disk_after s); removed := S (removed s); freed := freed s + size g; sweep_failed := sweep_failed s |}.

(** [sweepMediaWithStatus]. *)
Definition sweepMediaWithStatus (maxAge : Z) (statusAge : option Z) (now : Z) (d : disk) : swept :=
  foldl (sweep_one maxAge statusAge now) {| disk_after := d; removed := 0; freed := 0; sweep_failed := 0 |} (cached_files d).

(** [runMediaRetention]: whether the loop runs at all on the local backend. *)
Definition retention_runs (maxAge : Z) (statusAge : option Z) : bool :=
  negb ((maxAge <=? 0) && match statusAge with Some a => a <=? 0 | None => true end).

(** ** The measured usage *)

Definition storeUsageTTL : Z := 300 * 10 ^ 9.

Record storeStats := { measuredAt : option Z; measured : mediaCacheUsage }.

(** [snapshotScoped]: [d] is the disk at this moment. *)
Definition snapshotScoped (now : Z) (d : disk) (s : storeStats) : storeStats * mediaCacheUsage :=
  let stale := match measuredAt s with Some t => storeUsageTTL <? now - t | None => true end in
  let s := if stale then {| measuredAt := Some now; measured := Usage d |} else s in (s, measured s).

Definition invalidate (s : storeStats) : storeStats := {| measuredAt := None; measured := measured s |}.

(** ** Ranges *)

Definition maxMediaChunkBytes : Z := 4 * 1024 * 1024.

(** [openMediaRange] of a file of [size] bytes: the bytes of the range, [None]
    when it is refused. *)
Definition openMediaRange (size offset length : Z) : option Z :=
  if (offset <? 0) || (length <? 1) || (maxMediaChunkBytes <? length) then None
  else if size <? offset then None else Some (Z.min length (size - offset)).

(** ** Lemmas *)

Lemma file_at_put d chat name g c n : is_Some (d !! chat) →
  file_at (put chat name g d) c n = if bool_decide (c = chat ∧ n = name) then Some g else file_at d c n.
Proof.
  intros [x Hx]. unfold file_at, dir_of, put. destruct (decide (c = chat)) as [->|Hc].
  - rewrite lookup_alter_eq, Hx. cbn. destruct (decide (n = name)) as [->|Hn]; [rewrite lookup_insert_eq, bool_decide_true by done; done|].
    rewrite lookup_insert_ne by done. rewrite bool_decide_false; [done|]. by intros [_ ?].
  - rewrite lookup_alter_ne by done. rewrite bool_decide_false; [done|]. by intros [? _].
Qed.

Lemma remove_dir chat name d c : is_Some (remove chat name d !! c) ↔ is_Some (d !! c).
Proof. unfold remove. destruct (decide (chat = c)) as [->|]; [rewrite lookup_alter_eq; by rewrite fmap_is_Some|by rewrite lookup_alter_ne]. Qed.

Lemma put_dir chat name g d c : is_Some (put chat name g d !! c) ↔ is_Some (d !! c).
Proof. unfold put. destruct (decide (chat = c)) as [->|]; [rewrite lookup_alter_eq; by rewrite fmap_is_Some|by rewrite lookup_alter_ne]. Qed.

Lemma part_ne name : part name ≠ name.
Proof.
  intros E. apply (f_equal String.length) in E. unfold part in E.
  assert (∀ a b, String.length (a +:+ b) = (String.length a + String.length b)%nat) as Hl by (intros a b; induction a as [|x a IH]; [done|exact (f_equal S IH)]).
  rewrite Hl in E. change (String.length ".part") with 5%nat in E. lia.
Qed.

(** The offset of an open file is never below 0, nor is its size. *)
Definition sane (h : handle) : Prop := 0 ≤ pos h ∧ 0 ≤ len h.

(** A download writes whole buffers. *)
Definition op_ok (o : file_op) : Prop := match o with Write n | WriteAt n _ => 0 ≤ n | _ => True end.

Lemma file_run_sane o h : op_ok o → sane h → sane (file_run o h).
Proof.
  intros Ho [Hp Hl]. destruct o; cbn in *; unfold sane; repeat case_match; cbn; try (split; lia);
    repeat match goal with H : (_ <? _) = false |- _ => apply Z.ltb_ge in H end; split; lia.
Qed.

Lemma capped_run_bound limit o h : op_ok o → sane h → len h ≤ limit → sane (capped_run limit o h) ∧ len (capped_run limit o h) ≤ limit.
Proof.
  intros Ho Hs Hl. pose proof (file_run_sane o h Ho Hs) as Hs'. destruct Hs as [Hp Hn]. unfold capped_run.
  destruct o as [n|n off|n|off]; [..|cbn in *; destruct (off <? 0); cbn in *; (split; [done|lia])];
    destruct (check _ _ _) eqn:Hc; try (split; [by split|cbn; lia]); (split; [done|]); unfold check in Hc; cbn in *;
    repeat match goal with
    | H : _ && _ = false |- _ => apply andb_false_iff in H as [H|H]
    | H : _ || _ = false |- _ => apply orb_false_iff in H as [? ?]
    | H : (_ <? _) = false |- _ => apply Z.ltb_ge in H
    | H : (_ <=? _) = false |- _ => apply Z.leb_gt in H
    | |- context [?a <? ?b] => destruct (Z.ltb_spec a b)
    end; cbn; lia.
Qed.

Lemma capped_fold limit os h : Forall op_ok os → sane h → len h ≤ limit →
  sane (foldl (flip (capped_run limit)) h os) ∧ len (foldl (flip (capped_run limit)) h os) ≤ limit.
Proof.
  intros Hos. revert h. induction Hos as [|o os Ho _ IH]; intros h Hs Hl; [done|]. cbn. 
  destruct (capped_run_bound limit o h Ho Hs Hl). by apply IH.
Qed.

Lemma wire_budget_range limit : 0 ≤ limit → 0 ≤ wire_budget limit ≤ max_int64.
Proof. intros Hl. unfold wire_budget, max_int64. destruct (Z.leb_spec limit (2 ^ 63 - 1 - 26)); [|lia].
  pose proof (Z.div_mod limit 16 ltac:(lia)). pose proof (Z.mod_pos_bound limit 16 ltac:(lia)). lia.
Qed.

(** ** Theorems *)

Lemma run_fill_cap limit f : 0 < limit → Forall op_ok (ops f) →
  len (run_fill limit f).1 ≤ wire_budget limit ∧ ((run_fill limit f).2 = None → len (run_fill limit f).1 ≤ limit).
Proof.
  intros Hl Hf. unfold run_fill. rewrite (proj2 (Z.eqb_neq limit 0)) by lia. cbn [fst snd].
  destruct (capped_fold (wire_budget limit) (ops f) new_handle) as [_ Hb]; [done|done|apply wire_budget_range; lia|]. split; [done|].
  destruct (exceeded _); [done|]. destruct (FillFailed <$> fill_error f); [done|]. destruct (negb _); [done|].
  destruct (Z.ltb_spec (plain_budget limit) (len (foldl (flip (capped_run (wire_budget limit))) new_handle (ops f)))) as [|Hle]; [done|]. intros _.
  unfold plain_budget in Hle. destruct (Z.leb_spec limit max_int64); lia.
Qed.

(** A download appears whole or not at all.  Whatever the transfer writes and
    wherever it stops (a failed write, a full disk, the cap, the close, the
    rename), no file but the target and its temporary name changes.  On an error
    what stood under the target name is untouched; on success it is a regular file
    with every byte the transfer left, within the caller's byte limit if it has
    one.  Once the temporary file was created it is gone at the end. *)
Theorem published_whole (fs : fs_faults) (now limit : Z) (chat name : string) (f : fill) (d : disk)
    (Hdir : is_Some (d !! chat)) (Hf : Forall op_ok (ops f)) (Hl : 0 ≤ limit) :
  let '(d', r) := writeMediaDownload fs now limit chat name f d in
  (∀ c n, (c, n) ∉ [(chat, name); (chat, part name)] → file_at d' c n = file_at d c n) ∧
  match r with
  | Err e => file_at d' chat name = file_at d chat name ∧ (e ≠ CreateFailed → file_at d' chat (part name) = None)
  | Ok n => (n = 0 ∨ n = len (run_fill limit f).1) ∧ file_at d' chat (part name) = None ∧ (0 < limit → n ≤ limit) ∧
            ∃ g, file_at d' chat name = Some g ∧ kind g = RegularFile ∧ size g = len (run_fill limit f).1 ∧ (0 < limit → size g ≤ limit)
  end.
Proof.
  unfold writeMediaDownload, writeMediaFile. destruct (_ && _); [by split|]. pose proof (part_ne name) as Hne.
  set (d0 := remove chat (part name) d). assert (is_Some (d0 !! chat)) as H0 by (by apply remove_dir).
  assert (∀ c n, file_at d0 c n = if bool_decide (c = chat ∧ n = part name) then None else file_at d c n) as F0 by (intros; apply file_at_remove).
  assert (∀ c n, (c, n) ∉ [(chat, name); (chat, part name)] → ¬ (c = chat ∧ n = name) ∧ ¬ (c = chat ∧ n = part name)) as Hout.
  { intros c n Hcn. split; intros [-> ->]; apply Hcn; [by left|by right; left]. }
  destruct (negb (create_ok fs)).
  { split; [|split; [|done]]; [intros c n Hcn; destruct (Hout c n Hcn)|]; rewrite F0, bool_decide_false; try done. by intros [_ E]. }
  pose proof (λ H, run_fill_cap limit f H Hf) as Hcap. destruct (run_fill limit f) as [h e]. cbn [fst snd] in Hcap.
  set (g := {| kind := RegularFile; size := len h; mtime := now; removable := true |}). set (d1 := put chat (part name) g d0).
  set (d2 := remove chat (part name) d1).
  assert (∀ c n, file_at d2 c n = if bool_decide (c = chat ∧ n = part name) then None else file_at d c n) as F2.
  { intros c n. unfold d2, d1. rewrite file_at_remove, file_at_put, F0 by done. by case_bool_decide. }
  assert (is_Some (d2 !! chat)) as H2 by (by apply remove_dir, put_dir).
  assert (∀ e', (∀ c n, (c, n) ∉ [(chat, name); (chat, part name)] → file_at d2 c n = file_at d c n) ∧
    file_at d2 chat name = file_at d chat name ∧ (e' ≠ CreateFailed → file_at d2 chat (part name) = None)) as Hfail.
  { intros e'. split; [|split]; [intros c n Hcn; destruct (Hout c n Hcn)| |intros _]; rewrite F2; [by rewrite bool_decide_false| |by rewrite bool_decide_true].
    rewrite bool_decide_false; [done|]. by intros [_ E]. }
  destruct e as [e|]; [apply Hfail|]. destruct (negb (close_ok fs)); [apply Hfail|]. destruct (negb (rename_ok fs)); [apply Hfail|].
  assert (0 < limit → len h ≤ limit) as Hsz by (intros; by apply Hcap).
  split; [intros c n Hcn; destruct (Hout c n Hcn); rewrite file_at_put, F2 by done; by rewrite !bool_decide_false|].
  split; [destruct (size_ok fs); auto|]. split; [rewrite file_at_put, F2 by done; rewrite bool_decide_false, bool_decide_true; try done; by intros [_ E]|].
  split; [destruct (size_ok fs); [done|lia]|]. exists g. rewrite file_at_put, bool_decide_true by done. done.
Qed.

Definition one_dir : disk := {[ "a@s.whatsapp.net" := {| d_kind := Directory; d_opened := true; entries := ∅ |} ]}.
Definition good_fs : fs_faults := {| remove_ok := true; create_ok := true; close_ok := true; rename_ok := true; size_ok := true |}.
Definition small_fill : fill := {| ops := [Write 26; Truncate 5]; fill_error := None; stat_ok := true |}.

Lemma published_whole_witness :
  is_Some (one_dir !! "a@s.whatsapp.net") ∧ Forall op_ok (ops small_fill) ∧
  (writeMediaDownload good_fs 7 5 "a@s.whatsapp.net" "image_1.jpg" small_fill one_dir).2 = Ok 5 ∧
  let '(d', r) := writeMediaDownload good_fs 7 5 "a@s.whatsapp.net" "image_1.jpg" small_fill one_dir in
  (∀ c n, (c, n) ∉ [("a@s.whatsapp.net", "image_1.jpg"); ("a@s.whatsapp.net", part "image_1.jpg")] → file_at d' c n = file_at one_dir c n) ∧
  match r with
  | Err e => file_at d' "a@s.whatsapp.net" "image_1.jpg" = file_at one_dir "a@s.whatsapp.net" "image_1.jpg" ∧
             (e ≠ CreateFailed → file_at d' "a@s.whatsapp.net" (part "image_1.jpg") = None)
  | Ok n => (n = 0 ∨ n = len (run_fill 5 small_fill).1) ∧ file_at d' "a@s.whatsapp.net" (part "image_1.jpg") = None ∧ (0 < 5 → n ≤ 5) ∧
            ∃ g, file_at d' "a@s.whatsapp.net" "image_1.jpg" = Some g ∧ kind g = RegularFile ∧ size g = len (run_fill 5 small_fill).1 ∧ (0 < 5 → size g ≤ 5)
  end.
Proof.
  assert (is_Some (one_dir !! "a@s.whatsapp.net")) as Hd by (vm_compute; eauto).
  assert (Forall op_ok (ops small_fill)) as Hf by (repeat constructor; cbn; lia).
  split; [exact Hd|]. split; [exact Hf|]. split; [vm_compute; reflexivity|].
  exact (published_whole good_fs 7 5 "a@s.whatsapp.net" "image_1.jpg" small_fill one_dir Hd Hf ltac:(lia)).
Defined.

(** The encrypted form of [n] bytes: one to sixteen bytes of padding, a MAC of ten. *)
Definition enc_size (n : Z) : Z := (n / 16 + 1) * 16 + 10.

(** A transfer that appends the encrypted file in pieces and decrypts in place. *)
Definition transfer (pieces : list Z) (n : Z) : fill := {| ops := (Write <$> pieces) ++ [Truncate n]; fill_error := None; stat_ok := true |}.

Lemma append_pieces limit pieces p : Forall (λ n, 0 ≤ n) pieces → 0 ≤ p → p + foldr Z.add 0 pieces ≤ limit →
  foldl (flip (capped_run limit)) {| pos := p; len := p; exceeded := false |} (Write <$> pieces) =
  {| pos := p + foldr Z.add 0 pieces; len := p + foldr Z.add 0 pieces; exceeded := false |}.
Proof.
  intros Hp. revert p. induction Hp as [|n pieces Hn Hp IH]; intros p H0 Hle; [cbn; by rewrite Z.add_0_r|]. cbn in *.
  assert (0 ≤ foldr Z.add 0 pieces) as Hs by (clear -Hp; induction Hp; cbn in *; lia).
  assert (check limit p n = false) as ->.
  { unfold check. apply andb_false_iff. right. apply orb_false_iff. split; apply Z.ltb_ge; lia. }
  rewrite Z.max_r by lia. rewrite IH by lia. f_equal; lia.
Qed.

Lemma sticky limit os h : exceeded h = true → exceeded (foldl (flip (capped_run limit)) h os) = true.
Proof.
  revert h. induction os as [|o os IH]; intros h Hh; [done|]. cbn. apply IH. unfold capped_run.
  destruct o; try destruct (check _ _ _); cbn; repeat case_match; done.
Qed.

(** The cap of an automatic download is exact.  Under a limit of up to 2^64-1
    bytes the bytes on disk never pass the wire budget, at any point of the
    transfer, which is at most 26 bytes over the limit and never overflows; and
    the encrypted file of [n] bytes, appended in pieces of any size and decrypted
    in place, is accepted exactly when [n] is within the limit. *)
Theorem cap_exact (limit n : Z) (pieces : list Z) (Hl : 0 < limit ≤ max_uint64) (Hn : 0 ≤ n) (He : enc_size n ≤ max_int64)
    (Hp : Forall (λ k, 0 ≤ k) pieces) (Hs : foldr Z.add 0 pieces = enc_size n) :
  wire_budget limit ≤ Z.min max_int64 (limit + 26) ∧
  (∀ os, Forall op_ok os → len (foldl (flip (capped_run (wire_budget limit))) new_handle os) ≤ wire_budget limit) ∧
  ((run_fill limit (transfer pieces n)).2 = None ↔ n ≤ limit).
Proof.
  assert (wire_budget limit ≤ Z.min max_int64 (limit + 26)) as Hw.
  { pose proof (wire_budget_range limit ltac:(lia)). unfold wire_budget, max_int64 in *. destruct (Z.leb_spec limit (2 ^ 63 - 1 - 26)); [|lia].
    pose proof (Z.div_mod limit 16 ltac:(lia)). pose proof (Z.mod_pos_bound limit 16 ltac:(lia)). lia. }
  split; [done|]. split; [intros os Hos; apply capped_fold; [done|done|apply wire_budget_range; lia]|].
  unfold run_fill. rewrite (proj2 (Z.eqb_neq limit 0)) by lia. cbn [fst snd transfer ops fill_error stat_ok negb fmap option_fmap option_map].
  rewrite foldl_app. cbn [foldl flip]. set (h := foldl _ new_handle (Write <$> pieces)).
  assert (n ≤ enc_size n) as Hpad by (unfold enc_size; pose proof (Z.div_mod n 16 ltac:(lia)); pose proof (Z.mod_pos_bound n 16 ltac:(lia)); lia).
  split.
  - destruct (exceeded (capped_run _ (Truncate n) h)) eqn:Hx; [done|]. cbn [capped_run] in *. destruct (check _ 0 n); [done|].
    cbn [file_run] in *. rewrite (proj2 (Z.ltb_ge n 0)) in * by lia. cbn [len] in *. destruct (Z.ltb_spec (plain_budget limit) n); [done|].
    intros _. unfold plain_budget in *. destruct (Z.leb_spec limit max_int64); lia.
  - intros Hle. assert (enc_size n ≤ wire_budget limit) as Hfit.
    { unfold wire_budget. destruct (Z.leb_spec limit (max_int64 - 26)); [|done]. unfold enc_size. pose proof (Z.div_le_mono n limit 16 ltac:(lia) Hle). lia. }
    assert (h = {| pos := enc_size n; len := enc_size n; exceeded := false |}) as ->.
    { unfold h. change new_handle with {| pos := 0; len := 0; exceeded := false |}. rewrite append_pieces by (done || lia). rewrite Hs. done. }
    cbn [capped_run]. assert (check (wire_budget limit) 0 n = false) as ->.
    { unfold check. apply andb_false_iff. right. apply orb_false_iff. split; apply Z.ltb_ge; lia. }
    cbn [file_run]. rewrite (proj2 (Z.ltb_ge n 0)) by lia. cbn [exceeded len]. rewrite (proj2 (Z.ltb_ge (plain_budget limit) n)); [done|].
    unfold plain_budget. destruct (Z.leb_spec limit max_int64); lia.
Qed.

Lemma cap_exact_witness : (run_fill 100 (transfer [60; 62] 100)).2 = None ∧ (run_fill 100 (transfer [60; 62] 101)).2 = Some AutoMediaLimit ∧
  ((run_fill 100 (transfer [60; 62] 100)).2 = None ↔ 100 ≤ 100).
Proof.
  split; [vm_compute; reflexivity|]. split; [vm_compute; reflexivity|].
  refine (proj2 (proj2 (cap_exact 100 100 [60; 62] _ _ _ _ _))); [unfold max_uint64; lia|lia|vm_compute; discriminate|repeat constructor; lia|reflexivity].
Defined.

(** ** Retention *)

Lemma cached_files_spec d chat name g :
  (chat, (name, g)) ∈ cached_files d ↔ chat_dir_ok chat (dir_of d chat) = true ∧ file_at d chat name = Some g ∧ cached_name chat name g = true.
Proof.
  unfold cached_files. rewrite list_elem_of_bind. split.
  - intros ([c x] & Hin & Hx). apply elem_of_map_to_list in Hx. cbn [fst snd] in Hin. destruct (chat_dir_ok c x) eqn:Hok; [|set_solver].
    apply list_elem_of_fmap in Hin as ([n h] & [= -> -> ->] & Hin). apply list_elem_of_filter in Hin as [Hn Hin]. apply elem_of_map_to_list in Hin.
    unfold file_at, dir_of. rewrite Hx. done.
  - intros (Hok & Hf & Hn). unfold file_at, dir_of in *. destruct (d !! chat) as [x|] eqn:Hx; cbn in *; [|by rewrite lookup_empty in Hf].
    exists (chat, x). split; [|by apply elem_of_map_to_list]. cbn [fst snd]. rewrite Hok. apply list_elem_of_fmap. exists (name, g). split; [done|].
    apply list_elem_of_filter. split; [done|]. by apply elem_of_map_to_list.
Qed.

Lemma cached_files_nodup d : NoDup (cached_files d).
Proof.
  unfold cached_files. apply NoDup_bind.
  - intros [c x] [c' x'] [c1 nf] H1 H2 Hi Hi'. apply elem_of_map_to_list in H1, H2. cbn [fst snd] in *.
    assert (c1 = c ∧ c1 = c') as [-> <-].
    { by destruct (chat_dir_ok c x), (chat_dir_ok c' x'); set_solver. }
    congruence.
  - intros [c x] _. cbn [fst snd]. destruct (chat_dir_ok c x); [|constructor]. apply NoDup_fmap_2; [intros ? ? [=]; done|].
    apply NoDup_filter, NoDup_map_to_list.
  - apply NoDup_map_to_list.
Qed.

Section Sweep.
Context (maxAge : Z) (statusAge : option Z) (now : Z).

Definition goes (x : string * (string * file)) : bool := expired maxAge statusAge now x.1 x.2.2 && removable x.2.2.
Definition stays (x : string * (string * file)) : bool := expired maxAge statusAge now x.1 x.2.2 && negb (removable x.2.2).

Lemma sweep_fold l s :
  let s' := foldl (sweep_one maxAge statusAge now) s l in
  (∀ c n, file_at (disk_after s') c n =
     if existsb (λ x, goes x && String.eqb x.1 c && String.eqb x.2.1 n) l then None else file_at (disk_after s) c n) ∧
  removed s' = (removed s + length (filter (λ x, goes x = true) l))%nat ∧ freed s' = freed s + bytes_of (filter (λ x, goes x = true) l) ∧
  sweep_failed s' = (sweep_failed s + length (filter (λ x, stays x = true) l))%nat.
Proof.
  revert s. induction l as [|[c [n g]] l IH]; intros s; cbn zeta; [cbn; repeat split; lia|].
  cbn [foldl]. destruct (IH (sweep_one maxAge statusAge now s (c, (n, g)))) as (F & R & B & X). clear IH.
  assert (goes (c, (n, g)) = expired maxAge statusAge now c g && removable g) as Hg by done.
  assert (stays (c, (n, g)) = expired maxAge statusAge now c g && negb (removable g)) as Hs by done.
  assert (sweep_one maxAge statusAge now s (c, (n, g)) = if expired maxAge statusAge now c g then if removable g
    then {| disk_after := remove c n (disk_after s); removed := S (removed s); freed := freed s + size g; sweep_failed := sweep_failed s |}
    else {| disk_after := disk_after s; removed := removed s; freed := freed s; sweep_failed := S (sweep_failed s) |} else s) as E.
  { unfold sweep_one. by destruct (expired _ _ _ _ _), (removable g). }
  rewrite !filter_cons. cbn [existsb]. rewrite Hg. rewrite E in *. clear E. cbn [fst snd] in *. unfold bytes_of in *.
  destruct (expired maxAge statusAge now c g), (removable g); cbn [negb andb orb] in *; cbn [disk_after removed freed sweep_failed] in *;
    repeat (destruct (decide _); try congruence); rewrite ?R, ?B, ?X;
    (split; [intros c' n'; rewrite F; try done|]); [|rewrite ?fmap_cons; cbn [length foldr fst snd]; repeat split; lia..].
  destruct (existsb _ l); [by rewrite orb_true_r|]. rewrite file_at_remove, orb_false_r.
  destruct (String.eqb_spec c c') as [->|N1], (String.eqb_spec n n') as [->|N2]; cbn [andb];
    [by rewrite bool_decide_true|rewrite bool_decide_false; [done|intros [? ?]; congruence]..].
Qed.

End Sweep.

(** Retention removes exactly the expired cached files.  After a sweep a file is
    gone if and only if it is a regular file under a generated media name directly
    in a real chat directory, older than the age of its chat (the status feed may
    have its own), and could be removed: databases, user files, unfinished
    downloads and links stay.  The counts are those files, their bytes, and the
    expired ones that could not be removed. *)
Theorem retention_exact (maxAge : Z) (statusAge : option Z) (now : Z) (d : disk) :
  let s := sweepMediaWithStatus maxAge statusAge now d in
  (∀ chat name, file_at (disk_after s) chat name =
     match file_at d chat name with
     | Some g => if chat_dir_ok chat (dir_of d chat) && cached_name chat name g && expired maxAge statusAge now chat g && removable g
                 then None else Some g
     | None => None
     end) ∧
  removed s = length (filter (λ x, goes maxAge statusAge now x = true) (cached_files d)) ∧
  freed s = bytes_of (filter (λ x, goes maxAge statusAge now x = true) (cached_files d)) ∧
  sweep_failed s = length (filter (λ x, stays maxAge statusAge now x = true) (cached_files d)) ∧ NoDup (cached_files d).
Proof.
  cbn zeta. destruct (sweep_fold maxAge statusAge now (cached_files d) {| disk_after := d; removed := 0; freed := 0; sweep_failed := 0 |}) as (F & R & B & X).
  split; [|split; [exact R|split; [exact B|split; [exact X|apply cached_files_nodup]]]]. intros chat name. unfold sweepMediaWithStatus. rewrite F.
  cbn [disk_after]. clear F R B X. destruct (existsb _ _) eqn:Hex.
  - apply existsb_exists in Hex as ([c [n g]] & Hin & Hg). apply list_elem_of_In, cached_files_spec in Hin as (Hok & Hf & Hn). cbn [fst snd] in Hg.
    apply andb_true_iff in Hg as [[Hg ->%String.eqb_eq]%andb_true_iff ->%String.eqb_eq]. unfold goes in Hg. cbn [fst snd] in Hg.
    apply andb_true_iff in Hg as [He Hr]. by rewrite Hf, Hok, Hn, He, Hr.
  - destruct (file_at d chat name) as [g|] eqn:Hf; [|done].
    destruct (chat_dir_ok chat (dir_of d chat)) eqn:Hok; [|done]. destruct (cached_name chat name g) eqn:Hn; [|done].
    destruct (expired maxAge statusAge now chat g) eqn:He; [|done]. destruct (removable g) eqn:Hr; [|done]. exfalso.
    apply not_true_iff_false in Hex. apply Hex, existsb_exists. exists (chat, (name, g)). split; [apply list_elem_of_In, cached_files_spec; done|].
    unfold goes. cbn [fst snd]. by rewrite He, Hr, !String.eqb_refl.
Qed.
