(* ===== verification/Download.v ===== *)
(** * Downloading stored media ([media.go], [media_retry.go])

    The download of one stored message on the local backend: the row, the cache
    lookup, the transfer from the CDN by the message's own path or by the one in
    its url, the media retry the sender's phone is asked for, and the answer of
    /api/download.  The CDN, the phone, the file system and the quota are outcome
    arguments; the transfer group that joins callers is the one of [Queues]. *)
From S2P Require Import Prelude Jid Http ChatPolicy Config MediaQuota StoreTime Caches Archive Messages MarkRead MediaNames MediaPurge MediaCache.
#[local] Open Scope Z_scope.

(** ** Paths *)

(** [strings.SplitN] of a text at the first separator. *)
Fixpoint cut_text (sep s : string) : option (string * string) :=
  match strip_prefix sep s with
  | Some rest => Some ("", rest)
  | None => match s with
            | EmptyString => None
            | String a r => match cut_text sep r with Some (x, y) => Some (String a x, y) | None => None end
            end
  end.

(** [extractDirectPathFromURL]. *)
Definition extractDirectPathFromURL (u : string) : string :=
  match cut_text ".net/" u with Some (_, rest) => String "/" rest | None => u end.

Definition mediaCDNHost : string := "https://mmg.whatsapp.net".
Definition slashed (p : string) : string := if has_prefix "/" p then p else String "/" p.

(** [mediaURLFromDirectPath]. *)
Definition mediaURLFromDirectPath (p : string) : string := mediaCDNHost +:+ slashed p.

(** [strconv.ParseInt(value, 16, 64)]. *)
Definition hex_digit (a : ascii) : option Z :=
  let c := byte_code a in
  if bool_decide (48 ≤ c ≤ 57) then Some (c - 48)
  else if bool_decide (97 ≤ c ≤ 102) then Some (c - 87)
  else if bool_decide (65 ≤ c ≤ 70) then Some (c - 55) else None.

Fixpoint hex_from (l : list ascii) (acc : Z) : option Z :=
  match l with [] => Some acc | a :: rest => match hex_digit a with Some v => hex_from rest (acc * 16 + v) | None => None end end.

Definition hex_int64 (s : string) : option Z :=
  let '(sign, l) := match list_ascii_of_string s with
                    | "-"%char :: rest => (-1, rest)
                    | "+"%char :: rest => (1, rest)
                    | rest => (1, rest)
                    end in
  match l with
  | [] => None
  | _ => match hex_from l 0 with Some v => if bool_decide (- 2 ^ 63 ≤ sign * v ≤ max_int64) then Some (sign * v) else None | None => None end
  end.

(** [linkExpiry], in seconds; [linkExpired] at an instant in nanoseconds. *)
Fixpoint first_expiry (pairs : list string) : option Z :=
  match pairs with
  | [] => None
  | p :: rest =>
      match strip_prefix "oe=" p ≫= hex_int64 with
      | Some secs => if 0 <? secs then Some secs else first_expiry rest
      | None => first_expiry rest
      end
  end.

Definition linkExpiry (directPath : string) : option Z :=
  first_expiry (split_byte "&" (match cut_first "?" directPath with Some (_, q) => q | None => "" end)).

Definition linkExpired (directPath : string) (now : Z) : bool :=
  match linkExpiry directPath with Some s => s * 10 ^ 9 <? now | None => false end.

Definition cdnFreshWindow : Z := 6 * hour_ns.

(** ** The phone *)

(** A decrypted answer; [NotFound] is the one that says the file is gone. *)
Inductive notification : Type := Success (directPath : string) | PhoneNotFound | Declined (why : string).

(** What came of a retry receipt. *)
Inductive phone : Type := SendFailed (e : string) | Answered (a : result string notification) | NoReply (e : string).

(** [mediaRetryDirectPath] with [definitiveRetryResult]. *)
Definition mediaRetryDirectPath (a : result string notification) : result RetryCooldown.retry_error string :=
  match a with
  | Err e => Err (RetryCooldown.PhoneAnswered e)
  | Ok PhoneNotFound => Err (RetryCooldown.MediaUnavailable "sender's phone declined media retry")
  | Ok (Declined why) => Err (RetryCooldown.PhoneAnswered why)
  | Ok (Success "") => Err (RetryCooldown.PhoneAnswered "media retry response carried no direct path")
  | Ok (Success p) => Ok p
  end.

Section Info.
Context `{JidOps}.

Record MessageInfo := { i_chat : JID; i_sender : JID; i_from_me : bool; i_group : bool; i_id : string }.

(** [mediaRetryMessageInfo]. *)
Definition mediaRetryMessageInfo (id chatJID snd : string) (own : bool) : option MessageInfo :=
  match ParseJID chatJID with
  | Err _ => None
  | Ok chat =>
      match (if String.eqb snd "" then Ok chat else parseRecipientJID snd) with
      | Err _ => None
      | Ok who =>
          if String.eqb (Server chat) GroupServer && negb (String.eqb (Server who) DefaultUserServer) && negb (String.eqb (Server who) HiddenUserServer)
          then None
          else Some {| i_chat := chat; i_sender := who; i_from_me := own; i_group := String.eqb (Server chat) GroupServer; i_id := id |}
      end
  end.

(** [mediaRetryInfo]. *)
Definition mediaRetryInfo (id chat : string) (t : messages) : option MessageInfo :=
  match t !! (id, chat) with
  | None => None
  | Some r =>
      let wireChat := default "" (media_retry_chat r) in
      let wireSender := default "" (media_retry_sender r) in
      let server := default "" (sender_server r) in
      let chat := if String.eqb wireChat "" then chat else wireChat in
      let nameless := String.eqb wireSender "" && String.eqb server ""
                      && match ParseJID chat with Ok p => String.eqb (Server p) GroupServer | Err _ => false end in
      if nameless then None
      else let snd := if negb (String.eqb wireSender "") then wireSender
                      else if negb (String.eqb server "") then JIDString (NewJID (sender r) server) else sender r in
           mediaRetryMessageInfo id chat snd (is_from_me r)
  end.

(** ** One download *)

Inductive dl_error : Type :=
| NoRow | BadLength | NotMedia' | Unsupported | PathRefused | NoStore' | MkdirFailed | DirNotReal | Capped (c : cap_check)
| Incomplete | Busy | Parked | QuotaPaused | QuotaFailed (e : string)
| CdnFresh (status age : Z) | CdnStatus (status : Z) | WriteFailed (e : write_error)
| Backoff (b : RetryCooldown.backoff) | RetryNotSent (e : string) | RetryFailed (e : RetryCooldown.retry_error) | RetryWrite (e : write_error)
| LegacyLink (e : dl_error).

(** [errors.Is] of the two permanent verdicts. *)
Fixpoint is_unavailable (e : dl_error) : bool :=
  match e with
  | Incomplete => true
  | Backoff b => match RetryCooldown.err b with RetryCooldown.MediaUnavailable _ => true | _ => false end
  | RetryFailed (RetryCooldown.MediaUnavailable _) => true
  | LegacyLink e => is_unavailable e
  | _ => false
  end.

Fixpoint is_limit (e : dl_error) : bool :=
  match e with
  | Capped CapExceeded | WriteFailed AutoMediaLimit | RetryWrite AutoMediaLimit => true
  | LegacyLink e => is_limit e
  | _ => false
  end.

Definition permanentMediaCode (e : dl_error) : string :=
  match e with PathRefused => "media_refused" | _ => if is_unavailable e then "media_unavailable" else "" end.

(** What went out over the network, in order. *)
Inductive action : Type := AskCdn (path : string) | AskPhone (i : MessageInfo).

Record state := {
  st_disk : disk; st_cool : gmap (string * string) RetryCooldown.backoff; st_rows : messages;
  st_sent : list action; downloads : nat; fails : nat; refusals : nat; quota_refusals : nat;
}.

(** The world around one call: time, the gates, the quota ([None] outside an
    automatic download), the CDN by path, the phone, and the order in which the
    cooldown map is walked. *)
Record env := {
  now : Z; gate_free : bool; parked : bool; store_open : bool; mkdir_ok : bool; stopping : bool; store_info_ok : bool;
  limit : Z; admission : option MediaQuota.outcome; fs : fs_faults; cdn : string → fill * option Z; phone_says : phone;
  walk : list ((string * string) * RetryCooldown.backoff);
}.

Definition set_disk (d : disk) (s : state) : state := {| st_disk := d; st_cool := st_cool s; st_rows := st_rows s; st_sent := st_sent s; downloads := downloads s; fails := fails s; refusals := refusals s; quota_refusals := quota_refusals s |}.
Definition set_cool (c : gmap (string * string) RetryCooldown.backoff) (s : state) : state := {| st_disk := st_disk s; st_cool := c; st_rows := st_rows s; st_sent := st_sent s; downloads := downloads s; fails := fails s; refusals := refusals s; quota_refusals := quota_refusals s |}.
Definition set_rows (t : messages) (s : state) : state := {| st_disk := st_disk s; st_cool := st_cool s; st_rows := t; st_sent := st_sent s; downloads := downloads s; fails := fails s; refusals := refusals s; quota_refusals := quota_refusals s |}.
Definition send (a : action) (s : state) : state := {| st_disk := st_disk s; st_cool := st_cool s; st_rows := st_rows s; st_sent := st_sent s ++ [a]; downloads := downloads s; fails := fails s; refusals := refusals s; quota_refusals := quota_refusals s |}.
Definition count_done (s : state) : state := {| st_disk := st_disk s; st_cool := st_cool s; st_rows := st_rows s; st_sent := st_sent s; downloads := S (downloads s); fails := fails s; refusals := refusals s; quota_refusals := quota_refusals s |}.
Definition count_fail (s : state) : state := {| st_disk := st_disk s; st_cool := st_cool s; st_rows := st_rows s; st_sent := st_sent s; downloads := downloads s; fails := S (fails s); refusals := refusals s; quota_refusals := quota_refusals s |}.
Definition count_refusal (s : state) : state := {| st_disk := st_disk s; st_cool := st_cool s; st_rows := st_rows s; st_sent := st_sent s; downloads := downloads s; fails := fails s; refusals := S (refusals s); quota_refusals := quota_refusals s |}.
Definition count_quota (s : state) : state := {| st_disk := st_disk s; st_cool := st_cool s; st_rows := st_rows s; st_sent := st_sent s; downloads := downloads s; fails := fails s; refusals := refusals s; quota_refusals := S (quota_refusals s) |}.

Section Attempt.
Context (e : env) (id chatJID : string).

(** [transferMedia] of one path under [lim] bytes, with a refusal of the CDN as
    [CdnStatus]; the target was checked by [Write] of the local backend. *)
Definition write_path (lim : Z) (chat name path : string) (s : state) : state * result dl_error Z :=
  let '(f, status) := cdn e path in
  let s := send (AskCdn path) s in
  match status with
  | Some code => (set_disk (writeMediaFile (fs e) (now e) chat name (new_handle, Some (FillFailed "cdn")) (st_disk s)).1 s, Err (CdnStatus code))
  | None => let '(d, r) := writeMediaDownload (fs e) (now e) lim chat name f (st_disk s) in
            (set_disk d s, match r with Ok n => Ok n | Err w => Err (WriteFailed w) end)
  end.

(** [downloadViaMediaRetry]. *)
Definition downloadViaMediaRetry (lim : Z) (chat name : string) (dl : MediaDownloader) (s : state) : state * result dl_error Z :=
  match mediaRetryInfo id chatJID (st_rows s) with
  | None => (s, Err (RetryNotSent "info"))
  | Some info =>
      let s := send (AskPhone info) s in
      match phone_says e with
      | SendFailed m => (s, Err (RetryNotSent m))
      | NoReply m => (s, Err (RetryFailed (RetryCooldown.NoAnswer m)))
      | Answered a =>
          match mediaRetryDirectPath a with
          | Err r => (s, Err (RetryFailed r))
          | Ok path =>
              let '(s, r) := write_path lim chat name path s in
              match r with
              | Ok n =>
                  let fresh := {| d_url := mediaURLFromDirectPath path; d_direct_path := path; d_media_key := d_media_key dl;
                                  d_file_sha256 := d_file_sha256 dl; d_file_enc_sha256 := d_file_enc_sha256 dl; d_file_length := d_file_length dl |} in
                  (if store_info_ok e then set_rows (StoreMediaInfo (id, chatJID) fresh (st_rows s)) s else s, Ok n)
              | Err (WriteFailed w) => (s, Err (RetryWrite w))
              | Err _ => (s, Err (RetryFailed (RetryCooldown.NoAnswer "download after media retry")))
              end
          end
      end
  end.

(** [retryMedia]: what a failure is remembered as. *)
Definition retryMedia (lim : Z) (chat name : string) (dl : MediaDownloader) (s : state) : state * result dl_error Z :=
  let '(s, r) := downloadViaMediaRetry lim chat name dl s in
  let remember why := let '(c, b) := RetryCooldown.note (chatJID, id) why (now e) (walk e) (st_cool s) in (set_cool c s, Err (Backoff b)) in
  match r with
  | Ok n => (set_cool (RetryCooldown.forget (chatJID, id) (st_cool s)) s, Ok n)
  | Err err =>
      if stopping e then (s, Err err)
      else match err with
           | RetryNotSent _ | RetryWrite AutoMediaLimit => (s, Err err)
           | RetryFailed why => remember why
           | _ => remember (RetryCooldown.NoAnswer "download after media retry")
           end
  end.

(** After a refusal of the message's own path: the path of its url, if it differs. *)
Definition via_url (lim : Z) (chat name : string) (dl : MediaDownloader) (from_message : bool) (code : Z) (s : state) : state * result dl_error Z :=
  let alt := extractDirectPathFromURL (d_url dl) in
  if from_message && negb (String.eqb alt (d_direct_path dl)) && has_prefix "/" alt
  then let '(s, r) := write_path lim chat name alt s in
       (s, match r with Ok n => Ok n | Err err => if is_limit err then Err err else Err (CdnStatus code) end)
  else (s, Err (CdnStatus code)).

(** The transfer under a limit: the message's path, the path of its url, the phone. *)
Definition fetch (lim : Z) (chat name : string) (ts : Z) (dl : MediaDownloader) (from_message : bool) (s : state) : state * result dl_error Z :=
  let path := d_direct_path dl in
  let '(s, r) := write_path lim chat name path s in
  match r with
  | Err (CdnStatus code) =>
      let age := now e - ts in
      let '(s, r) := via_url lim chat name dl from_message code s in
      match r with
      | Ok n => (s, Ok n)
      | Err err =>
          if is_limit err then (s, Err err)
          else if (age <? cdnFreshWindow) && negb (linkExpired path (now e)) then (s, Err (CdnFresh code age))
          else if bool_decide (blob_len (d_media_key dl) = O) then (s, Err err)
          else
            let '(cool, cooling) := RetryCooldown.active (chatJID, id) (now e) (st_cool s) in
            let s := set_cool cool s in
            let '(s, r) := match cooling with
                           | Some b => (s, Err (Backoff b))
                           | None => retryMedia lim chat name dl s
                           end in
            (s, match r with
                | Err err => if negb from_message && linkExpired path (now e) && is_unavailable err then Err (LegacyLink err) else Err err
                | _ => r
                end)
      end
  | _ => (s, r)
  end.

(** The counters at the end; a cap that came from the quota is the quota's refusal. *)
Definition settle (bounded : bool) (sr : state * result dl_error Z) : state * result dl_error Z :=
  let '(s, r) := sr in
  match r with
  | Ok n => (count_done s, Ok n)
  | Err err => if bounded && is_limit err then (count_quota s, Err QuotaPaused)
               else if is_limit err then (s, Err err) else (count_fail s, Err err)
  end.

(** The job of the transfer group: the gates, the quota, the transfer and the
    counters.  The early returns of a CDN refusal count one failure too. *)
Definition transfer_job (chat name : string) (ts : Z) (dl : MediaDownloader) (from_message : bool) (s : state) : state * result dl_error Z :=
  if negb (gate_free e) then (s, Err Busy)
  else if parked e then (s, Err Parked)
  else
    let go lim bounded := settle bounded (fetch lim chat name ts dl from_message s) in
    match admission e with
    | None | Some MediaQuota.Unlimited => go (limit e) false
    | Some (MediaQuota.Failed m) => (s, Err (QuotaFailed m))
    | Some MediaQuota.Paused => (s, Err QuotaPaused)
    | Some (MediaQuota.Reserved lim bounded) => go lim bounded
    end.

Definition mkdir (chat : string) (d : disk) : disk :=
  match d !! chat with Some _ => d | None => <[chat := {| d_kind := Directory; d_opened := true; entries := ∅ |}]> d end.

(** [downloadMediaAttempt]: the name of the cached file. *)
Definition downloadMediaAttempt (zone : Z → Z) (s : state) : state * result dl_error string :=
  match st_rows s !! (id, chatJID) with
  | None => (s, Err NoRow)
  | Some r =>
      let m := media r in
      let len := default 0 (file_length m) in
      let row := row_of ((id, chatJID), r) in
      let name := mediaFileName zone (media_type r) (Timestamp row) id (filename r) in
      let chat := chatMediaRel chatJID in
      if len <? 0 then (s, Err BadLength)
      else if String.eqb (media_type r) "" || String.eqb (media_type r) "location" then (s, Err NotMedia')
      else if negb (is_media (media_type r)) then (s, Err Unsupported)
      else if bool_decide (is_Some (checkMediaPathComponents chat name)) then (count_refusal s, Err PathRefused)
      else if negb (store_open e) then (s, Err NoStore')
      else if negb (mkdir_ok e) then (s, Err MkdirFailed)
      else
        let s := set_disk (mkdir chat (st_disk s)) s in
        if negb (bool_decide (d_kind (dir_of (st_disk s) chat) = Directory)) then (s, Err DirNotReal)
        else match find_row zone (st_disk s) row with
             | Found cached => (s, match checkCachedMediaLimit (limit e) (st_disk s) chat cached with CapOk => Ok cached | c => Err (Capped c) end)
             | _ =>
                 let stored := default "" (direct_path m) in
                 if negb (mediaComplete chatJID (url m) stored (media_key m) (file_sha256 m) (file_enc_sha256 m)) then (s, Err Incomplete)
                 else
                   let from_message := negb (String.eqb stored "") in
                   let dl := {| d_url := url m; d_direct_path := if from_message then slashed stored else extractDirectPathFromURL (url m);
                                d_media_key := media_key m; d_file_sha256 := file_sha256 m; d_file_enc_sha256 := file_enc_sha256 m; d_file_length := len |} in
                   let '(s, t) := transfer_job chat name (Timestamp row) dl from_message s in
                   (s, match t with
                       | Err err => Err err
                       | Ok _ => match checkCachedMediaLimit (limit e) (st_disk s) chat name with CapOk => Ok name | c => Err (Capped c) end
                       end)
             end
  end.

End Attempt.

(** ** The answer of /api/download *)

(** [writeMediaRetryBackoff]: seconds to wait, when the answer is a cooldown. *)
Definition writeMediaRetryBackoff (now : Z) (err : dl_error) : option Z :=
  match err with
  | Backoff b => if String.eqb (permanentMediaCode err) "" then Some (Z.max 1 (Z.quot (RetryCooldown.until b - now) (10 ^ 9))) else None
  | _ => None
  end.

Inductive download_reply : Type :=
| Downloaded (name : string)
| DownloadError (r : Http.reply) (retry_after : option Z).

(** [handleDownload] of a decoded body ([None] when it cannot be read), on the
    local backend. *)
Definition handleDownload (policy : chatPolicy) (connected : bool) (e : env) (zone : Z → Z) (body : option (string * string)) (s : state) :
    state * download_reply :=
  match body with
  | None => (s, DownloadError (Http.writeError Http.StatusBadRequest "Invalid request format") None)
  | Some (id, chat) =>
      if String.eqb id "" || String.eqb chat "" then (s, DownloadError (Http.writeError Http.StatusBadRequest "Message ID and Chat JID are required") None)
      else match authorizeChat policy chat false with
           | Err r => (s, DownloadError r None)
           | Ok j =>
               if negb connected
               then (s, DownloadError (Http.writeErrorCode Http.StatusServiceUnavailable "" "WhatsApp client is not connected. Please wait for reconnection.") None)
               else
                 let '(s, r) := downloadMediaAttempt e id (JIDString j) zone s in
                 (s, match r with
                     | Ok name => Downloaded name
                     | Err err =>
                         match err with
                         | CdnFresh _ _ => DownloadError (Http.writeError Http.StatusBadGateway "Failed to download media") None
                         | _ =>
                             match writeMediaRetryBackoff (now e) err with
                             | Some secs => DownloadError (Http.writeErrorCode Http.StatusServiceUnavailable "media_retry_backoff" "Failed to download media") (Some secs)
                             | None => let named := permanentMediaCode err in
                                       DownloadError (Http.writeErrorCode 500 (if String.eqb named "" then Http.errorCode 500 else named) "Failed to download media") None
                             end
                         end
                     end)
           end
  end.

(** ** Answers of the phone *)

(** [mediaRetryHub]: the channel waiting for a message, and what each channel
    holds; a channel has room for one answer. *)
Record mediaRetryHub := { waiters : gmap string nat; channels : list (option (result string notification)) }.

(** [register]: a new channel takes the message over. *)
Definition register (id : string) (h : mediaRetryHub) : mediaRetryHub * nat :=
  ({| waiters := <[id := length (channels h)]> (waiters h); channels := channels h ++ [None] |}, length (channels h)).

(** The cancel function of a registration. *)
Definition unregister (id : string) (ch : nat) (h : mediaRetryHub) : mediaRetryHub :=
  if bool_decide (waiters h !! id = Some ch) then {| waiters := delete id (waiters h); channels := channels h |} else h.

Definition dispatch (id : string) (a : result string notification) (h : mediaRetryHub) : mediaRetryHub * bool :=
  match waiters h !! id with
  | None => (h, false)
  | Some ch => match channels h !! ch with
               | Some None => ({| waiters := waiters h; channels := <[ch := Some a]> (channels h) |}, true)
               | _ => (h, false)
               end
  end.

End Info.

(** ** What a download asks for, and what it concludes *)

Section Verdicts.
Context `{JidOps} (e : env) (id chatJID : string).

(** The file stands in the cache. *)
Definition present (d : disk) (chat name : string) : Prop := ∃ g, file_at d chat name = Some g ∧ kind g = RegularFile.

Lemma write_dir fs' t chat name run d : is_Some (d !! chat) → is_Some ((writeMediaFile fs' t chat name run d).1 !! chat).
Proof.
  intros Hd. unfold writeMediaFile. destruct (_ && _); [done|]. destruct (negb _); [by apply remove_dir|]. destruct run as [h [w|]].
  - by apply remove_dir, put_dir, remove_dir.
  - destruct (negb _); [by apply remove_dir, put_dir, remove_dir|]. destruct (negb _); [by apply remove_dir, put_dir, remove_dir|].
    by apply put_dir, remove_dir, put_dir, remove_dir.
Qed.

Lemma write_present fs' t chat name run d d' n : is_Some (d !! chat) → writeMediaFile fs' t chat name run d = (d', Ok n) → present d' chat name.
Proof.
  intros Hd. unfold writeMediaFile. destruct (_ && _); [done|]. destruct (negb _); [done|]. destruct run as [h [w|]]; [done|].
  destruct (negb _); [done|]. destruct (negb _); [done|]. intros [= <- _].
  eexists. rewrite file_at_put by (by apply remove_dir, put_dir, remove_dir). rewrite bool_decide_true by done. done.
Qed.

(** A step towards the target [chat]/[name]: the directory stays, success leaves
    the file, the archive row keeps its place. *)
Record step (chat name : string) (s s' : state) (ok : bool) : Prop := {
  s_dir : is_Some (st_disk s !! chat) → is_Some (st_disk s' !! chat);
  s_file : is_Some (st_disk s !! chat) → ok = true → present (st_disk s') chat name;
}.

Lemma step_trans chat name s1 s2 s3 b ok : step chat name s1 s2 b → step chat name s2 s3 ok → step chat name s1 s3 ok.
Proof. intros [D1 _] [D2 F2]. constructor; auto. Qed.

Lemma step_same chat name s s' : st_disk s' = st_disk s → step chat name s s' false.
Proof. intros E. constructor; [by rewrite E|done]. Qed.

Lemma write_path_spec lim chat name path s s' r : write_path e lim chat name path s = (s', r) →
  step chat name s s' (is_ok r) ∧ st_sent s' = st_sent s ++ [AskCdn path] ∧ st_cool s' = st_cool s ∧ st_rows s' = st_rows s ∧
  match r with Err (CdnStatus code) => (cdn e path).2 = Some code | Err (WriteFailed _) | Ok _ => True | _ => False end.
Proof.
  unfold write_path. destruct (cdn e path) as [f [code|]] eqn:Hc.
  - intros [= <- <-]. cbn. repeat split; try done. by apply write_dir.
  - destruct (writeMediaDownload _ _ _ _ _ _ _) as [d r'] eqn:Hw. intros [= <- <-]. cbn. unfold writeMediaDownload in Hw. change (st_disk (send (AskCdn path) s)) with (st_disk s) in Hw.
    split; [|by destruct r']. constructor; cbn; intros Hd.
    + pose proof (write_dir (fs e) (now e) chat name (run_fill lim f) (st_disk s) Hd) as Hx. by rewrite Hw in Hx.
    + destruct r' as [n|]; [|done]. intros _. by apply (write_present _ _ _ _ _ _ _ _ Hd Hw).
Qed.

(** What a retry may send: the receipt, and one request for the fresh path. *)
Definition retry_trail (rows : messages) (l : list action) : Prop :=
  l = [] ∨ ∃ i, mediaRetryInfo id chatJID rows = Some i ∧ (l = [AskPhone i] ∨ ∃ p, l = [AskPhone i; AskCdn p]).

Lemma via_retry_spec lim chat name dl s s' r : downloadViaMediaRetry e id chatJID lim chat name dl s = (s', r) →
  step chat name s s' (is_ok r) ∧ (∃ l, st_sent s' = st_sent s ++ l ∧ retry_trail (st_rows s) l) ∧
  match r with Err err => is_unavailable err = true → phone_says e = Answered (Ok PhoneNotFound) | Ok _ => True end.
Proof.
  unfold downloadViaMediaRetry. destruct (mediaRetryInfo id chatJID (st_rows s)) as [i|] eqn:Hi.
  2:{ intros [= <- <-]. split; [by apply step_same|]. split; [exists []; split; [by rewrite app_nil_r|by left]|done]. }
  assert (∀ l, retry_trail (st_rows s) (AskPhone i :: l) ↔ l = [] ∨ ∃ p, l = [AskCdn p]) as Ht.
  { intros l. unfold retry_trail. rewrite Hi. split.
    - intros [?|(j & [= ->] & [[= ->]|(p & [= ->])])]; [done|by left|right; by exists p].
    - intros [->|(p & ->)]; right; exists i; (split; [done|]); [by left|right; by exists p]. }
  assert (step chat name s (send (AskPhone i) s) false ∧ ∃ l, st_sent (send (AskPhone i) s) = st_sent s ++ l ∧ retry_trail (st_rows s) l) as [Hst Hl].
  { split; [by apply step_same|]. exists [AskPhone i]. split; [done|]. apply Ht. by left. }
  destruct (phone_says e) as [m|a|m] eqn:Hp; [intros [= <- <-]; done| |intros [= <- <-]; done].
  destruct (mediaRetryDirectPath a) as [path|w] eqn:Ha.
  2:{ intros [= <- <-]. split; [done|]. split; [done|]. cbn. destruct a as [[[|]| |]|]; cbn in Ha; try done; by injection Ha as <-. }
  destruct (write_path _ _ _ _ _ _) as [s1 r1] eqn:Hw. apply write_path_spec in Hw as (W1 & Ws & Wc & Wr & Wm).
  assert (∀ s2, st_sent s2 = st_sent s1 → ∃ l, st_sent s2 = st_sent s ++ l ∧ retry_trail (st_rows s) l) as Hl1.
  { intros s2 E. exists [AskPhone i; AskCdn path]. split; [rewrite E, Ws; cbn; by rewrite <-app_assoc|]. apply Ht. right. by exists path. }
  destruct r1 as [n|[]]; try done; intros [= <- <-]; (split; [|split; [by apply Hl1; destruct (store_info_ok e)|done]]);
    (eapply step_trans; [exact Hst|]); [|exact W1..]. destruct W1 as [WD WF]. by constructor; destruct (store_info_ok e).
Qed.

Lemma retryMedia_spec lim chat name dl s s' r : retryMedia e id chatJID lim chat name dl s = (s', r) →
  step chat name s s' (is_ok r) ∧ (∃ l, st_sent s' = st_sent s ++ l ∧ retry_trail (st_rows s) l) ∧
  match r with Err err => is_unavailable err = true → phone_says e = Answered (Ok PhoneNotFound) | Ok _ => True end.
Proof.
  unfold retryMedia. destruct (downloadViaMediaRetry _ _ _ _ _ _ _ _) as [s1 r1] eqn:Hr. apply via_retry_spec in Hr as (Hs & Hl & Hu).
  assert (∀ why, (is_unavailable (RetryFailed why) = true → phone_says e = Answered (Ok PhoneNotFound)) → is_ok r1 = false →
    (let '(c, b) := RetryCooldown.note (chatJID, id) why (now e) (walk e) (st_cool s1) in (set_cool c s1, Err (Backoff b))) = (s', r) →
    step chat name s s' (is_ok r) ∧ (∃ l, st_sent s' = st_sent s ++ l ∧ retry_trail (st_rows s) l) ∧
    match r with Err err => is_unavailable err = true → phone_says e = Answered (Ok PhoneNotFound) | Ok _ => True end) as Hn.
  { intros why Hw Hok. unfold RetryCooldown.note. intros [= <- <-]. cbn [is_ok]. split; [|split; [exact Hl|]].
    - rewrite Hok in Hs. destruct Hs as [HD HF]. by constructor.
    - intros Hx. apply Hw. cbn in *. by destruct why. }
  destruct r1 as [n|err]; [intros [= <- <-]; split; [|done]; destruct Hs as [HD HF]; by constructor|].
  destruct (stopping e); [intros [= <- <-]; done|].
  destruct err; try (by apply Hn); try (intros [= <- <-]; done).
  destruct e0; try (by apply Hn). intros [= <- <-]. done.
Qed.

(** The cooldown holds the phone's word that the file is gone. *)
Definition remembered (s : state) : Prop :=
  ∃ b m, st_cool s !! (chatJID, id) = Some b ∧ now e < RetryCooldown.until b ∧ RetryCooldown.err b = RetryCooldown.MediaUnavailable m.

(** The requests of one transfer, and when the phone may be among them. *)
Record requests (ts : Z) (dl : MediaDownloader) (s : state) (l : list action) : Prop := {
  q_shape : ∃ pre post, l = pre ++ post ∧ retry_trail (st_rows s) post ∧
    (pre = [AskCdn (d_direct_path dl)] ∨ pre = [AskCdn (d_direct_path dl); AskCdn (extractDirectPathFromURL (d_url dl))]);
  q_phone : ∀ i, AskPhone i ∈ l →
    is_Some ((cdn e (d_direct_path dl)).2) ∧ (cdnFreshWindow ≤ now e - ts ∨ linkExpired (d_direct_path dl) (now e) = true) ∧
    blob_len (d_media_key dl) ≠ O ∧ (RetryCooldown.active (chatJID, id) (now e) (st_cool s)).2 = None;
}.

Lemma active_spec s c o : RetryCooldown.active (chatJID, id) (now e) (st_cool s) = (c, o) →
  match o with Some b => st_cool s !! (chatJID, id) = Some b ∧ now e < RetryCooldown.until b | None => True end.
Proof.
  unfold RetryCooldown.active. destruct (st_cool s !! (chatJID, id)) as [b|]; [|by intros [= _ <-]].
  case_bool_decide; intros [= _ <-]; done.
Qed.

Lemma via_url_spec lim chat name dl fm code s s' r : via_url e lim chat name dl fm code s = (s', r) →
  step chat name s s' (is_ok r) ∧ st_cool s' = st_cool s ∧ st_rows s' = st_rows s ∧
  (st_sent s' = st_sent s ∨ st_sent s' = st_sent s ++ [AskCdn (extractDirectPathFromURL (d_url dl))]) ∧
  match r with Err err => is_unavailable err = false | Ok _ => True end.
Proof.
  unfold via_url. destruct (_ && _ && _); [|intros [= <- <-]; split; [by apply step_same|auto]].
  destruct (write_path e lim chat name _ s) as [s2 r'] eqn:Hw. apply write_path_spec in Hw as (S2 & T2 & C2 & R2 & M2).
  intros [= <- <-]. destruct r' as [n|err]; [auto 6|]. destruct (is_limit err); (split; [exact S2|]); repeat split; auto. by destruct err.
Qed.

(** The message's own path, then perhaps the one of its url. *)
Definition cdn_trail (dl : MediaDownloader) (pre : list action) : Prop :=
  pre = [AskCdn (d_direct_path dl)] ∨ pre = [AskCdn (d_direct_path dl); AskCdn (extractDirectPathFromURL (d_url dl))].

Lemma cdn_requests ts dl s pre : cdn_trail dl pre → requests ts dl s pre.
Proof.
  intros Hpre. split; [exists pre, []; rewrite app_nil_r; split; [done|]; split; [by left|done]|].
  intros i Hi. exfalso. destruct Hpre as [->| ->]; set_solver.
Qed.

(** A transfer so far: what it did to the target, what it sent, what it may conclude. *)
Definition fetched (chat name : string) (ts : Z) (dl : MediaDownloader) (s s' : state) (r : result dl_error Z) : Prop :=
  step chat name s s' (is_ok r) ∧ (∃ l, st_sent s' = st_sent s ++ l ∧ requests ts dl s l) ∧
  match r with Err err => is_unavailable err = true → phone_says e = Answered (Ok PhoneNotFound) ∨ remembered s | Ok _ => True end.

(** The wording of an expired legacy link keeps the verdict. *)
Definition worded (b : bool) (r : result dl_error Z) : result dl_error Z :=
  match r with Err err => if b && is_unavailable err then Err (LegacyLink err) else Err err | _ => r end.

Lemma worded_fetched chat name ts dl s s' b r : fetched chat name ts dl s s' r → fetched chat name ts dl s s' (worded b r).
Proof. intros (H1 & H2 & H3). destruct r as [n|err]; [by split|]. unfold worded. by destruct (b && is_unavailable err). Qed.

Lemma fetch_spec lim chat name ts dl fm s s' r : fetch e id chatJID lim chat name ts dl fm s = (s', r) → fetched chat name ts dl s s' r.
Proof.
  unfold fetch. set (path := d_direct_path dl).
  destruct (write_path e lim chat name path s) as [s1 r1] eqn:Hw1. apply write_path_spec in Hw1 as (S1 & T1 & C1 & R1 & Hcode).
  destruct r1 as [n|[]]; try done;
    try (intros [= <- <-]; split; [exact S1|]; split; [exists [AskCdn path]; split; [done|apply cdn_requests; by left]|done]).
  destruct (via_url e lim chat name dl fm status s1) as [s2 r2] eqn:Hv. apply via_url_spec in Hv as (S2 & C2 & R2 & T2 & U2).
  rewrite C1 in C2. rewrite R1 in R2. rewrite T1 in T2. pose proof (step_trans _ _ _ _ _ _ _ S1 S2) as S12. clear S1 S2 T1 C1 R1.
  assert (∃ pre, st_sent s2 = st_sent s ++ pre ∧ cdn_trail dl pre) as (pre & Tp & Hpre).
  { destruct T2 as [T2|T2]; [eexists; split; [exact T2|by left]|]. rewrite <-app_assoc in T2. eexists. split; [exact T2|by right]. }
  assert (∀ r, is_ok r = is_ok r2 → match r with Err err => is_unavailable err = false | Ok _ => True end → fetched chat name ts dl s s2 r) as Hstop.
  { intros x Hok Hx. split; [by rewrite Hok|]. split; [by exists pre; split; [|apply cdn_requests]|]. destruct x; [done|congruence]. }
  destruct r2 as [n|err]; [intros [= <- <-]; by apply Hstop|].
  destruct (is_limit err); [intros [= <- <-]; by apply Hstop|]. destruct (_ && negb _) eqn:Hfresh; [intros [= <- <-]; by apply Hstop|].
  case_bool_decide as Hkey; [intros [= <- <-]; by apply Hstop|]. clear Hstop U2.
  destruct (RetryCooldown.active _ _ _) as [cool cooling] eqn:Hact. pose proof (active_spec s2 cool cooling Hact) as Hcool. destruct cooling as [b|].
  - intros [<- <-]%pair_equal_spec. apply (worded_fetched chat name ts dl s (set_cool cool s2) (negb fm && linkExpired path (now e)) (Err (Backoff b))).
    split; [destruct S12; by constructor|]. split; [by exists pre; split; [|apply cdn_requests]|]. intros Hy. right. cbn in Hy.
    destruct (RetryCooldown.err b) as [|m|] eqn:Hb; try done. exists b, m. rewrite <-C2. tauto.
  - destruct (retryMedia _ _ _ _ _ _ _ _) as [s3 r3] eqn:Hr. apply retryMedia_spec in Hr as (S3 & (post & T3 & P3) & U3). cbn [st_rows set_cool] in P3.
    intros [<- <-]%pair_equal_spec. apply (worded_fetched chat name ts dl s s3 (negb fm && linkExpired path (now e)) r3).
    split; [eapply step_trans; [exact S12|destruct S3; by constructor]|]. split; [|destruct r3; [done|left; by apply U3]].
    exists (pre ++ post). split; [rewrite T3; cbn; by rewrite Tp, app_assoc|]. rewrite R2 in P3. split; [by exists pre, post|].
    intros i _. split; [eexists; exact Hcode|]. split; [|split; [done|by rewrite <-C2, Hact]].
    apply andb_false_iff in Hfresh as [Hf%Z.ltb_ge|Hf%negb_false_iff]; auto.
Qed.

(** A transfer that never reached the network asks for nothing. *)
Definition job_ok (chat name : string) (ts : Z) (dl : MediaDownloader) (s s' : state) (r : result dl_error Z) : Prop :=
  step chat name s s' (is_ok r) ∧ (∃ l, st_sent s' = st_sent s ++ l ∧ (l = [] ∨ requests ts dl s l)) ∧
  match r with Err err => is_unavailable err = true → phone_says e = Answered (Ok PhoneNotFound) ∨ remembered s | Ok _ => True end.

Lemma settle_ok chat name ts dl s b s1 r1 : fetched chat name ts dl s s1 r1 →
  job_ok chat name ts dl s (settle b (s1, r1)).1 (settle b (s1, r1)).2.
Proof.
  intros (S1 & (l & T1 & Q1) & U1).
  assert (∀ s2 r2, st_disk s2 = st_disk s1 → st_sent s2 = st_sent s1 → (is_ok r2 = true → is_ok r1 = true) →
    match r2 with Err err => is_unavailable err = true → phone_says e = Answered (Ok PhoneNotFound) ∨ remembered s | Ok _ => True end →
    job_ok chat name ts dl s s2 r2) as Hend.
  { intros s2 r2 Ed Es Hok Hu. split; [destruct S1 as [HD HF]; constructor; rewrite Ed; auto|]. split; [exists l; rewrite Es; auto|done]. }
  unfold settle. destruct r1 as [n|err]; [by apply Hend|]. destruct (b && is_limit err); [by apply Hend|]. destruct (is_limit err); by apply Hend.
Qed.

Lemma transfer_job_spec chat name ts dl fm s s' r : transfer_job e id chatJID chat name ts dl fm s = (s', r) → job_ok chat name ts dl s s' r.
Proof.
  assert (∀ err, is_unavailable err = false → (s, Err err) = (s', r) → job_ok chat name ts dl s s' r) as Hno.
  { intros err Hu [= <- <-]. split; [by apply step_same|]. split; [exists []; rewrite app_nil_r; auto|congruence]. }
  assert (∀ lim b, settle b (fetch e id chatJID lim chat name ts dl fm s) = (s', r) → job_ok chat name ts dl s s' r) as Hgo.
  { intros lim b Hs. destruct (fetch _ _ _ _ _ _ _ _ _ _) as [s1 r1] eqn:Hf. apply fetch_spec in Hf.
    apply (settle_ok _ _ _ _ _ b) in Hf. by rewrite Hs in Hf. }
  unfold transfer_job. destruct (negb _); [by apply Hno|]. destruct (parked e); [by apply Hno|].
  destruct (admission e) as [[]|]; first [apply Hgo|by apply Hno].
Qed.

(** The row the download works from. *)
Definition downloader (r : message_row) : MediaDownloader :=
  let m := media r in
  let stored := default "" (direct_path m) in
  {| d_url := url m; d_direct_path := if negb (String.eqb stored "") then slashed stored else extractDirectPathFromURL (url m);
     d_media_key := media_key m; d_file_sha256 := file_sha256 m; d_file_enc_sha256 := file_enc_sha256 m; d_file_length := default 0 (file_length m) |}.

Definition row_incomplete (s : state) : Prop :=
  ∃ r, st_rows s !! (id, chatJID) = Some r ∧
    mediaComplete chatJID (url (media r)) (default "" (direct_path (media r))) (media_key (media r)) (file_sha256 (media r)) (file_enc_sha256 (media r)) = false.

Lemma mkdir_some chat d : is_Some (mkdir chat d !! chat).
Proof. unfold mkdir. destruct (d !! chat) as [c|] eqn:Hc; [by rewrite Hc|by rewrite lookup_insert_eq]. Qed.

Lemma capped_ok lim d chat name : checkCachedMediaLimit lim d chat name = CapOk → 0 < lim → ∃ g, file_at d chat name = Some g ∧ kind g = RegularFile ∧ size g ≤ lim.
Proof.
  unfold checkCachedMediaLimit. intros Hc Hl. rewrite (proj2 (Z.eqb_neq lim 0)) in Hc by lia.
  destruct (findCachedMedia _ _ _ _ _) as [n| |] eqn:Hf; try done. unfold findCachedMedia in Hf. destruct (omap _ _); [|done].
  destruct (d_kind _); try done. destruct (d_opened _); [|done]. apply found_in_dir in Hf as [Hin Hs]. apply list_elem_of_singleton in Hin as ->.
  unfold stat_in, file_size, file_at in *. destruct (entries _ !! name) as [g|]; [|done]. exists g. split; [done|]. split; [done|].
  destruct (Z.ltb_spec (size g) 0); [done|]. destruct (Z.ltb_spec lim (size g)); [done|lia].
Qed.

End Verdicts.

(** [C11] A download asks the sender's phone only as a last resort, and calls a file
    gone only when it is.  One attempt sends at most two requests to the CDN, for
    the path of the message and the one of its url, then at most one retry receipt
    and one request for the fresh path.  The phone is asked only if the CDN refused
    the message's path, the message is at least six hours old or its link says it
    expired, the message has a media key, and no earlier failure is cooling down.
    The permanent "media unavailable" verdict means that the row lacks what a
    download needs, or that the phone itself said the file is gone, now or within
    the cooldown.  And a download that succeeds leaves a regular file in the cache,
    within the caller's limit. *)
Theorem download_verdicts `{JidOps} (e : env) (id chatJID : string) (zone : Z → Z) (s : state) :
  let '(s', r) := downloadMediaAttempt e id chatJID zone s in
  (∃ l, st_sent s' = st_sent s ++ l ∧
     (l = [] ∨ ∃ row, st_rows s !! (id, chatJID) = Some row ∧ requests e id chatJID (timestamp row * 10 ^ 9) (downloader row) s l)) ∧
  match r with
  | Err err => is_unavailable err = true →
      row_incomplete id chatJID s ∨ phone_says e = Answered (Ok PhoneNotFound) ∨ remembered e id chatJID s
  | Ok name => ∃ g, file_at (st_disk s') (chatMediaRel chatJID) name = Some g ∧ kind g = RegularFile ∧ (0 < limit e → size g ≤ limit e)
  end.
Proof.
  assert (∀ s', st_sent s' = st_sent s → (∃ l, st_sent s' = st_sent s ++ l ∧ (l = [] ∨ ∃ row, st_rows s !! (id, chatJID) = Some row ∧
    requests e id chatJID (timestamp row * 10 ^ 9) (downloader row) s l))) as Hnil by (intros s' ->; exists []; rewrite app_nil_r; auto).
  unfold downloadMediaAttempt. destruct (st_rows s !! (id, chatJID)) as [row|] eqn:Hrow; [|split; [by apply Hnil|done]].
  destruct (_ <? 0); [split; [by apply Hnil|done]|]. destruct (_ || _); [split; [by apply Hnil|done]|]. destruct (negb (is_media _)); [split; [by apply Hnil|done]|].
  case_bool_decide; [split; [by apply Hnil|done]|]. destruct (negb (store_open e)); [split; [by apply Hnil|done]|].
  destruct (negb (mkdir_ok e)); [split; [by apply Hnil|done]|]. set (chat := chatMediaRel chatJID). set (s1 := set_disk _ s).
  destruct (negb _); [split; [by apply Hnil|done]|].
  destruct (find_row zone (st_disk s1) (row_of ((id, chatJID), row))) as [cached| |] eqn:Hf.
  { apply found_row in Hf as (_ & g & Hg & Hk). change (file_at (st_disk s1) chat cached = Some g) in Hg. destruct (checkCachedMediaLimit _ _ _ _) eqn:Hc; (split; [by apply Hnil|]); try done. exists g. split; [done|]. split; [done|].
    intros Hl. destruct (capped_ok _ _ _ _ Hc Hl) as (g' & Hg' & _ & Hs). congruence. }
  all: destruct (negb (mediaComplete _ _ _ _ _ _)) eqn:Hm; [apply negb_true_iff in Hm; split; [by apply Hnil|]; intros _; left; by exists row|].
  all: destruct (transfer_job _ _ _ _ _ _ _ _ _) as [s2 t] eqn:Ht; apply transfer_job_spec in Ht as (S2 & (l & T2 & Q2) & U2).
  all: split; [exists l; split; [exact T2|destruct Q2 as [->|Q2]; [by left|right; exists row; split; [done|destruct Q2 as [QA QB]; split; [exact QA|exact QB]]]]|].
  all: destruct t as [n|err]; [|intros Hu; right; by apply U2].
  all: destruct (checkCachedMediaLimit _ _ _ _) eqn:Hc; try done.
  all: destruct (s_file _ _ _ _ _ S2 (mkdir_some _ _) eq_refl) as (g & Hg & Hk); exists g; split; [done|]; split; [done|];
    intros Hl; destruct (capped_ok _ _ _ _ Hc Hl) as (g' & Hg' & _ & Hs); congruence.
Qed.

(** An answer reaches the last download that waits for its message, and the end
    of an earlier one does not take its place away. *)
Theorem retry_answer_routed `{JidOps} (id : string) (a : result string notification) (old : nat) (h : mediaRetryHub) :
  old ≠ length (channels h) →
  let '(h1, ch) := register id h in
  let '(h2, delivered) := dispatch id a (unregister id old h1) in
  delivered = true ∧ channels h2 !! ch = Some (Some a) ∧ waiters (unregister id ch h2) !! id = None.
Proof.
  intros Ho. cbn. unfold unregister at 1. cbn [waiters]. rewrite lookup_insert_eq, bool_decide_false by congruence.
  unfold dispatch. cbn [waiters channels]. rewrite lookup_insert_eq, lookup_app_r, Nat.sub_diag by lia. cbn.
  split; [done|]. split; [rewrite list_lookup_insert_eq; [done|]; rewrite length_app; cbn; lia|].
  unfold unregister. cbn [waiters]. rewrite lookup_insert_eq, bool_decide_true by done. cbn. by rewrite lookup_delete_eq.
Qed.
