(* ===== verification/Content.v ===== *)
(** * Message content ([content.go], [media_header.go], [view_once.go], [mentions.go])

    What the archive keeps of a decrypted message: its text, its quote and
    mentions, its media part and the chat's disappearing timer.  The message has
    the sub-messages and fields the source reads, and the tokens, payment data and
    thumbnails it must not; a text field that is absent is "", as the getters give
    it.  Coordinates are floating-point numbers of a parameter type. *)
From S2P Require Import Prelude Jid StoreTime Archive Messages MarkRead MediaNames Polls.
#[local] Open Scope Z_scope.

(** ** The message *)

(** [float64] as far as it is used: the range checks, [FormatFloat] with six
    decimals, and the check of a speed (not a number, infinite or below zero). *)
Class Floats := {
  float : Type;
  is_nan : float → bool;
  abs_above : float → Z → bool;
  format6 : float → string;
  bad_speed : float → bool;
}.

Record ContextInfo (M : Type) := {
  StanzaID : string; Participant : string; QuotedMessage : option M; Expiration : Z; EphemeralSettingTimestamp : Z; MentionedJID : list string;
}.

(** A media sub-message: the CDN fields, the caption, a document's name, the
    thumbnail; [FileLength] is [None] when the field is absent. *)
Record media_part (M : Type) := {
  p_url : string; p_direct_path : string; p_key : string; p_sha256 : string; p_enc_sha256 : string; p_length : option Z;
  p_caption : string; p_name : string; p_thumbnail : string; p_ctx : option (ContextInfo M);
}.

Record header (M : Type) := { h_document : option (media_part M); h_image : option (media_part M); h_video : option (media_part M) }.

Record contact (M : Type) := { displayName : string; vcard : string; ct_ctx : option (ContextInfo M) }.

Section Sub.
Context `{Floats} (M : Type).

Record location_message := {
  lat : option float; lng : option float; l_name : string; l_address : string; l_url : string; l_comment : string; l_live : bool; l_thumbnail : string;
  l_accuracy : option Z; l_speed : option float; l_bearing : option Z;
  l_ctx : option (ContextInfo M);
}.

Record live_location := { ll_lat : option float; ll_lng : option float; ll_caption : string; ll_thumbnail : string;
  ll_accuracy : option Z; ll_speed : option float; ll_bearing : option Z; ll_sequence : option Z; ll_offset : option Z; ll_ctx : option (ContextInfo M) }.

Record event_message := {
  e_canceled : bool; e_start : Z; e_end : Z; e_location : option location_message; e_name : string; e_description : string; e_join : string;
  e_ctx : option (ContextInfo M);
}.

End Sub.

Record group_invite (M : Type) := {
  gi_group : string; gi_code : string; gi_expiration : Z; gi_name : string; gi_caption : string; gi_thumbnail : string; gi_ctx : option (ContextInfo M);
}.

Record product := { p_title : string; p_description : string; p_price1000 : option Z; p_currency : string; p_link : string }.
Record product_message (M : Type) := { pm_product : option product; pm_body : string; pm_footer : string; pm_ctx : option (ContextInfo M) }.

Record order_message (M : Type) := {
  o_title : string; o_message : string; o_id : string; o_count : option Z; o_total1000 : option Z; o_currency : string; o_token : string;
  o_thumbnail : string; o_ctx : option (ContextInfo M);
}.

Record money := { mo_currency : string; mo_value : Z; mo_offset : Z }.
Record send_payment (M : Type) := { sp_note : option M; sp_transaction : string }.
Record request_payment (M : Type) := { rp_note : option M; rp_amount1000 : option Z; rp_currency : string; rp_amount : option money }.

Record list_response (M : Type) := { lr_title : string; lr_description : string; lr_row : string; lr_ctx : option (ContextInfo M) }.
Record interactive_response (M : Type) := { ir_text : string; ir_flow : string; ir_params : string; ir_ctx : option (ContextInfo M) }.

Record hydrated (M : Type) := { hy_text : string; hy_header : header M }.
Record interactive (M : Type) := { ia_text : string; ia_header : header M; ia_ctx : option (ContextInfo M) }.
Record template (M : Type) := {
  t_hydrated : option (hydrated M); t_hydrated_four : option (hydrated M); t_four_header : header M; t_legacy : string; t_legacy_four : string;
  t_interactive : option (interactive M); t_ctx : option (ContextInfo M);
}.
Record buttons (M : Type) := { b_content : string; b_text : string; b_header : header M; b_ctx : option (ContextInfo M) }.
Record described (M : Type) := { d_text : string; d_id : string; d_ctx : option (ContextInfo M) }.

(** A protocol message: its type, the message it names, the timer it sets, and of
    an edit the new message and its time in milliseconds. *)
Inductive protocol_type : Type := REVOKE | EPHEMERAL_SETTING | MESSAGE_EDIT | OtherProtocol.
Record protocol (M : Type) := {
  pr_type : protocol_type; pr_key : option string; pr_expiration : Z; pr_setting_timestamp : Z; pr_edited : option M; pr_timestamp_ms : Z;
}.

(** The sub-messages, by their names; the three view-once envelopes as a list;
    a reaction is the message reacted to and the emoji. *)
Record parts `{Floats} (M : Type) := {
  Conversation : string; ExtendedText : option (described M);
  ImageMessage : option (media_part M); VideoMessage : option (media_part M); PtvMessage : option (media_part M);
  AudioMessage : option (media_part M); DocumentMessage : option (media_part M); StickerMessage : option (media_part M);
  ContactMessage : option (contact M); ContactsArray : option (list (contact M) * option (ContextInfo M));
  LocationMessage : option (location_message M); LiveLocation : option (live_location M);
  EventMessage : option (event_message M); GroupInvite : option (group_invite M); ProductMessage : option (product_message M);
  OrderMessage : option (order_message M); SendPayment : option (send_payment M); RequestPayment : option (request_payment M);
  ListResponse : option (list_response M); InteractiveResponse : option (interactive_response M);
  TemplateMessage : option (template M); ButtonsMessage : option (buttons M); InteractiveMessage : option (interactive M);
  ListMessage : option (described M); ButtonsResponse : option (described M); TemplateButtonReply : option (described M);
  PollCreations : list (option (PollCreationMessage * option (ContextInfo M)));
  Protocol : option (protocol M); Reaction : option (option string * string); HasPollUpdate : bool;
  HistoryShare : option string; ViewOnce : list (option M);
}.

#[warnings="-register-all"]
Inductive Message `{Floats} : Type := Msg (p : parts Message).

Definition parts_of `{Floats} (m : Message) : parts Message := match m with Msg p => p end.

Arguments StanzaID {M}. Arguments Participant {M}. Arguments QuotedMessage {M}. Arguments Expiration {M}.
Arguments EphemeralSettingTimestamp {M}. Arguments MentionedJID {M}.
Arguments p_url {M}. Arguments p_direct_path {M}. Arguments p_key {M}. Arguments p_sha256 {M}. Arguments p_enc_sha256 {M}.
Arguments p_length {M}. Arguments p_caption {M}. Arguments p_name {M}. Arguments p_thumbnail {M}. Arguments p_ctx {M}.
Arguments h_document {M}. Arguments h_image {M}. Arguments h_video {M}.
Arguments displayName {M}. Arguments vcard {M}. Arguments ct_ctx {M}.
Arguments lat {_ M}. Arguments lng {_ M}. Arguments l_name {_ M}. Arguments l_address {_ M}. Arguments l_url {_ M}. Arguments l_comment {_ M}. Arguments l_live {_ M}.
Arguments l_accuracy {_ M}. Arguments l_speed {_ M}. Arguments l_bearing {_ M}. Arguments ll_accuracy {_ M}. Arguments ll_speed {_ M}.
Arguments ll_bearing {_ M}. Arguments ll_sequence {_ M}. Arguments ll_offset {_ M}.
Arguments l_thumbnail {_ M}. Arguments l_ctx {_ M}.
Arguments ll_lat {_ M}. Arguments ll_lng {_ M}. Arguments ll_caption {_ M}. Arguments ll_thumbnail {_ M}. Arguments ll_ctx {_ M}.
Arguments e_canceled {_ M}. Arguments e_start {_ M}. Arguments e_end {_ M}. Arguments e_location {_ M}. Arguments e_name {_ M}.
Arguments e_description {_ M}. Arguments e_join {_ M}. Arguments e_ctx {_ M}.
Arguments gi_group {M}. Arguments gi_code {M}. Arguments gi_expiration {M}. Arguments gi_name {M}. Arguments gi_caption {M}. Arguments gi_thumbnail {M}. Arguments gi_ctx {M}.
Arguments pm_product {M}. Arguments pm_body {M}. Arguments pm_footer {M}. Arguments pm_ctx {M}.
Arguments o_title {M}. Arguments o_message {M}. Arguments o_id {M}. Arguments o_count {M}. Arguments o_total1000 {M}. Arguments o_currency {M}.
Arguments o_token {M}. Arguments o_thumbnail {M}. Arguments o_ctx {M}.
Arguments sp_note {M}. Arguments sp_transaction {M}. Arguments rp_note {M}. Arguments rp_amount1000 {M}. Arguments rp_currency {M}. Arguments rp_amount {M}.
Arguments lr_title {M}. Arguments lr_description {M}. Arguments lr_row {M}. Arguments lr_ctx {M}.
Arguments ir_text {M}. Arguments ir_flow {M}. Arguments ir_params {M}. Arguments ir_ctx {M}.
Arguments hy_text {M}. Arguments hy_header {M}. Arguments ia_text {M}. Arguments ia_header {M}. Arguments ia_ctx {M}.
Arguments t_hydrated {M}. Arguments t_hydrated_four {M}. Arguments t_four_header {M}. Arguments t_legacy {M}. Arguments t_legacy_four {M}.
Arguments t_interactive {M}. Arguments t_ctx {M}. Arguments b_content {M}. Arguments b_text {M}. Arguments b_header {M}. Arguments b_ctx {M}.
Arguments d_text {M}. Arguments d_id {M}. Arguments d_ctx {M}.
Arguments Conversation {_ M}. Arguments ExtendedText {_ M}. Arguments ImageMessage {_ M}. Arguments VideoMessage {_ M}. Arguments PtvMessage {_ M}.
Arguments AudioMessage {_ M}. Arguments DocumentMessage {_ M}. Arguments StickerMessage {_ M}. Arguments ContactMessage {_ M}.
Arguments ContactsArray {_ M}. Arguments LocationMessage {_ M}. Arguments LiveLocation {_ M}. Arguments EventMessage {_ M}.
Arguments GroupInvite {_ M}. Arguments ProductMessage {_ M}. Arguments OrderMessage {_ M}. Arguments SendPayment {_ M}.
Arguments RequestPayment {_ M}. Arguments ListResponse {_ M}. Arguments InteractiveResponse {_ M}. Arguments TemplateMessage {_ M}.
Arguments ButtonsMessage {_ M}. Arguments InteractiveMessage {_ M}. Arguments ListMessage {_ M}. Arguments ButtonsResponse {_ M}.
Arguments TemplateButtonReply {_ M}. Arguments PollCreations {_ M}. Arguments Protocol {_ M}. Arguments Reaction {_ M}.
Arguments HasPollUpdate {_ M}. Arguments HistoryShare {_ M}. Arguments ViewOnce {_ M}.
Arguments pr_type {M}. Arguments pr_key {M}. Arguments pr_expiration {M}. Arguments pr_setting_timestamp {M}. Arguments pr_edited {M}. Arguments pr_timestamp_ms {M}.

(** ** Text fragments *)

(** [strings.Join] of the trimmed, non-empty values. *)
Definition present_values (values : list string) : list string := filter (λ v, v ≠ "") (trim_space <$> values).

(** [describeMessage]. *)
Definition describeMessage (label : string) (values : list string) : string := join " — " (label :: present_values values).

(** Decimal digits of a natural number, most significant first; [fuel] digits at
    most. *)
Fixpoint digits_of (fuel : nat) (n : Z) : list Z :=
  match fuel with
  | O => []
  | S f => if n <? 10 then [n] else digits_of f (n / 10) ++ [n mod 10]
  end.

(** [strconv.FormatInt] and [FormatUint]: sign and digits; 20 digits cover 64 bits. *)
Definition format_int (n : Z) : bool * list Z := (n <? 0, digits_of 20 (Z.abs n)).

Definition digit_string (l : list Z) : string := string_of_list_ascii (digit <$> l).

(** [formatAmount1000] of a formatted number: sign, whole digits, two or three
    digits of fraction. *)
Definition amount_digits (n : Z) : bool * list Z * list Z :=
  let '(neg, ds) := format_int n in
  let ds := replicate (4 - length ds) 0 ++ ds in
  let k := (length ds - 3)%nat in
  let fraction := drop k ds in
  (neg, take k ds, if bool_decide (fraction !! 2%nat = Some 0) then take 2 fraction else fraction).

Definition formatAmount1000 (n : Z) (currency : string) : string :=
  let '(neg, whole, fraction) := amount_digits n in
  trim_space (currency +:+ String " " ((if neg : bool then "-" else "") +:+ digit_string whole +:+ String "." (digit_string fraction))).

(** A number as [%d] prints it. *)
Definition decimal (n : Z) : string := (if n <? 0 then "-" else "") +:+ digit_string (digits_of 20 (Z.abs n)).

(** [envelopeTimestamp]: layout RFC3339 in UTC, for 1970 to 2099. *)
Definition envelopeTimestamp (seconds : Z) : string :=
  if (seconds <=? 0) || (4102444800 <=? seconds) then ""
  else
    let '(y, m, d) := civil (seconds / 86400) in
    let sod := seconds mod 86400 in
    appendInt y 4 +:+ String "-" (appendInt m 2 +:+ String "-" (appendInt d 2 +:+ String "T"
      (appendInt (sod / 3600) 2 +:+ String ":" (appendInt (sod / 60 mod 60) 2 +:+ String ":" (appendInt (sod mod 60) 2 +:+ "Z"))))).

(** [cappedFlowParams]. *)
Definition flow_limit : nat := 4096.
Definition flow_marker : string := " … [truncated]".

Definition cappedFlowParams (params : string) : string :=
  let chars := runes (codes params) in
  if (length chars <=? flow_limit)%nat then params
  else of_codes (utf8 (take (flow_limit - length (runes (codes flow_marker))) chars)) +:+ flow_marker.

(** [extractVCardPhones]: the text before the first of two bytes. *)
Fixpoint before_any (cs s : string) : string :=
  match s with
  | EmptyString => ""
  | String a r => if contains_byte a cs then "" else String a (before_any cs r)
  end.

Definition vcard_phone (line : string) : option string :=
  let line := trim_space line in
  let prop := before_any ";:" line in
  let prop := match cut_last "." prop with Some (_, p) => p | None => prop end in
  if negb (String.eqb (to_lower prop) "tel") then None
  else match cut_last ":" line with
       | Some (_, v) => let phone := trim_space v in if String.eqb phone "" then None else Some phone
       | None => None
       end.

Definition line_feed : ascii := Ascii.ascii_of_nat 10.
Definition extractVCardPhones (vcard : string) : list string := omap vcard_phone (split_byte line_feed vcard).

(** [formatContactContent]. *)
Definition formatContactContent (name vcard : string) : string :=
  match extractVCardPhones vcard with
  | [] => name
  | phones => name +:+ " (" +:+ join ", " phones +:+ ")"
  end.

(** [mentionsColumn]: bare users, the first of each. *)
Fixpoint first_of (seen : list string) (l : list string) : list string :=
  match l with
  | [] => []
  | u :: rest => if String.eqb u "" || bool_decide (u ∈ seen) then first_of seen rest else u :: first_of (u :: seen) rest
  end.

Definition mention_user (jid : string) : string :=
  let user := bareSenderUser jid in match cut_first ":" user with Some (u, _) => u | None => user end.

Definition mentionsColumn (jids : list string) : string := join "," (first_of [] (mention_user <$> jids)).

(** [viewOnceContent]. *)
Definition viewOnceContent (caption mediaType : string) : string :=
  let caption := trim_space caption in
  if negb (String.eqb caption "") then "🔒 " +:+ caption
  else "🔒 view-once " +:+ (if String.eqb mediaType "" then "media" else mediaType).

Section Extract.
Context `{Floats}.

(** [formatCoordinates]. *)
Definition formatCoordinates (lat lng : option float) : string :=
  match lat, lng with
  | Some a, Some o =>
      if is_nan a || is_nan o || abs_above a 90 || abs_above o 180 then ""
      else "(" +:+ format6 a +:+ ", " +:+ format6 o +:+ ")"
  | _, _ => ""
  end.

(** [formatLocationContent]. *)
Definition formatLocationContent {M} (l : location_message M) : string :=
  let head := join " — " (present_values [l_name l; l_address l]) in
  let coords := formatCoordinates (lat l) (lng l) in
  let head := if String.eqb coords "" then head else trim_space (head +:+ String " " coords) in
  let parts := (if String.eqb head "" then [] else [head]) ++ present_values [l_url l; l_comment l] in
  match parts with [] => "" | _ => "📍 " +:+ join " — " parts end.

(** [formatLiveLocationContent]. *)
Definition formatLiveLocationContent {M} (l : live_location M) : string :=
  let coords := formatCoordinates (ll_lat l) (ll_lng l) in
  let caption := trim_space (ll_caption l) in
  if String.eqb coords "" && String.eqb caption "" then ""
  else "📍 Live location" +:+ (if String.eqb coords "" then "" else String " " coords)
       +:+ (if String.eqb caption "" then "" else " — " +:+ caption).

(** [videoMessageOf]. *)
Definition videoMessageOf {M} (p : parts M) : option (media_part M) := match VideoMessage p with Some v => Some v | None => PtvMessage p end.

Definition no_header {M} : header M := {| h_document := None; h_image := None; h_video := None |}.

(** [messageMediaHeaders]. *)
Definition messageMediaHeaders {M} (p : parts M) : list (header M) :=
  let t := TemplateMessage p in
  [ default no_header (hy_header <$> (t ≫= t_hydrated)); default no_header (hy_header <$> (t ≫= t_hydrated_four)); default no_header (t_four_header <$> t);
    default no_header (b_header <$> ButtonsMessage p); default no_header (ia_header <$> InteractiveMessage p);
    default no_header (ia_header <$> (t ≫= t_interactive)) ].

(** The first value there is. *)
Definition first_some {A} (l : list (option A)) : option A := head (omap (λ o, o) l).

(** The first of some texts that is not empty. *)
Definition first_text (l : list string) : option string := head (filter (λ s, s ≠ "") l).

(** ** [extractTextContent], its branches in order *)

Definition contact_text {M} (c : contact M) : string := formatContactContent (displayName c) (vcard c).

Definition contacts_text {M} (l : list (contact M)) : option string :=
  match filter (λ s, s ≠ "") (contact_text <$> l) with
  | [] => None
  | names => Some ("📇 " +:+ decimal (Z.of_nat (length names)) +:+ " contacts shared: " +:+ join "; " names)
  end.

Definition nonempty (s : string) : option string := if String.eqb s "" then None else Some s.

Definition event_text {M} (e : event_message M) : string :=
  let label := "Event" +:+ (if e_canceled e then " canceled" else "") in
  let stamped word s := if String.eqb (envelopeTimestamp s) "" then "" else word +:+ envelopeTimestamp s in
  describeMessage label [e_name e; e_description e; match e_location e with Some l => formatLocationContent l | None => "" end;
                         stamped "starts " (e_start e); stamped "ends " (e_end e); e_join e].

Definition invite_text {M} (g : group_invite M) : string :=
  let stamp := envelopeTimestamp (gi_expiration g) in
  describeMessage "Group invite" [gi_name g; gi_caption g; if String.eqb (gi_group g) "" then "" else "group " +:+ gi_group g;
                                  if String.eqb stamp "" then "" else "expires " +:+ stamp].

Definition product_text {M} (m : product_message M) : string :=
  let get f := match pm_product m with Some p => f p | None => "" end in
  let price := match pm_product m with
               | Some p => match p_price1000 p with Some n => formatAmount1000 n (p_currency p) | None => "" end
               | None => ""
               end in
  describeMessage "Product" [get p_title; get p_description; pm_body m; pm_footer m; price; get p_link].

Definition order_text {M} (o : order_message M) : string :=
  let count := match o_count o with Some n => if n =? 1 then "1 item" else decimal n +:+ " items" | None => "" end in
  let amount := match o_total1000 o with Some n => formatAmount1000 n (o_currency o) | None => "" end in
  describeMessage "Order" [o_title o; o_message o; o_id o; count; amount].

Definition requested_amount {M} (r : request_payment M) : string :=
  match rp_amount1000 r, rp_amount r with
  | Some n, _ => formatAmount1000 n (rp_currency r)
  | None, Some m => mo_currency m +:+ " value=" +:+ decimal (mo_value m) +:+ " offset=" +:+ decimal (mo_offset m)
  | None, None => ""
  end.

Definition list_reply_text {M} (r : list_response M) : string :=
  describeMessage "List reply" [lr_title r; lr_description r;
    if String.eqb (trim_space (lr_title r)) "" && String.eqb (trim_space (lr_description r)) "" then lr_row r else ""].

Definition template_text {M} (t : template M) : option string :=
  first_text [match t_hydrated t with Some h => hy_text h | None => "" end; match t_hydrated_four t with Some h => hy_text h | None => "" end;
              t_legacy t; t_legacy_four t; match t_interactive t with Some i => ia_text i | None => "" end].

(** From the templates on, where a branch without a text falls through. *)
Definition structured_text {M} (p : parts M) : string :=
  let reply label d := match d with Some b => Some (if String.eqb (d_text b) "" then describeMessage label [d_id b] else d_text b) | None => None end in
  let captions := (λ h, match h_document h with Some d => p_caption d | None => "" end) <$> messageMediaHeaders p in
  default "" (first_some
    [TemplateMessage p ≫= template_text; (b ← ButtonsMessage p; first_text [b_content b; b_text b]); (i ← InteractiveMessage p; nonempty (ia_text i));
     first_text captions; (l ← ListMessage p; nonempty (d_text l));
     reply "Button reply" (ButtonsResponse p); reply "Template button reply" (TemplateButtonReply p)]).

Fixpoint extractTextContent (m : Message) : string :=
  let 'Msg p := m in
  let note o := match o with Some n => extractTextContent n | None => "" end in
  if negb (String.eqb (Conversation p) "") then Conversation p
  else match ExtendedText p with Some t => d_text t | None =>
  match ImageMessage p with Some i => p_caption i | None =>
  match videoMessageOf p with Some v => p_caption v | None =>
  match DocumentMessage p with Some d => p_caption d | None =>
  match first_some [(c ← ContactMessage p; s ← nonempty (contact_text c); Some ("📇 " +:+ s)); (ContactsArray p ≫= λ a, contacts_text a.1);
                       (l ← LocationMessage p; nonempty (formatLocationContent l)); (l ← LiveLocation p; nonempty (formatLiveLocationContent l))] with
  | Some s => s | None =>
  match EventMessage p with Some e => event_text e | None =>
  match GroupInvite p with Some g => invite_text g | None =>
  match ProductMessage p with Some x => product_text x | None =>
  match OrderMessage p with Some o => order_text o | None =>
  match SendPayment p with Some s => describeMessage "Payment sent" [note (sp_note s)] | None =>
  match RequestPayment p with Some r => describeMessage "Payment request" [note (rp_note r); requested_amount r] | None =>
  match ListResponse p with Some r => list_reply_text r | None =>
  match InteractiveResponse p with Some r => describeMessage "Interactive reply" [ir_text r; ir_flow r; cappedFlowParams (ir_params r)] | None =>
  structured_text p end end end end end end end end end end end end end.

(** [sharedContextInfo]: the first context there is. *)
Definition header_contexts {M} (h : header M) : list (option (ContextInfo M)) :=
  [h_image h ≫= p_ctx; h_video h ≫= p_ctx; h_document h ≫= p_ctx].

Definition sharedContextInfo {M} (p : parts M) : option (ContextInfo M) :=
  first_some (
    [ExtendedText p ≫= d_ctx; ImageMessage p ≫= p_ctx; videoMessageOf p ≫= p_ctx; DocumentMessage p ≫= p_ctx; AudioMessage p ≫= p_ctx;
     StickerMessage p ≫= p_ctx; ContactMessage p ≫= ct_ctx; ContactsArray p ≫= snd; LocationMessage p ≫= l_ctx; LiveLocation p ≫= ll_ctx;
     EventMessage p ≫= e_ctx; GroupInvite p ≫= gi_ctx; ProductMessage p ≫= pm_ctx; OrderMessage p ≫= o_ctx; ListResponse p ≫= lr_ctx;
     InteractiveResponse p ≫= ir_ctx; TemplateMessage p ≫= t_ctx; ButtonsMessage p ≫= b_ctx; InteractiveMessage p ≫= ia_ctx;
     ListMessage p ≫= d_ctx; ButtonsResponse p ≫= d_ctx; TemplateButtonReply p ≫= d_ctx]
    ++ ((λ o : option (PollCreationMessage * option (ContextInfo M)), o ≫= snd) <$> PollCreations p)
    ++ [(t ← TemplateMessage p; t_interactive t) ≫= ia_ctx]
    ++ (messageMediaHeaders p ≫= header_contexts)).

(** [extractChatEphemeralFromMessage]: expiration and the time of the setting. *)
Definition extractChatEphemeralFromMessage {M} (p : parts M) : Z * Z :=
  match sharedContextInfo p with Some c => (Expiration c, EphemeralSettingTimestamp c) | None => (0, 0) end.

(** [extractQuotedMessageInfo]: id, sender, text. *)
Definition extractQuotedMessageInfo (m : Message) : string * string * string :=
  match sharedContextInfo (parts_of m) with
  | None => ("", "", "")
  | Some c => (StanzaID c, Participant c, match QuotedMessage c with Some q => extractTextContent q | None => "" end)
  end.

Definition extractMentionedJIDs {M} (p : parts M) : list string :=
  match sharedContextInfo p with Some c => MentionedJID c | None => [] end.

(** ** Media *)

(** [structuredHeaderMedia]. *)
Definition header_media {M} (h : header M) : option (string * media_part M) :=
  let found := match h_document h, h_image h, h_video h with
               | Some d, _, _ => Some ("document", d)
               | None, Some i, _ => Some ("image", i)
               | None, None, Some v => Some ("video", v)
               | None, None, None => None
               end in
  '(kind, x) ← found;
  if (negb (String.eqb (p_url x) "") || negb (String.eqb (p_direct_path x) "")) && negb (String.eqb (p_key x) "") then Some (kind, x) else None.

Definition structuredHeaderMedia {M} (p : parts M) : option (string * media_part M) := head (omap header_media (messageMediaHeaders p)).

(** [mediaPartOf]. *)
Definition mediaPartOf {M} (p : parts M) : option (string * media_part M) :=
  match ImageMessage p, videoMessageOf p, AudioMessage p, DocumentMessage p, StickerMessage p with
  | Some x, _, _, _, _ => Some ("image", x)
  | None, Some x, _, _, _ => Some ("video", x)
  | None, None, Some x, _, _ => Some ("audio", x)
  | None, None, None, Some x, _ => Some ("document", x)
  | None, None, None, None, Some x => Some ("sticker", x)
  | None, None, None, None, None => structuredHeaderMedia p
  end.

(** The generated name of [extractMediaInfo]; [suffix] is the local clock and the id. *)
Definition generated_name (kind suffix : string) (x : media_part Message) : string :=
  if String.eqb kind "image" then "image_" +:+ suffix +:+ ".jpg"
  else if String.eqb kind "video" then "video_" +:+ suffix +:+ ".mp4"
  else if String.eqb kind "audio" then "audio_" +:+ suffix +:+ ".ogg"
  else if String.eqb kind "sticker" then "sticker_" +:+ suffix +:+ ".webp"
  else if String.eqb (p_name x) "" then "document_" +:+ suffix else p_name x.

(** [bareContentEnvelope]. *)
Definition bareContentEnvelope {M} (p : parts M) (content : string) : bool :=
  if negb (String.eqb (Conversation p) "") || bool_decide (is_Some (ExtendedText p)) || bool_decide (is_Some (ImageMessage p))
     || bool_decide (is_Some (videoMessageOf p)) || bool_decide (is_Some (DocumentMessage p)) then false
  else
    let bare d := match d with Some b => String.eqb (d_text b) "" | None => false end in
    existsb (λ x : bool * string, x.1 && String.eqb content x.2)
      [(bool_decide (is_Some (EventMessage p)), "Event"); (bool_decide (is_Some (GroupInvite p)), "Group invite");
       (bool_decide (is_Some (ProductMessage p)), "Product"); (bool_decide (is_Some (OrderMessage p)), "Order");
       (bool_decide (is_Some (SendPayment p)), "Payment sent"); (bool_decide (is_Some (RequestPayment p)), "Payment request");
       (bool_decide (is_Some (ListResponse p)), "List reply"); (bool_decide (is_Some (InteractiveResponse p)), "Interactive reply");
       (bare (ButtonsResponse p), "Button reply"); (bare (TemplateButtonReply p), "Template button reply")].

(** [unwrapViewOnce]. *)
Definition unwrapViewOnce (m : Message) : Message * bool :=
  match first_some (ViewOnce (parts_of m)) with Some inner => (inner, true) | None => (m, false) end.

(** ** [extractMessage] ([persist.go]) *)

Context `{Sqlite}.

(** The columns of the media of a message. *)
Record extracted := {
  inner : option Message; viewOnce : bool; x_content : string; x_media_type : string; x_filename : string;
  x_media : option (media_part Message); x_poll : option pollCreation; x_location : option messageLocation;
  x_quoted : string * string * string; x_mentions : list string; x_edit : option (protocol Message);
}.

(** [unwrap] is the SDK's [UnwrapRaw] on a copy: the inner message and whether it
    was view-once; [clock] the local time of the message in a file name. *)
Context (unwrap : Message → option Message * bool).

Definition nothing_extracted (m : option Message) (once : bool) : extracted :=
  {| inner := m; viewOnce := once; x_content := ""; x_media_type := ""; x_filename := ""; x_media := None; x_poll := None; x_location := None;
     x_quoted := ("", "", ""); x_mentions := []; x_edit := None |}.

(** The edit a message carries. *)
Definition edit_of (m : Message) : option (protocol Message) :=
  match Protocol (parts_of m) with Some p => match pr_type p with MESSAGE_EDIT => Some p | _ => None end | None => None end.

(** [locationOf]: a location with the numbers that make sense; [num] and [int] are
    the JSON values of numbers. *)
Context (num : float → jval) (int : Z → jval).

Definition good_speed (v : option float) : option jval := match v with Some f => if bad_speed f then None else Some (num f) | None => None end.
Definition good_bearing (v : option Z) : option jval := match v with Some n => if 360 <? n then None else Some (int n) | None => None end.

Definition locationOf (m : Message) : option messageLocation :=
  let at_ a o := if String.eqb (formatCoordinates a o) "" then (None, None) else (num <$> a, num <$> o) in
  match LocationMessage (parts_of m), LiveLocation (parts_of m) with
  | Some l, _ =>
      let '(a, o) := at_ (lat l) (lng l) in
      Some {| Live := l_live l; Latitude := a; Longitude := o; Messages.Name := l_name l; Address := l_address l; LocationURL := l_url l; Comment := l_comment l;
              Accuracy := int <$> l_accuracy l; Speed := good_speed (l_speed l); Bearing := good_bearing (l_bearing l); Sequence := None; Offset := None |}
  | None, Some l =>
      let '(a, o) := at_ (ll_lat l) (ll_lng l) in
      Some {| Live := true; Latitude := a; Longitude := o; Messages.Name := ""; Address := ""; LocationURL := ""; Comment := ll_caption l;
              Accuracy := int <$> ll_accuracy l; Speed := good_speed (ll_speed l); Bearing := good_bearing (ll_bearing l); Sequence := ll_sequence l;
              Offset := int <$> ll_offset l |}
  | None, None => None
  end.

Definition extractMessage (raw : option Message) (clock id : string) : extracted :=
  match raw with
  | None => nothing_extracted None false
  | Some m =>
      let '(i, once) := unwrap m in
      match i with
      | None => nothing_extracted None once
      | Some i =>
          match edit_of i with
          | Some e => {| inner := Some i; viewOnce := once; x_content := ""; x_media_type := ""; x_filename := ""; x_media := None; x_poll := None;
                         x_location := None; x_quoted := ("", "", ""); x_mentions := []; x_edit := Some e |}
          | None =>
              let p := parts_of i in
              let part := mediaPartOf p in
              let suffix := if String.eqb id "" then clock else clock +:+ String "_" id in
              let name := match part with
                          | Some (kind, x) => if String.eqb kind "document" then cleanDisplayName (p_name x) else generated_name kind suffix x
                          | None => ""
                          end in
              let live := locationOf i in
              let poll := extractPollCreation ((λ o : option (PollCreationMessage * option (ContextInfo Message)), fst <$> o) <$> PollCreations p) in
              let type := match poll, live, part with Some _, _, _ => "poll" | None, Some _, _ => "location" | None, None, Some (kind, _) => kind | None, None, None => "" end in
              let text := match poll with Some q => pollContent q | None => extractTextContent i end in
              {| inner := Some i; viewOnce := once; x_content := if once then viewOnceContent text type else text; x_media_type := type;
                 x_filename := name; x_media := snd <$> part; x_poll := poll; x_location := live; x_quoted := extractQuotedMessageInfo i;
                 x_mentions := extractMentionedJIDs p; x_edit := None |}
          end
      end
  end.

(** [empty]. *)
Definition is_empty (e : extracted) : bool := bool_decide (x_edit e = None) && String.eqb (x_content e) "" && String.eqb (x_media_type e) "".

End Extract.

(** ** What the text does not say *)

Section Redact.
Context `{Floats}.

(** A media part with nothing but its caption and name. *)
Definition redact_media {M} (x : media_part M) : media_part M :=
  {| p_url := ""; p_direct_path := ""; p_key := ""; p_sha256 := ""; p_enc_sha256 := ""; p_length := None; p_caption := p_caption x; p_name := p_name x;
     p_thumbnail := ""; p_ctx := None |}.

Definition redact_header {M} (h : header M) : header M :=
  {| h_document := redact_media <$> h_document h; h_image := redact_media <$> h_image h; h_video := redact_media <$> h_video h |}.

Definition redact_location {M} (l : location_message M) : location_message M :=
  {| lat := lat l; lng := lng l; l_name := l_name l; l_address := l_address l; l_url := l_url l; l_comment := l_comment l; l_live := l_live l;
     l_thumbnail := ""; l_accuracy := l_accuracy l; l_speed := l_speed l; l_bearing := l_bearing l; l_ctx := None |}.

Definition redact_live {M} (l : live_location M) : live_location M :=
  {| ll_lat := ll_lat l; ll_lng := ll_lng l; ll_caption := ll_caption l; ll_thumbnail := ""; ll_accuracy := ll_accuracy l; ll_speed := ll_speed l;
     ll_bearing := ll_bearing l; ll_sequence := ll_sequence l; ll_offset := ll_offset l; ll_ctx := None |}.

Definition redact_invite {M} (g : group_invite M) : group_invite M :=
  {| gi_group := gi_group g; gi_code := ""; gi_expiration := gi_expiration g; gi_name := gi_name g; gi_caption := gi_caption g; gi_thumbnail := ""; gi_ctx := None |}.

Definition redact_order {M} (o : order_message M) : order_message M :=
  {| o_title := o_title o; o_message := o_message o; o_id := o_id o; o_count := o_count o; o_total1000 := o_total1000 o; o_currency := o_currency o;
     o_token := ""; o_thumbnail := ""; o_ctx := None |}.

Definition redact_template {M} (t : template M) : template M :=
  {| t_hydrated := (λ h, {| hy_text := hy_text h; hy_header := redact_header (hy_header h) |}) <$> t_hydrated t;
     t_hydrated_four := (λ h, {| hy_text := hy_text h; hy_header := redact_header (hy_header h) |}) <$> t_hydrated_four t;
     t_four_header := redact_header (t_four_header t); t_legacy := t_legacy t; t_legacy_four := t_legacy_four t;
     t_interactive := (λ i, {| ia_text := ia_text i; ia_header := redact_header (ia_header i); ia_ctx := None |}) <$> t_interactive t; t_ctx := None |}.

(** The message without what must stay out of the archive's text: invitation
    codes, order tokens, payment data, media keys and locators, hashes and
    thumbnails, at the top and in the notes of payments. *)
Fixpoint redact (m : Message) : Message :=
  let 'Msg p := m in
  Msg {| Conversation := Conversation p; ExtendedText := ExtendedText p;
    ImageMessage := redact_media <$> ImageMessage p; VideoMessage := redact_media <$> VideoMessage p; PtvMessage := redact_media <$> PtvMessage p;
    AudioMessage := redact_media <$> AudioMessage p; DocumentMessage := redact_media <$> DocumentMessage p; StickerMessage := redact_media <$> StickerMessage p;
    ContactMessage := ContactMessage p; ContactsArray := ContactsArray p; LocationMessage := redact_location <$> LocationMessage p;
    LiveLocation := redact_live <$> LiveLocation p; EventMessage := EventMessage p; GroupInvite := redact_invite <$> GroupInvite p;
    ProductMessage := ProductMessage p; OrderMessage := redact_order <$> OrderMessage p;
    SendPayment := match SendPayment p with
                   | Some s => Some {| sp_note := match sp_note s with Some n => Some (redact n) | None => None end; sp_transaction := "" |}
                   | None => None
                   end;
    RequestPayment := match RequestPayment p with
                      | Some r => Some {| rp_note := match rp_note r with Some n => Some (redact n) | None => None end;
                                          rp_amount1000 := rp_amount1000 r; rp_currency := rp_currency r; rp_amount := rp_amount r |}
                      | None => None
                      end;
    ListResponse := ListResponse p; InteractiveResponse := InteractiveResponse p; TemplateMessage := redact_template <$> TemplateMessage p;
    ButtonsMessage := (λ b, {| b_content := b_content b; b_text := b_text b; b_header := redact_header (b_header b); b_ctx := None |}) <$> ButtonsMessage p;
    InteractiveMessage := (λ i, {| ia_text := ia_text i; ia_header := redact_header (ia_header i); ia_ctx := None |}) <$> InteractiveMessage p;
    ListMessage := ListMessage p; ButtonsResponse := ButtonsResponse p; TemplateButtonReply := TemplateButtonReply p;
    PollCreations := PollCreations p; Protocol := None; Reaction := None; HasPollUpdate := false; HistoryShare := None; ViewOnce := [] |}.

Lemma template_text_redact {M} (t : template M) : template_text (redact_template t) = template_text t.
Proof. unfold template_text, redact_template. cbn. by destruct (t_hydrated t), (t_hydrated_four t), (t_interactive t). Qed.

(** The captions of the headers are kept. *)
Definition header_caption {M} (h : header M) : string := match h_document h with Some d => p_caption d | None => "" end.

Lemma header_caption_redact {M} (h : header M) : header_caption (redact_header h) = header_caption h.
Proof. unfold header_caption, redact_header. cbn. by destruct (h_document h). Qed.

Lemma captions_redact m :
  header_caption <$> messageMediaHeaders (parts_of (redact m)) = header_caption <$> messageMediaHeaders (parts_of m).
Proof.
  destruct m as [p]. unfold messageMediaHeaders. cbn.
  destruct (TemplateMessage p) as [t|], (ButtonsMessage p) as [b|], (InteractiveMessage p) as [i|]; cbn;
    try destruct (t_hydrated t); try destruct (t_hydrated_four t); try destruct (t_interactive t); cbn;
    by rewrite ?header_caption_redact.
Qed.

Lemma structured_redact m : structured_text (parts_of (redact m)) = structured_text (parts_of m).
Proof.
  unfold structured_text. pose proof (captions_redact m) as Hc. unfold header_caption in Hc. rewrite Hc. clear Hc. destruct m as [p].
  cbn [parts_of redact TemplateMessage ButtonsMessage InteractiveMessage ListMessage ButtonsResponse TemplateButtonReply].
  assert ((redact_template <$> TemplateMessage p) ≫= template_text = TemplateMessage p ≫= template_text) as ->.
  { destruct (TemplateMessage p) as [t|]; [apply template_text_redact|done]. }
  by destruct (ButtonsMessage p), (InteractiveMessage p).
Qed.

End Redact.

(** Tokens, keys and payment data never reach the archived text.  The text
    extracted from a message is the same when its invitation code, its order token,
    its payment data, its media keys, locators and hashes and every thumbnail are
    taken out of it, also inside the notes of payments. *)
Theorem text_without_secrets `{Floats} (m : Message) : extractTextContent (redact m) = extractTextContent m.
Proof.
  revert m. fix IH 1. intros [p]. pose proof (structured_redact (Msg p)) as Hs.
  cbn [redact parts_of extractTextContent] in *. cbn [Conversation ExtendedText ImageMessage DocumentMessage ContactMessage ContactsArray LocationMessage
    LiveLocation EventMessage GroupInvite ProductMessage OrderMessage SendPayment RequestPayment ListResponse InteractiveResponse].
  destruct (negb _); [done|]. destruct (ExtendedText p); [done|]. destruct (ImageMessage p); [done|]. cbn [fmap option_fmap option_map].
  unfold videoMessageOf at 1. cbn [VideoMessage PtvMessage].
  destruct (VideoMessage p) eqn:Hv; [unfold videoMessageOf; by rewrite Hv|]. destruct (PtvMessage p) eqn:Hp; [unfold videoMessageOf; by rewrite Hv, Hp|].
  unfold videoMessageOf at 1. rewrite Hv, Hp. cbn [fmap option_fmap option_map].
  destruct (DocumentMessage p); [done|]. cbn [fmap option_fmap option_map].
  replace (l ← redact_location <$> LocationMessage p; nonempty (formatLocationContent l)) with (l ← LocationMessage p; nonempty (formatLocationContent l))
    by (by destruct (LocationMessage p)).
  replace (l ← redact_live <$> LiveLocation p; nonempty (formatLiveLocationContent l)) with (l ← LiveLocation p; nonempty (formatLiveLocationContent l))
    by (by destruct (LiveLocation p)).
  destruct (first_some _); [done|]. destruct (EventMessage p); [done|]. destruct (GroupInvite p); [done|]. destruct (ProductMessage p); [done|].
  destruct (OrderMessage p); [done|]. cbn [fmap option_fmap option_map].
  destruct (SendPayment p) as [s|]; [cbn [sp_note]; destruct (sp_note s) as [n|]; [by rewrite (IH n)|done]|].
  destruct (RequestPayment p) as [r|]; [unfold requested_amount; cbn [rp_note rp_amount1000 rp_amount rp_currency]; destruct (rp_note r) as [n|]; [by rewrite (IH n)|done]|].
  destruct (ListResponse p); [done|]. destruct (InteractiveResponse p); [done|]. exact Hs.
Qed.

(** ** Amounts *)

(** The number digits stand for. *)
Definition value (l : list Z) : Z := foldl (λ a d, a * 10 + d) 0 l.

(** The thousandths a printed amount stands for. *)
Definition amount_value (x : bool * list Z * list Z) : Z :=
  let '(neg, whole, fraction) := x in
  let v := value whole * 1000 + value fraction * 10 ^ (3 - Z.of_nat (length fraction)) in if neg : bool then - v else v.

Lemma value_app a b : value (a ++ b) = value a * 10 ^ Z.of_nat (length b) + value b.
Proof.
  unfold value. rewrite foldl_app. generalize (foldl (λ a d, a * 10 + d) 0 a) as x. clear a. induction b as [|d b IH] using rev_ind; intros x; [cbn; lia|].
  rewrite !foldl_app, length_app, IH. cbn [foldl length]. rewrite Nat2Z.inj_add, Z.pow_add_r by lia. change (Z.of_nat 1) with 1. lia.
Qed.

Lemma value_zeros k l : value (replicate k 0 ++ l) = value l.
Proof. rewrite value_app. assert (value (replicate k 0) = 0) as ->; [|lia]. unfold value. induction k; [done|]. done. Qed.

Lemma digits_value fuel n : 0 ≤ n < 10 ^ Z.of_nat fuel → value (digits_of fuel n) = n.
Proof.
  revert n. induction fuel as [|f IH]; intros n Hn; [cbn in *; lia|]. cbn [digits_of]. destruct (Z.ltb_spec n 10); [cbn; lia|].
  rewrite value_app, IH; [cbn [length value foldl]; change (10 ^ Z.of_nat 1) with 10; pose proof (Z.div_mod n 10); lia|].
  rewrite Nat2Z.inj_succ, Z.pow_succ_r in Hn by lia. split; [apply Z.div_pos; lia|apply Z.div_lt_upper_bound; lia].
Qed.

Lemma digits_range fuel n : 0 ≤ n → Forall (λ d, 0 ≤ d ≤ 9) (digits_of fuel n).
Proof.
  revert n. induction fuel as [|f IH]; intros n Hn; [constructor|]. cbn [digits_of]. destruct (Z.ltb_spec n 10); [repeat constructor; lia|].
  apply Forall_app. split; [apply IH, Z.div_pos; lia|repeat constructor; pose proof (Z.mod_pos_bound n 10); lia].
Qed.

(** Amounts are printed exactly.  Every 64-bit count of thousandths, signed or
    unsigned, the extreme values included, prints as digits that stand for that
    count: at least one digit before the point, two or three after it, and a minus
    sign exactly for a negative amount. *)
Theorem amount_exact (n : Z) (Hn : - 2 ^ 63 ≤ n ≤ max_uint64) :
  amount_value (amount_digits n) = n ∧
  let '(neg, whole, fraction) := amount_digits n in
  neg = (n <? 0) ∧ Forall (λ d, 0 ≤ d ≤ 9) (whole ++ fraction) ∧ whole ≠ [] ∧ (length fraction = 2%nat ∨ length fraction = 3%nat).
Proof.
  unfold amount_digits, format_int. set (ds := digits_of 20 (Z.abs n)). set (pad := replicate (4 - length ds) 0 ++ ds). set (k := (length pad - 3)%nat).
  assert (4 ≤ length pad)%nat as Hlen by (unfold pad; rewrite length_app, length_replicate; lia).
  assert (value pad = Z.abs n) as Hv.
  { unfold pad, ds. rewrite value_zeros. apply digits_value. unfold max_uint64 in *. change (10 ^ Z.of_nat 20) with (10 ^ 20). lia. }
  assert (Forall (λ d, 0 ≤ d ≤ 9) pad) as Hr.
  { unfold pad. apply Forall_app. split; [apply Forall_replicate; lia|apply digits_range; lia]. }
  set (whole := take k pad). set (frac := drop k pad). assert (pad = whole ++ frac) as Hsplit by (symmetry; apply take_drop).
  assert (length frac = 3%nat) as Hf by (unfold frac; rewrite length_drop; unfold k; lia).
  assert (whole ≠ []) as Hw by (intros E; apply (f_equal length) in E; unfold whole in E; rewrite length_take in E; change (length (@nil Z)) with O in E; unfold k in E; lia).
  destruct frac as [|a [|b [|c [|? ?]]]]; try done. clear Hf. rewrite Hsplit in Hr, Hv. rewrite value_app in Hv.
  apply Forall_app in Hr as [Hrw Hrf]. cbn [lookup list_lookup take length] in *.
  assert (value [a; b; c] = 100 * a + 10 * b + c) as E3 by (cbn; lia). assert (value [a; b] = 10 * a + b) as E2 by (cbn; lia).
  rewrite E3 in Hv. change (Z.of_nat 3) with 3 in Hv. change (10 ^ 3) with 1000 in Hv.
  case_bool_decide as Hc.
  - injection Hc as ->. split.
    + unfold amount_value. cbn [length]. rewrite E2. change (10 ^ (3 - Z.of_nat 2)) with 10. destruct (Z.ltb_spec n 0); lia.
    + split; [done|]. split; [|split; [done|by left]]. apply Forall_app. split; [done|exact (Forall_take _ 2 _ Hrf)].
  - split.
    + unfold amount_value. cbn [length]. rewrite E3. change (10 ^ (3 - Z.of_nat 3)) with 1. destruct (Z.ltb_spec n 0); lia.
    + split; [done|]. split; [by apply Forall_app|]. split; [done|by right].
Qed.

Lemma amount_exact_witness : amount_digits (- 2 ^ 63) = (true, [9;2;2;3;3;7;2;0;3;6;8;5;4;7;7;5], [8;0;8]) ∧
  amount_value (amount_digits (- 2 ^ 63)) = - 2 ^ 63.
Proof. split; [vm_compute; reflexivity|]. refine (proj1 (amount_exact (- 2 ^ 63) _)). unfold max_uint64. lia. Defined.
