(* ===== verification/Inbound.v ===== *)
(** * Live messages ([events.go], [persist.go], [store_failures.go], [webhook.go])

    What one message event does: the chat and the sender it is filed under, the
    time it was really sent, the rows it writes with their retries, and what leaves
    the bridge because of it (webhooks, runtime events, downloads).  The outcome of
    a write, of a download and of decrypting a vote are arguments; the aliases of
    pending edits are [PendingEdits]. *)
From S2P Require Import Prelude Jid Http ChatPolicy Config StoreTime Archive Messages MarkRead MediaNames Webhook Polls Content.
#[local] Open Scope Z_scope.

(** ** Retried writes *)

(** An attempt: written, the database is busy, or another failure. *)
Inductive attempt : Type := Written | BusyDatabase | WriteFailed.

(** [retryBusyWithWait]: attempt 0, and one more after each delay while the
    database is busy and the wait was not cut short; the attempts made. *)
Fixpoint retry_rest (delays : nat) (k : nat) (last : attempt) (try_ : nat → attempt) (wait : nat → bool) : attempt * nat :=
  match delays with
  | O => (last, k)
  | S d => match last with
           | BusyDatabase => if wait k then retry_rest d (S k) (try_ k) try_ wait else (last, k)
           | _ => (last, k)
           end
  end.

Definition retryBusyWithWait (delays : nat) (try_ : nat → attempt) (wait : nat → bool) : attempt * nat := retry_rest delays 1 (try_ 0%nat) try_ wait.

(** [storeLive]. *)
Definition storeLive (delays : nat) (try_ : nat → attempt) (wait : nat → bool) : bool :=
  match (retryBusyWithWait delays try_ wait).1 with Written => true | _ => false end.

(** ** The time a message was sent *)

(** [originalTimestamps]. *)
Abbreviation times := (gmap string Z).

Fixpoint drop_down_to (cap : nat) (order : list string) (o : times) : times :=
  match order with
  | [] => o
  | k :: rest => let o := delete k o in if (size o <=? cap)%nat then o else drop_down_to cap rest o
  end.

(** [remember]; [order] is the order in which the map is walked. *)
Definition remember (id : string) (ts : option Z) (order : list string) (o : times) : times :=
  match ts with
  | None => o
  | Some t =>
      if String.eqb id "" then o
      else
        let o := match o !! id with Some e => if t <? e then <[id := t]> o else o | None => <[id := t]> o end in
        if (5000 <? size o)%nat then drop_down_to 4000 order o else o
  end.

(** [take]. *)
Definition take_time (id : string) (o : times) : times * option Z := match o !! id with Some t => (delete id o, Some t) | None => (o, None) end.

Section Inbound.
Context `{JidOps} `{Sqlite} `{Floats}.

(** The SDK's unwrapping, JSON numbers, the encoded presentation and location. *)
Context (unwrap : Message → option Message * bool) (num : float → jval) (int : Z → jval) (presentation : Message → option string)
  (marshal : messageLocation → string) (clock : Z → string).

Definition extract (raw : option Message) (ts : Z) (id : string) : extracted := extractMessage unwrap num int raw (clock ts) id.

(** ** Persistence *)

Record store := { s_chats : Chats.chats; s_rows : messages; s_polls : tables }.

(** [storedMessageSnapshot]; [declared] is [hasLength] with the length. *)
Definition storedMessageSnapshot (id chatJID snd : string) (ts : Z) (fromMe : bool) (e : extracted) (declared : option Z) (retryChat retrySender : string)
    (quoted : bool) : storedMessage :=
  let part f := match x_media e with Some x => f x | None => "" end in
  {| Messages.ID := id; Messages.ChatJID := chatJID; Messages.Sender := snd; Messages.Content := x_content e; Messages.Timestamp := ts;
     Messages.IsFromMe := fromMe; Messages.MediaType := x_media_type e; Messages.Filename := x_filename e; Messages.URL := part p_url;
     Messages.MediaKey := nullif_empty (part p_key); Messages.FileSHA256 := nullif_empty (part p_sha256);
     Messages.FileEncSHA256 := nullif_empty (part p_enc_sha256); Messages.FileLength := declared ≫= storedMediaLength;
     Messages.QuotedMessageID := if quoted then (x_quoted e).1.1 else ""; Messages.DirectPath := part p_direct_path;
     Messages.Presentation := inner e ≫= presentation; Messages.Location := marshal <$> x_location e;
     Messages.RetryChat := retryChat; Messages.RetrySender := retrySender; Messages.Mentions := mentionsColumn (x_mentions e) |}.

(** [applyMessageEditWith]: the edit of a stored target; what waits for a target
    that is not stored yet is the table of [PendingEdits]. *)
Definition apply_edit (chatJID snd : string) (fromMe : bool) (p : protocol Message) (ts : Z) (t : messages) : messages :=
  match pr_key p, pr_edited p with
  | Some target, Some m =>
      if String.eqb target "" then t
      else
        let replacement := extract (Some m) ts target in
        apply_incoming_edit (target, chatJID) snd fromMe (x_content replacement) (mentionsColumn (x_mentions replacement))
          (if pr_timestamp_ms p <=? 0 then ts / 10 ^ 6 else pr_timestamp_ms p) t
  | _, _ => t
  end.

(** [persistMessageResult]: one transaction, a history replay or not; whether the
    event was consumed by a row that already stands. *)
Definition persistMessageResult (history : bool) (id chatJID snd : string) (ts : Z) (fromMe : bool) (e : extracted) (declared : option Z) (retryChat retrySender : string)
    (quoted : bool) (s : store) : store * bool :=
  match x_edit e with
  | Some p => ({| s_chats := s_chats s; s_rows := apply_edit chatJID snd fromMe p ts (s_rows s); s_polls := s_polls s |}, true)
  | None =>
      let '(consumed, t) := updateLiveLocationWith marshal (id, chatJID) snd fromMe (x_location e) (s_rows s) in
      if consumed then ({| s_chats := s_chats s; s_rows := t; s_polls := s_polls s |}, true)
      else
        let t := StoreMessage history (storedMessageSnapshot id chatJID snd ts fromMe e declared retryChat retrySender quoted) t in
        let t := if viewOnce e then markViewOnceWith (id, chatJID) t else t in
        let polls := match x_poll e with Some p => storePollWith id chatJID p (stamp ts) (s_polls s) | None => s_polls s end in
        ({| s_chats := s_chats s; s_rows := t; s_polls := polls |}, false)
  end.

(** A reaction or a vote: a row that names the message it is about. *)
Definition pointer_row (type content target : string) : extracted :=
  {| inner := None; viewOnce := false; x_content := content; x_media_type := type; x_filename := target; x_media := None; x_poll := None; x_location := None;
     x_quoted := ("", "", ""); x_mentions := []; x_edit := None |}.

Definition persist_pointer (type content target id chatJID snd : string) (ts : Z) (fromMe : bool) (s : store) : store * bool :=
  let '(s', consumed) := persistMessageResult false id chatJID snd ts fromMe (pointer_row type content target) (Some 0) "" "" false s in
  if consumed then (s', true)
  else ({| s_chats := s_chats s'; s_rows := setTargetMessageIDWith (id, chatJID) target (s_rows s'); s_polls := s_polls s' |}, false).

(** ** One event *)

Record message_event := {
  ev_id : string; ev_chat : JID; ev_sender : JID; ev_sender_alt : JID; ev_recipient_alt : JID; ev_from_me : bool; ev_push : string; ev_time : Z;
  ev_message : Message; ev_raw : option Message; ev_once : bool;
}.

(** What leaves the bridge; [stored] is what the receiver is told. *)
Inductive effect : Type :=
| LegacyReaction (target : string) (stored : bool)
| LegacyText (text : string) (stored : bool)
| LegacyImage (text : string) (bytes : bool) (stored : bool)
| RuntimeEvent (type : string) (stored : bool)
| QueueDownload
| DownloadNow.

(** The outcome of the synchronous download of an image: with its bytes for the
    payload or not, a file that cannot come, one over the cap or over the quota,
    or another failure. *)
Inductive image_result : Type := ImageOk (bytes : bool) | ImageFinal | ImageTooLarge | ImageQuota | ImageFailed.

Record settings := {
  client : lid_store; own_id : option JID; webhook_on : bool; deployment : Filters.filters; receiver : option Filters.filters; policy : chatPolicy; search_fuel : nat;
  auto_download : bool; caches_kind : string → bool; status_media : bool; max_bytes : Z; s3_backend : bool; retry_delays : nat;
}.

(** What the world does with one event: the name of the chat, the attempts at its
    row, whether the chat row stands after a row was given up and whether that row
    was found consumed before its transaction failed, the other writes, the decoded
    vote ([None]: no vote, [Some None]: a vote that gives no row), the author a live
    location is checked against, the image, and the bytes an S3 cache already has. *)
Record outcomes := {
  chat_name : string; row_attempts : nat → attempt; wait : nat → bool; chat_left : bool; consumed_unwritten : bool; time_written : bool;
  revoke_written : bool; setting_written : bool; backfill_written : bool;
  vote : option (option (string * string)); location_sender : option string; image : image_result; s3_bytes : bool;
}.

Definition row_written (c : settings) (o : outcomes) : bool := storeLive (retry_delays c) (row_attempts o) (wait o).

Definition set_chats (c : Chats.chats) (s : store) : store := {| s_chats := c; s_rows := s_rows s; s_polls := s_polls s |}.

(** [storeRow]: the chat, the row, and the chat's last message time once the row is in. *)
Definition storeRow (c : settings) (o : outcomes) (chatJID name : string) (ts : Z) (write : store → store * bool) (s : store) : store * bool * bool :=
  if negb (row_written c o)
  then (if chat_left o then set_chats (Chats.storeChatWith chatJID name None (s_chats s)) s else s, false, consumed_unwritten o)
  else
    let '(s', consumed) := write (set_chats (Chats.storeChatWith chatJID name None (s_chats s)) s) in
    if consumed then (s', true, true)
    else (if time_written o then set_chats (Chats.storeChatWith chatJID "" (Some ts) (s_chats s')) s' else s', true, false).

(** The chat name: a push name stands in for a bare number in a direct chat. *)
Definition named (o : outcomes) (e : message_event) (resolved : JID) : string :=
  let push := trim_space (ev_push e) in
  if negb (ev_from_me e) && negb (String.eqb (Server (ev_chat e)) GroupServer) && negb (String.eqb push "")
     && (String.eqb (chat_name o) "" || String.eqb (chat_name o) (User (ev_chat e)) || String.eqb (chat_name o) (User resolved))
  then push else chat_name o.

(** [updateChatEphemeralSettingsFromProtocolMessage] and the backfill. *)
Definition ephemeral (o : outcomes) (chatJID : string) (e : message_event) (m : Message) (c : Chats.chats) : Chats.chats :=
  let c := match Protocol (parts_of m) with
           | Some p => match pr_type p with
                       | EPHEMERAL_SETTING => if negb (setting_written o) then c else Chats.UpdateChatEphemeralSettings chatJID (pr_expiration p)
                                                (if pr_setting_timestamp p =? 0 then stamp (ev_time e) else pr_setting_timestamp p) c
                       | _ => c
                       end
           | None => c
           end in
  let '(expiration, at_) := extractChatEphemeralFromMessage (parts_of m) in
  if (at_ =? 0) || negb (backfill_written o) then c else Chats.UpdateChatEphemeralSettings chatJID expiration at_ c.

(** [handleMessageRevoke]. *)
Definition revoke (o : outcomes) (chatJID : string) (e : message_event) (m : Message) (t : messages) : messages :=
  match Protocol (parts_of m) with
  | Some p => match pr_type p, pr_key p with
              | REVOKE, Some target => if String.eqb target "" || negb (revoke_written o) then t
                                       else MarkMessageDeleted (target, chatJID) (stamp (ev_time e) * 10 ^ 9) t
              | _, _ => t
              end
  | None => t
  end.

(** The media decision: whether the file is wanted, and cached on arrival. *)
Definition downloadable (chatJID : string) (stored : bool) (x : extracted) : bool :=
  let part f := match x_media x with Some y => f y | None => "" end in
  stored && mediaComplete chatJID (part p_url) (part p_direct_path) (nullif_empty (part p_key)) (nullif_empty (part p_sha256)) (nullif_empty (part p_enc_sha256)).

(** [mediaLengthDeclared] and the length. *)
Definition declared_length (x : extracted) : option Z := match x_media x with Some y => p_length y | None => None end.

Definition cacheOnArrival (c : settings) (resolved : JID) (chatJID : string) (stored : bool) (x : extracted) : bool :=
  let wanted := negb (String.eqb (x_media_type x) "") && downloadable chatJID stored x && auto_download c && caches_kind c (x_media_type x) in
  let skipStatus := Filters.isStatusChat resolved && negb (auto_download c && status_media c) in
  wanted && negb skipStatus && negb ((0 <? max_bytes c) && bool_decide (declared_length x = None))
  && negb ((0 <? max_bytes c) && (max_bytes c <? default 0 (declared_length x))).

(** Whether the payload of a cached image carries its bytes. *)
Definition image_bytes (c : settings) (o : outcomes) : bool :=
  if s3_backend c then s3_bytes o else match image o with ImageOk b => b | _ => false end.

(** [messageWebhookAllowed] as [handleMessage] calls it: the resolved chat, and the
    one the event names as its original. *)
Definition webhook_allowed (c : settings) (e : message_event) (resolved : JID) : bool * bool :=
  Filters.messageWebhookAllowed (search_fuel c) (webhook_on c) (deployment c) (receiver c) (policy c) (client c) resolved (ev_from_me e) [ev_chat e].

(** What the message sends out once its row was tried. *)
Definition outgoing (c : settings) (o : outcomes) (e : message_event) (resolved : JID) (chatJID : string) (stored : bool) (x : extracted) : list effect :=
  let '(legacy, runtime) := webhook_allowed c e resolved in
  let bare := match inner x with Some i => bareContentEnvelope (parts_of i) (x_content x) | None => false end in
  let forward := legacy && negb bare in
  let is_image := String.eqb (x_media_type x) "image" in
  let cache := cacheOnArrival c resolved chatJID stored x in
  (if runtime && negb bare then [RuntimeEvent (x_media_type x) stored] else [])
  ++ (if cache && is_image && forward && s3_backend c then [QueueDownload]
      else if cache && is_image && forward
      then DownloadNow :: (match image o with ImageFailed => [QueueDownload] | _ => [] end)
      else if cache then [QueueDownload] else [])
  ++ (if forward && (negb (String.eqb (x_content x) "") || is_image)
      then [if is_image then LegacyImage (x_content x) (cache && image_bytes c o) stored else LegacyText (x_content x) stored]
      else []).

(** The extracted message of the event: the raw form for an edit, else the message;
    the view-once flag of the event counts. *)
Definition extracted_of (e : message_event) (ts : Z) : extracted :=
  let original := match ev_raw e with
                  | Some r => if bool_decide (is_Some (x_edit (extract (Some r) (ev_time e) (ev_id e)))) then r else ev_message e
                  | None => ev_message e
                  end in
  let x := extract (Some original) ts (ev_id e) in
  if ev_once e && negb (viewOnce x)
  then {| inner := inner x; viewOnce := true; x_content := viewOnceContent (x_content x) (x_media_type x); x_media_type := x_media_type x;
          x_filename := x_filename x; x_media := x_media x; x_poll := x_poll x; x_location := x_location x; x_quoted := x_quoted x;
          x_mentions := x_mentions x; x_edit := x_edit x |}
  else x.

Definition is_live_location (x : extracted) : bool := match x_location x with Some l => Live l | None => false end.

(** The chat the event is filed under and the time its message was sent. *)
Definition resolved_chat (c : settings) (e : message_event) : JID :=
  resolveLIDChatContext (client c) (ev_chat e) (ev_sender_alt e) (ev_recipient_alt e) (ev_from_me e).

Definition sent_time (e : message_event) (o : times) : Z :=
  match o !! ev_id e with Some t => if t <? ev_time e then t else ev_time e | None => ev_time e end.

(** The part of [handleMessage] after the settings and the revocation: a vote, a
    reaction, or a message with content. *)
Definition deliver (c : settings) (o : outcomes) (e : message_event) (ts : Z) (s : store) : store * list effect :=
  let m := (unwrapViewOnce (ev_message e)).1 in
  let resolved := resolved_chat c e in
  let chatJID := JIDString resolved in
  let author := storedSender (resolveUserJIDContext (client c) (ev_sender e) (senderAltForMessage (own_id c) (ev_from_me e) (ev_sender_alt e))) in
  let name := named o e resolved in
  match vote o with
  | Some None => (s, [])
  | Some (Some (pollID, content)) =>
      ((storeRow c o chatJID name ts (persist_pointer "poll_vote" content pollID (ev_id e) chatJID author ts (ev_from_me e)) s).1.1, [])
  | None =>
      match Reaction (parts_of m) with
      | Some (key, emoji) =>
          let target := default "" key in
          if String.eqb target "" then (s, [])
          else
            let '(s, stored, consumed) := storeRow c o chatJID name ts (persist_pointer "reaction" emoji target (ev_id e) chatJID author ts (ev_from_me e)) s in
            if consumed then (s, [])
            else let '(legacy, runtime) := webhook_allowed c e resolved in
                 (s, (if runtime then [RuntimeEvent "reaction" stored] else []) ++ (if legacy then [LegacyReaction target stored] else []))
      | None =>
          let x := extracted_of e ts in
          if is_empty x then (s, [])
          else
            let by_location := bool_decide (is_Some (x_edit x)) || is_live_location x in
            let author := if by_location then default author (location_sender o) else author in
            let write := persistMessageResult false (ev_id e) chatJID author ts (ev_from_me e) x (declared_length x) (JIDString (ev_chat e)) (JIDString (ToNonAD (ev_sender e))) true in
            if bool_decide (is_Some (x_edit x)) then (if row_written c o then (write s).1 else s, [])
            else
              let '(s, stored, consumed) := storeRow c o chatJID name ts write s in
              if consumed || (negb stored && is_live_location x) then (s, [])
              else (s, outgoing c o e resolved chatJID stored x)
      end
  end.

(** What an event does to the settings of its chat and to a message it retracts. *)
Definition prepared (c : settings) (o : outcomes) (e : message_event) (s : store) : store :=
  let m := (unwrapViewOnce (ev_message e)).1 in
  let chatJID := JIDString (resolved_chat c e) in
  {| s_chats := ephemeral o chatJID e m (s_chats s); s_rows := revoke o chatJID e m (s_rows s); s_polls := s_polls s |}.

(** [handleMessage]; the roster note is [Groups], a shared history is [Queues]. *)
Definition handleMessage (c : settings) (o : outcomes) (e : message_event) (st : store * times) : store * times * list effect :=
  let '(s, orig) := st in
  let '(s', effects) := deliver c o e (sent_time e orig) (prepared c o e s) in
  (s', (take_time (ev_id e) orig).1, effects).

(** ** What the effects of a message rest on *)

Definition row_key (c : settings) (e : message_event) : key := (ev_id e, JIDString (resolved_chat c e)).

(** What a receiver is told of the row. *)
Definition told (c : settings) (o : outcomes) (k : key) (s : store) (stored : bool) : Prop :=
  if stored then is_Some (s_rows s !! k) else row_written c o = false.

Definition may_download (c : settings) (e : message_event) (s : store) (x : extracted) : Prop :=
  is_Some (s_rows s !! row_key c e) ∧ auto_download c = true ∧ caches_kind c (x_media_type x) = true ∧
  (Filters.isStatusChat (resolved_chat c e) = true → status_media c = true) ∧
  (0 < max_bytes c → ∃ n, declared_length x = Some n ∧ n ≤ max_bytes c).

(** Some known spelling of the chat, or of the chat as the event names it, is permitted. *)
Definition permitted (c : settings) (e : message_event) : Prop := Filters.known_permitted (policy c) (client c) [resolved_chat c e; ev_chat e].

Definition justified (c : settings) (o : outcomes) (e : message_event) (s : store) (x : extracted) (f : effect) : Prop :=
  let legacy := webhook_on c = true ∧ Filters.allows (deployment c) (resolved_chat c e) (ev_from_me e) = true ∧ permitted c e in
  match f with
  | LegacyReaction _ st | LegacyText _ st => legacy ∧ told c o (row_key c e) s st
  | LegacyImage _ bytes st => legacy ∧ told c o (row_key c e) s st ∧ (bytes = true → may_download c e s x)
  | RuntimeEvent _ st => (∃ f, receiver c = Some f ∧ Filters.allows f (resolved_chat c e) (ev_from_me e) = true) ∧ permitted c e
                         ∧ told c o (row_key c e) s st
  | QueueDownload | DownloadNow => may_download c e s x
  end.

Lemma allowed_legacy c e legacy runtime :
  webhook_allowed c e (resolved_chat c e) = (legacy, runtime) →
  (legacy = true → webhook_on c = true ∧ Filters.allows (deployment c) (resolved_chat c e) (ev_from_me e) = true ∧ permitted c e) ∧
  (runtime = true → (∃ f, receiver c = Some f ∧ Filters.allows f (resolved_chat c e) (ev_from_me e) = true) ∧ permitted c e).
Proof.
  unfold webhook_allowed, Filters.messageWebhookAllowed. case_bool_decide as Hi.
  - apply Filters.webhookIdentity_permitted in Hi. rewrite andb_false_r. intros [= <- <-].
    split; [intros [??]%andb_true_iff; done|]. destruct (receiver c); [eauto|done].
  - rewrite andb_true_r. destruct (_ || _) eqn:Eo; [by intros [= <- <-]|]. apply orb_false_iff in Eo as [-> ->]. by intros [= <- <-].
Qed.

Lemma cache_may c o e s x stored :
  told c o (row_key c e) s stored → cacheOnArrival c (resolved_chat c e) (JIDString (resolved_chat c e)) stored x = true → may_download c e s x.
Proof.
  unfold cacheOnArrival, downloadable. intros Ht. rewrite !andb_true_iff, !negb_true_iff.
  intros [[[[[[_ [-> _]] Ha] Hk] Hs] Hl] Hm]. repeat split; [done|done|done| |].
  - intros Hst. rewrite Hst, Ha in Hs. cbn in Hs. by destruct (status_media c).
  - intros Hb. apply Z.ltb_lt in Hb. rewrite Hb in Hl, Hm. cbn [andb] in Hl, Hm.
    destruct (declared_length x) as [n|]; [|by rewrite bool_decide_true in Hl]. exists n. split; [done|].
    apply Z.ltb_ge in Hm. exact Hm.
Qed.

Lemma outgoing_justified c o e s x stored :
  told c o (row_key c e) s stored →
  Forall (justified c o e s x) (outgoing c o e (resolved_chat c e) (JIDString (resolved_chat c e)) stored x).
Proof.
  intros Ht. unfold outgoing.
  destruct (webhook_allowed _ _ _) as [legacy runtime] eqn:Ea.
  destruct (allowed_legacy _ _ _ _ Ea) as [Hl Hr].
  set (bare := match inner x with Some i => _ | None => false end).
  pose proof (cache_may c o e s x stored Ht) as Hc.
  destruct (cacheOnArrival _ _ _ _ _); [specialize (Hc eq_refl)|clear Hc].
  all: (destruct legacy; [specialize (Hl eq_refl)|clear Hl]); (destruct runtime; [destruct (Hr eq_refl) as [Hr' Hi]|clear Hr]).
  all: destruct bare; cbn [andb negb app]; destruct (String.eqb (x_media_type x) "image"); cbn [andb];
    try destruct (s3_backend c); cbn [andb]; try destruct (image o); try destruct (String.eqb (x_content x) ""); cbn [andb orb negb app].
  all: repeat apply Forall_cons_2; try apply Forall_nil_2; cbn [justified]; auto.
  all: split; [exact Hl|split; [exact Ht|]]; intros; solve [assumption|discriminate].
Qed.

Lemma alter_is_Some (f : message_row → message_row) (t : messages) (k k' : key) : is_Some (t !! k) → is_Some (alter f k' t !! k).
Proof.
  intros [r Hr]. destruct (decide (k' = k)) as [->|Hk]; [rewrite lookup_alter_eq, Hr|rewrite lookup_alter_ne, Hr by done]; eauto.
Qed.

Lemma not_empty x : is_empty x = false → bool_decide (is_Some (x_edit x)) = false → x_content x ≠ "" ∨ x_media_type x ≠ "".
Proof.
  unfold is_empty. intros He Hedit%bool_decide_eq_false. rewrite bool_decide_true in He by (by apply eq_None_not_Some).
  destruct (String.eqb_spec (x_content x) ""); [|by left]. destruct (String.eqb_spec (x_media_type x) ""); [done|by right].
Qed.

(** A row that is not consumed is in the table. *)
Lemma persist_row history id chatJID snd ts fromMe x declared rc rs quoted s s' :
  x_content x ≠ "" ∨ x_media_type x ≠ "" →
  persistMessageResult history id chatJID snd ts fromMe x declared rc rs quoted s = (s', false) → is_Some (s_rows s' !! (id, chatJID)).
Proof.
  intros Hx. unfold persistMessageResult. destruct (x_edit x); [done|].
  destruct (updateLiveLocationWith _ _ _ _ _ _) as [[] t]; [done|]. intros [= <-]. cbn [s_rows].
  assert (Hrow : is_Some (StoreMessage history (storedMessageSnapshot id chatJID snd ts fromMe x declared rc rs quoted) t !! (id, chatJID))).
  { unfold StoreMessage. cbn [Messages.Content Messages.MediaType storedMessageSnapshot].
    destruct (String.eqb_spec (x_content x) ""), (String.eqb_spec (x_media_type x) ""); [naive_solver|..];
      cbn [andb]; unfold insertMessage; cbn [Messages.ID Messages.ChatJID storedMessageSnapshot]; rewrite lookup_insert_eq; eauto. }
  destruct (viewOnce x); [by apply alter_is_Some|done].
Qed.

Lemma pointer_row_stored type content target id chatJID snd ts fromMe s s' :
  type ≠ "" → persist_pointer type content target id chatJID snd ts fromMe s = (s', false) → is_Some (s_rows s' !! (id, chatJID)).
Proof.
  intros Ht. unfold persist_pointer.
  destruct (persistMessageResult _ _ _ _ _ _ _ _ _ _ _ _) as [s1 []] eqn:E; [done|].
  intros [= <-]. apply alter_is_Some. eapply persist_row, E. by right.
Qed.

Lemma storeRow_told c o chatJID name ts write s s' stored k :
  (∀ s0 s1, write s0 = (s1, false) → is_Some (s_rows s1 !! k)) →
  storeRow c o chatJID name ts write s = (s', stored, false) → told c o k s' stored.
Proof.
  intros Hw. unfold storeRow. destruct (row_written c o) eqn:Hr; cbn [negb].
  - destruct (write _) as [s1 []] eqn:E; [done|]. intros [= <- <-]. cbn [told]. apply Hw in E. by destruct (time_written o).
  - intros [= <- <- _]. exact Hr.
Qed.

Lemma deliver_justified c o e ts s : Forall (justified c o e (deliver c o e ts s).1 (extracted_of e ts)) (deliver c o e ts s).2.
Proof.
  unfold deliver. destruct (vote o) as [[[pollID content]|]|]; [apply Forall_nil_2..|].
  destruct (Reaction _) as [[key emoji]|].
  - destruct (String.eqb (default "" key) ""); [apply Forall_nil_2|].
    destruct (storeRow _ _ _ _ _ _ _) as [[s1 stored] []] eqn:Es; [apply Forall_nil_2|].
    apply (storeRow_told _ _ _ _ _ _ _ _ _ (row_key c e)) in Es; [|intros ??; by apply pointer_row_stored].
    destruct (webhook_allowed _ _ _) as [legacy runtime] eqn:Ea.
    destruct (allowed_legacy _ _ _ _ Ea) as [Hl Hr]. cbn [fst snd].
    destruct legacy, runtime; cbn [app]; repeat apply Forall_cons_2; try apply Forall_nil_2; cbn [justified]; naive_solver.
  - destruct (is_empty _) eqn:He; [apply Forall_nil_2|].
    destruct (bool_decide (is_Some (x_edit _))) eqn:Hedit; [apply Forall_nil_2|].
    destruct (storeRow _ _ _ _ _ _ _) as [[s1 stored] consumed] eqn:Es.
    destruct consumed; [apply Forall_nil_2|]. destruct (negb stored && _); [apply Forall_nil_2|]. cbn [orb fst snd].
    apply outgoing_justified. eapply storeRow_told; [|exact Es]. intros ??. apply persist_row. by apply not_empty.
Qed.

(** [C2] Whatever leaves the bridge because of a message rests on what happened
    to it: a webhook goes only to a receiver that is on, whose filters pass the
    chat, and only when the effective chat allow-list admits everyone or some spelling of the
    resolved or of the original chat that the LID map and the Brazilian alternate lead to; it says
    the message is stored only when its row is in the archive afterwards, and that it is not only
    when this write was given up (the row of an earlier delivery may stand); a file is fetched,
    and the bytes of an image are sent, only for an archived message of a kind that is cached, within
    the declared size limit, and for a status update only when those are wanted. *)
Theorem inbound_effects_justified (c : settings) (o : outcomes) (e : message_event) (st : store * times) :
  Forall (justified c o e (handleMessage c o e st).1.1 (extracted_of e (sent_time e st.2))) (handleMessage c o e st).2.
Proof.
  destruct st as [s orig]. unfold handleMessage. pose proof (deliver_justified c o e (sent_time e orig) (prepared c o e s)) as Hd.
  by destruct (deliver _ _ _ _ _).
Qed.

(** ** Activity *)

Definition last_time (s : store) (jid : string) : option Z := s_chats s !! jid ≫= Chats.last_message_time.

Lemma store_chat_last jid name at_ (c : Chats.chats) jid' :
  Chats.storeChatWith jid name at_ c !! jid' ≫= Chats.last_message_time =
  if decide (jid = jid') then Chats.merge_time (c !! jid' ≫= Chats.last_message_time) (stamp <$> at_) else c !! jid' ≫= Chats.last_message_time.
Proof.
  unfold Chats.storeChatWith. destruct (decide (jid = jid')) as [<-|Hj]; destruct (c !! jid) eqn:E.
  - by rewrite lookup_insert_eq.
  - by rewrite lookup_insert_eq.
  - by rewrite lookup_insert_ne.
  - by rewrite lookup_insert_ne.
Qed.

Lemma merge_none t : Chats.merge_time t None = t.
Proof. by destruct t. Qed.

Lemma ensure_chat_last jid name (c : Chats.chats) jid' :
  Chats.storeChatWith jid name None c !! jid' ≫= Chats.last_message_time = c !! jid' ≫= Chats.last_message_time.
Proof. rewrite store_chat_last. cbn [fmap option_fmap option_map]. rewrite merge_none. by destruct (decide _). Qed.

Lemma ephemeral_last jid expiration at_ (c : Chats.chats) jid' :
  Chats.UpdateChatEphemeralSettings jid expiration at_ c !! jid' ≫= Chats.last_message_time = c !! jid' ≫= Chats.last_message_time.
Proof.
  unfold Chats.UpdateChatEphemeralSettings. destruct (bool_decide _); [done|].
  destruct (c !! jid) as [r|] eqn:E; [destruct (bool_decide _)|]; [|done|];
    (destruct (decide (jid = jid')) as [<-|Hj]; [by rewrite lookup_insert_eq, E|by rewrite lookup_insert_ne]).
Qed.

(** A step of a chat's time: none, or the time of a message whose row is in. *)
Definition moves (s s' : store) (k : key) (ts : Z) (jid : string) : Prop :=
  last_time s' jid = last_time s jid ∨
  jid = k.2 ∧ is_Some (s_rows s' !! k) ∧ last_time s' jid = Chats.merge_time (last_time s jid) (Some (stamp ts)).

Lemma persist_chats history id chatJID snd ts fromMe x declared rc rs quoted s :
  s_chats (persistMessageResult history id chatJID snd ts fromMe x declared rc rs quoted s).1 = s_chats s.
Proof. unfold persistMessageResult. destruct (x_edit x); [done|]. by destruct (updateLiveLocationWith _ _ _ _ _ _) as [[] ?]. Qed.

Lemma pointer_chats type content target id chatJID snd ts fromMe s :
  s_chats (persist_pointer type content target id chatJID snd ts fromMe s).1 = s_chats s.
Proof.
  unfold persist_pointer. pose proof (persist_chats false id chatJID snd ts fromMe (pointer_row type content target) (Some 0) "" "" false s).
  by destruct (persistMessageResult _ _ _ _ _ _ _ _ _ _ _ _) as [? []].
Qed.

Lemma storeRow_moves c o name ts write s s0 jid (k : key) :
  (∀ s0, s_chats (write s0).1 = s_chats s0) → (∀ s0 s1, write s0 = (s1, false) → is_Some (s_rows s1 !! k)) →
  last_time s0 jid = last_time s jid → moves s (storeRow c o k.2 name ts write s0).1.1 k ts jid.
Proof.
  intros Hc Hw Hs. unfold storeRow, moves. rewrite <- Hs. destruct (row_written c o); cbn [negb].
  - destruct (write _) as [s1 b] eqn:E. pose proof (Hc (set_chats (Chats.storeChatWith k.2 name None (s_chats s0)) s0)) as Hs1.
    rewrite E in Hs1. cbn [fst s_chats set_chats] in Hs1. destruct b; cbn [fst].
    + left. unfold last_time. by rewrite Hs1, ensure_chat_last.
    + destruct (time_written o); [|left; unfold last_time; by rewrite Hs1, ensure_chat_last].
      unfold last_time. cbn [s_chats set_chats s_rows]. rewrite store_chat_last, Hs1, ensure_chat_last.
      destruct (decide (k.2 = jid)); [right|by left]. eauto.
  - left. destruct (chat_left o); [|done]. exact (ensure_chat_last k.2 name (s_chats s0) jid).
Qed.

Lemma ephemeral_keeps o chatJID e m (c : Chats.chats) jid :
  ephemeral o chatJID e m c !! jid ≫= Chats.last_message_time = c !! jid ≫= Chats.last_message_time.
Proof.
  unfold ephemeral. set (c1 := match Protocol (parts_of m) with Some _ => _ | None => c end).
  assert (Hs1 : c1 !! jid ≫= Chats.last_message_time = c !! jid ≫= Chats.last_message_time).
  { subst c1. destruct (Protocol (parts_of m)) as [p|]; [|done]. destruct (pr_type p); try done.
    destruct (setting_written o); [apply ephemeral_last|done]. }
  destruct (extractChatEphemeralFromMessage _) as [x at_]. destruct (_ || _); [done|]. by rewrite ephemeral_last.
Qed.

Lemma deliver_moves c o e ts s s0 jid : last_time s0 jid = last_time s jid → moves s (deliver c o e ts s0).1 (row_key c e) ts jid.
Proof.
  intros Hs. assert (Hkeep : moves s s0 (row_key c e) ts jid) by (by left).
  assert (Hmove : ∀ name write, (∀ s0, s_chats (write s0).1 = s_chats s0) →
            (∀ s0 s1, write s0 = (s1, false) → is_Some (s_rows s1 !! row_key c e)) →
            moves s (storeRow c o (JIDString (resolved_chat c e)) name ts write s0).1.1 (row_key c e) ts jid)
    by (intros ????; exact (storeRow_moves c o _ ts _ s s0 jid (row_key c e) ltac:(done) ltac:(done) Hs)).
  unfold deliver. destruct (vote o) as [[[pollID content]|]|]; [|done|].
  { apply Hmove; intros; [apply pointer_chats|eapply pointer_row_stored; [|eassumption]; done]. }
  destruct (Reaction _) as [[key emoji]|].
  - destruct (String.eqb (default "" key) ""); [done|].
    match goal with |- context [storeRow c o ?a ?b ?t ?w s0] => specialize (Hmove b w); destruct (storeRow c o a b t w s0) as [[s1 stored] consumed] end.
    destruct consumed; [|destruct (webhook_allowed _ _ _)];
      (apply Hmove; intros; [apply pointer_chats|eapply pointer_row_stored; [|eassumption]; done]).
  - destruct (is_empty _) eqn:He; [done|].
    destruct (bool_decide (is_Some (x_edit _))) eqn:Hedit.
    + destruct (row_written c o); [|done]. left. unfold last_time in *. cbn [fst]. by rewrite persist_chats.
    + match goal with |- context [storeRow c o ?a ?b ?t ?w s0] => specialize (Hmove b w); destruct (storeRow c o a b t w s0) as [[s1 stored] consumed] end.
      destruct (consumed || _);
        (apply Hmove; intros; [apply persist_chats|eapply persist_row; [by apply not_empty|eassumption]]).
Qed.

(** A chat's last message time moves only for a message whose row is in the
    archive, in the chat it was filed under, and to the time it was first sent or
    keeps the later one: an empty stanza, a consumed update, an edit and a row that
    was given up are not activity. *)
Theorem activity_follows_rows (c : settings) (o : outcomes) (e : message_event) (st : store * times) (jid : string) :
  moves st.1 (handleMessage c o e st).1.1 (row_key c e) (sent_time e st.2) jid.
Proof.
  destruct st as [s orig]. unfold handleMessage.
  assert (Hp : last_time (prepared c o e s) jid = last_time s jid) by apply ephemeral_keeps.
  pose proof (deliver_moves c o e (sent_time e orig) s (prepared c o e s) jid Hp) as Hd.
  by destruct (deliver _ _ _ _ _).
Qed.

(** ** The original time *)

Definition noted (o : times) (d : string * Z) : times :=
  match o !! d.1 with Some t => if d.2 <? t then <[d.1 := d.2]> o else o | None => <[d.1 := d.2]> o end.

Lemma noted_size o d : (size (noted o d) ≤ S (size o))%nat.
Proof.
  unfold noted. destruct (o !! d.1) eqn:E; [destruct (_ <? _); [|lia]; rewrite map_size_insert_Some by (rewrite E; eauto); lia|].
  rewrite map_size_insert_None by done. lia.
Qed.

Lemma noted_lookup o d k :
  noted o d !! k = if decide (d.1 = k) then Some (match o !! k with Some t => Z.min t d.2 | None => d.2 end) else o !! k.
Proof.
  unfold noted. destruct (decide (d.1 = k)) as [<-|Hk].
  - destruct (o !! d.1) as [t|] eqn:E; [|by rewrite lookup_insert_eq].
    destruct (Z.ltb_spec d.2 t); [rewrite lookup_insert_eq|rewrite E]; f_equal; lia.
  - destruct (o !! d.1) as [t|]; [destruct (_ <? _); [|done]|]; by rewrite lookup_insert_ne.
Qed.

Lemma remember_noted id ts order o : id ≠ "" → (size o < 5000)%nat → remember id (Some ts) order o = noted o (id, ts).
Proof.
  intros Hid Hs. unfold remember. rewrite (proj2 (String.eqb_neq id "") Hid).
  pose proof (noted_size o (id, ts)) as Hn. unfold noted in *. cbn [fst snd] in *.
  rewrite (proj2 (Nat.ltb_ge _ _)); [done|lia].
Qed.

Lemma noted_all (ds : list (string * Z)) order o k :
  Forall (λ d, d.1 ≠ "") ds → (size o + length ds ≤ 5000)%nat →
  foldl (λ o d, remember d.1 (Some d.2) (order d) o) o ds !! k =
  foldl (λ t d, if decide (d.1 = k) then Some (match t with Some t => Z.min t d.2 | None => d.2 end) else t) (o !! k) ds.
Proof.
  intros Hds. revert o. induction Hds as [|[i t] ds Hd Hds IH]; intros o Hs; [done|]. cbn [foldl fst snd length] in *.
  rewrite remember_noted by (done || lia). rewrite IH; [by rewrite noted_lookup|]. pose proof (noted_size o (i, t)). lia.
Qed.

Lemma min_step (ds : list (string * Z)) k t0 now :
  (let t := foldl (λ t d, if decide (d.1 = k) then Some (match t with Some t => Z.min t d.2 | None => d.2 end) else t) t0 ds in
   match t with Some t => if t <? now then t else now | None => now end) =
  foldl Z.min (match t0 with Some t => Z.min t now | None => now end) (snd <$> filter (λ d, d.1 = k) ds).
Proof.
  revert t0. induction ds as [|[i t] ds IH]; intros t0.
  - cbn. destruct t0 as [t|]; [|done]. destruct (Z.ltb_spec t now); lia.
  - cbn [foldl fst snd]. rewrite IH, filter_cons. cbn [fst]. destruct (decide (i = k)); [|done]. cbn [fmap list_fmap foldl snd].
    f_equal. destruct t0; lia.
Qed.

(** A message that first came undecryptable is filed under the earliest time
    any of its failed deliveries carried, not under the time of the copy that could be
    read, whatever came for other messages in between, as long as
    the memory has not reached its cap. *)
Theorem original_time_recovered (o : times) (ds : list (string * Z)) (order : string * Z → list string) (e : message_event) :
  Forall (λ d, d.1 ≠ "") ds → (size o + length ds ≤ 5000)%nat → o !! ev_id e = None →
  sent_time e (foldl (λ o d, remember d.1 (Some d.2) (order d) o) o ds)
  = foldl Z.min (ev_time e) (snd <$> filter (λ d, d.1 = ev_id e) ds).
Proof.
  intros Hds Hs Ho. unfold sent_time. rewrite noted_all by done. rewrite Ho. exact (min_step ds (ev_id e) None (ev_time e)).
Qed.

End Inbound.

(** The memory never grows past its cap, whichever entries the map gives up. *)
Lemma drop_down_size cap order (o : times) :
  (∀ k, is_Some (o !! k) → k ∈ order) → (size (drop_down_to cap order o) ≤ cap)%nat.
Proof.
  revert o. induction order as [|k order IH]; intros o Ho; cbn [drop_down_to].
  - assert (o = ∅) as ->; [|rewrite map_size_empty; lia].
    apply map_empty. intros k. destruct (o !! k) eqn:E; [|done]. destruct (not_elem_of_nil k (Ho k ltac:(eauto))).
  - destruct (Nat.leb_spec (size (delete k o)) cap); [done|]. apply IH. intros k' Hk'.
    destruct (decide (k = k')) as [->|Hk]; [rewrite lookup_delete_eq in Hk'; by destruct Hk'|].
    rewrite lookup_delete_ne in Hk' by done. apply Ho, elem_of_cons in Hk' as [->|]; done.
Qed.

Lemma remember_bounded id ts order (o : times) :
  (∀ k, is_Some (o !! k) ∨ k = id → k ∈ order) → (size o ≤ 5000)%nat → (size (remember id ts order o) ≤ 5000)%nat.
Proof.
  intros Ho Hs. unfold remember. destruct ts as [t|]; [|done]. destruct (String.eqb id ""); [done|].
  change (match o !! id with Some e => if t <? e then <[id:=t]> o else o | None => <[id:=t]> o end) with (noted o (id, t)).
  destruct (Nat.ltb_spec 5000 (size (noted o (id, t)))) as [Hn|Hn]; [|done].
  pose proof (drop_down_size 4000 order (noted o (id, t))) as Hd. etrans; [apply Hd|lia].
  intros k. rewrite noted_lookup. cbn [fst]. destruct (decide (id = k)); eauto.
Qed.

(** A write is tried at least once and at most once more than there are
    delays; the outcome is that of the last attempt; every attempt before it met a
    busy database and was followed by a wait that was not cut short; and it ends busy only when
    the delays are used up or the bridge is stopping. *)
Theorem retries_bounded (delays : nat) (try_ : nat → attempt) (wait : nat → bool) :
  let '(r, n) := retryBusyWithWait delays try_ wait in
  (1 ≤ n ≤ S delays)%nat ∧ r = try_ (n - 1)%nat ∧ (∀ k, (S k < n)%nat → try_ k = BusyDatabase ∧ wait (S k) = true) ∧
  (r = BusyDatabase → n = S delays ∨ wait n = false).
Proof.
  unfold retryBusyWithWait.
  assert (Hgen : ∀ d k, (∀ j, (j < k)%nat → try_ j = BusyDatabase ∧ wait (S j) = true) →
    let '(r, n) := retry_rest d (S k) (try_ k) try_ wait in
    (S k ≤ n ≤ S k + d)%nat ∧ r = try_ (n - 1)%nat ∧ (∀ j, (S j < n)%nat → try_ j = BusyDatabase ∧ wait (S j) = true) ∧
    (r = BusyDatabase → n = (S k + d)%nat ∨ wait n = false)).
  { intros d. induction d as [|d IH]; intros k Hk.
    - cbn. replace (k - 0)%nat with k by lia. split_and!; [lia|lia|done|intros; apply Hk; lia|intros; left; lia].
    - cbn [retry_rest]. destruct (try_ k) eqn:Ek; try (split_and!; [lia|lia|by replace (S k - 1)%nat with k by lia|intros; apply Hk; lia|done]).
      destruct (wait (S k)) eqn:Ew; [|split_and!; [lia|lia|by replace (S k - 1)%nat with k by lia|intros; apply Hk; lia|by right]].
      specialize (IH (S k)). destruct (retry_rest d (S (S k)) _ _ _) as [r n].
      destruct IH as (? & ? & ? & Hb).
      { intros j Hj. destruct (decide (j = k)) as [->|]; [done|apply Hk; lia]. }
      split_and!; [lia|lia|done|done|]. intros Hr. destruct (Hb Hr); [left; lia|by right]. }
  specialize (Hgen delays 0%nat ltac:(lia)). destruct (retry_rest _ _ _ _ _) as [r n]. cbn in Hgen. exact Hgen.
Qed.


(** ** A concrete message *)
Module Sample.
#[local] Existing Instance RefJid.ops.

(** Coordinates in millionths, so that a message can be written down. *)
#[local] Instance floats : Floats :=
  {| float := Z; is_nan := λ _, false; abs_above := λ f n, n * 10 ^ 6 <? Z.abs f; format6 := decimal; bad_speed := λ f, f <? 0 |}.

Definition text (s : string) : parts Message := {|
  Conversation := s; ExtendedText := None; ImageMessage := None; VideoMessage := None; PtvMessage := None; AudioMessage := None;
  DocumentMessage := None; StickerMessage := None; ContactMessage := None; ContactsArray := None; LocationMessage := None; LiveLocation := None;
  EventMessage := None; GroupInvite := None; ProductMessage := None; OrderMessage := None; SendPayment := None; RequestPayment := None;
  ListResponse := None; InteractiveResponse := None; TemplateMessage := None; ButtonsMessage := None; InteractiveMessage := None;
  ListMessage := None; ButtonsResponse := None; TemplateButtonReply := None; PollCreations := []; Protocol := None; Reaction := None;
  HasPollUpdate := false; HistoryShare := None; ViewOnce := [] |}.

Definition peer : RefJid.t := {| RefJid.ref_user := "5511"; RefJid.ref_device := ""; RefJid.ref_server := "s.whatsapp.net" |}.

Definition event : message_event := {|
  ev_id := "A"; ev_chat := peer; ev_sender := peer; ev_sender_alt := peer; ev_recipient_alt := peer; ev_from_me := false; ev_push := "Ana";
  ev_time := 900; ev_message := Msg (text "hi"); ev_raw := None; ev_once := false |}.

Lemma original_time_recovered_witness :
  sent_time event (foldl (λ o d, remember d.1 (Some d.2) [] o) ∅ [("A", 300); ("B", 100); ("A", 500)]) = 300.
Proof.
  refine (@original_time_recovered RefJid.ops floats ∅ [("A", 300); ("B", 100); ("A", 500)] (λ _, []) event _ _ _);
    [by repeat (apply Forall_cons_2; [done|])|apply (bool_decide_unpack _); vm_compute; exact I|done].
Defined.

End Sample.
