(* ===== verification/Events.v ===== *)
(** * The event dispatcher and the reconnect loop ([events.go], [connection_events.go])

    What the events of a connection do: the notices of its transitions with the
    debounce of a short loss, the account problems they record, the client they
    retire and the redial they ask for; the calls and the read receipts.  Messages are
    [Inbound], groups [Groups], labels [ChatActions]. *)
From S2P Require Import Prelude Jid StoreTime Archive Messages MarkRead ConnectionProblem.
#[local] Open Scope Z_scope.

(** ** Notices of a transition *)
Module Notices.

(** The fields under [connectionEventsMu]: a disconnect that waits out its debounce
    (its key, and whether the legacy sender gets it), the last transition told, and
    what was queued, in order. *)
Record notices := { closing : bool; waiting : option (string * bool); lastConnectionEvent : string; queued : list string }.

(** The state and the reason, as told. *)
Definition notice_key (state reason : string) : string := state +:+ ":" +:+ reason.

(** [notifyConnection]; [legacy]: the legacy sender takes these, [receiver]: a
    runtime receiver can exist. *)
Definition notifyConnection (legacy receiver : bool) (state reason : string) (immediate : bool) (n : notices) : notices :=
  if closing n then n
  else
    let now_or_up := negb (String.eqb state "disconnected") || immediate in
    if negb now_or_up && bool_decide (is_Some (waiting n)) then n
    else
      let n := {| closing := false; waiting := None; lastConnectionEvent := lastConnectionEvent n; queued := queued n |} in
      let key := notice_key state reason in
      if String.eqb key (lastConnectionEvent n) then n
      else if immediate || (negb legacy && negb receiver)
      then {| closing := false; waiting := None; lastConnectionEvent := key; queued := queued n ++ [key] |}
      else {| closing := false; waiting := Some (key, legacy); lastConnectionEvent := lastConnectionEvent n; queued := queued n |}.

(** The debounce of the waiting disconnect is over. *)
Definition debounce_over (n : notices) : notices :=
  match waiting n with
  | Some (key, _) => {| closing := closing n; waiting := None; lastConnectionEvent := key; queued := queued n ++ [key] |}
  | None => n
  end.

(** [stopConnectionEvents]. *)
Definition stopConnectionEvents (n : notices) : notices :=
  {| closing := true; waiting := None; lastConnectionEvent := lastConnectionEvent n; queued := queued n |}.

Inductive step : notices → notices → Prop :=
| Notify legacy receiver state reason immediate n : step n (notifyConnection legacy receiver state reason immediate n)
| Elapsed n : step n (debounce_over n)
| Stopped n : step n (stopConnectionEvents n).

Definition fresh : notices := {| closing := false; waiting := None; lastConnectionEvent := ""; queued := [] |}.

(** No transition is told twice in a row. *)
Definition alternating (l : list string) : Prop := ∀ i a b, l !! i = Some a → l !! S i = Some b → a ≠ b.

Record notices_ok (n : notices) : Prop := {
  no_repeat : alternating (queued n);
  last_told : last (queued n) = if String.eqb (lastConnectionEvent n) "" then None else Some (lastConnectionEvent n);
  waiting_new : ∀ k l, waiting n = Some (k, l) → k ≠ "" ∧ k ≠ lastConnectionEvent n;
}.

Lemma alternating_snoc l k : alternating l → last l ≠ Some k → alternating (l ++ [k]).
Proof.
  intros Hl Hk i a b Ha Hb. apply lookup_app_Some in Hb as [Hb|[Hge Hb]].
  - rewrite lookup_app_l in Ha by (apply lookup_lt_Some in Hb; lia). exact (Hl i a b Ha Hb).
  - destruct (S i - length l)%nat as [|j] eqn:Hj; [|done]. injection Hb as <-. intros ->. apply Hk.
    rewrite last_lookup. replace (pred (length l)) with i by lia. rewrite lookup_app_l in Ha by lia. exact Ha.
Qed.

Lemma key_nonempty state reason : notice_key state reason ≠ "".
Proof. by destruct state. Qed.

Lemma told_ok n key : notices_ok n → key ≠ "" → key ≠ lastConnectionEvent n →
  notices_ok {| closing := closing n; waiting := None; lastConnectionEvent := key; queued := queued n ++ [key] |}.
Proof.
  intros [Hr Hl Hw] Hk Hn. split; cbn.
  - apply alternating_snoc; [done|]. rewrite Hl. destruct (String.eqb_spec (lastConnectionEvent n) ""); naive_solver.
  - rewrite last_snoc. by rewrite (proj2 (String.eqb_neq _ _) Hk).
  - done.
Qed.

Lemma quiet_ok n c w : notices_ok n → (∀ k l, w = Some (k, l) → k ≠ "" ∧ k ≠ lastConnectionEvent n) →
  notices_ok {| closing := c; waiting := w; lastConnectionEvent := lastConnectionEvent n; queued := queued n |}.
Proof. intros [Hr Hl Hw] H. by split. Qed.

Lemma step_ok n n' : step n n' → notices_ok n → notices_ok n'.
Proof.
  intros [] Hn.
  - unfold notifyConnection. destruct (closing _) eqn:Hc; [done|]. destruct (_ && _); [done|]. cbn [lastConnectionEvent queued].
    destruct (String.eqb_spec (notice_key state reason) (lastConnectionEvent n0)); [by apply quiet_ok|].
    destruct (_ || _).
    + rewrite <- Hc. apply told_ok; [done|apply key_nonempty|done].
    + apply quiet_ok; [done|]. intros k l [= <- <-]. split; [apply key_nonempty|done].
  - unfold debounce_over. destruct (waiting n0) as [[key l]|] eqn:Hw; [|done]. destruct (waiting_new _ Hn _ _ Hw). by apply told_ok.
  - by apply quiet_ok.
Qed.

(** Whatever the connection goes through, a receiver is never told the same
    transition twice in a row, and what it was told last is what the bridge
    remembers. *)
Theorem transitions_alternate (n : notices) : rtc step fresh n → notices_ok n.
Proof.
  intros Hr. assert (Hf : notices_ok fresh) by (split; [by intros [|] ???|done|done]).
  induction Hr as [|n n' n'' Hs Hr IH]; [done|]. eauto using step_ok.
Qed.

Lemma loss_waits legacy receiver reason n :
  closing n = false → waiting n = None → legacy || receiver = true → notice_key "disconnected" reason ≠ lastConnectionEvent n →
  notifyConnection legacy receiver "disconnected" reason false n =
  {| closing := false; waiting := Some (notice_key "disconnected" reason, legacy); lastConnectionEvent := lastConnectionEvent n; queued := queued n |}.
Proof.
  intros Hc Hw Hlr Hk. unfold notifyConnection. rewrite Hc, Hw. cbn -[notice_key]. rewrite (proj2 (String.eqb_neq _ _) Hk).
  by destruct legacy, receiver.
Qed.

Lemma up_cancels legacy receiver state reason n :
  closing n = false → lastConnectionEvent n = notice_key state reason →
  notifyConnection legacy receiver state reason true n =
  {| closing := false; waiting := None; lastConnectionEvent := lastConnectionEvent n; queued := queued n |}.
Proof.
  intros Hc Hl. unfold notifyConnection. rewrite Hc, orb_true_r. cbn -[notice_key]. by rewrite Hl, String.eqb_refl.
Qed.

(** A loss that ends within its debounce is not told. *)
Lemma flap_silent legacy receiver up reason why n :
  closing n = false → waiting n = None → lastConnectionEvent n = notice_key up reason → legacy || receiver = true →
  notice_key "disconnected" why ≠ lastConnectionEvent n →
  notifyConnection legacy receiver up reason true (notifyConnection legacy receiver "disconnected" why false n) = n.
Proof. intros Hc Hw Hl Hlr Hk. rewrite loss_waits by done. rewrite up_cancels by done. destruct n; cbn in *. by subst. Qed.

End Notices.

(** ** The reconnect loop *)
Module Reconnect.

Definition defaultReconnectInitialBackoff : Z := 5 * 10 ^ 9.
Definition defaultReconnectMaxBackoff : Z := 5 * 60 * 10 ^ 9.

(** A [time.Duration] is an [int64]. *)
Definition wrap64 (z : Z) : Z := (z + 2 ^ 63) mod 2 ^ 64 - 2 ^ 63.

(** How one round ends: the connection is already up, the dial succeeds, or fails. *)
Inductive round : Type := AlreadyConnected | Reconnected | DialFailed.

Record bounds := { ReconnectInitialBackoff : Z; ReconnectMaxBackoff : Z }.

(** The two bounds as the loop starts with them. *)
Definition first_backoff (b : bounds) : Z :=
  if ReconnectInitialBackoff b <=? 0 then defaultReconnectInitialBackoff else ReconnectInitialBackoff b.

Definition max_backoff (b : bounds) : Z :=
  if ReconnectMaxBackoff b <? first_backoff b then defaultReconnectMaxBackoff else ReconnectMaxBackoff b.

(** One round of [reconnectLoop]: the next wait, and whether it signals itself. *)
Definition next_round (b : bounds) (wait : Z) (r : round) : Z * bool :=
  match r with
  | DialFailed => let doubled := wrap64 (wait * 2) in (if max_backoff b <? doubled then max_backoff b else doubled, true)
  | AlreadyConnected | Reconnected => (ReconnectInitialBackoff b, false)
  end.

(** The waits before each round and after the last. *)
Fixpoint waits (b : bounds) (wait : Z) (rs : list round) : list Z :=
  wait :: match rs with [] => [] | r :: rs => waits b (next_round b wait r).1 rs end.

Definition reconnectLoop (b : bounds) (rs : list round) : list Z := waits b (first_backoff b) rs.

(** The failures since the connection was last up. *)
Fixpoint failures (n : nat) (rs : list round) : nat :=
  match rs with [] => n | DialFailed :: rs => failures (S n) rs | _ :: rs => failures O rs end.

Definition planned (b : bounds) (n : nat) : Z := Z.min (ReconnectInitialBackoff b * 2 ^ Z.of_nat n) (max_backoff b).

Section Bounds.
Context (b : bounds) (Hpos : 0 < ReconnectInitialBackoff b) (Hmax : ReconnectInitialBackoff b ≤ ReconnectMaxBackoff b < 2 ^ 62).

Lemma first_backoff_set : first_backoff b = ReconnectInitialBackoff b.
Proof. unfold first_backoff. by rewrite (proj2 (Z.leb_gt _ _) Hpos). Qed.

Lemma max_backoff_set : max_backoff b = ReconnectMaxBackoff b.
Proof. unfold max_backoff. rewrite first_backoff_set. by rewrite (proj2 (Z.ltb_ge _ _) (proj1 Hmax)). Qed.

Lemma planned_range n : ReconnectInitialBackoff b ≤ planned b n ≤ ReconnectMaxBackoff b.
Proof. unfold planned. rewrite max_backoff_set. assert (0 < 2 ^ Z.of_nat n) by (apply Z.pow_pos_nonneg; lia). nia. Qed.

Lemma planned_next n : (next_round b (planned b n) DialFailed).1 = planned b (S n).
Proof.
  pose proof (planned_range n) as Hr. unfold next_round, wrap64. cbn [fst]. rewrite Z.mod_small by lia.
  replace (planned b n * 2 + 2 ^ 63 - 2 ^ 63) with (planned b n * 2) by lia. revert Hr. unfold planned. rewrite max_backoff_set.
  replace (2 ^ Z.of_nat (S n)) with (2 ^ Z.of_nat n * 2) by (rewrite Nat2Z.inj_succ, Z.pow_succ_r by lia; lia).
  assert (0 < 2 ^ Z.of_nat n) by (apply Z.pow_pos_nonneg; lia). destruct (Z.ltb_spec (ReconnectMaxBackoff b) (Z.min (ReconnectInitialBackoff b * 2 ^ Z.of_nat n) (ReconnectMaxBackoff b) * 2)); nia.
Qed.

Lemma waits_planned rs n k w : waits b (planned b n) rs !! k = Some w → w = planned b (failures n (take k rs)).
Proof.
  revert n k. induction rs as [|r rs IH]; intros n [|k]; cbn [waits]; rewrite ?lookup_cons; [naive_solver|done|naive_solver|].
  assert (Hz : ReconnectInitialBackoff b = planned b 0) by (unfold planned; rewrite max_backoff_set; lia).
  destruct r; cbn [take failures]; rewrite ?planned_next; [..|apply IH]; cbn [next_round fst]; rewrite Hz; apply IH.
Qed.

End Bounds.

(** With its two bounds set, the loop waits the initial time doubled once for
    every failure since the connection was last up, never more than the maximum;
    nothing overflows on the way. *)
Theorem backoff_exact (b : bounds) (rs : list round) (k : nat) (w : Z)
    (Hpos : 0 < ReconnectInitialBackoff b) (Hmax : ReconnectInitialBackoff b ≤ ReconnectMaxBackoff b < 2 ^ 62)
    (Hk : reconnectLoop b rs !! k = Some w) :
  w = planned b (failures 0 (take k rs)) ∧ ReconnectInitialBackoff b ≤ w ≤ ReconnectMaxBackoff b.
Proof.
  unfold reconnectLoop in Hk. rewrite first_backoff_set in Hk by done.
  replace (ReconnectInitialBackoff b) with (planned b 0) in Hk by (unfold planned; rewrite max_backoff_set by done; lia).
  apply waits_planned in Hk as ->; [|done..]. split; [done|by apply planned_range].
Qed.

(** A bound that was never set is floored only until the connection is up once:
    from then on the loop redials without a wait. *)
Lemma unset_bound_lost (m : Z) (n : nat) :
  0 ≤ m → reconnectLoop {| ReconnectInitialBackoff := 0; ReconnectMaxBackoff := m |} (Reconnected :: replicate n DialFailed) !! S n = Some 0.
Proof.
  intros Hm. unfold reconnectLoop. cbn [waits]. rewrite lookup_cons. cbn [next_round fst ReconnectInitialBackoff].
  induction n as [|n IH]; [done|]. cbn [replicate waits]. rewrite lookup_cons. cbn [next_round fst]. rewrite <- IH. f_equal. f_equal.
  change (wrap64 (0 * 2)) with 0. unfold max_backoff, first_backoff. cbn [ReconnectInitialBackoff ReconnectMaxBackoff].
  change (0 <=? 0) with true. cbn iota. destruct (Z.ltb_spec m defaultReconnectInitialBackoff); [done|].
  by rewrite (proj2 (Z.ltb_ge m 0) Hm).
Qed.

End Reconnect.

(** ** The dispatcher *)
Module Dispatch.
Import Notices.

Section Dispatch.
Context `{JidOps} `{Sqlite} (build : string).

(** [types.BasicCallMeta]. *)
Record BasicCallMeta := { From : JID; meta_time : Z; CallCreator : JID; GroupJID : JID; CallID : string }.

(** [callChatJID]. *)
Definition callChatJID (m : BasicCallMeta) : string :=
  if negb (IsEmpty (GroupJID m)) then JIDString (GroupJID m)
  else if negb (IsEmpty (CallCreator m)) then JIDString (ToNonAD (CallCreator m))
  else JIDString (ToNonAD (From m)).

(** The offer [handleCallOffer] stores; [own] is [client.Store.ID] when it is set. *)
Definition call_offer (own : option JID) (m : BasicCallMeta) (callType : string) (isGroup : bool) : Calls.event :=
  let fromJID := if negb (IsEmpty (CallCreator m)) then JIDString (ToNonAD (CallCreator m))
                 else if negb (IsEmpty (From m)) then JIDString (ToNonAD (From m)) else "" in
  Calls.Offer fromJID (meta_time m) (match own with Some j => String.eqb fromJID (JIDString (ToNonAD j)) | None => false end) callType isGroup.

Inductive call_event : Type :=
| CallOffer (m : BasicCallMeta)
| CallOfferNotice (m : BasicCallMeta) (media type : string)
| CallAccept (m : BasicCallMeta)
| CallReject (m : BasicCallMeta)
| CallTerminate (m : BasicCallMeta) (why : string).

Definition meta (e : call_event) : BasicCallMeta :=
  match e with CallOffer m | CallOfferNotice m _ _ | CallAccept m | CallReject m | CallTerminate m _ => m end.

(** The write of one call event. *)
Definition call_write (own : option JID) (e : call_event) : Calls.event :=
  match e with
  | CallOffer m => call_offer own m "voice" false
  | CallOfferNotice m media type =>
      call_offer own m (if String.eqb media "video" then "video" else "voice") (String.eqb type "group" || negb (IsEmpty (GroupJID m)))
  | CallAccept _ => Calls.Accept
  | CallReject _ => Calls.Reject
  | CallTerminate m why => Calls.Terminate why (meta_time m)
  end.

(** The call branches of [handleEvent] when the write succeeds. *)
Definition handle_call (own : option JID) (t : Calls.calls) (e : call_event) : Calls.calls :=
  Calls.run t ((CallID (meta e), callChatJID (meta e)), call_write own e).

(** The receipt branch: the marker, from the times of the messages it names when
    one is archived. *)
Definition handle_receipt (client : lid_store) (type : receipt_type) (chat alt recipient_alt : JID) (fromMe : bool) (at_ : Z) (ids : list string)
    (lookup_ok mark_ok : bool) (db : archive) : archive :=
  if negb (isSelfReadReceipt type fromMe) then db
  else
    let chatJID := JIDString (resolveLIDChatContext client chat alt recipient_alt fromMe) in
    let seen := if lookup_ok then MaxMessageTimestamp chatJID ids db else None in
    let readAt := match seen with Some t => t * 10 ^ 9 | None => at_ end in
    if mark_ok then {| rows := rows db; chat_rows := Chats.markChatReadWith chatJID readAt (chat_rows db) |} else db.

(** *** Connection events *)

(** The bridge as far as these events see it: the account problems, the notices,
    whether a redial is asked for and whether the client is to be dropped first, the
    pairing flag, and the code the process was told to exit with. *)
Record bridge := {
  problems : ConnectionProblem.state; told : notices; reconnect_signal : bool; forceReconnect : bool; runtimePaired : bool; exit_code : option Z;
}.

Inductive connection_event : Type :=
| EvConnected
| EvManualLoginReconnect
| EvKeepAliveTimeout (since_success : Z)
| EvLoggedOut (OnConnect : bool) (Reason : Z)
| EvDisconnected
| EvConnectFailure (Reason : Z)
| EvStreamError
| EvStreamReplaced
| EvClientOutdated
| EvTemporaryBan (Code Expire : Z)
| EvPairPasskeyError.

(** [whatsmeow.KeepAliveMaxFailTime]. *)
Context (KeepAliveMaxFailTime : Z).

(** What an event meets: the senders, the clock, and its writes to disk. *)
Record world := { legacy : bool; runtime_receiver : bool; now : Z; saved : bool; removed : bool }.

Definition set_problems (p : ConnectionProblem.state) (b : bridge) : bridge :=
  {| problems := p; told := told b; reconnect_signal := reconnect_signal b; forceReconnect := forceReconnect b; runtimePaired := runtimePaired b;
     exit_code := exit_code b |}.

Definition notify (w : world) (state reason : string) (immediate : bool) (b : bridge) : bridge :=
  {| problems := problems b; told := notifyConnection (legacy w) (runtime_receiver w) state reason immediate (told b);
     reconnect_signal := reconnect_signal b; forceReconnect := forceReconnect b; runtimePaired := runtimePaired b; exit_code := exit_code b |}.

(** The non-blocking send on the channel of one signal. *)
Definition signal (force : bool) (b : bridge) : bridge :=
  {| problems := problems b; told := told b; reconnect_signal := true; forceReconnect := forceReconnect b || force; runtimePaired := runtimePaired b;
     exit_code := exit_code b |}.

Definition record (w : world) (code reason expire : Z) (b : bridge) : bridge :=
  set_problems (recordConnectionProblemStateIf build (problems b) code reason expire true true (now w) (saved w)) b.

Definition kind_now (b : bridge) : string := match current (problems b) with Some p => Kind p | None => "" end.

(** [operatorRetiredClient.Store] of the current client, and the pairing flag. *)
Definition retire (b : bridge) : bridge :=
  let p := problems b in
  {| problems := change_client (operatorLogout p) true (runtimeDeviceID p) p; told := told b; reconnect_signal := reconnect_signal b;
     forceReconnect := forceReconnect b; runtimePaired := false; exit_code := exit_code b |}.

Definition exit_with (code : Z) (b : bridge) : bridge :=
  {| problems := problems b; told := told b; reconnect_signal := reconnect_signal b; forceReconnect := forceReconnect b; runtimePaired := runtimePaired b;
     exit_code := Some code |}.

Definition exitCodeClientOutdated : Z := 4.

(** The connection branches of [handleEvent]; the recipient cache they clear is
    [Caches], and the delay of a replaced stream is over when [EvStreamReplaced]
    signals. *)
Definition handle_connection (w : world) (b : bridge) (e : connection_event) : bridge :=
  let retired := operatorRetired (problems b) in
  match e with
  | EvConnected =>
      if retired then b
      else notify w "connected" "authenticated" true (set_problems (clearConnectionProblem (removed w) (problems b)) b)
  | EvManualLoginReconnect => signal true b
  | EvKeepAliveTimeout since =>
      if KeepAliveMaxFailTime <? since then signal true (notify w "disconnected" "keepalive_stalled" false b) else b
  | EvLoggedOut OnConnect Reason =>
      if operatorLogout (problems b) then b
      else
        let code := if negb OnConnect && (Reason =? 0) then 401 else Reason in
        if (code =? 401) && retired then b
        else
          let b := if code =? 401 then retire b else b in
          let b := record w code 0 0 b in
          let b := notify w "logged_out" (kind_now b) true b in
          if negb (code =? 401) then b else set_problems (setPairingState "pairing_required" (problems b)) b
  | EvDisconnected =>
      if operatorLogout (problems b) || retired then b
      else signal false (notify w "disconnected" "transport_lost" false b)
  | EvConnectFailure Reason => let b := record w Reason 0 0 b in signal false (notify w "disconnected" (kind_now b) true b)
  | EvStreamError => signal false b
  | EvStreamReplaced => signal false (notify w "disconnected" "session_replaced" false b)
  | EvClientOutdated => exit_with exitCodeClientOutdated (notify w "logged_out" "client_outdated" true (record w 405 0 0 b))
  | EvTemporaryBan Code Expire => signal false (notify w "disconnected" "temporarily_banned" true (record w 402 Code Expire b))
  | EvPairPasskeyError => set_problems (setPairingState "passkey_failed" (problems b)) b
  end.

(** *** A client WhatsApp unlinked *)

Record down (b : bridge) : Prop := {
  down_retired : operatorRetired (problems b) = true;
  down_unpaired : runtimePaired b = false;
  down_pairing : pairingState (problems b) ≠ "";
  down_unlinked : isUnlinked (current (problems b)) = true;
}.

Lemma with_unlink_unlinked a d r p : isUnlinked (Some (with_unlink (Some a) d r p)) = true.
Proof. cbn. by rewrite orb_true_r. Qed.

Lemma next_keeps_unlinked s code reason expire t p :
  isUnlinked (current s) = true → next_problem build s code reason expire true t = Some p → isUnlinked (Some p) = true.
Proof.
  intros Hu. unfold next_problem. destruct (current s) as [q|] eqn:Eq; [|done].
  destruct (if negb (restrictsAccount _) && _ then _ else _) as [next|]; [|done].
  rewrite Hu. destruct (code =? 401) eqn:Hc; cbn [negb orb andb].
  - intros [= <-]. apply with_unlink_unlinked.
  - destruct (negb (restrictsAccount (Some next)) && operatorRetired s); [done|]. intros [= <-].
    destruct (UnlinkedAt q); apply with_unlink_unlinked.
Qed.

Lemma next_unlinks s t : ∃ q, next_problem build s 401 0 0 true t = Some (with_unlink (Some t) (default "" (runtimeDeviceID s)) false q).
Proof.
  unfold next_problem. cbn [Z.eqb Pos.eqb negb orb andb]. destruct (current s) as [q|]; [|eauto].
  destruct (negb (restrictsAccount _) && restrictsAccount (Some q)); eauto.
Qed.

Lemma record_fields w code reason expire b :
  operatorRetired (problems (record w code reason expire b)) = operatorRetired (problems b) ∧
  operatorLogout (problems (record w code reason expire b)) = operatorLogout (problems b) ∧
  pairingState (problems (record w code reason expire b)) = pairingState (problems b) ∧
  runtimePaired (record w code reason expire b) = runtimePaired b ∧
  (isUnlinked (current (problems b)) = true → isUnlinked (current (problems (record w code reason expire b))) = true).
Proof.
  unfold record, recordConnectionProblemStateIf. cbn [negb]. destruct (next_problem _ _ _ _ _ _ _) as [p|] eqn:E; [|done].
  split_and!; try done. intros Hu. by apply (next_keeps_unlinked _ _ _ _ _ _ Hu E).
Qed.

Lemma record_down w code reason expire b : down b → down (record w code reason expire b).
Proof. intros []. destruct (record_fields w code reason expire b) as (H1' & _ & H3 & H4 & H5). split; rewrite ?H1', ?H3, ?H4; auto. Qed.

Lemma pairing_down st b : st ≠ "" → down b → down (set_problems (setPairingState st (problems b)) b).
Proof.
  intros Hs [Hr Hu Hp Hk]. unfold setPairingState, set_problems. destruct (operatorLogout (problems b)); by split.
Qed.

Lemma notify_down w st r i b : down b → down (notify w st r i b).
Proof. by intros []. Qed.

Lemma signal_down f b : down b → down (signal f b).
Proof. by intros []. Qed.

Lemma exit_down c b : down b → down (exit_with c b).
Proof. by intros []. Qed.

#[local] Hint Resolve record_down pairing_down notify_down signal_down exit_down : core.

(** Nothing the connection reports brings such a client back. *)
Lemma handle_down w b e : down b → down (handle_connection w b e).
Proof.
  intros Hd. pose proof (down_retired _ Hd) as Hr. destruct e; cbn [handle_connection]; rewrite ?Hr, ?orb_true_r; auto.
  - destruct (_ <? _); auto.
  - destruct (operatorLogout _); [done|]. destruct ((if negb OnConnect && (Reason =? 0) then 401 else Reason) =? 401); cbn [andb negb]; auto.
Qed.

Lemma gate_shut ok t s : pairingState s ≠ "" → (wait_round ok t s).2 ∈ [RetrySoon; Blocked].
Proof.
  intros Hp. unfold wait_round. set (s' := if problemPersistenceFailed s && _ then _ else s).
  assert (Hp' : pairingState s' = pairingState s).
  { subst s'. destruct (_ && _); [|done]. destruct (problem s) as [[id q]|] eqn:E; [|done].
    unfold persistConnectionProblemIf. rewrite E. by destruct (Nat.eqb id id). }
  clearbody s'. cbn [snd]. rewrite !elem_of_cons. destruct (_ && _); [by left|]. rewrite Hp', (proj2 (String.eqb_neq _ _) Hp). cbn [negb orb]. by right; left.
Qed.

(** The report that unlinks the client. *)
Definition unlinks (OnConnect : bool) (Reason : Z) : bool := (if negb OnConnect && (Reason =? 0) then 401 else Reason) =? 401.

Lemma unlink_down w b OnConnect Reason :
  operatorLogout (problems b) = false → operatorRetired (problems b) = false → unlinks OnConnect Reason = true →
  down (handle_connection w b (EvLoggedOut OnConnect Reason)).
Proof.
  intros Hl Hr Hu. cbn [handle_connection]. rewrite Hl, Hr. unfold unlinks in Hu. rewrite Hu. cbn [andb negb].
  apply Z.eqb_eq in Hu. rewrite Hu. set (b1 := record w 401 0 0 (retire b)).
  assert (Hb1 : operatorRetired (problems b1) = true ∧ operatorLogout (problems b1) = false ∧ runtimePaired b1 = false ∧
                isUnlinked (current (problems b1)) = true).
  { subst b1. destruct (record_fields w 401 0 0 (retire b)) as (-> & -> & _ & -> & _). split_and!; [done|exact Hl|done|].
    unfold record, recordConnectionProblemStateIf. cbn [negb]. destruct (next_unlinks (problems (retire b)) (now w)) as [q ->].
    apply with_unlink_unlinked. }
  destruct Hb1 as (Hr1 & Hl1 & Hp1 & Hu1). clearbody b1. unfold setPairingState. cbn [problems notify set_problems].
  rewrite Hl1. by split.
Qed.

(** Once WhatsApp unlinks the device, the client is retired and the account is
    marked unpaired and asks for pairing; no further event of that client, in
    any number and order, changes that, a repeated unlink, a lost or a restored
    connection change nothing at all, and the dial gate stays shut. *)
Theorem unlinked_stays_down (w : world) (b : bridge) (OnConnect : bool) (Reason : Z) (es : list (world * connection_event)) (ok : bool) (t : Z)
    (Hlogout : operatorLogout (problems b) = false) (Hretired : operatorRetired (problems b) = false) (Hunlink : unlinks OnConnect Reason = true) :
  let b' := foldl (λ b e, handle_connection e.1 b e.2) (handle_connection w b (EvLoggedOut OnConnect Reason)) es in
  down b' ∧ (wait_round ok t (problems b')).2 ∈ [RetrySoon; Blocked] ∧
  ∀ w', handle_connection w' b' EvConnected = b' ∧ handle_connection w' b' EvDisconnected = b' ∧
        ∀ o r, unlinks o r = true → handle_connection w' b' (EvLoggedOut o r) = b'.
Proof.
  cbv zeta. assert (Hd : down (foldl (λ b e, handle_connection e.1 b e.2) (handle_connection w b (EvLoggedOut OnConnect Reason)) es)).
  { assert (H1' := unlink_down w b OnConnect Reason Hlogout Hretired Hunlink). revert H1'.
    generalize (handle_connection w b (EvLoggedOut OnConnect Reason)). induction es as [|[w1 e] es IH]; intros b1 H1'; [done|].
    cbn [foldl]. apply IH. by apply handle_down. }
  revert Hd. generalize (foldl (λ b e, handle_connection e.1 b e.2) (handle_connection w b (EvLoggedOut OnConnect Reason)) es). intros b' Hd.
  split; [done|]. split; [by apply gate_shut, Hd|]. intros w'. pose proof (down_retired _ Hd) as Hr.
  cbn [handle_connection]. rewrite Hr, orb_true_r. split_and!; [done..|].
  intros o r Ho. unfold unlinks in Ho. rewrite Ho. by destruct (operatorLogout (problems b')).
Qed.

(** *** Calls *)

(** The events of one call: its id, its group and its creator, whichever device
    reports them. *)
Definition of_one_call (id : string) (creator group : JID) (e : call_event) : Prop :=
  CallID (meta e) = id ∧ CallCreator (meta e) = creator ∧ GroupJID (meta e) = group.

Definition call_chat (creator group : JID) : string :=
  if negb (IsEmpty group) then JIDString group else JIDString (ToNonAD creator).

Lemma handle_calls own es t id creator group :
  IsEmpty group = false ∨ IsEmpty creator = false → Forall (of_one_call id creator group) es →
  foldl (handle_call own) t es = foldl Calls.run t (pair (id, call_chat creator group) <$> (call_write own <$> es)).
Proof.
  intros Hc Hes. revert t. induction Hes as [|e es (Hi & Hcr & Hg) Hes IH]; intros t; [done|]. cbn [foldl fmap list_fmap].
  rewrite IH. f_equal. unfold handle_call, callChatJID, call_chat. rewrite Hi, Hcr, Hg. by destruct Hc as [-> | ->], (IsEmpty group).
Qed.

Lemma of_call_all key es : Calls.of_call key (pair key <$> es) = es.
Proof. unfold Calls.of_call. induction es as [|e es IH]; [done|]. cbn [fmap list_fmap]. rewrite filter_cons_True by done. cbn. by f_equal. Qed.

(** [C34] All events of one call reach one row, whichever of our devices reported
    them, and the row ends as the events say: answered when it was picked up
    before it was refused or ended, ended once an answered call is over, else rejected or
    missed by whichever came first. *)
Theorem call_followed (own : option JID) (es : list call_event) (id : string) (creator group : JID)
    (Hkey : IsEmpty group = false ∨ IsEmpty creator = false) (Hes : Forall (of_one_call id creator group) es) :
  Calls.result_ <$> foldl (handle_call own) ∅ es !! (id, call_chat creator group)
  = Calls.verdict <$> Calls.after_offer (call_write own <$> es).
Proof. rewrite (handle_calls own es ∅ id creator group Hkey Hes), Calls.runs_result, lookup_empty. by rewrite of_call_all. Qed.

End Dispatch.
End Dispatch.

(** ** Concrete runs *)
Module Sample.
Import Notices Reconnect Dispatch.
#[local] Existing Instance RefJid.ops.

Lemma transitions_alternate_witness :
  notices_ok (debounce_over (notifyConnection true false "disconnected" "transport_lost" false fresh)).
Proof.
  refine (transitions_alternate _ _). eapply rtc_l; [apply Notify|]. eapply rtc_l; [apply Elapsed|]. apply rtc_refl.
Defined.

Definition production : bounds := {| ReconnectInitialBackoff := 5 * 10 ^ 9; ReconnectMaxBackoff := 5 * 60 * 10 ^ 9 |}.

Lemma backoff_exact_witness :
  10 * 10 ^ 9 = planned production (failures 0 (take 1 [DialFailed; Reconnected]))
  ∧ ReconnectInitialBackoff production ≤ 10 * 10 ^ 9 ≤ ReconnectMaxBackoff production.
Proof. refine (backoff_exact production [DialFailed; Reconnected] 1 (10 * 10 ^ 9) _ _ _); [done|done|by vm_compute]. Defined.

Definition running : bridge :=
  {| problems := initial; told := fresh; reconnect_signal := false; forceReconnect := false; runtimePaired := true; exit_code := None |}.
Definition quiet_world : world := {| legacy := true; runtime_receiver := false; now := 7; saved := true; removed := true |}.

Lemma unlinked_stays_down_witness :
  let b' := foldl (λ b e, handle_connection "v1" 180 e.1 b e.2) (handle_connection "v1" 180 quiet_world running (EvLoggedOut false 0))
              [(quiet_world, EvStreamError); (quiet_world, EvConnected)] in
  down b' ∧ (wait_round true 9 (problems b')).2 ∈ [RetrySoon; Blocked] ∧
  ∀ w', handle_connection "v1" 180 w' b' EvConnected = b' ∧ handle_connection "v1" 180 w' b' EvDisconnected = b' ∧
        ∀ o r, unlinks o r = true → handle_connection "v1" 180 w' b' (EvLoggedOut o r) = b'.
Proof.
  refine (unlinked_stays_down "v1" 180 quiet_world running false 0 [(quiet_world, EvStreamError); (quiet_world, EvConnected)] true 9 _ _ _);
    reflexivity.
Defined.

Definition caller : RefJid.t := {| RefJid.ref_user := "5511"; RefJid.ref_device := ""; RefJid.ref_server := "s.whatsapp.net" |}.
Definition nobody : RefJid.t := {| RefJid.ref_user := ""; RefJid.ref_device := ""; RefJid.ref_server := "" |}.
Definition ours : RefJid.t := {| RefJid.ref_user := "5522"; RefJid.ref_device := "7"; RefJid.ref_server := "s.whatsapp.net" |}.
Definition at_time (from : RefJid.t) (t : Z) : BasicCallMeta := {| From := from; meta_time := t; CallCreator := caller; GroupJID := nobody; CallID := "c" |}.

(** A call from a peer that our phone picks up. *)
Lemma call_followed_witness :
  Calls.result_ <$> foldl (handle_call None) ∅ [CallOffer (at_time caller 10); CallAccept (at_time ours 20)] !! ("c", "5511@s.whatsapp.net") = Some Calls.answered.
Proof.
  refine (call_followed None [CallOffer (at_time caller 10); CallAccept (at_time ours 20)] "c" caller nobody _ _);
    [by right|by repeat (apply Forall_cons_2; [done|])].
Defined.

End Sample.
