(* ===== verification/ChatNames.v ===== *)
(** * Chat and contact names ([chat_names.go], [contact_names.go])

    Where the name of a chat comes from, what is remembered of it, and when a name
    that only stands in for one is replaced.  The tables of the client library, its
    own contacts and the group metadata are arguments. *)
From S2P Require Import Prelude Jid Archive MediaNames Send.
#[local] Open Scope Z_scope.

(** ** Numbers that stand in for a name *)

(** [localPhoneDigits]: the digits of a formatted number, [None] with another rune. *)
Fixpoint phone_digits (rs : list Z) : option (list Z) :=
  match rs with
  | [] => Some []
  | r :: rest =>
      if within 48 57 r then cons r <$> phone_digits rest
      else if negb (IsSpace r) && negb (bool_decide (r ∈ codes "+()-.")) then None
      else phone_digits rest
  end.

Definition localPhoneDigits (value : string) : string :=
  match phone_digits (runes (codes value)) with Some l => of_codes l | None => "" end.

Section Names.
Context `{JidOps}.

Definition is_direct_server (j : JID) : bool := String.eqb (Server j) DefaultUserServer || String.eqb (Server j) HiddenUserServer.

(** [isPlaceholderName]. *)
Definition isPlaceholderName (name : string) (jid : JID) (twins : list JID) : bool :=
  if negb (is_direct_server jid) then false
  else if String.eqb (trim_space name) "" then true
  else
    let number := localPhoneDigits name in
    if String.eqb number "" then false
    else String.eqb number (User jid) || existsb (λ t, negb (IsEmpty t) && String.eqb number (User t)) twins.

Definition placeholderGroupName (jid : JID) : string := "Group " +:+ User jid.

(** [selfUsers.has]. *)
Definition self_has (self : Chats.selfUsers) (user : string) : bool :=
  negb (String.eqb user "") && (String.eqb user (Chats.phone self) || String.eqb user (Chats.lid self)).

(** [isChatFallbackName]. *)
Definition isChatFallbackName (name : string) (jid : JID) (self : Chats.selfUsers) (twins : list JID) : bool :=
  isPlaceholderName name jid twins || String.eqb name (placeholderGroupName jid) || String.eqb name (User jid)
  || (negb (String.eqb (Server jid) GroupServer) && self_has self name && negb (self_has self (User jid))).

(** ** Contacts *)

(** [localContactIdentity]. *)
Record localContactIdentity := {
  ContactJID : string; ContactName : string; contact_phone : string; contact_jid : JID; twin : JID; original : string;
  needsName : bool; resolved : bool; forceName : bool;
}.

(** What is read of the client library's database and of its contact store: the
    LID map, the name columns of a contact for the account (none when the database
    or the account is missing), and the fields full, push, first, business. *)
Record contact_sources := {
  lid_map : string → option JID; sql_contact : string → list string; sdk_contact : JID → option (string * string * string * string);
}.

(** The first field that is a name. *)
Definition first_name (fields : list string) (jid : JID) (tw : JID) : string :=
  default "" (head (filter (λ v, v ≠ "" ∧ isPlaceholderName v jid [tw] = false) (trim_space <$> fields))).

Definition twin_of (src : contact_sources) (key : string) : JID := default EmptyJID (lid_map src key).

(** [readLocalContactNames] of one identity. *)
Definition readLocalContactName (src : contact_sources) (i : localContactIdentity) : localContactIdentity :=
  let tw := twin_of src (ContactJID i) in
  let ph := if String.eqb (Server tw) DefaultUserServer then User tw else contact_phone i in
  let needs := forceName i || isPlaceholderName (ContactName i) (contact_jid i) [tw] in
  let own := first_name (sql_contact src (ContactJID i)) (contact_jid i) tw in
  let other := if IsEmpty tw then "" else first_name (sql_contact src (JIDString tw)) tw (twin_of src (JIDString tw)) in
  let found := if String.eqb own "" then other else own in
  let hit := needs && negb (String.eqb found "") in
  {| ContactJID := ContactJID i; ContactName := if hit then found else ContactName i; contact_phone := ph; contact_jid := contact_jid i; twin := tw;
     original := original i; needsName := needs; resolved := hit; forceName := forceName i |}.

(** The client library's own contact: its full name wins, its other names fill a miss. *)
Definition with_sdk (src : contact_sources) (i : localContactIdentity) : localContactIdentity :=
  match sdk_contact src (contact_jid i) with
  | Some (full, push, first, business) =>
      if negb (needsName i) then i
      else
        let v := first_name (if resolved i then [full] else [full; push; first; business]) (contact_jid i) (twin i) in
        if String.eqb v "" then i
        else {| ContactJID := ContactJID i; ContactName := v; contact_phone := contact_phone i; contact_jid := contact_jid i; twin := twin i;
                original := original i; needsName := needsName i; resolved := true; forceName := forceName i |}
  | None => i
  end.

(** An identity of the request: its JID, the archived name, and whether a name is
    asked for in any case. *)
Definition prepare (parse : string → JID) (jid name : string) (force : bool) : localContactIdentity :=
  let j := ToNonAD (parse jid) in
  {| ContactJID := JIDString j; ContactName := name; contact_phone := if String.eqb (Server j) DefaultUserServer then User j else "";
     contact_jid := j; twin := EmptyJID; original := jid; needsName := false; resolved := false; forceName := force |}.

(** [resolveLocalContactNames]: direct identities only, the first of each. *)
Fixpoint resolveLocalContactNames (parse : string → JID) (src : contact_sources) (seen : list string) (ids : list (string * string * bool)) :
    list localContactIdentity :=
  match ids with
  | [] => []
  | (jid, name, force) :: rest =>
      let i := prepare parse jid name force in
      if bool_decide (jid ∈ seen) || negb (is_direct_server (contact_jid i)) then resolveLocalContactNames parse src seen rest
      else with_sdk src (readLocalContactName src i) :: resolveLocalContactNames parse src (jid :: seen) rest
  end.

(** ** The cache *)

Definition groupInfoRetryAfter : Z := 10 * 60 * 10 ^ 9.
Definition chatNameTTL : Z := 24 * 3600 * 10 ^ 9.
Definition contactMissTTL : Z := 30 * 10 ^ 9.
Definition contactNameBatchSize : nat := 256.

Record chatNameCache := { cached : gmap string (string * Z); groupErr : gmap string Z; contactMiss : gmap string Z }.

Definition set_cached (m : gmap string (string * Z)) (c : chatNameCache) : chatNameCache :=
  {| cached := m; groupErr := groupErr c; contactMiss := contactMiss c |}.

Definition get (now : Z) (chat : string) (c : chatNameCache) : option string * chatNameCache :=
  match cached c !! chat with
  | None => (None, c)
  | Some (n, expires) => if expires <? now then (None, set_cached (delete chat (cached c)) c) else (Some n, c)
  end.

Definition put (now : Z) (chat name : string) (c : chatNameCache) : chatNameCache :=
  if String.eqb name "" then c else set_cached (<[chat := (name, now + chatNameTTL)]> (cached c)) c.

Definition invalidate (chat : string) (c : chatNameCache) : chatNameCache :=
  {| cached := delete chat (cached c); groupErr := delete chat (groupErr c); contactMiss := delete chat (contactMiss c) |}.

Definition contactLookupAllowed (now : Z) (chat : string) (c : chatNameCache) : bool :=
  match contactMiss c !! chat with Some expires => expires <=? now | None => true end.

(** [rememberContactMiss]; [pick] is the entry the map's iteration meets first. *)
Definition rememberContactMiss (pick : gmap string Z → string) (now : Z) (chat : string) (c : chatNameCache) : chatNameCache :=
  let m := filter (λ kv, now < kv.2) (contactMiss c) in
  let m := if (contactNameBatchSize <=? size m)%nat then delete (pick m) m else m in
  {| cached := cached c; groupErr := groupErr c; contactMiss := <[chat := now + contactMissTTL]> m |}.

Definition groupLookupAllowed (now : Z) (chat : string) (c : chatNameCache) : bool :=
  match groupErr c !! chat with Some last => groupInfoRetryAfter <=? now - last | None => true end.

Definition rememberGroupFailure (now : Z) (chat : string) (c : chatNameCache) : chatNameCache :=
  {| cached := cached c; groupErr := <[chat := now]> (filter (λ kv, now - kv.2 < groupInfoRetryAfter) (groupErr c)); contactMiss := contactMiss c |}.

(** ** The name of a chat *)

(** What one resolution meets: our own identity, the contact sources, whether the
    request is still alive, the answer to a group query (none without a network), the
    time, and the eviction of the miss cache. *)
Record world := {
  self : Chats.selfUsers; sources : contact_sources; parse : string → JID; alive : bool; group_info : JID → option (option string);
  now : Z; pick : gmap string Z → string;
}.

(** [lookupContact]. *)
Definition lookupContact (w : world) (chat archived : string) (force : bool) (c : chatNameCache) : (string * bool * bool) * chatNameCache :=
  if negb (contactLookupAllowed (now w) chat c) then ((archived, true, false), c)
  else
    let '(name, needs, found) := match resolveLocalContactNames (parse w) (sources w) [] [(chat, archived, force)] with
                                 | i :: _ => (ContactName i, needsName i, resolved i)
                                 | [] => ("", false, false)
                                 end in
    ((name, needs, found), if negb found && alive w then rememberContactMiss (pick w) (now w) chat c else c).

(** The name of a group: from the history payload, or from WhatsApp. *)
Definition group_name (w : world) (jid : JID) (chat conversation : string) (allowNetwork : bool) (c : chatNameCache) : string * chatNameCache :=
  if negb (String.eqb conversation "") then (conversation, c)
  else if negb allowNetwork || negb (groupLookupAllowed (now w) chat c) then ("", c)
  else match group_info w jid with
       | None => ("", c)
       | Some answer =>
           match trim_space <$> answer with
           | Some n => if String.eqb n "" then ("", rememberGroupFailure (now w) chat c) else (n, c)
           | None => ("", rememberGroupFailure (now w) chat c)
           end
       end.

(** The last resort: the sender, our number for the chat with ourselves, the user part. *)
Definition fallback_name (w : world) (jid : JID) (sender : string) : string :=
  if negb (String.eqb sender "") && negb (self_has (self w) sender) then sender
  else if self_has (self w) (User jid) then Chats.phone (self w) else User jid.

(** Without an archived name that settles it; [contact] is a lookup already made. *)
Definition fresh_name (w : world) (jid : JID) (chat conversation sender : string) (allowNetwork : bool) (contact : option (string * bool)) (c : chatNameCache) :
    string * chatNameCache :=
  if String.eqb (Server jid) GroupServer then
    let '(name, c) := group_name w jid chat conversation allowNetwork c in
    if String.eqb name "" then (placeholderGroupName jid, c) else (name, put (now w) chat name c)
  else
    let '(name, found, c) := match contact with
                             | Some (name, found) => (name, found, c)
                             | None => let '((name, _, found), c) := lookupContact w chat "" true c in (name, found, c)
                             end in
    if found && negb (String.eqb name "") then (name, put (now w) chat name c) else (fallback_name w jid sender, c).

(** [getChatNameContext]; [own w] is who we are, asked for direct chats only. *)
Definition getChatNameContext (w : world) (jid : JID) (chat conversation sender : string) (allowNetwork : bool) (t : Chats.chats) (c : chatNameCache) :
    string * chatNameCache :=
  let '(hit, c) := get (now w) chat c in
  match hit with
  | Some n => (n, c)
  | None =>
      let me := if String.eqb (Server jid) GroupServer then {| Chats.phone := ""; Chats.lid := "" |} else self w in
      match t !! chat ≫= Chats.name with
      | None => fresh_name w jid chat conversation sender allowNetwork None c
      | Some stored =>
          let existing := trim_space stored in
          if String.eqb existing "" then fresh_name w jid chat conversation sender allowNetwork None c
          else if is_direct_server jid && negb (String.eqb (localPhoneDigits existing) "") then
            let '((name, needs, found), c) := lookupContact w chat existing (isChatFallbackName existing jid me []) c in
            if negb needs || found then (name, put (now w) chat name c)
            else if negb (String.eqb existing (User jid)) && negb (String.eqb existing (placeholderGroupName jid)) && negb (self_has me existing)
            then (existing, c)
            else fresh_name w jid chat conversation sender allowNetwork (Some (name, found)) c
          else if negb (isChatFallbackName existing jid me []) then (existing, put (now w) chat existing c)
          else fresh_name w jid chat conversation sender allowNetwork None c
      end
  end.

(** [conversationName] of the display name and the name of a history payload. *)
Definition conversationName (displayName name : string) : string :=
  if String.eqb (trim_space displayName) "" then trim_space name else trim_space displayName.

(** ** Renames *)

Definition with_name (n : string) (r : Chats.chat_row) : Chats.chat_row :=
  {| Chats.name := Some n; Chats.last_message_time := Chats.last_message_time r; Chats.last_read_time := Chats.last_read_time r;
     Chats.ephemeral_expiration := Chats.ephemeral_expiration r; Chats.ephemeral_setting_timestamp := Chats.ephemeral_setting_timestamp r |}.

(** [RenameChat]: a group's new subject. *)
Definition RenameChat (at_ : Z) (chat name : string) (s : Chats.chats * chatNameCache) : Chats.chats * chatNameCache :=
  let name := trim_space name in
  if String.eqb name "" then s else (alter (with_name name) chat s.1, put at_ chat name s.2).

(** [RenamePlaceholderChat]: only the name the caller read. *)
Definition RenamePlaceholderChat (at_ : Z) (chat expected name : string) (s : Chats.chats * chatNameCache) : Chats.chats * chatNameCache :=
  match s.1 !! chat with
  | Some r => if String.eqb (default "" (Chats.name r)) expected then (<[chat := with_name name r]> s.1, put at_ chat name s.2)
              else (s.1, invalidate chat s.2)
  | None => (s.1, invalidate chat s.2)
  end.

(** The targets of [refreshContactChatName]: the contact, the hint and the known
    alternative, direct users only, each once. *)
Definition add_target (candidate : JID) (l : list JID) : list JID :=
  match normalizedUserJID (JIDString candidate) with
  | Ok j => let j := ToNonAD j in
            if is_direct_server j && negb (bool_decide (JIDString j ∈ JIDString <$> l)) then l ++ [j] else l
  | Err _ => l
  end.

Definition refresh_targets (client : lid_store) (jid hint : JID) : list JID :=
  match normalizedUserJID (JIDString jid) with
  | Err _ => []
  | Ok primary =>
      if negb (is_direct_server primary) then []
      else
        let l := add_target hint (add_target primary []) in
        match lookupAltJID client (ToNonAD primary) with Ok alt => add_target alt l | Err _ => l end
  end.

(** One target: a chat that is archived under a stand-in gets a name. *)
Definition refresh_one (w : world) (eventName : string) (twins : list JID) (s : Chats.chats * chatNameCache) (target : JID) : Chats.chats * chatNameCache :=
  let chat := JIDString target in
  match s.1 !! chat with
  | None => s
  | Some r =>
      let existing := default "" (Chats.name r) in
      let stands n := isChatFallbackName n target (self w) twins in
      if negb (String.eqb (trim_space existing) "") && negb (stands (trim_space existing)) then s
      else
        let '(name, c) := getChatNameContext w target chat "" "" false s.1 (invalidate chat s.2) in
        let name := if String.eqb (trim_space name) "" || stands name then trim_space eventName else name in
        if String.eqb name "" || stands name then (s.1, c) else RenamePlaceholderChat (now w) chat existing name (s.1, c)
  end.

(** [refreshContactChatName], every write succeeding. *)
Definition refreshContactChatName (w : world) (client : lid_store) (jid hint : JID) (eventName : string) (s : Chats.chats * chatNameCache) :
    Chats.chats * chatNameCache :=
  let targets := refresh_targets client jid hint in
  foldl (refresh_one w eventName targets) s targets.

(** ** What a refresh may change *)

Definition healed (w : world) (targets : list JID) (chat : string) (r : Chats.chat_row) (o : option Chats.chat_row) : Prop :=
  ∃ target n, target ∈ targets ∧ chat = JIDString target ∧ o = Some (with_name n r) ∧ n ≠ "" ∧ isChatFallbackName n target (self w) targets = false ∧
  (trim_space (default "" (Chats.name r)) = "" ∨ isChatFallbackName (trim_space (default "" (Chats.name r))) target (self w) targets = true).

Lemma refresh_one_heals w ev targets s target chat :
  target ∈ targets →
  (refresh_one w ev targets s target).1 !! chat = s.1 !! chat ∨
  ∃ r, s.1 !! chat = Some r ∧ healed w targets chat r ((refresh_one w ev targets s target).1 !! chat).
Proof.
  intros Ht. unfold refresh_one. destruct (s.1 !! JIDString target) as [r|] eqn:Er; [|by left].
  destruct (negb (String.eqb (trim_space (default "" (Chats.name r))) "") && negb _) eqn:Hex; [by left|].
  destruct (getChatNameContext _ _ _ _ _ _ _ _) as [nm c]. set (n := if _ || _ then _ else nm).
  destruct (String.eqb n "" || _) eqn:Hn; [by left|]. apply orb_false_iff in Hn as [Hn1 Hn2].
  unfold RenamePlaceholderChat. cbn [fst]. rewrite Er, String.eqb_refl. cbn [fst].
  destruct (decide (JIDString target = chat)) as [<-|Hc]; [|left; by rewrite lookup_insert_ne].
  right. exists r. split; [done|]. exists target, n. rewrite lookup_insert_eq. split_and!; try done; [by apply String.eqb_neq|].
  apply andb_false_iff in Hex as [Hex|Hex]; apply negb_false_iff in Hex; [left; by apply String.eqb_eq|by right].
Qed.

Definition distinct_chats (l : list JID) : Prop := ∀ a b, a ∈ l → b ∈ l → JIDString a = JIDString b → a = b.

Lemma add_target_distinct j l : distinct_chats l → distinct_chats (add_target j l).
Proof.
  intros Hl. unfold add_target. destruct (normalizedUserJID _) as [n|]; [|done].
  destruct (is_direct_server _); [|done]. destruct (decide (JIDString (ToNonAD n) ∈ JIDString <$> l)) as [Hi|Hi];
    [by rewrite bool_decide_true|rewrite bool_decide_false by done]. cbn [andb negb].
  intros a b Ha Hb Hab. apply elem_of_app in Ha, Hb. rewrite !list_elem_of_singleton in Ha, Hb.
  destruct Ha as [Ha| ->], Hb as [Hb| ->]; [by apply Hl|..|done]; destruct Hi; apply list_elem_of_fmap; eauto.
Qed.

Lemma refresh_targets_distinct client jid hint : distinct_chats (refresh_targets client jid hint).
Proof.
  unfold refresh_targets. assert (He : distinct_chats []) by (intros a b Ha; by apply elem_of_nil in Ha).
  destruct (normalizedUserJID _); [|done]. destruct (negb _); [done|].
  destruct (lookupAltJID _ _); auto using add_target_distinct.
Qed.

Lemma refresh_fold_heals w ev targets todo s chat :
  distinct_chats targets → Forall (λ j, j ∈ targets) todo →
  (foldl (refresh_one w ev targets) s todo).1 !! chat = s.1 !! chat ∨
  ∃ r, s.1 !! chat = Some r ∧ healed w targets chat r ((foldl (refresh_one w ev targets) s todo).1 !! chat).
Proof.
  intros Hd Hin. revert s. induction Hin as [|target todo Ht Hin IH]; intros s; [by left|]. cbn [foldl].
  destruct (refresh_one_heals w ev targets s target chat Ht) as [Hk|(r & Hr & Hh)], (IH (refresh_one w ev targets s target)) as [Hk2|(r2 & Hr2 & Hh2)].
  - left. by rewrite Hk2.
  - right. exists r2. by rewrite <- Hk.
  - right. exists r. by rewrite Hk2.
  - right. exists r. split; [done|]. destruct Hh as (t1 & n1 & Ht1 & Hc1 & Hn1 & _ & _ & Hs1).
    destruct Hh2 as (t2 & n2 & Ht2 & Hc2 & Hn2 & Hne & Hf2 & _). rewrite Hn1 in Hr2. injection Hr2 as <-.
    rewrite (Hd t1 t2) in Hs1 by congruence. exists t2, n2. by rewrite Hn2.
Qed.

(** A contact or push name that arrives only fills in for chats that are archived
    under a stand-in (no name, the number, a misplaced label): it never replaces a real name,
    never makes a chat, never touches the times of one, and never writes another stand-in. *)
Theorem refresh_only_heals (w : world) (client : lid_store) (jid hint : JID) (ev : string) (s : Chats.chats * chatNameCache) (chat : string) :
  let s' := refreshContactChatName w client jid hint ev s in
  s'.1 !! chat = s.1 !! chat ∨
  ∃ r, s.1 !! chat = Some r ∧ healed w (refresh_targets client jid hint) chat r (s'.1 !! chat).
Proof. apply refresh_fold_heals; [apply refresh_targets_distinct|by apply Forall_forall]. Qed.

(** ** Our own number is not the name of a peer *)

Lemma with_sdk_needs src i : needsName (with_sdk src i) = needsName i.
Proof. unfold with_sdk. destruct (sdk_contact _ _) as [[[[? ?] ?] ?]|]; [|done]. destruct (negb _); [done|]. by destruct (String.eqb _ _). Qed.

Lemma with_sdk_unneeded src i : needsName i = false → with_sdk src i = i.
Proof. intros Hn. unfold with_sdk. rewrite Hn. by destruct (sdk_contact _ _) as [[[[? ?] ?] ?]|]. Qed.

Section Self.
Context (w : world) (jid : JID) (chat : string).
Context (Hgroup : Server jid ≠ GroupServer) (Hpeer : self_has (self w) (User jid) = false).
(** No contact goes by our number. *)
Context (Hcontacts : ∀ c archived force name needs c',
  lookupContact w chat archived force c = ((name, needs, true), c') → self_has (self w) name = false).

Definition not_ours (c : chatNameCache) : Prop := ∀ n e, cached c !! chat = Some (n, e) → self_has (self w) n = false.

Lemma put_not_ours t n c : self_has (self w) n = false → not_ours c → not_ours (put t chat n c).
Proof.
  intros Hn Hc. unfold put. destruct (String.eqb n ""); [done|]. intros n' e. cbn [cached set_cached]. rewrite lookup_insert_eq. by intros [= <- _].
Qed.

Lemma lookup_cached archived force c : cached (lookupContact w chat archived force c).2 = cached c.
Proof.
  unfold lookupContact. destruct (negb _); [done|].
  destruct (resolveLocalContactNames _ _ _ _) as [|i l]; cbn [snd]; by destruct (negb _ && _).
Qed.

Lemma lookup_unneeded archived force c name c' :
  lookupContact w chat archived force c = ((name, false, false), c') → name = "" ∨ (force = false ∧ name = archived).
Proof.
  unfold lookupContact. destruct (negb _); [done|]. cbn [resolveLocalContactNames].
  destruct (bool_decide _ || _); [intros [= <-]; by left|].
  set (i := readLocalContactName _ _). intros Heq. injection Heq as Hname Hneeds _ _. rewrite with_sdk_needs in Hneeds.
  rewrite with_sdk_unneeded in Hname by done. right. subst i. cbn [readLocalContactName needsName ContactName prepare forceName] in Hname, Hneeds.
  rewrite Hneeds in Hname. apply orb_false_iff in Hneeds as [Hf _]. by rewrite <- Hname.
Qed.

Lemma same_cached c c' : cached c' = cached c → not_ours c → not_ours c'.
Proof. unfold not_ours. by intros ->. Qed.

Lemma fallback_not_ours sender : self_has (self w) (fallback_name w jid sender) = false.
Proof.
  unfold fallback_name. rewrite Hpeer. destruct (negb (String.eqb sender "") && negb (self_has (self w) sender)) eqn:E; [|done].
  apply andb_true_iff in E as [_ E]. by apply negb_true_iff.
Qed.

Lemma fresh_not_ours conversation sender net contact c :
  not_ours c → (∀ name, contact = Some (name, true) → self_has (self w) name = false) →
  self_has (self w) (fresh_name w jid chat conversation sender net contact c).1 = false
  ∧ not_ours (fresh_name w jid chat conversation sender net contact c).2.
Proof.
  intros Hc Hk. unfold fresh_name. rewrite (proj2 (String.eqb_neq _ _) Hgroup).
  assert (Hend : ∀ name found c', (found = true → self_has (self w) name = false) → not_ours c' →
    let r := if found && negb (String.eqb name "") then (name, put (now w) chat name c') else (fallback_name w jid sender, c') in
    self_has (self w) r.1 = false ∧ not_ours r.2).
  { intros name found c' Hf Hc'. destruct found; cbn [andb]; [|by split; [apply fallback_not_ours|]].
    destruct (String.eqb name ""); [by split; [apply fallback_not_ours|]|]. split; [by apply Hf|by apply put_not_ours; [apply Hf|]]. }
  destruct contact as [[name found]|].
  - apply Hend; [|done]. intros ->. by apply Hk.
  - pose proof (lookup_cached "" true c) as Hcc. pose proof (Hcontacts c "" true) as Hl.
    destruct (lookupContact w chat "" true c) as [[[name needs] found] c'] eqn:E. apply Hend.
    + intros ->. by apply (Hl name needs c').
    + by apply (same_cached c).
Qed.

Lemma real_not_ours existing : isChatFallbackName existing jid (self w) [] = false → self_has (self w) existing = false.
Proof.
  unfold isChatFallbackName. rewrite Hpeer, (proj2 (String.eqb_neq _ _) Hgroup). cbn [negb andb]. rewrite andb_true_r.
  intros E. by apply orb_false_iff in E as [_ E].
Qed.

Lemma get_not_ours c : not_ours c → not_ours (get (now w) chat c).2 ∧ (∀ n, (get (now w) chat c).1 = Some n → self_has (self w) n = false).
Proof.
  intros Hc. unfold get. destruct (cached c !! chat) as [[n e]|] eqn:E; [|done]. destruct (e <? now w); cbn [fst snd].
  - split; [|done]. intros n' e'. cbn. by rewrite lookup_delete_eq.
  - split; [done|]. intros ? [= <-]. exact (Hc _ _ E).
Qed.

Lemma chat_name_not_ours conversation sender net t c :
  not_ours c →
  self_has (self w) (getChatNameContext w jid chat conversation sender net t c).1 = false
  ∧ not_ours (getChatNameContext w jid chat conversation sender net t c).2.
Proof.
  intros Hc. unfold getChatNameContext. destruct (get_not_ours c Hc) as [Hg Hh]. destruct (get (now w) chat c) as [[n|] c1]; cbn [fst snd] in *.
  { split; [by apply Hh|done]. }
  rewrite (proj2 (String.eqb_neq _ _) Hgroup).
  destruct (t !! chat ≫= Chats.name) as [stored|]; [|by apply fresh_not_ours].
  destruct (String.eqb (trim_space stored) ""); [by apply fresh_not_ours|].
  destruct (is_direct_server jid && _).
  - pose proof (lookup_cached (trim_space stored) (isChatFallbackName (trim_space stored) jid (self w) []) c1) as Hcc.
    destruct (lookupContact w chat (trim_space stored) _ c1) as [[[name needs] found] c2] eqn:E. cbn [snd] in Hcc.
    pose proof (same_cached c1 c2 Hcc Hg) as Hc2.
    assert (Hname : needs = false ∨ found = true → self_has (self w) name = false).
    { intros Hnf. destruct found; [by apply (Hcontacts _ _ _ _ _ _ E)|]. destruct Hnf as [-> |]; [|done].
      apply lookup_unneeded in E as [-> |[Hf ->]]; [done|by apply real_not_ours]. }
    destruct (negb needs || found) eqn:Hnf.
    { assert (Hn : self_has (self w) name = false) by (apply Hname; destruct needs, found; auto). split; [done|by apply put_not_ours]. }
    destruct (_ && negb (self_has (self w) (trim_space stored))) eqn:Hs.
    { apply andb_true_iff in Hs as [_ Hs%negb_true_iff]. by split. }
    apply fresh_not_ours; [done|]. intros ? [= _ ->]. by rewrite orb_true_r in Hnf.
  - destruct (isChatFallbackName (trim_space stored) jid (self w) []) eqn:Hf; cbn [negb]; [by apply fresh_not_ours|].
    apply real_not_ours in Hf as Hn. split; [done|by apply put_not_ours].
Qed.

End Self.

(** A direct chat with somebody else is never called by our own number or LID,
    neither in the answer nor in what is remembered of it, unless a contact is
    saved under it: a row that was once labelled so heals, and a message we sent first
    does not name the chat after us. *)
Theorem never_named_after_us (w : world) (jid : JID) (chat conversation sender : string) (net : bool) (t : Chats.chats) (c : chatNameCache)
    (Hgroup : Server jid ≠ GroupServer) (Hpeer : self_has (self w) (User jid) = false)
    (Hcontacts : ∀ c archived force name needs c', lookupContact w chat archived force c = ((name, needs, true), c') → self_has (self w) name = false)
    (Hcache : not_ours w chat c) :
  self_has (self w) (getChatNameContext w jid chat conversation sender net t c).1 = false
  ∧ not_ours w chat (getChatNameContext w jid chat conversation sender net t c).2.
Proof. by apply chat_name_not_ours. Qed.

(** The misses that are remembered stay within one batch. *)
Lemma misses_bounded pick now chat c :
  (∀ m : gmap string Z, m ≠ ∅ → is_Some (m !! pick m)) → (size (contactMiss c) ≤ contactNameBatchSize)%nat →
  (size (contactMiss (rememberContactMiss pick now chat c)) ≤ contactNameBatchSize)%nat.
Proof.
  intros Hp Hc. unfold rememberContactMiss. cbn [contactMiss]. set (m := filter _ (contactMiss c)).
  assert (Hm : (size m ≤ contactNameBatchSize)%nat).
  { etrans; [|exact Hc]. apply map_subseteq_size, map_filter_subseteq. }
  assert (Hi : ∀ m' : gmap string Z, (size (<[chat := (now + contactMissTTL)%Z]> m') ≤ S (size m'))%nat).
  { intros m'. destruct (m' !! chat) eqn:E; [rewrite map_size_insert_Some by eauto|rewrite map_size_insert_None by done]; lia. }
  destruct (Nat.leb_spec contactNameBatchSize (size m)) as [Hs|Hs]; [|specialize (Hi m); lia].
  etrans; [apply Hi|]. destruct (decide (m = ∅)) as [He|He]; [rewrite He, map_size_empty in Hs; unfold contactNameBatchSize in Hs; lia|].
  rewrite map_size_delete_Some by (by apply Hp). unfold contactNameBatchSize in *. lia.
Qed.

End Names.

(** ** A chat we started *)
Module Sample.
#[local] Existing Instance RefJid.ops.

Definition peer : RefJid.t := {| RefJid.ref_user := "5511"; RefJid.ref_device := ""; RefJid.ref_server := "s.whatsapp.net" |}.
Definition nobody : contact_sources := {| lid_map := λ _, None; sql_contact := λ _, []; sdk_contact := λ _, None |}.
Definition us : world := {|
  self := {| Chats.phone := "5522"; Chats.lid := "77" |}; sources := nobody; parse := λ _, peer; alive := true; group_info := λ _, None; now := 0;
  pick := λ _, "" |}.
(** The chat carries our own number as its name. *)
Definition mislabelled : Chats.chats := {["5511@s.whatsapp.net" := with_name "5522" Chats.empty_row]}.
Definition nothing_known : chatNameCache := {| cached := ∅; groupErr := ∅; contactMiss := ∅ |}.

Lemma never_named_after_us_witness :
  self_has (self us) (getChatNameContext us peer "5511@s.whatsapp.net" "" "5522" true mislabelled nothing_known).1 = false
  ∧ not_ours us "5511@s.whatsapp.net" (getChatNameContext us peer "5511@s.whatsapp.net" "" "5522" true mislabelled nothing_known).2.
Proof.
  refine (never_named_after_us us peer "5511@s.whatsapp.net" "" "5522" true mislabelled nothing_known _ _ _ _); [done|done| |done].
  intros c archived force name needs c'. unfold lookupContact. destruct (negb _); [done|]. cbn. intros [= _ _ Hf _]. by rewrite andb_false_r in Hf.
Defined.

End Sample.
