(* ===== verification/HistorySync.v ===== *)
(** * Importing history ([history_sync.go], [history_share_guard.go], [history_limits.go], [location.go])

    What a conversation of a history payload does to the archive: the rows of its
    chunks, each one transaction with its activity; the replay of a chunk whose commit failed
    row by row; the edits and the votes after the rows.  A payload comes from our own
    phone, or from a peer that shared a group's history.  The outcome of every commit is an
    argument. *)
From S2P Require Import Prelude Jid StoreTime Archive Messages MarkRead Polls Content Inbound.
#[local] Open Scope Z_scope.

Definition historyBatchMessages : nat := 500.

(** Slices of at most [n] rows, in order; [fuel] slices at most. *)
Fixpoint slices {A} (fuel n : nat) (l : list A) : list (list A) :=
  match fuel, l with
  | O, _ | _, [] => []
  | S f, _ => take n l :: slices f n (drop n l)
  end.

(** ** The chunk loop *)

(** How a commit ends; [Stopping]: the bridge is shutting down. *)
Inductive commit : Type := Committed | BusyError | OtherError | Stopping.

(** A run of rows and what became of it. *)
Inductive piece (A : Type) : Type := Stored (rows : list A) | Lost (rows : list A).
Arguments Stored {A}. Arguments Lost {A}.

(** All rows tried; given up at a row because the database stayed busy; stopped. *)
Inductive loop_end : Type := Done | GaveUp (processed : nat) | Stopped.

Section Loop.
Context {A : Type}.

(** The replay of a bad chunk, one row at a time; [rest] follows the chunk. *)
Fixpoint replay_rows (single : nat → commit) (i : nat) (rows rest : list A) : list (piece A) * loop_end :=
  match rows with
  | [] => ([], Done)
  | r :: rs =>
      match single i with
      | Committed => let '(ps, e) := replay_rows single (S i) rs rest in (Stored [r] :: ps, e)
      | BusyError => ([Lost (r :: rs ++ rest)], GaveUp i)
      | OtherError => let '(ps, e) := replay_rows single (S i) rs rest in (Lost [r] :: ps, e)
      | Stopping => ([], Stopped)
      end
  end.

Fixpoint import_chunks (whole single : nat → commit) (i : nat) (chunks : list (list A)) : list (piece A) * loop_end :=
  match chunks with
  | [] => ([], Done)
  | c :: cs =>
      match whole i with
      | Committed => let '(ps, e) := import_chunks whole single (i + length c) cs in (Stored c :: ps, e)
      | BusyError => ([Lost (c ++ mjoin cs)], GaveUp i)
      | OtherError =>
          let '(ps, e) := replay_rows single i c (mjoin cs) in
          match e with
          | Done => let '(qs, e) := import_chunks whole single (i + length c) cs in (ps ++ qs, e)
          | _ => (ps, e)
          end
      | Stopping => ([], Stopped)
      end
  end.

Definition import_rows (whole single : nat → commit) (messages : list A) : list (piece A) * loop_end :=
  import_chunks whole single 0 (slices (length messages) historyBatchMessages messages).

Definition piece_rows (p : piece A) : list A := match p with Stored l | Lost l => l end.

(** The rows whose edits and votes are looked at. *)
Definition processed (messages : list A) (e : loop_end) : list A := match e with GaveUp n => take n messages | _ => messages end.

Lemma slices_join fuel (l : list A) : (length l ≤ fuel)%nat → mjoin (slices fuel historyBatchMessages l) = l.
Proof.
  revert l. induction fuel as [|f IH]; intros l Hl; [by destruct l; [|cbn in Hl; lia]|].
  destruct l as [|a l]; [done|]. cbn [slices mjoin list_join]. change (take historyBatchMessages (a :: l) ++ mjoin (slices f historyBatchMessages (drop historyBatchMessages (a :: l))) = a :: l).
  rewrite IH; [apply take_drop|]. rewrite length_drop. unfold historyBatchMessages. cbn [length] in *. lia.
Qed.

(** What a run of the loop over [l] from index [i] accounts for. *)
Record accounted (i : nat) (l : list A) (ps : list (piece A)) (e : loop_end) : Prop := {
  acc_all : e ≠ Stopped → mjoin (piece_rows <$> ps) = l;
  acc_prefix : ∃ tail, mjoin (piece_rows <$> ps) ++ tail = l;
  acc_given : ∀ n, e = GaveUp n → (i ≤ n)%nat ∧ ∃ qs, ps = qs ++ [Lost (drop (n - i) l)] ∧ Forall (λ p, ∀ r, p = Lost r → length r = 1%nat) qs;
  acc_single : (∀ n, e ≠ GaveUp n) → Forall (λ p, ∀ r, p = Lost r → length r = 1%nat) ps;
}.

Definition single_losses (ps : list (piece A)) : Prop := Forall (λ p, ∀ r, p = Lost r → length r = 1%nat) ps.

Lemma acc_nothing i : accounted i [] [] Done.
Proof. split; [done|by exists []|done|by constructor]. Qed.

Lemma acc_stopped i l : accounted i l [] Stopped.
Proof. split; [done|by exists l|done|by constructor]. Qed.

Lemma acc_given_up i l : accounted i l [Lost l] (GaveUp i).
Proof.
  split; [intros _; cbn; apply app_nil_r|exists []; cbn; by rewrite !app_nil_r| |intros Hn; by destruct (Hn i)].
  intros n [= <-]. split; [done|]. exists []. rewrite Nat.sub_diag. by split; [|constructor].
Qed.

Lemma acc_one i c p : piece_rows p = c → (∀ r, p = Lost r → length r = 1%nat) → accounted i c [p] Done.
Proof.
  intros Hc Hp. split; [intros _; cbn; by rewrite app_nil_r|exists []; cbn; by rewrite !app_nil_r|done|]. intros _. by constructor; [|constructor].
Qed.

Lemma join_app (ps qs : list (piece A)) : mjoin (piece_rows <$> ps ++ qs) = mjoin (piece_rows <$> ps) ++ mjoin (piece_rows <$> qs).
Proof. by rewrite fmap_app, join_app. Qed.

Lemma acc_append i c l ps qs e : accounted i c ps Done → accounted (i + length c) l qs e → accounted i (c ++ l) (ps ++ qs) e.
Proof.
  intros [Ha _ _ Hs] [Hb Hp Hg Ht]. specialize (Ha ltac:(done)). specialize (Hs ltac:(done)). split; rewrite ?join_app, ?Ha.
  - intros He. by rewrite Hb.
  - destruct Hp as [tail <-]. exists tail. by rewrite <- app_assoc.
  - intros n Hn. destruct (Hg n Hn) as (Hi & ts & -> & Hts). split; [lia|]. exists (ps ++ ts). split; [|by apply Forall_app].
    rewrite <- app_assoc, drop_app_ge by lia. by replace (n - i - length c)%nat with (n - (i + length c))%nat by lia.
  - intros Hn. apply Forall_app. by split; [|apply Ht].
Qed.

Lemma replay_accounted single i rows rest :
  let '(ps, e) := replay_rows single i rows rest in accounted i (match e with Done => rows | _ => rows ++ rest end) ps e.
Proof.
  revert i. induction rows as [|r rs IH]; intros i; cbn [replay_rows]; [apply acc_nothing|].
  specialize (IH (S i)). destruct (single i); [| |  |apply acc_stopped].
  2: apply acc_given_up.
  all: destruct (replay_rows single (S i) rs rest) as [ps e].
  1: assert (Ho : accounted i [r] [Stored [r]] Done) by (by apply acc_one).
  2: assert (Ho : accounted i [r] [Lost [r]] Done) by (apply acc_one; [done|by intros ? [= <-]]).
  all: replace (S i) with (i + length [r])%nat in IH by (cbn; lia).
  all: pose proof (acc_append _ _ _ _ _ _ Ho IH) as Hr; by destruct e.
Qed.

Lemma chunks_accounted whole single i chunks :
  let '(ps, e) := import_chunks whole single i chunks in accounted i (mjoin chunks) ps e.
Proof.
  revert i. induction chunks as [|c cs IH]; intros i; cbn [import_chunks]; [apply acc_nothing|].
  change (mjoin (c :: cs)) with (c ++ mjoin cs). specialize (IH (i + length c)%nat).
  destruct (whole i); [| apply acc_given_up | |apply acc_stopped].
  - destruct (import_chunks _ _ _ cs) as [ps e]. by apply (acc_append i c _ [Stored c]); [apply acc_one|].
  - pose proof (replay_accounted single i c (mjoin cs)) as Hr. destruct (replay_rows single i c (mjoin cs)) as [ps []]; [|done..].
    destruct (import_chunks _ _ _ cs) as [qs e]. by apply acc_append.
Qed.

Lemma rows_accounted whole single messages :
  let '(ps, e) := import_rows whole single messages in accounted 0 messages ps e.
Proof.
  unfold import_rows. pose proof (chunks_accounted whole single 0 (slices (length messages) historyBatchMessages messages)) as Hc.
  by rewrite slices_join in Hc.
Qed.

End Loop.

Lemma store_chat_read chat name at_ (c : Chats.chats) jid :
  Chats.storeChatWith chat name at_ c !! jid ≫= Chats.last_read_time = c !! jid ≫= Chats.last_read_time.
Proof.
  unfold Chats.storeChatWith. destruct (decide (chat = jid)) as [<-|Hj]; destruct (c !! chat) eqn:E;
    rewrite ?lookup_insert_eq, ?lookup_insert_ne by done; try done; by rewrite ?E.
Qed.

Section Importing.
Context `{JidOps} `{Sqlite} `{Floats}.
Context (unwrap : Message → option Message * bool) (num : float → jval) (int : Z → jval) (presentation : Message → option string)
  (marshal : messageLocation → string) (clock : Z → string).

Abbreviation extract_ := (extract unwrap num int clock).
Abbreviation persist := (persistMessageResult unwrap num int presentation marshal clock true).

(** ** Rows of a payload *)

(** [waWeb.WebMessageInfo]: the key (absent, or the id, the owner and its
    participant) and the chat it names, the participant, the time in seconds, the
    payload, and the wire author the SDK selects. *)
Record web_message := {
  w_key : option (string * bool * string); w_remote : string; w_participant : string; w_time : Z; w_payload : option Message; w_wire : string;
}.

Definition w_id (m : web_message) : string := match w_key m with Some (id, _, _) => id | None => "" end.

(** A history row; [None] is a nil pointer. *)
Abbreviation row := (option web_message).

Definition is_vote (m : web_message) : bool := match w_payload m with Some p => HasPollUpdate (parts_of p) | None => false end.

(** The account and its LID store. *)
Record account := { acc_client : lid_store; acc_id : option JID }.

(** [historySenderContext]. *)
Definition historySenderContext (a : account) (m : web_message) (chat : JID) (peer : bool) : JID * bool :=
  match w_key m with
  | None => (chat, false)
  | Some (_, own, key_participant) =>
      let self := match acc_id a with Some j => if IsEmpty (ToNonAD j) then None else Some (ToNonAD j) | None => None end in
      let participant := if String.eqb (w_participant m) "" then key_participant else w_participant m in
      let raw := match (if own then self else None) with
                 | Some me => me
                 | None => if String.eqb participant "" then chat
                           else match ParseJID participant with Ok j => j | Err _ => NewJID participant "" end
                 end in
      if peer then (raw, own)
      else (resolveUserJIDContext (acc_client a) raw (if own then default EmptyJID self else EmptyJID), own)
  end.

(** [liveLocationSender]: an archived LID author a verified phone author stands for. *)
Definition liveLocationSender (client : lid_store) (t : messages) (id chat author : string) (fromMe : bool) : result alt_error string :=
  match t !! (id, chat) with
  | None => Ok author
  | Some r =>
      if negb (bool_decide (sender_server r = Some HiddenUserServer)) || negb (Bool.eqb (is_from_me r) fromMe) then Ok author
      else
        let previous := NewJID (sender r) HiddenUserServer in
        match lookupAltJID client previous with
        | Err e => Err e
        | Ok verified => Ok (if negb (IsEmpty verified) && String.eqb (storedSender (ToNonAD verified)) author then JIDString previous else author)
        end
  end.

(** [historyLocationInitialTimes]: the earliest first sample of each live location. *)
Definition historyLocationInitialTimes (a : account) (rows : list row) (chat : JID) (fallback : Z) : gmap (string * string * bool) Z :=
  foldl (λ m r, match r with
                | None => m
                | Some i =>
                    match x_location (extract_ (w_payload i) fallback (w_id i)) with
                    | Some p => if Live p && negb (location_update p) && negb (String.eqb (w_id i) "") && negb (w_time i =? 0)
                                then let '(author, own) := historySenderContext a i chat false in
                                     let k := (w_id i, storedSender author, own) in
                                     <[k := match m !! k with Some old => Z.min old (w_time i * 10 ^ 9) | None => w_time i * 10 ^ 9 end]> m
                                else m
                    | None => m
                    end
                end) ∅ rows.

(** ** One chunk *)

(** A conversation: its chat as named and as resolved, the name to record, whether
    it comes from a peer, the time that names its files, the read state, and the first
    times of its live locations. *)
Record conversation := {
  c_jid : JID; c_resolved : JID; c_name : string; c_peer : bool; c_fallback : Z; c_unread : option Z; c_marked_unread : bool;
  c_expiration : Z; c_setting_time : Z; c_messages : list row;
}.

Definition c_chat (c : conversation) : string := JIDString (c_resolved c).

(** Whether the own phone says everything was read. *)
Definition marks_read (c : conversation) : bool := negb (c_peer c) && bool_decide (c_unread c = Some 0) && negb (c_marked_unread c).

(** [historyRowExists]. *)
Definition historyRowExists (id chat : string) (s : store) : bool :=
  bool_decide (is_Some (s_rows s !! (id, chat))) || bool_decide (is_Some (polls (s_polls s) !! (id, chat))).

(** The author a row is stored under, prepared before the chunk's transaction. *)
Definition prepared_author (a : account) (c : conversation) (t : messages) (m : web_message) (x : extracted) : string :=
  let '(author, own) := historySenderContext a m (c_jid c) (c_peer c) in
  if negb (c_peer c) && is_live_location x
  then match liveLocationSender (acc_client a) t (w_id m) (c_chat c) (storedSender author) own with Ok s => s | Err _ => storedSender author end
  else storedSender author.

(** The time of a row: a later sample of a live location has the time of its first. *)
Definition row_time (c : conversation) (initial : gmap (string * string * bool) Z) (author : string) (own : bool) (m : web_message) (x : extracted) : Z :=
  match x_location x with
  | Some p => if negb (c_peer c) && Live p && location_update p then default (w_time m * 10 ^ 9) (initial !! (w_id m, author, own)) else w_time m * 10 ^ 9
  | None => w_time m * 10 ^ 9
  end.

(** One row in the transaction: the store, and the ids it accepted. *)
Definition store_row (a : account) (c : conversation) (before : messages) (initial : gmap (string * string * bool) Z) (st : store * list string) (r : row) :
    store * list string :=
  let '(s, ids) := st in
  match r with
  | None => st
  | Some m =>
      let x := extract_ (w_payload m) (c_fallback c) (w_id m) in
      if is_vote m || bool_decide (is_Some (x_edit x)) || is_empty x then st
      else if c_peer c && historyRowExists (w_id m) (c_chat c) s then st
      else if w_time m =? 0 then st
      else
        let own := (historySenderContext a m (c_jid c) (c_peer c)).2 in
        let author := prepared_author a c before m x in
        let '(s, consumed) := persist (w_id m) (c_chat c) author (row_time c initial author own m x) own x (declared_length x)
                                (JIDString (c_jid c)) (w_wire m) false s in
        (s, if consumed then ids else w_id m :: ids)
  end.

(** [storeHistoryActivity]: the latest of the accepted rows. *)
Definition storeHistoryActivity (chat name : string) (ids : list string) (markRead : bool) (s : store) : store :=
  match MaxMessageTimestamp chat ids {| rows := s_rows s; chat_rows := s_chats s |} with
  | None => s
  | Some t =>
      let c := Chats.storeChatWith chat name (Some (t * 10 ^ 9)) (s_chats s) in
      set_chats (if markRead then Chats.markChatReadWith chat (t * 10 ^ 9) c else c) s
  end.

(** [storeChunk]. *)
Definition storeChunk (a : account) (c : conversation) (initial : gmap (string * string * bool) Z) (s : store) (chunk : list row) : store :=
  let '(s', ids) := foldl (store_row a c (s_rows s) initial) (s, []) chunk in
  match ids with
  | [] => s'
  | _ => storeHistoryActivity (c_chat c) (if c_peer c then "" else c_name c) ids (marks_read c) s'
  end.

(** ** One conversation *)

(** The edit of a row, applied after the rows. *)
Definition apply_history_edit (a : account) (c : conversation) (written : string → bool) (t : messages) (r : row) : messages :=
  match r with
  | None => t
  | Some m =>
      match x_edit (extract_ (w_payload m) (c_fallback c) (w_id m)) with
      | Some p =>
          let target := default "" (pr_key p) in
          let '(author, own) := historySenderContext a m (c_jid c) false in
          if negb (written target) then t
          else match liveLocationSender (acc_client a) t target (c_chat c) (storedSender author) own with
               | Ok snd => apply_edit unwrap num int clock (c_chat c) snd own p (w_time m * 10 ^ 9) t
               | Err _ => t
               end
      | None => t
      end
  end.

(** [noteHistoryLoss]: the rows that would have been stored. *)
Definition noteHistoryLoss (fallback : Z) (rows : list row) : nat :=
  length (filter (λ r, match r with
                       | Some m => negb (w_time m =? 0) && negb (is_vote m) && negb (is_empty (extract_ (w_payload m) fallback (w_id m)))
                       | None => false
                       end = true) rows).

(** What a conversation meets: whether its chat row and its settings are written, the
    commits, the edits that are written, and whether the bridge stops after the chat row
    failed or before the edit of a row. *)
Record conversation_world := {
  chat_written : bool; settings_written : bool; whole : nat → commit; single : nat → commit; edit_written : string → bool;
  chat_stops : bool; edit_stops : nat → bool;
}.

(** The edits of the rows from index [i], and whether the bridge stopped on the way. *)
Fixpoint history_edits (a : account) (c : conversation) (w : conversation_world) (i : nat) (rows : list row) (t : messages) : messages * bool :=
  match rows with
  | [] => (t, false)
  | r :: rows =>
      let has_edit := match r with Some m => bool_decide (is_Some (x_edit (extract_ (w_payload m) (c_fallback c) (w_id m)))) | None => false end in
      if has_edit && edit_stops w i then (t, true) else history_edits a c w (S i) rows (apply_history_edit a c (edit_written w) t r)
  end.

(** What it leaves: the store, the votes to decode, the rows counted as lost, and
    whether it was stopped. *)
Record imported := { im_store : store; im_votes : list web_message; im_lost : nat; im_stopped : bool }.

Definition first_usable (messages : list row) : bool :=
  match messages with Some m :: _ => negb (w_time m =? 0) | _ => false end.

(** The rows of the pieces that were committed. *)
Definition committed (ps : list (piece row)) : list (list row) := omap (λ p, match p with Stored l => Some l | Lost _ => None end) ps.
Definition lost (ps : list (piece row)) : list (list row) := omap (λ p, match p with Lost l => Some l | Stored _ => None end) ps.

(** The part of [handleHistorySyncWithSharesContext] for one conversation; the
    repair of twin rows is in [Messages]. *)
Definition import_conversation (a : account) (c : conversation) (w : conversation_world) (s : store) : imported :=
  let nothing n stopped := {| im_store := s; im_votes := []; im_lost := n; im_stopped := stopped |} in
  if negb (first_usable (c_messages c)) then nothing O false
  else if negb (chat_written w) then if chat_stops w then nothing O true else nothing (noteHistoryLoss (c_fallback c) (c_messages c)) false
  else
    let s := set_chats (Chats.storeChatWith (c_chat c) (c_name c) None (s_chats s)) s in
    let s := if c_peer c || negb (settings_written w) then s
             else set_chats (Chats.UpdateChatEphemeralSettings (c_chat c) (c_expiration c) (c_setting_time c) (s_chats s)) s in
    let initial := if c_peer c then ∅ else historyLocationInitialTimes a (c_messages c) (c_jid c) (c_fallback c) in
    let '(ps, e) := import_rows (whole w) (single w) (c_messages c) in
    let s := foldl (storeChunk a c initial) s (committed ps) in
    let n := sum_list (noteHistoryLoss (c_fallback c) <$> lost ps) in
    match e with
    | Stopped => {| im_store := s; im_votes := []; im_lost := n; im_stopped := true |}
    | _ =>
        let tried := processed (c_messages c) e in
        if c_peer c then {| im_store := s; im_votes := []; im_lost := n; im_stopped := false |}
        else
          let '(t, stopped) := history_edits a c w 0 tried (s_rows s) in
          {| im_store := {| s_chats := s_chats s; s_rows := t; s_polls := s_polls s |};
             im_votes := if stopped then [] else filter (λ m, is_vote m = true) (omap (λ r, r) tried); im_lost := n; im_stopped := stopped |}
    end.

(** ** A payload *)

(** [waHistorySync.Conversation]: its id, its own name, its unread count and mark, the
    disappearing-message settings and the rows. *)
Record raw_conversation := {
  h_id : option string; h_display : string; h_unread : option Z; h_marked_unread : bool; h_expiration : Z; h_setting_time : Z; h_messages : list row;
}.

(** The age guard ([boundedHistory]). *)
Definition too_old (cutoff : Z) (r : row) : bool :=
  match r with Some m => (0 <? w_time m) && (w_time m <? Z.max cutoff 0) | None => false end.

Definition with_messages (l : list row) (c : raw_conversation) : raw_conversation :=
  {| h_id := h_id c; h_display := h_display c; h_unread := h_unread c; h_marked_unread := h_marked_unread c; h_expiration := h_expiration c;
     h_setting_time := h_setting_time c; h_messages := l |}.

Definition boundedHistory (max_age now : Z) (cs : list raw_conversation) : list raw_conversation :=
  if max_age <=? 0 then cs
  else
    let cutoff := (now - max_age) / 10 ^ 9 in
    omap (λ c, match filter (λ r, too_old cutoff r = false) (h_messages c) with
               | [] => None
               | rows => Some (with_messages rows c)
               end) cs.

(** A conversation whose id parses; [chat_name] is what [getChatNameContext] answers
    ([ChatNames]).  The time of its first row names its files. *)
Definition open_conversation (a : account) (chat_name : JID → raw_conversation → string) (peer : bool) (h : raw_conversation) : option conversation :=
  id ← h_id h;
  match ParseJID id with
  | Err _ => None
  | Ok jid =>
      let resolved := resolveLIDChatContext (acc_client a) jid EmptyJID EmptyJID false in
      Some {| c_jid := jid; c_resolved := resolved; c_name := chat_name resolved h; c_peer := peer;
              c_fallback := match h_messages h with Some m :: _ => w_time m * 10 ^ 9 | _ => 0 end;
              c_unread := h_unread h; c_marked_unread := h_marked_unread h; c_expiration := h_expiration h; c_setting_time := h_setting_time h;
              c_messages := h_messages h |}
  end.

(** What a payload leaves: the votes to decode by chat, none when it was stopped. *)
Record synced := { sy_store : store; sy_votes : list (string * list web_message); sy_lost : nat; sy_stopped : bool }.

(** The conversations in order; [stops i] answers the checks before the [i]-th, and
    [ws i] is what it meets. *)
Fixpoint import_all (a : account) (chat_name : JID → raw_conversation → string) (peer : bool) (stops : nat → bool) (ws : nat → conversation_world) (i : nat)
    (hs : list raw_conversation) (s : store) : synced :=
  match hs with
  | [] => {| sy_store := s; sy_votes := []; sy_lost := 0; sy_stopped := false |}
  | h :: hs =>
      if stops i then {| sy_store := s; sy_votes := []; sy_lost := 0; sy_stopped := true |}
      else match open_conversation a chat_name peer h with
      | None => import_all a chat_name peer stops ws (S i) hs s
      | Some c =>
          let r := import_conversation a c (ws i) s in
          if im_stopped r then {| sy_store := im_store r; sy_votes := []; sy_lost := im_lost r; sy_stopped := true |}
          else
            let rest := import_all a chat_name peer stops ws (S i) hs (im_store r) in
            {| sy_store := sy_store rest; sy_votes := (if sy_stopped rest then [] else match im_votes r with [] => [] | v => [(c_chat c, v)] end ++ sy_votes rest);
               sy_lost := im_lost r + sy_lost rest; sy_stopped := sy_stopped rest |}
      end
  end.

(** [handleHistorySyncWithSharesContext]. *)
Definition handleHistorySyncWithSharesContext (a : account) (max_age now : Z) (chat_name : JID → raw_conversation → string) (peer : bool) (stops : nat → bool)
    (ws : nat → conversation_world) (data : list raw_conversation) (s : store) : synced :=
  import_all a chat_name peer stops ws 0 (boundedHistory max_age now data) s.

(** ** Progress ([historyProgress]) *)

Inductive sync_type : Type := INITIAL_BOOTSTRAP | RECENT | FULL | OTHER_SYNC.
Inductive history_state : Type := Idle | Syncing | Complete.

Record historyStatus := { h_state : history_state; Progress : Z; Conversations : Z; Messages_ : Z }.

Definition update (kind : sync_type) (progress conversations count : Z) (p : historyStatus) : historyStatus :=
  let p := match kind, h_state p with
           | OTHER_SYNC, _ | _, Complete => p
           | _, _ => {| h_state := if 100 <=? progress then Complete else Syncing; Progress := Z.max (Progress p) (Z.min progress 100);
                        Conversations := Conversations p; Messages_ := Messages_ p |}
           end in
  {| h_state := h_state p; Progress := Progress p; Conversations := Conversations p + conversations; Messages_ := Messages_ p + count |}.

(** ** A peer's history only adds *)

Definition read_time (s : store) (jid : string) : option Z := s_chats s !! jid ≫= Chats.last_read_time.

Record adds_only (s s' : store) : Prop := {
  rows_kept : s_rows s ⊆ s_rows s';
  polls_kept : polls (s_polls s) ⊆ polls (s_polls s');
  votes_kept : poll_votes (s_polls s') = poll_votes (s_polls s);
  read_kept : ∀ jid, read_time s' jid = read_time s jid;
}.

#[export] Instance adds_only_preorder : PreOrder adds_only.
Proof. split; [by split|]. intros s1 s2 s3 [] []. split; [by etrans..|congruence|]. intros jid. congruence. Qed.

Lemma alter_fresh (f : message_row → message_row) (k : key) (t t' : messages) : t ⊆ t' → t !! k = None → t ⊆ alter f k t'.
Proof.
  intros Ht Hk. apply map_subseteq_spec. intros k' r Hr. rewrite lookup_alter_ne by (intros ->; congruence).
  eapply lookup_weaken; eauto.
Qed.

Lemma persist_adds id chat author ts own x declared rc rs s s' consumed :
  x_edit x = None → historyRowExists id chat s = false →
  persist id chat author ts own x declared rc rs false s = (s', consumed) → adds_only s s'.
Proof.
  intros Hx Hnew. unfold historyRowExists in Hnew. apply orb_false_iff in Hnew as [Hr Hp].
  apply bool_decide_eq_false, eq_None_not_Some in Hr, Hp. unfold persistMessageResult. rewrite Hx.
  assert (updateLiveLocationWith marshal (id, chat) author own (x_location x) (s_rows s) = (false, s_rows s)) as ->.
  { unfold updateLiveLocationWith. cbn [fst]. destruct (String.eqb id ""); [done|]. destruct (splitSenderJID author). by rewrite Hr. }
  intros [= <- _]. set (t := StoreMessage true _ (s_rows s)).
  assert (Ht : s_rows s ⊆ t).
  { subst t. unfold StoreMessage. destruct (_ && _); [done|]. by apply insert_subseteq. }
  split; cbn [s_rows s_polls s_chats].
  - destruct (viewOnce x); [by apply alter_fresh|done].
  - destruct (x_poll x); [by apply insert_subseteq|done].
  - by destruct (x_poll x).
  - done.
Qed.

Lemma store_row_adds a c before initial st r : c_peer c = true → adds_only st.1 (store_row a c before initial st r).1.
Proof.
  intros Hp. destruct st as [s ids]. unfold store_row. destruct r as [m|]; [|done]. rewrite Hp. cbn [andb].
  set (x := extract_ _ _ _). destruct (is_vote m || bool_decide (is_Some (x_edit x)) || is_empty x) eqn:Hskip; [done|].
  destruct (historyRowExists _ _ _) eqn:Hex; [done|]. destruct (w_time m =? 0); [done|].
  destruct (persist _ _ _ _ _ _ _ _ _ _ _) as [s' consumed] eqn:E. cbn [fst].
  apply orb_false_iff in Hskip as [[_ Hedit]%orb_false_iff _]. apply bool_decide_eq_false, eq_None_not_Some in Hedit.
  eapply persist_adds; eauto.
Qed.

Lemma activity_adds chat name ids s : adds_only s (storeHistoryActivity chat name ids false s).
Proof.
  unfold storeHistoryActivity. destruct (MaxMessageTimestamp _ _ _) as [t|]; [|done]. split; [done..|]. intros jid. apply store_chat_read.
Qed.

Lemma chunk_adds a c initial s chunk : c_peer c = true → adds_only s (storeChunk a c initial s chunk).
Proof.
  intros Hp. unfold storeChunk. assert (Hf : ∀ st, adds_only st.1 (foldl (store_row a c (s_rows s) initial) st chunk).1).
  { induction chunk as [|r chunk IH]; intros st; [done|]. cbn [foldl]. etrans; [by apply store_row_adds|apply IH]. }
  specialize (Hf (s, [])). destruct (foldl _ _ chunk) as [s' ids]. destruct ids; [done|].
  etrans; [exact Hf|]. unfold marks_read. rewrite Hp. apply activity_adds.
Qed.

(** [C7] A history that a group member shared can only add to the archive: no row and
    no poll that is already there changes, no vote is recorded or taken over, and
    no chat is marked read by it, whatever it holds and however its commits end. *)
Theorem peer_history_adds_only (a : account) (c : conversation) (w : conversation_world) (s : store) (Hpeer : c_peer c = true) :
  adds_only s (im_store (import_conversation a c w s)) ∧ im_votes (import_conversation a c w s) = [].
Proof.
  unfold import_conversation. destruct (negb (first_usable _)); [done|]. destruct (negb (chat_written w)); [by destruct (chat_stops w)|].
  rewrite Hpeer. cbn [orb]. destruct (import_rows _ _ _) as [ps e].
  assert (Hs : adds_only s (foldl (storeChunk a c ∅) (set_chats (Chats.storeChatWith (c_chat c) (c_name c) None (s_chats s)) s) (committed ps))).
  { etrans; [instantiate (1 := set_chats (Chats.storeChatWith (c_chat c) (c_name c) None (s_chats s)) s)|].
    - split; [done..|]. intros jid. apply store_chat_read.
    - generalize (set_chats (Chats.storeChatWith (c_chat c) (c_name c) None (s_chats s)) s).
      induction (committed ps) as [|ch chs IH]; intros s0; [done|]. cbn [foldl]. etrans; [by apply chunk_adds|apply IH]. }
  by destruct e.
Qed.

(** ** No row is dropped in silence *)

Lemma loss_app fallback l l' : noteHistoryLoss fallback (l ++ l') = (noteHistoryLoss fallback l + noteHistoryLoss fallback l')%nat.
Proof. unfold noteHistoryLoss. by rewrite filter_app, length_app. Qed.

Lemma losses_split fallback ps :
  noteHistoryLoss fallback (mjoin (piece_rows <$> ps)) =
  (sum_list (noteHistoryLoss fallback <$> lost ps) + sum_list (noteHistoryLoss fallback <$> committed ps))%nat.
Proof.
  induction ps as [|[l|l] ps IH]; [done|..].
  - change (noteHistoryLoss fallback (l ++ mjoin (piece_rows <$> ps)) = (sum_list (noteHistoryLoss fallback <$> lost ps)
      + (noteHistoryLoss fallback l + sum_list (noteHistoryLoss fallback <$> committed ps)))%nat). rewrite loss_app, IH. lia.
  - change (noteHistoryLoss fallback (l ++ mjoin (piece_rows <$> ps)) = (noteHistoryLoss fallback l + sum_list (noteHistoryLoss fallback <$> lost ps)
      + sum_list (noteHistoryLoss fallback <$> committed ps))%nat). rewrite loss_app, IH. lia.
Qed.

Definition no_rows : store := {| s_chats := ∅; s_rows := ∅; s_polls := {| polls := ∅; poll_votes := ∅ |} |}.

(** What a row is worth: some transaction would write it, or it edits another one. *)
Definition worth (a : account) (c : conversation) (r : row) : Prop :=
  (∃ before initial st, store_row a c before initial st r ≠ st) ∨
  ∃ m, r = Some m ∧ is_vote m = false ∧ w_time m ≠ 0 ∧ is_Some (x_edit (extract_ (w_payload m) (c_fallback c) (w_id m))).

Lemma persist_fresh id chat author ts own x declared rc rs :
  x_edit x = None → (persist id chat author ts own x declared rc rs false no_rows).2 = false.
Proof.
  intros Hx. unfold persistMessageResult. rewrite Hx. unfold updateLiveLocationWith. cbn [fst no_rows s_rows]. destruct (String.eqb id ""); [done|].
  destruct (splitSenderJID author). by rewrite lookup_empty.
Qed.

(** The rows the counter counts are the ones that are worth something. *)
Lemma counted_worth a c r : (1 ≤ noteHistoryLoss (c_fallback c) [r])%nat ↔ worth a c r.
Proof.
  unfold noteHistoryLoss, worth. rewrite filter_cons. destruct r as [m|].
  2: { rewrite decide_False by done. cbn. split; [lia|]. intros [(before & initial & [s0 ids] & Hn)|(m & ? & _)]; done. }
  set (x := extract_ (w_payload m) (c_fallback c) (w_id m)). split.
  - destruct (decide _) as [Hd|]; [|cbn; lia]. intros _. rewrite !andb_true_iff, !negb_true_iff, Z.eqb_neq in Hd. destruct Hd as [[Ht Hv] He].
    destruct (x_edit x) as [p|] eqn:Hx; [right; exists m; split_and!; [done..|]; fold x; rewrite Hx; by eexists|left].
    exists ∅, ∅, (no_rows, []). unfold store_row. fold x. rewrite Hv, He, Hx, bool_decide_false by (by intros []). cbn [orb].
    assert (historyRowExists (w_id m) (c_chat c) no_rows = false) as ->.
    { unfold historyRowExists, no_rows. cbn. rewrite !lookup_empty, !bool_decide_false by (by intros []). done. }
    rewrite andb_false_r, (proj2 (Z.eqb_neq _ _) Ht).
    match goal with |- context [persist ?a ?b ?c ?d ?e ?f ?g ?h ?i ?j ?k] => pose proof (persist_fresh a b c d e f g h i Hx) as Hp; destruct (persist a b c d e f g h i j k) as [s1 consumed] end.
    cbn [snd] in Hp. rewrite Hp. by intros [= _].
  - intros Hw. assert (is_vote m = false ∧ w_time m ≠ 0 ∧ is_empty x = false) as (Hv & Ht & He).
    { destruct Hw as [(before & initial & [s0 ids] & Hn)|(m' & [= <-] & Hv & Ht & Hx)].
      - unfold store_row in Hn. fold x in Hn. destruct (is_vote m), (bool_decide (is_Some (x_edit x))), (is_empty x); cbn [orb] in Hn; try done.
        destruct (c_peer c && _); [done|]. destruct (Z.eqb_spec (w_time m) 0); done.
      - split_and!; [done..|]. fold x in Hx. unfold is_empty. rewrite bool_decide_false; [done|]. intros E. rewrite E in Hx. by destruct Hx. }
    rewrite decide_True; [cbn; lia|]. rewrite Hv, He, (proj2 (Z.eqb_neq _ _) Ht). done.
Qed.

Lemma loss_count fallback rows : noteHistoryLoss fallback rows = length (filter (λ r, (1 ≤ noteHistoryLoss fallback [r])%nat) rows).
Proof.
  induction rows as [|r rows IH]; [done|]. rewrite (loss_app fallback [r] rows : noteHistoryLoss fallback (r :: rows) = _), IH, filter_cons.
  assert (noteHistoryLoss fallback [r] ≤ 1)%nat as Hr by (unfold noteHistoryLoss; etrans; [apply length_filter|done]).
  destruct (decide _); cbn [length]; lia.
Qed.

Lemma loss_join fallback (ls : list (list row)) : noteHistoryLoss fallback (mjoin ls) = sum_list (noteHistoryLoss fallback <$> ls).
Proof. induction ls as [|l ls IH]; [done|]. change (mjoin (l :: ls)) with (l ++ mjoin ls). rewrite loss_app, IH. done. Qed.


End Importing.

(** ** A shared conversation *)
Module Sample.
#[local] Existing Instances RefJid.ops plain_sqlite Inbound.Sample.floats.

Definition group : RefJid.t := {| RefJid.ref_user := "9"; RefJid.ref_device := ""; RefJid.ref_server := GroupServer |}.
Definition nothing_unwrapped (m : Message) : option Message * bool := (Some m, false).
Definition text_row (id s : string) : option web_message :=
  Some {| w_key := Some (id, false, "5511@s.whatsapp.net"); w_remote := ""; w_participant := ""; w_time := 100; w_payload := Some (Msg (Inbound.Sample.text s)); w_wire := "" |}.
Definition shared : conversation := {|
  c_jid := group; c_resolved := group; c_name := "g"; c_peer := true; c_fallback := 0; c_unread := None; c_marked_unread := false; c_expiration := 0;
  c_setting_time := 0; c_messages := [text_row "A" "hello"; None; text_row "B" "again"] |}.
Definition outside : conversation_world := {|
  chat_written := true; settings_written := true; whole := λ _, OtherError; single := λ i, if Nat.eqb i 2 then OtherError else Committed;
  edit_written := λ _, true; chat_stops := false; edit_stops := λ _, false |}.
Definition empty_store : store := {| s_chats := ∅; s_rows := ∅; s_polls := {| polls := ∅; poll_votes := ∅ |} |}.
Definition after : imported :=
  import_conversation nothing_unwrapped (λ _, "") (λ _, "") (λ _, None) (λ _, "") (λ _, "") {| acc_client := None; acc_id := None |} shared outside empty_store.

Lemma peer_history_adds_only_witness : adds_only empty_store (im_store after) ∧ im_votes after = [].
Proof.
  refine (peer_history_adds_only nothing_unwrapped (λ _, "") (λ _, "") (λ _, None) (λ _, "") (λ _, "") {| acc_client := None; acc_id := None |} shared outside
            empty_store eq_refl).
Defined.

(** The bad row is counted, its neighbour is stored. *)
Example shared_outcome : im_lost after = 1%nat ∧ is_Some (s_rows (im_store after) !! ("A", "9@g.us")) ∧ s_rows (im_store after) !! ("B", "9@g.us") = None.
Proof. vm_compute. split_and!; [done|by eexists|done]. Qed.

End Sample.
