(* ===== verification/HistoryRequest.v ===== *)
(** * Asking the phone for history ([history_ondemand.go])

    The handler of /api/history: the message a request is anchored on, the chats it
    names, and its answers.  What the phone then sends is [HistorySync]. *)
From S2P Require Import Prelude Jid Http ChatPolicy Archive Messages.
#[local] Open Scope Z_scope.

(** [HistoryRequest]. *)
Record HistoryRequest := { ReqChat : string; Count : Z; BeforeMessageID : option string }.

Definition defaultHistoryCount : Z := 50.
Definition maxHistoryCount : Z := 500.

Definition clampHistoryCount (n : Z) : Z :=
  if n <=? 0 then defaultHistoryCount else if maxHistoryCount <? n then maxHistoryCount else n.

(** ** Anchors *)

(** The first row a query yields: the least by [lt], the earlier one of equals. *)
Definition least (lt : key * message_row → key * message_row → bool) (l : list (key * message_row)) : option (key * message_row) :=
  foldl (λ best kr, match best with None => Some kr | Some b => if lt kr b then Some kr else best end) None l.

Definition of_chat (chat : string) (t : messages) : list (key * message_row) := filter (λ kr, kr.1.2 = chat) (map_to_list t).

Definition older (a b : key * message_row) : bool := timestamp a.2 <? timestamp b.2.

(** The chat, the id ("" for a bare time), the owner and the time of an anchor. *)
Record anchor := { a_chat : string; a_id : string; a_own : bool; a_time : Z }.

Definition anchor_of (kr : key * message_row) : anchor := {| a_chat := kr.1.2; a_id := kr.1.1; a_own := is_from_me kr.2; a_time := timestamp kr.2 |}.

(** [oldestStoredMessage]: under the two spellings, the chat's own first.  The rows of the
    model carry readable times; the answer to an unreadable one is not modelled. *)
Definition oldestStoredMessage (chat twin : string) (t : messages) : option anchor :=
  let one := if String.eqb chat "" then None else least older (of_chat chat t) in
  let other := if String.eqb twin "" || String.eqb twin chat then None else least older (of_chat twin t) in
  match one, other with
  | Some a, Some b => Some (anchor_of (if older b a then b else a))
  | Some a, None => Some (anchor_of a)
  | None, b => anchor_of <$> b
  end.

(** Pointer rows are no anchors. *)
Definition is_pointer (r : message_row) : bool := bool_decide (media_type r ∈ ["reaction"; "poll_vote"]).

Definition by_time_and_id (a b : key * message_row) : bool :=
  (timestamp a.2 <? timestamp b.2) || ((timestamp a.2 =? timestamp b.2) && String.ltb a.1.1 b.1.1).

(** The rows of a chat after a time that may follow a target. *)
Definition successors (chat : string) (after : Z) (t : messages) : list (key * message_row) :=
  filter (λ kr, after < timestamp kr.2 ∧ is_pointer kr.2 = false) (of_chat chat t).

(** [repairHistoryAnchor]: the target is in the chat or in its twin; the anchor is the
    message after it, or the next second. *)
Definition repairHistoryAnchor (chat twin target : string) (t : messages) : option anchor :=
  let found := match t !! (target, chat) with
               | Some r => Some (chat, r)
               | None => (λ r, (twin, r)) <$> t !! (target, twin)
               end in
  (λ cr : string * message_row,
     match least by_time_and_id (successors cr.1 (timestamp cr.2) t) with
     | Some kr => anchor_of kr
     | None => {| a_chat := cr.1; a_id := ""; a_own := false; a_time := timestamp cr.2 + 1 |}
     end) <$> found.

(** ** The handler *)
Section Handler.
Context `{JidOps}.

(** What is sent to our own phone. *)
Record peer_request := { rq_chat : JID; rq_anchor : anchor; rq_count : Z }.

(** What the request meets: the session, the LID store, whether the anchor query
    fails, whether the SDK builds the request, and the answer to each send. *)
Record world := {
  is_connected : bool; is_paired : bool; lids : lid_store; lookup_fails : bool; builds : bool; send_ok : peer_request → bool;
}.

(** The answer: a failure, or the spellings under which the request left and whether
    the optional one failed. *)
Inductive history_reply : Type :=
| HistoryRefused (r : Http.reply)
| HistoryFailed (status : Z) (msg : string)
| HistorySent (kinds : list string) (twin_failed : bool).

Definition historyChatKind (chat : JID) : string :=
  if String.eqb (Server chat) DefaultUserServer then "phone"
  else if String.eqb (Server chat) HiddenUserServer then "LID"
  else if String.eqb (Server chat) GroupServer then "group" else "chat".

(** The other spelling of a direct chat. *)
Definition known_twin (w : world) (chat : JID) : option JID :=
  let direct := String.eqb (Server chat) DefaultUserServer in
  if negb direct && negb (String.eqb (Server chat) HiddenUserServer) then None
  else match lookupAltJID (lids w) chat with
       | Ok alt => if negb (IsEmpty alt) && String.eqb (Server alt) (if direct then HiddenUserServer else DefaultUserServer) then Some (ToNonAD alt) else None
       | Err _ => None
       end.

(** The spellings the requests name: the one of the anchor when it is allowed. *)
Definition spellings (policy : chatPolicy) (chat : JID) (twin : option JID) (stored : string) : result string (JID * option JID) :=
  if Allows policy stored then
    match ParseJID stored with
    | Err _ => Err "Stored anchor has an invalid chat spelling"
    | Ok j => Ok (j, match twin with Some tw => if String.eqb stored (JIDString tw) then Some chat else twin | None => None end)
    end
  else Ok (chat, None).

(** The sends, the required one first. *)
Definition send_all (policy : chatPolicy) (w : world) (chat : JID) (twin : option JID) (a : anchor) (count : Z) : list peer_request * history_reply :=
  let ask j := {| rq_chat := j; rq_anchor := a; rq_count := count |} in
  if negb (builds w) then ([], HistoryFailed 500 "Failed to build history sync request")
  else if negb (send_ok w (ask chat)) then ([ask chat], HistoryFailed 500 "Failed to send history request")
  else match twin with
       | Some tw => if Allows policy (JIDString tw)
                    then if send_ok w (ask tw) then ([ask chat; ask tw], HistorySent [historyChatKind chat; historyChatKind tw] false)
                         else ([ask chat; ask tw], HistorySent [historyChatKind chat] true)
                    else ([ask chat], HistorySent [historyChatKind chat] false)
       | None => ([ask chat], HistorySent [historyChatKind chat] false)
       end.

(** [registerHistoryEndpointWithSender]: the requests that leave, and the answer.
    A body that does not decode is [None]. *)
Definition handleHistory (policy : chatPolicy) (w : world) (post : bool) (body : option HistoryRequest) (t : messages) : list peer_request * history_reply :=
  if negb post then ([], HistoryRefused (Http.writeError Http.StatusMethodNotAllowed "Method not allowed"))
  else match body with
  | None => ([], HistoryRefused (Http.writeError Http.StatusBadRequest "Invalid request format"))
  | Some req =>
      if String.eqb (ReqChat req) "" then ([], HistoryRefused (Http.writeError Http.StatusBadRequest "chat_jid is required"))
      else match authorizeChat policy (ReqChat req) false with
      | Err r => ([], HistoryRefused r)
      | Ok chat =>
          if negb (is_connected w) then ([], HistoryFailed 503 "Not connected to WhatsApp")
          else if negb (is_paired w) then ([], HistoryFailed 503 "Client is not paired")
          else
            let twin := known_twin w chat in
            let own := JIDString chat in
            let other := match twin with Some tw => JIDString tw | None => own end in
            let found := match BeforeMessageID req with
                         | None => oldestStoredMessage own other t
                         | Some target => repairHistoryAnchor own other target t
                         end in
            if lookup_fails w then ([], HistoryFailed 500 "Failed to look up anchor message")
            else match found with
            | None => ([], match BeforeMessageID req with
                           | Some _ => HistoryRefused (Http.writeError Http.StatusBadRequest "before_message_id must identify a stored message in this chat")
                           | None => HistoryFailed 404 "No stored message for this chat to anchor the request; send or receive one message first"
                           end)
            | Some a =>
                match spellings policy chat twin (a_chat a) with
                | Err e => ([], HistoryFailed 500 e)
                | Ok (j, tw) => send_all policy w j tw a (clampHistoryCount (Count req))
                end
            end
      end
  end.

(** ** What a request may name *)

(** A chat the policy permits, by itself or as it is stored. *)
Definition permitted_chat (policy : chatPolicy) (j : JID) : Prop :=
  Allows policy (JIDString j) = true ∨ ∃ s, Allows policy s = true ∧ ParseJID s = Ok j.

(** An anchor that misses no older message, or none between the target and itself. *)
Definition anchor_fits (chat twin : string) (target : option string) (t : messages) (a : anchor) : Prop :=
  match target with
  | None => (∃ r, t !! (a_id a, a_chat a) = Some r ∧ timestamp r = a_time a) ∧ (a_chat a = chat ∨ a_chat a = twin) ∧
            ∀ id c r, t !! (id, c) = Some r → c ≠ "" → c = chat ∨ c = twin → a_time a ≤ timestamp r
  | Some id => ∃ r, t !! (id, a_chat a) = Some r ∧ (a_chat a = chat ∨ a_chat a = twin) ∧ timestamp r < a_time a ∧
               ∀ id' r', t !! (id', a_chat a) = Some r' → is_pointer r' = false → timestamp r < timestamp r' → a_time a ≤ timestamp r'
  end.

Lemma least_min (lt : key * message_row → key * message_row → bool) l :
  (∀ a b, lt a b = true → timestamp a.2 ≤ timestamp b.2) → (∀ a b, lt a b = false → timestamp b.2 ≤ timestamp a.2) →
  match least lt l with
  | Some kr => kr ∈ l ∧ ∀ x, x ∈ l → timestamp kr.2 ≤ timestamp x.2
  | None => l = []
  end.
Proof.
  intros H1 H2. unfold least.
  assert (Hgen : ∀ l best, match foldl (λ best kr, match best with None => Some kr | Some b => if lt kr b then Some kr else best end) best l with
    | Some kr => (Some kr = best ∨ kr ∈ l) ∧ (∀ x, x ∈ l → timestamp kr.2 ≤ timestamp x.2) ∧ (∀ b, best = Some b → timestamp kr.2 ≤ timestamp b.2)
    | None => best = None ∧ l = []
    end).
  { clear l. intros l. induction l as [|a l IH]; intros best; cbn [foldl].
    - destruct best; [|done]. split; [by left|]. split; [intros x Hx; by apply elem_of_nil in Hx|]. intros b [= <-]. lia.
    - specialize (IH (match best with None => Some a | Some b => if lt a b then Some a else best end)).
      destruct (foldl _ _ l) as [kr|]; [|destruct IH as [IH _]; destruct best as [b|]; [destruct (lt a b)|]; done].
      destruct IH as (Hin & Hl & Hb). destruct best as [b|]; [destruct (lt a b) eqn:E|].
      + split; [right; destruct Hin as [[= ->]|Hin]; apply elem_of_cons; auto|]. specialize (Hb a eq_refl). apply H1 in E.
        split; [intros x [->|Hx]%elem_of_cons; auto|]. intros b' [= <-]. lia.
      + split; [destruct Hin as [Hin|Hin]; [by left|right; apply elem_of_cons; auto]|]. specialize (Hb b eq_refl). apply H2 in E.
        split; [intros x [->|Hx]%elem_of_cons; [lia|auto]|]. by intros b' [= <-].
      + split; [right; destruct Hin as [[= ->]|Hin]; apply elem_of_cons; auto|]. specialize (Hb a eq_refl).
        split; [intros x [->|Hx]%elem_of_cons; auto|done]. }
  specialize (Hgen l None). destruct (foldl _ _ l) as [kr|]; [|apply Hgen]. destruct Hgen as ([?|Hin] & Hl & _); [done|]. by split.
Qed.

Lemma of_chat_elem chat t kr : kr ∈ of_chat chat t ↔ t !! kr.1 = Some kr.2 ∧ kr.1.2 = chat.
Proof. unfold of_chat. rewrite list_elem_of_filter. destruct kr as [k r]. rewrite elem_of_map_to_list. cbn. tauto. Qed.

Lemma oldest_stored_in chat t :
  match least older (of_chat chat t) with
  | Some kr => t !! kr.1 = Some kr.2 ∧ kr.1.2 = chat ∧ ∀ id r, t !! (id, chat) = Some r → timestamp kr.2 ≤ timestamp r
  | None => ∀ id, t !! (id, chat) = None
  end.
Proof.
  pose proof (least_min older (of_chat chat t)) as Hl.
  specialize (Hl ltac:(unfold older; intros; rewrite Z.ltb_lt in *; lia) ltac:(unfold older; intros; rewrite Z.ltb_ge in *; lia)).
  destruct (least older (of_chat chat t)) as [kr|].
  - destruct Hl as [[Hk Hc]%of_chat_elem Hm]. split_and!; [done..|]. intros id r Hr. apply (Hm ((id, chat), r)), of_chat_elem. done.
  - intros id. destruct (t !! (id, chat)) as [r|] eqn:E; [|done]. assert (((id, chat), r) ∈ of_chat chat t) as Hin by (by apply of_chat_elem).
    rewrite Hl in Hin. by apply elem_of_nil in Hin.
Qed.

(** What one query of [oldestStoredMessage] says, skipped or run. *)
Definition query_fits (c : string) (t : messages) (q : option (key * message_row)) : Prop :=
  match q with
  | Some kr => t !! kr.1 = Some kr.2 ∧ kr.1.2 = c ∧ ∀ id r, t !! (id, c) = Some r → timestamp kr.2 ≤ timestamp r
  | None => c = "" ∨ ∀ id, t !! (id, c) = None
  end.

Lemma query_spec c t : query_fits c t (if String.eqb c "" then None else least older (of_chat c t)).
Proof.
  destruct (String.eqb_spec c ""); [by left|]. pose proof (oldest_stored_in c t) as Hq. unfold query_fits. destruct (least older _); [done|by right].
Qed.

Lemma oldest_fits chat twin t a : oldestStoredMessage chat twin t = Some a → anchor_fits chat twin None t a.
Proof.
  unfold oldestStoredMessage. pose proof (query_spec chat t) as H1. pose proof (query_spec twin t) as H2.
  destruct (String.eqb_spec twin chat) as [->|Hne].
  - rewrite orb_true_r. destruct (if String.eqb chat "" then None else least older (of_chat chat t)) as [[[i c] r]|]; [|done].
    intros [= <-]. cbn in *. destruct H1 as (Hr & -> & Hm). split; [by exists r|]. split; [by left|]. intros id c' r' Hr' _ [->| ->]; eauto.
  - rewrite orb_false_r. destruct (if String.eqb chat "" then None else _) as [[[i c] r]|], (if String.eqb twin "" then None else _) as [[[i2 c2] r2]|]; cbn in *; [| | |done].
    + destruct H1 as (Hr & -> & Hm), H2 as (Hr2 & -> & Hm2). intros [= <-]. unfold older. cbn [snd fst].
      destruct (Z.ltb_spec (timestamp r2) (timestamp r)); cbn.
      * split; [by exists r2|]. split; [by right|]. intros id c' r' Hr' _ [->| ->]; [etrans; [|by eapply Hm]; lia|eauto].
      * split; [by exists r|]. split; [by left|]. intros id c' r' Hr' _ [->| ->]; [eauto|etrans; [|by eapply Hm2]; lia].
    + destruct H1 as (Hr & -> & Hm). intros [= <-]. split; [by exists r|]. split; [by left|]. intros id c' r' Hr' Hc' [->| ->]; [eauto|].
      destruct H2 as [->|H2]; [done|congruence].
    + destruct H2 as (Hr2 & -> & Hm2). intros [= <-]. split; [by exists r2|]. split; [by right|]. intros id c' r' Hr' Hc' [->| ->]; [|eauto].
      destruct H1 as [->|H1]; [done|congruence].
Qed.

Lemma repair_fits chat twin target t a : repairHistoryAnchor chat twin target t = Some a → anchor_fits chat twin (Some target) t a.
Proof.
  unfold repairHistoryAnchor. set (found := match t !! (target, chat) with Some _ => _ | None => _ end).
  assert (Hf : match found with Some (c, r) => t !! (target, c) = Some r ∧ (c = chat ∨ c = twin) | None => True end).
  { subst found. destruct (t !! (target, chat)) eqn:E; [by split; [|left]|]. destruct (t !! (target, twin)) eqn:E2; [by split; [|right]|done]. }
  clearbody found. destruct found as [[c r]|]; [|done]. destruct Hf as [Hr Hc]. intros [= <-]. cbn [fst snd].
  pose proof (least_min by_time_and_id (successors c (timestamp r) t)) as Hl.
  specialize (Hl ltac:(unfold by_time_and_id; intros ?? [?%Z.ltb_lt|[?%Z.eqb_eq _]%andb_true_iff]%orb_true_iff; lia)
    ltac:(unfold by_time_and_id; intros ?? [?%Z.ltb_ge _]%orb_false_iff; lia)).
  assert (Hs : ∀ kr, kr ∈ successors c (timestamp r) t ↔ (timestamp r < timestamp kr.2 ∧ is_pointer kr.2 = false) ∧ t !! kr.1 = Some kr.2 ∧ kr.1.2 = c)
    by (intros kr; unfold successors; by rewrite list_elem_of_filter, of_chat_elem).
  destruct (least by_time_and_id _) as [[[i c'] r']|].
  - destruct Hl as [Hin Hm]. apply Hs in Hin as ((Hlt & _) & Hr' & Hc'). cbn in Hlt, Hr', Hc'. subst c'. exists r. cbn. split_and!; [done..|].
    intros id2 r2 Hr2 Hp2 Hlt2. apply (Hm ((id2, c), r2)), Hs. done.
  - exists r. cbn. split_and!; [done..|lia|]. intros id2 r2 Hr2 Hp2 Hlt2.
    assert (((id2, c), r2) ∈ successors c (timestamp r) t) as Hin by (by apply Hs). rewrite Hl in Hin. by apply elem_of_nil in Hin.
Qed.

Lemma history_clamp_range n : 1 ≤ clampHistoryCount n ≤ maxHistoryCount.
Proof.
  unfold clampHistoryCount, defaultHistoryCount, maxHistoryCount. destruct (Z.leb_spec n 0); [lia|]. destruct (Z.ltb_spec 500 n); lia.
Qed.

Lemma authorized_allows policy raw phone j : authorizeChat policy raw phone = Ok j → Allows policy (JIDString j) = true.
Proof.
  unfold authorizeChat, rejectByChatPolicy. destruct (canonicalChatJID _ _) as [j'|]; [|done].
  destruct (Allows policy (JIDString j')) eqn:E; [|done]. by intros [= <-].
Qed.

Lemma spellings_permitted policy chat twin stored j tw :
  Allows policy (JIDString chat) = true → spellings policy chat twin stored = Ok (j, tw) → permitted_chat policy j.
Proof.
  intros Hc. unfold spellings. destruct (Allows policy stored) eqn:Hs; [|intros [= <- _]; by left].
  destruct (ParseJID stored) eqn:Hp; [|done]. intros [= <- _]. right. eauto.
Qed.

Lemma sent_permitted policy w j tw a count (P : peer_request → Prop) :
  permitted_chat policy j → (∀ j', permitted_chat policy j' → P {| rq_chat := j'; rq_anchor := a; rq_count := count |}) →
  Forall P (send_all policy w j tw a count).1 ∧ (length (send_all policy w j tw a count).1 ≤ 2)%nat.
Proof.
  intros Hj HP. unfold send_all. destruct (negb (builds w)); [by split; [constructor|cbn; lia]|].
  destruct (negb _); [by split; [repeat constructor; auto|cbn; lia]|].
  destruct tw as [k|]; [|by split; [repeat constructor; auto|cbn; lia]].
  destruct (Allows policy (JIDString k)) eqn:Hk; [|by split; [repeat constructor; auto|cbn; lia]].
  assert (permitted_chat policy k) by (by left). destruct (send_ok w _); (split; [repeat constructor; auto|cbn; lia]).
Qed.

(** A history request leaves the bridge only for a chat the policy permits, with a
    count between 1 and 500, from a connected and paired session, at most twice; it is
    anchored on the oldest archived message of the chat under its two spellings, or, to repair
    one, after that message and before any later one, so that it is among what the
    phone sends again. *)
Theorem history_requests_guarded (policy : chatPolicy) (w : world) (post : bool) (body : option HistoryRequest) (t : messages) :
  let requests := (handleHistory policy w post body t).1 in
  (length requests ≤ 2)%nat ∧
  Forall (λ q, permitted_chat policy (rq_chat q) ∧ is_connected w = true ∧ is_paired w = true ∧ 1 ≤ rq_count q ≤ maxHistoryCount ∧
               ∃ req chat, body = Some req ∧ authorizeChat policy (ReqChat req) false = Ok chat ∧
                 anchor_fits (JIDString chat) (match known_twin w chat with Some tw => JIDString tw | None => JIDString chat end)
                   (BeforeMessageID req) t (rq_anchor q)) requests.
Proof.
  cbv zeta. unfold handleHistory. destruct post; cbn [negb]; [|by split; [cbn; lia|constructor]].
  destruct body as [req|]; [|by split; [cbn; lia|constructor]]. destruct (String.eqb (ReqChat req) ""); [by split; [cbn; lia|constructor]|].
  destruct (authorizeChat policy (ReqChat req) false) as [chat|] eqn:Ha; [|by split; [cbn; lia|constructor]].
  destruct (is_connected w) eqn:Hc; cbn [negb]; [|by split; [cbn; lia|constructor]].
  destruct (is_paired w) eqn:Hp; cbn [negb]; [|by split; [cbn; lia|constructor]].
  destruct (lookup_fails w); [by split; [cbn; lia|constructor]|].
  set (other := match known_twin w chat with Some tw => JIDString tw | None => JIDString chat end).
  destruct (match BeforeMessageID req with None => oldestStoredMessage (JIDString chat) other t | Some target => repairHistoryAnchor (JIDString chat) other target t end)
    as [a|] eqn:Hf; [|by split; [cbn; lia|constructor]].
  assert (Hfit : anchor_fits (JIDString chat) other (BeforeMessageID req) t a)
    by (destruct (BeforeMessageID req); [by apply repair_fits|by apply oldest_fits]).
  destruct (spellings policy chat (known_twin w chat) (a_chat a)) as [[j tw]|] eqn:Hs; [|by split; [cbn; lia|constructor]].
  apply spellings_permitted in Hs as Hj; [|by eapply authorized_allows].
  apply and_comm, sent_permitted; [done|]. intros j' Hj'. cbn. split_and!; [done..|apply history_clamp_range|apply history_clamp_range|]. eauto 6.
Qed.

End Handler.
