(* ===== verification/HistoryWire.v ===== *)
(** * The wire scan of a shared history ([history_share_decoder.go])

    A peer's bundle is counted on the wire before any object of it is allocated.  The
    wire primitives and the message descriptors belong to the protobuf runtime:
    the class [Protowire], with [ProtowireLaws] for what the scan relies on. *)
From S2P Require Import Prelude.

Abbreviation bytes := (list ascii).

(** [protowire.Type]. *)
Inductive wire_type : Type := VarintType | Fixed32Type | Fixed64Type | BytesType | StartGroupType | EndGroupType.

#[export] Instance wire_type_eq_dec : EqDecision wire_type.
Proof. solve_decision. Defined.

(** [protoreflect.Kind], as far as the scan tells kinds apart. *)
Inductive field_kind : Type := MessageKind | StringKind | BytesKind | Fixed32Kind | Fixed64Kind | VarintKind.

(** The consumers answer [None] for a negative count.  A field of a message is its
    kind, whether it is a list, and the message it holds. *)
Class Protowire := {
  ConsumeTag : bytes → option (Z * wire_type * nat);
  ConsumeBytes : bytes → option (bytes * nat);
  ConsumeFieldValue : Z → wire_type → bytes → option nat;
  ConsumeFixed32 : bytes → option nat;
  ConsumeFixed64 : bytes → option nat;
  ConsumeVarint : bytes → option nat;
  MessageDescriptor : Type;
  FullName : MessageDescriptor → string;
  ByNumber : MessageDescriptor → Z → option (field_kind * bool * MessageDescriptor);
  HistorySyncDescriptor : MessageDescriptor;
}.

(** What is consumed is there, and a tag, a length and a packed value take a byte. *)
Class ProtowireLaws `{Protowire} : Prop := {
  tag_consumes w f k n : ConsumeTag w = Some (f, k, n) → (0 < n ≤ length w)%nat;
  bytes_consume w v n : ConsumeBytes w = Some (v, n) → (length v < n ≤ length w)%nat;
  value_consumes f k w n : ConsumeFieldValue f k w = Some n → (n ≤ length w)%nat;
  fixed32_consumes w n : ConsumeFixed32 w = Some n → (0 < n ≤ length w)%nat;
  fixed64_consumes w n : ConsumeFixed64 w = Some n → (0 < n ≤ length w)%nat;
  varint_consumes w n : ConsumeVarint w = Some n → (0 < n ≤ length w)%nat;
}.

Definition historyShareMessageLimit : nat := 5000.
Definition historyShareElementLimit : nat := N.to_nat 100000.
Definition historyShareDepthLimit : nat := 100.

#[global] Opaque historyShareElementLimit historyShareMessageLimit historyShareDepthLimit.

(** [historyShareWireCounts]; [asked] is how often the context was asked, which
    tells its answers apart. *)
Record historyShareWireCounts := { messages : nat; messageInfos : nat; elements : nat; asked : nat }.

Inductive scan_error : Type := DepthLimit | MessageLimit | MessageObjectLimit | ElementLimit | ParseError | GroupsRefused | Cancelled | OutOfFuel.

Abbreviation outcome := (historyShareWireCounts * option scan_error)%type.

Section Scan.
Context `{Protowire}.

Definition addElement (c : historyShareWireCounts) : outcome :=
  let c := {| messages := messages c; messageInfos := messageInfos c; elements := S (elements c); asked := asked c |} in
  (c, if Nat.ltb historyShareElementLimit (elements c) then Some ElementLimit else None).

Definition is_message (d : MessageDescriptor) : bool := String.eqb (FullName d) "WAWebProtobufsHistorySync.HistorySyncMsg".
Definition is_info (d : MessageDescriptor) : bool := String.eqb (FullName d) "WAWebProtobufsWeb.WebMessageInfo".

(** The checks at the entry of [scan]. *)
Definition enter (c : historyShareWireCounts) (d : MessageDescriptor) (depth : nat) : outcome :=
  if Nat.leb historyShareDepthLimit depth then (c, Some DepthLimit)
  else
    let c := {| messages := messages c + (if is_message d then 1 else 0); messageInfos := messageInfos c; elements := elements c; asked := asked c |} in
    if is_message d && Nat.ltb historyShareMessageLimit (messages c) then (c, Some MessageLimit)
    else
      let c := {| messages := messages c; messageInfos := messageInfos c + (if is_info d then 1 else 0); elements := elements c; asked := asked c |} in
      (c, if is_info d && Nat.ltb historyShareMessageLimit (messageInfos c) then Some MessageObjectLimit else None).

Definition consume_packed (k : field_kind) (wire : bytes) : option nat :=
  match k with
  | Fixed32Kind => ConsumeFixed32 wire
  | Fixed64Kind => ConsumeFixed64 wire
  | _ => ConsumeVarint wire
  end.

Fixpoint packed (fuel : nat) (c : historyShareWireCounts) (wire : bytes) (k : field_kind) : outcome :=
  match wire, fuel with
  | [], _ => (c, None)
  | _, O => (c, Some OutOfFuel)
  | _, S fuel =>
      match addElement c with
      | (c, Some e) => (c, Some e)
      | (c, None) => match consume_packed k wire with
                     | None => (c, Some ParseError)
                     | Some n => packed fuel c (drop n wire) k
                     end
      end
  end.

(** [ctx.Err()]: the answer to this question. *)
Definition ask (cancelled : nat → bool) (c : historyShareWireCounts) : outcome :=
  ({| messages := messages c; messageInfos := messageInfos c; elements := elements c; asked := S (asked c) |},
   if cancelled (asked c) then Some Cancelled else None).

Definition is_group (k : wire_type) : bool := match k with StartGroupType | EndGroupType => true | _ => false end.

(** What a field of wire type bytes holds for the scan. *)
Inductive held : Type := Submessage (d : MessageDescriptor) | Packed (k : field_kind) | Opaque_.

Definition holds (d : MessageDescriptor) (number : Z) : held :=
  match ByNumber d number with
  | Some (MessageKind, _, d') => Submessage d'
  | Some (StringKind, _, _) | Some (BytesKind, _, _) | None => Opaque_
  | Some (k, true, _) => Packed k
  | Some (_, false, _) => Opaque_
  end.

(** The loop of [scan] over the fields of one message. *)
Fixpoint fields (cancelled : nat → bool) (fuel : nat) (c : historyShareWireCounts) (wire : bytes) (d : MessageDescriptor) (depth : nat) : outcome :=
  match wire, fuel with
  | [], _ => ask cancelled c
  | _, O => (c, Some OutOfFuel)
  | _, S fuel =>
      match ask cancelled c with
      | (c, Some e) => (c, Some e)
      | (c, None) =>
      match addElement c with
      | (c, Some e) => (c, Some e)
      | (c, None) =>
      match ConsumeTag wire with
      | None => (c, Some ParseError)
      | Some (number, kind, n) =>
          let wire := drop n wire in
          if is_group kind then (c, Some GroupsRefused)
          else match kind with
          | BytesType =>
              match ConsumeBytes wire with
              | None => (c, Some ParseError)
              | Some (value, consumed) =>
                  let '(c, e) := match holds d number with
                                 | Submessage d' =>
                                     match enter c d' (S depth) with
                                     | (c, None) => fields cancelled fuel c value d' (S depth)
                                     | failed => failed
                                     end
                                 | Packed k => packed fuel c value k
                                 | Opaque_ => (c, None)
                                 end in
                  match e with
                  | Some _ => (c, e)
                  | None => fields cancelled fuel c (drop consumed wire) d depth
                  end
              end
          | _ =>
              match ConsumeFieldValue number kind wire with
              | None => (c, Some ParseError)
              | Some consumed => fields cancelled fuel c (drop consumed wire) d depth
              end
          end
      end end end
  end.

(** [scan] of one message: its entry and its fields. *)
Definition scan (cancelled : nat → bool) (fuel : nat) (c : historyShareWireCounts) (wire : bytes) (d : MessageDescriptor) (depth : nat) : outcome :=
  match enter c d depth with
  | (c, None) => fields cancelled fuel c wire d depth
  | failed => failed
  end.

(** Every field takes a byte, so the length of the wire is fuel enough. *)
Definition scanHistoryShareWire (cancelled : nat → bool) (plain : bytes) : outcome :=
  scan cancelled (length plain) {| messages := 0; messageInfos := 0; elements := 0; asked := 0 |} plain HistorySyncDescriptor 0.

(** ** The tree on the wire *)

(** The numbers of a whole message tree, with no limit and no context: how many
    history messages, message objects and elements it holds, and how deep it is. *)
Record tally := { t_messages : nat; t_infos : nat; t_elements : nat; t_depth : nat }.

Definition no_tally : tally := {| t_messages := 0; t_infos := 0; t_elements := 0; t_depth := 0 |}.

Definition tally_add (a b : tally) : tally :=
  {| t_messages := t_messages a + t_messages b; t_infos := t_infos a + t_infos b; t_elements := t_elements a + t_elements b;
     t_depth := Nat.max (t_depth a) (t_depth b) |}.

Definition one_element : tally := {| t_messages := 0; t_infos := 0; t_elements := 1; t_depth := 0 |}.

(** A message around its fields. *)
Definition enclose (d : MessageDescriptor) (t : tally) : tally :=
  {| t_messages := (if is_message d then 1 else 0) + t_messages t; t_infos := (if is_info d then 1 else 0) + t_infos t;
     t_elements := t_elements t; t_depth := S (t_depth t) |}.

Fixpoint packed_tally (fuel : nat) (wire : bytes) (k : field_kind) : option tally :=
  match wire, fuel with
  | [], _ => Some no_tally
  | _, O => None
  | _, S fuel => n ← consume_packed k wire; tally_add one_element <$> packed_tally fuel (drop n wire) k
  end.

Fixpoint fields_tally (fuel : nat) (wire : bytes) (d : MessageDescriptor) : option tally :=
  match wire, fuel with
  | [], _ => Some no_tally
  | _, O => None
  | _, S fuel =>
      '(number, kind, n) ← ConsumeTag wire;
      let wire := drop n wire in
      if is_group kind then None
      else match kind with
      | BytesType =>
          '(value, consumed) ← ConsumeBytes wire;
          inside ← (match holds d number with
                    | Submessage d' => enclose d' <$> fields_tally fuel value d'
                    | Packed k => packed_tally fuel value k
                    | Opaque_ => Some no_tally
                    end);
          rest ← fields_tally fuel (drop consumed wire) d;
          Some (tally_add one_element (tally_add inside rest))
      | _ =>
          consumed ← ConsumeFieldValue number kind wire;
          tally_add one_element <$> fields_tally fuel (drop consumed wire) d
      end
  end.

(** The tree of a whole bundle; [None] when it is no such tree. *)
Definition wire_tally (plain : bytes) : option tally := enclose HistorySyncDescriptor <$> fields_tally (length plain) plain HistorySyncDescriptor.

(** ** The scan decides the tree *)

(** A tree that fits on top of what is counted, below a depth. *)
Record fits (c : historyShareWireCounts) (t : tally) (depth : nat) : Prop := {
  fits_messages : messages c + t_messages t ≤ historyShareMessageLimit;
  fits_infos : messageInfos c + t_infos t ≤ historyShareMessageLimit;
  fits_elements : elements c + t_elements t ≤ historyShareElementLimit;
  fits_depth : depth + t_depth t < historyShareDepthLimit;
}.

(** What is counted once a tree was scanned. *)
Definition counted (c : historyShareWireCounts) (t : tally) (c' : historyShareWireCounts) : Prop :=
  messages c' = messages c + t_messages t ∧ messageInfos c' = messageInfos c + t_infos t ∧ elements c' = elements c + t_elements t.

(** No counter passes its limit by more than one. *)
Definition bounded (c : historyShareWireCounts) : Prop :=
  messages c ≤ S historyShareMessageLimit ∧ messageInfos c ≤ S historyShareMessageLimit ∧ elements c ≤ S historyShareElementLimit.

(** An outcome from [c] on a tree [t] (none: no tree) at a depth. *)
Definition decides (c : historyShareWireCounts) (t : option tally) (depth : nat) (o : outcome) : Prop :=
  match o.2 with
  | None => ∃ t', t = Some t' ∧ counted c t' o.1 ∧ fits c t' depth
  | Some e => e ≠ OutOfFuel ∧ bounded o.1 ∧ (e ≠ Cancelled → ∀ t', t = Some t' → fits c t' depth → False)
  end.

Lemma decides_stuck c c' t depth e : e ≠ OutOfFuel → bounded c' → (∀ t', t = Some t' → fits c t' depth → False) → decides c t depth (c', Some e).
Proof. intros ? ? ?. by split_and!. Qed.

Lemma fits_bounded c t depth : fits c t depth → bounded c.
Proof. intros []. split_and!; lia. Qed.

(** Counts that are within the limits, whatever follows. *)
Definition within (c : historyShareWireCounts) (depth : nat) : Prop := fits c no_tally depth.

Lemma within_bounded c depth : within c depth → bounded c.
Proof. apply fits_bounded. Qed.

Lemma within_counted c t depth c' : fits c t depth → counted c t c' → within c' depth.
Proof. intros [] (? & ? & ?). split; cbn [t_messages t_infos t_elements t_depth no_tally]; lia. Qed.

(** One more element, or none fits. *)
Lemma add_element c depth : within c depth →
  match addElement c with
  | (c', None) => within c' depth ∧ counted c one_element c'
  | (c', Some e) => e = ElementLimit ∧ bounded c' ∧ ∀ t, fits c (tally_add one_element t) depth → False
  end.
Proof.
  intros [Hm Hi He Hd]. unfold addElement. cbn in Hm, Hi, He, Hd |- *. destruct (Nat.leb_spec historyShareElementLimit (elements c)).
  - cbv iota. unfold bounded. split; [done|]. split; [repeat split; cbn; lia|]. intros t [_ _ Ht _]. cbn in Ht. lia.
  - cbv iota. split; [split; cbn; lia|]. repeat split; cbn; lia.
Qed.

(** Entering a message, or it does not fit. *)
Lemma enter_spec c d depth : within c 0 →
  match enter c d depth with
  | (c', None) => within c' depth ∧ messages c' = messages c + (if is_message d then 1 else 0) ∧ messageInfos c' = messageInfos c + (if is_info d then 1 else 0)
                  ∧ elements c' = elements c
  | (c', Some e) => e ≠ OutOfFuel ∧ e ≠ Cancelled ∧ bounded c' ∧ ∀ t, fits c (enclose d t) (pred depth) → 0 < depth → False
  end.
Proof.
  intros [Hm Hi He _]. cbn in Hm, Hi, He. unfold enter. destruct (Nat.leb_spec historyShareDepthLimit depth).
  { split_and!; [done..|repeat split; lia|]. intros t [_ _ _ Ht] ?. cbn in Ht. lia. }
  cbn [messages messageInfos elements asked]. destruct (is_message d) eqn:Em; cbn [andb];
    [destruct (Nat.ltb_spec historyShareMessageLimit (messages c + 1))|].
  { split_and!; [done..|repeat split; cbn; lia|]. intros t [Ht _ _ _] _. cbn in Ht. rewrite Em in Ht. lia. }
  all: destruct (is_info d) eqn:Ei; cbn [andb]; [destruct (Nat.ltb_spec historyShareMessageLimit (messageInfos c + 1))|].
  all: try (split; [split; cbn; lia|done]).
  all: split_and!; [done..|repeat split; cbn; lia|]; intros t [_ Ht _ _] _; cbn in Ht; rewrite Ei in Ht; lia.
Qed.

Context `{!ProtowireLaws}.

Lemma packed_consumes k w n : consume_packed k w = Some n → 0 < n ≤ length w.
Proof. destruct k; cbn; eauto using fixed32_consumes, fixed64_consumes, varint_consumes. Qed.

(** A part of a tree fits where the tree fits. *)
Lemma fits_left c a b depth : fits c (tally_add a b) depth → fits c a depth.
Proof. intros []. cbn in *. split; lia. Qed.

Lemma fits_next c a b depth c' : counted c a c' → fits c (tally_add a b) depth ↔ fits c a depth ∧ fits c' b depth.
Proof. intros (? & ? & ?). split; [intros []|intros [[] []]]; cbn in *; [split; split; lia|split; cbn; lia]. Qed.

Lemma counted_add c a b c1 c2 : counted c a c1 → counted c1 b c2 → counted c (tally_add a b) c2.
Proof. intros (?&?&?) (?&?&?). repeat split; cbn; lia. Qed.

(** The tree of the first part decided, the rest decides the whole. *)
Lemma decides_seq c a c1 t depth o :
  counted c a c1 → fits c a depth → decides c1 t depth o → decides c (tally_add a <$> t) depth o.
Proof.
  intros Hc Ha. unfold decides. destruct o as [c2 [e|]]; cbn [fst snd].
  - intros (He & Hb & Hn). split_and!; [done..|]. intros He' t' Ht' Hf. destruct t as [t|]; [|done]. injection Ht' as <-.
    apply (fits_next _ _ _ _ _ Hc) in Hf as [_ Hf]. eauto.
  - intros (t' & -> & Hc2 & Hf). exists (tally_add a t'). split_and!; [done|by eapply counted_add|by apply (fits_next _ _ _ _ _ Hc)].
Qed.

(** The first part stuck, the whole is. *)
Lemma decides_first c a b depth c' e : decides c a depth (c', Some e) →
  decides c (x ← a; y ← b; Some (tally_add x y)) depth (c', Some e).
Proof.
  intros (He & Hb & Hn). split_and!; [done..|]. intros He' t' Ht' Hf. destruct a as [x|]; [|done]. destruct b as [y|]; [|done].
  injection Ht' as <-. apply fits_left in Hf. eauto.
Qed.

Lemma counted_none c depth : within c depth → decides c (Some no_tally) depth (c, None).
Proof. intros Hw. exists no_tally. split_and!; [done|repeat split; cbn; lia|done]. Qed.

Lemma decides_eq c t t' depth o : t' = t → decides c t depth o → decides c t' depth o.
Proof. by intros ->. Qed.

(** Asking the context counts nothing. *)
Lemma decides_asked cancelled c t depth o : decides (ask cancelled c).1 t depth o → decides c t depth o.
Proof.
  unfold decides. destruct o as [c2 [e|]]; cbn [fst snd].
  - intros (He & Hb & Hn). split_and!; [done..|]. intros He' t' Ht' []. by apply (Hn He' t' Ht').
  - intros (t' & -> & Hc & []). exists t'. by split_and!.
Qed.

Lemma within_asked cancelled c depth : within c depth → within (ask cancelled c).1 depth.
Proof. by intros []. Qed.

Lemma packed_decides fuel c wire k depth : length wire ≤ fuel → within c depth → decides c (packed_tally fuel wire k) depth (packed fuel c wire k).
Proof.
  revert c wire. induction fuel as [|fuel IH]; intros c [|x wire] Hl Hw; try (by apply counted_none).
  { cbn [length] in Hl. lia. }
  cbn [packed packed_tally]. pose proof (add_element c depth Hw) as Ha. destruct (addElement c) as [c1 [e|]].
  { destruct Ha as (-> & Hb & Hn). apply decides_stuck; [done..|]. intros t' Ht'.
    destruct (consume_packed k (x :: wire)) as [n|]; [|done]. apply fmap_Some in Ht' as (t & _ & ->). apply Hn. }
  destruct Ha as [Hw1 Hc1]. destruct (consume_packed k (x :: wire)) as [n|] eqn:Hk.
  - apply packed_consumes in Hk. cbn [mbind option_bind]. eapply decides_seq; [exact Hc1| |].
    + destruct Hw1, Hc1 as (?&?&?). cbn in *. split; cbn; lia.
    + apply IH; [rewrite length_drop; cbn [length] in *; lia|done].
  - by apply decides_stuck; [|by eapply within_bounded|].
Qed.

(** A message scanned from its entry. *)
Lemma decides_enclose d c c1 t depth o :
  messages c1 = messages c + (if is_message d then 1 else 0) → messageInfos c1 = messageInfos c + (if is_info d then 1 else 0) → elements c1 = elements c →
  decides c1 t (S depth) o → decides c (enclose d <$> t) depth o.
Proof.
  intros Hm Hi He. unfold decides. destruct o as [c2 [e|]]; cbn [fst snd].
  - intros (Hf & Hb & Hn). split_and!; [done..|]. intros Hf' t' Ht' [F1 F2 F3 F4]. apply fmap_Some in Ht' as (t0 & -> & ->).
    apply (Hn Hf' t0 eq_refl). cbn in F1, F2, F3, F4. split; lia.
  - intros (t' & -> & (?&?&?) & []). exists (enclose d t'). split_and!; [done|repeat split; cbn; lia|]. split; cbn; lia.
Qed.

Lemma one_more c c1 depth : within c1 depth → counted c one_element c1 → fits c one_element depth.
Proof. intros [] (?&?&?). cbn in *. split; cbn; lia. Qed.

Lemma fields_decides cancelled fuel c wire d depth :
  length wire ≤ fuel → within c depth → decides c (fields_tally fuel wire d) depth (fields cancelled fuel c wire d depth).
Proof.
  revert c wire d depth. induction fuel as [|fuel IH]; intros c [|x wire] d depth Hl Hw.
  1,3: cbn [fields fields_tally]; apply (decides_asked cancelled); destruct (cancelled (asked c)) eqn:Hc; unfold ask; rewrite Hc;
    [by split_and!; [|eapply within_bounded, (within_asked cancelled)|]|apply counted_none; by destruct Hw].
  { cbn [length] in Hl. lia. }
  cbn [fields fields_tally]. apply (decides_asked cancelled). pose proof (within_asked cancelled c depth Hw) as Hwa.
  destruct (ask cancelled c) as [ca [e|]] eqn:Hask; cbn [fst] in *.
  { unfold ask in Hask. destruct (cancelled (asked c)); [|done]. injection Hask as <- <-. split_and!; [done|by eapply within_bounded|done]. }
  clear Hask Hw c. rename ca into c. pose proof (add_element c depth Hwa) as Ha. destruct (addElement c) as [c1 [e|]].
  { destruct Ha as (-> & Hb & Hn). apply decides_stuck; [done..|]. intros t' Ht'. destruct (ConsumeTag (x :: wire)) as [[[number kind] n]|]; [|done].
    cbn [mbind option_bind] in Ht'. destruct (is_group kind); [done|]. destruct kind;
      try (destruct (ConsumeFieldValue _ _ _); [|done]; apply fmap_Some in Ht' as (t & _ & ->); apply Hn).
    destruct (ConsumeBytes _) as [[value consumed]|]; [|done]. cbn in Ht'. destruct (match holds d number with Submessage _ => _ | Packed _ => _ | Opaque_ => _ end); [|done].
    cbn in Ht'. destruct (fields_tally fuel _ d); [|done]. injection Ht' as <-. apply Hn. }
  destruct Ha as [Hw1 Hc1]. pose proof (one_more _ _ _ Hw1 Hc1) as H1.
  destruct (ConsumeTag (x :: wire)) as [[[number kind] n]|] eqn:Htag; [|by apply decides_stuck; [|by eapply within_bounded|]].
  apply tag_consumes in Htag. cbn [mbind option_bind]. set (rest := drop n (x :: wire)).
  assert (Hrest : length rest ≤ fuel) by (unfold rest; rewrite length_drop; cbn [length] in *; lia). clearbody rest. clear Htag Hl x wire.
  destruct (is_group kind); [by apply decides_stuck; [|by eapply within_bounded|]|].
  destruct (decide (kind = BytesType)) as [->|Hkind].
  2: { assert (Hv : decides c (consumed ← ConsumeFieldValue number kind rest; tally_add one_element <$> fields_tally fuel (drop consumed rest) d) depth
         match ConsumeFieldValue number kind rest with None => (c1, Some ParseError) | Some consumed => fields cancelled fuel c1 (drop consumed rest) d depth end)
         by (destruct (ConsumeFieldValue number kind rest); [eapply decides_seq; [done..|]; apply IH; [rewrite length_drop; lia|done]
             |by apply decides_stuck; [|by eapply within_bounded|]]).
       by destruct kind. }
  destruct (ConsumeBytes rest) as [[value consumed]|] eqn:Hbytes; [|by apply decides_stuck; [|by eapply within_bounded|]].
  apply bytes_consume in Hbytes. cbn [mbind option_bind].
  set (scanned := match holds d number with Submessage d' => match enter c1 d' (S depth) with (c2, None) => _ | failed => failed end | Packed k => _ | Opaque_ => _ end).
  set (inside := match holds d number with Submessage _ => _ | Packed _ => _ | Opaque_ => _ end).
  assert (Hin : decides c1 inside depth scanned).
  { subst scanned inside. destruct (holds d number) as [d'|k|]; [|apply packed_decides; [lia|done]|by apply counted_none].
    pose proof (enter_spec c1 d' (S depth)) as He. destruct (enter c1 d' (S depth)) as [c2 [e|]].
    - destruct He as (He1 & He2 & Hb & Hn); [by destruct Hw1; split; cbn in *; lia|]. apply decides_stuck; [done..|].
      intros t' Ht' Hf. apply fmap_Some in Ht' as (t0 & _ & ->). apply (Hn t0 Hf). lia.
    - destruct He as (Hw2 & Hm & Hi & He); [by destruct Hw1; split; cbn in *; lia|]. eapply decides_enclose; [done..|]. apply IH; [lia|done]. }
  clearbody scanned inside. destruct scanned as [c2 e]. eapply (decides_eq _ (tally_add one_element <$> (a ← inside; b ← fields_tally fuel (drop consumed rest) d; Some (tally_add a b)))).
  { by destruct inside; [destruct (fields_tally _ _ _)|]. }
  eapply decides_seq; [done..|]. destruct e as [e|]; [by apply decides_first|].
  destruct Hin as (ti & -> & Hc2 & Hf2). cbn [mbind option_bind]. cbn [fst] in Hc2.
  eapply (decides_eq _ (tally_add ti <$> fields_tally fuel (drop consumed rest) d)); [by destruct (fields_tally _ _ _)|].
  eapply decides_seq; [done..|]. apply IH; [rewrite length_drop; lia|]. by eapply within_counted.
Qed.

(** A bundle whose tree is within every limit. *)
Definition small_tree (t : tally) : Prop :=
  t_messages t ≤ historyShareMessageLimit ∧ t_infos t ≤ historyShareMessageLimit ∧ t_elements t ≤ historyShareElementLimit ∧ t_depth t ≤ historyShareDepthLimit.

Definition no_counts : historyShareWireCounts := {| messages := 0; messageInfos := 0; elements := 0; asked := 0 |}.

Lemma limits_positive : 0 < historyShareDepthLimit.
Proof. #[local] Transparent historyShareDepthLimit. unfold historyShareDepthLimit. lia. Qed.

Lemma enter_root d : (enter no_counts d 0).2 = None.
Proof.
  #[local] Transparent historyShareDepthLimit historyShareMessageLimit. unfold enter. destruct (is_message d), (is_info d); reflexivity.
Qed.

#[local] Opaque historyShareDepthLimit historyShareMessageLimit.

Lemma scan_decides cancelled plain :
  match scanHistoryShareWire cancelled plain with
  | (c, None) => ∃ t, wire_tally plain = Some t ∧ counted no_counts t c ∧ small_tree t
  | (c, Some e) => e ≠ OutOfFuel ∧ bounded c ∧ (e ≠ Cancelled → ∀ t, wire_tally plain = Some t → ~ small_tree t)
  end.
Proof.
  unfold scanHistoryShareWire, scan, wire_tally. fold no_counts.
  assert (Hw : within no_counts 0) by (split; cbn; [lia..|]; apply limits_positive).
  pose proof (enter_root HistorySyncDescriptor) as Hr. pose proof (enter_spec no_counts HistorySyncDescriptor 0 Hw) as He.
  destruct (enter no_counts HistorySyncDescriptor 0) as [c e]. cbn [snd] in Hr. subst e. destruct He as (Hw1 & Hm & Hi & Hel).
  pose proof (fields_decides cancelled (length plain) c plain HistorySyncDescriptor 0 ltac:(done) Hw1) as Hd. unfold decides in Hd.
  destruct (fields _ _ _ _ _ _) as [c' [e|]]; cbn [fst snd] in Hd.
  - destruct Hd as (He & Hb & Hn). split_and!; [done..|]. intros He' t Ht Hs. apply fmap_Some in Ht as (t0 & Ht & ->).
    apply (Hn He' t0 Ht). destruct Hs as (?&?&?&?). cbn in *. split; lia.
  - destruct Hd as (t & -> & (?&?&?) & []). eexists. split; [done|]. split; repeat split; cbn in *; lia.
Qed.

(** A context that is never cancelled cancels nothing. *)
Lemma enter_keeps c d depth : (enter c d depth).2 ≠ Some Cancelled.
Proof. unfold enter. by repeat (case_match; cbn). Qed.

Lemma packed_keeps fuel c wire k : (packed fuel c wire k).2 ≠ Some Cancelled.
Proof.
  revert c wire. induction fuel as [|fuel IH]; intros c [|x wire]; [done..|]. cbn [packed]. unfold addElement.
  destruct (Nat.ltb _ _); [done|]. destruct (consume_packed k _); [apply IH|done].
Qed.

Lemma fields_keeps cancelled fuel c wire d depth : (∀ n, cancelled n = false) → (fields cancelled fuel c wire d depth).2 ≠ Some Cancelled.
Proof.
  intros Hno. revert c wire d depth. induction fuel as [|fuel IH]; intros c [|x wire] d depth; cbn [fields]; unfold ask; rewrite ?Hno; [done..|].
  unfold addElement. destruct (Nat.ltb _ _); [done|]. destruct (ConsumeTag (x :: wire)) as [[[number kind] n]|]; [|done].
  destruct (is_group kind); [done|]. destruct kind; try (destruct (ConsumeFieldValue _ _ _); [apply IH|done]).
  destruct (ConsumeBytes _) as [[value consumed]|]; [|done].
  set (scanned := match holds d number with Submessage d' => match enter _ d' (S depth) with (c2, None) => _ | failed => failed end | Packed k => _ | Opaque_ => _ end).
  assert (Hin : scanned.2 ≠ Some Cancelled).
  { subst scanned. destruct (holds d number) as [d'|k|]; [|apply packed_keeps|done]. set (o := enter _ d' (S depth)).
    assert (Ho : o.2 ≠ Some Cancelled) by apply enter_keeps. clearbody o. destruct o as [? []]; [done|apply IH]. }
  clearbody scanned. destruct scanned as [c2 [e|]]; [done|apply IH].
Qed.

Lemma scan_never_cancelled cancelled plain : (∀ n, cancelled n = false) → (scanHistoryShareWire cancelled plain).2 ≠ Some Cancelled.
Proof.
  intros Hno. unfold scanHistoryShareWire, scan. set (o := enter _ _ 0). assert (Ho : o.2 ≠ Some Cancelled) by apply enter_keeps.
  clearbody o. destruct o as [? []]; [done|by apply fields_keeps].
Qed.

(** [C38] A shared history is taken apart only when all of it is within the limits.  The
    scan always ends; it accepts exactly the trees with at most 5,000 history messages, at
    most 5,000 message objects, at most 100,000 elements and at most 100 levels, and its
    counters are then the numbers of the tree; a refusal comes with no counter
    more than one past its limit, so the work on a hostile bundle is bounded too. *)
Theorem scan_exact (cancelled : nat → bool) (plain : bytes) :
  let '(c, e) := scanHistoryShareWire cancelled plain in
  e ≠ Some OutOfFuel ∧ bounded c ∧
  (e = None → ∃ t, wire_tally plain = Some t ∧ small_tree t ∧ counted no_counts t c) ∧
  ((∀ n, cancelled n = false) → (∃ t, wire_tally plain = Some t ∧ small_tree t) → e = None).
Proof.
  pose proof (scan_decides cancelled plain) as Hs. pose proof (scan_never_cancelled cancelled plain) as Hc.
  destruct (scanHistoryShareWire cancelled plain) as [c [e|]].
  - destruct Hs as (He & Hb & Hn). split_and!; [congruence|done|done|]. intros Hno (t & Ht & Hsm). exfalso. eapply Hn; [|done..]. intros ->. by apply (Hc Hno).
  - destruct Hs as (t & Ht & Hct & Hsm). split_and!; [done| |eauto|done]. destruct Hct as (?&?&?), Hsm as (?&?&?&?). repeat split; cbn in *; lia.
Qed.

End Scan.

(** ** A concrete wire *)
Module RefWire.

Definition code (a : ascii) : nat := nat_of_ascii a.

(** Base-128 numbers, least significant group first. *)
Fixpoint varint (w : bytes) : option (nat * nat) :=
  match w with
  | [] => None
  | b :: w => if Nat.ltb (code b) 128 then Some (code b, 1) else '(v, n) ← varint w; Some (code b - 128 + 128 * v, S n)
  end.

Definition at_least (n : nat) (w : bytes) : option nat := if Nat.leb n (length w) then Some n else None.

Definition type_of (v : nat) : option wire_type :=
  nth_error [VarintType; Fixed64Type; BytesType; StartGroupType; EndGroupType; Fixed32Type] (v mod 8).

Definition tag (w : bytes) : option (Z * wire_type * nat) := '(v, n) ← varint w; k ← type_of v; Some (Z.of_nat (v / 8), k, n).

Definition block (w : bytes) : option (bytes * nat) :=
  '(len, n) ← varint w; if Nat.leb (n + len) (length w) then Some (take len (drop n w), n + len) else None.

Definition value (f : Z) (k : wire_type) (w : bytes) : option nat :=
  match k with
  | VarintType => snd <$> varint w
  | Fixed32Type => at_least 4 w
  | Fixed64Type => at_least 8 w
  | BytesType => snd <$> block w
  | _ => None
  end.

(** The messages on the path to a row: the sync, a conversation, a history message,
    the message object; field 9 of a conversation is a packed list. *)
Inductive desc : Type := Sync | Conv | Msg | Info.

Definition name (d : desc) : string :=
  match d with Msg => "WAWebProtobufsHistorySync.HistorySyncMsg" | Info => "WAWebProtobufsWeb.WebMessageInfo" | _ => "other" end.

Definition field (d : desc) (number : Z) : option (field_kind * bool * desc) :=
  match d, number with
  | Sync, 2%Z => Some (MessageKind, true, Conv)
  | Conv, 2%Z => Some (MessageKind, true, Msg)
  | Conv, 9%Z => Some (VarintKind, true, Conv)
  | Msg, 1%Z => Some (MessageKind, false, Info)
  | Info, 1%Z => Some (StringKind, false, Info)
  | _, _ => None
  end.

#[local] Instance ops : Protowire := {
  ConsumeTag := tag; ConsumeBytes := block; ConsumeFieldValue := value; ConsumeFixed32 := at_least 4; ConsumeFixed64 := at_least 8;
  ConsumeVarint w := snd <$> varint w; MessageDescriptor := desc; FullName := name; ByNumber := field; HistorySyncDescriptor := Sync;
}.

Lemma varint_length w v n : varint w = Some (v, n) → 0 < n ≤ length w.
Proof.
  revert v n. induction w as [|b w IH]; intros v n; cbn [varint]; [done|]. destruct (Nat.ltb _ _); [intros [= _ <-]; cbn; lia|].
  destruct (varint w) as [[v' n']|] eqn:E; [|done]. intros [= _ <-]. specialize (IH _ _ eq_refl). cbn. lia.
Qed.

Lemma at_least_length k w n : 0 < k → at_least k w = Some n → 0 < n ≤ length w.
Proof. intros Hk. unfold at_least. destruct (Nat.leb_spec k (length w)); [|done]. intros [= <-]. lia. Qed.

Lemma block_length w v n : block w = Some (v, n) → length v < n ≤ length w.
Proof.
  unfold block. destruct (varint w) as [[len m]|] eqn:E; [|done]. apply varint_length in E. cbn. destruct (Nat.leb_spec (m + len) (length w)); [|done].
  intros [= <- <-]. rewrite length_take, length_drop. lia.
Qed.

#[local] Instance laws : ProtowireLaws.
Proof.
  split; cbn.
  - intros w f k n. unfold tag. destruct (varint w) as [[v m]|] eqn:E; [|done]. cbn [mbind option_bind]. destruct (type_of v); [|done]. intros [= _ _ <-]. by eapply varint_length.
  - apply block_length.
  - intros f k w n. destruct k; cbn; [|intros Hv%at_least_length; lia..| |done|done].
    + destruct (varint w) as [[v m]|] eqn:E; [|done]. intros [= <-]. apply varint_length in E. lia.
    + destruct (block w) as [[v m]|] eqn:E; [|done]. intros [= <-]. apply block_length in E. lia.
  - intros w n. apply at_least_length. lia.
  - intros w n. apply at_least_length. lia.
  - intros w n. destruct (varint w) as [[v m]|] eqn:E; [|done]. intros [= <-]. by eapply varint_length.
Qed.

(** A conversation with a packed list of two numbers, and one history message with
    its object, whose text is opaque. *)
Definition bundle : bytes :=
  ascii_of_nat <$> [18; 12; 74; 3; 1; 129; 1; 18; 5; 10; 3; 10; 1; 7].

Example bundle_scanned : scanHistoryShareWire (λ _, false) bundle = ({| messages := 1; messageInfos := 1; elements := 7; asked := 9 |}, None).
Proof. vm_compute. reflexivity. Qed.

Definition never (n : nat) : bool := false.

Lemma scan_exact_witness :
  let '(c, e) := scanHistoryShareWire never bundle in
  e ≠ Some OutOfFuel ∧ bounded c ∧
  (e = None → ∃ t, wire_tally bundle = Some t ∧ small_tree t ∧ counted no_counts t c) ∧
  ((∀ n, never n = false) → (∃ t, wire_tally bundle = Some t ∧ small_tree t) → e = None).
Proof. exact (@scan_exact ops laws never bundle). Defined.

End RefWire.
