(* ===== verification/HistoryShare.v ===== *)
(** * History a group member shared ([history_share.go])

    A bundle is announced in a message of a group.  It is queued ([Queues]),
    downloaded and inflated under limits, scanned ([HistoryWire]), checked against the group it came
    from, stripped of everything that is not a message of somebody else, and imported as a
    peer's history ([HistorySync]). *)
From S2P Require Import Prelude Jid ChatPolicy Send Archive Messages MarkRead Polls Content Inbound MediaCache HistorySync HistoryWire.
#[local] Open Scope Z_scope.

Definition historyShareCompressedLimit : Z := 16 * 2 ^ 20.
Definition historyShareInflatedLimit : Z := 4 * 2 ^ 20.
Definition historyShareTimeout : Z := 120 * 10 ^ 9.

(** [waE2E.MessageHistoryBundle], the fields the import uses. *)
Record MessageHistoryBundle := { b_path : string; b_key : string; b_sha256 : string; b_enc_sha256 : string }.

(** [historyShareJob]. *)
Record historyShareJob := { j_bundle : MessageHistoryBundle; j_chat : string; j_deadline : Z }.

(** The three blobs are 32 bytes, the path starts with a slash. *)
Definition complete_credentials (b : MessageHistoryBundle) : bool :=
  has_prefix "/" (b_path b) && Nat.eqb (String.length (b_key b)) 32 && Nat.eqb (String.length (b_sha256 b)) 32 && Nat.eqb (String.length (b_enc_sha256 b)) 32.

Section Share.
Context `{JidOps} `{Sqlite} `{Floats} `{Protowire}.

(** ** Scope *)

Definition historyShareGroupOrigin (chat : string) : bool :=
  match canonicalChatJID chat false with
  | Ok jid => String.eqb (Server jid) GroupServer && String.eqb (JIDString jid) chat
  | Err _ => false
  end.

Definition row_remote (r : option web_message) : string := match r with Some m => w_remote m | None => "" end.

Definition historyShareMatchesGroup (data : list raw_conversation) (chat : string) : bool :=
  historyShareGroupOrigin chat && negb (bool_decide (data = [])) &&
  forallb (λ h, String.eqb (default "" (h_id h)) chat &&
                forallb (λ r, String.eqb (row_remote r) "" || String.eqb (row_remote r) chat) (h_messages h)) data.

(** ** The queue's door *)

(** [queueHistoryShare]: the job that is submitted, or why there is none; [stopped]
    is whether the bridge is shutting down. *)
Definition queueHistoryShare (stopped : bool) (timeout now : Z) (bundle : option MessageHistoryBundle) (chat : string) : result string historyShareJob :=
  if negb (historyShareGroupOrigin chat) then Err "originating group scope refused"
  else match bundle with
  | None => Err "incomplete or oversized credentials"
  | Some b =>
      if Nat.ltb 2048 (String.length (b_path b)) || negb (complete_credentials b) then Err "incomplete or oversized credentials"
      else if stopped then Err "job cancelled"
      else Ok {| j_bundle := b; j_chat := chat; j_deadline := now + (if timeout =? 0 then historyShareTimeout else timeout) |}
  end.

(** [queueHistoryShares]: the bundles among the rows of an own-phone payload, each
    with the chat of its conversation; [bundle_of] reads the bundle of a payload. *)
Definition queueHistoryShares (bundle_of : option Message → option MessageHistoryBundle) (stopped : bool) (timeout now : Z) (data : list raw_conversation) : list historyShareJob :=
  mjoin ((λ h, omap (λ r, match r with
                          | Some m => match bundle_of (w_payload m) with
                                      | Some b => match queueHistoryShare stopped timeout now (Some b) (default "" (h_id h)) with Ok j => Some j | Err _ => None end
                                      | None => None
                                      end
                          | None => None
                          end) (h_messages h)) <$> data).

(** ** Decoding *)

(** What decoding meets: the answers of the context, the file system, the client, what
    the download did to the file and whether it failed, the bytes it left; and
    the libraries: inflating (the output, and whether the stream is broken after
    it) and the protobuf decoder. *)
Record decode_world := {
  done_at : nat → bool; temp_ok : bool; has_client : bool; transfer : list MediaCache.file_op; transfer_failed : bool; stat_works : bool; seek_works : bool;
  left_bytes : bytes; zlib : bytes → option (bytes * bool); unmarshal : bytes → option (list raw_conversation);
}.

(** [io.ReadAll] of an [io.LimitReader]. *)
Definition read_limited (n : nat) (stream : bytes * bool) : option bytes :=
  if Nat.leb n (length stream.1) then Some (take n stream.1) else if stream.2 then None else Some stream.1.

Definition inflateHistoryShare (w : decode_world) (compressed : bytes) (limit : Z) : result string (list raw_conversation) :=
  match zlib w compressed with
  | None => Err "not a zlib stream"
  | Some stream =>
      match read_limited (Z.to_nat (limit + 1)) stream with
      | None => Err "broken stream"
      | Some plain =>
          if limit <? Z.of_nat (length plain) then Err "shared history inflated limit exceeded"
          else if done_at w 1%nat then Err "cancelled"
          else match scanHistoryShareWire (λ n, done_at w (2 + n)) plain with
          | (_, Some _) => Err "wire refused"
          | (_, None) => match unmarshal w plain with Some data => Ok data | None => Err "not a history sync" end
          end
      end
  end.

Definition decodeHistoryShare (w : decode_world) (b : MessageHistoryBundle) (compressedLimit inflatedLimit : Z) : result string (list raw_conversation) :=
  if done_at w 0%nat then Err "cancelled"
  else if negb (complete_credentials b) then Err "incomplete shared history credentials"
  else if negb (temp_ok w) then Err "no temporary file"
  else if negb (has_client w) then Err "shared history client unavailable"
  else
    let h := foldl (flip (MediaCache.capped_run ((compressedLimit / 16 + 1) * 16 + 10))) MediaCache.new_handle (transfer w) in
    if MediaCache.exceeded h then Err "shared history compressed limit exceeded"
    else if transfer_failed w then Err "download failed"
    else if negb (stat_works w) then Err "stat failed"
    else if compressedLimit <? Z.of_nat (length (left_bytes w)) then Err "shared history compressed limit exceeded"
    else if negb (seek_works w) then Err "seek failed"
    else inflateHistoryShare w (left_bytes w) inflatedLimit.

(** ** Attribution *)

(** The namespaces of a person. *)
Definition namespaced (j : JID) : option JID :=
  if String.eqb (Server j) DefaultUserServer || String.eqb (Server j) HostedServer then Some (set_Server DefaultUserServer j)
  else if String.eqb (Server j) HiddenUserServer || String.eqb (Server j) HostedLIDServer then Some (set_Server HiddenUserServer j)
  else None.

Definition unhosted (j : JID) : JID :=
  if String.eqb (Server j) HostedServer then set_Server DefaultUserServer j
  else if String.eqb (Server j) HostedLIDServer then set_Server HiddenUserServer j else j.

(** [clientIdentity]: our phone and our LID, empty without a session. *)
Definition clientIdentity (client : lid_store) (id lid : option JID) : JID * JID :=
  match id with
  | None => (EmptyJID, EmptyJID)
  | Some i =>
      let phone := ToNonAD i in
      let l := match lid with Some l => ToNonAD l | None => EmptyJID end in
      (phone, if IsEmpty l then match lookupAltJID client phone with Ok r => ToNonAD r | Err _ => l end else l)
  end.

(** Our two addresses as the import compares them. *)
Definition own_addresses (client : lid_store) (id lid : option JID) : JID * JID :=
  let '(phone, l) := clientIdentity client id lid in
  (ToNonAD (if String.eqb (Server phone) HostedServer then set_Server DefaultUserServer phone else phone),
   ToNonAD (if String.eqb (Server l) HostedLIDServer then set_Server HiddenUserServer l else l)).

Definition is_us (us : JID * JID) (j : JID) : bool := bool_decide (j = us.1) || bool_decide (j = us.2).

(** The answers of the LID store during one import, latest first. *)
Abbreviation answers := (list (JID * JID)).

Definition cached (candidate : JID) (known : answers) : option JID :=
  match list_find (λ p, p.1 = candidate) known with Some (_, p) => Some p.2 | None => None end.

(** The other address of a person, looked up once. *)
Definition alternate (client : lid_store) (candidate : JID) (known : answers) : result alt_error (JID * answers) :=
  match cached candidate known with
  | Some alt => Ok (alt, known)
  | None => match lookupAltJID client candidate with
            | Err e => Err e
            | Ok alt => let alt := unhosted (ToNonAD alt) in Ok (alt, (candidate, alt) :: known)
            end
  end.

(** Who a row names so far, whether that is us, and the answers. *)
Record attribution := { at_sender : JID; at_own : bool; at_known : answers }.

(** One of the two attribution fields of a row. *)
Definition attribute (client : lid_store) (us : JID * JID) (st : attribution) (raw : string) : result alt_error attribution :=
  match normalizedUserJID raw with
  | Err _ => Ok st
  | Ok j =>
      match namespaced (ToNonAD j) with
      | None => Ok st
      | Some candidate =>
          let finish candidate own known :=
            {| at_sender := if IsEmpty (at_sender st) then candidate else at_sender st; at_own := own || is_us us candidate; at_known := known |} in
          if at_own st || is_us us candidate then Ok (finish candidate true (at_known st))
          else match alternate client candidate (at_known st) with
          | Err e => Err e
          | Ok (alt, known) =>
              Ok (finish (if String.eqb (Server candidate) HiddenUserServer && negb (IsEmpty alt) then alt else candidate) (negb (IsEmpty alt) && is_us us alt) known)
          end
      end
  end.

Definition key_participant (m : web_message) : string := match w_key m with Some (_, _, p) => p | None => "" end.

Definition attribute_row (client : lid_store) (us : JID * JID) (known : answers) (m : web_message) : result alt_error attribution :=
  match attribute client us {| at_sender := EmptyJID; at_own := false; at_known := known |} (w_participant m) with
  | Err e => Err e
  | Ok st => attribute client us st (key_participant m)
  end.

(** ** Cleaning *)

Definition max_second : Z := 253402300799.

(** [rewire] is the wire author the SDK selects for the rewritten row. *)
Context (rewire : web_message → string → string).

(** A row of somebody else: its author in both fields, and never ours. *)
Definition reattributed (sender : JID) (m : web_message) : web_message :=
  let participant := if IsEmpty sender then "" else JIDString sender in
  {| w_key := Some (w_id m, false, participant); w_remote := w_remote m; w_participant := participant; w_time := w_time m; w_payload := w_payload m;
     w_wire := rewire m participant |}.

Inductive clean_error : Type := ShareCancelled | OutsideArchiveDomain | LookupFailed (e : alt_error).

(** The rows of a conversation, from the [i]-th row of the bundle on: the rows kept,
    the rows skipped, the answers. *)
Fixpoint clean_rows (client : lid_store) (us : JID * JID) (cancelled : nat → bool) (i : nat) (known : answers) (rows : list (option web_message)) :
    result clean_error (list (option web_message) * nat * answers) :=
  match rows with
  | [] => Ok ([], O, known)
  | r :: rows =>
      if cancelled i then Err ShareCancelled
      else match r with
      | None => match clean_rows client us cancelled (S i) known rows with
                | Ok (l, n, known) => Ok (None :: l, n, known)
                | Err e => Err e
                end
      | Some m =>
          if max_second <? w_time m then Err OutsideArchiveDomain
          else match attribute_row client us known m with
          | Err e => Err (LookupFailed e)
          | Ok st =>
              match clean_rows client us cancelled (S i) (at_known st) rows with
              | Ok (l, n, known) => Ok (if at_own st then (l, S n, known) else (Some (reattributed (at_sender st) m) :: l, n, known))
              | Err e => Err e
              end
          end
      end
  end.

(** The conversations; only their id and rows are carried over. *)
Fixpoint clean_all (client : lid_store) (us : JID * JID) (cancelled : nat → bool) (i : nat) (known : answers) (data : list raw_conversation) :
    result clean_error (list raw_conversation * nat) :=
  match data with
  | [] => if cancelled i then Err ShareCancelled else Ok ([], O)
  | h :: data =>
      match clean_rows client us cancelled i known (h_messages h) with
      | Err e => Err e
      | Ok (l, n, known) =>
          match clean_all client us cancelled (i + length (h_messages h)) known data with
          | Err e => Err e
          | Ok (hs, n') =>
              Ok ({| h_id := h_id h; h_display := ""; h_unread := None; h_marked_unread := false; h_expiration := 0; h_setting_time := 0; h_messages := l |} :: hs, (n + n')%nat)
          end
      end
  end.

Definition historyShareMessages (client : lid_store) (id lid : option JID) (cancelled : nat → bool) (data : list raw_conversation) :
    result clean_error (list raw_conversation * nat) :=
  clean_all client (own_addresses client id lid) cancelled 0 [] data.

(** ** The job *)

Context (unwrap : Message → option Message * bool) (num : float → jval) (int : Z → jval) (presentation : Message → option string)
  (marshal : messageLocation → string) (clock : Z → string).

(** What a job meets: whether the operator parked the device, before and under the
    gate; decoding; the session; the answers of the context while the rows are cleaned
    and after the import; and what the import meets. *)
Record share_world := {
  parked : bool; parked_inside : bool; decoding : decode_world; session : lid_store; session_id : option JID; session_lid : option JID;
  cancelled_at : nat → bool; cancelled_after : bool; max_age : Z; now : Z; names : JID → raw_conversation → string; stops : nat → bool;
  imports : nat → conversation_world;
}.

(** [runHistoryShare]: the store, and the rows skipped or the refusal logged. *)
Definition runHistoryShare (w : share_world) (job : historyShareJob) (s : store) : store * result string nat :=
  if parked w || parked_inside w then (s, Err "device parked by operator")
  else match decodeHistoryShare (decoding w) (j_bundle job) historyShareCompressedLimit historyShareInflatedLimit with
  | Err _ => (s, Err "download, validation or decoding refused")
  | Ok data =>
      if negb (historyShareMatchesGroup data (j_chat job)) then (s, Err "conversation scope refused")
      else match historyShareMessages (session w) (session_id w) (session_lid w) (cancelled_at w) data with
      | Err _ => (s, Err "message validation, participant lookup or job cancellation")
      | Ok (messages, skipped) =>
          let r := handleHistorySyncWithSharesContext unwrap num int presentation marshal clock {| acc_client := session w; acc_id := session_id w |} (max_age w) (now w)
                     (names w) true (stops w) (imports w) messages s in
          (sy_store r, if cancelled_after w then Err "job cancelled" else Ok skipped)
      end
  end.

(** ** Rows that are not ours *)

(** The people a row names, and the other addresses the store gives them. *)
Definition named (raw : string) : option JID := match normalizedUserJID raw with Ok j => namespaced (ToNonAD j) | Err _ => None end.

Definition consistent (client : lid_store) (known : answers) : Prop :=
  Forall (λ p, ∃ alt, lookupAltJID client p.1 = Ok alt ∧ p.2 = unhosted (ToNonAD alt)) known.

(** A field of a row that says nothing of us. *)
Definition foreign (client : lid_store) (us : JID * JID) (raw : string) : Prop :=
  ∀ j, named raw = Some j → is_us us j = false ∧
    ∀ alt, lookupAltJID client j = Ok alt → IsEmpty (unhosted (ToNonAD alt)) = false → is_us us (unhosted (ToNonAD alt)) = false.

Lemma alternate_consistent client candidate known alt known' :
  consistent client known → alternate client candidate known = Ok (alt, known') →
  consistent client known' ∧ ∃ a, lookupAltJID client candidate = Ok a ∧ alt = unhosted (ToNonAD a).
Proof.
  intros Hk. unfold alternate, cached. destruct (list_find _ known) as [[i p]|] eqn:Hf.
  - intros [= <- <-]. split; [done|]. apply list_find_Some in Hf as (Hp & <- & _). by eapply Forall_lookup_1 in Hk.
  - destruct (lookupAltJID client candidate) as [a|] eqn:Ha; [|done]. intros [= <- <-]. split; [|by exists a]. constructor; [by exists a|done].
Qed.

(** An address is shown by a row only when it is not ours. *)
Definition clean_state (client : lid_store) (us : JID * JID) (st : attribution) : Prop :=
  consistent client (at_known st) ∧ (at_own st = false → at_sender st = EmptyJID ∨ is_us us (at_sender st) = false).

Lemma attribute_clean client us st raw st' :
  clean_state client us st → attribute client us st raw = Ok st' →
  clean_state client us st' ∧ (at_own st' = false → at_own st = false ∧ foreign client us raw).
Proof.
  intros [Hk Hs]. unfold attribute, foreign, named. destruct (normalizedUserJID raw) as [j|]; [|by intros [= <-]; split; [|split; [|done]]].
  destruct (namespaced (ToNonAD j)) as [c|] eqn:Hn; [|by intros [= <-]; split; [|split; [|done]]].
  destruct (at_own st || is_us us c) eqn:Hown.
  { intros [= <-]. cbn. by split; [split|]. }
  apply orb_false_iff in Hown as [Ho Hc]. destruct (alternate client c (at_known st)) as [[alt known]|] eqn:Ha; [|done].
  apply alternate_consistent in Ha as [Hk' (a & Hla & ->)]; [|done]. intros [= <-]. unfold clean_state. cbn [at_known at_own at_sender].
  set (c' := if String.eqb (Server c) HiddenUserServer && _ then _ else c). split; [split; [done|]|].
  - intros [_ Hc']%orb_false_iff. destruct (IsEmpty (at_sender st)); [by right|by apply Hs].
  - intros [Halt _]%orb_false_iff. split; [done|]. intros j' [= <-]. split; [done|]. intros a' Ha' He. rewrite Hla in Ha'. injection Ha' as <-.
    rewrite He in Halt. done.
Qed.

(** A row is taken for ours only when it names us. *)
Lemma attribute_ours client us st raw st' :
  consistent client (at_known st) → attribute client us st raw = Ok st' → at_own st' = true → at_own st = true ∨ ~ foreign client us raw.
Proof.
  intros Hk. unfold attribute, foreign, named. destruct (normalizedUserJID raw) as [j|]; [|intros [= <-]; by left].
  destruct (namespaced (ToNonAD j)) as [c|] eqn:Hn; [|intros [= <-]; by left].
  destruct (at_own st) eqn:Ho; [by left|]. cbn [orb]. destruct (is_us us c) eqn:Hc.
  { intros _ _. right. intros Hf. destruct (Hf c eq_refl) as [? _]. congruence. }
  destruct (alternate client c (at_known st)) as [[alt known]|] eqn:Ha; [|done].
  apply alternate_consistent in Ha as [_ (a & Hla & ->)]; [|done]. intros [= <-]. cbn [at_own]. intros Hown. right. intros Hf.
  destruct (Hf c eq_refl) as [_ Hf']. specialize (Hf' a Hla). set (alt := unhosted (ToNonAD a)) in *. clearbody alt.
  destruct (IsEmpty alt) eqn:He; cbn [negb andb orb] in Hown; rewrite ?andb_false_r in Hown; [congruence|]. rewrite (Hf' eq_refl) in Hown.
  cbn [orb] in Hown. destruct (_ && true); [rewrite Hf' in Hown|]; congruence.
Qed.

Lemma attribute_row_spec client us known m st :
  consistent client known → attribute_row client us known m = Ok st →
  clean_state client us st ∧ (at_own st = false ↔ foreign client us (w_participant m) ∧ foreign client us (key_participant m)).
Proof.
  intros Hk. unfold attribute_row. set (st0 := {| at_sender := EmptyJID; at_own := false; at_known := known |}).
  assert (Hc0 : clean_state client us st0) by (split; [done|by left]).
  destruct (attribute client us st0 (w_participant m)) as [st1|] eqn:E1; [|done]. intros E2.
  destruct (attribute_clean _ _ _ _ _ Hc0 E1) as [Hc1 Hf1]. destruct (attribute_clean _ _ _ _ _ Hc1 E2) as [Hc2 Hf2].
  split; [done|]. split; [intros Ho; destruct (Hf2 Ho) as [Ho1 ?]; by destruct (Hf1 Ho1)|].
  intros [F1 F2]. destruct (at_own st) eqn:Ho; [|done]. destruct (attribute_ours _ _ _ _ _ (proj1 Hc1) E2 Ho) as [Ho1|?]; [|done].
  by destruct (attribute_ours _ _ _ _ _ (proj1 Hc0) E1 Ho1) as [?|?].
Qed.

(** The rows of a bundle and what is made of them: a row of somebody else is kept
    under its author and as theirs, a row that names us is skipped. *)
Inductive rows_cleaned (client : lid_store) (us : JID * JID) : list (option web_message) → list (option web_message) → nat → Prop :=
| cleaned_nil : rows_cleaned client us [] [] 0
| cleaned_empty rows l n : rows_cleaned client us rows l n → rows_cleaned client us (None :: rows) (None :: l) n
| cleaned_kept m sender rows l n :
    foreign client us (w_participant m) → foreign client us (key_participant m) → w_time m ≤ max_second → sender = EmptyJID ∨ is_us us sender = false →
    rows_cleaned client us rows l n → rows_cleaned client us (Some m :: rows) (Some (reattributed sender m) :: l) n
| cleaned_skipped m rows l n :
    ~ (foreign client us (w_participant m) ∧ foreign client us (key_participant m)) →
    rows_cleaned client us rows l n → rows_cleaned client us (Some m :: rows) l (S n).

Lemma rows_cleaned_app client us r1 l1 n1 r2 l2 n2 :
  rows_cleaned client us r1 l1 n1 → rows_cleaned client us r2 l2 n2 → rows_cleaned client us (r1 ++ r2) (l1 ++ l2) (n1 + n2).
Proof. intros Hl Hr. induction Hl; cbn; eauto using rows_cleaned. Qed.

Lemma clean_rows_spec client us cancelled i known rows l n known' :
  consistent client known → clean_rows client us cancelled i known rows = Ok (l, n, known') → consistent client known' ∧ rows_cleaned client us rows l n.
Proof.
  revert i known l n known'. induction rows as [|r rows IH]; intros i known l n known' Hk; cbn [clean_rows]; [intros [= <- <- <-]; split; [done|constructor]|].
  destruct (cancelled i); [done|]. destruct r as [m|].
  - destruct (Z.ltb_spec max_second (w_time m)); [done|]. destruct (attribute_row client us known m) as [st|] eqn:Ha; [|done].
    apply attribute_row_spec in Ha as [[Hk1 Hs] Hf]; [|done]. destruct (clean_rows _ _ _ _ (at_known st) rows) as [[[l' n'] k']|] eqn:Hr; [|done].
    apply IH in Hr as [Hk2 Hr]; [|done]. destruct (at_own st); intros [= <- <- <-]; (split; [done|]).
    + apply cleaned_skipped; [|done]. intros Hff. by apply Hf in Hff.
    + destruct (proj1 Hf eq_refl). by apply cleaned_kept; [..|apply Hs|].
  - destruct (clean_rows _ _ _ _ known rows) as [[[l' n'] k']|] eqn:Hr; [|done]. apply IH in Hr as [Hk2 Hr]; [|done]. intros [= <- <- <-].
    by split; [|constructor].
Qed.

(** What is carried over of a conversation besides its rows: nothing. *)
Definition bare (h : raw_conversation) : Prop :=
  h_display h = "" ∧ h_unread h = None ∧ h_marked_unread h = false ∧ h_expiration h = 0 ∧ h_setting_time h = 0.

Lemma clean_all_spec client us cancelled i known data out n :
  consistent client known → clean_all client us cancelled i known data = Ok (out, n) →
  h_id <$> out = h_id <$> data ∧ Forall bare out ∧ rows_cleaned client us (mjoin (h_messages <$> data)) (mjoin (h_messages <$> out)) n.
Proof.
  revert i known out n. induction data as [|h data IH]; intros i known out n Hk; cbn [clean_all].
  { destruct (cancelled i); [done|]. intros [= <- <-]. split_and!; [done|constructor|constructor]. }
  destruct (clean_rows _ _ _ _ _ _) as [[[l m] k]|] eqn:Hr; [|done]. apply clean_rows_spec in Hr as [Hk' Hr]; [|done].
  destruct (clean_all _ _ _ _ k data) as [[hs m']|] eqn:Ha; [|done]. apply IH in Ha as (Hi & Hb & Hc); [|done]. intros [= <- <-].
  split_and!; [cbn; by rewrite Hi|by constructor|]. by apply rows_cleaned_app.
Qed.

(** What is imported of a shared history is never ours.  Every row of a bundle that names
    us, in either of its two fields, by our phone or our LID, or by an address the
    LID store knows for us, is skipped and counted; every other row is kept, in order, under an
    author that is not us, with "from me" off and a time the archive can hold;
    and no read marker, no name and no disappearing-message setting comes with it. *)
Theorem shared_rows_not_ours (client : lid_store) (id lid : option JID) (cancelled : nat → bool) (data out : list raw_conversation) (skipped : nat)
    (Hok : historyShareMessages client id lid cancelled data = Ok (out, skipped)) :
  rows_cleaned client (own_addresses client id lid) (mjoin (h_messages <$> data)) (mjoin (h_messages <$> out)) skipped ∧
  h_id <$> out = h_id <$> data ∧ Forall bare out.
Proof. destruct (clean_all_spec _ _ _ _ _ _ _ _ (Forall_nil_2 _) Hok) as (? & ? & ?). by split_and!. Qed.

(** ** Where an import reaches *)

(** What a peer's import may change: rows, polls and the record of one chat, by additions
    that are not from us. *)
Record grows (chat : string) (s s' : store) : Prop := {
  g_adds : adds_only s s';
  g_rows : ∀ id c r, s_rows s' !! (id, c) = Some r → s_rows s !! (id, c) = Some r ∨ c = chat ∧ is_from_me r = false;
  g_polls : ∀ id c p, polls (s_polls s') !! (id, c) = Some p → polls (s_polls s) !! (id, c) = Some p ∨ c = chat;
  g_chats : ∀ jid, jid ≠ chat → s_chats s' !! jid = s_chats s !! jid;
}.

#[local] Instance grows_preorder chat : PreOrder (grows chat).
Proof.
  split; [by split; [|left|left|]|]. intros s1 s2 s3 [A1 R1 P1 C1] [A2 R2 P2 C2]. split.
  - by etrans.
  - intros id c r Hr. destruct (R2 _ _ _ Hr); [|by right]. auto.
  - intros id c p Hp. destruct (P2 _ _ _ Hp); [|by right]. auto.
  - intros jid Hj. rewrite C2, C1; done.
Qed.

Abbreviation extract_ := (extract unwrap num int clock).
Abbreviation persist := (persistMessageResult unwrap num int presentation marshal clock true).

Lemma persist_grows id chat author ts x declared rc rs s s' consumed :
  x_edit x = None → historyRowExists id chat s = false → persist id chat author ts false x declared rc rs false s = (s', consumed) → grows chat s s'.
Proof.
  intros Hx Hnew Hp. split; [by eapply persist_adds|..]; revert Hp; unfold persistMessageResult; rewrite Hx;
    unfold historyRowExists in Hnew; apply orb_false_iff in Hnew as [Hr _]; apply bool_decide_eq_false, eq_None_not_Some in Hr;
    (assert (updateLiveLocationWith marshal (id, chat) author false (x_location x) (s_rows s) = (false, s_rows s)) as ->
      by (unfold updateLiveLocationWith; cbn [fst]; destruct (String.eqb id ""); [done|]; destruct (splitSenderJID author); by rewrite Hr));
    intros [= <- _]; cbn [s_rows s_polls s_chats].
  - intros i c r. set (m := storedMessageSnapshot _ _ _ _ _ _ _ _ _ _ _ _).
    assert (Ht : ∀ r, StoreMessage true m (s_rows s) !! (i, c) = Some r → s_rows s !! (i, c) = Some r ∨ c = chat ∧ is_from_me r = false).
    { clear r. intros r. unfold StoreMessage, insertMessage. destruct (_ && _); [by left|]. change (Messages.ID m) with id. change (Messages.ChatJID m) with chat. rewrite Hr.
      destruct (decide ((id, chat) = (i, c))) as [[= <- <-]|Hne]; [|rewrite lookup_insert_ne by done; by left].
      rewrite lookup_insert_eq. intros [= <-]. right. split; [done|]. unfold messageArgs. by destruct (splitSenderJID _). }
    destruct (viewOnce x); [|apply Ht]. unfold markViewOnceWith.
    destruct (decide ((id, chat) = (i, c))) as [[= <- <-]|Hne]; [|rewrite lookup_alter_ne by done; apply Ht].
    rewrite lookup_alter_eq. intros (r0 & Hr0 & ->)%fmap_Some. apply Ht in Hr0 as [?|[_ ?]]; [congruence|by right].
  - intros i c p. destruct (x_poll x); [|by left]. unfold storePollWith. cbn [polls].
    destruct (decide ((id, chat) = (i, c))) as [[= <- <-]|Hne]; [by right|rewrite lookup_insert_ne by done; by left].
  - done.
Qed.

Definition not_from_me (r : option web_message) : Prop :=
  match r with Some m => match w_key m with Some (_, own, _) => own = false | None => True end | None => True end.

Lemma sender_not_own a m chat peer : not_from_me (Some m) → (historySenderContext a m chat peer).2 = false.
Proof. unfold historySenderContext. cbn. destruct (w_key m) as [[[i own] p]|]; [|done]. intros ->. by destruct peer. Qed.

Abbreviation store_row_ := (store_row unwrap num int presentation marshal clock).
Abbreviation storeChunk_ := (storeChunk unwrap num int presentation marshal clock).
Abbreviation import_conversation_ := (import_conversation unwrap num int presentation marshal clock).

Lemma store_row_grows a c before initial st r : c_peer c = true → not_from_me r → grows (c_chat c) st.1 (store_row_ a c before initial st r).1.
Proof.
  intros Hp Hr. destruct st as [s ids]. unfold store_row. destruct r as [m|]; [|done]. rewrite Hp. cbn [andb].
  set (x := extract_ _ _ _). destruct (is_vote m || bool_decide (is_Some (x_edit x)) || is_empty x) eqn:Hskip; [done|].
  destruct (historyRowExists _ _ _) eqn:Hex; [done|]. destruct (w_time m =? 0); [done|]. rewrite sender_not_own by done.
  destruct (persist _ _ _ _ _ _ _ _ _ _ _) as [s' consumed] eqn:E. cbn [fst].
  apply orb_false_iff in Hskip as [[_ Hedit]%orb_false_iff _]. apply bool_decide_eq_false, eq_None_not_Some in Hedit. eapply persist_grows; eauto.
Qed.

Lemma store_chat_elsewhere chat name at_ (t : Chats.chats) jid : jid ≠ chat → Chats.storeChatWith chat name at_ t !! jid = t !! jid.
Proof. intros Hj. unfold Chats.storeChatWith. by destruct (t !! chat); rewrite lookup_insert_ne by done. Qed.

Lemma store_chat_grows chat name at_ s : grows chat s (set_chats (Chats.storeChatWith chat name at_ (s_chats s)) s).
Proof.
  split; [split; [done..|]|by left|by left|].
  - intros jid. apply store_chat_read.
  - intros jid Hj. by apply store_chat_elsewhere.
Qed.

Lemma activity_grows chat name ids s : grows chat s (storeHistoryActivity chat name ids false s).
Proof. unfold storeHistoryActivity. destruct (MaxMessageTimestamp _ _ _); [apply store_chat_grows|done]. Qed.

Lemma chunk_grows a c initial s chunk : c_peer c = true → Forall not_from_me chunk → grows (c_chat c) s (storeChunk_ a c initial s chunk).
Proof.
  intros Hp Hall. unfold storeChunk.
  assert (Hf : ∀ st, grows (c_chat c) st.1 (foldl (store_row_ a c (s_rows s) initial) st chunk).1).
  { induction Hall as [|r chunk Hr Hall IH]; intros st; [done|]. cbn [foldl]. etrans; [by apply store_row_grows|apply IH]. }
  specialize (Hf (s, [])). destruct (foldl _ _ chunk) as [s' ids]. destruct ids; [done|].
  etrans; [exact Hf|]. unfold marks_read. rewrite Hp. apply activity_grows.
Qed.

Lemma chunks_grow a c initial s chunks : c_peer c = true → Forall (Forall not_from_me) chunks → grows (c_chat c) s (foldl (storeChunk_ a c initial) s chunks).
Proof.
  intros Hp Hall. revert s. induction Hall as [|ch chunks Hch Hall IH]; intros s; [done|]. cbn [foldl]. etrans; [by apply chunk_grows|apply IH].
Qed.

(** The rows that were committed are rows of the conversation. *)
Lemma committed_rows (P : option web_message → Prop) whole single messages :
  Forall P messages → Forall (Forall P) (committed (import_rows whole single messages).1).
Proof.
  intros Hall. pose proof (rows_accounted whole single messages) as Ha. destruct (import_rows whole single messages) as [ps e]. cbn [fst].
  destruct (acc_prefix _ _ _ _ Ha) as [tail <-]. apply Forall_app in Hall as [Hall _]. clear Ha. unfold committed.
  induction ps as [|[l|l] ps IH]; [constructor|..]; cbn in Hall |- *; apply Forall_app in Hall as [Hl Hall]; [constructor|]; auto.
Qed.

Lemma conversation_grows a c w s : c_peer c = true → Forall not_from_me (c_messages c) → grows (c_chat c) s (im_store (import_conversation_ a c w s)).
Proof.
  intros Hp Hall. unfold import_conversation. destruct (negb (first_usable _)); [done|]. destruct (negb (chat_written w)); [by destruct (chat_stops w)|].
  rewrite Hp. cbn [orb]. pose proof (committed_rows not_from_me (whole w) (single w) _ Hall) as Hc.
  destruct (import_rows _ _ _) as [ps e]. cbn [fst] in Hc.
  assert (Hg : grows (c_chat c) s (foldl (storeChunk_ a c ∅) (set_chats (Chats.storeChatWith (c_chat c) (c_name c) None (s_chats s)) s) (committed ps)))
    by (etrans; [apply store_chat_grows|by apply chunks_grow]).
  by destruct e.
Qed.

(** The name under which the archive files a chat of a payload. *)
Definition archived_as (client : lid_store) (chat : string) : string :=
  match ParseJID chat with Ok j => JIDString (resolveLIDChatContext client j EmptyJID EmptyJID false) | Err _ => chat end.

Abbreviation import_all_ := (import_all unwrap num int presentation marshal clock).

Lemma import_grows a names stops ws i hs s chat :
  Forall (λ h, default "" (h_id h) = chat ∧ Forall not_from_me (h_messages h)) hs →
  grows (archived_as (acc_client a) chat) s (sy_store (import_all_ a names true stops ws i hs s)).
Proof.
  intros Hall. revert i s. induction Hall as [|h hs [Hid Hm] Hall IH]; intros i s; [done|]. cbn [import_all]. destruct (stops i); [done|].
  destruct (open_conversation a names true h) as [c|] eqn:Ho; [|apply IH].
  assert (Hc : c_peer c = true ∧ c_messages c = h_messages h ∧ c_chat c = archived_as (acc_client a) chat).
  { unfold open_conversation in Ho. destruct (h_id h) as [id|]; [|done]. cbn in Hid, Ho. subst id. unfold archived_as. destruct (ParseJID chat); [|done].
    by injection Ho as <-. }
  destruct Hc as (Hp & Hmsg & Hch). pose proof (conversation_grows a c (ws i) s Hp ltac:(by rewrite Hmsg)) as Hg. rewrite Hch in Hg.
  destruct (im_stopped _); [done|]. cbn [sy_store]. etrans; [exact Hg|apply IH].
Qed.

Lemma cleaned_not_from_me client us rows l n : rows_cleaned client us rows l n → Forall not_from_me l.
Proof. induction 1; repeat constructor; done. Qed.

Lemma bounded_rows (P : raw_conversation → Prop) max_age now hs :
  (∀ h l, P h → l ⊆ h_messages h → P (with_messages l h)) → Forall P hs → Forall P (boundedHistory max_age now hs).
Proof.
  intros HP Hall. unfold boundedHistory. destruct (max_age <=? 0); [done|]. set (cutoff := _ / _). clearbody cutoff.
  induction Hall as [|h hs Hh Hall IH]; [constructor|]. cbn [omap list_omap].
  destruct (filter _ (h_messages h)) as [|r l] eqn:Hf; [done|]. constructor; [|done]. apply HP; [done|]. rewrite <- Hf. intros x. rewrite list_elem_of_filter. tauto.
Qed.

Lemma forall_join (P : option web_message → Prop) (hs : list raw_conversation) : Forall P (mjoin (h_messages <$> hs)) → Forall (λ h, Forall P (h_messages h)) hs.
Proof. induction hs as [|h hs IH]; [constructor|]. cbn. intros [? ?]%Forall_app. constructor; auto. Qed.

Lemma matched_ids data chat : historyShareMatchesGroup data chat = true → historyShareGroupOrigin chat = true ∧ Forall (λ o, default "" o = chat) (h_id <$> data).
Proof.
  unfold historyShareMatchesGroup. intros [[Ho _]%andb_true_iff Hall]%andb_true_iff. split; [done|]. apply Forall_fmap, Forall_forall. intros h Hh.
  apply forallb_forall with (x := h) in Hall; [|by apply list_elem_of_In]. cbn. apply andb_true_iff in Hall as [Hid _]. by apply String.eqb_eq in Hid.
Qed.

(** [C8] A shared history reaches only the group it was shared in.  Whatever the bundle holds,
    however its download, its decoding and the commits end, the archive only
    grows: every row, poll or chat record that a job adds or touches belongs to
    the group whose message announced the bundle, every added row is somebody else's, no
    existing row, poll, vote or read marker changes; and a chat that is not a group,
    or not spelled as the group is, gets nothing. *)
Theorem shared_history_confined (w : share_world) (job : historyShareJob) (s : store) :
  let s' := (runHistoryShare w job s).1 in
  grows (archived_as (session w) (j_chat job)) s s' ∧ (historyShareGroupOrigin (j_chat job) = false → s' = s).
Proof.
  cbv zeta. unfold runHistoryShare. destruct (_ || _); [done|]. destruct (decodeHistoryShare _ _ _ _) as [data|]; [|done].
  destruct (historyShareMatchesGroup data (j_chat job)) eqn:Hm; [|done]. apply matched_ids in Hm as [Ho Hids]. cbn [negb].
  destruct (historyShareMessages _ _ _ _ data) as [[out skipped]|] eqn:Hc; [|done]. cbn [fst]. split; [|congruence].
  apply clean_all_spec in Hc as (Hi & _ & Hrows); [|constructor]. rewrite <- Hi in Hids. apply Forall_fmap in Hids.
  apply cleaned_not_from_me, forall_join in Hrows. unfold handleHistorySyncWithSharesContext.
  change (session w) with (acc_client {| acc_client := session w; acc_id := session_id w |}) at 1. apply import_grows, bounded_rows.
  - intros h l [Hid Hrs] Hl. split; [done|]. rewrite Forall_forall in *. auto.
  - apply Forall_and. by split.
Qed.

(** A bundle is decoded only within its budgets: complete credentials, at most 16 MiB
    compressed, at most 4 MiB inflated, and a wire tree within the limits of the scan;
    the decoder never sees anything else, however much the stream would inflate to. *)
Theorem decoded_within_budget `{!ProtowireLaws} (w : decode_world) (b : MessageHistoryBundle) (data : list raw_conversation)
    (Hok : decodeHistoryShare w b historyShareCompressedLimit historyShareInflatedLimit = Ok data) :
  complete_credentials b = true ∧ Z.of_nat (length (left_bytes w)) ≤ historyShareCompressedLimit ∧
  ∃ plain t, unmarshal w plain = Some data ∧ Z.of_nat (length plain) ≤ historyShareInflatedLimit ∧ wire_tally plain = Some t ∧ small_tree t.
Proof.
  revert Hok. unfold decodeHistoryShare. destruct (done_at w 0%nat); [done|]. destruct (complete_credentials b); [|done]. destruct (temp_ok w); [|done].
  destruct (has_client w); [|done]. cbn [negb]. destruct (MediaCache.exceeded _); [done|]. destruct (transfer_failed w); [done|]. destruct (stat_works w); [|done].
  cbn [negb]. destruct (Z.ltb_spec historyShareCompressedLimit (Z.of_nat (length (left_bytes w)))); [done|]. destruct (seek_works w); [|done]. cbn [negb].
  unfold inflateHistoryShare. destruct (zlib w _) as [stream|]; [|done]. destruct (read_limited _ stream) as [plain|]; [|done].
  destruct (Z.ltb_spec historyShareInflatedLimit (Z.of_nat (length plain))); [done|]. destruct (done_at w 1%nat); [done|].
  pose proof (scan_decides (λ n, done_at w (2 + n)%nat) plain) as Hs. destruct (scanHistoryShareWire _ plain) as [c [e|]]; [done|].
  destruct Hs as (t & Ht & _ & Hsmall). destruct (unmarshal w plain) as [d|] eqn:Hu; [|done]. intros [= ->]. split_and!; [done..|]. by exists plain, t.
Qed.

End Share.

(** ** A bundle of two rows, one of them ours *)
Module Sample.
#[local] Existing Instances RefJid.ops plain_sqlite Inbound.Sample.floats RefWire.ops RefWire.laws.

Definition shared_row (id who : string) : option web_message :=
  Some {| w_key := Some (id, true, who); w_remote := ""; w_participant := ""; w_time := 100; w_payload := Some (Msg (Inbound.Sample.text "hi")); w_wire := "" |}.

Definition shared : list raw_conversation := [
  {| h_id := Some "9@g.us"; h_display := "peer's name"; h_unread := Some 0; h_marked_unread := false; h_expiration := 60; h_setting_time := 1;
     h_messages := [shared_row "A" "5522@s.whatsapp.net"; None; shared_row "B" "5511:3@s.whatsapp.net"; shared_row "C" "77@lid"] |}].

(** The LID store knows 77 as our number. *)
Definition lid_table (j : RefJid.t) : result string RefJid.t :=
  if String.eqb (User j) "77" then Ok (NewJID "5511" DefaultUserServer) else Ok EmptyJID.

Definition us : option RefJid.t := Some (NewJID "5511" DefaultUserServer).
Definition keep_wire (m : web_message) (p : string) : string := p.
Definition never (n : nat) : bool := false.
Definition kept : list raw_conversation :=
  match historyShareMessages keep_wire (Some lid_table) us None never shared with Ok (out, _) => out | Err _ => [] end.

Lemma shared_rows_not_ours_witness :
  rows_cleaned keep_wire (Some lid_table) (own_addresses (Some lid_table) us None) (mjoin (h_messages <$> shared)) (mjoin (h_messages <$> kept)) 2 ∧
  h_id <$> kept = h_id <$> shared ∧ Forall bare kept.
Proof. refine (shared_rows_not_ours keep_wire (Some lid_table) us None never shared kept 2 _). reflexivity. Defined.

Definition blob : string := "0123456789abcdef0123456789abcdef".
Definition announced : MessageHistoryBundle := {| b_path := "/v/x"; b_key := blob; b_sha256 := blob; b_enc_sha256 := blob |}.

Definition good_download : decode_world := {|
  done_at := never; temp_ok := true; has_client := true; transfer := [MediaCache.Write 40]; transfer_failed := false; stat_works := true; seek_works := true;
  left_bytes := ["x"%char]; zlib := λ _, Some (RefWire.bundle, false); unmarshal := λ b, if Nat.eqb (length b) 14 then Some shared else None |}.

Lemma decoded_within_budget_witness :
  complete_credentials announced = true ∧ Z.of_nat (length (left_bytes good_download)) ≤ historyShareCompressedLimit ∧
  ∃ plain t, unmarshal good_download plain = Some shared ∧ Z.of_nat (length plain) ≤ historyShareInflatedLimit ∧ wire_tally plain = Some t ∧ small_tree t.
Proof. refine (@decoded_within_budget Inbound.Sample.floats RefWire.ops RefWire.laws good_download announced shared _). reflexivity. Defined.

(** The whole job: the row of 5522 is archived as theirs, the others are not. *)
Definition meets : share_world := {|
  parked := false; parked_inside := false; decoding := good_download; session := Some lid_table; session_id := us; session_lid := None;
  cancelled_at := never; cancelled_after := false; max_age := 0; now := 0; names := λ _ _, "g"; stops := never;
  imports := λ _, {| chat_written := true; settings_written := true; whole := λ _, Committed; single := λ _, Committed; edit_written := λ _, true; chat_stops := false; edit_stops := λ _, false |} |}.

Definition job : historyShareJob := {| j_bundle := announced; j_chat := "9@g.us"; j_deadline := 0 |}.

Example job_outcome :
  let '(s, r) := runHistoryShare keep_wire HistorySync.Sample.nothing_unwrapped (λ _, "") (λ _, "") (λ _, None) (λ _, "") (λ _, "") meets job HistorySync.Sample.empty_store in
  r = Ok 2%nat ∧ (is_from_me <$> s_rows s !! ("A", "9@g.us")) = Some false ∧ s_rows s !! ("B", "9@g.us") = None ∧ s_rows s !! ("C", "9@g.us") = None.
Proof. vm_compute. done. Qed.

End Sample.
