(* ===== verification/S3.v ===== *)
(** * The S3 media store ([media_s3.go], [media_s3_maintenance.go], [media_s3_recovery.go], [media_catalog.go])

    Cached media in a bucket, addressed by its hash, with a catalogue in the archive:
    objects, references from messages, a journal of deletions that were begun and
    one of uploads that were begun.  Every operation is a sequence of interactions with the
    database and the bucket, and each of them may fail; a request to the bucket may
    also fail after it took effect.  A crash is a run whose interactions all fail
    from some point on.  Operations on one hash exclude each other ([lockHash]);
    what the others do before a lock is granted is an argument. *)
From S2P Require Import Prelude MediaNames.
#[local] Open Scope Z_scope.

(** ** State *)

(** A row of [media_cache] (backend s3), and one of [media_cache_uploads]. *)
Record object_row := { o_bytes : Z; o_kind : string; o_stored : Z; o_access : Z }.
Record upload_row := { u_bytes : Z; u_kind : string; u_started : Z }.

(** The columns of a message the store reads; no hash is "". *)
Record message_columns := { m_sha : string; m_kind : string; m_time : Z; m_filename : string }.

Abbreviation ref_key := (string * string)%type.

(** The bucket below our prefix, by hash, and the tables. *)
Record state := {
  bucket : gmap string string; catalog : gmap string object_row; refs : gmap ref_key string; deletions : gset string;
  uploads : gmap string upload_row; messages : gmap ref_key message_columns;
}.

Definition set_bucket (b : gmap string string) (s : state) : state :=
  {| bucket := b; catalog := catalog s; refs := refs s; deletions := deletions s; uploads := uploads s; messages := messages s |}.
Definition set_uploads (u : gmap string upload_row) (s : state) : state :=
  {| bucket := bucket s; catalog := catalog s; refs := refs s; deletions := deletions s; uploads := u; messages := messages s |}.
Definition set_deletions (d : gset string) (s : state) : state :=
  {| bucket := bucket s; catalog := catalog s; refs := refs s; deletions := d; uploads := uploads s; messages := messages s |}.
Definition set_refs (r : gmap ref_key string) (s : state) : state :=
  {| bucket := bucket s; catalog := catalog s; refs := r; deletions := deletions s; uploads := uploads s; messages := messages s |}.
Definition set_catalog (c : gmap string object_row) (s : state) : state :=
  {| bucket := bucket s; catalog := c; refs := refs s; deletions := deletions s; uploads := uploads s; messages := messages s |}.

(** [DELETE FROM media_cache WHERE sha256=?], with its cascades. *)
Definition delete_object_row (h : string) (s : state) : state :=
  {| bucket := bucket s; catalog := delete h (catalog s); refs := filter (λ kh, kh.2 ≠ h) (refs s); deletions := deletions s ∖ {[h]};
     uploads := uploads s; messages := messages s |}.

Definition references (h : string) (s : state) : nat := size (filter (λ kh : ref_key * string, kh.2 = h) (refs s)).

(** [INSERT OR IGNORE INTO media_cache_deletions]; the object row must exist. *)
Definition mark_deletion (h : string) (s : state) : state :=
  if decide (is_Some (catalog s !! h)) then set_deletions ({[h]} ∪ deletions s) s else s.

(** ** Interactions *)

Inductive s3_error : Type := ErrMediaS3 | ErrMediaHash | ErrMediaSnapshot | ErrMediaQuota | ErrNoRows | ErrNotExist | ErrCancelled | ErrPath.

(** How an interaction ends; a late failure is reported after the effect. *)
Inductive fault : Type := Fine | Failed | FailedLate.

Definition M (A : Type) : Type := nat → state → nat * state * result s3_error A.

Definition ret {A} (a : A) : M A := λ n s, (n, s, Ok a).
Definition raise {A} (e : s3_error) : M A := λ n s, (n, s, Err e).
Definition bind {A B} (m : M A) (f : A → M B) : M B :=
  λ n s, match m n s with (n, s, Ok a) => f a n s | (n, s, Err e) => (n, s, Err e) end.

(** The outcome as a value, for the callers that go on. *)
Definition attempt {A} (m : M A) : M (result s3_error A) := λ n s, match m n s with (n, s, r) => (n, s, Ok r) end.

Declare Scope s3_scope.
Delimit Scope s3_scope with s3.
Notation "x ⇐ m ; f" := (bind m (λ x, f)) (at level 60, m at level 59, right associativity) : s3_scope.
Notation "m ;;; f" := (bind m (λ _, f)) (at level 60, right associativity) : s3_scope.
#[local] Open Scope s3_scope.

Section S3.
Context (sha256 : string → string) (env : nat → fault) (others : nat → state → state) (now : Z).

(** A statement: a failure changed nothing. *)
Definition sql {A} (err : s3_error) (read : state → A) (write : state → state) : M A :=
  λ n s, match env n with Fine => (S n, write s, Ok (read s)) | _ => (S n, s, Err err) end.

(** A request to the bucket. *)
Definition net {A} (err : s3_error) (read : state → A) (write : state → state) : M A :=
  λ n s, match env n with
         | Fine => (S n, write s, Ok (read s))
         | Failed => (S n, s, Err err)
         | FailedLate => (S n, write s, Err err)
         end.

Definition query {A} (err : s3_error) (read : state → A) : M A := sql err read (λ s, s).
Definition exec (write : state → state) : M unit := sql ErrMediaS3 (λ _, tt) write.

(** [lockHash]: other operations may run until the lock is granted. *)
Definition lockHash (h : string) : M unit :=
  λ n s, match env n with Fine => (S n, others n s, Ok tt) | _ => (S n, others n s, Err ErrCancelled) end.

(** [acquireS3Transfer]. *)
Definition transfer : M unit := query ErrCancelled (λ _, tt).

(** [key]: only a SHA-256 has one. *)
Definition key (h : string) : M unit := if Nat.eqb (String.length h) 32 then ret tt else raise ErrMediaHash.

(** ** References *)

Definition reference_of (k : ref_key) (s : state) : option (string * Z) :=
  h ← refs s !! k; o ← catalog s !! h; m ← messages s !! k; if String.eqb (m_sha m) h then Some (h, o_bytes o) else None.

Definition reference (k : ref_key) : M (string * Z) :=
  r ⇐ query ErrMediaS3 (reference_of k); match r with Some x => ret x | None => raise ErrNoRows end.

(** [reconcileDeletionLocked]: a HEAD settles a deletion that was begun; whether the
    object is gone. *)
Definition reconcileDeletionLocked (readonly : bool) (h : string) : M bool :=
  pending ⇐ query ErrMediaS3 (λ s, bool_decide (h ∈ deletions s));
  if negb pending then ret false
  else
    key h;;; transfer;;;
    missing ⇐ net ErrMediaS3 (λ s, bool_decide (bucket s !! h = None)) (λ s, s);
    if readonly then ret missing
    else if missing then exec (delete_object_row h);;; ret true
    else exec (λ s, set_deletions (deletions s ∖ {[h]}) s);;; ret false.

Definition reconciledReference (readonly : bool) (k : ref_key) : M (string * Z) :=
  r ⇐ reference k;
  pending ⇐ query ErrMediaS3 (λ s, bool_decide (r.1 ∈ deletions s));
  if negb pending then ret r
  else
    lockHash r.1;;;
    missing ⇐ reconcileDeletionLocked readonly r.1;
    if missing then raise ErrNoRows else reference k.

(** [Lookup]: the size of what is cached under a name. *)
Definition Lookup (name : string) (k : ref_key) : M (option Z) :=
  if bool_decide (is_Some (checkMediaPathComponents (chatMediaRel k.2) name)) then raise ErrPath
  else
    r ⇐ attempt (reconciledReference false k);
    match r with
    | Ok x => ret (Some x.2)
    | Err ErrNoRows => ret None
    | Err _ => raise ErrMediaS3
    end.

(** ** Reading *)

(** [Open] with no spool at hand: the bytes, verified before any of them is released;
    [touch] is the access time. *)
Definition touch (h : string) (s : state) : state :=
  set_catalog (alter (λ o, {| o_bytes := o_bytes o; o_kind := o_kind o; o_stored := o_stored o; o_access := now |}) h (catalog s)) s.

Definition Open (readonly : bool) (k : ref_key) : M string :=
  r ⇐ attempt (reconciledReference readonly k);
  match r with
  | Err ErrNoRows => raise ErrNotExist
  | Err e => raise e
  | Ok (h, size) =>
      lockHash h;;;
      reconcileDeletionLocked readonly h;;;
      current ⇐ attempt (reference k);
      match current with
      | Ok (h', _) =>
          if negb (String.eqb h' h) then raise ErrMediaSnapshot
          else
            transfer;;; key h;;;
            object ⇐ net ErrMediaS3 (λ s, bucket s !! h) (λ s, s);
            match object with
            | Some c => if (Z.of_nat (String.length c) =? size) && String.eqb (sha256 c) h
                        then (if readonly then ret tt else exec (touch h));;; ret c
                        else raise ErrMediaHash
            | None => raise ErrMediaHash
            end
      | Err _ => raise ErrMediaSnapshot
      end
  end.

(** ** Removal *)

(** [removeObject]. *)
Definition removeObject (h : string) : M unit :=
  key h;;; transfer;;; net ErrMediaS3 (λ _, tt) (λ s, set_bucket (delete h (bucket s)) s).

Inductive removal_reason : Type := NoRemovalReason | RemovalNotCached | RemovalFailed | RemovalIncomplete.

(** One result of a purge; [x_done] once it is settled. *)
Record removal := { x_purged : bool; x_bytes : Z; x_reason : removal_reason; x_done : bool }.

Definition not_cached : removal := {| x_purged := false; x_bytes := 0; x_reason := RemovalNotCached; x_done := false |}.
Definition purged : removal := {| x_purged := true; x_bytes := 0; x_reason := NoRemovalReason; x_done := false |}.
Definition removal_failed (r : removal) : removal := {| x_purged := false; x_bytes := 0; x_reason := RemovalFailed; x_done := x_done r |}.
Definition removal_done (r : removal) : removal := {| x_purged := x_purged r; x_bytes := x_bytes r; x_reason := x_reason r; x_done := true |}.
Definition with_bytes (b : Z) (r : removal) : removal := {| x_purged := x_purged r; x_bytes := b; x_reason := x_reason r; x_done := x_done r |}.
Definition incomplete (r : removal) : removal :=
  if x_done r then r else {| x_purged := false; x_bytes := 0; x_reason := RemovalIncomplete; x_done := false |}.

(** An object with the rows of the batch that refer to it. *)
Record selected := { s_hash : string; s_bytes : Z; s_rows : list nat }.

Definition select_into (h : string) (b : Z) (i : nat) (objs : list selected) : list selected :=
  match list_find (λ o, s_hash o = h) objs with
  | Some (j, _) => alter (λ o, {| s_hash := s_hash o; s_bytes := s_bytes o; s_rows := s_rows o ++ [i] |}) j objs
  | None => objs ++ [{| s_hash := h; s_bytes := b; s_rows := [i] |}]
  end.

(** The first pass: one query per row; a repeated row is not cached. *)
Fixpoint select_rows (i : nat) (rows seen : list ref_key) (objs : list selected) (out : list removal) : M (list selected * list removal * option s3_error) :=
  match rows with
  | [] => ret (objs, out, None)
  | k :: rows =>
      if bool_decide (k ∈ seen) then select_rows (S i) rows seen objs (out ++ [not_cached])
      else
        r ⇐ attempt (query ErrMediaS3 (λ s, h ← refs s !! k; o ← catalog s !! h; Some (h, o_bytes o)));
        match r with
        | Err e => ret (objs, out ++ replicate (length (k :: rows)) not_cached, Some e)
        | Ok None => select_rows (S i) rows (k :: seen) objs (out ++ [not_cached])
        | Ok (Some (h, b)) => select_rows (S i) rows (k :: seen) (select_into h b i objs) (out ++ [purged])
        end
  end.

(** The rows that still refer to the object, once its lock is held. *)
Fixpoint still_selected (rows : list ref_key) (h : string) (is_ : list nat) : M (list nat) :=
  match is_ with
  | [] => ret []
  | i :: is_ =>
      matches ⇐ query ErrMediaS3 (λ s, match rows !! i with Some k => bool_decide (refs s !! k = Some h) | None => false end);
      rest ⇐ still_selected rows h is_;
      ret (if matches then i :: rest else rest)
  end.

Definition update_all (f : removal → removal) (is_ : list nat) (out : list removal) : list removal := foldl (λ out i, alter f i out) out is_.

(** One object of the batch, under its lock: the results it leaves. *)
Definition remove_selected (dry : bool) (rows : list ref_key) (o : selected) (out : list removal) : M (list removal) :=
  let h := s_hash o in
  lockHash h;;;
  live ⇐ still_selected rows h (s_rows o);
  let out := update_all (λ _, not_cached) (filter (λ i, i ∉ live) (s_rows o)) out in
  match last live with
  | None => ret out
  | Some final =>
      count ⇐ query ErrMediaS3 (references h);
      let remove := Nat.eqb count (length live) in
      let out := if remove then alter (with_bytes (s_bytes o)) final out else out in
      if dry then ret out
      else if remove then
        exec (mark_deletion h);;;
        gone ⇐ attempt (removeObject h);
        match gone with
        | Err _ => attempt (reconcileDeletionLocked false h);;; ret (update_all removal_failed (s_rows o) out)
        | Ok _ => exec (delete_object_row h);;; ret (update_all removal_done (s_rows o) out)
        end
      else
        exec (λ s, set_refs (foldl (λ r i, match rows !! i with
                                           | Some k => if bool_decide (r !! k = Some h) then delete k r else r
                                           | None => r
                                           end) (refs s) live) s);;;
        ret (update_all removal_done (s_rows o) out)
  end.

(** The objects one after the other, up to the first error. *)
Fixpoint remove_objects (dry : bool) (rows : list ref_key) (objs : list selected) (out : list removal) : M (list removal * option s3_error) :=
  match objs with
  | [] => ret (out, None)
  | o :: objs =>
      r ⇐ attempt (remove_selected dry rows o out);
      match r with
      | Ok out => remove_objects dry rows objs out
      | Err e => ret (out, Some e)
      end
  end.

(** [Delete]; [arrange] is the order in which the map of objects is walked. *)
Definition Delete (arrange : list selected → list selected) (dry : bool) (rows : list ref_key) : M (list removal * option s3_error) :=
  first ⇐ select_rows 0 rows [] [] [];
  let '(objs, out, failed) := first in
  match failed with
  | Some e => ret (incomplete <$> out, Some e)
  | None =>
      r ⇐ remove_objects dry rows (arrange objs) out;
      let '(out, failed) := r in
      ret (match failed with Some _ => incomplete <$> out | None => out end, failed)
  end.

(** [removeOrphan]: whether it was removed. *)
Definition removeOrphan (h : string) : M bool :=
  lockHash h;;;
  count ⇐ query ErrMediaS3 (references h);
  if negb (Nat.eqb count 0) then ret false
  else removeObject h;;; exec (λ s, if Nat.eqb (references h s) 0 then delete_object_row h s else s);;; ret true.

(** ** Recovery and sweeps *)

(** [LIMIT 256] of an unordered selection; [pick] is the order. *)
Definition page (pick : list (string * Z) → list (string * Z)) (l : list (string * Z)) : list (string * Z) := take 256 (pick l).

(** Work on each item, failures counted: the bytes freed and the failures. *)
Fixpoint settle_each (work : string → M bool) (items : list (string * Z)) : M (Z * nat) :=
  match items with
  | [] => ret (0, O)
  | (h, b) :: items =>
      r ⇐ attempt (work h);
      rest ⇐ settle_each work items;
      ret (match r with
           | Ok true => (b + rest.1, rest.2)
           | Ok false => rest
           | Err _ => (rest.1, S rest.2)
           end)
  end.

Definition sweep_page (pick : list (string * Z) → list (string * Z)) (select : state → list (string * Z)) (work : string → M bool) : M (Z * nat) :=
  items ⇐ attempt (query ErrMediaS3 (λ s, page pick (select s)));
  match items with
  | Err _ => ret (0, 1%nat)
  | Ok l => settle_each work l
  end.

Definition pending_deletions (s : state) : list (string * Z) := omap (λ h, (λ o, (h, o_bytes o)) <$> catalog s !! h) (elements (deletions s)).

Definition reconcilePendingDeletions (pick : list (string * Z) → list (string * Z)) : M (Z * nat) :=
  sweep_page pick pending_deletions (λ h, lockHash h;;; reconcileDeletionLocked false h).

(** One upload that was begun: an object that was never published is removed. *)
Definition settle_upload (h : string) : M bool :=
  lockHash h;;;
  pending ⇐ query ErrMediaS3 (λ s, bool_decide (is_Some (uploads s !! h)));
  if negb pending then ret false
  else
    published ⇐ query ErrMediaS3 (λ s, bool_decide (is_Some (catalog s !! h)));
    (if published then ret tt else removeObject h);;;
    exec (λ s, set_uploads (delete h (uploads s)) s);;;
    ret (negb published).

Definition begun_uploads (s : state) : list (string * Z) := (λ hu, (hu.1, u_bytes hu.2)) <$> map_to_list (uploads s).

Definition reconcilePendingUploads (pick : list (string * Z) → list (string * Z)) : M (Z * nat) := sweep_page pick begun_uploads settle_upload.

Definition orphans (s : state) : list (string * Z) :=
  (λ ho, (ho.1, o_bytes ho.2)) <$> filter (λ ho, references ho.1 s = O) (map_to_list (catalog s)).

Definition sweepUnreferenced (pick : list (string * Z) → list (string * Z)) : M (Z * nat) := sweep_page pick orphans removeOrphan.

(** [chargedObjectsSQL] and [Usage]. *)
Definition charged (s : state) : list (string * Z) :=
  ((λ ho, (ho.1, o_bytes ho.2)) <$> map_to_list (catalog s)) ++
  ((λ hu, (hu.1, u_bytes hu.2)) <$> filter (λ hu, catalog s !! hu.1 = None) (map_to_list (uploads s))).

Definition Usage : M Z := query ErrMediaS3 (λ s, foldr Z.add 0 (snd <$> charged s)).

(** ** Publication *)

(** How a write is metered: not at all, under a reservation with its limit (0 for
    none), or by an admission that gives one. *)
Inductive metering : Type := NoBridge | Reserved (limit : Z) | Metered (room : M Z).

Definition over (limit size : Z) : bool := (0 <? limit) && (limit <? size).

Definition is_charged (h : string) (s : state) : bool := bool_decide (is_Some (catalog s !! h)) || bool_decide (is_Some (uploads s !! h)).

(** The loop before the lock is kept: an object that is charged needs no admission. *)
Definition lock_admitted (mode : metering) (h : string) (size : Z) : M unit :=
  match mode with
  | NoBridge => lockHash h
  | Reserved limit => if over limit size then raise ErrMediaQuota else lockHash h
  | Metered room =>
      lockHash h;;;
      exists_ ⇐ query ErrMediaS3 (is_charged h);
      if exists_ then ret tt
      else limit ⇐ room; if over limit size then raise ErrMediaQuota else lockHash h
  end.

Definition object_kind (k : ref_key) (kind : string) : string := if String.eqb k.2 "status@broadcast" then "status" else kind.

Definition begin_upload (h : string) (size : Z) (kind : string) (s : state) : state :=
  set_uploads (<[h := match uploads s !! h with
                      | Some u => {| u_bytes := size; u_kind := u_kind u; u_started := u_started u |}
                      | None => {| u_bytes := size; u_kind := kind; u_started := now |}
                      end]> (uploads s)) s.

(** The transaction that publishes a verified object for a message. *)
Definition publish (h : string) (size : Z) (kind : string) (k : ref_key) (expected : string) (s : state) : state :=
  {| bucket := bucket s;
     catalog := <[h := match catalog s !! h with
                       | Some o => {| o_bytes := size; o_kind := o_kind o; o_stored := o_stored o; o_access := now |}
                       | None => {| o_bytes := size; o_kind := kind; o_stored := now; o_access := now |}
                       end]> (catalog s);
     refs := <[k := h]> (refs s); deletions := deletions s ∖ {[h]}; uploads := delete h (uploads s);
     messages := if String.eqb expected ""
                 then alter (λ m, {| m_sha := h; m_kind := m_kind m; m_time := m_time m; m_filename := m_filename m |}) k (messages s)
                 else messages s |}.

(** Whether the message is still the one the transfer was for. *)
Definition same_snapshot (k : ref_key) (expected : string) (s : state) : result s3_error unit :=
  match messages s !! k with
  | None => Err ErrMediaS3
  | Some m => if String.eqb (m_sha m) expected then Ok tt else Err ErrMediaSnapshot
  end.

Definition verify_and_publish (h : string) (size : Z) (kind : string) (k : ref_key) (expected : string) : M unit :=
  object ⇐ net ErrMediaS3 (λ s, bucket s !! h) (λ s, s);
  match object with
  | Some c =>
      if (Z.of_nat (String.length c) =? size) && String.eqb (sha256 c) h
      then done ⇐ sql ErrMediaS3 (same_snapshot k expected)
                    (λ s, match same_snapshot k expected s with Ok _ => publish h size kind k expected s | Err _ => s end);
           match done with Ok _ => ret tt | Err e => raise e end
      else raise ErrMediaHash
  | None => raise ErrMediaHash
  end.

(** What a failed upload of ours leaves behind is removed, or stays in the journal. *)
Definition forget_upload (h : string) : M unit :=
  gone ⇐ attempt (net ErrMediaS3 (λ _, tt) (λ s, set_bucket (delete h (bucket s)) s));
  match gone with
  | Ok _ => attempt (exec (λ s, set_uploads (delete h (uploads s)) s));;; ret tt
  | Err _ => ret tt
  end.

(** [put] of [data] announced with [size], for the message [k]. *)
Definition put (mode : metering) (k : ref_key) (kind data : string) (size : Z) : M Z :=
  if size <? 0 then raise ErrMediaHash
  else
    query ErrMediaS3 (λ _, tt);;;
    if negb (Z.of_nat (String.length data) =? size) then raise ErrMediaHash
    else
      let h := sha256 data in
      let kind := object_kind k kind in
      row ⇐ query ErrMediaS3 (λ s, m_sha <$> messages s !! k);
      match row with
      | None => raise ErrMediaS3
      | Some expected =>
          if negb (String.eqb expected "") && negb (String.eqb expected h) then raise ErrMediaHash
          else
            (match mode with Reserved _ => query ErrCancelled (λ _, tt) | _ => ret tt end);;;
            lock_admitted mode h size;;;
            transfer;;; key h;;;
            stat ⇐ net ErrMediaS3 (λ s, bucket s !! h) (λ s, s);
            match stat with
            | None =>
                query ErrMediaS3 (λ _, tt);;;
                exec (begin_upload h size kind);;;
                r ⇐ attempt (net ErrMediaS3 (λ _, tt) (λ s, set_bucket (<[h := data]> (bucket s)) s);;; verify_and_publish h size kind k expected);
                match r with
                | Ok _ => ret size
                | Err e => forget_upload h;;; raise e
                end
            | Some c =>
                if negb (Z.of_nat (String.length c) =? size) then raise ErrMediaHash
                else verify_and_publish h size kind k expected;;; ret size
            end
      end.

(** ** Walks over the cached rows *)

Abbreviation cursor := (Z * (string * string))%type.

(** By time, chat and id. *)
Definition cursor_of (km : ref_key * message_columns) : cursor := (m_time km.2, (km.1.2, km.1.1)).

Definition cursor_le (a b : cursor) : Prop :=
  a.1 < b.1 ∨ a.1 = b.1 ∧ (a.2.1 ≠ b.2.1 ∧ string_le a.2.1 b.2.1 ∨ a.2.1 = b.2.1 ∧ string_le a.2.2 b.2.2).

#[local] Instance cursor_le_dec : RelDecision cursor_le.
Proof. intros a b. unfold cursor_le. apply _. Defined.

Definition walk_le (a b : ref_key * message_columns) : Prop := cursor_le (cursor_of a) (cursor_of b).
#[local] Instance walk_le_dec : RelDecision walk_le.
Proof. intros a b. unfold walk_le. apply _. Defined.

Definition has_object (k : ref_key) (s : state) : bool :=
  match refs s !! k with Some h => bool_decide (is_Some (catalog s !! h)) | None => false end.

Definition beyond (after : option cursor) (km : ref_key * message_columns) : bool :=
  match after with Some c => negb (bool_decide (cursor_le (cursor_of km) c)) | None => true end.

(** The rows with a cached object that a predicate selects, in order, after a cursor. *)
Definition cached_rows (pred : ref_key → message_columns → bool) (after : option cursor) (s : state) : list (ref_key * message_columns) :=
  take 256 (filter (λ km, beyond after km = true)
    (merge_sort walk_le (filter (λ km, has_object km.1 s && pred km.1 km.2 = true) (map_to_list (messages s))))).

(** [walkCachedRows]: pages of 256 rows, each read before it is visited; a visit gives
    its state, whether to go on, and an error. *)
Fixpoint walkCachedRows {A} (fuel : nat) (pred : ref_key → message_columns → bool) (visit : A → list (ref_key * message_columns) → M (A * bool * option s3_error))
    (after : option cursor) (a : A) : M (A * option s3_error) :=
  match fuel with
  | O => ret (a, None)
  | S fuel =>
      r ⇐ attempt (query ErrMediaS3 (cached_rows pred after));
      match r with
      | Err e => ret (a, Some e)
      | Ok rows =>
          match last rows with
          | None => ret (a, None)
          | Some final =>
              v ⇐ visit a rows;
              let '(a, more, e) := v in
              match e with
              | Some e => ret (a, Some e)
              | None => if negb more || Nat.ltb (length rows) 256 then ret (a, None) else walkCachedRows fuel pred visit (Some (cursor_of final)) a
              end
          end
      end
  end.

(** The counters of a sweep: files, bytes freed, failures. *)
Record swept := { w_files : nat; w_freed : Z; w_failed : nat }.

Definition count_results (out : list removal) (w : swept) : swept :=
  foldl (λ w r, if x_purged r then {| w_files := S (w_files w); w_freed := w_freed w + x_bytes r; w_failed := w_failed w |}
                else match x_reason r with
                     | RemovalNotCached => w
                     | _ => {| w_files := w_files w; w_freed := w_freed w; w_failed := S (w_failed w) |}
                     end) w out.

(** The age of a message decides, with a retention of its own for status posts; none
    for a retention of 0. *)
Definition expired (age status_age : Z) (k : ref_key) (m : message_columns) : bool :=
  if String.eqb k.2 "status@broadcast" then (0 <? status_age) && (m_time m <? now - status_age) else (0 <? age) && (m_time m <? now - age).

(** [Sweep]. *)
Definition Sweep (pick : list (string * Z) → list (string * Z)) (arrange : list selected → list selected) (fuel : nat) (age : Z) (status : option Z) : M swept :=
  recovered ⇐ reconcilePendingDeletions pick;
  begun ⇐ reconcilePendingUploads pick;
  walked ⇐ walkCachedRows fuel (expired age (default age status))
             (λ w rows, r ⇐ Delete arrange false (fst <$> rows); ret (count_results r.1 w, true, r.2)) None {| w_files := 0; w_freed := 0; w_failed := 0 |};
  let '(w, e) := walked in
  lone ⇐ sweepUnreferenced pick;
  ret {| w_files := w_files w; w_freed := w_freed w + lone.1 + recovered.1 + begun.1;
         w_failed := w_failed w + (if e is Some _ then 1 else 0) + lone.2 + recovered.2 + begun.2 |}.

(** ** A logic for interactions *)

(** From [P], an operation that ends well leaves [Q], one that fails leaves [E]. *)
Definition safe {A} (P : state → Prop) (m : M A) (Q : A → state → Prop) (E : state → Prop) : Prop :=
  ∀ n s, P s → match m n s with (_, s', Ok a) => Q a s' | (_, s', Err _) => E s' end.

Lemma safe_ret {A} (a : A) (P : state → Prop) Q E : (∀ s, P s → Q a s) → safe P (ret a) Q E.
Proof. intros H n s HP. by apply H. Qed.

Lemma safe_raise {A} e (P : state → Prop) (Q : A → state → Prop) (E : state → Prop) : (∀ s, P s → E s) → safe P (raise e) Q E.
Proof. intros H n s HP. by apply H. Qed.

Lemma safe_bind {A B} (m : M A) (f : A → M B) P R Q E : safe P m R E → (∀ a, safe (R a) (f a) Q E) → safe P (bind m f) Q E.
Proof.
  intros Hm Hf n s HP. specialize (Hm n s HP). unfold bind. destruct (m n s) as [[n' s'] [a|e]]; [by apply Hf|done].
Qed.

Lemma safe_attempt {A} (m : M A) P Q E E' : safe P m Q E → safe P (attempt m) (λ r s, match r with Ok a => Q a s | Err _ => E s end) E'.
Proof. intros Hm n s HP. specialize (Hm n s HP). unfold attempt. by destruct (m n s) as [[n' s'] [a|e]]. Qed.

Lemma safe_weaken {A} (m : M A) (P P' : state → Prop) (Q Q' : A → state → Prop) (E E' : state → Prop) :
  safe P' m Q' E' → (∀ s, P s → P' s) → (∀ a s, Q' a s → Q a s) → (∀ s, E' s → E s) → safe P m Q E.
Proof. intros Hm HP HQ HE n s Hs. specialize (Hm n s (HP _ Hs)). destruct (m n s) as [[n' s'] [a|e]]; auto. Qed.

Lemma safe_sql {A} err (read : state → A) write (P : state → Prop) (Q : A → state → Prop) (E : state → Prop) :
  (∀ s, P s → Q (read s) (write s)) → (∀ s, P s → E s) → safe P (sql err read write) Q E.
Proof. intros HQ HE n s HP. unfold sql. destruct (env n); auto. Qed.

Lemma safe_query {A} err (read : state → A) (P : state → Prop) (Q : A → state → Prop) (E : state → Prop) :
  (∀ s, P s → Q (read s) s) → (∀ s, P s → E s) → safe P (query err read) Q E.
Proof. apply safe_sql. Qed.

Lemma safe_exec write (P : state → Prop) (Q : unit → state → Prop) (E : state → Prop) :
  (∀ s, P s → Q tt (write s)) → (∀ s, P s → E s) → safe P (exec write) Q E.
Proof. apply safe_sql. Qed.

Lemma safe_net {A} err (read : state → A) write (P : state → Prop) (Q : A → state → Prop) (E : state → Prop) :
  (∀ s, P s → Q (read s) (write s)) → (∀ s, P s → E s) → (∀ s, P s → E (write s)) → safe P (net err read write) Q E.
Proof. intros HQ HE HW n s HP. unfold net. destruct (env n); auto. Qed.

(** ** The invariant *)

(** Every reference and every deletion that was begun has its object row; a
    reference whose object is not being deleted has its object; every object in the
    bucket is in the catalogue or in the journal of uploads; and it is what its
    name says. *)
Record inv (s : state) : Prop := {
  i_row : ∀ k h, refs s !! k = Some h → is_Some (catalog s !! h);
  i_marked : ∀ h, h ∈ deletions s → is_Some (catalog s !! h);
  i_served : ∀ k h, refs s !! k = Some h → h ∉ deletions s → is_Some (bucket s !! h);
  i_charged : ∀ h, is_Some (bucket s !! h) → is_Some (catalog s !! h) ∨ is_Some (uploads s !! h);
  i_hash : ∀ h c, bucket s !! h = Some c → sha256 c = h;
}.

Lemma inv_delete_object h s : inv s → bucket s !! h = None → inv (delete_object_row h s).
Proof.
  intros [Ir Im Is Ic Ih] Hb. unfold delete_object_row. split; cbn.
  - intros k h' [Hr Hne]%map_lookup_filter_Some. cbn in Hne. rewrite lookup_delete_ne by done. eauto.
  - intros h' [Hd Hne]%elem_of_difference. rewrite elem_of_singleton in Hne. rewrite lookup_delete_ne by done. auto.
  - intros k h' [Hr Hne]%map_lookup_filter_Some Hd. cbn in Hne. apply (Is k); [done|]. set_solver.
  - intros h' Hb'. destruct (decide (h' = h)) as [->|Hne]; [rewrite Hb in Hb'; by destruct Hb'|]. rewrite lookup_delete_ne by done. auto.
  - done.
Qed.

Lemma inv_unmark h s : inv s → is_Some (bucket s !! h) → inv (set_deletions (deletions s ∖ {[h]}) s).
Proof.
  intros [Ir Im Is Ic Ih] Hb. split; cbn; [done|set_solver| |done|done].
  intros k h' Hr Hd. destruct (decide (h' = h)) as [->|]; [done|]. apply (Is k); [done|]. set_solver.
Qed.

Lemma inv_mark h s : inv s → inv (mark_deletion h s).
Proof.
  intros [Ir Im Is Ic Ih]. unfold mark_deletion. destruct (decide _); [|done]. split; cbn; [done|set_solver| |done|done].
  intros k h' Hr Hd. apply (Is k); [done|]. set_solver.
Qed.

(** Nothing that is not being deleted refers to the object. *)
Definition quiet (h : string) (s : state) : Prop := ∀ k, refs s !! k = Some h → h ∈ deletions s.

Lemma inv_remove h s : inv s → quiet h s → inv (set_bucket (delete h (bucket s)) s).
Proof.
  intros [Ir Im Is Ic Ih] Hq. split; cbn; [done|done|..].
  - intros k h' Hr Hd. destruct (decide (h' = h)) as [->|]; [by destruct Hd; eapply Hq|]. rewrite lookup_delete_ne by done. eauto.
  - intros h' [c Hb]. apply lookup_delete_Some in Hb as [_ Hb]. eauto.
  - intros h' c [_ Hb]%lookup_delete_Some. eauto.
Qed.

Lemma inv_fewer_refs r s : inv s → r ⊆ refs s → inv (set_refs r s).
Proof.
  intros [Ir Im Is Ic Ih] Hr. split; cbn; [|done| |done|done]; intros k h Hk; [eapply Ir|eapply Is]; by eapply lookup_weaken.
Qed.

Lemma inv_touch h s : inv s → inv (touch h s).
Proof.
  intros [Ir Im Is Ic Ih]. split; cbn; [intros k h' Hr|intros h' Hd|done|intros h' Hb|done]; rewrite lookup_alter_is_Some; eauto.
Qed.

Lemma inv_begin_upload h size kind s : inv s → inv (begin_upload h size kind s).
Proof.
  intros [Ir Im Is Ic Ih]. split; cbn; [done..| |done]. intros h' Hb. destruct (Ic h' Hb) as [|Hu]; [by left|right].
  destruct (decide (h = h')) as [<-|]; [by rewrite lookup_insert_eq|by rewrite lookup_insert_ne].
Qed.

Lemma inv_upload data s : inv s → is_Some (uploads s !! sha256 data) → inv (set_bucket (<[sha256 data := data]> (bucket s)) s).
Proof.
  intros [Ir Im Is Ic Ih] Hu. split; cbn; [done|done|..].
  - intros k h' Hr Hd. apply lookup_insert_is_Some'. eauto.
  - intros h' [<-|Hb]%lookup_insert_is_Some'; [by right|auto].
  - intros h' c [[<- <-]|[_ Hb]]%lookup_insert_Some; eauto.
Qed.

Lemma inv_drop_upload h s : inv s → bucket s !! h = None ∨ is_Some (catalog s !! h) → inv (set_uploads (delete h (uploads s)) s).
Proof.
  intros [Ir Im Is Ic Ih] Hor. split; cbn; [done..| |done]. intros h' Hb. destruct (Ic h' Hb) as [|Hu]; [by left|].
  destruct (decide (h = h')) as [<-|]; [|right; by rewrite lookup_delete_ne]. destruct Hor as [Hn|]; [rewrite Hn in Hb; by destruct Hb|by left].
Qed.

Lemma inv_publish h size kind k expected s : inv s → is_Some (bucket s !! h) → inv (publish h size kind k expected s).
Proof.
  intros [Ir Im Is Ic Ih] Hb. split; cbn.
  - intros k' h' [[<- <-]|[_ Hr]]%lookup_insert_Some; apply lookup_insert_is_Some'; [by left|right; eauto].
  - intros h' [Hd _]%elem_of_difference. apply lookup_insert_is_Some'. eauto.
  - intros k' h' [[<- <-]|[_ Hr]]%lookup_insert_Some Hd; [done|]. destruct (decide (h' = h)) as [->|]; [done|]. apply (Is k'); [done|]. set_solver.
  - intros h' Hb'. destruct (decide (h = h')) as [<-|Hne]; [left; by rewrite lookup_insert_eq|]. rewrite lookup_insert_ne, lookup_delete_ne by done. auto.
  - done.
Qed.

(** ** Every operation keeps it *)

Hypothesis others_inv : ∀ n s, inv s → inv (others n s).

Lemma safe_lock h : safe inv (lockHash h) (λ _, inv) inv.
Proof. intros n s Hs. unfold lockHash. destruct (env n); auto. Qed.

(** What only looks keeps whatever holds. *)
Lemma safe_look {A} err (read : state → A) (P : state → Prop) : safe P (query err read) (λ _, P) P.
Proof. by apply safe_query. Qed.

Lemma safe_key h (P : state → Prop) : safe P (key h) (λ _, P) P.
Proof. unfold key. destruct (Nat.eqb _ _); [by apply safe_ret|by apply safe_raise]. Qed.

Lemma safe_transfer (P : state → Prop) : safe P transfer (λ _, P) P.
Proof. apply safe_look. Qed.

Ltac look := first [apply safe_lock | apply safe_key | apply safe_transfer | apply safe_look].
Ltac next := eapply safe_bind; [look|intros].

Lemma reconcile_safe ro h : safe inv (reconcileDeletionLocked ro h) (λ _, inv) inv.
Proof.
  unfold reconcileDeletionLocked. next. destruct (negb a); [by apply safe_ret|]. next. next.
  apply (safe_bind _ _ _ (λ missing s, inv s ∧ if missing : bool then bucket s !! h = None else is_Some (bucket s !! h))).
  - apply safe_net; [|done..]. intros s Hs. split; [done|]. case_bool_decide; [done|]. by apply not_eq_None_Some.
  - intros missing. destruct ro; [apply safe_ret; by intros s []|]. destruct missing; (eapply safe_bind; [apply (safe_exec _ _ (λ _, inv))|intros; by apply safe_ret]).
    + intros s [Hs Hb]. by apply inv_delete_object.
    + by intros s [].
    + intros s [Hs Hb]. by apply inv_unmark.
    + by intros s [].
Qed.

Lemma reference_safe k : safe inv (reference k) (λ _, inv) inv.
Proof. unfold reference. next. destruct a; [by apply safe_ret|by apply safe_raise]. Qed.

Lemma reconciled_safe ro k : safe inv (reconciledReference ro k) (λ _, inv) inv.
Proof.
  unfold reconciledReference. eapply safe_bind; [apply reference_safe|intros r]. next. destruct (negb a); [by apply safe_ret|]. next.
  eapply safe_bind; [apply reconcile_safe|intros missing]. destruct missing; [by apply safe_raise|apply reference_safe].
Qed.

Lemma Lookup_safe name k : safe inv (Lookup name k) (λ _, inv) inv.
Proof.
  unfold Lookup. case_bool_decide; [by apply safe_raise|]. eapply safe_bind; [apply (safe_attempt _ _ (λ _, inv) inv), reconciled_safe|].
  intros [x|e]; [by apply safe_ret|destruct e; first [by apply safe_raise|by apply safe_ret]].
Qed.

Lemma Open_safe ro k : safe inv (Open ro k) (λ _, inv) inv.
Proof.
  unfold Open. eapply safe_bind; [apply (safe_attempt _ _ (λ _, inv) inv), reconciled_safe|]. intros [[h size]|e]; [|destruct e; by apply safe_raise].
  next. eapply safe_bind; [apply reconcile_safe|intros ?]. eapply safe_bind; [apply (safe_attempt _ _ (λ _, inv) inv), reference_safe|].
  intros [[h' b]|e]; [|by apply safe_raise]. destruct (negb _); [by apply safe_raise|]. next. next.
  eapply safe_bind; [by apply (safe_net _ _ _ _ (λ _, inv))|]. intros [c|]; [|by apply safe_raise]. destruct (_ && _); [|by apply safe_raise].
  apply (safe_bind _ _ _ (λ _, inv)); [|intros; by apply safe_ret]. destruct ro; [by apply safe_ret|]. apply safe_exec; [|done]. intros s. apply inv_touch.
Qed.

(** A removal is safe once nothing live refers to the object. *)
Lemma removeObject_safe h (P : state → Prop) :
  (∀ s, P s → inv s) → (∀ s, P s → quiet h s) → (∀ s, P s → P (set_bucket (delete h (bucket s)) s)) →
  safe P (removeObject h) (λ _ s, P s ∧ bucket s !! h = None) inv.
Proof.
  intros Hi Hq HP. unfold removeObject. eapply (safe_weaken _ _ P _ (λ _ s, P s ∧ bucket s !! h = None) _ P); [|done|done|done].
  next. next. apply safe_net; [|done|done]. intros s Hs. split; [by apply HP|]. cbn. apply lookup_delete_eq.
Qed.

Lemma count_quiet h s : references h s = 0%nat → quiet h s.
Proof.
  unfold references. intros Hc%map_size_empty_iff k Hk. exfalso. assert (filter (λ kh : ref_key * string, kh.2 = h) (refs s) !! k = Some h) as Hf
    by (by apply map_lookup_filter_Some). rewrite Hc in Hf. by rewrite lookup_empty in Hf.
Qed.

Lemma references_mono h s b : references h (set_bucket b s) = references h s.
Proof. done. Qed.

Lemma select_safe i rows seen objs out : safe inv (select_rows i rows seen objs out) (λ _, inv) inv.
Proof.
  revert i seen objs out. induction rows as [|k rows IH]; intros i seen objs out; cbn [select_rows]; [by apply safe_ret|].
  case_bool_decide; [apply IH|]. eapply safe_bind; [apply (safe_attempt _ _ (λ _, inv) inv), safe_look|]. intros [[[h b]|]|e]; [apply IH..|by apply safe_ret].
Qed.

(** Under the lock the rows that refer to the object are known to. *)
Lemma still_selected_safe rows h l :
  safe inv (still_selected rows h l) (λ _, inv) inv.
Proof.
  induction l as [|i l IH]; cbn [still_selected]; [by apply safe_ret|]. next. eapply safe_bind; [apply IH|intros ?]. by apply safe_ret.
Qed.

Lemma mark_quiet h s : inv s → quiet h (mark_deletion h s).
Proof.
  intros Hs k. unfold mark_deletion. destruct (decide _) as [_|Hn]; cbn; [set_solver|]. intros Hr. destruct Hn. by eapply i_row.
Qed.

Lemma dropped_refs (rows : list ref_key) (h : string) (live : list nat) (r : gmap ref_key string) :
  foldl (λ r i, match rows !! i with Some k => if bool_decide (r !! k = Some h) then delete k r else r | None => r end) r live ⊆ r.
Proof.
  revert r. induction live as [|i live IH]; intros r; [done|]. cbn [foldl]. etrans; [apply IH|]. destruct (rows !! i); [|done].
  case_bool_decide; [apply delete_subseteq|done].
Qed.

Lemma remove_selected_safe dry rows o out : safe inv (remove_selected dry rows o out) (λ _, inv) inv.
Proof.
  unfold remove_selected. next. eapply safe_bind; [apply still_selected_safe|intros live]. destruct (last live) as [final|]; [|by apply safe_ret].
  next. destruct dry; [by apply safe_ret|]. destruct (Nat.eqb _ _).
  - apply (safe_bind _ _ _ (λ _ s, inv s ∧ quiet (s_hash o) s)).
    { apply safe_exec; [|done]. intros s Hs. split; [by apply inv_mark|by apply mark_quiet]. }
    intros _. apply (safe_bind _ _ _ (λ r s, match r with Ok _ => (inv s ∧ quiet (s_hash o) s) ∧ bucket s !! s_hash o = None | Err _ => inv s end)).
    { apply safe_attempt, removeObject_safe; [by intros s []|by intros s []|]. intros s [Hs Hq]. split; [by apply inv_remove|done]. }
    intros [[]|e].
    + eapply safe_bind; [apply (safe_exec _ _ (λ _, inv))|intros; by apply safe_ret].
      * intros s [[Hs _] Hb]. by apply inv_delete_object.
      * by intros s [[]].
    + eapply safe_bind; [apply (safe_attempt _ _ (λ _, inv) inv), reconcile_safe|]. intros r. apply safe_ret. by destruct r.
  - eapply safe_bind; [apply (safe_exec _ _ (λ _, inv)); [|done]|intros; by apply safe_ret].
    intros s Hs. apply inv_fewer_refs; [done|apply dropped_refs].
Qed.

Lemma remove_objects_safe dry rows objs out : safe inv (remove_objects dry rows objs out) (λ _, inv) inv.
Proof.
  revert out. induction objs as [|o objs IH]; intros out; cbn [remove_objects]; [by apply safe_ret|].
  eapply safe_bind; [apply (safe_attempt _ _ (λ _, inv) inv), remove_selected_safe|]. intros [out'|e]; [apply IH|by apply safe_ret].
Qed.

Lemma Delete_safe arrange dry rows : safe inv (Delete arrange dry rows) (λ _, inv) inv.
Proof.
  unfold Delete. eapply safe_bind; [apply select_safe|]. intros [[objs out] [e|]]; [by apply safe_ret|].
  eapply safe_bind; [apply remove_objects_safe|]. intros [out' e]. by apply safe_ret.
Qed.

Lemma removeOrphan_safe h : safe inv (removeOrphan h) (λ _, inv) inv.
Proof.
  unfold removeOrphan. next. apply (safe_bind _ _ _ (λ n s, inv s ∧ references h s = n)); [by apply safe_query|]. intros count.
  destruct (Nat.eqb_spec count 0) as [->|]; cbn [negb]; [|apply safe_ret; by intros s []].
  apply (safe_bind _ _ _ (λ _ s, (inv s ∧ references h s = 0%nat) ∧ bucket s !! h = None)).
  { apply removeObject_safe; [by intros s []|intros s []; by apply count_quiet|]. intros s [Hs Hc]. split; [|done]. apply inv_remove; [done|by apply count_quiet]. }
  intros _. eapply safe_bind; [apply (safe_exec _ _ (λ _, inv))|intros; by apply safe_ret].
  - intros s [[Hs _] Hb]. destruct (Nat.eqb _ _); [by apply inv_delete_object|done].
  - by intros s [[]].
Qed.

Lemma settle_each_safe work items : (∀ h, safe inv (work h) (λ _, inv) inv) → safe inv (settle_each work items) (λ _, inv) inv.
Proof.
  intros Hw. induction items as [|[h b] items IH]; cbn [settle_each]; [by apply safe_ret|].
  eapply safe_bind; [apply (safe_attempt _ _ (λ _, inv) inv), Hw|]. intros r. apply (safe_bind _ _ _ (λ _, inv)); [by destruct r|]. intros ?. by apply safe_ret.
Qed.

Lemma sweep_page_safe pick sel work : (∀ h, safe inv (work h) (λ _, inv) inv) → safe inv (sweep_page pick sel work) (λ _, inv) inv.
Proof.
  intros Hw. unfold sweep_page. eapply safe_bind; [apply (safe_attempt _ _ (λ _, inv) inv), safe_look|]. intros [l|e]; [by apply settle_each_safe|by apply safe_ret].
Qed.

Lemma settle_upload_safe h : safe inv (settle_upload h) (λ _, inv) inv.
Proof.
  unfold settle_upload. next. next. destruct (negb a0); [by apply safe_ret|].
  apply (safe_bind _ _ _ (λ published s, inv s ∧ if published : bool then is_Some (catalog s !! h) else catalog s !! h = None)).
  { apply safe_query; [|done]. intros s Hs. split; [done|]. case_bool_decide; [done|by apply eq_None_not_Some]. }
  intros published. apply (safe_bind _ _ _ (λ _ s, inv s ∧ (bucket s !! h = None ∨ is_Some (catalog s !! h)))).
  { destruct published; [apply safe_ret; intros s []; auto|].
    eapply safe_weaken; [apply (removeObject_safe h (λ s, inv s ∧ catalog s !! h = None))|done|intros ? s [[]]; auto|done].
    - by intros s [].
    - intros s [Hs Hc] k Hr. destruct (i_row _ Hs _ _ Hr). congruence.
    - intros s [Hs Hc]. split; [|done]. apply inv_remove; [done|]. intros k Hr. destruct (i_row _ Hs _ _ Hr). congruence. }
  intros _. eapply safe_bind; [apply (safe_exec _ _ (λ _, inv))|intros; by apply safe_ret].
  - intros s [Hs Hor]. by apply inv_drop_upload.
  - by intros s [].
Qed.

Lemma publish_safe h size kind k expected (P : state → Prop) : (∀ s, P s → inv s) → safe P (verify_and_publish h size kind k expected) (λ _, inv) P.
Proof.
  intros HP. unfold verify_and_publish. apply (safe_bind _ _ _ (λ o s, P s ∧ bucket s !! h = o)); [by apply safe_net|].
  intros [c|]; [|apply safe_raise; by intros s []]. destruct (_ && _); [|apply safe_raise; by intros s []].
  apply (safe_bind _ _ _ (λ r s, match r with Ok _ => inv s | Err _ => P s end)).
  - apply safe_sql; [|by intros s []]. intros s [Hs Hb]. destruct (same_snapshot k expected s); [|done]. apply inv_publish; [by apply HP|by exists c].
  - intros [[]|e]; [by apply safe_ret|by apply safe_raise].
Qed.

Lemma forget_safe h : safe (λ s, inv s ∧ quiet h s) (forget_upload h) (λ _, inv) inv.
Proof.
  unfold forget_upload.
  apply (safe_bind _ _ _ (λ r s, match r with Ok _ => inv s ∧ bucket s !! h = None | Err _ => inv s end)).
  - apply safe_attempt, safe_net; [|by intros s []|by intros s []; apply inv_remove].
    intros s [Hs Hq]. split; [by apply inv_remove|cbn; apply lookup_delete_eq].
  - intros [[]|e]; [|by apply safe_ret]. eapply safe_bind; [apply (safe_attempt _ _ (λ _, inv) inv), safe_exec|intros r; apply safe_ret; by destruct r].
    + intros s [Hs Hb]. apply inv_drop_upload; auto.
    + by intros s [].
Qed.

(** An admission keeps the invariant. *)
Definition admits_safely (mode : metering) : Prop := match mode with Metered room => safe inv room (λ _, inv) inv | _ => True end.

Lemma lock_admitted_safe mode h size : admits_safely mode → safe inv (lock_admitted mode h size) (λ _, inv) inv.
Proof.
  intros Hm. destruct mode as [|limit|room]; cbn; [apply safe_lock|destruct (over _ _); [by apply safe_raise|apply safe_lock]|].
  next. next. destruct a0; [by apply safe_ret|]. eapply safe_bind; [exact Hm|intros limit]. destruct (over _ _); [by apply safe_raise|apply safe_lock].
Qed.

Lemma upload_safe data size kind k expected :
  safe (λ s, inv s ∧ quiet (sha256 data) s ∧ is_Some (uploads s !! sha256 data))
    (net ErrMediaS3 (λ _, tt) (λ s, set_bucket (<[sha256 data := data]> (bucket s)) s);;; verify_and_publish (sha256 data) size kind k expected)
    (λ _, inv) (λ s, inv s ∧ quiet (sha256 data) s).
Proof.
  apply (safe_bind _ _ _ (λ _ s, inv s ∧ quiet (sha256 data) s)).
  - apply safe_net; [|by intros s (?&?&?)|]; intros s (Hs & Hq & Hu); (split; [by apply inv_upload|done]).
  - intros _. apply publish_safe. by intros s [].
Qed.

Lemma put_safe mode k kind data size : admits_safely mode → safe inv (put mode k kind data size) (λ _, inv) inv.
Proof.
  intros Hm. unfold put. destruct (size <? 0); [by apply safe_raise|]. next. destruct (negb _); [by apply safe_raise|].
  set (h := sha256 data). next. destruct a0 as [expected|]; [|by apply safe_raise]. destruct (_ && _); [by apply safe_raise|].
  apply (safe_bind _ _ _ (λ _, inv)); [destruct mode; [by apply safe_ret|look|by apply safe_ret]|intros _].
  eapply safe_bind; [by apply lock_admitted_safe|intros ?]. next. next.
  apply (safe_bind _ _ _ (λ o s, inv s ∧ bucket s !! h = o)); [by apply safe_net|]. intros [c|].
  { destruct (negb _); [apply safe_raise; by intros s []|]. apply (safe_bind _ _ _ (λ _, inv)); [|intros; by apply safe_ret].
    eapply safe_weaken; [by apply (publish_safe _ _ _ _ _ inv)|by intros s []|done|done]. }
  apply (safe_bind _ _ _ (λ _ s, inv s ∧ bucket s !! h = None)); [apply safe_query; [done|by intros s []]|intros _].
  apply (safe_bind _ _ _ (λ _ s, inv s ∧ quiet h s ∧ is_Some (uploads s !! h))).
  { apply safe_exec; [|by intros s []]. intros s [Hs Hb]. split_and!; [by apply inv_begin_upload| |].
    - intros k' Hr. cbn in Hr |- *. destruct (decide (h ∈ deletions s)); [done|]. destruct (i_served _ Hs _ _ Hr); [done|congruence].
    - unfold begin_upload. cbn. by rewrite lookup_insert_eq. }
  intros _. eapply safe_bind; [apply (safe_attempt _ _ (λ _, inv) (λ s, inv s ∧ quiet h s)), upload_safe|].
  intros [[]|e]; [by apply safe_ret|]. eapply safe_bind; [apply forget_safe|intros; by apply safe_raise].
Qed.

Lemma walk_safe {A} fuel pred (visit : A → _ → M (A * bool * option s3_error)) after a :
  (∀ a rows, safe inv (visit a rows) (λ _, inv) inv) → safe inv (walkCachedRows fuel pred visit after a) (λ _, inv) inv.
Proof.
  intros Hv. revert after a. induction fuel as [|fuel IH]; intros after a; cbn [walkCachedRows]; [by apply safe_ret|].
  eapply safe_bind; [apply (safe_attempt _ _ (λ _, inv) inv), safe_look|]. intros [rows|e]; [|by apply safe_ret].
  destruct (last rows) as [final|]; [|by apply safe_ret]. eapply safe_bind; [apply Hv|]. intros [[a' more] [e|]]; [by apply safe_ret|].
  destruct (_ || _); [by apply safe_ret|apply IH].
Qed.

Lemma Sweep_safe pick arrange fuel age status : safe inv (Sweep pick arrange fuel age status) (λ _, inv) inv.
Proof.
  unfold Sweep. eapply safe_bind; [apply sweep_page_safe|intros ?]. { intros h. eapply safe_bind; [apply safe_lock|intros ?]. apply reconcile_safe. }
  eapply safe_bind; [apply sweep_page_safe, settle_upload_safe|intros ?].
  eapply safe_bind; [apply walk_safe|]. { intros w rows. eapply safe_bind; [apply Delete_safe|intros ?]. by apply safe_ret. }
  intros [w e]. eapply safe_bind; [apply sweep_page_safe, removeOrphan_safe|intros ?]. by apply safe_ret.
Qed.

(** ** Sequences of operations *)

Inductive operation : Type :=
| DoLookup (name : string) (k : ref_key)
| DoOpen (readonly : bool) (k : ref_key)
| DoPut (mode : metering) (k : ref_key) (kind data : string) (size : Z)
| DoDelete (arrange : list selected → list selected) (dry : bool) (rows : list ref_key)
| DoSweep (pick : list (string * Z) → list (string * Z)) (arrange : list selected → list selected) (fuel : nat) (age : Z) (status : option Z).

Definition run_operation (op : operation) (n : nat) (s : state) : nat * state :=
  match op with
  | DoLookup name k => (Lookup name k n s).1
  | DoOpen ro k => (Open ro k n s).1
  | DoPut mode k kind data size => (put mode k kind data size n s).1
  | DoDelete arrange dry rows => (Delete arrange dry rows n s).1
  | DoSweep pick arrange fuel age status => (Sweep pick arrange fuel age status n s).1
  end.

Definition run_operations (ops : list operation) (ns : nat * state) : nat * state := foldl (λ ns op, run_operation op ns.1 ns.2) ns ops.

Definition operation_admits (op : operation) : Prop := match op with DoPut mode _ _ _ _ => admits_safely mode | _ => True end.

Lemma safe_state {A} (m : M A) n s : safe inv m (λ _, inv) inv → inv s → inv (m n s).1.2.
Proof. intros Hm Hs. specialize (Hm n s Hs). by destruct (m n s) as [[n' s'] []]. Qed.

Lemma operation_keeps op n s : operation_admits op → inv s → inv (run_operation op n s).2.
Proof.
  intros Ha. destruct op; cbn; apply safe_state; [apply Lookup_safe|apply Open_safe|by apply put_safe|apply Delete_safe|apply Sweep_safe].
Qed.

(** [C12] The bucket and the catalogue stay together whatever fails.  Reads, writes,
    deletions and sweeps in any order, with any statement or request failing, requests
    failing after they took effect, and crashes at any point, keep this: a message that
    refers to an object finds it, unless a deletion of it was recorded first; every
    object in the bucket is in the catalogue or in the journal of uploads, so no paid
    byte is out of sight; every recorded deletion has its row; and what is stored under a hash
    has that hash. *)
Theorem bucket_never_astray (ops : list operation) (n : nat) (s : state) (Hops : Forall operation_admits ops) (Hs : inv s) :
  inv (run_operations ops (n, s)).2.
Proof.
  revert n s Hs. induction Hops as [|op ops Hop Hops IH]; intros n s Hs; [done|]. cbn [run_operations foldl fst snd].
  pose proof (operation_keeps op n s Hop Hs) as Hk. destruct (run_operation op n s) as [n' s']. by apply IH.
Qed.

(** ** What a write promises *)

Definition anything (s : state) : Prop := True.

(** The message has its object: the reference, the row, the hash of the message, and
    an object of that hash and size, not being deleted. *)
Definition stored_for (k : ref_key) (h : string) (size : Z) (s : state) : Prop :=
  refs s !! k = Some h ∧ (∃ o, catalog s !! h = Some o ∧ o_bytes o = size) ∧ (∃ m, messages s !! k = Some m ∧ m_sha m = h) ∧ (h ∉ deletions s) ∧
  ∃ c, bucket s !! h = Some c ∧ Z.of_nat (String.length c) = size ∧ sha256 c = h.

Lemma safe_trivially {A} (m : M A) (P : state → Prop) : safe P m (λ _, anything) anything.
Proof. intros n s _. by destruct (m n s) as [[? ?] []]. Qed.

Lemma publish_stores h size kind k expected s c :
  expected = "" ∨ expected = h → same_snapshot k expected s = Ok tt → bucket s !! h = Some c → Z.of_nat (String.length c) = size → sha256 c = h →
  stored_for k h size (publish h size kind k expected s).
Proof.
  clear others_inv. intros He Hsame Hb Hl Hh. unfold same_snapshot in Hsame. destruct (messages s !! k) as [m|] eqn:Hm; [|done].
  destruct (String.eqb_spec (m_sha m) expected) as [Hsha|]; [|done]. unfold stored_for, publish. cbn. rewrite !lookup_insert_eq. split_and!; [done| | |set_solver|eauto].
  - destruct (catalog s !! h); eexists; (split; [done|done]).
  - destruct (String.eqb_spec expected "") as [_|Hne]; [rewrite lookup_alter_eq, Hm; by eexists|]. exists m. split; [done|]. destruct He; congruence.
Qed.

Lemma verified_stored h size kind k expected :
  expected = "" ∨ expected = h → safe anything (verify_and_publish h size kind k expected) (λ _, stored_for k h size) anything.
Proof.
  intros He. unfold verify_and_publish. apply (safe_bind _ _ _ (λ o s, bucket s !! h = o)); [by apply safe_net|].
  intros [c|]; [|by apply safe_raise]. destruct (Z.eqb_spec (Z.of_nat (String.length c)) size) as [Hl|]; cbn [andb]; [|by apply safe_raise].
  destruct (String.eqb_spec (sha256 c) h) as [Hh|]; [|by apply safe_raise].
  apply (safe_bind _ _ _ (λ r s, match r with Ok _ => stored_for k h size s | Err _ => True end)); [|intros [[]|e]; [by apply safe_ret|by apply safe_raise]].
  apply safe_sql; [|done]. intros s Hb. destruct (same_snapshot k expected s) as [[]|] eqn:Hs; [|done]. by eapply publish_stores.
Qed.

Lemma put_stored mode k kind data size :
  safe anything (put mode k kind data size) (λ z s, z = size ∧ stored_for k (sha256 data) size s) anything.
Proof.
  unfold put. destruct (size <? 0); [by apply safe_raise|]. eapply safe_bind; [apply safe_trivially|intros ?]. destruct (negb _); [by apply safe_raise|].
  eapply safe_bind; [apply safe_trivially|intros [expected|]; [|by apply safe_raise]].
  destruct (negb (String.eqb expected "") && negb (String.eqb expected (sha256 data))) eqn:He; [by apply safe_raise|].
  assert (Hexp : expected = "" ∨ expected = sha256 data).
  { apply andb_false_iff in He as [He|He]; apply negb_false_iff, String.eqb_eq in He; auto. }
  do 4 (eapply safe_bind; [apply safe_trivially|intros ?]). eapply safe_bind; [apply safe_trivially|intros stat].
  destruct stat as [c|].
  - destruct (negb (Z.of_nat (String.length c) =? size)); [by apply safe_raise|]. eapply safe_bind; [by apply verified_stored|intros ?]. by apply safe_ret.
  - do 2 (eapply safe_bind; [apply safe_trivially|intros ?]).
    apply (safe_bind _ _ _ (λ r s, match r with Ok _ => stored_for k (sha256 data) size s | Err _ => True end)).
    + apply (safe_attempt _ _ (λ _, stored_for k (sha256 data) size) anything). eapply safe_bind; [apply safe_trivially|intros ?]. by apply verified_stored.
    + intros [[]|e]; [by apply safe_ret|]. eapply safe_bind; [apply safe_trivially|intros; by apply safe_raise].
Qed.

(** Bytes are released only with the hash of the message. *)
Lemma Open_verified ro k : safe anything (Open ro k) (λ c s, ∃ b, reference_of k s = Some (sha256 c, b)) anything.
Proof.
  unfold Open. eapply safe_bind; [apply safe_trivially|]. intros [[h size]|e]; [|destruct e; by apply safe_raise].
  do 2 (eapply safe_bind; [apply safe_trivially|intros ?]).
  apply (safe_bind _ _ _ (λ r s, match r with Ok x => reference_of k s = Some x | Err _ => True end)).
  { apply (safe_attempt _ _ (λ x s, reference_of k s = Some x) anything). unfold reference.
    apply (safe_bind _ _ _ (λ o s, reference_of k s = o)); [by apply safe_query|]. intros [x|]; [by apply safe_ret|by apply safe_raise]. }
  intros [[h' b]|e]; [|by apply safe_raise]. destruct (String.eqb_spec h' h) as [->|]; cbn [negb]; [|by apply safe_raise].
  set (P := λ s, reference_of k s = Some (h, b)).
  apply (safe_bind _ _ _ (λ _, P)); [by apply safe_query|intros _]. apply (safe_bind _ _ _ (λ _, P)).
  { unfold key. destruct (Nat.eqb _ _); [by apply safe_ret|by apply safe_raise]. }
  intros _. apply (safe_bind _ _ _ (λ _, P)); [by apply safe_net|]. intros [c|]; [|by apply safe_raise].
  destruct (_ && String.eqb (sha256 c) h) eqn:Hc; [|by apply safe_raise]. apply andb_true_iff in Hc as [_ Hc%String.eqb_eq].
  apply (safe_bind _ _ _ (λ _, P)).
  - destruct ro; [by apply safe_ret|]. apply safe_exec; [|done]. unfold P, reference_of, touch. intros s. cbn. destruct (refs s !! k) as [h0|]; [|done]. cbn.
    destruct (decide (h = h0)) as [<-|]; [|by rewrite lookup_alter_ne]. rewrite lookup_alter_eq. destruct (catalog s !! h); [|done]. done.
  - intros _. apply safe_ret. intros s Hs. exists b. unfold P in Hs. by rewrite Hc.
Qed.

(** ** When nothing fails *)

Section Fine.
Hypothesis fine : ∀ n, env n = Fine.
Hypothesis alone : ∀ n s, others n s = s.
Hypothesis sha256_size : ∀ c, String.length (sha256 c) = 32%nat.

Lemma sql_fine {A} err (read : state → A) write n s : sql err read write n s = (S n, write s, Ok (read s)).
Proof. unfold sql. by rewrite fine. Qed.

Lemma net_fine {A} err (read : state → A) write n s : net err read write n s = (S n, write s, Ok (read s)).
Proof. unfold net. by rewrite fine. Qed.

Lemma lock_fine h n s : lockHash h n s = (S n, s, Ok tt).
Proof. unfold lockHash. by rewrite fine, alone. Qed.

Lemma key_fine h n s : String.length h = 32%nat → key h n s = (n, s, Ok tt).
Proof. intros Hh. unfold key. by rewrite Hh. Qed.

Lemma bind_ok {A B} (m : M A) (f : A → M B) n s n' s' a : m n s = (n', s', Ok a) → bind m f n s = f a n' s'.
Proof. intros Hm. unfold bind. by rewrite Hm. Qed.

Lemma reference_stored k h size n s : stored_for k h size s → reference k n s = (S n, s, Ok (h, size)).
Proof.
  intros (Hr & (o & Ho & Hb) & (m & Hm & Hh) & _). unfold reference. erewrite bind_ok by apply sql_fine.
  unfold reference_of. rewrite Hr. cbn. rewrite Ho. cbn. rewrite Hm. cbn. rewrite Hh, String.eqb_refl, Hb. done.
Qed.

Lemma not_pending ro k h size n s : stored_for k h size s → reconcileDeletionLocked ro h n s = (S n, s, Ok false).
Proof.
  intros (_ & _ & _ & Hd & _). unfold reconcileDeletionLocked. erewrite bind_ok by apply sql_fine. by rewrite bool_decide_eq_false_2.
Qed.

Lemma Open_stored k h size n s : stored_for k h size s → String.length h = 32%nat →
  ∃ n' s' c, Open false k n s = (n', s', Ok c) ∧ sha256 c = h ∧ Z.of_nat (String.length c) = size.
Proof.
  intros Hst Hh. pose proof Hst as (Hr & Ho & Hm & Hd & (c & Hb & Hl & Hc)). unfold Open.
  erewrite bind_ok by (unfold attempt, reconciledReference; erewrite bind_ok by (by apply reference_stored); erewrite bind_ok by apply sql_fine;
    cbn [fst]; rewrite bool_decide_eq_false_2 by done; done). cbv beta iota.
  erewrite bind_ok by apply lock_fine. erewrite bind_ok by (by eapply not_pending). cbv beta.
  erewrite bind_ok by (unfold attempt; rewrite (reference_stored k h size) by done; done). cbv beta iota. rewrite String.eqb_refl. cbn [negb].
  erewrite bind_ok by apply sql_fine. erewrite bind_ok by (by apply key_fine). erewrite bind_ok by apply net_fine. cbv beta. rewrite Hb, Hl, Z.eqb_refl, Hc, String.eqb_refl.
  cbn [andb]. erewrite bind_ok by apply sql_fine. cbv beta. unfold ret. by eexists _, _, c.
Qed.

(** What was stored can be read back: when a write of a file reports success, whatever
    failed before it did, an undisturbed read of the same message yields a file with
    the same hash and the same size, and the message carries that hash. *)
Theorem stored_then_read (mode : metering) (k : ref_key) (kind data : string) (size z : Z) (n n' : nat) (s s' : state)
    (Hput : put mode k kind data size n s = (n', s', Ok z)) :
  z = size ∧ m_sha <$> messages s' !! k = Some (sha256 data) ∧
  ∃ n'' s'' c, Open false k n' s' = (n'', s'', Ok c) ∧ sha256 c = sha256 data ∧ Z.of_nat (String.length c) = size.
Proof.
  pose proof (put_stored mode k kind data size n s I) as Hp. rewrite Hput in Hp. destruct Hp as [-> Hst]. split_and!; [done| |].
  - destruct Hst as (_ & _ & (m & Hm & Hh) & _). by rewrite Hm, <- Hh.
  - apply Open_stored; [done|apply sha256_size].
Qed.

(** ** Recovery *)

Lemma reconcile_fine h n s : String.length h = 32%nat →
  ∃ n' s' b, (lockHash h;;; reconcileDeletionLocked false h) n s = (n', s', Ok b) ∧ deletions s' = deletions s ∖ {[h]} ∧ uploads s' = uploads s ∧
    catalog s' ⊆ catalog s.
Proof.
  clear sha256_size. intros Hh. erewrite bind_ok by apply lock_fine. unfold reconcileDeletionLocked. erewrite bind_ok by apply sql_fine. cbv beta.
  case_bool_decide as Hd; cbn [negb].
  - erewrite bind_ok by (by apply key_fine). erewrite bind_ok by apply sql_fine. erewrite bind_ok by apply net_fine. cbv beta.
    case_bool_decide; (erewrite bind_ok by apply sql_fine); unfold ret; eexists _, _, _; (split_and!; [done..|cbn]); [apply delete_subseteq|done].
  - unfold ret. eexists _, s, false. split_and!; [done| |done|done]. set_solver.
Qed.

Lemma settle_upload_fine h n s : String.length h = 32%nat →
  ∃ n' s' b, settle_upload h n s = (n', s', Ok b) ∧ deletions s' = deletions s ∧ uploads s' = delete h (uploads s) ∧
    catalog s' = catalog s.
Proof.
  intros Hh. unfold settle_upload. erewrite bind_ok by apply lock_fine. erewrite bind_ok by apply sql_fine. cbv beta. case_bool_decide as Hu; cbn [negb].
  - erewrite bind_ok by apply sql_fine. cbv beta. case_bool_decide.
    + erewrite bind_ok by reflexivity. erewrite bind_ok by apply sql_fine. unfold ret. by eexists _, _, _.
    + erewrite bind_ok by (unfold removeObject; erewrite bind_ok by (by apply key_fine); erewrite bind_ok by apply sql_fine; apply net_fine).
      erewrite bind_ok by apply sql_fine. unfold ret. by eexists _, _, _.
  - unfold ret. eexists _, s, false. split_and!; [done|done| |done]. rewrite delete_id; [done|]. by apply eq_None_not_Some.
Qed.

(** A pass over a page, from what each step does to some part of the state. *)
Lemma settle_each_fine {T} (part : state → T) (drop : string → T → T) (J : state → Prop) work items n s :
  J s → (∀ h n s, h ∈ items.*1 → J s → ∃ n' s' b, work h n s = (n', s', Ok b) ∧ part s' = drop h (part s) ∧ J s') →
  ∃ n' s' r, settle_each work items n s = (n', s', Ok r) ∧ r.2 = 0%nat ∧ part s' = foldl (flip drop) (part s) items.*1 ∧ J s'.
Proof.
  clear sha256_size. revert n s. induction items as [|[h b] items IH]; intros n s Hj Hw; cbn [settle_each]; [by eexists _, s, _|].
  destruct (Hw h n s) as (n1 & s1 & b1 & E1 & P1 & J1); [by left|done|]. destruct (IH n1 s1 J1) as (n2 & s2 & r & E2 & R2 & P2 & J2); [intros h' ? ? ?; apply Hw; by right|].
  erewrite bind_ok by (unfold attempt; rewrite E1; done). erewrite bind_ok by exact E2. eexists _, s2, _. split; [done|]. rewrite P2, P1. by destruct b1.
Qed.

(** The two journals, and what settling an entry of either does to them. *)
Definition journals (s : state) : gset string * gmap string upload_row := (deletions s, uploads s).
Definition drop_deletion (h : string) (j : gset string * gmap string upload_row) : gset string * gmap string upload_row := (j.1 ∖ {[h]}, j.2).
Definition drop_upload (h : string) (j : gset string * gmap string upload_row) : gset string * gmap string upload_row := (j.1, delete h j.2).

Lemma foldl_deletions (l : list string) j : foldl (flip drop_deletion) j l = (j.1 ∖ list_to_set l, j.2).
Proof. clear. revert j. induction l as [|h l IH]; intros [d u]; cbn; [f_equal; set_solver|]. rewrite IH. cbn. f_equal. set_solver. Qed.

Lemma foldl_uploads (l : list string) j : foldl (flip drop_upload) j l = (j.1, foldl (flip delete) j.2 l).
Proof. revert j. induction l as [|h l IH]; intros [d u]; cbn; [done|]. by rewrite IH. Qed.

Lemma foldl_delete (l : list string) (u : gmap string upload_row) h : h ∈ l → foldl (flip (delete (M := gmap string upload_row))) u l !! h = None.
Proof.
  revert u. assert (Hk : ∀ l (u : gmap string upload_row), u !! h = None → foldl (flip delete) u l !! h = None).
  { clear l. intros l. induction l as [|x l IH]; intros u Hu; [done|]. cbn. apply IH. rewrite lookup_delete. by case_decide. }
  induction l as [|x l IH]; intros u; [by intros ?%elem_of_nil|]. cbn. intros [->|Hin]%elem_of_cons; [|by apply IH]. apply Hk, lookup_delete_eq.
Qed.

Lemma foldl_delete_Some (l : list string) (u : gmap string upload_row) h x : foldl (flip delete) u l !! h = Some x → is_Some (u !! h).
Proof.
  revert u. induction l as [|y l IH]; intros u; cbn; [eauto|]. intros Hf%IH. destruct Hf as [z Hz]. apply lookup_delete_Some in Hz as [_ Hz]. eauto.
Qed.

Lemma begun_names s h : h ∈ (begun_uploads s).*1 ↔ is_Some (uploads s !! h).
Proof.
  unfold begun_uploads. rewrite <- list_fmap_compose. rewrite list_elem_of_fmap. split.
  - intros ([h' u] & -> & Hu%elem_of_map_to_list). by exists u.
  - intros [u Hu]. exists (h, u). split; [done|by apply elem_of_map_to_list].
Qed.

Lemma page_all pick (l : list (string * Z)) : (∀ l, pick l ≡ₚ l) → (length l ≤ 256)%nat → page pick l ≡ₚ l.
Proof. intros Hp Hl. unfold page. rewrite take_ge; [apply Hp|]. by rewrite (Permutation_length (Hp l)). Qed.

Lemma pending_names s : inv s → (pending_deletions s).*1 ≡ₚ elements (deletions s).
Proof.
  intros Hs. unfold pending_deletions. assert (Hall : ∀ h, h ∈ elements (deletions s) → is_Some (catalog s !! h)) by (intros h Hh%elem_of_elements; by apply (i_marked _ Hs)).
  induction (elements (deletions s)) as [|h l IH]; [done|]. cbn. destruct (Hall h) as [o Ho]; [by left|]. rewrite Ho. cbn. f_equiv. apply IH. intros h' ?. apply Hall. by right.
Qed.

(** The keys of the catalogue are SHA-256 sums. *)
Definition hashed (s : state) : Prop := ∀ h, is_Some (catalog s !! h) → String.length h = 32%nat.

(** From [P] the operation ends well, in [Q]. *)
Definition does {A} (P : state → Prop) (m : M A) (Q : A → state → Prop) : Prop :=
  ∀ n s, P s → ∃ n' s' a, m n s = (n', s', Ok a) ∧ Q a s'.

Lemma does_ret {A} (a : A) (P : state → Prop) Q : (∀ s, P s → Q a s) → does P (ret a) Q.
Proof. clear sha256_size. intros Hq n s Hs. exists n, s, a. auto. Qed.

Lemma does_bind {A B} (m : M A) (f : A → M B) P R Q : does P m R → (∀ a, does (R a) (f a) Q) → does P (bind m f) Q.
Proof.
  clear sha256_size. intros Hm Hf n s Hs. destruct (Hm n s Hs) as (n1 & s1 & a & E1 & R1). destruct (Hf a n1 s1 R1) as (n2 & s2 & b & E2 & Q2).
  exists n2, s2, b. by rewrite (bind_ok _ _ _ _ _ _ _ E1).
Qed.

Lemma does_attempt {A} (m : M A) P (Q : A → state → Prop) : does P m Q → does P (attempt m) (λ r s, ∃ a, r = Ok a ∧ Q a s).
Proof. clear sha256_size. intros Hm n s Hs. destruct (Hm n s Hs) as (n1 & s1 & a & E1 & R1). exists n1, s1, (Ok a). unfold attempt. rewrite E1. eauto. Qed.

Lemma does_sql {A} err (read : state → A) write (P : state → Prop) (Q : A → state → Prop) : (∀ s, P s → Q (read s) (write s)) → does P (sql err read write) Q.
Proof. clear sha256_size. intros Hq n s Hs. exists (S n), (write s), (read s). rewrite sql_fine. auto. Qed.

Lemma does_query {A} err (read : state → A) (P : state → Prop) : does P (query err read) (λ a s, P s ∧ a = read s).
Proof. clear sha256_size. apply does_sql. auto. Qed.

Lemma does_lock h (P : state → Prop) : does P (lockHash h) (λ _, P).
Proof. clear sha256_size. intros n s Hs. exists (S n), s, tt. by rewrite lock_fine. Qed.

Lemma does_remove h (P Q : state → Prop) : String.length h = 32%nat → (∀ s, P s → Q (set_bucket (delete h (bucket s)) s)) → does P (removeObject h) (λ _, Q).
Proof.
  clear sha256_size. intros Hh Hq n s Hs. exists (S (S n)), (set_bucket (delete h (bucket s)) s), tt. unfold removeObject.
  erewrite bind_ok by (by apply key_fine). erewrite bind_ok by apply sql_fine. rewrite net_fine. auto.
Qed.

Lemma does_weaken {A} (m : M A) (P P' : state → Prop) (Q Q' : A → state → Prop) :
  (∀ s, P' s → P s) → (∀ a s, Q a s → Q' a s) → does P m Q → does P' m Q'.
Proof. clear sha256_size. intros HP HQ Hm n s Hs. destruct (Hm n s (HP s Hs)) as (n1 & s1 & a & E1 & R1). exists n1, s1, a. auto. Qed.

(** Both journals empty. *)
Definition settled (s : state) : Prop := deletions s = ∅ ∧ uploads s = ∅ ∧ hashed s.

Lemma hashed_delete h s : hashed s → hashed (delete_object_row h s).
Proof. clear sha256_size. intros Hk h' [o Ho]. cbn in Ho. apply lookup_delete_Some in Ho as [_ Ho]. apply Hk. eauto. Qed.

(** What a purge reports when nothing fails. *)
Definition fine_removal (r : removal) : Prop := x_purged r = true ∨ x_reason r = RemovalNotCached.

Lemma fine_update f is_ out : (∀ r, fine_removal r → fine_removal (f r)) → Forall fine_removal out → Forall fine_removal (update_all f is_ out).
Proof.
 clear sha256_size.  clear. intros Hf. unfold update_all. revert out. induction is_ as [|i is_ IH]; intros out Ho; cbn; [done|]. apply IH. apply Forall_alter; [done|]. intros x Hx. auto.
Qed.

Lemma still_selected_does rows h is_ P : does P (still_selected rows h is_) (λ _, P).
Proof.
  clear sha256_size. induction is_ as [|i is_ IH]; cbn [still_selected]; [by apply does_ret|]. eapply does_bind; [apply does_query|intros m].
  eapply (does_bind _ _ _ (λ _, P)); [|intros rest; by apply does_ret]. eapply does_weaken; [| |exact IH]; [by intros s [? _]|done].
Qed.

Lemma remove_selected_does rows o out :
  String.length (s_hash o) = 32%nat → Forall fine_removal out →
  does settled (remove_selected false rows o out) (λ out s, Forall fine_removal out ∧ settled s).
Proof.
  clear sha256_size. intros Hh Ho. unfold remove_selected. cbv zeta. eapply does_bind; [apply does_lock|intros ?; cbv beta]. eapply does_bind; [apply still_selected_does|intros live].
  assert (Hout : Forall fine_removal (update_all (λ _, not_cached) (filter (λ i, i ∉ live) (s_rows o)) out)) by (apply fine_update; [intros; by right|done]).
  destruct (last live) as [final|]; [|by apply does_ret]. eapply does_bind; [apply does_query|intros count]. cbv beta.
  destruct (Nat.eqb count (length live)).
  - assert (Hb : Forall fine_removal (alter (with_bytes (s_bytes o)) final (update_all (λ _, not_cached) (filter (λ i, i ∉ live) (s_rows o)) out)))
      by (apply Forall_alter; [done|intros x _ Hx; exact Hx]).
    eapply (does_bind _ _ _ (λ _ s, deletions s ⊆ {[s_hash o]} ∧ uploads s = ∅ ∧ hashed s)).
    { apply does_sql. intros s [(Hd & Hu & Hk) _]. unfold mark_deletion. destruct (decide _); cbn; rewrite Hd; (split_and!; [set_solver|done|done]). }
    intros ?; cbv beta. set (marked := λ s, deletions s ⊆ {[s_hash o]} ∧ uploads s = ∅ ∧ hashed s).
    eapply does_bind; [apply does_attempt, (does_remove _ marked marked); [done|intros s Hs; exact Hs]|]. intros r. cbv beta.
    intros n s (u & -> & Hs). revert n s Hs. apply (does_bind _ _ marked (λ _, settled)).
    + apply does_sql. clear. intros s (Hd & Hu & Hk). split_and!; cbn; [set_solver|done|by apply hashed_delete].
    + intros ?; cbv beta. apply does_ret. intros s' Hs'. split; [|done]. apply fine_update; [intros x Hx; exact Hx|done].
  - eapply (does_bind _ _ _ (λ _, settled)); [apply does_sql; intros s [Hs _]; exact Hs|]. intros ?; cbv beta. apply does_ret. intros s' Hs'. split; [|done].
    apply fine_update; [intros x Hx; exact Hx|done].
Qed.

Lemma remove_objects_does rows objs out :
  Forall (λ o, String.length (s_hash o) = 32%nat) objs → Forall fine_removal out →
  does settled (remove_objects false rows objs out) (λ r s, r.2 = None ∧ Forall fine_removal r.1 ∧ settled s).
Proof.
  clear sha256_size. intros Hobjs. revert out. induction Hobjs as [|o objs Hh _ IH]; intros out Ho; cbn [remove_objects]; [by apply does_ret|].
  eapply does_bind; [apply does_attempt, remove_selected_does; done|]. intros r n s (out' & -> & Ho' & Hs). by apply IH.
Qed.

Lemma select_into_hashed h b i objs : String.length h = 32%nat → Forall (λ o, String.length (s_hash o) = 32%nat) objs →
  Forall (λ o, String.length (s_hash o) = 32%nat) (select_into h b i objs).
Proof.
 clear sha256_size.  clear. intros Hh Ho. unfold select_into. destruct (list_find _ objs) as [[j ?]|]; [apply Forall_alter; [done|by intros x _ Hx]|].
  apply Forall_app. split; [done|by constructor].
Qed.

Lemma select_rows_does i rows seen objs out :
  Forall (λ o, String.length (s_hash o) = 32%nat) objs → Forall fine_removal out →
  does settled (select_rows i rows seen objs out)
    (λ r s, r.2 = None ∧ Forall (λ o, String.length (s_hash o) = 32%nat) r.1.1 ∧ Forall fine_removal r.1.2 ∧ settled s).
Proof.
  clear sha256_size. revert i seen objs out. induction rows as [|k rows IH]; intros i seen objs out Hobjs Ho; cbn [select_rows]; [by apply does_ret|].
  assert (∀ r, fine_removal r → Forall fine_removal (out ++ [r])) as Happ by (intros r Hr; apply Forall_app; split; [done|by constructor]).
  case_bool_decide; [apply IH; [done|apply Happ; by right]|]. eapply does_bind; [apply does_attempt, does_query|].
  intros r n s (a & -> & Hs & Ha). destruct a as [[h b]|]; [|apply IH; [done|apply Happ; by right|done]].
  apply IH; [|apply Happ; by left|done]. apply select_into_hashed; [|done]. destruct Hs as (_ & _ & Hk). apply Hk.
  destruct (refs s !! k) as [h'|]; [|done]. cbn in Ha. destruct (catalog s !! h') as [o|] eqn:Hc; [|done]. cbn in Ha. injection Ha as -> _. eauto.
Qed.

Lemma Delete_does arrange rows : (∀ l, arrange l ≡ₚ l) →
  does settled (Delete arrange false rows) (λ r s, r.2 = None ∧ Forall fine_removal r.1 ∧ settled s).
Proof.
  clear sha256_size. intros Harr. unfold Delete. eapply does_bind; [apply select_rows_does; constructor|]. intros [[objs out] e] n s (He & Hobjs & Ho & Hs). cbn in He, Hobjs, Ho.
  subst e. revert n s Hs. change (does settled (r ⇐ remove_objects false rows (arrange objs) out; let '(out, failed) := r in
    ret (match failed with Some _ => incomplete <$> out | None => out end, failed)) (λ r s, r.2 = None ∧ Forall fine_removal r.1 ∧ settled s)).
  eapply does_bind; [apply remove_objects_does; [by rewrite (Harr objs)|done]|]. intros [out' e] n s (He & Ho' & Hs). cbn in He, Ho'. subst e.
  by apply (does_ret _ settled).
Qed.

Lemma count_fine out w : Forall fine_removal out → w_failed (count_results out w) = w_failed w.
Proof.
 clear sha256_size.  clear. intros Ho. unfold count_results. revert w. induction Ho as [|r out Hr _ IH]; intros w; cbn; [done|]. rewrite IH.
  destruct Hr as [->| ->]; [done|]. by destruct (x_purged r).
Qed.

Lemma walk_does fuel pred arrange after w : (∀ l, arrange l ≡ₚ l) → w_failed w = 0%nat →
  does settled (walkCachedRows fuel pred (λ w rows, r ⇐ Delete arrange false (fst <$> rows); ret (count_results r.1 w, true, r.2)) after w)
    (λ r s, w_failed r.1 = 0%nat ∧ r.2 = None ∧ settled s).
Proof.
  clear sha256_size. intros Harr. revert after w. induction fuel as [|fuel IH]; intros after w Hw; cbn [walkCachedRows]; [by apply does_ret|].
  eapply does_bind; [apply does_attempt, does_query|]. intros r n s (rows & -> & Hs & _). revert n s Hs. 
  destruct (last rows) as [final|]; [|by apply (does_ret _ settled)]. eapply (does_bind _ _ settled (λ v s, w_failed v.1.1 = 0%nat ∧ v.2 = None ∧ settled s)).
  { eapply does_bind; [by apply Delete_does|]. intros [out e] n s (He & Ho & Hs). cbn in He, Ho. subst e. apply (does_ret _ settled); [|done].
    intros s' Hs'. cbn [fst snd]. by rewrite count_fine. }
  intros [[w' more] e] n s (Hw' & He & Hs). cbn in Hw', He. subst e. destruct (negb more || _); [by apply (does_ret _ settled)|]. by apply IH.
Qed.

Lemma orphan_does h : String.length h = 32%nat → does settled (removeOrphan h) (λ _, settled).
Proof.
  clear sha256_size. intros Hh. unfold removeOrphan. eapply does_bind; [apply does_lock|intros ?; cbv beta]. eapply does_bind; [apply does_query|intros count]. cbv beta.
  destruct (negb _); [apply does_ret; by intros s []|]. eapply does_bind; [apply (does_remove _ _ settled); [done|intros s [Hs _]; exact Hs]|intros ?; cbv beta].
  eapply (does_bind _ _ _ (λ _, settled)); [|intros ?; by apply does_ret]. apply does_sql. intros s (Hd & Hu & Hk).
  destruct (Nat.eqb _ _); [|done]. split_and!; cbn; [set_solver|done|by apply hashed_delete].
Qed.

Lemma settle_each_does work items P :
  (∀ h, h ∈ items.*1 → does P (work h) (λ _, P)) → does P (settle_each work items) (λ r s, r.2 = 0%nat ∧ P s).
Proof.
  clear sha256_size. induction items as [|[h b] items IH]; intros Hw; cbn [settle_each]; [by apply does_ret|].
  eapply does_bind; [apply does_attempt, Hw; by left|]. intros r n s (x & -> & Hs). revert n s Hs.
  eapply (does_bind _ _ P); [apply IH; intros h' Hh'; apply Hw; by right|]. intros rest n s [Hr Hs].
  eapply does_ret; [|exact Hs]. intros s' Hs'. split; [|exact Hs']. by destruct x.
Qed.

Lemma sweepUnreferenced_does pick : (∀ l, pick l ≡ₚ l) → does settled (sweepUnreferenced pick) (λ r s, r.2 = 0%nat ∧ settled s).
Proof.
  clear sha256_size. intros Hpick. unfold sweepUnreferenced, sweep_page. eapply does_bind; [apply does_attempt, does_query|].
  intros r n s (l & -> & Hs & Hl). eapply settle_each_does; [|exact Hs]. intros h Hh. apply orphan_does. destruct Hs as (_ & _ & Hk). apply Hk.
  assert (h ∈ (orphans s).*1) as Hin.
  { eapply elem_of_submseteq; [exact Hh|]. apply fmap_submseteq. rewrite Hl. unfold page. etrans; [apply sublist_submseteq, sublist_take|]. by rewrite (Hpick _). }
  apply list_elem_of_fmap in Hin as ([h' b] & -> & Hin). apply list_elem_of_fmap in Hin as ([h2 o] & [= -> ->] & Hin).
  apply list_elem_of_filter in Hin as [_ Hin%elem_of_map_to_list]. cbn. eauto.
Qed.

(** The first two passes settle what was interrupted. *)
Lemma deletions_settled pick n s : (∀ l, pick l ≡ₚ l) → inv s → (size (deletions s) ≤ 256)%nat → hashed s →
  ∃ n' s' r, reconcilePendingDeletions pick n s = (n', s', Ok r) ∧ r.2 = 0%nat ∧ deletions s' = ∅ ∧ uploads s' = uploads s ∧ hashed s'.
Proof.
  clear sha256_size. intros Hpick Hs Hdel Hk. unfold reconcilePendingDeletions, sweep_page.
  pose proof (page_all pick (pending_deletions s) Hpick) as Hp. pose proof (pending_names s Hs) as Hn.
  destruct (settle_each_fine journals drop_deletion hashed (λ h, lockHash h;;; reconcileDeletionLocked false h) (page pick (pending_deletions s)) (S n) s)
    as (n1 & s1 & r1 & E1 & R1 & P1 & K1); [done| |].
  { intros h m t Hh Ht. destruct (reconcile_fine h m t) as (m' & t' & b & Et & Pd & Pu & Pc).
    - apply Hk, (i_marked _ Hs), elem_of_elements. rewrite <- Hn. eapply elem_of_submseteq; [exact Hh|]. apply fmap_submseteq.
      unfold page. etrans; [apply sublist_submseteq, sublist_take|]. by rewrite (Hpick _).
    - exists m', t', b. split; [done|]. split; [unfold journals, drop_deletion; by rewrite Pd, Pu|]. intros h' [o Ho]. apply Ht. exists o. by eapply lookup_weaken. }
  rewrite foldl_deletions in P1. injection P1 as Pd Pu. cbn [journals fst snd] in Pd, Pu. exists n1, s1, r1.
  split_and!; [by erewrite bind_ok by (unfold attempt, query; rewrite sql_fine; done)|done| |done|done].
  rewrite Pd. apply set_eq. intros h. rewrite elem_of_difference, elem_of_list_to_set. split; [|set_solver]. intros [Hh Hno]. destruct Hno.
  rewrite Hp; [rewrite Hn; by apply elem_of_elements|]. rewrite <- (length_fmap fst), Hn. exact Hdel.
Qed.

Lemma uploads_settled pick n s : (∀ l, pick l ≡ₚ l) → (size (uploads s) ≤ 256)%nat → (∀ h, is_Some (uploads s !! h) → String.length h = 32%nat) → hashed s →
  ∃ n' s' r, reconcilePendingUploads pick n s = (n', s', Ok r) ∧ r.2 = 0%nat ∧ deletions s' = deletions s ∧ uploads s' = ∅ ∧ hashed s'.
Proof.
  clear sha256_size. intros Hpick Hup Hkeys Hk. unfold reconcilePendingUploads, sweep_page.
  destruct (settle_each_fine journals drop_upload hashed settle_upload (page pick (begun_uploads s)) (S n) s) as (n2 & s2 & r2 & E2 & R2 & P2 & K2); [done| |].
  { intros h m t Hh Ht. destruct (settle_upload_fine h m t) as (m' & t' & b & Et & Qd & Qu & Qc).
    - apply Hkeys, begun_names. eapply elem_of_submseteq; [exact Hh|]. apply fmap_submseteq.
      unfold page. etrans; [apply sublist_submseteq, sublist_take|]. by rewrite (Hpick _).
    - exists m', t', b. split; [done|]. split; [unfold journals, drop_upload; by rewrite Qd, Qu|]. intros h'. rewrite Qc. apply Ht. }
  rewrite foldl_uploads in P2. injection P2 as Qd Qu. cbn [journals fst snd] in Qd, Qu. exists n2, s2, r2.
  split_and!; [by erewrite bind_ok by (unfold attempt, query; rewrite sql_fine; done)|done|done| |done].
  apply map_empty. intros h. destruct (uploads s2 !! h) as [u|] eqn:Hh; [|done]. exfalso. assert (Hin : h ∈ (page pick (begun_uploads s)).*1).
  - rewrite page_all; [apply begun_names|done|unfold begun_uploads; rewrite length_fmap, length_map_to_list; exact Hup].
    rewrite Qu in Hh. by apply foldl_delete_Some in Hh.
  - rewrite Qu, (foldl_delete _ _ _ Hin) in Hh. done.
Qed.

(** [C36] One whole sweep repairs whatever was interrupted, when no statement and no request
    of it fails, nothing else runs meanwhile, and the recorded hashes are SHA-256 sums: from
    any state the store can be in (the invariant of the store), with at most 256 deletions and
    at most 256 uploads left over, it reports no failure and ends with both journals empty;
    every reference then has its object, and every object in the bucket its row. *)
Theorem recovery_complete (pick : list (string * Z) → list (string * Z)) (arrange : list selected → list selected) (fuel : nat) (age : Z) (status : option Z)
    (n : nat) (s : state) (Hpick : ∀ l, pick l ≡ₚ l) (Harrange : ∀ l, arrange l ≡ₚ l) (Hs : inv s)
    (Hdel : (size (deletions s) ≤ 256)%nat) (Hup : (size (uploads s) ≤ 256)%nat)
    (Hkeys : ∀ h, is_Some (catalog s !! h) ∨ is_Some (uploads s !! h) → String.length h = 32%nat) :
  ∃ n' s' w, Sweep pick arrange fuel age status n s = (n', s', Ok w) ∧ w_failed w = 0%nat ∧ deletions s' = ∅ ∧ uploads s' = ∅ ∧
    (∀ k h, refs s' !! k = Some h → is_Some (bucket s' !! h)) ∧ (∀ h, is_Some (bucket s' !! h) → is_Some (catalog s' !! h)).
Proof.
  clear sha256_size. pose proof (Sweep_safe pick arrange fuel age status n s Hs) as Hw.
  destruct (deletions_settled pick n s) as (n1 & s1 & r1 & E1 & R1 & D1 & U1 & K1); [done|done|done|intros h Hh; apply Hkeys; by left|].
  destruct (uploads_settled pick n1 s1) as (n2 & s2 & r2 & E2 & R2 & D2 & U2 & K2); [done|by rewrite U1|intros h; rewrite U1; intros Hh; apply Hkeys; by right|done|].
  assert (settled s2) as S2 by (split_and!; [congruence|done|done]).
  destruct (walk_does fuel (expired age (default age status)) arrange None {| w_files := 0; w_freed := 0; w_failed := 0 |} Harrange eq_refl n2 s2 S2)
    as (n3 & s3 & [w e] & E3 & W3 & He & S3). cbn in W3, He. subst e.
  destruct (sweepUnreferenced_does pick Hpick n3 s3 S3) as (n4 & s4 & r4 & E4 & R4 & (D4 & U4 & _)).
  assert (Sweep pick arrange fuel age status n s = (n4, s4, Ok {| w_files := w_files w; w_freed := w_freed w + r4.1 + r1.1 + r2.1;
    w_failed := w_failed w + 0 + r4.2 + r1.2 + r2.2 |})) as HE.
  { unfold Sweep. erewrite bind_ok by exact E1. erewrite bind_ok by exact E2. erewrite bind_ok by exact E3. cbv beta iota.
    by erewrite bind_ok by exact E4. }
  rewrite HE in Hw. eexists n4, s4, _. split; [exact HE|]. split_and!; [cbn; lia|done|done|..].
  - intros k h Hr. apply (i_served _ Hw k); [done|]. rewrite D4. set_solver.
  - intros h Hb. destruct (i_charged _ Hw h Hb) as [|Hu]; [done|]. rewrite U4 in Hu. by apply lookup_empty_is_Some in Hu.
Qed.

End Fine.

End S3.

(** ** One file, stored under a fault *)
Module Sample.

(** A stand-in with 32 bytes, right for the file of the example. *)
Definition photo : string := "jpeg".
Definition digest (c : string) : string :=
  if String.eqb c photo then "0123456789abcdef0123456789abcdef" else "................................".

Lemma digest_size c : String.length (digest c) = 32%nat.
Proof. unfold digest. by destruct (String.eqb c photo). Defined.

Definition undisturbed (n : nat) (s : state) : state := s.
Definition k : ref_key := ("A", "5511@s.whatsapp.net").
Definition before : state := {|
  bucket := ∅; catalog := ∅; refs := ∅; deletions := ∅; uploads := ∅;
  messages := {[ k := {| m_sha := ""; m_kind := "image"; m_time := 100; m_filename := "" |} ]} |}.

(** The PUT is stored but reported as failed, and so is its removal. *)
Definition flaky (n : nat) : fault := if Nat.eqb n 7 then FailedLate else if Nat.eqb n 8 then Failed else Fine.
Definition calm (n : nat) : fault := Fine.

Definition in_order (l : list (string * Z)) : list (string * Z) := l.
Definition as_is (l : list selected) : list selected := l.
Definition script : list operation :=
  [DoPut NoBridge k "image" photo 4; DoPut NoBridge k "image" photo 4; DoOpen false k; DoDelete as_is false [k]; DoSweep in_order as_is 4 0 None].

Lemma before_inv : inv digest before.
Proof.
  split; cbn; [intros * Hr; by rewrite lookup_empty in Hr|set_solver|intros * Hr; by rewrite lookup_empty in Hr| |intros * Hr; by rewrite lookup_empty in Hr].
  intros h [c Hc]. by rewrite lookup_empty in Hc.
Defined.

Lemma bucket_never_astray_witness : inv digest (run_operations digest flaky undisturbed 200 script (0%nat, before)).2.
Proof.
  refine (bucket_never_astray digest flaky undisturbed 200 (λ _ _ Hs, Hs) script 0%nat before _ before_inv).
  repeat constructor.
Defined.

(** After the failed PUT the object is in the journal, after the second write in the
    catalogue, and in the end it is gone. *)
Example script_outcome :
  let after l := (run_operations digest flaky undisturbed 200 l (0%nat, before)).2 in
  let h := digest photo in
  is_Some (uploads (after (take 1 script)) !! h) ∧ is_Some (bucket (after (take 1 script)) !! h) ∧
  refs (after (take 2 script)) !! k = Some h ∧ uploads (after (take 2 script)) = ∅ ∧ bucket (after script) = ∅ ∧ catalog (after script) = ∅.
Proof. vm_compute. split_and!; try done; by eexists. Qed.

Definition stored : nat * state * result s3_error Z := put digest calm undisturbed 200 NoBridge k "image" photo 4 0%nat before.

Lemma stored_then_read_witness :
  4 = 4 ∧ m_sha <$> messages stored.1.2 !! k = Some (digest photo) ∧
  ∃ n s c, Open digest calm undisturbed 200 false k stored.1.1 stored.1.2 = (n, s, Ok c) ∧ digest c = digest photo ∧ Z.of_nat (String.length c) = 4.
Proof.
  refine (stored_then_read digest calm undisturbed 200 (λ _, eq_refl) (λ _ _, eq_refl) digest_size NoBridge k "image" photo 4 4 0%nat stored.1.1 before stored.1.2 _).
  vm_compute. reflexivity.
Defined.

(** The state after the failed PUT. *)
Definition interrupted : state := (run_operations digest flaky undisturbed 200 (take 1 script) (0%nat, before)).2.

Lemma recovery_complete_witness :
  ∃ n' s' w, Sweep calm undisturbed 300 in_order as_is 4 0 None 0%nat interrupted = (n', s', Ok w) ∧ w_failed w = 0%nat ∧ deletions s' = ∅ ∧ uploads s' = ∅ ∧
    (∀ k h, refs s' !! k = Some h → is_Some (bucket s' !! h)) ∧ (∀ h, is_Some (bucket s' !! h) → is_Some (catalog s' !! h)).
Proof.
  refine (recovery_complete digest calm undisturbed 300 (λ _ _ Hs, Hs) (λ _, eq_refl) (λ _ _, eq_refl) in_order as_is 4 0 None 0%nat interrupted
    (λ l, Permutation_refl l) (λ l, Permutation_refl l) _ _ _ _).
  - apply (operation_keeps digest flaky undisturbed 200 (λ _ _ Hs, Hs) (DoPut NoBridge k "image" photo 4) 0%nat before I before_inv).
  - apply Nat.leb_le. vm_compute. reflexivity.
  - apply Nat.leb_le. vm_compute. reflexivity.
  - intros h [Hd|Hu].
    + exfalso. assert (He : catalog interrupted = ∅) by (vm_compute; reflexivity). rewrite He in Hd. by apply lookup_empty_is_Some in Hd.
    + assert (He : uploads interrupted = {[ digest photo := {| u_bytes := 4; u_kind := "image"; u_started := 200 |} ]}) by (vm_compute; reflexivity).
      rewrite He in Hu. destruct Hu as [u Hu]. apply lookup_singleton_Some in Hu as [<- _]. reflexivity.
Defined.

End Sample.
