(* ===== verification/S3Spools.v ===== *)
(** * The pool of verified spools ([media_s3_spools.go])

    Files of the bucket are verified on disk before they are served, and kept a while
    for further ranges.  Downloads and finished files are charged to one budget; an
    entry is known by its pointer, so the table can name another entry under the
    key of one that is still read. *)
From S2P Require Import Prelude.
#[local] Open Scope Z_scope.

(** [s3VerifiedSpool]; a reader is a number. *)
Record entry := { e_key : string; e_size : Z; e_ready : bool; e_transient : bool; e_readers : gset nat; e_idle : Z }.

(** [s3VerifiedSpools]: the table, the entries by pointer, the entry of each open reader,
    and the counters. *)
Record pool := {
  table : gmap string nat; heap : gmap nat entry; open_readers : gmap nat nat; p_bytes : Z; p_readers : Z; p_closed : bool;
}.

Definition maxBytes : Z := 512 * 1024 * 1024.
Definition maxReaders : Z := 4.
Definition maxEntries : nat := 4.
Definition idleTTL : Z := 120 * 10 ^ 9.

Definition newS3VerifiedSpools : pool := {| table := ∅; heap := ∅; open_readers := ∅; p_bytes := 0; p_readers := 0; p_closed := false |}.

Inductive spool_error : Type := ErrClosed | ErrSpoolLimit | ErrSpoolFull | ErrSpoolS3.

Definition with_readers (r : gset nat) (e : entry) : entry :=
  {| e_key := e_key e; e_size := e_size e; e_ready := e_ready e; e_transient := e_transient e; e_readers := r; e_idle := e_idle e |}.
Definition with_ready (b : bool) (e : entry) : entry :=
  {| e_key := e_key e; e_size := e_size e; e_ready := b; e_transient := e_transient e; e_readers := e_readers e; e_idle := e_idle e |}.
Definition with_transient (b : bool) (e : entry) : entry :=
  {| e_key := e_key e; e_size := e_size e; e_ready := e_ready e; e_transient := b; e_readers := e_readers e; e_idle := e_idle e |}.
Definition with_idle (t : Z) (e : entry) : entry :=
  {| e_key := e_key e; e_size := e_size e; e_ready := e_ready e; e_transient := e_transient e; e_readers := e_readers e; e_idle := t |}.
Definition with_size (n : Z) (e : entry) : entry :=
  {| e_key := e_key e; e_size := n; e_ready := e_ready e; e_transient := e_transient e; e_readers := e_readers e; e_idle := e_idle e |}.

Definition set_entry (p : nat) (f : entry → entry) (c : pool) : pool :=
  {| table := table c; heap := alter f p (heap c); open_readers := open_readers c; p_bytes := p_bytes c; p_readers := p_readers c; p_closed := p_closed c |}.

(** [removeLocked]: whether the files could be removed is an argument. *)
Definition removeLocked (ok : bool) (p : nat) (c : pool) : pool * bool :=
  match heap c !! p with
  | None => (c, true)
  | Some e =>
      if ok then ({| table := delete (e_key e) (table c); heap := heap c; open_readers := open_readers c; p_bytes := p_bytes c - e_size e;
                     p_readers := p_readers c; p_closed := p_closed c |}, true)
      else (c, false)
  end.

(** The entry that has been idle longest. *)
Definition idle_entries (c : pool) : list (nat * entry) :=
  omap (λ kp, match heap c !! kp.2 with
              | Some e => if bool_decide (e_readers e = ∅) then Some (kp.2, e) else None
              | None => None
              end) (map_to_list (table c)).

Definition oldest (c : pool) : option nat :=
  fst <$> foldl (λ best pe, match best with
                            | None => Some pe
                            | Some b => if e_idle pe.2 <? e_idle b.2 then Some pe else best
                            end) None (idle_entries c).

(** Making room: the size that is reserved, or why there is none.  Every round drops an
    entry of the table, so one more than its size is fuel enough. *)
Fixpoint make_room (fuel : nat) (ok : nat → bool) (flexible : bool) (size_ : Z) (c : pool) : pool * result spool_error Z :=
  if negb (Nat.leb maxEntries (size (table c)) || (maxBytes - p_bytes c <? size_)) then (c, Ok size_)
  else match fuel with
  | O => (c, Err ErrSpoolFull)
  | S fuel =>
      match oldest c with
      | None =>
          if flexible && negb (Nat.leb maxEntries (size (table c))) && (26 <? maxBytes - p_bytes c) then (c, Ok (maxBytes - p_bytes c)) else (c, Err ErrSpoolFull)
      | Some p => let '(c, done) := removeLocked (ok fuel) p c in if done then make_room fuel ok flexible size_ c else (c, Err ErrSpoolS3)
      end
  end.

(** A reader of an entry. *)
Definition add_reader (r p : nat) (c : pool) : pool :=
  {| table := table c; heap := alter (λ e, with_readers ({[r]} ∪ e_readers e) e) p (heap c); open_readers := <[r := p]> (open_readers c);
     p_bytes := p_bytes c; p_readers := p_readers c + 1; p_closed := p_closed c |}.

Definition add_entry (key : string) (p : nat) (e : entry) (c : pool) : pool :=
  {| table := <[key := p]> (table c); heap := <[p := e]> (heap c); open_readers := open_readers c; p_bytes := p_bytes c + e_size e; p_readers := p_readers c; p_closed := p_closed c |}.

(** What the file system answers: the removals, the creation, the opening. *)
Record spool_fs := { removes : nat → bool; creates : bool; opens : bool; drops : bool }.

(** [acquireKey]; [fresh_entry] and [fresh_reader] are the pointers that are
    allocated.  No reader and no error means nothing to serve. *)
Definition acquireKey (w : spool_fs) (key : string) (size_ : Z) (flexible onlyExisting : bool) (fresh_entry fresh_reader : nat) (c : pool) :
    pool * result spool_error (option (nat * bool)) :=
  if p_closed c then (c, Err ErrClosed)
  else if negb flexible && (maxBytes <? size_) then (c, Err ErrSpoolLimit)
  else if (size_ <? 0) || (maxReaders <=? p_readers c) then (c, Err ErrSpoolFull)
  else
    let found := p ← table c !! key; e ← heap c !! p; Some (p, e) in
    let transient := match found with Some (_, e) => e_transient e | None => false end in
    if negb transient && onlyExisting then (c, Ok None)
    else
      let size_ := if flexible then Z.min size_ maxBytes else size_ in
      match found with
      | None =>
          if flexible && (size_ <=? 26) then (c, Err ErrSpoolFull)
          else match make_room (S (size (table c))) (removes w) flexible size_ c with
          | (c, Err e) => (c, Err e)
          | (c, Ok size_) =>
              if negb (creates w) then (c, Err ErrSpoolS3)
              else
                let e := {| e_key := key; e_size := size_; e_ready := false; e_transient := flexible; e_readers := ∅; e_idle := 0 |} in
                (add_reader fresh_reader fresh_entry (add_entry key fresh_entry e c), Ok (Some (fresh_reader, false)))
          end
      | Some (p, e) =>
          if negb (e_ready e) || (negb flexible && negb (e_size e =? size_)) then (c, Err ErrSpoolFull)
          else
            let c := set_entry p (with_transient flexible) c in
            if negb (opens w) then ((removeLocked (drops w) p (set_entry p (with_ready false) c)).1, Err ErrSpoolS3)
            else (add_reader fresh_reader p c, Ok (Some (fresh_reader, true)))
      end.

(** [verified]. *)
Definition verified (r : nat) (c : pool) : pool * result spool_error unit :=
  match open_readers c !! r with
  | None => (c, Err ErrClosed)
  | Some p => if p_closed c then (c, Err ErrClosed) else (set_entry p (with_ready true) c, Ok tt)
  end.

(** [discard]. *)
Definition discard (ok : bool) (key : string) (c : pool) : pool :=
  match table c !! key with
  | None => c
  | Some p =>
      let c := set_entry p (with_ready false) c in
      match heap c !! p with
      | Some e => if bool_decide (e_readers e = ∅) then (removeLocked ok p c).1 else c
      | None => c
      end
  end.

(** Some readers of an entry end. *)
Definition drop_readers (p : nat) (gone : gset nat) (c : pool) : pool :=
  {| table := table c; heap := alter (λ e, with_readers (e_readers e ∖ gone) e) p (heap c); open_readers := filter (λ rp, ~ (rp.2 = p ∧ rp.1 ∈ gone)) (open_readers c);
     p_bytes := p_bytes c; p_readers := p_readers c - Z.of_nat (size gone); p_closed := p_closed c |}.

(** [Close] of a reader. *)
Definition close_reader (ok : bool) (now : Z) (r : nat) (c : pool) : pool :=
  match open_readers c !! r with
  | None => c
  | Some p =>
      let c := drop_readers p {[r]} c in
      match heap c !! p with
      | Some e =>
          if negb (bool_decide (e_readers e = ∅)) then c
          else if negb (e_ready e) || p_closed c then (removeLocked ok p c).1
          else set_entry p (with_idle now) c
      | None => c
      end
  end.

(** The idle timer of an entry. *)
Definition expire (ok : bool) (now : Z) (p : nat) (c : pool) : pool :=
  match heap c !! p with
  | Some e => if bool_decide (table c !! e_key e = Some p) && bool_decide (e_readers e = ∅) && (idleTTL <=? now - e_idle e) then (removeLocked ok p c).1 else c
  | None => c
  end.

(** The end of [transient]: the file turned out smaller than was reserved. *)
Definition shrink (r : nat) (n : Z) (c : pool) : pool :=
  match open_readers c !! r with
  | None => c
  | Some p =>
      match heap c !! p with
      | Some e =>
          if p_closed c || (e_size e - 26 <? n) then c
          else set_entry p (λ e, with_ready true (with_size n e))
                 {| table := table c; heap := heap c; open_readers := open_readers c; p_bytes := p_bytes c - (e_size e - n); p_readers := p_readers c; p_closed := p_closed c |}
      | None => c
      end
  end.

(** [Close] of the pool. *)
Definition close_pool (ok : nat → bool) (c : pool) : pool :=
  let c := {| table := table c; heap := heap c; open_readers := open_readers c; p_bytes := p_bytes c; p_readers := p_readers c; p_closed := true |} in
  foldl (λ c kp,
    match heap c !! kp.2 with
    | Some e => (removeLocked (ok kp.2) kp.2 (drop_readers kp.2 (e_readers e) c)).1
    | None => c
    end) c (map_to_list (table c)).

(** ** The accounts of the pool *)

Definition map_sum (m : gmap string Z) : Z := map_fold (λ _ n acc, n + acc) 0 m.

Lemma map_sum_insert k x m : m !! k = None → map_sum (<[k := x]> m) = x + map_sum m.
Proof. intros Hk. unfold map_sum. apply map_fold_insert_L; [|done]. intros. lia. Qed.

Lemma map_sum_delete k x m : m !! k = Some x → map_sum m = x + map_sum (delete k m).
Proof. intros Hk. rewrite <- (insert_delete_id m k x) at 1 by done. apply map_sum_insert, lookup_delete_eq. Qed.

Definition size_at (c : pool) (p : nat) : Z := match heap c !! p with Some e => e_size e | None => 0 end.

(** What is on disk: the sizes of the listed entries. *)
Definition on_disk (c : pool) : Z := map_sum (size_at c <$> table c).

Record pool_ok (c : pool) : Prop := {
  ok_listed : ∀ k p, table c !! k = Some p → ∃ e, heap c !! p = Some e ∧ e_key e = k;
  ok_read : ∀ p e, heap c !! p = Some e → e_readers e ≠ ∅ → table c !! e_key e = Some p;
  ok_open : ∀ r p, open_readers c !! r = Some p ↔ ∃ e, heap c !! p = Some e ∧ r ∈ e_readers e;
  ok_sizes : ∀ p e, heap c !! p = Some e → 0 ≤ e_size e;
  ok_bytes : p_bytes c = on_disk c;
  ok_readers : p_readers c = Z.of_nat (size (open_readers c));
  ok_budget : p_bytes c ≤ maxBytes;
  ok_entries : (size (table c) ≤ maxEntries)%nat;
  ok_few : p_readers c ≤ maxReaders;
}.

Lemma sizes_same c c' : table c' = table c → (∀ k p, table c !! k = Some p → size_at c' p = size_at c p) → on_disk c' = on_disk c.
Proof. intros Ht Hs. unfold on_disk. rewrite Ht. f_equal. apply map_fmap_ext. intros k p Hp. by apply Hs with k. Qed.

(** A change of an entry that leaves its key, its size and its readers. *)
Lemma ok_set_entry p f c :
  (∀ e, e_key (f e) = e_key e ∧ e_size (f e) = e_size e ∧ e_readers (f e) = e_readers e) → pool_ok c → pool_ok (set_entry p f c).
Proof.
  intros Hf [Hl Hr Ho Hs Hb Hn Hm He Hw].
  assert (Ha : ∀ q e, heap (set_entry p f c) !! q = Some e → ∃ e0, heap c !! q = Some e0 ∧ e_key e = e_key e0 ∧ e_size e = e_size e0 ∧ e_readers e = e_readers e0).
  { intros q e. cbn. destruct (decide (p = q)) as [<-|]; [rewrite lookup_alter_eq|rewrite lookup_alter_ne by done; eauto]. intros (e0 & H0 & ->)%fmap_Some.
    exists e0. by destruct (Hf e0) as (?&?&?). }
  assert (Hb' : ∀ q e0, heap c !! q = Some e0 → ∃ e, heap (set_entry p f c) !! q = Some e ∧ e_key e = e_key e0 ∧ e_size e = e_size e0 ∧ e_readers e = e_readers e0).
  { intros q e0 H0. cbn. destruct (decide (p = q)) as [<-|]; [rewrite lookup_alter_eq, H0; exists (f e0); split; [done|apply Hf]|rewrite lookup_alter_ne by done; eauto]. }
  split; try done.
  - intros k q Hk. destruct (Hl k q Hk) as (e0 & H0 & <-). destruct (Hb' q e0 H0) as (e & ? & ? & _). eauto.
  - intros q e Hq Hne. destruct (Ha q e Hq) as (e0 & H0 & -> & _ & Hrd). rewrite Hrd in Hne. by apply Hr.
  - intros r q. cbn [open_readers set_entry]. rewrite Ho. split.
    + intros (e0 & H0 & Hin). destruct (Hb' q e0 H0) as (e & ? & _ & _ & Hrd). exists e. by rewrite Hrd.
    + intros (e & Hq & Hin). destruct (Ha q e Hq) as (e0 & ? & _ & _ & Hrd). exists e0. by rewrite <- Hrd.
  - intros q e Hq. destruct (Ha q e Hq) as (e0 & H0 & _ & -> & _). eauto.
  - cbn [p_bytes set_entry]. rewrite Hb. symmetry. apply sizes_same; [done|]. intros k q Hk. destruct (Hl k q Hk) as (e0 & H0 & _). unfold size_at.
    destruct (Hb' q e0 H0) as (e & -> & _ & -> & _). by rewrite H0.
Qed.

Lemma removed_table p c e : heap c !! p = Some e → table (removeLocked true p c).1 = delete (e_key e) (table c).
Proof. intros He. unfold removeLocked. by rewrite He. Qed.

(** A listed entry with no reader may go. *)
Lemma ok_remove ok p c e : pool_ok c → heap c !! p = Some e → e_readers e = ∅ → table c !! e_key e = Some p → pool_ok (removeLocked ok p c).1.
Proof.
  intros [Hl Hr Ho Hs Hb Hn Hm Hk Hw] He Hnone Ht. unfold removeLocked. rewrite He. destruct ok; [|by split].
  assert (Hsum : on_disk c = e_size e + map_sum (size_at c <$> delete (e_key e) (table c))).
  { unfold on_disk. rewrite (map_sum_delete (e_key e) (e_size e)); [by rewrite fmap_delete|]. rewrite lookup_fmap, Ht. cbn. unfold size_at. by rewrite He. }
  split; cbn; try done.
  - intros k q [_ Hq]%lookup_delete_Some. eauto.
  - intros q e' Hq Hne. rewrite lookup_delete_ne; [by apply Hr|]. intros Heq. pose proof (Hr q e' Hq Hne) as Hq'. rewrite <- Heq, Ht in Hq'. injection Hq' as ->. congruence.
  - rewrite Hb, Hsum. unfold on_disk. cbn. by rewrite Z.add_simpl_l.
  - pose proof (Hs p e He). lia.
  - rewrite map_size_delete_Some by (by eexists). lia.
Qed.

(** The oldest idle entry is listed and idle. *)
Lemma oldest_idle c p : pool_ok c → oldest c = Some p → ∃ e, heap c !! p = Some e ∧ e_readers e = ∅ ∧ table c !! e_key e = Some p.
Proof.
  intros Hok. unfold oldest. intros (pe & Hf & ->)%fmap_Some.
  assert (Hin : pe ∈ idle_entries c).
  { assert (Hgen : ∀ l best, foldl (λ best pe, match best with None => Some pe | Some b => if e_idle pe.2 <? e_idle b.2 then Some pe else best end) best l = Some pe →
      best = Some pe ∨ pe ∈ l).
    { intros l. induction l as [|x l IH]; intros best; cbn; [by left|]. intros [Hb|Hl]%IH; [|right; by right].
      destruct best as [b|]; [destruct (_ <? _)|]; [|by left|]; injection Hb as <-; right; left. }
    destruct (Hgen _ _ Hf) as [?|Hx]; [done|]. exact Hx. }
  unfold idle_entries in Hin. apply list_elem_of_omap in Hin as ([k q] & Hk%elem_of_map_to_list & Hx). cbn in Hx.
  destruct (heap c !! q) as [e|] eqn:Hq; [|done]. case_bool_decide as Hnone; [|done]. injection Hx as <-. cbn [fst].
  exists e. split_and!; [done|done|]. destruct (ok_listed _ Hok _ _ Hk) as (e' & He' & <-). rewrite Hq in He'. by injection He' as ->.
Qed.

Lemma make_room_ok fuel ok flexible n c c' r : pool_ok c → 0 ≤ n → make_room fuel ok flexible n c = (c', r) →
  pool_ok c' ∧ match r with Ok m => (size (table c') < maxEntries)%nat ∧ 0 ≤ m ∧ p_bytes c' + m ≤ maxBytes | Err _ => True end ∧
  open_readers c' = open_readers c ∧ heap c' = heap c ∧ p_readers c' = p_readers c ∧ table c' ⊆ table c.
Proof.
  revert c. induction fuel as [|fuel IH]; intros c Hok Hn; cbn [make_room].
  all: destruct (Nat.leb_spec maxEntries (size (table c))) as [Hfull|Hfew]; cbn [negb orb];
    [|destruct (Z.ltb_spec (maxBytes - p_bytes c) n) as [Hbig|Hfit]; cbn [negb]; [|intros [= <- <-]; split_and!; try done; lia]].
  1,2: intros [= <- <-]; by split_and!.
  - destruct (oldest c) as [p|] eqn:Ho; [|rewrite andb_false_r; intros [= <- <-]; by split_and!].
    destruct (oldest_idle c p Hok Ho) as (e & He & Hnone & Ht). pose proof (ok_remove (ok fuel) p c e Hok He Hnone Ht) as Hok'.
    unfold removeLocked in *. rewrite He in *. destruct (ok fuel); [|intros [= <- <-]; by split_and!]. cbn [fst] in Hok'. intros Hm. apply IH in Hm; [|done..].
    destruct Hm as (? & ? & ? & ? & ? & Hsub). split_and!; try done. etrans; [exact Hsub|]. apply delete_subseteq.
  - destruct (oldest c) as [p|] eqn:Ho.
    + destruct (oldest_idle c p Hok Ho) as (e & He & Hnone & Ht). pose proof (ok_remove (ok fuel) p c e Hok He Hnone Ht) as Hok'.
      unfold removeLocked in *. rewrite He in *. destruct (ok fuel); [|intros [= <- <-]; by split_and!]. cbn [fst] in Hok'. intros Hm. apply IH in Hm; [|done..].
      destruct Hm as (? & ? & ? & ? & ? & Hsub). split_and!; try done. etrans; [exact Hsub|]. apply delete_subseteq.
    + destruct (flexible && true && _) eqn:Hflex; [|intros [= <- <-]; by split_and!].
      apply andb_true_iff in Hflex as [_ Hr%Z.ltb_lt]. intros [= <- <-]. split_and!; try done; lia.
Qed.

Lemma ok_add_entry key p e c :
  pool_ok c → heap c !! p = None → table c !! key = None → e_key e = key → e_readers e = ∅ → 0 ≤ e_size e → p_bytes c + e_size e ≤ maxBytes →
  (size (table c) < maxEntries)%nat → pool_ok (add_entry key p e c).
Proof.
  intros [Hl Hr Ho Hs Hb Hn Hm Hk Hw] Hp Ht Hkey Hnone Hsz Hfit Hfew.
  assert (Hold : ∀ k q, table c !! k = Some q → q ≠ p) by (intros k q Hq ->; destruct (Hl _ _ Hq) as (? & ? & _); congruence).
  split; cbn; try done; try lia.
  - intros k q [[<- <-]|[Hne Hq]]%lookup_insert_Some; [rewrite lookup_insert_eq; eauto|]. rewrite lookup_insert_ne; [by apply Hl|]. symmetry. by eapply Hold.
  - intros q e' [[<- <-]|[Hne Hq]]%lookup_insert_Some Hrd; [done|]. pose proof (Hr q e' Hq Hrd) as Hq'. rewrite lookup_insert_ne; [done|]. congruence.
  - intros r q. rewrite Ho. split.
    + intros (e' & Hq & Hin). exists e'. rewrite lookup_insert_ne by congruence. done.
    + intros (e' & [[<- <-]|[Hne Hq]]%lookup_insert_Some & Hin); [rewrite Hnone in Hin; set_solver|eauto].
  - intros q e' [[<- <-]|[Hne Hq]]%lookup_insert_Some; eauto.
  - rewrite Hb. unfold on_disk. cbn. rewrite fmap_insert. unfold size_at at 2. cbn. rewrite lookup_insert_eq, map_sum_insert by (by rewrite lookup_fmap, Ht).
    rewrite Z.add_comm. f_equal. f_equal. apply map_fmap_ext. intros k q Hq. unfold size_at. cbn. by rewrite lookup_insert_ne by (symmetry; by eapply Hold).
  - rewrite map_size_insert_None by done. lia.
Qed.

Lemma ok_add_reader r p c e :
  pool_ok c → heap c !! p = Some e → table c !! e_key e = Some p → open_readers c !! r = None → p_readers c < maxReaders → pool_ok (add_reader r p c).
Proof.
  intros [Hl Hr Ho Hs Hb Hn Hm Hk Hw] He Ht Hfresh Hroom. split; cbn; try done; try lia.
  - intros k q Hq. destruct (Hl k q Hq) as (e' & He' & <-). destruct (decide (p = q)) as [<-|]; [rewrite lookup_alter_eq, He'; by eexists|rewrite lookup_alter_ne by done; eauto].
  - intros q e'. destruct (decide (p = q)) as [<-|]; [|rewrite lookup_alter_ne by done; auto]. rewrite lookup_alter_eq, He. by intros [= <-] _.
  - intros r' q. rewrite lookup_insert_Some. destruct (decide (p = q)) as [<-|Hne].
    + rewrite lookup_alter_eq, He. cbn. split.
      * intros [[-> _]|[_ Hq]]; [eexists; split; [done|]; cbn; set_solver|]. apply Ho in Hq as (e' & He' & Hin). rewrite He in He'. injection He' as <-.
        eexists. split; [done|]. cbn. set_solver.
      * intros (e' & [= <-] & Hin). cbn in Hin. apply elem_of_union in Hin as [->%elem_of_singleton|Hin]; [by left|].
        destruct (decide (r = r')); [by left; subst|right]. split; [done|]. apply Ho. eauto.
    + rewrite lookup_alter_ne by done. rewrite Ho. split; [intros [[-> ->]|[_ ?]]; [done|done]|]. intros (e' & He' & Hin). right. split; [|eauto].
      intros ->. assert (open_readers c !! r' = Some q) by (apply Ho; eauto). congruence.
  - intros q e'. destruct (decide (p = q)) as [<-|]; [rewrite lookup_alter_eq, He; intros [= <-]; cbn; eauto|rewrite lookup_alter_ne by done; eauto].
  - rewrite Hb. symmetry. apply sizes_same; [done|]. intros k q _. unfold size_at. cbn.
    destruct (decide (p = q)) as [<-|]; [by rewrite lookup_alter_eq, He|by rewrite lookup_alter_ne].
  - rewrite map_size_insert_None by done. lia.
Qed.

Lemma dropped_size (p : nat) (gone : gset nat) (m : gmap nat nat) : (∀ r, r ∈ gone → m !! r = Some p) →
  Z.of_nat (size (filter (λ rp, ~ (rp.2 = p ∧ rp.1 ∈ gone)) m)) = Z.of_nat (size m) - Z.of_nat (size gone).
Proof.
  intros Hall. assert (Hd : dom (filter (λ rp, ~ (rp.2 = p ∧ rp.1 ∈ gone)) m) = dom m ∖ gone).
  { apply set_eq. intros r. rewrite elem_of_difference, !elem_of_dom. split.
    - intros [q [Hq Hn]%map_lookup_filter_Some]. split; [by exists q|]. cbn in Hn. intros Hin. apply Hn. rewrite (Hall r Hin) in Hq. by injection Hq as <-.
    - intros [[q Hq] Hn]. exists q. apply map_lookup_filter_Some. split; [done|]. cbn. tauto. }
  rewrite <- !(size_dom (D := gset nat)), Hd. assert (Hsub : gone ⊆ dom m) by (intros r Hr; apply elem_of_dom; eexists; by apply Hall).
  rewrite size_difference by done. pose proof (subseteq_size _ _ Hsub). lia.
Qed.

Lemma ok_drop_readers p gone c e : pool_ok c → heap c !! p = Some e → gone ⊆ e_readers e → pool_ok (drop_readers p gone c).
Proof.
  intros [Hl Hr Ho Hs Hb Hn Hm Hk Hw] He Hg.
  assert (Hcount := dropped_size p gone (open_readers c) ltac:(intros r Hin; apply Ho; exists e; set_solver)).
  split; cbn; try done.
  - intros k q Hq. destruct (Hl k q Hq) as (e' & He' & <-). destruct (decide (p = q)) as [<-|]; [rewrite lookup_alter_eq, He'; by eexists|rewrite lookup_alter_ne by done; eauto].
  - intros q e'. destruct (decide (p = q)) as [<-|]; [|rewrite lookup_alter_ne by done; auto]. rewrite lookup_alter_eq, He. intros [= <-]. cbn. intros Hne. apply Hr; [done|]. set_solver.
  - intros r q. rewrite map_lookup_filter_Some, Ho. cbn. destruct (decide (p = q)) as [<-|Hne].
    + rewrite lookup_alter_eq, He. cbn. split.
      * intros [(e' & [= <-] & Hin) Hnot]. eexists. split; [done|]. cbn. set_solver.
      * intros (e' & [= <-] & Hin). cbn in Hin. split; [exists e; set_solver|]. set_solver.
    + rewrite lookup_alter_ne by done. split; [by intros [? _]|]. intros ?. split; [done|]. naive_solver.
  - intros q e'. destruct (decide (p = q)) as [<-|]; [rewrite lookup_alter_eq, He; intros [= <-]; cbn; eauto|rewrite lookup_alter_ne by done; eauto].
  - rewrite Hb. symmetry. apply sizes_same; [done|]. intros k q _. unfold size_at. cbn.
    destruct (decide (p = q)) as [<-|]; [by rewrite lookup_alter_eq, He|by rewrite lookup_alter_ne].
  - rewrite Hcount. lia.
  - lia.
Qed.

(** ** Steps *)

(** Opening the file of an entry that others read may not fail; see [double_release]. *)
Definition opens_safely (w : spool_fs) (key : string) (c : pool) : Prop :=
  opens w = false → ∀ p e, table c !! key = Some p → heap c !! p = Some e → e_readers e = ∅.

Inductive step : pool → pool → Prop :=
| step_acquire w key n flexible only p r c :
    heap c !! p = None → open_readers c !! r = None → opens_safely w key c → step c (acquireKey w key n flexible only p r c).1
| step_verified r c : step c (verified r c).1
| step_discard ok key c : step c (discard ok key c)
| step_close ok now r c : step c (close_reader ok now r c)
| step_expire ok now p c : step c (expire ok now p c)
| step_shrink r n c : 0 ≤ n → step c (shrink r n c)
| step_close_pool ok c : step c (close_pool ok c).

Lemma spool_acquire_ok w key n flexible only p r c :
  pool_ok c → heap c !! p = None → open_readers c !! r = None → opens_safely w key c → pool_ok (acquireKey w key n flexible only p r c).1.
Proof.
  intros Hok Hp Hr Hsafe. unfold acquireKey. destruct (p_closed c); [done|]. destruct (negb flexible && _) eqn:Hlim; [done|].
  destruct (Z.ltb_spec n 0); cbn [orb]; [done|]. destruct (Z.leb_spec maxReaders (p_readers c)); [done|].
  destruct (table c !! key) as [q|] eqn:Ht; cbn [mbind option_bind].
  - destruct (ok_listed _ Hok _ _ Ht) as (e & He & Hkey). rewrite He. cbn [mbind option_bind]. destruct (negb (e_transient e) && only); [done|].
    destruct (negb (e_ready e) || _); [done|]. destruct (opens w) eqn:Hop; cbn [negb fst].
    + assert (Hc : pool_ok (set_entry q (with_transient flexible) c)) by (by apply ok_set_entry).
      eapply (ok_add_reader r q _ (with_transient flexible e)); [done|cbn; by rewrite lookup_alter_eq, He|cbn; by rewrite Hkey|done|done].
    + assert (Hc : pool_ok (set_entry q (with_ready false) (set_entry q (with_transient flexible) c))) by (by apply ok_set_entry; [|apply ok_set_entry]).
      eapply (ok_remove _ q _ (with_ready false (with_transient flexible e))); [done|cbn; by rewrite !lookup_alter_eq, He|cbn; by eapply Hsafe|cbn; by rewrite Hkey].
  - destruct (negb false && only); [done|]. set (n' := if flexible then Z.min n maxBytes else n).
    assert (0 ≤ n') by (subst n'; unfold maxBytes in *; destruct flexible; lia). clearbody n'. destruct (flexible && _); [done|].
    destruct (make_room _ _ _ _ c) as [c' [m|e]] eqn:Hm.
    + apply make_room_ok in Hm as (Hok' & (Hfew & Hm0 & Hfit) & Hro & Hh & Hrd & Hsub); [|done..]. destruct (creates w); cbn [negb fst]; [|done].
      set (e := {| e_key := key; e_size := m; e_ready := false; e_transient := flexible; e_readers := ∅; e_idle := 0 |}).
      assert (Hkey : table c' !! key = None) by (by eapply lookup_weaken_None).
      eapply (ok_add_reader r p _ e); [|cbn; apply lookup_insert_eq|cbn; apply lookup_insert_eq|cbn; by rewrite Hro|cbn; lia].
      apply ok_add_entry; try done. by rewrite Hh.
    + cbn [fst]. by apply make_room_ok in Hm as (Hok' & _).
Qed.

Lemma ok_closed c : pool_ok c → pool_ok {| table := table c; heap := heap c; open_readers := open_readers c; p_bytes := p_bytes c; p_readers := p_readers c; p_closed := true |}.
Proof. by intros []. Qed.

Lemma verified_ok r c : pool_ok c → pool_ok (verified r c).1.
Proof. intros Hok. unfold verified. destruct (open_readers c !! r); [|done]. destruct (p_closed c); [done|]. by apply ok_set_entry. Qed.

Lemma discard_ok ok key c : pool_ok c → pool_ok (discard ok key c).
Proof.
  intros Hok. unfold discard. destruct (table c !! key) as [p|] eqn:Ht; [|done]. assert (Hc : pool_ok (set_entry p (with_ready false) c)) by (by apply ok_set_entry).
  destruct (ok_listed _ Hok _ _ Ht) as (e & He & Hkey). cbn [heap set_entry]. rewrite lookup_alter_eq, He. cbn [fmap option_fmap option_map].
  case_bool_decide as Hn; [|done]. eapply ok_remove; [done|cbn; by rewrite lookup_alter_eq, He|done|cbn; by rewrite Hkey].
Qed.

Lemma close_reader_ok ok now r c : pool_ok c → pool_ok (close_reader ok now r c).
Proof.
  intros Hok. unfold close_reader. destruct (open_readers c !! r) as [p|] eqn:Hr; [|done].
  apply (ok_open _ Hok) in Hr as (e & He & Hin). assert (Hc : pool_ok (drop_readers p {[r]} c)) by (eapply ok_drop_readers; [done|done|set_solver]).
  assert (Ht : table c !! e_key e = Some p) by (eapply ok_read; [done|done|set_solver]).
  destruct (heap (drop_readers p {[r]} c) !! p) as [e'|] eqn:He'; [|done].
  assert (Hkey : e_key e' = e_key e) by (cbn in He'; rewrite lookup_alter_eq, He in He'; by injection He' as <-).
  case_bool_decide as Hn; cbn [negb]; [|done]. destruct (negb (e_ready e') || _); [|by apply ok_set_entry].
  eapply ok_remove; [done|done|done|]. cbn. by rewrite Hkey.
Qed.

Lemma expire_ok ok now p c : pool_ok c → pool_ok (expire ok now p c).
Proof.
  intros Hok. unfold expire. destruct (heap c !! p) as [e|] eqn:He; [|done]. do 2 (case_bool_decide; cbn [andb]; [|done]).
  destruct (_ <=? _); [|done]. by eapply ok_remove.
Qed.

Lemma spool_shrink_ok r n c : 0 ≤ n → pool_ok c → pool_ok (shrink r n c).
Proof.
  intros Hn Hok. unfold shrink. destruct (open_readers c !! r) as [p|] eqn:Hr; [|done]. apply (ok_open _ Hok) in Hr as (e & He & Hin). rewrite He.
  destruct (p_closed c || _) eqn:Hg; [done|]. apply orb_false_iff in Hg as [_ Hsz%Z.ltb_ge].
  assert (Ht : table c !! e_key e = Some p) by (eapply ok_read; [done|done|set_solver]).
  destruct Hok as [Hl Hrd Ho Hs Hb Hcnt Hm Hk Hw].
  assert (Hinj : ∀ k q, table c !! k = Some q → k ≠ e_key e → q ≠ p) by (intros k q Hq Hne ->; destruct (Hl _ _ Hq) as (? & He2 & <-); congruence).
  set (f := λ e, with_ready true (with_size n e)). set (c0 := {| table := _; heap := _; open_readers := _; p_bytes := p_bytes c - _; p_readers := _; p_closed := _ |}).
  assert (Hp : heap (set_entry p f c0) !! p = Some (f e)) by (cbn; by rewrite lookup_alter_eq, He).
  assert (Hq : ∀ q, q ≠ p → heap (set_entry p f c0) !! q = heap c !! q) by (intros q Hne; cbn; by rewrite lookup_alter_ne).
  split; try done.
  - intros k q Hkq. destruct (Hl k q Hkq) as (e' & He' & <-). destruct (decide (q = p)) as [->|]; [rewrite Hp; rewrite He in He'; injection He' as <-; by eexists|].
    rewrite Hq by done. eauto.
  - intros q e'. destruct (decide (q = p)) as [->|]; [rewrite Hp; by intros [= <-]|rewrite Hq by done; apply Hrd].
  - intros r' q. cbn [open_readers set_entry c0]. rewrite Ho. destruct (decide (q = p)) as [->|]; [|by rewrite Hq]. rewrite Hp, He. split.
    + intros (e' & [= <-] & Hi). by exists (f e).
    + intros (e' & [= <-] & Hi). by exists e.
  - intros q e'. destruct (decide (q = p)) as [->|]; [rewrite Hp; by intros [= <-]|rewrite Hq by done; apply Hs].
  - cbn [p_bytes set_entry c0]. rewrite Hb. unfold on_disk. cbn [table set_entry c0].
    rewrite (map_sum_delete (e_key e) (e_size e) (size_at c <$> table c)) by (rewrite lookup_fmap, Ht; cbn; unfold size_at; by rewrite He).
    rewrite (map_sum_delete (e_key e) n (size_at _ <$> table c)) by (rewrite lookup_fmap, Ht; cbn [fmap option_fmap option_map]; unfold size_at; by rewrite Hp).
    rewrite <- !fmap_delete. replace (size_at (set_entry p f c0) <$> delete (e_key e) (table c)) with (size_at c <$> delete (e_key e) (table c)); [lia|].
    apply map_fmap_ext. intros k q [Hne Hkq]%lookup_delete_Some. unfold size_at. by rewrite Hq by (by eapply Hinj).
  - cbn [p_bytes set_entry c0]. pose proof (Hs _ _ He). lia.
Qed.

Lemma close_entry_ok ok p c e : pool_ok c → heap c !! p = Some e → table c !! e_key e = Some p → pool_ok (removeLocked ok p (drop_readers p (e_readers e) c)).1.
Proof.
  intros Hok He Ht. eapply (ok_remove ok p _ (with_readers (e_readers e ∖ e_readers e) e)); [by eapply ok_drop_readers|cbn; by rewrite lookup_alter_eq, He|cbn; set_solver|done].
Qed.

Lemma close_pool_ok ok c : pool_ok c → pool_ok (close_pool ok c).
Proof.
  intros Hok. unfold close_pool. set (c0 := {| table := table c; heap := heap c; open_readers := open_readers c; p_bytes := _; p_readers := _; p_closed := true |}).
  assert (Hok0 : pool_ok c0) by (by apply ok_closed). assert (Hall : ∀ k p, (k, p) ∈ map_to_list (table c) → table c0 !! k = Some p) by (intros k p; by rewrite elem_of_map_to_list).
  change (map_to_list (table c0)) with (map_to_list (table c)).
  pose proof (NoDup_fst_map_to_list (table c)) as Hnd. clearbody c0. revert c0 Hok0 Hall.
  induction (map_to_list (table c)) as [|[k p] l IH]; intros c0 Hok0 Hall; [done|]. cbn [foldl snd]. cbn in Hnd. apply NoDup_cons in Hnd as [Hk Hnd].
  assert (Ht : table c0 !! k = Some p) by (apply Hall; by left). destruct (ok_listed _ Hok0 _ _ Ht) as (e & He & <-). rewrite He. apply IH; [done|by apply close_entry_ok|].
  intros k' p' Hin. assert (Hne : k' ≠ e_key e) by (intros ->; apply Hk, list_elem_of_fmap; by exists (e_key e, p')).
  unfold removeLocked. cbn [heap drop_readers]. rewrite lookup_alter_eq, He. cbn. destruct (ok p); cbn; [rewrite lookup_delete_ne by done|]; apply Hall; by right.
Qed.

Lemma empty_ok : pool_ok newS3VerifiedSpools.
Proof.
  split; cbn; try done.
  - intros r p. split; [done|]. by intros (e & He & _).
  - rewrite map_size_empty. unfold maxEntries. lia.
Qed.

Lemma spool_step_ok c c' : step c c' → pool_ok c → pool_ok c'.
Proof.
  intros Hs Hok. destruct Hs; eauto using spool_acquire_ok, verified_ok, discard_ok, close_reader_ok, expire_ok, spool_shrink_ok, close_pool_ok.
Qed.

(** [C27] The spools stay within their budget: after any sequence of reads, verifications,
    discards, closes, expiries and a shutdown, with removals failing at will, the bytes
    charged are the bytes of the files that are kept, at most 512 MiB; at most four files
    and at most four readers are held; and a file with a reader is never dropped
    from the table.  (One failure is excluded, see [double_release].) *)
Theorem spools_bounded (c : pool) (Hc : rtc step newS3VerifiedSpools c) :
  pool_ok c.
Proof.
  pose proof empty_ok as H0. revert H0. induction Hc as [|x y z Hs _ IH]; intros H0; [done|]. apply IH. by eapply spool_step_ok.
Qed.

(** ** Runs *)
Module Sample.

Definition works : spool_fs := {| removes := λ _, true; creates := true; opens := true; drops := true |}.
Definition no_handles : spool_fs := {| removes := λ _, true; creates := true; opens := false; drops := true |}.

Definition acquire (w : spool_fs) (p r : nat) (c : pool) : pool := (acquireKey w "k" 100 false false p r c).1.

Definition two_readers : pool := acquire works 1 1 (close_reader true 0 0 (verified 0 (acquire works 0 0 newS3VerifiedSpools)).1).

Lemma spools_bounded_witness : pool_ok two_readers.
Proof.
  refine (spools_bounded two_readers _).
  eapply rtc_l; [apply (step_acquire works "k" 100 false false 0 0); [reflexivity|reflexivity|discriminate]|].
  eapply rtc_l; [apply (step_verified 0)|]. eapply rtc_l; [apply (step_close true 0 0)|].
  eapply rtc_l; [apply (step_acquire works "k" 100 false false 1 1); [reflexivity|reflexivity|discriminate]|]. apply rtc_refl.
Defined.

(** A third reader finds no file handle while the second still reads: the entry is
    dropped.  A fourth stores the file again; then the second one closes. *)
Definition confused : pool := close_reader true 0 1 (acquire works 2 2 (acquire no_handles 1 3 two_readers)).

(** An entry that is dropped while it is read is released twice: the second release
    takes the bytes of the file that replaced it, and drops that file, which is being
    read, from the table; when it is closed the account is below zero. *)
Theorem double_release :
  p_bytes two_readers = 100 ∧ p_bytes confused = 0 ∧ table confused = ∅ ∧ open_readers confused = {[ 2%nat := 2%nat ]} ∧ p_bytes (close_reader true 0 2 confused) = -100.
Proof. vm_compute. split_and!; reflexivity. Qed.

End Sample.
