(* ===== verification/Zip.v ===== *)
(** * The archive stream of an export ([operator_zip.go], the manifest of [operator_export.go])

    An export is a ZIP64 archive of stored entries that is written in one pass over a
    writer that cannot seek, by walking the store three times: once for the
    files, once for the manifest and once for the central directory.  The walks are
    three values, because cached media can change between them.  [Reader] is a
    reader of such archives written from the format, not from the writer. *)
From S2P Require Import Prelude StoreTime Ogg Outbound Content.
#[local] Open Scope Z_scope.

Definition bytes : Type := list ascii.

(** ** Writers

    A writer keeps what it was given and refuses more than its capacity; one without
    a capacity stands for [io.Discard] and for a client that reads everything. *)
Record writer := { sunk : bytes; capacity : option nat }.

Definition W (A : Type) : Type := writer → result string A * writer.
Definition ret {A} (a : A) : W A := λ w, (Ok a, w).
Definition raise {A} (e : string) : W A := λ w, (Err e, w).
Definition bind {A B} (m : W A) (k : A → W B) : W B :=
  λ w, match m w with (Ok a, w') => k a w' | (Err e, w') => (Err e, w') end.
Notation "x ⇐ m ; k" := (bind m (λ x, k)) (at level 20, m at level 100, k at level 200).

Definition put (p : bytes) : W unit := λ w,
  match capacity w with
  | Some c => if (length (sunk w) + length p <=? c)%nat then (Ok tt, {| sunk := sunk w ++ p; capacity := capacity w |})
              else (Err "write", {| sunk := sunk w ++ take (c - length (sunk w)) p; capacity := capacity w |})
  | None => (Ok tt, {| sunk := sunk w ++ p; capacity := None |})
  end.

Definition discard : writer := {| sunk := []; capacity := None |}.

(** [countingWriter]: its counter is an unsigned 64-bit number. *)
Definition counted : W Z := λ w, (Ok (wrap_uint64 (Z.of_nat (length (sunk w)))), w).

(** [binary.Write] of one number, least significant byte first. *)
Fixpoint le (width : nat) (v : Z) : bytes :=
  match width with O => [] | S n => byte_of (v mod 256) :: le n (v / 256) end.

Definition uint16 (v : Z) : nat * Z := (2%nat, v).
Definition uint32 (v : Z) : nat * Z := (4%nat, v).
Definition uint64 (v : Z) : nat * Z := (8%nat, v).

Fixpoint zipNumbers (values : list (nat * Z)) : W unit :=
  match values with
  | [] => ret tt
  | (n, v) :: rest => _ ⇐ put (le n v); zipNumbers rest
  end.

(** [crc32.ChecksumIEEE]. *)
Definition crc_bit (c : Z) : Z := if Z.odd c then Z.lxor (Z.shiftr c 1) 3988292384 else Z.shiftr c 1.
Definition crc_byte (c : Z) (b : ascii) : Z := Nat.iter 8 crc_bit (Z.lxor c (byte_code b)).
Definition crc32 (b : bytes) : Z := Z.lxor (foldl crc_byte (2 ^ 32 - 1) b) (2 ^ 32 - 1).

(** ** Entries *)

(** [archiveEntry]: what the entry writes, piece by piece, and how it ends. *)
Record archiveEntry := { e_name : string; e_chunks : list bytes; e_count : Z; e_failure : option string }.
(** [archiveWalk]: one walk, with the media it had to leave out. *)
Record archiveWalk := { entries : list archiveEntry; w_failure : option string; skippedMedia : Z }.

Record zipEntryStats := { s_name : string; s_size : Z; s_offset : Z; s_crc : Z; s_sha : string; s_count : Z }.

Section Archive.
(** [crypto/sha256]. *)
Context (sha256 : string → string).

Definition sha (b : bytes) : string := hex (sha256 (string_of_list_ascii b)).

Fixpoint put_all (l : list bytes) : W unit := match l with [] => ret tt | p :: l => _ ⇐ put p; put_all l end.

Definition write_entry (e : archiveEntry) : W Z :=
  _ ⇐ put_all (e_chunks e); match e_failure e with Some err => raise err | None => ret (e_count e) end.

(** [measureEntry]: the hashes and the counter see what went through to the writer. *)
Definition measure {A} (name : string) (offset : Z) (write : W (Z * A)) : W (zipEntryStats * A) := λ w,
  match write w with
  | (Err e, w') => (Err e, w')
  | (Ok (n, a), w') =>
      let data := drop (length (sunk w)) (sunk w') in
      (Ok ({| s_name := name; s_size := wrap_uint64 (Z.of_nat (length data)); s_offset := offset; s_crc := crc32 data; s_sha := sha data; s_count := n |}, a), w')
  end.

Definition measureEntry (e : archiveEntry) (offset : Z) : W zipEntryStats :=
  r ⇐ measure (e_name e) offset (n ⇐ write_entry e; ret (n, tt)); ret r.1.

(** The same with [io.Discard] as the writer. *)
Definition measureDiscarded (e : archiveEntry) (offset : Z) : W zipEntryStats := λ w, ((measureEntry e offset discard).1, w).

(** ** Records of the format *)

Definition name_bytes (s : string) : bytes := list_ascii_of_string s.

Definition zipLocal (name : string) : W unit :=
  let nameLength := Z.of_nat (String.length name) in
  if 65535 <? nameLength then raise "archive name too long"
  else
    _ ⇐ zipNumbers [uint32 67324752; uint16 45; uint16 2056; uint16 0; uint16 0; uint16 33; uint32 0; uint32 4294967295; uint32 4294967295;
                    uint16 nameLength; uint16 20];
    _ ⇐ put (name_bytes name);
    zipNumbers [uint16 1; uint16 16; uint64 0; uint64 0].

Definition zipDescriptor (s : zipEntryStats) : W unit := zipNumbers [uint32 134695760; uint32 (s_crc s); uint64 (s_size s); uint64 (s_size s)].

Definition zipCentral (s : zipEntryStats) : W unit :=
  let nameLength := Z.of_nat (String.length (s_name s)) in
  if 65535 <? nameLength then raise "archive name too long"
  else
    _ ⇐ zipNumbers [uint32 33639248; uint16 (3 * 256 + 45); uint16 45; uint16 2056; uint16 0; uint16 0; uint16 33; uint32 (s_crc s);
                    uint32 4294967295; uint32 4294967295; uint16 nameLength; uint16 28; uint16 0; uint16 0; uint16 0;
                    uint32 (33152 * 65536); uint32 4294967295];
    _ ⇐ put (name_bytes (s_name s));
    zipNumbers [uint16 1; uint16 24; uint64 (s_size s); uint64 (s_size s); uint64 (s_offset s)].

Definition zipEnd (n offset size : Z) : W unit :=
  endOffset ⇐ counted;
  _ ⇐ zipNumbers [uint32 101075792; uint64 44; uint16 45; uint16 45; uint32 0; uint32 0; uint64 n; uint64 n; uint64 size; uint64 offset;
                  uint32 117853008; uint32 0; uint64 endOffset; uint32 1];
  zipNumbers [uint32 101010256; uint16 0; uint16 0; uint16 65535; uint16 65535; uint32 4294967295; uint32 4294967295; uint16 0].

(** [entryDigest]: one line of the text that is hashed for a walk. *)
Definition entryDigest (s : zipEntryStats) : string :=
  s_name s +:+ String "000" (decimal (s_size s) +:+ String "000" (s_sha s +:+ String "000" (decimal (s_count s) +:+ String "010" ""))).

(** ** The walks *)

Fixpoint each {S} (emit : S → archiveEntry → W S) (s : S) (l : list archiveEntry) : W S :=
  match l with [] => ret s | e :: l => s ⇐ emit s e; each emit s l end.

Definition walk {S} (v : archiveWalk) (emit : S → archiveEntry → W S) (s : S) : W S :=
  s ⇐ each emit s (entries v); match w_failure v with Some e => raise e | None => ret s end.

Definition first_pass (acc : string * Z) (e : archiveEntry) : W (string * Z) :=
  let '(first, n) := acc in
  offset ⇐ counted;
  _ ⇐ zipLocal (e_name e);
  stats ⇐ measureEntry e offset;
  _ ⇐ zipDescriptor stats;
  ret (first +:+ entryDigest stats, wrap_uint64 (n + 1)).

(** The manifest: [quote] is the JSON spelling of a string, [prefix] the object with the
    version and the time, without its closing brace. *)
Context (quote : string → string) (prefix : string).

Definition manifest_line (s : zipEntryStats) : string :=
  "{" +:+ quote "count" +:+ ":" +:+ decimal (s_count s) +:+ "," +:+ quote "name" +:+ ":" +:+ quote (s_name s) +:+ "," +:+
  quote "sha256" +:+ ":" +:+ quote (s_sha s) +:+ "," +:+ quote "size" +:+ ":" +:+ decimal (s_size s) +:+ "}" +:+ String "010" "".

(** [manifestWalk] inside [exportManifest]: measured to nowhere, recorded in the digest. *)
Definition manifest_pass (acc : string * Z) (e : archiveEntry) : W (string * Z) :=
  let '(digest, count) := acc in
  stats ⇐ measureDiscarded e 0;
  _ ⇐ (if 0 <? count then put (name_bytes ",") else ret tt);
  _ ⇐ put (name_bytes (manifest_line stats));
  ret (digest +:+ entryDigest stats, count + 1).

Definition exportManifest (v : archiveWalk) : W (Z * string) :=
  _ ⇐ put (name_bytes (prefix +:+ "," +:+ quote "files" +:+ ":["));
  acc ⇐ walk v manifest_pass ("", 0);
  _ ⇐ put (name_bytes ("]," +:+ quote "media_skipped" +:+ ":" +:+ decimal (skippedMedia v) +:+ "}" +:+ String "010" ""));
  ret (acc.2, acc.1).

Definition central_pass (acc : string * Z) (e : archiveEntry) : W (string * Z) :=
  let '(second, offset) := acc in
  stats ⇐ measureDiscarded e offset;
  _ ⇐ zipCentral stats;
  ret (second +:+ entryDigest stats, wrap_uint64 (offset + wrap_uint64 (wrap_uint64 (30 + Z.of_nat (String.length (s_name stats)) + 20 + 24) + s_size stats))).

Definition same_digest (a b : string) : bool := String.eqb (hex (sha256 a)) (hex (sha256 b)).

(** [streamArchive] with [exportManifest] as its manifest, over the three walks. *)
Definition streamArchive (walk1 walk2 walk3 : archiveWalk) : W Z :=
  r ⇐ walk walk1 first_pass ("", 0);
  let '(first, n) := r in
  manifestOffset ⇐ counted;
  _ ⇐ zipLocal "manifest.json";
  m ⇐ measure "manifest.json" manifestOffset (exportManifest walk2);
  let '(manifestStats, manifestDigest) := m in
  if negb (same_digest first manifestDigest) then raise "archive media changed while generating manifest"
  else
    _ ⇐ zipDescriptor manifestStats;
    centralOffset ⇐ counted;
    r ⇐ walk walk3 central_pass ("", 0);
    let '(second, offset) := r in
    if negb (offset =? manifestOffset) || negb (same_digest first second) then raise "archive media changed while streaming"
    else
      _ ⇐ zipCentral manifestStats;
      here ⇐ counted;
      _ ⇐ zipEnd (wrap_uint64 (n + 1)) centralOffset (wrap_uint64 (here - centralOffset));
      ret n.

End Archive.

(** ** A reader of ZIP64 archives of stored entries *)
Module Reader.

Definition P (A : Type) : Type := bytes → option (A * bytes).
Definition pret {A} (a : A) : P A := λ b, Some (a, b).
Definition pbind {A B} (m : P A) (k : A → P B) : P B := λ b, match m b with Some (a, rest) => k a rest | None => None end.
Definition pfail {A} : P A := λ _, None.
Notation "x <~ m ; k" := (pbind m (λ x, k)) (at level 20, m at level 100, k at level 200).

Definition read (n : nat) : P bytes := λ b, if (n <=? length b)%nat then Some (take n b, drop n b) else None.
Definition number (n : nat) : P Z := b <~ read n; pret (little_endian (byte_code <$> b)).
Definition expect (n : nat) (v : Z) : P unit := m <~ number n; if m =? v then pret tt else pfail.

Definition max16 : Z := 65535.
Definition max32 : Z := 4294967295.

Record central := { c_name : bytes; c_size : Z; c_offset : Z; c_crc : Z }.

(** The wide values of the extra field, for those fields that are all ones. *)
Definition wide (v : Z) : P Z := if v =? max32 then number 8 else pret v.
Definition zip64 (usize csize offset : Z) : P (Z * Z * Z) :=
  if (usize =? max32) || (csize =? max32) || (offset =? max32) then
    _ <~ expect 2 1; _ <~ number 2; u <~ wide usize; c <~ wide csize; o <~ wide offset; pret (u, c, o)
  else pret (usize, csize, offset).

Definition read_central : P central :=
  _ <~ expect 4 33639248; _ <~ read 2; _ <~ read 2; _ <~ read 2; _ <~ expect 2 0; _ <~ read 2; _ <~ read 2;
  crc <~ number 4; csize <~ number 4; usize <~ number 4;
  nlen <~ number 2; xlen <~ number 2; clen <~ number 2; _ <~ expect 2 0; _ <~ read 2; _ <~ read 4; offset <~ number 4;
  name <~ read (Z.to_nat nlen); extra <~ read (Z.to_nat xlen); _ <~ read (Z.to_nat clen);
  match zip64 usize csize offset extra with
  | Some ((u, c, o), _) => if u =? c then pret {| c_name := name; c_size := u; c_offset := o; c_crc := crc |} else pfail
  | None => pfail
  end.

(** The file of a directory entry: the local header names the same file, its data has
    the checksum of the directory, and the descriptor after it agrees. *)
Definition read_local (c : central) : P (bytes * bytes) :=
  _ <~ expect 4 67324752; _ <~ read 2; _ <~ read 2; _ <~ expect 2 0; _ <~ read 2; _ <~ read 2; _ <~ read 4; _ <~ read 4; _ <~ read 4;
  nlen <~ number 2; xlen <~ number 2; name <~ read (Z.to_nat nlen); _ <~ read (Z.to_nat xlen);
  data <~ read (Z.to_nat (c_size c));
  _ <~ expect 4 134695760; _ <~ expect 4 (c_crc c); _ <~ expect 8 (c_size c); _ <~ expect 8 (c_size c);
  if bool_decide (name = c_name c) && (crc32 data =? c_crc c) then pret (name, data) else pfail.

Definition file_at (b : bytes) (c : central) : option (bytes * bytes) := fst <$> read_local c (drop (Z.to_nat (c_offset c)) b).

Fixpoint many {A} (n : nat) (m : P A) : P (list A) :=
  match n with O => pret [] | S n => a <~ m; l <~ many n m; pret (a :: l) end.

(** The last 22 bytes, and the two wider records when its counter is all ones. *)
Definition read_end : P (Z * Z * Z) :=
  _ <~ expect 4 101010256; _ <~ read 2; _ <~ read 2; n <~ number 2; _ <~ number 2; size <~ number 4; offset <~ number 4; _ <~ expect 2 0;
  pret (n, size, offset).
Definition read_locator : P Z := _ <~ expect 4 117853008; _ <~ read 4; o <~ number 8; _ <~ read 4; pret o.
Definition read_end64 : P (Z * Z * Z) :=
  _ <~ expect 4 101075792; _ <~ read 8; _ <~ read 2; _ <~ read 2; _ <~ read 4; _ <~ read 4;
  n <~ number 8; _ <~ number 8; size <~ number 8; offset <~ number 8; pret (n, size, offset).

Definition directory (b : bytes) : option (Z * Z * Z) :=
  '((n, size, offset), _) ← read_end (drop (length b - 22) b);
  if n =? max16 then
    '(o, _) ← read_locator (drop (length b - 42) b);
    fst <$> read_end64 (drop (Z.to_nat o) b)
  else Some (n, size, offset).

Definition read_zip (b : bytes) : option (list (bytes * bytes)) :=
  '(n, size, offset) ← directory b;
  '(l, rest) ← many (Z.to_nat n) read_central (take (Z.to_nat size) (drop (Z.to_nat offset) b));
  if bool_decide (rest = []) then mapM (file_at b) l else None.

End Reader.

(** ** Numbers and their bytes *)

Lemma le_length n v : length (le n v) = n.
Proof. revert v. induction n as [|n IH]; intros v; cbn; [done|]. by rewrite IH. Qed.

Lemma le_value n v : 0 ≤ v < 2 ^ (8 * Z.of_nat n) → little_endian (byte_code <$> le n v) = v.
Proof.
  revert v. induction n as [|n IH]; intros v Hv; [cbn in *; lia|]. cbn [le fmap list_fmap little_endian].
  rewrite byte_code_of by (apply Z.mod_pos_bound; lia). change (list_fmap _ _ byte_code (le n (v / 256))) with (byte_code <$> le n (v / 256)).
  rewrite IH; [pose proof (Z.div_mod v 256); lia|].
  replace (2 ^ (8 * Z.of_nat (S n))) with (256 * 2 ^ (8 * Z.of_nat n)) in Hv by (rewrite Nat2Z.inj_succ, Z.mul_succ_r, Z.pow_add_r; lia).
  split; [apply Z.div_pos; lia|]. apply Z.div_lt_upper_bound; lia.
Qed.

Lemma lxor_range n a b : 0 ≤ n → 0 ≤ a < 2 ^ n → 0 ≤ b < 2 ^ n → 0 ≤ Z.lxor a b < 2 ^ n.
Proof.
  intros Hn Ha Hb. assert (0 ≤ Z.lxor a b) by (apply Z.lxor_nonneg; lia). split; [done|].
  destruct (decide (Z.lxor a b = 0)) as [->|Hz]; [lia|]. destruct (decide (n = 0)) as [->|].
  { assert (a = 0) as -> by lia. assert (b = 0) as -> by lia. done. }
  apply Z.log2_lt_pow2; [lia|]. pose proof (Z.log2_lxor a b).
  assert (∀ x, 0 ≤ x < 2 ^ n → Z.log2 x < n) as Hlog.
  { intros x Hx. destruct (decide (x = 0)) as [->|]; [cbn; lia|]. apply Z.log2_lt_pow2; lia. }
  pose proof (Hlog a). pose proof (Hlog b). lia.
Qed.

Lemma crc_bit_range c : 0 ≤ c < 2 ^ 32 → 0 ≤ crc_bit c < 2 ^ 32.
Proof.
  intros Hc. unfold crc_bit. assert (0 ≤ Z.shiftr c 1 < 2 ^ 32) as Hs.
  { rewrite Z.shiftr_div_pow2 by lia. change (2 ^ 1) with 2. split; [apply Z.div_pos|apply Z.div_lt_upper_bound]; lia. }
  destruct (Z.odd c); [|done]. apply lxor_range; lia.
Qed.

Lemma crc32_range b : 0 ≤ crc32 b < 2 ^ 32.
Proof.
  unfold crc32. apply lxor_range; [lia| |lia]. assert (0 ≤ 2 ^ 32 - 1 < 2 ^ 32) as H by lia. revert H. generalize (2 ^ 32 - 1).
  induction b as [|x b IH]; intros c Hc; [done|]. cbn [foldl]. apply IH. unfold crc_byte.
  assert (0 ≤ Z.lxor c (byte_code x) < 2 ^ 32) as H by (apply lxor_range; [lia..|pose proof (byte_code_range x); lia]).
  revert H. generalize (Z.lxor c (byte_code x)). generalize 8%nat. intros k. induction k as [|k IHk]; intros z Hz; [done|].
  cbn. apply crc_bit_range. by apply IHk.
Qed.

(** ** What a computation writes

    [spec w m good p a]: from writer [w], [m] succeeds exactly when [good] (and the writer
    has room), and then appends [p] and returns [a]. *)
Definition grow (w : writer) (p : bytes) : writer := {| sunk := sunk w ++ p; capacity := capacity w |}.

Definition spec {A} (w : writer) (m : W A) (good : Prop) (p : bytes) (a : A) : Prop :=
  (good → capacity w = None → m w = (Ok a, grow w p)) ∧ (∀ b w', m w = (Ok b, w') → good ∧ b = a ∧ w' = grow w p).

Lemma grow_nil w : grow w [] = w.
Proof. destruct w. unfold grow. cbn. by rewrite app_nil_r. Qed.

Lemma grow_grow w p q : grow (grow w p) q = grow w (p ++ q).
Proof. unfold grow. cbn. by rewrite app_assoc. Qed.

Lemma spec_ret {A} w (a : A) : spec w (ret a) True [] a.
Proof. split; rewrite grow_nil; [done|]. by intros b w' [= -> ->]. Qed.

Lemma spec_raise {A} w e p (a : A) : spec w (raise e) False p a.
Proof. split; [done|]. intros b w' [=]. Qed.

Lemma spec_put w p : spec w (put p) True p tt.
Proof.
  unfold spec, put, grow. destruct w as [s [c|]]; cbn; (split; [done|]); intros b w'; [destruct (_ <=? _)%nat|]; intros [= <- <-]; done.
Qed.

Lemma spec_bind {A B} w (m : W A) (k : A → W B) g1 g2 p q a b :
  spec w m g1 p a → spec (grow w p) (k a) g2 q b → spec w (bind m k) (g1 ∧ g2) (p ++ q) b.
Proof.
  intros [Hm1 Hm2] [Hk1 Hk2]. split.
  - intros [H1 H2] Hc. unfold bind. rewrite Hm1 by done. rewrite Hk1 by done. by rewrite grow_grow.
  - unfold bind. intros b' w'. destruct (m w) as [[a'|] w1]; [|done]. destruct (Hm2 _ _ eq_refl) as (? & -> & ->). intros Hk.
    destruct (Hk2 _ _ Hk) as (? & -> & ->). by rewrite grow_grow.
Qed.

Lemma spec_weaken {A} w (m : W A) g g' p p' a a' : spec w m g p a → (g ↔ g') → p = p' → a = a' → spec w m g' p' a'.
Proof. intros [H1 H2] Hg -> ->. split; [intros ?; apply H1; tauto|]. intros b w' Hm. destruct (H2 _ _ Hm). tauto. Qed.

Lemma spec_counted w : spec w counted True [] (wrap_uint64 (Z.of_nat (length (sunk w)))).
Proof. split; rewrite grow_nil; [done|]. by intros b w' [= <- <-]. Qed.

(** The whole of a computation in sequence, its condition and its bytes given at the end. *)
Lemma spec_then {A B} w (m : W A) (k : A → W B) g1 g2 g p q r a b :
  spec w m g1 p a → spec (grow w p) (k a) g2 q b → (g ↔ g1 ∧ g2) → r = p ++ q → spec w (bind m k) g r b.
Proof. intros Hm Hk Hg ->. eapply spec_weaken; [by eapply spec_bind| |done..]. tauto. Qed.

Definition numbers (vs : list (nat * Z)) : bytes := mjoin ((λ nv, le nv.1 nv.2) <$> vs).

Lemma spec_numbers w vs : spec w (zipNumbers vs) True (numbers vs) tt.
Proof.
  revert w. induction vs as [|[n v] vs IH]; intros w; [apply spec_ret|]. eapply spec_then; [apply spec_put|apply IH|tauto|done].
Qed.

Section Layout.
Context (sha256 : string → string) (quote : string → string) (prefix : string).


Definition content (e : archiveEntry) : bytes := mjoin (e_chunks e).

Definition stats_of (name : string) (offset : Z) (data : bytes) (count : Z) : zipEntryStats :=
  {| s_name := name; s_size := wrap_uint64 (Z.of_nat (length data)); s_offset := offset; s_crc := crc32 data; s_sha := sha sha256 data; s_count := count |}.

Definition short (name : string) : Prop := Z.of_nat (String.length name) ≤ 65535.
Definition writable (e : archiveEntry) : Prop := e_failure e = None.

Definition local_bytes (name : string) : bytes :=
  numbers [uint32 67324752; uint16 45; uint16 2056; uint16 0; uint16 0; uint16 33; uint32 0; uint32 4294967295; uint32 4294967295;
           uint16 (Z.of_nat (String.length name)); uint16 20] ++ name_bytes name ++ numbers [uint16 1; uint16 16; uint64 0; uint64 0].
Definition descriptor_bytes (s : zipEntryStats) : bytes := numbers [uint32 134695760; uint32 (s_crc s); uint64 (s_size s); uint64 (s_size s)].
Definition central_bytes (s : zipEntryStats) : bytes :=
  numbers [uint32 33639248; uint16 (3 * 256 + 45); uint16 45; uint16 2056; uint16 0; uint16 0; uint16 33; uint32 (s_crc s);
           uint32 4294967295; uint32 4294967295; uint16 (Z.of_nat (String.length (s_name s))); uint16 28; uint16 0; uint16 0; uint16 0;
           uint32 (33152 * 65536); uint32 4294967295] ++ name_bytes (s_name s) ++
  numbers [uint16 1; uint16 24; uint64 (s_size s); uint64 (s_size s); uint64 (s_offset s)].

Lemma spec_local w name : spec w (zipLocal name) (short name) (local_bytes name) tt.
Proof.
  unfold zipLocal, short. destruct (Z.ltb_spec 65535 (Z.of_nat (String.length name))).
  { eapply spec_weaken; [apply spec_raise|lia|done..]. }
  eapply spec_then; [apply spec_numbers| |instantiate (1 := True); lia|reflexivity].
  eapply spec_then; [apply spec_put|apply spec_numbers|tauto|done].
Qed.

Lemma spec_descriptor w s : spec w (zipDescriptor s) True (descriptor_bytes s) tt.
Proof. apply spec_numbers. Qed.

Lemma spec_central w s : spec w (zipCentral s) (short (s_name s)) (central_bytes s) tt.
Proof.
  unfold zipCentral, short. destruct (Z.ltb_spec 65535 (Z.of_nat (String.length (s_name s)))).
  { eapply spec_weaken; [apply spec_raise|lia|done..]. }
  eapply spec_then; [apply spec_numbers| |instantiate (1 := True); lia|reflexivity].
  eapply spec_then; [apply spec_put|apply spec_numbers|tauto|done].
Qed.

Lemma spec_put_all w l : spec w (put_all l) True (mjoin l) tt.
Proof. revert w. induction l as [|p l IH]; intros w; [apply spec_ret|]. eapply spec_then; [apply spec_put|apply IH|tauto|done]. Qed.

Lemma spec_entry w e : spec w (write_entry e) (writable e) (content e) (e_count e).
Proof.
  unfold write_entry, writable. destruct (e_failure e).
  - eapply spec_then; [apply spec_put_all|apply (spec_raise _ _ [])|naive_solver|by rewrite app_nil_r].
  - eapply spec_then; [apply spec_put_all|apply spec_ret|naive_solver|by rewrite app_nil_r].
Qed.

Lemma spec_measure {A} w name offset (m : W (Z * A)) good p n a :
  spec w m good p (n, a) → spec w (measure sha256 name offset m) good p (stats_of name offset p n, a).
Proof.
  intros [H1 H2]. unfold measure. split.
  - intros Hg Hc. rewrite (H1 Hg Hc). unfold stats_of, grow. cbn [sunk]. by rewrite drop_app_length.
  - intros b w'. destruct (m w) as [[[n' a']|] w1]; [|done]. destruct (H2 _ _ eq_refl) as (? & [= -> ->] & ->).
    unfold stats_of, grow. cbn [sunk]. rewrite drop_app_length. by intros [= <- <-].
Qed.

Definition stat (offset : Z) (e : archiveEntry) : zipEntryStats := stats_of (e_name e) offset (content e) (e_count e).

Lemma spec_measureEntry w e offset : spec w (measureEntry sha256 e offset) (writable e) (content e) (stat offset e).
Proof.
  unfold measureEntry. assert (spec w (n ⇐ write_entry e; ret (n, tt)) (writable e) (content e) (e_count e, tt)) as He.
  { eapply spec_then; [apply spec_entry|apply spec_ret|tauto|by rewrite app_nil_r]. }
  eapply spec_then; [apply spec_measure, He|apply spec_ret|tauto|by rewrite app_nil_r].
Qed.

Lemma spec_discarded w e offset : spec w (measureDiscarded sha256 e offset) (writable e) [] (stat offset e).
Proof.
  destruct (spec_measureEntry discard e offset) as [H1 H2]. unfold spec, measureDiscarded. rewrite grow_nil. split.
  - intros Hg _. by rewrite H1.
  - intros b w' Hm. destruct (measureEntry sha256 e offset discard) as [[b'|] w1]; [|done]. destruct (H2 _ _ eq_refl) as (? & ? & _).
    cbn in Hm. by simplify_eq.
Qed.

(** A walk writes what its entries write. *)
Fixpoint outs {S} (out : S → archiveEntry → bytes) (next : S → archiveEntry → S) (s : S) (l : list archiveEntry) : bytes :=
  match l with [] => [] | e :: l => out s e ++ outs out next (next s e) l end.

Lemma spec_walk {S} w v (emit : S → archiveEntry → W S) good out next s :
  (∀ w s e, spec w (emit s e) (good e) (out s e) (next s e)) →
  spec w (walk v emit s) (Forall good (entries v) ∧ w_failure v = None) (outs out next s (entries v)) (foldl next s (entries v)).
Proof.
  intros He. unfold walk. assert (∀ w s l, spec w (each emit s l) (Forall good l) (outs out next s l) (foldl next s l)) as Hall.
  { clear -He. intros w s l. revert w s. induction l as [|e l IH]; intros w s.
    - eapply spec_weaken; [apply spec_ret| |done..]. by rewrite Forall_nil.
    - eapply spec_then; [apply He|apply IH|by rewrite Forall_cons|done]. }
  destruct (w_failure v).
  - eapply spec_then; [apply Hall|apply (spec_raise _ _ [])|naive_solver|by rewrite app_nil_r].
  - eapply spec_then; [apply Hall|apply spec_ret|naive_solver|by rewrite app_nil_r].
Qed.

(** The three passes. *)
Definition record (e : archiveEntry) : bytes := local_bytes (e_name e) ++ content e ++ descriptor_bytes (stat 0 e).
Definition line (e : archiveEntry) : bytes := name_bytes (manifest_line quote (stat 0 e)).

Definition next1 (acc : string * Z) (e : archiveEntry) : string * Z := (acc.1 +:+ entryDigest (stat 0 e), wrap_uint64 (acc.2 + 1)).
Definition next2 (acc : string * Z) (e : archiveEntry) : string * Z := (acc.1 +:+ entryDigest (stat 0 e), acc.2 + 1).
Definition next3 (acc : string * Z) (e : archiveEntry) : string * Z :=
  (acc.1 +:+ entryDigest (stat 0 e),
   wrap_uint64 (acc.2 + wrap_uint64 (wrap_uint64 (30 + Z.of_nat (String.length (e_name e)) + 20 + 24) + s_size (stat 0 e)))).

Lemma spec_first w acc e : spec w (first_pass sha256 acc e) (short (e_name e) ∧ writable e) (record e) (next1 acc e).
Proof.
  destruct acc as [d n]. unfold first_pass. eapply spec_then; [apply spec_counted| |instantiate (1 := short (e_name e) ∧ writable e); tauto|reflexivity].
  eapply spec_then; [apply spec_local| |reflexivity|reflexivity].
  eapply spec_then; [apply spec_measureEntry| |instantiate (1 := True); tauto|reflexivity].
  eapply spec_then; [apply spec_descriptor|apply spec_ret|tauto|by rewrite app_nil_r].
Qed.

Lemma spec_manifest_pass w acc e :
  spec w (manifest_pass sha256 quote acc e) (writable e) ((if 0 <? acc.2 then name_bytes "," else []) ++ line e) (next2 acc e).
Proof.
  destruct acc as [d n]. unfold manifest_pass. cbn [snd]. eapply spec_then; [apply spec_discarded| |instantiate (1 := True); tauto|reflexivity].
  assert (spec (grow w []) (if 0 <? n then put (name_bytes ",") else ret tt) True (if 0 <? n then name_bytes "," else []) tt) as Hsep
    by (destruct (0 <? n); [apply spec_put|apply spec_ret]).
  eapply spec_then; [exact Hsep| |instantiate (1 := True); tauto|reflexivity].
  eapply spec_then; [apply spec_put|apply spec_ret|tauto|by rewrite app_nil_r].
Qed.

Lemma spec_central_pass w acc e :
  spec w (central_pass sha256 acc e) (writable e ∧ short (e_name e)) (central_bytes (stat acc.2 e)) (next3 acc e).
Proof.
  destruct acc as [d o]. unfold central_pass. cbn [snd]. eapply spec_then; [apply spec_discarded| |reflexivity|reflexivity].
  eapply spec_then; [apply spec_central|apply spec_ret|cbn; tauto|by rewrite app_nil_r].
Qed.

(** The text hashed for a walk, and the bytes of all its records. *)
Fixpoint digest (l : list archiveEntry) : string := match l with [] => "" | e :: l => entryDigest (stat 0 e) +:+ digest l end.
Definition records (l : list archiveEntry) : bytes := mjoin (record <$> l).

Lemma name_length name : length (name_bytes name) = String.length name.
Proof. unfold name_bytes. induction name as [|a name IH]; cbn; [done|]. by rewrite IH. Qed.

Lemma local_length name : Z.of_nat (length (local_bytes name)) = 50 + Z.of_nat (String.length name).
Proof. unfold local_bytes, numbers. cbn [fmap list_fmap mjoin list_join]. rewrite !length_app, !le_length, name_length. cbn. lia. Qed.

Lemma descriptor_length s : length (descriptor_bytes s) = 24%nat.
Proof. unfold descriptor_bytes, numbers. cbn [fmap list_fmap mjoin list_join]. rewrite !length_app, !le_length. done. Qed.

Lemma record_length e : Z.of_nat (length (record e)) = 30 + Z.of_nat (String.length (e_name e)) + 20 + 24 + Z.of_nat (length (content e)).
Proof. unfold record. rewrite !length_app, !Nat2Z.inj_add, local_length, descriptor_length. lia. Qed.

Lemma wrap_add_l a b : wrap_uint64 (wrap_uint64 a + b) = wrap_uint64 (a + b).
Proof. apply Zplus_mod_idemp_l. Qed.
Lemma wrap_add_r a b : wrap_uint64 (a + wrap_uint64 b) = wrap_uint64 (a + b).
Proof. apply Zplus_mod_idemp_r. Qed.

Lemma fold1 l d n : foldl next1 (d, wrap_uint64 n) l = (d +:+ digest l, wrap_uint64 (n + Z.of_nat (length l))).
Proof.
  revert d n. induction l as [|e l IH]; intros d n; cbn [foldl digest length].
  - by rewrite string_app_nil_r, Z.add_0_r.
  - unfold next1 at 2. cbn [fst snd]. rewrite wrap_add_l, IH, string_app_assoc. do 2 f_equal. lia.
Qed.

Lemma fold2 l d n : foldl next2 (d, n) l = (d +:+ digest l, n + Z.of_nat (length l)).
Proof.
  revert d n. induction l as [|e l IH]; intros d n; cbn [foldl digest length].
  - by rewrite string_app_nil_r, Z.add_0_r.
  - unfold next2 at 2. cbn [fst snd]. rewrite IH, string_app_assoc. f_equal. lia.
Qed.

Lemma next3_offset d o e : (next3 (d, wrap_uint64 o) e).2 = wrap_uint64 (o + Z.of_nat (length (record e))).
Proof.
  unfold next3, stat, stats_of. cbn [fst snd s_size]. rewrite wrap_add_l, wrap_add_r, Z.add_assoc, wrap_add_r, record_length.
  rewrite (Z.add_comm o), <-Z.add_assoc, wrap_add_l. f_equal. lia.
Qed.

Lemma records_cons e l : records (e :: l) = record e ++ records l.
Proof. done. Qed.

Lemma fold3 l d o : foldl next3 (d, wrap_uint64 o) l = (d +:+ digest l, wrap_uint64 (o + Z.of_nat (length (records l)))).
Proof.
  revert d o. induction l as [|e l IH]; intros d o; cbn [foldl digest].
  - by rewrite string_app_nil_r, Z.add_0_r.
  - rewrite (surjective_pairing (next3 _ _)), next3_offset, IH. unfold next3. cbn [fst]. rewrite string_app_assoc.
    rewrite records_cons, length_app, Nat2Z.inj_add, Z.add_assoc. done.
Qed.

(** The directory of the third walk. *)
Fixpoint centrals (o : Z) (l : list archiveEntry) : bytes :=
  match l with [] => [] | e :: l => central_bytes (stat (wrap_uint64 o) e) ++ centrals (o + Z.of_nat (length (record e))) l end.

Lemma outs_central l d o : outs (λ acc e, central_bytes (stat acc.2 e)) next3 (d, wrap_uint64 o) l = centrals o l.
Proof.
  revert d o. induction l as [|e l IH]; intros d o; [done|]. cbn [outs centrals]. cbn [snd]. f_equal.
  rewrite (surjective_pairing (next3 _ _)), next3_offset. apply IH.
Qed.

(** The manifest. *)
Definition manifest_lines (l : list archiveEntry) : bytes :=
  outs (λ acc e, (if 0 <? acc.2 then name_bytes "," else []) ++ line e) next2 ("", 0) l.
Definition manifest_text (skipped : Z) (l : list archiveEntry) : bytes :=
  name_bytes (prefix +:+ "," +:+ quote "files" +:+ ":[") ++ manifest_lines l ++
  name_bytes ("]," +:+ quote "media_skipped" +:+ ":" +:+ decimal skipped +:+ "}" +:+ String "010" "").

Lemma spec_manifest w v :
  spec w (exportManifest sha256 quote prefix v) (Forall writable (entries v) ∧ w_failure v = None) (manifest_text (skippedMedia v) (entries v))
    (Z.of_nat (length (entries v)), digest (entries v)).
Proof.
  unfold exportManifest, manifest_text. eapply spec_then; [apply spec_put| |instantiate (1 := Forall writable (entries v) ∧ w_failure v = None); tauto|reflexivity].
  eapply spec_then; [apply spec_walk, spec_manifest_pass| |instantiate (1 := True); tauto|reflexivity].
  rewrite fold2. eapply spec_then; [apply spec_put|apply spec_ret|tauto|by rewrite app_nil_r].
Qed.

Definition end_bytes (n offset size endOffset : Z) : bytes :=
  numbers [uint32 101075792; uint64 44; uint16 45; uint16 45; uint32 0; uint32 0; uint64 n; uint64 n; uint64 size; uint64 offset;
           uint32 117853008; uint32 0; uint64 endOffset; uint32 1] ++
  numbers [uint32 101010256; uint16 0; uint16 0; uint16 65535; uint16 65535; uint32 4294967295; uint32 4294967295; uint16 0].

Lemma spec_end w n offset size : spec w (zipEnd n offset size) True (end_bytes n offset size (wrap_uint64 (Z.of_nat (length (sunk w))))) tt.
Proof.
  unfold zipEnd. eapply spec_then; [apply spec_counted| |instantiate (1 := True); tauto|reflexivity].
  eapply spec_then; [apply spec_numbers|apply spec_numbers|tauto|done].
Qed.

(** The whole archive. *)
Definition manifestName : string := "manifest.json".
Definition manifest_stats (l1 l2 : list archiveEntry) (skipped : Z) : zipEntryStats :=
  stats_of manifestName (wrap_uint64 (Z.of_nat (length (records l1)))) (manifest_text skipped l2) (Z.of_nat (length l2)).
Definition body (l1 l2 : list archiveEntry) (skipped : Z) : bytes :=
  records l1 ++ local_bytes manifestName ++ manifest_text skipped l2 ++ descriptor_bytes (manifest_stats l1 l2 skipped).
Definition index (l1 l2 l3 : list archiveEntry) (skipped : Z) : bytes := centrals 0 l3 ++ central_bytes (manifest_stats l1 l2 skipped).
Definition archive (l1 l2 l3 : list archiveEntry) (skipped : Z) : bytes :=
  body l1 l2 skipped ++ index l1 l2 l3 skipped ++
  end_bytes (wrap_uint64 (wrap_uint64 (Z.of_nat (length l1)) + 1)) (wrap_uint64 (Z.of_nat (length (body l1 l2 skipped))))
    (wrap_uint64 (wrap_uint64 (Z.of_nat (length (body l1 l2 skipped ++ index l1 l2 l3 skipped))) - wrap_uint64 (Z.of_nat (length (body l1 l2 skipped)))))
    (wrap_uint64 (Z.of_nat (length (body l1 l2 skipped ++ index l1 l2 l3 skipped)))).

(** When the stream succeeds: no walk fails, names are short, and the digests and the
    offset agree. *)
Definition agreed (v1 v2 v3 : archiveWalk) : Prop :=
  (Forall (λ e, short (e_name e) ∧ writable e) (entries v1) ∧ w_failure v1 = None) ∧
  (Forall writable (entries v2) ∧ w_failure v2 = None) ∧
  same_digest sha256 (digest (entries v1)) (digest (entries v2)) = true ∧
  (Forall (λ e, writable e ∧ short (e_name e)) (entries v3) ∧ w_failure v3 = None) ∧
  wrap_uint64 (Z.of_nat (length (records (entries v3)))) = wrap_uint64 (Z.of_nat (length (records (entries v1)))) ∧
  same_digest sha256 (digest (entries v1)) (digest (entries v3)) = true.

Lemma spec_guard {A} w (c : bool) e (m : W A) g p a : spec w m g p a → spec w (if negb c then raise e else m) (c = true ∧ g) p a.
Proof. intros Hm. destruct c; cbn; (eapply spec_weaken; [first [exact Hm|apply spec_raise]| |done..]); naive_solver. Qed.

Lemma outs_records {S} (next : S → archiveEntry → S) s l : outs (λ _ e, record e) next s l = records l.
Proof. revert s. induction l as [|e l IH]; intros s; [done|]. cbn [outs]. by rewrite IH, records_cons. Qed.

Lemma spec_files w v :
  spec w (walk v (first_pass sha256) ("", 0)) (Forall (λ e, short (e_name e) ∧ writable e) (entries v) ∧ w_failure v = None) (records (entries v))
    (digest (entries v), wrap_uint64 (Z.of_nat (length (entries v)))).
Proof.
  eapply spec_weaken; [apply (spec_walk _ _ _ _ _ _ _ spec_first)|reflexivity|apply outs_records|]. exact (fold1 (entries v) "" 0).
Qed.

Lemma spec_directory w v :
  spec w (walk v (central_pass sha256) ("", 0)) (Forall (λ e, writable e ∧ short (e_name e)) (entries v) ∧ w_failure v = None) (centrals 0 (entries v))
    (digest (entries v), wrap_uint64 (Z.of_nat (length (records (entries v))))).
Proof.
  eapply spec_weaken; [apply (spec_walk _ _ _ _ _ _ _ spec_central_pass)|reflexivity|exact (outs_central _ "" 0)|]. exact (fold3 (entries v) "" 0).
Qed.

Lemma stream_spec w v1 v2 v3 : sunk w = [] →
  spec w (streamArchive sha256 quote prefix v1 v2 v3) (agreed v1 v2 v3) (archive (entries v1) (entries v2) (entries v3) (skippedMedia v2))
    (wrap_uint64 (Z.of_nat (length (entries v1)))).
Proof.
  intros Hw. unfold streamArchive. eapply spec_weaken.
  { eapply spec_bind; [apply spec_files|]. eapply spec_bind; [apply spec_counted|]. eapply spec_bind; [apply spec_local|].
    eapply spec_bind; [apply spec_measure, spec_manifest|]. apply spec_guard.
    eapply spec_bind; [apply spec_descriptor|]. eapply spec_bind; [apply spec_counted|]. eapply spec_bind; [apply spec_directory|].
    cbv beta iota. rewrite <-negb_andb. apply spec_guard. eapply spec_bind; [apply spec_central|]. eapply spec_bind; [apply spec_counted|].
    eapply spec_bind; [apply spec_end|]. apply spec_ret. }
  - unfold agreed. rewrite !andb_true_iff, !Z.eqb_eq. unfold grow. cbn [sunk]. rewrite Hw. cbn [app]. unfold short at 2 4. cbn [s_name stats_of String.length].
    split; [intuition|]. intuition (try done).
  - unfold archive, body, index, manifest_stats, grow. cbn [sunk]. rewrite Hw. cbn [app]. rewrite <-!app_assoc, !app_nil_r. cbn [app]. done.
  - done.
Qed.

(** ** Reading it back *)
Import Reader.
#[local] Arguments le : simpl never.

Lemma pbind_step {A B} (m : P A) (k : A → P B) b a rest : m b = Some (a, rest) → pbind m k b = k a rest.
Proof. unfold pbind. by intros ->. Qed.

Lemma read_app n p rest : length p = n → read n (p ++ rest) = Some (p, rest).
Proof. intros <-. unfold read. rewrite length_app, (proj2 (Nat.leb_le _ _)) by lia. by rewrite take_app_length, drop_app_length. Qed.

Lemma read_le n v rest : read n (le n v ++ rest) = Some (le n v, rest).
Proof. apply read_app, le_length. Qed.

Lemma number_le n v rest : 0 ≤ v < 2 ^ (8 * Z.of_nat n) → number n (le n v ++ rest) = Some (v, rest).
Proof. intros Hv. unfold number. erewrite pbind_step by apply read_le. unfold pret. by rewrite le_value. Qed.

Lemma expect_le n v rest : 0 ≤ v < 2 ^ (8 * Z.of_nat n) → expect n v (le n v ++ rest) = Some (tt, rest).
Proof. intros Hv. unfold expect. erewrite pbind_step by (by apply number_le). by rewrite Z.eqb_refl. Qed.

Ltac rd := first
  [ erewrite pbind_step by (apply expect_le; lia) | erewrite pbind_step by (apply number_le; lia)
  | erewrite pbind_step by (apply read_le) | erewrite pbind_step by (apply read_app; first [done|lia]) ].
Ltac flatten := unfold numbers, uint16, uint32, uint64; cbn [fmap list_fmap mjoin list_join fst snd]; rewrite ?app_nil_r, <-?app_assoc.

Definition in_range (s : zipEntryStats) : Prop :=
  short (s_name s) ∧ 0 ≤ s_crc s < 2 ^ 32 ∧ 0 ≤ s_size s < 2 ^ 64 ∧ 0 ≤ s_offset s < 2 ^ 64.

Definition central_of (s : zipEntryStats) : central :=
  {| c_name := name_bytes (s_name s); c_size := s_size s; c_offset := s_offset s; c_crc := s_crc s |}.

Lemma central_read s rest : in_range s → read_central (central_bytes s ++ rest) = Some (central_of s, rest).
Proof.
  intros (Hn & Hc & Hs & Ho). unfold short in Hn. unfold read_central, central_bytes. flatten.
  do 17 rd. rewrite Nat2Z.id. erewrite pbind_step by (apply read_app, name_length).
  erewrite (pbind_step (read (Z.to_nat 28))).
  2: { rewrite !app_assoc. apply read_app. rewrite !length_app, !le_length. done. }
  erewrite (pbind_step (read (Z.to_nat 0))) by apply (read_app 0 []), eq_refl.
  unfold zip64, wide. cbn [Z.eqb orb max32 Pos.eqb]. flatten. rewrite <-(app_nil_r (le 8 (s_offset s))). do 5 rd.
  cbn. by rewrite Z.eqb_refl.
Qed.

Lemma local_read s data rest : in_range s → s_size s = Z.of_nat (length data) → s_crc s = crc32 data →
  read_local (central_of s) (local_bytes (s_name s) ++ data ++ descriptor_bytes s ++ rest) = Some ((name_bytes (s_name s), data), rest).
Proof.
  intros (Hn & Hc & Hs & Ho) Hlen Hcrc. unfold short in Hn. unfold read_local, local_bytes, descriptor_bytes, central_of. cbn [c_size c_crc c_name]. flatten.
  do 11 rd. rewrite Nat2Z.id. erewrite pbind_step by (apply read_app, name_length).
  erewrite (pbind_step (read (Z.to_nat 20))).
  2: { rewrite (app_assoc (le 8 0)), (app_assoc (le 2 16)), (app_assoc (le 2 1)). apply read_app. rewrite !length_app, !le_length. done. }
  rewrite Hlen, Nat2Z.id. erewrite (pbind_step (read (length data))) by (by apply read_app). rewrite <-Hlen. do 4 rd.
  rewrite bool_decide_eq_true_2 by done. by rewrite Hcrc, Z.eqb_refl.
Qed.

Fixpoint stats_at (o : Z) (l : list archiveEntry) : list zipEntryStats :=
  match l with [] => [] | e :: l => stat o e :: stats_at (o + Z.of_nat (length (record e))) l end.
Definition files (l : list archiveEntry) : list (bytes * bytes) := (λ e, (name_bytes (e_name e), content e)) <$> l.

Lemma stat_range o e : short (e_name e) → 0 ≤ o → o + Z.of_nat (length (record e)) < 2 ^ 64 → in_range (stat o e) ∧ s_size (stat o e) = Z.of_nat (length (content e)).
Proof.
  intros Hn Ho Hlen. rewrite record_length in Hlen. unfold in_range, stat, stats_of. cbn.
  rewrite wrap_uint64_id by (unfold in_uint64, max_uint64; lia). pose proof (crc32_range (content e)). split_and!; [done|lia..].
Qed.

Lemma centrals_read o l rest : Forall (short ∘ e_name) l → 0 ≤ o → o + Z.of_nat (length (records l)) < 2 ^ 64 →
  many (length l) read_central (centrals o l ++ rest) = Some (central_of <$> stats_at o l, rest).
Proof.
  revert o. induction l as [|e l IH]; intros o Hs Ho Hlen; [done|]. apply Forall_cons in Hs as [Hn Hs]. rewrite records_cons, length_app in Hlen.
  cbn [length many centrals stats_at fmap list_fmap]. rewrite <-app_assoc. destruct (stat_range o e) as [Hr _]; [done|lia..|].
  rewrite wrap_uint64_id by (unfold in_uint64, max_uint64; lia). erewrite pbind_step by (by apply central_read).
  erewrite pbind_step by (apply IH; [done|lia..]). done.
Qed.

Lemma file_read b pre e post : b = pre ++ record e ++ post → short (e_name e) → Z.of_nat (length b) < 2 ^ 64 →
  file_at b (central_of (stat (Z.of_nat (length pre)) e)) = Some (name_bytes (e_name e), content e).
Proof.
  intros Hb Hn Hlen. destruct (stat_range (Z.of_nat (length pre)) e) as [Hr Hsize]; [done|lia|rewrite Hb, !length_app in Hlen; lia|].
  unfold file_at. change (c_offset _) with (Z.of_nat (length pre)). rewrite Nat2Z.id, Hb, drop_app_length. unfold record. rewrite <-!app_assoc.
  by rewrite (local_read (stat (Z.of_nat (length pre)) e) (content e) _ Hr Hsize eq_refl).
Qed.

Lemma files_read b pre l post : b = pre ++ records l ++ post → Forall (short ∘ e_name) l → Z.of_nat (length b) < 2 ^ 64 →
  mapM (file_at b) (central_of <$> stats_at (Z.of_nat (length pre)) l) = Some (files l).
Proof.
  intros Hb Hs Hlen. apply mapM_Some_2. revert pre Hb. induction l as [|e l IH]; intros pre Hb; [constructor|]. apply Forall_cons in Hs as [Hn Hs].
  rewrite records_cons, <-app_assoc in Hb. cbn [stats_at fmap list_fmap files]. constructor.
  - by eapply file_read.
  - specialize (IH Hs (pre ++ record e)). rewrite length_app, Nat2Z.inj_add, <-app_assoc in IH. by apply IH.
Qed.

(** The three records at the end. *)
Definition end64 (n offset size : Z) : bytes :=
  numbers [uint32 101075792; uint64 44; uint16 45; uint16 45; uint32 0; uint32 0; uint64 n; uint64 n; uint64 size; uint64 offset].
Definition locator (endOffset : Z) : bytes := numbers [uint32 117853008; uint32 0; uint64 endOffset; uint32 1].
Definition final : bytes :=
  numbers [uint32 101010256; uint16 0; uint16 0; uint16 65535; uint16 65535; uint32 4294967295; uint32 4294967295; uint16 0].

Lemma end_split n offset size endOffset : end_bytes n offset size endOffset = end64 n offset size ++ locator endOffset ++ final.
Proof. unfold end_bytes, end64, locator, final. flatten. done. Qed.

Lemma drop_suffix (p q : bytes) k : length q = k → drop (length (p ++ q) - k) (p ++ q) = q.
Proof. intros <-. rewrite length_app. replace (length p + length q - length q)%nat with (length p) by lia. apply drop_app_length. Qed.

Lemma end_read pre n offset size : 0 ≤ n < 2 ^ 64 → 0 ≤ offset < 2 ^ 64 → 0 ≤ size < 2 ^ 64 → Z.of_nat (length pre) < 2 ^ 64 →
  directory (pre ++ end_bytes n offset size (Z.of_nat (length pre))) = Some (n, size, offset).
Proof.
  intros Hn Ho Hs He. rewrite end_split. unfold directory.
  replace (drop (_ - 22) _) with final.
  2: { rewrite !app_assoc. symmetry. apply drop_suffix. reflexivity. }
  assert (read_end final = Some ((65535, 4294967295, 4294967295), [])) as ->.
  { unfold read_end, final. flatten. rewrite <-(app_nil_r (le 2 0)) at 3. do 8 rd. done. }
  cbn [mbind option_bind]. change (65535 =? max16) with true. cbv iota.
  replace (drop (_ - 42) _) with (locator (Z.of_nat (length pre)) ++ final).
  2: { rewrite (app_assoc pre). symmetry. apply drop_suffix. unfold locator. flatten. rewrite !length_app, !le_length. done. }
  assert (read_locator (locator (Z.of_nat (length pre)) ++ final) = Some (Z.of_nat (length pre), final)) as ->.
  { unfold read_locator, locator. flatten. do 4 rd. done. }
  cbn [mbind option_bind]. rewrite Nat2Z.id, drop_app_length. unfold read_end64, end64. flatten. do 10 rd. done.
Qed.

(** An archive is read back. *)
Lemma read_back l : Forall (short ∘ e_name) l →
  let b := records l ++ centrals 0 l in
  let z := b ++ end_bytes (Z.of_nat (length l)) (Z.of_nat (length (records l))) (Z.of_nat (length (centrals 0 l))) (Z.of_nat (length b)) in
  Z.of_nat (length z) < 2 ^ 64 → read_zip z = Some (files l).
Proof.
  intros Hs b z Hlen. assert (Z.of_nat (length b) < 2 ^ 64) as Hb by (unfold z in Hlen; rewrite length_app in Hlen; lia).
  assert (Z.of_nat (length l) ≤ Z.of_nat (length (records l))) as Hl.
  { clear. induction l as [|e l IH]; [done|]. rewrite records_cons, length_app. pose proof (record_length e). cbn [length]. lia. }
  assert (Z.of_nat (length b) = Z.of_nat (length (records l)) + Z.of_nat (length (centrals 0 l))) as Hsum by (unfold b; rewrite length_app; lia).
  unfold read_zip, z. rewrite end_read by lia. cbn [mbind option_bind]. rewrite !Nat2Z.id.
  replace (take _ _) with (centrals 0 l).
  2: { unfold b. rewrite <-app_assoc, drop_app_length. by rewrite take_app_length. }
  assert (many (length l) read_central (centrals 0 l) = Some (central_of <$> stats_at 0 l, [])) as ->.
  { rewrite <-(app_nil_r (centrals 0 l)). apply centrals_read; [done|lia..]. }
  cbn [mbind option_bind]. rewrite bool_decide_eq_true_2 by done.
  apply (files_read _ [] _ (centrals 0 l ++ end_bytes (Z.of_nat (length l)) (Z.of_nat (length (records l))) (Z.of_nat (length (centrals 0 l))) (Z.of_nat (length b)))); [|done|exact Hlen].
  unfold b. by rewrite <-app_assoc.
Qed.

(** ** What the digests say *)

Lemma plain_list c l : Forall (λ a, a ≠ c) l → contains_byte c (string_of_list_ascii l) = false.
Proof. induction 1 as [|a l Ha _ IH]; [done|]. cbn. by rewrite (proj2 (Ascii.eqb_neq a c) Ha). Qed.

Lemma coded a c : byte_code a ≠ byte_code c → a ≠ c.
Proof. by intros Hne ->. Qed.

Lemma decimal_plain c n : 0 ≤ n → byte_code c < 48 → contains_byte c (decimal n) = false.
Proof.
  intros Hn Hc. unfold decimal. destruct (Z.ltb_spec n 0); [lia|]. change ("" +:+ ?s) with s. unfold digit_string. apply plain_list, Forall_fmap.
  eapply Forall_impl; [apply (digits_range 20); lia|]. intros d Hd. cbn in Hd. apply coded. unfold compose, digit. rewrite byte_code_of by lia. lia.
Qed.

Lemma decimal_inj n m : 0 ≤ n < 10 ^ 20 → 0 ≤ m < 10 ^ 20 → decimal n = decimal m → n = m.
Proof.
  intros Hn Hm. unfold decimal. destruct (Z.ltb_spec n 0); [lia|]. destruct (Z.ltb_spec m 0); [lia|]. change ("" +:+ ?s) with s. unfold digit_string.
  intros Heq%(f_equal list_ascii_of_string). rewrite !list_ascii_of_string_of_list_ascii, !Z.abs_eq in Heq by lia.
  rewrite <-(digits_value 20 n), <-(digits_value 20 m) by lia. f_equal.
  pose proof (digits_range 20 n) as Rn. pose proof (digits_range 20 m) as Rm. revert Heq Rn Rm. generalize (digits_of 20 n), (digits_of 20 m).
  induction l as [|x l IH]; intros [|y k] Heq Rn Rm; [done..|]. injection Heq as Hxy Hl. specialize (Rn ltac:(lia)). specialize (Rm ltac:(lia)).
  apply Forall_cons in Rn as [? ?], Rm as [? ?]. f_equal; [|by apply IH]. apply (f_equal byte_code) in Hxy. unfold digit in Hxy.
  rewrite !byte_code_of in Hxy by lia. lia.
Qed.

Lemma hex_digit_code n : 0 ≤ n < 16 → byte_code (hex_digit n) = if bool_decide (n < 10) then 48 + n else 87 + n.
Proof. intros Hn. unfold hex_digit. case_bool_decide; by rewrite byte_code_of by lia. Qed.

Lemma nibbles a : 0 ≤ byte_code a / 16 < 16 ∧ 0 ≤ byte_code a mod 16 < 16.
Proof. pose proof (byte_code_range a). split; [split; [apply Z.div_pos|apply Z.div_lt_upper_bound]; lia|apply Z.mod_pos_bound; lia]. Qed.

Lemma hex_plain c s : byte_code c < 48 → contains_byte c (hex s) = false.
Proof.
  intros Hc. apply plain_list. induction (list_ascii_of_string s) as [|a l IH]; [constructor|]. cbn. destruct (nibbles a) as [H1 H2].
  repeat constructor; [apply coded; rewrite hex_digit_code by done; case_bool_decide; lia..|exact IH].
Qed.

Lemma hex_inj s t : hex s = hex t → s = t.
Proof.
  unfold hex. intros Heq%(f_equal list_ascii_of_string). rewrite !list_ascii_of_string_of_list_ascii in Heq.
  rewrite <-(string_of_list_ascii_of_string s), <-(string_of_list_ascii_of_string t). f_equal. revert Heq.
  generalize (list_ascii_of_string s), (list_ascii_of_string t). induction l as [|a l IH]; intros [|b k]; cbn; [done..|].
  intros [= H1 H2 Hl]. f_equal; [|by apply IH]. apply byte_code_inj. destruct (nibbles a), (nibbles b).
  apply (f_equal byte_code) in H1, H2. rewrite !hex_digit_code in H1, H2 by done.
  rewrite (Z.div_mod (byte_code a) 16), (Z.div_mod (byte_code b) 16) by lia. repeat case_bool_decide; lia.
Qed.

Lemma cut_inj c u u' v v' : contains_byte c u = false → contains_byte c u' = false → u +:+ String c v = u' +:+ String c v' → u = u' ∧ v = v'.
Proof. intros Hu Hu' Heq. pose proof (cut_first_app c u v Hu) as H1. rewrite Heq, (cut_first_app c u' v' Hu') in H1. by simplify_eq. Qed.

(** What the archive says of an entry, and names and counts as the store has them. *)
Definition key (e : archiveEntry) : string * bytes * Z := (e_name e, content e, e_count e).
Definition named (e : archiveEntry) : Prop := contains_byte "000" (e_name e) = false ∧ 0 ≤ e_count e < 2 ^ 63.

Lemma entryDigest_inj e e' r r' : named e → named e' →
  entryDigest (stat 0 e) +:+ r = entryDigest (stat 0 e') +:+ r' →
  e_name e = e_name e' ∧ sha256 (string_of_list_ascii (content e)) = sha256 (string_of_list_ascii (content e')) ∧ e_count e = e_count e' ∧ r = r'.
Proof.
  intros [Hn Hc] [Hn' Hc'] Heq. unfold entryDigest, stat, stats_of in Heq. cbn [s_name s_size s_sha s_count] in Heq.
  assert (∀ z, 0 ≤ wrap_uint64 z) as Hw by (intros z; apply Z.mod_pos_bound; lia).
  rewrite ?string_app_assoc in Heq. cbn [String.append] in Heq.
  apply cut_inj in Heq as [? Heq]; [|done..]. rewrite ?string_app_assoc in Heq. cbn [String.append] in Heq.
  apply cut_inj in Heq as [_ Heq]; [|by apply decimal_plain..]. rewrite ?string_app_assoc in Heq. cbn [String.append] in Heq.
  apply cut_inj in Heq as [Hsha Heq]; [|by apply hex_plain..]. rewrite ?string_app_assoc in Heq. cbn [String.append] in Heq.
  apply cut_inj in Heq as [Hcount Heq]; [|apply decimal_plain; [lia|done]..].
  split_and!; [done|by apply hex_inj|apply decimal_inj; [lia..|done]|done].
Qed.

(** Two walks with the same keys have the same records, directory, digest and manifest. *)
Lemma stat_key e e' o : key e = key e' → stat o e = stat o e'.
Proof. intros [= H1 H2 H3]. unfold stat. by rewrite H1, H2, H3. Qed.

Lemma record_eq e e' : key e = key e' → record e = record e'.
Proof. intros [= H1 H2 H3]. unfold record, stat. by rewrite H1, H2, H3. Qed.

Lemma records_key (l l' : list archiveEntry) : key <$> l = key <$> l' → records l = records l'.
Proof.
  revert l'. induction l as [|e l IH]; intros [|e' l'] Hk; try done. rewrite !fmap_cons in Hk. apply (inj2 cons) in Hk as [He Hl].
  by rewrite !records_cons, (record_eq _ _ He), (IH _ Hl).
Qed.

Lemma centrals_key (l l' : list archiveEntry) o : key <$> l = key <$> l' → centrals o l = centrals o l'.
Proof.
  revert l' o. induction l as [|e l IH]; intros [|e' l'] o Hk; try done. rewrite !fmap_cons in Hk. apply (inj2 cons) in Hk as [Hke Hl]. cbn [centrals].
  rewrite (stat_key _ _ _ Hke), (record_eq _ _ Hke). f_equal. by apply IH.
Qed.

Lemma digest_key (l l' : list archiveEntry) : key <$> l = key <$> l' → digest l = digest l'.
Proof.
  revert l'. induction l as [|e l IH]; intros [|e' l'] Hk; try done. rewrite !fmap_cons in Hk. apply (inj2 cons) in Hk as [Hke Hl]. cbn [digest].
  by rewrite (stat_key _ _ _ Hke), (IH _ Hl).
Qed.

Lemma lines_key (l l' : list archiveEntry) : key <$> l = key <$> l' → manifest_lines l = manifest_lines l'.
Proof.
  unfold manifest_lines. generalize (""%string, 0). revert l'. induction l as [|e l IH]; intros [|e' l'] acc Hk; try done. rewrite !fmap_cons in Hk. apply (inj2 cons) in Hk as [Hke Hl]. cbn [outs].
  unfold line at 1 3, next2 at 2 4. rewrite (stat_key _ _ _ Hke). f_equal. by apply IH.
Qed.

(** No two of the texts that were hashed collide. *)
Definition no_collision (texts : list string) : Prop := ∀ a b, a ∈ texts → b ∈ texts → sha256 a = sha256 b → a = b.
Definition hashed (l : list archiveEntry) : list string := digest l :: ((string_of_list_ascii ∘ content) <$> l).

Lemma digest_inj l l' : Forall named l → Forall named l' → no_collision (hashed l ++ hashed l') → digest l = digest l' → key <$> l = key <$> l'.
Proof.
  intros Hl Hl' Hno Heq. assert (∀ e e', e ∈ l → e' ∈ l' → sha256 (string_of_list_ascii (content e)) = sha256 (string_of_list_ascii (content e')) → content e = content e') as Hc.
  { intros e e' He He' Hs. rewrite <-(list_ascii_of_string_of_list_ascii (content e)), <-(list_ascii_of_string_of_list_ascii (content e')). f_equal.
    apply Hno; [unfold hashed; rewrite elem_of_app, elem_of_cons; left; right; by apply (list_elem_of_fmap_2 (string_of_list_ascii ∘ content))
               |unfold hashed; rewrite elem_of_app, !elem_of_cons; right; right; by apply (list_elem_of_fmap_2 (string_of_list_ascii ∘ content))|done]. }
  clear Hno. revert l' Hl' Heq Hc. induction Hl as [|e l He Hl IH]; intros l' Hl' Heq Hc.
  - destruct l' as [|e' l']; [done|]. exfalso. apply Forall_cons in Hl' as [_ _]. cbn [digest] in Heq. unfold entryDigest in Heq.
    destruct (s_name (stat 0 e')); cbn in Heq; discriminate.
  - destruct Hl' as [|e' l' He' Hl']; [exfalso; cbn [digest] in Heq; unfold entryDigest in Heq; destruct (s_name (stat 0 e)); cbn in Heq; discriminate|].
    cbn [digest] in Heq. apply entryDigest_inj in Heq as (Hn & Hs & Hcount & Heq); [|done..]. rewrite !fmap_cons. f_equal.
    + unfold key. rewrite Hn, Hcount. do 2 f_equal. apply Hc; [set_solver..|done].
    + apply IH; [done..|]. intros x y Hx Hy. apply Hc; set_solver.
Qed.

Lemma same_digest_eq l l' : no_collision (hashed l ++ hashed l') → same_digest sha256 (digest l) (digest l') = true → digest l = digest l'.
Proof. intros Hno Hs%String.eqb_eq%hex_inj. apply Hno; [unfold hashed; set_solver..|done]. Qed.

(** The manifest as one more entry. *)
Definition manifest_entry (skipped : Z) (l : list archiveEntry) : archiveEntry :=
  {| e_name := manifestName; e_chunks := [manifest_text skipped l]; e_count := Z.of_nat (length l); e_failure := None |}.

Lemma manifest_content skipped l : content (manifest_entry skipped l) = manifest_text skipped l.
Proof. unfold content. cbn. apply app_nil_r. Qed.

Lemma records_app l k : records (l ++ k) = records l ++ records k.
Proof. induction l as [|e l IH]; [done|]. cbn [app]. by rewrite !records_cons, IH, app_assoc. Qed.

Lemma body_records l1 l2 skipped : body l1 l2 skipped = records (l1 ++ [manifest_entry skipped l2]).
Proof.
  rewrite records_app, records_cons. unfold body. f_equal. change (records []) with (@nil ascii). rewrite app_nil_r. unfold record, stat.
  by rewrite manifest_content.
Qed.

Lemma centrals_app o l k : centrals o (l ++ k) = centrals o l ++ centrals (o + Z.of_nat (length (records l))) k.
Proof.
  revert o. induction l as [|e l IH]; intros o; cbn [centrals app]; [by rewrite Z.add_0_r|]. rewrite IH, <-app_assoc, records_cons, length_app.
  do 3 f_equal. lia.
Qed.

Lemma index_centrals l1 l2 l3 skipped : key <$> l3 = key <$> l1 → index l1 l2 l3 skipped = centrals 0 (l1 ++ [manifest_entry skipped l2]).
Proof.
  intros Hk. unfold index. rewrite (centrals_key _ _ _ Hk), centrals_app. cbn [centrals]. rewrite app_nil_r, Z.add_0_l. unfold stat. by rewrite manifest_content.
Qed.

Lemma wide_id z : 0 ≤ z < 2 ^ 64 → wrap_uint64 z = z.
Proof. intros. apply wrap_uint64_id. unfold in_uint64, max_uint64. lia. Qed.

(** [C20] Whatever the store did between the walks: an archive that is finished is one file of
    the format in which every reader finds exactly the files of the first walk, whole and
    in order, and a manifest with their names, sizes, hashes and counts; and the
    other walks had seen the same files.  A walk that differs ends in an error. *)
Theorem archive_reads_back (v1 v2 v3 : archiveWalk) (room : option nat) (n : Z) (w : writer)
    (Hnamed : Forall named (entries v1 ++ entries v2 ++ entries v3)) (Hno : no_collision (hashed (entries v1) ++ hashed (entries v2) ++ hashed (entries v3)))
    (Hok : streamArchive sha256 quote prefix v1 v2 v3 {| sunk := []; capacity := room |} = (Ok n, w)) (Hsize : Z.of_nat (length (sunk w)) < 2 ^ 64) :
  n = Z.of_nat (length (entries v1)) ∧ key <$> entries v2 = key <$> entries v1 ∧ key <$> entries v3 = key <$> entries v1 ∧
  read_zip (sunk w) = Some (files (entries v1) ++ [(name_bytes "manifest.json", manifest_text (skippedMedia v2) (entries v1))]).
Proof.
  destruct (stream_spec {| sunk := []; capacity := room |} v1 v2 v3 eq_refl) as [_ Hs]. destruct (Hs _ _ Hok) as (Hag & -> & ->). clear Hs Hok.
  destruct Hag as ([Hf _] & _ & Hd2 & _ & _ & Hd3). cbn [grow sunk app] in *. rewrite !Forall_app in Hnamed. destruct Hnamed as (H1 & H2 & H3).
  assert (key <$> entries v1 = key <$> entries v2) as K2.
  { assert (no_collision (hashed (entries v1) ++ hashed (entries v2))) by (intros a b Ha Hb; apply Hno; set_solver). apply digest_inj; [done..|]. by apply same_digest_eq. }
  assert (key <$> entries v1 = key <$> entries v3) as K3.
  { assert (no_collision (hashed (entries v1) ++ hashed (entries v3))) by (intros a b Ha Hb; apply Hno; set_solver). apply digest_inj; [done..|]. by apply same_digest_eq. }
  set (l := entries v1 ++ [manifest_entry (skippedMedia v2) (entries v2)]).
  assert (length l = S (length (entries v1))) as Hlen by (unfold l; rewrite length_app; cbn; lia).
  assert (Forall (short ∘ e_name) l) as Hshort.
  { apply Forall_app. split; [eapply Forall_impl; [exact Hf|by intros e [? _]]|]. apply Forall_singleton. unfold compose, short. cbn. lia. }
  unfold archive in Hsize |- *. rewrite body_records, index_centrals in Hsize |- * by done. fold l in Hsize |- *. rewrite app_assoc in Hsize |- *.
  assert (Z.of_nat (length (records l ++ centrals 0 l)) < 2 ^ 64) as Hb by (rewrite length_app in Hsize; lia).
  assert (Z.of_nat (length l) ≤ Z.of_nat (length (records l))) as Hcount.
  { clear. generalize l. clear l. induction l as [|e l IH]; [done|]. rewrite records_cons, length_app. pose proof (record_length e). cbn [length]. lia. }
  rewrite length_app in Hb. rewrite (wide_id (Z.of_nat (length (entries v1)))) in * by lia.
  split_and!; [done..|]. replace (Z.of_nat (length (entries v1)) + 1) with (Z.of_nat (length l)) in * by lia.
  rewrite (wide_id (Z.of_nat (length l))), (wide_id (Z.of_nat (length (records l)))), (wide_id (Z.of_nat (length (records l ++ centrals 0 l)))) in Hsize |- *
    by (rewrite ?length_app; lia).
  replace (Z.of_nat (length (records l ++ centrals 0 l)) - Z.of_nat (length (records l))) with (Z.of_nat (length (centrals 0 l))) in Hsize |- * by (rewrite length_app; lia).
  rewrite (wide_id (Z.of_nat (length (centrals 0 l)))) in Hsize |- * by lia. rewrite (read_back l) by done. unfold files, l. rewrite fmap_app. cbn [fmap list_fmap]. rewrite manifest_content.
  unfold manifest_text at 1. by rewrite <-(lines_key _ _ K2).
Qed.

(** A store that holds still is exported: three walks that see the same files, none of
    which fails to be read or has a name that is too long, end in an archive. *)
Theorem archive_completes (v1 v2 v3 : archiveWalk) (w : writer)
    (Hk2 : key <$> entries v2 = key <$> entries v1) (Hk3 : key <$> entries v3 = key <$> entries v1)
    (Hread : Forall writable (entries v1 ++ entries v2 ++ entries v3)) (Hshort : Forall (short ∘ e_name) (entries v1))
    (Hfine : w_failure v1 = None ∧ w_failure v2 = None ∧ w_failure v3 = None) (Hw : sunk w = [] ∧ capacity w = None) :
  ∃ w', streamArchive sha256 quote prefix v1 v2 v3 w = (Ok (wrap_uint64 (Z.of_nat (length (entries v1)))), w').
Proof.
  destruct Hw as [Hw Hc], Hfine as (F1 & F2 & F3). rewrite !Forall_app in Hread. destruct Hread as (R1 & R2 & R3).
  destruct (stream_spec w v1 v2 v3 Hw) as [Hs _]. eexists. apply Hs; [|done]. unfold agreed.
  assert (Forall (short ∘ e_name) (entries v3)) as Hshort3.
  { apply Forall_fmap in Hshort. apply Forall_fmap.
    replace (e_name <$> entries v3) with ((fst ∘ fst) <$> (key <$> entries v3)) by (by rewrite <-list_fmap_compose).
    rewrite Hk3, <-list_fmap_compose. exact Hshort. }
  rewrite (digest_key _ _ Hk2), (digest_key _ _ Hk3), (records_key _ _ Hk3). unfold same_digest. rewrite String.eqb_refl.
  split_and!; try done; by apply Forall_and.
Qed.
End Layout.

(** ** An archive of two files *)
Module Sample.
Definition plain_hash (s : string) : string := s.
Definition quoted (s : string) : string := String "034" (s +:+ String "034" "").
Definition page : archiveEntry := {| e_name := "chats.json"; e_chunks := [name_bytes "["; name_bytes "]"]; e_count := 0; e_failure := None |}.
Definition photo (data : string) : archiveEntry := {| e_name := "media/a/b.jpg"; e_chunks := [name_bytes data]; e_count := 1; e_failure := None |}.
Definition seen (data : string) : archiveWalk := {| entries := [page; photo data]; w_failure := None; skippedMedia := 3 |}.
Definition run (v1 v2 v3 : archiveWalk) (room : option nat) : result string Z * writer :=
  streamArchive plain_hash quoted "{" v1 v2 v3 {| sunk := []; capacity := room |}.

Lemma plain_hash_no_collision l : no_collision plain_hash l.
Proof. by intros a b _ _. Qed.

Lemma archive_reads_back_witness :
  Reader.read_zip (sunk (run (seen "xyz") (seen "xyz") (seen "xyz") None).2) =
  Some (files (entries (seen "xyz")) ++ [(name_bytes "manifest.json", manifest_text plain_hash quoted "{" 3 (entries (seen "xyz")))]).
Proof.
  refine (proj2 (proj2 (proj2 (archive_reads_back plain_hash quoted "{" (seen "xyz") (seen "xyz") (seen "xyz") None 2
    (run (seen "xyz") (seen "xyz") (seen "xyz") None).2 _ (plain_hash_no_collision _) _ _)))).
  - repeat constructor; vm_compute; done.
  - vm_compute. reflexivity.
  - vm_compute. reflexivity.
Defined.

Lemma archive_completes_witness :
  ∃ w', streamArchive plain_hash quoted "{" (seen "xyz") (seen "xyz") (seen "xyz") {| sunk := []; capacity := None |} = (Ok 2, w').
Proof.
  refine (archive_completes plain_hash quoted "{" (seen "xyz") (seen "xyz") (seen "xyz") {| sunk := []; capacity := None |} eq_refl eq_refl _ _ _ _);
    repeat constructor; vm_compute; done.
Defined.

(** A photo that changes between the walks, and a client that goes away. *)
Example changed : (run (seen "xyz") (seen "xyz") (seen "xyZ") None).1 = Err "archive media changed while streaming".
Proof. vm_compute. reflexivity. Qed.
Example changed_early : (run (seen "xyz") (seen "abc") (seen "xyz") None).1 = Err "archive media changed while generating manifest".
Proof. vm_compute. reflexivity. Qed.
Example cut_short : (run (seen "xyz") (seen "xyz") (seen "xyz") (Some 100%nat)).1 = Err "write".
Proof. vm_compute. reflexivity. Qed.
(** The checksum of the format's own example. *)
Example crc_check : crc32 (name_bytes "123456789") = 3421780262.
Proof. vm_compute. reflexivity. Qed.
End Sample.
