(* ===== verification/Snapshot.v ===== *)
(** * Snapshots of the stores ([operator_snapshot.go], [operator_archive_config.go])

    A snapshot is a set of files under one prefix in a private directory: copies of the
    databases and the marker of a pending reset.  The directory is a map from names to
    nodes; every call to the file system and every look at the deadline takes the
    next answer of the environment, so a run may stop at any of them.  What is seen
    of the source, which other processes write to, is an argument. *)
From S2P Require Import Prelude Http Outbound.
#[local] Open Scope Z_scope.

(** ** Names of the directory *)

Definition sentResetMarker : string := "notes.db.ingest-sent-reset".
Definition parts : list string := ["messages.db"; "notes.db"; "whatsapp.db"; sentResetMarker].

Definition digit_at (a : ascii) : option Z := let n := byte_code a - 48 in if (0 <=? n) && (n <=? 9) then Some n else None.
Definition two (a b : ascii) : option Z := x ← digit_at a; y ← digit_at b; Some (10 * x + y).

Definition days_in (year month : Z) : Z :=
  if month =? 2 then (if (year mod 4 =? 0) && (negb (year mod 100 =? 0) || (year mod 400 =? 0)) then 29 else 28)
  else if existsb (Z.eqb month) [4; 6; 9; 11] then 30 else 31.

(** [time.Parse("20060102T150405Z", s)] succeeds. *)
Definition valid_stamp (s : list ascii) : bool :=
  match s with
  | [y1; y2; y3; y4; m1; m2; d1; d2; t; h1; h2; n1; n2; s1; s2; z] =>
      match two y1 y2, two y3 y4, two m1 m2, two d1 d2, two h1 h2, two n1 n2, two s1 s2 with
      | Some ya, Some yb, Some m, Some d, Some h, Some n, Some s =>
          Ascii.eqb t "T" && Ascii.eqb z "Z" && (1 <=? m) && (m <=? 12) && (1 <=? d) && (d <=? days_in (100 * ya + yb) m) &&
          (h <? 24) && (n <? 60) && (s <? 60)
      | _, _, _, _, _, _, _ => false
      end
  | _ => false
  end.

Definition is_hex (a : ascii) : bool :=
  let n := byte_code a in (48 <=? n) && (n <=? 57) || (97 <=? n) && (n <=? 102) || (65 <=? n) && (n <=? 70).

Definition prefixLength : nat := 59.

(** [snapshotSetPrefix]: the prefix of a name of some set, "" for every other name. *)
Definition snapshotSetPrefix (name : string) : string :=
  let l := list_ascii_of_string name in
  let prefix := take prefixLength l in let suffix := string_of_list_ascii (drop prefixLength l) in
  if (length l <=? prefixLength)%nat || negb (bool_decide (take 9 l = list_ascii_of_string "snapshot-")) then ""
  else if negb (bool_decide (suffix ∈ parts)) then ""
  else if negb (bool_decide (prefix !! 25%nat = Some "-"%char)) || negb (bool_decide (prefix !! 58%nat = Some "-"%char)) then ""
  else if negb (valid_stamp (take 16 (drop 9 prefix))) then ""
  else if negb (forallb is_hex (take 32 (drop 26 prefix))) then ""
  else string_of_list_ascii prefix.

(** ** The directory *)

Record node := { n_regular : bool; n_time : Z; n_data : string }.

(** The clock of the environment, the files created so far, and the directory. *)
Record state := { ticks : nat; created : list string; dir : gmap string node }.

Inductive snapshot_error : Type := ErrSpace | ErrOther (why : string).

(** What [snapshotStores] returns: an error of the run, or of its retention
    ([errors.Join(errSnapshotRetention, err)]). *)
Inductive store_error : Type := ErrRun (e : snapshot_error) | ErrRetention (cause : snapshot_error).

Definition M (A : Type) : Type := state → result snapshot_error A * state.
Definition ret {A} (a : A) : M A := λ s, (Ok a, s).
Definition raise {A} (e : snapshot_error) : M A := λ s, (Err e, s).
Definition bind {A B} (m : M A) (k : A → M B) : M B := λ s, match m s with (Ok a, s) => k a s | (Err e, s) => (Err e, s) end.
Notation "x ⇐ m ; k" := (bind m (λ x, k)) (at level 20, m at level 100, k at level 200).

Definition on_dir (f : gmap string node → gmap string node) : M unit :=
  λ s, (Ok tt, {| ticks := ticks s; created := created s; dir := f (dir s) |}).
Definition note_created (name : string) : M unit := λ s, (Ok tt, {| ticks := ticks s; created := created s ++ [name]; dir := dir s |}).
Definition look {A} (f : gmap string node → A) : M A := λ s, (Ok (f (dir s)), s).

(** What is seen of a source file. *)
Inductive lstat : Type := Missing | Unreadable | Seen (regular : bool) (size : Z).

(** What is seen of the reset marker when it is read once. *)
Record marker_view := { mk_lstat : lstat; mk_mode : Z; mk_opens : bool; mk_same : bool; mk_mode_after : Z; mk_reads : option string }.

(** What opening a database finds: its two [Lstat]s are of one file, and the steps between
    succeed; the copy [VACUUM INTO] makes of it. *)
Record db_view := { db_lstat : lstat; db_reached : bool; db_unchanged : bool; db_copy : string }.

(** [privateSnapshotDir]: what is at each component of the path upwards from the directory,
    and what its creation and its opening find. *)
Inductive component : Type := Absent | Broken | RealDirectory | LinkOrFile.
Record directory_view := {
  ancestors : list component; abs_works : bool; mkdir_works : bool; leaf : component; leaf_mode : Z; opens : bool; same : bool; chmod_works : bool; mode_after : Z;
}.

Fixpoint no_links (l : list component) : bool :=
  match l with [] => true | (Absent | RealDirectory) :: l => no_links l | (Broken | LinkOrFile) :: _ => false end.

Definition privateSnapshotDir (directory : string) (v : directory_view) : bool :=
  negb (String.eqb directory "") && abs_works v && no_links (ancestors v) && mkdir_works v &&
  match leaf v with RealDirectory => true | _ => false end && Z.eqb (Z.land (leaf_mode v) 2) 0 && opens v && same v && chmod_works v && Z.eqb (mode_after v) 448.

Record world := {
  source : string → lstat; database : string → db_view; marker_before : marker_view; marker_after : marker_view;
  directory : string; directory_seen : directory_view; freeBytes : option Z; stamp : string; nonce : string; clock : Z;
}.

Section Snapshot.
(** Which call fails, which removal of the clean-up fails, and SHA-256. *)
Context (fails : nat → bool) (stays : string → bool) (sha256 : string → string) (w : world).

(** A call that can fail, and [ctx.Err()]. *)
Definition call (why : string) : M unit :=
  λ s, let s' := {| ticks := S (ticks s); created := created s; dir := dir s |} in
       if fails (ticks s) then (Err (ErrOther why), s') else (Ok tt, s').
Definition alive : M unit := call "context".

(** [openArchiveDB]: a missing optional database is not an error. *)
Definition openArchiveDB (name : string) (optional : bool) : result snapshot_error (option string) :=
  let v := database w name in
  match db_lstat v with
  | Missing => if optional then Ok None else Err (ErrOther "missing")
  | Unreadable => Err (ErrOther "lstat")
  | Seen false _ => Err (ErrOther "archive source must be a regular database")
  | Seen true _ =>
      if negb (db_reached v) then Err (ErrOther "open") else if negb (db_unchanged v) then Err (ErrOther "archive source changed while opening")
      else Ok (Some (db_copy v))
  end.

Definition open_db (name : string) (optional : bool) : M (option string) :=
  match openArchiveDB name optional with Ok r => ret r | Err e => raise e end.

(** [readSentResetIntent] on a system with file modes. *)
Definition owner_only (mode : Z) : bool := Z.eqb (Z.land mode 63) 0.
Definition readSentResetIntent (v : marker_view) : result snapshot_error (option string) :=
  match mk_lstat v with
  | Missing => Ok None
  | Unreadable => Err (ErrOther "lstat")
  | Seen regular size =>
      if negb regular || (128 <? size) then Err (ErrOther "unsafe sent audio reset marker")
      else if negb (owner_only (mk_mode v)) then Err (ErrOther "sent audio reset marker must be owner-only")
      else if negb (mk_opens v) then Err (ErrOther "open")
      else if negb (mk_same v) then Err (ErrOther "sent audio reset marker changed while opening")
      else if negb (owner_only (mk_mode_after v)) then Err (ErrOther "sent audio reset marker must remain owner-only")
      else match mk_reads v with
           | None => Err (ErrOther "read")
           | Some data =>
               if (128 <? String.length data)%nat then Err (ErrOther "sent audio reset marker exceeds limits")
               else if existsb (λ a, 127 <? byte_code a) (list_ascii_of_string data) then Err (ErrOther "sent audio reset marker must be ASCII")
               else Ok (Some data)
           end
  end.

Definition lift {A} (r : result snapshot_error A) : M A := match r with Ok a => ret a | Err e => raise e end.

(** [snapshotRequiredBytes]: unsigned arithmetic, with its two guards. *)
Definition add_size (session : bool) (acc : result snapshot_error Z) (file : string * string) : result snapshot_error Z :=
  match acc with
  | Err e => Err e
  | Ok size =>
      let '(name, suffix) := file in
      if String.eqb name "whatsapp.db" && negb session then Ok size
      else match source w (name +:+ suffix) with
           | Missing => if String.eqb name "notes.db" || negb (String.eqb suffix "") then Ok size else Err (ErrOther "missing")
           | Unreadable => Err (ErrOther "lstat")
           | Seen regular n =>
               if negb regular || (n <? 0) then Err (ErrOther "invalid snapshot database file")
               else if (max_uint64 - size) / 2 <? n then Err ErrSpace
               else Ok (wrap_uint64 (size + n))
           end
  end.

Definition database_files : list (string * string) :=
  [("messages.db", ""); ("messages.db", "-wal"); ("notes.db", ""); ("notes.db", "-wal"); ("whatsapp.db", ""); ("whatsapp.db", "-wal")].

Definition snapshotRequiredBytes (session : bool) : result snapshot_error Z :=
  match foldl (add_size session) (Ok 0) database_files with
  | Err e => Err e
  | Ok size => if (max_uint64 - 16 * 2 ^ 20) / 2 <? size then Err ErrSpace else Ok (wrap_uint64 (2 * size + 16 * 2 ^ 20))
  end.

Record snapshotFile := { Name : string; Size : Z; SHA256 : string }.

Definition partial (name : string) : string := name +:+ ".partial".
Definition fresh_node (data : string) : node := {| n_regular := true; n_time := clock w; n_data := data |}.

(** [root.OpenFile] with [O_CREATE|O_EXCL]. *)
Definition create (name : string) : M unit :=
  _ ⇐ call "create"; there ⇐ look (λ d, bool_decide (is_Some (d !! name)));
  if there : bool then raise (ErrOther "exists") else _ ⇐ on_dir (<[name := fresh_node ""]>); note_created name.
Definition fill (name data : string) : M unit := on_dir (<[name := fresh_node data]>).

Definition described (name data : string) : snapshotFile :=
  {| Name := name; Size := Z.of_nat (String.length data); SHA256 := hex (sha256 data) |}.

(** One database: copied into a partial file, hashed, flushed. *)
Definition copy_database (prefix name data : string) : M snapshotFile :=
  let fileName := prefix +:+ name in
  _ ⇐ create (partial fileName);
  _ ⇐ call "vacuum"; _ ⇐ fill (partial fileName) data;
  _ ⇐ call "stat"; _ ⇐ call "mode";
  _ ⇐ call "copy"; _ ⇐ alive; _ ⇐ call "sync"; _ ⇐ call "close";
  ret (described fileName data).

(** The marker goes with the notes. *)
Definition copy_marker (prefix intent : string) : M snapshotFile :=
  let markerName := prefix +:+ sentResetMarker in
  _ ⇐ create (partial markerName);
  _ ⇐ call "copy"; _ ⇐ fill (partial markerName) intent; _ ⇐ call "sync"; _ ⇐ call "close";
  ret (described markerName intent).

Definition after_notes (prefix : string) (intent : option string) : M (list snapshotFile) :=
  latest ⇐ lift (readSentResetIntent (marker_after w));
  match (match latest with Some _ => latest | None => intent end) with
  | None => ret []
  | Some data => f ⇐ copy_marker prefix data; ret [f]
  end.

Fixpoint copy_all (prefix : string) (session : bool) (intent : option string) (names : list string) : M (list snapshotFile) :=
  match names with
  | [] => ret []
  | name :: names =>
      _ ⇐ alive;
      if String.eqb name "whatsapp.db" && negb session then copy_all prefix session intent names
      else
        db ⇐ open_db name (String.eqb name "notes.db");
        match db with
        | None => copy_all prefix session intent names
        | Some data =>
            f ⇐ copy_database prefix name data;
            extra ⇐ (if String.eqb name "notes.db" then after_notes prefix intent else ret []);
            rest ⇐ copy_all prefix session intent names;
            ret (f :: extra ++ rest)
        end
  end.

(** [root.Rename]: a partial file gets its name. *)
Definition rename (from to : string) (d : gmap string node) : gmap string node :=
  match d !! from with Some n => <[to := n]> (delete from d) | None => d end.

Fixpoint publish (files : list snapshotFile) : M unit :=
  match files with
  | [] => ret tt
  | f :: files =>
      _ ⇐ alive; _ ⇐ call "rename"; _ ⇐ on_dir (rename (partial (Name f)) (Name f)); _ ⇐ note_created (Name f); _ ⇐ call "sync"; publish files
  end.

(** ** Retention *)

(** The newest file time of each set but the current one. *)
Definition other_set (current : string) (entry : string * node) : bool :=
  let prefix := snapshotSetPrefix entry.1 in negb (String.eqb prefix "" || String.eqb prefix current || negb (n_regular entry.2)).
Definition note_set (sets : gmap string Z) (entry : string * node) : gmap string Z :=
  let prefix := snapshotSetPrefix entry.1 in
  match sets !! prefix with
  | Some old => if old <? n_time entry.2 then <[prefix := n_time entry.2]> sets else sets
  | None => <[prefix := n_time entry.2]> sets
  end.

Fixpoint read_entries (current : string) (sets : gmap string Z) (entries : list (string * node)) : M (gmap string Z) :=
  match entries with
  | [] => ret sets
  | e :: entries =>
      _ ⇐ alive;
      if other_set current e then _ ⇐ call "info"; read_entries current (note_set sets e) entries
      else read_entries current sets entries
  end.

(** Newest first, then by name downwards. *)
Definition newer (a b : string * Z) : Prop := b.2 < a.2 ∨ a.2 = b.2 ∧ string_le b.1 a.1.
#[global] Instance newer_dec : RelDecision newer.
Proof. intros a b. unfold newer. apply _. Defined.

Definition ranked (sets : gmap string Z) : list string := fst <$> merge_sort newer (map_to_list sets).

Definition remove_part (prefix name : string) : M unit :=
  _ ⇐ alive; _ ⇐ call "lstat";
  n ⇐ look (λ d, d !! (prefix +:+ name));
  match n with
  | None => ret tt
  | Some n => if n_regular n then _ ⇐ call "remove"; on_dir (delete (prefix +:+ name)) else ret tt
  end.

Fixpoint each {A} (f : A → M unit) (l : list A) : M unit :=
  match l with [] => ret tt | a :: l => _ ⇐ f a; each f l end.

Definition pruneSnapshotSets (current : string) (keep : nat) : M unit :=
  _ ⇐ alive; _ ⇐ call "readdir";
  entries ⇐ look map_to_list;
  sets ⇐ read_entries current ∅ entries;
  _ ⇐ each (λ prefix, each (remove_part prefix) parts) (drop (keep - 1) (ranked sets));
  _ ⇐ alive; call "sync".

(** ** The whole snapshot *)

(** The deferred clean-up ignores its own errors. *)
Definition clean (names : list string) (d : gmap string node) : gmap string node :=
  foldl (λ d name, if stays name then d else delete name d) d names.

Definition set_prefix : string := "snapshot-" +:+ stamp w +:+ "-" +:+ nonce w +:+ "-".

Definition prepare (session : bool) : M (option string) :=
  _ ⇐ (if privateSnapshotDir (directory w) (directory_seen w) then ret tt else raise (ErrOther "directory"));
  required ⇐ lift (snapshotRequiredBytes session);
  intent ⇐ lift (readSentResetIntent (marker_before w));
  _ ⇐ match intent with
      | Some _ => match source w "notes.db" with Seen _ _ => ret tt | _ => raise (ErrOther "reset marker without notes.db") end
      | None => ret tt
      end;
  match freeBytes w with
  | None => raise (ErrOther "free")
  | Some available => if available <? required then raise ErrSpace else _ ⇐ call "nonce"; ret intent
  end.

Definition build (session : bool) (intent : option string) : M (list snapshotFile) :=
  files ⇐ copy_all set_prefix session intent ["messages.db"; "notes.db"; "whatsapp.db"];
  _ ⇐ publish files; _ ⇐ alive; ret files.

(** [snapshotStores]: the files and the error; a set whose retention failed is
    returned with the joined error. *)
Definition snapshotStores (session : bool) (keep : nat) (s : state) : list snapshotFile * option store_error * state :=
  match prepare session {| ticks := ticks s; created := []; dir := dir s |} with
  | (Err e, s) => ([], Some (ErrRun e), s)
  | (Ok intent, s) =>
      match build session intent s with
      | (Err e, s) => ([], Some (ErrRun e), {| ticks := ticks s; created := created s; dir := clean (created s) (dir s) |})
      | (Ok files, s) =>
          match pruneSnapshotSets set_prefix keep s with
          | (Ok _, s) => (files, None, s)
          | (Err e, s) => (files, Some (ErrRetention e), s)
          end
      end
  end.

(** [err == nil || errors.Is(err, errSnapshotRetention)]. *)
Definition published (err : option store_error) : bool := match err with None | Some (ErrRetention _) => true | Some (ErrRun _) => false end.

(** ** What a run leaves behind *)

(** Only created files differ from the directory before, and they are new to it. *)
Definition only_created (d : gmap string node) (s : state) : Prop :=
  (∀ name, name ∉ created s → dir s !! name = d !! name) ∧ (∀ name, name ∈ created s → d !! name = None).

Section Run.
(** The directory before the snapshot. *)
Context (d : gmap string node).
#[local] Hint Extern 0 (_ ⊆ _) => reflexivity : core.

(** The outcome of a step of the copy: whatever happens only created files differ, and a
    step that succeeds kept what was there in [base] and made [Q] true. *)
Definition copied {A} (base : gmap string node) (r : result snapshot_error A * state) (Q : A → state → Prop) : Prop :=
  match r with (Ok a, s) => only_created d s ∧ base ⊆ dir s ∧ Q a s | (Err _, s) => only_created d s end.

Lemma copied_bind {A B} base (m : M A) (k : A → M B) s R Q :
  copied base (m s) R → (∀ a s1, only_created d s1 → base ⊆ dir s1 → R a s1 → copied base (k a s1) Q) → copied base (bind m k s) Q.
Proof. intros Hm Hk. unfold bind. destruct (m s) as [[a|e] s1]; [|done]. destruct Hm as (? & ? & ?). by apply Hk. Qed.

Lemma copied_call base why s : only_created d s → base ⊆ dir s → copied base (call why s) (λ _ s', dir s' = dir s ∧ created s' = created s).
Proof. intros Ho Hb. unfold call. by destruct (fails (ticks s)). Qed.

Lemma copied_lift {A} base (r : result snapshot_error A) s : only_created d s → base ⊆ dir s → copied base (lift r s) (λ a s', r = Ok a ∧ s' = s).
Proof. intros Ho Hb. by destruct r. Qed.

Lemma copied_create base name s : only_created d s → base ⊆ dir s →
  copied base (create name s) (λ _ s', dir s !! name = None ∧ dir s' = <[name := fresh_node ""]> (dir s) ∧ created s' = created s ++ [name]).
Proof.
  intros [H1 H2] Hb. unfold create, bind, call, look, on_dir, note_created, raise. destruct (fails (ticks s)); [done|]. cbn.
  case_bool_decide as Hthere; [done|]. apply eq_None_not_Some in Hthere. cbn. split_and!; [split| |done..]; cbn.
  - intros x Hx. rewrite lookup_insert_ne; [apply H1; set_solver|set_solver].
  - intros x [Hx|Hx]%elem_of_app; [by apply H2|]. apply list_elem_of_singleton in Hx as ->. destruct (decide (name ∈ created s)) as [Hin|Hin]; [by apply H2|].
    by rewrite <-H1.
  - etrans; [exact Hb|]. by apply insert_subseteq.
Qed.

Lemma copied_fill base name data s : only_created d s → name ∈ created s → base ⊆ dir s → base !! name = None →
  copied base (fill name data s) (λ _ s', dir s' = <[name := fresh_node data]> (dir s) ∧ created s' = created s).
Proof.
  intros [H1 H2] Hin Hb Hn. split_and!; [split; cbn; [|done]|cbn|done..].
  - intros x Hx. rewrite lookup_insert_ne; [by apply H1|set_solver].
  - by apply insert_subseteq_r.
Qed.

(** Files that were copied whole, under their partial names. *)
Definition held (made : list string) (files : list snapshotFile) (s : state) : Prop :=
  created s = made ++ ((partial ∘ Name) <$> files) ∧
  Forall (λ f, ∃ data, f = described (Name f) data ∧ dir s !! partial (Name f) = Some (fresh_node data)) files.

Lemma held_nil s : held (created s) [] s.
Proof. split; [by rewrite app_nil_r|constructor]. Qed.

Lemma held_app made l1 l2 s1 s2 : held made l1 s1 → dir s1 ⊆ dir s2 → held (created s1) l2 s2 → held made (l1 ++ l2) s2.
Proof.
  intros [Hc1 H1] Hd [Hc2 H2]. split; [by rewrite Hc2, Hc1, fmap_app, app_assoc|]. apply Forall_app. split; [|done].
  eapply Forall_impl; [exact H1|]. intros f (data & ? & Hl). exists data. split; [done|]. by eapply lookup_weaken.
Qed.

Definition one (name data : string) (made : list string) (f : snapshotFile) (s : state) : Prop := f = described name data ∧ held made [f] s.

Lemma one_intro name data made s : created s = made ++ [partial name] → dir s !! partial name = Some (fresh_node data) → one name data made (described name data) s.
Proof. intros Hc Hd. split; [done|]. split; [done|]. constructor; [by exists data|constructor]. Qed.

Ltac step := eapply copied_bind; [by apply copied_call|cbv beta; intros ? ? ? ? [? ?]].
Ltac filled := eapply copied_bind; [apply copied_fill; [done|repeat match goal with H : created _ = _ |- _ => rewrite H end; set_solver|done|done]|cbv beta; intros ? ? ? ? [? ?]].
Ltac finished := split_and!; [done|done|]; apply one_intro; [congruence|]; repeat match goal with H : dir _ = _ |- _ => rewrite H end; apply lookup_insert_eq.

Lemma copied_database prefix name data s : only_created d s →
  copied (dir s) (copy_database prefix name data s) (one (prefix +:+ name) data (created s)).
Proof.
  intros Ho. unfold copy_database, alive. eapply copied_bind; [by apply copied_create|]. cbv beta. intros _ s1 Ho1 Hb1 (Hn & Hd1 & Hc1).
  step. filled. do 6 step. finished.
Qed.

Lemma copied_marker prefix intent s : only_created d s →
  copied (dir s) (copy_marker prefix intent s) (one (prefix +:+ sentResetMarker) intent (created s)).
Proof.
  intros Ho. unfold copy_marker, alive. eapply copied_bind; [by apply copied_create|]. cbv beta. intros _ s1 Ho1 Hb1 (Hn & Hd1 & Hc1).
  step. filled. do 2 step. finished.
Qed.

(** The names of a part of the set, in the order of the copy. *)
Definition listed (prefix : string) (l : list string) (files : list snapshotFile) : Prop := (Name <$> files) `sublist_of` (String.append prefix <$> l).

Lemma copied_notes prefix intent s : only_created d s →
  copied (dir s) (after_notes prefix intent s) (λ files s', held (created s) files s' ∧ listed prefix [sentResetMarker] files).
Proof.
  intros Ho. unfold after_notes. eapply copied_bind; [by apply copied_lift|]. cbv beta. intros latest s1 _ _ [_ ->].
  destruct (match latest with Some _ => latest | None => intent end) as [data|].
  - eapply copied_bind; [by apply copied_marker|]. cbv beta. intros f s1 Ho1 Hb1 [-> Hh]. split_and!; [done..|]. unfold listed. cbn. done.
  - split_and!; [done..|apply held_nil|apply sublist_nil_l].
Qed.

Definition part_names (session : bool) (names : list string) : list string :=
  mjoin ((λ name, if String.eqb name "whatsapp.db" && negb session then [] else name :: if String.eqb name "notes.db" then [sentResetMarker] else []) <$> names).

Lemma copied_base {A} base base' (r : result snapshot_error A * state) Q Q' :
  copied base r Q → base' ⊆ base → (∀ a s, base ⊆ dir s → Q a s → Q' a s) → copied base' r Q'.
Proof. intros Hr Hb HQ. destruct r as [[a|] s]; [|done]. destruct Hr as (? & ? & ?). split_and!; [done|by etrans|by apply HQ]. Qed.

Lemma copied_mono {A} base (r : result snapshot_error A * state) Q Q' : copied base r Q → (∀ a s, Q a s → Q' a s) → copied base r Q'.
Proof. intros Hr HQ. eapply copied_base; [exact Hr|done|]. intros a s _. apply HQ. Qed.

Lemma openArchiveDB_None name optional : openArchiveDB name optional = Ok None → optional = true.
Proof. unfold openArchiveDB. repeat case_match; naive_solver. Qed.

Lemma copied_all prefix session intent names s : only_created d s →
  copied (dir s) (copy_all prefix session intent names s) (λ files s', held (created s) files s' ∧ listed prefix (part_names session names) files ∧
    (∀ name, name ∈ names → name ≠ "whatsapp.db" → name ≠ "notes.db" → prefix +:+ name ∈ Name <$> files)).
Proof.
  revert s. induction names as [|name names IH]; intros s Ho; cbn [copy_all].
  { split_and!; [done..|apply held_nil|apply sublist_nil_l|set_solver]. }
  eapply copied_bind; [by apply copied_call|]. cbv beta. intros _ s0 Ho0 Hb0 [Hd0 Hc0]. rewrite <-Hd0, <-Hc0.
  change (part_names session (name :: names)) with ((if String.eqb name "whatsapp.db" && negb session then [] else
    name :: if String.eqb name "notes.db" then [sentResetMarker] else []) ++ part_names session names).
  destruct (String.eqb name "whatsapp.db" && negb session) eqn:Hskip.
  { apply andb_true_iff in Hskip as [->%String.eqb_eq _]. eapply copied_mono; [by apply IH|]. cbn [app]. intros files s' (? & ? & Hall). split_and!; [done..|].
    intros x [->|Hx]%elem_of_cons; [done|]. by apply Hall. }
  eapply copied_bind; [apply (copied_lift _ (openArchiveDB name (String.eqb name "notes.db"))); done|]. cbv beta. intros db s1 _ _ [Hdb ->].
  destruct db as [data|].
  2: { assert (name = "notes.db") as -> by by apply openArchiveDB_None in Hdb as ->%String.eqb_eq.
       eapply copied_mono; [by apply IH|]. intros files s' (? & Hl & Hall). split_and!; [done|unfold listed in *; rewrite fmap_app; by apply sublist_inserts_l|].
       intros x [->|Hx]%elem_of_cons; [done|]. by apply Hall. }
  eapply copied_bind; [by apply copied_database|]. cbv beta. intros f s1 Ho1 Hb1 [-> Hh1].
  eapply (copied_bind _ _ _ _ (λ extra s', held (created s1) extra s' ∧ dir s1 ⊆ dir s' ∧ listed prefix (if String.eqb name "notes.db" then [sentResetMarker] else []) extra)).
  { destruct (String.eqb name "notes.db"); [|split_and!; [done..|apply held_nil|done|apply sublist_nil_l]].
    eapply copied_base; [by apply copied_notes|done|]. by intros files s' ? [? ?]. }
  intros extra s2 Ho2 Hb2 (Hh2 & Hb12 & Hl2).
  eapply copied_bind; [eapply copied_base; [by apply IH|done|intros files s' Hb23 Hr; exact (conj Hb23 Hr)]|].
  cbv beta. intros rest s3 Ho3 Hb3 (Hb23 & Hh3 & Hl3 & Hall). split_and!; [done|done| | |].
  - change (described (prefix +:+ name) data :: extra ++ rest) with ([described (prefix +:+ name) data] ++ extra ++ rest).
    eapply held_app; [exact Hh1|by etrans|]. by eapply held_app.
  - unfold listed in *. rewrite fmap_cons, !fmap_app, fmap_cons. cbn [Name described app]. apply sublist_skip. by apply sublist_app.
  - intros x [->|Hx]%elem_of_cons H1 H2; [cbn; set_solver|]. specialize (Hall x Hx H1 H2). rewrite fmap_cons, fmap_app. set_solver.
Qed.

Lemma partial_inj a b : partial a = partial b → a = b.
Proof.
  unfold partial. intros Heq%(f_equal list_ascii_of_string). rewrite !list_ascii_app in Heq. apply app_inv_tail in Heq.
  apply (f_equal string_of_list_ascii) in Heq. by rewrite !string_of_list_ascii_of_string in Heq.
Qed.

(** Publication moves the files of the set to their names and nothing else. *)
Definition moved (files : list snapshotFile) (s s' : state) : Prop :=
  created s' = created s ++ (Name <$> files) ∧
  (∀ f, f ∈ files → dir s' !! Name f = dir s !! partial (Name f) ∧ dir s' !! partial (Name f) = None) ∧
  (∀ n, n ∉ Name <$> files → n ∉ (partial ∘ Name) <$> files → dir s' !! n = dir s !! n).

Lemma renamed_only_created f s n : only_created d s → partial (Name f) ∈ created s → d !! Name f = None →
  only_created d {| ticks := n; created := created s ++ [Name f]; dir := rename (partial (Name f)) (Name f) (dir s) |}.
Proof.
  intros [H1 H2] Hin Hd. split; cbn.
  - intros x Hx. unfold rename. destruct (dir s !! partial (Name f)); [|apply H1; set_solver].
    rewrite lookup_insert_ne, lookup_delete_ne by set_solver. apply H1. set_solver.
  - intros x [Hx|Hx]%elem_of_app; [by apply H2|]. by apply list_elem_of_singleton in Hx as ->.
Qed.

Lemma publish_created files s : only_created d s → NoDup (Name <$> files) →
  (∀ f, f ∈ files → partial (Name f) ∈ created s ∧ is_Some (dir s !! partial (Name f)) ∧ d !! Name f = None ∧ Name f ∉ (partial ∘ Name) <$> files) →
  match publish files s with (Ok _, s') => only_created d s' ∧ moved files s s' | (Err _, s') => only_created d s' end.
Proof.
  revert s. induction files as [|f files IH]; intros s Ho Hnd Hf; cbn [publish].
  { split; [done|]. split_and!; [by rewrite app_nil_r|set_solver|done]. }
  unfold bind, alive, call, on_dir, note_created. destruct (fails (ticks s)); [done|]. cbn. destruct (fails (S (ticks s))); [done|]. cbn.
  destruct (Hf f (list_elem_of_here _ _)) as (Hin & [nd Hnd'] & Hfresh & Hdisj).
  set (s1 := {| ticks := S (S (ticks s)); created := created s ++ [Name f]; dir := rename (partial (Name f)) (Name f) (dir s) |}).
  assert (∀ n, only_created d {| ticks := n; created := created s1; dir := dir s1 |}) as Ho1 by (intros; by apply renamed_only_created).
  destruct (fails _); [apply Ho1|]. rewrite fmap_cons in Hnd, Hdisj. apply NoDup_cons in Hnd as [Hnotin Hnd].
  assert (dir s1 = <[Name f := nd]> (delete (partial (Name f)) (dir s))) as Hd1 by (cbn; unfold rename; by rewrite Hnd').
  assert (∀ g, g ∈ files → Name g ≠ Name f) as Hne by (intros g Hg Heq; apply Hnotin; rewrite <-Heq; by apply list_elem_of_fmap_2).
  assert (∀ g, g ∈ files → dir s1 !! partial (Name g) = dir s !! partial (Name g)) as Hsame.
  { intros g Hg. rewrite Hd1, lookup_insert_ne, lookup_delete_ne; [done| |].
    - intros Heq%partial_inj. by eapply Hne.
    - intros Heq. apply Hdisj. rewrite Heq. right. by apply (list_elem_of_fmap_2 (partial ∘ Name)). }
  set (s2 := {| ticks := S (S (S (ticks s))); created := created s1; dir := dir s1 |}). specialize (IH s2 (Ho1 _) Hnd).
  assert (∀ g, g ∈ files → partial (Name g) ∈ created s2 ∧ is_Some (dir s2 !! partial (Name g)) ∧ d !! Name g = None ∧ Name g ∉ (partial ∘ Name) <$> files) as Hg.
  { intros g Hg. destruct (Hf g (list_elem_of_further _ _ _ Hg)) as (? & ? & ? & Hdg). change (dir s2) with (dir s1). change (created s2) with (created s ++ [Name f]). rewrite (Hsame _ Hg). split_and!; [set_solver|done|done|].
    intros Hx. apply Hdg. rewrite fmap_cons. by right. }
  specialize (IH Hg). change (publish files ?x) with (publish files s2). destruct (publish files s2) as [[u|] s']; [|done]. destruct IH as (? & Hc & Hall & Hrest). split; [done|]. split_and!.
  - rewrite Hc. cbn. by rewrite <-app_assoc.
  - intros g [->|Hgin]%elem_of_cons.
    + assert (partial (Name f) ∉ Name <$> files) as Hp.
      { intros (g & Heq & Hg')%list_elem_of_fmap. destruct (Hf g (list_elem_of_further _ _ _ Hg')) as (_ & _ & _ & Hdg). apply Hdg. rewrite <-Heq. by left. }
      assert (partial (Name f) ∉ (partial ∘ Name) <$> files) as Hp'.
      { intros (g & Heq%partial_inj & Hg')%list_elem_of_fmap. by eapply Hne. }
      assert (Name f ∉ (partial ∘ Name) <$> files) as Hn by (intros Hx; apply Hdisj; by right).
      rewrite !Hrest by done. change (dir s2) with (dir s1). rewrite Hd1, lookup_insert_eq, lookup_insert_ne, lookup_delete_eq by (intros Heq; apply Hdisj, elem_of_cons; left; cbn; congruence).
      by rewrite Hnd'.
    + destruct (Hall g Hgin) as [-> ->]. change (dir s2) with (dir s1). by rewrite Hsame.
  - intros n Hn Hp. rewrite Hrest by set_solver. change (dir s2) with (dir s1). rewrite Hd1, lookup_insert_ne, lookup_delete_ne; [done|set_solver..].
Qed.
End Run.

(** ** Names of a set *)

(** The conditions on the first 59 bytes. *)
Definition good_prefix (l : list ascii) : bool :=
  bool_decide (length l = prefixLength) && bool_decide (take 9 l = list_ascii_of_string "snapshot-") && bool_decide (l !! 25%nat = Some "-"%char) &&
  bool_decide (l !! 58%nat = Some "-"%char) && valid_stamp (take 16 (drop 9 l)) && forallb is_hex (take 32 (drop 26 l)).

Lemma set_prefix_good l part : good_prefix l = true → part ∈ parts → snapshotSetPrefix (string_of_list_ascii l +:+ part) = string_of_list_ascii l.
Proof.
  unfold good_prefix. rewrite !andb_true_iff, !bool_decide_eq_true. intros (((((Hl & H9) & H25) & H58) & Hs) & Hh) Hp. unfold snapshotSetPrefix.
  rewrite list_ascii_app, list_ascii_of_string_of_list_ascii. assert (take prefixLength (l ++ list_ascii_of_string part) = l) as -> by (by apply take_app_length').
  assert (drop prefixLength (l ++ list_ascii_of_string part) = list_ascii_of_string part) as -> by (by apply drop_app_length').
  rewrite string_of_list_ascii_of_string.
  rewrite length_app, take_app_le by (rewrite Hl; unfold prefixLength; lia). rewrite Hl. rewrite (proj2 (Nat.leb_gt _ _)) by (destruct part; [exfalso; revert Hp; vm_compute; set_solver|cbn [list_ascii_of_string length]; lia]).
  rewrite (bool_decide_eq_true_2 _ H9), (bool_decide_eq_true_2 _ Hp), (bool_decide_eq_true_2 _ H25), (bool_decide_eq_true_2 _ H58), Hs, Hh. done.
Qed.

Lemma set_prefix_parse name : snapshotSetPrefix name ≠ "" →
  ∃ l part, good_prefix l = true ∧ part ∈ parts ∧ name = string_of_list_ascii l +:+ part ∧ snapshotSetPrefix name = string_of_list_ascii l.
Proof.
  unfold snapshotSetPrefix. set (l := list_ascii_of_string name). destruct (_ || _) eqn:E1; [done|]. apply orb_false_iff in E1 as [Hlen H9].
  apply Nat.leb_gt in Hlen. apply negb_false_iff in H9. destruct (negb (bool_decide (_ ∈ _))) eqn:E2; [done|]. apply negb_false_iff, bool_decide_eq_true in E2.
  destruct (_ || _) eqn:E3; [done|]. apply orb_false_iff in E3 as [H25 H58]. apply negb_false_iff in H25, H58.
  destruct (negb (valid_stamp _)) eqn:E4; [done|]. destruct (negb (forallb _ _)) eqn:E5; [done|]. apply negb_false_iff in E4, E5. intros _.
  exists (take prefixLength l), (string_of_list_ascii (drop prefixLength l)). split_and!; [|done| |done].
  - unfold good_prefix. rewrite H25, H58, E4, E5, length_take, take_take. rewrite bool_decide_eq_true_2 by lia.
    replace (9 `min` prefixLength)%nat with 9%nat by (unfold prefixLength; lia). by rewrite H9.
  - rewrite <-string_of_list_app, take_drop. unfold l. by rewrite string_of_list_ascii_of_string.
Qed.

(** Removing files of some names, and only regular ones. *)
Definition shrinks (V : string → Prop) (s s' : state) : Prop :=
  ∀ n, dir s' !! n = dir s !! n ∨ dir s' !! n = None ∧ V n ∧ ∃ nd, dir s !! n = Some nd ∧ n_regular nd = true.

Lemma shrinks_same V s s' : dir s' = dir s → shrinks V s s'.
Proof. intros Heq n. left. by rewrite Heq. Qed.

Lemma shrinks_trans V s1 s2 s3 : shrinks V s1 s2 → shrinks V s2 s3 → shrinks V s1 s3.
Proof. intros H1 H2 n. destruct (H1 n) as [E1|(E1 & ? & ?)], (H2 n) as [E2|(E2 & ? & nd & E3 & ?)]; rewrite ?E1 in *; eauto 8. Qed.

Definition gone (s : state) (n : string) : Prop := ∀ nd, dir s !! n = Some nd → n_regular nd = false.

Lemma gone_shrinks V s s' n : shrinks V s s' → gone s n → gone s' n.
Proof. intros Hs Hg nd Hnd. destruct (Hs n) as [E|(E & _)]; [rewrite E in Hnd; by apply Hg|congruence]. Qed.

Definition shrunk (V G : string → Prop) (s : state) (r : result snapshot_error unit * state) : Prop :=
  shrinks V s r.2 ∧ (r.1 = Ok tt → ∀ n, G n → gone r.2 n).

Lemma shrunk_part (V : string → Prop) prefix name s : V (prefix +:+ name) → shrunk V (λ n, n = prefix +:+ name) s (remove_part prefix name s).
Proof.
  intros HV. unfold remove_part, bind, alive, call, look. destruct (fails (ticks s)); [by split; [apply shrinks_same|]|]. cbn.
  destruct (fails (S (ticks s))); [by split; [apply shrinks_same|]|]. cbn. destruct (dir s !! (prefix +:+ name)) as [nd|] eqn:Hn.
  - destruct (n_regular nd) eqn:Hr; cbn.
    + destruct (fails _); [by split; [apply shrinks_same|]|]. unfold on_dir. split; cbn.
      * intros n. cbn. destruct (decide (n = prefix +:+ name)) as [->|]; [right; rewrite lookup_delete_eq; eauto|left; by rewrite lookup_delete_ne].
      * intros _ n -> nd'. cbn. by rewrite lookup_delete_eq.
    + split; [by apply shrinks_same|]. intros _ n -> nd' Hnd'. cbn in Hnd'. congruence.
  - split; [by apply shrinks_same|]. intros _ n -> nd' Hnd'. cbn in Hnd'. congruence.
Qed.

Lemma shrunk_each {A} (V : string → Prop) (G : A → string → Prop) (f : A → M unit) l s :
  (∀ a s, a ∈ l → shrunk V (G a) s (f a s)) → shrunk V (λ n, ∃ a, a ∈ l ∧ G a n) s (each f l s).
Proof.
  revert s. induction l as [|a l IH]; intros s Hf; cbn [each]; [split; [by apply shrinks_same|intros _ n (a & Ha & _); set_solver]|].
  unfold bind. pose proof (Hf a s (list_elem_of_here _ _)) as [Hs Hg]. destruct (f a s) as [[[]|e] s1]; [|by split].
  specialize (IH s1). destruct IH as [Hs' Hg']; [intros; apply Hf; by right|]. cbn in *. split; [by eapply shrinks_trans|].
  intros Hok n (b & [->|Hb]%elem_of_cons & Hn); [by eapply gone_shrinks; [|apply Hg]|apply Hg'; eauto].
Qed.

(** ** The sets of a directory *)

Definition sets_of (current : string) (d : gmap string node) : gmap string Z :=
  foldl note_set ∅ (filter (λ e, other_set current e = true) (map_to_list d)).

Lemma read_entries_ok current m entries s :
  dir (read_entries current m entries s).2 = dir s ∧
  ∀ sets, (read_entries current m entries s).1 = Ok sets → sets = foldl note_set m (filter (λ e, other_set current e = true) entries).
Proof.
  revert m s. induction entries as [|e entries IH]; intros m s; cbn [read_entries].
  { split; [done|]. by intros sets [= ->]. }
  unfold bind, alive, call. destruct (fails (ticks s)); [by split|]. rewrite filter_cons. destruct (other_set current e) eqn:Ho.
  - rewrite decide_True by done. cbn. destruct (fails (S (ticks s))); [by split|].
    exact (IH (note_set m e) {| ticks := S (S (ticks s)); created := created s; dir := dir s |}).
  - rewrite decide_False by done. exact (IH m {| ticks := S (ticks s); created := created s; dir := dir s |}).
Qed.

(** The time of a set is that of its newest file. *)
Definition newest (l : list (string * node)) (p : string) (t : Z) : Prop :=
  (∃ e, e ∈ l ∧ snapshotSetPrefix e.1 = p ∧ n_time e.2 = t) ∧ (∀ e, e ∈ l → snapshotSetPrefix e.1 = p → n_time e.2 ≤ t).

Lemma note_sets l p : match foldl note_set ∅ l !! p with Some t => newest l p t | None => ∀ e, e ∈ l → snapshotSetPrefix e.1 ≠ p end.
Proof.
  induction l as [|e l IH] using rev_ind; [cbn [foldl]; rewrite lookup_empty; set_solver|]. rewrite foldl_snoc. set (m := foldl note_set ∅ l) in *.
  assert (∀ x, x ∈ l ++ [e] ↔ x ∈ l ∨ x = e) as Hin by (intros x; rewrite elem_of_app, list_elem_of_singleton; done).
  unfold note_set. destruct (decide (snapshotSetPrefix e.1 = p)) as [<-|Hne].
  - destruct (m !! snapshotSetPrefix e.1) as [old|] eqn:Hm.
    + destruct IH as [(x & Hx & Hp & Ht) Hmax]. destruct (Z.ltb_spec old (n_time e.2)).
      * rewrite lookup_insert_eq. split; [exists e; rewrite Hin; auto|]. intros y [Hy| ->]%Hin Hyp; [|done]. specialize (Hmax y Hy Hyp). lia.
      * rewrite Hm. split; [exists x; rewrite Hin; auto|]. intros y [Hy| ->]%Hin Hyp; [by apply Hmax|lia].
    + rewrite lookup_insert_eq. split; [exists e; rewrite Hin; auto|]. intros y [Hy| ->]%Hin Hyp; [by destruct (IH y Hy)|lia].
  - assert ((match m !! snapshotSetPrefix e.1 with Some old => if old <? n_time e.2 then <[snapshotSetPrefix e.1:=n_time e.2]> m else m
             | None => <[snapshotSetPrefix e.1:=n_time e.2]> m end) !! p = m !! p) as -> by (repeat case_match; by rewrite ?lookup_insert_ne).
    destruct (m !! p) as [t|].
    + destruct IH as [(x & Hx & Hp & Ht) Hmax]. split; [exists x; rewrite Hin; auto|]. intros y [Hy| ->]%Hin Hyp; [by apply Hmax|done].
    + intros y [Hy| ->]%Hin; [by apply IH|done].
Qed.

Lemma newer_set_total : Total newer.
Proof.
  intros [p t] [q u]. unfold newer. cbn. destruct (Z.lt_trichotomy t u) as [?|[->|?]]; [by right; left| |by left; left].
  destruct (string_leb_total p q); [by right; right|by left; right].
Qed.
Lemma newer_set_trans : Transitive newer.
Proof.
  intros [p t] [q u] [r v]. unfold newer. cbn. intros [?|[? H1]] [?|[? H2]]; [left; lia..|]. right. split; [lia|]. by eapply string_le_trans.
Qed.

(** The sets that are kept are at least as new as those that are not. *)
Lemma ranked_split sets k p q t u : p ∈ take k (ranked sets) → q ∈ drop k (ranked sets) → sets !! p = Some t → sets !! q = Some u → u ≤ t.
Proof.
  clear fails stays sha256 w. unfold ranked. rewrite <-fmap_take, <-fmap_drop. set (l := merge_sort newer (map_to_list sets)).
  intros ([p' t'] & -> & Hp)%list_elem_of_fmap ([q' u'] & -> & Hq)%list_elem_of_fmap Ht Hu. cbn [fst] in *.
  assert (∀ x, x ∈ l → sets !! x.1 = Some x.2) as Hl.
  { intros [x y] Hx. unfold l in Hx. rewrite merge_sort_Permutation in Hx. by apply elem_of_map_to_list. }
  assert (StronglySorted newer l) as Hs by (apply Sorted_StronglySorted; [apply newer_set_trans|apply Sorted_merge_sort, newer_set_total]).
  rewrite <-(take_drop k l) in Hs. apply StronglySorted_app in Hs as (Hs & _ & _). specialize (Hs _ _ Hp Hq).
  assert (sets !! p' = Some t') as Hp' by (apply (Hl (p', t')); rewrite <-(take_drop k l); set_solver).
  assert (sets !! q' = Some u') as Hq' by (apply (Hl (q', u')); rewrite <-(take_drop k l); set_solver).
  simplify_eq. unfold newer in Hs. cbn in Hs. lia.
Qed.

Lemma ranked_elem sets p : p ∈ ranked sets ↔ is_Some (sets !! p).
Proof.
  unfold ranked. rewrite list_elem_of_fmap. setoid_rewrite merge_sort_Permutation. split.
  - intros ([q t] & -> & Hin%elem_of_map_to_list). eauto.
  - intros [t Ht]. exists (p, t). by rewrite elem_of_map_to_list.
Qed.

Lemma ranked_nodup sets : NoDup (ranked sets).
Proof. unfold ranked. rewrite merge_sort_Permutation. apply NoDup_fst_map_to_list. Qed.

Lemma sets_elem current d p : p ∈ ranked (sets_of current d) ↔ p ≠ "" ∧ p ≠ current ∧ ∃ name nd, d !! name = Some nd ∧ n_regular nd = true ∧ snapshotSetPrefix name = p.
Proof.
  clear fails stays sha256 w. rewrite ranked_elem. unfold sets_of. pose proof (note_sets (filter (λ e, other_set current e = true) (map_to_list d)) p) as Hn.
  assert (∀ e, e ∈ filter (λ e, other_set current e = true) (map_to_list d) ↔
    d !! e.1 = Some e.2 ∧ n_regular e.2 = true ∧ snapshotSetPrefix e.1 ≠ "" ∧ snapshotSetPrefix e.1 ≠ current) as Hin.
  { intros [name nd]. rewrite list_elem_of_filter, elem_of_map_to_list. unfold other_set. cbn. rewrite negb_true_iff, !orb_false_iff, negb_false_iff, !String.eqb_neq. tauto. }
  destruct (foldl _ _ _ !! p) as [t|].
  - destruct Hn as [([name nd] & (Hd & Hr & H1 & H2)%Hin & Hp & _) _]. cbn in *. subst p. split; [|eauto]. intros _. eauto 8.
  - split; [by intros [? ?]|]. intros (H1 & H2 & name & nd & Hd & Hr & Hp). exfalso. apply (Hn (name, nd)); [|done]. apply Hin. cbn. rewrite Hp. done.
Qed.

Lemma prune_shrunk current keep s :
  let expired := drop (keep - 1) (ranked (sets_of current (dir s))) in
  shrunk (λ n, snapshotSetPrefix n ∈ expired) (λ n, snapshotSetPrefix n ∈ expired) s (pruneSnapshotSets current keep s).
Proof.
  clear stays sha256 w. intros expired. unfold pruneSnapshotSets. unfold bind at 1, alive, call at 1. destruct (fails (ticks s)); [by split; [apply shrinks_same|]|].
  unfold bind at 1, call at 1. cbn [ticks]. destruct (fails (S (ticks s))); [by split; [apply shrinks_same|]|].
  unfold bind at 1, look at 1. cbn [dir]. unfold bind at 1.
  match goal with |- context [read_entries current ∅ ?l ?x] => pose proof (read_entries_ok current ∅ l x) as [Hd Hsets]; destruct (read_entries current ∅ l x) as [[sets|] s1] end;
    [|by split; [apply shrinks_same|]]. cbn [fst snd] in Hd, Hsets. cbn [dir] in Hd. specialize (Hsets sets eq_refl). fold (sets_of current (dir s)) in Hsets. subst sets.
  assert (∀ p part, p ∈ expired → part ∈ parts → snapshotSetPrefix (p +:+ part) = p) as Hname.
  { intros p part Hp Hpart. assert (p ∈ ranked (sets_of current (dir s))) as Hr by (unfold expired in Hp; rewrite <-(take_drop (keep - 1) (ranked _)); set_solver).
    apply sets_elem in Hr as (Hne & _ & name & nd & _ & _ & <-). destruct (set_prefix_parse name Hne) as (l & part' & Hg & _ & _ & ->). by apply set_prefix_good. }
  unfold bind at 1.
  destruct (shrunk_each (λ n, snapshotSetPrefix n ∈ expired) (λ p n, ∃ part, part ∈ parts ∧ n = p +:+ part) (λ prefix, each (remove_part prefix) parts) expired s1) as [Hs Hg].
  { intros p s2 Hp. apply (shrunk_each _ (λ part n, n = p +:+ part)). intros part s3 Hpart. apply shrunk_part. by rewrite Hname. }
  assert (shrinks (λ n, snapshotSetPrefix n ∈ expired) s s1) as H0 by by apply shrinks_same.
  fold expired. destruct (each _ expired s1) as [[[]|] s2]; [|by split; [eapply shrinks_trans|]]. cbn [fst snd] in *.
  unfold bind, call. destruct (fails (ticks s2)); [by split; [eapply shrinks_trans; [by eapply shrinks_trans|by apply shrinks_same]|]|]. cbn.
  assert (∀ n, gone s2 n ∨ snapshotSetPrefix n ∉ expired) as Hgone.
  { intros n. destruct (decide (snapshotSetPrefix n ∈ expired)) as [Hin|]; [left|by right]. apply Hg; [done|]. exists (snapshotSetPrefix n). split; [done|].
    assert (snapshotSetPrefix n ≠ "") as Hne.
    { assert (snapshotSetPrefix n ∈ ranked (sets_of current (dir s))) as Hr by (unfold expired in Hin; rewrite <-(take_drop (keep - 1) (ranked _)); set_solver). by apply sets_elem in Hr as [? _]. }
    destruct (set_prefix_parse n Hne) as (l & part & _ & Hpart & -> & Hl). exists part. split; [done|]. by rewrite Hl. }
  destruct (fails _); (split; [cbn; eapply shrinks_trans; [by eapply shrinks_trans|by apply shrinks_same]|]); cbn; [done|].
  intros _ n Hn. by destruct (Hgone n).
Qed.

(** [C33] Retention keeps the set just written and the newest of the others, [keep] in all: a
    successful pass leaves every file of those sets and of no set at all alone, and no
    regular file of any other set; and no set that went was newer than one that stayed. *)
Theorem prune_exact (current : string) (keep : nat) (s s' : state) (Hkeep : (1 ≤ keep)%nat) (Hok : pruneSnapshotSets current keep s = (Ok tt, s')) :
  let kept := take (keep - 1) (ranked (sets_of current (dir s))) in
  (length kept < keep)%nat ∧
  (∀ name, snapshotSetPrefix name ∈ "" :: current :: kept → dir s' !! name = dir s !! name) ∧
  (∀ name nd, dir s' !! name = Some nd → n_regular nd = true → snapshotSetPrefix name ∈ "" :: current :: kept) ∧
  (∀ p q t u, p ∈ kept → q ∉ kept → sets_of current (dir s) !! p = Some t → sets_of current (dir s) !! q = Some u → u ≤ t).
Proof.
  clear stays sha256 w. intros kept. destruct (prune_shrunk current keep s) as [Hs Hg]. rewrite Hok in Hs, Hg. cbn in Hs, Hg. specialize (Hg eq_refl).
  pose proof (ranked_nodup (sets_of current (dir s))) as Hnd. rewrite <-(take_drop (keep - 1) (ranked _)) in Hnd. apply NoDup_app in Hnd as (_ & Hdis & _).
  assert (∀ p, p ∈ ranked (sets_of current (dir s)) ↔ p ∈ kept ∨ p ∈ drop (keep - 1) (ranked (sets_of current (dir s)))) as Hsplit.
  { intros p. rewrite <-(take_drop (keep - 1) (ranked _)) at 1. apply elem_of_app. }
  split_and!.
  - unfold kept. rewrite length_take. lia.
  - intros name Hin. destruct (Hs name) as [?|(_ & Hx & _)]; [done|]. exfalso.
    assert (snapshotSetPrefix name ∈ ranked (sets_of current (dir s))) as Hr by (apply Hsplit; by right). apply sets_elem in Hr as (H1 & H2 & _).
    rewrite !elem_of_cons in Hin. destruct Hin as [?|[?|Hk]]; [done..|]. by eapply Hdis.
  - intros name nd Hd Hr. rewrite !elem_of_cons. destruct (decide (snapshotSetPrefix name = "")); [by left|]. destruct (decide (snapshotSetPrefix name = current)); [by right; left|].
    right; right. assert (snapshotSetPrefix name ∈ ranked (sets_of current (dir s))) as [?|Hx]%Hsplit; [|done|].
    + apply sets_elem. split_and!; [done..|]. exists name, nd. split_and!; [|done..]. destruct (Hs name) as [<-|(Hn & _)]; [done|congruence].
    + exfalso. pose proof (Hg name Hx nd Hd). congruence.
  - intros p q t u Hp Hq Ht Hu. eapply (ranked_split _ (keep - 1) p q); [done| |done..].
    assert (q ∈ ranked (sets_of current (dir s))) as [?|?]%Hsplit by (apply ranked_elem; eauto); done.
Qed.

(** ** All or nothing *)

(** A name of the current set has no other prefix. *)
Lemma ascii_length s : length (list_ascii_of_string s) = String.length s.
Proof. induction s as [|a s IH]; cbn; [done|]. by rewrite IH. Qed.

Lemma same_prefix a k part : good_prefix k = true → set_prefix +:+ a = string_of_list_ascii k +:+ part →
  String.length (stamp w) = 16%nat → String.length (nonce w) = 32%nat → string_of_list_ascii k = set_prefix.
Proof.
  unfold good_prefix. rewrite !andb_true_iff, !bool_decide_eq_true. intros (((((Hk & _) & _) & _) & _) & _) Heq%(f_equal list_ascii_of_string) Hs Hn.
  rewrite !list_ascii_app, list_ascii_of_string_of_list_ascii in Heq. apply app_inj_1 in Heq as [<- _].
  - by rewrite string_of_list_ascii_of_string.
  - rewrite Hk. unfold set_prefix. rewrite !list_ascii_app, !length_app, !ascii_length, Hs, Hn. done.
Qed.

Lemma prepare_same session s : dir (prepare session s).2 = dir s ∧ created (prepare session s).2 = created s.
Proof.
  unfold prepare, bind. destruct (privateSnapshotDir _ _); [cbn|done]. destruct (snapshotRequiredBytes session); [cbn|done].
  destruct (readSentResetIntent (marker_before w)) as [intent|]; [cbn|done].
  assert (∀ s', dir s' = dir s ∧ created s' = created s →
    dir ((match freeBytes w with None => raise (ErrOther "free") | Some available => if available <? a then raise ErrSpace else _ ⇐ call "nonce"; ret intent end) s').2 = dir s ∧
    created ((match freeBytes w with None => raise (ErrOther "free") | Some available => if available <? a then raise ErrSpace else _ ⇐ call "nonce"; ret intent end) s').2 = created s) as Hrest.
  { intros s' Hs'. destruct (freeBytes w); [|done]. destruct (_ <? _); [done|]. unfold bind, call. by destruct (fails _). }
  destruct intent as [i|]; [|by apply Hrest]. destruct (source w "notes.db"); [done..|]. by apply Hrest.
Qed.

Lemma append_inj p a b : p +:+ a = p +:+ b → a = b.
Proof. induction p as [|c p IH]; [done|]. cbn. by intros [= ?%IH]. Qed.

Lemma sublist_fmap_inv {A B} (f : A → B) (l : list B) (k : list A) : l `sublist_of` (f <$> k) → ∃ k', l = f <$> k' ∧ k' `sublist_of` k.
Proof.
  revert l. induction k as [|a k IH]; intros l Hl; cbn in Hl.
  - apply sublist_nil_r in Hl as ->. by exists [].
  - apply sublist_cons_r in Hl as [Hl|(l' & -> & Hl)]; destruct (IH _ Hl) as (k' & -> & Hk).
    + exists k'. split; [done|]. by apply sublist_cons.
    + exists (a :: k'). split; [done|]. by apply sublist_skip.
Qed.

Lemma sublist_parts session l : l `sublist_of` part_names session ["messages.db"; "notes.db"; "whatsapp.db"] → ∀ a, a ∈ l → a ∈ parts ∧ (session = false → a ≠ "whatsapp.db").
Proof.
  intros Hl a Ha. assert (a ∈ part_names session ["messages.db"; "notes.db"; "whatsapp.db"]) as Hin by (by eapply elem_of_sublist).
  destruct session; revert Hin; unfold part_names, parts; cbn; rewrite ?elem_of_cons, ?elem_of_nil; intuition (subst; try done; auto).
Qed.

Lemma part_not_partial a b : a ∈ parts → b ∈ parts → a ≠ b +:+ ".partial".
Proof. unfold parts. rewrite !elem_of_cons, !elem_of_nil. intros [->|[->|[->|[->|[]]]]] [->|[->|[->|[->|[]]]]]; vm_compute; done. Qed.

(** The names of the set. *)
Definition of_set (files : list snapshotFile) : Prop := ∃ l, Name <$> files = String.append set_prefix <$> l ∧ NoDup l ∧ Forall (λ a, a ∈ parts) l.

Lemma listed_set session files : listed set_prefix (part_names session ["messages.db"; "notes.db"; "whatsapp.db"]) files →
  of_set files ∧ (session = false → set_prefix +:+ "whatsapp.db" ∉ Name <$> files).
Proof.
  unfold listed. intros Hl. apply sublist_fmap_inv in Hl as (l & Heq & Hl). split.
  - exists l. split_and!; [done| |apply Forall_forall; intros a Ha; by apply (sublist_parts session l)].
    eapply sublist_NoDup; [|exact Hl]. destruct session; apply (bool_decide_unpack _); vm_compute; done.
  - intros Hs. rewrite Heq. intros (a & Ha%append_inj & Hin)%list_elem_of_fmap. subst a.
    destruct (sublist_parts session l Hl "whatsapp.db" Hin) as [_ Hne]. by apply Hne.
Qed.

(** What a finished set looks like. *)
Record finished (d : gmap string node) (files : list snapshotFile) (session : bool) (d' : gmap string node) : Prop := {
  described_all : ∀ f, f ∈ files → ∃ data, f = described (Name f) data ∧ d' !! Name f = Some (fresh_node data);
  nothing_else : ∀ n, has_prefix set_prefix n = true → is_Some (d' !! n) → n ∈ Name <$> files;
  untouched : ∀ n, has_prefix set_prefix n = false → d' !! n = d !! n;
  has_messages : set_prefix +:+ "messages.db" ∈ Name <$> files;
  no_session : session = false → set_prefix +:+ "whatsapp.db" ∉ Name <$> files;
}.

Lemma build_ok d session intent s : only_created d s → created s = [] → (∀ n, has_prefix set_prefix n = true → d !! n = None) →
  match build session intent s with (Ok files, s') => finished d files session (dir s') ∧ of_set files | (Err _, s') => only_created d s' end.
Proof.
  intros Ho Hc Hfresh. unfold build, bind at 1. pose proof (copied_all d set_prefix session intent ["messages.db"; "notes.db"; "whatsapp.db"] s Ho) as Hcopy.
  destruct (copy_all _ _ _ _ s) as [[files|] s1]; [|done]. destruct Hcopy as (Ho1 & _ & [Hc1 Hheld] & Hlisted & Hmsg). rewrite Hc in Hc1. cbn in Hc1.
  destruct (listed_set _ _ Hlisted) as [(l & Hl & Hnd & Hparts) Hsession]. assert (of_set files) as Hset by (exists l; done).
  assert (∀ f, f ∈ files → ∃ a, a ∈ parts ∧ Name f = set_prefix +:+ a) as Hname.
  { intros f Hf. assert (Name f ∈ Name <$> files) as Hin by (by apply list_elem_of_fmap_2). rewrite Hl in Hin.
    apply list_elem_of_fmap in Hin as (a & -> & Ha). exists a. split; [|done]. by apply (proj1 (Forall_forall _ _) Hparts). }
  assert (∀ f, f ∈ files → partial (Name f) ∈ created s1 ∧ is_Some (dir s1 !! partial (Name f)) ∧ d !! Name f = None ∧ Name f ∉ (partial ∘ Name) <$> files) as Hf.
  { intros f Hf. destruct (proj1 (Forall_forall _ _) Hheld f Hf) as (data & _ & Hd). destruct (Hname f Hf) as (a & Ha & Hn). split_and!; [|eauto| |].
    - rewrite Hc1. by apply (list_elem_of_fmap_2 (partial ∘ Name)).
    - apply Hfresh. rewrite Hn. apply has_prefix_true. eauto.
    - intros (g & Heq & Hg)%list_elem_of_fmap. destruct (Hname g Hg) as (b & Hb & Hgn). cbn in Heq. unfold partial in Heq. rewrite Hn, Hgn, string_app_assoc in Heq.
      apply append_inj in Heq. by apply (part_not_partial a b). }
  assert (NoDup (Name <$> files)) as Hnd' by (rewrite Hl; apply NoDup_fmap_2; [intros ???; by eapply append_inj|done]).
  pose proof (publish_created d files s1 Ho1 Hnd' Hf) as Hpub. unfold bind at 1. destruct (publish files s1) as [[[]|] s2]; [|done].
  destruct Hpub as [Ho2 (Hc2 & Hmoved & Hrest)]. unfold bind, alive, call. destruct (fails (ticks s2)); [done|]. cbn. split; [|done]. destruct Ho2 as [Ho2 Ho2'].
  split; cbn.
  - intros f Hin. destruct (proj1 (Forall_forall _ _) Hheld f Hin) as (data & Hdesc & Hd). exists data. split; [done|]. by rewrite (proj1 (Hmoved f Hin)).
  - intros n Hp [nd Hn]. destruct (decide (n ∈ created s2)) as [Hin|Hin]; [|rewrite Ho2, Hfresh in Hn by done; done].
    rewrite Hc2, Hc1, elem_of_app in Hin. destruct Hin as [(f & -> & Hin)%list_elem_of_fmap|]; [|done]. destruct (Hmoved f Hin) as [_ Hx]. cbn in Hn. congruence.
  - intros n Hp. apply Ho2. rewrite Hc2, Hc1, elem_of_app. intros [(f & -> & Hin)%list_elem_of_fmap|(f & -> & Hin)%list_elem_of_fmap];
      destruct (Hname f Hin) as (a & _ & Hn); cbn in Hp; unfold partial in Hp; rewrite Hn, ?string_app_assoc in Hp; apply not_true_iff_false in Hp; apply Hp, has_prefix_true; eauto.
  - apply Hmsg; [set_solver|done..].
  - done.
Qed.

Lemma clean_lookup names dr n : clean names dr !! n = if bool_decide (n ∈ names) && negb (stays n) then None else dr !! n.
Proof.
  unfold clean. revert dr. induction names as [|x names IH]; intros dr; cbn [foldl]; [done|]. rewrite IH. destruct (stays x) eqn:Hx.
  - destruct (decide (n = x)) as [->|]; [by rewrite Hx, !andb_false_r|]. by rewrite (bool_decide_ext (n ∈ x :: names) (n ∈ names)) by set_solver.
  - destruct (decide (n = x)) as [->|Hne]; [rewrite lookup_delete_eq, Hx, (bool_decide_eq_true_2 (x ∈ x :: names)) by set_solver; by destruct (bool_decide (x ∈ names))|].
    rewrite lookup_delete_ne by done. by rewrite (bool_decide_ext (n ∈ x :: names) (n ∈ names)) by set_solver.
Qed.

(** The ranking sees only the sets of the others. *)
Lemma sets_of_ext current d1 d2 :
  (∀ e, other_set current e = true → d1 !! e.1 = Some e.2 ↔ d2 !! e.1 = Some e.2) → sets_of current d1 = sets_of current d2.
Proof.
  clear fails stays sha256 w. intros Hd. unfold sets_of. set (l1 := filter _ (map_to_list d1)). set (l2 := filter _ (map_to_list d2)).
  assert (∀ e, e ∈ l1 ↔ e ∈ l2) as Hin.
  { intros [n nd]. unfold l1, l2. rewrite !list_elem_of_filter, !elem_of_map_to_list. split; intros [Ho Hn]; (split; [done|]); by apply (Hd (n, nd) Ho). }
  apply map_eq. intros p. pose proof (note_sets l1 p) as H1. pose proof (note_sets l2 p) as H2.
  destruct (foldl note_set ∅ l1 !! p) as [t|], (foldl note_set ∅ l2 !! p) as [u|]; [f_equal|exfalso|exfalso|done].
  - destruct H1 as [(x & Hx & Hxp & <-) H1], H2 as [(y & Hy & Hyp & <-) H2].
    pose proof (H1 y (proj2 (Hin y) Hy) Hyp). pose proof (H2 x (proj1 (Hin x) Hx) Hxp). lia.
  - destruct H1 as [(x & Hx & Hxp & _) _]. by apply (H2 x); [apply Hin|].
  - destruct H2 as [(x & Hx & Hxp & _) _]. by apply (H1 x); [apply Hin|].
Qed.

(** The files of the new set are in no other set. *)
Lemma own_set files n : String.length (stamp w) = 16%nat ∧ String.length (nonce w) = 32%nat → of_set files → n ∈ Name <$> files →
  snapshotSetPrefix n = "" ∨ snapshotSetPrefix n = set_prefix.
Proof.
  intros [Hst Hno] (l & Hl & _ & _) Hin. destruct (decide (snapshotSetPrefix n = "")) as [|Hne]; [by left|right].
  rewrite Hl in Hin. apply list_elem_of_fmap in Hin as (a & Ha & _).
  destruct (set_prefix_parse _ Hne) as (k & part & Hg & _ & Hk & Hp). rewrite Hp. rewrite Ha in Hk. by apply (same_prefix _ _ _ Hg Hk).
Qed.

Lemma snapshot_run (session : bool) (keep : nat) (s : state)
    (Hstamp : String.length (stamp w) = 16%nat ∧ String.length (nonce w) = 32%nat)
    (Hfresh : ∀ n, has_prefix set_prefix n = true → dir s !! n = None) :
  match snapshotStores session keep s with
  | (files, err, s') =>
      if published err then
        (∀ f, f ∈ files → ∃ data, f = described (Name f) data ∧ dir s' !! Name f = Some (fresh_node data)) ∧
        (∀ n, has_prefix set_prefix n = true → is_Some (dir s' !! n) → n ∈ Name <$> files) ∧
        set_prefix +:+ "messages.db" ∈ Name <$> files ∧ (session = false → set_prefix +:+ "whatsapp.db" ∉ Name <$> files) ∧
        (∀ n, has_prefix set_prefix n = false → dir s' !! n = dir s !! n ∨
           dir s' !! n = None ∧ (∃ nd, dir s !! n = Some nd ∧ n_regular nd = true) ∧
           snapshotSetPrefix n ∈ drop (keep - 1) (ranked (sets_of set_prefix (dir s)))) ∧
        (err = None → ∀ n nd, dir s' !! n = Some nd → n_regular nd = true →
           snapshotSetPrefix n ∉ drop (keep - 1) (ranked (sets_of set_prefix (dir s))))
      else files = [] ∧ ∀ n, stays n = false → dir s' !! n = dir s !! n
  end.
Proof.
  unfold snapshotStores. destruct (prepare_same session {| ticks := ticks s; created := []; dir := dir s |}) as [Hd Hc].
  destruct (prepare session _) as [[intent|e] s0]; cbn in Hd, Hc; [|cbn; split; [done|intros; by rewrite Hd]].
  assert (only_created (dir s) s0) as Ho by (split; [by rewrite Hd|rewrite Hc; set_solver]).
  pose proof (build_ok (dir s) session intent s0 Ho Hc Hfresh) as Hb.
  destruct (build session intent s0) as [[files|e] s1].
  2: { cbn. split; [done|]. intros n Hn. cbn. rewrite clean_lookup, Hn, andb_true_r. case_bool_decide as Hin; [symmetry; by apply Hb|by apply Hb]. }
  destruct Hb as [[H1 H2 H3 H4 H5] Hset]. destruct (prune_shrunk set_prefix keep s1) as [Hs Hg].
  assert (sets_of set_prefix (dir s1) = sets_of set_prefix (dir s)) as Hsets.
  { apply sets_of_ext. intros [n nd] Hother. cbn. destruct (has_prefix set_prefix n) eqn:Hpre; [|by rewrite H3].
    rewrite (Hfresh n Hpre). split; [|done]. intros Hn. exfalso.
    assert (n ∈ Name <$> files) as Hin by (apply H2; [done|eauto]). unfold other_set in Hother. cbn in Hother.
    apply negb_true_iff in Hother. destruct (own_set files n Hstamp Hset Hin) as [E|E]; rewrite E in Hother; revert Hother; clear;
      rewrite ?String.eqb_refl; by rewrite ?orb_true_r. }
  rewrite Hsets in Hs, Hg. set (expired := drop (keep - 1) _) in *.
  assert (∀ n, snapshotSetPrefix n ∈ expired → snapshotSetPrefix n ≠ "" ∧ snapshotSetPrefix n ≠ set_prefix) as Hexp.
  { intros n Hn. assert (snapshotSetPrefix n ∈ ranked (sets_of set_prefix (dir s))) as Hr by (unfold expired in Hn; rewrite <-(take_drop (keep - 1) (ranked _)); set_solver).
    by apply sets_elem in Hr as (? & ? & _). }
  assert (∀ f, f ∈ files → dir (pruneSnapshotSets set_prefix keep s1).2 !! Name f = dir s1 !! Name f) as Hown.
  { intros f Hf. destruct (Hs (Name f)) as [?|(_ & [Hne Hne']%Hexp & _)]; [done|]. exfalso.
    by destruct (own_set files (Name f) Hstamp Hset (list_elem_of_fmap_2 _ _ _ Hf)). }
  assert (∀ n, has_prefix set_prefix n = true → is_Some (dir (pruneSnapshotSets set_prefix keep s1).2 !! n) → n ∈ Name <$> files) as Honly.
  { intros n Hp Hn. apply H2; [done|]. destruct (Hs n) as [<-|(Hx & _)]; [done|]. rewrite Hx in Hn. by destruct Hn. }
  assert (∀ n, has_prefix set_prefix n = false → dir (pruneSnapshotSets set_prefix keep s1).2 !! n = dir s !! n ∨
     dir (pruneSnapshotSets set_prefix keep s1).2 !! n = None ∧ (∃ nd, dir s !! n = Some nd ∧ n_regular nd = true) ∧ snapshotSetPrefix n ∈ expired) as Hrest.
  { intros n Hp. rewrite <-!(H3 n) by done. destruct (Hs n) as [->|(-> & Hx & Hnd)]; [by left|right]. split_and!; done. }
  destruct (pruneSnapshotSets set_prefix keep s1) as [[[]|e] s2]; cbn [fst snd published] in *.
  - split_and!; [|exact Honly|done|done|exact Hrest|].
    + intros f Hf. rewrite (Hown f Hf). by apply H1.
    + intros _ n nd Hn Hr Hin. pose proof (Hg eq_refl n Hin nd Hn). congruence.
  - split_and!; [|exact Honly|done|done|exact Hrest|done]. intros f Hf. rewrite (Hown f Hf). by apply H1.
Qed.

Lemma snapshot_outcome session keep s : String.length (stamp w) = 16%nat ∧ String.length (nonce w) = 32%nat → (∀ n, has_prefix set_prefix n = true → dir s !! n = None) →
  let '(files, err, _) := snapshotStores session keep s in
  published err = true → set_prefix +:+ "messages.db" ∈ Name <$> files ∧ (session = false → set_prefix +:+ "whatsapp.db" ∉ Name <$> files).
Proof.
  intros Hstamp Hfresh. pose proof (snapshot_run session keep s Hstamp Hfresh) as H. destruct (snapshotStores _ _ _) as [[files err] s'].
  intros Hp. rewrite Hp in H. by destruct H as (_ & _ & ? & ? & _).
Qed.

(** [C17] A snapshot is all or nothing.  A run that returns an error other than the one of
    retention returns no file and leaves the directory as it was, but for
    files its clean-up could not remove.  One that succeeds, or whose retention alone failed, leaves exactly the files it
    returns under its prefix, each with the size and the hash it reports, the messages
    among them and the session only when it was asked for, no partial file, and of the
    rest everything but regular files of the sets that rank behind the newest ones to be kept; and when
    no error is returned no regular file of those sets is left. *)
Theorem snapshot_all_or_nothing (session : bool) (keep : nat) (s : state)
    (Hstamp : String.length (stamp w) = 16%nat ∧ String.length (nonce w) = 32%nat)
    (Hfresh : ∀ n, has_prefix set_prefix n = true → dir s !! n = None) :
  match snapshotStores session keep s with
  | (files, err, s') =>
      if published err then
        (∀ f, f ∈ files → ∃ data, f = described (Name f) data ∧ dir s' !! Name f = Some (fresh_node data)) ∧
        (∀ n, has_prefix set_prefix n = true → is_Some (dir s' !! n) → n ∈ Name <$> files) ∧
        set_prefix +:+ "messages.db" ∈ Name <$> files ∧ (session = false → set_prefix +:+ "whatsapp.db" ∉ Name <$> files) ∧
        (∀ n, has_prefix set_prefix n = false → dir s' !! n = dir s !! n ∨
           dir s' !! n = None ∧ (∃ nd, dir s !! n = Some nd ∧ n_regular nd = true) ∧
           snapshotSetPrefix n ∈ drop (keep - 1) (ranked (sets_of set_prefix (dir s)))) ∧
        (err = None → ∀ n nd, dir s' !! n = Some nd → n_regular nd = true →
           snapshotSetPrefix n ∉ drop (keep - 1) (ranked (sets_of set_prefix (dir s))))
      else files = [] ∧ ∀ n, stays n = false → dir s' !! n = dir s !! n
  end.
Proof. exact (snapshot_run session keep s Hstamp Hfresh). Qed.
End Snapshot.
