(* ===== verification/SnapshotApi.v ===== *)
(** * The snapshot endpoint and its configuration ([operator_snapshot.go], [operator_archive_config.go], [operator_session_read.go])

    Where a snapshot directory may be, who may ask for a snapshot and of what, the table of
    readers of the session database that a logout waits for, and the removal of
    session copies when a device is unlinked. *)
From S2P Require Import Prelude Http Config MediaPath Archive Outbound Snapshot.
#[local] Open Scope Z_scope.

(** ** Configuration *)

Record archiveConfig := { Keep : Z; Session : bool; Timeout : Z }.
Definition minute : Z := 60 * 10 ^ 9.

Definition ranged (raw : string) (low high def : Z) : option Z :=
  if String.eqb raw "" then Some def
  else match Atoi raw with Some n => if (n <? low) || (high <? n) then None else Some n | None => None end.

Definition parseArchiveConfig (getenv : string → string) : result string archiveConfig :=
  match ranged (getenv "WHATSAPP_SNAPSHOT_KEEP") 1 10000 7 with
  | None => Err "WHATSAPP_SNAPSHOT_KEEP must be between 1 and 10000"
  | Some keep =>
      match ranged (getenv "WHATSAPP_OPERATOR_EXPORT_TIMEOUT_MIN") 1 1440 30 with
      | None => Err "WHATSAPP_OPERATOR_EXPORT_TIMEOUT_MIN must be between 1 and 1440"
      | Some minutes =>
          match parseBoolEnv "WHATSAPP_SNAPSHOT_SESSION" (getenv "WHATSAPP_SNAPSHOT_SESSION") false with
          | (session, None) => Ok {| Keep := keep; Session := session; Timeout := minutes * minute |}
          | (_, Some e) => Err e
          end
      end
  end.

(** [archiveTimeout]. *)
Definition archiveTimeout (cfg : archiveConfig) : Z := if 0 <? Timeout cfg then Timeout cfg else 30 * minute.

(** ** Location *)

Inductive resolution : Type := Resolved (p : string) | NotThere | Refused.

Section Location.
(** [filepath.EvalSymlinks] and the working directory. *)
Context (eval : string → resolution) (cwd : string).

Definition Abs (p : string) : string := if IsAbs p then Clean p else Join cwd p.

(** The loop of [snapshotResolvedPath]: [up] is the components of [current], last first. *)
Fixpoint resolve_from (abs : string) (up : list string) : result string string :=
  let current := render (reverse up) in
  match eval current with
  | Resolved r => match Rel current abs with Some rel => Ok (Join r rel) | None => Err "rel" end
  | Refused => Err "resolve"
  | NotThere => match up with [] => Err "resolve" | _ :: up => resolve_from abs up end
  end.
Definition snapshotResolvedPath (name : string) : result string string :=
  let abs := Abs name in resolve_from abs (reverse (components abs)).

(** A path that leaves the root. *)
Definition climbs (rel : string) : bool := String.eqb rel ".." || has_prefix "../" rel.

Fixpoint outside (target : string) (roots : list string) : result string unit :=
  match roots with
  | [] => Ok tt
  | root :: roots =>
      match snapshotResolvedPath root with
      | Err e => Err e
      | Ok resolved =>
          match Rel resolved target with
          | Some rel => if negb (climbs rel) then Err "WHATSAPP_SNAPSHOT_DIR must be outside store, outbox and media roots" else outside target roots
          | None => outside target roots
          end
      end
  end.

(** [validateSnapshotLocation]. *)
Definition snapshot_roots (media store : string) (home : result string string) : result string (list string) :=
  match resolveMediaRootsValue (λ p, match eval p with Resolved r => Some r | _ => None end) media true home None with
  | Err e => Err e
  | Ok roots => match home with Err e => Err e | Ok h => Ok (roots ++ [store; Join h defaultOutboxSubpath]) end
  end.

Definition validateSnapshotLocation (directory store media : string) (home : result string string) : result string unit :=
  if String.eqb directory "" then Ok tt
  else match snapshotResolvedPath directory with
       | Err _ => Err "WHATSAPP_SNAPSHOT_DIR cannot be resolved"
       | Ok target => match snapshot_roots media store home with Err e => Err e | Ok roots => outside target roots end
       end.

Lemma below_stays b : Forall name_ok b → climbs (below b) = false.
Proof.
  intros Hb. unfold climbs. destruct Hb as [|c b (H1 & H2 & H3 & H4) Hb]; [done|]. destruct b as [|x b].
  - change (below [c]) with c. rewrite (proj2 (String.eqb_neq _ _) H3). destruct (has_prefix "../" c) eqn:Hp; [|done].
    apply has_prefix_true in Hp as (t & ->). done.
  - assert (below (c :: x :: b) = c +:+ String "/" (join "/" (x :: b))) as -> by done.
    apply orb_false_iff. split.
    + apply String.eqb_neq. intros Heq. apply (f_equal (contains_byte "/")) in Heq. rewrite contains_byte_app in Heq. cbn in Heq. by rewrite orb_true_r in Heq.
    + destruct (has_prefix _ _) eqn:Hp; [|done]. apply has_prefix_true in Hp as (t & Ht). exfalso. apply H3.
      change ("../" +:+ t) with (".." +:+ String "/" t) in Ht.
      pose proof (cut_first_app "/" c (join "/" (x :: b)) H4) as E1. rewrite Ht in E1. rewrite cut_first_app in E1 by done. by injection E1.
Qed.

(** A snapshot directory that is accepted lies below no root that media are sent from or
    stored in: none of the roots, with links resolved, is the directory or above it. *)
Theorem snapshots_apart (directory store media : string) (home : result string string) (target : string) (roots : list string)
    (Hdir : directory ≠ "") (Htarget : snapshotResolvedPath directory = Ok target) (Hroots : snapshot_roots media store home = Ok roots)
    (Hok : validateSnapshotLocation directory store media home = Ok tt) :
  store ∈ roots ∧ ∀ root, root ∈ roots → ∃ r, snapshotResolvedPath root = Ok r ∧ ∀ a b, Forall name_ok (a ++ b) → r = render a → target ≠ render (a ++ b).
Proof.
  unfold validateSnapshotLocation in Hok. rewrite (proj2 (String.eqb_neq _ _) Hdir), Htarget, Hroots in Hok. split.
  { unfold snapshot_roots in Hroots. destruct (resolveMediaRootsValue _ _ _ _ _); [|done]. destruct home; [|done]. injection Hroots as <-. set_solver. }
  clear Hroots. induction roots as [|root roots IH]; [set_solver|]. cbn [outside] in Hok. destruct (snapshotResolvedPath root) as [r|] eqn:Hr; [|done].
  assert (outside target roots = Ok tt ∧ ∀ a b, Forall name_ok (a ++ b) → r = render a → target ≠ render (a ++ b)) as [Hrest Ha].
  { destruct (Rel r target) as [rel|] eqn:Hrel.
    - destruct (climbs rel) eqn:Hc; [|done]. split; [done|]. intros a b Hab -> ->. rewrite Rel_render in Hrel by done. injection Hrel as <-.
      rewrite below_stays in Hc by (by apply Forall_app in Hab as [_ ?]). done.
    - split; [done|]. intros a b Hab -> ->. by rewrite Rel_render in Hrel. }
  intros x [->|Hx]%elem_of_cons; [by exists r|by apply IH].
Qed.
End Location.

(** ** Readers of the session database *)

(** [archiveSessionReaders]: two slots, each with the reader in it, and the flag a
    logout sets before it waits. *)
Record readers := { operatorLogout : bool; slot0 : option nat; slot1 : option nat }.

(** [beginArchiveSessionRead]: [id] is the new reader. *)
Definition beginArchiveSessionRead (id : nat) (s : readers) : option readers :=
  if operatorLogout s then None
  else match slot0 s, slot1 s with
       | None, _ => Some {| operatorLogout := false; slot0 := Some id; slot1 := slot1 s |}
       | Some _, None => Some {| operatorLogout := false; slot0 := slot0 s; slot1 := Some id |}
       | Some _, Some _ => None
       end.

(** The release of a reader: its own slot is emptied and its channel closed. *)
Definition release (second : bool) (s : readers) : readers :=
  if second then {| operatorLogout := operatorLogout s; slot0 := slot0 s; slot1 := None |}
  else {| operatorLogout := operatorLogout s; slot0 := None; slot1 := slot1 s |}.

Inductive reader_step : readers → readers → Prop :=
| step_begin id s s' : beginArchiveSessionRead id s = Some s' → reader_step s s'
| step_release second s : reader_step s (release second s)
| step_logout s : reader_step s {| operatorLogout := true; slot0 := slot0 s; slot1 := slot1 s |}.

(** [cancelArchiveSessionReads] returns true once every reader it saw has closed. *)
Definition closed (seen s : readers) : Prop :=
  (∀ id, slot0 seen = Some id → slot0 s ≠ Some id) ∧ (∀ id, slot1 seen = Some id → slot1 s ≠ Some id).

Lemma logout_steps s s' : rtc reader_step s s' → operatorLogout s = true →
  operatorLogout s' = true ∧ (slot0 s' = slot0 s ∨ slot0 s' = None) ∧ (slot1 s' = slot1 s ∨ slot1 s' = None).
Proof.
  induction 1 as [s|s1 s2 s3 Hs _ IH]; intros Hl; [auto|]. destruct Hs as [id s1 s2 Hb|second s|s].
  - unfold beginArchiveSessionRead in Hb. by rewrite Hl in Hb.
  - destruct IH as (? & H0 & H1); [by destruct second|]. destruct second; cbn in *; split_and!; intuition congruence.
  - destruct (IH eq_refl) as (? & H0 & H1). auto.
Qed.

(** Once a logout has been announced and its wait is over nothing reads the session
    database any more, whatever readers came and went meanwhile. *)
Theorem logout_waits_for_readers (s s' : readers) (Hflag : operatorLogout s = true) (Hsteps : rtc reader_step s s') (Hclosed : closed s s') :
  slot0 s' = None ∧ slot1 s' = None ∧ ∀ id, beginArchiveSessionRead id s' = None.
Proof.
  destruct (logout_steps _ _ Hsteps Hflag) as (Hl & H0 & H1), Hclosed as [C0 C1]. split_and!.
  - destruct H0 as [H0|?]; [|done]. destruct (slot0 s) as [id|] eqn:E; [|done]. by destruct (C0 id).
  - destruct H1 as [H1|?]; [|done]. destruct (slot1 s) as [id|] eqn:E; [|done]. by destruct (C1 id).
  - intros id. unfold beginArchiveSessionRead. by rewrite Hl.
Qed.

(** ** Unlinking removes session copies *)

Definition trim_suffix (p s : string) : string := if Chats.has_suffix p s then String.substring 0 (String.length s - String.length p) s else s.

(** A copy of the session database, finished or not. *)
Definition session_copy (name : string) : bool :=
  let base := trim_suffix ".partial" name in negb (String.eqb (snapshotSetPrefix base) "") && Chats.has_suffix "-whatsapp.db" base.

Section Removal.
Context (fails : nat → bool).

Definition remove_session (e : string * node) : M unit :=
  if negb (session_copy e.1) then ret tt
  else if negb (n_regular e.2) then raise (ErrOther "session snapshot is not a regular file")
  else bind (call fails "remove") (λ _, on_dir (delete e.1)).

(** [removeSessionSnapshots] in a directory that exists and was opened. *)
Definition removeSessionSnapshots : M unit :=
  bind (call fails "readdir") (λ _, bind (look map_to_list) (λ entries, bind (each remove_session entries) (λ _, call fails "sync"))).

Lemma remove_each l s : 
  match each remove_session l s with
  | (r, s') => (∀ n, session_copy n = false → dir s' !! n = dir s !! n) ∧ (r = Ok tt → ∀ e, e ∈ l → session_copy e.1 = true → dir s' !! e.1 = None) ∧
               (∀ n, dir s !! n = None → dir s' !! n = None)
  end.
Proof.
  revert s. induction l as [|e l IH]; intros s; cbn [each]; [split_and!; [done|set_solver|done]|].
  unfold bind at 1, remove_session at 1. destruct (session_copy e.1) eqn:Hs; cbn [negb].
  2: { unfold ret. specialize (IH s). destruct (each _ l s) as [r s']. destruct IH as (H1 & H2 & H3). split_and!; [done| |done].
       intros Hr x [->|Hx]%elem_of_cons Hxs; [congruence|by apply H2]. }
  destruct (n_regular e.2); cbn [negb]; [|split_and!; done]. unfold bind, call. destruct (fails (ticks s)); [split_and!; done|]. cbn.
  set (s1 := {| ticks := S (ticks s); created := created s; dir := delete e.1 (dir s) |}). specialize (IH s1). destruct (each _ l s1) as [r s']. destruct IH as (H1 & H2 & H3).
  split_and!.
  - intros n Hn. rewrite H1 by done. apply lookup_delete_ne. congruence.
  - intros Hr x [->|Hx]%elem_of_cons Hxs; [apply H3; apply lookup_delete_eq|by apply H2].
  - intros n Hn. apply H3. cbn. destruct (decide (n = e.1)) as [->|]; [apply lookup_delete_eq|by rewrite lookup_delete_ne].
Qed.

(** After a successful pass no copy of the session is left, not even an unfinished one, and
    nothing else was touched. *)
Theorem session_copies_removed (s s' : state) (Hok : removeSessionSnapshots s = (Ok tt, s')) :
  ∀ name, dir s' !! name = if session_copy name then None else dir s !! name.
Proof.
  unfold removeSessionSnapshots, bind, call, look in Hok. destruct (fails (ticks s)); [done|]. cbn [dir] in Hok.
  set (s1 := {| ticks := S (ticks s); created := created s; dir := dir s |}) in Hok. pose proof (remove_each (map_to_list (dir s)) s1) as H.
  destruct (each _ _ s1) as [[[]|] s2]; [|done]. destruct H as (H1 & H2 & H3). assert (dir s' = dir s2) as -> by (destruct (fails _); by simplify_eq).
  intros name. destruct (session_copy name) eqn:Hn; [|by apply H1]. destruct (dir s !! name) as [nd|] eqn:Hd; [|by apply H3].
  apply (H2 eq_refl (name, nd)); [by apply elem_of_map_to_list|done].
Qed.
End Removal.

(** ** The endpoint *)

(** [operatorBoolQuery]: [None] is a query that could not be parsed. *)
Definition operatorBoolQuery (query : option (gmap string (list string))) (key : string) : option bool :=
  q ← query;
  if bool_decide (q = ∅) then Some false
  else if negb (Nat.eqb (size q) 1) then None
  else match q !! key with
       | Some [v] => if String.eqb v "true" then Some true else if String.eqb v "false" then Some false else None
       | _ => None
       end.

Inductive snapshot_reply : Type := Refusal (r : Http.reply) | Made (files : list snapshotFile) (retention_warning : bool).

(** A request: its query, the length of its body, whether another snapshot runs, whether
    the write deadline could be set, and what the context says after the run. *)
Record snapshot_request := { query : option (gmap string (list string)); content_length : Z; busy : bool; deadline_set : bool; expired : bool }.

Section Endpoint.
Context (fails : nat → bool) (stays : string → bool) (sha256 : string → string).

(** [errors.Is(err, errSnapshotSpace)]. *)
Definition is_space (e : store_error) : bool := match e with ErrRun ErrSpace | ErrRetention ErrSpace => true | _ => false end.

Definition snapshot_failed (e : store_error) : snapshot_reply :=
  if is_space e then Refusal (Http.writeError 507 "Snapshot refused: insufficient free space for databases, WAL and safety margin")
  else Refusal (Http.writeError 500 "Snapshot failed; incomplete files were removed").

(** [handleSnapshot]: the reply, the readers while it ran, and the directory. *)
Definition handleSnapshot (cfg : archiveConfig) (r : snapshot_request) (w : world) (rd : readers) (s : state) : snapshot_reply * readers * state :=
  match operatorBoolQuery (query r) "session" with
  | None => (Refusal (Http.writeError 400 "Snapshot accepts only session=true|false and an empty body"), rd, s)
  | Some session =>
      if negb (content_length r =? 0) then (Refusal (Http.writeError 400 "Snapshot accepts only session=true|false and an empty body"), rd, s)
      else if session && negb (Session cfg) then (Refusal (Http.writeError 403 "Session snapshots require WHATSAPP_SNAPSHOT_SESSION=true"), rd, s)
      else if String.eqb (directory w) "" then (Refusal (Http.writeError 503 "WHATSAPP_SNAPSHOT_DIR is not configured"), rd, s)
      else if busy r then (Refusal (Http.writeError 429 "A snapshot is already running"), rd, s)
      else if negb (deadline_set r) then (Refusal (Http.writeError 500 "Snapshot deadline unavailable"), rd, s)
      else match (if session then beginArchiveSessionRead 0 rd else Some rd) with
           | None => (Refusal (Http.writeError 503 "Session snapshot unavailable during operator logout"), rd, s)
           | Some rd =>
               let keep := if 0 <? Keep cfg then Z.to_nat (Keep cfg) else 7%nat in
               match snapshotStores fails stays sha256 w session keep s with
               | (files, None, s) => (Made files false, rd, s)
               | (files, Some e, s) => if negb (published (Some e)) || expired r then (snapshot_failed e, rd, s) else (Made files true, rd, s)
               end
           end
  end.

(** The session database is copied only for a deployment that allows it, with a reader
    registered that a logout waits for, and never while a logout runs. *)
Theorem session_copies_gated (cfg : archiveConfig) (r : snapshot_request) (w : world) (rd rd' : readers) (s s' : state) (files : list snapshotFile) (warned : bool)
    (Hstamp : String.length (stamp w) = 16%nat ∧ String.length (nonce w) = 32%nat)
    (Hfresh : ∀ n, has_prefix (set_prefix w) n = true → dir s !! n = None)
    (Hrun : handleSnapshot cfg r w rd s = (Made files warned, rd', s')) :
  set_prefix w +:+ "messages.db" ∈ Name <$> files ∧
  (set_prefix w +:+ "whatsapp.db" ∈ Name <$> files → Session cfg = true ∧ operatorLogout rd = false ∧ (slot0 rd' = Some 0%nat ∨ slot1 rd' = Some 0%nat)).
Proof.
  unfold handleSnapshot in Hrun. destruct (operatorBoolQuery _ _) as [session|]; [|done]. destruct (content_length r =? 0); cbn [negb] in Hrun; [|done].
  destruct (session && negb (Session cfg)) eqn:Hs; [done|]. destruct (String.eqb _ _); [done|]. destruct (busy r); [done|]. destruct (deadline_set r); cbn [negb] in Hrun; [|done].
  destruct (if session then _ else _) as [rd1|] eqn:Hrd; [|done].
  match type of Hrun with context [snapshotStores _ _ _ _ _ ?k _] => set (keep := k) in Hrun end.
  pose proof (snapshot_outcome fails stays sha256 w session keep s Hstamp Hfresh) as Hall.
  destruct (snapshotStores _ _ _ _ _ keep s) as [[fs err] s1].
  assert (fs = files ∧ rd1 = rd' ∧ published err = true) as (-> & -> & Hpub).
  { destruct err as [e|]; [|by simplify_eq]. destruct (published (Some e)); [|unfold snapshot_failed in Hrun; by destruct (is_space e)]. cbn [negb orb] in Hrun.
    destruct (expired r); [unfold snapshot_failed in Hrun; by destruct (is_space e)|]. by simplify_eq. }
  destruct (Hall Hpub) as (Hmsg & Hno). split; [done|]. intros Hw. destruct session; [|by destruct (Hno eq_refl)].
  cbn in Hs. apply negb_false_iff in Hs. unfold beginArchiveSessionRead in Hrd. destruct (operatorLogout rd) eqn:Hl; [discriminate Hrd|]. split_and!; [done..|].
  destruct (slot0 rd), (slot1 rd); simplify_eq; cbn; auto.
Qed.
End Endpoint.

(** ** A directory with an old set *)
Module Sample.
Definition old_prefix : string := "snapshot-20240102T030405Z-0123456789abcdef0123456789abcdef-".
Definition older_prefix : string := "snapshot-20230102T030405Z-0123456789abcdef0123456789abcdef-".
Definition old_file (t : Z) : node := {| n_regular := true; n_time := t; n_data := "old" |}.

Definition before : state := {| ticks := 0; created := []; dir := <[old_prefix +:+ "messages.db" := old_file 5]> (
  <[old_prefix +:+ "whatsapp.db" := old_file 5]> (<[older_prefix +:+ "messages.db" := old_file 3]> (<["notes.txt" := old_file 1]> ∅))) |}.

Definition seen_marker : marker_view := {| mk_lstat := Missing; mk_mode := 384; mk_opens := true; mk_same := true; mk_mode_after := 384; mk_reads := None |}.
Definition a_world : world := {|
  source := λ n, if String.eqb n "messages.db" then Seen true 100 else if String.eqb n "whatsapp.db" then Seen true 50 else Missing;
  database := λ n, {| db_lstat := if String.eqb n "notes.db" then Missing else Seen true 100; db_reached := true; db_unchanged := true; db_copy := "rows" |};
  marker_before := seen_marker; marker_after := seen_marker; directory := "/backup";
  directory_seen := {| ancestors := [RealDirectory; RealDirectory]; abs_works := true; mkdir_works := true; leaf := RealDirectory; leaf_mode := 448; opens := true; same := true;
                       chmod_works := true; mode_after := 448 |};
  freeBytes := Some (2 ^ 30); stamp := "20250102T030405Z"; nonce := "fedcba9876543210fedcba9876543210"; clock := 9 |}.

Definition steady (n : nat) : bool := false.
Definition removable (n : string) : bool := false.
Definition plain_hash (s : string) : string := s.

Lemma fresh_before n : has_prefix (set_prefix a_world) n = true → dir before !! n = None.
Proof.
  intros (t & ->)%has_prefix_true. unfold before. cbn [dir]. rewrite !lookup_insert_ne; [apply lookup_empty|..]; intros Heq;
    apply (f_equal (take 14 ∘ list_ascii_of_string)) in Heq; vm_compute in Heq; discriminate.
Qed.

Lemma snapshot_all_or_nothing_witness :
  match snapshotStores steady removable plain_hash a_world false 1 before with
  | (files, err, s') => err = None ∧ dir s' !! "notes.txt" = Some (old_file 1) ∧ set_prefix a_world +:+ "messages.db" ∈ Name <$> files ∧ set_prefix a_world +:+ "whatsapp.db" ∉ Name <$> files
  end.
Proof.
  pose proof (snapshot_all_or_nothing steady removable plain_hash a_world false 1 before (conj eq_refl eq_refl) fresh_before) as H.
  assert ((snapshotStores steady removable plain_hash a_world false 1 before).1.2 = None) as Hok by (vm_compute; reflexivity).
  destruct (snapshotStores steady removable plain_hash a_world false 1 before) as [[files err] s']. cbn in Hok. subst err.
  destruct H as (_ & _ & Hm & Hs & Hrest & _). split_and!; [reflexivity| |exact Hm|exact (Hs eq_refl)].
  destruct (Hrest "notes.txt" ltac:(vm_compute; reflexivity)) as [->|(_ & _ & Hin)]; [vm_compute; reflexivity|].
  exfalso. apply (bool_decide_pack _) in Hin. vm_compute in Hin. exact Hin.
Defined.

(** The old sets go, other files stay. *)
Example pruned_on_the_way : let s' := (snapshotStores steady removable plain_hash a_world false 1 before).2 in
  dir s' !! "notes.txt" = Some (old_file 1) ∧ dir s' !! (old_prefix +:+ "messages.db") = None.
Proof. vm_compute. done. Qed.

Lemma prune_exact_witness :
  let kept := take (2 - 1) (ranked (sets_of "x" (dir before))) in
  kept = [old_prefix] ∧ (length kept < 2)%nat.
Proof.
  intros kept. split; [vm_compute; reflexivity|].
  destruct (pruneSnapshotSets steady "x" 2 before) as [r s'] eqn:E. assert ((pruneSnapshotSets steady "x" 2 before).1 = Ok tt) as Hr by (vm_compute; reflexivity). rewrite E in Hr. cbn in Hr. subst r.
  exact (proj1 (prune_exact steady "x" 2 before s' (le_n_S _ _ (le_0_n _)) E)).
Defined.

Lemma logout_waits_for_readers_witness :
  slot0 {| operatorLogout := true; slot0 := None; slot1 := None |} = None ∧ slot1 {| operatorLogout := true; slot0 := None; slot1 := None |} = None ∧
  ∀ id, beginArchiveSessionRead id {| operatorLogout := true; slot0 := None; slot1 := None |} = None.
Proof.
  refine (logout_waits_for_readers {| operatorLogout := true; slot0 := Some 3%nat; slot1 := None |} _ eq_refl _ _).
  - apply rtc_once. exact (step_release false {| operatorLogout := true; slot0 := Some 3%nat; slot1 := None |}).
  - by split.
Defined.

Lemma session_copies_removed_witness :
  dir (removeSessionSnapshots steady before).2 !! (old_prefix +:+ "whatsapp.db") = None ∧ dir (removeSessionSnapshots steady before).2 !! "notes.txt" = Some (old_file 1).
Proof.
  assert (removeSessionSnapshots steady before = (Ok tt, (removeSessionSnapshots steady before).2)) as E by (vm_compute; reflexivity).
  pose proof (session_copies_removed steady before _ E) as H. rewrite !H. split; vm_compute; reflexivity.
Defined.

Definition ask (session : string) (late : bool) : snapshot_request :=
  {| query := Some {["session" := [session]]}; content_length := 0; busy := false; deadline_set := true; expired := late |}.
Definition idle : readers := {| operatorLogout := false; slot0 := None; slot1 := None |}.
Definition allowing : archiveConfig := {| Keep := 7; Session := true; Timeout := 0 |}.

Definition made (r : snapshot_reply) : bool := match r with Made _ _ => true | Refusal _ => false end.

Lemma session_copies_gated_witness :
  match handleSnapshot steady removable plain_hash allowing (ask "true" false) a_world idle before with
  | (Made files _, _, _) => set_prefix a_world +:+ "messages.db" ∈ Name <$> files
  | _ => False
  end.
Proof.
  assert (made (handleSnapshot steady removable plain_hash allowing (ask "true" false) a_world idle before).1.1 = true) as Hm by (vm_compute; reflexivity).
  destruct (handleSnapshot steady removable plain_hash allowing (ask "true" false) a_world idle before) as [[[r|files warned] rd'] s'] eqn:E; [discriminate Hm|].
  exact (proj1 (session_copies_gated steady removable plain_hash allowing (ask "true" false) a_world idle rd' before s' files warned (conj eq_refl eq_refl) fresh_before E)).
Defined.

Definition at_home (p : string) : resolution := if String.eqb p "/" || String.eqb p "/srv" then Resolved p else NotThere.

Lemma snapshots_apart_witness :
  "/srv/store" ∈ ["/srv/media"; "/srv/store"; "/home/u/.local/share/whatsapp-mcp/outbox"] ∧
  ∃ r, snapshotResolvedPath at_home "/" "/srv/media" = Ok r ∧ ∀ a b, Forall name_ok (a ++ b) → r = render a → "/srv/backup" ≠ render (a ++ b).
Proof.
  destruct (snapshots_apart at_home "/" "/srv/backup" "/srv/store" "/srv/media" (Ok "/home/u") "/srv/backup"
    ["/srv/media"; "/srv/store"; "/home/u/.local/share/whatsapp-mcp/outbox"] ltac:(done) ltac:(vm_compute; reflexivity) ltac:(vm_compute; reflexivity) ltac:(vm_compute; reflexivity)) as [H1 H2].
  split; [exact H1|]. apply H2. left.
Defined.

(** A deadline that passes while old sets are pruned: the reply says that the snapshot failed
    and that its files were removed, but the finished set stays. *)
Definition late (n : nat) : bool := Nat.leb 20 n.
Example late_deadline_keeps_files :
  let '(reply, _, s') := handleSnapshot late removable plain_hash allowing (ask "false" true) a_world idle before in
  reply = Refusal (Http.writeError 500 "Snapshot failed; incomplete files were removed") ∧
  is_Some (dir s' !! (set_prefix a_world +:+ "messages.db")).
Proof. vm_compute. eauto. Qed.
End Sample.
