(* ===== verification/Operator.v ===== *)
(** * The operator listener ([operator.go])

    [Limiter] is the token bucket of one class of callers; its numbers are rationals, the
    exact values the floating point code approximates.  [Front] is the chain every
    request passes: the peer's budget, Host and token, Origin, the operator's budget,
    and the route; with the audit line it leaves. *)
From Stdlib Require Import QArith Qround Lqa.
From S2P Require Import Prelude Http Rest.
#[local] Open Scope Z_scope.

Module Limiter.

Record operatorBucket := { tokens : Q; at_ : Z }.
Record operatorLimiter := { buckets : gmap string operatorBucket; capacity : Z }.

Definition newOperatorLimiter (capacity : Z) : operatorLimiter := {| buckets := ∅; capacity := capacity |}.

Definition second : Z := 10 ^ 9.
Definition idle_limit : Z := 10 * 60 * second.
Definition max_buckets : nat := 1024.

(** [now.Sub(at).Seconds()*capacity/60], in tokens. *)
Definition refill (capacity elapsed : Z) : Q := (inject_Z (elapsed * capacity) / inject_Z (60 * second))%Q.
Definition qmin (x y : Q) : Q := if Qle_bool x y then x else y.

Definition evict (now : Z) (m : gmap string operatorBucket) : gmap string operatorBucket :=
  filter (λ kb : string * operatorBucket, ¬ (idle_limit < now - at_ kb.2)) m.

Definition with_buckets (l : operatorLimiter) (m : gmap string operatorBucket) : operatorLimiter := {| buckets := m; capacity := capacity l |}.

(** [take]: the delay to announce, 0 for a request that may pass. *)
Definition take (l : operatorLimiter) (now : Z) (key : string) : Z * operatorLimiter :=
  let '(l, found) := match buckets l !! key with
                     | Some b => (l, Some b)
                     | None => let l := with_buckets l (evict now (buckets l)) in
                               (l, if (max_buckets <=? size (buckets l))%nat then None else Some {| tokens := inject_Z (capacity l); at_ := now |})
                     end in
  match found with
  | None => (60, l)
  | Some b =>
      let level := qmin (inject_Z (capacity l)) (tokens b + refill (capacity l) (now - at_ b))%Q in
      if negb (Qle_bool 1 level) then
        (Z.max 1 (Qceiling ((1 - level) * 60 / inject_Z (capacity l))%Q), with_buckets l (<[key := {| tokens := level; at_ := now |}]> (buckets l)))
      else (0, with_buckets l (<[key := {| tokens := (level - 1)%Q; at_ := now |}]> (buckets l)))
  end.

(** ** The rate *)

(** What a caller could still spend at once: a forgotten caller counts as full. *)
Definition level (l : operatorLimiter) (now : Z) (key : string) : Q :=
  match buckets l !! key with
  | Some b => qmin (inject_Z (capacity l)) (tokens b + refill (capacity l) (now - at_ b))%Q
  | None => inject_Z (capacity l)
  end.

Definition good (l : operatorLimiter) (now : Z) : Prop :=
  0 < capacity l ∧ map_Forall (λ _ b, (0 <= tokens b)%Q ∧ at_ b ≤ now) (buckets l).

Lemma qmin_cases x y : (qmin x y == x ∧ x <= y)%Q ∨ (qmin x y == y ∧ y <= x)%Q.
Proof.
  unfold qmin. destruct (Qle_bool x y) eqn:E; [left; split; [reflexivity|by apply Qle_bool_iff]|right; split; [reflexivity|]].
  apply Qlt_le_weak, Qnot_le_lt. rewrite <-Qle_bool_iff. congruence.
Qed.

Lemma refill_add c a b : (refill c (a + b) == refill c a + refill c b)%Q.
Proof. unfold refill. rewrite Z.mul_add_distr_r, inject_Z_plus. field. done. Qed.

Lemma refill_nonneg c a : 0 ≤ c → 0 ≤ a → (0 <= refill c a)%Q.
Proof.
  intros Hc Ha. unfold refill. apply Qle_shift_div_l; [done|]. rewrite Qmult_0_l. change 0%Q with (inject_Z 0). rewrite <-Zle_Qle. lia.
Qed.

(** Ten idle minutes fill any bucket. *)
Lemma refill_full c a : 0 < c → idle_limit < a → (inject_Z c <= refill c a)%Q.
Proof.
  intros Hc Ha. unfold refill. apply Qle_shift_div_l; [done|]. rewrite <-inject_Z_mult, <-Zle_Qle. unfold idle_limit, second in *. nia.
Qed.

Lemma level_later l now later key : good l now → now ≤ later → (level l later key <= level l now key + refill (capacity l) (later - now))%Q.
Proof.
  intros [Hc Hb] Hl. pose proof (refill_nonneg (capacity l) (later - now)) as Hr. specialize (Hr ltac:(lia) ltac:(lia)). unfold level.
  destruct (buckets l !! key) as [b|]; [|lra].
  assert (refill (capacity l) (later - at_ b) == refill (capacity l) (now - at_ b) + refill (capacity l) (later - now))%Q as He
    by (rewrite <-refill_add; f_equiv; lia).
  destruct (qmin_cases (inject_Z (capacity l)) (tokens b + refill (capacity l) (now - at_ b))%Q) as [[-> ?]|[-> ?]],
    (qmin_cases (inject_Z (capacity l)) (tokens b + refill (capacity l) (later - at_ b))%Q) as [[-> ?]|[-> ?]]; rewrite ?He in *; lra.
Qed.

Lemma level_nonneg l now key : good l now → (0 <= level l now key)%Q.
Proof.
  intros [Hc Hb]. unfold level. assert (0 <= inject_Z (capacity l))%Q as Hq by (change 0%Q with (inject_Z 0); rewrite <-Zle_Qle; lia).
  destruct (buckets l !! key) as [b|] eqn:E; [|done]. destruct (Hb _ _ E) as [Ht Ha]. pose proof (refill_nonneg (capacity l) (now - at_ b)) as Hr.
  specialize (Hr ltac:(lia) ltac:(lia)). destruct (qmin_cases (inject_Z (capacity l)) (tokens b + refill (capacity l) (now - at_ b))%Q) as [[-> ?]|[-> ?]]; lra.
Qed.

Lemma level_le_capacity l now key : (level l now key <= inject_Z (capacity l))%Q.
Proof. unfold level. destruct (buckets l !! key); [|lra]. destruct (qmin_cases (inject_Z (capacity l)) (tokens o + refill (capacity l) (now - at_ o))%Q) as [[-> ?]|[-> ?]]; lra. Qed.

Lemma evict_level l now key : good l now → (level (with_buckets l (evict now (buckets l))) now key == level l now key)%Q.
Proof.
  intros [Hc Hb]. unfold level. cbn [buckets capacity with_buckets]. destruct (buckets l !! key) as [b|] eqn:E.
  - destruct (decide (idle_limit < now - at_ b)) as [Hi|Hi].
    + assert (evict now (buckets l) !! key = None) as ->.
      { apply map_lookup_filter_None. right. intros x Hx. cbn. replace x with b by congruence. auto. }
      pose proof (refill_full (capacity l) (now - at_ b) Hc Hi). destruct (Hb _ _ E) as [Ht _].
      destruct (qmin_cases (inject_Z (capacity l)) (tokens b + refill (capacity l) (now - at_ b))%Q) as [[-> ?]|[-> ?]]; lra.
    + assert (evict now (buckets l) !! key = Some b) as -> by (by apply map_lookup_filter_Some). reflexivity.
  - assert (evict now (buckets l) !! key = None) as -> by (apply map_lookup_filter_None; by left). reflexivity.
Qed.

Lemma evict_good l now : good l now → good (with_buckets l (evict now (buckets l))) now.
Proof. intros [Hc Hb]. split; [done|]. intros k b [Hk _]%map_lookup_filter_Some. by eapply Hb. Qed.

(** What one bucket does. *)
Lemma spend_ok l now key b : good l now → (0 <= tokens b)%Q → at_ b ≤ now →
  let lv := qmin (inject_Z (capacity l)) (tokens b + refill (capacity l) (now - at_ b))%Q in
  ∀ rest, (0 <= rest <= lv)%Q → let l' := with_buckets l (<[key := {| tokens := rest; at_ := now |}]> (buckets l)) in
  good l' now ∧ (level l' now key == rest)%Q ∧ ∀ k, k ≠ key → level l' now k = level l now k.
Proof.
  intros [Hc Hb] Ht Ha lv rest Hrest l'. split_and!.
  - split; [done|]. apply map_Forall_insert_2; [cbn; split; [lra|lia]|done].
  - unfold level, l'. cbn [buckets capacity with_buckets]. rewrite lookup_insert_eq. cbn [tokens at_]. rewrite Z.sub_diag.
    assert (refill (capacity l) 0 == 0)%Q as Hz by (unfold refill; cbn; reflexivity).
    assert (lv <= inject_Z (capacity l))%Q by (unfold lv; destruct (qmin_cases (inject_Z (capacity l)) (tokens b + refill (capacity l) (now - at_ b))%Q) as [[-> ?]|[-> ?]]; lra).
    destruct (qmin_cases (inject_Z (capacity l)) (rest + refill (capacity l) 0)%Q) as [[-> ?]|[-> ?]]; rewrite Hz in *; lra.
  - intros k Hk. unfold level, l'. cbn [buckets capacity with_buckets]. by rewrite lookup_insert_ne.
Qed.

Definition spent (d : Z) : Q := if d =? 0 then 1 else 0.

Lemma take_spends l now key d l' : good l now → (size (buckets l) ≤ max_buckets)%nat → take l now key = (d, l') →
  good l' now ∧ capacity l' = capacity l ∧ (size (buckets l') ≤ max_buckets)%nat ∧ 0 ≤ d ∧
  (level l' now key == level l now key - spent d)%Q ∧ ∀ k, k ≠ key → (level l' now k == level l now k)%Q.
Proof.
  intros Hg Hsize. unfold take.
  assert (∀ l1 b, good l1 now → capacity l1 = capacity l → (∀ k, level l1 now k == level l now k)%Q → (0 <= tokens b)%Q → at_ b ≤ now →
    (qmin (inject_Z (capacity l1)) (tokens b + refill (capacity l1) (now - at_ b)) == level l now key)%Q →
    (∀ x, size (<[key := x]> (buckets l1)) ≤ max_buckets)%nat → ∀ lv, lv = qmin (inject_Z (capacity l1)) (tokens b + refill (capacity l1) (now - at_ b))%Q →
    (if negb (Qle_bool 1 lv) then
        (Z.max 1 (Qceiling ((1 - lv) * 60 / inject_Z (capacity l1))%Q), with_buckets l1 (<[key := {| tokens := lv; at_ := now |}]> (buckets l1)))
      else (0, with_buckets l1 (<[key := {| tokens := (lv - 1)%Q; at_ := now |}]> (buckets l1)))) = (d, l') →
    good l' now ∧ capacity l' = capacity l ∧ (size (buckets l') ≤ max_buckets)%nat ∧ 0 ≤ d ∧
    (level l' now key == level l now key - spent d)%Q ∧ ∀ k, k ≠ key → (level l' now k == level l now k)%Q) as Hspend.
  { intros l1 b Hg1 Hc1 Hl1 Ht Ha Hlv Hsz lv Hdef. rewrite <-Hdef in Hlv. pose proof (level_nonneg l now key Hg) as Hnn. destruct (Qle_bool 1 lv) eqn:Hle; cbn [negb]; intros [= <- <-].
    - apply Qle_bool_iff in Hle. destruct (spend_ok l1 now key b Hg1 Ht Ha (lv - 1)%Q) as (H1 & H2 & H3); [rewrite <-Hdef; lra|].
      split_and!; [done|done|apply Hsz|done|unfold spent; cbn; lra|]. intros k Hk. rewrite H3 by done. apply Hl1.
    - destruct (spend_ok l1 now key b Hg1 Ht Ha lv) as (H1 & H2 & H3); [rewrite <-Hdef; lra|].
      split_and!; [done|done|apply Hsz|lia| |intros k Hk; rewrite H3 by done; apply Hl1].
      unfold spent. rewrite (proj2 (Z.eqb_neq _ _)) by lia. lra. }
  destruct (buckets l !! key) as [b|] eqn:E; cbn beta iota zeta.
  - intros Heq. destruct (proj2 Hg _ _ E) as [Ht Ha]. eapply (Hspend l b); [done|done|reflexivity|done|done| | |reflexivity|exact Heq].
    + unfold level. by rewrite E.
    + intros x. rewrite map_size_insert_Some by eauto. done.
  - pose proof (evict_good l now Hg) as Hge. pose proof (evict_level l now) as Hle. set (l1 := with_buckets l (evict now (buckets l))) in *.
    assert (size (buckets l1) ≤ size (buckets l))%nat as Hsub by (apply map_subseteq_size, map_filter_subseteq).
    destruct (Nat.leb_spec max_buckets (size (buckets l1))) as [Hfull|Hroom]; intros Heq.
    + injection Heq as <- <-. split_and!; [done|done|lia|done|unfold spent; cbn; rewrite (Hle key Hg); lra|intros k _; by apply Hle].
    + eapply (Hspend l1 {| tokens := inject_Z (capacity l1); at_ := now |}); [done|done|intros k; by apply Hle| |cbn; lia| | |reflexivity|exact Heq].
      * cbn. change 0%Q with (inject_Z 0). rewrite <-Zle_Qle. destruct Hg. lia.
      * cbn [tokens at_]. rewrite Z.sub_diag. assert (refill (capacity l1) 0 == 0)%Q as Hz by (unfold refill; cbn; reflexivity).
        unfold level. rewrite E. destruct (qmin_cases (inject_Z (capacity l1)) (inject_Z (capacity l1) + refill (capacity l1) 0)%Q) as [[-> ?]|[-> ?]]; [reflexivity|]. rewrite Hz. cbn. lra.
      * intros x. rewrite map_size_insert. destruct (buckets l1 !! key); unfold id; lia.
Qed.

(** A run of requests: how many of one caller's pass, and the limiter after it. *)
Fixpoint passed (key : string) (l : operatorLimiter) (requests : list (Z * string)) : Z * operatorLimiter :=
  match requests with
  | [] => (0, l)
  | (now, k) :: requests =>
      let '(d, l) := take l now k in
      let '(n, l) := passed key l requests in ((if String.eqb k key && (d =? 0) then 1 else 0) + n, l)
  end.

(** Requests in the order of a clock that does not go back. *)
Fixpoint ordered (from to : Z) (requests : list (Z * string)) : Prop :=
  match requests with [] => from ≤ to | (now, _) :: requests => from ≤ now ∧ ordered now to requests end.

Lemma good_later l now later : good l now → now ≤ later → good l later.
Proof. intros [Hc Hb] Hl. split; [done|]. eapply map_Forall_impl; [exact Hb|]. intros k b [? ?]. split; [done|lia]. Qed.

(** [C6] The rate limit: whatever the other callers do and whichever buckets are forgotten
    meanwhile, in no stretch of time do more requests of one caller pass than the
    capacity and what the stretch refills; and the table never holds more than 1024. *)
Theorem rate_bounded (key : string) (l : operatorLimiter) (from to : Z) (requests : list (Z * string))
    (Hgood : good l from) (Hsize : (size (buckets l) ≤ max_buckets)%nat) (Hordered : ordered from to requests) :
  let '(n, l') := passed key l requests in
  (inject_Z n <= inject_Z (capacity l) + refill (capacity l) (to - from))%Q ∧ (size (buckets l') ≤ max_buckets)%nat ∧ good l' to.
Proof.
  assert (let '(n, l') := passed key l requests in
    (inject_Z n <= level l from key + refill (capacity l) (to - from))%Q ∧ (size (buckets l') ≤ max_buckets)%nat ∧ good l' to) as H.
  { revert l from Hgood Hsize Hordered. induction requests as [|[now k] requests IH]; intros l from Hgood Hsize Hord; cbn [passed ordered] in *.
    - pose proof (level_nonneg l from key Hgood). pose proof (refill_nonneg (capacity l) (to - from)) as Hr. destruct Hgood as [? ?] eqn:E. specialize (Hr ltac:(lia) ltac:(lia)).
      split_and!; [change (inject_Z 0) with 0%Q; lra|done|by eapply good_later].
    - destruct Hord as [Hle Hord]. pose proof (good_later l from now Hgood Hle) as Hnow. destruct (take l now k) as [d l1] eqn:Ht.
      destruct (take_spends l now k d l1 Hnow Hsize Ht) as (Hg1 & Hc1 & Hs1 & Hd & Hk & Hother). specialize (IH l1 now Hg1 Hs1 Hord).
      destruct (passed key l1 requests) as [n l']. destruct IH as (Hn & ? & ?). split_and!; [|done..]. rewrite Hc1 in Hn.
      pose proof (level_later l from now key Hgood Hle) as Hlater.
      assert (refill (capacity l) (to - from) == refill (capacity l) (now - from) + refill (capacity l) (to - now))%Q as Hsum by (rewrite <-refill_add; f_equiv; lia).
      rewrite inject_Z_plus. destruct (String.eqb_spec k key) as [->|Hne]; cbn [andb].
      + unfold spent in Hk. destruct (d =? 0); [change (inject_Z 1) with 1%Q|change (inject_Z 0) with 0%Q]; lra.
      + specialize (Hother key ltac:(done)). change (inject_Z 0) with 0%Q. lra. }
  destruct (passed key l requests) as [n l']. destruct H as (? & ? & ?). split_and!; [|done..]. pose proof (level_le_capacity l from key). lra.
Qed.

Lemma rate_bounded_witness :
  let '(n, l') := passed "p" (newOperatorLimiter 2) [(0, "p"); (0, "q"); (0, "p"); (0, "p"); (30 * second, "p")] in
  (inject_Z n <= inject_Z 2 + refill 2 (30 * second - 0))%Q ∧ (size (buckets l') ≤ max_buckets)%nat ∧ good l' (30 * second).
Proof.
  apply (rate_bounded "p" (newOperatorLimiter 2) 0 (30 * second) [(0, "p"); (0, "q"); (0, "p"); (0, "p"); (30 * second, "p")]).
  - split; [done|apply map_Forall_empty].
  - exact (Nat.le_0_l _).
  - unfold ordered, second. lia.
Defined.

(** Two at once, and one more after half a minute. *)
Example three_pass : (passed "p" (newOperatorLimiter 2) [(0, "p"); (0, "q"); (0, "p"); (0, "p"); (30 * second, "p")]).1 = 3.
Proof. vm_compute. reflexivity. Qed.
End Limiter.

Module Front.
Import Limiter.

(** What the chain reads of a request. *)
Record op_request := { base : Http.request; origins : list string; tls : bool; remote : string }.

(** An Origin as [url.Parse] takes it apart. *)
Record origin_url := { scheme : string; o_host : string; has_user : bool; raw_query : string; fragment : string; o_path : string }.

Section Chain.
Context (parse : string → option origin_url).

Definition operatorOriginAllowed (r : op_request) : bool :=
  match origins r with
  | [] => true
  | [o] =>
      match parse o with
      | None => false
      | Some u =>
          if has_user u || negb (String.eqb (raw_query u) "") || negb (String.eqb (fragment u) "") || negb (String.eqb (o_path u) "") then false
          else String.eqb (scheme u) (if tls r then "https" else "http") && String.eqb (to_lower (o_host u)) (to_lower (Http.host (base r)))
      end
  | _ => false
  end.

(** ** Routes *)

Definition prefix : string := "/operator/v1/".
Definition operatorChatsPath : string := "/operator/v1/chats".

(** The table of routes; no method for those that check it themselves. *)
Definition named_routes : list (string * option string) := [
  ("health", Some "GET"); ("ready", Some "GET"); ("pairing", Some "GET"); ("export", Some "GET"); ("snapshot", Some "POST"); ("chats", Some "GET");
  ("media/usage", Some "GET"); ("media/purge", Some "POST"); ("pairing/code", Some "POST"); ("pairing/restart", Some "POST");
  ("pairing/passkey/response", Some "POST"); ("pairing/passkey/confirm", Some "POST"); ("settings", None); ("logout", Some "POST");
  ("send/usage", Some "GET"); ("mcp-token", None); ("transcription/usage", Some "GET")].

Definition webhook_routes (webhook : bool) : list (string * option string) := if webhook then [("webhook", None); ("webhook/test", Some "POST")] else [].
Definition routes (webhook : bool) : list (string * option string) := (λ nm, (prefix +:+ nm.1, nm.2)) <$> (webhook_routes webhook ++ named_routes).

(** [mutations]. *)
Definition mutates (name : string) (method : option string) : bool :=
  bool_decide (method = Some "POST") || String.eqb name "settings" || String.eqb name "mcp-token" || String.eqb name "webhook".
Definition mutations (webhook : bool) : list string :=
  (λ nm, prefix +:+ nm.1) <$> filter (λ nm, mutates nm.1 nm.2 = true) (webhook_routes webhook ++ named_routes).

Definition unavailable : Http.reply := Http.writeErrorCode 503 "operator_unavailable" "Operator pairing controller unavailable".

(** The mux; a route without a handler answers that it is unavailable. *)
Definition mux (webhook : bool) (handlers : string → option Http.handler) : Http.handler := λ r,
  match find (λ pm, String.eqb pm.1 (Http.path r)) (routes webhook) with
  | None => {| Http.status := 404; Http.code := ""; Http.message := "404 page not found" |}
  | Some (path, method) =>
      let h := default (λ _, unavailable) (handlers path) in
      match method with Some m => Http.requireMethod m h r | None => h r end
  end.

(** ** The chain *)

Record limits := { peers : operatorLimiter; token : operatorLimiter; searchPeers : operatorLimiter; searchToken : operatorLimiter }.
Definition new_limits : limits :=
  {| peers := newOperatorLimiter 120; token := newOperatorLimiter 60; searchPeers := newOperatorLimiter 120; searchToken := newOperatorLimiter 120 |}.

Inductive answer : Type := Limited (delay : Z) | Answer (r : Http.reply).
Definition status_of (a : answer) : Z := match a with Limited _ => 429 | Answer r => Http.status r end.

(** The caller: all clients of the Unix socket share one bucket. *)
Definition peer_of (addr : string) : string :=
  match Net.SplitHostPort addr with Some (h, _) => h | None => if String.eqb addr "@" || String.eqb addr "" then "unix" else "unknown" end.

Definition searches (r : op_request) : bool := String.eqb (Http.path (base r)) operatorChatsPath.

Definition take_peer (now : Z) (r : op_request) (s : limits) : Z * limits :=
  if searches r then let '(d, l) := take (searchPeers s) now (peer_of (remote r)) in (d, {| peers := peers s; token := token s; searchPeers := l; searchToken := searchToken s |})
  else let '(d, l) := take (peers s) now (peer_of (remote r)) in (d, {| peers := l; token := token s; searchPeers := searchPeers s; searchToken := searchToken s |}).

Definition take_token (now : Z) (r : op_request) (s : limits) : Z * limits :=
  if searches r then let '(d, l) := take (searchToken s) now "operator" in (d, {| peers := peers s; token := token s; searchPeers := searchPeers s; searchToken := l |})
  else let '(d, l) := take (token s) now "operator" in (d, {| peers := peers s; token := l; searchPeers := searchPeers s; searchToken := searchToken s |}).

(** [newOperatorHandler]. *)
Definition operatorHandler (allowed : Hosts.hostAllowList) (secret : string) (webhook : bool) (handlers : string → option Http.handler) (now : Z) (r : op_request) (s : limits) : answer * limits :=
  let '(delay, s) := take_peer now r s in
  if negb (delay =? 0) then (Limited delay, s)
  else if negb (Hosts.allows allowed (Http.host (base r))) then (Answer (Http.writeError Http.StatusForbidden "Forbidden: host not allowed"), s)
  else if negb (Auth.checkBearerToken (Http.authorization (base r)) secret) then (Answer (Http.writeError Http.StatusUnauthorized "Unauthorized"), s)
  else if negb (operatorOriginAllowed r) then (Answer (Http.writeErrorCode 403 "origin_forbidden" "Operator Origin must match this listener"), s)
  else
    let '(delay, s) := take_token now r s in
    if negb (delay =? 0) then (Limited delay, s) else (Answer (mux webhook handlers (base r)), s).

(** ** The audit line *)

Inductive audit : Type := Info (method path peer : string) (status : Z) | Debug (method path peer : string) (status : Z) | Search (peer : string) (status : Z) (counted : bool).

Definition refused_status (status : Z) : bool := (status =? 401) || (status =? 403) || (status =? 429).

Definition audit_of (webhook : bool) (r : op_request) (status : Z) : option audit :=
  let m := Http.method (base r) in let p := Http.path (base r) in let peer := peer_of (remote r) in
  if (bool_decide (m ∈ ["POST"; "PATCH"; "DELETE"; "PUT"]) && bool_decide (p ∈ mutations webhook)) ||
     (String.eqb m "GET" && (String.eqb p "/operator/v1/export" || String.eqb p operatorChatsPath))
  then Some (if String.eqb p operatorChatsPath then Search peer status (negb (refused_status status))
             else if refused_status status then Debug m p peer status else Info m p peer status)
  else None.

(** [operatorSearchAudit]: one line a minute with the number of searches. *)
Definition record_search (count : nat) : nat * bool := (S count, Nat.eqb (S count) 1).
Definition flush_search (count : nat) : nat * nat := (0%nat, count).

(** ** Theorems *)

Lemma refused_listed st : refused_status st = bool_decide (st ∈ [401; 403; 429]).
Proof.
  unfold refused_status. destruct (Z.eqb_spec st 401) as [->|]; [done|]. destruct (Z.eqb_spec st 403) as [->|]; [done|].
  destruct (Z.eqb_spec st 429) as [->|]; [done|]. symmetry. apply bool_decide_eq_false. set_solver.
Qed.

(** Every route of the table that takes a changing method, or chooses its own,
    is one of [mutations]. *)
Lemma routes_mutate (webhook : bool) (path : string) (m : option string) :
  (path, m) ∈ routes webhook → m = None ∨ m = Some "POST" → path ∈ mutations webhook.
Proof.
  intros Hin Hm. assert (Forall (λ pm, pm.2 = None ∨ pm.2 = Some "POST" → pm.1 ∈ mutations webhook) (routes webhook)) as Hall.
  { destruct webhook; apply (bool_decide_unpack _); vm_compute; done. }
  rewrite Forall_forall in Hall. exact (Hall _ Hin Hm).
Qed.

Lemma routes_methods (webhook : bool) (path : string) (m : option string) :
  (path, m) ∈ routes webhook → (m = None ∨ m = Some "POST" ∨ m = Some "GET") ∧
  (path = "/operator/v1/export" ∨ path = "/operator/v1/chats" → m = Some "GET").
Proof.
  intros Hin. assert (Forall (λ pm, (pm.2 = None ∨ pm.2 = Some "POST" ∨ pm.2 = Some "GET") ∧
    (pm.1 = "/operator/v1/export" ∨ pm.1 = "/operator/v1/chats" → pm.2 = Some "GET")) (routes webhook)) as Hall.
  { destruct webhook; apply (bool_decide_unpack _); vm_compute; done. }
  rewrite Forall_forall in Hall. exact (Hall _ Hin).
Qed.

Lemma changing_audited (webhook : bool) (r : op_request) (m : option string) (st : Z) :
  (Http.path (base r), m) ∈ routes webhook → m = None ∨ m = Some (Http.method (base r)) →
  Http.method (base r) ∈ ["POST"; "PATCH"; "DELETE"; "PUT"] ∨ Http.path (base r) = "/operator/v1/export" →
  audit_of webhook r st = Some ((if bool_decide (st ∈ [401; 403; 429]) then Debug else Info)
                                  (Http.method (base r)) (Http.path (base r)) (peer_of (remote r)) st).
Proof.
  intros Hin Hm Hch. destruct (routes_methods _ _ _ Hin) as [Hk Hget]. unfold audit_of. rewrite refused_listed.
  destruct (decide (Http.path (base r) = "/operator/v1/export")) as [Hp|Hp].
  - rewrite Hp. destruct Hm as [->|Hm]; [by specialize (Hget (or_introl Hp))|]. rewrite (Hget (or_introl Hp)) in Hm. injection Hm as Hm.
    rewrite <-Hm. cbn [String.eqb Ascii.eqb andb orb Bool.eqb]. rewrite orb_true_r. by destruct (bool_decide (st ∈ _)).
  - destruct Hch as [Hch|]; [|done].
    assert (Http.path (base r) ≠ operatorChatsPath) as Hc.
    { intros Hc. destruct Hm as [->|Hm]; [by specialize (Hget (or_intror Hc))|]. rewrite (Hget (or_intror Hc)) in Hm. injection Hm as Hm.
      rewrite <-Hm in Hch. set_solver. }
    assert (Http.path (base r) ∈ mutations webhook) as Hmut.
    { apply (routes_mutate webhook _ m); [done|]. destruct Hk as [?|[?| ->]]; [by left|by right|]. destruct Hm as [?|Hm]; [done|]. injection Hm as Hm.
      rewrite <-Hm in Hch. set_solver. }
    rewrite (bool_decide_eq_true_2 (Http.method _ ∈ _)), (bool_decide_eq_true_2 (Http.path _ ∈ _)) by done. cbn [andb orb]. apply String.eqb_neq in Hc. rewrite Hc. by destruct (bool_decide (st ∈ _)).
Qed.

Lemma search_audited (webhook : bool) (r : op_request) (m : option string) (st : Z) :
  (Http.path (base r), m) ∈ routes webhook → m = None ∨ m = Some (Http.method (base r)) → Http.path (base r) = "/operator/v1/chats" →
  audit_of webhook r st = Some (Search (peer_of (remote r)) st (negb (bool_decide (st ∈ [401; 403; 429])))).
Proof.
  intros Hin Hm Hp. destruct (routes_methods _ _ _ Hin) as [_ Hget]. specialize (Hget (or_intror Hp)). subst m. destruct Hm as [?|Hm]; [done|].
  injection Hm as Hm. unfold audit_of. rewrite refused_listed, Hp, <-Hm. cbn. by rewrite orb_true_r.
Qed.

(** [C30] A handler runs only behind the whole chain: if a request is answered differently under
    two tables of handlers, then its peer and the operator had budget left, its Host is
    allowed, its token and its Origin are right, and the route is one of the table
    with the method it requires; and the request leaves an audit line, with its method, path,
    caller and status, whenever its method is POST, PATCH, DELETE or PUT and whenever it
    exports the archive (a search of the chats leaves one with its caller and status; a
    status of 401, 403 or 429 is logged at a lower level). *)
Theorem operator_guarded (allowed : Hosts.hostAllowList) (secret : string) (webhook : bool) (h1 h2 : string → option Http.handler) (now : Z) (r : op_request) (s : limits)
    (Hdiffer : operatorHandler allowed secret webhook h1 now r s ≠ operatorHandler allowed secret webhook h2 now r s) :
  (take_peer now r s).1 = 0 ∧ (take_token now r (take_peer now r s).2).1 = 0 ∧
  Hosts.allows allowed (Http.host (base r)) = true ∧ Auth.checkBearerToken (Http.authorization (base r)) secret = true ∧ operatorOriginAllowed r = true ∧
  ∃ m, (Http.path (base r), m) ∈ routes webhook ∧ (m = None ∨ m = Some (Http.method (base r))) ∧
       (∀ st, Http.method (base r) ∈ ["POST"; "PATCH"; "DELETE"; "PUT"] ∨ Http.path (base r) = "/operator/v1/export" →
          audit_of webhook r st = Some ((if bool_decide (st ∈ [401; 403; 429]) then Debug else Info)
                                          (Http.method (base r)) (Http.path (base r)) (peer_of (remote r)) st)) ∧
       (∀ st, Http.path (base r) = "/operator/v1/chats" →
          audit_of webhook r st = Some (Search (peer_of (remote r)) st (negb (bool_decide (st ∈ [401; 403; 429]))))).
Proof.
  unfold operatorHandler in Hdiffer. destruct (take_peer now r s) as [d1 s1]. cbn [fst snd]. destruct (Z.eqb_spec d1 0) as [->|]; cbn [negb] in Hdiffer; [|done].
  destruct (Hosts.allows _ _); cbn [negb] in Hdiffer; [|done]. destruct (Auth.checkBearerToken _ _); cbn [negb] in Hdiffer; [|done].
  destruct (operatorOriginAllowed r); cbn [negb] in Hdiffer; [|done]. destruct (take_token now r s1) as [d2 s2]. cbn [fst snd].
  destruct (Z.eqb_spec d2 0) as [->|]; cbn [negb] in Hdiffer; [|done]. split_and!; [done..|]. unfold mux in Hdiffer.
  destruct (find _ (routes webhook)) as [[p m]|] eqn:Hf; [|done]. apply find_some in Hf as [Hin Hp%String.eqb_eq]. apply list_elem_of_In in Hin. cbn in Hp. subst p.
  assert (m = None ∨ m = Some (Http.method (base r))) as Hm.
  { destruct m as [m|]; [right|by left]. unfold Http.requireMethod in Hdiffer. destruct (String.eqb_spec (Http.method (base r)) m) as [->|]; [done|].
    cbn [negb] in Hdiffer. done. }
  exists m. split; [done|]. split; [done|]. split; [intros st Hch; by apply (changing_audited webhook r m)|].
  intros st Hp. by apply (search_audited webhook r m).
Qed.

(** Searching never spends the budgets of the other operations, and they never spend the
    search's. *)
Theorem search_budget_apart (allowed : Hosts.hostAllowList) (secret : string) (webhook : bool) (h : string → option Http.handler) (now : Z) (r : op_request) (s : limits) :
  let s' := (operatorHandler allowed secret webhook h now r s).2 in
  if searches r then peers s' = peers s ∧ token s' = token s else searchPeers s' = searchPeers s ∧ searchToken s' = searchToken s.
Proof.
  unfold operatorHandler, take_peer, take_token. destruct (searches r); destruct (take _ _ (peer_of _)) as [d1 l1]; cbn;
    (destruct (d1 =? 0); cbn; [|done]); (destruct (Hosts.allows _ _); cbn; [|done]); (destruct (Auth.checkBearerToken _ _); cbn; [|done]);
    (destruct (operatorOriginAllowed r); cbn; [|done]); destruct (take _ _ "operator") as [d2 l2]; cbn; by destruct (d2 =? 0).
Qed.
End Chain.

Module Sample.
Definition no_url (o : string) : option origin_url := None.
Definition local : Hosts.hostAllowList := (Hosts.buildHostAllowList 8090 "127.0.0.1" "").1.
Definition req : op_request := {| base := {| Http.method := "POST"; Http.path := "/operator/v1/logout"; Http.host := "localhost:8090"; Http.authorization := "Bearer k" |};
                                  origins := []; tls := false; remote := "127.0.0.1:5" |}.
Definition answering (st : Z) (p : string) : option Http.handler := Some (λ _, {| Http.status := st; Http.code := ""; Http.message := "" |}).

Lemma operator_guarded_witness : (take_peer 0 req new_limits).1 = 0 ∧ operatorOriginAllowed no_url req = true.
Proof.
  assert (operatorHandler no_url local "k" false (answering 200) 0 req new_limits ≠ operatorHandler no_url local "k" false (answering 500) 0 req new_limits) as Hne.
  { intros Heq. assert (status_of (operatorHandler no_url local "k" false (answering 200) 0 req new_limits).1 = 500) as Hs by (rewrite Heq; vm_compute; reflexivity).
    vm_compute in Hs. discriminate. }
  destruct (operator_guarded no_url local "k" false (answering 200) (answering 500) 0 req new_limits Hne) as (H1 & _ & _ & _ & H2 & _). exact (conj H1 H2).
Defined.

(** Every mutation has a route. *)
Example mutations_routed : Forall (λ p, p ∈ (routes true).*1) (mutations true).
Proof. apply (bool_decide_unpack _). vm_compute. done. Qed.
End Sample.
End Front.
