(* ===== verification/OperatorConfig.v ===== *)
(** * Where the listeners bind and what the operator token must be
    ([operator_config.go], the binds of [rest_bind.go])

    Addresses are the byte lists of [net.IP]; the resolver, the interfaces and the token
    file are arguments.  The entropy of a token, which the source computes in floating
    point, is compared exactly: [n * H >= 128] bits is [n^n >= 2^128 * prod c^c] over the
    numbers [c] of each byte. *)
From stdpp Require Import pretty.
From S2P Require Import Prelude Config RuntimeSettings Webhook Rest Outbound Archive.
Import Webhook.Address Hosts.
#[local] Open Scope Z_scope.

(** ** Addresses *)

Definition ip := list Z.

(** [IP.Equal] with the unspecified addresses; [IP.IsMulticast]. *)
Definition IsUnspecified (a : ip) : bool :=
  match AddrFromSlice a with Some b => match Unmap b with V4 n => n =? 0 | V6 n => n =? 0 end | None => false end.
Definition ip_multicast (a : ip) : bool := match AddrFromSlice a with Some b => IsMulticast (Unmap b) | None => false end.
Definition ip_equal (a b : ip) : bool :=
  match AddrFromSlice a, AddrFromSlice b with
  | Some x, Some y => match Unmap x, Unmap y with V4 n, V4 m => n =? m | V6 n, V6 m => n =? m | _, _ => false end
  | _, _ => false
  end.
(** [IP.To4] finds an IPv4 address. *)
Definition is_v4 (a : ip) : bool := match AddrFromSlice a with Some b => match Unmap b with V4 _ => true | V6 _ => false end | None => false end.

(** [IP.String]. *)
Definition dotted (n : Z) : string :=
  pretty (n / 2 ^ 24) +:+ "." +:+ pretty (n / 2 ^ 16 mod 256) +:+ "." +:+ pretty (n / 2 ^ 8 mod 256) +:+ "." +:+ pretty (n mod 256).

Fixpoint strip_zeros (l : list Z) : list Z := match l with x :: ((_ :: _) as t) => if x =? 0 then strip_zeros t else l | _ => l end.
Definition hex_group (n : Z) : string :=
  string_of_list_ascii (Auth.hex_digit <$> strip_zeros [n / 4096; n / 256 mod 16; n / 16 mod 16; n mod 16]).
Definition groups (n : Z) : list Z := (λ i, Z.shiftr n (112 - 16 * i) mod 65536) <$> seqZ 0 8.

Fixpoint zero_run (l : list Z) : nat := match l with 0 :: t => S (zero_run t) | _ => O end.
(** The first of the longest runs of at least two zero groups. *)
Definition longest_run (l : list Z) : option (nat * nat) :=
  foldl (λ best i, let n := zero_run (drop i l) in
                   if (2 <=? n)%nat && (match best with Some (_, m) => m | None => O end <? n)%nat then Some (i, n) else best) None (seq 0 8).
Definition colons (l : list Z) : string := join ":" (hex_group <$> l).
Definition v6_string (n : Z) : string :=
  let l := groups n in
  match longest_run l with
  | Some (i, len) => colons (take i l) +:+ "::" +:+ colons (drop (i + len) l)
  | None => colons l
  end.
Definition IPString (a : ip) : string :=
  match AddrFromSlice a with
  | Some b => match Unmap b with V4 n => dotted n | V6 n => v6_string n end
  | None => match a with [] => "<nil>" | _ => "?" +:+ Auth.hex_encode a end
  end.

(** [net.JoinHostPort]. *)
Definition JoinHostPort (host port : string) : string :=
  if contains_byte ":" host || contains_byte "%" host then "[" +:+ host +:+ "]:" +:+ port else host +:+ ":" +:+ port.
Definition listenAddr (bind : string) (port : Z) : string := JoinHostPort bind (pretty port).

(** ** The token *)

(** [base64.RawURLEncoding.Strict()]. *)
Definition b64_value (a : ascii) : option Z :=
  let n := byte_code a in
  if (65 <=? n) && (n <=? 90) then Some (n - 65)
  else if (97 <=? n) && (n <=? 122) then Some (n - 71)
  else if (48 <=? n) && (n <=? 57) then Some (n + 4)
  else if n =? 45 then Some 62 else if n =? 95 then Some 63 else None.

Fixpoint sextets (l : list Z) : option (list Z) :=
  match l with
  | [] => Some []
  | [_] => None
  | [a; b] => if b mod 16 =? 0 then Some [a * 4 + b / 16] else None
  | [a; b; c] => if c mod 4 =? 0 then Some [a * 4 + b / 16; b mod 16 * 16 + c / 4] else None
  | a :: b :: c :: d :: l => (λ t, a * 4 + b / 16 :: b mod 16 * 16 + c / 4 :: c mod 4 * 64 + d :: t) <$> sextets l
  end.
Definition base64_decode (s : string) : option (list Z) := mapM b64_value (list_ascii_of_string s) ≫= sextets.

(** [hex.DecodeString]. *)
Fixpoint hex_pairs (l : list Z) : option (list Z) :=
  match l with [] => Some [] | [_] => None | a :: b :: l => (cons (a * 16 + b)) <$> hex_pairs l end.
Definition hex_decode (s : string) : option (list Z) := mapM Net.hex_value (list_ascii_of_string s) ≫= hex_pairs.

Definition placeholders : list string := ["changeme"; "change-me"; "replace-me"; "your-token"; "password"; "example"].
Definition spaces : string := String (byte_of 32) (String (byte_of 13) (String (byte_of 10) (String (byte_of 9) (String (byte_of 11) (String (byte_of 12) ""))))).

(** The bytes a token stands for. *)
Definition decoded (token : string) : option (list Z) :=
  match (if Nat.eqb (String.length token) 64 then hex_decode token else None) with
  | Some (b :: bytes) => Some (b :: bytes)
  | _ => base64_decode token
  end.

Definition block_of (bytes : list Z) (period : nat) : list Z := concat (replicate (length bytes / period) (take period bytes)).
Definition repeats (bytes : list Z) : bool :=
  existsb (λ period, Nat.eqb (length bytes mod period) 0 && bool_decide (bytes = block_of bytes period)) (seq 1 (length bytes / 2)).

Definition counts (bytes : list Z) : list nat := (λ b, length (filter (b =.) bytes)) <$> remove_dups bytes.
(** Less than 128 bits: [entropy * len < 128]. *)
Definition low_entropy (bytes : list Z) : bool :=
  let n := Z.of_nat (length bytes) in n ^ n <? 2 ^ 128 * foldr (λ c acc, Z.of_nat c ^ Z.of_nat c * acc) 1 (counts bytes).

(** [validateOperatorToken]; true for a token it takes. *)
Definition validateOperatorToken (raw : string) : bool :=
  let token := trim_space raw in
  if Nat.ltb 256 (String.length token) || contains_any spaces token then false
  else if existsb (λ p, contains_string p (to_lower token)) placeholders then false
  else match decoded token with
       | None => false
       | Some bytes =>
           if Nat.ltb (length bytes) 32 then false
           else if repeats bytes then false
           else negb (Nat.ltb (length (counts bytes)) 16 || low_entropy bytes)
       end.

(** ** The token file *)

(** What the calls on the file answer: [lstat] the kind and mode, [opened] whether the
    handle is the same file, its kind and mode. *)
Record secret_file := { lstat : option (bool * Z); opens : bool; opened : option (bool * bool * Z); content : option string }.

Definition owner_only (mode : Z) : bool := Z.land mode 63 =? 0.

Definition readOperatorToken (f : secret_file) : result string string :=
  match lstat f with
  | Some (true, mode) =>
      if negb (owner_only mode) then Err "WHATSAPP_OPERATOR_TOKEN_FILE must be owner-only (0600)"
      else if negb (opens f) then Err "WHATSAPP_OPERATOR_TOKEN_FILE could not be opened"
      else match opened f with
           | Some (true, true, mode) =>
               if negb (owner_only mode) then Err "WHATSAPP_OPERATOR_TOKEN_FILE must remain owner-only (0600)"
               else match content f with
                    | None => Err "WHATSAPP_OPERATOR_TOKEN_FILE could not be read within its size limit"
                    | Some data =>
                        let data := String.substring 0 258 data in
                        if Nat.ltb 257 (String.length data) then Err "WHATSAPP_OPERATOR_TOKEN_FILE could not be read within its size limit" else Ok (trim_space data)
                    end
           | _ => Err "WHATSAPP_OPERATOR_TOKEN_FILE changed while opening"
           end
  | _ => Err "WHATSAPP_OPERATOR_TOKEN_FILE must be a readable regular file, never a symlink"
  end.

(** ** The configuration of the operator's listener *)

Record operatorConfig := { Socket : string; Bind : string; Port : Z; Token : string; AllowedHosts : string }.

Section Operator.
Context (getenv : string → string) (lookup : string → option (list (ip * string))) (file : string → secret_file).

Definition unsafe_address (a : ip * string) : bool := bool_decide (a.1 = []) || IsUnspecified a.1 || ip_multicast a.1 || negb (String.eqb a.2 "").

Definition resolved_bind (bind : string) : result string string :=
  match Net.ParseIP bind with
  | Some a => if IsUnspecified a || ip_multicast a then Err "WHATSAPP_OPERATOR_BIND must not be wildcard or multicast" else Ok (IPString a)
  | None =>
      if contains_any "*/ :\" bind then Err "WHATSAPP_OPERATOR_BIND requires one address or hostname, never a wildcard or port"
      else match lookup bind with
           | None => Err "WHATSAPP_OPERATOR_BIND hostname could not be resolved"
           | Some addresses =>
               if existsb unsafe_address addresses then Err "WHATSAPP_OPERATOR_BIND hostname resolved to an unsafe address"
               else match remove_dups (IPString ∘ fst <$> addresses) with
                    | [address] => Ok address
                    | _ => Err "WHATSAPP_OPERATOR_BIND hostname must resolve to exactly one address on the operator network"
                    end
           end
  end.

Definition operator_port : result string Z :=
  let value := getenv "WHATSAPP_OPERATOR_PORT" in
  if String.eqb value "" then Ok 8090
  else match Atoi value with
       | Some port => if (1 <=? port) && (port <=? 65535) then Ok port else Err "WHATSAPP_OPERATOR_PORT must be 1-65535"
       | None => Err "WHATSAPP_OPERATOR_PORT must be 1-65535"
       end.

Definition operator_token : result string string :=
  let token := getenv "WHATSAPP_OPERATOR_TOKEN" in
  let path := trim_space (getenv "WHATSAPP_OPERATOR_TOKEN_FILE") in
  if negb (String.eqb token "") && negb (String.eqb path "") then Err "set only one of WHATSAPP_OPERATOR_TOKEN and WHATSAPP_OPERATOR_TOKEN_FILE"
  else (let? token := (if String.eqb path "" then Ok token else readOperatorToken (file path)) in
        if validateOperatorToken token then Ok (trim_space token) else Err "WHATSAPP_OPERATOR_TOKEN requires at least 32 random bytes")%go.

Definition refuseBridgeToken (cfg : operatorConfig) (bridgeToken : string) : bool := negb (String.eqb (Bind cfg) "") && String.eqb (Token cfg) bridgeToken.

(** [parseOperatorConfig]: the configuration as far as it was read, and the refusal. *)
Definition parseOperatorConfig : operatorConfig * option string :=
  let hosts := getenv "WHATSAPP_OPERATOR_ALLOWED_HOSTS" in
  let socket := trim_space (getenv "WHATSAPP_OPERATOR_SOCKET") in
  let cfg address port token := {| Socket := socket; Bind := address; Port := port; Token := token; AllowedHosts := hosts |} in
  match operator_port with
  | Err e => (cfg "" 8090 "", Some e)
  | Ok port =>
      let bind := trim_space (getenv "WHATSAPP_OPERATOR_BIND") in
      if String.eqb bind "" && String.eqb socket "" then (cfg "" port "", None)
      else
        match resolved_bind (Net.unbracket (if String.eqb bind "" then "127.0.0.1" else bind)) with
        | Err e => (cfg "" port "", Some e)
        | Ok address =>
            if existsb (contains_byte "*") (split_byte "," hosts) then (cfg address port "", Some "WHATSAPP_OPERATOR_ALLOWED_HOSTS must name hosts explicitly; wildcard is refused")
            else
              match operator_token with
              | Err e => (cfg address port "", Some e)
              | Ok token =>
                  let bridgeToken := trim_space (getenv "WHATSAPP_BRIDGE_TOKEN") in
                  (cfg address port token,
                   if negb (String.eqb bridgeToken "") && refuseBridgeToken (cfg address port token) bridgeToken
                   then Some "WHATSAPP_OPERATOR_TOKEN must differ from the effective WHATSAPP_BRIDGE_TOKEN" else None)
              end
        end
  end.
End Operator.

(** ** The binds of the REST listener *)

Definition splitBridgeAlias : string := "bridge-agent".

Definition project_byte (first : bool) (a : ascii) : bool :=
  let n := byte_code a in
  (97 <=? n) && (n <=? 122) || (48 <=? n) && (n <=? 57) || negb first && ((n =? 45) || (n =? 95)).
Definition project_name (s : string) : bool :=
  match s with EmptyString => false | String a t => project_byte true a && forallb (project_byte false) (list_ascii_of_string t) end.

Definition cut_suffix (p s : string) : option string :=
  if Chats.has_suffix p s then Some (String.substring 0 (String.length s - String.length p) s) else None.

Definition isSplitBridgeBind (bind : string) : bool :=
  match strip_prefix (splitBridgeAlias +:+ ".") bind with
  | None => false
  | Some network => match cut_suffix "_agent" network with Some project => project_name project | None => false end
  end.

(** [resolveBridgeBind]; an echoed value is cut by [configValue]. *)
Definition resolveBridgeBind (value : string) : result string string :=
  let v := trim_space value in
  if String.eqb v "" then Ok "127.0.0.1"
  else
    let v := Net.unbracket v in
    match Net.ParseIP v with
    | Some a => Ok (IPString a)
    | None => if contains_any ":/ " v then Err ("invalid WHATSAPP_BRIDGE_BIND=" +:+ configValue value) else Ok v
    end.

Section Split.
Context (lookup : string → option (list (ip * string))) (localAddrs : option (list (option ip))).

Definition unsafe_split (a : ip * string) : bool :=
  bool_decide (a.1 = []) || IsUnspecified a.1 || ip_multicast a.1 || Net.ip_loopback a.1 || negb (String.eqb a.2 "").

(** [resolveSplitBridgeBind]; [localAddrs] has the interfaces' addresses as [ParseCIDR]
    reads them.  Equal spellings are equal addresses, so the last one stands for all. *)
Definition resolveSplitBridgeBind (bind hosts : string) (port : Z) (operatorBind : string) : result string string :=
  if negb (isSplitBridgeBind bind) then
    if String.eqb bind splitBridgeAlias || has_prefix (splitBridgeAlias +:+ ".") bind then
      Err "WHATSAPP_BRIDGE_BIND requires bridge-agent.<project>_agent, never the bare alias"
    else if negb (String.eqb operatorBind "") && negb (Net.isLoopbackBind bind) then
      Err "WHATSAPP_BRIDGE_BIND must remain loopback or use bridge-agent.<project>_agent"
    else Ok bind
  else if negb (String.eqb hosts (bind +:+ ":" +:+ pretty port)) then Err "WHATSAPP_BRIDGE_ALLOWED_HOSTS must name exactly the network-qualified bridge-agent alias and REST port"
  else match lookup bind with
       | None | Some [] => Err "WHATSAPP_BRIDGE_BIND bridge-agent could not be resolved"
       | Some (((a, _) :: _) as addresses) =>
           if existsb unsafe_split addresses then Err "WHATSAPP_BRIDGE_BIND bridge-agent resolved to an unsafe address"
           else match remove_dups (IPString ∘ fst <$> addresses) with
                | [address] =>
                    match localAddrs with
                    | None => Err "WHATSAPP_BRIDGE_BIND local interfaces could not be checked"
                    | Some interfaces =>
                        let last := default a (fst <$> last addresses) in
                        if match Net.ParseIP operatorBind with Some o => ip_equal last o | None => false end
                        then Err "WHATSAPP_BRIDGE_BIND must differ from the operator address"
                        else if existsb (λ l, match l with Some l => ip_equal last l | None => false end) interfaces then Ok address
                        else Err "WHATSAPP_BRIDGE_BIND bridge-agent must resolve to a local interface"
                    end
                | _ => Err "WHATSAPP_BRIDGE_BIND bridge-agent must resolve to exactly one local address"
                end
       end.

(** [resolveSplitMCPAdmin]: the Host and the address of the MCP server's admin port. *)
Definition resolveSplitMCPAdmin (bind : string) : result string (string * string) :=
  let name := "mcp-admin." +:+ default bind (strip_prefix (splitBridgeAlias +:+ ".") bind) in
  match lookup name with
  | Some [(a, zone)] =>
      if negb (String.eqb zone "") then Err "split MCP admin must resolve to exactly one agent IPv4 address"
      else if negb (is_v4 a) || IsUnspecified a || Net.ip_loopback a || ip_multicast a then Err "split MCP admin resolved to an unsafe address"
      else Ok (JoinHostPort name "8091", JoinHostPort (IPString a) "8091")
  | _ => Err "split MCP admin must resolve to exactly one agent IPv4 address"
  end.
End Split.

(** ** Lemmas *)

Lemma IPString_nonempty a : IPString a ≠ "".
Proof.
  unfold IPString. destruct (AddrFromSlice a) as [b|]; [|by destruct a]. destruct (Unmap b) as [n|n].
  - unfold dotted. by destruct (pretty (n / 2 ^ 24)).
  - unfold v6_string. destruct (longest_run (groups n)) as [[i len]|]; [by destruct (colons _)|].
    unfold colons. change (groups n) with (Z.shiftr n 112 mod 65536 :: ((λ i, Z.shiftr n (112 - 16 * i) mod 65536) <$> seqZ 1 7)).
    unfold join. cbn [fmap list_fmap]. destruct (hex_group (Z.shiftr n 112 mod 65536)); done.
Qed.

(** The scan over the periods that divide the length finds every repetition. *)
Lemma concat_replicate_length {A} k (block : list A) : length (concat (replicate k block)) = (k * length block)%nat.
Proof. induction k as [|k IH]; cbn; [done|]. by rewrite length_app, IH. Qed.

Lemma repeats_complete bytes k block : (2 ≤ k)%nat → bytes ≠ [] → bytes = concat (replicate k block) → repeats bytes = true.
Proof.
  intros Hk Hne Heq. pose proof (concat_replicate_length k block) as Hlen. rewrite <-Heq in Hlen.
  assert (0 < length block)%nat as Hb by (destruct block; [destruct bytes; cbn in *; [done|lia]|cbn; lia]).
  unfold repeats. apply existsb_exists. exists (length block). split.
  - apply in_seq. rewrite Hlen. assert (length block ≤ k * length block / 2)%nat; [|lia]. apply Nat.div_le_lower_bound; nia.
  - rewrite Hlen, Nat.Div0.mod_mul. cbn. apply bool_decide_eq_true. unfold block_of. rewrite Hlen, Nat.div_mul by lia. rewrite Heq at 1. do 2 f_equal.
    rewrite Heq. destruct k as [|k]; [lia|]. cbn. by rewrite take_app_length.
Qed.

(** What a token that is taken stands for. *)
Definition strong (bytes : list Z) : Prop :=
  (32 ≤ length bytes)%nat ∧ (16 ≤ length (remove_dups bytes))%nat ∧ low_entropy bytes = false ∧ ∀ k block, (2 ≤ k)%nat → bytes ≠ concat (replicate k block).

Lemma validate_strong raw : validateOperatorToken raw = true →
  ∃ bytes, decoded (trim_space raw) = Some bytes ∧ strong bytes ∧ Forall (λ p, contains_string p (to_lower (trim_space raw)) = false) placeholders.
Proof.
  unfold validateOperatorToken. destruct (_ || contains_any _ _); [done|]. destruct (existsb _ placeholders) eqn:Hp; [done|].
  destruct (decoded _) as [bytes|]; [|done]. destruct (Nat.ltb_spec (length bytes) 32); [done|]. destruct (repeats bytes) eqn:Hr; [done|].
  rewrite negb_true_iff, orb_false_iff. intros [Hc He]. exists bytes. split; [done|]. split.
  - apply Nat.ltb_ge in Hc. unfold counts in Hc. rewrite length_fmap in Hc. split_and!; [done|done|done|]. intros k block Hk Heq.
    assert (bytes ≠ []) as Hne by (intros ->; cbn in *; lia). pose proof (repeats_complete bytes k block Hk Hne Heq). congruence.
  - apply Forall_forall. intros p Hin. apply not_true_iff_false. intros Ht. apply not_true_iff_false in Hp. apply Hp. apply existsb_exists. exists p. by rewrite <-list_elem_of_In.
Qed.

Lemma decoded_nonempty bytes : decoded "" = Some bytes → bytes = [].
Proof. by intros [= <-]. Qed.

(** One address: every answer of the resolver is spelled as the bind. *)
Definition one_address (name address : string) (lookup : string → option (list (ip * string))) (safe : ip → Prop) : Prop :=
  (∃ a, Net.ParseIP name = Some a ∧ safe a ∧ address = IPString a) ∨
  (∃ l, lookup name = Some l ∧ l ≠ [] ∧ ∀ a z, (a, z) ∈ l → safe a ∧ z = "" ∧ IPString a = address).

Lemma dups_single {A} `{EqDecision A} (l : list A) x y : remove_dups l = [x] → y ∈ l → y = x.
Proof. intros Hr Hy. apply elem_of_remove_dups in Hy. rewrite Hr in Hy. by apply list_elem_of_singleton in Hy. Qed.

Lemma dups_nonempty {A} `{EqDecision A} (l : list A) x : remove_dups l = [x] → l ≠ [].
Proof. by intros Hr ->. Qed.

Definition routable_bind (a : ip) : Prop := IsUnspecified a = false ∧ ip_multicast a = false.

Lemma resolved_bind_ok lookup name address : resolved_bind lookup name = Ok address → one_address name address lookup routable_bind ∧ address ≠ "".
Proof.
  unfold resolved_bind, one_address, routable_bind. destruct (Net.ParseIP name) as [a|] eqn:Hp.
  - destruct (IsUnspecified a || ip_multicast a) eqn:Hs; [done|]. intros [= <-]. apply orb_false_iff in Hs. split; [left; eauto|apply IPString_nonempty].
  - destruct (contains_any _ name); [done|]. destruct (lookup name) as [l|] eqn:Hl; [|done]. destruct (existsb unsafe_address l) eqn:He; [done|].
    destruct (remove_dups (IPString ∘ fst <$> l)) as [|x [|]] eqn:Hd; [done| |done]. intros [= ->].
    assert (l ≠ []) as Hne by (intros ->; apply (dups_nonempty _ _ Hd); done).
    assert (∀ a z, (a, z) ∈ l → IPString a = address) as Hall.
    { intros a z Hin. eapply dups_single; [exact Hd|]. apply list_elem_of_fmap. by exists (a, z). }
    split; [right; exists l; split_and!; [done..|]|].
    + intros a z Hin. assert (unsafe_address (a, z) = false) as Hu.
      { apply not_true_iff_false. intros Ht. apply not_true_iff_false in He. apply He, existsb_exists. exists (a, z). by rewrite <-list_elem_of_In. }
      unfold unsafe_address in Hu. cbn in Hu. rewrite !orb_false_iff, negb_false_iff, String.eqb_eq in Hu. destruct Hu as (((_ & Hu) & Hm) & Hz).
      split_and!; [done|done|done|by eapply Hall].
    + destruct l as [|[a z] l]; [done|]. rewrite <-(Hall a z (list_elem_of_here _ _)). apply IPString_nonempty.
Qed.

(** Without a "*" in the text, the compiled list admits no wildcard. *)
Lemma contains_byte_lower s : contains_byte "*" (to_lower s) = contains_byte "*" s.
Proof.
  induction s as [|a s IH]; [done|]. cbn. rewrite IH. f_equal. unfold lower_byte.
  destruct (bool_decide _) eqn:Hb; [|done]. apply bool_decide_eq_true in Hb.
  rewrite (proj2 (Ascii.eqb_neq _ _)), (proj2 (Ascii.eqb_neq _ _)); [done|..]; intros He.
  all: apply (f_equal byte_code) in He; change (byte_code "*") with 42 in He; rewrite ?byte_code_of in He; lia.
Qed.

Lemma hosts_explicit hosts port bind : existsb (contains_byte "*") (split_byte "," hosts) = false → any (buildHostAllowList port bind hosts).1 = false.
Proof.
  intros Hn. apply not_true_iff_false. unfold buildHostAllowList. cbn [fst]. rewrite add_entries_any. intros [?|Hin]; [done|]. revert Hin. unfold host_entries. rewrite list_elem_of_filter. intros [_ Hin].
  apply list_elem_of_fmap in Hin as (raw & Heq & Hin). apply not_true_iff_false in Hn. apply Hn, existsb_exists. exists raw. split; [by rewrite <-list_elem_of_In|].
  rewrite <-(trim_space_contains "*" raw) by done. rewrite <-contains_byte_lower, <-Heq. done.
Qed.

Lemma operator_token_ok getenv file token : operator_token getenv file = Ok token → ∃ raw, token = trim_space raw ∧ validateOperatorToken raw = true.
Proof.
  unfold operator_token. destruct (_ && _); [done|]. rewrite result_bind_ok. intros (raw & _ & Ht). destruct (validateOperatorToken raw) eqn:Hv; [|done].
  injection Ht as <-. eauto.
Qed.

Lemma operator_port_ok getenv port : operator_port getenv = Ok port → 1 ≤ port ≤ 65535.
Proof.
  unfold operator_port. destruct (String.eqb _ _); [intros [= <-]; lia|]. destruct (Atoi _) as [p|]; [|done].
  destruct ((1 <=? p) && (p <=? 65535)) eqn:Hp; [|done]. intros [= <-]. lia.
Qed.

(** ** Theorems *)

(** A narrow listener: it binds one address, never a wildcard or a group, and every answer
    of the resolver was that address; no wildcard Host is admitted; the token stands for
    at least 32 bytes with at least 16 distinct values and 128 bits, is no repetition of
    a shorter block and no placeholder, and it is not the bridge's token. *)
Definition listener_narrow (getenv : string → string) (lookup : string → option (list (ip * string))) (cfg : operatorConfig) : Prop :=
  (∃ name, one_address name (Bind cfg) lookup routable_bind) ∧
  any (buildHostAllowList (Port cfg) (Bind cfg) (AllowedHosts cfg)).1 = false ∧
  (∃ bytes, decoded (Token cfg) = Some bytes ∧ strong bytes) ∧
  Forall (λ p, contains_string p (to_lower (Token cfg)) = false) placeholders ∧
  (trim_space (getenv "WHATSAPP_BRIDGE_TOKEN") ≠ "" → Token cfg ≠ trim_space (getenv "WHATSAPP_BRIDGE_TOKEN")).

(** An operator listener that is configured is narrow; where it is not enabled, neither is
    its socket. *)
Theorem operator_listener_narrow (getenv : string → string) (lookup : string → option (list (ip * string))) (file : string → secret_file) (cfg : operatorConfig)
    (Hok : parseOperatorConfig getenv lookup file = (cfg, None)) :
  1 ≤ Port cfg ≤ 65535 ∧ (Bind cfg = "" → Socket cfg = "") ∧ (Bind cfg ≠ "" → listener_narrow getenv lookup cfg).
Proof.
  revert Hok. unfold parseOperatorConfig. cbv zeta. destruct (operator_port getenv) as [port|] eqn:Hport; [|done]. apply operator_port_ok in Hport.
  destruct (String.eqb _ "" && String.eqb _ "") eqn:Hoff.
  { intros [= <-]. cbn. apply andb_true_iff in Hoff as [_ Hs%String.eqb_eq]. split_and!; [lia|lia|done|done]. }
  destruct (resolved_bind _ _) as [address|] eqn:Hone; [|done]. apply resolved_bind_ok in Hone as [Hone Hne]. destruct (existsb _ _) eqn:Hstar; [done|].
  destruct (operator_token getenv file) as [token|] eqn:Htok; [|done]. apply operator_token_ok in Htok as (raw & -> & Hv).
  destruct (negb _ && _) eqn:Hbt; [done|]. intros [= <-]. cbn [Port Bind Socket Token AllowedHosts]. split_and!; [lia|lia|done|]. intros _.
  destruct (validate_strong raw Hv) as (bytes & Hd & Hstrong & Hpl). unfold listener_narrow. cbn [Port Bind Socket Token AllowedHosts]. split_and!; [by eexists|by apply hosts_explicit|by exists bytes|done|].
  intros Hbridge Hsame. unfold refuseBridgeToken in Hbt. cbn in Hbt. rewrite Hsame, String.eqb_refl, (proj2 (String.eqb_neq _ _)), (proj2 (String.eqb_neq address "")) in Hbt by done. done.
Qed.

(** The REST listener beside an operator's: it is on the loopback, or at the one address of
    the split network's alias: local to this host, not the loopback, a wildcard or a group,
    not the operator's address, and the only Host admitted for it is the alias with the
    port. *)
Definition rest_confined (lookup : string → option (list (ip * string))) (localAddrs : option (list (option ip))) (bind hosts : string) (port : Z) (operatorBind address : string) : Prop :=
  (address = bind ∧ Net.isLoopbackBind bind = true) ∨
  (isSplitBridgeBind bind = true ∧ hosts = bind +:+ ":" +:+ pretty port ∧
   ∃ l a, lookup bind = Some l ∧ a ∈ l.*1 ∧ IPString a = address ∧ (∀ b z, (b, z) ∈ l → IPString b = address ∧ routable_bind b ∧ Net.ip_loopback b = false ∧ z = "") ∧
     (∀ o, Net.ParseIP operatorBind = Some o → ip_equal a o = false) ∧ ∃ interfaces b, localAddrs = Some interfaces ∧ Some b ∈ interfaces ∧ ip_equal a b = true).

Theorem rest_bind_confined (lookup : string → option (list (ip * string))) (localAddrs : option (list (option ip))) (bind hosts : string) (port : Z) (operatorBind address : string)
    (Hop : operatorBind ≠ "") (Hok : resolveSplitBridgeBind lookup localAddrs bind hosts port operatorBind = Ok address) :
  rest_confined lookup localAddrs bind hosts port operatorBind address.
Proof.
  revert Hok. unfold resolveSplitBridgeBind, rest_confined. destruct (isSplitBridgeBind bind); cbn [negb].
  2: { destruct (_ || _); [done|]. rewrite (proj2 (String.eqb_neq _ _)) by done. destruct (Net.isLoopbackBind bind) eqn:Hl; cbn; [|done]. intros [= <-]. by left. }
  destruct (String.eqb_spec hosts (bind +:+ ":" +:+ pretty port)) as [->|]; cbn [negb]; [|done]. intros Hok. right. split_and!; [done..|]. revert Hok.
  destruct (lookup bind) as [[|[a0 z0] l]|] eqn:Hl; [done| |done]. cbv beta iota. intros Hok. set (addresses := (a0, z0) :: l) in *.
  destruct (existsb unsafe_split addresses) eqn:He; [done|]. destruct (remove_dups _) as [|x [|]] eqn:Hd; [done| |done].
  destruct localAddrs as [interfaces|]; [|done]. destruct (last addresses) as [[a z]|] eqn:Hlast; [|by apply last_None in Hlast]. cbn [fmap option_fmap option_map fst default] in Hok.
  destruct (match Net.ParseIP operatorBind with Some o => _ | None => _ end) eqn:Ho; [done|].
  destruct (existsb _ interfaces) eqn:Hi; [|done]. injection Hok as <-. apply last_Some in Hlast as [pre Hpre].
  assert (∀ b y, (b, y) ∈ addresses → IPString b = x) as Hall by (intros b y Hin; eapply dups_single; [exact Hd|]; apply list_elem_of_fmap; by exists (b, y)).
  assert ((a, z) ∈ addresses) as Hin by (rewrite Hpre; set_solver).
  exists addresses, a. split_and!; [done|apply list_elem_of_fmap; by exists (a, z)|by eapply Hall| | |].
  - intros b y Hb. assert (unsafe_split (b, y) = false) as Hu.
    { apply not_true_iff_false. intros Ht. apply not_true_iff_false in He. apply He, existsb_exists. exists (b, y). by rewrite <-list_elem_of_In. }
    unfold unsafe_split in Hu. cbn in Hu. rewrite !orb_false_iff, negb_false_iff, String.eqb_eq in Hu. destruct Hu as ((((_ & Hu) & Hm) & Hlo) & Hz).
    split_and!; [by eapply Hall|by split|done|done].
  - intros o Hoo. by rewrite Hoo in Ho.
  - apply existsb_exists in Hi as ([b|] & Hbi & Hb); [|done]. exists interfaces, b. split_and!; [done|by rewrite list_elem_of_In|done].
Qed.

Lemma operator_token_trimmed getenv lookup file cfg : parseOperatorConfig getenv lookup file = (cfg, None) → trim_space (Token cfg) = Token cfg.
Proof.
  unfold parseOperatorConfig. cbv zeta. destruct (operator_port getenv) as [port|]; [|done]. destruct (_ && _); [by intros [= <-]|].
  destruct (resolved_bind _ _); [|done]. destruct (existsb _ _); [done|]. destruct (operator_token getenv file) as [token|] eqn:Ht; [|done].
  apply operator_token_ok in Ht as (raw & -> & _). destruct (_ && _); [done|]. intros [= <-]. apply trim_space_idemp.
Qed.

(** The admin port of a split deployment is one IPv4 address off this host. *)
Theorem mcp_admin_pinned (lookup : string → option (list (ip * string))) (bind host address : string) (Hok : resolveSplitMCPAdmin lookup bind = Ok (host, address)) :
  ∃ name a, host = JoinHostPort name "8091" ∧ address = JoinHostPort (IPString a) "8091" ∧ lookup name = Some [(a, "")] ∧ is_v4 a = true ∧ Net.ip_loopback a = false ∧ routable_bind a.
Proof.
  revert Hok. unfold resolveSplitMCPAdmin. set (name := "mcp-admin." +:+ _). destruct (lookup name) as [[|[a z] [|]]|] eqn:Hl; try done.
  destruct (String.eqb_spec z "") as [->|]; cbn [negb]; [|done]. destruct (_ || ip_multicast a) eqn:Hs; [done|]. intros [= <- <-].
  rewrite !orb_false_iff, negb_false_iff in Hs. destruct Hs as (((H1 & H2) & H3) & H4). exists name, a. by split_and!.
Qed.

Module Sample.
Definition env (k : string) : string :=
  if String.eqb k "WHATSAPP_OPERATOR_BIND" then "operator.example"
  else if String.eqb k "WHATSAPP_OPERATOR_TOKEN" then "000102030405060708090a0b0c0d0e0f101112131415161718191a1b1c1d1e1f"
  else if String.eqb k "WHATSAPP_BRIDGE_TOKEN" then "a-bridge-token-of-its-own" else "".
Definition resolver (name : string) : option (list (ip * string)) :=
  if String.eqb name "operator.example" then Some [([172; 20; 0; 5], ""); ([0; 0; 0; 0; 0; 0; 0; 0; 0; 0; 255; 255; 172; 20; 0; 5], "")]
  else if String.eqb name "bridge-agent.home_agent" then Some [([172; 21; 0; 2], "")]
  else if String.eqb name "mcp-admin.home_agent" then Some [([172; 21; 0; 3], "")] else None.
Definition no_file (path : string) : secret_file := {| lstat := None; opens := false; opened := None; content := None |}.
Definition cfg : operatorConfig :=
  {| Socket := ""; Bind := "172.20.0.5"; Port := 8090; Token := "000102030405060708090a0b0c0d0e0f101112131415161718191a1b1c1d1e1f"; AllowedHosts := "" |}.

Lemma operator_listener_narrow_witness :
  parseOperatorConfig env resolver no_file = (cfg, None) ∧ (∃ bytes, decoded (Token cfg) = Some bytes ∧ strong bytes) ∧ any (buildHostAllowList (Port cfg) (Bind cfg) (AllowedHosts cfg)).1 = false.
Proof.
  assert (parseOperatorConfig env resolver no_file = (cfg, None)) as Hok by (vm_compute; reflexivity). split; [exact Hok|].
  destruct (operator_listener_narrow env resolver no_file cfg Hok) as (_ & _ & H). destruct H as (_ & Hh & Hb & _); [discriminate|]. exact (conj Hb Hh).
Defined.

Definition interfaces : option (list (option ip)) := Some [Some [127; 0; 0; 1]; Some [172; 21; 0; 2]].

Lemma rest_bind_confined_witness :
  resolveSplitBridgeBind resolver interfaces "bridge-agent.home_agent" "bridge-agent.home_agent:8080" 8080 "172.20.0.5" = Ok "172.21.0.2" ∧
  ∃ l a, resolver "bridge-agent.home_agent" = Some l ∧ a ∈ l.*1 ∧ IPString a = "172.21.0.2".
Proof.
  assert (resolveSplitBridgeBind resolver interfaces "bridge-agent.home_agent" "bridge-agent.home_agent:8080" 8080 "172.20.0.5" = Ok "172.21.0.2") as Hok by (vm_compute; reflexivity).
  split; [exact Hok|].
  destruct (rest_bind_confined resolver interfaces "bridge-agent.home_agent" "bridge-agent.home_agent:8080" 8080 "172.20.0.5" "172.21.0.2") as [[Hl _]|(_ & _ & l & a & H1 & H2 & H3 & _)];
    [discriminate|exact Hok|discriminate|eauto].
Defined.

Lemma mcp_admin_pinned_witness : resolveSplitMCPAdmin resolver "bridge-agent.home_agent" = Ok ("mcp-admin.home_agent:8091", "172.21.0.3:8091") ∧
  ∃ name a, resolver name = Some [(a, "")] ∧ "172.21.0.3:8091" = JoinHostPort (IPString a) "8091".
Proof.
  assert (resolveSplitMCPAdmin resolver "bridge-agent.home_agent" = Ok ("mcp-admin.home_agent:8091", "172.21.0.3:8091")) as Hok by (vm_compute; reflexivity).
  split; [exact Hok|]. destruct (mcp_admin_pinned resolver _ _ _ Hok) as (name & a & _ & H1 & H2 & _). eauto.
Defined.

(** Spellings of addresses. *)
Example spellings : IPString [0; 0; 0; 0; 0; 0; 0; 0; 0; 0; 0; 0; 0; 0; 0; 1] = "::1" ∧
  IPString [32; 1; 13; 184; 0; 0; 0; 0; 0; 1; 0; 0; 0; 0; 0; 1] = "2001:db8::1:0:0:1" ∧ IPString [10; 0; 0; 255] = "10.0.0.255".
Proof. vm_compute. done. Qed.

(** Repetitions and wildcards are refused; a name with two addresses is refused. *)
Example refused_tokens : validateOperatorToken "abababababababababababababababababababababababababababababababab" = false ∧ validateOperatorToken "" = false.
Proof. vm_compute. done. Qed.
Example refused_binds : is_ok (resolved_bind resolver "0.0.0.0") = false ∧ is_ok (resolved_bind resolver "::") = false ∧ is_ok (resolved_bind resolver "224.0.0.1") = false ∧
  is_ok (resolved_bind (λ _, Some [([10; 0; 0; 1], ""); ([10; 0; 0; 2], "")]) "two") = false.
Proof. vm_compute. done. Qed.
End Sample.
