(* ===== verification/McpToken.v ===== *)
(** * The token of the MCP server ([mcp_token.go])

    The operator rotates the token the MCP server accepts: the bridge keeps the hash of
    the current token and of the one before, with the time until which that one is still
    accepted, in a row of the settings table.  The table is that of [RuntimeSettings]. *)
From S2P Require Import Prelude Http Config RuntimeSettings Rest StoreTime.
#[local] Open Scope Z_scope.

Definition mcpTokenKey : string := "auth.mcp_token".

Record mcpTokenState := { Current : string; Previous : string; PreviousValidUntil : Z }.

(** The zero [time.Time], year 1. *)
Definition zeroTime : Z := -62135596800 * 10 ^ 9.
Definition no_token : mcpTokenState := {| Current := ""; Previous := ""; PreviousValidUntil := zeroTime |}.

Fixpoint all_hex (s : string) : bool :=
  match s with EmptyString => true | String a t => bool_decide (is_Some (Net.hex_value a)) && all_hex t end.

(** [hex.DecodeString] gives 32 bytes. *)
Definition validTokenHash (hash : string) : bool := all_hex hash && Nat.eqb (String.length hash) 64.

(** The outcomes of the statements of one transaction. *)
Record transaction := { begins : bool; reads : bool; versions : bool; writes : bool; commits : bool }.

Record token_body := { SHA256 : string; Token : option string; Until : Z }.

Section Token.
(** [sha256.Sum256], and the JSON text of a [time.Time]. *)
Context (sha256 : string → list Z) (time_text : Z → string) (parse_time : string → option Z).

Definition tokenHash (token : string) : string := if String.eqb token "" then "" else Auth.hex_encode (sha256 token).

(** ** The saved row *)

(** [json.Unmarshal] into the struct: field names fold their case, [null] leaves a field. *)
Definition read_field (st : option mcpTokenState) (kv : string * json) : option mcpTokenState :=
  match st with
  | None => None
  | Some st =>
      let name := to_lower kv.1 in
      if String.eqb name "current" then
        match kv.2 with JNull => Some st | JStr s => Some {| Current := s; Previous := Previous st; PreviousValidUntil := PreviousValidUntil st |} | _ => None end
      else if String.eqb name "previous" then
        match kv.2 with JNull => Some st | JStr s => Some {| Current := Current st; Previous := s; PreviousValidUntil := PreviousValidUntil st |} | _ => None end
      else if String.eqb name "previous_valid_until" then
        match kv.2 with
        | JNull => Some st
        | JStr s => (λ t, {| Current := Current st; Previous := Previous st; PreviousValidUntil := t |}) <$> parse_time s
        | _ => None
        end
      else Some st
  end.

Definition unmarshal (j : json) : option mcpTokenState :=
  match j with JObj fs => foldl read_field (Some no_token) fs | JNull => Some no_token | _ => None end.

Definition marshal (st : mcpTokenState) : json :=
  JObj [("current", JStr (Current st)); ("previous", JStr (Previous st)); ("previous_valid_until", JStr (time_text (PreviousValidUntil st)))].

Definition readMCPToken (rows : list row) : result string mcpTokenState :=
  match find (λ r, String.eqb (row_key r) mcpTokenKey) rows with
  | None => Ok no_token
  | Some r =>
      match saved r with
      | Some JNull => Ok no_token
      | raw =>
          match raw ≫= unmarshal with
          | Some st => if validTokenHash (Current st) && (String.eqb (Previous st) "" || validTokenHash (Previous st)) then Ok st
                       else Err "invalid saved MCP authentication state"
          | None => Err "invalid saved MCP authentication state"
          end
      end
  end.

(** [COALESCE(MAX(version),0)+1]. *)
Definition next_version (rows : list row) : Z :=
  match version <$> rows with [] => 1 | v :: vs => foldr Z.max v vs + 1 end.

Section Save.
(** [MCPEnvHash]: the hash of the token of the environment. *)
Context (MCPEnvHash : string).

Definition rotated (st : mcpTokenState) (hash : string) (until : Z) : mcpTokenState :=
  {| Current := hash; Previous := (if String.eqb (Current st) "" then MCPEnvHash else Current st); PreviousValidUntil := until |}.

(** [saveMCPToken]: the new state and version, with the rows it leaves. *)
Definition saveMCPToken (tx : transaction) (rows : list row) (hash : string) (until : Z) (clear : bool) : result string (mcpTokenState * Z) * list row :=
  if negb (begins tx) then (Err "begin", rows)
  else
    match (if reads tx then readMCPToken rows else Err "read"), clear with
    | Err e, false => (Err e, rows)
    | found, _ =>
        if negb (versions tx) then (Err "version", rows)
        else
          let version := next_version rows in
          let state := if clear then no_token else rotated (match found with Ok st => st | Err _ => no_token end) hash until in
          let raw := if clear then JNull else marshal state in
          if negb (writes tx) then (Err "write", rows)
          else if negb (commits tx) then (Err "commit", rows)
          else (Ok (state, version), upsert version rows (mcpTokenKey, raw))
    end.

(** ** The handler *)

Definition day : Z := 24 * 60 * 60 * 10 ^ 9.

Definition accepted_body (b : token_body) : bool :=
  validTokenHash (to_lower (SHA256 b)) &&
  match Token b with
  | None => true
  | Some t => Nat.leb 16 (String.length t) && String.eqb (tokenHash t) (to_lower (SHA256 b))
  end.

Definition clamp (now until : Z) : Z :=
  let until := if now + day <? until then now + day else until in
  if until <? now then now else until.

(** [handleMCPToken]; [body] is what [operatorDecode] made of the body, or its refusal. *)
Definition handleMCPToken (now : Z) (tx : transaction) (method : string) (body : result Http.reply token_body) (rows : list row) : result Http.reply (mcpTokenState * Z) * list row :=
  let save hash until clear :=
    match saveMCPToken tx rows hash until clear with
    | (Ok sv, rows) => (Ok sv, rows)
    | (Err _, rows) => (Err (Http.writeErrorCode 503 "settings_unavailable" "MCP authentication state could not be saved"), rows)
    end in
  if String.eqb method "POST" then
    match body with
    | Err r => (Err r, rows)
    | Ok b => if accepted_body b then save (to_lower (SHA256 b)) (clamp now (Until b)) false
              else (Err (Http.writeErrorCode 400 "invalid_request" "Expected a SHA256 hash matching the optional token"), rows)
    end
  else if String.eqb method "DELETE" then save "" zeroTime true
  else (Err (Http.writeError 405 "Use POST or DELETE"), rows).

(** ** Lemmas *)

Context (Htime : ∀ t, four_digit_year t → parse_time (time_text t) = Some t) (Henv : MCPEnvHash = "" ∨ validTokenHash MCPEnvHash = true).

Lemma unmarshal_marshal st : four_digit_year (PreviousValidUntil st) → unmarshal (marshal st) = Some st.
Proof using Htime. intros Hy. unfold unmarshal, marshal. cbn [foldl]. unfold read_field. cbn. rewrite Htime by done. by destruct st. Qed.

Lemma find_upsert ver rows k j : find (λ r, String.eqb (row_key r) k) (upsert ver rows (k, j)) = Some {| row_key := k; saved := Some j; version := ver |}.
Proof.
  unfold upsert. cbn [fst snd]. destruct (existsb _ rows) eqn:He.
  - induction rows as [|x rows IH]; [done|]. cbn in He |- *. destruct (String.eqb (row_key x) k) eqn:Hx; cbn.
    + by rewrite String.eqb_refl.
    + rewrite Hx. by apply IH.
  - induction rows as [|x rows IH]; cbn in *; [by rewrite String.eqb_refl|]. destruct (String.eqb (row_key x) k); [done|]. by apply IH.
Qed.

Lemma validTokenHash_nonempty h : validTokenHash h = true → h ≠ "".
Proof. by intros H ->. Qed.

Definition readable (st : mcpTokenState) : bool := validTokenHash (Current st) && (String.eqb (Previous st) "" || validTokenHash (Previous st)).

(** What can be in force: nothing, or hashes. *)
Definition state_ok (st : mcpTokenState) : Prop := st = no_token ∨ readable st = true.

Lemma read_state_ok rows st : readMCPToken rows = Ok st → state_ok st.
Proof.
  unfold readMCPToken, state_ok, readable. destruct (find _ rows) as [r|]; [|intros [= <-]; auto].
  destruct (saved r) as [[]|]; cbn [mbind option_bind]; try (intros [= <-]; auto); repeat case_match; intros; simplify_eq; auto.
Qed.

Lemma rotated_ok st hash until : state_ok st → validTokenHash hash = true → readable (rotated st hash until) = true.
Proof using Henv.
  intros Hst Hh. unfold readable, rotated. cbn. rewrite Hh. cbn. destruct (String.eqb_spec (Current st) "") as [He|Hne].
  - destruct Henv as [->|He']; [done|]. by rewrite He', orb_true_r.
  - destruct Hst as [->|Hr]; [done|]. apply andb_true_iff in Hr as [-> _]. by rewrite orb_true_r.
Qed.

Lemma read_upsert ver rows st : four_digit_year (PreviousValidUntil st) → readable st = true → readMCPToken (upsert ver rows (mcpTokenKey, marshal st)) = Ok st.
Proof using Htime.
  intros Hy Hr. unfold readMCPToken. rewrite find_upsert. cbn [saved].
  pose proof (unmarshal_marshal st Hy) as Hm. unfold readable in Hr. unfold marshal in *. cbn [mbind option_bind]. by rewrite Hm, Hr.
Qed.

Lemma read_cleared ver rows : readMCPToken (upsert ver rows (mcpTokenKey, JNull)) = Ok no_token.
Proof. unfold readMCPToken. by rewrite find_upsert. Qed.

Lemma next_version_max rows : Forall (λ r, 0 < version r) rows → next_version rows = max_version rows + 1.
Proof.
  unfold next_version, max_version. destruct rows as [|r rows]; [done|]. intros Hall. cbn. f_equal.
  assert (∀ v, 0 < v → foldr Z.max v (version <$> rows) = Z.max v (foldr (λ r v, Z.max (version r) v) 0 rows)) as H.
  { clear Hall. intros v Hv. induction rows as [|x rows IH]; cbn; [lia|]. rewrite IH. lia. }
  rewrite H by (inversion Hall; lia). done.
Qed.

(** No setting has this key: the reader passes the row over. *)
Lemma find_definition_token : find_definition mcpTokenKey = None.
Proof. vm_compute. reflexivity. Qed.

(** What the rows say of every setting. *)
Definition contents (s : runtimeSettingsSnapshot) : gmap string runtimeSetting * ToolPolicy.toolPolicy * ChatPolicy.chatPolicy := (Settings s, policy s, chats s).

Definition same_reading (a b : read_state) : Prop := rs_settings a = rs_settings b ∧ rs_closed a = rs_closed b.

Lemma read_row_same defaults a b r : same_reading a b → same_reading (read_row defaults a r) (read_row defaults b r).
Proof.
  intros [Hs Hc]. destruct a as [va sa ca], b as [vb sb cb]. cbn [rs_settings rs_closed] in *. subst. unfold same_reading, read_row, rs_put.
  destruct (find_definition (row_key r)) as [def|]; [|split; reflexivity]. cbn [rs_version rs_settings rs_closed].
  repeat match goal with |- context [match ?x with _ => _ end] => destruct x end; split; reflexivity.
Qed.

Lemma read_rows_same defaults rows : ∀ a b, same_reading a b → same_reading (foldl (read_row defaults) a rows) (foldl (read_row defaults) b rows).
Proof. induction rows as [|r rows IH]; intros a b H; [done|]. cbn. by apply IH, read_row_same. Qed.

Lemma read_token_row defaults st r : row_key r = mcpTokenKey → same_reading (read_row defaults st r) st.
Proof. intros Hr. unfold read_row. by rewrite Hr, find_definition_token. Qed.

Lemma read_rows_token defaults ver rows j : ∀ a b, same_reading a b →
  same_reading (foldl (read_row defaults) a (upsert ver rows (mcpTokenKey, j))) (foldl (read_row defaults) b rows).
Proof.
  unfold upsert. destruct (existsb _ rows); cbn [fst snd].
  - induction rows as [|r rows IH]; intros a b H; [done|]. cbn. apply IH. destruct (String.eqb_spec (row_key r) mcpTokenKey) as [Hr|]; [|by apply read_row_same].
    assert (∀ x r', row_key r' = mcpTokenKey → same_reading x b → same_reading (read_row defaults x r') b) as Hskip
      by (intros x r' Hr' [? ?]; destruct (read_token_row defaults x r' Hr'); split; congruence).
    destruct (read_token_row defaults b r Hr) as [Hb1 Hb2].
    destruct (Hskip a {| row_key := mcpTokenKey; saved := Some j; version := ver |} eq_refl H). split; congruence.
  - intros a b H. rewrite foldl_app. cbn [foldl].
    destruct (read_token_row defaults (foldl (read_row defaults) a rows) {| row_key := mcpTokenKey; saved := Some j; version := ver |} eq_refl) as [H1 H2].
    destruct (read_rows_same defaults rows a b H). split; congruence.
Qed.

Lemma settings_untouched defaults ver rows j : contents (readRuntimeSettings defaults (upsert ver rows (mcpTokenKey, j))) = contents (readRuntimeSettings defaults rows).
Proof.
  unfold contents, readRuntimeSettings.
  destruct (read_rows_token defaults ver rows j {| rs_version := 0; rs_settings := defaults; rs_closed := false |} {| rs_version := 0; rs_settings := defaults; rs_closed := false |}) as [Hs Hc]; [done|].
  rewrite Hs, Hc. destruct (applyRuntimeToolFloor _ _ _) as [m1 tp]. by destruct (apply_chats m1 defaults) as [m2 cp].
Qed.

Lemma version_bumped defaults rows j : Forall (λ r, 0 < version r) rows →
  Version (readRuntimeSettings defaults (upsert (next_version rows) rows (mcpTokenKey, j))) = Version (readRuntimeSettings defaults rows) + 1.
Proof.
  intros Hpos. rewrite !Version_max, next_version_max by done. pose proof (max_version_nonneg rows). apply Z.le_antisymm.
  - apply max_version_bound; [lia|]. apply Forall_forall. intros r [[Hr _]| ->]%elem_of_upsert; [apply max_version_ge in Hr; lia|cbn; lia].
  - apply (max_version_ge _ {| row_key := mcpTokenKey; saved := Some j; version := max_version rows + 1 |}). apply elem_of_upsert. by right.
Qed.

Lemma until_clamped now until : now ≤ clamp now until ≤ now + day.
Proof. unfold clamp, day. repeat case_match; rewrite ?Z.ltb_lt, ?Z.ltb_ge in *; lia. Qed.

(** ** Theorems *)

(** A table as this and the settings handler keep it. *)
Definition table_ok (rows : list row) : Prop := NoDup (row_key <$> rows) ∧ Forall (λ r, 0 < version r) rows.

Lemma upsert_table_ok rows kv : table_ok rows → table_ok (upsert (next_version rows) rows kv).
Proof.
  intros [Hnd Hpos]. split; [by apply upsert_nodup|]. apply Forall_forall. intros r [[Hr _]| ->]%elem_of_upsert; [by eapply Forall_forall in Hpos|].
  cbn. rewrite next_version_max by done. pose proof (max_version_nonneg rows). lia.
Qed.

(** [C32] Rotation of the token.  A request that succeeds bumps the version by one, keeps
    every setting, and leaves a row that reads back: after a POST the posted hash is
    current, the one before it (the environment's, when none was saved) stays accepted
    for at most a day, and nothing but hashes is saved; after a DELETE nothing is saved,
    even where the saved state could not be read.  A request that fails changes nothing. *)
Theorem token_rotated (defaults : gmap string runtimeSetting) (now : Z) (tx : transaction) (method : string) (body : result Http.reply token_body) (rows rows' : list row)
    (answer : result Http.reply (mcpTokenState * Z)) (Hyear : ∀ t, now ≤ t ≤ now + day → four_digit_year t) (Hok : table_ok rows) (Hrun : handleMCPToken now tx method body rows = (answer, rows')) :
  match answer with
  | Err _ => rows' = rows
  | Ok (st, v) =>
      table_ok rows' ∧ readMCPToken rows' = Ok st ∧
      v = Version (readRuntimeSettings defaults rows') ∧ v = Version (readRuntimeSettings defaults rows) + 1 ∧
      contents (readRuntimeSettings defaults rows') = contents (readRuntimeSettings defaults rows) ∧
      (method = "DELETE" ∧ st = no_token ∨
       method = "POST" ∧ ∃ b old, body = Ok b ∧ readMCPToken rows = Ok old ∧ readable st = true ∧ Current st = to_lower (SHA256 b) ∧
         (∀ t, Token b = Some t → Current st = tokenHash t) ∧ Previous st = (if String.eqb (Current old) "" then MCPEnvHash else Current old) ∧
         now ≤ PreviousValidUntil st ≤ now + day)
  end.
Proof using Htime Henv.
  pose proof Hok as [Hnd Hpos]. revert Hrun. unfold handleMCPToken, saveMCPToken. destruct (String.eqb_spec method "POST") as [->|_]; [|destruct (String.eqb_spec method "DELETE") as [->|_]; [|by intros [= <- <-]]].
  - destruct body as [b|r]; [|by intros [= <- <-]]. destruct (accepted_body b) eqn:Hb; [|by intros [= <- <-]].
    destruct (begins tx); cbn [negb]; [|by intros [= <- <-]]. destruct (reads tx); [|by intros [= <- <-]].
    destruct (readMCPToken rows) as [old|e] eqn:Hold; [|by intros [= <- <-]].
    destruct (versions tx); cbn [negb]; [|by intros [= <- <-]]. destruct (writes tx); cbn [negb]; [|by intros [= <- <-]].
    destruct (commits tx); cbn [negb]; [|by intros [= <- <-]]. intros [= <- <-].
    unfold accepted_body in Hb. apply andb_true_iff in Hb as [Hh Ht]. pose proof (rotated_ok old _ (clamp now (Until b)) (read_state_ok _ _ Hold) Hh) as Hr.
    split_and!; [by apply upsert_table_ok|apply read_upsert; [apply Hyear, until_clamped|done]| | |by apply settings_untouched|right; split; [done|]].
    + rewrite version_bumped, Version_max by done. by apply next_version_max.
    + rewrite Version_max. by apply next_version_max.
    + exists b, old. split_and!; [done..| |done| |]; try apply until_clamped. intros t Htok. rewrite Htok in Ht.
      apply andb_true_iff in Ht as [_ Ht%String.eqb_eq]. done.
  - destruct (begins tx); cbn [negb]; [|by intros [= <- <-]].
    assert (∀ found : result string mcpTokenState, (match found, true with Err e, false => (Err e, rows)
       | _, _ => if negb (versions tx) then (Err "version", rows)
           else if negb (writes tx) then (Err "write", rows) else if negb (commits tx) then (Err "commit", rows)
           else (Ok (no_token, next_version rows), upsert (next_version rows) rows (mcpTokenKey, JNull)) end : result string (mcpTokenState * Z) * list row) =
      if negb (versions tx) then (Err "version", rows)
           else if negb (writes tx) then (Err "write", rows) else if negb (commits tx) then (Err "commit", rows)
           else (Ok (no_token, next_version rows), upsert (next_version rows) rows (mcpTokenKey, JNull))) as Hcase by (by intros []).
    cbn zeta. rewrite Hcase. clear Hcase. destruct (versions tx); cbn [negb]; [|by intros [= <- <-]]. destruct (writes tx); cbn [negb]; [|by intros [= <- <-]].
    destruct (commits tx); cbn [negb]; [|by intros [= <- <-]]. intros [= <- <-].
    split_and!; [by apply upsert_table_ok|apply read_cleared| | |by apply settings_untouched|by left].
    + rewrite version_bumped, Version_max by done. by apply next_version_max.
    + rewrite Version_max. by apply next_version_max.
Qed.

(** A DELETE goes through whatever is saved, if the database does. *)
Theorem token_recovers (now : Z) (tx : transaction) (body : result Http.reply token_body) (rows : list row) (Hdb : begins tx && versions tx && writes tx && commits tx = true) :
  handleMCPToken now tx "DELETE" body rows = (Ok (no_token, next_version rows), upsert (next_version rows) rows (mcpTokenKey, JNull)).
Proof.
  apply andb_true_iff in Hdb as [[[H1 H2]%andb_true_iff H3]%andb_true_iff H4]. unfold handleMCPToken, saveMCPToken. rewrite H1, H2, H3, H4. cbn.
  by destruct (if reads tx then _ else _).
Qed.
End Save.
End Token.

Module Sample.
(** A spelling of times as numerals, in place of RFC 3339. *)
Fixpoint pos_text (p : positive) : string := match p with xH => "1" | xO p => String "0" (pos_text p) | xI p => String "i" (pos_text p) end.
Fixpoint text_pos (s : string) : option positive :=
  match s with
  | String "1" EmptyString => Some xH
  | String "0" t => xO <$> text_pos t
  | String "i" t => xI <$> text_pos t
  | _ => None
  end.
Definition time_text (t : Z) : string := pos_text (encode t).
Definition parse_time (s : string) : option Z := text_pos s ≫= decode.

Lemma text_pos_text p : text_pos (pos_text p) = Some p.
Proof. induction p as [p IH|p IH|]; cbn; [by rewrite IH..|done]. Qed.

Lemma parse_time_text t : parse_time (time_text t) = Some t.
Proof. unfold parse_time, time_text. rewrite text_pos_text. apply decode_encode. Qed.

Definition sum (s : string) : list Z := repeat (Z.of_nat (String.length s)) 32.
Definition fine : transaction := {| begins := true; reads := true; versions := true; writes := true; commits := true |}.
Definition env_hash : string := tokenHash sum "0123456789abcdef".
Definition posted : token_body := {| SHA256 := tokenHash sum "a-second-token-x-y"; Token := Some "a-second-token-x-y"; Until := 10 ^ 18 |}.
Definition first_rotation : result Http.reply (mcpTokenState * Z) * list row :=
  handleMCPToken sum time_text parse_time env_hash 0 fine "POST" (Ok posted) [{| row_key := "tools.deny"; saved := Some (JArr []); version := 4 |}].

Lemma token_rotated_witness : match first_rotation.1 with
  | Ok (st, v) => v = 5 ∧ Previous st = env_hash ∧ readMCPToken parse_time first_rotation.2 = Ok st ∧ PreviousValidUntil st ≤ day
  | Err _ => False
  end.
Proof.
  assert (∀ t, 0 ≤ t ≤ 0 + day → four_digit_year t) as Hyear.
  { intros t Ht. unfold four_digit_year, stamp, day in *. split; [|]; pose proof (Z.div_pos t (10 ^ 9)); pose proof (Z.div_le_mono t (24 * 60 * 60 * 10 ^ 9) (10 ^ 9)); change (24 * 60 * 60 * 10 ^ 9 / 10 ^ 9) with 86400 in *; lia. }
  pose proof (token_rotated sum time_text parse_time env_hash (λ t _, parse_time_text t) (or_intror eq_refl) ∅ 0 fine "POST" (Ok posted)
    [{| row_key := "tools.deny"; saved := Some (JArr []); version := 4 |}] first_rotation.2 first_rotation.1 Hyear) as H.
  assert (first_rotation.1 = Ok ({| Current := tokenHash sum "a-second-token-x-y"; Previous := env_hash; PreviousValidUntil := day |}, 5)) as Heq by reflexivity.
  rewrite Heq in *. destruct H as (_ & Hread & _).
  - split; [apply NoDup_singleton|repeat constructor].
  - rewrite <-Heq. unfold first_rotation. by destruct (handleMCPToken _ _ _ _ _ _ _ _ _).
  - split_and!; [done|done|exact Hread|done].
Defined.

(** A row that cannot be read refuses a rotation and is removed by a DELETE. *)
Example broken_row_recovers :
  let rows := [{| row_key := mcpTokenKey; saved := None; version := 1 |}] in
  is_ok (handleMCPToken sum time_text parse_time env_hash 0 fine "POST" (Ok posted) rows).1 = false ∧
  readMCPToken parse_time (handleMCPToken sum time_text parse_time env_hash 0 fine "DELETE" (Ok posted) rows).2 = Ok no_token.
Proof. split; reflexivity. Qed.
End Sample.
