(* ===== verification/Startup.v ===== *)
(** * The configuration of the process ([config.go], [media_s3_config.go], the parser of
    [proxy.go], the path checks of [operator_socket_unix.go])

    Every variable is read before anything is opened, and all problems are reported
    together.  [url.Parse] and the bucket name check are arguments; so are the resolver,
    the interfaces and what the file system answers. *)
From stdpp Require Import pretty.
From S2P Require Import Prelude Http ChatPolicy ToolPolicy Config RuntimeSettings Webhook Rest Archive MediaPath SnapshotApi Operator OperatorConfig McpToken.
Import Hosts.
#[local] Open Scope Z_scope.

(** A URL as [url.Parse] takes it apart; [Userinfo] is name and password. *)
Record parsed_url := {
  u_scheme : string; u_host : string; u_hostname : string; u_port : string; u_user : option (string * string);
  u_opaque : string; u_query : string; u_force_query : bool; u_fragment : string; u_path : string;
}.

(** [strings.ContainsFunc(s, unicode.IsControl)]: C0, DEL and, as two bytes, C1. *)
Fixpoint has_control (l : list ascii) : bool :=
  match l with
  | [] => false
  | a :: t =>
      let n := byte_code a in
      (n <? 32) || (n =? 127) || ((n =? 194) && match t with b :: _ => (128 <=? byte_code b) && (byte_code b <=? 159) | [] => false end) || has_control t
  end.
Definition contains_control (s : string) : bool := has_control (list_ascii_of_string s).

(** A credential file: [Lstat] gives its kind, size and mode. *)
Record credential_file := { c_lstat : option (bool * Z * Z); c_root : bool; c_opens : bool; c_same : bool; c_data : option string }.

Section Config.
Context (getenv : string → string) (parse_url : string → option parsed_url) (valid_bucket : string → bool) (secret : string → credential_file).

(** ** Credentials *)

Definition mediaSecret (key fileKey : string) : result string string :=
  let value := getenv key in
  let file := getenv fileKey in
  let checked value := if String.eqb value "" || Nat.ltb 4096 (String.length value) || contains_control value then Err (key +:+ ": required bounded credential") else Ok value in
  if negb (String.eqb value "") && negb (String.eqb file "") then Err (key +:+ ": set value or _FILE, never both")
  else if String.eqb file "" then checked value
  else
    let f := secret file in
    match c_lstat f with
    | Some (true, size, mode) =>
        if (4096 <? size) || negb (owner_only mode) then Err (key +:+ "_FILE: expected an owner-only regular file of at most 4096 bytes")
        else if negb (c_root f) || negb (c_opens f) then Err (key +:+ "_FILE: cannot open secret")
        else if negb (c_same f) then Err (key +:+ "_FILE: secret changed while opening")
        else match c_data f with
             | None => Err (key +:+ "_FILE: cannot read secret")
             | Some data => if Nat.ltb 4096 (String.length (String.substring 0 4097 data)) then Err (key +:+ "_FILE: cannot read secret") else checked (trim_space data)
             end
    | _ => Err (key +:+ "_FILE: expected an owner-only regular file of at most 4096 bytes")
    end.

(** ** The media backend *)

Record mediaBackendConfig := {
  Backend : string; Endpoint : string; Region : string; Bucket : string; Prefix : string; AccessKey : string; SecretKey : string; PathStyle : bool; WarnPercent : Z;
}.

(** [plaintextRemote]. *)
Definition plaintextRemote (c : mediaBackendConfig) : bool :=
  match parse_url (Endpoint c) with
  | Some u => String.eqb (Backend c) "s3" && String.eqb (u_scheme u) "http" && negb (String.eqb (to_lower (Net.fold_long_s (u_hostname u))) "localhost") &&
              match Net.ParseIP (u_hostname u) with Some a => negb (Net.ip_loopback a) | None => true end
  | None => false
  end.

Definition plain_origin (endpoint : string) : bool :=
  match parse_url endpoint with
  | Some u => negb (String.eqb (u_hostname u) "") && (String.eqb (u_scheme u) "https" || String.eqb (u_scheme u) "http") && bool_decide (u_user u = None) &&
              String.eqb (u_query u) "" && String.eqb (u_fragment u) "" && (String.eqb (u_path u) "" || String.eqb (u_path u) "/")
  | None => false
  end.

Definition plain_component (p : string) : bool := negb (String.eqb p "" || String.eqb p "." || String.eqb p "..").
Definition plain_prefix (prefix : string) : bool :=
  negb (String.eqb prefix "" || Nat.ltb 512 (String.length prefix) || contains_any "\%" prefix || contains_control prefix) && forallb plain_component (split_byte "/" prefix).

Definition warn_percent : result string Z :=
  let raw := getenv "WHATSAPP_MEDIA_QUOTA_WARN_PERCENT" in
  if String.eqb raw "" then Ok 80
  else match Atoi raw with
       | Some n => if (1 <=? n) && (n <=? 100) then Ok n else Err "invalid WHATSAPP_MEDIA_QUOTA_WARN_PERCENT: expected 1..100"
       | None => Err "invalid WHATSAPP_MEDIA_QUOTA_WARN_PERCENT: expected 1..100"
       end.

Definition or_else (value def : string) : string := if String.eqb value "" then def else value.

(** [parseMediaBackend]. *)
Definition parseMediaBackend : result string mediaBackendConfig :=
  let backend := or_else (trim_space (getenv "WHATSAPP_MEDIA_BACKEND")) "local" in
  (let? percent := warn_percent in
   if negb (String.eqb backend "local") && negb (String.eqb backend "s3") then Err "invalid WHATSAPP_MEDIA_BACKEND: expected local or s3"
   else if String.eqb backend "local" then
     Ok {| Backend := backend; Endpoint := getenv "WHATSAPP_MEDIA_S3_ENDPOINT"; Region := getenv "WHATSAPP_MEDIA_S3_REGION"; Bucket := getenv "WHATSAPP_MEDIA_S3_BUCKET";
           Prefix := getenv "WHATSAPP_MEDIA_S3_PREFIX"; AccessKey := ""; SecretKey := ""; PathStyle := false; WarnPercent := percent |}
   else
     let endpoint := or_else (getenv "WHATSAPP_MEDIA_S3_ENDPOINT") "https://s3.amazonaws.com" in
     let bucket := getenv "WHATSAPP_MEDIA_S3_BUCKET" in
     let prefix := Net.trim_suffix_byte "/" (getenv "WHATSAPP_MEDIA_S3_PREFIX") in
     if negb (plain_origin endpoint) then Err "invalid WHATSAPP_MEDIA_S3_ENDPOINT: expected an HTTP(S) origin without credentials"
     else if negb (valid_bucket bucket) then Err "invalid WHATSAPP_MEDIA_S3_BUCKET"
     else if negb (plain_prefix prefix) then Err "invalid WHATSAPP_MEDIA_S3_PREFIX: required plain path components"
     else match parseBoolEnv "WHATSAPP_MEDIA_S3_FORCE_PATH_STYLE" (getenv "WHATSAPP_MEDIA_S3_FORCE_PATH_STYLE") false with
          | (_, Some _) => Err "invalid WHATSAPP_MEDIA_S3_FORCE_PATH_STYLE"
          | (style, None) =>
              let? access := mediaSecret "WHATSAPP_MEDIA_S3_ACCESS_KEY_ID" "WHATSAPP_MEDIA_S3_ACCESS_KEY_ID_FILE" in
              let? key := mediaSecret "WHATSAPP_MEDIA_S3_SECRET_ACCESS_KEY" "WHATSAPP_MEDIA_S3_SECRET_ACCESS_KEY_FILE" in
              Ok {| Backend := backend; Endpoint := endpoint; Region := or_else (getenv "WHATSAPP_MEDIA_S3_REGION") "auto"; Bucket := bucket;
                    Prefix := prefix +:+ "/"; AccessKey := access; SecretKey := key; PathStyle := style; WarnPercent := percent |}
          end)%go.

(** ** The proxy *)

Definition proxy_url_ok (u : parsed_url) : bool :=
  (String.eqb (u_scheme u) "http" || String.eqb (u_scheme u) "https" || String.eqb (u_scheme u) "socks5") && negb (String.eqb (u_hostname u) "") &&
  String.eqb (u_opaque u) "" && String.eqb (u_query u) "" && negb (u_force_query u) && String.eqb (u_fragment u) "" &&
  (String.eqb (u_path u) "" || String.eqb (u_path u) "/") && negb (contains_any " /\" (u_hostname u)) && negb (Chats.has_suffix ":" (u_host u)) &&
  (String.eqb (u_port u) "" || match Atoi (u_port u) with Some port => (1 <=? port) && (port <=? 65535) | None => false end) &&
  negb (String.eqb (u_scheme u) "socks5" && String.eqb (u_port u) "") &&
  match u_user u with
  | Some (name, password) => negb (String.eqb name "") && Nat.leb (String.length name) 255 && Nat.leb (String.length password) 255
  | None => true
  end.

(** [parseWhatsAppProxy]. *)
Definition parseWhatsAppProxy : result string (option parsed_url) :=
  if String.eqb (getenv "WHATSAPP_PROXY_URL") "" && String.eqb (getenv "WHATSAPP_PROXY_URL_FILE") "" then Ok None
  else (let? raw := mediaSecret "WHATSAPP_PROXY_URL" "WHATSAPP_PROXY_URL_FILE" in
        match parse_url raw with
        | Some u => if proxy_url_ok u then Ok (Some u) else Err "WHATSAPP_PROXY_URL: expected socks5:// or http(s):// host with optional credentials and port"
        | None => Err "WHATSAPP_PROXY_URL: expected socks5:// or http(s):// host with optional credentials and port"
        end)%go.

(** ** The path of the operator's socket *)

(** [os.Lstat] of a path, and [os.Stat] of the parent: whether it is a directory, its mode. *)
Inductive path_entry : Type := NoEntry | Unreadable | Entry (symlink : bool).
Context (lstat : string → path_entry) (parent : string → option (bool * Z)).

Definition Dir (p : string) : string := Clean (match cut_last "/" p with Some (d, _) => d +:+ "/" | None => "" end).
Fixpoint up_from (up : list string) : list string := render (reverse up) :: match up with [] => [] | _ :: up => up_from up end.
(** The path and every directory above it. *)
Definition ancestors (path : string) : list string := path :: up_from (reverse (components (Dir path))).

Fixpoint no_symlink (paths : list string) : option string :=
  match paths with
  | [] => None
  | p :: paths => match lstat p with
                  | Unreadable => Some "WHATSAPP_OPERATOR_SOCKET cannot inspect path"
                  | Entry true => Some "WHATSAPP_OPERATOR_SOCKET refuses symlinks"
                  | _ => no_symlink paths
                  end
  end.

Definition validateOperatorSocketPath (path : string) : option string :=
  match no_symlink (ancestors path) with
  | Some e => Some e
  | None => match parent (Dir path) with
            | Some (true, mode) => if Z.land mode 2 =? 0 then None else Some "WHATSAPP_OPERATOR_SOCKET parent must exist and not be world-writable"
            | _ => Some "WHATSAPP_OPERATOR_SOCKET parent must exist and not be world-writable"
            end
  end.

Context (eval : string → resolution) (cwd : string) (home : result string string).

(** [validateOperatorSocket]. *)
Definition validateOperatorSocket (path store media : string) : option string :=
  if String.eqb path "" then None
  else if negb (IsAbs path) || Nat.ltb 100 (String.length path) then Some "WHATSAPP_OPERATOR_SOCKET requires an absolute path of at most 100 bytes"
  else match validateSnapshotLocation eval cwd path store media home with
       | Err _ => Some "WHATSAPP_OPERATOR_SOCKET must be outside store, outbox and media roots"
       | Ok _ => validateOperatorSocketPath path
       end.

(** ** The whole environment *)

Definition resolveStatusRetention (raw : string) : result string (option Z) :=
  if String.eqb (trim_space raw) "" then Ok None
  else match resolveMediaRetention raw with
       | Ok v => Ok (Some v)
       | Err _ => Err ("invalid WHATSAPP_MEDIA_STATUS_RETENTION_DAYS=" +:+ configValue raw)
       end.

Definition resolveGroupRosterSync (value : string) : result string Z := resolveHoursEnv "WHATSAPP_GROUP_ROSTER_SYNC_HOURS" value (6 * hour_ns) 0.

Definition bool_env (name : string) (def : bool) : result string bool :=
  match parseBoolEnv name (getenv name) def with (b, None) => Ok b | (_, Some e) => Err e end.

Definition bridge_port : result string Z :=
  let value := getenv "WHATSAPP_BRIDGE_PORT" in
  if String.eqb value "" then Ok 8080
  else match Atoi value with
       | Some port => if (1 <=? port) && (port <=? 65535) then Ok port else Err ("invalid WHATSAPP_BRIDGE_PORT=" +:+ configValue value)
       | None => Err ("invalid WHATSAPP_BRIDGE_PORT=" +:+ configValue value)
       end.
(** The port later checks see: what [Atoi] answered, 0 where it failed. *)
Definition seen_port : Z := match bridge_port with Ok p => p | Err _ => default 0 (Atoi (getenv "WHATSAPP_BRIDGE_PORT")) end.

Context (sha256 : string → list Z).

(** The token of the MCP server: its hash, whether the bridge's token stands in for it. *)
Definition mcp_token : result string (string * bool) :=
  let token := trim_space (getenv "WHATSAPP_MCP_TOKEN") in
  if bool_decide (to_lower token ∈ ["off"; "none"; "disabled"]) then Ok ("", false)
  else if String.eqb token "" then
    let host := trim_space (getenv "WHATSAPP_MCP_HOST") in
    Ok ("", negb (String.eqb (trim_space (getenv "WHATSAPP_MCP_SOCKET")) "") || negb (bool_decide (host ∈ [""; "localhost"; "127.0.0.1"; "::1"])))
  else if Nat.ltb (String.length token) 16 then Err "WHATSAPP_MCP_TOKEN must have at least 16 characters"
  else Ok (tokenHash sha256 token, false).

Definition tool_error (problems : list (string * list string)) : string :=
  join "; " ((λ p, p.1 +:+ " lists unknown tool(s): " +:+ configValue (join ", " p.2)) <$> problems) +:+ ". Valid names: " +:+ join ", " (sortedNames knownTools).
Definition tools : result string toolPolicy :=
  match newToolPolicy (getenv allowToolsEnv) (getenv denyToolsEnv) with Ok p => Ok p | Err e => Err (tool_error e) end.

Context (lookup : string → option (list (ip * string))) (localAddrs : option (list (option ip))) (token_file : string → secret_file).

Record bridgeConfig := {
  MediaBackend : mediaBackendConfig; ProxyURL : option parsed_url; History : historyLimits; SnapshotDir : string; Archive_ : archiveConfig; Switches : bridgeSwitches;
  Port : Z; Bind : string; AllowedHosts : string; SplitREST : bool; MediaRetention : Z; StatusMedia : bool; StatusRetention : option Z; PurgeStatusOnStart : bool;
  RosterSync : Z; SessionKeepalive : Z; ReadOnly : bool; MediaMaxBytes : Z; MediaRoots : string; Operator_ : operatorConfig; RuntimeWebhook : Webhook.RuntimeWebhook.options;
  MCPAdmin : option (string * string); PairingStdout : bool; RuntimeDefaults : gmap string runtimeSetting; SendIncludeActions : bool; MCPEnvHash : string; MCPFallbackBridge : bool;
  Tools : toolPolicy;
}.

Definition problem {A} (r : result string A) : list string := match r with Ok _ => [] | Err e => [e] end.
Definition refusal (e : option string) : list string := match e with Some e => [e] | None => [] end.

Definition operator_parsed : operatorConfig * option string := parseOperatorConfig getenv lookup token_file.
Definition rest_bind : result string string := resolveBridgeBind (getenv "WHATSAPP_BRIDGE_BIND").
Definition first_bind : string := match rest_bind with Ok b => b | Err _ => "" end.
Definition store_path : string := or_else (trim_space (getenv "WHATSAPP_STORE_DIR")) "store".
Definition media_roots : string := getenv "WHATSAPP_MEDIA_ROOTS".
Definition operator_on : bool := negb (String.eqb (OperatorConfig.Bind operator_parsed.1) "").
Definition admin_address : result string (option (string * string)) :=
  if isSplitBridgeBind first_bind && operator_on then match resolveSplitMCPAdmin lookup first_bind with Ok x => Ok (Some x) | Err e => Err e end else Ok None.
Definition split_bind : result string string :=
  resolveSplitBridgeBind lookup localAddrs first_bind (getenv "WHATSAPP_BRIDGE_ALLOWED_HOSTS") seen_port (OperatorConfig.Bind operator_parsed.1).
Definition snapshot_dir : string := trim_space (getenv "WHATSAPP_SNAPSHOT_DIR").
Definition EvalSymlinks (p : string) : option string := match eval p with Resolved r => Some r | _ => None end.

(** The value of a check, the zero value where it failed. *)
Definition ok_or {A} (zero : A) (r : result string A) : A := match r with Ok a => a | Err _ => zero end.
Definition no_switches : bridgeSwitches := {|
  Explicit := {| ExplicitForwardSelf := false; ExplicitForwardChannels := false; ExplicitForwardBroadcasts := false; ExplicitForwardConnection := false |};
  ForwardSelf := false; MediaAutoDownload := false; WebhookEnabled := false; Metrics := false; ForwardStatus := false; ForwardChannels := false; ForwardBroadcasts := false; ForwardConnection := false |}.
Definition switches : bridgeSwitches := ok_or no_switches (parseBridgeSwitches getenv).

(** What the checks collect, in their order. *)
Definition problems : list string :=
  problem parseWhatsAppProxy ++ problem parseMediaBackend ++ problem (parseHistoryLimits getenv) ++ problem (parseArchiveConfig getenv) ++
  problem (validateSnapshotLocation eval cwd snapshot_dir store_path media_roots home) ++ problem (parseBridgeSwitches getenv) ++ problem bridge_port ++ problem rest_bind ++
  problem (resolveMediaRetention (getenv "WHATSAPP_MEDIA_RETENTION_DAYS")) ++ problem (bool_env "WHATSAPP_MEDIA_AUTODOWNLOAD_STATUS" false) ++
  problem (resolveStatusRetention (getenv "WHATSAPP_MEDIA_STATUS_RETENTION_DAYS")) ++ problem (bool_env "WHATSAPP_MEDIA_PURGE_STATUS_ON_START" false) ++
  problem (resolveGroupRosterSync (getenv "WHATSAPP_GROUP_ROSTER_SYNC_HOURS")) ++ problem (resolveSessionKeepalive (getenv "WHATSAPP_SESSION_KEEPALIVE_HOURS")) ++
  problem (parseReadOnly (getenv "WHATSAPP_READ_ONLY")) ++ problem (resolveMediaMaxBytes (getenv "WHATSAPP_MEDIA_MAX_BYTES")) ++
  problem (resolveMediaRootsValue EvalSymlinks media_roots true home None) ++ refusal (Auth.validateBridgeToken (getenv "WHATSAPP_BRIDGE_TOKEN")) ++
  refusal operator_parsed.2 ++ refusal (validateOperatorSocket (Socket operator_parsed.1) store_path media_roots) ++
  problem (Webhook.RuntimeWebhook.parseRuntimeWebhookOptions getenv switches) ++
  problem admin_address ++ problem split_bind ++
  (if operator_on && (OperatorConfig.Port operator_parsed.1 =? seen_port) then ["WHATSAPP_OPERATOR_PORT must differ from WHATSAPP_BRIDGE_PORT"] else []) ++
  (if operator_on && ((seen_port =? 8091) || (OperatorConfig.Port operator_parsed.1 =? 8091)) then ["Bridge and operator ports must differ from the loopback MCP admin port 8091"] else []) ++
  problem (bool_env "WHATSAPP_PAIRING_STDOUT" (negb operator_on)) ++ problem (runtimeDefaults getenv) ++ problem (bool_env "WHATSAPP_SEND_INCLUDE_ACTIONS" false) ++
  problem mcp_token ++ problem tools.

Definition no_backend : mediaBackendConfig :=
  {| Backend := ""; Endpoint := ""; Region := ""; Bucket := ""; Prefix := ""; AccessKey := ""; SecretKey := ""; PathStyle := false; WarnPercent := 0 |}.
Definition no_history : historyLimits := {| Days := 0; SizeMB := 0; QuotaMB := 0; MaxAge := 0; WarnBytes := 0 |}.
Definition no_webhook : Webhook.RuntimeWebhook.options := {| Webhook.RuntimeWebhook.Enabled := false; Webhook.RuntimeWebhook.AllowPorts := false; Webhook.RuntimeWebhook.FailureLimit := 0;
  Webhook.RuntimeWebhook.DeniedFilters := Webhook.RuntimeWebhook.webhookFilters no_switches; Webhook.RuntimeWebhook.DeniedConnection := false |}.

(** [parseBridgeConfigNetwork]. *)
Definition parseBridgeConfigNetwork : result string bridgeConfig :=
  match problems with
  | [] => Ok {|
      MediaBackend := ok_or no_backend parseMediaBackend; ProxyURL := ok_or None parseWhatsAppProxy; History := ok_or no_history (parseHistoryLimits getenv); SnapshotDir := snapshot_dir;
      Archive_ := ok_or {| Keep := 0; Session := false; Timeout := 0 |} (parseArchiveConfig getenv); Switches := switches; Port := seen_port; Bind := ok_or "" split_bind;
      AllowedHosts := getenv "WHATSAPP_BRIDGE_ALLOWED_HOSTS"; SplitREST := isSplitBridgeBind first_bind;
      MediaRetention := ok_or 0 (resolveMediaRetention (getenv "WHATSAPP_MEDIA_RETENTION_DAYS")); StatusMedia := ok_or false (bool_env "WHATSAPP_MEDIA_AUTODOWNLOAD_STATUS" false);
      StatusRetention := ok_or None (resolveStatusRetention (getenv "WHATSAPP_MEDIA_STATUS_RETENTION_DAYS")); PurgeStatusOnStart := ok_or false (bool_env "WHATSAPP_MEDIA_PURGE_STATUS_ON_START" false);
      RosterSync := ok_or 0 (resolveGroupRosterSync (getenv "WHATSAPP_GROUP_ROSTER_SYNC_HOURS")); SessionKeepalive := ok_or 0 (resolveSessionKeepalive (getenv "WHATSAPP_SESSION_KEEPALIVE_HOURS"));
      ReadOnly := ok_or false (parseReadOnly (getenv "WHATSAPP_READ_ONLY")); MediaMaxBytes := ok_or 0 (resolveMediaMaxBytes (getenv "WHATSAPP_MEDIA_MAX_BYTES")); MediaRoots := media_roots;
      Operator_ := operator_parsed.1; RuntimeWebhook := ok_or no_webhook (Webhook.RuntimeWebhook.parseRuntimeWebhookOptions getenv switches);
      MCPAdmin := ok_or None admin_address; PairingStdout := ok_or false (bool_env "WHATSAPP_PAIRING_STDOUT" (negb operator_on)); RuntimeDefaults := ok_or ∅ (runtimeDefaults getenv);
      SendIncludeActions := ok_or false (bool_env "WHATSAPP_SEND_INCLUDE_ACTIONS" false); MCPEnvHash := (ok_or ("", false) mcp_token).1; MCPFallbackBridge := (ok_or ("", false) mcp_token).2;
      Tools := ok_or {| allow := ∅; deny := ∅; allowLabel := ""; denyLabels := ∅ |} tools |}
  | ps => Err (join "; " ps)
  end.

(** ** Lemmas *)

Lemma problem_nil {A} (r : result string A) (zero : A) : problem r = [] → r = Ok (ok_or zero r).
Proof. by destruct r. Qed.

Lemma refusal_nil e : refusal e = [] → e = None.
Proof. by destruct e. Qed.

Lemma hex_digit_value n : 0 ≤ n < 16 → is_Some (Net.hex_value (Auth.hex_digit n)).
Proof.
  intros Hn. unfold Net.hex_value, Auth.hex_digit. destruct (bool_decide_reflect (n < 10)); rewrite byte_code_of by lia.
  - rewrite bool_decide_eq_true_2 by lia. eauto.
  - rewrite bool_decide_eq_false_2 by lia. rewrite bool_decide_eq_true_2 by lia. eauto.
Qed.

Lemma hex_encode_hash l : length l = 32%nat → Forall (λ b, 0 ≤ b < 256) l → validTokenHash (Auth.hex_encode l) = true.
Proof.
  intros Hl Hb. unfold validTokenHash. apply andb_true_iff. split.
  - clear Hl. induction Hb as [|b l Hb _ IH]; [done|]. cbn [Auth.hex_encode all_hex].
    rewrite !bool_decide_eq_true_2; [done|apply hex_digit_value; split; [by apply Z.mod_pos_bound|by apply Z.mod_pos_bound]|apply hex_digit_value; split; [by apply Z.div_pos; lia|apply Z.div_lt_upper_bound; lia]].
  - apply Nat.eqb_eq. rewrite <-(Nat.mul_1_r 64). assert (∀ l, String.length (Auth.hex_encode l) = (2 * length l)%nat) as -> by (clear; induction l as [|b l IH]; cbn; [done|]; rewrite IH; lia).
    lia.
Qed.

Lemma valid_hash_hex h : validTokenHash h = true → String.length h = 64%nat ∧ Forall (λ a, is_Some (Net.hex_value a)) (list_ascii_of_string h).
Proof.
  unfold validTokenHash. rewrite andb_true_iff, Nat.eqb_eq. intros [Hh Hl]. split; [done|]. clear Hl.
  induction h as [|a h IH]; cbn in *; [constructor|]. rewrite andb_true_iff, bool_decide_eq_true in Hh. naive_solver.
Qed.

Lemma mcp_token_hash hash fallback : (∀ s, length (sha256 s) = 32%nat ∧ Forall (λ b, 0 ≤ b < 256) (sha256 s)) → mcp_token = Ok (hash, fallback) → hash = "" ∨ validTokenHash hash = true.
Proof.
  intros Hsha. unfold mcp_token. destruct (bool_decide _); [intros [= <- <-]; by left|]. destruct (String.eqb_spec (trim_space (getenv "WHATSAPP_MCP_TOKEN")) "") as [|Hne]; [intros [= <- <-]; by left|].
  destruct (Nat.ltb _ 16); [done|]. intros [= <- <-]. right. unfold tokenHash. rewrite (proj2 (String.eqb_neq _ _)) by done. by apply hex_encode_hash; apply Hsha.
Qed.

(** An endpoint that is only an origin: nothing in its URL beside scheme, host and port. *)
Definition bare_endpoint (endpoint : string) : Prop :=
  ∃ u, parse_url endpoint = Some u ∧ (u_scheme u = "https" ∨ u_scheme u = "http") ∧ u_hostname u ≠ "" ∧ u_user u = None ∧ u_query u = "" ∧
       u_fragment u = "" ∧ (u_path u = "" ∨ u_path u = "/").

Lemma plain_origin_bare endpoint : plain_origin endpoint = true → bare_endpoint endpoint.
Proof.
  unfold plain_origin, bare_endpoint. destruct (parse_url endpoint) as [u|]; [|done].
  rewrite !andb_true_iff, !orb_true_iff, negb_true_iff, bool_decide_eq_true, String.eqb_neq, !String.eqb_eq. intros. exists u. tauto.
Qed.

Lemma tools_known p : newToolPolicy (getenv allowToolsEnv) (getenv denyToolsEnv) = Ok p →
  allow p = parseToolList (getenv allowToolsEnv) ∧ deny p = parseToolList (getenv denyToolsEnv) ∧ allow p ⊆ knownTools ∧ deny p ⊆ knownTools.
Proof.
  assert (∀ names, unknown_names names = [] → names ⊆ knownTools) as Hk.
  { intros names Hn x Hx. destruct (decide (x ∈ knownTools)) as [|Hno]; [done|]. exfalso.
    assert (x ∈ unknown_names names) as Hin; [|rewrite Hn in Hin; by apply not_elem_of_nil in Hin].
    unfold unknown_names. apply list_elem_of_filter. split; [done|]. unfold sortedNames, sort_strings. rewrite merge_sort_Permutation. by apply elem_of_elements. }
  unfold newToolPolicy. cbv zeta. cbn [allow deny]. generalize (Hk (parseToolList (getenv allowToolsEnv))), (Hk (parseToolList (getenv denyToolsEnv))).
  generalize (unknown_names (parseToolList (getenv allowToolsEnv))), (unknown_names (parseToolList (getenv denyToolsEnv))). intros a d Ha Hb.
  rewrite !filter_cons, filter_nil. cbn [snd]. destruct (decide (a ≠ [])) as [|Ea%dec_stable]; [done|]. destruct (decide (d ≠ [])) as [|Ed%dec_stable]; [done|].
  intros [= <-]. cbn. auto.
Qed.

Lemma backend_prefix c : parseMediaBackend = Ok c → Backend c = "s3" →
  bare_endpoint (Endpoint c) ∧ ∃ p, Prefix c = p +:+ "/" ∧ contains_any "\%" p = false ∧ Forall (λ q, q ≠ "" ∧ q ≠ "." ∧ q ≠ "..") (split_byte "/" p).
Proof.
  unfold parseMediaBackend. cbv zeta. rewrite result_bind_ok. intros (percent & _ & Hc) Hs. revert Hc.
  destruct (_ && _); [done|]. destruct (String.eqb_spec (or_else (trim_space (getenv "WHATSAPP_MEDIA_BACKEND")) "local") "local") as [Hl|].
  { intros [= <-]. cbn in Hs. congruence. }
  destruct (plain_origin _) eqn:Ho; cbn [negb]; [|done]. destruct (valid_bucket _); cbn [negb]; [|done]. destruct (plain_prefix _) eqn:Hp; cbn [negb]; [|done].
  destruct (parseBoolEnv _ _ _) as [style [|]]; [done|]. rewrite result_bind_ok. intros (access & _ & Hc). rewrite result_bind_ok in Hc. destruct Hc as (key & _ & [= <-]). cbn [Endpoint Prefix].
  split; [by apply plain_origin_bare|]. eexists. split; [done|]. unfold plain_prefix in Hp. rewrite andb_true_iff, negb_true_iff, !orb_false_iff in Hp. destruct Hp as [(((_ & _) & Hbs) & _) Hall].
  split; [done|]. apply Forall_forall. intros q Hq. rewrite forallb_forall in Hall. specialize (Hall q ltac:(by rewrite <-list_elem_of_In)).
  unfold plain_component in Hall. rewrite negb_true_iff, !orb_false_iff, !String.eqb_neq in Hall. naive_solver.
Qed.

Lemma JoinHostPort_port h p q : JoinHostPort h p = JoinHostPort h q → p = q.
Proof. unfold JoinHostPort. destruct (_ || _); intros He; [|apply (inj (String.append h)) in He; by injection He]. apply (inj (String.append "[")), (inj (String.append h)), (inj (String.append "]:")) in He. done. Qed.

Lemma operator_accepted : problems = [] → parseOperatorConfig getenv lookup token_file = (operator_parsed.1, None).
Proof.
  intros Hp. unfold problems in Hp. repeat (apply app_nil in Hp as [? Hp]). match goal with H : refusal operator_parsed.2 = [] |- _ => apply refusal_nil in H end.
  unfold operator_parsed in *. destruct (parseOperatorConfig _ _ _); cbn in *; congruence.
Qed.

Lemma bridge_port_ok : problem bridge_port = [] → 1 ≤ seen_port ≤ 65535.
Proof.
  unfold seen_port, bridge_port. destruct (String.eqb _ ""); [lia|]. destruct (Atoi _) as [port|]; [|done]. destruct ((1 <=? port) && (port <=? 65535)) eqn:Hp; [|done]. lia.
Qed.

(** ** Theorems *)

(** [C31] What a start can rely on.  When the environment is accepted: the ports are in range;
    each of the fifteen runtime settings has a default of the type its readers assert; the
    tool lists are those of the environment and name known tools only; the MCP token's hash
    is absent or 64 hexadecimal digits; the endpoint of an S3 backend parses to an HTTP(S)
    origin with a host, no user or password, no query, no fragment and no path but /, and its
    prefix has plain components; and where the
    operator's listener is enabled it is narrow, its port, the REST port and the MCP admin
    port differ, and the REST listener stays on the loopback or at the pinned address of
    the split network, apart from the operator's. *)
Theorem startup_admits (cfg : bridgeConfig) (Hsha : ∀ s, length (sha256 s) = 32%nat ∧ Forall (λ b, 0 ≤ b < 256) (sha256 s)) (Hok : parseBridgeConfigNetwork = Ok cfg) :
  let op := Operator_ cfg in
  1 ≤ Port cfg ≤ 65535 ∧ 1 ≤ OperatorConfig.Port op ≤ 65535 ∧
  (∀ def, def ∈ settingDefinitions → ∃ s, RuntimeDefaults cfg !! key def = Some s ∧ typed (key def) (Value s) = true) ∧
  (allow (Tools cfg) = parseToolList (getenv allowToolsEnv) ∧ deny (Tools cfg) = parseToolList (getenv denyToolsEnv) ∧
   allow (Tools cfg) ⊆ knownTools ∧ deny (Tools cfg) ⊆ knownTools) ∧
  (MCPEnvHash cfg = "" ∨
   String.length (MCPEnvHash cfg) = 64%nat ∧ Forall (λ a, is_Some (Net.hex_value a)) (list_ascii_of_string (MCPEnvHash cfg))) ∧
  (Backend (MediaBackend cfg) = "s3" →
     (∃ u, parse_url (Endpoint (MediaBackend cfg)) = Some u ∧ (u_scheme u = "https" ∨ u_scheme u = "http") ∧ u_hostname u ≠ "" ∧
           u_user u = None ∧ u_query u = "" ∧ u_fragment u = "" ∧ (u_path u = "" ∨ u_path u = "/")) ∧
     ∃ p, Prefix (MediaBackend cfg) = p +:+ "/" ∧ contains_any "\%" p = false ∧ Forall (λ q, q ≠ "" ∧ q ≠ "." ∧ q ≠ "..") (split_byte "/" p)) ∧
  (OperatorConfig.Bind op = "" → Socket op = "") ∧
  (OperatorConfig.Bind op ≠ "" →
     listener_narrow getenv lookup op ∧ Port cfg ≠ OperatorConfig.Port op ∧ Port cfg ≠ 8091 ∧ OperatorConfig.Port op ≠ 8091 ∧
     rest_confined lookup localAddrs first_bind (AllowedHosts cfg) (Port cfg) (OperatorConfig.Bind op) (Bind cfg)).
Proof.
  revert Hok. unfold parseBridgeConfigNetwork. destruct problems as [|] eqn:Hp; [|done]. intros [= <-]. cbn [Operator_ Port RuntimeDefaults Tools MCPEnvHash MediaBackend AllowedHosts Bind].
  pose proof Hp as Hp0. unfold problems in Hp. repeat (apply app_nil in Hp as [? Hp]).
  pose proof (operator_accepted Hp0) as Hop.
  destruct (operator_listener_narrow _ _ _ _ Hop) as (Hport & Hsock & Hnarrow).
  split; [by apply bridge_port_ok|]. split; [lia|]. split; [|split; [|split; [|split; [|split]]]]; [| | | |done|].
  - match goal with H : problem (runtimeDefaults getenv) = [] |- _ => apply (problem_nil _ ∅), runtimeDefaults_typed in H; rename H into Ht end.
    intros def Hin. by apply (well_typed_lookup _ def Ht Hin).
  - match goal with H : problem tools = [] |- _ => apply (problem_nil _ {| allow := ∅; deny := ∅; allowLabel := ""; denyLabels := ∅ |}) in H; revert H end.
    set (t := ok_or _ tools). clearbody t. unfold tools. destruct (newToolPolicy _ _) eqn:Hpol; [|done]. intros [= ->]. by apply tools_known.
  - match goal with H : problem mcp_token = [] |- _ => apply (problem_nil _ ("", false)) in H end. destruct (ok_or ("", false) mcp_token) as [h f] eqn:E. cbn.
    match goal with H : mcp_token = Ok _ |- _ => apply (mcp_token_hash _ _ Hsha) in H as [?|Hv]; [by left|right] end.
    by apply valid_hash_hex.
  - match goal with H : problem parseMediaBackend = [] |- _ => apply (problem_nil _ no_backend) in H end. by apply backend_prefix.
  - intros Hon. assert (operator_on = true) as Hb by (unfold operator_on; by rewrite (proj2 (String.eqb_neq _ _))).
    rewrite Hb in *. cbn [andb] in *. repeat match goal with H : (if ?b then [_] else []) = [] |- _ => destruct b eqn:?; [done|]; clear H end.
    split_and!; [by apply Hnarrow|lia|lia|lia|]. apply rest_bind_confined; [done|]. by apply problem_nil.
Qed.

(** Neither token opens the other's door: behind an accepted configuration, with the
    bridge's effective token checked as [main] does, a request with the bridge's token
    never gets past the operator's listener, and the operator's token is refused by the
    REST listener. *)
Theorem tokens_apart (cfg : bridgeConfig) (bridgeToken : string) (parse : string → option Front.origin_url) (webhook : bool) (handlers : string → option Http.handler)
    (now : Z) (r : Front.op_request) (s : Front.limits) (Hok : parseBridgeConfigNetwork = Ok cfg) (Hon : OperatorConfig.Bind (Operator_ cfg) ≠ "")
    (Htrim : trim_space bridgeToken = bridgeToken) (Hrefuse : refuseBridgeToken (Operator_ cfg) bridgeToken = false) :
  let op := Operator_ cfg in
  let hosts := (buildHostAllowList (OperatorConfig.Port op) (OperatorConfig.Bind op) (OperatorConfig.AllowedHosts op)).1 in
  (Http.authorization (Front.base r) = "Bearer " +:+ bridgeToken →
   Front.status_of (Front.operatorHandler parse hosts (OperatorConfig.Token op) webhook handlers now r s).1 ∈ [401; 403; 429]) ∧
  Auth.checkBearerToken ("Bearer " +:+ OperatorConfig.Token op) bridgeToken = false.
Proof.
  revert Hok. unfold parseBridgeConfigNetwork. destruct problems as [|] eqn:Hp; [|done]. intros [= <-]. cbn [Operator_] in *.
  apply operator_accepted, operator_token_trimmed in Hp. set (op := operator_parsed.1) in *. clearbody op.
  assert (OperatorConfig.Token op ≠ bridgeToken) as Hne.
  { intros Heq. unfold refuseBridgeToken in Hrefuse. rewrite (proj2 (String.eqb_neq _ _) Hon), Heq, String.eqb_refl in Hrefuse. done. }
  assert (∀ t u, trim_space t = t → t ≠ u → Auth.checkBearerToken ("Bearer " +:+ t) u = false) as Hno.
  { intros t u Ht Htu. apply not_true_iff_false. rewrite Auth.checkBearerToken_spec. intros (x & Hx & Hxu). apply (inj (String.append "Bearer ")) in Hx. congruence. }
  split; [|by apply Hno]. intros Hbearer. unfold Front.operatorHandler. destruct (Front.take_peer now r s) as [d l]. destruct (negb (d =? 0)); [cbn; set_solver|].
  destruct (negb (allows _ _)); [cbn; set_solver|]. rewrite Hbearer, Hno by done. cbn. set_solver.
Qed.
End Config.

Module Sample.
Definition env (k : string) : string :=
  if String.eqb k "WHATSAPP_OPERATOR_BIND" then "10.0.0.7"
  else if String.eqb k "WHATSAPP_OPERATOR_TOKEN" then "000102030405060708090a0b0c0d0e0f101112131415161718191a1b1c1d1e1f"
  else if String.eqb k "WHATSAPP_MCP_TOKEN" then "an-mcp-token-of-20-b" else "".
Definition sum (s : string) : list Z := repeat (Z.of_nat (String.length s) mod 256) 32.
Definition parsed : result string bridgeConfig :=
  parseBridgeConfigNetwork env (λ _, None) (λ _, true) (λ _, {| c_lstat := None; c_root := false; c_opens := false; c_same := false; c_data := None |})
    (λ _, NoEntry) (λ _, Some (true, 493)) (λ _, Refused) "/work" (Ok "/home/b") sum (λ _, None) None (λ _, {| OperatorConfig.lstat := None; opens := false; opened := None; content := None |}).

Lemma sum_bytes s : length (sum s) = 32%nat ∧ Forall (λ b, 0 ≤ b < 256) (sum s).
Proof.
  split; [by unfold sum; rewrite repeat_length|]. unfold sum. pose proof (Z.mod_pos_bound (Z.of_nat (String.length s)) 256 ltac:(lia)) as Hb.
  apply Forall_forall. intros b Hin. apply list_elem_of_In, repeat_spec in Hin. lia.
Qed.

(** The operator is on, and its token is not the bridge's. *)
Definition on (bridgeToken : string) : bool :=
  match parsed with Ok c => negb (String.eqb (OperatorConfig.Bind (Operator_ c)) "") && negb (refuseBridgeToken (Operator_ c) bridgeToken) | Err _ => false end.

Lemma startup_admits_witness : ∃ cfg, parsed = Ok cfg ∧ listener_narrow env (λ _, None) (Operator_ cfg) ∧ Port cfg ≠ OperatorConfig.Port (Operator_ cfg).
Proof.
  assert (on "a-bridge-token-16" = true) as Hon by (vm_compute; reflexivity). unfold on in Hon.
  destruct parsed as [cfg|] eqn:Hok; [|discriminate]. apply andb_true_iff in Hon as [Hon _]. apply negb_true_iff, String.eqb_neq in Hon.
  exists cfg. split; [reflexivity|]. destruct (startup_admits _ _ _ _ _ _ _ _ _ sum _ _ _ cfg sum_bytes Hok) as (_ & _ & _ & _ & _ & _ & _ & H).
  destruct (H Hon) as (H1 & H2 & _). exact (conj H1 H2).
Defined.

Definition bridged : Front.op_request :=
  {| Front.base := {| Http.method := "GET"; Http.path := "/operator/v1/pairing"; Http.host := "localhost:8090"; Http.authorization := "Bearer a-bridge-token-16" |};
     Front.origins := []; Front.tls := false; Front.remote := "10.0.0.9:4" |}.

Lemma tokens_apart_witness : ∃ cfg, parsed = Ok cfg ∧
  Front.status_of (Front.operatorHandler (λ _, None) (buildHostAllowList (OperatorConfig.Port (Operator_ cfg)) (OperatorConfig.Bind (Operator_ cfg)) (OperatorConfig.AllowedHosts (Operator_ cfg))).1
    (OperatorConfig.Token (Operator_ cfg)) false (λ _, None) 0 bridged Front.new_limits).1 ∈ [401; 403; 429].
Proof.
  assert (on "a-bridge-token-16" = true) as Hon by (vm_compute; reflexivity). unfold on in Hon.
  destruct parsed as [cfg|] eqn:Hok; [|discriminate]. apply andb_true_iff in Hon as [Hon Hr]. apply negb_true_iff in Hr. apply negb_true_iff, String.eqb_neq in Hon.
  exists cfg. split; [reflexivity|].
  destruct (tokens_apart _ _ _ _ _ _ _ _ _ sum _ _ _ cfg "a-bridge-token-16" (λ _, None) false (λ _, None) 0 bridged Front.new_limits Hok Hon eq_refl Hr) as [H _].
  exact (H eq_refl).
Defined.

(** Every problem is named: a bad port and a short token together. *)
Example two_problems :
  parseBridgeConfigNetwork (λ k, if String.eqb k "WHATSAPP_BRIDGE_PORT" then "0" else if String.eqb k "WHATSAPP_BRIDGE_TOKEN" then "short" else "") (λ _, None) (λ _, true)
    (λ _, {| c_lstat := None; c_root := false; c_opens := false; c_same := false; c_data := None |}) (λ _, NoEntry) (λ _, Some (true, 493)) (λ _, Refused) "/work" (Ok "/home/b") sum (λ _, None) None
    (λ _, {| OperatorConfig.lstat := None; opens := false; opened := None; content := None |}) =
  Err "invalid WHATSAPP_BRIDGE_PORT=0; WHATSAPP_BRIDGE_TOKEN is too short (need at least 16 chars)".
Proof. vm_compute. reflexivity. Qed.
End Sample.
