(* ===== verification/MediaStorage.v ===== *)
(** * The interface of a media store and the migration between two of them
    ([media_storage.go], [media_migrate.go])

    A store of cached media is a record of operations on a world both stores live in;
    [StorageLaws] is what the migration relies on, [Apart] that one store leaves alone
    what the other holds.  The local directory and the bucket are instances in
    [MediaMigrate].  Every interaction can fail; the answers are numbered. *)
From S2P Require Import Prelude MediaPurge.
#[local] Open Scope Z_scope.

Section Storage.
Context {W : Type}.

(** ** Interactions *)

Definition M (A : Type) : Type := nat → W → nat * W * result string A.

Definition ret {A} (a : A) : M A := λ n w, (n, w, Ok a).
Definition raise {A} (e : string) : M A := λ n w, (n, w, Err e).
Definition bind {A B} (m : M A) (f : A → M B) : M B :=
  λ n w, match m n w with (n, w, Ok a) => f a n w | (n, w, Err e) => (n, w, Err e) end.
Definition attempt {A} (m : M A) : M (result string A) := λ n w, match m n w with (n, w, r) => (n, w, Ok r) end.

(** From [P], an operation that ends well leaves [Q], one that fails leaves [E]. *)
Definition triple {A} (P : W → Prop) (m : M A) (Q : A → W → Prop) (E : W → Prop) : Prop :=
  ∀ n w, P w → match m n w with (_, w', Ok a) => Q a w' | (_, w', Err _) => E w' end.

Lemma triple_ret {A} (a : A) (P : W → Prop) Q E : (∀ w, P w → Q a w) → triple P (ret a) Q E.
Proof. intros H n w HP. by apply H. Qed.

Lemma triple_raise {A} e (P : W → Prop) (Q : A → W → Prop) (E : W → Prop) : (∀ w, P w → E w) → triple P (raise e) Q E.
Proof. intros H n w HP. by apply H. Qed.

Lemma triple_bind {A B} (m : M A) (f : A → M B) P R Q E : triple P m R E → (∀ a, triple (R a) (f a) Q E) → triple P (bind m f) Q E.
Proof. intros Hm Hf n w HP. specialize (Hm n w HP). unfold bind. destruct (m n w) as [[n' w'] [a|e]]; [by apply Hf|done]. Qed.

Lemma triple_attempt {A} (m : M A) P Q E E' : triple P m Q E → triple P (attempt m) (λ r w, match r with Ok a => Q a w | Err _ => E w end) E'.
Proof. intros Hm n w HP. specialize (Hm n w HP). unfold attempt. by destruct (m n w) as [[n' w'] [a|e]]. Qed.

Lemma triple_weaken {A} (m : M A) (P P' : W → Prop) (Q Q' : A → W → Prop) (E E' : W → Prop) :
  triple P' m Q' E' → (∀ w, P w → P' w) → (∀ a w, Q' a w → Q a w) → (∀ w, E' w → E w) → triple P m Q E.
Proof. intros Hm HP HQ HE n w Hw. specialize (Hm n w (HP _ Hw)). destruct (m n w) as [[n' w'] [a|e]]; auto. Qed.

Lemma triple_and {A} (m : M A) (P P' : W → Prop) (Q Q' : A → W → Prop) (E E' : W → Prop) :
  triple P m Q E → triple P' m Q' E' → triple (λ w, P w ∧ P' w) m (λ a w, Q a w ∧ Q' a w) (λ w, E w ∧ E' w).
Proof. intros H H' n w [HP HP']. specialize (H n w HP). specialize (H' n w HP'). destruct (m n w) as [[n' w'] [a|e]]; auto. Qed.

Lemma triple_bind_any {A B} (m : M A) (f : A → M B) Q : (∀ a, triple (λ _, True) (f a) Q (λ _, True)) → triple (λ _, True) (bind m f) Q (λ _, True).
Proof. intros Hf n w _. unfold bind. destruct (m n w) as [[n' w'] [a|e]]; [by apply Hf|done]. Qed.

(** [P] survives an operation, however it ends. *)
Class Keeps (P : W → Prop) {A} (m : M A) : Prop := keeps : triple P m (λ _, P) P.

(** ** The interface *)

Record mediaStorage := {
  Lookup : bool → mediaRow → M (option string);      (** the name cached for a row; the flag is a dry run *)
  Open : bool → mediaRow → string → M string;        (** the bytes; no name looks it up *)
  Write : mediaRow → string → M unit;                (** publishes the bytes for a row *)
  Delete : mediaRow → M bool;                        (** whether the row's media were purged *)
}.

(** What a store holds, and when the operations on one row are no concern of another. *)
Class StorageLaws (sha256 : string → string) (s : mediaStorage) (holds : mediaRow → string → W → Prop) (distinct : mediaRow → mediaRow → Prop) := {
  named : mediaRow → string → W → Prop;
  holds_one : ∀ r h h' w, holds r h w → holds r h' w → h = h';
  lookup_keeps : ∀ r h dry r', Keeps (holds r h) (Lookup s dry r');
  open_keeps : ∀ r h dry r' name, Keeps (holds r h) (Open s dry r' name);
  write_keeps : ∀ r h r' data, distinct r r' → Keeps (holds r h) (Write s r' data);
  delete_keeps : ∀ r h r', distinct r r' → Keeps (holds r h) (Delete s r');
  lookup_named : ∀ dry r, triple (λ _, True) (Lookup s dry r) (λ o w, match o with Some name => named r name w | None => True end) (λ _, True);
  lookup_finds : ∀ r h dry, triple (holds r h) (Lookup s dry r) (λ o _, is_Some o) (λ _, True);
  named_empty : ∀ r w, named r "" w;
  open_holds : ∀ r name, triple (named r name) (Open s false r name) (λ c w, holds r (sha256 c) w) (λ _, True);
}.

(** One store leaves alone what is held elsewhere. *)
Class Apart (s : mediaStorage) (holds : mediaRow → string → W → Prop) := {
  lookup_apart : ∀ r h dry r', Keeps (holds r h) (Lookup s dry r');
  open_apart : ∀ r h dry r' name, Keeps (holds r h) (Open s dry r' name);
  write_apart : ∀ r h r' data, Keeps (holds r h) (Write s r' data);
  delete_apart : ∀ r h r', Keeps (holds r h) (Delete s r');
}.
End Storage.

Arguments M W : clear implicits.
Arguments mediaStorage W : clear implicits.

Declare Scope storage_scope.
Delimit Scope storage_scope with storage.
Notation "x ⇐ m ; f" := (bind m (λ x, f)) (at level 60, m at level 59, right associativity) : storage_scope.
Notation "m ;;; f" := (bind m (λ _, f)) (at level 60, right associativity) : storage_scope.
#[local] Open Scope storage_scope.

(** ** The migration *)

Section Migration.
Context {W : Type} (sha256 : string → string) (fails : nat → bool) (file_sha256 : mediaRow → W → option string).
Context (source destination : mediaStorage W) (to_s3 dry remove : bool).

(** Anything that can only fail: a spool, a copy, a seek. *)
Definition step (why : string) : M W unit := λ n w, (S n, w, if fails n then Err why else Ok tt).
(** [SELECT file_sha256]. *)
Definition expected (row : mediaRow) : M W (option string) := λ n w, (S n, w, if fails n then Err "query" else Ok (file_sha256 row w)).

Record outcome := { o_files : nat; o_bytes : Z; o_saved : Z; o_reason : string }.
Definition skipped (why : string) : outcome := {| o_files := 0; o_bytes := 0; o_saved := 0; o_reason := why |}.

Definition length_of (c : string) : Z := Z.of_nat (String.length c).
Definition verified (content copy : string) : bool := (length_of copy =? length_of content) && String.eqb (sha256 copy) (sha256 content).

(** The source is removed last. *)
Definition retire (row : mediaRow) : M W unit :=
  if remove && negb dry then purged ⇐ Delete source row; if purged then ret tt else raise "verified source removal failed" else ret tt.

(** Up to the decision: a skipped row, or the bytes to copy. *)
Definition examine (row : mediaRow) : M W (outcome + string) :=
  entry ⇐ attempt (Lookup source dry row);
  match entry with
  | Err e => if to_s3 then ret (inl (skipped "unsafe_or_unreadable")) else raise e
  | Ok None => ret (inl (skipped "not_cached"))
  | Ok (Some name) =>
      content ⇐ Open source dry row name;
      (if dry then ret tt else step "spool");;;
      step "copy";;;
      want ⇐ expected row;
      match want with
      | None => raise "no row"
      | Some want =>
          if negb (String.eqb want "") && negb (String.eqb want (sha256 content)) then raise "hash"
          else
            existing ⇐ Lookup destination dry row;
            match existing with
            | Some name =>
                copy ⇐ Open destination dry row name;
                step "verify";;;
                if negb (verified content copy) then raise "hash" else retire row;;; ret (inl (skipped "already_migrated"))
            | None => ret (inr content)
            end
      end
  end.

Definition copy_over (row : mediaRow) (content : string) : M W unit :=
  step "seek";;;
  Write destination row content;;;
  copy ⇐ Open destination false row "";
  step "verify";;;
  if negb (verified content copy) then raise "hash" else retire row.

(** [migrateMediaRow]; [seen] has the hashes met so far. *)
Definition migrateMediaRow (row : mediaRow) (seen : list string) (n : nat) (w : W) : nat * W * (list string * result string outcome) :=
  match examine row n w with
  | (n, w, Err e) => (n, w, (seen, Err e))
  | (n, w, Ok (inl o)) => (n, w, (seen, Ok o))
  | (n, w, Ok (inr content)) =>
      let saved := if to_s3 && bool_decide (sha256 content ∈ seen) then length_of content else 0 in
      let o := {| o_files := 1; o_bytes := length_of content; o_saved := saved; o_reason := "" |} in
      let seen := sha256 content :: seen in
      if dry then (n, w, (seen, Ok o))
      else match copy_over row content n w with
           | (n, w, Ok _) => (n, w, (seen, Ok o))
           | (n, w, Err e) => (n, w, (seen, Err e))
           end
  end.

(** The result of a run, and one row's share of it. *)
Record mediaMigrationResult := { Files : nat; Bytes_ : Z; DedupeSavedBytes : Z; Skipped : nat; Failed : nat; SkipReasons : gmap string nat }.
Definition no_result : mediaMigrationResult := {| Files := 0; Bytes_ := 0; DedupeSavedBytes := 0; Skipped := 0; Failed := 0; SkipReasons := ∅ |}.

Definition account (r : result string outcome) (m : mediaMigrationResult) : mediaMigrationResult :=
  match r with
  | Err _ => {| Files := Files m; Bytes_ := Bytes_ m; DedupeSavedBytes := DedupeSavedBytes m; Skipped := Skipped m; Failed := S (Failed m); SkipReasons := SkipReasons m |}
  | Ok o =>
      let skip := negb (String.eqb (o_reason o) "") in
      {| Files := Files m + o_files o; Bytes_ := Bytes_ m + o_bytes o; DedupeSavedBytes := DedupeSavedBytes m + o_saved o;
         Skipped := if skip then S (Skipped m) else Skipped m; Failed := Failed m;
         SkipReasons := if skip then <[o_reason o := S (default O (SkipReasons m !! o_reason o))]> (SkipReasons m) else SkipReasons m |}
  end.

(** [migrateMedia] over the rows the scan hands out. *)
Fixpoint migrate_rows (rows : list mediaRow) (seen : list string) (m : mediaMigrationResult) (n : nat) (w : W) : nat * W * mediaMigrationResult :=
  match rows with
  | [] => (n, w, m)
  | row :: rows => let '(n, w, (seen, r)) := migrateMediaRow row seen n w in migrate_rows rows seen (account r m) n w
  end.

(** ** What a row's migration promises *)

Context {src_holds dst_holds : mediaRow → string → W → Prop} {distinct : mediaRow → mediaRow → Prop}.
Context `{Hsrc : !StorageLaws sha256 source src_holds distinct} `{Hdst : !StorageLaws sha256 destination dst_holds distinct} `{Hsd : !Apart source dst_holds} `{Hds : !Apart destination src_holds}.

Lemma step_any_keeps why (P : W → Prop) : triple P (step why) (λ _, P) P.
Proof. intros n w HP. unfold step. by destruct (fails n). Qed.

Lemma expected_keeps row (P : W → Prop) : triple P (expected row) (λ _, P) P.
Proof. intros n w HP. unfold expected. by destruct (fails n). Qed.

Lemma retire_safe row h (P : W → Prop) : (∀ w, P w → dst_holds row h w) → triple P (retire row) (λ _, dst_holds row h) (dst_holds row h).
Proof.
  intros HP. apply (triple_weaken _ _ (dst_holds row h) _ (λ _, dst_holds row h) _ (dst_holds row h)); [|exact HP|done|done]. unfold retire. destruct (remove && negb dry); [|by apply triple_ret].
  eapply triple_bind; [apply delete_apart|]. intros []; [by apply triple_ret|by apply triple_raise].
Qed.

Lemma retire_idle row (P : W → Prop) : remove && negb dry = false → triple P (retire row) (λ _, P) P.
Proof. intros Hr. unfold retire. rewrite Hr. by apply triple_ret. Qed.

Lemma verified_hash content copy : verified content copy = true → sha256 copy = sha256 content ∧ length_of copy = length_of content.
Proof. unfold verified. rewrite andb_true_iff, Z.eqb_eq, String.eqb_eq. naive_solver. Qed.

Section Row.
Context (row : mediaRow) (h : string).
Abbreviation P1 := (src_holds row h).
Abbreviation P2 := (dst_holds row h).

(** Where the row's media are once the row was examined or copied. *)
Definition somewhere (w : W) : Prop := P1 w ∨ P2 w.

Lemma open_source name : triple (λ w, P1 w ∧ named (StorageLaws := Hsrc) row name w) (Open source dry row name) (λ c w, P1 w ∧ (dry = false → sha256 c = h)) P1.
Proof.
  destruct dry eqn:Hdry.
  - eapply triple_weaken; [apply (open_keeps row h true row name)| | |]; naive_solver.
  - eapply triple_weaken; [apply (triple_and _ _ _ _ _ _ _ (open_keeps row h false row name) (open_holds row name))|naive_solver| |naive_solver].
    intros c w [HP Hh]. split; [done|]. intros _. exact (holds_one _ _ _ _ Hh HP).
Qed.

Lemma lookup_source : triple P1 (Lookup source dry row) (λ o w, P1 w ∧ match o with Some name => named (StorageLaws := Hsrc) row name w | None => False end) P1.
Proof.
  eapply triple_weaken; [apply (triple_and _ _ _ _ _ _ _ (lookup_keeps row h dry row) (triple_and _ _ _ _ _ _ _ (lookup_named dry row) (lookup_finds row h dry)))|naive_solver| |naive_solver].
  intros [name|] w (HP & Hn & Hs); [done|by destruct Hs].
Qed.

Lemma lookup_destination (P : W → Prop) : P1 = P →
  triple P (Lookup destination dry row) (λ o w, P w ∧ match o with Some name => named (StorageLaws := Hdst) row name w | None => True end) P.
Proof. intros <-. eapply triple_weaken; [apply (triple_and _ _ _ _ _ _ _ (lookup_apart row h dry row) (lookup_named dry row))| | |]; naive_solver. Qed.

Lemma open_destination name : triple (λ w, P1 w ∧ named (StorageLaws := Hdst) row name w) (Open destination dry row name) (λ c w, P1 w ∧ (dry = false → dst_holds row (sha256 c) w)) P1.
Proof.
  destruct dry eqn:Hdry.
  - eapply triple_weaken; [apply (open_apart row h true row name)| | |]; naive_solver.
  - eapply triple_weaken; [apply (triple_and _ _ _ _ _ _ _ (open_apart row h false row name) (open_holds row name))| | |]; naive_solver.
Qed.

(** After the examination the source still holds the media, or the destination does; the
    bytes to copy are the row's, and a row that is skipped was not readable or is in the
    destination. *)
Lemma examine_safe : triple P1 (examine row) (λ r w, somewhere w ∧ (remove && negb dry = false → P1 w) ∧ match r with inl o => o_files o = 0%nat ∧ (dry = false → o_reason o = "unsafe_or_unreadable" ∨ P2 w) | inr c => P1 w ∧ (dry = false → sha256 c = h) end)
  (λ w, somewhere w ∧ (remove && negb dry = false → P1 w)).
Proof.
  unfold examine, somewhere. eapply triple_bind; [eapply triple_attempt, lookup_source|]. intros [[name|]|e]; cbv beta iota.
  2: apply triple_ret; naive_solver. 2: destruct to_s3; [apply triple_ret|apply triple_raise]; naive_solver.
  assert (∀ A (m : M W A) Q, triple P1 m Q P1 → triple P1 m Q (λ w, (P1 w ∨ P2 w) ∧ (remove && negb dry = false → P1 w))) as Hfail by (intros A m Q Hm; eapply triple_weaken; [exact Hm|..]; naive_solver).
  eapply triple_bind; [eapply triple_weaken; [apply open_source|done|done|naive_solver]|]. intros content. cbv beta.
  apply (triple_bind _ _ _ (λ _ w, P1 w ∧ (dry = false → sha256 content = h))).
  { destruct dry; [by apply triple_ret|]. eapply triple_weaken; [apply (step_any_keeps "spool" (λ w, P1 w ∧ (false = false → sha256 content = h)))| | |]; naive_solver. }
  intros _. apply (triple_bind _ _ _ (λ _ w, P1 w ∧ (dry = false → sha256 content = h))); [eapply triple_weaken; [apply (step_any_keeps "copy" (λ w, P1 w ∧ (dry = false → sha256 content = h)))|..]; naive_solver|].
  intros _. apply (triple_bind _ _ _ (λ _ w, P1 w ∧ (dry = false → sha256 content = h))); [eapply triple_weaken; [apply (expected_keeps row (λ w, P1 w ∧ (dry = false → sha256 content = h)))|..]; naive_solver|].
  intros [want|]; [|apply triple_raise; naive_solver]. destruct (negb (String.eqb want "") && _); [apply triple_raise; naive_solver|].
  apply (triple_bind _ _ _ (λ o w, (P1 w ∧ match o with Some name => named (StorageLaws := Hdst) row name w | None => True end) ∧ (dry = false → sha256 content = h))).
  { intros n w [HP Hc]. pose proof (lookup_destination P1 eq_refl n w HP) as Hl. destruct (Lookup destination dry row n w) as [[n' w'] [o|e]]; naive_solver. }
  intros [name'|]; [|apply triple_ret; naive_solver].
  apply (triple_bind _ _ _ (λ c w, (P1 w ∧ (dry = false → dst_holds row (sha256 c) w)) ∧ (dry = false → sha256 content = h))).
  { intros n w [HP Hc]. pose proof (open_destination name' n w HP) as Ho. destruct (Open destination dry row name' n w) as [[n' w'] [o|e]]; naive_solver. }
  intros copy. set (V := (λ w, (P1 w ∧ (dry = false → dst_holds row (sha256 copy) w)) ∧ (dry = false → sha256 content = h))).
  apply (triple_bind _ _ _ (λ _, V)); [eapply triple_weaken; [apply (step_any_keeps "verify" V)|..]; unfold V; naive_solver|].
  intros _. destruct (verified content copy) eqn:Hv; cbn [negb]; [|apply triple_raise; unfold V; naive_solver]. apply verified_hash in Hv as [Hv _].
  destruct (remove && negb dry) eqn:Hrm.
  - assert (dry = false) as Hd by (by destruct remove, dry). apply (triple_bind _ _ _ (λ _, P2)).
    + eapply triple_weaken; [apply (retire_safe row h V)|done|done|naive_solver]. intros w [[_ H2] H3]. rewrite <-(H3 Hd), <-Hv. auto.
    + intros _. apply triple_ret. naive_solver.
  - apply (triple_bind _ _ _ (λ _, V)); [eapply triple_weaken; [by apply (retire_idle row V)|..]; unfold V; naive_solver|].
    intros _. apply triple_ret. intros w [[H1 H2] H3]. split_and!; [by left|done|done|]. intros Hd. right. rewrite <-(H3 Hd), <-Hv. auto.
Qed.

Lemma copy_safe content : sha256 content = h → dry = false →
  triple P1 (copy_over row content) (λ _ w, P2 w ∧ (remove = false → P1 w)) (λ w, somewhere w ∧ (remove = false → P1 w)).
Proof.
  intros Hc Hd. unfold copy_over, somewhere. apply (triple_bind _ _ _ (λ _, P1)); [eapply triple_weaken; [apply (step_any_keeps "seek" P1)|..]; naive_solver|].
  intros _. apply (triple_bind _ _ _ (λ _, P1)); [eapply triple_weaken; [apply (write_apart row h row content)|..]; naive_solver|].
  intros _. apply (triple_bind _ _ _ (λ c w, P1 w ∧ dst_holds row (sha256 c) w)).
  { eapply triple_weaken; [apply (triple_and _ _ _ _ _ _ _ (open_apart row h false row "") (open_holds row ""))| |naive_solver|naive_solver]. intros w HP. split; [done|apply named_empty]. }
  intros copy. apply (triple_bind _ _ _ (λ _ w, P1 w ∧ dst_holds row (sha256 copy) w)).
  { eapply triple_weaken; [apply (step_any_keeps "verify" (λ w, P1 w ∧ dst_holds row (sha256 copy) w))|..]; naive_solver. }
  intros _. destruct (verified content copy) eqn:Hv; cbn [negb]; [|apply triple_raise; naive_solver]. apply verified_hash in Hv as [Hv _]. rewrite Hv, Hc.
  destruct (remove && negb dry) eqn:Hrm.
  - assert (remove = true) as -> by (by destruct remove). eapply triple_weaken; [apply (retire_safe row h (λ w, P1 w ∧ P2 w))|..]; naive_solver.
  - eapply triple_weaken; [by apply (retire_idle row (λ w, P1 w ∧ P2 w))|..]; naive_solver.
Qed.

(** One row: its media are in one store or the other, they are in the destination when the
    row counts as migrated or was skipped as readable, and the source keeps them unless it
    was to be removed. *)
Lemma row_kept seen n w : P1 w →
  match migrateMediaRow row seen n w with
  | (_, w', (_, r)) => somewhere w' ∧ (remove && negb dry = false → P1 w') ∧ match r with Ok o => dry = false → o_reason o = "unsafe_or_unreadable" ∨ P2 w' | Err _ => True end
  end.
Proof.
  intros HP. unfold migrateMediaRow. pose proof (examine_safe n w HP) as He. destruct (examine row n w) as [[n1 w1] [[o|content]|e]].
  - destruct He as (H1 & H2 & _ & H3). by split_and!.
  - destruct He as (H1 & H2 & H3 & H4). destruct dry eqn:Hd; [split_and!; [done|done|done]|].
    pose proof (copy_safe content (H4 eq_refl) Hd n1 w1 H3) as Hc. destruct (copy_over row content n1 w1) as [[n2 w2] [[]|e]]; destruct Hc as [Hc1 Hc2].
    + split_and!; [by right|rewrite andb_true_r; done|by right].
    + split_and!; [done|rewrite andb_true_r; done|done].
  - destruct He as (H1 & H2). done.
Qed.
End Row.

(** ** Another row's migration *)

Lemma keeps_bind {A B} (P : W → Prop) (m : M W A) (f : A → M W B) : Keeps P m → (∀ a, Keeps P (f a)) → Keeps P (bind m f).
Proof. intros Hm Hf. by eapply triple_bind. Qed.
Lemma keeps_ret {A} (P : W → Prop) (a : A) : Keeps P (ret a).
Proof. by apply triple_ret. Qed.
Lemma keeps_raise {A} (P : W → Prop) e : Keeps P (raise (A := A) e).
Proof. by apply triple_raise. Qed.
Lemma keeps_attempt {A} (P : W → Prop) (m : M W A) : Keeps P m → Keeps P (attempt m).
Proof. intros Hm. eapply triple_weaken; [by eapply triple_attempt, Hm|done| |done]. by intros [|]. Qed.
Lemma keeps_step (P : W → Prop) why : Keeps P (step why).
Proof. apply step_any_keeps. Qed.
Lemma keeps_expected (P : W → Prop) row : Keeps P (expected row).
Proof. apply expected_keeps. Qed.

(** Through the text of the two halves of a row. *)
Ltac keeps_steps :=
  repeat first [apply keeps_bind; [|intros ?] | apply keeps_ret | apply keeps_raise | apply keeps_attempt | apply keeps_step | apply keeps_expected | solve [eauto] | case_match].

Lemma row_keeps (P : W → Prop) row seen n w :
  (∀ d, Keeps P (Lookup source d row)) → (∀ d name, Keeps P (Open source d row name)) → Keeps P (Delete source row) →
  (∀ d, Keeps P (Lookup destination d row)) → (∀ d name, Keeps P (Open destination d row name)) → (∀ c, Keeps P (Write destination row c)) →
  P w → P (migrateMediaRow row seen n w).1.2.
Proof.
  intros H1 H2 H3 H4 H5 H6 HP. assert (Keeps P (retire row)) as Hr by (unfold retire; keeps_steps).
  assert (Keeps P (examine row)) as He by (unfold examine; keeps_steps). assert (∀ c, Keeps P (copy_over row c)) as Hc by (intros c; unfold copy_over; keeps_steps).
  unfold migrateMediaRow. specialize (He n w HP). destruct (examine row n w) as [[n1 w1] [[o|content]|e]]; [done| |done]. destruct dry; [done|].
  specialize (Hc content n1 w1 He). by destruct (copy_over row content n1 w1) as [[n2 w2] [[]|e]].
Qed.

Lemma other_row_keeps r h row seen n w : distinct r row →
  (src_holds r h w → src_holds r h (migrateMediaRow row seen n w).1.2) ∧ (dst_holds r h w → dst_holds r h (migrateMediaRow row seen n w).1.2).
Proof.
  intros Hd. split; apply row_keeps; intros.
  - apply lookup_keeps.
  - apply open_keeps.
  - by apply delete_keeps.
  - apply lookup_apart.
  - apply open_apart.
  - apply write_apart.
  - apply lookup_apart.
  - apply open_apart.
  - apply delete_apart.
  - apply lookup_keeps.
  - apply open_keeps.
  - by apply write_keeps.
Qed.

Lemma rows_keep r h rows : Forall (distinct r) rows → ∀ seen m n w,
  (src_holds r h w → src_holds r h (migrate_rows rows seen m n w).1.2) ∧ (dst_holds r h w → dst_holds r h (migrate_rows rows seen m n w).1.2).
Proof.
  induction 1 as [|row rows Hd _ IH]; intros seen m n w; [done|]. cbn. destruct (other_row_keeps r h row seen n w Hd) as [H1 H2].
  destruct (migrateMediaRow row seen n w) as [[n1 w1] [seen1 res]]. cbn in *. destruct (IH seen1 (account res m) n1 w1). auto.
Qed.

(** ** A run *)

(** Rows that are no concern of each other. *)
Fixpoint rows_apart (rows : list mediaRow) : Prop :=
  match rows with [] => True | r :: rows => Forall (λ x, distinct r x ∧ distinct x r) rows ∧ rows_apart rows end.

(** Every row of a run has its media in one of the two stores. *)
Lemma run_keeps rows : rows_apart rows → ∀ seen m n w r h, r ∈ rows → src_holds r h w →
  let w' := (migrate_rows rows seen m n w).1.2 in (src_holds r h w' ∨ dst_holds r h w') ∧ (remove && negb dry = false → src_holds r h w').
Proof.
  induction rows as [|row rows IH]; intros Hap seen m n w r h Hin Hh; [by apply elem_of_nil in Hin|]. destruct Hap as [Hd Hap]. cbn [migrate_rows].
  apply elem_of_cons in Hin as [->|Hin].
  - pose proof (row_kept row h seen n w Hh) as Hk. destruct (migrateMediaRow row seen n w) as [[n1 w1] [seen1 res]]. destruct Hk as (Hs & Hi & _).
    assert (Forall (distinct row) rows) as Hd' by (eapply Forall_impl; [exact Hd|naive_solver]).
    destruct (rows_keep row h rows Hd' seen1 (account res m) n1 w1) as [K1 K2]. cbn. split; [destruct Hs; [left|right]; auto|auto].
  - assert (distinct r row) as Hr by (rewrite Forall_forall in Hd; by apply Hd).
    destruct (other_row_keeps r h row seen n w Hr) as [K1 _]. destruct (migrateMediaRow row seen n w) as [[n1 w1] [seen1 res]]. cbn in *. by apply IH; auto.
Qed.

Lemma account_grows res m : (Failed m ≤ Failed (account res m))%nat ∧
  (SkipReasons (account res m) !! "unsafe_or_unreadable" = None → SkipReasons m !! "unsafe_or_unreadable" = None ∧ match res with Ok o => o_reason o ≠ "unsafe_or_unreadable" | Err _ => True end) ∧
  (match res with Ok _ => True | Err _ => (Failed m < Failed (account res m))%nat end).
Proof.
  unfold account. destruct res as [o|e]; cbn; [|split_and!; [lia|done|lia]]. split_and!; [lia| |done]. destruct (String.eqb_spec (o_reason o) "") as [E|E]; cbn; [intros ?; split; [done|by rewrite E]|].
  destruct (decide (o_reason o = "unsafe_or_unreadable")) as [->|Hne]; [by rewrite lookup_insert_eq|by rewrite lookup_insert_ne].
Qed.

Lemma rows_grow rows : ∀ seen m n w, let m' := (migrate_rows rows seen m n w).2 in
  (Failed m ≤ Failed m')%nat ∧ (SkipReasons m' !! "unsafe_or_unreadable" = None → SkipReasons m !! "unsafe_or_unreadable" = None).
Proof.
  induction rows as [|row rows IH]; intros seen m n w; [done|]. cbn [migrate_rows]. destruct (migrateMediaRow row seen n w) as [[n1 w1] [seen1 res]].
  destruct (IH seen1 (account res m) n1 w1) as [I1 I2]. destruct (account_grows res m) as (A1 & A2 & _). cbn in *. split; [lia|]. naive_solver.
Qed.

(** A run without failures and unreadable files moved, or had moved, everything. *)
Lemma run_completes rows : rows_apart rows → dry = false → ∀ seen m n w r h, r ∈ rows → src_holds r h w → let '(_, w', m') := migrate_rows rows seen m n w in
  Failed m' = Failed m → SkipReasons m' !! "unsafe_or_unreadable" = None → dst_holds r h w'.
Proof.
  intros Hap Hdry. induction rows as [|row rows IH]; intros seen m n w r h Hin Hh; [by apply elem_of_nil in Hin|]. destruct Hap as [Hd Hap]. cbn [migrate_rows].
  apply elem_of_cons in Hin as [->|Hin].
  - pose proof (row_kept row h seen n w Hh) as Hk. destruct (migrateMediaRow row seen n w) as [[n1 w1] [seen1 res]]. destruct Hk as (_ & _ & Ho).
    assert (Forall (distinct row) rows) as Hd' by (eapply Forall_impl; [exact Hd|naive_solver]). destruct (rows_keep row h rows Hd' seen1 (account res m) n1 w1) as [_ K2].
    destruct (rows_grow rows seen1 (account res m) n1 w1) as [G1 G2]. destruct (account_grows res m) as (A1 & A2 & A3).
    destruct (migrate_rows rows seen1 (account res m) n1 w1) as [[n2 w2] m2]. cbn in *. intros Hf Hs. destruct (A2 (G2 Hs)) as [_ A4]. destruct res as [o|e]; [|lia].
    apply K2. destruct (Ho Hdry); [done|done].
  - assert (distinct r row) as Hr by (rewrite Forall_forall in Hd; by apply Hd).
    destruct (other_row_keeps r h row seen n w Hr) as [K1 _]. destruct (migrateMediaRow row seen n w) as [[n1 w1] [seen1 res]]. cbn in K1.
    pose proof (IH Hap seen1 (account res m) n1 w1 r h Hin (K1 Hh)) as Hi. destruct (rows_grow rows seen1 (account res m) n1 w1) as [G1 _]. destruct (account_grows res m) as (A1 & _ & _).
    destruct (migrate_rows rows seen1 (account res m) n1 w1) as [[n2 w2] m2]. cbn in *. intros Hf Hs. apply Hi; [lia|done].
Qed.

(** Every row is counted once. *)
Lemma run_accounts rows : ∀ seen m n w, let m' := (migrate_rows rows seen m n w).2 in (Files m' + Skipped m' + Failed m' = Files m + Skipped m + Failed m + length rows)%nat.
Proof.
  induction rows as [|row rows IH]; intros seen m n w; cbn; [lia|].
  assert (match (migrateMediaRow row seen n w).2.2 with Ok o => (o_files o = 1 ∧ o_reason o = "") ∨ (o_files o = 0 ∧ o_reason o ≠ "") | Err _ => True end)%nat as Ho.
  { unfold migrateMediaRow. assert (triple (λ _, True) (examine row) (λ r _, match r with inl o => o_files o = 0%nat ∧ o_reason o ≠ "" | inr _ => True end) (λ _, True)) as He.
    { unfold examine. clear. repeat first [apply triple_bind_any; intros ? | apply triple_ret; done | apply triple_raise; done | case_match]. }
    specialize (He n w I). destruct (examine row n w) as [[n1 w1] [[o|content]|e]]; cbn [fst snd]; [by right| |done]. destruct dry; [by left|].
    destruct (copy_over row content n1 w1) as [[n2 w2] [[]|e]]; cbn [fst snd]; [by left|done]. }
  destruct (migrateMediaRow row seen n w) as [[n1 w1] [seen1 res]]. cbn in Ho. rewrite IH. unfold account. destruct res as [o|e]; cbn; [|lia].
  destruct Ho as [[-> Hr]|[-> Hr]]; [rewrite Hr; cbn; lia|]. rewrite (proj2 (String.eqb_neq _ _)) by done. cbn. lia.
Qed.
End Migration.
