(* ===== verification/MediaMigrate.v ===== *)
(** * Migration between the local directory and the bucket ([media_migrate.go])

    The two stores as instances of the interface of [MediaStorage]: the directory of
    [MediaPurge] and [MediaCache] with the bytes of its files, and the bucket of [S3].
    The other workers of a run appear as what happens to the bucket and its tables while
    a lock is awaited. *)
From S2P Require Import Prelude MediaNames MediaPurge MediaCache S3 MediaStorage.
#[local] Open Scope Z_scope.

Record world := { remote : S3.state; files : disk; data : gmap (string * string) string }.

Section Stores.
Context (sha256 : string → string) (env : nat → S3.fault) (others : nat → S3.state → S3.state) (now : Z) (zone : Z → Z).

Definition failing (n : nat) : bool := match env n with S3.Fine => false | _ => true end.
Definition key_of (row : mediaRow) : string * string := (ID row, ChatJID row).
Definition chat_of (row : mediaRow) : string := chatMediaRel (ChatJID row).
Definition name_of (row : mediaRow) : string := mediaFileName zone (MediaType row) (Timestamp row) (ID row) (Filename row).

(** ** The bucket *)

Definition lift {A} (m : S3.M A) : MediaStorage.M world A :=
  λ n w, match m n (remote w) with
         | (n, s, r) => (n, {| remote := s; files := files w; data := data w |}, match r with Ok a => Ok a | Err _ => Err "s3" end)
         end.

Section Remote.
Import S3.
#[local] Open Scope s3_scope.

(** [s3MediaStorage.Lookup], as the migration calls it: a dry run settles nothing. *)
Definition lookup_row (dry : bool) (row : mediaRow) : S3.M (option string) :=
  if bool_decide (is_Some (checkMediaPathComponents (chat_of row) (name_of row))) then S3.raise ErrPath
  else
    (r ⇐ S3.attempt (reconciledReference env others dry (key_of row));
     match r with
     | Ok _ => S3.ret (Some (name_of row))
     | Err ErrNoRows => S3.ret None
     | Err _ => S3.raise ErrMediaS3
     end)%s3.

(** The only result of a batch of one row. *)
Definition delete_row (row : mediaRow) : S3.M bool :=
  (r ⇐ S3.Delete env others (λ objs, objs) false [key_of row];
   match r with
   | ([x], None) => S3.ret (x_purged x)
   | (_, None) => S3.ret false
   | (_, Some e) => S3.raise e
   end)%s3.

Definition put_row (row : mediaRow) (content : string) : S3.M Z :=
  S3.put sha256 env others now NoBridge (key_of row) (MediaType row) content (Z.of_nat (String.length content)).
End Remote.

Definition s3MediaStorage : mediaStorage world := {|
  MediaStorage.Lookup := λ dry row, lift (lookup_row dry row);
  MediaStorage.Open := λ dry row _, lift (S3.Open sha256 env others now dry (key_of row));
  MediaStorage.Write := λ row content, bind (lift (put_row row content)) (λ _, ret tt);
  MediaStorage.Delete := λ row, lift (delete_row row) |}.

(** The message refers to an object that is there, has its hash and is not being deleted. *)
Definition kept (k : string * string) (h : string) (s : S3.state) : Prop :=
  S3.refs s !! k = Some h ∧ is_Some (S3.catalog s !! h) ∧ (∃ m, S3.messages s !! k = Some m ∧ S3.m_sha m = h) ∧ (h ∉ S3.deletions s) ∧
  ∃ c, S3.bucket s !! h = Some c ∧ sha256 c = h.

Definition s3_holds (row : mediaRow) (h : string) (w : world) : Prop := kept (key_of row) h (remote w).

(** ** The directory *)

(** [localMediaStorage.Lookup]. *)
Definition local_lookup (row : mediaRow) : MediaStorage.M world (option string) := λ n w,
  (S n, w, if failing n then Err "lookup"
           else match find_row zone (files w) row with Found name => Ok (Some name) | NotCached => Ok None | RefusedPath why => Err why end).

(** [openStoreMedia]. *)
Definition local_open_name (row : mediaRow) (name : string) : MediaStorage.M world string := λ n w,
  (S n, w,
   if failing n || bool_decide (is_Some (checkMediaPathComponents (chat_of row) name)) then Err "open"
   else match d_kind (dir_of (files w) (chat_of row)), d_opened (dir_of (files w) (chat_of row)), stat_in (dir_of (files w) (chat_of row)) name with
        | Directory, true, RegularFile => match data w !! (chat_of row, name) with Some c => Ok c | None => Err "read" end
        | _, _, _ => Err "open"
        end).

Definition local_open (row : mediaRow) (name : string) : MediaStorage.M world string :=
  if String.eqb name "" then bind (local_lookup row) (λ entry, match entry with Some name => local_open_name row name | None => raise "not cached" end)
  else local_open_name row name.

(** [MkdirAll] of the chat's directory. *)
Definition make_dir (chat : string) (d : disk) : option disk :=
  match d_kind (dir_of d chat) with
  | Missing => Some (<[chat := {| d_kind := Directory; d_opened := true; entries := ∅ |}]> d)
  | Directory => Some d
  | _ => None
  end.

(** What the file system answers to the calls of one publication. *)
Context (faults : nat → fs_faults).

(** The copy of the spool: the bytes written, or a failure. *)
Definition copy_run (n : nat) (content : string) : handle * option write_error :=
  ({| pos := Z.of_nat (String.length content); len := Z.of_nat (String.length content); exceeded := false |}, if failing n then Some (FillFailed "copy") else None).

Definition local_write (row : mediaRow) (content : string) : MediaStorage.M world unit := λ n w,
  match (if failing n then None else make_dir (chat_of row) (files w)) with
  | None => (S n, w, Err "mkdir")
  | Some d =>
      let w := {| remote := remote w; files := d; data := data w |} in
      if bool_decide (is_Some (checkMediaPathComponents (chat_of row) (name_of row))) then (S n, w, Err "path")
      else
        match writeMediaFile (faults n) now (chat_of row) (name_of row) (copy_run (S n) content) d with
        | (d, Ok _) => (S (S n), {| remote := remote w; files := d; data := <[(chat_of row, name_of row) := content]> (data w) |}, Ok tt)
        | (d, Err _) => (S (S n), {| remote := remote w; files := d; data := data w |}, Err "write")
        end
  end.

(** [Delete] of one row, through [purgeOneUsing]. *)
Definition local_delete (row : mediaRow) : MediaStorage.M world bool := λ n w,
  if failing n then (S n, w, Err "delete")
  else
    let '(d, res) := purgeOne zone row false (files w) in
    (S n, {| remote := remote w; files := d; data := if Purged res then delete (chat_of row, File res) (data w) else data w |}, Ok (Purged res)).

Definition localMediaStorage : mediaStorage world := {|
  MediaStorage.Lookup := λ _ row, local_lookup row;
  MediaStorage.Open := λ _ row name, local_open row name;
  MediaStorage.Write := local_write;
  MediaStorage.Delete := local_delete |}.

(** A lookup finds the row's file, with that hash. *)
Definition local_holds (row : mediaRow) (h : string) (w : world) : Prop :=
  ∃ name c, find_row zone (files w) row = Found name ∧ data w !! (chat_of row, name) = Some c ∧ sha256 c = h.

(** Rows of different messages whose files have different names. *)
Definition distinct (r r' : mediaRow) : Prop :=
  key_of r ≠ key_of r' ∧ (chat_of r = chat_of r' → ∀ x, x ∈ names_of zone r' → (x ∉ names_of zone r) ∧ part x ∉ names_of zone r).

(** ** Lemmas: the bucket *)

Context (Hothers : ∀ n s k h, kept k h s → kept k h (others n s)).

Section RemoteLaws.
Import S3.
#[local] Open Scope s3_scope.
Context (k : string * string) (h : string).
Abbreviation P := (kept k h).
Abbreviation holding m := (safe P m (λ _, P) P).

(** A fact of the state that is a fact of the run. *)
Lemma safe_given {A} (m : S3.M A) (φ : Prop) P0 P1 Q E : (∀ s, P0 s → P1 s ∧ φ) → (φ → safe P1 m Q E) → safe P0 m Q E.
Proof. intros H0 H1 n s HP. destruct (H0 s HP) as [HP1 Hφ]. by apply (H1 Hφ n s). Qed.

Lemma hold_lock h' : holding (lockHash env others h').
Proof. intros n s HP. unfold lockHash. destruct (env n); by apply Hothers. Qed.

Lemma hold_reference k' : holding (reference env k').
Proof. unfold reference. eapply safe_bind; [by apply (safe_query env _ _ P (λ _, P) P)|]. intros [x|]; [by apply safe_ret|by apply safe_raise]. Qed.

Lemma hold_key h' : holding (key h').
Proof. unfold key. destruct (Nat.eqb _ _); [by apply safe_ret|by apply safe_raise]. Qed.

Lemma kept_delete_object h' s : P s → h' ≠ h → P (delete_object_row h' s).
Proof.
  intros (H1 & H2 & H3 & H4 & H5) Hne. unfold kept, delete_object_row. cbn. split_and!; [|by rewrite lookup_delete_ne|done|set_solver|done].
  apply map_lookup_filter_Some. split; [done|]. cbn. done.
Qed.

Lemma hold_reconcile ro h' : holding (reconcileDeletionLocked env ro h').
Proof.
  unfold reconcileDeletionLocked. apply (safe_bind _ _ _ (λ b s, P s ∧ (b = true → h' ∈ deletions s))); [(apply safe_query; [|done]); intros s HP; (split; [done|]); apply bool_decide_eq_true|].
  intros []; cbn [negb]; [|apply safe_ret; naive_solver].
  apply (safe_bind _ _ _ (λ _ s, P s ∧ h' ∈ deletions s)); [unfold key; destruct (Nat.eqb _ _); [apply safe_ret|apply safe_raise]; naive_solver|intros _].
  apply (safe_bind _ _ _ (λ _ s, P s ∧ h' ∈ deletions s)); [apply safe_query; naive_solver|intros _].
  apply (safe_bind _ _ _ (λ _ s, P s ∧ h' ∈ deletions s)); [apply safe_net; naive_solver|intros missing].
  assert (∀ s, P s ∧ h' ∈ deletions s → h' ≠ h) as Hne by (intros s [(_ & _ & _ & Hd & _) Hin] ->; done).
  destruct ro; [apply safe_ret; naive_solver|]. destruct missing.
  - apply (safe_bind _ _ _ (λ _, P)); [|intros _; by apply safe_ret]. apply safe_exec; [|naive_solver]. intros s Hs. apply kept_delete_object; [naive_solver|by eapply Hne].
  - apply (safe_bind _ _ _ (λ _, P)); [|intros _; by apply safe_ret]. apply safe_exec; [|naive_solver]. intros s [(H1 & H2 & H3 & H4 & H5) _]. unfold kept. cbn. split_and!; [done..|set_solver|done].
Qed.

Lemma hold_reconciled ro k' : holding (reconciledReference env others ro k').
Proof.
  unfold reconciledReference. eapply safe_bind; [apply hold_reference|intros x]. eapply safe_bind; [by apply (safe_query env _ _ P (λ _, P) P)|intros []; cbn [negb]; [|by apply safe_ret]].
  eapply safe_bind; [apply hold_lock|intros ?]. eapply safe_bind; [apply hold_reconcile|intros []]; [by apply safe_raise|apply hold_reference].
Qed.

Lemma hold_attempt {A} (m : S3.M A) : holding m → holding (S3.attempt m).
Proof. intros Hm. eapply safe_weaken; [by eapply safe_attempt, Hm|done| |done]. by intros [|]. Qed.

Lemma hold_lookup dry row : holding (lookup_row dry row).
Proof.
  unfold lookup_row. destruct (bool_decide _); [by apply safe_raise|]. eapply safe_bind; [apply hold_attempt, hold_reconciled|].
  intros [x|e]; [by apply safe_ret|]. destruct e; first [by apply safe_ret|by apply safe_raise].
Qed.

Lemma kept_touch h' s : P s → P (touch now h' s).
Proof.
  intros (H1 & [o H2] & H3 & H4 & H5). unfold kept, touch. cbn. split_and!; [done| |done..]. destruct (decide (h' = h)) as [->|]; [rewrite lookup_alter_eq, H2; eauto|rewrite lookup_alter_ne by done; eauto].
Qed.

Lemma hold_open ro k' : holding (S3.Open sha256 env others now ro k').
Proof.
  unfold S3.Open. eapply safe_bind; [apply hold_attempt, hold_reconciled|]. intros [[h' size]|e]; [|destruct e; by apply safe_raise].
  eapply safe_bind; [apply hold_lock|intros ?]. eapply safe_bind; [apply hold_reconcile|intros ?]. eapply safe_bind; [apply hold_attempt, hold_reference|].
  intros [[h'' b]|e]; [|by apply safe_raise]. destruct (negb _); [by apply safe_raise|]. eapply safe_bind; [by apply (safe_query env _ _ P (λ _, P) P)|intros ?]. eapply safe_bind; [apply hold_key|intros ?].
  eapply safe_bind; [by apply (safe_net env _ _ _ P (λ _, P) P)|intros [c|]; [|by apply safe_raise]]. destruct (_ && _); [|by apply safe_raise].
  apply (safe_bind _ _ _ (λ _, P)); [destruct ro; [by apply safe_ret|apply safe_exec; [intros s; apply kept_touch|done]]|intros _; by apply safe_ret].
Qed.

(** Another message's write: its object is another one, or the same, already there. *)
Lemma kept_publish h' size kind k' expected s : k' ≠ k → P s → P (publish now h' size kind k' expected s).
Proof.
  intros Hk (H1 & H2 & H3 & H4 & H5). unfold kept, publish. cbn. split_and!; [by rewrite lookup_insert_ne| | |set_solver|done].
  - destruct (decide (h' = h)) as [->|]; [rewrite lookup_insert_eq; eauto|by rewrite lookup_insert_ne].
  - destruct (String.eqb expected ""); [|done]. by rewrite lookup_alter_ne.
Qed.

Lemma hold_publication h' size kind k' expected : k' ≠ k → holding (verify_and_publish sha256 env now h' size kind k' expected).
Proof.
  intros Hk. unfold verify_and_publish. eapply safe_bind; [by apply (safe_net env _ _ _ P (λ _, P) P)|intros [c|]; [|by apply safe_raise]]. destruct (_ && _); [|by apply safe_raise].
  apply (safe_bind _ _ _ (λ _, P)); [|intros [|]; [by apply safe_ret|by apply safe_raise]]. apply safe_sql; [|done]. intros s HP. destruct (same_snapshot k' expected s); [by apply kept_publish|done].
Qed.

Lemma kept_bucket_insert h' c s : h' ≠ h → P s → P (set_bucket (<[h' := c]> (bucket s)) s).
Proof. intros Hne (H1 & H2 & H3 & H4 & H5). unfold kept. cbn. rewrite lookup_insert_ne by done. by split_and!. Qed.
Lemma kept_bucket_delete h' s : h' ≠ h → P s → P (set_bucket (delete h' (bucket s)) s).
Proof. intros Hne (H1 & H2 & H3 & H4 & H5). unfold kept. cbn. rewrite lookup_delete_ne by done. by split_and!. Qed.

Lemma hold_put k' kind content size : k' ≠ k → holding (put sha256 env others now NoBridge k' kind content size).
Proof.
  intros Hk. unfold put. destruct (size <? 0); [by apply safe_raise|]. eapply safe_bind; [by apply (safe_query env _ _ P (λ _, P) P)|intros ?]. destruct (negb _); [by apply safe_raise|].
  eapply safe_bind; [by apply (safe_query env _ _ P (λ _, P) P)|intros [expected|]; [|by apply safe_raise]]. destruct (negb (String.eqb expected "") && _); [by apply safe_raise|].
  eapply safe_bind; [by apply (safe_ret tt P (λ _, P) P)|intros ?]. eapply safe_bind; [apply hold_lock|intros ?]. eapply safe_bind; [by apply (safe_query env _ _ P (λ _, P) P)|intros ?].
  eapply safe_bind; [apply hold_key|intros ?]. set (h' := sha256 content).
  apply (safe_bind _ _ _ (λ o s, P s ∧ (o = None → h' ≠ h))).
  { apply safe_net; [|done..]. intros s HP. split; [done|]. intros Hb Heq. destruct HP as (_ & _ & _ & _ & c & Hc & _). rewrite Heq in Hb. congruence. }
  intros [c|].
  - destruct (negb _); [apply safe_raise; naive_solver|]. eapply (safe_bind _ _ _ (λ _, P)); [eapply safe_weaken; [by apply hold_publication|naive_solver..]|intros _; by apply safe_ret].
  - apply (safe_given _ (h' ≠ h) _ P); [naive_solver|intros Hne].
    eapply safe_bind; [by apply (safe_query env _ _ P (λ _, P) P)|intros ?]. eapply safe_bind; [apply (safe_exec env _ P (λ _, P) P); [|done]; intros s HP; exact HP|intros ?].
    eapply safe_bind; [apply hold_attempt; eapply safe_bind; [apply (safe_net env _ _ _ P (λ _, P) P); [intros s HP; by apply kept_bucket_insert|done|intros s HP; by apply kept_bucket_insert]|intros ?; by apply hold_publication]|].
    intros [?|e]; [by apply safe_ret|]. apply (safe_bind _ _ _ (λ _, P)); [|intros ?; by apply safe_raise]. unfold forget_upload.
    eapply safe_bind; [apply hold_attempt, (safe_net env _ _ _ P (λ _, P) P); [intros s HP; by apply kept_bucket_delete|done|intros s HP; by apply kept_bucket_delete]|].
    intros [?|?]; [|by apply safe_ret]. eapply safe_bind; [apply hold_attempt, (safe_exec env _ P (λ _, P) P); done|intros ?; by apply safe_ret].
Qed.

(** A batch of another row: its object is another one, or this message refers to it too. *)
Lemma kept_counted k' s : k' ≠ k → P s → refs s !! k' = Some h → (2 ≤ references h s)%nat.
Proof.
  intros Hk (H1 & _) H2. unfold references. set (m := filter _ _).
  assert (m !! k = Some h ∧ m !! k' = Some h) as [E1 E2] by (split; by apply map_lookup_filter_Some).
  assert (base.size (delete k m) = pred (base.size m)) as S1 by (by rewrite map_size_delete, E1).
  assert (base.size (delete k' (delete k m)) = pred (base.size (delete k m))) as S2 by (by rewrite map_size_delete, lookup_delete_ne, E2).
  assert (m ≠ ∅) by (intros E; by rewrite E in E1). assert (base.size m ≠ 0%nat) by (by apply map_size_non_empty_iff).
  assert (delete k m ≠ ∅) by (intros E; assert (delete k m !! k' = Some h) as E3 by (by rewrite lookup_delete_ne); by rewrite E in E3).
  assert (base.size (delete k m) ≠ 0%nat) by (by apply map_size_non_empty_iff). change (2 ≤ base.size m)%nat. lia.
Qed.

Lemma kept_unreferenced k' s : k' ≠ k → P s → P (set_refs (delete k' (refs s)) s).
Proof. intros Hk (H1 & H2). unfold kept. cbn. by rewrite lookup_delete_ne. Qed.

Lemma kept_marked h' s : h' ≠ h → P s → P (mark_deletion h' s).
Proof. intros Hne (H1 & H2 & H3 & H4 & H5). unfold mark_deletion. destruct (decide _); [|by split_and!]. unfold kept. cbn. split_and!; [done..|set_solver|done]. Qed.

Lemma hold_remove k' o out : k' ≠ k → s_rows o = [0%nat] → holding (remove_selected env others false [k'] o out).
Proof.
  intros Hk Ho. unfold remove_selected. rewrite Ho. eapply safe_bind; [apply hold_lock|intros ?]. set (h' := s_hash o). cbn [still_selected].
  apply (safe_bind _ _ _ (λ live s, P s ∧ (live = [] ∨ live = [0%nat] ∧ refs s !! k' = Some h'))).
  { apply (safe_bind _ _ _ (λ b s, P s ∧ (b = true → refs s !! k' = Some h'))); [apply safe_query; [|done]; intros s HP; split; [done|]; cbn; by intros ?%bool_decide_eq_true|].
    intros b. apply (safe_bind _ _ _ (λ rest s, P s ∧ (b = true → refs s !! k' = Some h') ∧ rest = [])); [apply safe_ret; naive_solver|].
    intros rest. apply safe_ret. intros s (HP & Hb & ->). split; [done|]. destruct b; naive_solver. }
  intros live. destruct (last live) as [final|] eqn:Hlast; [|apply safe_ret; naive_solver].
  apply (safe_bind _ _ _ (λ count s, P s ∧ live = [0%nat] ∧ refs s !! k' = Some h' ∧ count = references h' s)).
  { apply safe_query; [|naive_solver]. intros s [HP [-> |[-> Hr]]]; [done|by split_and!]. }
  intros count. destruct (Nat.eqb_spec count (length live)) as [Hc|Hc].
  - apply (safe_given _ (h' ≠ h) _ P); [|intros Hne].
    { intros s (HP & -> & Hr & ->). split; [done|]. intros E. rewrite E in *. pose proof (kept_counted k' s Hk HP Hr). cbn in Hc. lia. }
    apply (safe_bind _ _ _ (λ _, P)); [apply safe_exec; [intros s HP; by apply kept_marked|done]|intros ?].
    eapply safe_bind; [apply hold_attempt|intros [?|?]].
    + unfold removeObject. eapply safe_bind; [apply hold_key|intros ?]. eapply safe_bind; [by apply (safe_query env _ _ P (λ _, P) P)|intros ?].
      apply safe_net; [intros s HP; by apply kept_bucket_delete|done|intros s HP; by apply kept_bucket_delete].
    + apply (safe_bind _ _ _ (λ _, P)); [apply safe_exec; [intros s HP; by apply kept_delete_object|done]|intros ?; by apply safe_ret].
    + eapply safe_bind; [apply hold_attempt, hold_reconcile|intros ?; by apply safe_ret].
  - apply (safe_bind _ _ _ (λ _, P)); [|intros ?; by apply safe_ret]. apply safe_exec; [|naive_solver]. intros s (HP & -> & Hr & ->). cbn. rewrite Hr, bool_decide_true by done. by apply kept_unreferenced.
Qed.

Lemma hold_delete row' : key_of row' ≠ k → holding (delete_row row').
Proof.
  intros Hk. unfold delete_row. apply (safe_bind _ _ _ (λ _, P)); [|intros [[|x [|]] [e|]]; first [by apply safe_ret|by apply safe_raise]]. unfold S3.Delete. cbn [select_rows].
  rewrite bool_decide_false by (by intros ?%elem_of_nil).
  apply (safe_bind _ _ _ (λ f s, P s ∧ Forall (λ o, s_rows o = [0%nat]) f.1.1)).
  { eapply safe_bind; [apply hold_attempt; by apply (safe_query env _ _ P (λ _, P) P)|]. intros [[[h' b]|]|e]; apply safe_ret; intros s HP; (split; [done|]); repeat constructor. }
  intros [[objs out] [e|]]; cbn; [apply safe_ret; naive_solver|]. apply (safe_given _ (Forall (λ o, s_rows o = [0%nat]) objs) _ P); [naive_solver|intros Hf].
  apply (safe_bind _ _ _ (λ _, P)); [|intros [? ?]; by apply safe_ret]. revert out. induction Hf as [|o objs Ho Hf IH]; intros out; cbn [remove_objects]; [by apply safe_ret|].
  eapply safe_bind; [by apply hold_attempt, hold_remove|intros [?|?]; [apply IH|by apply safe_ret]].
Qed.

(** What a read released is there to be read again. *)
Lemma referenced h' b s : reference_of k s = Some (h', b) → refs s !! k = Some h' ∧ is_Some (catalog s !! h') ∧ ∃ m, messages s !! k = Some m ∧ m_sha m = h'.
Proof.
  unfold reference_of. destruct (refs s !! k) as [x|]; [|done]. cbn. destruct (catalog s !! x) as [o|] eqn:Ho; [|done]. cbn. destruct (messages s !! k) as [m|]; [|done]. cbn.
  destruct (String.eqb_spec (m_sha m) x) as [E|]; [|done]. intros [= <- <-]. rewrite Ho. eauto.
Qed.

Lemma settled_reconcile h' : safe anything (reconcileDeletionLocked env false h') (λ _ s, h' ∉ deletions s) anything.
Proof.
  unfold reconcileDeletionLocked. apply (safe_bind _ _ _ (λ b s, b = false → h' ∉ deletions s)); [apply safe_query; [|done]; intros s _; by intros ?%bool_decide_eq_false|].
  intros []; cbn [negb]; [|apply safe_ret; naive_solver]. do 2 (apply (safe_bind _ _ _ (λ _, anything)); [apply safe_trivially|intros ?]).
  apply (safe_bind _ _ _ (λ _, anything)); [apply safe_trivially|intros []].
  - apply (safe_bind _ _ _ (λ _ s, h' ∉ deletions s)); [apply safe_exec; [|done]; intros s _; cbn; set_solver|intros ?; by apply safe_ret].
  - apply (safe_bind _ _ _ (λ _ s, h' ∉ deletions s)); [apply safe_exec; [|done]; intros s _; cbn; set_solver|intros ?; by apply safe_ret].
Qed.

Lemma open_found : safe anything (S3.Open sha256 env others now false k) (λ c s, kept k (sha256 c) s) anything.
Proof.
  unfold S3.Open. eapply safe_bind; [apply safe_trivially|]. intros [[h' size]|e]; [|destruct e; by apply safe_raise].
  eapply safe_bind; [apply safe_trivially|intros ?]. eapply safe_bind; [apply settled_reconcile|intros ?].
  apply (safe_bind _ _ _ (λ r s, (h' ∉ deletions s) ∧ match r with Ok x => reference_of k s = Some x | Err _ => True end)).
  { eapply safe_weaken; [eapply (safe_attempt _ (λ s, h' ∉ deletions s) (λ x s, (h' ∉ deletions s) ∧ reference_of k s = Some x) (λ s, h' ∉ deletions s) anything)|done|intros [|]; naive_solver|done]. unfold reference.
    apply (safe_bind _ _ _ (λ o s, (h' ∉ deletions s) ∧ reference_of k s = o)); [by apply safe_query|]. intros [x|]; [by apply safe_ret|apply safe_raise; naive_solver]. }
  intros [[h'' b]|e]; [|by apply safe_raise]. destruct (String.eqb_spec h'' h') as [->|]; cbn [negb]; [|by apply safe_raise].
  set (R := λ s, (h' ∉ deletions s) ∧ reference_of k s = Some (h', b)). apply (safe_bind _ _ _ (λ _, R)); [by apply safe_query|intros ?]. apply (safe_bind _ _ _ (λ _, R)).
  { unfold S3.key. destruct (Nat.eqb _ _); [by apply safe_ret|by apply safe_raise]. }
  intros ?. apply (safe_bind _ _ _ (λ o s, R s ∧ bucket s !! h' = o)); [by apply safe_net|]. intros [c|]; [|by apply safe_raise].
  destruct (_ && String.eqb (sha256 c) h') eqn:Hc; [|by apply safe_raise]. apply andb_true_iff in Hc as [_ Hc%String.eqb_eq].
  apply (safe_bind _ _ _ (λ _, kept k h')); [|intros ?; apply safe_ret; by rewrite Hc]. apply safe_exec; [|done].
  intros s [[Hd Hr] Hb]. apply referenced in Hr as (H1 & [o H2] & H3). unfold kept, touch. cbn. rewrite lookup_alter_eq, H2. split_and!; [done|by eexists|done|done|eauto].
Qed.

(** A held object is found, or the lookup fails. *)
Lemma kept_referenced s : P s → ∃ b, reference_of k s = Some (h, b).
Proof. intros (H1 & [o H2] & (m & H3 & H4) & _). exists (o_bytes o). unfold reference_of. rewrite H1. cbn. rewrite H2. cbn. rewrite H3. cbn. by rewrite H4, String.eqb_refl. Qed.

Lemma kept_looked ro n s : P s → match reconciledReference env others ro k n s with (_, _, Err e) => e = ErrMediaS3 | _ => True end.
Proof.
  intros HP. destruct (kept_referenced s HP) as [b Hr]. destruct HP as (_ & _ & _ & Hd & _). unfold reconciledReference, reference, S3.bind, query, sql.
  destruct (env n); [|done..]. rewrite Hr. cbn. destruct (env (S n)); [|done..]. by rewrite bool_decide_false.
Qed.
End RemoteLaws.

(** ** Lemmas: the directory *)

(** What a lookup of a row depends on. *)
Definition same_view (row : mediaRow) (w w' : world) : Prop :=
  let c := dir_of (files w) (chat_of row) in let c' := dir_of (files w') (chat_of row) in
  d_kind c = d_kind c' ∧ d_opened c = d_opened c' ∧ ∀ x, x ∈ names_of zone row → stat_in c x = stat_in c' x ∧ data w !! (chat_of row, x) = data w' !! (chat_of row, x).

Lemma find_ext stat stat' names previous e : (∀ x, x ∈ names → stat x = stat' x) → findCachedMediaInDir stat names previous e = findCachedMediaInDir stat' names previous e.
Proof.
  revert previous e. induction names as [|x names IH]; intros previous e Hs; [done|]. cbn [findCachedMediaInDir]. rewrite (Hs x) by set_solver.
  assert (∀ p e, findCachedMediaInDir stat names p e = findCachedMediaInDir stat' names p e) as E by (intros; apply IH; set_solver). destruct (String.eqb x previous); [apply E|]. by destruct (stat' x); rewrite ?E.
Qed.

Lemma view_found row w w' : same_view row w w' → find_row zone (files w) row = find_row zone (files w') row.
Proof.
  unfold same_view, find_row, findCachedMedia, chat_of. intros (H1 & H2 & H3). destruct (omap _ _); [|done]. rewrite H1, H2. destruct (d_kind (dir_of (files w') _)); try done. destruct (d_opened (dir_of (files w') _)); [|done].
  apply find_ext. intros x Hx. by apply H3.
Qed.

Lemma view_holds row h w w' : same_view row w w' → local_holds row h w → local_holds row h w'.
Proof.
  intros Hv (name & c & Hf & Hc & Hh). exists name, c. rewrite <-(view_found row w w' Hv). split_and!; [done| |done].
  apply found_row in Hf as [Hin _]. destruct Hv as (_ & _ & Hv). by rewrite <-(proj2 (Hv name Hin)).
Qed.

(** Directories that agree on a chat and some names in it. *)
Definition same_dir (chat : string) (names : list string) (d d' : disk) : Prop :=
  d_kind (dir_of d chat) = d_kind (dir_of d' chat) ∧ d_opened (dir_of d chat) = d_opened (dir_of d' chat) ∧ ∀ x, x ∈ names → stat_in (dir_of d chat) x = stat_in (dir_of d' chat) x.

#[global] Instance same_dir_preorder chat names : PreOrder (same_dir chat names).
Proof.
  split; [by intros d|]. intros d1 d2 d3 (A1 & A2 & A3) (B1 & B2 & B3). split_and!; [congruence..|]. intros x Hx. etrans; [by apply A3|by apply B3].
Qed.

Lemma same_alter chat names chat' f d : (chat' = chat → ∀ c, d_kind (f c) = d_kind c ∧ d_opened (f c) = d_opened c ∧ ∀ x, x ∈ names → entries (f c) !! x = entries c !! x) →
  same_dir chat names d (alter f chat' d).
Proof.
  intros Hf. unfold same_dir, dir_of, stat_in. destruct (decide (chat' = chat)) as [->|Hne]; [|by rewrite !lookup_alter_ne].
  rewrite !lookup_alter_eq. destruct (d !! chat) as [c|]; [|done]. cbn. destruct (Hf eq_refl c) as (H1 & H2 & H3). rewrite H1, H2. split_and!; [done..|]. intros x Hx. by rewrite H3.
Qed.

Lemma same_remove chat names chat' name d : (chat' = chat → name ∉ names) → same_dir chat names d (MediaPurge.remove chat' name d).
Proof. intros Hn. apply same_alter. intros E c. cbn. split_and!; [done..|]. intros x Hx. apply lookup_delete_ne. intros ->. by apply Hn. Qed.

Lemma same_put chat names chat' name g d : (chat' = chat → name ∉ names) → same_dir chat names d (MediaCache.put chat' name g d).
Proof. intros Hn. apply same_alter. intros E c. cbn. split_and!; [done..|]. intros x Hx. apply lookup_insert_ne. intros ->. by apply Hn. Qed.

Lemma same_write chat names fs chat' name run d : (chat' = chat → (name ∉ names) ∧ part name ∉ names) → same_dir chat names d (writeMediaFile fs now chat' name run d).1.
Proof.
  intros Hn. assert (∀ d, same_dir chat names d (MediaPurge.remove chat' (part name) d)) as R by (intros; apply same_remove; naive_solver).
  assert (∀ g d, same_dir chat names d (MediaCache.put chat' (part name) g d)) as S1 by (intros; apply same_put; naive_solver).
  assert (∀ g d, same_dir chat names d (MediaCache.put chat' name g d)) as S2 by (intros; apply same_put; naive_solver).
  unfold writeMediaFile. destruct (_ && _); [done|]. destruct (negb _); [apply R|]. destruct run as [? [e|]]; [|destruct (negb _); [|destruct (negb _)]]; cbn [fst]; repeat (etrans; [|first [apply R|apply S1|apply S2]]); done.
Qed.

Lemma same_purge chat names row d : (chat_of row = chat → ∀ x, x ∈ names_of zone row → x ∉ names) → same_dir chat names d (purgeOne zone row false d).1.
Proof.
  intros Hn. unfold purgeOne. case_bool_decide; [done|]. destruct (find_row zone d row) as [name| |] eqn:Hf; [|done..]. destruct (file_removable _ _ _); [|done].
  apply found_row in Hf as [Hin _]. apply same_remove. intros E. by apply Hn.
Qed.

Lemma found_opens row name d : find_row zone d row = Found name → d_kind (dir_of d (chat_of row)) = Directory.
Proof. unfold find_row, findCachedMedia. destruct (omap _ _); [|done]. unfold chat_of. by destruct (d_kind (dir_of d (chatMediaRel (ChatJID row)))). Qed.

Lemma name_among row : name_of row ∈ names_of zone row.
Proof. unfold names_of, mediaFileNames, name_of. set_solver. Qed.

Lemma write_view r r' h content n w : distinct r r' → local_holds r h w → same_view r w (local_write r' content n w).1.2.
Proof.
  intros [_ Hd] (name & c & Hf & _ & _). apply found_opens in Hf. unfold local_write. destruct (failing n); [done|].
  assert (∀ d', make_dir (chat_of r') (files w) = Some d' → same_dir (chat_of r) (names_of zone r) (files w) d') as Hmk.
  { intros d'. unfold make_dir. destruct (decide (chat_of r' = chat_of r)) as [E|Hne]; [rewrite E, Hf; by intros [= <-]|].
    destruct (d_kind (dir_of (files w) (chat_of r'))); intros ?; simplify_eq; [|done]. unfold same_dir, dir_of. by rewrite lookup_insert_ne. }
  destruct (make_dir _ _) as [d'|]; [|done]. specialize (Hmk d' eq_refl). cbn zeta. destruct (bool_decide _); [by destruct Hmk as (H1 & H2 & H3); split_and!; [..|auto]|].
  assert (chat_of r' = chat_of r → (name_of r' ∉ names_of zone r) ∧ part (name_of r') ∉ names_of zone r) as Hn by (intros E; apply Hd; [done|apply name_among]).
  pose proof (same_write (chat_of r) (names_of zone r) (faults n) (chat_of r') (name_of r') (copy_run (S n) content) d' Hn) as Hw.
  pose proof (transitivity Hmk Hw) as (H1 & H2 & H3). destruct (writeMediaFile _ _ _ _ _ _) as [d2 [z|e]]; cbn in *; (split_and!; [done..|]); intros x Hx; (split; [by apply H3|]); [|done].
  cbn. rewrite lookup_insert_ne; [done|]. intros [= E E']. destruct (Hn E). by rewrite E' in *.
Qed.

Lemma delete_view r r' n w : distinct r r' → same_view r w (local_delete r' n w).1.2.
Proof.
  intros [_ Hd]. unfold local_delete. destruct (failing n); [done|].
  assert (chat_of r' = chat_of r → ∀ x, x ∈ names_of zone r' → x ∉ names_of zone r) as Hn by (intros E x Hx; by apply Hd).
  pose proof (same_purge (chat_of r) (names_of zone r) r' (files w) Hn) as (H1 & H2 & H3).
  assert (Purged (purgeOne zone r' false (files w)).2 = true → File (purgeOne zone r' false (files w)).2 ∈ names_of zone r') as Hin.
  { unfold purgeOne. case_bool_decide; [done|]. destruct (find_row _ _ _) eqn:Hf; [|done..]. destruct (file_removable _ _ _); [|done]. intros _. by apply found_row in Hf as [? _]. }
  destruct (purgeOne zone r' false (files w)) as [d' res]. cbn in *. split_and!; [done..|]. intros x Hx. split; [by apply H3|]. destruct (Purged res); [|done].
  cbn. rewrite lookup_delete_ne; [done|]. intros [= E E']. apply (Hn E (File res)); [by apply Hin|by rewrite E'].
Qed.

(** The directory's operations leave the bucket alone, the bucket's the directory. *)
Lemma local_remote : (∀ r n w, remote (local_lookup r n w).1.2 = remote w) ∧ (∀ r name n w, remote (local_open r name n w).1.2 = remote w) ∧
  (∀ r c n w, remote (local_write r c n w).1.2 = remote w) ∧ (∀ r n w, remote (local_delete r n w).1.2 = remote w).
Proof.
  assert (∀ r n w, (local_lookup r n w).1.2 = w) as Hl by done. split_and!.
  - done.
  - intros r name n w. unfold local_open, bind. destruct (String.eqb name ""); [|done]. unfold local_lookup. destruct (failing n); [done|]. by destruct (find_row _ _ _).
  - intros r c n w. unfold local_write. destruct (if failing n then _ else _); [|done]. cbn zeta. destruct (bool_decide _); [done|]. by destruct (writeMediaFile _ _ _ _ _ _) as [? [?|?]].
  - intros r n w. unfold local_delete. destruct (failing n); [done|]. by destruct (purgeOne _ _ _ _).
Qed.

Lemma keeps_remote {A} (m : MediaStorage.M world A) r h : (∀ n w, remote (m n w).1.2 = remote w) → Keeps (s3_holds r h) m.
Proof. intros Hm n w Hw. specialize (Hm n w). unfold s3_holds in *. destruct (m n w) as [[n' w'] [a|e]]; cbn in Hm; by rewrite Hm. Qed.

Lemma keeps_view {A} (m : MediaStorage.M world A) r h : (∀ n w, local_holds r h w → same_view r w (m n w).1.2) → Keeps (local_holds r h) m.
Proof. intros Hm n w Hw. specialize (Hm n w Hw). apply (view_holds _ h) in Hm; [|done]. by destruct (m n w) as [[n' w'] [a|e]]. Qed.

Lemma keeps_lift {A} (m : S3.M A) r h : S3.safe (kept (key_of r) h) m (λ _, kept (key_of r) h) (kept (key_of r) h) → Keeps (s3_holds r h) (lift m).
Proof. intros Hm n w Hw. specialize (Hm n (remote w) Hw). unfold lift, s3_holds in *. by destruct (m n (remote w)) as [[n' s'] [a|e]]. Qed.

Lemma lift_view {A} (m : S3.M A) r n w : same_view r w (lift m n w).1.2.
Proof. unfold lift. by destruct (m n (remote w)) as [[n' s'] [a|e]]. Qed.

Lemma write_after {A} (m : MediaStorage.M world A) (P : world → Prop) : Keeps P m → Keeps P (bind m (λ _, ret tt)).
Proof. intros Hm. by eapply triple_bind; [apply Hm|intros ?; apply triple_ret]. Qed.

(** ** The instances *)

#[global] Instance local_apart : Apart localMediaStorage s3_holds.
Proof. destruct local_remote as (H1 & H2 & H3 & H4). split; intros; apply keeps_remote; [apply H1|apply H2|apply H3|apply H4]. Qed.

#[global] Instance s3_apart : Apart s3MediaStorage local_holds.
Proof. split; intros; cbn [MediaStorage.Write s3MediaStorage]; try apply write_after; apply keeps_view; intros; apply lift_view. Qed.

#[global] Instance s3_laws : StorageLaws sha256 s3MediaStorage s3_holds distinct.
Proof.
  refine {| named := λ _ _ _, True |}.
  - intros r h h' w (H1 & _) (H2 & _). congruence.
  - intros. apply keeps_lift, hold_lookup.
  - intros. apply keeps_lift, hold_open.
  - intros r h r' c [Hk _]. apply write_after, keeps_lift, hold_put. congruence.
  - intros r h r' [Hk _]. apply keeps_lift, hold_delete. congruence.
  - intros dry r n w _. by destruct (MediaStorage.Lookup _ _ _ n w) as [[? ?] [[?|]|?]].
  - intros r h dry n w Hw. cbn. unfold lift, lookup_row. destruct (bool_decide _); [done|]. unfold S3.bind, S3.attempt. pose proof (kept_looked (key_of r) h dry n (remote w) Hw) as Hl.
    destruct (S3.reconciledReference _ _ _ _ n (remote w)) as [[n' s'] [x|e]]; [by eexists|by rewrite Hl].
  - done.
  - intros r name n w _. pose proof (open_found (key_of r) n (remote w) I) as Ho. cbn. unfold lift, s3_holds. by destruct (S3.Open _ _ _ _ _ _ n (remote w)) as [[? ?] [?|?]].
Defined.

#[global] Instance local_laws : StorageLaws sha256 localMediaStorage local_holds distinct.
Proof.
  assert (∀ (r : mediaRow) h r', Keeps (local_holds r h) (local_lookup r')) as HL by (intros; apply keeps_view; done).
  assert (∀ (r : mediaRow) h r' name, Keeps (local_holds r h) (local_open_name r' name)) as HO by (intros; apply keeps_view; done).
  assert (∀ r name n w, find_row zone (files w) r = Found name → match local_open_name r name n w with (_, w', Ok c) => local_holds r (sha256 c) w' | _ => True end) as HR.
  { intros r name n w Hf. unfold local_open_name. destruct (_ || _); [done|]. destruct (d_kind _); try done. destruct (d_opened _); [|done]. destruct (stat_in _ _); try done.
    destruct (data w !! _) as [c|] eqn:Hc; [|done]. by exists name, c. }
  refine {| named := λ r name w, name = "" ∨ find_row zone (files w) r = Found name |}.
  - intros r h h' w (name & c & Hf & Hc & <-) (name' & c' & Hf' & Hc' & <-). congruence.
  - intros r h dry r' name. cbn. unfold local_open. destruct (String.eqb name ""); [|exact (HO r h r' name)]. apply (triple_bind _ _ _ (λ _, local_holds r h)); [exact (HL r h r')|]. intros [x|]; [exact (HO r h r' x)|by apply triple_raise].
  - intros r h r' c Hd. apply keeps_view. intros n w Hw. by eapply write_view.
  - intros r h r' Hd. apply keeps_view. intros n w Hw. by apply delete_view.
  - intros dry r n w _. cbn. unfold local_lookup. destruct (failing n); [done|]. destruct (find_row _ _ _) eqn:Hf; [by right|done..].
  - intros r h dry n w (name & c & Hf & _). cbn. unfold local_lookup. destruct (failing n); [done|]. by rewrite Hf.
  - by left.
  - intros r name n w Hn. cbn. unfold local_open. destruct (String.eqb_spec name "") as [->|Hne].
    + unfold bind, local_lookup. destruct (failing n); [done|]. destruct (find_row _ _ _) eqn:Hf; [|done..]. pose proof (HR r name (S n) w Hf) as H. by destruct (local_open_name _ _ _ _) as [[? ?] [?|?]].
    + destruct Hn as [->|Hf]; [done|]. pose proof (HR r name n w Hf) as H. by destruct (local_open_name _ _ _ _) as [[? ?] [?|?]].
Defined.

(** ** [migrateMedia] over the rows the scan hands out, one after the other; the walk that
    then counts the files without a message is left out *)

Definition file_sha256 (row : mediaRow) (w : world) : option string := S3.m_sha <$> S3.messages (remote w) !! key_of row.

Definition migrateMedia (to_s3 dry remove : bool) (rows : list mediaRow) (n : nat) (w : world) : nat * world * mediaMigrationResult :=
  let local := localMediaStorage in let s3 := s3MediaStorage in
  migrate_rows sha256 failing file_sha256 (if to_s3 then local else s3) (if to_s3 then s3 else local) to_s3 dry remove rows [] no_result n w.

Definition source_holds (to_s3 : bool) : mediaRow → string → world → Prop := if to_s3 then local_holds else s3_holds.
Definition destination_holds (to_s3 : bool) : mediaRow → string → world → Prop := if to_s3 then s3_holds else local_holds.
End Stores.

(** [C13] A migration loses nothing.  Whatever fails on the way (a read, a copy, a statement,
    a request whose answer was lost) and in either direction, every row whose media the
    source held has them afterwards in the source or in the destination, and still in the
    source unless sources were to be removed in a real run; what either store holds for a
    message that is not in the run stays; every row is counted once, as migrated, skipped
    or failed; and a real run that reports neither a failure nor an unreadable file left the
    media of every row in the destination, under their hash.  The other workers of the run
    may do anything in between that keeps what is held. *)
Theorem migration_keeps_media (sha256 : string → string) (env : nat → S3.fault) (others : nat → S3.state → S3.state) (now : Z) (zone : Z → Z) (faults : nat → fs_faults)
    (to_s3 dry remove : bool) (rows : list mediaRow) (n : nat) (w : world)
    (Hothers : ∀ n s k h, kept sha256 k h s → kept sha256 k h (others n s)) (Hap : rows_apart (distinct := distinct zone) rows) :
  let src := source_holds sha256 zone to_s3 in let dst := destination_holds sha256 zone to_s3 in
  let '(_, w', m) := migrateMedia sha256 env others now zone faults to_s3 dry remove rows n w in
  (∀ r h, r ∈ rows → src r h w → (src r h w' ∨ dst r h w') ∧ (remove && negb dry = false → src r h w')) ∧
  (∀ r h, Forall (distinct zone r) rows → (src r h w → src r h w') ∧ (dst r h w → dst r h w')) ∧
  (Files m + Skipped m + Failed m = length rows)%nat ∧
  (dry = false → Failed m = 0%nat → SkipReasons m !! "unsafe_or_unreadable" = None → ∀ r h, r ∈ rows → src r h w → dst r h w').
Proof.
  pose proof (local_apart sha256 env now zone faults) as LA. pose proof (s3_apart sha256 env others now zone Hothers) as SA.
  pose proof (local_laws sha256 env others now zone faults Hothers) as LL. pose proof (s3_laws sha256 env others now zone Hothers) as SL.
  unfold migrateMedia. set (src := if to_s3 then _ else _). set (dst := if to_s3 then s3MediaStorage _ _ _ _ _ else _).
  assert (StorageLaws sha256 src (source_holds sha256 zone to_s3) (distinct zone)) as L1 by (destruct to_s3; assumption).
  assert (StorageLaws sha256 dst (destination_holds sha256 zone to_s3) (distinct zone)) as L2 by (destruct to_s3; assumption).
  assert (Apart src (destination_holds sha256 zone to_s3)) as A1 by (destruct to_s3; assumption).
  assert (Apart dst (source_holds sha256 zone to_s3)) as A2 by (destruct to_s3; assumption).
  pose proof (λ r h, run_keeps sha256 (failing env) file_sha256 src dst to_s3 dry remove rows Hap [] no_result n w r h) as K1.
  pose proof (λ r h H, rows_keep sha256 (failing env) file_sha256 src dst to_s3 dry remove r h rows H [] no_result n w) as K2.
  pose proof (run_accounts sha256 (failing env) file_sha256 src dst to_s3 dry remove rows [] no_result n w) as K3.
  pose proof (λ Hd r h, run_completes sha256 (failing env) file_sha256 src dst to_s3 dry remove rows Hap Hd [] no_result n w r h) as K4.
  destruct (migrate_rows _ _ _ _ _ _ _ _ _ _ _ _ _) as [[n' w'] m]. split_and!; [exact K1|exact K2|exact K3|]. intros Hd Hf Hs r h Hr Hh. by apply K4.
Qed.

(** ** Two messages with the same photo, moved to the bucket *)
Module Sample.
Definition first_row : mediaRow := {| ID := "A"; ChatJID := "5511@s.whatsapp.net"; MediaType := "image"; Timestamp := 0; Filename := "" |}.
Definition second_row : mediaRow := {| ID := "B"; ChatJID := "5522@s.whatsapp.net"; MediaType := "image"; Timestamp := 0; Filename := "" |}.
Definition utc (t : Z) : Z := t.
Definition photo_file : file := {| kind := RegularFile; size := 4; mtime := 0; removable := true |}.
Definition dir_with (row : mediaRow) : chat_dir := {| d_kind := Directory; d_opened := true; entries := {[ name_of utc row := photo_file ]} |}.
Definition column : S3.message_columns := {| S3.m_sha := ""; S3.m_kind := "image"; S3.m_time := 0; S3.m_filename := "" |}.
Definition start : world := {|
  remote := {| S3.bucket := ∅; S3.catalog := ∅; S3.refs := ∅; S3.deletions := ∅; S3.uploads := ∅; S3.messages := <[key_of first_row := column]> {[ key_of second_row := column ]} |};
  files := <[chat_of first_row := dir_with first_row]> {[ chat_of second_row := dir_with second_row ]};
  data := <[(chat_of first_row, name_of utc first_row) := S3.Sample.photo]> {[ (chat_of second_row, name_of utc second_row) := S3.Sample.photo ]} |}.
Definition hash : string := S3.Sample.digest S3.Sample.photo.
Definition steady (n : nat) : fs_faults := {| remove_ok := true; create_ok := true; close_ok := true; rename_ok := true; size_ok := true |}.
Definition moved : nat * world * mediaMigrationResult :=
  migrateMedia S3.Sample.digest S3.Sample.calm S3.Sample.undisturbed 200 utc steady true false true [first_row; second_row] 0 start.

Lemma apart_sample : rows_apart (distinct := distinct utc) [first_row; second_row].
Proof. cbn. split_and!; [|done|done]. repeat constructor; try done. Qed.

Lemma migration_keeps_media_witness :
  Failed moved.2 = 0%nat ∧ Files moved.2 = 2%nat ∧ DedupeSavedBytes moved.2 = 4 ∧ local_holds S3.Sample.digest utc second_row hash start ∧
  s3_holds S3.Sample.digest first_row hash moved.1.2 ∧ s3_holds S3.Sample.digest second_row hash moved.1.2.
Proof.
  assert (∀ n s k h, kept S3.Sample.digest k h s → kept S3.Sample.digest k h (S3.Sample.undisturbed n s)) as Hot by done.
  assert (local_holds S3.Sample.digest utc first_row hash start) as H1 by (exists (name_of utc first_row), S3.Sample.photo; split_and!; vm_compute; reflexivity).
  assert (local_holds S3.Sample.digest utc second_row hash start) as H2 by (exists (name_of utc second_row), S3.Sample.photo; split_and!; vm_compute; reflexivity).
  pose proof (migration_keeps_media S3.Sample.digest S3.Sample.calm S3.Sample.undisturbed 200 utc steady true false true [first_row; second_row] 0 start Hot apart_sample) as H.
  assert (Failed moved.2 = 0%nat) as F0 by (vm_compute; reflexivity). assert (SkipReasons moved.2 !! "unsafe_or_unreadable" = None) as F1 by (vm_compute; reflexivity).
  split_and!; [done|vm_compute; reflexivity|vm_compute; reflexivity|done|..]; unfold moved in *;
    destruct (migrateMedia _ _ _ _ _ _ _ _ _ _ _ _) as [[n' w'] m]; destruct H as (_ & _ & _ & H); apply (H eq_refl F0 F1); [by left|done|by right; left|done].
Defined.
End Sample.
