(* ===== verification/OperatorChats.v ===== *)
(** * The operator's chat search ([operator_chats.go])

    The handler reads the candidates newest first, drops those that can never match
    while it scans, resolves names page by page and stops at the limit.  The folding of
    letters and the JID parser are libraries and arguments; stored times are seconds as
    in [Archive]. *)
From S2P Require Import Prelude Jid Http Config ChatPolicy Archive Outbound ChatNames.
#[local] Open Scope Z_scope.

(** ** The rows *)

(** [operatorChat]. *)
Record operatorChat := { c_JID : string; c_Name : string; IsGroup : bool; LastMessageTime : option Z; phone : string }.

(** [ORDER BY last_message_time DESC, jid ASC]; NULL is the smallest. *)
Definition newest_first (a b : string * Chats.chat_row) : Prop :=
  match Chats.last_message_time a.2, Chats.last_message_time b.2 with
  | Some x, Some y => y < x ∨ x = y ∧ string_le a.1 b.1
  | Some _, None => True
  | None, Some _ => False
  | None, None => string_le a.1 b.1
  end.

#[export] Instance newest_first_dec : RelDecision newest_first.
Proof. intros a b. unfold newest_first. destruct (Chats.last_message_time a.2), (Chats.last_message_time b.2); apply _. Defined.

Definition ordered (t : Chats.chats) : list (string * Chats.chat_row) := merge_sort newest_first (map_to_list t).

Section Search.
Context `{JidOps} (fold : string → string) (parse : string → JID).

(** [strings.Cut(jid, "@")]. *)
Definition user_of (jid : string) : string := match cut_first "@" jid with Some (u, _) => u | None => jid end.
Definition server_of (jid : string) : string := match cut_first "@" jid with Some (_, s) => s | None => "" end.
Definition direct (jid : string) : bool := String.eqb (server_of jid) "s.whatsapp.net" || String.eqb (server_of jid) "lid".

(** A row as it is shown before any contact was read. *)
Definition archived_name (jid : string) (r : Chats.chat_row) : string :=
  let name := trim_space (default "" (Chats.name r)) in if String.eqb name "" then user_of jid else name.

Definition of_row (kr : string * Chats.chat_row) : operatorChat :=
  {| c_JID := kr.1; c_Name := archived_name kr.1 kr.2; IsGroup := Chats.has_suffix "@g.us" kr.1; LastMessageTime := Chats.last_message_time kr.2; phone := "" |}.

(** Rows that can never match are skipped. *)
Definition candidate (query : string) (c : operatorChat) : bool :=
  String.eqb query "" || direct (c_JID c) || contains_string query (fold (c_Name c)).

(** [operatorChatRows]; no limit reads every row. *)
Fixpoint scan_rows (deploy : chatPolicy) (query : string) (maxRows : option nat) (rows : list (string * Chats.chat_row)) (chats : list operatorChat) : list operatorChat :=
  match rows with
  | [] => chats
  | kr :: rows =>
      if negb (Allows deploy kr.1) then scan_rows deploy query maxRows rows chats
      else
        let chat := of_row kr in
        if negb (candidate query chat) then scan_rows deploy query maxRows rows chats
        else
          let chats := chats ++ [chat] in
          if bool_decide (maxRows = Some (length chats)) then chats else scan_rows deploy query maxRows rows chats
  end.

Definition operatorChatRows (deploy : chatPolicy) (query : string) (maxRows : option nat) (t : Chats.chats) : list operatorChat :=
  scan_rows deploy query maxRows (ordered t) [].

(** ** Matching *)

Definition digits_match (digits alternate p : string) : bool :=
  negb (String.eqb p "") && (contains_string digits p || negb (String.eqb alternate "") && contains_string alternate p).

(** [operatorChatMatches]. *)
Definition operatorChatMatches (query digits : string) (chat : operatorChat) : bool :=
  if contains_string query (fold (c_Name chat)) then true
  else if String.eqb digits "" || String.eqb (phone chat) "" then false
  else existsb (digits_match digits (brMobileAlternate digits)) [phone chat; brMobileAlternate (phone chat)].

(** ** Names *)

Context (src : contact_sources).

(** The chats of a page whose name may only stand in for one, or whose number is asked. *)
Definition asks (digits : string) (chat : operatorChat) : bool :=
  String.eqb (trim_space (c_Name chat)) "" || negb (String.eqb (localPhoneDigits (c_Name chat)) "") || negb (String.eqb digits "") && Chats.has_suffix "@lid" (c_JID chat).

Definition identity_of (chat : operatorChat) : string * string * bool := (c_JID chat, c_Name chat, false).

Definition named_in (names : list localContactIdentity) (chat : operatorChat) : operatorChat :=
  let jid := ToNonAD (parse (c_JID chat)) in
  let own := if String.eqb (Server jid) DefaultUserServer then User jid else phone chat in
  match List.find (λ i, String.eqb (original i) (c_JID chat)) names with
  | Some contact =>
      {| c_JID := c_JID chat; c_Name := if resolved contact then ContactName contact else c_Name chat; IsGroup := IsGroup chat; LastMessageTime := LastMessageTime chat;
         phone := if String.eqb (contact_phone contact) "" then own else contact_phone contact |}
  | None => {| c_JID := c_JID chat; c_Name := c_Name chat; IsGroup := IsGroup chat; LastMessageTime := LastMessageTime chat; phone := own |}
  end.

Definition resolve_batch (digits : string) (batch : list operatorChat) : list operatorChat :=
  named_in (resolveLocalContactNames parse src [] (identity_of <$> filter (λ c, asks digits c = true) batch)) <$> batch.

(** ** The handler *)

Definition wanted (query digits : string) (chat : operatorChat) : bool := String.eqb query "" || operatorChatMatches query digits chat.

(** The matches of one page, up to the limit. *)
Fixpoint collect (query digits : string) (limit : nat) (batch chats : list operatorChat) : list operatorChat :=
  match batch with
  | [] => chats
  | chat :: batch =>
      if negb (wanted query digits chat) then collect query digits limit batch chats
      else
        let chats := chats ++ [chat] in
        if Nat.eqb (length chats) limit then chats else collect query digits limit batch chats
  end.

Fixpoint search_pages (fuel : nat) (query digits : string) (limit page : nat) (candidates chats : list operatorChat) : list operatorChat :=
  match fuel with
  | O => chats
  | S fuel =>
      if bool_decide (candidates = []) || Nat.leb limit (length chats) then chats
      else search_pages fuel query digits limit page (drop page candidates) (collect query digits limit (resolve_batch digits (take page candidates)) chats)
  end.

Definition parse_limit (values : option (list string)) : result Http.reply nat :=
  let refused := Err (Http.writeError 400 "limit must be 1-50") in
  match values with
  | None => Ok 20%nat
  | Some [v] => match Atoi v with Some n => if (n <? 1) || (50 <? n) then refused else Ok (Z.to_nat n) | None => refused end
  | Some _ => refused
  end.

(** [readable]: the archive answered; [expired]: the deadline passed before the end. *)
Definition handleOperatorChats (limits : option (list string)) (q : string) (deploy : chatPolicy) (store : option Chats.chats) (readable expired : bool) :
    result Http.reply (list operatorChat) :=
  let unavailable := Err (Http.writeError 503 "Chat archive unavailable") in
  match parse_limit limits with
  | Err e => Err e
  | Ok limit =>
      match store with
      | None => unavailable
      | Some t =>
          let query := fold (trim_space q) in
          let digits := localPhoneDigits query in
          let '(page, maxRows) := if String.eqb query "" then (limit, Some limit) else (256%nat, None) in
          if negb readable then unavailable
          else
            let candidates := operatorChatRows deploy query maxRows t in
            let chats := search_pages (S (length candidates)) query digits limit page candidates [] in
            if expired then unavailable else Ok chats
      end
  end.

(** ** The reference: every chat the deployment allows, resolved by itself *)

Definition resolve_one (digits : string) (chat : operatorChat) : operatorChat :=
  named_in (resolveLocalContactNames parse src [] (if asks digits chat then [identity_of chat] else [])) chat.

Definition visible (deploy : chatPolicy) (t : Chats.chats) : list operatorChat := of_row <$> filter (λ kr, Allows deploy kr.1 = true) (ordered t).

Definition search (limit : nat) (query : string) (deploy : chatPolicy) (t : Chats.chats) : list operatorChat :=
  let digits := localPhoneDigits query in
  take limit (filter (λ c, wanted query digits c = true) (resolve_one digits <$> visible deploy t)).

End Search.

(** ** Lemmas *)

#[export] Instance newest_first_total : Total newest_first.
Proof.
  intros [a x] [b y]. unfold newest_first. cbn. pose proof (string_leb_total a b). destruct (Chats.last_message_time x), (Chats.last_message_time y); auto.
  destruct (Z.lt_trichotomy z z0) as [?|[-> |?]]; unfold string_le; [right; lia|naive_solver|left; lia].
Qed.

Section Proofs.
Context `{JidOps} (fold : string → string) (parse : string → JID) (src : contact_sources).

Lemma take_filtered {A} (f : A → bool) n x (l acc : list A) : (length acc < n)%nat → f x = true →
  acc ++ take (n - length acc) (filter (λ x, f x = true) (x :: l)) = (acc ++ [x]) ++ take (n - length (acc ++ [x])) (filter (λ x, f x = true) l).
Proof. intros Hn Hf. rewrite filter_cons_True by done. rewrite length_app. cbn [length]. replace (n - length acc)%nat with (S (n - (length acc + 1)))%nat by lia. cbn. by rewrite <-app_assoc. Qed.

Lemma scan_rows_all deploy query rows acc :
  scan_rows fold deploy query None rows acc = acc ++ filter (λ c, candidate fold query c = true) (of_row <$> filter (λ kr, Allows deploy kr.1 = true) rows).
Proof.
  revert acc. induction rows as [|kr rows IH]; intros acc; cbn [scan_rows]; [by rewrite app_nil_r|]. destruct (Allows deploy kr.1) eqn:Ha; cbn [negb].
  - rewrite filter_cons_True by done. rewrite fmap_cons. destruct (candidate fold query (of_row kr)) eqn:Hc; cbn [negb].
    + rewrite bool_decide_false by done. rewrite IH, filter_cons_True by done. by rewrite <-app_assoc.
    + rewrite filter_cons_False by (by rewrite Hc). apply IH.
  - rewrite filter_cons_False by (by rewrite Ha). apply IH.
Qed.

Lemma scan_rows_first deploy limit rows acc : (length acc < limit)%nat →
  scan_rows fold deploy "" (Some limit) rows acc = acc ++ take (limit - length acc) (of_row <$> filter (λ kr, Allows deploy kr.1 = true) rows).
Proof.
  revert acc. induction rows as [|kr rows IH]; intros acc Hl; cbn [scan_rows]; [cbn; by rewrite take_nil, app_nil_r|]. destruct (Allows deploy kr.1) eqn:Ha; cbn [negb].
  - rewrite filter_cons_True by done. rewrite fmap_cons. replace (limit - length acc)%nat with (S (limit - (length acc + 1)))%nat by lia. cbn [firstn].
    change (candidate fold "" (of_row kr)) with true. cbn [negb]. assert (length (acc ++ [of_row kr]) = length acc + 1)%nat as Hlen by (by rewrite length_app).
    case_bool_decide as E.
    + injection E as E. replace (limit - (length acc + 1))%nat with 0%nat by lia. done.
    + rewrite IH, Hlen; [by rewrite <-app_assoc|]. assert (limit ≠ length (acc ++ [of_row kr])) by congruence. lia.
  - rewrite filter_cons_False by (by rewrite Ha). by apply IH.
Qed.

Lemma collect_spec query digits limit batch chats : (length chats < limit)%nat →
  collect fold query digits limit batch chats = chats ++ take (limit - length chats) (filter (λ c, wanted fold query digits c = true) batch).
Proof.
  revert chats. induction batch as [|c batch IH]; intros chats Hl; cbn [collect]; [cbn; by rewrite take_nil, app_nil_r|]. destruct (wanted fold query digits c) eqn:Hw; cbn [negb].
  - rewrite take_filtered by done. destruct (Nat.eqb_spec (length (chats ++ [c])) limit) as [E|E]; [rewrite E, Nat.sub_diag; cbn [firstn]; by rewrite app_nil_r|].
    apply IH. rewrite length_app in *. cbn [length] in *. lia.
  - rewrite filter_cons_False by (by rewrite Hw). by apply IH.
Qed.

Lemma filter_none {A} (P : A → Prop) `{∀ x, Decision (P x)} l : (∀ x, x ∈ l → ¬ P x) → filter P l = [].
Proof. induction l as [|x l IH]; intros Hl; [done|]. rewrite filter_cons_False by (apply Hl; by left). apply IH. intros y Hy. apply Hl. by right. Qed.

Lemma nodup_filter {A B} (f : A → B) (P : A → Prop) `{∀ x, Decision (P x)} l : NoDup (f <$> l) → NoDup (f <$> filter P l).
Proof.
  induction l as [|x l IH]; [done|]. rewrite fmap_cons, filter_cons. intros [Hx Hn]%NoDup_cons. destruct (decide _); [|by apply IH].
  rewrite fmap_cons. apply NoDup_cons. split; [|by apply IH]. intros (y & E & [_ Hy]%list_elem_of_filter)%list_elem_of_fmap. apply Hx. rewrite E. by apply list_elem_of_fmap_2.
Qed.

(** What is found for one JID does not depend on the rest of the page. *)
Lemma original_kept i : original (with_sdk src (readLocalContactName src i)) = original i.
Proof. unfold with_sdk. destruct (sdk_contact _ _) as [[[[? ?] ?] ?]|]; [|done]. destruct (negb _); [done|]. by destruct (String.eqb _ ""). Qed.

Lemma resolved_from seen ids i : i ∈ resolveLocalContactNames parse src seen ids → original i ∈ ids.*1.*1.
Proof.
  revert seen. induction ids as [|[[jid name] force] ids IH]; intros seen; cbn [resolveLocalContactNames]; [by intros ?%elem_of_nil|]. rewrite !fmap_cons. cbn [fst].
  destruct (_ || _); [intros Hi; right; by eapply IH|]. intros [-> |Hi]%elem_of_cons; [rewrite original_kept; by left|right; by eapply IH].
Qed.

Lemma find_none jid seen ids : jid ∉ ids.*1.*1 → List.find (λ i, String.eqb (original i) jid) (resolveLocalContactNames parse src seen ids) = None.
Proof.
  intros Hn. destruct (List.find _ _) as [i|] eqn:Hf; [|done]. apply List.find_some in Hf as [Hi E]. apply String.eqb_eq in E. exfalso. apply Hn. rewrite <-E. eapply resolved_from. by apply list_elem_of_In.
Qed.

Lemma find_alone jid seen ids : NoDup ids.*1.*1 → (∀ x, x ∈ ids.*1.*1 → x ∉ seen) →
  List.find (λ i, String.eqb (original i) jid) (resolveLocalContactNames parse src seen ids) =
  List.find (λ i, String.eqb (original i) jid) (resolveLocalContactNames parse src [] (filter (λ x, x.1.1 = jid) ids)).
Proof.
  revert seen. induction ids as [|[[j name] force] ids IH]; intros seen Hnd Hseen; [done|]. rewrite !fmap_cons in Hnd. cbn [fst] in Hnd. apply NoDup_cons in Hnd as [Hj Hnd].
  cbn [resolveLocalContactNames]. rewrite bool_decide_false by (apply Hseen; rewrite !fmap_cons; by left). cbn [orb].
  assert (∀ x, x ∈ ids.*1.*1 → x ∉ seen) as Hs1 by (intros x Hx; apply Hseen; rewrite !fmap_cons; by right).
  assert (∀ x, x ∈ ids.*1.*1 → x ∉ j :: seen) as Hs2 by (intros x Hx [-> |?]%elem_of_cons; [done|by apply (Hs1 x)]).
  destruct (decide (j = jid)) as [->|Hne].
  - rewrite filter_cons_True by done. assert (filter (λ x : string * string * bool, x.1.1 = jid) ids = []) as Hf.
    { apply filter_none. intros x Hx E. apply Hj. rewrite <-E. by apply list_elem_of_fmap_2, list_elem_of_fmap_2. }
    rewrite Hf. cbn [resolveLocalContactNames]. rewrite bool_decide_false by (by intros ?%elem_of_nil). cbn [orb].
    destruct (negb _); [by apply find_none|]. cbn. rewrite original_kept. cbn. by rewrite String.eqb_refl.
  - rewrite filter_cons_False by done. destruct (negb _); [by apply IH|]. cbn [List.find]. rewrite original_kept. cbn [original prepare]. rewrite (proj2 (String.eqb_neq _ _)) by done. by apply IH.
Qed.

Lemma resolve_batch_one digits batch : NoDup (c_JID <$> batch) → resolve_batch parse src digits batch = resolve_one parse src digits <$> batch.
Proof.
  intros Hnd. unfold resolve_batch. apply list_fmap_ext. intros k c Hk. apply list_elem_of_lookup_2 in Hk. unfold resolve_one, named_in.
  set (ids := identity_of <$> _). assert (ids.*1.*1 = c_JID <$> filter (λ c, asks digits c = true) batch) as Hids by (unfold ids; rewrite <-!list_fmap_compose; done).
  assert (NoDup ids.*1.*1) as Hn by (rewrite Hids; by apply nodup_filter).
  rewrite find_alone by (done || set_solver).
  assert (filter (λ x : string * string * bool, x.1.1 = c_JID c) ids = if asks digits c then [identity_of c] else []) as ->; [|done].
  unfold ids. clear Hids Hn ids. induction batch as [|x batch IH]; [by apply elem_of_nil in Hk|]. rewrite fmap_cons in Hnd. apply NoDup_cons in Hnd as [Hx Hnd].
  apply elem_of_cons in Hk as [->|Hk].
  - assert (filter (λ y : string * string * bool, y.1.1 = c_JID x) (identity_of <$> filter (λ c, asks digits c = true) batch) = []) as Hf.
    { apply filter_none. intros y (c & -> & [_ Hc]%list_elem_of_filter)%list_elem_of_fmap E. apply Hx. cbn in E. rewrite <-E. by apply list_elem_of_fmap_2. }
    rewrite filter_cons. destruct (decide (asks digits x = true)) as [E|E]; [rewrite E, fmap_cons, filter_cons_True, Hf by done; done|]. apply not_true_is_false in E. by rewrite E, Hf.
  - assert (c_JID x ≠ c_JID c) as Hne by (intros E; apply Hx; rewrite E; by apply list_elem_of_fmap_2).
    rewrite filter_cons. destruct (decide _); [rewrite fmap_cons, filter_cons_False by done|]; by apply IH.
Qed.

Lemma search_pages_spec fuel query digits limit page candidates chats : (length candidates < fuel)%nat → (1 ≤ page)%nat → (length chats ≤ limit)%nat → NoDup (c_JID <$> candidates) →
  search_pages fold parse src fuel query digits limit page candidates chats =
  chats ++ take (limit - length chats) (filter (λ c, wanted fold query digits c = true) (resolve_one parse src digits <$> candidates)).
Proof.
  revert candidates chats. induction fuel as [|fuel IH]; intros candidates chats Hf Hp Hl Hnd; [lia|]. cbn [search_pages].
  destruct (decide (candidates = [])) as [->|Hne]; [rewrite bool_decide_true by done; cbn; by rewrite take_nil, app_nil_r|]. rewrite bool_decide_false by done. cbn [orb].
  destruct (Nat.leb_spec limit (length chats)) as [E|E]; [replace (limit - length chats)%nat with 0%nat by lia; by rewrite app_nil_r|].
  rewrite <-(take_drop page candidates) in Hnd. rewrite fmap_app in Hnd. apply NoDup_app in Hnd as (Hn1 & _ & Hn2). rewrite resolve_batch_one, collect_spec by done.
  set (ms := filter _ (resolve_one parse src digits <$> take page candidates)). rewrite IH; [|rewrite length_drop; destruct candidates; cbn [length] in *; [done|lia]|done| |done].
  - rewrite <-app_assoc. f_equal. assert (filter (λ c, wanted fold query digits c = true) (resolve_one parse src digits <$> candidates) =
      ms ++ filter (λ c, wanted fold query digits c = true) (resolve_one parse src digits <$> drop page candidates)) as -> by (unfold ms; by rewrite <-filter_app, <-fmap_app, take_drop).
    rewrite take_app, length_app, length_take. f_equal. f_equal. lia.
  - rewrite length_app, length_take. lia.
Qed.

(** A row that was skipped would not have matched. *)
Lemma skipped_unwanted query kr : is_direct_server (ToNonAD (parse kr.1)) = false ∨ direct kr.1 = true → candidate fold query (of_row kr) = false →
  wanted fold query (localPhoneDigits query) (resolve_one parse src (localPhoneDigits query) (of_row kr)) = false.
Proof.
  intros Hd Hc. unfold candidate in Hc. apply orb_false_iff in Hc as [Hc Hn]. apply orb_false_iff in Hc as [Hq Hdir]. cbn [c_JID of_row] in Hdir. destruct Hd as [Hd|Hd]; [|congruence].
  unfold wanted, resolve_one. rewrite Hq. cbn [orb]. set (names := resolveLocalContactNames _ _ _ _).
  assert (names = []) as ->. { unfold names. destruct (asks _ _); [|done]. cbn. unfold prepare. cbn. by rewrite Hd. }
  unfold is_direct_server in Hd. apply orb_false_iff in Hd as [Hd _]. unfold named_in, operatorChatMatches. cbn [List.find c_Name phone c_JID of_row]. rewrite Hd.
  cbn [c_Name of_row] in Hn. rewrite Hn. cbn [phone of_row]. by rewrite orb_true_r.
Qed.

Lemma candidates_enough query (l : list (string * Chats.chat_row)) : (∀ kr, kr ∈ l → is_direct_server (ToNonAD (parse kr.1)) = true → direct kr.1 = true) →
  let digits := localPhoneDigits query in
  filter (λ c, wanted fold query digits c = true) (resolve_one parse src digits <$> filter (λ c, candidate fold query c = true) (of_row <$> l)) =
  filter (λ c, wanted fold query digits c = true) (resolve_one parse src digits <$> (of_row <$> l)).
Proof.
  intros Hl digits. induction l as [|kr l IH]; [done|]. assert (∀ kr, kr ∈ l → is_direct_server (ToNonAD (parse kr.1)) = true → direct kr.1 = true) as Hl' by (intros x Hx; apply Hl; by right).
  rewrite !fmap_cons. destruct (candidate fold query (of_row kr)) eqn:Hc.
  - rewrite (filter_cons_True _ (of_row kr)) by done. rewrite fmap_cons, !(filter_cons _ (resolve_one _ _ _ _)). by rewrite IH.
  - rewrite (filter_cons_False _ (of_row kr)) by (by rewrite Hc). rewrite (filter_cons_False _ (resolve_one _ _ _ _)); [by apply IH|]. unfold digits. rewrite skipped_unwanted; [done| |done].
    destruct (is_direct_server (ToNonAD (parse kr.1))) eqn:E; [right|by left]. apply Hl; [by left|done].
Qed.

Lemma visible_nodup deploy t : NoDup (c_JID <$> visible deploy t).
Proof.
  unfold visible. rewrite <-list_fmap_compose. apply (nodup_filter fst). unfold ordered. rewrite merge_sort_Permutation. apply NoDup_fst_map_to_list.
Qed.
End Proofs.

(** [C23] The search is the plain one.  Skipping rows during the scan, reading only a page's
    worth of rows without a query, resolving names page by page and stopping early change
    nothing: the answer is the first [limit] matches, newest first, among all chats of the
    archive the deployment allows, each resolved by itself; so no chat outside the
    deployment's list is ever shown, and no more than asked for.  Archived JIDs are taken
    apart by the parser as by their first "@". *)
Theorem search_equivalent `{JidOps} (fold : string → string) (parse : string → JID) (src : contact_sources) (limits : option (list string)) (q : string) (deploy : chatPolicy)
    (t : Chats.chats) (limit : nat) (Hlimit : parse_limit limits = Ok limit)
    (Hparse : ∀ jid r, t !! jid = Some r → is_direct_server (ToNonAD (parse jid)) = true → direct jid = true) :
  let answer := handleOperatorChats fold parse src limits q deploy (Some t) true false in
  answer = Ok (search fold parse src limit (fold (trim_space q)) deploy t) ∧ Sorted newest_first (ordered t) ∧
  ∀ chats, answer = Ok chats → (length chats ≤ limit ≤ 50)%nat ∧ ∀ c, c ∈ chats → Allows deploy (c_JID c) = true ∧ is_Some (t !! c_JID c).
Proof.
  assert (1 ≤ limit ≤ 50)%nat as Hrange.
  { revert Hlimit. unfold parse_limit. destruct limits as [[|v [|]]|]; try done; [|intros [= <-]; lia]. destruct (Atoi v) as [n|]; [|done]. destruct ((n <? 1) || (50 <? n)) eqn:E; [done|]. intros [= <-]. lia. }
  assert (handleOperatorChats fold parse src limits q deploy (Some t) true false = Ok (search fold parse src limit (fold (trim_space q)) deploy t)) as Hans.
  { unfold handleOperatorChats. rewrite Hlimit. set (query := fold (trim_space q)). unfold search, operatorChatRows. destruct (String.eqb_spec query "") as [->|Hq]; cbn [negb].
    - rewrite scan_rows_first by (cbn; lia). cbn [app length]. rewrite Nat.sub_0_r. fold (visible deploy t).
      rewrite search_pages_spec; [|lia|lia|cbn; lia|rewrite fmap_take; eapply sublist_NoDup; [apply (visible_nodup deploy t)|apply sublist_take]]. cbn [app length]. rewrite Nat.sub_0_r.
      assert (∀ l : list operatorChat, filter (λ c, wanted fold "" (localPhoneDigits "") c = true) l = l) as Hall by (intros l; induction l as [|c l IH]; [done|]; rewrite filter_cons_True by done; by rewrite IH).
      rewrite !Hall, fmap_take, take_take. by rewrite Nat.min_id.
    - rewrite scan_rows_all. cbn [app]. rewrite search_pages_spec; [|lia|lia|cbn; lia|apply nodup_filter; apply (visible_nodup deploy t)]. cbn [app length]. rewrite Nat.sub_0_r. f_equal. f_equal.
      apply candidates_enough. intros [jid r] [_ Hin]%list_elem_of_filter. unfold ordered in Hin. rewrite merge_sort_Permutation in Hin. apply elem_of_map_to_list in Hin. by eapply Hparse. }
  split_and!; [done|apply Sorted_merge_sort, newest_first_total|]. intros chats Hc. rewrite Hans in Hc. injection Hc as <-. unfold search. split; [rewrite length_take; lia|].
  intros c Hc. apply elem_of_take in Hc as (i & Hc & _). apply list_elem_of_lookup_2, list_elem_of_filter in Hc as [_ (c0 & -> & Hc0)%list_elem_of_fmap].
  assert (c_JID (resolve_one parse src (localPhoneDigits (fold (trim_space q))) c0) = c_JID c0) as -> by (unfold resolve_one, named_in; by destruct (List.find _ _)).
  apply list_elem_of_fmap in Hc0 as ([jid r] & -> & [Ha Hin]%list_elem_of_filter). split; [done|]. unfold ordered in Hin. rewrite merge_sort_Permutation in Hin. apply elem_of_map_to_list in Hin. by eexists.
Qed.

(** ** Three chats *)
Module Sample.
#[local] Existing Instance RefJid.ops.

Definition parse (s : string) : RefJid.t := {| RefJid.ref_user := user_of s; RefJid.ref_device := ""; RefJid.ref_server := server_of s |}.
Definition book : contact_sources := {|
  lid_map := λ _, None; sql_contact := λ s, if String.eqb s "5511987654321@s.whatsapp.net" then ["Ana Souza"] else []; sdk_contact := λ _, None |}.
Definition row (name : string) (at_ : Z) : Chats.chat_row := {| Chats.name := Some name; Chats.last_message_time := Some at_; Chats.last_read_time := None;
  Chats.ephemeral_expiration := 0; Chats.ephemeral_setting_timestamp := 0 |}.
Definition archive : Chats.chats :=
  <["5511987654321@s.whatsapp.net" := row "" 30]> (<["120@g.us" := row "Banana bread" 20]> {["5522@s.whatsapp.net" := row "Bob" 10]}).
Definition everyone : chatPolicy := {| ChatPolicy.source := ""; restricted := false; exact := ∅; servers := ∅; invalidPositions := [] |}.

Lemma search_equivalent_witness :
  c_Name <$> search to_lower parse book 20 "ana" everyone archive = ["Ana Souza"; "Banana bread"] ∧
  handleOperatorChats to_lower parse book None " ANA " everyone (Some archive) true false = Ok (search to_lower parse book 20 "ana" everyone archive).
Proof.
  split; [vm_compute; reflexivity|]. refine (proj1 (search_equivalent to_lower parse book None " ANA " everyone archive 20 eq_refl _)).
  intros jid r _. unfold is_direct_server, direct, parse. cbn. done.
Defined.
End Sample.
