(* ===== verification/LegacyWebhook.v ===== *)
(** * The webhook of WEBHOOK_URL ([webhook.go])

    The sender, its payloads, and the media bytes a payload may carry.  The HTTP client and
    the sniffing of a content type are arguments; media are read through the interface of
    [MediaStorage]. *)
From S2P Require Import Prelude MediaPurge MediaStorage.
#[local] Open Scope Z_scope.

(** ** [base64.StdEncoding] *)

Definition alphabet : string := "ABCDEFGHIJKLMNOPQRSTUVWXYZabcdefghijklmnopqrstuvwxyz0123456789+/".
Definition b64_char (v : Z) : ascii := default "A"%char (String.get (Z.to_nat v) alphabet).

(** Three bytes at a time; the rest is padded. *)
Fixpoint encode_bytes (l : list Z) : list ascii :=
  match l with
  | [] => []
  | [a] => [b64_char (a / 4); b64_char (a mod 4 * 16); "="%char; "="%char]
  | [a; b] => [b64_char (a / 4); b64_char (a mod 4 * 16 + b / 16); b64_char (b mod 16 * 4); "="%char]
  | a :: b :: c :: l => b64_char (a / 4) :: b64_char (a mod 4 * 16 + b / 16) :: b64_char (b mod 16 * 4 + c / 64) :: b64_char (c mod 64) :: encode_bytes l
  end.

Definition EncodeToString (media : string) : string := string_of_list_ascii (encode_bytes (byte_code <$> list_ascii_of_string media)).

(** A reader of it, as receivers have one. *)
Definition b64_index (c : ascii) : option Z := (λ i, Z.of_nat i) <$> String.index 0 (String c "") alphabet.

Fixpoint decode_chars (l : list ascii) : option (list Z) :=
  match l with
  | [] => Some []
  | [p; q; r; s] =>
      if Ascii.eqb s "=" then
        if Ascii.eqb r "=" then a ← b64_index p; b ← b64_index q; Some [a * 4 + b / 16]
        else a ← b64_index p; b ← b64_index q; c ← b64_index r; Some [a * 4 + b / 16; b mod 16 * 16 + c / 4]
      else a ← b64_index p; b ← b64_index q; c ← b64_index r; d ← b64_index s; Some [a * 4 + b / 16; b mod 16 * 16 + c / 4; c mod 4 * 64 + d]
  | p :: q :: r :: s :: l =>
      a ← b64_index p; b ← b64_index q; c ← b64_index r; d ← b64_index s; t ← decode_chars l;
      Some (a * 4 + b / 16 :: b mod 16 * 16 + c / 4 :: c mod 4 * 64 + d :: t)
  | _ => None
  end.

Definition DecodeString (s : string) : option string := (λ l, string_of_list_ascii (byte_of <$> l)) <$> decode_chars (list_ascii_of_string s).

(** ** The sender *)

Record webhookSender := { token : string; defaultURL : string; enabled : bool; url : string; failures : nat }.

Definition defaultWebhookURL : string := "http://localhost:8769/whatsapp/webhook".

Definition newWebhookSender (tok : string) (on : bool) (env_url : string) : webhookSender :=
  {| token := tok; defaultURL := defaultWebhookURL; enabled := on; url := env_url; failures := 0 |}.

(** [WebhookPayload]; an omitted pointer is [None]. *)
Record WebhookPayload := {
  EventType : string; Sender : string; Content : string; PayloadChat : string; IsFromMe : bool;
  QuotedMessageId : string; QuotedSender : string; QuotedContent : string; QuotedIsFromMe : option bool; MentionedJIDs : list string;
  MessageID : string; PayloadMediaType : string; MimeType : string; MediaFilename : string; MediaBase64 : string;
  Stored : option bool; ReactionToMessageID : string; ReactionEmoji : option string; ReactionRemoved : option bool;
}.

(** A POST: where to, the [X-Bridge-Token] header, and the body. *)
Record post := { p_url : string; p_token : option string; p_body : WebhookPayload }.

Definition countFailure (w : webhookSender) : webhookSender :=
  {| token := token w; defaultURL := defaultURL w; enabled := enabled w; url := url w; failures := S (failures w) |}.

Section Sender.
(** Whether a request can be built for an address, and the status of the answer. *)
Context (builds : string → bool) (answer : post → option Z).

Definition delivered (p : post) : bool := match answer p with Some st => (200 <=? st) && (st <? 300) | None => false end.

Definition sendJSON (w : webhookSender) (payload : WebhookPayload) : webhookSender * list post :=
  if negb (enabled w) then (w, [])
  else
    let explicit := negb (String.eqb (url w) "") in
    let target := if explicit then url w else defaultURL w in
    if negb (builds target) then (w, [])
    else
      let p := {| p_url := target; p_token := if negb (String.eqb (token w) "") && explicit then Some (token w) else None; p_body := payload |} in
      (if delivered p then w else countFailure w, [p]).

Definition storedField (stored : bool) : option bool := if stored then None else Some stored.

(** What a message brings along. *)
Record arrival := {
  a_sender : string; a_content : string; a_chat : string; a_from_me : bool;
  a_quoted : string * string * string * option bool; a_mentions : list string; a_id : string; a_stored : bool;
}.

Definition text_payload (a : arrival) : WebhookPayload :=
  let '(qid, qsender, qcontent, qown) := a_quoted a in
  {| EventType := ""; Sender := a_sender a; Content := a_content a; PayloadChat := a_chat a; IsFromMe := a_from_me a;
     QuotedMessageId := qid; QuotedSender := qsender; QuotedContent := qcontent; QuotedIsFromMe := qown; MentionedJIDs := a_mentions a;
     MessageID := a_id a; PayloadMediaType := ""; MimeType := ""; MediaFilename := ""; MediaBase64 := "";
     Stored := storedField (a_stored a); ReactionToMessageID := ""; ReactionEmoji := None; ReactionRemoved := None |}.

Definition media_payload (a : arrival) (mediaType mime filename media : string) : WebhookPayload :=
  let '(qid, qsender, qcontent, qown) := a_quoted a in
  {| EventType := ""; Sender := a_sender a; Content := a_content a; PayloadChat := a_chat a; IsFromMe := a_from_me a;
     QuotedMessageId := qid; QuotedSender := qsender; QuotedContent := qcontent; QuotedIsFromMe := qown; MentionedJIDs := a_mentions a;
     MessageID := a_id a; PayloadMediaType := mediaType; MimeType := mime; MediaFilename := filename;
     MediaBase64 := if String.eqb media "" then "" else EncodeToString media;
     Stored := storedField (a_stored a); ReactionToMessageID := ""; ReactionEmoji := None; ReactionRemoved := None |}.

Definition SendWebhookWithMessageID (w : webhookSender) (a : arrival) : webhookSender * list post := sendJSON w (text_payload a).

Definition SendWebhookWithMedia (w : webhookSender) (a : arrival) (mediaType mime filename media : string) : webhookSender * list post :=
  if negb (enabled w) then (w, []) else sendJSON w (media_payload a mediaType mime filename media).

Definition SendReactionWebhook (w : webhookSender) (a : arrival) (target emoji : string) : webhookSender * list post :=
  sendJSON w
    {| EventType := "reaction"; Sender := a_sender a; Content := emoji; PayloadChat := a_chat a; IsFromMe := a_from_me a;
       QuotedMessageId := ""; QuotedSender := ""; QuotedContent := ""; QuotedIsFromMe := None; MentionedJIDs := [];
       MessageID := a_id a; PayloadMediaType := "reaction"; MimeType := ""; MediaFilename := ""; MediaBase64 := "";
       Stored := storedField (a_stored a); ReactionToMessageID := target; ReactionEmoji := Some emoji; ReactionRemoved := Some (String.eqb emoji "") |}.
End Sender.

(** ** The bytes of an image *)

Definition maxMediaBase64Bytes : Z := 10 * 1024 * 1024.

Section Media.
Context {W : Type} (sha256 : string → string) (DetectContentType : string → string) (storage : mediaStorage W) (fails : nat → bool).

Definition sniffMIME (head : string) : string := if String.eqb head "" then "application/octet-stream" else DetectContentType head.

(** [webhookMedia]; with the bucket the row is found by its hash, [remote_row]; the bytes
    behind [filename], or none. *)
Definition webhookMedia (s3 : bool) (remote_row : option mediaRow) (chat filename want : string) : MediaStorage.M W (string * string) :=
  let nothing := ret (sniffMIME "", "") in
  match (if s3 then remote_row else Some {| ID := ""; ChatJID := chat; MediaType := ""; Timestamp := 0; Filename := "" |}) with
  | None => nothing
  | Some row => λ n w,
      match Open storage false row filename n w with
      | (n, w, Err _) => nothing n w
      | (n, w, Ok content) =>
          if maxMediaBase64Bytes <? Z.of_nat (String.length content) then (n, w, Ok (sniffMIME (String.substring 0 512 content), ""))
          else if fails n then nothing (S n) w
          else if String.eqb want "" || negb (String.eqb (sha256 content) want) then nothing (S n) w
          else (S n, w, Ok (sniffMIME content, content))
      end
  end.

(** ** What the dispatcher sends, one after the other; an image was [fetched] when its file
    is cached on arrival, under [cached] in the directory *)

Inductive sending : Type :=
| Text (a : arrival)
| Image (a : arrival) (mediaType : string) (fetched s3 : bool) (remote_row : option mediaRow) (cached filename want : string)
| Reaction (a : arrival) (target emoji : string).

Section Run.
Context (builds : string → bool) (answer : post → option Z).

Definition send_one (op : sending) (n : nat) (st : W) (w : webhookSender) : nat * W * (webhookSender * list post) :=
  match op with
  | Text a => (n, st, SendWebhookWithMessageID builds answer w a)
  | Reaction a target emoji => (n, st, SendReactionWebhook builds answer w a target emoji)
  | Image a kind fetched s3 row cached filename want =>
      match (if fetched then webhookMedia s3 row (a_chat a) cached want n st else (n, st, Ok ("", ""))) with
      | (n, st, Ok (mime, media)) => (n, st, SendWebhookWithMedia builds answer w a kind mime filename media)
      | (n, st, Err _) => (n, st, (w, []))
      end
  end.

Fixpoint send_all (ops : list sending) (n : nat) (st : W) (w : webhookSender) : webhookSender * list (sending * post) :=
  match ops with
  | [] => (w, [])
  | op :: ops =>
      let '(n, st, (w, ps)) := send_one op n st w in
      let '(w, rest) := send_all ops n st w in (w, ((λ p, (op, p)) <$> ps) ++ rest)
  end.
End Run.
End Media.

(** ** Lemmas *)

Lemma b64_inverse v : 0 ≤ v < 64 → b64_index (b64_char v) = Some v ∧ b64_char v ≠ "="%char.
Proof.
  intros Hv. assert (forallb (λ i, let v := Z.of_nat i in bool_decide (b64_index (b64_char v) = Some v ∧ b64_char v ≠ "="%char)) (seq 0 64) = true) as Hall by (vm_compute; reflexivity).
  rewrite forallb_forall in Hall. specialize (Hall (Z.to_nat v)). cbn zeta in Hall. rewrite Z2Nat.id in Hall by lia. eapply bool_decide_eq_true, Hall. apply in_seq. lia.
Qed.

Lemma index_char v : 0 ≤ v < 64 → b64_index (b64_char v) = Some v.
Proof. intros Hv. by apply b64_inverse. Qed.

Lemma not_padding v : 0 ≤ v < 64 → Ascii.eqb (b64_char v) "=" = false.
Proof. intros Hv. apply Ascii.eqb_neq. by apply b64_inverse. Qed.

Lemma three_bytes a b c : 0 ≤ a < 256 → 0 ≤ b < 256 → 0 ≤ c < 256 →
  let p := a / 4 in let q := a mod 4 * 16 + b / 16 in let r := b mod 16 * 4 + c / 64 in let s := c mod 64 in
  (0 ≤ p < 64 ∧ 0 ≤ q < 64 ∧ 0 ≤ r < 64 ∧ 0 ≤ s < 64) ∧ p * 4 + q / 16 = a ∧ q mod 16 * 16 + r / 4 = b ∧ r mod 4 * 64 + s = c.
Proof. intros Ha Hb Hc. cbv zeta. Z.to_euclidean_division_equations. lia. Qed.

Lemma decode_step p q r s x m : decode_chars (p :: q :: r :: s :: x :: m) =
  (a ← b64_index p; b ← b64_index q; c ← b64_index r; d ← b64_index s; t ← decode_chars (x :: m); Some (a * 4 + b / 16 :: b mod 16 * 16 + c / 4 :: c mod 4 * 64 + d :: t)).
Proof. done. Qed.

Lemma decode_encode (l : list Z) : Forall (λ b, 0 ≤ b < 256) l → decode_chars (encode_bytes l) = Some l.
Proof.
  induction l as [l IH] using (well_founded_induction (Wf_nat.well_founded_ltof _ length)). intros Hl.
  destruct l as [|a [|b [|c l]]]; [done|..].
  - apply Forall_cons in Hl as [Ha _]. destruct (three_bytes a 0 0 Ha) as ((H1 & H2 & _ & _) & E1 & _); [lia..|]. change (0 / 16) with 0 in *. rewrite Z.add_0_r in *. cbn [encode_bytes decode_chars].
    cbn [Ascii.eqb Bool.eqb]. rewrite !index_char by done. cbn. by rewrite E1.
  - apply Forall_cons in Hl as [Ha [Hb _]%Forall_cons]. destruct (three_bytes a b 0 Ha Hb) as ((H1 & H2 & H3 & _) & E1 & E2 & _); [lia|]. change (0 / 64) with 0 in *. rewrite Z.add_0_r in *. cbn [encode_bytes decode_chars].
    cbn [Ascii.eqb Bool.eqb]. rewrite not_padding, !index_char by done. cbn. by rewrite E1, E2.
  - apply Forall_cons in Hl as [Ha [Hb [Hc Hl]%Forall_cons]%Forall_cons]. destruct (three_bytes a b c Ha Hb Hc) as ((H1 & H2 & H3 & H4) & E1 & E2 & E3).
    assert (decode_chars (encode_bytes l) = Some l) as IHl by (apply IH; [unfold Wf_nat.ltof; cbn; lia|done]). cbn [encode_bytes]. destruct (encode_bytes l) as [|x m] eqn:Hm.
    + cbn in IHl. injection IHl as <-. cbn [decode_chars]. rewrite not_padding, !index_char by done. cbn. by rewrite E1, E2, E3.
    + rewrite decode_step, !index_char by done. rewrite IHl. cbn. by rewrite E1, E2, E3.
Qed.

Lemma base64_reads_back media : DecodeString (EncodeToString media) = Some media.
Proof.
  unfold DecodeString, EncodeToString. rewrite list_ascii_of_string_of_list_ascii, decode_encode.
  - cbn. f_equal. rewrite <-list_fmap_compose. rewrite (list_fmap_ext _ id); [rewrite list_fmap_id; apply string_of_list_ascii_of_string|]. intros i c _. unfold compose, byte_of, byte_code. rewrite N2Z.id. apply ascii_N_embedding.
  - apply Forall_fmap, Forall_forall. intros c _. unfold compose, byte_code. pose proof (N_ascii_bounded c). lia.
Qed.

(** The configuration a send leaves, and what it may post. *)
Definition same_sender (w w' : webhookSender) : Prop := token w' = token w ∧ defaultURL w' = defaultURL w ∧ enabled w' = enabled w ∧ url w' = url w.

Definition addressed (w : webhookSender) (p : post) : Prop :=
  enabled w = true ∧ p_url p = (if String.eqb (url w) "" then defaultURL w else url w) ∧
  ∀ t, p_token p = Some t → t = token w ∧ t ≠ "" ∧ url w ≠ "" ∧ p_url p = url w.

Lemma sendJSON_posts builds answer w payload : let '(w', ps) := sendJSON builds answer w payload in
  same_sender w w' ∧ Forall (λ p, addressed w p ∧ p_body p = payload) ps ∧ (length ps ≤ 1)%nat ∧
  failures w' = (failures w + length (filter (λ p, delivered answer p = false) ps))%nat.
Proof.
  unfold sendJSON. destruct (enabled w) eqn:He; cbn [negb]; [|split_and!; [done|constructor|cbn; lia|cbn; lia]].
  destruct (negb (builds _)); [split_and!; [done|constructor|cbn; lia|cbn; lia]|]. set (p := Build_post _ _ _). rewrite filter_cons.
  assert (addressed w p ∧ p_body p = payload) as Hp.
  { split; [|done]. unfold addressed, p. cbn. destruct (String.eqb_spec (url w) ""); cbn; split_and!; try done; intros t; destruct (String.eqb_spec (token w) ""); cbn; try done; by intros [= <-]. }
  assert (Forall (λ p0, addressed w p0 ∧ p_body p0 = payload) [p]) as Hf by (apply Forall_singleton; exact Hp).
  destruct (delivered answer p); [rewrite decide_False by done|rewrite decide_True by done]; (split_and!; [done|exact Hf|cbn; lia|cbn; lia]).
Qed.

Lemma same_sender_trans w w1 w2 : same_sender w w1 → same_sender w1 w2 → same_sender w w2.
Proof. intros (A1 & A2 & A3 & A4) (B1 & B2 & B3 & B4). unfold same_sender. by rewrite B1, B2, B3, B4. Qed.

Lemma addressed_same w w' p : same_sender w w' → addressed w' p → addressed w p.
Proof. intros (H1 & H2 & H3 & H4). unfold addressed. by rewrite H1, H2, H3, H4. Qed.

(** What a post may carry for the operation that caused it. *)
Definition declared (sha256 : string → string) (op : sending) (p : post) : Prop :=
  MediaBase64 (p_body p) = "" ∨
  match op with
  | Image _ _ _ _ _ _ _ want => ∃ c, DecodeString (MediaBase64 (p_body p)) = Some c ∧ sha256 c = want ∧ want ≠ "" ∧ Z.of_nat (String.length c) ≤ maxMediaBase64Bytes
  | _ => False
  end.

Section Sends.
Context {W : Type} (sha256 : string → string) (detect : string → string) (storage : mediaStorage W) (fails : nat → bool) (builds : string → bool) (answer : post → option Z).
Abbreviation one := (send_one sha256 detect storage fails builds answer).
Abbreviation all := (send_all sha256 detect storage fails builds answer).

Lemma media_declared s3 row chat filename want n st : let '(_, _, r) := webhookMedia sha256 detect storage fails s3 row chat filename want n st in
  match r with Ok (_, media) => media = "" ∨ sha256 media = want ∧ want ≠ "" ∧ Z.of_nat (String.length media) ≤ maxMediaBase64Bytes | Err _ => False end.
Proof.
  unfold webhookMedia. destruct (if s3 then _ else _) as [r|]; [|by left]. destruct (Open storage false r filename n st) as [[n' st'] [c|e]]; [|by left].
  destruct (Z.ltb_spec maxMediaBase64Bytes (Z.of_nat (String.length c))); [by left|]. destruct (fails n'); [by left|].
  destruct (String.eqb_spec want ""); [by left|]. destruct (String.eqb_spec (sha256 c) want); [by right|by left].
Qed.

Lemma send_one_posts op n st w : let '(_, _, (w', ps)) := one op n st w in
  same_sender w w' ∧ Forall (λ p, addressed w p ∧ declared sha256 op p) ps ∧ (length ps ≤ 1)%nat ∧ failures w' = (failures w + length (filter (λ p, delivered answer p = false) ps))%nat.
Proof.
  assert (∀ payload, (∀ p, p_body p = payload → declared sha256 op p) → let '(w', ps) := sendJSON builds answer w payload in
    same_sender w w' ∧ Forall (λ p, addressed w p ∧ declared sha256 op p) ps ∧ (length ps ≤ 1)%nat ∧ failures w' = (failures w + length (filter (λ p, delivered answer p = false) ps))%nat) as Hsend.
  { intros payload Hd. pose proof (sendJSON_posts builds answer w payload) as Hp. destruct (sendJSON _ _ _ _) as [w' ps]. destruct Hp as (H1 & H2 & H3 & H4). split_and!; [done| |done|done].
    eapply Forall_impl; [exact H2|]. intros p [Ha Hb]. auto. }
  destruct op as [a|a kind fetched s3 row cached filename want|a target emoji]; cbn [send_one].
  - apply (Hsend (text_payload a)). intros p E. left. rewrite E. unfold text_payload. by destruct (a_quoted a) as [[[? ?] ?] ?].
  - assert (let '(_, _, r) := if fetched then webhookMedia sha256 detect storage fails s3 row (a_chat a) cached want n st else (n, st, Ok ("", "")) in
      match r with Ok (_, media) => media = "" ∨ sha256 media = want ∧ want ≠ "" ∧ Z.of_nat (String.length media) ≤ maxMediaBase64Bytes | Err _ => False end) as Hm
      by (destruct fetched; [apply media_declared|by left]).
    destruct (if fetched then _ else _) as [[n' st'] [[mime media]|e]]; [|done].
    unfold SendWebhookWithMedia. destruct (enabled w) eqn:He; cbn [negb]; [|split_and!; [done|constructor|cbn; lia|cbn; lia]].
    apply (Hsend (media_payload a kind mime filename media)). intros p E. unfold declared. rewrite E. assert (MediaBase64 (media_payload a kind mime filename media) = if String.eqb media "" then "" else EncodeToString media) as -> by (unfold media_payload; by destruct (a_quoted a) as [[[? ?] ?] ?]).
    destruct (String.eqb_spec media ""); [by left|]. right. exists media. rewrite base64_reads_back. destruct Hm as [|(H1 & H2 & H3)]; [done|by split_and!].
  - apply Hsend. intros p E. left. by rewrite E.
Qed.
End Sends.

(** [C19] The legacy webhook is discreet.  Over any sequence of messages, images and reactions
    and whatever the receiver answers: a sender that is off posts nothing; every post goes to
    WEBHOOK_URL, or to the local default when it is unset; the bridge token is attached
    only to posts to an explicit WEBHOOK_URL; the media bytes of a post, read back by a
    receiver, are those of an image whose message declared exactly their SHA-256, ten
    megabytes at most, and nothing without a declared hash; no event is posted twice; and
    every post that failed is counted. *)
Theorem legacy_discreet {W : Type} (sha256 detect : string → string) (storage : mediaStorage W) (fails : nat → bool) (builds : string → bool) (answer : post → option Z)
    (ops : list sending) (n : nat) (st : W) (w : webhookSender) :
  let '(w', posts) := send_all sha256 detect storage fails builds answer ops n st w in
  (enabled w = false → posts = []) ∧ (length posts ≤ length ops)%nat ∧ posts.*1 `sublist_of` ops ∧
  Forall (λ op, p_url op.2 = (if String.eqb (url w) "" then defaultURL w else url w) ∧
                (∀ t, p_token op.2 = Some t → t = token w ∧ t ≠ "" ∧ url w ≠ "" ∧ p_url op.2 = url w) ∧ declared sha256 op.1 op.2) posts ∧
  failures w' = (failures w + length (filter (λ op, delivered answer op.2 = false) posts))%nat.
Proof.
  assert (∀ ops n st w, let '(w', posts) := send_all sha256 detect storage fails builds answer ops n st w in
    same_sender w w' ∧ posts.*1 `sublist_of` ops ∧ Forall (λ op, addressed w op.2 ∧ declared sha256 op.1 op.2) posts ∧
    failures w' = (failures w + length (filter (λ op, delivered answer op.2 = false) posts))%nat) as Hrun.
  { clear. induction ops as [|op ops IH]; intros n st w; cbn [send_all]; [split_and!; [done|constructor|constructor|cbn; lia]|].
    pose proof (send_one_posts sha256 detect storage fails builds answer op n st w) as H1. destruct (send_one _ _ _ _ _ _ op n st w) as [[n1 st1] [w1 ps]]. destruct H1 as (S1 & F1 & L1 & C1).
    specialize (IH n1 st1 w1). destruct (send_all _ _ _ _ _ _ ops n1 st1 w1) as [w2 rest]. destruct IH as (S2 & U2 & F2 & C2). split_and!.
    - by eapply same_sender_trans.
    - destruct ps as [|p [|]]; cbn in L1; [by apply sublist_cons|by apply sublist_skip|lia].
    - apply Forall_app. split; [apply Forall_fmap; exact F1|]. eapply Forall_impl; [exact F2|]. intros x [Ha Hd]. split; [by eapply addressed_same|done].
    - rewrite C2, C1, filter_app, length_app. assert (length (filter (λ x : sending * post, delivered answer x.2 = false) ((λ p, (op, p)) <$> ps)) = length (filter (λ p, delivered answer p = false) ps)) as ->; [|lia].
      clear. induction ps as [|p ps IH]; [done|]. rewrite fmap_cons, !filter_cons. cbn [snd]. destruct (decide _); cbn; by rewrite IH. }
  specialize (Hrun ops n st w). destruct (send_all _ _ _ _ _ _ ops n st w) as [w' posts]. destruct Hrun as (_ & HU & HF & HC). split_and!; [| |done| |done].
  - intros He. destruct posts as [|x posts]; [done|]. apply Forall_cons in HF as [[(He' & _) _] _]. congruence.
  - apply sublist_length in HU. by rewrite length_fmap in HU.
  - eapply Forall_impl; [exact HF|]. intros x [(_ & H1 & H2) H3]. done.
Qed.
