(* ===== verification/MediaApi.v ===== *)
(** * The media endpoints ([media_api.go])

    The bytes of one stored message, whole or in ranges, over the interface of
    [MediaStorage], and the catalogue of what the bucket holds for a chat.  A download and a
    private read that is not cached are arguments, as are the slots of the process. *)
From S2P Require Import Prelude Jid Http Config ChatPolicy Archive Messages MarkRead MediaNames MediaPurge MediaCache Outbound S3 MediaStorage MediaMigrate.
#[local] Open Scope Z_scope.

(** ** One message's bytes *)

(** The parameters of the query; an absent one is [None]. *)
Record blob_query := { q_chat : string; q_id : string; q_offset : option string; q_length : option string; q_max : option string; cache_only : bool }.

Inductive blob_reply : Type :=
| Refused (r : Http.reply)
| Panicked                                                          (** the handler's goroutine panics *)
| Served (cached : bool) (body : string) (range : option (Z * string)).   (** the total size and the hash of a range *)

(** What fails on the way to the bytes; a cooldown or another failure has its code. *)
Inductive fetch_error : Type := MediaQuotaFull | SpoolLimit | SpoolFull | AutoMediaLimit | RetryBackoff | FetchFailed (code : string).

Section Blob.
Context `{JidOps} {W : Type} (sha256 : string → string) (zone : Z → Z) (storage : mediaStorage W) (s3 : bool).
(** [entry.Bytes] of a lookup; [DownloadMedia]; [transient], with or without a load. *)
Context (entry_bytes : mediaRow → string → W → Z) (download : mediaRow → nat → W → nat * W * option fetch_error)
        (transient : mediaRow → Z → bool → nat → W → nat * W * result fetch_error (option string)).

Definition parse_range (q : blob_query) : result Http.reply (option (Z * Z)) :=
  let refused := Err (Http.writeErrorCode 400 "invalid_argument" "Invalid media byte range") in
  match q_offset q, q_length q with
  | None, None => Ok None
  | o, l =>
      match ParseInt 64 (default "" o), ParseInt 64 (default "" l) with
      | Some offset, Some length => if (offset <? 0) || (length <? 1) || (maxMediaChunkBytes <? length) then refused else Ok (Some (offset, length))
      | _, _ => refused
      end
  end.

(** Zero is no limit. *)
Definition parse_max (ranged : bool) (q : blob_query) : result Http.reply Z :=
  let refused := Err (Http.writeErrorCode 400 "invalid_argument" "Invalid media byte limit") in
  match q_max q with
  | Some v => if ranged then Ok 0 else match ParseInt 64 v with Some n => if n <? 1 then refused else Ok n | None => refused end
  | None => Ok 0
  end.

Definition too_large : Http.reply := Http.writeErrorCode 413 "too_large" "Media exceeds requested byte limit".
Definition exhausted : Http.reply := Http.writeError 503 "Media read capacity exhausted; retry later".

Definition fetch_refusal (e : fetch_error) : Http.reply :=
  match e with
  | SpoolLimit => Http.writeErrorCode 413 "spool_too_large" "Media exceeds bridge spool size limit"
  | SpoolFull => exhausted
  | AutoMediaLimit => too_large
  | RetryBackoff => Http.writeErrorCode 503 "media_retry_backoff" "Media retry cooling down; retry after Retry-After"
  | FetchFailed code => Http.writeErrorCode 502 (if String.eqb code "" then Http.errorCode 502 else code) "Media download failed"
  | MediaQuotaFull => Http.writeErrorCode 502 (Http.errorCode 502) "Media download failed"
  end.

(** The bytes from [offset], [n] of them. *)
Definition slice (offset n : Z) (c : string) : string := String.substring (Z.to_nat offset) (Z.to_nat n) c.
Definition size_of (c : string) : Z := Z.of_nat (String.length c).

(** The answer with the bytes at hand. *)
Definition answer_with (cached : bool) (range : option (Z * Z)) (c : string) : blob_reply :=
  match range with
  | None => Served cached c None
  | Some (offset, length) =>
      match openMediaRange (size_of c) offset length with
      | Some n => Served cached (slice offset n c) (Some (size_of c, hex (sha256 c)))
      | None => Refused (Http.writeErrorCode 400 "invalid_argument" "Invalid media byte range")
      end
  end.

Definition open_refusal (e : string) : Http.reply :=
  if String.eqb e "spool limit" then fetch_refusal SpoolLimit else if String.eqb e "spool full" then exhausted else Http.writeError 502 "Media read failed".

(** From the store, after the lookup or a download. *)
Definition read_stored (row : mediaRow) (range : option (Z * Z)) (n : nat) (w : W) : nat * W * blob_reply :=
  match Open storage false row "" n w with
  | (n, w, Ok c) => (n, w, answer_with true range c)
  | (n, w, Err e) => (n, w, Refused (open_refusal e))
  end.

Inductive fetched : Type := FetchRefused (r : Http.reply) | FetchPanicked | Private (c : string) | InStore.

(** The fallback of a full quota asserts that the store is the bucket. *)
Definition load_private (row : mediaRow) (limit : Z) (n : nat) (w : W) : nat * W * fetched :=
  if negb s3 then (n, w, FetchPanicked)
  else match transient row limit true n w with
       | (n, w, Ok (Some c)) => (n, w, Private c)
       | (n, w, Ok None) => (n, w, InStore)
       | (n, w, Err e) => (n, w, FetchRefused (fetch_refusal e))
       end.

(** Nothing was cached: a private copy, else a download, else a private load. *)
Definition fetch (row : mediaRow) (limit : Z) (connected : bool) (n : nat) (w : W) : nat * W * fetched :=
  let '(n, w, private) := if s3 then transient row limit false n w else (n, w, Ok None) in
  match private with
  | Ok (Some c) => (n, w, Private c)
  | Ok None =>
      if negb connected then (n, w, FetchRefused (Http.writeError 503 "WhatsApp client is not connected"))
      else
        match download row n w with
        | (n, w, None) => (n, w, InStore)
        | (n, w, Some MediaQuotaFull) => load_private row limit n w
        | (n, w, Some e) => (n, w, FetchRefused (fetch_refusal e))
        end
  | Err MediaQuotaFull => load_private row limit n w
  | Err e => (n, w, FetchRefused (fetch_refusal e))
  end.

Definition handleMediaBlob (policy : chatPolicy) (db : archive) (tracked slot connected : bool) (q : blob_query) (n : nat) (w : W) : nat * W * blob_reply :=
  let refuse r := (n, w, Refused r) in
  match authorizeChat policy (q_chat q) false with
  | Err r => refuse r
  | Ok chat =>
      match parse_range q with
      | Err r => refuse r
      | Ok range =>
          match parse_max (bool_decide (is_Some range)) q with
          | Err r => refuse r
          | Ok limit =>
              match MediaRow (q_id q) (JIDString chat) db with
              | None => refuse (Http.writeError 404 "Media message not found")
              | Some row =>
                  if bool_decide (is_Some (checkMediaPathComponents (chatMediaRel (ChatJID row)) (mediaFileName zone (MediaType row) (Timestamp row) (ID row) (Filename row))))
                  then refuse (Http.writeErrorCode 403 "media_refused" "Media identity refused")
                  else if negb tracked then refuse (Http.writeError 503 "Media read cancelled")
                  else if s3 && negb slot then refuse exhausted
                  else
                    match Lookup storage false row n w with
                    | (n, w, Err _) => (n, w, Refused (Http.writeError 503 "Media cache unavailable"))
                    | (n, w, Ok (Some name)) =>
                        if (0 <? limit) && (limit <? entry_bytes row name w) then (n, w, Refused too_large) else read_stored row range n w
                    | (n, w, Ok None) =>
                        if cache_only q then (n, w, Refused (Http.writeError 404 "Media is not cached"))
                        else
                          match fetch row limit connected n w with
                          | (n, w, FetchRefused r) => (n, w, Refused r)
                          | (n, w, FetchPanicked) => (n, w, Panicked)
                          | (n, w, Private c) => (n, w, answer_with false range c)
                          | (n, w, InStore) => read_stored row range n w
                          end
                    end
              end
          end
      end
  end.
End Blob.

Section BlobLaws.
Context `{JidOps} {W : Type} (sha256 : string → string) (zone : Z → Z) (storage : mediaStorage W) (s3 : bool).
Context (entry_bytes : mediaRow → string → W → Z) (download : mediaRow → nat → W → nat * W * option fetch_error)
        (transient : mediaRow → Z → bool → nat → W → nat * W * result fetch_error (option string)).
Context {holds : mediaRow → string → W → Prop} {distinct : mediaRow → mediaRow → Prop} `{!StorageLaws sha256 storage holds distinct}.

(** The part of [c] an answer carries. *)
Definition carries (q : blob_query) (c body : string) (range : option (Z * string)) : Prop :=
  match range with
  | None => parse_range q = Ok None ∧ body = c
  | Some (total, h) => total = size_of c ∧ h = hex (sha256 c) ∧
      ∃ offset length, parse_range q = Ok (Some (offset, length)) ∧ 0 ≤ offset ≤ size_of c ∧ body = slice offset (Z.min length (size_of c - offset)) c ∧
        size_of body = Z.min length (size_of c - offset) ∧ size_of body ≤ maxMediaChunkBytes
  end.

Lemma substring_length s : ∀ m n, (m + n ≤ String.length s)%nat → String.length (String.substring m n s) = n.
Proof. induction s as [|a s IH]; intros [|m] [|n] Hl; cbn in *; try lia; [by rewrite IH by lia|by rewrite IH by lia|by rewrite IH by lia]. Qed.

Lemma answer_carries q cached range c : parse_range q = Ok range →
  match answer_with sha256 cached range c with Served cached' body r => cached' = cached ∧ carries q c body r | Panicked => False | Refused _ => True end.
Proof.
  intros Hq. unfold answer_with. destruct range as [[offset length]|]; [|done]. unfold openMediaRange.
  destruct ((offset <? 0) || _ || _) eqn:Hr; [done|]. destruct (Z.ltb_spec (size_of c) offset); [done|]. unfold carries.
  assert (size_of (slice offset (Z.min length (size_of c - offset)) c) = Z.min length (size_of c - offset)) as Hs.
  { unfold slice, size_of in *. rewrite substring_length by lia. lia. }
  split; [done|]. split_and!; [done..|]. exists offset, length. split_and!; [done|lia|lia|done|done|]. rewrite Hs. lia.
Qed.

Lemma stored_carries q row range n w : parse_range q = Ok range →
  match read_stored sha256 storage row range n w with
  | (_, w', Served cached body r) => cached = true ∧ ∃ c, holds row (sha256 c) w' ∧ carries q c body r
  | (_, _, Panicked) => False
  | _ => True
  end.
Proof.
  intros Hq. unfold read_stored. pose proof (open_holds row "" n w (named_empty row w)) as Ho. destruct (Open storage false row "" n w) as [[n' w'] [c|e]]; [|done].
  pose proof (answer_carries q true range c Hq) as Ha. destruct (answer_with sha256 true range c); [done|done|]. destruct Ha as [-> Ha]. eauto.
Qed.

Lemma fetch_outcome row limit connected n w : match fetch s3 download transient row limit connected n w with
  | (_, _, FetchPanicked) => s3 = false ∧ connected = true ∧ (download row n w).2 = Some MediaQuotaFull
  | (n', w', Private c) => s3 = true ∧ ∃ load n1 w1, transient row limit load n1 w1 = (n', w', Ok (Some c))
  | (_, _, InStore) => s3 = true ∨ connected = true
  | _ => True
  end.
Proof.
  unfold fetch, load_private. destruct s3; cbn [negb].
  - destruct (transient row limit false n w) as [[n1 w1] [[c|]|[]]] eqn:Ht; try exact I; try (split; [done|]; by exists false, n, w);
      [destruct connected; [|exact I]; cbn [negb]; destruct (download row n1 w1) as [[n2 w2] [[]|]]; try exact I; [|by left]|];
      (match goal with |- context [transient row limit true ?a ?b] => destruct (transient row limit true a b) as [[n3 w3] [[c|]|[]]] eqn:Ht'; try exact I;
         [split; [done|]; by exists true, a, b|by left] end).
  - destruct connected; [|done]. cbn [negb]. destruct (download row n w) as [[n1 w1] [[]|]]; try done; auto.
Qed.
End BlobLaws.

(** [C14] Bytes go out only for a chat the policy allows and a message that is stored, under
    plain names.  An answer marked as cached carries what the store holds for that row,
    under its hash, whatever the lookup, the download and the read did before; one that is
    not carries the private copy the bucket backend gave for that row under the caller's
    limit in the last step before the answer, and there is none when the caller asked
    for cached media only.  A range is a piece of the file at the asked offset, of the asked length or
    up to the end, four megabytes at most, with the size and the hash of the whole file.
    The handler panics only in the directory backend, when the download of that row, after a
    lookup that found nothing, reports a full quota. *)
Theorem blob_guarded `{JidOps} {W : Type} (sha256 : string → string) (zone : Z → Z) (storage : mediaStorage W) (s3 : bool)
    (entry_bytes : mediaRow → string → W → Z) (download : mediaRow → nat → W → nat * W * option fetch_error)
    (transient : mediaRow → Z → bool → nat → W → nat * W * result fetch_error (option string))
    (holds : mediaRow → string → W → Prop) (distinct : mediaRow → mediaRow → Prop) (Hlaws : StorageLaws sha256 storage holds distinct)
    (policy : chatPolicy) (db : archive) (tracked slot connected : bool) (q : blob_query) (n : nat) (w : W) :
  match handleMediaBlob sha256 zone storage s3 entry_bytes download transient policy db tracked slot connected q n w with
  | (_, _, Refused _) => True
  | (_, _, Panicked) => s3 = false ∧ connected = true ∧ cache_only q = false ∧
      ∃ chat row n1 w1, authorizeChat policy (q_chat q) false = Ok chat ∧ MediaRow (q_id q) (JIDString chat) db = Some row ∧
        Lookup storage false row n w = (n1, w1, Ok None) ∧ (download row n1 w1).2 = Some MediaQuotaFull
  | (n', w', Served cached body range) =>
      ∃ chat row c, authorizeChat policy (q_chat q) false = Ok chat ∧ Allows policy (JIDString chat) = true ∧ MediaRow (q_id q) (JIDString chat) db = Some row ∧
        checkMediaPathComponents (chatMediaRel (ChatJID row)) (mediaFileName zone (MediaType row) (Timestamp row) (ID row) (Filename row)) = None ∧
        carries sha256 q c body range ∧
        if cached then holds row (sha256 c) w'
        else s3 = true ∧ cache_only q = false ∧ ∃ limit load n1 w1, parse_max (bool_decide (is_Some range)) q = Ok limit ∧
               transient row limit load n1 w1 = (n', w', Ok (Some c))
  end.
Proof.
  unfold handleMediaBlob. destruct (authorizeChat policy (q_chat q) false) as [chat|] eqn:Hauth; [|done].
  assert (Allows policy (JIDString chat) = true) as Hallow.
  { revert Hauth. unfold authorizeChat, rejectByChatPolicy. destruct (canonicalChatJID (q_chat q) false) as [jid|]; [|done]. destruct (Allows policy (JIDString jid)) eqn:E; [|done]. by intros [= ->]. }
  destruct (parse_range q) as [range|] eqn:Hrange; [|done]. destruct (parse_max _ q) as [limit|] eqn:Hmax; [|done].
  destruct (MediaRow (q_id q) (JIDString chat) db) as [row|] eqn:Hrow; [|done]. match goal with |- context [if bool_decide ?P then _ else _] => destruct (bool_decide_reflect P) as [|Hpath] end; [done|].
  apply eq_None_not_Some in Hpath. destruct tracked; [|done]. cbn [negb]. destruct (s3 && negb slot); [done|].
  assert (∀ n w, match read_stored sha256 storage row range n w with
    | (n', w', Served cached body r) => ∃ chat0 row0 c, Ok (E := Http.reply) chat = Ok chat0 ∧ Allows policy (JIDString chat0) = true ∧ MediaRow (q_id q) (JIDString chat0) db = Some row0 ∧
        checkMediaPathComponents (chatMediaRel (ChatJID row0)) (mediaFileName zone (MediaType row0) (Timestamp row0) (ID row0) (Filename row0)) = None ∧
        carries sha256 q c body r ∧ if cached then holds row0 (sha256 c) w'
        else s3 = true ∧ cache_only q = false ∧ ∃ limit load n1 w1, parse_max (bool_decide (is_Some r)) q = Ok limit ∧ transient row0 limit load n1 w1 = (n', w', Ok (Some c))
    | (_, _, Panicked) => False | _ => True end) as Hread.
  { intros n1 w1. pose proof (stored_carries sha256 storage q row range n1 w1 Hrange) as Hs. destruct (read_stored _ _ row range n1 w1) as [[n2 w2] [r| |cached body r]]; [done|done|].
    destruct Hs as [-> (c & Hc & Hb)]. by exists chat, row, c. }
  destruct (Lookup storage false row n w) as [[n1 w1] [[name|]|e]] eqn:Hlook; [| |done].
  - destruct (_ && _); [done|]. specialize (Hread n1 w1). by destruct (read_stored _ _ row range n1 w1) as [[n2 w2] [r| |cached body r]].
  - destruct (cache_only q) eqn:Hco; [done|]. pose proof (fetch_outcome s3 download transient row limit connected n1 w1) as Hf.
    destruct (fetch s3 download transient row limit connected n1 w1) as [[n2 w2] [r| |c|]] eqn:Hfe; [done| | |].
    + destruct Hf as (H1 & H2 & H3). split_and!; [done..|]. by exists chat, row, n1, w1.
    + pose proof (answer_carries sha256 q false range c Hrange) as Ha. destruct (answer_with sha256 false range c) as [| |cached body r]; [done|done|]. destruct Ha as [-> Ha].
      destruct Hf as (Hs3 & load & n3 & w3 & Ht). exists chat, row, c. split_and!; [done..|]. exists limit, load, n3, w3. split; [|done]. rewrite <- Hmax. f_equal.
      destruct r as [[total h]|]; [destruct Ha as (_ & _ & offset & length & Ha & _)|destruct Ha as [Ha _]]; rewrite Ha in Hrange; injection Hrange as <-; reflexivity.
    + specialize (Hread n2 w2). by destruct (read_stored _ _ row range n2 w2) as [[n3 w3] [r| |cached body r]].
Qed.

(** ** The catalogue of a chat *)

(** [message_id], [bytes] and [sha256] of an item. *)
Record cache_item := { i_id : string; i_bytes : Z; i_sha : string }.

(** What the bucket holds for the messages of a chat, less what is being deleted. *)
Definition catalogued (chat : string) (s : S3.state) : list (string * cache_item) :=
  omap (λ kh, match S3.reference_of kh.1 s with
              | Some (h, b) => if bool_decide (kh.1.2 = chat ∧ (h ∉ S3.deletions s)) then Some (kh.1.1, {| i_id := kh.1.1; i_bytes := b; i_sha := hex h |}) else None
              | None => None
              end) (map_to_list (S3.refs s)).

Definition by_id (a b : string * cache_item) : Prop := string_le a.1 b.1.
#[export] Instance by_id_dec : RelDecision by_id.
Proof. intros a b. unfold by_id. apply _. Defined.

Definition catalogue (chat : string) (s : S3.state) : list cache_item := snd <$> merge_sort by_id (catalogued chat s).

Inductive cache_answer : Type := CacheRefused (r : Http.reply) | Items (items : list cache_item) (next_cursor : string).

Definition after_id (cursor : string) (i : cache_item) : bool := negb (String.leb (i_id i) cursor).

(** [LIMIT 257]: one more than a page says that there is another. *)
Definition page_of (l : list cache_item) : cache_answer :=
  let items := take 257 l in
  if Nat.ltb 256 (length items) then Items (take 256 items) (match last (take 256 items) with Some i => i_id i | None => "" end) else Items items "".

(** [handleMediaCache]; [s] is the state of the bucket backend, [None] the directory. *)
Definition handleMediaCache `{JidOps} (policy : chatPolicy) (s : option S3.state) (readable : bool) (raw cursor : string) (ids : option (list string)) : cache_answer :=
  match authorizeChat policy raw false with
  | Err r => CacheRefused r
  | Ok chat =>
      match s with
      | None => Items [] ""
      | Some s =>
          let refuse := λ m, CacheRefused (Http.writeError 400 m) in
          match ids with
          | Some l =>
              if bool_decide (l = []) || Nat.ltb 256 (length l) then refuse "Media catalog accepts at most 256 message IDs"
              else if existsb (λ id, String.eqb id "") l then refuse "Media catalog message IDs must not be empty"
              else if negb readable then CacheRefused (Http.writeError 503 "Media catalog unavailable")
              else page_of (filter (λ i, i_id i ∈ l) (catalogue (JIDString chat) s))
          | None =>
              if negb readable then CacheRefused (Http.writeError 503 "Media catalog unavailable")
              else page_of (filter (λ i, after_id cursor i = true) (catalogue (JIDString chat) s))
          end
      end
  end.

(** A caller that follows the cursors. *)
Fixpoint follow `{JidOps} (fuel : nat) (policy : chatPolicy) (s : S3.state) (raw cursor : string) : option (list cache_item) :=
  match fuel with
  | O => None
  | S fuel =>
      match handleMediaCache policy (Some s) true raw cursor None with
      | Items items next => if String.eqb next "" then Some items else app items <$> follow fuel policy s raw next
      | CacheRefused _ => None
      end
  end.

(** ** Lemmas: pages *)

Definition id_lt (a b : cache_item) : Prop := string_le (i_id a) (i_id b) ∧ i_id a ≠ i_id b.

Lemma after_lt cursor i : after_id cursor i = true ↔ string_le cursor (i_id i) ∧ cursor ≠ i_id i.
Proof.
  unfold after_id. rewrite negb_true_iff. split.
  - intros E. destruct (string_leb_total cursor (i_id i)) as [?|?]; [|congruence]. split; [done|]. intros ->. destruct (string_leb_total (i_id i) (i_id i)); congruence.
  - intros [H1 H2]. apply not_true_is_false. intros H3. apply H2. by apply string_le_antisym.
Qed.

Lemma catalogued_keys chat s : NoDup (catalogued chat s).*1.
Proof.
  unfold catalogued. pose proof (NoDup_fst_map_to_list (S3.refs s)) as Hn. induction (map_to_list (S3.refs s)) as [|[k h] l IH]; [constructor|]. cbn [omap list_omap]. rewrite fmap_cons in Hn. apply NoDup_cons in Hn as [Hk Hn].
  specialize (IH Hn). cbn [fst]. destruct (S3.reference_of k s) as [[h' b]|]; [|exact IH]. case_bool_decide as Hc; [|exact IH]. rewrite fmap_cons. apply NoDup_cons. split; [|exact IH].
  intros ([id i] & E & Hin)%list_elem_of_fmap. cbn in E. apply list_elem_of_omap in Hin as ([k' h0] & Hin & Hm). cbn in Hm. destruct (S3.reference_of k' s) as [[h1 b1]|]; [|done]. case_bool_decide as Hc'; [|done]. injection Hm as E1 _.
  apply Hk. apply list_elem_of_fmap. exists (k', h0). split; [|done]. cbn. destruct k, k'. cbn in *. destruct Hc, Hc'. by subst.
Qed.

Lemma catalogued_ids chat s x : x ∈ catalogued chat s → i_id x.2 = x.1.
Proof.
  intros ([k h] & _ & Hm)%list_elem_of_omap. cbn in Hm. destruct (S3.reference_of k s) as [[h1 b1]|]; [|done]. case_bool_decide; [|done]. by injection Hm as <-.
Qed.

Lemma catalogue_sorted chat s : StronglySorted id_lt (catalogue chat s).
Proof.
  unfold catalogue. assert (Sorted by_id (merge_sort by_id (catalogued chat s))) as Hs by (apply Sorted_merge_sort; intros a b; apply string_leb_total).
  apply Sorted_StronglySorted in Hs; [|intros a b c; apply string_le_trans].
  assert (NoDup (merge_sort by_id (catalogued chat s)).*1) as Hn by (rewrite merge_sort_Permutation; apply catalogued_keys).
  assert (∀ x, x ∈ merge_sort by_id (catalogued chat s) → i_id x.2 = x.1) as Hi by (intros x Hx; rewrite merge_sort_Permutation in Hx; by eapply catalogued_ids).
  induction Hs as [|x l Hl IH Hx]; [constructor|]. rewrite fmap_cons in *. apply NoDup_cons in Hn as [Hx' Hn]. constructor; [apply IH; [done|]; intros y Hy; apply Hi; by right|].
  apply Forall_fmap, Forall_forall. intros y Hy. rewrite Forall_forall in Hx. pose proof (Hx y Hy) as Hle. unfold compose, id_lt, by_id in *. rewrite (Hi x) by (by left). rewrite (Hi y) by (by right).
  split; [done|]. intros E. apply Hx'. rewrite E. by apply list_elem_of_fmap_2.
Qed.

Lemma sorted_split (F : list cache_item) m x : StronglySorted id_lt F → last (take m F) = Some x → filter (λ i, after_id (i_id x) i = true) F = drop m F.
Proof.
  revert m. induction F as [|y F IH]; intros m Hs Hx; [by rewrite take_nil in Hx|]. apply StronglySorted_inv in Hs as [Hs Hy]. destruct m as [|m]; [done|]. cbn [firstn skipn] in *. rewrite last_cons in Hx.
  assert (∀ z, z ∈ F → string_le (i_id y) (i_id z) ∧ i_id y ≠ i_id z) as Hlt by (rewrite Forall_forall in Hy; exact Hy).
  destruct (last (take m F)) as [x'|] eqn:Hl.
  - injection Hx as ->. rewrite filter_cons_False; [by apply IH|]. rewrite after_lt. intros [H1 H2]. assert (x ∈ F) as Hin. { apply last_Some_elem_of in Hl. apply elem_of_take in Hl as (i & Hi & _). by eapply list_elem_of_lookup_2. }
    destruct (Hlt x Hin) as [H3 H4]. apply H2. by apply string_le_antisym.
  - injection Hx as ->. rewrite filter_cons_False by (rewrite after_lt; by intros [_ ?]). apply last_None in Hl. assert (drop m F = F) as ->. { destruct m; [done|]. by destruct F. }
    clear -Hlt. induction F as [|z F IH]; [done|]. rewrite filter_cons_True by (apply after_lt; apply Hlt; by left). f_equal. apply IH. intros u Hu. apply Hlt. by right.
Qed.

Lemma filter_sorted {A} (R : A → A → Prop) (P : A → Prop) `{∀ x, Decision (P x)} l : StronglySorted R l → StronglySorted R (filter P l).
Proof.
  induction 1 as [|x l Hl IH Hx]; [constructor|]. rewrite filter_cons. destruct (decide _); [|done]. constructor; [done|]. rewrite Forall_forall in *. intros y [_ Hy]%list_elem_of_filter. auto.
Qed.

Lemma filter_later L cursor x : StronglySorted id_lt L → after_id cursor x = true →
  filter (λ i, after_id (i_id x) i = true) (filter (λ i, after_id cursor i = true) L) = filter (λ i, after_id (i_id x) i = true) L.
Proof.
  intros _ Hx. apply after_lt in Hx as [H1 H2]. induction L as [|y L IH]; [done|]. rewrite (filter_cons _ y L). destruct (decide (after_id cursor y = true)) as [Hy|Hy].
  - rewrite !filter_cons. by rewrite IH.
  - rewrite IH. rewrite filter_cons_False; [done|]. intros E. apply Hy. apply after_lt in E as [E1 E2]. apply after_lt. split; [by eapply string_le_trans|]. intros ->. apply E2. by apply string_le_antisym.
Qed.

Lemma page_last (F : list cache_item) : (256 < length F)%nat → ∃ x, last (take 256 F) = Some x ∧ x ∈ F ∧ page_of F = Items (take 256 F) (i_id x).
Proof.
  intros Hl. assert (length (take 256 F) = 256)%nat as Hlen by (rewrite length_take; lia). destruct (last (take 256 F)) as [x|] eqn:Hx; [|apply last_None in Hx; by rewrite Hx in Hlen].
  exists x. split; [done|]. split; [apply last_Some_elem_of in Hx; apply elem_of_take in Hx as (i & Hi & _); by eapply list_elem_of_lookup_2|].
  unfold page_of. rewrite length_take. destruct (Nat.ltb_spec 256 (257 `min` length F)); [|lia]. rewrite take_take. change (256 `min` 257)%nat with 256%nat. by rewrite Hx.
Qed.

Lemma page_whole (F : list cache_item) : (length F ≤ 256)%nat → page_of F = Items F "".
Proof. intros Hl. unfold page_of. rewrite length_take. destruct (Nat.ltb_spec 256 (257 `min` length F)); [lia|]. by rewrite take_ge by lia. Qed.

(** A caller that follows the cursors of the catalogue reads every item the bucket holds for
    the chat exactly once, in the order of the message ids, in as many requests as there are
    pages of 256; every item is an object some message of the chat refers to and that is not
    being deleted. *)
Theorem catalogue_followed `{JidOps} (policy : chatPolicy) (s : S3.state) (raw : string) (chat : JID) (fuel : nat) (Hchat : authorizeChat policy raw false = Ok chat)
    (Hfuel : (length (catalogue (JIDString chat) s) < fuel)%nat) :
  follow fuel policy s raw "" = Some (filter (λ i, i_id i ≠ "") (catalogue (JIDString chat) s)) ∧ StronglySorted id_lt (catalogue (JIDString chat) s) ∧
  ∀ i, i ∈ catalogue (JIDString chat) s ↔ ∃ h, S3.reference_of (i_id i, JIDString chat) s = Some (h, i_bytes i) ∧ (h ∉ S3.deletions s) ∧ i_sha i = hex h.
Proof.
  set (L := catalogue (JIDString chat) s) in *. pose proof (catalogue_sorted (JIDString chat) s) as HL. fold L in HL.
  assert (∀ fuel cursor, (length (filter (λ i, after_id cursor i = true) L) < fuel)%nat → follow fuel policy s raw cursor = Some (filter (λ i, after_id cursor i = true) L)) as Hrun.
  { clear Hfuel fuel. induction fuel as [|fuel IH]; intros cursor Hf; [lia|]. cbn [follow]. unfold handleMediaCache. rewrite Hchat. cbn [negb]. fold L. set (F := filter (λ i, after_id cursor i = true) L) in *.
    destruct (Nat.le_gt_cases (length F) 256) as [Hle|Hgt]; [by rewrite page_whole|]. destruct (page_last F Hgt) as (x & Hx & Hin & ->).
    unfold F in Hin. apply list_elem_of_filter in Hin as [Ha _]. pose proof (proj1 (after_lt _ _) Ha) as [H1 H2].
    destruct (String.eqb_spec (i_id x) "") as [E|E]; [exfalso; apply H2; rewrite E in *; by destruct cursor|].
    assert (filter (λ i, after_id (i_id x) i = true) L = drop 256 F) as Hd by (unfold F; rewrite <-(filter_later L cursor x HL Ha); apply sorted_split; [by apply filter_sorted|done]).
    rewrite IH, Hd; [|rewrite Hd, length_drop; lia]. cbn. by rewrite take_drop. }
  split_and!; [|done|].
  - rewrite Hrun; [|pose proof (length_filter (λ i, after_id "" i = true) L); lia]. f_equal. apply list_filter_iff. intros i. rewrite after_lt. split; [intros [_ Hne]; congruence|]. intros Hi. split; [by destruct (i_id i)|congruence].
  - intros i. unfold L, catalogue. rewrite list_elem_of_fmap. split.
    + intros ([id i'] & -> & Hin). rewrite merge_sort_Permutation in Hin. apply list_elem_of_omap in Hin as ([k h] & _ & Hm). cbn in Hm. destruct (S3.reference_of k s) as [[h1 b1]|] eqn:Hr; [|done].
      case_bool_decide as Hc; [|done]. injection Hm as _ <-. destruct Hc as [<- Hd]. exists h1. cbn. destruct k. by split_and!.
    + intros (h & Hr & Hd & Hs). exists (i_id i, i). split; [done|]. rewrite merge_sort_Permutation. apply list_elem_of_omap. exists ((i_id i, JIDString chat), h). split.
      * apply elem_of_map_to_list. revert Hr. unfold S3.reference_of. destruct (S3.refs s !! _) as [h0|] eqn:E; [|done]. cbn. destruct (S3.catalog s !! h0); [|done]. cbn. destruct (S3.messages s !! _); [|done]. cbn. destruct (String.eqb _ _); [|done]. by intros [= -> _].
      * cbn. rewrite Hr, bool_decide_true by done. by rewrite <-Hs; destruct i.
Qed.

(** ** The photo of [MediaMigrate.Sample], read back *)
Module Sample.
#[local] Existing Instance RefJid.ops.
Import MediaMigrate.Sample.

Definition everyone : chatPolicy := {| ChatPolicy.source := ""; restricted := false; exact := ∅; servers := ∅; invalidPositions := [] |}.
Definition message : storedMessage :=
  {| Messages.ID := "A"; Messages.ChatJID := "5511@s.whatsapp.net"; Sender := "5511@s.whatsapp.net"; Content := ""; Messages.Timestamp := 0; IsFromMe := false;
     Messages.MediaType := "image"; Messages.Filename := ""; URL := ""; MediaKey := None; FileSHA256 := None; FileEncSHA256 := None; FileLength := None;
     QuotedMessageID := ""; DirectPath := ""; Presentation := None; Location := None; RetryChat := ""; RetrySender := ""; Mentions := "" |}.
Definition db : archive := {| rows := {[("A", "5511@s.whatsapp.net") := messageArgs message]}; chat_rows := ∅ |}.
Definition asked : blob_query := {| q_chat := "5511@s.whatsapp.net"; q_id := "A"; q_offset := Some "1"; q_length := Some "2"; q_max := None; cache_only := false |}.

(** The directory store, with a download that always finds the quota full. *)
Definition ask (w : world) : nat * world * blob_reply :=
  handleMediaBlob S3.Sample.digest utc (localMediaStorage S3.Sample.calm 200 utc steady) false (λ _ _ _, 4) (λ _ n w, (n, w, Some MediaQuotaFull)) (λ _ _ _ n w, (n, w, Ok None))
    everyone db true true true asked 0 w.

Lemma blob_guarded_witness : (ask start).2 = Served true "pe" (Some (4, hex hash)) ∧
  ∃ row c, carries S3.Sample.digest asked c "pe" (Some (4, hex hash)) ∧ local_holds S3.Sample.digest utc row (S3.Sample.digest c) (ask start).1.2.
Proof.
  assert ((ask start).2 = Served true "pe" (Some (4, hex hash))) as E by (vm_compute; reflexivity). split; [done|].
  pose proof (blob_guarded S3.Sample.digest utc (localMediaStorage S3.Sample.calm 200 utc steady) false (λ _ _ _, 4) (λ _ n w, (n, w, Some MediaQuotaFull)) (λ _ _ _ n w, (n, w, Ok None))
    _ _ (local_laws S3.Sample.digest S3.Sample.calm S3.Sample.undisturbed 200 utc steady (λ _ _ _ _ H, H)) everyone db true true true asked 0 start) as Hb.
  change (handleMediaBlob _ _ _ _ _ _ _ _ _ _ _ _ _ _ _) with (ask start) in Hb. destruct (ask start) as [[n' w'] r]. cbn in E. rewrite E in Hb. destruct Hb as (chat & row & c & _ & _ & _ & _ & Hc & Hh). by exists row, c.
Defined.

(** A read of the directory backend that meets a full quota does not answer at all: the
    fallback asserts that the store is the bucket. *)
Lemma full_quota_panics : (ask {| remote := remote start; files := ∅; data := ∅ |}).2 = Panicked.
Proof. vm_compute. reflexivity. Qed.

Definition peer : RefJid.t := {| RefJid.ref_user := "5511"; RefJid.ref_device := ""; RefJid.ref_server := "s.whatsapp.net" |}.

Lemma catalogue_followed_witness : follow 5 everyone S3.Sample.stored.1.2 "5511@s.whatsapp.net" "" = Some [{| i_id := "A"; i_bytes := 4; i_sha := hex hash |}].
Proof.
  destruct (catalogue_followed everyone S3.Sample.stored.1.2 "5511@s.whatsapp.net" (peer : JID (JidOps := RefJid.ops)) 5) as [H _];
    [vm_compute; reflexivity|vm_compute; lia|]. rewrite H. vm_compute. reflexivity.
Defined.
End Sample.
