(* ===== verification/OperatorMedia.v ===== *)
(** * The operator's media pages ([operator_media.go])

    Usage of the local cache by type and chat, and the purge that walks every matching row,
    with the status files no message accounts for.  The disk, its walk and the scan of rows
    are those of [MediaPurge] and [MediaCache]. *)
From S2P Require Import Prelude Jid Http Config ChatPolicy Archive Messages MarkRead MediaNames MediaPurge MediaCache.
#[local] Open Scope Z_scope.

(** ** Usage *)

(** [mediaScope]. *)
Definition mediaScope (chat name : string) : string :=
  if String.eqb chat "status@broadcast" then "status" else match cut_first "_" name with Some (kind, _) => kind | None => name end.

Definition scope_of (x : string * (string * file)) : string := mediaScope x.1 x.2.1.

Definition tally (key : string * (string * file) → string) (m : gmap string Z) (x : string * (string * file)) : gmap string Z :=
  <[key x := default 0 (m !! key x) + size x.2.2]> m.

Definition no_bytes : gmap string Z := list_to_map ((λ k, (k, 0)) <$> ["image"; "video"; "audio"; "document"; "sticker"; "status"]).

(** More bytes first, then by name. *)
Definition larger (a b : string * Z) : Prop := b.2 < a.2 ∨ a.2 = b.2 ∧ string_le a.1 b.1.
#[export] Instance larger_dec : RelDecision larger.
Proof. intros a b. unfold larger. apply _. Defined.

Record media_usage := { total : Z; by_type : gmap string Z; by_chat : list (string * Z) }.

Definition usage_of (limit : nat) (files : list (string * (string * file))) : media_usage :=
  {| total := foldl (λ t x, t + size x.2.2) 0 files; by_type := foldl (tally scope_of) no_bytes files;
     by_chat := take limit (merge_sort larger (map_to_list (foldl (tally fst) ∅ files))) |}.

Definition usage_limit (raw : string) : result Http.reply nat :=
  let refused := Err (Http.writeError 400 "limit must be 1-100") in
  if String.eqb raw "" then Ok 20%nat
  else match Atoi raw with Some n => if (n <? 1) || (100 <? n) then refused else Ok (Z.to_nat n) | None => refused end.

(** [handleOperatorMediaUsage] of the directory; the quota of the settings is reported
    beside it. *)
Definition handleOperatorMediaUsage (raw : string) (walked settings_ok : bool) (d : disk) : result Http.reply media_usage :=
  match usage_limit raw with
  | Err r => Err r
  | Ok limit =>
      if negb walked then Err (Http.writeError 503 "Media usage unavailable")
      else if negb settings_ok then Err (Http.writeError 503 "Runtime settings unavailable")
      else Ok (usage_of limit (cached_files d))
  end.

(** ** The purge *)

(** [operatorMediaPurge]. *)
Record operatorMediaPurge := { p_type : string; p_chat : string; OlderDays : Z; p_dry : option bool; IncludeOrphans : bool }.

Record operatorMediaResult := { DryRun : bool; Files : nat; FreedBytes : Z; OrphanFiles : nat; OrphanBytes : Z; Failed : nat }.

Section Purge.
Context `{JidOps} (zone : Z → Z).

(** The checks of [handleOperatorMediaPurge]; the request as the scan sees it. *)
Definition checked_request (s3 store : bool) (req : operatorMediaPurge) : result Http.reply operatorMediaPurge :=
  let bad := λ m, Err (Http.writeError 400 m) in
  if negb (bool_decide (p_type req ∈ "all" :: "status" :: purgeMediaTypes)) then bad "type is required: image, video, audio, document, sticker, status or all"
  else if (OlderDays req <? 0) || (106751 <? OlderDays req) || (IncludeOrphans req && negb (String.eqb (p_type req) "status") && negb s3) then bad "Invalid age or orphan filter"
  else
    match (if String.eqb (p_chat req) "" then Ok ""
           else match canonicalChatJID (p_chat req) false with
                | Ok chat => if bool_decide (is_Some (checkMediaPathComponents (chatMediaRel (JIDString chat)) "probe")) then Err tt else Ok (JIDString chat)
                | Err _ => Err tt
                end) with
    | Err _ => bad "Invalid chat_jid"
    | Ok chat =>
        if String.eqb (p_type req) "status" && negb (String.eqb chat "") && negb (String.eqb chat "status@broadcast") then bad "status requires the status chat"
        else if negb store then Err (Http.writeError 503 "Media store unavailable")
        else Ok {| p_type := p_type req; p_chat := if String.eqb (p_type req) "status" then "status@broadcast" else chat;
                   OlderDays := OlderDays req; p_dry := p_dry req; IncludeOrphans := IncludeOrphans req |}
    end.

(** The walk's state: the disk, the result, the status files no row accounted for yet, the
    rows examined and whether the request ended. *)
Record walk := { w_disk : disk; w_result : operatorMediaResult; orphans : gset string; examined : nat; ended : bool }.

Definition set_result (d : disk) (r : operatorMediaResult) (w : walk) : walk :=
  {| w_disk := d; w_result := r; orphans := orphans w; examined := examined w; ended := ended w |}.

Definition add_file (bytes : Z) (r : operatorMediaResult) : operatorMediaResult :=
  {| DryRun := DryRun r; Files := S (Files r); FreedBytes := FreedBytes r + bytes; OrphanFiles := OrphanFiles r; OrphanBytes := OrphanBytes r; Failed := Failed r |}.
Definition add_failure (r : operatorMediaResult) : operatorMediaResult :=
  {| DryRun := DryRun r; Files := Files r; FreedBytes := FreedBytes r; OrphanFiles := OrphanFiles r; OrphanBytes := OrphanBytes r; Failed := S (Failed r) |}.
Definition add_orphan (bytes : Z) (r : operatorMediaResult) : operatorMediaResult :=
  {| DryRun := DryRun r; Files := Files r; FreedBytes := FreedBytes r; OrphanFiles := S (OrphanFiles r); OrphanBytes := OrphanBytes r + bytes; Failed := Failed r |}.

(** One cached name of a status row. *)
Definition purge_name (chat : string) (dr : disk * operatorMediaResult) (name : string) : disk * operatorMediaResult :=
  let '(d, r) := dr in
  match findCachedMedia (d_kind (dir_of d chat)) (d_opened (dir_of d chat)) (stat_in (dir_of d chat)) chat [name] with
  | RefusedPath _ => (d, add_failure r)
  | NotCached => (d, r)
  | Found name =>
      if DryRun r then (d, add_file (file_size d chat name) r)
      else if file_removable d chat name then (MediaPurge.remove chat name d, add_file (file_size d chat name) r)
      else (d, add_failure r)
  end.

Definition accounted (row : mediaRow) : list string :=
  filter (λ n, checkMediaPathComponents (chatMediaRel (ChatJID row)) n = None) (names_of zone row).

Definition is_status_type (req : operatorMediaPurge) : bool := String.eqb (p_type req) "status".

(** The callback of the scan; [over n] once the request ended before the n-th row. *)
Definition purge_row (req : operatorMediaPurge) (before : option Z) (over : nat → bool) (w : walk) (row : mediaRow) : walk * bool :=
  let w := {| w_disk := w_disk w; w_result := w_result w; orphans := orphans w; examined := S (examined w); ended := ended w |} in
  if over (examined w) then ({| w_disk := w_disk w; w_result := w_result w; orphans := orphans w; examined := examined w; ended := true |}, false)
  else if negb (String.eqb (p_type req) "all") && negb (is_status_type req) && String.eqb (ChatJID row) "status@broadcast" then (w, true)
  else
    let w := {| w_disk := w_disk w; w_result := w_result w; orphans := orphans w ∖ list_to_set (accounted row); examined := examined w; ended := ended w |} in
    if match before with Some b => negb (Timestamp row <? b) | None => false end then (w, true)
    else if is_status_type req then
      let '(d, r) := foldl (purge_name (chatMediaRel (ChatJID row))) (w_disk w, w_result w) (remove_dups (names_of zone row)) in (set_result d r w, true)
    else
      let '(d, res) := purgeOne zone row (DryRun (w_result w)) (w_disk w) in
      (set_result d (if Purged res then add_file (Bytes res) (w_result w)
                     else match Reason res with NotCachedReason => w_result w | _ => add_failure (w_result w) end) w, true).

(** One status file of the last walk. *)
Definition purge_orphan (req : operatorMediaPurge) (before : option Z) (names : gset string) (dr : disk * operatorMediaResult) (x : string * (string * file)) : disk * operatorMediaResult :=
  let '(d, r) := dr in
  let '(chat, (name, g)) := x in
  if negb (String.eqb chat "status@broadcast") || negb (bool_decide (name ∈ names)) || match before with Some b => negb (mtime g <? b) | None => false end then (d, r)
  else
    let r := add_orphan (size g) r in
    if negb (IncludeOrphans req) then (d, r)
    else if DryRun r then (d, add_file (size g) r)
    else if removable g then (MediaPurge.remove chat name d, add_file (size g) r)
    else (d, add_failure r).

Definition everyone : chatPolicy := {| ChatPolicy.source := ""; restricted := false; exact := ∅; servers := ∅; invalidPositions := [] |}.

(** [purgeOperatorMediaProgress] of the directory: [maxInt] bounds the scan, [first] says
    whether the first walk over the files got through, [reached] how far the last one came if
    it did not; the last component is false with an error. *)
Definition purgeOperatorMedia (cutoff : Z → Z) (maxInt : nat) (first : bool) (reached : option nat) (over : nat → bool) (req : operatorMediaPurge) (db : archive) (d : disk) : disk * operatorMediaResult * bool :=
  let r0 := {| DryRun := default true (p_dry req); Files := 0; FreedBytes := 0; OrphanFiles := 0; OrphanBytes := 0; Failed := 0 |} in
  let before := if 0 <? OlderDays req then Some (cutoff (OlderDays req)) else None in
  let kind := if bool_decide (p_type req ∈ ["all"; "status"]) then "" else p_type req in
  let status := is_status_type req in
  if status && negb first then (d, r0, false)
  else
    let names := if status then list_to_set ((λ x, x.2.1) <$> filter (λ x, is_status x = true) (cached_files d)) else ∅ in
    let w0 := {| w_disk := d; w_result := r0; orphans := names; examined := 0; ended := false |} in
    match EachMediaRowMatching (p_chat req) None None kind everyone maxInt (purge_row req before over) db w0 with
    | None => (d, r0, false)
    | Some (w, _) =>
        if ended w then (w_disk w, w_result w, false)
        else if status then
          let '(d, r) := foldl (purge_orphan req before (orphans w)) (w_disk w, w_result w) (match reached with Some k => take k (cached_files (w_disk w)) | None => cached_files (w_disk w) end) in (d, r, bool_decide (reached = None))
        else (w_disk w, w_result w, true)
    end.
End Purge.

(** ** Lemmas *)

(** From [d] to [d'] nothing appeared or changed, and what went satisfies [P]. *)
Definition only_gone (P : string → string → file → Prop) (d d' : disk) : Prop :=
  (∀ c n g, file_at d c n = Some g → file_at d' c n = Some g ∨ file_at d' c n = None ∧ P c n g) ∧ (∀ c n g, file_at d' c n = Some g → file_at d c n = Some g).

#[export] Instance only_gone_preorder P : PreOrder (only_gone P).
Proof.
  split; [by split; auto|]. intros d1 d2 d3 [A1 A2] [B1 B2]. split; [|auto]. intros c n g Hg. destruct (A1 c n g Hg) as [H1|[H1 H2]]; [by apply B1|]. right. split; [|done].
  destruct (file_at d3 c n) as [g'|] eqn:E; [|done]. apply B2 in E. congruence.
Qed.

Lemma only_gone_remove (P : string → string → file → Prop) c n d : (∀ g, file_at d c n = Some g → P c n g) → only_gone P d (MediaPurge.remove c n d).
Proof.
  intros HP. split; intros c' n' g; rewrite file_at_remove.
  - intros Hg. case_bool_decide as E; [|by left]. destruct E as [-> ->]. right. auto.
  - by case_bool_decide.
Qed.

Lemma only_gone_weaken (P Q : string → string → file → Prop) d d' : (∀ c n g, P c n g → Q c n g) → only_gone P d d' → only_gone Q d d'.
Proof. intros HPQ [H1 H2]. split; [|done]. intros c n g Hg. destruct (H1 c n g Hg) as [?|[? ?]]; auto. Qed.

Section Proofs.
Context `{JidOps} (zone : Z → Z) (req : operatorMediaPurge) (before : option Z) (over : nat → bool).

(** The files of a row. *)
Definition of_one (row : mediaRow) (c n : string) (g : file) : Prop := kind g = RegularFile ∧ c = chatMediaRel (ChatJID row) ∧ n ∈ names_of zone row.

(** Whether the request reaches the row. *)
Definition in_scope (row : mediaRow) : Prop :=
  (p_type req = "all" ∨ p_type req = "status" ∨ ChatJID row ≠ "status@broadcast") ∧ (∀ b, before = Some b → Timestamp row < b).

Lemma purge_name_gone row names dr : (∀ n, n ∈ names → n ∈ names_of zone row) → let dr' := foldl (purge_name (chatMediaRel (ChatJID row))) dr names in
  only_gone (of_one row) dr.1 dr'.1 ∧ DryRun dr'.2 = DryRun dr.2 ∧ (DryRun dr.2 = true → dr'.1 = dr.1).
Proof.
  revert dr. induction names as [|n names IH]; intros [d r] Hn; cbn [foldl]; [by split_and!|].
  assert (let dr' := purge_name (chatMediaRel (ChatJID row)) (d, r) n in only_gone (of_one row) d dr'.1 ∧ DryRun dr'.2 = DryRun r ∧ (DryRun r = true → dr'.1 = d)) as H1.
  { cbn [purge_name]. destruct (findCachedMedia _ _ _ _ _) as [x| |] eqn:Hf; [|by split_and!..]. destruct (DryRun r) eqn:Hd; [by split_and!|]. destruct (file_removable _ _ _); [|by split_and!]. split_and!; [|done|done].
    revert Hf. unfold findCachedMedia. destruct (omap _ _); [|done]. destruct (d_kind _); try done. destruct (d_opened _); [|done]. intros [Hin Hs]%found_in_dir. apply list_elem_of_singleton in Hin as ->.
    apply only_gone_remove. intros g Hg. split_and!; [|done|apply Hn; by left]. unfold stat_in in Hs. unfold file_at in Hg. by rewrite Hg in Hs. }
  destruct (purge_name _ (d, r) n) as [d1 r1]. destruct H1 as (A1 & A2 & A3). cbn [fst snd] in *. destruct (IH (d1, r1)) as (B1 & B2 & B3); [intros x Hx; apply Hn; by right|]. cbn [fst snd] in *.
  split_and!; [by etrans|congruence|]. intros Hd. rewrite B3, A3; congruence.
Qed.

Lemma purge_row_gone w row : let '(w', more) := purge_row zone req before over w row in
  only_gone (λ c n g, in_scope row ∧ of_one row c n g) (w_disk w) (w_disk w') ∧ DryRun (w_result w') = DryRun (w_result w) ∧ (DryRun (w_result w) = true → w_disk w' = w_disk w) ∧
  orphans w' ⊆ orphans w ∧ (more = false → ended w' = true) ∧
  (more = true → ended w' = ended w ∧ (p_type req = "status" → ∀ n, n ∈ accounted zone row → n ∉ orphans w')).
Proof.
  unfold purge_row. cbn [examined w_disk w_result orphans ended]. destruct (over _); [by split_and!|].
  destruct (negb (String.eqb (p_type req) "all") && negb (is_status_type req) && String.eqb (ChatJID row) "status@broadcast") eqn:Hsk.
  { split_and!; [done..|]. intros _. split; [done|]. intros E. unfold is_status_type in Hsk. rewrite E in Hsk. done. }
  assert (∀ X : gset string, X ∖ list_to_set (accounted zone row) ⊆ X ∧ ∀ n, n ∈ accounted zone row → n ∉ X ∖ list_to_set (accounted zone row)) as HX by (intros X; set_solver).
  destruct (HX (orphans w)) as [HX1 HX2].
  destruct (match before with Some b => negb (Timestamp row <? b) | None => false end) eqn:Hold; [by split_and!|].
  assert (in_scope row) as Hin.
  { split; [|intros b ->; lia]. unfold is_status_type in Hsk. destruct (String.eqb_spec (p_type req) "all"); [by left|]. destruct (String.eqb_spec (p_type req) "status"); [by right; left|]. right. right. intros E. by rewrite E, String.eqb_refl in Hsk. }
  destruct (is_status_type req).
  - destruct (purge_name_gone row (remove_dups (names_of zone row)) (w_disk w, w_result w)) as (A1 & A2 & A3); [intros n; by rewrite elem_of_remove_dups|].
    destruct (foldl _ _ _) as [d r]. cbn [fst snd] in *. split_and!; [|done|done|done|done|done]. eapply only_gone_weaken; [|exact A1]. auto.
  - destruct (DryRun (w_result w)) eqn:Hdry.
    + pose proof (purgeOne_dry zone (w_disk w) row) as Hd. destruct (purgeOne zone row true (w_disk w)) as [d res]. cbn in Hd. subst d. split_and!; try done. cbn. destruct (Purged res); [done|]. by destruct (Reason res).
    + destruct (purgeOne zone row false (w_disk w)) as [d res] eqn:Hp. apply purgeOne_real in Hp as [[T1 T2 _] _]. split_and!; [|cbn; destruct (Purged res); [done|]; by destruct (Reason res)|done|done|done|done].
      split; [|exact T2]. intros c n g Hg. destruct (T1 c n g Hg) as [?|(? & (row' & Hr & Hc & Hn) & Hk)]; [by left|right]. apply list_elem_of_singleton in Hr as ->. by split_and!.
Qed.

Lemma scan_gone maxInt page scanned w : let '(w', _, _) := visit everyone maxInt (purge_row zone req before over) page scanned w in
  only_gone (λ c n g, ∃ kr, kr ∈ page ∧ in_scope (row_of kr) ∧ of_one (row_of kr) c n g) (w_disk w) (w_disk w') ∧ DryRun (w_result w') = DryRun (w_result w) ∧
  (DryRun (w_result w) = true → w_disk w' = w_disk w) ∧ orphans w' ⊆ orphans w ∧
  (p_type req = "status" → ended w' = false → (length page + scanned ≤ maxInt)%nat → ∀ kr, kr ∈ page → Allows everyone kr.1.2 = true → ∀ n, n ∈ accounted zone (row_of kr) → n ∉ orphans w').
Proof.
  revert scanned w. induction page as [|kr page IH]; intros scanned w; cbn [visit]; [split_and!; try done; by intros ? ? ? kr ?%elem_of_nil|].
  assert (∀ d d', only_gone (λ c n g, ∃ kr0, kr0 ∈ page ∧ in_scope (row_of kr0) ∧ of_one (row_of kr0) c n g) d d' → only_gone (λ c n g, ∃ kr0, kr0 ∈ kr :: page ∧ in_scope (row_of kr0) ∧ of_one (row_of kr0) c n g) d d') as Hmono
    by (intros d d'; apply only_gone_weaken; intros c n g (k & Hk & ?); exists k; split; [by right|done]).
  destruct (Allows everyone kr.1.2) eqn:Ha; cbn [negb].
  2:{ specialize (IH scanned w). destruct (visit _ _ _ page scanned w) as [[w' n'] cut]. destruct IH as (A1 & A2 & A3 & A4 & A5). split_and!; [by apply Hmono|done|done|done|].
      intros Ht He Hl k Hk Hal. apply elem_of_cons in Hk as [->|Hk]; [congruence|]. apply A5; [done|done|cbn in Hl; lia|done|done]. }
  destruct (Nat.leb_spec maxInt scanned).
  { split_and!; try done. intros _ _ Hl. cbn in Hl. lia. }
  pose proof (purge_row_gone w (row_of kr)) as Hr. destruct (purge_row zone req before over w (row_of kr)) as [w1 more]. destruct Hr as (R1 & R2 & R3 & R4 & R5 & R6).
  assert (only_gone (λ c n g, ∃ kr0, kr0 ∈ kr :: page ∧ in_scope (row_of kr0) ∧ of_one (row_of kr0) c n g) (w_disk w) (w_disk w1)) as R1' by (eapply only_gone_weaken; [|exact R1]; intros c n g Hg; exists kr; split; [by left|done]).
  destruct more; [|split_and!; try done; intros _ He; rewrite R5 in He; done].
  specialize (IH (S scanned) w1). destruct (visit _ _ _ page (S scanned) w1) as [[w' n'] cut]. destruct IH as (A1 & A2 & A3 & A4 & A5). destruct (R6 eq_refl) as [R7 R8]. split_and!.
  - etrans; [exact R1'|by apply Hmono].
  - congruence.
  - intros Hd. rewrite A3, R3; congruence.
  - by etrans.
  - intros Ht He Hl k Hk Hal n Hn. apply elem_of_cons in Hk as [->|Hk]; [intros Ho; apply A4 in Ho; by eapply R8|]. eapply A5; [done|done|cbn in Hl; lia|done|done|done].
Qed.

(** A status file no row accounts for. *)
Definition stray (d : disk) (names : gset string) (c n : string) (g : file) : Prop :=
  IncludeOrphans req = true ∧ c = "status@broadcast" ∧ n ∈ names ∧ cached_name c n g = true ∧ file_at d c n = Some g ∧ (∀ b, before = Some b → mtime g < b).

Lemma orphans_gone names d0 l dr : Forall (λ x, x ∈ cached_files d0) l → only_gone (stray d0 names) d0 dr.1 → let dr' := foldl (purge_orphan req before names) dr l in
  only_gone (stray d0 names) d0 dr'.1 ∧ DryRun dr'.2 = DryRun dr.2 ∧ (DryRun dr.2 = true → dr'.1 = dr.1).
Proof.
  intros Hl. revert dr. induction Hl as [|[c [n g]] l Hx Hl IH]; intros [d r] Hd; cbn [foldl]; [by split_and!|]. cbn [fst snd] in *.
  assert (let dr' := purge_orphan req before names (d, r) (c, (n, g)) in only_gone (stray d0 names) d0 dr'.1 ∧ DryRun dr'.2 = DryRun r ∧ (DryRun r = true → dr'.1 = d)) as H1.
  { cbn [purge_orphan]. destruct (String.eqb_spec c "status@broadcast") as [Hc|]; cbn [negb orb]; [|by split_and!]. case_bool_decide as Hn; cbn [negb orb]; [|by split_and!].
    destruct (match before with Some b => negb (mtime g <? b) | None => false end) eqn:Hb; [by split_and!|]. destruct (IncludeOrphans req) eqn:Hi; cbn [negb]; [|by split_and!]. cbn [DryRun add_orphan].
    destruct (DryRun r) eqn:Hdry; [by split_and!|]. destruct (removable g); [|by split_and!]. split_and!; [|done|done]. etrans; [exact Hd|]. apply only_gone_remove. intros g' Hg'.
    apply (proj2 Hd) in Hg'. apply cached_files_spec in Hx as (_ & Hf & Hcn). assert (g' = g) as -> by congruence. unfold stray. split_and!; try done. intros b E. rewrite E in Hb. lia. }
  destruct (purge_orphan _ _ _ (d, r) _) as [d1 r1]. destruct H1 as (A1 & A2 & A3). cbn [fst snd] in *. destruct (IH (d1, r1) A1) as (B1 & B2 & B3). cbn [fst snd] in *.
  split_and!; [done|congruence|]. intros E. rewrite B3, A3; congruence.
Qed.
End Proofs.

Lemma checked_status `{JidOps} s3 store raw req : checked_request s3 store raw = Ok req → p_type req ∈ "all" :: "status" :: purgeMediaTypes ∧ (p_type req = "status" → p_chat req = "status@broadcast").
Proof.
  unfold checked_request. case_bool_decide as Ht; cbn [negb]; [|done]. destruct (_ || _ || _); [done|]. destruct (if String.eqb (p_chat raw) "" then _ else _) as [chat|]; [|done]. destruct (_ && _); [done|]. destruct store; cbn [negb]; [|done].
  intros [= <-]. cbn. split; [done|]. by intros ->.
Qed.

Lemma matching_elem chat before kind db kr : kr ∈ matching chat before kind db ↔ rows db !! kr.1 = Some kr.2 ∧ row_matches chat before kind kr = true.
Proof. unfold matching. rewrite merge_sort_Permutation, list_elem_of_filter. destruct kr as [k r]. rewrite elem_of_map_to_list. cbn. naive_solver. Qed.

(** Why a purge may take a file: it is the file of a row in the request's chat, of its type
    and age, or, when the status files without a message were asked for, one of those. *)
Definition purgeable (zone : Z → Z) (req : operatorMediaPurge) (before : option Z) (db : archive) (c n : string) (g : file) : Prop :=
  (∃ k r, rows db !! k = Some r ∧ let row := row_of (k, r) in kind g = RegularFile ∧ c = chatMediaRel (ChatJID row) ∧ n ∈ names_of zone row ∧
     (p_chat req = "" ∨ ChatJID row = p_chat req) ∧ (p_type req = "all" ∨ p_type req = "status" ∨ MediaType row = p_type req ∧ ChatJID row ≠ "status@broadcast") ∧
     (∀ b, before = Some b → Timestamp row < b)) ∨
  (p_type req = "status" ∧ IncludeOrphans req = true ∧ c = "status@broadcast" ∧ cached_name c n g = true ∧ (∀ b, before = Some b → mtime g < b) ∧
   ∀ k r, rows db !! k = Some r → k.2 = "status@broadcast" → media_type r ∈ purgeMediaTypes → n ∉ accounted zone (row_of (k, r))).

(** [C16] The operator's purge takes what was asked for and nothing else.  A dry run, the
    default, leaves the disk as it is.  A real run, wherever it is cut short, creates and
    changes nothing, and every file it took is a regular file a message of the requested
    chat, type and age accounts for (a status file only under its own type or "all"), or,
    when they were asked for, a generated file of the status feed of that age that no stored
    status accounts for. *)
Theorem operator_purge_confined `{JidOps} (zone cutoff : Z → Z) (maxInt : nat) (first : bool) (reached : option nat) (over : nat → bool) (raw req : operatorMediaPurge) (db : archive) (d : disk)
    (Hreq : checked_request false true raw = Ok req) (Hmax : (base.size (rows db) ≤ maxInt)%nat) :
  let '(d', result, _) := purgeOperatorMedia zone cutoff maxInt first reached over req db d in
  let before := if 0 <? OlderDays req then Some (cutoff (OlderDays req)) else None in
  (default true (p_dry req) = true → d' = d) ∧ DryRun result = default true (p_dry req) ∧ only_gone (purgeable zone req before db) d d'.
Proof.
  destruct (checked_status _ _ _ _ Hreq) as [Htype Hstatus]. unfold purgeOperatorMedia. set (before := if 0 <? OlderDays req then _ else _). set (k := if bool_decide (p_type req ∈ ["all"; "status"]) then _ else _).
  destruct (is_status_type req && negb first); [by split_and!|]. set (names := if is_status_type req then _ else _). rewrite each_row_once. cbn [after]. set (page := matching _ _ _ _). set (w0 := {| w_disk := d; w_result := _; orphans := _; examined := _; ended := _ |}).
  pose proof (scan_gone zone req before over maxInt page 0 w0) as Hs. destruct (visit _ _ _ page 0 w0) as [[w n] cut]. destruct Hs as (S1 & S2 & S3 & _ & S5). cbn [w_disk w_result w0 DryRun] in S1, S2, S3.
  assert (only_gone (purgeable zone req before db) d (w_disk w)) as G1.
  { eapply only_gone_weaken; [|exact S1]. intros c x g (kr & Hkr & [Hi1 Hi2] & Hk & Hc & Hn). apply matching_elem in Hkr as [Hrow Hm]. left. exists kr.1, kr.2. split; [done|]. cbv zeta. rewrite <-surjective_pairing. split_and!; [done..| | |done].
    - unfold row_matches in Hm. apply andb_true_iff in Hm as [[[_ Hm]%andb_true_iff _]%andb_true_iff _]. apply orb_true_iff in Hm as [Hm|Hm]; apply String.eqb_eq in Hm; [by left|by right].
    - destruct Hi1 as [?|[?|Hne]]; [by left|by right; left|]. destruct (decide (p_type req ∈ ["all"; "status"])) as [Hin|Hin]; [set_solver|]. right. right. split; [|done].
      unfold row_matches, k in Hm. rewrite (bool_decide_false (p_type req ∈ _)) in Hm by done. apply andb_true_iff in Hm as [_ Hm]. apply orb_true_iff in Hm as [Hm|Hm]; apply String.eqb_eq in Hm; [|done]. exfalso. rewrite Hm in Htype. clear -Htype. set_solver. }
  destruct (ended w) eqn:He; [by split_and!|]. destruct (is_status_type req) eqn:Hst; [|by split_and!]. apply String.eqb_eq in Hst.
  set (l := match reached with Some j => _ | None => _ end). destruct (orphans_gone req before (orphans w) (w_disk w) l (w_disk w, w_result w)) as (O1 & O2 & O3).
  { unfold l. apply Forall_forall. intros x Hx. destruct reached; [|done]. apply elem_of_take in Hx as (i & Hi & _). by eapply list_elem_of_lookup_2. } { done. }
  destruct (foldl _ _ l) as [d2 r2]. cbn [fst snd] in *. split_and!; [intros E; rewrite O3, S3; congruence|congruence|]. etrans; [exact G1|]. eapply only_gone_weaken; [|exact O1].
  intros c x g (A1 & A2 & A3 & A4 & _ & A6). right. split_and!; try done. intros key r Hrow Hk Hm Hacc. revert A3. refine (S5 Hst eq_refl _ (key, r) _ _ x Hacc); [|apply matching_elem; split; [exact Hrow|]|].
  - unfold page, matching. rewrite merge_sort_Permutation. pose proof (length_filter (λ kr, row_matches (p_chat req) None k kr = true) (map_to_list (rows db))) as Hlf. rewrite length_map_to_list in Hlf. lia.
  - unfold row_matches, k. cbn [snd fst]. rewrite (bool_decide_true (media_type r ∈ _)) by done. rewrite Hstatus, Hk by done. rewrite bool_decide_true by (rewrite Hst; set_solver). done.
  - cbn [fst]. by rewrite Hk.
Qed.

(** ** Usage adds up *)

Lemma tally_lookup key l : ∀ m k, foldl (tally key) m l !! k =
  if decide (is_Some (m !! k) ∨ k ∈ key <$> l) then Some (default 0 (m !! k) + bytes_of (filter (λ x, key x = k) l)) else None.
Proof.
  induction l as [|x l IH]; intros m k; cbn [foldl].
  - destruct (m !! k) as [b|] eqn:E; [rewrite decide_True by eauto; cbn; f_equal; unfold bytes_of; cbn; lia|]. rewrite decide_False; [done|]. intros [[? ?]|?%elem_of_nil]; done.
  - rewrite IH. rewrite fmap_cons. assert (bytes_of (filter (λ x, key x = k) (x :: l)) = (if decide (key x = k) then size x.2.2 else 0) + bytes_of (filter (λ x, key x = k) l)) as ->
      by (rewrite filter_cons; destruct (decide (key x = k)); unfold bytes_of; cbn; lia).
    unfold tally. destruct (decide (key x = k)) as [E|Hne].
    + rewrite E, lookup_insert_eq. rewrite !decide_True by (try (by left; eauto); right; by left). cbn [default]. f_equal. cbn. lia.
    + rewrite lookup_insert_ne by done. destruct (decide (is_Some (m !! k) ∨ k ∈ key <$> l)) as [Hin|Hin]; [rewrite decide_True by (destruct Hin; [by left|right; by right]); f_equal; lia|].
      rewrite decide_False; [done|]. intros [?|[?|?]%elem_of_cons]; [apply Hin; by left|congruence|apply Hin; by right].
Qed.

Lemma total_bytes l : ∀ t, foldl (λ t (x : string * (string * file)), t + size x.2.2) t l = t + bytes_of l.
Proof. induction l as [|x l IH]; intros t; unfold bytes_of in *; cbn; [lia|]. rewrite IH. cbn. lia. Qed.

#[export] Instance larger_total : Total larger.
Proof. intros [a x] [b y]. unfold larger. cbn. pose proof (string_leb_total a b). unfold string_le. destruct (Z.lt_trichotomy x y) as [?|[->|?]]; [right; lia|naive_solver|left; lia]. Qed.

#[export] Instance larger_trans : Transitive larger.
Proof. intros [a x] [b y] [c z]. unfold larger. cbn. intros [?|[-> ?]] [?|[-> ?]]; [left; lia|left; lia|left; lia|right]. split; [done|by eapply string_le_trans]. Qed.

(** The usage page adds up: the total is the bytes of all cached files, each type and each
    chat has exactly its files, and the chats listed are the largest, no other one being
    larger than any of them. *)
Theorem usage_exact (raw : string) (d : disk) (u : media_usage) (Hu : handleOperatorMediaUsage raw true true d = Ok u) :
  let files := cached_files d in
  total u = bytes_of files ∧
  (∀ k, k ∈ ["image"; "video"; "audio"; "document"; "sticker"; "status"] ∨ k ∈ scope_of <$> files → by_type u !! k = Some (bytes_of (filter (λ x, scope_of x = k) files))) ∧
  (length (by_chat u) ≤ 100)%nat ∧ StronglySorted larger (by_chat u) ∧
  (∀ c b, (c, b) ∈ by_chat u → b = bytes_of (filter (λ x, x.1 = c) files)) ∧
  (∀ c, c ∈ files.*1 → c ∈ (by_chat u).*1 ∨ ∀ x, x ∈ by_chat u → larger x (c, bytes_of (filter (λ x, x.1 = c) files))).
Proof.
  revert Hu. unfold handleOperatorMediaUsage. destruct (usage_limit raw) as [limit|] eqn:Hl; [|done]. intros [= <-]. set (files := cached_files d). cbn [negb usage_of total by_type by_chat].
  set (m := foldl (tally fst) ∅ files). set (s := merge_sort larger (map_to_list m)).
  assert (StronglySorted larger s) as Hs by (apply Sorted_StronglySorted; [apply _|apply Sorted_merge_sort, _]).
  assert (∀ c b, (c, b) ∈ s ↔ c ∈ files.*1 ∧ b = bytes_of (filter (λ x, x.1 = c) files)) as Hel.
  { intros c b. unfold s. rewrite merge_sort_Permutation, elem_of_map_to_list. unfold m. rewrite tally_lookup, lookup_empty. destruct (decide _) as [Hin|Hin]; cbn.
    - split; [intros [= <-]|intros [_ ->]; done]. split; [|done]. destruct Hin as [[? ?]|?]; done.
    - split; [done|]. intros [Hc _]. exfalso. apply Hin. by right. }
  split_and!.
  - rewrite total_bytes. lia.
  - intros k Hk. rewrite tally_lookup. assert (no_bytes !! k = Some 0 ∨ (k ∉ ["image"; "video"; "audio"; "document"; "sticker"; "status"]) ∧ no_bytes !! k = None) as Hn.
    { destruct (decide (k ∈ ["image"; "video"; "audio"; "document"; "sticker"; "status"])) as [Hin|Hin]; [left|right; split; [done|]].
      - assert (Forall (λ k, no_bytes !! k = Some 0) ["image"; "video"; "audio"; "document"; "sticker"; "status"]) as Hall by (repeat constructor). rewrite Forall_forall in Hall. by apply Hall.
      - apply not_elem_of_list_to_map_1. rewrite <-list_fmap_compose. intros (y & -> & Hy)%list_elem_of_fmap. by apply Hin. }
    destruct Hn as [Hn|[Hn1 Hn2]]; [rewrite Hn, decide_True by (by left; eauto); cbn; f_equal; lia|]. rewrite Hn2, decide_True by (right; destruct Hk; done). done.
  - rewrite length_take. assert (limit ≤ 100)%nat; [|lia]. revert Hl. unfold usage_limit. destruct (String.eqb raw ""); [intros [= <-]; lia|]. destruct (Atoi raw) as [z|]; [|done]. destruct ((z <? 1) || (100 <? z)) eqn:E; [done|]. intros [= <-]. lia.
  - rewrite <-(take_drop limit s) in Hs. by apply StronglySorted_app_1_l in Hs.
  - intros c b Hin. apply elem_of_take in Hin as (i & Hi & _). apply list_elem_of_lookup_2 in Hi. by apply Hel.
  - intros c Hc. assert ((c, bytes_of (filter (λ x, x.1 = c) files)) ∈ s) as Hin by (apply Hel; done). rewrite <-(take_drop limit s) in Hin. apply elem_of_app in Hin as [Hin|Hin].
    + left. apply list_elem_of_fmap. by eexists (c, _).
    + right. intros x Hx. rewrite <-(take_drop limit s) in Hs. by eapply StronglySorted_app_1_elem_of.
Qed.

(** ** A stray file of the status feed *)
Module Sample.
#[local] Existing Instance RefJid.ops.

Definition utc (t : Z) : Z := t.
Definition a_file : file := {| kind := RegularFile; size := 7; mtime := 0; removable := true |}.
Definition stray_name : string := "image_19700101_000000_ZZ.jpg".
Definition feed : disk := {[ "status@broadcast" := {| d_kind := Directory; d_opened := true; entries := {[ stray_name := a_file ]} |} ]}.
Definition empty_db : archive := {| rows := ∅; chat_rows := ∅ |}.
Definition asked : operatorMediaPurge := {| p_type := "status"; p_chat := "status@broadcast"; OlderDays := 0; p_dry := Some false; IncludeOrphans := true |}.
Definition run : disk * operatorMediaResult * bool := purgeOperatorMedia utc utc 10 true None (λ _, false) asked empty_db feed.

Lemma operator_purge_confined_witness : Files run.1.2 = 1%nat ∧ file_at run.1.1 "status@broadcast" stray_name = None ∧ only_gone (purgeable utc asked None empty_db) feed run.1.1.
Proof.
  split; [vm_compute; reflexivity|]. split; [vm_compute; reflexivity|].
  assert (checked_request false true asked = Ok asked) as Hreq by (vm_compute; reflexivity). assert (base.size (rows empty_db) ≤ 10)%nat as Hmax by (vm_compute; lia).
  pose proof (operator_purge_confined utc utc 10 true None (λ _, false) asked asked empty_db feed Hreq Hmax) as H. fold run in H. destruct run as [[d' r] e]. by destruct H as (_ & _ & H).
Defined.

Definition shown : media_usage := usage_of 20 (cached_files feed).
Lemma usage_exact_witness : handleOperatorMediaUsage "" true true feed = Ok shown ∧ total shown = 7 ∧ total shown = bytes_of (cached_files feed).
Proof.
  assert (handleOperatorMediaUsage "" true true feed = Ok shown) as H by reflexivity. split; [exact H|]. split; [vm_compute; reflexivity|]. exact (proj1 (usage_exact "" feed shown H)).
Defined.
End Sample.
